(* ===== verification/_CoqProject ===== *)
-Q . S2P
Prelude.v
Sds.v
VectorClock.v
LamportClock.v
Causal.v
Double.v
Exact.v
RWFramework.v
RwfZset.v
ARSet.v
RZset.v
OZset.v
OzMirror.v
Leid.v
Util.v
Score.v
Skiplist.v
SkiplistRep.v
SkiplistSpec.v
Zset.v
Bytes.v
Ziplist.v
ZiplistSpec.v
ZiplistEdit.v
ZiplistRefine.v
ZiplistMerge.v
ZiplistLaws.v
ZsetSpec.v
ZRange.v
ZRangeSpec.v
Store.v
ZCommand.v
Crdt.v
ZCommandSpec.v
ZWriteSpec.v
RWFCommand.v
RwfzCmd.v
Container.v
RwfzSpec.v
P2P.v
System.v
RwfzSystem.v
TlaNet.v
TlaSim.v
TlaRwf.v
RwfzRefine.v
QueueSpec.v
RzCmd.v
OzCmd.v
RzSpec.v
RzSystem.v
TlaRmvwin.v
TlaLeid.v
TlaList.v
TlaAddwin.v
RzRefine.v
OzSpec.v
OzSystem.v
OzRefine.v
ListBasics.v
ListLink.v
ListSpec.v
ListPrepare.v
RwfList.v
RwfListSpec.v
RwfListConv.v
RwfListLocal.v
RList.v
RListConv.v
RListSpec.v
RListSystem.v
