(* ===== verification/Prelude.v ===== *)
(** * CRDT-Redis: a verification of the replicated data types

    CRDT-Redis extends Redis 6.0.5 to multi-master replication: every server
    accepts writes, broadcasts them to the others, and conflict-free replicated
    data types make the servers agree.  The code verified here is the code the
    project added under redis-6.0.5/src, the parts of Redis it runs on, and the
    TLA+ specifications of the queues under MET/TLA.

    ** The parts of the program and how they interact

    A client command reaches [call] (server.c), which runs the command's
    function.  A CRDT command has two phases, written with the macros of CRDT.h:
    the prepare phase checks the arguments at the server the client talks to and
    collects in [c->rargv] what the other servers need (timestamps, positions);
    the effect phase changes the data.  [call] then broadcasts [rargv] over the
    links of p2p.c; a command that arrives over a link runs its effect only.
    Five types are built this way:
    - the RWF queue (t_rwfzset.c) and the RWF list (t_rwflist.c), on the
      remove-win framework of RWFramework.h: each element has the vector clock
      of the removes it has seen;
    - the remove-win queue (t_rzset.c) and the remove-win list (t_rlist.c),
      which stamp operations with vector clocks and hold operations back until
      they are causally ready;
    - the add-win queue (t_ozset.c), which tags adds with Lamport clocks.
    Queues mirror their visible elements in a Redis sorted set (t_zset.c), lists
    order theirs by position identifiers (list_basics.c).

    ** The files

    Foundations.
    - [Prelude] (this file): outcomes of C code ([res]: a return or the reason
      for which the program has no next state), folds that can crash, machine
      integers and their wrap-around, pointers into lists, generic lemmas.
    - [Sds], [Util]: the parts of libc, sds.c, util.c and object.c that print and
      parse numbers.  [Double], [Exact]: binary64 as C's double, with strtod,
      and exactness of integer scores.  [Score]: the order of sorted sets.
    - [VectorClock] (vector_clock.h, .c), [LamportClock] (lamport_clock.h).
    - [Causal]: histories of operations stamped with vector clocks and the
      buffer both remove-win types deliver them through ([notifyLoop]), as a
      class [CausalExec] of components whose [exec] can be delivered to.

    Elements of the data types, as functions on an element's state.
    - [RWFramework] (RWFramework.h), [RwfZset] (t_rwfzset.c), [ARSet] (the add
      and remove sets of t_rzset.c and t_rlist.c), [RZset] (t_rzset.c), [OZset]
      (t_ozset.c), [OzMirror] (its calls on the sorted set), [Leid] (identifiers
      of list_basics.c).

    Sorted sets.
    - [Skiplist] (the zsl functions of t_zset.c on a heap of nodes),
      [SkiplistRep], [SkiplistSpec] (what they do to the list of entries),
      [Zset] (the ziplist and skip list encodings and zsetAdd, zsetDel,
      zsetScore, zsetRank, zsetLength, zsetConvert), [ZsetSpec].
    - [ZRange] (ranges by score, by element and by rank: their parsers, the
      searches for their ends and the deletions, in both encodings),
      [ZRangeSpec] (the ends and the deletions cut the list of entries).
    - [Bytes]: blocks of memory.  [Ziplist]: ziplist.c on the bytes of a
      ziplist, with pointers as offsets.  [ZiplistSpec] (the layout of entries
      and reading one), [ZiplistEdit] (cascade, insertion, deletion),
      [ZiplistRefine], [ZiplistMerge], [ZiplistLaws]: the interface refines the
      operations on lists of entries that [Zset] uses.

    Commands, on the state of a server.
    - [Store]: the database, the heap of metadata, clients, and the monad [M]
      commands are written in, with weakest preconditions [wp].
      [ZCommand]: the sorted set commands of t_zset.c; [ZCommandSpec] (ranges,
      counts and pops), [ZWriteSpec] (ZADD and ZREM).
      [Crdt] (CRDT.h), [RWFCommand] (the command macros of RWFramework.h).
    - [RwfzCmd], [RzCmd], [OzCmd]: every command of the three queues, with both
      phases.  [Container]: what a queue's two objects in the database stand
      for.  [QueueSpec], [RwfzSpec], [RzSpec], [OzSpec]: the commands refine the
      functions on elements.
    - [ListBasics] (list_basics.c), [ListLink] (the linked list both list types
      spell out), [ListSpec], [ListPrepare]; [RwfList] (t_rwflist.c) with
      [RwfListSpec], [RwfListConv], [RwfListLocal]; [RList] (t_rlist.c) with
      [RListConv], [RListSpec] and [RListSystem] (messages at servers).
    - [P2P]: p2p.c, and what server.c, multi.c and networking.c do with links.

    Systems of servers and their specifications.
    - [System]: servers, client commands and messages delivered in any order;
      [RwfzSystem], [RzSystem] and [OzSystem] instantiate it with the commands
      of the RWF queue, the remove-win queue and the add-win queue.
    - [TlaNet]: the skeleton of the specifications of MET/TLA as a transition
      system; [TlaRwf] (rwf_rpq.tla), [TlaRmvwin] (rmvwin_rpq.tla),
      [TlaAddwin] (addwin_rpq.tla) and [TlaList] (rwf_list.tla, with its
      identifiers in [TlaLeid]), with the invariants the repository lets a model
      checker test on small instances.
    - [TlaSim], [RwfzRefine], [RzRefine], [OzRefine]: runs of the servers are
      runs of the specifications.

    ** What the theorems show

    - Systems: for each of the three queues, no run of client commands and
      deliveries reaches a crash ([rwfz_system_safe], [rz_system_safe],
      [oz_system_safe]), servers that executed the same messages answer alike
      ([rwfz_system_converges], [rz_system_converges], [oz_system_converges]),
      and every run is a run of the TLA+ specification
      ([rwfz_system_refines_spec], [rz_system_refines_spec],
      [oz_system_refines_spec]), whose own invariants hold for every number of
      processes ([rwf_spec_sec], [rmvwin_spec_invariants], [addwin_spec_sec],
      and [rwf_list_spec_invariants] for the list).
      Messages arrive in any order; for the add-win queue, increments after the
      adds they name, without which it reads a field it never wrote
      ([oz_early_increment_reads_unwritten]).
    - Commands: for each queue, what a local command accepts, refuses, broadcasts
      and changes, and that a command received from a link does to its element
      what the function on elements says while the sorted set follows
      ([rwfz_local_command], [rwfz_remote_command] and the rz and oz
      counterparts); for the RWF list, the effects, the place of an insert and
      the reply of RWFLLIST; for the remove-win list, that a message does what
      delivery on abstract lists says ([rl_receive_refines]) and that servers
      that received the same messages show the same list ([rl_servers_converge]).
    - Elements: convergence and the meaning of the remove-win and add-win rules
      ([rwfz_refines_remove_win], [rz_remove_wins], [oz_converges],
      [rwfl_converges]), termination of [notifyLoop].
    - Redis: both encodings of sorted sets implement one sorted map, and the
      sorted set commands are functions of that map alone: removal of ranges
      ([zremrange_refines]), queries ([zrangeby_lists], [zrange_lists],
      [zcount_counts]), pops ([zpop_takes]), additions and removals
      ([zadd_refines], [zrem_refines]); a block of
      bytes that the ziplist functions keep is a list of entries, with every
      access in bounds ([ziplist_well_formed], [ziplist_edits_refine],
      [ziplist_reads_refine], [ziplist_insert_get]); numbers,
      clocks and identifiers survive the wire; broadcasting and [rargv].
    - Faults of the code, each with a run that shows it: EXEC repeats a
      broadcast, a broadcast after a disconnect uses a freed client, the add-win
      queue reads a field it never wrote, lengths of RWF lists and properties of
      remove-win lists diverge, ZPOPMIN on the key of an emptied queue ends the
      server ([zpop_emptied_queue_asserts]).

    ** Bounds and fuel

    Loops that are not structural take fuel and end in [Crash Diverges] when it
    is used up; the theorems that a function returns show that this does not
    happen.  The fuel is one more than the number of waiting operations for
    [notifyLoop] (each round but the last takes one out), than the entries of
    the ziplist or the nodes of the skip list for the loops over them (on the
    bytes of a ziplist, than its bytes, since an entry has at least two), than the
    length of the string for the parsers, than the heap objects for the walks
    along a list; the search for a level with a free position needs one level
    more than the longer neighbour.  The random numbers a server draws for skip
    list levels are a list it consumes; the system theorems ask for enough of
    them, since a level loop without an end is possible in the code.  The
    system theorems bound the number of actions by what an int clock entry can
    count, the number of servers by the buffer of 100 entries of sdsToVC, and
    the scores by integers whose sums are exact.

    ** Not modelled, and why

    - The event loop, sockets, the request parser, reply buffers (networking.c,
      ae.c, anet.c, connection.c, tls.c): input and output; commands arrive as
      argument lists and replies are kept as values.
    - Persistence, master-replica replication, cluster, sentinel, modules,
      scripting, and the data types and commands the CRDT code does not use:
      independent of the replicated types.  CRDT metadata is not persisted.
    - dict's hash tables and sds headers: modelled by their interfaces, finite
      maps and strings.
    - ZUNIONSTORE, ZINTERSTORE, ZSCAN and the blocking pops of t_zset.c: they
      work on hash tables, intsets and blocked clients, which no CRDT command
      reaches.  The sorted set commands leave out keyspace events and watched
      keys, and replies are those of protocol 2.
    - Statistics and logging that are compiled only with CRDT_LOG, CRDT_OVERHEAD
      and the like, and code in comments.
    - The C++ programs under MET and experiment, which drive running servers. *)

From stdpp Require Export base option list gmap strings sorting.
From Stdlib Require Export ZArith Lia.

#[global] Open Scope Z_scope.
#[global] Open Scope list_scope.
Set Default Goal Selector "!".

(** ** Outcomes of C code

    A C function returns, or does something the language gives no meaning to,
    or stops the process ([serverAssert], [serverPanic], out of memory).  [res]
    keeps the two apart: [Ok] for a return, [Crash] with the reason otherwise. *)

Inductive crash :=
  | OutOfBounds      (* an array or buffer index outside its allocation *)
  | NullDeref        (* a member read through a null pointer *)
  | UseAfterFree     (* a member read through a pointer to a freed object *)
  | Uninitialised    (* a variable read before it was written *)
  | TypeConfusion    (* a pointer read at a type it was not stored at *)
  | OutOfMemory      (* zmalloc of a size that cannot be allocated *)
  | AssertFail       (* serverAssert *)
  | Panic            (* serverPanic *)
  | Diverges.        (* a loop ran out of the fuel its model is given *)

Inductive res (A : Type) :=
  | Ok (a : A)
  | Crash (c : crash).
Arguments Ok {A} a.
Arguments Crash {A} c.

#[export] Instance crash_eq_dec : EqDecision crash.
Proof. solve_decision. Defined.
#[export] Instance res_eq_dec `{EqDecision A} : EqDecision (res A).
Proof. solve_decision. Defined.

#[export] Instance res_ret : MRet res := fun A a => Ok a.
#[export] Instance res_bind : MBind res := fun A B f m =>
  match m with Ok a => f a | Crash c => Crash c end.
#[export] Instance res_fmap : FMap res := fun A B f m =>
  match m with Ok a => Ok (f a) | Crash c => Crash c end.

Definition is_Ok {A} (m : res A) : Prop := exists a, m = Ok a.

Lemma res_ok_with {A} (m : res A) (P : A -> Prop) :
  match m with Ok a => P a | Crash _ => False end -> exists a, m = Ok a /\ P a.
Proof. destruct m as [a|c]; [by exists a|done]. Qed.

(** [of_option c o] reads an optional value whose absence is the crash [c]. *)
Definition of_option {A} (c : crash) (o : option A) : res A :=
  match o with Some a => Ok a | None => Crash c end.

Lemma bind_Ok_inv {A B} (m : res A) (f : A -> res B) b :
  m ≫= f = Ok b -> exists a, m = Ok a /\ f a = Ok b.
Proof. destruct m as [a|c]; simpl; [eauto|discriminate]. Qed.

Lemma bind_is_Ok {A B} (m : res A) (f : A -> res B) :
  is_Ok m -> (forall a, m = Ok a -> is_Ok (f a)) -> is_Ok (m ≫= f).
Proof. intros [a ->] Hf. apply Hf. done. Qed.

Lemma is_Ok_Ok {A} (a : A) : is_Ok (Ok a).
Proof. by exists a. Qed.

Lemma of_option_Ok {A} c (o : option A) a : of_option c o = Ok a <-> o = Some a.
Proof. destruct o; simpl; naive_solver. Qed.

(** [ends m]: the loops of [m] stayed within their fuel. *)
Definition ends {A} (m : res A) : Prop := m <> Crash Diverges.

Lemma ends_Ok {A} (a : A) : ends (Ok a).
Proof. done. Qed.
Lemma ends_Crash {A B} c : ends (A := A) (Crash c) -> ends (A := B) (Crash c).
Proof. intros H [= ->]. by apply H. Qed.
Lemma ends_bind {A B} (m : res A) (f : A -> res B) : ends m -> (forall a, ends (f a)) -> ends (m ≫= f).
Proof. destruct m as [a|c]; [by intros _ H; apply H|]. intros H _. by eapply ends_Crash. Qed.
Lemma ends_of_option {A} c (o : option A) : c <> Diverges -> ends (of_option c o).
Proof. destruct o; [done|]. intros H Hc. apply H. cbn in Hc. congruence. Qed.

(** A left fold whose step can crash. *)
Fixpoint foldM {A B} (f : B -> A -> res B) (b : B) (l : list A) : res B :=
  match l with
  | [] => Ok b
  | a :: l' => b' ← f b a; foldM f b' l'
  end.

Lemma ends_foldM {A B} (f : B -> A -> res B) l : (forall b a, ends (f b a)) -> forall b, ends (foldM f b l).
Proof. intros Hf. induction l as [|a l IH]; intros b; [done|]. cbn [foldM]. by apply ends_bind. Qed.

Lemma foldM_app {A B} (f : B -> A -> res B) b l1 l2 :
  foldM f b (l1 ++ l2) = (b' ← foldM f b l1; foldM f b' l2).
Proof.
  revert b; induction l1 as [|a l1 IH]; intros b; simpl; [done|].
  destruct (f b a); simpl; auto.
Qed.

(** ** Machine integers

    [int] is 32 bits wide and [long long] 64 bits.  Values are kept in [Z];
    arithmetic that can leave the range goes through [i32] or [i64], which wrap
    the way two's complement hardware does. *)

Definition wrap (bits z : Z) : Z :=
  (z + 2 ^ (bits - 1)) mod 2 ^ bits - 2 ^ (bits - 1).
Definition i32 (z : Z) : Z := wrap 32 z.
Definition i64 (z : Z) : Z := wrap 64 z.
(** An unsigned int. *)
Definition u32 (z : Z) : Z := z mod 2 ^ 32.
Definition INT_MIN : Z := - 2 ^ 31.
Definition INT_MAX : Z := 2 ^ 31 - 1.
Definition LLONG_MIN : Z := - 2 ^ 63.
Definition LLONG_MAX : Z := 2 ^ 63 - 1.
Definition ULLONG_MAX : Z := 2 ^ 64 - 1.
Definition int_range (z : Z) : Prop := INT_MIN <= z <= INT_MAX.

#[export] Instance int_range_dec z : Decision (int_range z).
Proof. unfold int_range. apply _. Defined.

Lemma i32_id z : int_range z -> i32 z = z.
Proof.
  unfold int_range, INT_MIN, INT_MAX, i32, wrap. simpl. intros H.
  change (2 ^ (32 - 1)) with (2 ^ 31). rewrite Z.mod_small; lia.
Qed.

Lemma u32_id z : 0 <= z < 2 ^ 32 -> u32 z = z.
Proof. apply Z.mod_small. Qed.

Lemma i32_range z : int_range (i32 z).
Proof.
  unfold int_range, INT_MIN, INT_MAX, i32, wrap.
  change (2 ^ (32 - 1)) with (2 ^ 31).
  pose proof (Z.mod_pos_bound (z + 2 ^ 31) (2 ^ 32) ltac:(lia)). lia.
Qed.

(** ** Array reads and writes at a C index *)

Definition zlookup {A} (l : list A) (i : Z) : res A :=
  if 0 <=? i then of_option OutOfBounds (l !! Z.to_nat i) else Crash OutOfBounds.

Definition zupdate {A} (l : list A) (i : Z) (a : A) : res (list A) :=
  if (0 <=? i) && (i <? Z.of_nat (length l)) then Ok (<[Z.to_nat i := a]> l)
  else Crash OutOfBounds.

Lemma zlookup_nat {A} (l : list A) (i : nat) :
  zlookup l (Z.of_nat i) = of_option OutOfBounds (l !! i).
Proof.
  unfold zlookup. rewrite (proj2 (Z.leb_le 0 _)) by lia. by rewrite Nat2Z.id.
Qed.

Lemma zlookup_Ok {A} (l : list A) i a :
  zlookup l i = Ok a <-> 0 <= i /\ l !! Z.to_nat i = Some a.
Proof.
  unfold zlookup. destruct (Z.leb_spec 0 i).
  - rewrite of_option_Ok. naive_solver.
  - split; [discriminate|lia].
Qed.

Lemma zlookup_is_Ok {A} (l : list A) i :
  0 <= i < Z.of_nat (length l) -> is_Ok (zlookup l i).
Proof.
  intros Hi. destruct (lookup_lt_is_Some_2 l (Z.to_nat i)) as [a Ha]; [lia|].
  exists a. apply zlookup_Ok. split; [lia|done].
Qed.

Lemma zupdate_Ok {A} (l : list A) i a :
  0 <= i < Z.of_nat (length l) -> zupdate l i a = Ok (<[Z.to_nat i := a]> l).
Proof.
  intros Hi. unfold zupdate.
  rewrite (proj2 (Z.leb_le 0 i)), (proj2 (Z.ltb_lt _ _)) by lia. done.
Qed.

(** ** Lists *)

Lemma filter_none {A} (P : A -> Prop) `{!forall x, Decision (P x)} (l : list A) :
  (forall x, x ∈ l -> ~ P x) -> filter P l = [].
Proof.
  induction l as [|x l IH]; intros HP; [done|].
  rewrite filter_cons_False by (apply HP; set_solver). apply IH. set_solver.
Qed.

Lemma filter_ext_in {A} (P Q : A -> Prop) `{!forall x, Decision (P x), !forall x, Decision (Q x)} (l : list A) :
  (forall x, x ∈ l -> P x <-> Q x) -> filter P l = filter Q l.
Proof.
  induction l as [|x l IH]; intros Heq; [done|]. rewrite !filter_cons.
  assert (P x <-> Q x) as Hx by (apply Heq; by left).
  rewrite IH by (intros y Hy; apply Heq; by right). destruct (decide (P x)), (decide (Q x)); tauto.
Qed.

Lemma filter_fmap_comm {A B} (f : A -> B) (P : B -> Prop) `{!forall x, Decision (P x)} (l : list A) :
  filter P (f <$> l) = f <$> filter (fun x => P (f x)) l.
Proof.
  induction l as [|x l IH]; [done|]. rewrite fmap_cons, !filter_cons, IH.
  by destruct (decide (P (f x))).
Qed.

Lemma perm_nil_iff {A} (l1 l2 : list A) : l1 ≡ₚ l2 -> l1 = [] <-> l2 = [].
Proof. intros Hp. split; intros ->; [symmetry in Hp|]; by apply Permutation_nil_r in Hp. Qed.

Lemma and_iff_both (P P' Q Q' : Prop) : (P <-> P') -> (Q <-> Q') -> P /\ Q <-> P' /\ Q'.
Proof. tauto. Qed.

Lemma omap_cons_eq {A B} (f : A -> option B) (x : A) (l : list A) :
  omap f (x :: l) = match f x with Some y => y :: omap f l | None => omap f l end.
Proof. done. Qed.

Lemma filter_all {A} (P : A -> Prop) `{!forall x, Decision (P x)} (l : list A) :
  (forall x, x ∈ l -> P x) -> filter P l = l.
Proof.
  induction l as [|x l IH]; intros HP; [done|].
  rewrite filter_cons_True by (apply HP; set_solver). f_equal. apply IH. set_solver.
Qed.

(** ** Automation shared by the components *)

(** Splits every [bind] that is known to return. *)
Ltac inv_res :=
  repeat match goal with
  | H : _ ≫= _ = Ok _ |- _ =>
      let a := fresh "a" in let Ha := fresh "Hret" in
      apply bind_Ok_inv in H as (a & Ha & H)
  | H : Ok _ = Ok _ |- _ => injection H as H; try subst
  | H : Crash _ = Ok _ |- _ => discriminate H
  | H : mret _ = Ok _ |- _ => injection H as H; try subst
  end.

(** Reflects the boolean integer tests the C conditions are modelled by. *)
Ltac zbool :=
  repeat match goal with
  | H : context [Z.ltb ?a ?b] |- _ => destruct (Z.ltb_spec a b); simpl in H
  | H : context [Z.leb ?a ?b] |- _ => destruct (Z.leb_spec a b); simpl in H
  | H : context [Z.eqb ?a ?b] |- _ => destruct (Z.eqb_spec a b); simpl in H
  | |- context [Z.ltb ?a ?b] => destruct (Z.ltb_spec a b); simpl
  | |- context [Z.leb ?a ?b] => destruct (Z.leb_spec a b); simpl
  | |- context [Z.eqb ?a ?b] => destruct (Z.eqb_spec a b); simpl
  end.

Create HintDb crdt discriminated.
#[export] Hint Resolve is_Ok_Ok : crdt.

(** ** Pointers into a list of heap objects

    Where the code keeps a pointer to an object that also sits in an [adlist]
    list, the model gives the objects addresses: the list holds pairs of an
    address and an object, and a pointer is an address. *)

Section Pointers.
Context {A : Type}.

Fixpoint deref (m : list (nat * A)) (p : nat) : res A :=
  match m with
  | [] => Crash UseAfterFree
  | (q, a) :: m' => if decide (p = q) then Ok a else deref m' p
  end.

Lemma ends_deref m p : ends (deref m p).
Proof. induction m as [|[q a] m IH]; [done|]. cbn [deref]. by destruct (decide _). Qed.

Lemma deref_elem m p a : NoDup m.*1 -> (p, a) ∈ m <-> deref m p = Ok a.
Proof.
  induction m as [|[q b] m IH]; simpl; intros Hnd.
  - split; [intros H; by apply elem_of_nil in H|done].
  - apply NoDup_cons in Hnd as [Hq Hnd]. rewrite elem_of_cons. case_decide as Hd.
    + subst q. split; [|intros [= ->]; by left]. intros [[= ->]|Hin]; [done|].
      destruct Hq. by apply (list_elem_of_fmap_2 fst) in Hin.
    + rewrite <- IH by done. naive_solver.
Qed.

(** One step of a loop that moves a pointer to a better object: a null pointer
    moves, any other moves when its object is below the one at hand. *)
Context (lt : A -> A -> bool).
Definition better (m : list (nat * A)) (v : option nat) (pa : nat * A) : res (option nat) :=
  match v with
  | None => Ok (Some pa.1)
  | Some q => b ← deref m q; Ok (if lt b pa.2 then Some pa.1 else v)
  end.

Context (P : A -> Prop).
Context (lt_asym : forall a b, P a -> P b -> lt a b = true -> lt b a = false).
Context (lt_refl : forall a, P a -> lt a a = false).
Context (ge_trans : forall a b c, P a -> P b -> P c ->
  lt a b = false -> lt b c = false -> lt a c = false).

(** Where the pointer [v'] of a scan of [l] from [v] ends. *)
Definition scanned (m l : list (nat * A)) (v v' : option nat) : Prop :=
  (v' = None -> v = None /\ l = []) /\
  forall p, v' = Some p -> exists a, deref m p = Ok a /\ P a /\
    (v = Some p \/ (p, a) ∈ l) /\
    (forall q b, (q, b) ∈ l -> lt a b = false) /\
    (forall q b, v = Some q -> deref m q = Ok b -> lt a b = false).

Lemma scan_step m p a l v w d v' :
  deref m p = Ok a -> P a -> (forall q b, (q, b) ∈ l -> P b) ->
  (forall q b, v = Some q -> deref m q = Ok b -> P b) ->
  deref m w = Ok d -> P d -> lt d a = false ->
  (forall q b, v = Some q -> deref m q = Ok b -> lt d b = false) ->
  (w = p \/ v = Some w) -> scanned m l (Some w) v' -> scanned m ((p, a) :: l) v v'.
Proof.
  intros Hp HPa HPl HPv Hd HPd Hda Hold Hw [Hn Hs]. split.
  - intros Hv'. by destruct (Hn Hv').
  - intros p' Hp'. destruct (Hs p' Hp') as (a' & Ha' & HP' & Hor & Hmax & Hold').
    specialize (Hold' w d eq_refl Hd). exists a'. split_and!; [done..| | |].
    + destruct Hor as [[= <-]|Hor]; [|right; by right]. destruct Hw as [->|Hw]; [|by left].
      right. rewrite Hp in Ha'. injection Ha' as <-. by left.
    + intros q b [[= -> ->]|Hin]%elem_of_cons; [by apply (ge_trans a' d a)|by eapply Hmax].
    + intros q b Hq Hb. apply (ge_trans a' d b); eauto.
Qed.

Lemma scan_spec m l v :
  (forall p a, (p, a) ∈ l -> deref m p = Ok a /\ P a) ->
  (forall q, v = Some q -> exists b, deref m q = Ok b /\ P b) ->
  exists v', foldM (better m) v l = Ok v' /\ scanned m l v v'.
Proof.
  revert v. induction l as [|[p a] l IH]; intros v Hl Hv.
  - exists v. split; [done|]. split; [done|]. intros q ->. destruct (Hv q eq_refl) as (b & Hb & HP).
    exists b. split_and!; [done..|by left|by intros ?? ?%elem_of_nil|].
    intros q' b' [= <-] Hb'. rewrite Hb in Hb'. injection Hb' as <-. by apply lt_refl.
  - destruct (Hl p a) as [Hp HPa]; [by left|].
    assert (forall q b, (q, b) ∈ l -> deref m q = Ok b /\ P b) as Hl' by (intros q b ?; apply Hl; by right).
    assert (forall q b, (q, b) ∈ l -> P b) as HPl by (intros q b Hin; by apply Hl' in Hin as [_ ?]).
    assert (forall q b, v = Some q -> deref m q = Ok b -> P b) as HPv.
    { intros q b Hq Hb. destruct (Hv q Hq) as (b' & Hb' & ?). by assert (b' = b) as <- by congruence. }
    simpl. destruct v as [q|]; simpl.
    + destruct (Hv q eq_refl) as (b & Hb & HPb). rewrite Hb. simpl. destruct (lt b a) eqn:Hlt.
      * destruct (IH (Some p) Hl') as (v' & Hv' & Hsc); [by intros ? [= <-]; eauto|].
        exists v'. split; [done|]. apply (scan_step m p a l _ p a); try done; [by apply lt_refl| |by left].
        intros q' b' [= <-] Hb'. assert (b' = b) as -> by congruence. by apply lt_asym.
      * destruct (IH (Some q) Hl') as (v' & Hv' & Hsc); [by intros ? [= <-]; eauto|].
        exists v'. split; [done|]. apply (scan_step m p a l _ q b); try done; [|by right].
        intros q' b' [= <-] Hb'. assert (b' = b) as -> by congruence. by apply lt_refl.
    + destruct (IH (Some p) Hl') as (v' & Hv' & Hsc); [by intros ? [= <-]; eauto|].
      exists v'. split; [done|]. apply (scan_step m p a l _ p a); try done; [by apply lt_refl|by left].
Qed.
End Pointers.

(** Folding a function that commutes on the elements of the list. *)
Lemma foldl_comm_perm {A B} (f : A -> B -> A) (l1 l2 : list B) a :
  (forall x y a, x ∈ l1 -> y ∈ l1 -> f (f a x) y = f (f a y) x) -> l1 ≡ₚ l2 -> foldl f a l1 = foldl f a l2.
Proof.
  intros Hf Hp. revert a Hf. induction Hp as [|x l l' Hp IH|x y l|l l' l'' Hp1 IH1 Hp2 IH2]; intros a Hf; cbn [foldl].
  - done.
  - apply IH. intros y z b Hy Hz. apply Hf; by right.
  - rewrite Hf; [done|by left|by right; left].
  - rewrite IH1 by done. apply IH2. intros y z b Hy Hz. apply Hf; by rewrite Hp1.
Qed.
