(* ===== verification/Sds.v ===== *)
(** * Strings: the parts of libc, sds.c and util.c the CRDT code prints and
    parses its timestamps and arguments with.

    An [sds] is a byte string that knows its length and is followed by a NUL; it
    is modelled by [string].  [print_int] is the [%d] conversion of
    [sdscatprintf], [atoi] and [scan_int] the conversions of [atoi] and of
    [sscanf]'s [%d], [string2ll] Redis' strict parser. *)

From S2P Require Import Prelude.
From Stdlib Require Import Ascii.

#[global] Open Scope string_scope.
#[global] Open Scope list_scope.
#[global] Open Scope Z_scope.

(** ** Characters *)

Definition code (c : ascii) : Z := Z.of_N (N_of_ascii c).
Definition isdigit (c : ascii) : bool := (48 <=? code c) && (code c <=? 57).
Definition isspace (c : ascii) : bool :=
  (code c =? 32) || ((9 <=? code c) && (code c <=? 13)).
Definition digit_char (d : Z) : ascii := ascii_of_N (Z.to_N (48 + d)).

#[global] Arguments code c : simpl never.
#[global] Arguments isdigit c : simpl never.
#[global] Arguments isspace c : simpl never.
#[global] Arguments digit_char d : simpl never.

Lemma code_digit_char d : 0 <= d < 10 -> code (digit_char d) = 48 + d.
Proof.
  intros Hd. unfold code, digit_char. rewrite N_ascii_embedding; lia.
Qed.

Lemma isdigit_digit_char d : 0 <= d < 10 -> isdigit (digit_char d) = true.
Proof.
  intros Hd. unfold isdigit. rewrite code_digit_char by done.
  rewrite (proj2 (Z.leb_le _ _)), (proj2 (Z.leb_le _ _)); simpl; lia.
Qed.

(** ** Printing *)

(** The decimal digits of [n], most significant first, in front of [acc].  Ten
    digits hold every [int] and nineteen every [long long]; the fuel is 20. *)
Fixpoint print_digits (fuel : nat) (n : Z) (acc : string) : string :=
  match fuel with
  | O => acc
  | S fuel' =>
      if n <? 10 then String (digit_char n) acc
      else print_digits fuel' (n / 10) (String (digit_char (n mod 10)) acc)
  end.

#[global] Arguments print_digits fuel n acc : simpl never.
(** [sdscatprintf(sdsempty(), "%d", z)] *)
Definition print_int (z : Z) : string :=
  if z <? 0 then String "-" (print_digits 20 (- z) "") else print_digits 20 z "".

Lemma print_digits_S fuel n acc :
  print_digits (S fuel) n acc =
    if n <? 10 then String (digit_char n) acc
    else print_digits fuel (n / 10) (String (digit_char (n mod 10)) acc).
Proof. reflexivity. Qed.

Lemma print_digits_O n acc : print_digits 0 n acc = acc.
Proof. reflexivity. Qed.

(** ** Parsing *)

(** Reads a run of digits into an accumulator; returns the value and the rest. *)
Fixpoint scan_digits (s : string) (v : Z) : Z * string :=
  match s with
  | String c s' => if isdigit c then scan_digits s' (10 * v + (code c - 48)) else (v, s)
  | EmptyString => (v, s)
  end.

Fixpoint skip_space (s : string) : string :=
  match s with
  | String c s' => if isspace c then skip_space s' else s
  | EmptyString => s
  end.

Definition starts_digit (s : string) : bool :=
  match s with String c _ => isdigit c | EmptyString => false end.

(** What [strtol] reads in base 10: blanks, a sign, digits.  [None] when there
    is no digit. *)
Definition scan_long (s : string) : option (Z * string) :=
  match skip_space s with
  | String c s' =>
      if (code c =? 45) && starts_digit s' then
        let '(v, r) := scan_digits s' 0 in Some (- v, r)
      else if (code c =? 43) && starts_digit s' then Some (scan_digits s' 0)
      else if isdigit c then Some (scan_digits (String c s') 0)
      else None
  | EmptyString => None
  end.

(** [strtol] saturates at the ends of [long]. *)
Definition clamp64 (z : Z) : Z := Z.max LLONG_MIN (Z.min LLONG_MAX z).

(** [atoi(s)] is [(int)strtol(s, NULL, 10)], 0 when there is no number. *)
Definition atoi (s : string) : Z :=
  match scan_long s with Some (v, _) => i32 (clamp64 v) | None => 0 end.

(** [sscanf]'s [%d]: the converted value and what follows it. *)
Definition scan_int (s : string) : option (Z * string) :=
  match scan_long s with Some (v, r) => Some (i32 (clamp64 v), r) | None => None end.

(** ** Round trip *)

Lemma scan_print_digits fuel n acc :
  0 <= n < 10 ^ Z.of_nat fuel ->
  scan_digits (print_digits fuel n acc) 0 = scan_digits acc n.
Proof.
  revert n acc; induction fuel as [|fuel IH]; intros n acc Hn.
  { simpl in Hn. rewrite print_digits_O. replace n with 0 by lia. done. }
  rewrite print_digits_S. destruct (Z.ltb_spec n 10) as [Hlt|Hge].
  - simpl. rewrite isdigit_digit_char, code_digit_char by lia. f_equal. lia.
  - rewrite IH.
    + simpl. pose proof (Z.mod_pos_bound n 10 ltac:(lia)).
      rewrite isdigit_digit_char, code_digit_char by lia. f_equal.
      pose proof (Z.div_mod n 10 ltac:(lia)). lia.
    + split; [apply Z.div_pos; lia|].
      apply Z.div_lt_upper_bound; [lia|].
      rewrite Nat2Z.inj_succ, Z.pow_succ_r in Hn by lia. lia.
Qed.

Lemma print_digits_starts fuel n acc :
  (0 < fuel)%nat -> 0 <= n ->
  exists c s, print_digits fuel n acc = String c s /\ isdigit c = true.
Proof.
  revert n acc; induction fuel as [|fuel IH]; intros n acc Hf Hn; [lia|].
  rewrite print_digits_S. destruct (Z.ltb_spec n 10).
  { eexists _, _. split; [done|]. apply isdigit_digit_char; lia. }
  destruct fuel as [|fuel'].
  { rewrite print_digits_O. eexists _, _. split; [done|]. apply isdigit_digit_char.
    apply Z.mod_pos_bound; lia. }
  apply IH; [lia|]. apply Z.div_pos; lia.
Qed.

Lemma print_digits_app fuel n acc rest :
  print_digits fuel n acc +:+ rest = print_digits fuel n (acc +:+ rest).
Proof.
  revert n acc; induction fuel as [|fuel IH]; intros n acc; [done|].
  rewrite !print_digits_S. destruct (n <? 10); [done|]. by rewrite IH.
Qed.

Lemma scan_digits_stop s v : starts_digit s = false -> scan_digits s v = (v, s).
Proof. destruct s as [|c s]; simpl; [done|]. by intros ->. Qed.

Lemma isdigit_not_space c : isdigit c = true -> isspace c = false.
Proof.
  unfold isdigit, isspace. intros [H1 H2]%andb_true_iff.
  apply Z.leb_le in H1, H2.
  rewrite (proj2 (Z.eqb_neq _ _)) by lia.
  rewrite (proj2 (Z.leb_gt (code c) 13)) by lia. by rewrite andb_false_r.
Qed.

Lemma isdigit_not_sign c : isdigit c = true -> (code c =? 45) = false /\ (code c =? 43) = false.
Proof.
  unfold isdigit. intros [H1 H2]%andb_true_iff. apply Z.leb_le in H1, H2.
  rewrite !Z.eqb_neq. lia.
Qed.

(** What [%d] prints, [strtol] reads back, up to the first byte that is not a
    digit. *)
Lemma scan_long_print_int z rest :
  int_range z -> starts_digit rest = false ->
  scan_long (print_int z +:+ rest) = Some (z, rest).
Proof.
  unfold int_range, INT_MIN, INT_MAX. intros Hz Hrest.
  unfold print_int. destruct (Z.ltb_spec z 0) as [Hneg|Hpos].
  - change (String "-" (print_digits 20 (- z) "") +:+ rest)
      with (String "-" (print_digits 20 (- z) "" +:+ rest)).
    rewrite print_digits_app. change ("" +:+ rest) with rest.
    destruct (print_digits_starts 20 (- z) rest ltac:(lia) ltac:(lia)) as (c & s & Heq & Hc).
    unfold scan_long. rewrite Heq. cbn [skip_space]. change (isspace "-") with false.
    cbv iota beta. change (code "-" =? 45) with true.
    cbn [starts_digit andb]. rewrite Hc, <- Heq. cbv iota beta.
    rewrite scan_print_digits by (simpl; lia). rewrite scan_digits_stop by done.
    do 2 f_equal. lia.
  - rewrite print_digits_app. change ("" +:+ rest) with rest.
    destruct (print_digits_starts 20 z rest ltac:(lia) ltac:(lia)) as (c & s & Heq & Hc).
    unfold scan_long. rewrite Heq. cbn [skip_space].
    rewrite (isdigit_not_space c Hc). destruct (isdigit_not_sign c Hc) as [-> ->].
    cbn [andb]. rewrite Hc, <- Heq.
    rewrite scan_print_digits by (simpl; lia). by rewrite scan_digits_stop.
Qed.

Lemma clamp64_id z : int_range z -> clamp64 z = z.
Proof.
  unfold int_range, INT_MIN, INT_MAX, clamp64, LLONG_MIN, LLONG_MAX. lia.
Qed.

Lemma atoi_print_int z rest :
  int_range z -> starts_digit rest = false -> atoi (print_int z +:+ rest) = z.
Proof.
  intros Hz Hr. unfold atoi. rewrite scan_long_print_int by done.
  rewrite clamp64_id by done. by apply i32_id.
Qed.

Lemma scan_int_print_int z rest :
  int_range z -> starts_digit rest = false ->
  scan_int (print_int z +:+ rest) = Some (z, rest).
Proof.
  intros Hz Hr. unfold scan_int. rewrite scan_long_print_int by done.
  rewrite clamp64_id by done. by rewrite i32_id.
Qed.

(** ** Separators

    [skip_to sep s] is the loop [while (p[0] is not a separator) p++]: it stops
    on the first byte that does, or runs past the terminating NUL. *)
Fixpoint skip_to (sep : ascii -> bool) (s : string) : res (ascii * string) :=
  match s with
  | String c s' => if sep c then Ok (c, s') else skip_to sep s'
  | EmptyString => Crash OutOfBounds
  end.

Definition num_char (c : ascii) : bool := isdigit c || (code c =? 45).

Fixpoint all_num (s : string) : bool :=
  match s with String c s' => num_char c && all_num s' | EmptyString => true end.

Lemma all_num_digits fuel n acc :
  0 <= n -> all_num acc = true -> all_num (print_digits fuel n acc) = true.
Proof.
  revert n acc; induction fuel as [|fuel IH]; intros n acc Hn Hacc; [done|]. rewrite print_digits_S.
  destruct (Z.ltb_spec n 10) as [Hlt|Hge].
  - simpl. unfold num_char. by rewrite isdigit_digit_char by lia.
  - apply IH; [apply Z.div_pos; lia|]. simpl. unfold num_char.
    pose proof (Z.mod_pos_bound n 10 ltac:(lia)).
    by rewrite isdigit_digit_char by lia.
Qed.

Lemma all_num_print_int z : all_num (print_int z) = true.
Proof.
  unfold print_int. destruct (Z.ltb_spec z 0).
  - cbn [all_num]. apply andb_true_intro. split; [done|]. apply all_num_digits; [lia|done].
  - apply all_num_digits; [lia|done].
Qed.

Lemma skip_to_num sep s c rest :
  all_num s = true -> (forall d, num_char d = true -> sep d = false) -> sep c = true ->
  skip_to sep (s +:+ String c rest) = Ok (c, rest).
Proof.
  intros Hs Hsep Hc. induction s as [|d s IH]; simpl in *; [by rewrite Hc|].
  apply andb_true_iff in Hs as [Hd Hs]. rewrite Hsep by done. auto.
Qed.

Lemma string_app_assoc (a b c : string) : (a +:+ b) +:+ c = a +:+ (b +:+ c).
Proof. induction a as [|x a IH]; simpl; [done|]. unfold String.app in *. by f_equal. Qed.

Lemma string_app_nil_r (a : string) : a +:+ "" = a.
Proof. induction a as [|x a IH]; simpl; [done|]. unfold String.app in *. by f_equal. Qed.

(** ** sds.c *)

(** [sdstolower]: bytes between 'A' and 'Z' become lower case. *)
Definition tolower (c : ascii) : ascii :=
  if (65 <=? code c) && (code c <=? 90) then ascii_of_N (Z.to_N (code c + 32)) else c.

Fixpoint sdstolower (s : string) : string :=
  match s with String c s' => String (tolower c) (sdstolower s') | EmptyString => EmptyString end.

(** [strcasecmp(a, b) == 0] *)
Definition strcaseeq (a b : string) : bool := bool_decide (sdstolower a = sdstolower b).

(** [sdscmp]: [memcmp] on the common prefix, then the lengths. *)
Fixpoint sdscmp (s1 s2 : string) : Z :=
  match s1, s2 with
  | EmptyString, EmptyString => 0
  | EmptyString, String _ _ => -1
  | String _ _, EmptyString => 1
  | String c1 s1', String c2 s2' =>
      if code c1 =? code c2 then sdscmp s1' s2' else code c1 - code c2
  end.

Lemma code_inj c1 c2 : code c1 = code c2 -> c1 = c2.
Proof.
  unfold code. intros H. apply N2Z.inj in H.
  rewrite <- (ascii_N_embedding c1), <- (ascii_N_embedding c2). by rewrite H.
Qed.

Lemma sdscmp_eq s1 s2 : sdscmp s1 s2 = 0 <-> s1 = s2.
Proof.
  revert s2; induction s1 as [|c1 s1 IH]; intros [|c2 s2]; simpl; try (split; lia || done).
  destruct (Z.eqb_spec (code c1) (code c2)) as [Heq|Hne].
  - rewrite IH. apply code_inj in Heq. subst. naive_solver.
  - split; [lia|]. intros H. injection H as -> ->. lia.
Qed.

Lemma sdscmp_antisym s1 s2 : Z.sgn (sdscmp s2 s1) = - Z.sgn (sdscmp s1 s2).
Proof.
  revert s2; induction s1 as [|c1 s1 IH]; intros [|c2 s2]; simpl; try done.
  rewrite Z.eqb_sym. destruct (Z.eqb_spec (code c1) (code c2)); [apply IH|lia].
Qed.

Lemma sdscmp_trans s1 s2 s3 : sdscmp s1 s2 < 0 -> sdscmp s2 s3 < 0 -> sdscmp s1 s3 < 0.
Proof.
  revert s2 s3; induction s1 as [|c1 s1 IH]; intros [|c2 s2] [|c3 s3]; simpl; try lia.
  destruct (Z.eqb_spec (code c1) (code c2)), (Z.eqb_spec (code c2) (code c3)),
    (Z.eqb_spec (code c1) (code c3)); try lia; eauto.
Qed.
