(* ===== verification/VectorClock.v ===== *)
(** * Vector clocks: vector_clock.h and vector_clock.c

    A [vc] is a heap record with an [int] array allocated at its [size]; the
    model keeps the array as a list, whose length is the size, and the [id] of
    the replica that owns or made the clock. *)

From S2P Require Import Prelude Sds.
From Stdlib Require Import Ascii.

Record vc := mkVc { vector : list Z; vid : Z }.

#[export] Instance vc_eq_dec : EqDecision vc.
Proof. solve_decision. Defined.

Definition vsize (c : vc) : Z := Z.of_nat (length (vector c)).

(** The results of [vc_cmp]. *)
Definition VC_LESS : Z := -2.
Definition VC_C_LESS : Z := -1.
Definition VC_CMP_ERR : Z := 0.
Definition VC_C_GREATER : Z := 1.
Definition VC_GREATER : Z := 2.

Definition CONCURRENT (x : Z) : bool := (x =? VC_C_LESS) || (x =? VC_C_GREATER).

(** ** Operations *)

(** [_vc_new(size, id)]: the array is filled with zeros.  A negative size is
    converted to a huge [size_t] by [zmalloc]. *)
Definition _vc_new (size id : Z) : res vc :=
  if size <? 0 then Crash OutOfMemory
  else Ok (mkVc (replicate (Z.to_nat size) 0) id).

Definition vc_dup (c : vc) : vc := mkVc (vector c) (vid c).

(** [_vc_inc(c, id)] *)
Definition _vc_inc (c : vc) (id : Z) : res vc :=
  x ← zlookup (vector c) id;
  v ← zupdate (vector c) id (i32 (x + 1));
  Ok (mkVc v id).

(** The loop of [vc_equal] over two arrays of the same length. *)
Fixpoint vec_equal (v1 v2 : list Z) : bool :=
  match v1, v2 with
  | x :: v1', y :: v2' => if x =? y then vec_equal v1' v2' else false
  | _, _ => true
  end.

Definition vc_equal (c1 c2 : vc) : bool :=
  if vsize c1 =? vsize c2 then vec_equal (vector c1) (vector c2) else false.

(** The loop of [vc_causally_ready]: [i] counts up, entry [o] is skipped. *)
Fixpoint ready_others (i o : Z) (cur next : list Z) : bool :=
  match cur, next with
  | x :: cur', y :: next' =>
      if i =? o then ready_others (i + 1) o cur' next'
      else if x <? y then false
      else ready_others (i + 1) o cur' next'
  | _, _ => true
  end.

Definition vc_causally_ready (current next : vc) : res bool :=
  if negb (vsize current =? vsize next) then Crash AssertFail
  else
    let o := vid next in
    if ready_others 0 o (vector current) (vector next) then
      y ← zlookup (vector next) o;
      x ← zlookup (vector current) o;
      Ok (y =? i32 (x + 1))
    else Ok false.

(** The first loop of [vc_cmp]: the suffixes at the first index where the two
    arrays differ. *)
Fixpoint skip_equal (v1 v2 : list Z) : list Z * list Z :=
  match v1, v2 with
  | x :: v1', y :: v2' => if x =? y then skip_equal v1' v2' else (v1, v2)
  | _, _ => (v1, v2)
  end.

(** The second loops of [vc_cmp]: after an entry where the first clock is
    greater, an entry where it is smaller makes the clocks concurrent, and the
    ids decide; equal ids fall through to the rest of the loop. *)
Fixpoint scan_smaller (v1 v2 : list Z) (id1 id2 : Z) : Z :=
  match v1, v2 with
  | x :: v1', y :: v2' =>
      if x <? y then
        if id1 >? id2 then VC_C_GREATER
        else if id1 <? id2 then VC_C_LESS
        else scan_smaller v1' v2' id1 id2
      else scan_smaller v1' v2' id1 id2
  | _, _ => VC_GREATER
  end.

Fixpoint scan_greater (v1 v2 : list Z) (id1 id2 : Z) : Z :=
  match v1, v2 with
  | x :: v1', y :: v2' =>
      if x >? y then
        if id1 >? id2 then VC_C_GREATER
        else if id1 <? id2 then VC_C_LESS
        else scan_greater v1' v2' id1 id2
      else scan_greater v1' v2' id1 id2
  | _, _ => VC_LESS
  end.

Definition vc_cmp (c1 c2 : vc) : Z :=
  if negb (vsize c1 =? vsize c2) then VC_CMP_ERR
  else
    match skip_equal (vector c1) (vector c2) with
    | (x :: v1, y :: v2) =>
        if x >? y then scan_smaller v1 v2 (vid c1) (vid c2)
        else if x <? y then scan_greater v1 v2 (vid c1) (vid c2)
        else VC_CMP_ERR
    | _ =>
        if vid c1 =? vid c2 then VC_CMP_ERR
        else if vid c1 >? vid c2 then VC_C_GREATER
        else VC_C_LESS
    end.

(** The loop of [vc_update] over two arrays of the same length. *)
Fixpoint vec_update (tar m : list Z) : list Z :=
  match tar, m with
  | x :: tar', y :: m' => (if y >? x then y else x) :: vec_update tar' m'
  | _, _ => tar
  end.

Definition vc_update (tar m : vc) : vc :=
  if negb (vsize tar =? vsize m) then tar
  else mkVc (vec_update (vector tar) (vector m)) (vid tar).

(** ** Serialisation *)

(** [vcToSds]: every entry but the last is followed by a comma; the last one,
    read at index [size - 1] or at 0 when the size is 0, by a bar and the id. *)
Fixpoint vec_print (v : list Z) (id : Z) : res string :=
  match v with
  | [] => Crash OutOfBounds
  | [x] => Ok (print_int x +:+ "|" +:+ print_int id)
  | x :: v' => s ← vec_print v' id; Ok (print_int x +:+ "," +:+ s)
  end.

Definition vcToSds (c : vc) : res string := vec_print (vector c) (vid c).

(** The entries of the static buffer [vc_int_buf]. *)
Definition VC_INT_BUF : nat := 100.

Definition is_sep (c : ascii) : bool := (code c =? 44) || (code c =? 124).

(** The [while (1)] loop of [sdsToVC]; [size] entries are in the buffer.  Each
    turn consumes at least the separator, so the length of the string bounds
    the number of turns. *)
Fixpoint vec_parse (fuel : nat) (size : nat) (p : string) : res (list Z * string) :=
  match fuel with
  | O => Crash Diverges
  | S fuel' =>
      if (VC_INT_BUF <=? size)%nat then Crash OutOfBounds
      else
        let x := atoi p in
        '(c, p') ← skip_to is_sep p;
        if code c =? 124 then Ok ([x], p')
        else '(v, r) ← vec_parse fuel' (S size) p'; Ok (x :: v, r)
  end.

Definition sdsToVC (s : string) : res vc :=
  '(v, p) ← vec_parse (S (String.length s)) 0 s;
  Ok (mkVc v (atoi p)).

(** [vc_now]: the clock with the own entry incremented, printed; the entry is
    decremented again, so the clock itself is unchanged. *)
Definition vc_now (c : vc) : res string :=
  x ← zlookup (vector c) (vid c);
  v ← zupdate (vector c) (vid c) (i32 (x + 1));
  vcToSds (mkVc v (vid c)).

(** ** The causal order *)

Definition vle : relation (list Z) := Forall2 Z.le.
Definition vlt (v w : list Z) : Prop := vle v w /\ v <> w.
Definition vconc (v w : list Z) : Prop := ~ vle v w /\ ~ vle w v.

#[export] Instance vle_dec v w : Decision (vle v w).
Proof. unfold vle. apply _. Defined.
#[export] Instance vlt_dec v w : Decision (vlt v w).
Proof. unfold vlt. apply _. Defined.

#[export] Instance vle_po : PartialOrder vle.
Proof.
  split; [split|].
  - intros v. unfold vle. induction v; constructor; [lia|done].
  - intros u v w. unfold vle. intros H; revert w.
    induction H as [|x y u v Hxy Huv IH]; intros w Hw; inversion Hw; subst; constructor;
      [lia|auto].
  - intros v w H. induction H as [|x y v w Hxy Hvw IH]; intros H2; [done|].
    inversion H2; subst. f_equal; [lia|auto].
Qed.

Lemma vle_length v w : vle v w -> length v = length w.
Proof. apply Forall2_length. Qed.

Lemma vlt_irrefl v : ~ vlt v v.
Proof. intros [_ H]. done. Qed.

Lemma vle_lt_trans u v w : vle u v -> vlt v w -> vlt u w.
Proof.
  intros Huv [Hvw Hne]. split; [by trans v|]. intros ->. apply Hne.
  by apply (anti_symm vle).
Qed.

Lemma vlt_le_trans u v w : vlt u v -> vle v w -> vlt u w.
Proof.
  intros [Huv Hne] Hvw. split; [by trans v|]. intros ->. apply Hne.
  by apply (anti_symm vle).
Qed.

#[export] Instance vlt_strict : StrictOrder vlt.
Proof.
  split.
  - intros v. apply vlt_irrefl.
  - intros u v w [Huv ?] Hvw. by eapply vle_lt_trans.
Qed.

Lemma vle_lookup v w i x y :
  vle v w -> v !! i = Some x -> w !! i = Some y -> x <= y.
Proof. intros. by eapply (Forall2_lookup_lr Z.le v w i). Qed.

(** Pointwise order on vectors of one length, by index. *)
Lemma vle_alt v w :
  length v = length w ->
  vle v w <-> forall i x y, v !! i = Some x -> w !! i = Some y -> x <= y.
Proof.
  intros Hlen. split; [intros; by eapply vle_lookup|].
  intros H. apply Forall2_same_length_lookup_2; eauto.
Qed.

Lemma not_vle_witness v w :
  length v = length w -> ~ vle v w ->
  exists i x y, v !! i = Some x /\ w !! i = Some y /\ y < x.
Proof.
  revert w; induction v as [|x v IH]; intros [|y w] Hlen Hn; try done.
  destruct (Z.le_gt_cases x y) as [Hle|Hgt].
  - destruct (IH w) as (i & a & b & ? & ? & ?).
    + naive_solver.
    + intros H. apply Hn. by constructor.
    + exists (S i), a, b. done.
  - exists 0%nat, x, y. done.
Qed.

(** ** [vc_equal] decides equality of the arrays *)

Lemma vec_equal_spec v w : length v = length w -> vec_equal v w = bool_decide (v = w).
Proof.
  revert w; induction v as [|x v IH]; intros [|y w] Hlen; try done; simpl.
  destruct (Z.eqb_spec x y) as [->|Hne].
  - rewrite IH by naive_solver. apply bool_decide_ext. naive_solver.
  - symmetry. apply bool_decide_eq_false. naive_solver.
Qed.

Lemma vc_equal_spec c1 c2 : vc_equal c1 c2 = bool_decide (vector c1 = vector c2).
Proof.
  unfold vc_equal, vsize. destruct (Z.eqb_spec (Z.of_nat (length (vector c1)))
    (Z.of_nat (length (vector c2)))) as [Heq|Hne].
  - apply vec_equal_spec. lia.
  - symmetry. apply bool_decide_eq_false. intros Heq. by rewrite Heq in Hne.
Qed.

(** ** [vc_cmp] *)

Lemma skip_equal_spec v w :
  length v = length w ->
  exists p v' w', v = p ++ v' /\ w = p ++ w' /\ skip_equal v w = (v', w') /\
    length v' = length w' /\
    match v', w' with x :: _, y :: _ => x <> y | _, _ => v' = [] /\ w' = [] end.
Proof.
  revert w; induction v as [|x v IH]; intros [|y w] Hlen; try done; simpl.
  { by exists [], [], []. }
  destruct (Z.eqb_spec x y) as [->|Hne].
  - destruct (IH w) as (p & v' & w' & -> & -> & Heq & Hl & Hm); [naive_solver|].
    exists (y :: p), v', w'. done.
  - exists [], (x :: v), (y :: w). done.
Qed.

Lemma vle_app_same p v w : vle (p ++ v) (p ++ w) <-> vle v w.
Proof.
  induction p as [|x p IH]; simpl; [done|]. unfold vle in *. rewrite <- IH. split.
  - by inversion 1.
  - intros H. constructor; [lia|done].
Qed.

Lemma vle_cons x y v w : vle (x :: v) (y :: w) <-> x <= y /\ vle v w.
Proof. unfold vle. split; [by inversion 1|]. intros [??]. by constructor. Qed.

Lemma scan_smaller_spec v w id1 id2 :
  length v = length w ->
  scan_smaller v w id1 id2 =
    if decide (vle w v) then VC_GREATER
    else if id1 >? id2 then VC_C_GREATER
    else if id1 <? id2 then VC_C_LESS else VC_GREATER.
Proof.
  revert w; induction v as [|x v IH]; intros [|y w] Hlen; try done; simpl.
  rewrite (decide_ext _ _ _ _ (vle_cons y x w v)).
  assert (length v = length w) as Hl by naive_solver.
  destruct (Z.ltb_spec x y) as [Hlt|Hge].
  - rewrite decide_False by lia. rewrite (IH w Hl). by repeat case_match.
  - rewrite (IH w Hl). destruct (decide (vle w v)).
    + by rewrite decide_True by (split; [lia|done]).
    + by rewrite decide_False by tauto.
Qed.

Lemma scan_greater_spec v w id1 id2 :
  length v = length w ->
  scan_greater v w id1 id2 =
    if decide (vle v w) then VC_LESS
    else if id1 >? id2 then VC_C_GREATER
    else if id1 <? id2 then VC_C_LESS else VC_LESS.
Proof.
  revert w; induction v as [|x v IH]; intros [|y w] Hlen; try done; simpl.
  rewrite (decide_ext _ _ _ _ (vle_cons x y v w)).
  assert (length v = length w) as Hl by naive_solver.
  rewrite Z.gtb_ltb. destruct (Z.ltb_spec y x) as [Hlt|Hge].
  - rewrite decide_False by lia. rewrite (IH w Hl). by repeat case_match.
  - rewrite (IH w Hl). destruct (decide (vle v w)).
    + by rewrite decide_True by (split; [lia|done]).
    + by rewrite decide_False by tauto.
Qed.

(** What [vc_cmp] is meant to return: causality where the vectors are ordered,
    the order of the ids where they are not. *)
Definition cmp_by_id (id1 id2 : Z) : Z :=
  if id1 =? id2 then VC_CMP_ERR else if id1 >? id2 then VC_C_GREATER else VC_C_LESS.

Definition vc_cmp_meaning (c1 c2 : vc) : Z :=
  if decide (vlt (vector c1) (vector c2)) then VC_LESS
  else if decide (vlt (vector c2) (vector c1)) then VC_GREATER
  else cmp_by_id (vid c1) (vid c2).

(** Clocks that can be compared: one size, and two clocks of one replica are
    ordered (a replica's own clock only grows). *)
Definition comparable (c1 c2 : vc) : Prop :=
  length (vector c1) = length (vector c2) /\
  (vid c1 = vid c2 -> vle (vector c1) (vector c2) \/ vle (vector c2) (vector c1)).

#[export] Instance comparable_dec c1 c2 : Decision (comparable c1 c2).
Proof. unfold comparable. apply _. Defined.

Lemma comparable_sym c1 c2 : comparable c1 c2 -> comparable c2 c1.
Proof. unfold comparable. intros [H1 H2]. split; [done|]. intros Heq. symmetry in Heq. tauto. Qed.

Lemma vlt_app_same p v w : vlt (p ++ v) (p ++ w) <-> vlt v w.
Proof.
  unfold vlt. rewrite vle_app_same. split; intros [? Hne]; (split; [done|]).
  - intros ->. done.
  - intros Heq. by apply app_inv_head in Heq.
Qed.

(** Helper: the comparison after the common prefix. *)
Lemma vc_cmp_meaning_heads x y v w id1 id2 :
  x <> y -> length v = length w ->
  (id1 = id2 -> vle (x :: v) (y :: w) \/ vle (y :: w) (x :: v)) ->
  (if x >? y then scan_smaller v w id1 id2
   else if x <? y then scan_greater v w id1 id2 else VC_CMP_ERR) =
  (if decide (vlt (x :: v) (y :: w)) then VC_LESS
   else if decide (vlt (y :: w) (x :: v)) then VC_GREATER
   else cmp_by_id id1 id2).
Proof.
  intros Hxy Hlen Hid. rewrite Z.gtb_ltb.
  assert (forall a b u t, a <> b -> vlt (a :: u) (b :: t) <-> a <= b /\ vle u t) as Hlt.
  { intros a b u t Hab. unfold vlt. rewrite vle_cons. split; [tauto|]. intros ?. split; [done|]. congruence. }
  rewrite !vle_cons in Hid.
  rewrite (decide_ext _ _ _ _ (Hlt x y v w Hxy)), (decide_ext _ _ _ _ (Hlt y x w v ltac:(lia))).
  unfold cmp_by_id. rewrite Z.gtb_ltb.
  destruct (Z.ltb_spec y x), (Z.ltb_spec x y); try lia.
  - rewrite (decide_False (P := _ /\ vle v w)) by lia.
    rewrite scan_smaller_spec, Z.gtb_ltb by done. destruct (decide (vle w v)).
    + by rewrite decide_True by (split; [lia|done]).
    + rewrite decide_False by tauto. destruct (Z.eqb_spec id1 id2); zbool; try lia.
      exfalso. naive_solver lia.
  - rewrite scan_greater_spec, Z.gtb_ltb by done. destruct (decide (vle v w)).
    + by rewrite decide_True by (split; [lia|done]).
    + rewrite decide_False by tauto. rewrite decide_False by lia.
      destruct (Z.eqb_spec id1 id2); zbool; try lia. exfalso. naive_solver lia.
Qed.

Lemma vc_cmp_meaning_eq c1 c2 :
  comparable c1 c2 -> vc_cmp c1 c2 = vc_cmp_meaning c1 c2.
Proof.
  destruct c1 as [v1 id1], c2 as [v2 id2]. unfold comparable, vc_cmp, vc_cmp_meaning, vsize.
  simpl. intros [Hlen Hid]. rewrite Hlen, Z.eqb_refl. simpl.
  destruct (skip_equal_spec v1 v2 Hlen) as (p & w1 & w2 & -> & -> & -> & Hl & Hm).
  rewrite !vle_app_same in Hid.
  rewrite !(decide_ext _ _ _ _ (vlt_app_same _ _ _)).
  destruct w1 as [|x w1], w2 as [|y w2]; try (destruct Hm as [??]; done).
  apply vc_cmp_meaning_heads; naive_solver.
Qed.

Lemma vc_cmp_less c1 c2 :
  comparable c1 c2 -> (vc_cmp c1 c2 =? VC_LESS) = bool_decide (vlt (vector c1) (vector c2)).
Proof.
  intros H. rewrite vc_cmp_meaning_eq by done. unfold vc_cmp_meaning, cmp_by_id.
  unfold VC_LESS, VC_GREATER, VC_CMP_ERR, VC_C_GREATER, VC_C_LESS.
  destruct (decide _); [by rewrite bool_decide_true|].
  rewrite bool_decide_false by done. repeat case_match; done.
Qed.

(** ** [vc_update] is the least upper bound *)

Lemma if_gtb_max x y : (if y >? x then y else x) = Z.max x y.
Proof. rewrite Z.gtb_ltb. zbool; lia. Qed.

Lemma vec_update_length v w : length (vec_update v w) = length v.
Proof. revert w; induction v as [|x v IH]; intros [|y w]; simpl; auto. Qed.

Lemma vec_update_lub v w u :
  length v = length w -> vle (vec_update v w) u <-> vle v u /\ vle w u.
Proof.
  revert w u; induction v as [|x v IH]; intros [|y w] u Hlen; try done; simpl.
  - tauto.
  - destruct u as [|z u]; [split; [by inversion 1|by intros [H _]; inversion H]|].
    rewrite !vle_cons, IH by naive_solver. rewrite if_gtb_max. intuition lia.
Qed.

Lemma vec_update_comm v w : length v = length w -> vec_update v w = vec_update w v.
Proof.
  revert w; induction v as [|x v IH]; intros [|y w] Hlen; try done; simpl.
  f_equal; [rewrite !if_gtb_max; lia|auto].
Qed.

Lemma vec_update_assoc u v w :
  length v = length w ->
  vec_update u (vec_update v w) = vec_update (vec_update u v) w.
Proof.
  revert v w; induction u as [|x u IH]; intros [|y v] [|z w] Hlen; simpl; try done.
  f_equal; [rewrite !if_gtb_max; lia|auto].
Qed.

Lemma vec_update_absorb v w : vle w v -> vec_update v w = v.
Proof.
  intros H. induction H as [|y x w v Hxy H IH]; simpl; [done|].
  rewrite IH, if_gtb_max. f_equal. lia.
Qed.

Lemma vec_update_ub_l v w : length v = length w -> vle v (vec_update v w).
Proof. intros H. by apply (vec_update_lub v w _ H). Qed.

Lemma vec_update_ub_r v w : length v = length w -> vle w (vec_update v w).
Proof. intros H. by apply (vec_update_lub v w _ H). Qed.

Lemma vc_update_vector c m :
  length (vector c) = length (vector m) ->
  vc_update c m = mkVc (vec_update (vector c) (vector m)) (vid c).
Proof. intros H. unfold vc_update, vsize. by rewrite H, Z.eqb_refl. Qed.

Lemma vc_update_id c m : vid (vc_update c m) = vid c.
Proof. unfold vc_update. by destruct (negb _). Qed.

(** ** Causal readiness *)

(** [next] is the event of replica [vid next] right after those [cur] has seen:
    nothing else is missing, and its own entry is one ahead. *)
Definition next_event (cur next : vc) : Prop :=
  (forall i x y, Z.of_nat i <> vid next ->
     vector cur !! i = Some x -> vector next !! i = Some y -> y <= x) /\
  exists x, 0 <= vid next /\ vector cur !! Z.to_nat (vid next) = Some x /\
     vector next !! Z.to_nat (vid next) = Some (x + 1).

(** Clocks a server with [n] replicas builds: [n] entries in [int] range, not
    negative and below [INT_MAX], and an id that is an index. *)
Record wf_vc (n : nat) (c : vc) : Prop := {
  wf_size : length (vector c) = n;
  wf_entries : Forall (fun x => 0 <= x < INT_MAX) (vector c);
  wf_id : 0 <= vid c < Z.of_nat n
}.

Lemma wf_vc_lookup n c i x : wf_vc n c -> vector c !! i = Some x -> 0 <= x < INT_MAX.
Proof. intros [_ H _] Hi. by eapply (Forall_lookup_1 _ _ _ _ H). Qed.

Lemma ready_others_spec k o v w :
  length v = length w -> 0 <= k ->
  ready_others k o v w = true <->
  (forall i x y, k + Z.of_nat i <> o -> v !! i = Some x -> w !! i = Some y -> y <= x).
Proof.
  revert k w; induction v as [|x v IH]; intros k [|y w] Hlen Hk; try done; simpl.
  assert (Hstep : (forall i a b, k + Z.of_nat i <> o -> (x :: v) !! i = Some a ->
      (y :: w) !! i = Some b -> b <= a) <->
      (k <> o -> y <= x) /\ (forall i a b, k + 1 + Z.of_nat i <> o -> v !! i = Some a ->
      w !! i = Some b -> b <= a)).
  { split.
    - intros H. split.
      + intros Hk'. apply (H 0%nat); simpl; [lia|done..].
      + intros i a b Hi Ha Hb. apply (H (S i)); simpl; [lia|done..].
    - intros [H0 HS] [|i] a b Hi Ha Hb; simpl in *.
      + simplify_eq. apply H0. lia.
      + apply (HS i a b); [lia|done..]. }
  rewrite Hstep. rewrite <- (IH (k + 1) w) by naive_solver lia.
  destruct (Z.eqb_spec k o); [naive_solver|]. destruct (Z.ltb_spec x y).
  - split; [done|]. intros [H1 _]. specialize (H1 ltac:(done)). lia.
  - naive_solver.
Qed.

Lemma vc_causally_ready_spec n cur next :
  wf_vc n cur -> wf_vc n next ->
  exists b, vc_causally_ready cur next = Ok b /\ (b = true <-> next_event cur next).
Proof.
  intros Hcur Hnext. pose proof (wf_size _ _ Hcur) as H1. pose proof (wf_size _ _ Hnext) as H2.
  pose proof (wf_id _ _ Hnext) as Hid. unfold vc_causally_ready, vsize.
  rewrite H1, H2, Z.eqb_refl. simpl.
  pose proof (ready_others_spec 0 (vid next) (vector cur) (vector next)
    ltac:(lia) ltac:(lia)) as Hr. simpl in Hr.
  destruct (ready_others _ _ _ _).
  - destruct (zlookup_is_Ok (vector next) (vid next)) as [y Hy]; [lia|].
    destruct (zlookup_is_Ok (vector cur) (vid next)) as [x Hx]; [lia|].
    rewrite Hy, Hx. simpl. eexists. split; [done|].
    apply zlookup_Ok in Hy as [_ Hy], Hx as [_ Hx].
    pose proof (wf_vc_lookup _ _ _ _ Hcur Hx) as Hxr. unfold INT_MAX in Hxr.
    rewrite i32_id by (unfold int_range, INT_MIN, INT_MAX; lia). rewrite Z.eqb_eq.
    split.
    + intros ->. split; [by apply Hr|]. exists x. split; [lia|done].
    + intros (_ & x' & _ & Hx' & Hy'). congruence.
  - eexists. split; [done|]. split; [done|].
    intros [H _]. by apply Hr in H.
Qed.

Lemma next_event_update n cur next :
  wf_vc n cur -> wf_vc n next -> next_event cur next ->
  exists x, vector cur !! Z.to_nat (vid next) = Some x /\
    vec_update (vector cur) (vector next) = <[Z.to_nat (vid next) := x + 1]> (vector cur).
Proof.
  intros Hcur Hnext [Hothers (x & Hpos & Hx & Hy)]. exists x. split; [done|].
  pose proof (wf_size _ _ Hcur) as H1. pose proof (wf_size _ _ Hnext) as H2.
  apply (anti_symm vle).
  - apply vec_update_lub; [lia|]. split.
    + apply vle_alt; [by rewrite length_insert|]. intros i a b Ha Hb.
      destruct (decide (i = Z.to_nat (vid next))) as [->|Hne].
      * rewrite list_lookup_insert_eq in Hb by (by eapply lookup_lt_Some).
        simplify_eq. lia.
      * rewrite list_lookup_insert_ne in Hb by done. simplify_eq. lia.
    + apply vle_alt; [rewrite length_insert; lia|]. intros i a b Ha Hb.
      destruct (decide (i = Z.to_nat (vid next))) as [->|Hne].
      * rewrite list_lookup_insert_eq in Hb by (by eapply lookup_lt_Some).
        simplify_eq. lia.
      * rewrite list_lookup_insert_ne in Hb by done. eapply (Hothers i b a); [lia|done..].
  - pose proof (vec_update_ub_l (vector cur) (vector next) ltac:(lia)) as Hl.
    pose proof (vec_update_ub_r (vector cur) (vector next) ltac:(lia)) as Hr.
    apply vle_alt; [by rewrite length_insert, vec_update_length|]. intros i a b Ha Hb.
    destruct (decide (i = Z.to_nat (vid next))) as [->|Hne].
    + rewrite list_lookup_insert_eq in Ha by (by eapply lookup_lt_Some).
      simplify_eq. by eapply (vle_lookup _ _ _ _ _ Hr).
    + rewrite list_lookup_insert_ne in Ha by done. by eapply (vle_lookup _ _ _ _ _ Hl).
Qed.

(** ** Round trip through the wire format *)

Lemma is_sep_num d : num_char d = true -> is_sep d = false.
Proof.
  unfold num_char, is_sep, isdigit. intros [[H1%Z.leb_le H2%Z.leb_le]%andb_true_iff|H%Z.eqb_eq]%orb_true_iff;
    apply orb_false_iff; rewrite !Z.eqb_neq; lia.
Qed.

Lemma vec_print_Ok v id : v <> [] -> is_Ok (vec_print v id).
Proof.
  induction v as [|x [|y v] IH]; intros Hne; [done|eexists; done|].
  destruct IH as [s Hs]; [done|]. cbn [vec_print] in *. rewrite Hs. eexists; done.
Qed.

Lemma vec_parse_print v id s fuel size :
  vec_print v id = Ok s -> Forall int_range v ->
  (length v < fuel)%nat -> (size + length v <= VC_INT_BUF)%nat ->
  vec_parse fuel size s = Ok (v, print_int id).
Proof.
  revert s fuel size; induction v as [|x v IH]; intros s fuel size Hs Hr Hf Hsz; [done|].
  apply Forall_cons in Hr as [Hx Hr]. destruct fuel as [|fuel]; [simpl in Hf; lia|].
  cbn [vec_parse]. rewrite (proj2 (Nat.leb_gt _ _)) by (simpl in Hsz; lia).
  destruct v as [|y v].
  - injection Hs as <-. rewrite atoi_print_int by done.
    change ("|" +:+ print_int id) with (String "|" (print_int id)).
    rewrite skip_to_num by (apply all_num_print_int || apply is_sep_num || done). done.
  - cbn [vec_print] in Hs. apply bind_Ok_inv in Hs as (t & Ht & Hs). injection Hs as <-.
    rewrite atoi_print_int by done. change ("," +:+ t) with (String "," t).
    rewrite skip_to_num by (apply all_num_print_int || apply is_sep_num || done).
    simpl. rewrite (IH t) by (done || simpl in *; lia). done.
Qed.

Lemma string_length_app a b : String.length (a +:+ b) = (String.length a + String.length b)%nat.
Proof. induction a as [|c a IH]; simpl; [done|]. unfold String.app in *. by f_equal. Qed.

Lemma vec_print_length v id s : vec_print v id = Ok s -> (length v <= String.length s)%nat.
Proof.
  revert s; induction v as [|x [|y v] IH]; intros s Hs; [done| |].
  - injection Hs as <-. rewrite !string_length_app. simpl. lia.
  - cbn [vec_print] in Hs. apply bind_Ok_inv in Hs as (t & Ht & Hs). injection Hs as <-.
    specialize (IH t Ht). rewrite !string_length_app. cbn [length] in *. simpl. lia.
Qed.

Lemma vcToSds_roundtrip c :
  vector c <> [] -> (length (vector c) <= VC_INT_BUF)%nat ->
  Forall int_range (vector c) -> int_range (vid c) ->
  exists s, vcToSds c = Ok s /\ sdsToVC s = Ok c.
Proof.
  intros Hne Hlen Hr Hid. destruct (vec_print_Ok (vector c) (vid c) Hne) as [s Hs].
  exists s. split; [done|]. unfold sdsToVC.
  rewrite (vec_parse_print (vector c) (vid c)); try done.
  - simpl. rewrite <- (string_app_nil_r (print_int (vid c))).
    rewrite atoi_print_int by done. by destruct c.
  - apply vec_print_length in Hs. lia.
Qed.

(** ** The clock of the next local event *)

Lemma wf_vc_serialises n c :
  wf_vc n c -> (0 < n <= VC_INT_BUF)%nat ->
  vector c <> [] /\ (length (vector c) <= VC_INT_BUF)%nat /\
  Forall int_range (vector c) /\ int_range (vid c).
Proof.
  intros [Hsz He Hid] Hn. split_and!.
  - intros H. rewrite H in Hsz. simpl in Hsz. lia.
  - lia.
  - eapply Forall_impl; [done|]. intros x Hx. unfold int_range, INT_MIN, INT_MAX in *. lia.
  - unfold int_range, INT_MIN, INT_MAX, VC_INT_BUF in *. lia.
Qed.

Lemma wf_vc_roundtrip n c :
  wf_vc n c -> (0 < n <= VC_INT_BUF)%nat -> exists s, vcToSds c = Ok s /\ sdsToVC s = Ok c.
Proof.
  intros Hc Hn. destruct (wf_vc_serialises _ _ Hc Hn) as (?&?&?&?).
  by apply vcToSds_roundtrip.
Qed.

Lemma vc_now_spec n c x :
  wf_vc n c -> (0 < n <= VC_INT_BUF)%nat ->
  vector c !! Z.to_nat (vid c) = Some x ->
  exists s, vc_now c = Ok s /\
    sdsToVC s = Ok (mkVc (<[Z.to_nat (vid c) := x + 1]> (vector c)) (vid c)).
Proof.
  intros Hc Hn Hx. pose proof (wf_id _ _ Hc) as Hid. pose proof (wf_size _ _ Hc) as Hsz.
  pose proof (wf_vc_lookup _ _ _ _ Hc Hx) as Hxr.
  destruct (wf_vc_serialises _ _ Hc Hn) as (_ & Hl & Hr & Hidr).
  assert (zlookup (vector c) (vid c) = Ok x) as Hzl by (apply zlookup_Ok; split; [lia|done]).
  unfold vc_now. rewrite Hzl. simpl. rewrite zupdate_Ok by lia. simpl.
  unfold INT_MAX in Hxr.
  rewrite i32_id by (unfold int_range, INT_MIN, INT_MAX; lia).
  apply vcToSds_roundtrip; simpl; [| by rewrite length_insert | | done].
  - intros H. apply (f_equal length) in H. rewrite length_insert in H. simpl in H. lia.
  - apply Forall_insert; [done|]. unfold int_range, INT_MIN, INT_MAX. lia.
Qed.

(** ** Properties *)

(** On clocks of one size where two clocks of one replica are
    ordered, the result is [VC_LESS] or [VC_GREATER] exactly when the vectors
    are strictly ordered, and otherwise the order of the replica ids, with the
    error value only for two equal clocks. *)
Theorem vc_cmp_correct c1 c2 :
  comparable c1 c2 ->
  (vc_cmp c1 c2 = VC_LESS <-> vlt (vector c1) (vector c2)) /\
  (vc_cmp c1 c2 = VC_GREATER <-> vlt (vector c2) (vector c1)) /\
  (vc_cmp c1 c2 = VC_C_LESS <->
     ~ vlt (vector c1) (vector c2) /\ ~ vlt (vector c2) (vector c1) /\ vid c1 < vid c2) /\
  (vc_cmp c1 c2 = VC_C_GREATER <->
     ~ vlt (vector c1) (vector c2) /\ ~ vlt (vector c2) (vector c1) /\ vid c2 < vid c1) /\
  (vc_cmp c1 c2 = VC_CMP_ERR <-> c1 = c2).
Proof.
  intros Hc. rewrite vc_cmp_meaning_eq by done. destruct Hc as [Hlen Hid].
  destruct c1 as [v1 id1], c2 as [v2 id2]. unfold vc_cmp_meaning, cmp_by_id in *. simpl in *.
  unfold VC_LESS, VC_GREATER, VC_C_LESS, VC_C_GREATER, VC_CMP_ERR.
  rewrite Z.gtb_ltb.
  destruct (decide (vlt v1 v2)) as [Hlt|Hnlt].
  { assert (~ vlt v2 v1) by (intros Hgt; by apply (irreflexivity vlt v1); trans v2).
    split_and!; split; try done; try tauto. intros [= -> ->]. by apply vlt_irrefl in Hlt. }
  destruct (decide (vlt v2 v1)) as [Hgt|Hngt].
  { split_and!; split; try done; try tauto. intros [= -> ->]. by apply vlt_irrefl in Hgt. }
  destruct (Z.eqb_spec id1 id2) as [->|Hne].
  { assert (v1 = v2) as -> by (destruct (decide (v1 = v2)); [done|]; unfold vlt in *; naive_solver).
    split_and!; split; try done; lia. }
  zbool; split_and!; split; try done; try (intros (_ & _ & ?); lia);
    try (intros _; split_and!; done || lia); intros [= -> ->]; lia.
Qed.

Lemma vc_cmp_correct_witness :
  comparable (mkVc [1; 0; 2] 0) (mkVc [1; 3; 2] 1) /\
  vc_cmp (mkVc [1; 0; 2] 0) (mkVc [1; 3; 2] 1) = VC_LESS.
Proof.
  assert (comparable (mkVc [1; 0; 2] 0) (mkVc [1; 3; 2] 1)) as H
    by (apply (bool_decide_unpack _); reflexivity).
  split; [exact H|]. apply (proj1 (vc_cmp_correct _ _ H)).
  apply (bool_decide_unpack _). reflexivity.
Defined.

(** [vc_update]: merging keeps the owner's id and computes the least upper
    bound of the two vectors, whichever clock is the target; merging twice or
    in another order gives the same vector. *)
Theorem vc_update_join c m u :
  length (vector c) = length (vector m) -> length (vector m) = length (vector u) ->
  vid (vc_update c m) = vid c /\
  (forall w, vle (vector (vc_update c m)) w <-> vle (vector c) w /\ vle (vector m) w) /\
  vector (vc_update c m) = vector (vc_update m c) /\
  vc_update (vc_update c m) u = vc_update c (vc_update m u) /\
  vc_update (vc_update c m) m = vc_update c m.
Proof.
  intros Hcm Hmu. rewrite vc_update_id.
  assert (Hl : forall a b, length (vector (mkVc (vec_update a b) 0)) = length a)
    by (intros; simpl; apply vec_update_length).
  rewrite !(vc_update_vector c m), !(vc_update_vector m _) by congruence. simpl.
  rewrite !vc_update_vector; simpl; rewrite ?vec_update_length; try congruence.
  split_and!.
  - done.
  - intros w. by apply vec_update_lub.
  - by apply vec_update_comm.
  - by rewrite vec_update_assoc.
  - rewrite vec_update_absorb; [done|]. by apply vec_update_ub_r.
Qed.

Lemma vc_update_join_witness :
  vector (vc_update (mkVc [1; 4] 0) (mkVc [3; 2] 1)) =
    vector (vc_update (mkVc [3; 2] 1) (mkVc [1; 4] 0)).
Proof.
  apply (vc_update_join (mkVc [1; 4] 0) (mkVc [3; 2] 1) (mkVc [0; 0] 1)); reflexivity.
Defined.

(** ([vcToSds], [sdsToVC]): every clock with between 1 and 100 entries, all
    in [int] range, survives the wire format. *)
Theorem vc_wire_roundtrip c :
  vector c <> [] -> (length (vector c) <= VC_INT_BUF)%nat ->
  Forall int_range (vector c) -> int_range (vid c) ->
  exists s, vcToSds c = Ok s /\ sdsToVC s = Ok c.
Proof. apply vcToSds_roundtrip. Qed.

Lemma vc_wire_roundtrip_witness :
  exists s, vcToSds (mkVc [3; -1; 2147483647] 2) = Ok s /\
    sdsToVC s = Ok (mkVc [3; -1; 2147483647] 2).
Proof.
  apply (vc_wire_roundtrip (mkVc [3; -1; 2147483647] 2)).
  - discriminate.
  - apply (bool_decide_unpack _); reflexivity.
  - apply (bool_decide_unpack _); reflexivity.
  - apply (bool_decide_unpack _); reflexivity.
Defined.

(** [vc_now], [vc_causally_ready]: the clock a replica stamps its next
    event with is, once parsed by any replica, causally ready exactly at the
    replicas that have seen what the sender had seen and no event of the sender
    beyond that; at the sender itself it always is. *)
Theorem vc_now_ready n c cur :
  wf_vc n c -> wf_vc n cur -> (0 < n <= VC_INT_BUF)%nat ->
  Forall (fun x => x < INT_MAX - 1) (vector c) ->
  exists s t b, vc_now c = Ok s /\ sdsToVC s = Ok t /\ vid t = vid c /\
    vc_causally_ready c t = Ok true /\
    vc_causally_ready cur t = Ok b /\
    (b = true <-> vle (vector c) (vector cur) /\
       vector cur !! Z.to_nat (vid c) = vector c !! Z.to_nat (vid c)).
Proof.
  intros Hc Hcur Hn Hmax. pose proof (wf_id _ _ Hc) as Hid.
  pose proof (wf_size _ _ Hc) as Hsz. pose proof (wf_size _ _ Hcur) as Hszc.
  destruct (lookup_lt_is_Some_2 (vector c) (Z.to_nat (vid c))) as [x Hx]; [lia|].
  destruct (vc_now_spec _ _ _ Hc Hn Hx) as (s & Hs & Ht).
  set (t := mkVc (<[Z.to_nat (vid c) := x + 1]> (vector c)) (vid c)) in *.
  pose proof (wf_vc_lookup _ _ _ _ Hc Hx) as Hxr.
  pose proof (Forall_lookup_1 _ _ _ _ Hmax Hx) as Hxm. simpl in Hxm.
  assert (wf_vc n t) as Hwt.
  { split; simpl; [by rewrite length_insert| |done].
    apply Forall_insert; [by destruct Hc|lia]. }
  assert (Hti : forall i, i <> Z.to_nat (vid c) -> vector t !! i = vector c !! i).
  { intros i Hi. simpl. by rewrite list_lookup_insert_ne. }
  assert (Hto : vector t !! Z.to_nat (vid c) = Some (x + 1)).
  { simpl. rewrite list_lookup_insert_eq; [done|lia]. }
  destruct (vc_causally_ready_spec _ _ _ Hc Hwt) as (b1 & Hb1 & Hb1').
  destruct (vc_causally_ready_spec _ _ _ Hcur Hwt) as (b2 & Hb2 & Hb2').
  exists s, t, b2. split_and!; try done.
  - rewrite Hb1. f_equal. apply Hb1'. split.
    + intros i a b Hi Ha Hb. rewrite Hti in Hb by (simpl in Hi; lia). simplify_eq. lia.
    + exists x. split_and!; [simpl; lia|done..].
  - rewrite Hb2'. split.
    + intros [Hoth (z & _ & Hz & Hzt)]. change (vid t) with (vid c) in *.
      rewrite Hto in Hzt.
      assert (z = x) as -> by (simplify_eq; lia). rewrite Hz, Hx. split; [|done].
      apply vle_alt; [lia|]. intros i a b Ha Hb.
      destruct (decide (i = Z.to_nat (vid c))) as [->|Hi]; [simplify_eq; lia|].
      apply (Hoth i b a); [simpl; lia|done|by rewrite Hti].
    + intros [Hle Heq]. split.
      * intros i a b Hi Ha Hb. rewrite Hti in Hb by (simpl in Hi; lia).
        by eapply (vle_lookup _ _ _ _ _ Hle).
      * exists x. split_and!; [simpl; lia|by rewrite <- Hx|done].
Qed.

Lemma vc_now_ready_witness :
  exists s t b, vc_now (mkVc [1; 2] 1) = Ok s /\ sdsToVC s = Ok t /\ vid t = 1 /\
    vc_causally_ready (mkVc [1; 2] 1) t = Ok true /\
    vc_causally_ready (mkVc [5; 2] 0) t = Ok b /\
    (b = true <-> vle [1; 2] [5; 2] /\ [5; 2] !! Z.to_nat 1 = [1; 2] !! Z.to_nat 1).
Proof.
  apply (vc_now_ready 2 (mkVc [1; 2] 1) (mkVc [5; 2] 0)).
  - split; [reflexivity|apply (bool_decide_unpack _); reflexivity|simpl; lia].
  - split; [reflexivity|apply (bool_decide_unpack _); reflexivity|simpl; lia].
  - unfold VC_INT_BUF; lia.
  - apply (bool_decide_unpack _); reflexivity.
Defined.
