(* ===== verification/LamportClock.v ===== *)
(** * Lamport clocks: lamport_clock.h

    Used in two ways: as unique tags of the add-win priority queue
    ([lc_cmp_as_tag], id first) and as Lamport timestamps of the property
    updates of the RWF list ([lc_cmp], counter first). *)

From S2P Require Import Prelude Sds.
From Stdlib Require Import Ascii.

Record lc := mkLc { lx : Z; lid : Z }.

#[export] Instance lc_eq_dec : EqDecision lc.
Proof. solve_decision. Defined.

(** ** Operations *)

Definition _lc_new (x id : Z) : lc := mkLc x id.

(** The differences are computed in [int]. *)
Definition lc_cmp_as_tag (t1 t2 : lc) : Z :=
  if negb (lid t1 =? lid t2) then i32 (lid t1 - lid t2) else i32 (lx t1 - lx t2).

Definition lc_cmp (t1 t2 : lc) : Z :=
  if negb (lx t1 =? lx t2) then i32 (lx t1 - lx t2) else i32 (lid t1 - lid t2).

Definition lc_dup (t : lc) : lc := _lc_new (lx t) (lid t).

(** [lcToSds]: the format "%d,%d". *)
Definition lcToSds (t : lc) : string := print_int (lx t) +:+ "," +:+ print_int (lid t).

(** [sdsToLc]: [sscanf(s, "%d,%d", ...)] into a fresh record; a field whose
    conversion does not happen is left uninitialised. *)
Definition sdsToLc (s : string) : res lc :=
  match scan_int s with
  | Some (x, String c r) =>
      if code c =? 44 then
        match scan_int r with
        | Some (id, _) => Ok (mkLc x id)
        | None => Crash Uninitialised
        end
      else Crash Uninitialised
  | _ => Crash Uninitialised
  end.

Definition lc_update (tar m : lc) : lc :=
  mkLc (if lx tar >? lx m then lx tar else lx m) (lid tar).

(** [lc_copy(tar, m)], where [tar] may be a null pointer. *)
Definition lc_copy (tar : option lc) (m : lc) : option lc :=
  match tar with
  | None => Some (lc_dup m)
  | Some _ => Some (mkLc (lx m) (lid m))
  end.

(** [lc_now]: the clock one tick later, printed; the clock is unchanged. *)
Definition lc_now (t : lc) : string := lcToSds (mkLc (i32 (lx t + 1)) (lid t)).

(** ** Orders *)

(** Clocks whose fields are not negative [int]s: what [lc_new] builds from
    counters that start at 0 and from replica ids. *)
Definition wf_lc (t : lc) : Prop := 0 <= lx t <= INT_MAX /\ 0 <= lid t <= INT_MAX.

#[export] Instance wf_lc_dec t : Decision (wf_lc t).
Proof. unfold wf_lc. apply _. Defined.

(** The lexicographic orders the two comparisons stand for. *)
Definition tag_lt (t1 t2 : lc) : Prop :=
  lid t1 < lid t2 \/ (lid t1 = lid t2 /\ lx t1 < lx t2).
Definition lamport_lt (t1 t2 : lc) : Prop :=
  lx t1 < lx t2 \/ (lx t1 = lx t2 /\ lid t1 < lid t2).

#[export] Instance tag_lt_dec t1 t2 : Decision (tag_lt t1 t2).
Proof. unfold tag_lt. apply _. Defined.
#[export] Instance lamport_lt_dec t1 t2 : Decision (lamport_lt t1 t2).
Proof. unfold lamport_lt. apply _. Defined.

#[export] Instance tag_lt_strict : StrictOrder tag_lt.
Proof. split; [intros t|intros t1 t2 t3]; unfold complement, tag_lt; lia. Qed.
#[export] Instance lamport_lt_strict : StrictOrder lamport_lt.
Proof. split; [intros t|intros t1 t2 t3]; unfold complement, lamport_lt; lia. Qed.

Lemma lc_eq_iff t1 t2 : t1 = t2 <-> lx t1 = lx t2 /\ lid t1 = lid t2.
Proof. destruct t1, t2; simpl. naive_solver. Qed.

Lemma tag_trichotomy t1 t2 : tag_lt t1 t2 \/ t1 = t2 \/ tag_lt t2 t1.
Proof. rewrite lc_eq_iff. unfold tag_lt. lia. Qed.

Lemma lamport_trichotomy t1 t2 : lamport_lt t1 t2 \/ t1 = t2 \/ lamport_lt t2 t1.
Proof. rewrite lc_eq_iff. unfold lamport_lt. lia. Qed.

Ltac lc_no_overflow :=
  rewrite !i32_id by (unfold int_range, INT_MIN, INT_MAX in *; lia).

Lemma lc_cmp_as_tag_spec t1 t2 :
  wf_lc t1 -> wf_lc t2 ->
  (lc_cmp_as_tag t1 t2 < 0 <-> tag_lt t1 t2) /\
  (lc_cmp_as_tag t1 t2 = 0 <-> t1 = t2) /\
  (lc_cmp_as_tag t1 t2 > 0 <-> tag_lt t2 t1).
Proof.
  unfold wf_lc, INT_MAX. intros H1 H2. rewrite lc_eq_iff.
  unfold lc_cmp_as_tag, tag_lt. lc_no_overflow.
  destruct (Z.eqb_spec (lid t1) (lid t2)); simpl; lia.
Qed.

Lemma lc_cmp_spec t1 t2 :
  wf_lc t1 -> wf_lc t2 ->
  (lc_cmp t1 t2 < 0 <-> lamport_lt t1 t2) /\
  (lc_cmp t1 t2 = 0 <-> t1 = t2) /\
  (lc_cmp t1 t2 > 0 <-> lamport_lt t2 t1).
Proof.
  unfold wf_lc, INT_MAX. intros H1 H2. rewrite lc_eq_iff.
  unfold lc_cmp, lamport_lt. lc_no_overflow.
  destruct (Z.eqb_spec (lx t1) (lx t2)); simpl; lia.
Qed.

(** Equality of tags is decided by [lc_cmp_as_tag], whatever the ranges: the
    difference of two [int]s wraps to 0 only when they are equal. *)
Lemma i32_sub_0 a b : int_range a -> int_range b -> i32 (a - b) = 0 -> a = b.
Proof.
  unfold int_range, INT_MIN, INT_MAX, i32, wrap. intros Ha Hb H.
  change (2 ^ (32 - 1)) with (2 ^ 31) in H.
  assert ((a - b) mod 2 ^ 32 = 0) as Hm.
  { rewrite <- (Z.add_0_r (a - b)). replace 0 with (2 ^ 31 - 2 ^ 31) at 1 by lia.
    rewrite Z.add_sub_assoc, Zminus_mod.
    replace ((a - b + 2 ^ 31) mod 2 ^ 32) with (2 ^ 31) by lia. done. }
  apply Z.mod_divide in Hm; [|lia]. destruct Hm as [k Hk]. lia.
Qed.

(** ** Round trip *)

Lemma lcToSds_roundtrip t : int_range (lx t) -> int_range (lid t) -> sdsToLc (lcToSds t) = Ok t.
Proof.
  intros Hx Hid. unfold sdsToLc, lcToSds.
  change ("," +:+ print_int (lid t)) with (String "," (print_int (lid t))).
  rewrite scan_int_print_int by done. change (code "," =? 44) with true. cbv iota beta.
  rewrite <- (string_app_nil_r (print_int (lid t))).
  rewrite scan_int_print_int by done. by destruct t.
Qed.

(** ** Properties *)

(** [lc_cmp], [lc_cmp_as_tag]: on clocks with fields in [0, INT_MAX] the
    signs of both comparisons are total orders, the counter first and the id
    first respectively, and 0 means equal. *)
Theorem lc_orders_total t1 t2 :
  wf_lc t1 -> wf_lc t2 ->
  ((lc_cmp t1 t2 < 0 <-> lamport_lt t1 t2) /\ (lc_cmp t1 t2 = 0 <-> t1 = t2) /\
   (lc_cmp t1 t2 > 0 <-> lamport_lt t2 t1)) /\
  ((lc_cmp_as_tag t1 t2 < 0 <-> tag_lt t1 t2) /\ (lc_cmp_as_tag t1 t2 = 0 <-> t1 = t2) /\
   (lc_cmp_as_tag t1 t2 > 0 <-> tag_lt t2 t1)).
Proof. intros H1 H2. split; [by apply lc_cmp_spec|by apply lc_cmp_as_tag_spec]. Qed.

Lemma lc_orders_total_witness :
  wf_lc (mkLc 5 1) /\ wf_lc (mkLc 3 2) /\
  (lc_cmp (mkLc 5 1) (mkLc 3 2) > 0 <-> lamport_lt (mkLc 3 2) (mkLc 5 1)).
Proof.
  assert (wf_lc (mkLc 5 1)) as H1 by (apply (bool_decide_unpack _); reflexivity).
  assert (wf_lc (mkLc 3 2)) as H2 by (apply (bool_decide_unpack _); reflexivity).
  split; [exact H1|]. split; [exact H2|].
  exact (proj2 (proj2 (proj1 (lc_orders_total _ _ H1 H2)))).
Defined.
