(* ===== verification/Causal.v ===== *)
(** * Causal histories and causal delivery

    The join of the timestamps of a set of operations, the histories that
    replicas with vector clocks produce, and the delivery buffer shared by the
    remove-win queue and the remove-win list (the [ops] lists and [notifyLoop]
    of t_rzset.c and t_rlist.c): an operation that is not causally ready waits,
    and after every executed operation the buffer is scanned again. *)

From S2P Require Import Prelude Sds VectorClock.

(** ** The join of the timestamps *)

Section History.
Context {op : Type} (stamp : op -> list Z).

(** The least upper bound of a starting vector and the stamps. *)
Definition history (cur : list Z) (l : list op) : list Z :=
  foldl (fun c o => vec_update c (stamp o)) cur l.

Definition sized (n : nat) (l : list op) : Prop := Forall (fun o => length (stamp o) = n) l.

Lemma history_length n cur l :
  length cur = n -> length (history cur l) = n.
Proof.
  revert cur; induction l as [|o l IH]; intros cur H; simpl; [done|].
  apply IH. by rewrite vec_update_length.
Qed.

Lemma history_snoc cur l o : history cur (l ++ [o]) = vec_update (history cur l) (stamp o).
Proof. unfold history. by rewrite foldl_app. Qed.

Lemma history_lub n cur l u :
  length cur = n -> sized n l ->
  vle (history cur l) u <-> vle cur u /\ Forall (fun o => vle (stamp o) u) l.
Proof.
  revert cur; induction l as [|o l IH]; intros cur Hc Hl; simpl.
  - rewrite Forall_nil. tauto.
  - apply Forall_cons in Hl as [Ho Hl].
    rewrite IH by (done || by rewrite vec_update_length).
    rewrite vec_update_lub, Forall_cons by congruence. tauto.
Qed.

Lemma history_perm n cur l1 l2 :
  length cur = n -> sized n l1 -> l1 ≡ₚ l2 -> history cur l1 = history cur l2.
Proof.
  intros Hc Hl Hp. assert (sized n l2) as Hl2 by (unfold sized in *; by rewrite <- Hp).
  apply (anti_symm vle).
  - apply (history_lub n); [done..|].
    pose proof (proj1 (history_lub n cur l2 _ Hc Hl2) (reflexivity _)) as [H1 H2].
    split; [done|]. by rewrite Hp.
  - apply (history_lub n); [done..|].
    pose proof (proj1 (history_lub n cur l1 _ Hc Hl) (reflexivity _)) as [H1 H2].
    split; [done|]. by rewrite <- Hp.
Qed.

Lemma history_ge n cur l o :
  length cur = n -> sized n l -> o ∈ l -> vle (stamp o) (history cur l).
Proof.
  intros Hc Hl Ho.
  pose proof (proj1 (history_lub n cur l _ Hc Hl) (reflexivity _)) as [_ H].
  rewrite Forall_forall in H. auto.
Qed.

End History.

(** ** Entries of a clock *)

Definition entry (v : list Z) (i : Z) : Z := default 0 (v !! Z.to_nat i).
(** The number of the event at its own replica. *)
Definition own (c : vc) : Z := entry (vector c) (vid c).

Lemma entry_lookup v i x : v !! i = Some x -> entry v (Z.of_nat i) = x.
Proof. unfold entry. rewrite Nat2Z.id. by intros ->. Qed.

Lemma entry_vle v w : length v = length w ->
  vle v w <-> (forall i, 0 <= i < Z.of_nat (length v) -> entry v i <= entry w i).
Proof.
  intros Hl. split.
  - intros H i Hi. unfold entry.
    destruct (lookup_lt_is_Some_2 v (Z.to_nat i)) as [x Hx]; [lia|].
    destruct (lookup_lt_is_Some_2 w (Z.to_nat i)) as [y Hy]; [lia|].
    rewrite Hx, Hy. simpl. by eapply (vle_lookup _ _ _ _ _ H).
  - intros H. apply vle_alt; [done|]. intros i x y Hx Hy.
    pose proof (lookup_lt_Some _ _ _ Hx). specialize (H (Z.of_nat i) ltac:(lia)).
    by rewrite (entry_lookup _ _ _ Hx), (entry_lookup _ _ _ Hy) in H.
Qed.

Lemma entry_mono v w i : vle v w -> entry v i <= entry w i.
Proof.
  intros H. unfold entry. pose proof (vle_length _ _ H) as Hl.
  destruct (v !! Z.to_nat i) as [x|] eqn:Hx, (w !! Z.to_nat i) as [y|] eqn:Hy; simpl; try lia.
  - by eapply (vle_lookup _ _ _ _ _ H).
  - apply lookup_ge_None in Hy. apply lookup_lt_Some in Hx. lia.
  - apply lookup_ge_None in Hx. apply lookup_lt_Some in Hy. lia.
Qed.

Lemma entry_nonneg n c i : wf_vc n c -> 0 <= entry (vector c) i.
Proof.
  intros H. unfold entry. destruct (vector c !! Z.to_nat i) as [x|] eqn:Hx; simpl; [|lia].
  apply (wf_vc_lookup _ _ _ _ H) in Hx. lia.
Qed.

Lemma next_event_entry n c t :
  length (vector c) = n -> wf_vc n t ->
  next_event c t <->
    (forall i, 0 <= i < Z.of_nat n -> i <> vid t -> entry (vector t) i <= entry (vector c) i) /\
    own t = entry (vector c) (vid t) + 1.
Proof.
  intros Hc Ht. pose proof (wf_size _ _ Ht) as Hl. pose proof (wf_id _ _ Ht) as Hid.
  destruct (lookup_lt_is_Some_2 (vector c) (Z.to_nat (vid t))) as [x Hx]; [lia|].
  destruct (lookup_lt_is_Some_2 (vector t) (Z.to_nat (vid t))) as [y Hy]; [lia|].
  unfold own, next_event, entry. rewrite Hx, Hy. simpl. split.
  - intros [H1 (x' & _ & Hx' & Hy')]. simplify_eq. split; [|done]. intros i Hi Hne.
    destruct (lookup_lt_is_Some_2 (vector c) (Z.to_nat i)) as [a Ha]; [lia|].
    destruct (lookup_lt_is_Some_2 (vector t) (Z.to_nat i)) as [b Hb]; [lia|].
    rewrite Ha, Hb. simpl. eapply (H1 (Z.to_nat i)); [lia|done..].
  - intros [H1 ->]. split.
    + intros i a b Hne Ha Hb. pose proof (lookup_lt_Some _ _ _ Ha).
      specialize (H1 (Z.of_nat i) ltac:(lia) Hne). by rewrite Nat2Z.id, Ha, Hb in H1.
    + exists x. split_and!; [lia|done..].
Qed.

Lemma entry_update v w i : length v = length w ->
  entry (vec_update v w) i = Z.max (entry v i) (entry w i).
Proof.
  intros Hl. pose proof (vec_update_length v w) as Hu.
  apply Z.le_antisymm.
  - revert w i Hl Hu. induction v as [|x v IH]; intros [|y w] i Hl Hu; try done.
    simpl in *. rewrite if_gtb_max. unfold entry.
    destruct (Z.to_nat i) as [|k]; simpl; [lia|].
    specialize (IH w (Z.of_nat k) ltac:(lia) ltac:(lia)). unfold entry in IH.
    by rewrite Nat2Z.id in IH.
  - apply Z.max_lub; apply entry_mono; [by apply vec_update_ub_l|by apply vec_update_ub_r].
Qed.

Lemma entry_zeros (n : nat) i : entry (replicate n 0) i = 0.
Proof.
  unfold entry. destruct (replicate n 0 !! Z.to_nat i) as [x|] eqn:H; [|done].
  by apply lookup_replicate in H as [-> _].
Qed.

(** ** Histories *)

Section Histories.
Context {op : Type} (ts : op -> vc).

Definition join (n : nat) (l : list op) : list Z :=
  history (fun o => vector (ts o)) (replicate n 0) l.

(** The operations a system of [n] replicas has issued on one element.  Every
    operation is identified by its replica and its number there, and by its
    vector; it comes with everything its vector counts, and what it counts is
    in its past. *)
Record valid_history (n : nat) (S : list op) : Prop := {
  vh_wf : Forall (fun o => wf_vc n (ts o)) S;
  vh_own : forall o, o ∈ S -> 1 <= own (ts o);
  vh_nodup : NoDup S;
  vh_key : forall o o', o ∈ S -> o' ∈ S ->
    vid (ts o) = vid (ts o') -> own (ts o) = own (ts o') -> o = o';
  vh_vec : forall o o', o ∈ S -> o' ∈ S -> vector (ts o) = vector (ts o') -> o = o';
  vh_deps : forall o j k, o ∈ S -> 0 <= j < Z.of_nat n -> 1 <= k <= entry (vector (ts o)) j ->
    exists o', o' ∈ S /\ vid (ts o') = j /\ own (ts o') = k /\ vle (vector (ts o')) (vector (ts o))
}.

(** Executions in causal order: every operation is the next event of its
    replica after those executed so far, and is above the ones it counts. *)
Inductive causal_seq (n : nat) : list op -> Prop :=
| causal_nil : causal_seq n []
| causal_snoc l o :
    causal_seq n l -> wf_vc n (ts o) ->
    next_event (mkVc (join n l) 0) (ts o) ->
    (forall b, b ∈ l -> own (ts b) <= entry (vector (ts o)) (vid (ts b)) ->
       vle (vector (ts b)) (vector (ts o))) ->
    causal_seq n (l ++ [o]).

Lemma join_length n l : length (join n l) = n.
Proof. apply (history_length (fun o => vector (ts o))), length_replicate. Qed.

Lemma join_snoc n l o : join n (l ++ [o]) = vec_update (join n l) (vector (ts o)).
Proof. apply (history_snoc (fun o => vector (ts o))). Qed.

Lemma wf_sized n l : Forall (fun o => wf_vc n (ts o)) l -> sized (fun o => vector (ts o)) n l.
Proof. intros H. eapply Forall_impl; [exact H|]. intros o Ho. apply (wf_size _ _ Ho). Qed.

Lemma join_ge n l o : Forall (fun o => wf_vc n (ts o)) l -> o ∈ l -> vle (vector (ts o)) (join n l).
Proof. intros Hl Ho. by apply (history_ge (fun o => vector (ts o)) n _ l _ (length_replicate _ _) (wf_sized _ _ Hl)). Qed.

Lemma join_perm n l1 l2 :
  Forall (fun o => wf_vc n (ts o)) l1 -> l1 ≡ₚ l2 -> join n l1 = join n l2.
Proof. intros Hl Hp. by apply (history_perm (fun o => vector (ts o)) n); [apply length_replicate|apply wf_sized|]. Qed.

Lemma causal_seq_wf n l : causal_seq n l -> Forall (fun o => wf_vc n (ts o)) l.
Proof. induction 1; [constructor|]. apply Forall_app. auto using Forall_nil_2, Forall_cons_2. Qed.

Lemma join_wf n l id :
  Forall (fun o => wf_vc n (ts o)) l -> 0 <= id < Z.of_nat n -> wf_vc n (mkVc (join n l) id).
Proof.
  intros Hl Hid. split; simpl; [apply join_length| |done].
  induction l as [|o l IH] using rev_ind.
  - apply Forall_replicate. unfold INT_MAX. lia.
  - apply Forall_app in Hl as [Hl Ho]. apply Forall_cons in Ho as [Ho _]. specialize (IH Hl).
    rewrite join_snoc. apply Forall_forall. intros x [i Hi]%list_elem_of_lookup.
    pose proof (entry_update (join n l) (vector (ts o)) (Z.of_nat i)) as He.
    rewrite (entry_lookup _ _ _ Hi) in He.
    rewrite He by (rewrite join_length; symmetry; apply (wf_size _ _ Ho)).
    assert (wf_vc n (mkVc (join n l) id)) as Hw by (split; simpl; [apply join_length|done..]).
    assert (forall c j, wf_vc n c -> 0 <= entry (vector c) j < INT_MAX) as Hr.
    { intros c j Hc. unfold entry. destruct (vector c !! Z.to_nat j) eqn:E; simpl.
      - by apply (wf_vc_lookup _ _ _ _ Hc) in E.
      - unfold INT_MAX. lia. }
    pose proof (Hr _ (Z.of_nat i) Hw). pose proof (Hr _ (Z.of_nat i) Ho). simpl in *. lia.
Qed.

(** The join counts exactly the executed events. *)
Lemma causal_seq_complete n l j k :
  causal_seq n l -> 0 <= j < Z.of_nat n -> 1 <= k <= entry (join n l) j ->
  exists b, b ∈ l /\ vid (ts b) = j /\ own (ts b) = k.
Proof.
  intros Hl Hj. induction Hl as [|l o Hl IH Ho Hnext _].
  - unfold join, history. simpl. rewrite entry_zeros. lia.
  - rewrite join_snoc, entry_update by (rewrite join_length; symmetry; apply (wf_size _ _ Ho)).
    apply (next_event_entry n) in Hnext as [Hoth Hown]; [|apply join_length|done].
    simpl in *. intros Hk.
    destruct (decide (k <= entry (join n l) j)) as [Hle|Hgt].
    { destruct IH as (b & Hb & ?); [lia|]. exists b. set_solver. }
    destruct (decide (j = vid (ts o))) as [->|Hne].
    + exists o. unfold own in *. split_and!; [set_solver|done|lia].
    + specialize (Hoth j Hj Hne). lia.
Qed.

(** In an execution, what lies strictly below an operation is what it counts;
    nothing executed lies above the next operation. *)
Lemma causal_not_above n l o b :
  causal_seq n l -> wf_vc n (ts o) -> next_event (mkVc (join n l) 0) (ts o) -> b ∈ l ->
  ~ vle (vector (ts o)) (vector (ts b)).
Proof.
  intros Hl Ho Hnext Hb Hle.
  apply (next_event_entry n) in Hnext as [_ Hown]; [|apply join_length|done]. simpl in Hown.
  pose proof (join_ge n l b (causal_seq_wf _ _ Hl) Hb) as Hj.
  pose proof (entry_mono _ _ (vid (ts o)) Hle). pose proof (entry_mono _ _ (vid (ts o)) Hj).
  unfold own in Hown. lia.
Qed.

(** Executions respect causality. *)
Lemma causal_seq_sorted n l :
  causal_seq n l -> forall i j a b, l !! i = Some a -> l !! j = Some b ->
  vlt (vector (ts a)) (vector (ts b)) -> (i < j)%nat.
Proof.
  induction 1 as [|l o Hl IH Ho Hn Hd]; intros i j a b Hi Hj Hlt; [done|].
  apply lookup_app_Some in Hi as [Hi|[Hi Ha]], Hj as [Hj|[Hj Hb]].
  - by eapply IH.
  - apply lookup_lt_Some in Hi. lia.
  - apply list_lookup_singleton_Some in Ha as [_ <-]. exfalso. destruct Hlt as [Hle _].
    eapply (causal_not_above n l o b); [done..|by eapply list_elem_of_lookup_2|done].
  - apply list_lookup_singleton_Some in Ha as [_ <-], Hb as [_ <-].
    by apply vlt_irrefl in Hlt.
Qed.

(** Operations of one replica are ordered by causality. *)
Lemma causal_same_replica n l o b :
  causal_seq n l -> wf_vc n (ts o) -> next_event (mkVc (join n l) 0) (ts o) ->
  (forall b, b ∈ l -> own (ts b) <= entry (vector (ts o)) (vid (ts b)) ->
     vle (vector (ts b)) (vector (ts o))) ->
  b ∈ l -> vid (ts b) = vid (ts o) -> vlt (vector (ts b)) (vector (ts o)).
Proof.
  intros Hl Ho Hnext Hdep Hb Hid. pose proof (causal_not_above n l o b Hl Ho Hnext Hb) as Hna.
  split; [|intros Heq; apply Hna; by rewrite Heq].
  apply Hdep; [done|]. apply (next_event_entry n) in Hnext as [_ Hown]; [|apply join_length|done].
  pose proof (join_ge n l b (causal_seq_wf _ _ Hl) Hb) as Hj.
  pose proof (entry_mono _ _ (vid (ts o)) Hj). unfold own in *. simpl in *. rewrite Hid. lia.
Qed.

Lemma causal_comparable n l o b :
  causal_seq n l -> wf_vc n (ts o) -> next_event (mkVc (join n l) 0) (ts o) ->
  (forall b, b ∈ l -> own (ts b) <= entry (vector (ts o)) (vid (ts b)) ->
     vle (vector (ts b)) (vector (ts o))) ->
  b ∈ l -> comparable (ts b) (ts o).
Proof.
  intros Hl Ho Hnext Hdep Hb. pose proof (causal_seq_wf _ _ Hl) as Hwf.
  rewrite Forall_forall in Hwf. pose proof (wf_size _ _ (Hwf _ Hb)). pose proof (wf_size _ _ Ho).
  split; [congruence|]. intros Hid. left. by apply (causal_same_replica n l o b).
Qed.

Lemma valid_history_nil n : valid_history n [].
Proof. split; [done|by intros o ?%elem_of_nil|constructor|by intros o o' ?%elem_of_nil..|by intros o j k ?%elem_of_nil]. Qed.

(** The next operation of a replica that executed [x], all its own operations
    among them, is stamped with the next event of the join and extends the
    history. *)
Lemma valid_history_snoc n S x o :
  valid_history n S -> causal_seq n x -> x ⊆ S -> wf_vc n (ts o) ->
  (forall j, 0 <= j < Z.of_nat n ->
     entry (vector (ts o)) j = entry (join n x) j + (if decide (j = vid (ts o)) then 1 else 0)) ->
  (forall b, b ∈ S -> vid (ts b) = vid (ts o) -> b ∈ x) ->
  valid_history n (S ++ [o]).
Proof.
  intros [Hwf Hown Hnd Hkey Hvec Hdeps] Hx Hsub Ho Hent Hmine.
  pose proof (wf_id _ _ Ho) as Hid. pose proof (causal_seq_wf _ _ Hx) as Hwx.
  assert (own (ts o) = entry (join n x) (vid (ts o)) + 1) as Hoo by (unfold own; rewrite Hent, decide_True by done; done).
  assert (0 <= entry (join n x) (vid (ts o))) as Hnn by apply (entry_nonneg n _ _ (join_wf n x _ Hwx Hid)).
  assert (vle (join n x) (vector (ts o))) as Hjo.
  { apply entry_vle; rewrite join_length; [symmetry; apply (wf_size _ _ Ho)|]. intros j Hj. rewrite (Hent j Hj). case_decide; lia. }
  assert (forall b, b ∈ S -> vid (ts b) = vid (ts o) -> own (ts b) < own (ts o)) as Hlt.
  { intros b Hb Hv. pose proof (join_ge n x b Hwx (Hmine b Hb Hv)) as Hge.
    pose proof (entry_mono _ _ (vid (ts o)) Hge). unfold own at 1. rewrite Hv. lia. }
  assert (forall b, b ∈ S -> vector (ts b) <> vector (ts o)) as Hvne.
  { intros b Hb Heq. destruct (Hdeps b (vid (ts o)) (own (ts o)) Hb Hid) as (b' & Hb' & Hv' & Hw' & _).
    - rewrite Heq. unfold own. fold (own (ts o)). lia.
    - specialize (Hlt b' Hb' Hv'). lia. }
  split.
  - apply Forall_app. by split; [|constructor].
  - intros b [Hb| ->%list_elem_of_singleton]%elem_of_app; [by apply Hown|lia].
  - apply NoDup_app. split_and!; [done| |apply NoDup_singleton]. intros b Hb ->%list_elem_of_singleton. by apply (Hvne o).
  - intros b b' [Hb| ->%list_elem_of_singleton]%elem_of_app [Hb'| ->%list_elem_of_singleton]%elem_of_app Hv Hw; try done.
    + by apply Hkey.
    + specialize (Hlt b Hb Hv). lia.
    + specialize (Hlt b' Hb' (eq_sym Hv)). lia.
  - intros b b' [Hb| ->%list_elem_of_singleton]%elem_of_app [Hb'| ->%list_elem_of_singleton]%elem_of_app Hv; try done.
    + by apply Hvec.
    + by apply Hvne in Hv.
    + by symmetry in Hv; apply Hvne in Hv.
  - intros b j k [Hb| ->%list_elem_of_singleton]%elem_of_app Hj Hk.
    { destruct (Hdeps b j k Hb Hj Hk) as (b' & ? & ?). exists b'. split; [apply elem_of_app; by left|done]. }
    rewrite (Hent j Hj) in Hk. destruct (decide (k <= entry (join n x) j)) as [Hle|Hgt].
    + destruct (causal_seq_complete n x j k Hx Hj ltac:(lia)) as (b & Hb & Hv & Hw). exists b.
      split_and!; [apply elem_of_app; left; by apply Hsub|done..|]. etrans; [by apply (join_ge n x)|done].
    + exists o. case_decide; [subst j|lia]. split_and!; [apply elem_of_app; right; by apply list_elem_of_singleton|done|lia|done].
Qed.

(** A finite check of [valid_history], for concrete histories. *)
Definition history_ok (n : nat) (S : list op) : Prop :=
  Forall (fun o => length (vector (ts o)) = n /\ Forall (fun x => 0 <= x < INT_MAX) (vector (ts o)) /\
                   0 <= vid (ts o) < Z.of_nat n /\ 1 <= own (ts o)) S /\
  NoDup S /\
  Forall (fun o => Forall (fun o' =>
    (vid (ts o) = vid (ts o') /\ own (ts o) = own (ts o')) \/ vector (ts o) = vector (ts o') ->
    o = o') S) S /\
  Forall (fun o => Forall (fun j => Forall (fun k => Exists (fun o' =>
    vid (ts o') = j /\ own (ts o') = k /\ vle (vector (ts o')) (vector (ts o))) S)
    (seqZ 1 (entry (vector (ts o)) j))) (seqZ 0 (Z.of_nat n))) S.

#[export] Instance history_ok_dec `{EqDecision op} n S : Decision (history_ok n S).
Proof. unfold history_ok. apply _. Defined.

Lemma history_ok_valid n S : history_ok n S -> valid_history n S.
Proof.
  unfold history_ok. intros (H1 & H2 & H3 & H4). rewrite Forall_forall in H1, H3, H4. split.
  - apply Forall_forall. intros o Ho. destruct (H1 o Ho) as (?&?&?&?). by split.
  - intros o Ho. by destruct (H1 o Ho) as (?&?&?&?).
  - done.
  - intros o o' Ho Ho' Hv Hw. specialize (H3 o Ho). rewrite Forall_forall in H3. auto.
  - intros o o' Ho Ho' Hv. specialize (H3 o Ho). rewrite Forall_forall in H3. auto.
  - intros o j k Ho Hj Hk. specialize (H4 o Ho). rewrite Forall_forall in H4.
    specialize (H4 j ltac:(apply elem_of_seqZ; lia)). rewrite Forall_forall in H4.
    specialize (H4 k ltac:(apply elem_of_seqZ; lia)).
    apply Exists_exists in H4 as (o' & Ho' & ?). eauto.
Qed.

End Histories.

(** ** The delivery buffer *)

Section Delivery.
Context {op St : Type} (ts : op -> vc) (cur : St -> vc) (exec : St -> op -> res St).

(** One pass of the inner loop: the first operation of the buffer that is
    ready, and the buffer without it. *)
Fixpoint take_ready (c : vc) (ops : list op) : res (option (op * list op)) :=
  match ops with
  | [] => Ok None
  | o :: ops' =>
      b ← vc_causally_ready c (ts o);
      if (b : bool) then Ok (Some (o, ops'))
      else
        r ← take_ready c ops';
        Ok (match r with Some (x, rest) => Some (x, o :: rest) | None => None end)
  end.

(** The [do ... while (changed)] loop.  Every round but the last takes one
    operation out of the buffer, so [length ops + 1] rounds are enough. *)
Fixpoint notify_rounds (fuel : nat) (s : St) (ops : list op) : res (St * list op) :=
  match fuel with
  | O => Crash Diverges
  | S fuel =>
      r ← take_ready (cur s) ops;
      match r with
      | None => Ok (s, ops)
      | Some (o, rest) => s' ← exec s o; notify_rounds fuel s' rest
      end
  end.

Definition notify_loop (s : St) (ops : list op) : res (St * list op) :=
  notify_rounds (S (length ops)) s ops.

(** The effect part of a command: execute and notify, or wait. *)
Definition deliver (st : St * list op) (o : op) : res (St * list op) :=
  let '(s, ops) := st in
  b ← vc_causally_ready (cur s) (ts o);
  if (b : bool) then s' ← exec s o; notify_loop s' ops
  else Ok (s, ops ++ [o]).

(** *** The loop ends, whatever the buffer holds *)

Lemma causally_ready_ends c t : ends (vc_causally_ready c t).
Proof.
  unfold vc_causally_ready. destruct (negb _); [done|]. destruct (ready_others _ _ _ _); [|done].
  assert (forall l i, ends (zlookup l i : res Z)) as Hz.
  { intros l i. unfold zlookup. destruct (0 <=? i); [by apply ends_of_option|done]. }
  repeat (apply ends_bind; [apply Hz|intros ?]). done.
Qed.

Lemma take_ready_ends c ops : ends (take_ready c ops).
Proof.
  induction ops as [|o ops IH]; [done|]. cbn [take_ready].
  apply ends_bind; [apply causally_ready_ends|intros []; [done|by apply ends_bind]].
Qed.

(** What is taken is one operation of the buffer; the others stay in order. *)
Lemma take_ready_some c ops o rest :
  take_ready c ops = Ok (Some (o, rest)) -> exists l1 l2, ops = l1 ++ o :: l2 /\ rest = l1 ++ l2.
Proof.
  revert rest. induction ops as [|a ops IH]; intros rest; [done|]. cbn [take_ready].
  destruct (vc_causally_ready c (ts a)) as [[]|]; cbn [mbind res_bind]; [|destruct (take_ready c ops) as [[[o' r]|]|]|]; try done.
  - intros [= -> ->]. by exists [], rest.
  - intros [= -> <-]. destruct (IH _ eq_refl) as (l1 & l2 & -> & ->). by exists (a :: l1), l2.
Qed.

(** Enough rounds: the outcome is not the one of fuel running out, more rounds
    do not change it, and at a normal end no operation that waits is ready. *)
Lemma notify_rounds_ends : (forall s o, ends (exec s o)) -> forall ops fuel s, (length ops < fuel)%nat ->
  ends (notify_rounds fuel s ops) /\ notify_rounds fuel s ops = notify_loop s ops /\
  forall s' ops', notify_rounds fuel s ops = Ok (s', ops') -> take_ready (cur s') ops' = Ok None /\ ops' `sublist_of` ops.
Proof.
  intros Hexec ops. induction ops as [ops IH] using (induction_ltof1 _ (@length op)). unfold ltof in IH.
  intros [|fuel] s Hf; [lia|]. unfold notify_loop. cbn [notify_rounds].
  destruct (take_ready (cur s) ops) as [[[o rest]|]|c] eqn:Ht; cbn [mbind res_bind].
  - apply take_ready_some in Ht as (l1 & l2 & -> & ->). rewrite length_app in *. cbn [length] in *.
    destruct (exec s o) as [s1|c] eqn:He; cbn [mbind res_bind];
      [|split_and!; [|done|done]; pose proof (Hexec s o) as Hc; rewrite He in Hc; by eapply ends_Crash].
    destruct (IH (l1 ++ l2)) with (fuel := fuel) (s := s1) as (H1 & H2 & H3); [rewrite !length_app; cbn; lia|rewrite length_app; lia|].
    destruct (IH (l1 ++ l2)) with (fuel := (length l1 + S (length l2))%nat) (s := s1) as (_ & H4 & _);
      [rewrite !length_app; cbn; lia|rewrite length_app; lia|].
    split_and!; [done|by rewrite H2|]. intros s' ops' Hr. destruct (H3 _ _ Hr) as [? Hsub]. split; [done|].
    etrans; [exact Hsub|]. apply sublist_app; [done|]. by apply sublist_cons.
  - split_and!; [done|done|]. by intros s' ops' [= <- <-].
  - split_and!; [|done|done]. pose proof (take_ready_ends (cur s) ops) as Hc. rewrite Ht in Hc. by eapply ends_Crash.
Qed.

(** What a component promises of its [exec]: [reached l s] says that [s] is the
    state after executing [l] in causal order. *)
Class CausalExec (n : nat) (reached : list op -> St -> Prop) := {
  ce_cur : forall l s, reached l s ->
    vector (cur s) = join ts n l /\ 0 <= vid (cur s) < Z.of_nat n;
  ce_step : forall l s o, reached l s -> causal_seq ts n (l ++ [o]) ->
    exists s', exec s o = Ok s' /\ reached (l ++ [o]) s'
}.

Context {n : nat} {reached : list op -> St -> Prop} `{!CausalExec n reached}.

Definition ready (l : list op) (o : op) : Prop := next_event (mkVc (join ts n l) 0) (ts o).

Lemma next_event_vector c1 c2 t : vector c1 = vector c2 -> next_event c1 t <-> next_event c2 t.
Proof. intros H. unfold next_event. by rewrite H. Qed.

Lemma cur_ready l s o :
  reached l s -> Forall (fun o => wf_vc n (ts o)) l -> wf_vc n (ts o) ->
  exists b, vc_causally_ready (cur s) (ts o) = Ok b /\ (b = true <-> ready l o).
Proof.
  intros Hr Hl Ho. destruct (ce_cur _ _ Hr) as [Hv Hid].
  assert (cur s = mkVc (join ts n l) (vid (cur s))) as Hc.
  { destruct (cur s) as [v i]. simpl in *. by rewrite Hv. }
  destruct (vc_causally_ready_spec n (cur s) (ts o)) as (b & Hb & Hiff).
  - rewrite Hc. by apply join_wf.
  - done.
  - exists b. split; [done|]. rewrite Hiff. by apply next_event_vector.
Qed.

Lemma take_ready_spec l s ops :
  reached l s -> Forall (fun o => wf_vc n (ts o)) l -> Forall (fun o => wf_vc n (ts o)) ops ->
  (take_ready (cur s) ops = Ok None /\ Forall (fun o => ~ ready l o) ops) \/
  (exists o rest, take_ready (cur s) ops = Ok (Some (o, rest)) /\ ready l o /\ ops ≡ₚ o :: rest).
Proof.
  intros Hr Hl. induction 1 as [|o ops Ho Hops IH]; simpl.
  - left. split; [done|constructor].
  - destruct (cur_ready l s o Hr Hl Ho) as (b & -> & Hb). simpl. destruct b.
    + right. exists o, ops. split_and!; [done|by apply Hb|done].
    + assert (~ ready l o) as Hno by (intros H; by apply Hb in H).
      destruct IH as [[-> HF]|(x & rest & -> & Hx & Hp)]; simpl.
      * left. split; [done|by constructor].
      * right. exists x, (o :: rest). split_and!; [done..|]. rewrite Hp. apply perm_swap.
Qed.

Context (hist : list op) (Hhist : valid_history ts n hist).

(** An operation of the history that is ready can be executed. *)
Lemma causal_extend l o :
  causal_seq ts n l -> l ⊆ hist -> o ∈ hist -> ready l o -> causal_seq ts n (l ++ [o]).
Proof.
  intros Hl Hsub Ho Hready. destruct Hhist as [Hwf Hown Hnd Hkey Hvec Hdeps].
  rewrite Forall_forall in Hwf. constructor; [done|auto|done|].
  intros b Hb Hcount.
  pose proof (wf_id _ _ (Hwf _ (Hsub _ Hb))) as Hbid.
  destruct (Hdeps o (vid (ts b)) (own (ts b))) as (o' & Ho' & Hv & Hw & Hle);
    [done..|split; [auto|done]|].
  by rewrite <- (Hkey o' b Ho' (Hsub _ Hb) Hv Hw).
Qed.

(** The operations received are split into [x], executed in causal order, and a
    buffer in which nothing is ready. *)
Definition settled_at (x : list op) (st : St * list op) (got : list op) : Prop :=
  causal_seq ts n x /\ reached x st.1 /\ x ++ st.2 ≡ₚ got /\ Forall (fun o => ~ ready x o) st.2.
Definition settled (st : St * list op) (got : list op) : Prop := exists x, settled_at x st got.

Lemma notify_rounds_settles fuel s ops x got :
  (length ops < fuel)%nat -> causal_seq ts n x -> reached x s -> x ++ ops ≡ₚ got ->
  got ⊆ hist -> exists st x', notify_rounds fuel s ops = Ok st /\ settled_at x' st got /\ x `prefix_of` x'.
Proof.
  revert s ops x. induction fuel as [|fuel IH]; intros s ops x Hf Hx Hr Hp Hsub; [lia|].
  assert (Forall (fun o => wf_vc n (ts o)) ops) as Hops.
  { apply Forall_forall. intros o Ho. pose proof (vh_wf _ _ _ Hhist) as Hwf.
    rewrite Forall_forall in Hwf. apply Hwf, Hsub. rewrite <- Hp. set_solver. }
  simpl. destruct (take_ready_spec x s ops Hr (causal_seq_wf _ _ _ Hx) Hops)
    as [[-> HF]|(o & rest & -> & Ho & Hpo)]; simpl.
  - by exists (s, ops), x.
  - assert (causal_seq ts n (x ++ [o])) as Hxo.
    { apply causal_extend; [done| |apply Hsub|done].
      - intros b Hb. apply Hsub. rewrite <- Hp. set_solver.
      - rewrite <- Hp, Hpo. set_solver. }
    destruct (ce_step _ _ _ Hr Hxo) as (s' & -> & Hr'). simpl.
    destruct (IH s' rest (x ++ [o])) as (st & x' & Hst & Hset & Hpre); [|done..| |done|].
    + apply Permutation_length in Hpo. simpl in Hpo. lia.
    + rewrite <- Hp, Hpo, <- (assoc_L (++)). done.
    + exists st, x'. split_and!; [done..|]. by eapply prefix_app_l.
Qed.

Lemma deliver_settles_at x st got o :
  settled_at x st got -> (o :: got) ⊆ hist ->
  exists st' x', deliver st o = Ok st' /\ settled_at x' st' (got ++ [o]) /\ x `prefix_of` x' /\
    (ready x o -> x ++ [o] `prefix_of` x').
Proof.
  destruct st as [s ops]. intros (Hx & Hr & Hp & HF) Hsub. simpl in *.
  assert (o ∈ hist) as Ho by set_solver.
  pose proof (vh_wf _ _ _ Hhist) as Hwf. rewrite Forall_forall in Hwf.
  destruct (cur_ready x s o Hr (causal_seq_wf _ _ _ Hx) (Hwf _ Ho)) as (b & -> & Hb). simpl.
  destruct b.
  - assert (causal_seq ts n (x ++ [o])) as Hxo.
    { apply causal_extend; [done| |done|by apply Hb].
      intros b Hin. apply Hsub. right. rewrite <- Hp. set_solver. }
    destruct (ce_step _ _ _ Hr Hxo) as (s' & -> & Hr'). simpl.
    destruct (notify_rounds_settles (S (length ops)) s' ops (x ++ [o]) (got ++ [o])) as (st & x' & Hst & Hset & Hpre);
      [lia|done..| |set_solver|].
    + rewrite <- (assoc_L (++)), <- Hp, <- (assoc_L (++)). by rewrite (comm (++) [o]).
    + exists st, x'. split_and!; [done..| |done]. by eapply prefix_app_l.
  - eexists _, x. split_and!; [done| |done|intros H; by apply Hb in H]. split_and!; simpl; [done..| |].
    + by rewrite (assoc_L (++)), Hp.
    + apply Forall_app. split; [done|]. constructor; [|constructor].
      intros H. by apply Hb in H.
Qed.

Lemma deliver_settles st got o :
  settled st got -> (o :: got) ⊆ hist ->
  exists st', deliver st o = Ok st' /\ settled st' (got ++ [o]).
Proof.
  intros [x Hx] Hsub. destruct (deliver_settles_at x st got o Hx Hsub) as (st' & x' & Hd & Hs & _).
  exists st'. split; [done|]. by exists x'.
Qed.

(** Whatever the order of arrival, the operations received so far are split
    into an execution in causal order and a buffer in which nothing is ready. *)
Lemma deliver_run st0 l :
  reached [] st0 -> l ⊆ hist ->
  exists st, foldM deliver (st0, []) l = Ok st /\ settled st l.
Proof.
  intros H0. induction l as [|o l IH] using rev_ind; intros Hsub.
  - exists (st0, []). split; [done|]. exists []. split_and!; [constructor|done..|constructor].
  - destruct IH as (st & Hst & Hset); [set_solver|].
    destruct (deliver_settles st l o Hset ltac:(set_solver)) as (st' & Hd & Hset').
    exists st'. split; [|done]. rewrite foldM_app, Hst. simpl. by rewrite Hd.
Qed.

Definition weight (v : list Z) : Z := foldr Z.add 0 v.

Lemma weight_mono v w : vle v w -> weight v <= weight w.
Proof. induction 1; simpl; lia. Qed.

Lemma weight_lt v w : vlt v w -> weight v < weight w.
Proof.
  intros [Hle Hne]. induction Hle as [|x y v w Hxy Hle IH]; [done|]. simpl.
  pose proof (weight_mono _ _ Hle). destruct (decide (v = w)) as [->|Hn].
  - assert (x <> y) by congruence. lia.
  - specialize (IH Hn). lia.
Qed.

Lemma weight_nonneg o : o ∈ hist -> 0 <= weight (vector (ts o)).
Proof.
  intros Ho. pose proof (vh_wf _ _ _ Hhist) as Hwf. rewrite Forall_forall in Hwf.
  pose proof (wf_entries _ _ (Hwf _ Ho)) as He. clear -He.
  induction He as [|y v Hy Hv IHv]; simpl in *; lia.
Qed.

(** An operation of the history is executed once everything below it is. *)
Lemma below_executed_ready x o :
  causal_seq ts n x -> x ⊆ hist -> o ∈ hist -> o ∉ x ->
  (forall o', o' ∈ hist -> vlt (vector (ts o')) (vector (ts o)) -> o' ∈ x) ->
  ready x o.
Proof.
  intros Hx Hsub Ho Hnx Hbelow. destruct Hhist as [Hwf Hown Hnd Hkey Hvec Hdeps].
  rewrite Forall_forall in Hwf. pose proof (Hwf _ Ho) as Hwo.
  pose proof (wf_id _ _ Hwo) as Hid.
  assert (forall j k, 0 <= j < Z.of_nat n -> 1 <= k <= entry (vector (ts o)) j ->
            (j, k) <> (vid (ts o), own (ts o)) -> k <= entry (join ts n x) j) as Hreach.
  { intros j k Hj Hk Hne. destruct (Hdeps o j k Ho Hj Hk) as (o' & Ho' & Hv & Hw & Hle).
    assert (o' ∈ x) as Hox.
    { apply Hbelow; [done|]. split; [done|]. intros Heq. by rewrite (Hvec o' o Ho' Ho Heq) in *; subst. }
    pose proof (join_ge ts n x o' (causal_seq_wf _ _ _ Hx) Hox) as Hge.
    pose proof (entry_mono _ _ j Hge). unfold own in Hw. rewrite Hv in Hw. lia. }
  assert (forall j, 0 <= entry (join ts n x) j) as Hnn.
  { intros j. apply (entry_nonneg n (mkVc (join ts n x) (vid (ts o)))).
    apply join_wf; [by eapply causal_seq_wf|done]. }
  apply (next_event_entry n); [apply join_length|done|]. simpl. split.
  - intros i Hi Hne. destruct (decide (1 <= entry (vector (ts o)) i)); [|specialize (Hnn i); lia].
    apply Hreach; [done|lia|congruence].
  - assert (~ own (ts o) <= entry (join ts n x) (vid (ts o))) as Hup.
    { intros Hle. destruct (causal_seq_complete ts n x (vid (ts o)) (own (ts o)) Hx Hid)
        as (b & Hb & Hv & Hw); [split; [by apply Hown|done]|].
      by rewrite (Hkey b o (Hsub _ Hb) Ho Hv Hw) in Hb. }
    destruct (decide (own (ts o) = 1)) as [H1|H1].
    + specialize (Hnn (vid (ts o))). lia.
    + pose proof (Hown _ Ho). assert (own (ts o) = entry (vector (ts o)) (vid (ts o))) as Hdef by done.
      specialize (Hreach (vid (ts o)) (own (ts o) - 1) Hid ltac:(lia)).
      specialize (Hreach ltac:(intros Hq; injection Hq; lia)). lia.
Qed.

(** Once the whole history has arrived, in whatever order, everything has been
    executed and the buffer is empty. *)
Lemma settled_complete st got :
  settled st got -> got ≡ₚ hist -> st.2 = [].
Proof.
  destruct st as [s ops]. intros (x & Hx & Hr & Hp & HF) Hg. simpl in *.
  rewrite Hg in Hp. pose proof (vh_nodup _ _ _ Hhist) as Hnd. rewrite <- Hp in Hnd.
  apply NoDup_app in Hnd as (_ & Hdisj & _).
  assert (x ⊆ hist) as Hsub by (intros b Hb; rewrite <- Hp; set_solver).
  assert (forall m o, weight (vector (ts o)) < Z.of_nat m -> 0 <= weight (vector (ts o)) ->
            o ∈ hist -> o ∈ x) as Hall.
  { induction m as [|m IH]; intros o Hm H0 Ho; [lia|].
    destruct (decide (Exists (fun b => vector (ts b) = vector (ts o)) x)) as [HE|HE].
    { apply Exists_exists in HE as (b & Hb & Heq).
      by rewrite <- (vh_vec _ _ _ Hhist b o (Hsub _ Hb) Ho Heq). }
    assert (o ∉ x) as Hnx by (intros Hox; apply HE, Exists_exists; by exists o).
    exfalso. rewrite Forall_forall in HF. apply (HF o).
    - assert (o ∈ x ++ ops) as [?|?]%elem_of_app by (by rewrite Hp); done.
    - apply below_executed_ready; [done..|]. intros o' Ho' Hlt.
      pose proof (weight_lt _ _ Hlt). apply IH; [lia|by apply weight_nonneg|done]. }
  destruct ops as [|o ops]; [done|]. exfalso.
  assert (o ∈ hist) as Ho by (rewrite <- Hp; set_solver).
  apply (Hdisj o); [|set_solver].
  pose proof (weight_nonneg _ Ho).
  apply (Hall (Z.to_nat (weight (vector (ts o)) + 1)) o); [lia|done..].
Qed.

(** What lies below an executed operation is executed. *)
Lemma executed_closed x o b :
  causal_seq ts n x -> x ⊆ hist -> o ∈ x -> b ∈ hist -> vle (vector (ts b)) (vector (ts o)) -> b ∈ x.
Proof.
  intros Hx Hsub Ho Hb Hle. destruct Hhist as [Hwf Hown Hnd Hkey Hvec Hdeps]. rewrite Forall_forall in Hwf.
  pose proof (wf_id _ _ (Hwf _ Hb)) as Hid. pose proof (join_ge ts n x o (causal_seq_wf _ _ _ Hx) Ho) as Hge.
  pose proof (entry_mono _ _ (vid (ts b)) Hle). pose proof (entry_mono _ _ (vid (ts b)) Hge).
  destruct (causal_seq_complete ts n x (vid (ts b)) (own (ts b)) Hx Hid) as (b' & Hb' & Hv & Hw).
  { split; [by apply Hown|]. unfold own. lia. }
  by rewrite <- (Hkey b' b (Hsub _ Hb') Hb Hv Hw).
Qed.

(** The executed operations are all that can be executed in causal order. *)
Lemma settled_max x1 x2 st2 got2 :
  causal_seq ts n x1 -> x1 ⊆ got2 -> settled_at x2 st2 got2 -> got2 ⊆ hist -> x1 ⊆ x2.
Proof.
  intros Hx1 Hs (Hx2 & _ & Hp2 & HF2) Hsub.
  assert (x1 ⊆ hist) as Hs1 by (intros b Hb; by apply Hsub, Hs).
  assert (x2 ⊆ hist) as Hs2 by (intros b Hb; apply Hsub; rewrite <- Hp2; set_solver).
  assert (forall m o, weight (vector (ts o)) < Z.of_nat m -> o ∈ x1 -> o ∈ x2) as Hall.
  { induction m as [|m IH]; intros o Hm Ho; [pose proof (weight_nonneg _ (Hs1 _ Ho)); lia|].
    assert (o ∈ x2 ++ st2.2) as [?|Hbuf]%elem_of_app by (rewrite Hp2; by apply Hs); [done|].
    destruct (decide (Exists (fun b => vector (ts b) = vector (ts o)) x2)) as [HE|HE].
    { apply Exists_exists in HE as (b & Hb & Heq). by rewrite <- (vh_vec _ _ _ Hhist b o (Hs2 _ Hb) (Hs1 _ Ho) Heq). }
    exfalso. rewrite Forall_forall in HF2. apply (HF2 o Hbuf).
    apply below_executed_ready; [done|done|by apply Hs1| |].
    - intros Hox. apply HE, Exists_exists. by exists o.
    - intros o' Ho' [Hle Hne]. apply IH; [|by eapply executed_closed].
      pose proof (weight_lt _ _ (conj Hle Hne)). lia. }
  intros o Ho. apply (Hall (Z.to_nat (weight (vector (ts o)) + 1)) o); [|done].
  pose proof (weight_nonneg _ (Hs1 _ Ho)). lia.
Qed.

(** Two orders of arrival of the same operations lead to the same executed ones. *)
Lemma settled_unique x1 x2 st1 st2 got1 got2 :
  settled_at x1 st1 got1 -> settled_at x2 st2 got2 -> got1 ≡ₚ got2 -> NoDup got1 -> got1 ⊆ hist -> x1 ≡ₚ x2.
Proof.
  intros H1 H2 Hg Hnd Hsub. pose proof H1 as (_ & _ & Hp1 & _). pose proof H2 as (_ & _ & Hp2 & _).
  apply NoDup_Permutation.
  - rewrite <- Hp1 in Hnd. by apply NoDup_app in Hnd as (? & _).
  - rewrite Hg, <- Hp2 in Hnd. by apply NoDup_app in Hnd as (? & _).
  - destruct H1 as (Hx1 & Hr1 & _ & HF1), H2 as (Hx2 & Hr2 & _ & HF2). intros o. split; revert o.
    + apply (settled_max x1 x2 st2 got2); [done|intros o Ho; rewrite <- Hg, <- Hp1; set_solver|by split_and!|by rewrite <- Hg].
    + apply (settled_max x2 x1 st1 got1); [done|intros o Ho; rewrite Hg, <- Hp2; set_solver|by split_and!|done].
Qed.

(** Delivery of a whole history, in any order. *)
Lemma deliver_all st0 l :
  reached [] st0 -> l ≡ₚ hist ->
  exists s x, foldM deliver (st0, []) l = Ok (s, []) /\ causal_seq ts n x /\ x ≡ₚ hist /\ reached x s.
Proof.
  intros H0 Hp. destruct (deliver_run st0 l H0) as ([s ops] & Hrun & Hset).
  { intros o Ho. by rewrite <- Hp. }
  pose proof (settled_complete _ _ Hset Hp) as Hnil. simpl in Hnil. subst ops.
  destruct Hset as (x & Hx & Hr & Hpx & _). rewrite app_nil_r in Hpx.
  exists s, x. split_and!; [done..| |done]. by rewrite Hpx.
Qed.
End Delivery.
