(* ===== verification/Double.v ===== *)
(** * Doubles: IEEE 754 binary64 as C's [double], and [strtod]

    Values are [spec_float]s of the standard library's executable model with 53
    bits of precision; arithmetic rounds to nearest, ties to even. *)

From S2P Require Import Prelude Sds.
From Stdlib Require Import Ascii SpecFloat.

#[global] Open Scope Z_scope.

Notation double := spec_float.

#[export] Instance double_eq_dec : EqDecision double.
Proof. solve_decision. Defined.

Definition prec : Z := 53.
Definition emax : Z := 1024.

Definition dzero : double := S754_zero false.
Definition dadd (a b : double) : double := SFadd prec emax a b.
Definition dopp (a : double) : double := SFopp a.
Definition dlt (a b : double) : bool := SFltb a b.
Definition dle (a b : double) : bool := SFleb a b.
(** C's [a == b]: false when either is NaN, true on the two zeros. *)
Definition deq (a b : double) : bool := SFeqb a b.
Definition isnan (a : double) : bool := match a with S754_nan => true | _ => false end.
Definition isinf (a : double) : bool := match a with S754_infinity _ => true | _ => false end.
Definition dinf (neg : bool) : double := S754_infinity neg.

(** An integer converted to [double]. *)
Definition double_of_Z (z : Z) : double := binary_normalize prec emax z 0 false.

(** ** [strtod] *)

(** [m * 10^e] rounded once.  Exponents beyond the range of the format give
    the overflow and underflow results without building the power. *)
Definition of_decimal (neg : bool) (m e : Z) : double :=
  match m with
  | Z.pos p =>
      if 400 <? e then dinf neg
      else if e <? - (400 + Z.log2 m) then S754_zero neg
      else if 0 <=? e then
        binary_normalize prec emax (cond_Zopp neg (m * 10 ^ e)) 0 neg
      else
        let '(mz, ez, lz) := SFdiv_core_binary prec emax m 0 (10 ^ (- e)) 0 in
        binary_round_aux prec emax neg mz ez lz
  | _ => S754_zero neg
  end.

(** [m * 2^e] rounded once, for the hexadecimal form. *)
Definition of_binary (neg : bool) (m e : Z) : double :=
  match m with
  | Z.pos p =>
      if 1100 <? e then dinf neg
      else if e <? - (1200 + Z.log2 m) then S754_zero neg
      else binary_normalize prec emax (cond_Zopp neg m) e neg
  | _ => S754_zero neg
  end.

Definition hex_value (c : ascii) : option Z :=
  if isdigit c then Some (code c - 48)
  else if (97 <=? code c) && (code c <=? 102) then Some (code c - 87)
  else if (65 <=? code c) && (code c <=? 70) then Some (code c - 55)
  else None.

Definition dec_value (c : ascii) : option Z :=
  if isdigit c then Some (code c - 48) else None.

(** A run of digits in a base: the value, how many digits, the rest. *)
Fixpoint scan_base (digit : ascii -> option Z) (base : Z) (s : string) (v n : Z)
    : Z * Z * string :=
  match s with
  | String c s' =>
      match digit c with
      | Some d => scan_base digit base s' (base * v + d) (n + 1)
      | None => (v, n, s)
      end
  | EmptyString => (v, n, s)
  end.

(** The optional exponent after a mantissa: the marker, a sign, digits. *)
Definition scan_exponent (marker : string) (s : string) : Z * string :=
  match s with
  | String c r =>
      if strcaseeq (String c EmptyString) marker then
        let '(neg, r') :=
          match r with
          | String c' r'' =>
              if code c' =? 45 then (true, r'')
              else if code c' =? 43 then (false, r'') else (false, r)
          | EmptyString => (false, r)
          end in
        if starts_digit r' then
          let '(e, r'') := scan_digits r' 0 in (if neg then - e else e, r'')
        else (0, s)
      else (0, s)
  | EmptyString => (0, s)
  end.

(** Mantissa with an optional point: value, digits read, digits after the
    point, rest. *)
Definition scan_mantissa (digit : ascii -> option Z) (base : Z) (s : string)
    : Z * Z * Z * string :=
  let '(v, n, r) := scan_base digit base s 0 0 in
  match r with
  | String c r' =>
      if code c =? 46 then
        let '(v', n', r'') := scan_base digit base r' v 0 in
        if (n =? 0) && (n' =? 0) then (v, n, 0, r) else (v', n + n', n', r'')
      else (v, n, 0, r)
  | EmptyString => (v, n, 0, r)
  end.

Fixpoint strip_prefix (p s : string) : option string :=
  match p, s with
  | EmptyString, _ => Some s
  | String a p', String b s' =>
      if bool_decide (tolower a = tolower b) then strip_prefix p' s' else None
  | _, _ => None
  end.

(** The optional parenthesised characters after "nan". *)
Fixpoint scan_nan_chars (s : string) : option string :=
  match s with
  | String c s' =>
      if code c =? 41 then Some s'
      else if isdigit c || ((65 <=? code c) && (code c <=? 90))
           || ((97 <=? code c) && (code c <=? 122)) || (code c =? 95)
      then scan_nan_chars s' else None
  | EmptyString => None
  end.

(** The value, the unread rest, and whether the range error is set with an
    infinite or zero result; [None] when no conversion is possible. *)
Definition strtod_unsigned (neg : bool) (s : string) : option (double * string * bool) :=
  match strip_prefix "infinity" s with
  | Some r => Some (dinf neg, r, false)
  | None =>
  match strip_prefix "inf" s with
  | Some r => Some (dinf neg, r, false)
  | None =>
  match strip_prefix "nan" s with
  | Some r =>
      let r' := match r with
                | String c q => if code c =? 40 then default r (scan_nan_chars q) else r
                | EmptyString => r
                end in
      Some (S754_nan, r', false)
  | None =>
    let hex := match strip_prefix "0x" s with
               | Some r => let '(m, n, f, r') := scan_mantissa hex_value 16 r in
                           if n =? 0 then None else Some (m, f, r')
               | None => None
               end in
    match hex with
    | Some (m, f, r) =>
        let '(e, r') := scan_exponent "p" r in
        let d := of_binary neg m (e - 4 * f) in
        Some (d, r', (0 <? m) && (isinf d || deq d dzero))
    | None =>
        let '(m, n, f, r) := scan_mantissa dec_value 10 s in
        if n =? 0 then None
        else
          let '(e, r') := scan_exponent "e" r in
          let d := of_decimal neg m (e - f) in
          Some (d, r', (0 <? m) && (isinf d || deq d dzero))
    end
  end end end.

Definition strtod (s : string) : option (double * string * bool) :=
  match skip_space s with
  | String c r =>
      if code c =? 45 then strtod_unsigned true r
      else if code c =? 43 then strtod_unsigned false r
      else strtod_unsigned false (String c r)
  | EmptyString => None
  end.

(** ** util.c and object.c *)

(** [string2d]: the whole string must be one number, with no leading blank, in
    range and not NaN. *)
Definition string2d (s : string) : option double :=
  match s with
  | EmptyString => None
  | String c _ =>
      if isspace c then None
      else match strtod s with
           | Some (d, EmptyString, erange) => if erange || isnan d then None else Some d
           | _ => None
           end
  end.

(** [getDoubleFromObject] on the string objects of a command line. *)
Definition getDoubleFromObject (o : string) : option double := string2d o.

(** The digit loop of [string2ll]; [v] is an [unsigned long long]. *)
Fixpoint ll_digits (s : string) (v : Z) : option Z :=
  match s with
  | EmptyString => Some v
  | String c s' =>
      if isdigit c then
        if ULLONG_MAX / 10 <? v then None
        else
          let v := v * 10 in
          if ULLONG_MAX - (code c - 48) <? v then None
          else ll_digits s' (v + (code c - 48))
      else None
  end.

Definition string2ll (s : string) : option Z :=
  match s with
  | EmptyString => None
  | String c r =>
      if bool_decide (s = "0") then Some 0
      else
        let '(negative, p) := if code c =? 45 then (true, r) else (false, s) in
        match p with
        | EmptyString => None
        | String d q =>
            if (49 <=? code d) && (code d <=? 57) then
              match ll_digits q (code d - 48) with
              | Some v =>
                  if negative then (if LLONG_MAX + 1 <? v then None else Some (- v))
                  else if LLONG_MAX <? v then None else Some v
              | None => None
              end
            else None
        end
  end.

(** [getLongLongFromObject] on the string objects of a command line. *)
Definition getLongLongFromObject (o : string) : option Z := string2ll o.

(** ** Facts *)

Example string2d_plain : string2d "10.5" = Some (S754_finite false 5910974510923776 (-49)).
Proof. vm_compute. reflexivity. Qed.
Example string2d_exp : string2d "-1e3" = Some (double_of_Z (-1000)).
Proof. vm_compute. reflexivity. Qed.
Example string2d_tenth : string2d "0.1" = Some (S754_finite false 7205759403792794 (-56)).
Proof. vm_compute. reflexivity. Qed.
Example string2d_hex : string2d "0x1.8p1" = Some (double_of_Z 3).
Proof. vm_compute. reflexivity. Qed.
Example string2d_overflow : string2d "1e400" = None.
Proof. vm_compute. reflexivity. Qed.
Example string2d_inf : string2d "-inf" = Some (dinf true).
Proof. vm_compute. reflexivity. Qed.
Example string2d_junk : string2d "1.5x" = None.
Proof. vm_compute. reflexivity. Qed.
Example string2ll_bounds :
  string2ll "9223372036854775807" = Some LLONG_MAX /\
  string2ll "-9223372036854775808" = Some LLONG_MIN /\
  string2ll "9223372036854775808" = None /\ string2ll "007" = None.
Proof. vm_compute. done. Qed.

(** ** What an element asks of the sorted set

    The queues keep their elements in a hash table and mirror the visible ones
    in the sorted set the clients read.  An element function returns the
    [zsetAdd] and [zsetDel] calls it makes on its own key, in order; the
    command carries them out.  [zmirror_step] is what one such call does to the
    score the sorted set holds for the key. *)
Inductive zact :=
  | ZAdd (score : double)
  | ZDel.

Definition zmirror_step (m : option double) (a : zact) : option double :=
  match a with
  | ZDel => None
  | ZAdd s =>
      if isnan s then m
      else match m with
           | Some c => if deq s c then m else Some s
           | None => Some s
           end
  end.
Definition zmirror (m : option double) (l : list zact) : option double := foldl zmirror_step m l.

(** The sorted set shows [score] exactly when the element is visible; a score
    that is not a number is never stored. *)
Definition mirrors (m : option double) (visible : bool) (score : double) : Prop :=
  if visible then isnan score = true \/ exists c, m = Some c /\ deq c score = true
  else m = None.

Lemma SFcompare_refl d : isnan d = false -> SFcompare d d = Some Eq.
Proof.
  destruct d as [[]|[]| |[] m e]; try done; intros _; simpl;
    rewrite Z.compare_refl, ?Pos.compare_cont_refl; done.
Qed.

Lemma deq_refl d : isnan d = false -> deq d d = true.
Proof. intros H. unfold deq, SFeqb. by rewrite SFcompare_refl. Qed.

Lemma SFcompare_Eq a b :
  SFcompare a b = Some Eq -> a = b \/ exists s s', a = S754_zero s /\ b = S754_zero s'.
Proof.
  destruct a as [s|s| |s m e], b as [s'|s'| |s' m' e']; simpl;
    try (repeat match goal with b : bool |- _ => destruct b end; done).
  - intros _. right. eauto.
  - destruct s, s'; try done; by left.
  - destruct s, s'; try done; destruct (Z.compare_spec e e') as [->| |]; try done;
      change (Pos.compare_cont Eq m m') with (Pos.compare m m');
      destruct (Pos.compare_spec m m') as [->| |]; simpl; try done; intros _; by left.
Qed.

Lemma deq_sym a b : deq a b = true -> deq b a = true.
Proof.
  unfold deq, SFeqb. destruct (SFcompare a b) as [[]|] eqn:E; try done. intros _.
  destruct (SFcompare_Eq _ _ E) as [->|(s & s' & -> & ->)]; [by rewrite E|done].
Qed.

Lemma mirrors_add m score : mirrors (zmirror m [ZAdd score]) true score.
Proof.
  unfold mirrors, zmirror, zmirror_step. simpl.
  destruct (isnan score) eqn:Hn; [by left|]. right.
  destruct m as [c|]; [|exists score; split; [done|by apply deq_refl]].
  destruct (deq score c) eqn:Hd; [|exists score; split; [done|by apply deq_refl]].
  exists c. split; [done|by apply deq_sym].
Qed.
