(* ===== verification/Exact.v ===== *)
(** * Integer scores in binary64

    Integers below 2^53 are doubles, and the addition and comparison of such
    doubles are those of the integers as long as the results stay below 2^53.
    The queues add scores in the order operations arrive; for integer scores
    the order makes no difference. *)

From S2P Require Import Prelude Sds Double.
From Stdlib Require Import SpecFloat.

Definition shl (k : nat) (c : positive) : positive := Nat.iter k xO c.
Definition dig (c : positive) : Z := Z.pos (digits2_pos c).

Lemma shl_value k c : Z.pos (shl k c) = Z.pos c * 2 ^ Z.of_nat k.
Proof.
  induction k as [|k IH]; [simpl; lia|].
  change (shl (S k) c) with (xO (shl k c)).
  rewrite Pos2Z.inj_xO, IH, Nat2Z.inj_succ, Z.pow_succ_r by lia. lia.
Qed.

Lemma shl_add j k c : shl j (shl k c) = shl (j + k) c.
Proof. induction j as [|j IH]; [done|]. simpl. by rewrite IH. Qed.

Lemma iter_shl p c : Pos.iter xO c p = shl (Pos.to_nat p) c.
Proof. apply Pos2Nat.inj_iter. Qed.

Lemma dig_shl k c : dig (shl k c) = dig c + Z.of_nat k.
Proof.
  induction k as [|k IH]; [simpl; lia|]. change (shl (S k) c) with (xO (shl k c)).
  unfold dig in *. simpl. lia.
Qed.

Lemma dig_double_bounds d x y :
  1 <= d -> 2 ^ (d - 1) <= x < 2 ^ d -> 2 * x <= y <= 2 * x + 1 ->
  2 ^ (Z.succ d - 1) <= y < 2 ^ Z.succ d.
Proof.
  intros Hd Hx Hy. rewrite (Z.pow_succ_r 2 d) by lia.
  replace (Z.succ d - 1) with (Z.succ (d - 1)) by lia. rewrite (Z.pow_succ_r 2 (d - 1)) by lia. lia.
Qed.

Lemma dig_bounds c : 2 ^ (dig c - 1) <= Z.pos c < 2 ^ dig c.
Proof.
  induction c as [c IH|c IH|]; [| |by split; vm_compute].
  - assert (dig c~1 = Z.succ (dig c)) as -> by (unfold dig; simpl; lia).
    apply (dig_double_bounds _ (Z.pos c)); [unfold dig; lia|done|lia].
  - assert (dig c~0 = Z.succ (dig c)) as -> by (unfold dig; simpl; lia).
    apply (dig_double_bounds _ (Z.pos c)); [unfold dig; lia|done|lia].
Qed.

Lemma dig_small c : Z.pos c < 2 ^ 53 -> dig c <= 53.
Proof.
  intros H. pose proof (dig_bounds c) as [Hl _].
  destruct (Z.le_gt_cases (dig c) 53) as [|Hgt]; [done|].
  assert (2 ^ 53 <= 2 ^ (dig c - 1)) by (apply Z.pow_le_mono_r; lia). lia.
Qed.

Lemma iter_pos_nat {A} (f : A -> A) p x : iter_pos f p x = Nat.iter (Pos.to_nat p) f x.
Proof.
  revert x. induction p as [p IH|p IH|]; intros x; cbn [iter_pos]; [| |done].
  - rewrite !IH, Pos2Nat.inj_xI. rewrite <- Nat.iter_add, Nat.iter_succ_r. f_equal. lia.
  - rewrite !IH, Pos2Nat.inj_xO, <- Nat.iter_add. f_equal. lia.
Qed.

Definition exact_rec (c : positive) : shr_record :=
  {| shr_m := Z.pos c; shr_r := false; shr_s := false |}.

Lemma shr_exact k c : Nat.iter k shr_1 (exact_rec (shl k c)) = exact_rec c.
Proof.
  induction k as [|k IH]; [done|]. rewrite Nat.iter_succ_r.
  change (shr_1 (exact_rec (shl (S k) c))) with (exact_rec (shl k c)). done.
Qed.

Lemma fexp_dig c e : dig c <= 53 -> -1000 <= e -> dig c + e <= 53 ->
  fexp prec emax (dig c + e) = dig c + e - 53.
Proof. intros H He Hs. unfold fexp, emin, prec, emax, dig in *. lia. Qed.

(** The representation of a positive integer with at most 53 digits: the
    significand has exactly 53. *)
Definition canon (s : bool) (c : positive) : double :=
  S754_finite s (shl (Z.to_nat (53 - dig c)) c) (dig c - 53).

Lemma shr_fexp_exact j c e :
  dig c <= 53 -> e = - Z.of_nat j -> (Z.to_nat (53 - dig c) <= j)%nat ->
  shr_fexp prec emax (Z.pos (shl j c)) e loc_Exact =
    (exact_rec (shl (Z.to_nat (53 - dig c)) c), dig c - 53).
Proof.
  intros Hd -> Hj. unfold shr_fexp, shr_record_of_loc, Zdigits2.
  fold (dig (shl j c)). rewrite dig_shl. fold (exact_rec (shl j c)).
  assert (fexp prec emax (dig c + Z.of_nat j + - Z.of_nat j) = dig c - 53) as ->.
  { unfold fexp, emin, prec, emax. unfold dig in *. lia. }
  set (k := Z.to_nat (53 - dig c)) in *. unfold shr.
  destruct (dig c - 53 - - Z.of_nat j) as [|p|p] eqn:Hp.
  - assert (j = k) as -> by lia. f_equal. lia.
  - rewrite iter_pos_nat.
    assert (shl j c = shl (Pos.to_nat p) (shl k c)) as ->.
    { rewrite shl_add. f_equal. lia. }
    rewrite shr_exact. f_equal. lia.
  - lia.
Qed.

Lemma binary_round_exact s c j :
  dig c <= 53 -> binary_round prec emax s (shl j c) (- Z.of_nat j) = canon s c.
Proof.
  intros Hd. unfold binary_round. fold (dig (shl j c)). rewrite dig_shl.
  assert (fexp prec emax (dig c + Z.of_nat j + - Z.of_nat j) = dig c - 53) as ->.
  { unfold fexp, emin, prec, emax. unfold dig in *. lia. }
  set (k := Z.to_nat (53 - dig c)).
  assert (exists i, (k <= i)%nat /\
            shl_align (shl j c) (- Z.of_nat j) (dig c - 53) = (shl i c, - Z.of_nat i))
    as (i & Hi & ->).
  { unfold shl_align. destruct (dig c - 53 - - Z.of_nat j) as [|p|p] eqn:Hp.
    - exists j. split; [lia|done].
    - exists j. split; [lia|done].
    - exists k. split; [lia|]. rewrite iter_shl, shl_add. f_equal; [f_equal; lia|lia]. }
  unfold binary_round_aux. rewrite (shr_fexp_exact i) by done. fold k.
  change (round_nearest_even (shr_m (exact_rec (shl k c))) (loc_of_shr_record (exact_rec (shl k c))))
    with (Z.pos (shl k c)).
  rewrite (shr_fexp_exact k c (dig c - 53)) by (done || lia). fold k. cbn [exact_rec shr_m].
  unfold canon. fold k. rewrite (proj2 (Z.leb_le _ _)); [done|]. unfold emax, prec. lia.
Qed.

Lemma double_of_pos c : dig c <= 53 ->
  double_of_Z (Z.pos c) = canon false c /\ double_of_Z (Z.neg c) = canon true c.
Proof.
  intros Hd. unfold double_of_Z, binary_normalize.
  split; apply (binary_round_exact _ c 0); done.
Qed.

(** The sum of two aligned significands. *)
Lemma normalize_exact z j :
  Z.abs z < 2 ^ 53 ->
  binary_normalize prec emax (z * 2 ^ Z.of_nat j) (- Z.of_nat j) false = double_of_Z z.
Proof.
  intros Hz. destruct z as [|c|c].
  - done.
  - rewrite <- shl_value. destruct (double_of_pos c) as [-> _]; [by apply dig_small|].
    by apply binary_round_exact, dig_small.
  - replace (Z.neg c * 2 ^ Z.of_nat j) with (Z.neg (shl j c))
      by (rewrite <- Pos2Z.opp_pos, shl_value; lia).
    destruct (double_of_pos c) as [_ ->]; [by apply dig_small|].
    by apply binary_round_exact, dig_small.
Qed.

Lemma align_canon c e j :
  dig c <= 53 -> e = - Z.of_nat j -> e <= dig c - 53 ->
  fst (shl_align (shl (Z.to_nat (53 - dig c)) c) (dig c - 53) e) = shl j c.
Proof.
  intros Hd -> He. unfold shl_align.
  destruct (- Z.of_nat j - (dig c - 53)) as [|p|p] eqn:Hp; simpl.
  - f_equal. lia.
  - lia.
  - rewrite iter_shl, shl_add. f_equal. lia.
Qed.

Lemma double_of_Z_cases z :
  Z.abs z < 2 ^ 53 ->
  z = 0 \/ exists s c, dig c <= 53 /\ z = cond_Zopp s (Z.pos c) /\ double_of_Z z = canon s c.
Proof.
  intros Hz. destruct z as [|c|c]; [by left|right; exists false, c|right; exists true, c].
  all: assert (dig c <= 53) as Hd by (apply dig_small; lia); by destruct (double_of_pos c Hd).
Qed.

Lemma dadd_canon s1 c1 s2 c2 :
  dig c1 <= 53 -> dig c2 <= 53 ->
  Z.abs (cond_Zopp s1 (Z.pos c1) + cond_Zopp s2 (Z.pos c2)) < 2 ^ 53 ->
  dadd (canon s1 c1) (canon s2 c2) =
    double_of_Z (cond_Zopp s1 (Z.pos c1) + cond_Zopp s2 (Z.pos c2)).
Proof.
  intros H1 H2 H. unfold dadd, canon, SFadd.
  set (j := Z.to_nat (Z.max (53 - dig c1) (53 - dig c2))).
  assert (Z.min (dig c1 - 53) (dig c2 - 53) = - Z.of_nat j) as -> by lia.
  rewrite !(align_canon _ _ j) by lia. rewrite <- (normalize_exact _ j H). f_equal.
  rewrite !shl_value. destruct s1, s2; unfold cond_Zopp; lia.
Qed.

(** Addition of integers is exact below 2^53. *)
Lemma dadd_Z a b :
  Z.abs a < 2 ^ 53 -> Z.abs b < 2 ^ 53 -> Z.abs (a + b) < 2 ^ 53 ->
  dadd (double_of_Z a) (double_of_Z b) = double_of_Z (a + b).
Proof.
  intros Ha Hb Hab.
  destruct (double_of_Z_cases a Ha) as [->|(s1 & c1 & H1 & Ea & Da)],
    (double_of_Z_cases b Hb) as [->|(s2 & c2 & H2 & Eb & Db)].
  - done.
  - rewrite Z.add_0_l, Db. done.
  - rewrite Z.add_0_r, Da. done.
  - rewrite Da, Db, Ea, Eb. apply dadd_canon; [done..|]. by rewrite <- Ea, <- Eb.
Qed.

(** Comparison of integers. *)
Lemma canon_compare c1 c2 : dig c1 <= 53 -> dig c2 <= 53 ->
  SFcompare (canon false c1) (canon false c2) = Some (Z.pos c1 ?= Z.pos c2) /\
  SFcompare (canon true c1) (canon true c2) = Some (Z.neg c1 ?= Z.neg c2).
Proof.
  intros H1 H2.
  assert (match dig c1 - 53 ?= dig c2 - 53 with
          | Eq => Pos.compare (shl (Z.to_nat (53 - dig c1)) c1) (shl (Z.to_nat (53 - dig c2)) c2)
          | Lt => Lt | Gt => Gt end = (Z.pos c1 ?= Z.pos c2)) as Hc.
  { pose proof (dig_bounds c1). pose proof (dig_bounds c2).
    destruct (Z.compare_spec (dig c1 - 53) (dig c2 - 53)) as [Heq|Hlt|Hgt].
    - replace (dig c2) with (dig c1) by lia. set (k := Z.to_nat (53 - dig c1)).
      change (Pos.compare (shl k c1) (shl k c2)) with (Z.pos (shl k c1) ?= Z.pos (shl k c2)).
      rewrite !shl_value. symmetry. apply Zmult_compare_compat_r. lia.
    - symmetry. apply Z.compare_lt_iff.
      assert (2 ^ dig c1 <= 2 ^ (dig c2 - 1)) by (apply Z.pow_le_mono_r; lia). lia.
    - symmetry. apply Z.compare_gt_iff.
      assert (2 ^ dig c2 <= 2 ^ (dig c1 - 1)) by (apply Z.pow_le_mono_r; lia). lia. }
  simpl. change (Pos.compare_cont Eq) with Pos.compare. split; f_equal; [done|].
  simpl in Hc. rewrite <- Hc. by destruct (_ ?= _)%Z.
Qed.

Lemma SFcompare_Z a b :
  Z.abs a < 2 ^ 53 -> Z.abs b < 2 ^ 53 ->
  SFcompare (double_of_Z a) (double_of_Z b) = Some (a ?= b).
Proof.
  intros Ha Hb.
  destruct (double_of_Z_cases a Ha) as [->|(s1 & c1 & H1 & Ea & Da)],
    (double_of_Z_cases b Hb) as [->|(s2 & c2 & H2 & Eb & Db)].
  - done.
  - rewrite Db, Eb. by destruct s2.
  - rewrite Da, Ea. by destruct s1.
  - rewrite Da, Db, Ea, Eb. destruct (canon_compare c1 c2 H1 H2). by destruct s1, s2.
Qed.

Lemma dlt_Z a b : Z.abs a < 2 ^ 53 -> Z.abs b < 2 ^ 53 ->
  dlt (double_of_Z a) (double_of_Z b) = (a <? b).
Proof. intros Ha Hb. unfold dlt, SFltb. rewrite SFcompare_Z by done. unfold Z.ltb. by destruct (a ?= b). Qed.

Lemma deq_Z a b : Z.abs a < 2 ^ 53 -> Z.abs b < 2 ^ 53 ->
  deq (double_of_Z a) (double_of_Z b) = (a =? b).
Proof.
  intros Ha Hb. unfold deq, SFeqb. rewrite SFcompare_Z by done. rewrite Z.eqb_compare.
  by destruct (a ?= b).
Qed.

(** Sums of integers do not depend on the order. *)
Definition zsum (l : list Z) : Z := foldr Z.add 0 l.

Lemma zsum_cons z l : zsum (z :: l) = z + zsum l.
Proof. done. Qed.

Lemma zsum_perm l1 l2 : l1 ≡ₚ l2 -> zsum l1 = zsum l2.
Proof. unfold zsum. induction 1 as [|x l l' Hp IH|x y l|l l' l'' H1 IH1 H2 IH2]; simpl; congruence || lia. Qed.

Lemma zsum_abs l : Z.abs (zsum l) <= zsum (Z.abs <$> l).
Proof.
  induction l as [|z l IH]; [done|]. rewrite fmap_cons.
  change (Z.abs (z + zsum l) <= Z.abs z + zsum (Z.abs <$> l)). lia.
Qed.

Lemma zsum_abs_nonneg l : 0 <= zsum (Z.abs <$> l).
Proof. pose proof (zsum_abs l). lia. Qed.

Lemma dsum_Z a l :
  Z.abs a + zsum (Z.abs <$> l) < 2 ^ 53 ->
  foldl dadd (double_of_Z a) (double_of_Z <$> l) = double_of_Z (a + zsum l).
Proof.
  revert a. induction l as [|z l IH]; intros a H; [simpl; by rewrite Z.add_0_r|].
  rewrite fmap_cons, zsum_cons in H. rewrite fmap_cons, zsum_cons. cbn [foldl].
  pose proof (zsum_abs_nonneg l). rewrite dadd_Z by lia. rewrite IH by lia. by rewrite Z.add_assoc.
Qed.

(** Doubles that stand for integers whose magnitudes add up to less than 2^53. *)
Definition small_ints (l : list double) : Prop :=
  exists zs, l = double_of_Z <$> zs /\ zsum (Z.abs <$> zs) < 2 ^ 53.

Lemma small_ints_sum_perm v l1 l2 :
  small_ints (v :: l1) -> l1 ≡ₚ l2 ->
  dadd v (foldl dadd dzero l1) = dadd v (foldl dadd dzero l2).
Proof.
  intros ([|z zs] & Heq & Hb) Hp; [done|]. injection Heq as -> ->.
  destruct (Permutation_map_inv double_of_Z zs (l1 := l2)) as (zs2 & -> & Hp2); [by symmetry|].
  change (map double_of_Z zs2) with (double_of_Z <$> zs2).
  rewrite fmap_cons, zsum_cons in Hb. change dzero with (double_of_Z 0).
  pose proof (zsum_perm _ _ Hp2) as Hsum.
  assert (zsum (Z.abs <$> zs) = zsum (Z.abs <$> zs2)) as Habs by (apply zsum_perm; by rewrite Hp2).
  rewrite !dsum_Z by lia. by rewrite Hsum.
Qed.

Lemma small_ints_sub v l1 l2 : small_ints (v :: l2) -> l1 `sublist_of` l2 -> small_ints (v :: l1).
Proof.
  intros ([|z zs] & Heq & Hb) Hs; [done|]. injection Heq as -> ->.
  assert (exists zs1, l1 = double_of_Z <$> zs1 /\ zsum (Z.abs <$> zs1) <= zsum (Z.abs <$> zs))
    as (zs1 & -> & Hle).
  { clear Hb. revert l1 Hs. induction zs as [|y zs IH]; intros l1 Hs; simpl in Hs.
    - apply sublist_nil_r in Hs as ->. by exists [].
    - inversion Hs as [|? ? k Hk|? ? k Hk]; subst.
      + destruct (IH _ Hk) as (zs1 & -> & Hle). exists (y :: zs1). split; [done|].
        rewrite !fmap_cons, !zsum_cons. lia.
      + destruct (IH _ Hk) as (zs1 & -> & Hle). exists zs1. split; [done|].
        rewrite fmap_cons, zsum_cons. lia. }
  exists (z :: zs1). split; [done|]. rewrite fmap_cons, zsum_cons in Hb. rewrite fmap_cons, zsum_cons. lia.
Qed.

Lemma small_ints_perm v l1 l2 : small_ints (v :: l1) -> l1 ≡ₚ l2 -> small_ints (v :: l2).
Proof.
  intros ([|z zs] & Heq & Hb) Hp; [done|]. injection Heq as -> ->.
  destruct (Permutation_map_inv double_of_Z zs (l1 := l2)) as (zs2 & -> & Hp2); [by symmetry|].
  exists (z :: zs2). split; [done|]. rewrite fmap_cons, zsum_cons in Hb. rewrite fmap_cons, zsum_cons.
  assert (zsum (Z.abs <$> zs) = zsum (Z.abs <$> zs2)) as Habs by (apply zsum_perm; by rewrite Hp2).
  lia.
Qed.

(** Reading an integer back from a double, and the sums of integer doubles. *)
Definition to_Z (d : double) : Z :=
  match d with
  | S754_finite s m e => cond_Zopp s (Z.shiftr (Z.pos m) (- e))
  | _ => 0
  end.
Definition is_int (d : double) : Prop := d = double_of_Z (to_Z d).
Definition isum (l : list double) : Z := zsum (to_Z <$> l).
Definition iabs (l : list double) : Z := zsum ((fun d => Z.abs (to_Z d)) <$> l).

Arguments isum : simpl never.
Arguments iabs : simpl never.
Arguments to_Z : simpl never.

Lemma to_Z_double z : Z.abs z < 2 ^ 53 -> to_Z (double_of_Z z) = z.
Proof.
  intros Hz. destruct (double_of_Z_cases z Hz) as [->|(s & c & Hd & Ez & ->)]; [done|].
  unfold canon, to_Z. rewrite shl_value, Z.shiftr_div_pow2 by lia.
  replace (- (dig c - 53)) with (Z.of_nat (Z.to_nat (53 - dig c))) by lia.
  by rewrite Z.div_mul by lia.
Qed.

Lemma iabs_cons d l : iabs (d :: l) = Z.abs (to_Z d) + iabs l.
Proof. done. Qed.
Lemma isum_cons d l : isum (d :: l) = to_Z d + isum l.
Proof. done. Qed.
Lemma isum_snoc l d : isum (l ++ [d]) = isum l + to_Z d.
Proof.
  induction l as [|x l IH]; [unfold isum; simpl; unfold zsum; simpl; lia|].
  simpl. rewrite !isum_cons, IH. lia.
Qed.
Lemma iabs_snoc l d : iabs (l ++ [d]) = iabs l + Z.abs (to_Z d).
Proof.
  induction l as [|x l IH]; [unfold iabs; simpl; unfold zsum; simpl; lia|].
  simpl. rewrite !iabs_cons, IH. lia.
Qed.
Lemma iabs_nonneg l : 0 <= iabs l.
Proof. induction l as [|d l IH]; [done|]. rewrite iabs_cons. lia. Qed.

Lemma iabs_app l1 l2 : iabs (l1 ++ l2) = iabs l1 + iabs l2.
Proof. induction l1 as [|d l1 IH]; [done|]. cbn [app]. rewrite !iabs_cons, IH. lia. Qed.

Lemma isum_iabs l : Z.abs (isum l) <= iabs l.
Proof.
  induction l as [|d l IH]; [done|]. rewrite isum_cons, iabs_cons. lia.
Qed.
Lemma isum_perm l1 l2 : l1 ≡ₚ l2 -> isum l1 = isum l2.
Proof. intros Hp. apply zsum_perm. by rewrite Hp. Qed.
Lemma iabs_perm l1 l2 : l1 ≡ₚ l2 -> iabs l1 = iabs l2.
Proof. intros Hp. apply zsum_perm. by rewrite Hp. Qed.

Lemma dadd_int z d :
  is_int d -> Z.abs z + Z.abs (to_Z d) < 2 ^ 53 ->
  dadd (double_of_Z z) d = double_of_Z (z + to_Z d).
Proof. unfold is_int. intros Hd Hb. rewrite Hd at 1. apply dadd_Z; lia. Qed.

(** Adding a magnitude; the magnitude of a zero is a negative zero, which adds
    nothing. *)
Lemma dadd_abs z d :
  is_int d -> 0 <= z -> z + Z.abs (to_Z d) < 2 ^ 53 ->
  dadd (double_of_Z z) (if dlt dzero d then d else dopp d) = double_of_Z (z + Z.abs (to_Z d)).
Proof.
  unfold is_int. intros Hd Hz Hb. set (x := to_Z d) in *.
  assert (dlt dzero d = (0 <? x)) as ->.
  { rewrite Hd. change dzero with (double_of_Z 0). apply dlt_Z; fold x; lia. }
  destruct (Z.ltb_spec 0 x).
  - rewrite Hd. fold x. rewrite dadd_Z by lia. f_equal. lia.
  - destruct (decide (x = 0)) as [H0|H0].
    + rewrite Hd. fold x. rewrite H0. simpl dopp.
      destruct (double_of_Z_cases z) as [->|(s & c & _ & Ez & Dz)]; [lia|done|].
      rewrite Z.add_0_r, Dz. done.
    + assert (dopp d = double_of_Z (- x)) as ->.
      { rewrite Hd. fold x. destruct (double_of_Z_cases x) as [?|(s & c & Hc & Ex & Dx)]; [lia|lia|].
        rewrite Dx. destruct s; [|simpl in Ex; lia]. destruct (double_of_pos c Hc) as [Hp _].
        assert (- x = Z.pos c) as -> by (rewrite Ex; done). by rewrite Hp. }
      rewrite dadd_Z by lia. f_equal. lia.
Qed.

(** ** Bounded sums *)

Lemma iabs_submseteq l1 l2 : l1 ⊆+ l2 -> iabs l1 <= iabs l2.
Proof.
  intros [k Hk]%submseteq_Permutation. rewrite (iabs_perm _ _ Hk). clear Hk. induction l1 as [|d l1 IH].
  - simpl. unfold iabs. replace (zsum _) with 0 by done. pose proof (isum_iabs k). unfold iabs in *. lia.
  - simpl. rewrite !iabs_cons. lia.
Qed.

Lemma is_int_submseteq l1 l2 : l1 ⊆+ l2 -> Forall is_int l2 -> Forall is_int l1.
Proof. intros [k Hk]%submseteq_Permutation H. rewrite Hk in H. by apply Forall_app in H as [? _]. Qed.

Lemma zsum_in zs i z : zs !! i = Some z -> forall B, zsum (Z.abs <$> zs) < B -> Z.abs z < B.
Proof.
  revert i. induction zs as [|y zs IH]; intros [|i] Hi B; try done; rewrite fmap_cons, zsum_cons.
  - injection Hi as ->. pose proof (zsum_abs_nonneg zs). lia.
  - intros Hb. apply (IH i Hi). lia.
Qed.

(** Integers whose magnitudes add up to less than [B]. *)
Definition ints_below (B : Z) (l : list double) : Prop := Forall is_int l /\ iabs l < B.

Lemma ints_below_sub B l1 l2 : l1 ⊆+ l2 -> ints_below B l2 -> ints_below B l1.
Proof. intros Hs [Hi Hb]. split; [by eapply is_int_submseteq|]. pose proof (iabs_submseteq _ _ Hs). lia. Qed.

Lemma ints_below_small l : ints_below (2 ^ 53) l -> small_ints l.
Proof.
  intros [Hi Hb]. exists (to_Z <$> l). split.
  - induction Hi as [|d l Hd Hi IH]; [done|]. rewrite !fmap_cons. rewrite iabs_cons in Hb. f_equal; [done|]. apply IH. lia.
  - rewrite <- list_fmap_compose. exact Hb.
Qed.

Lemma sum_int_eq B v l :
  ints_below B (v :: l) -> B <= 2 ^ 53 ->
  dadd v (foldl dadd dzero l) = double_of_Z (to_Z v + isum l) /\ Z.abs (to_Z v + isum l) < B.
Proof.
  intros [Hi Hb] HB. apply Forall_cons in Hi as [Hv Hl]. rewrite iabs_cons in Hb. unfold is_int in Hv.
  assert (l = double_of_Z <$> (to_Z <$> l)) as Heq.
  { clear -Hl. induction Hl as [|d l Hd Hl IH]; [done|]. rewrite !fmap_cons. by f_equal. }
  pose proof (isum_iabs l). rewrite Heq at 1. change dzero with (double_of_Z 0). rewrite dsum_Z.
  - rewrite Hv at 1. split; [|lia]. rewrite Z.add_0_l. fold (isum l). by rewrite dadd_Z by lia.
  - rewrite <- list_fmap_compose. change (zsum (_ <$> l)) with (iabs l). rewrite Z.abs_0. lia.
Qed.

Lemma sum_int B v l :
  ints_below B (v :: l) -> B <= 2 ^ 53 ->
  exists z, dadd v (foldl dadd dzero l) = double_of_Z z /\ Z.abs z < B.
Proof. intros Hi HB. exists (to_Z v + isum l). by apply sum_int_eq. Qed.
