(* ===== verification/RWFramework.v ===== *)
(** * The remove-win framework: RWFramework.h

    Every element of an RWF container carries a header: the vector clock
    [current] of the removes that reached it (its remove history) and [pid], the
    id of the replica whose add initialised it in that history.  Operations are
    stamped with the remove history they were issued in; an operation with an
    older history has been removed and is ignored, one with a newer history
    first performs the removes it implies. *)

From S2P Require Import Prelude Sds VectorClock Causal.

Record reh := mkReh { pid : Z; current : vc }.

#[export] Instance reh_eq_dec : EqDecision reh.
Proof. solve_decision. Defined.

Definition PID_NEXIST : Z := -1.
Definition PID_WAIT_INNATE : Z := -2.

(** [REH_INIT] on a server with [p2p_count] replicas and id [p2p_id]. *)
Definition REH_INIT (p2p_count p2p_id : Z) : res reh :=
  c ← _vc_new p2p_count p2p_id; Ok (mkReh PID_NEXIST c).

Definition REH_RMV_FUNC (h : reh) (t : vc) : reh :=
  mkReh PID_NEXIST (vc_update (current h) t).

Definition EXISTS (h : reh) : bool := negb (pid h =? PID_NEXIST).

(** ** The three checks *)

Definition addCheck (h : reh) (t : vc) : reh * bool :=
  if negb (vc_equal t (current h)) then (h, false)
  else if pid h <? vid t then (mkReh (vid t) (current h), true)
  else (h, false).

Definition updateCheck (h : reh) (t : vc) : reh * bool :=
  if negb (vc_equal t (current h)) then (h, false)
  else if negb (EXISTS h) then (mkReh PID_WAIT_INNATE (current h), true)
  else (h, true).

(** The loop of [removeCheck]: the index runs to the size of [t], the element's
    own array is read at the same index. *)
Fixpoint rmv_scan (cur t : list Z) : res bool :=
  match t with
  | [] => Ok false
  | y :: t' =>
      match cur with
      | [] => Crash OutOfBounds
      | x :: cur' => if x <? y then Ok true else rmv_scan cur' t'
      end
  end.

Definition removeCheck (h : reh) (t : vc) : res (reh * bool) :=
  b ← rmv_scan (vector (current h)) (vector t);
  Ok (if (b : bool) then (REH_RMV_FUNC h t, true) else (h, false)).

(** ** Facts about the checks *)

Lemma rmv_scan_spec cur t :
  length cur = length t -> rmv_scan cur t = Ok (negb (bool_decide (vle t cur))).
Proof.
  revert t; induction cur as [|x cur IH]; intros [|y t] Hlen; try done; simpl.
  rewrite (bool_decide_ext _ _ (vle_cons y x t cur)).
  destruct (Z.ltb_spec x y).
  - rewrite bool_decide_false by lia. done.
  - rewrite IH by naive_solver. do 2 f_equal. apply bool_decide_ext. naive_solver.
Qed.

Lemma removeCheck_spec h t :
  length (vector (current h)) = length (vector t) ->
  removeCheck h t =
    Ok (if decide (vle (vector t) (vector (current h))) then (h, false)
        else (mkReh PID_NEXIST (mkVc (vec_update (vector (current h)) (vector t))
                                     (vid (current h))), true)).
Proof.
  intros Hlen. unfold removeCheck. rewrite rmv_scan_spec by done. simpl.
  destruct (decide _).
  - by rewrite bool_decide_true.
  - rewrite bool_decide_false by done. simpl. unfold REH_RMV_FUNC.
    by rewrite vc_update_vector.
Qed.

(** ** The epoch structure of an RWF element

    [cur] is the vector of the element's remove history and [P] the rest of the
    element (the [pid] and the data).  An operation carries the history it was
    issued in; [rwf_step] is what [removeCheck] followed by the operation's own
    check does, [reset] being the state a remove leaves and [apply] the effect
    of an add or an update whose history is the current one. *)

Section Epochs.
Context {op P : Type}.
Context (stamp : op -> list Z) (is_rmv : op -> bool).
Context (reset : P -> P) (apply : P -> op -> P).

Definition rwf_step (s : list Z * P) (o : op) : list Z * P :=
  let '(cur, p) := s in
  let '(cur, p) :=
    if decide (vle (stamp o) cur) then (cur, p)
    else (vec_update cur (stamp o), reset p) in
  if is_rmv o then (cur, p)
  else if decide (stamp o = cur) then (cur, apply p o)
  else (cur, p).

Definition rwf_run (s : list Z * P) (l : list op) : list Z * P := foldl rwf_step s l.

(** The operations that are not removed: the adds and updates issued in the
    final remove history. *)
Definition in_epoch (cur : list Z) (o : op) : Prop := is_rmv o = false /\ stamp o = cur.
#[local] Instance in_epoch_dec cur o : Decision (in_epoch cur o).
Proof. unfold in_epoch. apply _. Defined.
Definition survivors (cur : list Z) (l : list op) : list op := filter (in_epoch cur) l.

(** Helper: a new history empties the epoch. *)
Lemma survivors_newer n cur l o :
  length cur = n -> sized stamp n (l ++ [o]) ->
  ~ vle (stamp o) (history stamp cur l) ->
  survivors (history stamp cur (l ++ [o])) l = [].
Proof.
  intros Hc Hl Hn. apply filter_none.
  intros o' Ho' [_ Heq]. apply Hn.
  assert (sized stamp n l) as Hsl by (unfold sized in *; by apply Forall_app in Hl as [? _]).
  assert (length (stamp o) = n) as Hso
    by (unfold sized in *; apply Forall_app in Hl as [_ H]; by inversion H).
  assert (vle (stamp o) (history stamp cur (l ++ [o]))) as Hge.
  { eapply (history_ge _ n); [done..|]. set_solver. }
  rewrite <- Heq in Hge. etrans; [exact Hge|]. by eapply (history_ge _ n).
Qed.

(** The state after any sequence of operations: the history is the join of all
    the stamps, and the data is what the surviving operations built on the
    reset state, in their order of arrival. *)
Lemma rwf_run_spec n cur p l :
  length cur = n -> sized stamp n l -> (forall q, reset q = reset p) -> reset p = p ->
  rwf_run (cur, p) l =
    (history stamp cur l, foldl apply p (survivors (history stamp cur l) l)).
Proof.
  intros Hc Hl Hreset Hp. induction l as [|o l IH] using rev_ind; [done|].
  assert (sized stamp n l) as Hsl by (unfold sized in *; by apply Forall_app in Hl as [? _]).
  assert (length (stamp o) = n) as Hso
    by (unfold sized in *; apply Forall_app in Hl as [_ H]; by inversion H).
  unfold rwf_run. rewrite foldl_app. simpl. fold (rwf_run (cur, p) l).
  rewrite IH by done. clear IH. unfold rwf_step.
  assert (length (history stamp cur l) = n) as Hhl by by apply history_length.
  destruct (decide (vle (stamp o) (history stamp cur l))) as [Hle|Hnle].
  - assert (history stamp cur (l ++ [o]) = history stamp cur l) as Hh.
    { rewrite history_snoc. by apply vec_update_absorb. }
    rewrite Hh. unfold survivors. rewrite filter_app, foldl_app. simpl.
    destruct (is_rmv o) eqn:Hr.
    + rewrite filter_cons_False by (intros [??]; congruence). done.
    + destruct (decide (stamp o = history stamp cur l)).
      * by rewrite filter_cons_True.
      * by rewrite filter_cons_False by (intros [??]; congruence).
  - rewrite history_snoc.
    pose proof (survivors_newer n cur l o Hc Hl Hnle) as Hnil. rewrite history_snoc in Hnil.
    unfold survivors in *. rewrite filter_app, Hnil. simpl.
    rewrite (Hreset (foldl _ _ _)), Hp. destruct (is_rmv o) eqn:Hr.
    + rewrite filter_cons_False by (intros [??]; congruence). done.
    + destruct (decide (stamp o = vec_update (history stamp cur l) (stamp o))).
      * by rewrite filter_cons_True.
      * by rewrite filter_cons_False by (intros [??]; congruence).
Qed.
End Epochs.

#[export] Existing Instance in_epoch_dec.
