(* ===== verification/RwfZset.v ===== *)
(** * RWF-RPQ: the elements of the remove-win-framework priority queue
    (t_rwfzset.c)

    The element record, the effect of the three commands on it, and the
    convergence of elements that received the same operations. *)

From S2P Require Import Prelude Sds VectorClock Causal Double Exact RWFramework.

Record rwfze := mkRwfze { header : reh; innate : double; acquired : double }.

#[export] Instance rwfze_eq_dec : EqDecision rwfze.
Proof. solve_decision. Defined.

Definition rwfzeNew (p2p_count p2p_id : Z) : res rwfze :=
  h ← REH_INIT p2p_count p2p_id; Ok (mkRwfze h dzero dzero).

Definition SCORE (e : rwfze) : double := dadd (innate e) (acquired e).

(** ** The effect of the commands on the element *)

(** The part of [removeFunc] that works on the element; the boolean says that
    the remove took effect. *)
Definition remove_elem (e : rwfze) (t : vc) : res (rwfze * bool) :=
  '(h, b) ← removeCheck (header e) t;
  Ok (if (b : bool) then (mkRwfze h dzero dzero, true)
      else (mkRwfze h (innate e) (acquired e), false)).

(** Effect of [rwfzaddCommand] after the arguments are parsed: the boolean says
    that the add took effect and the sorted set has to follow. *)
Definition add_elem (e : rwfze) (v : double) (t : vc) : rwfze * bool :=
  let '(h, b) := addCheck (header e) t in
  if b then (mkRwfze h v (acquired e), true) else (mkRwfze h (innate e) (acquired e), false).

Definition incr_elem (e : rwfze) (v : double) (t : vc) : rwfze * bool :=
  let '(h, b) := updateCheck (header e) t in
  if b then (mkRwfze h (innate e) (dadd (acquired e) v), true)
  else (mkRwfze h (innate e) (acquired e), false).

(** The operations as they travel between replicas, parsed. *)
Inductive rwfz_op :=
  | RwfzAdd (v : double) (t : vc)
  | RwfzIncr (v : double) (t : vc)
  | RwfzRem (t : vc).

#[export] Instance rwfz_op_eq_dec : EqDecision rwfz_op.
Proof. solve_decision. Defined.

Definition op_vc (o : rwfz_op) : vc :=
  match o with RwfzAdd _ t => t | RwfzIncr _ t => t | RwfzRem t => t end.
Definition op_stamp (o : rwfz_op) : list Z := vector (op_vc o).
Definition op_is_rmv (o : rwfz_op) : bool := match o with RwfzRem _ => true | _ => false end.

(** The effect phases of the three commands, on the element. *)
Definition rwfz_effect (e : rwfze) (o : rwfz_op) : res rwfze :=
  '(e, _) ← remove_elem e (op_vc o);
  match o with
  | RwfzAdd v t => Ok (fst (add_elem e v t))
  | RwfzIncr v t => Ok (fst (incr_elem e v t))
  | RwfzRem t => Ok e
  end.

(** ** The element as an epoch structure *)

Definition data : Type := Z * double * double.
Definition fresh_data : data := (PID_NEXIST, dzero, dzero).

Definition data_apply (d : data) (o : rwfz_op) : data :=
  let '(p, inn, acq) := d in
  match o with
  | RwfzAdd v t => if p <? vid t then (vid t, v, acq) else (p, inn, acq)
  | RwfzIncr v t => (if p =? PID_NEXIST then PID_WAIT_INNATE else p, inn, dadd acq v)
  | RwfzRem t => d
  end.

Definition mk_elem (id : Z) (s : list Z * data) : rwfze :=
  let '(cur, (p, inn, acq)) := s in mkRwfze (mkReh p (mkVc cur id)) inn acq.

Lemma rwfz_effect_step id cur d o :
  length cur = length (op_stamp o) ->
  rwfz_effect (mk_elem id (cur, d)) o =
    Ok (mk_elem id (rwf_step op_stamp op_is_rmv (fun _ => fresh_data) data_apply (cur, d) o)).
Proof.
  destruct d as [[p inn] acq]. intros Hlen. unfold rwfz_effect, remove_elem.
  assert (op_stamp o = vector (op_vc o)) as Hst by done. rewrite Hst in Hlen.
  rewrite removeCheck_spec by done. unfold rwf_step. rewrite Hst. simpl.
  destruct (decide (vle (vector (op_vc o)) cur)) as [Hle|Hn]; simpl;
    (destruct o as [v t|v t|t]; simpl in *;
     [unfold add_elem, addCheck|unfold incr_elem, updateCheck, EXISTS|done];
     rewrite vc_equal_spec; simpl;
     (destruct (decide (vector t = _)) as [Heq|Hneq];
      [rewrite bool_decide_true by done|rewrite bool_decide_false by done]; simpl;
      try destruct (_ <? _); try destruct (_ =? _); done)).
Qed.

Lemma rwfz_effects_run n id s l :
  length s.1 = n -> sized op_stamp n l ->
  foldM rwfz_effect (mk_elem id s) l =
    Ok (mk_elem id (rwf_run op_stamp op_is_rmv (fun _ => fresh_data) data_apply s l)).
Proof.
  revert s; induction l as [|o l IH]; intros [cur d] Hc Hl; [done|].
  apply Forall_cons in Hl as [Ho Hl]. cbn [foldM rwf_run foldl].
  rewrite rwfz_effect_step by (simpl in Hc; congruence). simpl. apply IH; [|done].
  unfold rwf_step. simpl in Hc.
  repeat case_match; simplify_eq/=; rewrite ?vec_update_length; done.
Qed.

(** ** What the surviving operations build *)

(** The add that wins: the one of the replica with the largest id. *)
Definition winner_step (w : option (Z * double)) (o : rwfz_op) : option (Z * double) :=
  match o with
  | RwfzAdd v t =>
      match w with
      | Some (i, _) => if i <? vid t then Some (vid t, v) else w
      | None => Some (vid t, v)
      end
  | _ => w
  end.
Definition winner (l : list rwfz_op) : option (Z * double) := foldl winner_step None l.

Definition incr_value (o : rwfz_op) : option double :=
  match o with RwfzIncr v _ => Some v | _ => None end.
Definition increments (l : list rwfz_op) : list double := omap incr_value l.

Definition data_spec (l : list rwfz_op) : data :=
  match winner l with
  | Some (i, v) => (i, v, foldl dadd dzero (increments l))
  | None => (if decide (increments l = []) then PID_NEXIST else PID_WAIT_INNATE,
             dzero, foldl dadd dzero (increments l))
  end.

(** Replica ids are not negative. *)
Definition ids_ok (l : list rwfz_op) : Prop := Forall (fun o => 0 <= vid (op_vc o)) l.

Lemma winner_snoc l o : winner (l ++ [o]) = winner_step (winner l) o.
Proof. unfold winner. by rewrite foldl_app. Qed.

Lemma winner_id_nonneg l i v : ids_ok l -> winner l = Some (i, v) -> 0 <= i.
Proof.
  revert i v; induction l as [|o l IH] using rev_ind; intros i v Hl Hw; [done|].
  rewrite winner_snoc in Hw. apply Forall_app in Hl as [Hl Ho].
  apply Forall_cons in Ho as [Ho _]. unfold winner_step in Hw.
  destruct o as [w t|w t|t]; [|by eapply IH..].
  destruct (winner l) as [[j u]|]; [destruct (j <? vid t)|]; simplify_eq/=; try done.
  by apply (IH _ _ Hl eq_refl).
Qed.

Lemma data_apply_spec l :
  ids_ok l -> Forall (fun o => op_is_rmv o = false) l ->
  foldl data_apply fresh_data l = data_spec l.
Proof.
  induction l as [|o l IH] using rev_ind; intros Hl Hr; [done|].
  apply Forall_app in Hl as [Hl Ho], Hr as [Hr Hro].
  apply Forall_cons in Ho as [Ho _], Hro as [Hro _].
  rewrite foldl_app. simpl. rewrite IH by done. clear IH.
  unfold data_spec, increments. rewrite winner_snoc, omap_app, foldl_app.
  pose proof (winner_id_nonneg l) as Hnn.
  destruct o as [v t|v t|t]; simpl in *; [| |done].
  - rewrite app_nil_r. destruct (winner l) as [[i w]|]; simpl.
    + by destruct (_ <? _).
    + unfold PID_NEXIST, PID_WAIT_INNATE. case_decide; zbool; done || lia.
  - destruct (winner l) as [[i w]|]; simpl.
    + specialize (Hnn i w Hl eq_refl). unfold PID_NEXIST. by zbool; [lia|].
    + rewrite (decide_False (P := _ ++ _ = [])) by (by intros [_ ?]%app_nil).
      case_decide; done.
Qed.

(** ** Convergence *)

(** Within one remove history a replica adds the element at most once (a second
    add is refused because the element exists), so two adds of one replica with
    one history carry the same value. *)
Definition adds_agree (l : list rwfz_op) : Prop :=
  forall v t v' t', RwfzAdd v t ∈ l -> RwfzAdd v' t' ∈ l ->
    vector t = vector t' -> vid t = vid t' -> v = v'.

Lemma winner_None l : winner l = None <-> forall v t, RwfzAdd v t ∉ l.
Proof.
  induction l as [|o l IH] using rev_ind; [set_solver|].
  rewrite winner_snoc. unfold winner_step. split.
  - intros Hw v t Hin. destruct o as [w u|w u|u].
    + repeat case_match; done.
    + rewrite IH in Hw. set_solver.
    + rewrite IH in Hw. set_solver.
  - intros H. destruct o as [w u|w u|u].
    + exfalso. apply (H w u). set_solver.
    + apply IH. set_solver.
    + apply IH. set_solver.
Qed.

Lemma winner_Some l i v :
  winner l = Some (i, v) ->
  (exists t, RwfzAdd v t ∈ l /\ vid t = i) /\
  (forall w t, RwfzAdd w t ∈ l -> vid t <= i).
Proof.
  revert i v; induction l as [|o l IH] using rev_ind; intros i v Hw; [done|].
  rewrite winner_snoc in Hw. unfold winner_step in Hw.
  destruct o as [w u|w u|u].
  - destruct (winner l) as [[j x]|] eqn:Hl.
    + specialize (IH j x eq_refl) as [(t & Ht & Hid) Hmax].
      destruct (Z.ltb_spec j (vid u)); simplify_eq.
      * split; [set_solver|]. intros y t' [Hin|Hin]%elem_of_app.
        { specialize (Hmax _ _ Hin). lia. }
        { apply list_elem_of_singleton in Hin. simplify_eq. lia. }
      * split; [set_solver|]. intros y t' [Hin|Hin]%elem_of_app; [eauto|].
        apply list_elem_of_singleton in Hin. simplify_eq. lia.
    + simplify_eq. rewrite winner_None in Hl. split; [set_solver|].
      intros y t' [Hin|Hin]%elem_of_app; [by apply Hl in Hin|].
      apply list_elem_of_singleton in Hin. simplify_eq. lia.
  - specialize (IH i v Hw). set_solver.
  - specialize (IH i v Hw). set_solver.
Qed.

Lemma winner_perm l1 l2 :
  (forall v t v' t', RwfzAdd v t ∈ l1 -> RwfzAdd v' t' ∈ l1 -> vid t = vid t' -> v = v') ->
  l1 ≡ₚ l2 -> winner l1 = winner l2.
Proof.
  intros Hag Hp.
  destruct (winner l1) as [[i v]|] eqn:H1, (winner l2) as [[j w]|] eqn:H2.
  - apply winner_Some in H1 as [(t & Ht & Hi) Hmax1], H2 as [(u & Hu & Hj) Hmax2].
    rewrite <- Hp in Hu. pose proof Ht as Ht2. rewrite Hp in Ht2.
    specialize (Hmax1 _ _ Hu). specialize (Hmax2 _ _ Ht2).
    assert (i = j) as -> by lia. do 2 f_equal. apply (Hag v t w u); [done..|lia].
  - apply winner_Some in H1 as [(t & Ht & Hi) _]. rewrite winner_None in H2.
    rewrite Hp in Ht. by apply H2 in Ht.
  - apply winner_Some in H2 as [(u & Hu & Hj) _]. rewrite winner_None in H1.
    rewrite <- Hp in Hu. by apply H1 in Hu.
  - done.
Qed.

Lemma survivors_stamp cur (l : list rwfz_op) o :
  o ∈ survivors op_stamp op_is_rmv cur l ->
  o ∈ l /\ op_is_rmv o = false /\ vector (op_vc o) = cur.
Proof. unfold survivors. rewrite list_elem_of_filter. unfold in_epoch, op_stamp. tauto. Qed.

(** The start of an element: [rwfzeNew] on a server of [n] replicas. *)
Lemma rwfzeNew_Ok (n : nat) id :
  rwfzeNew (Z.of_nat n) id = Ok (mk_elem id (replicate n 0, fresh_data)).
Proof.
  unfold rwfzeNew, REH_INIT, _vc_new.
  rewrite (proj2 (Z.ltb_ge _ _)) by lia. simpl. by rewrite Nat2Z.id.
Qed.

(** The data of an element as a function of the set of operations it received,
    given by the operations that survive the removes. *)
Definition surviving (n : nat) (l : list rwfz_op) : list rwfz_op :=
  survivors op_stamp op_is_rmv (history op_stamp (replicate n 0) l) l.

Lemma rwfz_run_spec (n : nat) id l :
  sized op_stamp n l -> ids_ok l ->
  (e ← rwfzeNew (Z.of_nat n) id; foldM rwfz_effect e l) =
    Ok (mk_elem id (history op_stamp (replicate n 0) l, data_spec (surviving n l))).
Proof.
  intros Hs Hid. rewrite rwfzeNew_Ok. cbn [mbind res_bind].
  rewrite (rwfz_effects_run n); [|apply length_replicate|done].
  rewrite (rwf_run_spec _ _ _ _ n); [|apply length_replicate|done..].
  rewrite data_apply_spec; [done| |].
  - apply Forall_forall. intros o Ho%survivors_stamp. unfold ids_ok in Hid.
    rewrite Forall_forall in Hid. apply Hid. tauto.
  - apply Forall_forall. intros o Ho%survivors_stamp. tauto.
Qed.

Lemma surviving_perm (n : nat) l1 l2 :
  sized op_stamp n l1 -> l1 ≡ₚ l2 ->
  history op_stamp (replicate n 0) l1 = history op_stamp (replicate n 0) l2 /\
  surviving n l1 ≡ₚ surviving n l2.
Proof.
  intros Hs Hp.
  assert (history op_stamp (replicate n 0) l1 = history op_stamp (replicate n 0) l2) as Hh.
  { apply (history_perm _ n); [apply length_replicate|done..]. }
  split; [done|]. unfold surviving, survivors. rewrite Hh. by rewrite Hp.
Qed.

Lemma surviving_winner_perm (n : nat) l1 l2 :
  sized op_stamp n l1 -> adds_agree l1 -> l1 ≡ₚ l2 ->
  winner (surviving n l1) = winner (surviving n l2).
Proof.
  intros Hs Hag Hp. apply winner_perm; [|by apply surviving_perm].
  intros v t v' t' H1 H2. apply survivors_stamp in H1 as (H1 & _ & Hv1), H2 as (H2 & _ & Hv2).
  simpl in *. apply (Hag v t v' t'); [done..|congruence].
Qed.

Lemma wf_ops (n : nat) l :
  Forall (wf_vc n) (op_vc <$> l) -> sized op_stamp n l /\ ids_ok l.
Proof.
  rewrite Forall_fmap. intros Hwf.
  split; (eapply Forall_impl; [exact Hwf|]); intros o Ho.
  - apply (wf_size _ _ Ho).
  - apply (wf_id _ _ Ho).
Qed.

Lemma increments_sublist (n : nat) l : increments (surviving n l) `sublist_of` increments l.
Proof.
  unfold surviving, survivors. generalize (history op_stamp (replicate n 0) l). intros cur.
  induction l as [|o l IH]; [constructor|]. rewrite filter_cons. simpl.
  case_decide; simpl; destruct (incr_value o); try done; by constructor.
Qed.

Lemma perm_ops (n : nat) l1 l2 :
  Forall (wf_vc n) (op_vc <$> l1) -> l1 ≡ₚ l2 -> Forall (wf_vc n) (op_vc <$> l2).
Proof. intros H Hp. by rewrite <- Hp. Qed.

(** ** Integer scores *)

Definition op_value (o : rwfz_op) : option double :=
  match o with RwfzAdd v _ | RwfzIncr v _ => Some v | RwfzRem _ => None end.
Definition op_values (l : list rwfz_op) : list double := omap op_value l.

Lemma increments_values l : increments l ⊆+ op_values l.
Proof.
  induction l as [|o l IH]; [done|]. unfold increments, op_values in *. rewrite !omap_cons_eq.
  destruct o; simpl; [by apply submseteq_cons|by apply submseteq_skip|done].
Qed.

Lemma add_values l v t : RwfzAdd v t ∈ l -> v :: increments l ⊆+ op_values l.
Proof.
  induction l as [|o l IH]; intros Hin; [by apply elem_of_nil in Hin|]. unfold increments, op_values in *.
  rewrite !omap_cons_eq. apply elem_of_cons in Hin as [<-|Hin]; simpl.
  - apply submseteq_skip, increments_values.
  - specialize (IH Hin). destruct o; simpl; [by apply submseteq_cons| |done].
    etrans; [|by apply submseteq_skip]. apply Permutation_submseteq, Permutation_swap.
Qed.

Lemma omap_sublist {A B} (f : A -> option B) l1 l2 : l1 `sublist_of` l2 -> omap f l1 `sublist_of` omap f l2.
Proof.
  induction 1 as [|x l1 l2 Hs IH|x l1 l2 Hs IH]; [done| |]; rewrite !omap_cons_eq; destruct (f x); try done.
  - by apply sublist_skip.
  - by apply sublist_cons.
Qed.

(** What an element's score is made of. *)
Lemma start_values B l v :
  0 < B -> ints_below B (op_values l) -> v = dzero \/ (exists t, RwfzAdd v t ∈ l) -> ints_below B (v :: increments l).
Proof.
  intros HB Hi [->|[t Ht]]; [|by eapply ints_below_sub; [by eapply add_values|]].
  destruct (ints_below_sub _ _ _ (increments_values l) Hi) as [H1 H2].
  split; [by constructor|]. rewrite iabs_cons. exact H2.
Qed.

Lemma surviving_sublist n l : surviving n l `sublist_of` l.
Proof. apply sublist_filter. Qed.

(** The score of an element that received integer values. *)
Lemma rwfz_score_int (n : nat) id l B :
  sized op_stamp n l -> ids_ok l -> ints_below B (op_values l) -> 0 < B <= 2 ^ 53 ->
  exists e z, (e ← rwfzeNew (Z.of_nat n) id; foldM rwfz_effect e l) = Ok e /\ SCORE e = double_of_Z z /\ Z.abs z < B.
Proof.
  intros Hs Hid Hi HB. rewrite rwfz_run_spec by done.
  assert (ints_below B (op_values (surviving n l))) as Hi'.
  { eapply ints_below_sub; [|exact Hi]. apply sublist_submseteq. unfold op_values. apply omap_sublist, surviving_sublist. }
  assert (forall v, v = dzero \/ (exists t, RwfzAdd v t ∈ surviving n l) ->
    exists z, dadd v (foldl dadd dzero (increments (surviving n l))) = double_of_Z z /\ Z.abs z < B) as Hsum.
  { intros v Hv. apply sum_int; [|lia]. by apply start_values; [lia|..]. }
  unfold data_spec. destruct (winner (surviving n l)) as [[i v]|] eqn:Hw.
  - apply winner_Some in Hw as [(t & Ht & _) _]. destruct (Hsum v) as (z & Hz & Hb); [by right; eexists|]. eexists _, z. split_and!; [done|exact Hz|exact Hb].
  - destruct (Hsum dzero) as (z & Hz & Hb); [by left|]. eexists _, z. split_and!; [done|exact Hz|exact Hb].
Qed.

Lemma rwfz_integer_agree (n : nat) id1 id2 l1 l2 :
  Forall (wf_vc n) (op_vc <$> l1) -> adds_agree l1 -> l1 ≡ₚ l2 ->
  (forall v, v = dzero \/ (exists t, RwfzAdd v t ∈ l1) -> small_ints (v :: increments l1)) ->
  exists e1 e2,
    (e ← rwfzeNew (Z.of_nat n) id1; foldM rwfz_effect e l1) = Ok e1 /\
    (e ← rwfzeNew (Z.of_nat n) id2; foldM rwfz_effect e l2) = Ok e2 /\
    EXISTS (header e1) = EXISTS (header e2) /\ SCORE e1 = SCORE e2.
Proof.
  intros Hwf Hag Hp Hint. pose proof (wf_ops _ _ (perm_ops _ _ _ Hwf Hp)) as [Hs2 Hi2].
  pose proof (wf_ops _ _ Hwf) as [Hs1 Hi1].
  destruct (surviving_perm n l1 l2 Hs1 Hp) as [Hh Hsv].
  pose proof (surviving_winner_perm n l1 l2 Hs1 Hag Hp) as Hw.
  assert (increments (surviving n l1) ≡ₚ increments (surviving n l2)) as Hinc
    by (unfold increments; by rewrite Hsv).
  assert (forall v, v = dzero \/ (exists t, RwfzAdd v t ∈ l1) ->
            dadd v (foldl dadd dzero (increments (surviving n l1))) =
            dadd v (foldl dadd dzero (increments (surviving n l2)))) as Hsum.
  { intros v Hv. apply small_ints_sum_perm; [|done].
    eapply small_ints_sub; [by apply Hint|apply increments_sublist]. }
  rewrite !rwfz_run_spec by done. do 2 eexists. split; [done|]. split; [done|].
  unfold data_spec. rewrite (decide_ext _ _ _ _ (perm_nil_iff _ _ Hinc)).
  destruct (winner (surviving n l1)) as [[i v]|] eqn:Hw1; rewrite <- Hw.
  - split; [done|]. apply Hsum. right.
    apply winner_Some in Hw1 as [(t & Ht & _) _]. exists t. by apply survivors_stamp in Ht as [? _].
  - split; [done|]. apply Hsum. by left.
Qed.

(** ** Properties *)

(** An element that starts fresh on a server of [n] replicas
    and receives any sequence of adds, increments and removes ends in the state
    the remove-win specification gives for it: the remove history is the join of
    all the timestamps, the element exists when some add or increment issued in
    exactly that history arrived, its initial value is the one added by the
    replica with the largest id, and its increments are summed in the order of
    arrival. *)
Theorem rwfz_refines_remove_win (n : nat) id l :
  Forall (wf_vc n) (op_vc <$> l) ->
  (e ← rwfzeNew (Z.of_nat n) id; foldM rwfz_effect e l) =
    Ok (mk_elem id (history op_stamp (replicate n 0) l, data_spec (surviving n l))).
Proof. intros [Hs Hid]%wf_ops. by apply rwfz_run_spec. Qed.

Lemma rwfz_refines_remove_win_witness :
  let l := [RwfzAdd (double_of_Z 5) (mkVc [0; 0] 1); RwfzIncr (double_of_Z 2) (mkVc [0; 0] 0);
            RwfzAdd (double_of_Z 7) (mkVc [0; 0] 0)] in
  (e ← rwfzeNew 2 0; foldM rwfz_effect e l) =
    Ok (mk_elem 0 ([0; 0], (1, double_of_Z 5, double_of_Z 2))).
Proof.
  intros l. etrans.
  - apply (rwfz_refines_remove_win 2 0 l).
    subst l. simpl. repeat constructor; simpl; (lia || unfold INT_MAX; lia).
  - vm_compute. reflexivity.
Defined.

(** Convergence: two replicas that received the same operations, in any
    two orders, agree on the remove history of the element, on whether it
    exists, on the replica that added it and on its initial value; the acquired
    values are sums of the same increments, each in its own order of arrival. *)
Theorem rwfz_converges (n : nat) id1 id2 l1 l2 :
  Forall (wf_vc n) (op_vc <$> l1) -> adds_agree l1 -> l1 ≡ₚ l2 ->
  exists e1 e2 s1 s2,
    (e ← rwfzeNew (Z.of_nat n) id1; foldM rwfz_effect e l1) = Ok e1 /\
    (e ← rwfzeNew (Z.of_nat n) id2; foldM rwfz_effect e l2) = Ok e2 /\
    vector (current (header e1)) = vector (current (header e2)) /\
    pid (header e1) = pid (header e2) /\ innate e1 = innate e2 /\
    s1 ≡ₚ s2 /\
    acquired e1 = foldl dadd dzero s1 /\ acquired e2 = foldl dadd dzero s2.
Proof.
  intros Hwf Hag Hp. pose proof (wf_ops _ _ (perm_ops _ _ _ Hwf Hp)) as [Hs2 Hi2].
  pose proof (wf_ops _ _ Hwf) as [Hs1 Hi1].
  destruct (surviving_perm n l1 l2 Hs1 Hp) as [Hh Hsv].
  pose proof (surviving_winner_perm n l1 l2 Hs1 Hag Hp) as Hw.
  assert (increments (surviving n l1) ≡ₚ increments (surviving n l2)) as Hinc
    by (unfold increments; by rewrite Hsv).
  rewrite !rwfz_run_spec by done. rewrite Hh. unfold data_spec. rewrite Hw.
  rewrite (decide_ext _ _ _ _ (perm_nil_iff _ _ Hinc)).
  destruct (winner (surviving n l2)) as [[i v]|];
    eexists _, _, (increments (surviving n l1)), (increments (surviving n l2));
    split_and!; done.
Qed.

Lemma rwfz_converges_witness :
  let l1 := [RwfzAdd (double_of_Z 5) (mkVc [0; 0] 1); RwfzIncr (double_of_Z 2) (mkVc [0; 0] 0);
             RwfzRem (mkVc [1; 0] 0); RwfzAdd (double_of_Z 4) (mkVc [1; 0] 1);
             RwfzIncr (double_of_Z 3) (mkVc [1; 0] 0)] in
  exists e1 e2 s1 s2,
    (e ← rwfzeNew 2 0; foldM rwfz_effect e l1) = Ok e1 /\
    (e ← rwfzeNew 2 1; foldM rwfz_effect e (reverse l1)) = Ok e2 /\
    vector (current (header e1)) = vector (current (header e2)) /\
    pid (header e1) = pid (header e2) /\ innate e1 = innate e2 /\
    s1 ≡ₚ s2 /\
    acquired e1 = foldl dadd dzero s1 /\ acquired e2 = foldl dadd dzero s2.
Proof.
  intros l1. apply (rwfz_converges 2 0 1 l1 (reverse l1)).
  - subst l1. simpl. repeat constructor; simpl; (lia || unfold INT_MAX; lia).
  - subst l1. intros v t v' t' H1 H2 Hv Hi.
    repeat (apply elem_of_cons in H1 as [H1|H1]); try (by apply elem_of_nil in H1);
      repeat (apply elem_of_cons in H2 as [H2|H2]); try (by apply elem_of_nil in H2);
      by simplify_eq.
  - by rewrite reverse_Permutation.
Defined.

(** When the values added and the increments are
    integers whose magnitudes add up to less than 2^53, two replicas that
    received the same operations hold the same score, bit for bit. *)
Theorem rwfz_integer_scores_converge (n : nat) id1 id2 l1 l2 :
  Forall (wf_vc n) (op_vc <$> l1) -> adds_agree l1 -> l1 ≡ₚ l2 ->
  (forall v, v = dzero \/ (exists t, RwfzAdd v t ∈ l1) -> small_ints (v :: increments l1)) ->
  exists e1 e2,
    (e ← rwfzeNew (Z.of_nat n) id1; foldM rwfz_effect e l1) = Ok e1 /\
    (e ← rwfzeNew (Z.of_nat n) id2; foldM rwfz_effect e l2) = Ok e2 /\
    EXISTS (header e1) = EXISTS (header e2) /\ SCORE e1 = SCORE e2.
Proof. apply rwfz_integer_agree. Qed.

Lemma rwfz_integer_scores_converge_witness :
  let l1 := [RwfzAdd (double_of_Z 5) (mkVc [0; 0] 1); RwfzIncr (double_of_Z 2) (mkVc [0; 0] 0);
             RwfzIncr (double_of_Z (-9)) (mkVc [0; 0] 1)] in
  exists e1 e2,
    (e ← rwfzeNew 2 0; foldM rwfz_effect e l1) = Ok e1 /\
    (e ← rwfzeNew 2 1; foldM rwfz_effect e (reverse l1)) = Ok e2 /\
    EXISTS (header e1) = EXISTS (header e2) /\ SCORE e1 = SCORE e2.
Proof.
  intros l1. apply (rwfz_integer_scores_converge 2 0 1 l1 (reverse l1)).
  - subst l1. simpl. repeat constructor; simpl; (lia || unfold INT_MAX; lia).
  - subst l1. intros v t v' t' H1 H2 Hv Hi.
    repeat (apply elem_of_cons in H1 as [H1|H1]); try (by apply elem_of_nil in H1);
      repeat (apply elem_of_cons in H2 as [H2|H2]); try (by apply elem_of_nil in H2);
      by simplify_eq.
  - by rewrite reverse_Permutation.
  - intros v [->|[t Ht]]; [exists [0; 2; -9]; vm_compute; done|].
    apply elem_of_cons in Ht as [[= -> _]|Ht]; [exists [5; 2; -9]; vm_compute; done|].
    repeat (apply elem_of_cons in Ht as [Ht|Ht]); try done. by apply elem_of_nil in Ht.
Defined.
