(* ===== verification/ARSet.v ===== *)
(** * Add sets and remove sets

    The set part that an element of the remove-win queue (t_rzset.c) and an
    element of the remove-win list (t_rlist.c) share: the list [aset] of the
    adds that are not superseded, the list [rset] of the removes no later add
    has answered, and the pointer [value] to the add that currently speaks for
    the element.  The two C files spell out the same loops; they are written
    here once, over the payload [A] of an add. *)

From S2P Require Import Prelude Sds VectorClock Causal.

Section Sets.
Context {A : Type}.

Record ase := mkAse { ase_t : vc; ase_v : A }.

(** Entries of [aset] are heap objects: [value] is the address of one of them,
    [fresh] the next address. *)
Record ars := mkArs {
  value : option nat;
  aset : list (nat * ase);
  rset : list vc;
  fresh : nat
}.

Definition ars_new : ars := mkArs None [] [] 0.

Definition LOOKUP (s : ars) : bool :=
  match aset s, rset s with _ :: _, [] => true | _, _ => false end.

Definition older (r t : vc) : bool := vc_cmp r t =? VC_LESS.

(** The loop that deletes the adds below [t] and clears [value] with the add it
    points to; the flag is [ase_removed]. *)
Fixpoint del_older (t : vc) (l : list (nat * ase)) (v : option nat)
    : list (nat * ase) * option nat * bool :=
  match l with
  | [] => ([], v, false)
  | (p, a) :: l' =>
      if older (ase_t a) t then
        let '(r, v', _) := del_older t l' (if decide (v = Some p) then None else v) in
        (r, v', true)
      else let '(r, v', b) := del_older t l' v in ((p, a) :: r, v', b)
  end.

(** The loop that points [value] at the add with the largest replica id. *)
Definition id_lt (b a : ase) : bool := vid (ase_t b) <? vid (ase_t a).
Definition pick_value (m l : list (nat * ase)) (v : option nat) : res (option nat) :=
  foldM (better id_lt m) v l.

Definition ars_add (s : ars) (x : A) (t : vc) : res ars :=
  let p := fresh s in
  let '(l, v, removed) := del_older t (aset s ++ [(p, mkAse (vc_dup t) x)]) (value s) in
  let r := filter (fun r => older r t = false) (rset s) in
  v ← (if (removed : bool) && bool_decide (v = None) then pick_value l l v else Ok v);
  v ← match v with
      | None => Ok (Some p)
      | Some q => b ← deref l q; Ok (if vid (ase_t b) <? vid t then Some p else v)
      end;
  Ok (mkArs v l r (S (fresh s))).

(** An update reaches the adds it saw. *)
Definition upd_entry (f : A -> A) (t : vc) (pa : nat * ase) : nat * ase :=
  let '(p, a) := pa in
  (p, if older (ase_t a) t then mkAse (ase_t a) (f (ase_v a)) else a).
Definition ars_upd (s : ars) (f : A -> A) (t : vc) : ars :=
  mkArs (value s) (upd_entry f t <$> aset s) (rset s) (fresh s).

Definition ars_rem (s : ars) (t : vc) : res ars :=
  let r := rset s ++ [vc_dup t] in
  let '(l, v, _) := del_older t (aset s) (value s) in
  v ← match v with None => pick_value l l None | Some _ => Ok v end;
  Ok (mkArs v l r (fresh s)).

(** The functions on the sets end, on any sets. *)
Lemma ends_pick m l v : ends (pick_value m l v).
Proof.
  apply ends_foldM. intros b a. unfold better. destruct b; [|done]. apply ends_bind; [apply ends_deref|done].
Qed.

Lemma ends_ars_add s x t : ends (ars_add s x t).
Proof.
  unfold ars_add. destruct (del_older _ _ _) as [[l v] r]. apply ends_bind; [destruct (_ && _); [apply ends_pick|done]|].
  intros v'. apply ends_bind; [|done]. destruct v'; [|done]. apply ends_bind; [apply ends_deref|done].
Qed.

Lemma ends_ars_rem s t : ends (ars_rem s t).
Proof.
  unfold ars_rem. destruct (del_older _ _ _) as [[l v] r]. apply ends_bind; [|done]. destruct v; [done|apply ends_pick].
Qed.

(** ** The loops *)

Lemma del_older_spec t l v :
  del_older t l v =
    (filter (fun pa => older (ase_t pa.2) t = false) l,
     (if decide (Exists (fun pa => older (ase_t pa.2) t = true /\ v = Some pa.1) l)
      then None else v),
     bool_decide (Exists (fun pa => older (ase_t pa.2) t = true) l)).
Proof.
  revert v. induction l as [|[p a] l IH]; intros v; [done|]. cbn [del_older].
  destruct (older (ase_t a) t) eqn:Ho; rewrite IH; clear IH.
  - rewrite filter_cons_False by (simpl; congruence).
    rewrite (bool_decide_true (Exists _ (_ :: _))) by (by left).
    do 2 f_equal. destruct (decide (v = Some p)) as [->|Hv].
    + rewrite decide_False; [by rewrite decide_True by (by left)|].
      intros (? & ? & ? & ?)%Exists_exists. done.
    + apply decide_ext. rewrite Exists_cons. simpl. naive_solver.
  - rewrite filter_cons_True by done. do 2 f_equal.
    + apply decide_ext. rewrite Exists_cons. simpl. naive_solver congruence.
    + apply bool_decide_ext. rewrite Exists_cons. simpl. naive_solver congruence.
Qed.

(** [value] points at an entry with the largest replica id. *)
Definition is_max (m : list (nat * ase)) (v : option nat) : Prop :=
  match v with
  | None => m = []
  | Some p => exists a, (p, a) ∈ m /\
      forall q b, (q, b) ∈ m -> vid (ase_t b) <= vid (ase_t a)
  end.

Lemma pick_is_max m :
  NoDup m.*1 -> exists v, pick_value m m None = Ok v /\ is_max m v.
Proof.
  intros Hnd. destruct (scan_spec id_lt (fun _ => True)) with (m := m) (l := m) (v := @None nat)
    as (v & Hv & Hn & Hs); unfold id_lt; try done.
  - intros a b _ _ ?. zbool; done || lia.
  - intros a _. apply Z.ltb_irrefl.
  - intros a b c _ _ _ ? ?. zbool; done || lia.
  - intros p a Ha. split; [by apply deref_elem|done].
  - exists v. split; [done|]. destruct v as [p|]; simpl; [|by apply Hn].
    destruct (Hs p eq_refl) as (a & Ha & _ & [Hor|Hor] & Hmax & _); [done|]. exists a.
    split; [done|]. intros q b Hb. specialize (Hmax q b Hb). unfold id_lt in Hmax. zbool; done || lia.
Qed.

Lemma del_older_value t l v l' v' b :
  del_older t l v = (l', v', b) ->
  (v' = None -> v = None \/ b = true) /\
  (forall q, v' = Some q -> v = Some q /\ forall a, (q, a) ∈ l -> (q, a) ∈ l').
Proof.
  rewrite del_older_spec. intros [= <- <- <-]. case_decide as HE; split; try done.
  - intros _. right. apply bool_decide_true. apply Exists_exists in HE as (x & Hx & ? & _).
    apply Exists_exists. eauto.
  - intros ->. by left.
  - intros q ->. split; [done|]. intros a Ha. apply list_elem_of_filter. split; [|done].
    destruct (older _ t) eqn:Ho; [|done]. destruct HE. apply Exists_exists. by exists (q, a).
Qed.

Lemma is_max_sub m m' p : is_max m (Some p) -> m' ⊆ m ->
  (forall a, (p, a) ∈ m -> (p, a) ∈ m') -> is_max m' (Some p).
Proof. intros (a & Ha & Hmax) Hsub Hp. exists a. eauto. Qed.

Lemma filter_addr (P : nat * ase -> Prop) `{!forall x, Decision (P x)} m k :
  NoDup m.*1 -> Forall (fun p => (p < k)%nat) m.*1 ->
  NoDup (filter P m).*1 /\ Forall (fun p => (p < k)%nat) (filter P m).*1.
Proof.
  intros Hnd HF. pose proof (sublist_filter P m) as Hs. apply (fmap_sublist fst) in Hs.
  split; [by eapply sublist_NoDup|]. rewrite Forall_forall in *. intros p Hp. apply HF.
  by eapply elem_of_submseteq, sublist_submseteq.
Qed.

Definition kept (t : vc) (m : list (nat * ase)) : list (nat * ase) :=
  filter (fun pa => older (ase_t pa.2) t = false) m.

Lemma del_older_kept t m v :
  exists v' b, del_older t m v = (kept t m, v', b) /\ (b = false -> kept t m = m).
Proof.
  rewrite del_older_spec. eexists _, _. split; [done|]. intros Hb. apply filter_all.
  intros x Hx. apply bool_decide_eq_false in Hb. destruct (older _ t) eqn:Ho; [|done].
  destruct Hb. apply Exists_exists. eauto.
Qed.

Record well_linked (s : ars) : Prop := {
  wl_nodup : NoDup (aset s).*1;
  wl_fresh : Forall (fun p => (p < fresh s)%nat) (aset s).*1;
  wl_value : is_max (aset s) (value s)
}.

Lemma is_max_snoc m v p a :
  is_max m v -> NoDup (m ++ [(p, a)]).*1 ->
  exists v', match v with
             | None => Ok (Some p)
             | Some q => b ← deref (m ++ [(p, a)]) q; Ok (if vid (ase_t b) <? vid (ase_t a) then Some p else v)
             end = Ok v' /\ is_max (m ++ [(p, a)]) v'.
Proof.
  intros Hv Hnd. destruct v as [q|]; simpl in Hv.
  - destruct Hv as (b & Hb & Hmax).
    rewrite (proj1 (deref_elem _ q b Hnd)) by set_solver. simpl. eexists. split; [done|].
    destruct (Z.ltb_spec (vid (ase_t b)) (vid (ase_t a))); simpl.
    + exists a. split; [set_solver|]. intros q' b' [Hin|Hin]%elem_of_app.
      * specialize (Hmax _ _ Hin). lia.
      * apply list_elem_of_singleton in Hin as [= -> ->]. lia.
    + exists b. split; [set_solver|]. intros q' b' [Hin|Hin]%elem_of_app; [eauto|].
      apply list_elem_of_singleton in Hin as [= -> ->]. done.
  - subst m. eexists. split; [done|]. exists a. split; [by left|].
    intros q' b' [= -> ->]%list_elem_of_singleton. done.
Qed.

(** The add and the remove on well-linked sets: nothing dangles, and [value]
    ends on an entry with the largest replica id. *)
Lemma ars_add_shape s x t :
  well_linked s -> older t t = false ->
  exists v, let m := kept t (aset s) ++ [(fresh s, mkAse t x)] in
    ars_add s x t = Ok (mkArs v m (filter (fun r => older r t = false) (rset s)) (S (fresh s))) /\
    well_linked (mkArs v m (filter (fun r => older r t = false) (rset s)) (S (fresh s))).
Proof.
  intros [Hnd Hfr Hv] Ht. unfold ars_add.
  assert (vc_dup t = t) as -> by (by destruct t).
  set (new := (fresh s, mkAse t x)).
  destruct (del_older t (aset s ++ [new]) (value s)) as [[m v] b] eqn:Hdel.
  pose proof (del_older_value _ _ _ _ _ _ Hdel) as [HvN HvS].
  destruct (del_older_kept t (aset s ++ [new]) (value s)) as (v0 & b0 & Hk & Hb0).
  rewrite Hk in Hdel. injection Hdel as <- -> ->.
  assert (kept t (aset s ++ [new]) = kept t (aset s) ++ [new]) as Hm.
  { unfold kept. by rewrite filter_app, filter_cons_True. }
  rewrite Hm in *.
  destruct (filter_addr (fun pa => older (ase_t pa.2) t = false) (aset s) (fresh s) Hnd Hfr)
    as [Hnd' Hfr']. fold (kept t (aset s)) in Hnd', Hfr'.
  assert (NoDup (kept t (aset s) ++ [new]).*1) as Hnd2.
  { rewrite fmap_app. apply NoDup_app. split_and!; [done| |apply NoDup_singleton].
    intros p Hp ->%list_elem_of_singleton. rewrite Forall_forall in Hfr'.
    specialize (Hfr' _ Hp). simpl in Hfr'. lia. }
  assert (Forall (fun p => (p < S (fresh s))%nat) (kept t (aset s) ++ [new]).*1) as Hfr2.
  { rewrite fmap_app. apply Forall_app. split; [|simpl; constructor; [lia|constructor]].
    eapply Forall_impl; [exact Hfr'|]. simpl. lia. }
  assert (exists v1, (if b && bool_decide (v = None) then
                        pick_value (kept t (aset s) ++ [new]) (kept t (aset s) ++ [new]) v
                      else Ok v) = Ok v1 /\
            (is_max (kept t (aset s)) v1 \/ is_max (kept t (aset s) ++ [new]) v1 /\ v1 <> None))
    as (v1 & Hv1 & Hmax1).
  { destruct v as [q|].
    - rewrite andb_false_r. eexists. split; [done|]. left.
      destruct (HvS q eq_refl) as [Heq Hin]. rewrite Heq in Hv.
      destruct Hv as (a & Ha & Hmax). exists a. split.
      + specialize (Hin a ltac:(set_solver)). apply elem_of_app in Hin as [?|Hin]; [done|].
        apply list_elem_of_singleton in Hin as [= -> ->]. exfalso.
        rewrite Forall_forall in Hfr.
        specialize (Hfr _ (list_elem_of_fmap_2 fst _ _ Ha)). simpl in Hfr. lia.
      + intros q' b' Hq'. apply (Hmax q'). unfold kept in Hq'. by apply list_elem_of_filter in Hq' as [_ ?].
    - destruct b; simpl.
      + destruct (pick_is_max _ Hnd2) as (v1 & -> & Hmax). exists v1. split; [done|]. right.
        split; [done|]. intros ->. simpl in Hmax. by apply app_nil in Hmax as [_ ?].
      + eexists. split; [done|]. left. destruct (HvN eq_refl) as [Heq|?]; [|done].
        rewrite Heq in Hv. simpl in Hv. rewrite Hv. done. }
  rewrite Hv1. simpl. destruct Hmax1 as [Hmax1|[Hmax1 Hne]].
  - destruct (is_max_snoc _ _ (fresh s) (mkAse t x) Hmax1 Hnd2) as (v2 & Hv2 & Hmax2).
    simpl in Hv2. fold new in Hv2. rewrite Hv2. simpl. exists v2. split; [done|]. by split.
  - destruct v1 as [q|]; [|done]. destruct Hmax1 as (a & Ha & Hmax).
    rewrite (proj1 (deref_elem _ q a Hnd2) Ha). simpl.
    rewrite (proj2 (Z.ltb_ge _ _)) by (apply (Hmax (fresh s) (mkAse t x)); set_solver).
    eexists. split; [done|]. split; [done..|]. by exists a.
Qed.

Lemma ars_rem_shape s t :
  well_linked s ->
  exists v, ars_rem s t = Ok (mkArs v (kept t (aset s)) (rset s ++ [t]) (fresh s)) /\
    well_linked (mkArs v (kept t (aset s)) (rset s ++ [t]) (fresh s)).
Proof.
  intros [Hnd Hfr Hv]. unfold ars_rem.
  assert (vc_dup t = t) as -> by (by destruct t).
  destruct (del_older t (aset s) (value s)) as [[m v] b] eqn:Hdel.
  pose proof (del_older_value _ _ _ _ _ _ Hdel) as [_ HvS].
  destruct (del_older_kept t (aset s) (value s)) as (v0 & b0 & Hk & _).
  rewrite Hk in Hdel. injection Hdel as <- -> ->.
  destruct (filter_addr (fun pa => older (ase_t pa.2) t = false) (aset s) (fresh s) Hnd Hfr)
    as [Hnd' Hfr']. fold (kept t (aset s)) in Hnd', Hfr'.
  destruct v as [q|]; simpl.
  - eexists. split; [done|]. split; [done..|]. destruct (HvS q eq_refl) as [Heq Hin].
    rewrite Heq in Hv. eapply is_max_sub; [exact Hv| |done].
    intros y Hy. unfold kept in Hy. by apply list_elem_of_filter in Hy as [_ ?].
  - destruct (pick_is_max _ Hnd') as (v1 & -> & Hmax). simpl. eexists. split; [done|]. by split.
Qed.

Lemma ars_upd_linked s f t : well_linked s -> well_linked (ars_upd s f t).
Proof.
  intros [Hnd Hfr Hv].
  assert ((aset (ars_upd s f t)).*1 = (aset s).*1) as Hfst.
  { simpl. rewrite <- list_fmap_compose. apply list_fmap_ext. by intros i [p a] _. }
  split; rewrite ?Hfst; [done..|]. simpl. destruct (value s) as [p|]; simpl in *.
  - destruct Hv as (a & Ha & Hmax).
    assert (forall b, ase_t (if older (ase_t b) t then mkAse (ase_t b) (f (ase_v b)) else b) = ase_t b)
      as Ht by (intros b; by destruct (older _ _)).
    eexists. split; [apply (list_elem_of_fmap_2 (upd_entry f t) _ _ Ha)|].
    intros q b ([q' b'] & [= -> ->] & Hin)%list_elem_of_fmap. rewrite !Ht. by eapply Hmax.
  - by rewrite Hv.
Qed.
Lemma LOOKUP_upd (s : ars) f t : LOOKUP (ars_upd s f t) = LOOKUP s.
Proof. unfold LOOKUP, ars_upd. simpl. by destruct (aset s). Qed.
End Sets.
Arguments ase : clear implicits.
Arguments ars : clear implicits.

(** ** What an execution in causal order builds *)

Section Spec.
Context {op A : Type} (ts : op -> vc).

(** The three kinds of operation on an element. *)
Inductive akind :=
  | KAdd (x : A)
  | KUpd (f : A -> A)
  | KRem.
Context (kind : op -> akind).

Definition is_add (o : op) : bool := match kind o with KAdd _ => true | _ => false end.
Definition is_rem (o : op) : bool := match kind o with KRem => true | _ => false end.

Definition ars_exec (s : ars A) (o : op) : res (ars A) :=
  match kind o with
  | KAdd x => ars_add s x (ts o)
  | KUpd f => Ok (ars_upd s f (ts o))
  | KRem => ars_rem s (ts o)
  end.

Definition before (b o : op) : Prop := vlt (vector (ts b)) (vector (ts o)).

(** The adds no later add or remove supersedes, the removes no later add
    answers, and the payload of an add after the updates that saw it. *)
Definition live (cand killer : op -> bool) (l : list op) : list op :=
  filter (fun b => cand b = true /\ Forall (fun o => killer o = true -> ~ before b o) l) l.
Definition live_adds : list op -> list op := live is_add (fun o => is_add o || is_rem o).
Definition live_rems : list op -> list op := live is_rem is_add.

Definition upd_step (b : op) (x : A) (o : op) : A :=
  match kind o with KUpd f => if decide (before b o) then f x else x | _ => x end.
Definition payload (l : list op) (b : op) : option A :=
  match kind b with KAdd x => Some (foldl (upd_step b) x l) | _ => None end.

Definition entry_for (l : list op) (b : op) (a : ase A) : Prop :=
  b ∈ l /\ ase_t a = ts b /\ payload l b = Some (ase_v a).

Record ars_reached (l : list op) (s : ars A) : Prop := {
  ar_aset : Forall2 (fun b pa => entry_for l b pa.2) (live_adds l) (aset s);
  ar_rset : rset s = ts <$> live_rems l;
  ar_linked : well_linked s
}.

Lemma ars_reached_new : ars_reached [] ars_new.
Proof. split; [constructor|done|]. split; [constructor..|done]. Qed.

Lemma upd_none b x m : Forall (fun o => ~ before b o) m -> foldl (upd_step b) x m = x.
Proof.
  induction 1 as [|o m Ho HF IH]; [done|]. simpl.
  assert (upd_step b x o = x) as ->; [|done].
  unfold upd_step. destruct (kind o); rewrite ?decide_False; done.
Qed.

Context (n : nat).

(** Helpers on one step of a causal execution. *)
Section Step.
Context (l : list op) (o : op) (Hseq : causal_seq ts n (l ++ [o])).

Lemma seq_parts :
  causal_seq ts n l /\ wf_vc n (ts o) /\ next_event (mkVc (join ts n l) 0) (ts o) /\
  (forall b, b ∈ l -> own (ts b) <= entry (vector (ts o)) (vid (ts b)) ->
     vle (vector (ts b)) (vector (ts o))).
Proof.
  inversion Hseq as [H|l' o' Hl Ho Hn Hd Heq].
  - by destruct l.
  - apply app_inj_tail in Heq as [-> ->]. done.
Qed.

Lemma not_before_next b : b ∈ l ++ [o] -> ~ before o b.
Proof.
  destruct seq_parts as (Hl & Ho & Hn & _). intros [Hb|Hb]%elem_of_app.
  - intros [Hle _]. by apply (causal_not_above ts n l o b).
  - apply list_elem_of_singleton in Hb as ->. apply vlt_irrefl.
Qed.

Lemma older_before b : b ∈ l -> older (ts b) (ts o) = bool_decide (before b o).
Proof.
  destruct seq_parts as (Hl & Ho & Hn & Hd). intros Hb. unfold older.
  by apply vc_cmp_less, (causal_comparable ts n l).
Qed.

Lemma older_self : older (ts o) (ts o) = false.
Proof.
  unfold older. rewrite vc_cmp_less; [|split; [done|]; by left].
  apply bool_decide_false, vlt_irrefl.
Qed.

Lemma same_replica_before b : b ∈ l -> vid (ts b) = vid (ts o) -> before b o.
Proof.
  destruct seq_parts as (Hl & Ho & Hn & Hd). intros Hb Hid.
  by apply (causal_same_replica ts n l).
Qed.

Lemma live_snoc cand killer :
  live cand killer (l ++ [o]) =
    (if killer o then filter (fun b => ~ before b o) (live cand killer l) else live cand killer l)
    ++ (if cand o then [o] else []).
Proof.
  unfold live. rewrite filter_app. f_equal.
  - destruct (killer o) eqn:Hk.
    + rewrite list_filter_filter. apply list_filter_iff. intros b.
      rewrite Forall_app, Forall_singleton. tauto.
    + apply list_filter_iff. intros b. rewrite Forall_app, Forall_singleton.
      rewrite Hk. intuition congruence.
  - destruct (cand o) eqn:Hk.
    + rewrite filter_cons_True; [done|]. split; [done|].
      apply Forall_forall. intros b Hb _. by apply not_before_next.
    + rewrite filter_cons_False; [done|]. intros [? _]. congruence.
Qed.

Lemma live_sub cand killer b : b ∈ live cand killer l -> b ∈ l /\ cand b = true.
Proof. unfold live. rewrite list_elem_of_filter. tauto. Qed.

(** Payloads: an add or a remove changes none, and the next operation starts
    with no update above it. *)
Lemma payload_snoc_same b :
  b ∈ l -> (forall f, kind o <> KUpd f) -> payload (l ++ [o]) b = payload l b.
Proof.
  intros Hb Hk. unfold payload. destruct (kind b); [|done..]. rewrite foldl_app. simpl.
  unfold upd_step at 1. destruct (kind o) eqn:Ho; [done| |done]. by destruct (Hk f).
Qed.

Lemma payload_snoc_upd b x f :
  payload l b = Some x -> kind o = KUpd f ->
  payload (l ++ [o]) b = Some (if decide (before b o) then f x else x).
Proof.
  unfold payload. destruct (kind b); [|done..]. intros [= Hx] Hk. rewrite foldl_app, Hx. simpl.
  unfold upd_step. by rewrite Hk.
Qed.

Lemma payload_self x : kind o = KAdd x -> payload (l ++ [o]) o = Some x.
Proof.
  intros Hk. unfold payload. rewrite Hk. f_equal.
  apply upd_none, Forall_forall, not_before_next.
Qed.

Lemma entry_older b a : entry_for l b a -> older (ase_t a) (ts o) = false <-> ~ before b o.
Proof.
  intros (Hb & -> & _). rewrite older_before by done.
  destruct (decide (before b o)); [rewrite bool_decide_true by done|rewrite bool_decide_false by done];
    intuition congruence.
Qed.

Lemma entries_kept (L : list op) (m : list (nat * ase A)) :
  (forall f, kind o <> KUpd f) ->
  Forall2 (fun b pa => entry_for l b pa.2) L m ->
  Forall2 (fun b pa => entry_for (l ++ [o]) b pa.2) L m.
Proof.
  intros Hk HF. eapply Forall2_impl; [exact HF|]. intros b [p a] (Hb & Ht & Hp). simpl in *.
  split_and!; [set_solver|done|]. by rewrite payload_snoc_same.
Qed.

Lemma rems_kept :
  filter (fun r => older r (ts o) = false) (ts <$> live_rems l) =
    ts <$> filter (fun b => ~ before b o) (live_rems l).
Proof.
  rewrite filter_fmap_comm. f_equal. apply filter_ext_in. intros b [Hb _]%live_sub.
  rewrite older_before by done. rewrite bool_decide_eq_false. done.
Qed.

Lemma adds_kept (m : list (nat * ase A)) :
  Forall2 (fun b pa => entry_for l b pa.2) (live_adds l) m ->
  Forall2 (fun b pa => entry_for l b pa.2)
    (filter (fun b => ~ before b o) (live_adds l)) (kept (ts o) m).
Proof. intros HF. eapply Forall2_filter; [|exact HF]. intros b pa H. symmetry. by apply entry_older. Qed.

Lemma live_adds_next :
  live_adds (l ++ [o]) =
    (if is_add o || is_rem o then filter (fun b => ~ before b o) (live_adds l) else live_adds l)
    ++ (if is_add o then [o] else []).
Proof. apply (live_snoc is_add (fun o => is_add o || is_rem o)). Qed.

Lemma live_rems_next :
  live_rems (l ++ [o]) =
    (if is_add o then filter (fun b => ~ before b o) (live_rems l) else live_rems l)
    ++ (if is_rem o then [o] else []).
Proof. apply (live_snoc is_rem is_add). Qed.

Context (s : ars A) (Hs : ars_reached l s).

Lemma exec_step : exists s', ars_exec s o = Ok s' /\ ars_reached (l ++ [o]) s'.
Proof.
  destruct Hs as [Ha Hr Hw]. unfold ars_exec.
  pose proof live_adds_next as HLa. pose proof live_rems_next as HLr.
  assert (is_add o = match kind o with KAdd _ => true | _ => false end) as Hadd by done.
  assert (is_rem o = match kind o with KRem => true | _ => false end) as Hrem by done.
  rewrite Hadd, Hrem in HLa, HLr.
  destruct (kind o) as [x|f|] eqn:Hk; simpl in HLa, HLr;
    rewrite ?app_nil_r in HLa; rewrite ?app_nil_r in HLr.
  - destruct (ars_add_shape s x (ts o) Hw older_self) as (v & -> & Hw').
    eexists. split; [done|]. split; simpl; [rewrite HLa|rewrite HLr, Hr; apply rems_kept|done].
    apply Forall2_app.
    + apply entries_kept; [congruence|]. by apply adds_kept.
    + constructor; [|constructor]. simpl. split_and!; [set_solver|done|]. by apply payload_self.
  - eexists. split; [done|]. split; simpl; [rewrite HLa|by rewrite HLr, Hr|by apply ars_upd_linked].
    apply Forall2_fmap_r. eapply Forall2_impl; [exact Ha|].
    intros b [p a] (Hb & Ht & Hp). simpl in *.
    pose proof (payload_snoc_upd b _ f Hp Hk) as Hp'. rewrite Ht, older_before by done.
    destruct (decide (before b o));
      [rewrite bool_decide_true by done|rewrite bool_decide_false by done];
      (split_and!; [set_solver|done|done]).
  - destruct (ars_rem_shape s (ts o) Hw) as (v & -> & Hw').
    eexists. split; [done|]. split; simpl; [rewrite HLa|rewrite HLr, Hr, fmap_app; done|done].
    apply entries_kept; [congruence|]. by apply adds_kept.
Qed.
End Step.

(** ** Convergence *)

Lemma live_perm cand killer l1 l2 :
  l1 ≡ₚ l2 -> live cand killer l1 ≡ₚ live cand killer l2.
Proof.
  intros Hp. unfold live. rewrite <- Hp.
  rewrite (list_filter_iff _ (fun b => cand b = true /\ Forall (fun o => killer o = true -> ~ before b o) l2)); [done|].
  intros b. by rewrite Hp.
Qed.

Lemma causal_ordered l b b' :
  causal_seq ts n l -> b ∈ l -> b' ∈ l -> vid (ts b) = vid (ts b') ->
  b = b' \/ before b b' \/ before b' b.
Proof.
  induction 1 as [|l o Hl IH Ho Hn Hd]; intros Hb Hb' Hid; [by apply elem_of_nil in Hb|].
  assert (causal_seq ts n (l ++ [o])) as Hseq by (by constructor).
  apply elem_of_app in Hb as [Hb|Hb], Hb' as [Hb'|Hb'].
  - by apply IH.
  - apply list_elem_of_singleton in Hb' as ->. right; left. by apply same_replica_before with l.
  - apply list_elem_of_singleton in Hb as ->. right; right. by apply same_replica_before with l.
  - apply list_elem_of_singleton in Hb as ->. apply list_elem_of_singleton in Hb' as ->. by left.
Qed.

Lemma live_adds_unique_id l b b' :
  causal_seq ts n l -> b ∈ live_adds l -> b' ∈ live_adds l -> vid (ts b) = vid (ts b') -> b = b'.
Proof.
  unfold live_adds, live. rewrite !list_elem_of_filter, !Forall_forall.
  intros Hl [[Ha Hk] Hb] [[Ha' Hk'] Hb'] Hid.
  destruct (causal_ordered l b b' Hl Hb Hb' Hid) as [|[Hlt|Hlt]]; [done| |].
  - destruct (Hk b' Hb'); [by rewrite Ha'|done].
  - destruct (Hk' b Hb); [by rewrite Ha|done].
Qed.

(** The add [value] speaks for: the live add of the largest replica id. *)
Definition speaks (l : list op) (b : op) : Prop :=
  b ∈ live_adds l /\ forall b', b' ∈ live_adds l -> vid (ts b') <= vid (ts b).

Lemma reached_value l s :
  ars_reached l s ->
  match value s with
  | None => live_adds l = []
  | Some p => exists b a, speaks l b /\ deref (aset s) p = Ok a /\ entry_for l b a
  end.
Proof.
  intros [Ha Hr [Hnd Hfr Hv]]. destruct (value s) as [p|]; simpl in Hv.
  - destruct Hv as (a & Hin & Hmax). pose proof Hin as [i Hi]%list_elem_of_lookup.
    destruct (Forall2_lookup_r _ _ _ _ _ Ha Hi) as (b & Hb & He). simpl in He.
    exists b, a. split_and!; [|by apply deref_elem|done]. split; [by eapply list_elem_of_lookup_2|].
    intros b' [j Hj]%list_elem_of_lookup.
    destruct (Forall2_lookup_l _ _ _ _ _ Ha Hj) as ([q a'] & Hq & (_ & Ht & _)).
    destruct He as (_ & Hta & _). simpl in Ht. rewrite <- Ht, <- Hta.
    apply (Hmax q). by eapply list_elem_of_lookup_2.
  - rewrite Hv in Ha. by apply Forall2_nil_inv_r in Ha.
Qed.

Lemma speaks_perm l1 l2 b1 b2 :
  causal_seq ts n l1 -> l1 ≡ₚ l2 -> speaks l1 b1 -> speaks l2 b2 -> b1 = b2.
Proof.
  intros Hl Hp [H1 M1] [H2 M2].
  pose proof (live_perm is_add (fun o => is_add o || is_rem o) l1 l2 Hp) as HL.
  fold live_adds in HL. rewrite <- HL in H2.
  apply (live_adds_unique_id l1); [done..|]. apply Z.le_antisymm; [|by apply M1].
  apply M2. by rewrite <- HL.
Qed.

Lemma LOOKUP_spec l s :
  ars_reached l s ->
  LOOKUP s = bool_decide (live_adds l <> []) && bool_decide (live_rems l = []).
Proof.
  intros [Ha Hr _]. unfold LOOKUP. rewrite Hr.
  destruct (aset s) as [|pa m], (live_adds l) as [|b L]; try by inversion Ha.
  by destruct (live_rems l).
Qed.

Lemma LOOKUP_perm l1 l2 s1 s2 :
  l1 ≡ₚ l2 -> ars_reached l1 s1 -> ars_reached l2 s2 -> LOOKUP s1 = LOOKUP s2.
Proof.
  intros Hp H1 H2. rewrite (LOOKUP_spec l1), (LOOKUP_spec l2) by done. f_equal; apply bool_decide_ext.
  - by rewrite (perm_nil_iff _ _ (live_perm is_add (fun o => is_add o || is_rem o) _ _ Hp)).
  - apply perm_nil_iff, live_perm, Hp.
Qed.

(** An add that leaves the element hidden found it hidden; a remove hides it. *)
Section Hidden.
Context (l : list op) (o : op) (Hseq : causal_seq ts n (l ++ [o])).
Context (s : ars A) (Hs : ars_reached l s) (s' : ars A) (Hs' : ars_reached (l ++ [o]) s').

Lemma add_hidden x : kind o = KAdd x -> LOOKUP s' = false -> LOOKUP s = false.
Proof.
  intros Hk. rewrite (LOOKUP_spec _ _ Hs), (LOOKUP_spec _ _ Hs').
  rewrite (live_adds_next l o Hseq), (live_rems_next l o Hseq).
  assert (is_add o = true) as -> by (unfold is_add; by rewrite Hk).
  assert (is_rem o = false) as -> by (unfold is_rem; by rewrite Hk). simpl.
  rewrite app_nil_r, (bool_decide_true (_ ++ [o] <> [])) by (by destruct (filter _ _)).
  simpl. rewrite bool_decide_eq_false. intros Hne.
  rewrite (bool_decide_false (live_rems l = [])), andb_false_r; [done|].
  intros Heq. apply Hne. by rewrite Heq.
Qed.

Lemma rem_hidden : kind o = KRem -> LOOKUP s' = false.
Proof.
  intros Hk. rewrite (LOOKUP_spec _ _ Hs'), (live_rems_next l o Hseq).
  assert (is_rem o = true) as -> by (unfold is_rem; by rewrite Hk).
  rewrite andb_comm, bool_decide_false; [done|]. by intros [_ ?]%app_nil.
Qed.
End Hidden.
End Spec.
