(* ===== verification/RZset.v ===== *)
(** * The remove-win priority queue: t_rzset.c

    An element holds the vector clock [current] of the operations executed on
    it, an add set and a remove set (ARSet.v) and the operations waiting for
    their causal predecessors.  The functions on one element are here; the
    commands that look the element up and mirror it in the sorted set are in
    the command layer. *)

From S2P Require Import Prelude Sds VectorClock Causal Double Exact ARSet.

(** ** Data *)

(** The payload of an [rz_ase]: the value added and the increments that saw it. *)
Record rz_val := mkRzVal { rz_x : double; rz_inc : double }.

Inductive rz_cmd_type := RZADD | RZINCBY | RZREM.
#[export] Instance rz_cmd_type_eq_dec : EqDecision rz_cmd_type.
Proof. solve_decision. Defined.

Record rz_cmd := mkRzCmd { rz_type : rz_cmd_type; rz_value : double; rz_t : vc }.
Definition rz_cmdNew (type : rz_cmd_type) (value : double) (t : vc) : rz_cmd :=
  mkRzCmd type value t.

#[export] Instance rz_cmd_eq_dec : EqDecision rz_cmd.
Proof. solve_decision. Defined.

(** [rze], with the members the three functions touch set apart from the
    buffer [ops] that only the effect and [notifyLoop] touch. *)
Record rze_body := mkBody { rz_current : vc; rz_sets : ars rz_val }.
Record rze := mkRze { rz_body : rze_body; rz_ops : list rz_cmd }.

Definition rzeNew (p2p_count p2p_id : Z) : res rze :=
  c ← _vc_new p2p_count p2p_id; Ok (mkRze (mkBody c ars_new) []).

(** [SCORE(e)], read through the pointer [e->value]. *)
Definition rz_score (s : ars rz_val) : res double :=
  match value s with
  | None => Crash NullDeref
  | Some p => a ← deref (aset s) p; Ok (dadd (rz_x (ase_v a)) (rz_inc (ase_v a)))
  end.

(** ** The three functions on an element *)

Definition addFunc (e : rze_body) (v : double) (t : vc) : res (rze_body * list zact) :=
  s ← ars_add (rz_sets e) (mkRzVal v dzero) t;
  acts ← (if LOOKUP s then sc ← rz_score s; Ok [ZAdd sc] else Ok []);
  Ok (mkBody (vc_update (rz_current e) t) s, acts).

Definition add_inc (v : double) (a : rz_val) : rz_val := mkRzVal (rz_x a) (dadd (rz_inc a) v).

Definition increaseFunc (e : rze_body) (v : double) (t : vc) : res (rze_body * list zact) :=
  let s := ars_upd (rz_sets e) (add_inc v) t in
  acts ← (if LOOKUP s then
            match value s with
            | None => Crash NullDeref
            | Some p =>
                a ← deref (aset s) p;
                if older (ase_t a) t then sc ← rz_score s; Ok [ZAdd sc] else Ok []
            end
          else Ok []);
  Ok (mkBody (vc_update (rz_current e) t) s, acts).

Definition removeFunc (e : rze_body) (t : vc) : res (rze_body * list zact) :=
  s ← ars_rem (rz_sets e) t;
  let acts := if LOOKUP s then [] else [ZDel] in
  Ok (mkBody (vc_update (rz_current e) t) s, acts).

(** The [switch] of [notifyLoop]; the list collects the calls on the sorted set. *)
Definition rz_exec (st : rze_body * list zact) (c : rz_cmd) : res (rze_body * list zact) :=
  let '(e, acts) := st in
  r ← match rz_type c with
      | RZADD => addFunc e (rz_value c) (rz_t c)
      | RZINCBY => increaseFunc e (rz_value c) (rz_t c)
      | RZREM => removeFunc e (rz_t c)
      end;
  let '(e', new) := r in Ok (e', acts ++ new).

Definition st_current (st : rze_body * list zact) : vc := rz_current st.1.

Definition notifyLoop (st : rze_body * list zact) (ops : list rz_cmd)
    : res (rze_body * list zact * list rz_cmd) :=
  notify_loop rz_t st_current rz_exec st ops.

(** The part the effects of the three commands share: run the operation and
    the ones it makes ready, or keep it for later. *)
Definition rz_effect (st : rze * list zact) (c : rz_cmd) : res (rze * list zact) :=
  let '(e, acts) := st in
  b ← vc_causally_ready (rz_current (rz_body e)) (rz_t c);
  if (b : bool) then
    st' ← rz_exec (rz_body e, acts) c;
    r ← notifyLoop st' (rz_ops e);
    let '(body, acts', ops) := r in Ok (mkRze body ops, acts')
  else Ok (mkRze (rz_body e) (rz_ops e ++ [c]), acts).

(** ** The loop over the waiting operations ends *)

Lemma rz_score_ends s : ends (rz_score s).
Proof. unfold rz_score. destruct (value s); [|done]. apply ends_bind; [apply ends_deref|done]. Qed.

Lemma rz_exec_ends st c : ends (rz_exec st c).
Proof.
  assert (forall s, ends (sc ← rz_score s; Ok [ZAdd sc])) as Hsc.
  { intros s. apply ends_bind; [apply rz_score_ends|done]. }
  destruct st as [e acts]. unfold rz_exec. apply ends_bind; [|by intros []]. destruct (rz_type c).
  - apply ends_bind; [apply ends_ars_add|]. intros s. apply ends_bind; [by destruct (LOOKUP s)|done].
  - apply ends_bind; [|done]. destruct (LOOKUP _); [|done]. destruct (value _); [|done].
    apply ends_bind; [apply ends_deref|]. intros a. by destruct (older _ _).
  - apply ends_bind; [apply ends_ars_rem|done].
Qed.

(** C32 (termination): the [do ... while (changed)] loop of [notifyLoop] ends, on
    any element and any waiting operations, well formed or not: its rounds are
    at most one more than the waiting operations, further rounds would change
    nothing, and when it returns, no operation that still waits is ready and
    those that wait are in their old order. *)
Theorem rz_notifyLoop_terminates st ops :
  ends (notifyLoop st ops) /\
  (forall more, notify_rounds rz_t st_current rz_exec (S (length ops) + more) st ops = notifyLoop st ops) /\
  forall st' ops', notifyLoop st ops = Ok (st', ops') ->
    take_ready rz_t (st_current st') ops' = Ok None /\ ops' `sublist_of` ops.
Proof.
  pose proof (notify_rounds_ends rz_t st_current rz_exec rz_exec_ends ops) as H. split_and!.
  - apply (H (S (length ops)) st). lia.
  - intros more. apply (H (S (length ops) + more)%nat st). lia.
  - apply (H (S (length ops)) st). lia.
Qed.

(** ** The element as an instance of causal delivery *)

Definition rz_kind (c : rz_cmd) : akind :=
  match rz_type c with
  | RZADD => KAdd (mkRzVal (rz_value c) dzero)
  | RZINCBY => KUpd (add_inc (rz_value c))
  | RZREM => KRem
  end.

(** What holds of an element that executed [l] in causal order from a fresh
    one: its sets, its clock, and the score the sorted set was left with. *)
Record rz_reached (n : nat) (l : list rz_cmd) (st : rze_body * list zact) : Prop := {
  rr_sets : ars_reached rz_t rz_kind l (rz_sets st.1);
  rr_vec : vector (rz_current st.1) = join rz_t n l;
  rr_id : 0 <= vid (rz_current st.1) < Z.of_nat n;
  rr_mirror : if LOOKUP (rz_sets st.1)
              then exists sc, rz_score (rz_sets st.1) = Ok sc /\ mirrors (zmirror None st.2) true sc
              else zmirror None st.2 = None
}.

Lemma deref_upd (f : rz_val -> rz_val) t m p :
  deref (upd_entry f t <$> m) p =
    (a ← deref m p; Ok (if older (ase_t a) t then mkAse (ase_t a) (f (ase_v a)) else a)).
Proof. induction m as [|[q b] m IH]; simpl; [done|]. by case_decide. Qed.

(** A visible element has a value to read. *)
Lemma visible_value l s :
  ars_reached rz_t rz_kind l s -> LOOKUP s = true ->
  exists p a, value s = Some p /\ deref (aset s) p = Ok a /\
    rz_score s = Ok (dadd (rz_x (ase_v a)) (rz_inc (ase_v a))).
Proof.
  intros Hs Hl. pose proof (reached_value _ _ _ _ Hs) as Hv.
  rewrite (LOOKUP_spec _ _ _ _ Hs) in Hl. apply andb_prop in Hl as [Hl _].
  apply bool_decide_eq_true in Hl. unfold rz_score.
  destruct (value s) as [p|]; [|done]. destruct Hv as (b & a & _ & Ha & _).
  exists p, a. rewrite Ha. done.
Qed.

Lemma rz_exec_step n l st c :
  rz_reached n l st -> causal_seq rz_t n (l ++ [c]) ->
  exists st', rz_exec st c = Ok st' /\ rz_reached n (l ++ [c]) st'.
Proof.
  destruct st as [e acts]. intros [Hs Hv Hid Hm] Hseq. simpl in *.
  destruct (exec_step rz_t rz_kind n l c Hseq _ Hs) as (s' & Hexec & Hs').
  assert (wf_vc n (rz_t c)) as Hwf by apply (seq_parts rz_t n l c Hseq).
  assert (vector (vc_update (rz_current e) (rz_t c)) = join rz_t n (l ++ [c]) /\
          vid (vc_update (rz_current e) (rz_t c)) = vid (rz_current e)) as [Hv' Hid'].
  { rewrite vc_update_vector; simpl.
    - by rewrite join_snoc, Hv.
    - rewrite Hv, join_length. symmetry. apply (wf_size _ _ Hwf). }
  rewrite <- Hid' in Hid. unfold ars_exec, rz_kind in Hexec.
  destruct (rz_type c) eqn:Ht; simpl in Hexec.
  - unfold addFunc. rewrite Hexec. simpl.
    assert (rz_kind c = KAdd (mkRzVal (rz_value c) dzero)) as Hk by (unfold rz_kind; by rewrite Ht).
    destruct (LOOKUP s') eqn:HL; simpl.
    + destruct (visible_value _ _ Hs' HL) as (p & a & _ & _ & Hsc). rewrite Hsc. simpl.
      eexists. split; [done|]. split; simpl; [done..|]. rewrite HL. eexists. split; [done|].
      unfold zmirror. rewrite foldl_app. apply mirrors_add.
    + eexists. split; [done|]. split; simpl; [done..|]. rewrite HL, app_nil_r.
      by rewrite (add_hidden rz_t rz_kind n l c Hseq _ Hs _ Hs' _ Hk HL) in Hm.
  - injection Hexec as Hexec. unfold increaseFunc. cbn zeta. rewrite LOOKUP_upd.
    destruct (LOOKUP (rz_sets e)) eqn:HL; simpl.
    + destruct (visible_value _ _ Hs HL) as (p & a & Hp & Ha & Hsc). rewrite Hp, deref_upd, Ha. simpl.
      destruct (older (ase_t a) (rz_t c)) eqn:Ho; simpl.
      * unfold rz_score at 1. simpl. rewrite Hp, deref_upd, Ha. simpl. rewrite Ho.
        eexists. split; [done|]. split; simpl; [by rewrite Hexec|done..|].
        rewrite LOOKUP_upd, HL. unfold rz_score. simpl. rewrite Hp, deref_upd, Ha. simpl. rewrite Ho.
        eexists. split; [done|]. unfold zmirror. rewrite foldl_app. apply mirrors_add.
      * rewrite Ho. simpl. eexists. split; [done|]. split; simpl; [by rewrite Hexec|done..|].
        rewrite LOOKUP_upd, HL, app_nil_r. destruct Hm as (sc & Hsc' & Hm). exists sc.
        split; [|done]. unfold rz_score in *. simpl. rewrite Hp, deref_upd in *. rewrite Ha in *.
        simpl in *. by rewrite Ho.
    + eexists. split; [done|]. split; simpl; [by rewrite Hexec|done..|].
      by rewrite LOOKUP_upd, HL, app_nil_r.
  - unfold removeFunc. rewrite Hexec. simpl.
    assert (rz_kind c = KRem) as Hk by (unfold rz_kind; by rewrite Ht).
    pose proof (rem_hidden rz_t rz_kind n l c Hseq _ Hs' Hk) as HL. rewrite HL.
    eexists. split; [done|]. split; simpl; [done..|]. rewrite HL.
    unfold zmirror. by rewrite foldl_app.
Qed.

#[export] Instance rz_causal n : CausalExec rz_t st_current rz_exec n (rz_reached n).
Proof.
  split.
  - intros l st [Hs Hv Hid Hm]. done.
  - intros l st c. apply rz_exec_step.
Qed.

Lemma rz_effect_deliver e acts c :
  rz_effect (e, acts) c =
    (r ← deliver rz_t st_current rz_exec ((rz_body e, acts), rz_ops e) c;
     let '(body, acts', ops) := r in Ok (mkRze body ops, acts')).
Proof.
  unfold rz_effect, deliver, notifyLoop, st_current at 2. cbn [fst].
  destruct (vc_causally_ready _ _) as [[]|]; cbn [mbind res_bind]; [|done..].
  by destruct (rz_exec (rz_body e, acts) c).
Qed.

Lemma rz_effects_deliver l e acts :
  foldM rz_effect (e, acts) l =
    (r ← foldM (deliver rz_t st_current rz_exec) ((rz_body e, acts), rz_ops e) l;
     let '(body, acts', ops) := r in Ok (mkRze body ops, acts')).
Proof.
  revert e acts. induction l as [|c l IH]; intros e acts; [by destruct e|].
  cbn [foldM]. rewrite rz_effect_deliver.
  destruct (deliver _ _ _ _ _) as [[[body acts'] ops]|]; simpl; [|done].
  by rewrite IH.
Qed.

Lemma rzeNew_reached (n : nat) id :
  0 <= id < Z.of_nat n ->
  exists e, rzeNew (Z.of_nat n) id = Ok e /\ rz_ops e = [] /\ rz_reached n [] (rz_body e, []).
Proof.
  intros Hid. unfold rzeNew, _vc_new. rewrite (proj2 (Z.ltb_ge _ _)) by lia. simpl.
  eexists. split; [done|]. split; [done|]. split; simpl; [apply ars_reached_new| |done|done].
  by rewrite Nat2Z.id.
Qed.

(** Everything delivered, from a fresh element. *)
Lemma rz_run (n : nat) id hist l :
  0 <= id < Z.of_nat n -> valid_history rz_t n hist -> l ≡ₚ hist ->
  exists body acts x,
    (e ← rzeNew (Z.of_nat n) id; foldM rz_effect (e, []) l) = Ok (mkRze body [], acts) /\
    causal_seq rz_t n x /\ x ≡ₚ hist /\ rz_reached n x (body, acts).
Proof.
  intros Hid Hh Hp. destruct (rzeNew_reached n id Hid) as (e & -> & Hops & H0).
  destruct (deliver_all rz_t st_current rz_exec hist Hh (rz_body e, []) l H0 Hp)
    as ([body acts] & x & Hrun & Hx & Hpx & Hr).
  exists body, acts, x. split_and!; [|done..]. simpl. rewrite rz_effects_deliver, Hops, Hrun. done.
Qed.

(** ** What an element shows *)

(** The increments that saw the add [b]. *)
Definition seen_by (b : rz_cmd) (c : rz_cmd) : option double :=
  match rz_type c with
  | RZINCBY => if decide (before rz_t b c) then Some (rz_value c) else None
  | _ => None
  end.
Definition seen (l : list rz_cmd) (b : rz_cmd) : list double := omap (seen_by b) l.

Lemma rz_payload l b v :
  payload rz_t rz_kind l b = Some v ->
  rz_x v = rz_value b /\ rz_inc v = foldl dadd dzero (seen l b).
Proof.
  unfold payload. destruct (rz_kind b) as [x| |] eqn:Hk; [|done..]. intros [= <-].
  assert (x = mkRzVal (rz_value b) dzero) as -> by (unfold rz_kind in Hk; destruct (rz_type b); congruence).
  clear Hk. induction l as [|c l IH] using rev_ind; [done|].
  unfold seen. rewrite foldl_app, omap_app, foldl_app. fold (seen l b).
  destruct IH as [IHx IHi]. rewrite <- IHi. simpl.
  generalize dependent (foldl (upd_step rz_t rz_kind b) (mkRzVal (rz_value b) dzero) l).
  intros v IHx IHi. unfold upd_step, rz_kind, seen_by.
  destruct (rz_type c); simpl; [done| |done]. by case_decide.
Qed.

(** The element is visible when some add is not superseded by an add or remove
    after it, and every remove has an add after it. *)
Definition rz_visible (hist : list rz_cmd) : Prop :=
  (exists a, a ∈ hist /\ rz_type a = RZADD /\
     forall c, c ∈ hist -> rz_type c <> RZINCBY -> ~ before rz_t a c) /\
  (forall r, r ∈ hist -> rz_type r = RZREM ->
     exists a, a ∈ hist /\ rz_type a = RZADD /\ before rz_t r a).

Lemma rz_visible_spec l s :
  ars_reached rz_t rz_kind l s -> LOOKUP s = true <-> rz_visible l.
Proof.
  intros Hs. rewrite (LOOKUP_spec _ _ _ _ Hs), andb_true_iff, !bool_decide_eq_true.
  assert (forall c, is_add rz_kind c = true <-> rz_type c = RZADD) as Hadd
    by (intros c; unfold is_add, rz_kind; by destruct (rz_type c)).
  assert (forall c, is_rem rz_kind c = true <-> rz_type c = RZREM) as Hrem
    by (intros c; unfold is_rem, rz_kind; by destruct (rz_type c)).
  unfold rz_visible, live_adds, live_rems, live. apply and_iff_both.
  - split.
    + intros Hne. destruct (filter _ l) as [|a L] eqn:Hf; [done|].
      assert (a ∈ a :: L) as Ha by (by left). rewrite <- Hf in Ha.
      apply list_elem_of_filter in Ha as [[Ha HF] Hin]. exists a. rewrite Forall_forall in HF.
      split_and!; [done|by apply Hadd|]. intros c Hc Ht. apply HF; [done|].
      apply orb_true_iff. rewrite Hadd, Hrem. destruct (rz_type c); tauto.
    + intros (a & Ha & Ht & HF) Hnil. apply (elem_of_nil a). rewrite <- Hnil.
      apply list_elem_of_filter. split; [|done]. split; [by apply Hadd|]. apply Forall_forall.
      intros c Hc Hk. apply HF; [done|]. apply orb_true_iff in Hk. rewrite Hadd, Hrem in Hk.
      destruct Hk as [->| ->]; done.
  - split.
    + intros Hnil r Hr Ht. destruct (decide (Exists (fun a => is_add rz_kind a = true /\ before rz_t r a) l))
        as [HE|HE].
      * apply Exists_exists in HE as (a & Ha & Hadda & Hlt). exists a. by rewrite <- Hadd.
      * exfalso. apply (elem_of_nil r). rewrite <- Hnil. apply list_elem_of_filter. split; [|done].
        split; [by apply Hrem|]. apply Forall_forall. intros a Ha Hk Hlt.
        apply HE, Exists_exists. eauto.
    + intros H. apply filter_none. intros r Hr [Ht HF]. apply Hrem in Ht.
      destruct (H r Hr Ht) as (a & Ha & Hta & Hlt). rewrite Forall_forall in HF.
      apply (HF a Ha); [by apply Hadd|done].
Qed.


(** All the increments of a history. *)
Definition incr_value (c : rz_cmd) : option double :=
  match rz_type c with RZINCBY => Some (rz_value c) | _ => None end.
Definition incr_values (l : list rz_cmd) : list double := omap incr_value l.

Lemma seen_incr_values l b : seen l b `sublist_of` incr_values l.
Proof.
  unfold seen, incr_values, seen_by, incr_value. induction l as [|c l IH]; simpl; [constructor|].
  destruct (rz_type c); [done| |done].
  case_decide; simpl; by constructor.
Qed.

Lemma rz_visible_perm l1 l2 : l1 ≡ₚ l2 -> rz_visible l1 <-> rz_visible l2.
Proof. intros Hp. unfold rz_visible. by setoid_rewrite Hp. Qed.

(** The scores of two executions of one history. *)
Lemma scores_agree n x1 x2 s1 s2 :
  causal_seq rz_t n x1 -> causal_seq rz_t n x2 -> x1 ≡ₚ x2 ->
  ars_reached rz_t rz_kind x1 s1 -> ars_reached rz_t rz_kind x2 s2 -> LOOKUP s1 = true ->
  exists b i1 i2, i1 ≡ₚ i2 /\ b ∈ x1 /\ rz_type b = RZADD /\ i1 `sublist_of` incr_values x1 /\
    rz_score s1 = Ok (dadd (rz_value b) (foldl dadd dzero i1)) /\
    rz_score s2 = Ok (dadd (rz_value b) (foldl dadd dzero i2)).
Proof.
  intros Hx1 Hx2 Hp H1 H2 HL1. pose proof HL1 as HL2.
  rewrite (LOOKUP_perm rz_t rz_kind x1 x2 s1 s2) in HL2 by done.
  destruct (visible_value _ _ H1 HL1) as (p1 & a1 & Hv1 & Ha1 & ->).
  destruct (visible_value _ _ H2 HL2) as (p2 & a2 & Hv2 & Ha2 & ->).
  pose proof (reached_value _ _ _ _ H1) as HV1. pose proof (reached_value _ _ _ _ H2) as HV2.
  rewrite Hv1 in HV1. rewrite Hv2 in HV2.
  destruct HV1 as (c1 & a1' & Hc1 & Ha1' & He1), HV2 as (c2 & a2' & Hc2 & Ha2' & He2).
  assert (a1' = a1) as -> by congruence. assert (a2' = a2) as -> by congruence.
  assert (c1 = c2) as <- by (by eapply (speaks_perm rz_t rz_kind n x1 x2)).
  destruct He1 as (Hin & _ & He1), He2 as (_ & _ & He2).
  apply rz_payload in He1 as [-> ->], He2 as [-> ->].
  exists c1, (seen x1 c1), (seen x2 c1). split_and!; [|done| |apply seen_incr_values|done..].
  - unfold seen. by rewrite Hp.
  - destruct Hc1 as [Hl _]. unfold live_adds, live in Hl.
    apply list_elem_of_filter in Hl as [[Hl _] _].
    unfold is_add, rz_kind in Hl. by destruct (rz_type c1).
Qed.

(** ** Properties *)

(** Causal delivery: when a replica has received all operations issued on
    an element, in whatever order they arrived, it has executed all of them,
    each one after the operations it causally depends on; nothing is left in
    the buffer and the element's clock is the join of all timestamps. *)
Theorem rz_delivery_complete (n : nat) id hist l :
  0 <= id < Z.of_nat n -> valid_history rz_t n hist -> l ≡ₚ hist ->
  exists body acts x,
    (e ← rzeNew (Z.of_nat n) id; foldM rz_effect (e, []) l) = Ok (mkRze body [], acts) /\
    x ≡ₚ hist /\ vector (rz_current body) = join rz_t n hist /\
    forall i j a b, x !! i = Some a -> x !! j = Some b -> before rz_t a b -> (i < j)%nat.
Proof.
  intros Hid Hh Hp. destruct (rz_run n id hist l Hid Hh Hp) as (body & acts & x & Hrun & Hx & Hpx & Hr).
  exists body, acts, x. split_and!; [done..| |by apply (causal_seq_sorted rz_t n)].
  pose proof (rr_vec _ _ _ Hr) as Hv. simpl in Hv. rewrite Hv.
  apply join_perm; [by eapply causal_seq_wf|done].
Qed.

(** A history of two replicas: replica 0 adds, both increment concurrently,
    replica 1 removes and replica 0 adds again after the remove. *)
Definition rz_example : list rz_cmd :=
  [mkRzCmd RZADD (double_of_Z 5) (mkVc [1; 0] 0);
   mkRzCmd RZINCBY (double_of_Z 2) (mkVc [2; 0] 0);
   mkRzCmd RZINCBY (double_of_Z 3) (mkVc [1; 1] 1);
   mkRzCmd RZREM dzero (mkVc [2; 2] 1);
   mkRzCmd RZADD (double_of_Z 7) (mkVc [3; 2] 0);
   mkRzCmd RZINCBY (double_of_Z 1) (mkVc [3; 3] 1)].

Lemma rz_example_valid : valid_history rz_t 2 rz_example.
Proof. apply history_ok_valid, (bool_decide_unpack _). vm_compute. exact I. Qed.

Lemma rz_delivery_complete_witness :
  exists body acts x,
    (e ← rzeNew 2 0; foldM rz_effect (e, []) (reverse rz_example)) = Ok (mkRze body [], acts) /\
    x ≡ₚ rz_example /\ vector (rz_current body) = join rz_t 2 rz_example /\
    forall i j a b, x !! i = Some a -> x !! j = Some b -> before rz_t a b -> (i < j)%nat.
Proof.
  apply (rz_delivery_complete 2 0 rz_example (reverse rz_example)); [lia|apply rz_example_valid|].
  apply reverse_Permutation.
Defined.

(** After all operations have been received, in
    whatever order, the element is visible exactly when some add is not
    superseded by a later add or remove and every remove has an add after it. *)
Theorem rz_remove_wins (n : nat) id hist l :
  0 <= id < Z.of_nat n -> valid_history rz_t n hist -> l ≡ₚ hist ->
  exists body acts,
    (e ← rzeNew (Z.of_nat n) id; foldM rz_effect (e, []) l) = Ok (mkRze body [], acts) /\
    (LOOKUP (rz_sets body) = true <-> rz_visible hist).
Proof.
  intros Hid Hh Hp. destruct (rz_run n id hist l Hid Hh Hp) as (body & acts & x & Hrun & Hx & Hpx & Hr).
  exists body, acts. split; [done|]. rewrite (rz_visible_spec x) by apply (rr_sets _ _ _ Hr).
  by apply rz_visible_perm.
Qed.

Lemma rz_remove_wins_witness :
  exists body acts,
    (e ← rzeNew 2 0; foldM rz_effect (e, []) (reverse rz_example)) = Ok (mkRze body [], acts) /\
    (LOOKUP (rz_sets body) = true <-> rz_visible rz_example).
Proof.
  apply (rz_remove_wins 2 0 rz_example (reverse rz_example)); [lia|apply rz_example_valid|].
  apply reverse_Permutation.
Defined.

(** Convergence: two replicas that received all the operations, in any two
    orders, agree on whether the element is visible; where it is, both scores
    are the same added value plus a sum of the same increments, each replica
    summing in its own order of execution. *)
Theorem rz_converges (n : nat) id1 id2 hist l1 l2 :
  0 <= id1 < Z.of_nat n -> 0 <= id2 < Z.of_nat n ->
  valid_history rz_t n hist -> l1 ≡ₚ hist -> l2 ≡ₚ hist ->
  exists b1 a1 b2 a2,
    (e ← rzeNew (Z.of_nat n) id1; foldM rz_effect (e, []) l1) = Ok (mkRze b1 [], a1) /\
    (e ← rzeNew (Z.of_nat n) id2; foldM rz_effect (e, []) l2) = Ok (mkRze b2 [], a2) /\
    LOOKUP (rz_sets b1) = LOOKUP (rz_sets b2) /\
    (LOOKUP (rz_sets b1) = true -> exists v s1 s2, s1 ≡ₚ s2 /\
       rz_score (rz_sets b1) = Ok (dadd v (foldl dadd dzero s1)) /\
       rz_score (rz_sets b2) = Ok (dadd v (foldl dadd dzero s2))).
Proof.
  intros Hi1 Hi2 Hh Hp1 Hp2.
  destruct (rz_run n id1 hist l1 Hi1 Hh Hp1) as (b1 & a1 & x1 & Hrun1 & Hx1 & Hpx1 & Hr1).
  destruct (rz_run n id2 hist l2 Hi2 Hh Hp2) as (b2 & a2 & x2 & Hrun2 & Hx2 & Hpx2 & Hr2).
  exists b1, a1, b2, a2. split_and!; [done..| |].
  - apply (LOOKUP_perm rz_t rz_kind x1 x2); [by rewrite Hpx1|apply (rr_sets _ _ _ Hr1)|apply (rr_sets _ _ _ Hr2)].
  - intros HL. destruct (scores_agree n x1 x2 (rz_sets b1) (rz_sets b2)) as (b & i1 & i2 & Hp & _ & _ & _ & ?);
      [done|done|by rewrite Hpx1|apply (rr_sets _ _ _ Hr1)|apply (rr_sets _ _ _ Hr2)|done|].
    by exists (rz_value b), i1, i2.
Qed.

Lemma rz_converges_witness :
  exists b1 a1 b2 a2,
    (e ← rzeNew 2 0; foldM rz_effect (e, []) rz_example) = Ok (mkRze b1 [], a1) /\
    (e ← rzeNew 2 1; foldM rz_effect (e, []) (reverse rz_example)) = Ok (mkRze b2 [], a2) /\
    LOOKUP (rz_sets b1) = LOOKUP (rz_sets b2) /\
    (LOOKUP (rz_sets b1) = true -> exists v s1 s2, s1 ≡ₚ s2 /\
       rz_score (rz_sets b1) = Ok (dadd v (foldl dadd dzero s1)) /\
       rz_score (rz_sets b2) = Ok (dadd v (foldl dadd dzero s2))).
Proof.
  apply (rz_converges 2 0 1 rz_example rz_example (reverse rz_example));
    [lia|lia|apply rz_example_valid|done|apply reverse_Permutation].
Defined.

(** Mirror: at every point of a run, also while operations are missing,
    the calls made on the sorted set leave it with the element's score exactly
    when the element is visible, and without the element when it is not. *)
Theorem rz_sorted_set_mirrors (n : nat) id hist l :
  0 <= id < Z.of_nat n -> valid_history rz_t n hist -> l ⊆ hist ->
  exists e acts,
    (e ← rzeNew (Z.of_nat n) id; foldM rz_effect (e, []) l) = Ok (e, acts) /\
    let s := rz_sets (rz_body e) in
    if LOOKUP s then exists sc, rz_score s = Ok sc /\ mirrors (zmirror None acts) true sc
    else zmirror None acts = None.
Proof.
  intros Hid Hh Hsub. destruct (rzeNew_reached n id Hid) as (e & -> & Hops & H0).
  destruct (deliver_run rz_t st_current rz_exec hist Hh (rz_body e, []) l H0 Hsub)
    as ([[body acts] ops] & Hrun & (x & Hx & Hr & _)).
  exists (mkRze body ops), acts. simpl. rewrite rz_effects_deliver, Hops, Hrun. simpl.
  split; [done|]. apply (rr_mirror _ _ _ Hr).
Qed.

Lemma rz_sorted_set_mirrors_witness :
  exists e acts,
    (e ← rzeNew 2 0; foldM rz_effect (e, []) (take 4 (reverse rz_example))) = Ok (e, acts) /\
    let s := rz_sets (rz_body e) in
    if LOOKUP s then exists sc, rz_score s = Ok sc /\ mirrors (zmirror None acts) true sc
    else zmirror None acts = None.
Proof.
  apply (rz_sorted_set_mirrors 2 0 rz_example (take 4 (reverse rz_example)));
    [lia|apply rz_example_valid|].
  intros c Hc. apply elem_of_take in Hc as (i & Hc & _).
  apply list_elem_of_lookup_2 in Hc. by rewrite reverse_Permutation in Hc.
Defined.

(** When the values added and the increments are
    integers whose magnitudes add up to less than 2^53, all replicas that
    received the history hold the same score, bit for bit. *)
Theorem rz_integer_scores_converge (n : nat) id1 id2 hist l1 l2 :
  0 <= id1 < Z.of_nat n -> 0 <= id2 < Z.of_nat n ->
  valid_history rz_t n hist -> l1 ≡ₚ hist -> l2 ≡ₚ hist ->
  (forall a, a ∈ hist -> rz_type a = RZADD -> small_ints (rz_value a :: incr_values hist)) ->
  exists b1 a1 b2 a2,
    (e ← rzeNew (Z.of_nat n) id1; foldM rz_effect (e, []) l1) = Ok (mkRze b1 [], a1) /\
    (e ← rzeNew (Z.of_nat n) id2; foldM rz_effect (e, []) l2) = Ok (mkRze b2 [], a2) /\
    LOOKUP (rz_sets b1) = LOOKUP (rz_sets b2) /\
    (LOOKUP (rz_sets b1) = true ->
     exists sc, rz_score (rz_sets b1) = Ok sc /\ rz_score (rz_sets b2) = Ok sc).
Proof.
  intros Hi1 Hi2 Hh Hp1 Hp2 Hint.
  destruct (rz_run n id1 hist l1 Hi1 Hh Hp1) as (b1 & a1 & x1 & Hrun1 & Hx1 & Hpx1 & Hr1).
  destruct (rz_run n id2 hist l2 Hi2 Hh Hp2) as (b2 & a2 & x2 & Hrun2 & Hx2 & Hpx2 & Hr2).
  exists b1, a1, b2, a2. split_and!; [done..| |].
  - apply (LOOKUP_perm rz_t rz_kind x1 x2); [by rewrite Hpx1|apply (rr_sets _ _ _ Hr1)|apply (rr_sets _ _ _ Hr2)].
  - intros HL. destruct (scores_agree n x1 x2 (rz_sets b1) (rz_sets b2))
      as (b & i1 & i2 & Hp & Hb & Ht & Hsub & -> & ->);
      [done|done|by rewrite Hpx1|apply (rr_sets _ _ _ Hr1)|apply (rr_sets _ _ _ Hr2)|done|].
    eexists. split; [done|]. f_equal. symmetry. apply small_ints_sum_perm; [|done].
    eapply small_ints_sub; [|exact Hsub]. eapply small_ints_perm.
    + apply Hint; [by rewrite <- Hpx1|done].
    + unfold incr_values. by rewrite Hpx1.
Qed.

Lemma rz_integer_scores_converge_witness :
  exists b1 a1 b2 a2,
    (e ← rzeNew 2 0; foldM rz_effect (e, []) rz_example) = Ok (mkRze b1 [], a1) /\
    (e ← rzeNew 2 1; foldM rz_effect (e, []) (reverse rz_example)) = Ok (mkRze b2 [], a2) /\
    LOOKUP (rz_sets b1) = LOOKUP (rz_sets b2) /\
    (LOOKUP (rz_sets b1) = true ->
     exists sc, rz_score (rz_sets b1) = Ok sc /\ rz_score (rz_sets b2) = Ok sc).
Proof.
  apply (rz_integer_scores_converge 2 0 1 rz_example rz_example (reverse rz_example));
    [lia|lia|apply rz_example_valid|done|apply reverse_Permutation|].
  intros a Ha Ht. repeat (apply elem_of_cons in Ha as [->|Ha]); try done;
    [exists [5; 2; 3; 1]|exists [7; 2; 3; 1]|]; [vm_compute; done..|by apply elem_of_nil in Ha].
Defined.
