(* ===== verification/OZset.v ===== *)
(** * The add-win priority queue: t_ozset.c

    An element is a set of tagged adds [aset] and the tags removed so far
    [rset].  [innate] points at the add with the largest tag, [acquired] at the
    add whose increments weigh most.  The functions on one element are here;
    the commands are in the command layer. *)

From S2P Require Import Prelude Sds LamportClock Double Exact.

(** ** Data *)

(** [oz_ase].  [add_ase] allocates an entry without writing its [x]: [None] is
    an [x] that was never written. *)
Record oz_ase := mkOzAse {
  oz_t : lc;
  oz_x : option double;
  oz_inc : double;
  oz_count : double
}.

(** Entries are heap objects; [oz_innate] and [oz_acquired] are addresses and
    [oz_fresh] is the next one. *)
Record oze := mkOze {
  oz_current : Z;
  oz_innate : option nat;
  oz_acquired : option nat;
  oz_aset : list (nat * oz_ase);
  oz_rset : list lc;
  oz_fresh : nat
}.

Definition ozeNew : oze := mkOze 0 None None [] [] 0.

Definition LOOKUP (e : oze) : bool := match oz_aset e with [] => false | _ => true end.

(** [SCORE(e)]: a null [innate] or [acquired] counts as zero. *)
Definition SCORE (e : oze) : res double :=
  x ← match oz_innate e with
      | None => Ok dzero
      | Some p => a ← deref (oz_aset e) p; of_option Uninitialised (oz_x a)
      end;
  i ← match oz_acquired e with
      | None => Ok dzero
      | Some p => a ← deref (oz_aset e) p; Ok (oz_inc a)
      end;
  Ok (dadd x i).

(** ** The functions on an element *)

Definition same_tag (t u : lc) : bool := lc_cmp_as_tag t u =? 0.

(** [asetGet(e, t, 0)]: the entry with the tag [t]. *)
Fixpoint asetGet (m : list (nat * oz_ase)) (t : lc) : option (nat * oz_ase) :=
  match m with
  | [] => None
  | (p, a) :: m' => if same_tag t (oz_t a) then Some (p, a) else asetGet m' t
  end.

(** [asetGet(e, t, 1)] also takes the entry out of the list. *)
Fixpoint aset_del (m : list (nat * oz_ase)) (t : lc) : list (nat * oz_ase) :=
  match m with
  | [] => []
  | (p, a) :: m' => if same_tag t (oz_t a) then m' else (p, a) :: aset_del m' t
  end.

(** [rsetGet(e, t, 0) != NULL] *)
Definition rsetGet (r : list lc) (t : lc) : bool := existsb (fun a => same_tag t a) r.

Definition add_ase (e : oze) (t : lc) : oze * (nat * oz_ase) :=
  let a := mkOzAse (lc_dup t) None dzero dzero in
  (mkOze (oz_current e) (oz_innate e) (oz_acquired e) (oz_aset e ++ [(oz_fresh e, a)])
     (oz_rset e) (S (oz_fresh e)), (oz_fresh e, a)).

(** A write through a pointer to an entry. *)
Definition write_ase (m : list (nat * oz_ase)) (p : nat) (a : oz_ase) : list (nat * oz_ase) :=
  (fun qb : nat * oz_ase => if decide (qb.1 = p) then (p, a) else qb) <$> m.
Definition set_aset (e : oze) (m : list (nat * oz_ase)) : oze :=
  mkOze (oz_current e) (oz_innate e) (oz_acquired e) m (oz_rset e) (oz_fresh e).
Definition set_innate (e : oze) (p : option nat) : oze :=
  mkOze (oz_current e) p (oz_acquired e) (oz_aset e) (oz_rset e) (oz_fresh e).
Definition set_acquired (e : oze) (p : option nat) : oze :=
  mkOze (oz_current e) (oz_innate e) p (oz_aset e) (oz_rset e) (oz_fresh e).

Definition get_or_add (e : oze) (t : lc) : oze * (nat * oz_ase) :=
  match asetGet (oz_aset e) t with Some pa => (e, pa) | None => add_ase e t end.

(** [e->innate == NULL || lc_cmp_as_tag(e->innate->t, a->t) < 0] *)
Definition innate_below (e : oze) (a : oz_ase) : res bool :=
  match oz_innate e with
  | None => Ok true
  | Some q => b ← deref (oz_aset e) q; Ok (lc_cmp_as_tag (oz_t b) (oz_t a) <? 0)
  end.

(** [e->acquired == NULL || ...->count < a->count || (... == ... && tag <)] *)
Definition acquired_below (e : oze) (a : oz_ase) : res bool :=
  match oz_acquired e with
  | None => Ok true
  | Some q =>
      b ← deref (oz_aset e) q;
      Ok (dlt (oz_count b) (oz_count a)
          || (deq (oz_count b) (oz_count a) && (lc_cmp_as_tag (oz_t b) (oz_t a) <? 0)))
  end.

Definition update_innate_value (e : oze) (t : lc) (v : double) : res (oze * bool) :=
  if rsetGet (oz_rset e) t then Ok (e, false)
  else
    let '(e, (p, a)) := get_or_add e t in
    let a := mkOzAse (oz_t a) (Some v) (oz_inc a) (oz_count a) in
    let e := set_aset e (write_ase (oz_aset e) p a) in
    b ← innate_below e a;
    Ok (if (b : bool) then (set_innate e (Some p), true) else (e, false)).

Definition abs_value (v : double) : double := if dlt dzero v then v else dopp v.

Definition update_acquired_value (e : oze) (t : lc) (v : double) : res (oze * bool) :=
  if rsetGet (oz_rset e) t then Ok (e, false)
  else
    let '(e, (p, a)) := get_or_add e t in
    let a := mkOzAse (oz_t a) (oz_x a) (dadd (oz_inc a) v) (dadd (oz_count a) (abs_value v)) in
    let e := set_aset e (write_ase (oz_aset e) p a) in
    if decide (oz_acquired e = Some p) then Ok (e, true)
    else
      b ← acquired_below e a;
      Ok (if (b : bool) then (set_acquired e (Some p), true) else (e, false)).

Definition remove_tag (e : oze) (t : lc) : oze :=
  if rsetGet (oz_rset e) t then e
  else
    let r := oz_rset e ++ [lc_dup t] in
    match asetGet (oz_aset e) t with
    | None => mkOze (oz_current e) (oz_innate e) (oz_acquired e) (oz_aset e) r (oz_fresh e)
    | Some (p, _) =>
        mkOze (oz_current e)
          (if decide (oz_innate e = Some p) then None else oz_innate e)
          (if decide (oz_acquired e = Some p) then None else oz_acquired e)
          (aset_del (oz_aset e) t) r (oz_fresh e)
    end.

(** The loop of [resort]. *)
Definition resort_step (e : oze) (pa : nat * oz_ase) : res oze :=
  let '(p, a) := pa in
  b ← innate_below e a;
  let e := if (b : bool) then set_innate e (Some p) else e in
  b ← acquired_below e a;
  Ok (if (b : bool) then set_acquired e (Some p) else e).
Definition resort (e : oze) : res oze :=
  match oz_innate e, oz_acquired e with
  | Some _, Some _ => Ok e
  | _, _ => foldM resort_step e (oz_aset e)
  end.

(** ** The effects of the three commands *)

Definition ozadd_effect (e : oze) (t : lc) (v : double) : res (oze * list zact) :=
  r ← update_innate_value e t v;
  let '(e, changed) := r in
  if (changed : bool) then sc ← SCORE e; Ok (e, [ZAdd sc]) else Ok (e, []).

Definition incr_step (v : double) (st : oze * bool) (t : lc) : res (oze * bool) :=
  let '(e, changed) := st in
  r ← update_acquired_value e t v;
  let '(e, b) := r in Ok (e, changed || b).
Definition ozincrby_effect (e : oze) (ts : list lc) (v : double) : res (oze * list zact) :=
  r ← foldM (incr_step v) (e, false) ts;
  let '(e, changed) := r in
  if (changed : bool) then sc ← SCORE e; Ok (e, [ZAdd sc]) else Ok (e, []).

Definition ozrem_effect (e : oze) (ts : list lc) : res (oze * list zact) :=
  let e := foldl remove_tag e ts in
  match oz_innate e, oz_acquired e with
  | Some _, Some _ => Ok (e, [])
  | _, _ =>
      e ← resort e;
      if LOOKUP e then sc ← SCORE e; Ok (e, [ZAdd sc]) else Ok (e, [ZDel])
  end.

Inductive oz_op :=
  | OzAdd (t : lc) (v : double)
  | OzIncr (ts : list lc) (v : double)
  | OzRem (ts : list lc).

#[export] Instance oz_op_eq_dec : EqDecision oz_op.
Proof. solve_decision. Defined.

Definition oz_effect (st : oze * list zact) (o : oz_op) : res (oze * list zact) :=
  let '(e, acts) := st in
  r ← match o with
      | OzAdd t v => ozadd_effect e t v
      | OzIncr ts v => ozincrby_effect e ts v
      | OzRem ts => ozrem_effect e ts
      end;
  let '(e, new) := r in Ok (e, acts ++ new).

(** ** The effects as sequences of steps on one tag *)

Inductive oz_micro :=
  | MAdd (t : lc) (v : double)
  | MIncr (t : lc) (v : double)
  | MRem (t : lc).

#[export] Instance oz_micro_eq_dec : EqDecision oz_micro.
Proof. solve_decision. Defined.

Definition micros (o : oz_op) : list oz_micro :=
  match o with
  | OzAdd t v => [MAdd t v]
  | OzIncr ts v => (fun t => MIncr t v) <$> ts
  | OzRem ts => MRem <$> ts
  end.

(** What the steps [m] leave for a tag. *)
Definition touched (m : list oz_micro) (t : lc) : Prop :=
  Exists (fun o => match o with MAdd u _ | MIncr u _ => u = t | _ => False end) m.
Definition x_step (t : lc) (acc : option double) (o : oz_micro) : option double :=
  match o with MAdd u v => if decide (u = t) then Some v else acc | _ => acc end.
Definition x_of (m : list oz_micro) (t : lc) : option double := foldl (x_step t) None m.
Definition inc_of (t : lc) (o : oz_micro) : option double :=
  match o with MIncr u v => if decide (u = t) then Some v else None | _ => None end.
Definition incs_of (m : list oz_micro) (t : lc) : list double := omap (inc_of t) m.
Definition all_incs (m : list oz_micro) : list double :=
  omap (fun o => match o with MIncr _ v => Some v | _ => None end) m.

(** The magnitude of the increments of a tag. *)
Definition weight (m : list oz_micro) (t : lc) : Z := iabs (incs_of m t).

(** The increments are integers and those of a tag add up to less than 2^53 in
    magnitude; the tags are ones a server makes. *)
Definition int_steps (m : list oz_micro) : Prop :=
  Forall is_int (all_incs m) /\ (forall t, weight m t < 2 ^ 53) /\
  Forall (fun o => match o with MAdd t _ | MIncr t _ | MRem t => wf_lc t end) m.

Record entry_ok (m : list oz_micro) (a : oz_ase) : Prop := {
  eo_wf : wf_lc (oz_t a);
  eo_live : MRem (oz_t a) ∉ m;
  eo_x : oz_x a = x_of m (oz_t a);
  eo_inc : oz_inc a = double_of_Z (isum (incs_of m (oz_t a)));
  eo_count : oz_count a = double_of_Z (weight m (oz_t a))
}.

(** [acquired] may sit on [a] rather than on [b]. *)
Definition outweighs (m : list oz_micro) (a b : oz_ase) : Prop :=
  weight m (oz_t b) = 0 \/ weight m (oz_t b) < weight m (oz_t a) \/
  (weight m (oz_t b) = weight m (oz_t a) /\ ~ tag_lt (oz_t a) (oz_t b)).

(** What holds of the two sets after the steps [m]. *)
Record oz_core (m : list oz_micro) (e : oze) : Prop := {
  oi_rset : forall t, wf_lc t -> rsetGet (oz_rset e) t = bool_decide (MRem t ∈ m);
  oi_rwf : Forall wf_lc (oz_rset e);
  oi_addr : NoDup (oz_aset e).*1;
  oi_fresh : Forall (fun p => (p < oz_fresh e)%nat) (oz_aset e).*1;
  oi_tags : forall p a q b, (p, a) ∈ oz_aset e -> (q, b) ∈ oz_aset e -> oz_t a = oz_t b -> p = q;
  oi_ok : forall p a, (p, a) ∈ oz_aset e -> entry_ok m a;
  oi_all : forall t, touched m t -> MRem t ∉ m -> exists p a, (p, a) ∈ oz_aset e /\ oz_t a = t
}.

(** The two pointers; [dirty] while a remove has not been followed by [resort]. *)
Definition innate_ok (dirty : bool) (e : oze) : Prop :=
  match oz_innate e with
  | None => dirty = false -> forall p a, (p, a) ∈ oz_aset e -> oz_x a = None
  | Some p => exists a, (p, a) ∈ oz_aset e /\
      forall q b, (q, b) ∈ oz_aset e -> oz_x b <> None -> ~ tag_lt (oz_t a) (oz_t b)
  end.
Definition acquired_ok (m : list oz_micro) (dirty : bool) (e : oze) : Prop :=
  match oz_acquired e with
  | None => dirty = false -> forall p a, (p, a) ∈ oz_aset e -> weight m (oz_t a) = 0
  | Some p => exists a, (p, a) ∈ oz_aset e /\ forall q b, (q, b) ∈ oz_aset e -> outweighs m a b
  end.

Definition oz_inv (m : list oz_micro) (dirty : bool) (e : oze) : Prop :=
  oz_core m e /\ innate_ok dirty e /\ acquired_ok m dirty e.

(** ** Facts about tags, sums and entries *)

Lemma same_tag_spec t u : wf_lc t -> wf_lc u -> same_tag t u = bool_decide (t = u).
Proof.
  intros Ht Hu. destruct (lc_cmp_as_tag_spec t u Ht Hu) as (_ & H & _). unfold same_tag.
  destruct (Z.eqb_spec (lc_cmp_as_tag t u) 0) as [E|E].
  - rewrite bool_decide_true by tauto. done.
  - rewrite bool_decide_false by tauto. done.
Qed.

Lemma tag_below t u : wf_lc t -> wf_lc u -> (lc_cmp_as_tag t u <? 0) = bool_decide (tag_lt t u).
Proof.
  intros Ht Hu. destruct (lc_cmp_as_tag_spec t u Ht Hu) as (H & _ & _).
  destruct (Z.ltb_spec (lc_cmp_as_tag t u) 0).
  - rewrite bool_decide_true by tauto. done.
  - rewrite bool_decide_false by (intros Hlt; apply H in Hlt; lia). done.
Qed.

Lemma not_tag_lt_trans t u w : ~ tag_lt t u -> ~ tag_lt u w -> ~ tag_lt t w.
Proof. unfold tag_lt. lia. Qed.

Lemma oz_weight_nonneg m t : 0 <= weight m t.
Proof. unfold weight. pose proof (isum_iabs (incs_of m t)). lia. Qed.

Lemma weight_bound m t : weight m t <= iabs (all_incs m).
Proof.
  unfold weight, incs_of, all_incs. induction m as [|o m IH]; [done|].
  rewrite !omap_cons_eq. destruct o as [u v|u v|u]; simpl inc_of; cbv iota; try done.
  case_decide; rewrite ?iabs_cons; lia.
Qed.

Lemma weight_snoc m o t :
  weight (m ++ [o]) t = weight m t + match inc_of t o with Some v => Z.abs (to_Z v) | None => 0 end.
Proof.
  unfold weight, incs_of. rewrite omap_app. simpl. destruct (inc_of t o).
  - apply iabs_snoc.
  - rewrite app_nil_r. lia.
Qed.

Lemma int_steps_app m o : int_steps (m ++ [o]) -> int_steps m.
Proof.
  unfold int_steps, all_incs. rewrite omap_app, !Forall_app. intros ([H1 _] & H2 & [H3 _]).
  split_and!; [done| |done]. intros t. specialize (H2 t). rewrite weight_snoc in H2. destruct (inc_of t o); lia.
Qed.

Definition tag_lt_b (b a : oz_ase) : bool := lc_cmp_as_tag (oz_t b) (oz_t a) <? 0.
Definition count_lt_b (b a : oz_ase) : bool :=
  dlt (oz_count b) (oz_count a)
  || (deq (oz_count b) (oz_count a) && (lc_cmp_as_tag (oz_t b) (oz_t a) <? 0)).

Lemma count_lt_spec m b a :
  int_steps m -> entry_ok m b -> entry_ok m a ->
  count_lt_b b a =
    bool_decide (weight m (oz_t b) < weight m (oz_t a) \/
                 (weight m (oz_t b) = weight m (oz_t a) /\ tag_lt (oz_t b) (oz_t a))).
Proof.
  intros (_ & Hb & _) [Hwb _ _ _ Hcb] [Hwa _ _ _ Hca]. unfold count_lt_b.
  rewrite Hcb, Hca, tag_below by done.
  pose proof (oz_weight_nonneg m (oz_t b)). pose proof (Hb (oz_t b)).
  pose proof (oz_weight_nonneg m (oz_t a)). pose proof (Hb (oz_t a)).
  rewrite dlt_Z, deq_Z by lia.
  destruct (Z.ltb_spec (weight m (oz_t b)) (weight m (oz_t a))); simpl.
  { by rewrite bool_decide_true by lia. }
  destruct (Z.eqb_spec (weight m (oz_t b)) (weight m (oz_t a))); simpl.
  - apply bool_decide_ext. intuition lia.
  - by rewrite bool_decide_false by lia.
Qed.

Lemma asetGet_Some m t p a :
  Forall (fun pa => wf_lc (oz_t pa.2)) m -> wf_lc t ->
  asetGet m t = Some (p, a) -> (p, a) ∈ m /\ oz_t a = t.
Proof.
  intros Hm Ht. induction Hm as [|[q b] m Hb Hm IH]; simpl in *; [done|].
  rewrite same_tag_spec by done. case_bool_decide as Hd.
  - intros [= -> ->]. split; [by left|done].
  - intros H. destruct (IH H). split; [by right|done].
Qed.

Lemma asetGet_None m t p a :
  Forall (fun pa => wf_lc (oz_t pa.2)) m -> wf_lc t ->
  asetGet m t = None -> (p, a) ∈ m -> oz_t a <> t.
Proof.
  intros Hm Ht. induction Hm as [|[q b] m Hb Hm IH]; simpl in *; [by intros _ ?%elem_of_nil|].
  rewrite same_tag_spec by done. case_bool_decide as Hd; [done|].
  intros H [[= -> ->]|Hin]%elem_of_cons; [congruence|by apply IH].
Qed.

Lemma core_wf m e : oz_core m e -> Forall (fun pa => wf_lc (oz_t pa.2)) (oz_aset e).
Proof.
  intros Hinv. apply Forall_forall. intros [p a] Ha. apply (eo_wf _ _ (oi_ok _ _ Hinv p a Ha)).
Qed.

(** An entry for a tag that was never touched is as [add_ase] makes it. *)
Lemma untouched_entry m t :
  ~ touched m t -> x_of m t = None /\ incs_of m t = [].
Proof.
  unfold touched, x_of, incs_of. rewrite Exists_exists. intros Hn.
  induction m as [|o m IH] using rev_ind; [done|].
  rewrite foldl_app, omap_app. destruct IH as [-> ->].
  { intros (u & Hu & ?). apply Hn. exists u. set_solver. }
  assert (match o with MAdd u _ | MIncr u _ => u <> t | _ => True end) as Ho.
  { destruct o as [u v|u v|u]; try done; intros ->; apply Hn; eexists; (split; [by apply elem_of_app; right; left|done]). }
  assert (x_step t None o = None /\ inc_of t o = None) as [Hx Hi].
  { unfold x_step, inc_of. destruct o; try done; by rewrite decide_False. }
  rewrite omap_cons_eq, Hi. simpl. by rewrite Hx.
Qed.

#[export] Instance touched_dec m t : Decision (touched m t).
Proof.
  unfold touched. apply Exists_dec. intros o. destruct o; apply _.
Defined.

(** The entry for a tag that is not removed, added when it is missing. *)
Lemma get_or_add_inv m d e t :
  oz_inv m d e -> wf_lc t -> MRem t ∉ m ->
  exists e' p a, get_or_add e t = (e', (p, a)) /\ oz_inv m d e' /\
    (p, a) ∈ oz_aset e' /\ oz_t a = t /\
    oz_innate e' = oz_innate e /\ oz_acquired e' = oz_acquired e.
Proof.
  intros Hinv Ht Hlive. pose proof Hinv as (Hcore & Hinn & Hacq). unfold get_or_add.
  pose proof (core_wf _ _ Hcore) as Hwf.
  destruct (asetGet (oz_aset e) t) as [[p a]|] eqn:Hget.
  { destruct (asetGet_Some _ _ _ _ Hwf Ht Hget). by exists e, p, a. }
  assert (forall p a, (p, a) ∈ oz_aset e -> oz_t a <> t) as Hno
    by (intros p a; by apply asetGet_None).
  destruct (decide (touched m t)) as [Htt|Hnt].
  { destruct (oi_all _ _ Hcore t Htt Hlive) as (p & a & Hin & Heq). by apply Hno in Hin. }
  destruct (untouched_entry m t Hnt) as [Hx Hi].
  unfold add_ase. assert (lc_dup t = t) as -> by (by destruct t).
  set (a := mkOzAse t None dzero dzero).
  assert (entry_ok m a) as Hok.
  { split; simpl; [done..|by rewrite Hx|by rewrite Hi|]. unfold weight. by rewrite Hi. }
  eexists _, _, a. split; [done|]. split; [|by split; [set_solver|]].
  assert (weight m t = 0) as Hw0 by (unfold weight; by rewrite Hi).
  destruct Hcore as [Hr Hrw Hnd Hfr Htg Hent Hall]. split_and!; [split; simpl; try done| |].
  - rewrite fmap_app. apply NoDup_app. split_and!; [done| |apply NoDup_singleton].
    intros q Hq ->%list_elem_of_singleton. rewrite Forall_forall in Hfr. specialize (Hfr _ Hq). simpl in Hfr. lia.
  - rewrite fmap_app. apply Forall_app. split; [|simpl; constructor; [lia|constructor]].
    eapply Forall_impl; [exact Hfr|]. simpl. lia.
  - intros p b q c [Hb|Hb]%elem_of_app [Hc|Hc]%elem_of_app Heq; [by eapply Htg| | |].
    + apply list_elem_of_singleton in Hc as [= -> ->]. by apply Hno in Hb.
    + apply list_elem_of_singleton in Hb as [= -> ->]. by apply Hno in Hc.
    + apply list_elem_of_singleton in Hb as [= -> ->], Hc as [= -> ->]. done.
  - intros p b [Hb|Hb]%elem_of_app; [by eapply Hent|]. by apply list_elem_of_singleton in Hb as [= -> ->].
  - intros u Hu Hlu. destruct (Hall u Hu Hlu) as (p & b & Hb & ?). exists p, b. set_solver.
  - unfold innate_ok in *. simpl. destruct (oz_innate e) as [p|].
    + destruct Hinn as (b & Hb & Hmax). exists b. split; [set_solver|].
      intros q c [Hc|Hc]%elem_of_app; [by eapply Hmax|].
      apply list_elem_of_singleton in Hc as [= -> ->]. done.
    + intros Hd p b [Hb|Hb]%elem_of_app; [by eapply Hinn|].
      by apply list_elem_of_singleton in Hb as [= -> ->].
  - unfold acquired_ok in *. simpl. destruct (oz_acquired e) as [p|].
    + destruct Hacq as (b & Hb & Hmax). exists b. split; [set_solver|].
      intros q c [Hc|Hc]%elem_of_app; [by eapply Hmax|].
      apply list_elem_of_singleton in Hc as [= -> ->]. by left.
    + intros Hd p b [Hb|Hb]%elem_of_app; [by eapply Hacq|].
      by apply list_elem_of_singleton in Hb as [= -> ->].
Qed.

(** ** Writes through a pointer *)

Lemma write_elem m p a q b :
  (exists a0, (p, a0) ∈ m) -> (q, b) ∈ write_ase m p a <-> (q = p /\ b = a) \/ (q <> p /\ (q, b) ∈ m).
Proof.
  intros [a0 H0]. unfold write_ase. rewrite list_elem_of_fmap. split.
  - intros ([q' b'] & Heq & Hin). simpl in Heq. case_decide; simplify_eq; [by left|by right].
  - intros [[-> ->]|[Hne Hin]].
    + exists (p, a0). split; [|done]. simpl. by rewrite decide_True.
    + exists (q, b). split; [|done]. simpl. by rewrite decide_False.
Qed.

Lemma write_addr m p a : (write_ase m p a).*1 = m.*1.
Proof.
  unfold write_ase. rewrite <- list_fmap_compose. apply list_fmap_ext. intros i [q b] _. simpl.
  case_decide; by subst.
Qed.

(** A step on the tag [t] that is not a remove leaves the other tags alone. *)
Definition step_on (t : lc) (o : oz_micro) : Prop :=
  match o with MAdd u _ | MIncr u _ => u = t | _ => False end.

Lemma step_on_live m t o u : step_on t o -> MRem u ∈ m ++ [o] <-> MRem u ∈ m.
Proof.
  intros Ho. rewrite elem_of_app, list_elem_of_singleton. split; [|by left].
  intros [?|Heq]; [done|]. subst o. done.
Qed.

Lemma step_on_other m t o a : step_on t o -> oz_t a <> t -> entry_ok m a -> entry_ok (m ++ [o]) a.
Proof.
  intros Ho Hne [Hw Hl Hx Hi Hc].
  assert (x_step (oz_t a) (x_of m (oz_t a)) o = x_of m (oz_t a) /\ inc_of (oz_t a) o = None) as [Hx' Hi'].
  { unfold x_step, inc_of. destruct o; try done; simpl in Ho; subst; by rewrite decide_False. }
  assert (incs_of (m ++ [o]) (oz_t a) = incs_of m (oz_t a)) as Hincs.
  { unfold incs_of. rewrite omap_app, omap_cons_eq, Hi'. apply app_nil_r. }
  split; [done|by rewrite step_on_live|..].
  - unfold x_of. rewrite foldl_app. simpl. fold (x_of m (oz_t a)). by rewrite Hx'.
  - by rewrite Hincs.
  - unfold weight. by rewrite Hincs.
Qed.

Lemma write_core m e p a a' o :
  oz_core m e -> (p, a) ∈ oz_aset e -> oz_t a' = oz_t a -> step_on (oz_t a) o ->
  entry_ok (m ++ [o]) a' ->
  oz_core (m ++ [o]) (set_aset e (write_ase (oz_aset e) p a')).
Proof.
  intros [Hr Hrw Hnd Hfr Htg Hent Hall] Hin Ht Ho Hok.
  assert (forall q b, (q, b) ∈ write_ase (oz_aset e) p a' <->
            (q = p /\ b = a') \/ (q <> p /\ (q, b) ∈ oz_aset e)) as Hw
    by (intros q b; apply write_elem; eauto).
  split; simpl; rewrite ?write_addr; try done.
  - intros u Hu. rewrite Hr by done. apply bool_decide_ext. by rewrite (step_on_live m (oz_t a)).
  - intros q b q' b' [[-> ->]|[Hne Hb]]%Hw [[-> ->]|[Hne' Hb']]%Hw Heq; [done| | |].
    + by apply (Htg p a q' b'); [..|congruence].
    + by apply (Htg q b p a); [..|congruence].
    + by apply (Htg q b q' b').
  - intros q b [[-> ->]|[Hne Hb]]%Hw; [done|]. apply (step_on_other m (oz_t a)); [done| |by eapply Hent].
    intros Heq. apply Hne. by apply (Htg q b p a).
  - intros u Hu Hl. rewrite (step_on_live m (oz_t a)) in Hl by done.
    destruct (decide (u = oz_t a)) as [->|Hne].
    { exists p, a'. split; [apply Hw; by left|done]. }
    destruct (Hall u) as (q & b & Hb & Heq); [|done|].
    + unfold touched in *. apply Exists_app in Hu as [?|Hu]; [done|].
      apply Exists_cons in Hu as [Hu|Hu]; [|by apply Exists_nil in Hu].
      exfalso. apply Hne. destruct o; simpl in *; try done; congruence.
    + exists q, b. split; [|done]. apply Hw. right. split; [|done].
      intros ->. assert (b = a) as -> by (apply (deref_elem _ _ _ Hnd) in Hb, Hin; congruence). done.
Qed.

Lemma weight_other m t o u : step_on t o -> u <> t -> weight (m ++ [o]) u = weight m u.
Proof.
  intros Ho Hne. rewrite weight_snoc.
  assert (inc_of u o = None) as ->; [|lia].
  unfold inc_of. destruct o; try done. simpl in Ho. subst. by rewrite decide_False.
Qed.

Lemma weight_no_incr m o u : (forall t v, o <> MIncr t v) -> weight (m ++ [o]) u = weight m u.
Proof.
  intros Ho. rewrite weight_snoc. destruct o; simpl; try lia. by destruct (Ho t v).
Qed.

Lemma outweighs_ext m m' a b a' b' :
  oz_t a' = oz_t a -> oz_t b' = oz_t b ->
  weight m' (oz_t a) = weight m (oz_t a) -> weight m' (oz_t b) = weight m (oz_t b) ->
  outweighs m a b -> outweighs m' a' b'.
Proof. unfold outweighs. intros -> -> -> ->. done. Qed.

(** A step on a removed tag does nothing. *)
Lemma removed_step_inv m t o d e :
  step_on t o -> MRem t ∈ m -> oz_inv m d e -> oz_inv (m ++ [o]) d e.
Proof.
  intros Ho Hrem ([Hr Hrw Hnd Hfr Htg Hent Hall] & Hinn & Hacq).
  assert (forall p a, (p, a) ∈ oz_aset e -> oz_t a <> t) as Hne.
  { intros p a Ha Heq. apply (eo_live _ _ (Hent p a Ha)). by rewrite Heq. }
  split_and!; [split; try done| |].
  - intros u Hu. rewrite Hr by done. apply bool_decide_ext. by rewrite (step_on_live m t).
  - intros p a Ha. apply (step_on_other m t); [done|by eapply Hne|by eapply Hent].
  - intros u Hu Hl. rewrite (step_on_live m t) in Hl by done. apply Hall; [|done].
    unfold touched in *. apply Exists_app in Hu as [?|Hu]; [done|].
    apply Exists_cons in Hu as [Hu|Hu]; [|by apply Exists_nil in Hu].
    exfalso. apply Hl. destruct o; simpl in *; try done; by subst.
  - done.
  - unfold acquired_ok in *. destruct (oz_acquired e) as [p|].
    + destruct Hacq as (a & Ha & Hmax). exists a. split; [done|]. intros q b Hb.
      apply (outweighs_ext m _ a b); try done; try (apply (weight_other m t); [done|by eapply Hne]).
      by eapply Hmax.
    + intros Hd p a Ha. rewrite (weight_other m t) by (done || by eapply Hne). by eapply Hacq.
Qed.

(** Entries before and after a write that keeps the tag. *)
Section Write.
Context (e : oze) (p : nat) (a a' : oz_ase).
Context (Hnd : NoDup (oz_aset e).*1) (Hin : (p, a) ∈ oz_aset e) (Ht : oz_t a' = oz_t a).
Let e' := set_aset e (write_ase (oz_aset e) p a').

Lemma written : (p, a') ∈ oz_aset e'.
Proof. apply write_elem; eauto. Qed.

Lemma write_fwd q b : (q, b) ∈ oz_aset e ->
  exists b', (q, b') ∈ oz_aset e' /\ oz_t b' = oz_t b /\ deref (oz_aset e') q = Ok b'.
Proof.
  intros Hb. assert (exists b', (q, b') ∈ oz_aset e' /\ oz_t b' = oz_t b) as (b' & Hb' & Heq).
  { destruct (decide (q = p)) as [->|Hne].
    - exists a'. split; [apply written|]. rewrite Ht.
      apply (deref_elem _ _ _ Hnd) in Hb, Hin. congruence.
    - exists b. split; [|done]. apply write_elem; eauto. }
  exists b'. split_and!; [done..|]. apply deref_elem; [|done]. simpl. by rewrite write_addr.
Qed.

Lemma write_bwd q b' : (q, b') ∈ oz_aset e' ->
  (q = p /\ b' = a') \/ (q <> p /\ (q, b') ∈ oz_aset e).
Proof. intros Hb. apply write_elem in Hb; eauto. Qed.
End Write.

Lemma core_same m e e' :
  oz_aset e' = oz_aset e -> oz_rset e' = oz_rset e -> oz_fresh e' = oz_fresh e ->
  oz_core m e -> oz_core m e'.
Proof. intros Ha Hr Hf [H1 H2 H3 H4 H5 H6 H7]. split; rewrite ?Ha, ?Hr, ?Hf; done. Qed.

(** The common part of the two updates: the entry of [t] is found or added and
    overwritten. *)
Lemma open_entry m e t o (upd : oz_ase -> oz_ase) :
  oz_inv m false e -> wf_lc t -> MRem t ∉ m -> step_on t o ->
  (forall a, entry_ok m a -> oz_t a = t -> entry_ok (m ++ [o]) (upd a)) ->
  (forall a, oz_t (upd a) = oz_t a) ->
  exists e1 p a e2, get_or_add e t = (e1, (p, a)) /\ oz_t a = t /\
    set_aset e1 (write_ase (oz_aset e1) p (upd a)) = e2 /\
    oz_innate e2 = oz_innate e1 /\ oz_acquired e2 = oz_acquired e1 /\
    oz_core (m ++ [o]) e2 /\ oz_inv m false e1 /\ (p, a) ∈ oz_aset e1 /\ (p, upd a) ∈ oz_aset e2 /\
    (forall q b, (q, b) ∈ oz_aset e1 ->
       exists b', (q, b') ∈ oz_aset e2 /\ oz_t b' = oz_t b /\ deref (oz_aset e2) q = Ok b') /\
    (forall q b, (q, b) ∈ oz_aset e2 -> (q = p /\ b = upd a) \/ (q <> p /\ (q, b) ∈ oz_aset e1)).
Proof.
  intros Hinv Hwt Hrem Ho Hupd Htag.
  destruct (get_or_add_inv m false e t Hinv Hwt Hrem) as (e1 & p & a & Hget & Hinv1 & Hin & Ht & _).
  pose proof (proj1 Hinv1) as Hcore. pose proof (oi_addr _ _ Hcore) as Hnd.
  exists e1, p, a, (set_aset e1 (write_ase (oz_aset e1) p (upd a))).
  split_and!; try done.
  - apply (write_core m e1 p a); [done..|by rewrite Ht|].
    apply Hupd; [by apply (oi_ok _ _ Hcore p)|done].
  - by apply (written e1 p a).
  - by apply (write_fwd e1 p a).
  - by apply (write_bwd e1 p a).
Qed.

Lemma step_wf m o : int_steps (m ++ [o]) ->
  match o with MAdd t _ | MIncr t _ | MRem t => wf_lc t end.
Proof. intros (_ & _ & HF). apply Forall_app in HF as [_ HF]. by inversion HF. Qed.

(** [acquired] after a step that is no increment. *)
Lemma acquired_kept m o p a a' e1 e2 :
  (forall t v, o <> MIncr t v) -> oz_acquired e2 = oz_acquired e1 -> oz_t a' = oz_t a ->
  (p, a) ∈ oz_aset e1 ->
  (forall q b, (q, b) ∈ oz_aset e1 ->
     exists b', (q, b') ∈ oz_aset e2 /\ oz_t b' = oz_t b /\ deref (oz_aset e2) q = Ok b') ->
  (forall q b, (q, b) ∈ oz_aset e2 -> (q = p /\ b = a') \/ (q <> p /\ (q, b) ∈ oz_aset e1)) ->
  acquired_ok m false e1 -> acquired_ok (m ++ [o]) false e2.
Proof.
  intros Ho Hae Ht Hin Hfwd Hbwd. unfold acquired_ok. rewrite Hae.
  assert (forall u, weight (m ++ [o]) u = weight m u) as Hwm by (intros u; by apply weight_no_incr).
  destruct (oz_acquired e1) as [q|].
  - intros (c & Hc & Hmax). destruct (Hfwd q c Hc) as (c' & Hc' & Htc & _).
    exists c'. split; [done|]. intros r b [[-> ->]|[Hne Hb]]%Hbwd.
    + by apply (outweighs_ext m _ c a); [..|by eapply Hmax].
    + by apply (outweighs_ext m _ c b); [..|by eapply Hmax].
  - intros Hacq _ r b [[-> ->]|[Hne Hb]]%Hbwd; rewrite Hwm, ?Ht; [by eapply (Hacq eq_refl p a)|by eapply Hacq].
Qed.

Lemma oz_add_step m e t v :
  oz_inv m false e -> int_steps (m ++ [MAdd t v]) ->
  exists e' b, update_innate_value e t v = Ok (e', b) /\ oz_inv (m ++ [MAdd t v]) false e'.
Proof.
  intros Hinv Hint. pose proof (step_wf _ _ Hint) as Hwt. simpl in Hwt.
  unfold update_innate_value. rewrite (oi_rset _ _ (proj1 Hinv) t Hwt).
  case_bool_decide as Hrem; [by eexists _, _; split; [|apply (removed_step_inv m t)]|].
  destruct (open_entry m e t (MAdd t v)
              (fun a => mkOzAse (oz_t a) (Some v) (oz_inc a) (oz_count a)) Hinv Hwt Hrem eq_refl)
    as (e1 & p & a & e2 & -> & Ht & -> & Hie & Hae & Hcore' & (Hcore & Hinn & Hacq) & Hin & Hp & Hfwd & Hbwd).
  { intros a [Hw Hl Hx Hi Hc] Ht.
    assert (incs_of (m ++ [MAdd t v]) t = incs_of m t) as Hincs
      by (unfold incs_of; rewrite omap_app; apply app_nil_r).
    split; simpl; rewrite Ht in *; [done|by rewrite (step_on_live m t)| |by rewrite Hincs|].
    - unfold x_of. rewrite foldl_app. simpl. by rewrite decide_True.
    - unfold weight. by rewrite Hincs. }
  { done. }
  assert (acquired_ok (m ++ [MAdd t v]) false e2) as Hacq2
    by (refine (acquired_kept m _ p a _ e1 e2 _ Hae _ Hin Hfwd Hbwd Hacq); done).
  cbv beta in *. set (a' := mkOzAse (oz_t a) (Some v) _ _) in *.
  unfold innate_below, innate_ok in *. rewrite Hie. destruct (oz_innate e1) as [q|]; simpl.
  - destruct Hinn as (c & Hc & Hmax). destruct (Hfwd q c Hc) as (c' & Hc' & Htc & Hdc).
    rewrite Hdc. simpl.
    rewrite tag_below, Htc by (apply (eo_wf _ _ (oi_ok _ _ Hcore' _ _ Hc')) || by rewrite Ht).
    case_bool_decide as Hlt; eexists _, _; (split; [done|]);
      (split_and!; [by apply (core_same _ e2)| |done]).
    + exists a'. split; [done|]. intros r b [[-> ->]|[Hne Hb]]%Hbwd Hx.
      * unfold tag_lt. simpl. lia.
      * specialize (Hmax r b Hb Hx). simpl in *. unfold tag_lt in *. lia.
    + unfold innate_ok. rewrite Hie. exists c'. split; [done|]. rewrite Htc.
      intros r b [[-> ->]|[Hne Hb]]%Hbwd Hx; [done|by eapply Hmax].
  - eexists _, _. split; [done|]. split_and!; [by apply (core_same _ e2)| |done]. exists a'.
    split; [done|]. intros r b [[-> ->]|[Hne Hb]]%Hbwd Hx; [unfold tag_lt; simpl; lia|].
    destruct Hx. by eapply Hinn.
Qed.

(** [innate] after a step that writes no [x]. *)
Lemma innate_kept p a a' e1 e2 :
  oz_innate e2 = oz_innate e1 -> oz_t a' = oz_t a -> oz_x a' = oz_x a -> (p, a) ∈ oz_aset e1 ->
  (forall q b, (q, b) ∈ oz_aset e1 ->
     exists b', (q, b') ∈ oz_aset e2 /\ oz_t b' = oz_t b /\ deref (oz_aset e2) q = Ok b') ->
  (forall q b, (q, b) ∈ oz_aset e2 -> (q = p /\ b = a') \/ (q <> p /\ (q, b) ∈ oz_aset e1)) ->
  innate_ok false e1 -> innate_ok false e2.
Proof.
  intros Hie Ht Hx Hin Hfwd Hbwd. unfold innate_ok. rewrite Hie.
  destruct (oz_innate e1) as [q|].
  - intros (c & Hc & Hmax). destruct (Hfwd q c Hc) as (c' & Hc' & Htc & _).
    exists c'. split; [done|]. rewrite Htc. intros r b [[-> ->]|[Hne Hb]]%Hbwd.
    + rewrite Ht, Hx. by eapply Hmax.
    + by eapply Hmax.
  - intros Hinn _ r b [[-> ->]|[Hne Hb]]%Hbwd; [rewrite Hx|]; by eapply Hinn.
Qed.

(** An entry after one more increment. *)
Lemma incr_entry m t v a :
  int_steps (m ++ [MIncr t v]) -> entry_ok m a -> oz_t a = t ->
  entry_ok (m ++ [MIncr t v])
    (mkOzAse (oz_t a) (oz_x a) (dadd (oz_inc a) v) (dadd (oz_count a) (abs_value v))).
Proof.
  intros Hint [Hw Hl Hx Hi Hc] Ht.
  assert (incs_of (m ++ [MIncr t v]) t = incs_of m t ++ [v]) as Hincs.
  { unfold incs_of. rewrite omap_app, omap_cons_eq. simpl inc_of. by rewrite decide_True. }
  destruct Hint as (Hints & Hbound & _).
  pose proof (Hbound t) as Hb. unfold weight in Hb.
  rewrite Hincs, iabs_snoc in Hb. pose proof (isum_iabs (incs_of m t)).
  assert (is_int v) as Hv.
  { unfold all_incs in Hints. rewrite omap_app, Forall_app in Hints. destruct Hints as [_ H1].
    by apply Forall_cons in H1 as [? _]. }
  split; simpl; rewrite Ht in *; [done|by rewrite (step_on_live m t)| | |].
  - unfold x_of. rewrite foldl_app. simpl. done.
  - rewrite Hincs, isum_snoc, Hi. apply dadd_int; [done|lia].
  - unfold weight. rewrite Hincs, iabs_snoc, Hc. apply dadd_abs; [done|apply oz_weight_nonneg|].
    unfold weight. lia.
Qed.

Lemma oz_incr_step m e t v :
  oz_inv m false e -> int_steps (m ++ [MIncr t v]) ->
  exists e' b, update_acquired_value e t v = Ok (e', b) /\ oz_inv (m ++ [MIncr t v]) false e'.
Proof.
  intros Hinv Hint. pose proof (step_wf _ _ Hint) as Hwt. simpl in Hwt.
  unfold update_acquired_value. rewrite (oi_rset _ _ (proj1 Hinv) t Hwt).
  case_bool_decide as Hrem; [by eexists _, _; split; [|apply (removed_step_inv m t)]|].
  destruct (open_entry m e t (MIncr t v)
              (fun a => mkOzAse (oz_t a) (oz_x a) (dadd (oz_inc a) v) (dadd (oz_count a) (abs_value v)))
              Hinv Hwt Hrem eq_refl)
    as (e1 & p & a & e2 & -> & Ht & -> & Hie & Hae & Hcore' & (Hcore & Hinn & Hacq) & Hin & Hp & Hfwd & Hbwd).
  { intros b Hb Hbt. by apply incr_entry. }
  { done. }
  assert (innate_ok false e2) as Hinn2
    by (refine (innate_kept p a _ e1 e2 Hie _ _ Hin Hfwd Hbwd Hinn); done).
  cbv beta in *. set (a' := mkOzAse (oz_t a) _ _ _) in *.
  assert (weight m t <= weight (m ++ [MIncr t v]) t) as Hgrow.
  { rewrite weight_snoc. simpl. rewrite decide_True by done. lia. }
  assert (forall q b, q <> p -> (q, b) ∈ oz_aset e1 -> weight (m ++ [MIncr t v]) (oz_t b) = weight m (oz_t b))
    as Hsame.
  { intros q b Hne Hb. apply (weight_other m t); [done|]. intros Heq. apply Hne.
    apply (oi_tags _ _ Hcore q b p a); [done..|congruence]. }
  rewrite Hae. unfold acquired_ok in Hacq. case_decide as Hself.
  { eexists _, _. split; [done|]. split_and!; [done..|]. unfold acquired_ok. rewrite Hae, Hself.
    rewrite Hself in Hacq. destruct Hacq as (c & Hc & Hmax).
    assert (c = a) as -> by (apply (deref_elem _ _ _ (oi_addr _ _ Hcore)) in Hc, Hin; congruence).
    exists a'. split; [done|]. intros r b [[-> ->]|[Hne Hb]]%Hbwd; unfold outweighs; simpl.
    - right; right. split; [done|]. unfold tag_lt. lia.
    - rewrite (Hsame r b Hne Hb). specialize (Hmax r b Hb). unfold outweighs in Hmax. rewrite Ht in *.
      destruct Hmax as [|[|[? ?]]]; [by left|right; left; lia|].
      destruct (decide (weight m t = weight (m ++ [MIncr t v]) t)); [right; right|right; left; lia].
      split; [lia|done]. }
  unfold acquired_below. rewrite Hae. destruct (oz_acquired e1) as [q|]; cbn [mbind res_bind].
  - destruct Hacq as (c & Hc & Hmax). destruct (Hfwd q c Hc) as (c' & Hc' & Htc & Hdc).
    assert (q <> p) as Hqp by congruence. rewrite Hdc. cbn [mbind res_bind].
    pose proof (count_lt_spec (m ++ [MIncr t v]) c' a' Hint (oi_ok _ _ Hcore' _ _ Hc') (oi_ok _ _ Hcore' _ _ Hp))
      as Hcmp.
    unfold count_lt_b in Hcmp. rewrite Hcmp. clear Hcmp. pose proof (Hsame q c Hqp Hc) as Hwc.
    case_bool_decide as Hlt; rewrite Htc in Hlt; simpl in Hlt; rewrite Hwc, Ht in Hlt;
      eexists _, _; (split; [done|]); (split_and!; [by apply (core_same _ e2)|done|]).
    + exists a'. split; [done|]. intros r b [[-> ->]|[Hne Hb]]%Hbwd; unfold outweighs; simpl; rewrite Ht.
      * right; right. split; [done|]. unfold tag_lt. lia.
      * rewrite (Hsame r b Hne Hb). specialize (Hmax r b Hb). unfold outweighs in Hmax.
        unfold tag_lt in *. lia.
    + unfold acquired_ok. rewrite Hae. exists c'. split; [done|].
      intros r b [[-> ->]|[Hne Hb]]%Hbwd; unfold outweighs; rewrite Htc, Hwc; simpl; rewrite ?Ht.
      * unfold tag_lt in *. lia.
      * rewrite (Hsame r b Hne Hb). apply (Hmax r b Hb).
  - eexists _, _. split; [done|]. split_and!; [by apply (core_same _ e2)|done|]. exists a'.
    split; [done|]. intros r b [[-> ->]|[Hne Hb]]%Hbwd; unfold outweighs; simpl.
    + right; right. split; [done|]. unfold tag_lt. lia.
    + left. rewrite (Hsame r b Hne Hb). by eapply Hacq.
Qed.

(** ** Removes *)

Lemma aset_del_sublist m t : aset_del m t `sublist_of` m.
Proof.
  induction m as [|[p a] m IH]; simpl; [constructor|]. destruct (same_tag t (oz_t a)); by constructor.
Qed.

Lemma aset_del_elem m t q b :
  NoDup m.*1 -> Forall (fun pa => wf_lc (oz_t pa.2)) m -> wf_lc t ->
  (forall p a q b, (p, a) ∈ m -> (q, b) ∈ m -> oz_t a = oz_t b -> p = q) ->
  (q, b) ∈ aset_del m t <-> (q, b) ∈ m /\ oz_t b <> t.
Proof.
  intros Hnd Hwf Ht Htg. revert Hnd Htg. induction Hwf as [|[p a] m Ha Hwf IH]; intros Hnd Htg; simpl in *.
  - split; [by intros ?%elem_of_nil|by intros [?%elem_of_nil _]].
  - apply NoDup_cons in Hnd as [Hp Hnd]. rewrite same_tag_spec by done. case_bool_decide as Hd.
    + subst t. split.
      * intros Hin. split; [by right|]. intros Heq. apply Hp.
        rewrite (Htg p a q b); [|by left|by right|done]. by apply (list_elem_of_fmap_2 fst) in Hin.
      * intros [[[= -> ->]|Hin]%elem_of_cons Hne]; done.
    + rewrite !elem_of_cons, IH; [naive_solver|done|]. intros. eapply Htg; [by right|by right|done].
Qed.

Lemma rem_facts m t u :
  x_of (m ++ [MRem t]) u = x_of m u /\ incs_of (m ++ [MRem t]) u = incs_of m u /\
  weight (m ++ [MRem t]) u = weight m u.
Proof.
  assert (incs_of (m ++ [MRem t]) u = incs_of m u) as Hi
    by (unfold incs_of; rewrite omap_app; apply app_nil_r).
  split_and!; [|done|].
  - unfold x_of. by rewrite foldl_app.
  - unfold weight. by rewrite Hi.
Qed.

Lemma rem_entry m t a : entry_ok m a -> oz_t a <> t -> entry_ok (m ++ [MRem t]) a.
Proof.
  intros [Hw Hl Hx Hi Hc] Hne. destruct (rem_facts m t (oz_t a)) as (Hx' & Hi' & Hw').
  split; rewrite ?Hx', ?Hi', ?Hw'; [done| |done..].
  intros [?|Heq%list_elem_of_singleton]%elem_of_app; [done|congruence].
Qed.

Lemma rem_touched m t u : touched (m ++ [MRem t]) u <-> touched m u.
Proof.
  unfold touched. rewrite Exists_app, Exists_cons, Exists_nil. tauto.
Qed.

(** The pointers stay good on a part of the entries that keeps their own. *)
Lemma pointers_sub m m' d e e' :
  (forall u, weight m' u = weight m u) ->
  (forall q b, (q, b) ∈ oz_aset e' -> (q, b) ∈ oz_aset e) ->
  (forall q, oz_innate e' = Some q -> oz_innate e = Some q /\
     forall b, (q, b) ∈ oz_aset e -> (q, b) ∈ oz_aset e') ->
  (forall q, oz_acquired e' = Some q -> oz_acquired e = Some q /\
     forall b, (q, b) ∈ oz_aset e -> (q, b) ∈ oz_aset e') ->
  innate_ok d e -> acquired_ok m d e -> innate_ok true e' /\ acquired_ok m' true e'.
Proof.
  intros Hw Hsub Hi Ha Hinn Hacq. unfold innate_ok, acquired_ok in *. split.
  - destruct (oz_innate e') as [q|]; [|done]. destruct (Hi q eq_refl) as [Heq Hin]. rewrite Heq in Hinn.
    destruct Hinn as (c & Hc & Hmax). exists c. split; [by apply Hin|]. intros r b Hb. eapply Hmax, Hsub, Hb.
  - destruct (oz_acquired e') as [q|]; [|done]. destruct (Ha q eq_refl) as [Heq Hin]. rewrite Heq in Hacq.
    destruct Hacq as (c & Hc & Hmax). exists c. split; [by apply Hin|]. intros r b Hb.
    apply (outweighs_ext m _ c b); [done..|eapply Hmax, Hsub, Hb].
Qed.

Lemma oz_rem_step m d e t :
  oz_inv m d e -> wf_lc t -> oz_inv (m ++ [MRem t]) true (remove_tag e t).
Proof.
  intros (Hcore & Hinn & Hacq) Ht. pose proof Hcore as [Hr Hrw Hnd Hfr Htg Hent Hall].
  pose proof (core_wf _ _ Hcore) as Hwf. unfold remove_tag. rewrite Hr by done.
  assert (forall u, weight (m ++ [MRem t]) u = weight m u) as Hw by (intros u; apply rem_facts).
  assert (forall u, MRem u ∈ m ++ [MRem t] <-> MRem u ∈ m \/ u = t) as Hmem.
  { intros u. rewrite elem_of_app, list_elem_of_singleton. split; intros [?|?]; simplify_eq; auto. }
  case_bool_decide as Hrem.
  - assert (forall p a, (p, a) ∈ oz_aset e -> oz_t a <> t) as Hne.
    { intros p a Ha Heq. apply (eo_live _ _ (Hent p a Ha)). by rewrite Heq. }
    split; [split; try done|by apply (pointers_sub m _ d e e)].
    + intros u Hu. rewrite Hr by done. apply bool_decide_ext. rewrite Hmem. naive_solver.
    + intros p a Ha. apply rem_entry; [by eapply Hent|by eapply Hne].
    + intros u Hu Hl. rewrite rem_touched in Hu. apply Hall; [done|]. rewrite Hmem in Hl. tauto.
  - assert (lc_dup t = t) as -> by (by destruct t).
    assert (forall u, wf_lc u -> rsetGet (oz_rset e ++ [t]) u = bool_decide (MRem u ∈ m ++ [MRem t])) as Hr'.
    { intros u Hu. unfold rsetGet. rewrite existsb_app. fold (rsetGet (oz_rset e) u). rewrite Hr by done.
      simpl. rewrite orb_false_r, same_tag_spec, <- bool_decide_or by done.
      apply bool_decide_ext. by rewrite Hmem. }
    assert (Forall wf_lc (oz_rset e ++ [t])) as Hrw' by (apply Forall_app; auto using Forall_cons_2, Forall_nil_2).
    destruct (asetGet (oz_aset e) t) as [[p a]|] eqn:Hget.
    + destruct (asetGet_Some _ _ _ _ Hwf Ht Hget) as [Hin Hat].
      assert (forall q b, (q, b) ∈ aset_del (oz_aset e) t <-> (q, b) ∈ oz_aset e /\ oz_t b <> t) as Hdel
        by (intros q b; by apply aset_del_elem).
      assert (forall q, q <> p -> forall b, (q, b) ∈ oz_aset e -> (q, b) ∈ aset_del (oz_aset e) t) as Hkeep.
      { intros q Hq b Hb. apply Hdel. split; [done|]. intros Heq. apply Hq.
        apply (Htg q b p a); [done..|congruence]. }
      pose proof (aset_del_sublist (oz_aset e) t) as Hsl. apply (fmap_sublist fst) in Hsl.
      split; [split; simpl; try done|].
      * by eapply sublist_NoDup.
      * rewrite Forall_forall in *. intros q Hq. apply Hfr. by eapply elem_of_submseteq, sublist_submseteq.
      * intros q b q' b' [Hb _]%Hdel [Hb' _]%Hdel. by apply (Htg q b q' b').
      * intros q b [Hb Hne]%Hdel. apply rem_entry; [by eapply Hent|done].
      * intros u Hu Hl. rewrite rem_touched in Hu. rewrite Hmem in Hl.
        destruct (Hall u Hu ltac:(tauto)) as (q & b & Hb & <-). exists q, b. split; [|done]. apply Hdel. tauto.
      * apply (pointers_sub m _ d e); simpl; [done| | | |done..].
        -- intros q b Hb. by apply Hdel in Hb as [? _].
        -- intros q Hq. case_decide; [done|]. split; [done|]. apply Hkeep. congruence.
        -- intros q Hq. case_decide; [done|]. split; [done|]. apply Hkeep. congruence.
    + assert (forall p a, (p, a) ∈ oz_aset e -> oz_t a <> t) as Hne by (intros p a; by apply asetGet_None).
      split; [split; simpl; try done|by apply (pointers_sub m _ d e)].
      * intros p a Ha. apply rem_entry; [by eapply Hent|by eapply Hne].
      * intros u Hu Hl. rewrite rem_touched in Hu. apply Hall; [done|]. rewrite Hmem in Hl. tauto.
Qed.

(** ** [resort] *)

Lemma resort_step_better e p a i c :
  better tag_lt_b (oz_aset e) (oz_innate e) (p, a) = Ok i ->
  better count_lt_b (oz_aset e) (oz_acquired e) (p, a) = Ok c ->
  resort_step e (p, a) = Ok (set_acquired (set_innate e i) c).
Proof.
  destruct e as [cu inn acq m r f]. unfold better, resort_step, innate_below, acquired_below. simpl.
  intros Hi Hc. destruct inn as [q|]; simpl in *.
  - destruct (deref m q) as [b|]; [|done]. simpl in *. injection Hi as <-. fold (tag_lt_b b a).
    destruct (tag_lt_b b a); simpl; (destruct acq as [q'|]; simpl in *;
      [destruct (deref m q') as [b'|]; [|done]; simpl in *; fold (count_lt_b b' a);
       destruct (count_lt_b b' a)|]; by injection Hc as <-).
  - injection Hi as <-. simpl. destruct acq as [q'|]; simpl in *.
    + destruct (deref m q') as [b'|]; [|done]. simpl in *. fold (count_lt_b b' a).
      by destruct (count_lt_b b' a); injection Hc as <-.
    + by injection Hc as <-.
Qed.

Lemma resort_fold e L i c :
  foldM (better tag_lt_b (oz_aset e)) (oz_innate e) L = Ok i ->
  foldM (better count_lt_b (oz_aset e)) (oz_acquired e) L = Ok c ->
  foldM resort_step e L = Ok (set_acquired (set_innate e i) c).
Proof.
  revert e. induction L as [|[p a] L IH]; intros e Hi Hc.
  - simpl in *. injection Hi as <-. injection Hc as <-. by destruct e.
  - cbn [foldM] in *. apply bind_Ok_inv in Hi as (i1 & Hi1 & Hi), Hc as (c1 & Hc1 & Hc).
    pose proof (resort_step_better e p a i1 c1 Hi1 Hc1) as Hstep.
    rewrite Hstep. cbn [mbind res_bind]. by rewrite (IH (set_acquired (set_innate e i1) c1)).
Qed.

Lemma scan_innate m e L :
  oz_inv m true e -> L ⊆ oz_aset e ->
  exists i, foldM (better tag_lt_b (oz_aset e)) (oz_innate e) L = Ok i /\
    scanned tag_lt_b (entry_ok m) (oz_aset e) L (oz_innate e) i.
Proof.
  intros (Hcore & Hinn & _) HL. apply scan_spec; unfold tag_lt_b.
  - intros a b [Ha _ _ _ _] [Hb _ _ _ _]. rewrite !tag_below by done.
    rewrite bool_decide_eq_true, bool_decide_eq_false. unfold tag_lt. lia.
  - intros a [Ha _ _ _ _]. rewrite tag_below by done. apply bool_decide_false. unfold tag_lt. lia.
  - intros a b c [Ha _ _ _ _] [Hb _ _ _ _] [Hc _ _ _ _]. rewrite !tag_below by done.
    rewrite !bool_decide_eq_false. apply not_tag_lt_trans.
  - intros p a Ha%HL. split; [by apply (deref_elem _ _ _ (oi_addr _ _ Hcore))|by eapply (oi_ok _ _ Hcore)].
  - intros q Hq. unfold innate_ok in Hinn. rewrite Hq in Hinn. destruct Hinn as (c & Hc & _).
    exists c. split; [by apply (deref_elem _ _ _ (oi_addr _ _ Hcore))|by eapply (oi_ok _ _ Hcore)].
Qed.

Lemma scan_acquired m e L :
  oz_inv m true e -> int_steps m -> L ⊆ oz_aset e ->
  exists c, foldM (better count_lt_b (oz_aset e)) (oz_acquired e) L = Ok c /\
    scanned count_lt_b (entry_ok m) (oz_aset e) L (oz_acquired e) c.
Proof.
  intros (Hcore & _ & Hacq) Hint HL. apply scan_spec.
  - intros a b Ha Hb. rewrite !(count_lt_spec m) by done.
    rewrite bool_decide_eq_true, bool_decide_eq_false. unfold tag_lt. lia.
  - intros a Ha. rewrite (count_lt_spec m) by done. apply bool_decide_false. unfold tag_lt. lia.
  - intros a b c Ha Hb Hc. rewrite !(count_lt_spec m) by done.
    rewrite !bool_decide_eq_false. unfold tag_lt. lia.
  - intros p a Ha%HL. split; [by apply (deref_elem _ _ _ (oi_addr _ _ Hcore))|by eapply (oi_ok _ _ Hcore)].
  - intros q Hq. unfold acquired_ok in Hacq. rewrite Hq in Hacq. destruct Hacq as (c & Hc & _).
    exists c. split; [by apply (deref_elem _ _ _ (oi_addr _ _ Hcore))|by eapply (oi_ok _ _ Hcore)].
Qed.

Lemma oz_resort_step m e :
  oz_inv m true e -> int_steps m -> exists e', resort e = Ok e' /\ oz_inv m false e'.
Proof.
  intros Hinv Hint. pose proof Hinv as (Hcore & Hinn & Hacq).
  assert (exists e', foldM resort_step e (oz_aset e) = Ok e' /\ oz_inv m false e') as Hfold.
  { destruct (scan_innate m e (oz_aset e) Hinv) as (i & Hi & HiN & HiS); [done|].
    destruct (scan_acquired m e (oz_aset e) Hinv Hint) as (c & Hc & HcN & HcS); [done|].
    rewrite (resort_fold e _ i c) by done. eexists. split; [done|].
    split_and!; [by apply (core_same _ e)| |].
    - unfold innate_ok. simpl. destruct i as [p|].
      + destruct (HiS p eq_refl) as (a & Ha & Hok & _ & Hmax & _). exists a.
        split; [by apply (deref_elem _ _ _ (oi_addr _ _ Hcore))|]. intros q b Hb _ Hlt.
        specialize (Hmax q b Hb). unfold tag_lt_b in Hmax.
        rewrite tag_below in Hmax by (apply (eo_wf _ _ Hok) || apply (eo_wf _ _ (oi_ok _ _ Hcore q b Hb))).
        by apply bool_decide_eq_false in Hmax.
      + destruct (HiN eq_refl) as [_ Hnil]. rewrite Hnil. by intros _ p a ?%elem_of_nil.
    - unfold acquired_ok. simpl. destruct c as [p|].
      + destruct (HcS p eq_refl) as (a & Ha & Hok & _ & Hmax & _). exists a.
        split; [by apply (deref_elem _ _ _ (oi_addr _ _ Hcore))|]. intros q b Hb.
        specialize (Hmax q b Hb). rewrite (count_lt_spec m) in Hmax by (done || by apply (oi_ok _ _ Hcore q)).
        apply bool_decide_eq_false in Hmax. unfold outweighs. unfold tag_lt in *. lia.
      + destruct (HcN eq_refl) as [_ Hnil]. rewrite Hnil. by intros _ p a ?%elem_of_nil. }
  unfold resort. destruct (oz_innate e) as [p|] eqn:Hi, (oz_acquired e) as [q|] eqn:Hq; try done.
  exists e. split; [done|]. split_and!; [done| |]; unfold innate_ok, acquired_ok in *;
    [by rewrite Hi in *|by rewrite Hq in *].
Qed.

(** ** Whole effects *)

(** No entry is left without a value: what was incremented was also added. *)
Definition all_added (m : list oz_micro) : Prop :=
  forall t, touched m t -> MRem t ∉ m -> x_of m t <> None.

Definition live (m : list oz_micro) (t : lc) : Prop := touched m t /\ MRem t ∉ m.

(** The score of an element after the steps [m]: the value of the largest live
    tag plus the increments of the live tag they weigh most on. *)
Definition score_spec (m : list oz_micro) (sc : double) : Prop :=
  exists t v r, live m t /\ (forall u, live m u -> ~ tag_lt t u) /\ x_of m t = Some v /\
    (forall u, live m u -> weight m u = 0 \/ weight m u < weight m r \/
       (weight m u = weight m r /\ ~ tag_lt r u)) /\
    (live m r \/ weight m r = 0) /\
    sc = dadd v (double_of_Z (isum (incs_of m r))).

(** The tags of the entries are tags that were touched. *)
Definition tags_touched (m : list oz_micro) (e : oze) : Prop :=
  forall p a, (p, a) ∈ oz_aset e -> touched m (oz_t a).

Lemma asetGet_elem m t pa : asetGet m t = Some pa -> pa ∈ m.
Proof.
  induction m as [|[q b] m IH]; simpl; [done|]. destruct (same_tag t (oz_t b)).
  - intros [= <-]. by left.
  - intros H. right. auto.
Qed.

Lemma get_or_add_tags e t e1 p a a' :
  get_or_add e t = (e1, (p, a)) -> oz_t a' = oz_t a ->
  forall q b, (q, b) ∈ write_ase (oz_aset e1) p a' ->
  oz_t b = t \/ exists r c, (r, c) ∈ oz_aset e /\ oz_t c = oz_t b.
Proof.
  unfold get_or_add, write_ase. intros Hget Ht q b ([q' b'] & Heq & Hin)%list_elem_of_fmap.
  simpl in Heq. destruct (asetGet (oz_aset e) t) as [[r c]|] eqn:Hg.
  - injection Hget as <- <- <-. right. case_decide; simplify_eq; [|by exists q', b'].
    exists r, c. split; [by apply asetGet_elem in Hg|done].
  - unfold add_ase in Hget. injection Hget as <- <- <-. simpl in *.
    apply elem_of_app in Hin as [Hin|Hin%list_elem_of_singleton].
    + case_decide; simplify_eq; [left; rewrite Ht; by destruct t|right; by exists q', b'].
    + simplify_eq. rewrite decide_True in Heq by done. simplify_eq. left. rewrite Ht. by destruct t.
Qed.

Lemma touched_mono m m' t : touched m t -> touched (m ++ m') t.
Proof. unfold touched. rewrite Exists_app. by left. Qed.

Lemma touched_step m o t : step_on t o -> touched (m ++ [o]) t.
Proof. intros Ho. unfold touched. apply Exists_app. right. constructor. by destruct o. Qed.

Lemma add_tags m e t v e' b :
  tags_touched m e -> update_innate_value e t v = Ok (e', b) -> tags_touched (m ++ [MAdd t v]) e'.
Proof.
  intros Hm. unfold update_innate_value. destruct (rsetGet _ _).
  { intros [= <- <-] p a Ha. apply touched_mono. by eapply Hm. }
  destruct (get_or_add e t) as [e1 [p a]] eqn:Hget. intros (b0 & _ & Heq)%bind_Ok_inv.
  injection Heq as Heq. assert (oz_aset e' = write_ase (oz_aset e1) p
    (mkOzAse (oz_t a) (Some v) (oz_inc a) (oz_count a))) as Has by (by destruct b0; simplify_eq).
  intros q c Hc. rewrite Has in Hc.
  eapply (get_or_add_tags e t e1 p a) in Hc as [->|(r & d & Hd & <-)]; [| |exact Hget|done].
  - by apply touched_step.
  - apply touched_mono. by eapply Hm.
Qed.

Lemma incr_tags m e t v e' b :
  tags_touched m e -> update_acquired_value e t v = Ok (e', b) -> tags_touched (m ++ [MIncr t v]) e'.
Proof.
  intros Hm. unfold update_acquired_value. destruct (rsetGet _ _).
  { intros [= <- <-] p a Ha. apply touched_mono. by eapply Hm. }
  destruct (get_or_add e t) as [e1 [p a]] eqn:Hget. intros Heq.
  assert (oz_aset e' = write_ase (oz_aset e1) p
    (mkOzAse (oz_t a) (oz_x a) (dadd (oz_inc a) v) (dadd (oz_count a) (abs_value v)))) as Has.
  { case_decide; [by simplify_eq|]. apply bind_Ok_inv in Heq as (b0 & _ & Heq).
    by destruct b0; simplify_eq. }
  intros q c Hc. rewrite Has in Hc.
  eapply (get_or_add_tags e t e1 p a) in Hc as [->|(r & d & Hd & <-)]; [| |exact Hget|done].
  - by apply touched_step.
  - apply touched_mono. by eapply Hm.
Qed.

Lemma rem_tags m e t : tags_touched m e -> tags_touched (m ++ [MRem t]) (remove_tag e t).
Proof.
  intros Hm p a Ha. apply touched_mono, (Hm p). revert Ha. unfold remove_tag.
  destruct (rsetGet _ _); [done|]. destruct (asetGet _ _) as [[q b]|]; simpl; [|done].
  intros Ha. eapply elem_of_submseteq; [exact Ha|]. apply sublist_submseteq, aset_del_sublist.
Qed.

Lemma resort_aset e e' : resort e = Ok e' -> oz_aset e' = oz_aset e.
Proof.
  unfold resort. destruct (oz_innate e), (oz_acquired e); try by intros [= <-].
  all: generalize (oz_aset e) at 1; intros L; revert e; induction L as [|[p a] L IH]; intros e;
    [by intros [= <-]|]; cbn [foldM]; intros (e1 & H1 & H2)%bind_Ok_inv; rewrite (IH _ H2);
    unfold resort_step in H1; apply bind_Ok_inv in H1 as (b1 & _ & H1);
    apply bind_Ok_inv in H1 as (b2 & _ & [= <-]); by destruct b1, b2.
Qed.

Lemma live_entry m e t :
  oz_core m e -> tags_touched m e -> live m t <-> exists p a, (p, a) ∈ oz_aset e /\ oz_t a = t.
Proof.
  intros Hcore Htt. split.
  - intros [H1 H2]. by apply (oi_all _ _ Hcore).
  - intros (p & a & Ha & <-). split; [by eapply Htt|]. apply (eo_live _ _ (oi_ok _ _ Hcore p a Ha)).
Qed.

Lemma weight_zero_sum m t : weight m t = 0 -> isum (incs_of m t) = 0.
Proof. unfold weight. pose proof (isum_iabs (incs_of m t)). lia. Qed.

(** The score of an element with no missing value can be read, and is the
    specified one when the element is visible. *)
Lemma SCORE_ok m e :
  oz_inv m false e -> tags_touched m e -> all_added m ->
  exists sc, SCORE e = Ok sc /\ (LOOKUP e = true -> score_spec m sc).
Proof.
  intros (Hcore & Hinn & Hacq) Htt Hadd. pose proof (oi_addr _ _ Hcore) as Hnd.
  assert (forall u, live m u <-> exists p a, (p, a) ∈ oz_aset e /\ oz_t a = u) as Hlive
    by (intros u; by apply live_entry).
  assert (forall p a, (p, a) ∈ oz_aset e -> oz_x a <> None) as Hx.
  { intros p a Ha. destruct (oi_ok _ _ Hcore p a Ha) as [_ Hl Hxo _ _]. rewrite Hxo.
    apply Hadd; [by eapply Htt|done]. }
  unfold SCORE, innate_ok, acquired_ok in *. destruct (oz_innate e) as [p|].
  - destruct Hinn as (a & Ha & Hmax). rewrite (proj1 (deref_elem _ p a Hnd) Ha). simpl.
    destruct (oi_ok _ _ Hcore p a Ha) as [_ _ Hxo _ _].
    destruct (oz_x a) as [v|] eqn:Hv; [|by destruct (Hx p a Ha)]. simpl.
    assert (forall sc r,
      (forall u, live m u -> weight m u = 0 \/ weight m u < weight m r \/
         (weight m u = weight m r /\ ~ tag_lt r u)) -> (live m r \/ weight m r = 0) ->
      sc = dadd v (double_of_Z (isum (incs_of m r))) -> score_spec m sc) as Hspec.
    { intros sc r Hr Hlr ->. exists (oz_t a), v, r. split_and!; [| |done..].
      - apply Hlive. by exists p, a.
      - intros u (q & b & Hb & <-)%Hlive. by apply (Hmax q b Hb), (Hx q). }
    destruct (oz_acquired e) as [q|].
    + destruct Hacq as (c & Hc & Hcm). rewrite (proj1 (deref_elem _ q c Hnd) Hc). simpl.
      eexists. split; [done|]. intros _. destruct (oi_ok _ _ Hcore q c Hc) as [_ _ _ Hi _].
      apply (Hspec _ (oz_t c)); [|left; apply Hlive; by exists q, c|by rewrite Hi].
      intros u (r & b & Hb & <-)%Hlive. apply (Hcm r b Hb).
    + eexists. split; [done|]. intros _. apply (Hspec _ (oz_t a)).
      * intros u (r & b & Hb & <-)%Hlive. left. by apply (Hacq eq_refl r b).
      * right. by apply (Hacq eq_refl p a).
      * by rewrite (weight_zero_sum m (oz_t a) (Hacq eq_refl p a Ha)).
  - assert (oz_aset e = []) as Hnil.
    { destruct (oz_aset e) as [|[p a] L]; [done|]. destruct (Hx p a); [by left|].
      apply (Hinn eq_refl p). by left. }
    unfold LOOKUP. rewrite Hnil in *. destruct (oz_acquired e) as [q|]; [|by eexists].
    destruct Hacq as (c & ?%elem_of_nil & _). done.
Qed.

(** The specified score is one score, whatever the order of the steps. *)
Definition adds_unique (m : list oz_micro) : Prop :=
  forall t v v', MAdd t v ∈ m -> MAdd t v' ∈ m -> v = v'.

Lemma x_of_elem m t v : x_of m t = Some v -> MAdd t v ∈ m.
Proof.
  unfold x_of. induction m as [|o m IH] using rev_ind; [done|]. rewrite foldl_app. simpl.
  unfold x_step at 1. destruct o as [u w|u w|u]; try (intros H; apply elem_of_app; left; by apply IH).
  case_decide as Hd; [|intros H; apply elem_of_app; left; by apply IH].
  subst. intros [= ->]. apply elem_of_app. right. by left.
Qed.

Lemma weight_perm m1 m2 t : m1 ≡ₚ m2 -> weight m1 t = weight m2 t.
Proof. intros Hp. unfold weight, incs_of. apply iabs_perm. by rewrite Hp. Qed.

Lemma oz_live_perm m1 m2 t : m1 ≡ₚ m2 -> live m1 t <-> live m2 t.
Proof. intros Hp. unfold live, touched. by rewrite Hp. Qed.

Lemma score_spec_unique m1 m2 sc1 sc2 :
  m1 ≡ₚ m2 -> adds_unique m1 -> score_spec m1 sc1 -> score_spec m2 sc2 -> sc1 = sc2.
Proof.
  intros Hp Hu (t1 & v1 & r1 & Hl1 & Ht1 & Hx1 & Hr1 & Hrl1 & ->) (t2 & v2 & r2 & Hl2 & Ht2 & Hx2 & Hr2 & Hrl2 & ->).
  assert (forall u, live m2 u <-> live m1 u) as Hlive by (intros u; symmetry; by apply oz_live_perm).
  assert (forall u, weight m2 u = weight m1 u) as Hw by (intros u; symmetry; by apply weight_perm).
  assert (t1 = t2) as <-.
  { destruct (tag_trichotomy t1 t2) as [H|[H|H]]; [|done|].
    - by destruct (Ht1 t2); [apply Hlive|].
    - by destruct (Ht2 t1); [apply Hlive|]. }
  assert (v1 = v2) as <-.
  { apply (Hu t1); [by apply x_of_elem|]. rewrite Hp. by apply x_of_elem. }
  f_equal. f_equal.
  assert (isum (incs_of m2 r2) = isum (incs_of m1 r2)) as ->.
  { apply isum_perm. unfold incs_of. by rewrite Hp. }
  rewrite Hw in *. setoid_rewrite Hw in Hr2. rewrite Hlive in *. setoid_rewrite Hlive in Hr2.
  pose proof (oz_weight_nonneg m1 r1). pose proof (oz_weight_nonneg m1 r2).
  destruct (decide (weight m1 r1 = 0)) as [Z1|Z1], (decide (weight m1 r2 = 0)) as [Z2|Z2].
  - by rewrite !weight_zero_sum.
  - destruct Hrl2 as [Hrl2|]; [|done]. specialize (Hr1 r2 Hrl2). lia.
  - destruct Hrl1 as [Hrl1|]; [|done]. specialize (Hr2 r1 Hrl1). lia.
  - destruct Hrl1 as [Hrl1|]; [|done]. destruct Hrl2 as [Hrl2|]; [|done].
    specialize (Hr1 r2 Hrl2). specialize (Hr2 r1 Hrl1).
    destruct (tag_trichotomy r1 r2) as [H1|[->|H1]]; [|done|]; exfalso.
    + destruct Hr1 as [|[|[_ ?]]]; [lia| |done]. destruct Hr2 as [|[|[? _]]]; lia.
    + destruct Hr2 as [|[|[_ ?]]]; [lia| |done]. destruct Hr1 as [|[|[? _]]]; lia.
Qed.

Lemma int_steps_prefix m m' : int_steps (m ++ m') -> int_steps m.
Proof.
  revert m. induction m' as [|o m' IH]; intros m H; [by rewrite app_nil_r in H|].
  apply (int_steps_app m o). apply (IH (m ++ [o])). by rewrite <- (assoc_L (++)).
Qed.

Lemma incr_run ts v m e ch :
  oz_inv m false e -> tags_touched m e -> int_steps (m ++ ((fun t => MIncr t v) <$> ts)) ->
  exists e' ch', foldM (incr_step v) (e, ch) ts = Ok (e', ch') /\
    oz_inv (m ++ ((fun t => MIncr t v) <$> ts)) false e' /\
    tags_touched (m ++ ((fun t => MIncr t v) <$> ts)) e'.
Proof.
  revert m e ch. induction ts as [|t ts IH]; intros m e ch Hinv Htt Hint.
  - exists e, ch. simpl. by rewrite app_nil_r.
  - rewrite fmap_cons, cons_middle, (assoc_L (++)) in *.
    destruct (oz_incr_step m e t v Hinv) as (e1 & b & Hstep & Hinv1); [by eapply int_steps_prefix|].
    pose proof (incr_tags m e t v e1 b Htt Hstep) as Htt1. cbn [foldM]. unfold incr_step at 2.
    rewrite Hstep. cbn [mbind res_bind]. by apply IH.
Qed.

Lemma inv_dirty m d e : oz_inv m d e -> oz_inv m true e.
Proof.
  intros (Hcore & Hinn & Hacq). split_and!; [done| |]; unfold innate_ok, acquired_ok in *.
  - by destruct (oz_innate e).
  - by destruct (oz_acquired e).
Qed.

Lemma rem_run ts m d e :
  oz_inv m d e -> tags_touched m e -> Forall wf_lc ts ->
  oz_inv (m ++ (MRem <$> ts)) true (foldl remove_tag e ts) /\
  tags_touched (m ++ (MRem <$> ts)) (foldl remove_tag e ts).
Proof.
  intros Hinv%inv_dirty Htt Hts. revert m e Hinv Htt. induction Hts as [|t ts Ht Hts IH]; intros m e Hinv Htt.
  - simpl. by rewrite app_nil_r.
  - rewrite fmap_cons, cons_middle, (assoc_L (++)). simpl.
    apply IH; [by eapply oz_rem_step|by apply rem_tags].
Qed.

Lemma resort_both e e' :
  resort e = Ok e' ->
  match oz_innate e, oz_acquired e with
  | Some _, Some _ => Ok (e, [])
  | _, _ => e ← resort e; if LOOKUP e then sc ← SCORE e; Ok (e, [ZAdd sc]) else Ok (e, [ZDel])
  end = match oz_innate e, oz_acquired e with
        | Some _, Some _ => Ok (e', [])
        | _, _ => if LOOKUP e' then sc ← SCORE e'; Ok (e', [ZAdd sc]) else Ok (e', [ZDel])
        end.
Proof.
  intros H. rewrite H. cbn [mbind res_bind]. unfold resort in H.
  destruct (oz_innate e), (oz_acquired e); try done. by injection H as ->.
Qed.

Lemma oz_effect_ok m e acts o :
  oz_inv m false e -> tags_touched m e -> int_steps (m ++ micros o) -> all_added (m ++ micros o) ->
  exists e' new, oz_effect (e, acts) o = Ok (e', acts ++ new) /\
    oz_inv (m ++ micros o) false e' /\ tags_touched (m ++ micros o) e'.
Proof.
  intros Hinv Htt Hint Hadd. destruct o as [t v|ts v|ts]; simpl in *.
  - destruct (oz_add_step m e t v Hinv Hint) as (e' & b & Hstep & Hinv').
    pose proof (add_tags m e t v e' b Htt Hstep) as Htt'.
    destruct (SCORE_ok _ _ Hinv' Htt' Hadd) as (sc & Hsc & _).
    unfold ozadd_effect. rewrite Hstep. simpl. rewrite Hsc. by destruct b; eexists _, _.
  - destruct (incr_run ts v m e false Hinv Htt Hint) as (e' & b & Hstep & Hinv' & Htt').
    destruct (SCORE_ok _ _ Hinv' Htt' Hadd) as (sc & Hsc & _).
    unfold ozincrby_effect. rewrite Hstep. simpl. rewrite Hsc. by destruct b; eexists _, _.
  - assert (Forall wf_lc ts) as Hts.
    { destruct Hint as (_ & _ & HF). apply Forall_app in HF as [_ HF].
      by rewrite Forall_fmap in HF. }
    destruct (rem_run ts m false e Hinv Htt Hts) as [Hinv1 Htt1].
    destruct (oz_resort_step _ _ Hinv1 Hint) as (e' & Hres & Hinv').
    assert (tags_touched (m ++ (MRem <$> ts)) e') as Htt'.
    { intros p a Ha. rewrite (resort_aset _ _ Hres) in Ha. by eapply Htt1. }
    destruct (SCORE_ok _ _ Hinv' Htt' Hadd) as (sc & Hsc & _).
    unfold ozrem_effect. rewrite (resort_both _ e' Hres), Hsc.
    destruct (oz_innate (foldl remove_tag e ts)), (oz_acquired (foldl remove_tag e ts)), (LOOKUP e');
      by eexists _, _.
Qed.

(** Histories whose increments reach the replica after the adds they saw: at
    every point what was incremented was added or removed. *)
Definition in_order (l : list oz_op) : Prop :=
  forall k, all_added (concat (micros <$> take k l)).

Lemma oz_run l e acts m :
  oz_inv m false e -> tags_touched m e -> int_steps (m ++ concat (micros <$> l)) ->
  (forall k, all_added (m ++ concat (micros <$> take k l))) ->
  exists e' acts', foldM oz_effect (e, acts) l = Ok (e', acts') /\
    oz_inv (m ++ concat (micros <$> l)) false e' /\ tags_touched (m ++ concat (micros <$> l)) e'.
Proof.
  revert e acts m. induction l as [|o l IH]; intros e acts m Hinv Htt Hint Hadd.
  - exists e, acts. simpl. by rewrite app_nil_r.
  - rewrite fmap_cons in *. simpl concat in *. rewrite (assoc_L (++)) in *.
    destruct (oz_effect_ok m e acts o Hinv Htt) as (e1 & new & Hstep & Hinv1 & Htt1).
    + by eapply int_steps_prefix.
    + specialize (Hadd 1%nat). simpl in Hadd. by rewrite app_nil_r in Hadd.
    + cbn [foldM]. rewrite Hstep. cbn [mbind res_bind]. apply IH; [done..|].
      intros k. specialize (Hadd (S k)). simpl in Hadd. by rewrite (assoc_L (++)) in Hadd.
Qed.

Lemma oz_inv_new : oz_inv [] false ozeNew /\ tags_touched [] ozeNew.
Proof.
  split; [|by intros p a Ha%elem_of_nil].
  split_and!; [split; simpl|by intros _ p a Ha%elem_of_nil..].
  - done.
  - constructor.
  - constructor.
  - constructor.
  - intros p a q b Ha. by apply elem_of_nil in Ha.
  - intros p a Ha. by apply elem_of_nil in Ha.
  - intros t Ht. by apply Exists_nil in Ht.
Qed.

Lemma int_steps_perm m1 m2 : m1 ≡ₚ m2 -> int_steps m1 -> int_steps m2.
Proof.
  intros Hp (H1 & H2 & H3). unfold int_steps, all_incs in *. split_and!.
  - by rewrite <- Hp.
  - intros t. by rewrite <- (weight_perm _ _ _ Hp).
  - by rewrite <- Hp.
Qed.

Lemma LOOKUP_live m e :
  oz_core m e -> tags_touched m e -> LOOKUP e = true <-> exists t, live m t.
Proof.
  intros Hcore Htt. pose proof (fun t => live_entry m e t Hcore Htt) as Hlive. unfold LOOKUP.
  destruct (oz_aset e) as [|[p a] L].
  - split; [done|]. intros (t & (p & a & Ha & _)%Hlive). by apply elem_of_nil in Ha.
  - split; [|done]. intros _. exists (oz_t a). apply Hlive. exists p, a. split; [by left|done].
Qed.

Lemma oz_LOOKUP_perm m1 m2 e1 e2 :
  m1 ≡ₚ m2 -> oz_inv m1 false e1 -> tags_touched m1 e1 -> oz_inv m2 false e2 -> tags_touched m2 e2 ->
  LOOKUP e1 = LOOKUP e2.
Proof.
  intros Hp (H1 & _) T1 (H2 & _) T2. apply eq_true_iff_eq.
  rewrite (LOOKUP_live m1 e1 H1 T1), (LOOKUP_live m2 e2 H2 T2).
  split; intros [t Ht]; exists t; by apply (oz_live_perm m1 m2 _ Hp).
Qed.

(** A check of [in_order], for concrete sequences. *)
Definition tags_of (m : list oz_micro) : list lc :=
  omap (fun o => match o with MAdd t _ | MIncr t _ => Some t | MRem _ => None end) m.
Definition added_b (m : list oz_micro) : bool :=
  forallb (fun t => bool_decide (MRem t ∈ m) || bool_decide (x_of m t <> None)) (tags_of m).
Definition in_order_b (l : list oz_op) : bool :=
  forallb (fun k => added_b (concat (micros <$> take k l))) (seq 0 (S (length l))).

Lemma in_order_check l : in_order_b l = true -> in_order l.
Proof.
  unfold in_order_b, in_order, added_b. rewrite forallb_forall. intros H k t Ht Hl.
  assert (take k l = take (k `min` length l) l) as Hk.
  { destruct (decide (k <= length l)%nat); [by rewrite Nat.min_l by lia|].
    rewrite Nat.min_r by lia. by rewrite firstn_all, take_ge by lia. }
  rewrite Hk in *. specialize (H (k `min` length l)%nat).
  rewrite forallb_forall in H. specialize (H ltac:(apply in_seq; lia) t).
  assert (In t (tags_of (concat (micros <$> take (k `min` length l) l)))) as Hin.
  { apply list_elem_of_In. unfold tags_of. rewrite list_elem_of_omap.
    unfold touched in Ht. apply Exists_exists in Ht as (o & Ho & Hot). exists o. split; [done|].
    destruct o; try done; by subst. }
  specialize (H Hin). apply orb_true_iff in H as [H|H]; apply bool_decide_eq_true in H; done.
Qed.

(** ** Properties *)

(** two replicas that received the same adds, increments and
    removes of an element, each in an order in which increments follow the adds
    they saw, agree on whether the element is visible and on its score, bit for
    bit, when the increments are integers and the magnitudes of those of one
    add add up to less than 2^53.  The score is the value of the largest live tag plus the increments
    of the live tag with the heaviest increments. *)
Theorem oz_converges l1 l2 :
  l1 ≡ₚ l2 -> int_steps (concat (micros <$> l1)) -> adds_unique (concat (micros <$> l1)) ->
  in_order l1 -> in_order l2 ->
  exists e1 a1 e2 a2,
    foldM oz_effect (ozeNew, []) l1 = Ok (e1, a1) /\ foldM oz_effect (ozeNew, []) l2 = Ok (e2, a2) /\
    LOOKUP e1 = LOOKUP e2 /\
    (LOOKUP e1 = true -> exists sc, SCORE e1 = Ok sc /\ SCORE e2 = Ok sc /\
       score_spec (concat (micros <$> l1)) sc).
Proof.
  intros Hp Hint Hu Ho1 Ho2. destruct oz_inv_new as [H0 T0].
  assert (concat (micros <$> l1) ≡ₚ concat (micros <$> l2)) as Hpm by (by rewrite Hp).
  assert (int_steps (concat (micros <$> l2))) as Hint2 by (by apply (int_steps_perm _ _ Hpm)).
  destruct (oz_run l1 ozeNew [] [] H0 T0 Hint Ho1) as (e1 & a1 & Hr1 & Hi1 & Ht1).
  destruct (oz_run l2 ozeNew [] [] H0 T0 Hint2 Ho2) as (e2 & a2 & Hr2 & Hi2 & Ht2).
  exists e1, a1, e2, a2. simpl in *.
  pose proof (Ho1 (length l1)) as Hadd1. pose proof (Ho2 (length l2)) as Hadd2. rewrite firstn_all in *.
  assert (LOOKUP e1 = LOOKUP e2) as HL by (by apply (oz_LOOKUP_perm _ _ _ _ Hpm)).
  split_and!; [done..|]. intros Hl1. pose proof Hl1 as Hl2. rewrite HL in Hl2.
  destruct (SCORE_ok _ _ Hi1 Ht1 Hadd1) as (sc1 & Hs1 & Hsp1).
  destruct (SCORE_ok _ _ Hi2 Ht2 Hadd2) as (sc2 & Hs2 & Hsp2).
  assert (sc1 = sc2) as <- by (by apply (score_spec_unique _ _ _ _ Hpm Hu); auto).
  exists sc1. auto.
Qed.

Lemma oz_converges_witness :
  let t1 := mkLc 0 0 in let t2 := mkLc 0 1 in
  let l1 := [OzAdd t1 (double_of_Z 5); OzAdd t2 (double_of_Z 7); OzIncr [t1; t2] (double_of_Z 3);
             OzRem [t1]; OzIncr [t2] (double_of_Z (-1))] in
  let l2 := [OzAdd t2 (double_of_Z 7); OzIncr [t2] (double_of_Z (-1)); OzRem [t1];
             OzAdd t1 (double_of_Z 5); OzIncr [t1; t2] (double_of_Z 3)] in
  exists e1 a1 e2 a2,
    foldM oz_effect (ozeNew, []) l1 = Ok (e1, a1) /\ foldM oz_effect (ozeNew, []) l2 = Ok (e2, a2) /\
    LOOKUP e1 = LOOKUP e2 /\
    (LOOKUP e1 = true -> exists sc, SCORE e1 = Ok sc /\ SCORE e2 = Ok sc /\
       score_spec (concat (micros <$> l1)) sc).
Proof.
  intros t1 t2 l1 l2. apply (oz_converges l1 l2).
  - apply (bool_decide_unpack _). vm_compute. exact I.
  - split_and!; [repeat constructor| |repeat constructor; done].
    intros t. eapply Z.le_lt_trans; [apply weight_bound|]. by vm_compute.
  - intros t v v' H1 H2. subst l1. simpl in H1, H2.
    repeat (apply elem_of_cons in H1 as [H1|H1]); try done; try (by apply elem_of_nil in H1);
      repeat (apply elem_of_cons in H2 as [H2|H2]); try done; try (by apply elem_of_nil in H2);
      by simplify_eq.
  - apply in_order_check. vm_compute. reflexivity.
  - apply in_order_check. vm_compute. reflexivity.
Defined.

