(* ===== verification/OzMirror.v ===== *)
(** * Add-win queue: what the effects tell the sorted set

    An effect makes one call at most; after it the sorted set shows an element
    exactly when it has an add that is not removed, with the score the element
    then has.  Where an effect makes no call, the score did not change. *)

From S2P Require Import Prelude Sds LamportClock Double Exact OZset.

(** ** Scores that do not change *)

Definition x_at (m : list (nat * oz_ase)) (p : nat) : res double := a ← deref m p; of_option Uninitialised (oz_x a).
Definition inc_at (m : list (nat * oz_ase)) (p : nat) : res double := a ← deref m p; Ok (oz_inc a).

Lemma SCORE_same e e' :
  oz_innate e' = oz_innate e -> oz_acquired e' = oz_acquired e ->
  (forall q, oz_innate e = Some q -> x_at (oz_aset e') q = x_at (oz_aset e) q) ->
  (forall q, oz_acquired e = Some q -> inc_at (oz_aset e') q = inc_at (oz_aset e) q) ->
  SCORE e' = SCORE e.
Proof.
  intros Hi Ha Hx Hinc. unfold SCORE. rewrite Hi, Ha. fold (x_at (oz_aset e')) (x_at (oz_aset e)).
  destruct (oz_innate e) as [p|]; [specialize (Hx p eq_refl); unfold x_at in Hx; rewrite Hx|].
  all: destruct (oz_acquired e) as [q|]; [specialize (Hinc q eq_refl); unfold inc_at in Hinc; rewrite Hinc|]; done.
Qed.

Lemma deref_write m p a q : q <> p -> deref (write_ase m p a) q = deref m q.
Proof.
  intros Hne. unfold write_ase. induction m as [|[r b] m IH]; [done|]. cbn [fmap list_fmap fst].
  destruct (decide (r = p)) as [->|]; cbn [deref]; [rewrite !decide_False by done; exact IH|].
  destruct (decide (r = q)) as [->|]; [by rewrite !decide_True|by rewrite !decide_False].
Qed.

Lemma deref_del m t p a q : asetGet m t = Some (p, a) -> q <> p -> deref (aset_del m t) q = deref m q.
Proof.
  intros Hget Hne. induction m as [|[r b] m IH]; [done|]. cbn [asetGet aset_del] in *.
  destruct (same_tag t (oz_t b)); cbn [deref].
  - injection Hget as -> ->. by rewrite decide_False by done.
  - by rewrite IH.
Qed.

Lemma deref_more (m l : list (nat * oz_ase)) q b : deref m q = Ok b -> deref (m ++ l) q = Ok b.
Proof. induction m as [|[r c] m IH]; [done|]. cbn [deref app]. by case_decide; [|apply IH]. Qed.

Lemma LOOKUP_in e p a : (p, a) ∈ oz_aset e -> LOOKUP e = true.
Proof. unfold LOOKUP. destruct (oz_aset e); [by intros ?%elem_of_nil|done]. Qed.

(** The pointers of an element. *)
Lemma innate_in m d e q : oz_inv m d e -> oz_innate e = Some q -> exists a, (q, a) ∈ oz_aset e /\ deref (oz_aset e) q = Ok a.
Proof.
  intros (Hc & Hi & _) Hq. unfold innate_ok in Hi. rewrite Hq in Hi. destruct Hi as (a & Ha & _). exists a. split; [done|].
  by apply deref_elem; [apply (oi_addr _ _ Hc)|].
Qed.

Lemma acquired_in m d e q : oz_inv m d e -> oz_acquired e = Some q -> exists a, (q, a) ∈ oz_aset e /\ deref (oz_aset e) q = Ok a.
Proof.
  intros (Hc & _ & Hi) Hq. unfold acquired_ok in Hi. rewrite Hq in Hi. destruct Hi as (a & Ha & _). exists a. split; [done|].
  by apply deref_elem; [apply (oi_addr _ _ Hc)|].
Qed.

Lemma acquired_LOOKUP m d e q : oz_inv m d e -> oz_acquired e = Some q -> LOOKUP e = true.
Proof. intros Hinv Hq. destruct (acquired_in _ _ _ _ Hinv Hq) as (a & Ha & _). by eapply LOOKUP_in. Qed.

Lemma innate_LOOKUP m d e q : oz_inv m d e -> oz_innate e = Some q -> LOOKUP e = true.
Proof. intros Hinv Hq. destruct (innate_in _ _ _ _ Hinv Hq) as (a & Ha & _). by eapply LOOKUP_in. Qed.

(** What [get_or_add] leaves as it was. *)
Lemma get_or_add_keeps e t e1 p a q b :
  get_or_add e t = (e1, (p, a)) ->
  (deref (oz_aset e) q = Ok b -> deref (oz_aset e1) q = Ok b) /\
  oz_innate e1 = oz_innate e /\ oz_acquired e1 = oz_acquired e /\ oz_current e1 = oz_current e.
Proof.
  unfold get_or_add, add_ase. destruct (asetGet (oz_aset e) t) as [[r c]|]; intros [= <- <- <-]; cbn; split_and!; try done.
  apply deref_more.
Qed.

Lemma write_LOOKUP e p a : LOOKUP (set_aset e (write_ase (oz_aset e) p a)) = LOOKUP e.
Proof. unfold LOOKUP, write_ase. cbn. by destruct (oz_aset e). Qed.

(** ** Adds *)

Lemma x_of_added m t v : MAdd t v ∈ m -> x_of m t <> None.
Proof.
  unfold x_of. induction m as [|o m IH] using rev_ind; [by intros ?%elem_of_nil|]. rewrite foldl_app. cbn [foldl].
  intros [Hin|Heq%list_elem_of_singleton]%elem_of_app.
  - specialize (IH Hin). destruct o; cbn [x_step]; try done. by case_decide.
  - subst o. cbn [x_step]. by rewrite decide_True.
Qed.

(** A tag that was not added before has no entry. *)
Lemma fresh_tag m e t :
  oz_core m e -> tags_touched m e -> all_added m -> wf_lc t -> (forall v, MAdd t v ∉ m) -> asetGet (oz_aset e) t = None.
Proof.
  intros Hc Htt Hadd Ht Hno. destruct (asetGet (oz_aset e) t) as [[p a]|] eqn:Hg; [|done]. exfalso.
  destruct (asetGet_Some _ _ _ _ (core_wf _ _ Hc) Ht Hg) as [Hin <-].
  pose proof (Hadd _ (Htt _ _ Hin) (eo_live _ _ (oi_ok _ _ Hc _ _ Hin))) as Hx.
  destruct (x_of m (oz_t a)) as [v|] eqn:Hv; [|done]. by apply (Hno v), x_of_elem.
Qed.

Lemma add_unchanged m e t v e' :
  oz_inv m false e -> tags_touched m e -> all_added m -> wf_lc t -> (forall u, MAdd t u ∉ m) ->
  update_innate_value e t v = Ok (e', false) -> SCORE e' = SCORE e /\ LOOKUP e' = LOOKUP e.
Proof.
  intros Hinv Htt Hadd Ht Hno. pose proof Hinv as (Hc & _). unfold update_innate_value. destruct (rsetGet _ _); [by intros [= <-]|].
  unfold get_or_add. rewrite (fresh_tag m e t) by done. unfold add_ase. cbn [oz_t oz_inc oz_count].
  set (a := mkOzAse _ (Some v) _ _). set (e1 := mkOze _ _ _ _ _ _). intros (b & Hb & Heq)%bind_Ok_inv.
  destruct b; [done|]. injection Heq as <-.
  assert (forall q c, (q, c) ∈ oz_aset e -> deref (oz_aset e) q = Ok c ->
    deref (oz_aset (set_aset e1 (write_ase (oz_aset e1) (oz_fresh e) a))) q = Ok c) as Hkeep.
  { intros q c Hq Hd. cbn [oz_aset set_aset e1]. rewrite deref_write; [by apply deref_more|]. intros ->.
    pose proof (oi_fresh _ _ Hc) as Hfr. rewrite Forall_forall in Hfr. apply (list_elem_of_fmap_2 fst) in Hq. specialize (Hfr _ Hq). cbn in Hfr. lia. }
  split.
  - apply SCORE_same; [done|done| |]; intros q Hq.
    + destruct (innate_in _ _ _ _ Hinv Hq) as (c & Hin & Hd). pose proof (eq_trans (Hkeep q c Hin Hd) (eq_sym Hd)) as Hk.
      exact (f_equal (fun r : res oz_ase => a ← r; of_option Uninitialised (oz_x a)) Hk).
    + destruct (acquired_in _ _ _ _ Hinv Hq) as (c & Hin & Hd). pose proof (eq_trans (Hkeep q c Hin Hd) (eq_sym Hd)) as Hk.
      exact (f_equal (fun r : res oz_ase => a ← r; Ok (oz_inc a)) Hk).
  - unfold innate_below in Hb. cbn [oz_innate set_aset e1] in Hb. destruct (oz_innate e) as [q|] eqn:Hq; [|done].
    rewrite (innate_LOOKUP _ _ _ _ Hinv Hq), write_LOOKUP. unfold LOOKUP. cbn. by destruct (oz_aset e).
Qed.

Lemma update_innate_current e t v e' b :
  update_innate_value e t v = Ok (e', b) -> oz_current e' = oz_current e /\ (b = true -> exists q, oz_innate e' = Some q).
Proof.
  unfold update_innate_value. destruct (rsetGet _ _); [by intros [= <- <-]|]. destruct (get_or_add e t) as [e1 [p a]] eqn:Hg.
  destruct (get_or_add_keeps e t e1 p a 0 a Hg) as (_ & _ & _ & Hcur). intros (c & _ & Heq)%bind_Ok_inv.
  destruct c; injection Heq as <- <-; cbn; split; try done. by eexists.
Qed.

(** ** Increments *)

Lemma deref_written m p a c : deref m p = Ok c -> deref (write_ase m p a) p = Ok a.
Proof.
  unfold write_ase. induction m as [|[r b] m IH]; [done|]. cbn [deref fmap list_fmap fst].
  destruct (decide (p = r)) as [<-|Hne]; [by rewrite !decide_True|]. intros H. rewrite (decide_False (P := r = p)) by done.
  cbn [deref]. rewrite decide_False by done. by apply IH.
Qed.

Lemma incr_unchanged m e t v e' :
  oz_inv m false e -> wf_lc t -> update_acquired_value e t v = Ok (e', false) -> SCORE e' = SCORE e /\ LOOKUP e' = LOOKUP e.
Proof.
  intros Hinv Ht. unfold update_acquired_value. destruct (rsetGet _ _) eqn:Hrs; [by intros [= <-]|].
  rewrite (oi_rset _ _ (proj1 Hinv) t Ht) in Hrs. apply bool_decide_eq_false in Hrs.
  destruct (get_or_add_inv m false e t Hinv Ht Hrs) as (e0 & p0 & a0 & Hg0 & (Hc1 & _) & Hin1 & _).
  destruct (get_or_add e t) as [e1 [p a]] eqn:Hg. injection Hg0 as <- <- <-. cbv zeta. set (a' := mkOzAse _ _ _ _).
  pose proof (fun q b => get_or_add_keeps e t e1 p a q b Hg) as Hkeep. destruct (Hkeep 0%nat a) as (_ & Hi & Ha & _).
  cbn [oz_acquired set_aset]. case_decide as Hself; [done|]. intros (b & Hb & Heq)%bind_Ok_inv. destruct b; [done|]. injection Heq as <-.
  unfold acquired_below in Hb. cbn [oz_acquired set_aset] in Hb. rewrite Ha in Hb, Hself.
  destruct (oz_acquired e) as [q|] eqn:Hq; [|done]. split.
  - apply SCORE_same; cbn [oz_innate oz_acquired oz_aset set_aset]; [done|congruence| |]; intros r Hr.
    + destruct (innate_in _ _ _ _ Hinv Hr) as (c & _ & Hd). pose proof (proj1 (Hkeep r c) Hd) as Hd1. unfold x_at. rewrite Hd.
      destruct (decide (r = p)) as [->|Hne]; [|by rewrite deref_write, Hd1].
      apply (deref_elem _ _ _ (oi_addr _ _ Hc1)) in Hin1. rewrite (deref_written _ p a' c) by done. cbn [mbind res_bind oz_x a'].
      by assert (c = a) as -> by congruence.
    + rewrite Hq in Hr. injection Hr as <-. destruct (acquired_in _ _ _ _ Hinv Hq) as (c & _ & Hd). pose proof (proj1 (Hkeep q c) Hd) as Hd1.
      unfold inc_at. rewrite deref_write, Hd1, Hd by congruence. done.
  - rewrite (acquired_LOOKUP _ _ _ _ Hinv Hq), write_LOOKUP. destruct (acquired_in _ _ _ _ Hinv Hq) as (c & _ & Hd).
    pose proof (proj1 (Hkeep q c) Hd) as Hd1. unfold LOOKUP. by destruct (oz_aset e1).
Qed.

Lemma update_acquired_current e t v e' b :
  update_acquired_value e t v = Ok (e', b) ->
  oz_current e' = oz_current e /\ (b = true \/ (exists q, oz_acquired e = Some q) -> exists q, oz_acquired e' = Some q).
Proof.
  unfold update_acquired_value. destruct (rsetGet _ _); [intros [= <- <-]; split; [done|]; by intros [?|?]|].
  destruct (get_or_add e t) as [e1 [p a]] eqn:Hg. destruct (get_or_add_keeps e t e1 p a 0 a Hg) as (_ & _ & Ha & Hcur).
  cbn [oz_acquired set_aset]. case_decide as Hself; [intros [= <- <-]; cbn; split; [done|]; by exists p|].
  intros (c & _ & Heq)%bind_Ok_inv. destruct c; injection Heq as <- <-; cbn; split; try done; [by eexists|].
  rewrite Ha. by intros [?|?].
Qed.

Lemma incr_fold v ts : forall m e ch e' ch',
  oz_inv m false e -> tags_touched m e -> int_steps (m ++ ((fun t => MIncr t v) <$> ts)) ->
  foldM (incr_step v) (e, ch) ts = Ok (e', ch') ->
  oz_current e' = oz_current e /\
  (ch' = false -> SCORE e' = SCORE e /\ LOOKUP e' = LOOKUP e) /\
  ((ch = true -> exists q, oz_acquired e = Some q) -> ch' = true -> exists q, oz_acquired e' = Some q).
Proof.
  induction ts as [|t ts IH]; intros m e ch e' ch' Hinv Htt Hint Hf; [by injection Hf as <- <-|].
  rewrite fmap_cons, cons_middle, (assoc_L (++)) in Hint. pose proof (int_steps_prefix _ _ Hint) as Hint1.
  destruct (oz_incr_step m e t v Hinv Hint1) as (e1 & b & Hstep & Hinv1). pose proof (step_wf _ _ Hint1) as Ht. cbn in Ht.
  pose proof (incr_tags m e t v e1 b Htt Hstep) as Htt1.
  cbn [foldM] in Hf. unfold incr_step at 2 in Hf. rewrite Hstep in Hf. cbn [mbind res_bind] in Hf.
  destruct (IH _ _ _ _ _ Hinv1 Htt1 Hint Hf) as (Hcur & Hsame & Hacq).
  destruct (update_acquired_current e t v e1 b Hstep) as [Hcur1 Hacq1]. split_and!; [congruence| |].
  - intros ->. destruct (Hsame eq_refl) as [-> ->]. destruct b; [|by eapply incr_unchanged].
    exfalso. clear -Hf. rewrite orb_true_r in Hf. revert e1 Hf. induction ts as [|u ts IH]; intros e1 Hf; [done|].
    cbn [foldM] in Hf. apply bind_Ok_inv in Hf as ([e2 c] & H2 & Hf). unfold incr_step in H2.
    apply bind_Ok_inv in H2 as ([e3 d] & _ & H2). cbn in H2. injection H2 as <- <-. by eapply IH.
  - intros Hch Hch'. apply Hacq; [|done]. intros [->| ->]%orb_true_iff; apply Hacq1; [right; by apply Hch|by left].
Qed.

(** ** Removes *)

Lemma remove_keeps e t q :
  oz_current (remove_tag e t) = oz_current e /\
  (oz_innate (remove_tag e t) = Some q -> oz_innate e = Some q /\ deref (oz_aset (remove_tag e t)) q = deref (oz_aset e) q) /\
  (oz_acquired (remove_tag e t) = Some q -> oz_acquired e = Some q /\ deref (oz_aset (remove_tag e t)) q = deref (oz_aset e) q).
Proof.
  unfold remove_tag. destruct (rsetGet _ _); [done|]. destruct (asetGet (oz_aset e) t) as [[p a]|] eqn:Hg; cbn; [|done].
  split_and!; [done|..]; (case_decide as Hd; [done|]); intros Hq; (split; [done|]); apply (deref_del _ _ _ _ _ Hg); congruence.
Qed.

Lemma removes_keep ts : forall e q,
  oz_current (foldl remove_tag e ts) = oz_current e /\
  (oz_innate (foldl remove_tag e ts) = Some q ->
     oz_innate e = Some q /\ deref (oz_aset (foldl remove_tag e ts)) q = deref (oz_aset e) q) /\
  (oz_acquired (foldl remove_tag e ts) = Some q ->
     oz_acquired e = Some q /\ deref (oz_aset (foldl remove_tag e ts)) q = deref (oz_aset e) q).
Proof.
  induction ts as [|t ts IH]; intros e q; [done|]. cbn [foldl]. destruct (IH (remove_tag e t) q) as (Hc & Hi & Ha).
  destruct (remove_keeps e t q) as (Hc1 & Hi1 & Ha1). split_and!; [congruence|..].
  - intros H. destruct (Hi H) as [H1 ->]. by destruct (Hi1 H1) as [? ->].
  - intros H. destruct (Ha H) as [H1 ->]. by destruct (Ha1 H1) as [? ->].
Qed.

Lemma resort_current e e' : resort e = Ok e' -> oz_current e' = oz_current e.
Proof.
  unfold resort. destruct (oz_innate e), (oz_acquired e); try by intros [= <-].
  all: generalize (oz_aset e) at 1; intros L; revert e; induction L as [|[p a] L IH]; intros e;
    [by intros [= <-]|]; cbn [foldM]; intros (e1 & H1 & H2)%bind_Ok_inv; rewrite (IH _ H2);
    unfold resort_step in H1; apply bind_Ok_inv in H1 as (b1 & _ & H1);
    apply bind_Ok_inv in H1 as (b2 & _ & [= <-]); by destruct b1, b2.
Qed.

(** ** Whole effects *)

(** What the sorted set has for an element. *)
Definition shows (mir : option double) (e : oze) : Prop :=
  if LOOKUP e then exists sc, SCORE e = Ok sc /\ mirrors mir true sc else mir = None.

Lemma shows_same mir e e' : SCORE e' = SCORE e -> LOOKUP e' = LOOKUP e -> shows mir e -> shows mir e'.
Proof. unfold shows. by intros -> ->. Qed.

Lemma shows_add mir e sc : LOOKUP e = true -> SCORE e = Ok sc -> shows (zmirror mir [ZAdd sc]) e.
Proof. unfold shows. intros -> Hs. exists sc. split; [done|]. apply mirrors_add. Qed.

Definition calls_fit (e e' : oze) (new : list zact) : Prop :=
  oz_current e' = oz_current e /\ (length new <= 1)%nat /\
  (forall sc, ZAdd sc ∈ new -> LOOKUP e' = true /\ SCORE e' = Ok sc) /\
  forall mir, shows mir e -> shows (zmirror mir new) e'.

Lemma calls_fit_none e e' : oz_current e' = oz_current e -> SCORE e' = SCORE e -> LOOKUP e' = LOOKUP e -> calls_fit e e' [].
Proof.
  intros Hc Hs Hl. split_and!; [done|cbn; lia|by intros sc ?%elem_of_nil|]. intros mir. by apply shows_same.
Qed.

Lemma calls_fit_add e e' sc : oz_current e' = oz_current e -> LOOKUP e' = true -> SCORE e' = Ok sc -> calls_fit e e' [ZAdd sc].
Proof.
  intros Hc Hl Hs. split_and!; [done|done| |].
  - intros sc' H%list_elem_of_singleton. by assert (sc' = sc) as -> by congruence.
  - intros mir _. by apply shows_add.
Qed.

Lemma calls_fit_del e e' : oz_current e' = oz_current e -> LOOKUP e' = false -> calls_fit e e' [ZDel].
Proof.
  intros Hc Hl. split_and!; [done|done|by intros sc H%list_elem_of_singleton|]. intros mir _. unfold shows. by rewrite Hl.
Qed.

Lemma oz_effect_calls m e o :
  oz_inv m false e -> tags_touched m e -> all_added m -> int_steps (m ++ micros o) -> all_added (m ++ micros o) ->
  (forall t v, o = OzAdd t v -> forall u, MAdd t u ∉ m) ->
  exists e' new, oz_effect (e, []) o = Ok (e', new) /\ calls_fit e e' new /\
    oz_inv (m ++ micros o) false e' /\ tags_touched (m ++ micros o) e'.
Proof.
  intros Hinv Htt Hadd Hint Hadd' Hno.
  destruct (oz_effect_ok m e [] o Hinv Htt Hint Hadd') as (e' & new & Heff & Hinv' & Htt'). exists e', new. split_and!; try done.
  cbn [app] in Heff. unfold oz_effect in Heff. destruct o as [t v|ts v|ts]; cbn [micros] in *.
  - apply bind_Ok_inv in Heff as ([e1 new1] & H1 & [= <- <-]). unfold ozadd_effect in H1.
    apply bind_Ok_inv in H1 as ([e2 b] & Hup & H1). destruct (update_innate_current _ _ _ _ _ Hup) as [Hcur Hi]. destruct b.
    + apply bind_Ok_inv in H1 as (sc & Hsc & [= <- <-]). destruct (Hi eq_refl) as [q Hq]. apply calls_fit_add; try done. by eapply innate_LOOKUP.
    + injection H1 as <- <-. pose proof (step_wf _ _ Hint) as Ht. cbn in Ht.
      destruct (add_unchanged m e t v e2) as [Hs Hl]; try done; [by apply (Hno t v)|]. by apply calls_fit_none.
  - apply bind_Ok_inv in Heff as ([e1 new1] & H1 & [= <- <-]). unfold ozincrby_effect in H1.
    apply bind_Ok_inv in H1 as ([e2 b] & Hup & H1). destruct (incr_fold v ts m e false e2 b Hinv Htt Hint Hup) as (Hcur & Hsame & Hacq). destruct b.
    + apply bind_Ok_inv in H1 as (sc & Hsc & [= <- <-]). destruct Hacq as [q Hq]; [done|done|]. apply calls_fit_add; try done. by eapply acquired_LOOKUP.
    + injection H1 as <- <-. destruct (Hsame eq_refl). by apply calls_fit_none.
  - apply bind_Ok_inv in Heff as ([e1 new1] & H1 & [= <- <-]). unfold ozrem_effect in H1. set (e0 := foldl remove_tag e ts) in *.
    pose proof (removes_keep ts e) as Hkeep. fold e0 in Hkeep. destruct (Hkeep 0%nat) as (Hcur & _).
    destruct (oz_innate e0) as [q|] eqn:Hq, (oz_acquired e0) as [r|] eqn:Hr.
    1: { injection H1 as <- <-. destruct (Hkeep q) as (_ & [Hi Hdi] & _); [done|]. destruct (Hkeep r) as (_ & _ & [Ha Hda]); [done|].
         apply calls_fit_none; [done| |by rewrite (innate_LOOKUP _ _ _ _ Hinv' Hq), (innate_LOOKUP _ _ _ _ Hinv Hi)].
         apply SCORE_same; [congruence|congruence| |]; [intros p Hp; assert (p = q) as -> by congruence; unfold x_at; by rewrite Hdi|].
         intros p Hp; assert (p = r) as -> by congruence; unfold inc_at; by rewrite Hda. }
    all: apply bind_Ok_inv in H1 as (e2 & Hres & H1); rewrite <- (resort_current _ _ Hres) in Hcur; destruct (LOOKUP e2) eqn:HL;
      [apply bind_Ok_inv in H1 as (sc & Hsc & [= <- <-]); by apply calls_fit_add|injection H1 as <- <-; by apply calls_fit_del].
Qed.
