(* ===== verification/Leid.v ===== *)
(** * List element identifiers: list_basics.h and list_basics.c

    An element of the two list types has an identifier, a sequence of positions
    that places it: [leid_cmp] orders identifiers, [constructLeid] makes a new
    one between two neighbours. *)

From S2P Require Import Prelude Sds VectorClock.
From Stdlib Require Import Ascii.

(** ** Data *)

Definition BASE : Z := 2 ^ 24.
Definition RDM_STEP : Z := 128.

Record position := mkPos { pos : Z; ppid : Z; pcount : Z }.
#[export] Instance position_eq_dec : EqDecision position.
Proof. solve_decision. Defined.

(** [leid]: [num] is the length of the array [p].  A null pointer is [None]
    where the code tests for one. *)
Notation leid := (list position).

(** ** Operations *)

Definition pos_cmp (p1 p2 : position) : Z :=
  if negb (pos p1 =? pos p2) then i32 (pos p1 - pos p2)
  else if negb (ppid p1 =? ppid p2) then i32 (ppid p1 - ppid p2)
  else i32 (pcount p1 - pcount p2).

Fixpoint leid_cmp (id1 id2 : leid) : Z :=
  match id1, id2 with
  | a :: r1, b :: r2 => if negb (pos_cmp a b =? 0) then pos_cmp a b else leid_cmp r1 r2
  | _, _ => Z.of_nat (length id1) - Z.of_nat (length id2)
  end.

Definition print_pos (p : position) : string :=
  print_int (pos p) +:+ "," +:+ print_int (ppid p) +:+ "," +:+ print_int (pcount p).

(** An identifier with no position makes the code read [p->p[0]] of an empty
    array. *)
Fixpoint leidToSds (p : leid) : res string :=
  match p with
  | [] => Crash OutOfBounds
  | [x] => Ok (print_pos x)
  | x :: r => s ← leidToSds r; Ok (print_pos x +:+ "|" +:+ s)
  end.

Definition LEID_BUF : nat := 1024.

Definition is_comma (c : ascii) : bool := code c =? 44.

(** [while ( *p != '|' && *p != '\0') p++;]: the rest after a bar, or nothing at
    the end of the string. *)
Fixpoint skip_to_bar (s : string) : option string :=
  match s with
  | EmptyString => None
  | String c r => if code c =? 124 then Some r else skip_to_bar r
  end.

Fixpoint leid_parse (fuel size : nat) (p : string) : res (list position) :=
  match fuel with
  | O => Crash Diverges
  | S fuel =>
      if decide (size < LEID_BUF)%nat then
        let x := atoi p in
        r ← skip_to is_comma p; let '(_, p) := r in
        let y := atoi p in
        r ← skip_to is_comma p; let '(_, p) := r in
        let z := atoi p in
        match skip_to_bar p with
        | None => Ok [mkPos x y z]
        | Some p => l ← leid_parse fuel (S size) p; Ok (mkPos x y z :: l)
        end
      else Crash OutOfBounds
  end.

Definition sdsToLeid (s : string) : res leid := leid_parse (S (String.length s)) 0 s.

Definition lprefix (p : option leid) (i : nat) : Z :=
  match p with
  | None => 0
  | Some l => match l !! i with Some x => pos x | None => 0 end
  end.
Definition rprefix (p : option leid) (i : nat) : Z :=
  match p with
  | None => BASE
  | Some l => match l !! i with Some x => pos x | None => BASE end
  end.

(** [while (rprefix(q, index) - lprefix(p, index) < 2) index++;] *)
Fixpoint find_index (fuel : nat) (p q : option leid) (index : nat) : res nat :=
  match fuel with
  | O => Crash Diverges
  | S fuel =>
      if i32 (rprefix q index - lprefix p index) <? 2 then find_index fuel p q (S index)
      else Ok index
  end.

Definition leid_num (p : option leid) : nat := match p with Some l => length l | None => 0 end.

(** The entries below [index]: those of [p], then zeros. *)
Definition pad (p : option leid) (index : nat) : leid :=
  let l := default [] p in
  take index l ++ replicate (index - length l) (mkPos 0 0 0).

Definition vc_total (t : vc) : Z := foldl (fun c x => i32 (c + x)) 0 (vector t).

(** [r] is what [rand()] returns. *)
Definition constructLeid (r : Z) (p q : option leid) (t : vc) : res leid :=
  let count := vc_total t in
  index ← find_index (S (leid_num p `max` leid_num q)) p q 0;
  let left := lprefix p index in
  let right := rprefix q index in
  let step := i32 (right - left - 2) in
  let step := if negb (step =? 0)
              then (if step <? RDM_STEP then Z.rem r step else Z.rem r RDM_STEP)
              else step in
  Ok (pad p index ++ [mkPos (i32 (left + step + 1)) (vid t) count]).

(** ** The order *)

Definition pos_lt (a b : position) : Prop :=
  pos a < pos b \/ (pos a = pos b /\
    (ppid a < ppid b \/ (ppid a = ppid b /\ pcount a < pcount b))).

Inductive leid_lt : leid -> leid -> Prop :=
| leid_lt_nil b l : leid_lt [] (b :: l)
| leid_lt_head a b l1 l2 : pos_lt a b -> leid_lt (a :: l1) (b :: l2)
| leid_lt_tail a l1 l2 : leid_lt l1 l2 -> leid_lt (a :: l1) (a :: l2).

(** Positions the code builds: in [int] range and not negative, and either a
    filler of zeros or a proper position below [BASE]. *)
Record wf_pos (a : position) : Prop := {
  wp_pos : 0 <= pos a < BASE;
  wp_pid : 0 <= ppid a <= INT_MAX;
  wp_count : 0 <= pcount a <= INT_MAX;
  wp_filler : pos a = 0 -> ppid a = 0 /\ pcount a = 0
}.

(** Identifiers the code builds: the last position is proper. *)
Record wf_leid (l : leid) : Prop := {
  wl_pos : Forall wf_pos l;
  wl_last : exists a, last l = Some a /\ 0 < pos a
}.

#[export] Instance wf_pos_dec a : Decision (wf_pos a).
Proof.
  refine (cast_if (decide ((0 <= pos a < BASE) /\ (0 <= ppid a <= INT_MAX) /\
    (0 <= pcount a <= INT_MAX) /\ (pos a = 0 -> ppid a = 0 /\ pcount a = 0)))).
  - by destruct_and!.
  - intros []. tauto.
Defined.

#[export] Instance wf_leid_dec l : Decision (wf_leid l).
Proof.
  refine (cast_if (decide (Forall wf_pos l /\ 0 < from_option pos 0 (last l)))).
  - match goal with H : _ /\ _ |- _ => destruct H as [H1 H2] end. split; [done|]. destruct (last l) as [a|]; [by exists a|simpl in H2; lia].
  - intros [H1 (a & Ha & ?)]. rewrite Ha in *. tauto.
Defined.

Lemma pos_lt_trichotomy a b : pos_lt a b \/ a = b \/ pos_lt b a.
Proof.
  destruct a as [p i c], b as [p' i' c']. unfold pos_lt. simpl.
  destruct (decide (p = p')), (decide (i = i')), (decide (c = c')); subst; try lia; auto.
Qed.

Lemma pos_cmp_spec a b :
  wf_pos a -> wf_pos b ->
  (pos_cmp a b < 0 <-> pos_lt a b) /\ (pos_cmp a b = 0 <-> a = b) /\ (pos_cmp a b > 0 <-> pos_lt b a).
Proof.
  intros [H1 H2 H3 _] [H4 H5 H6 _]. unfold BASE, INT_MAX in *.
  assert (a = b <-> pos a = pos b /\ ppid a = ppid b /\ pcount a = pcount b) as ->.
  { destruct a, b; simpl. naive_solver. }
  unfold pos_cmp, pos_lt.
  rewrite !i32_id by (unfold int_range, INT_MIN, INT_MAX; lia).
  destruct (Z.eqb_spec (pos a) (pos b)), (Z.eqb_spec (ppid a) (ppid b)); simpl; lia.
Qed.

#[export] Instance pos_lt_strict : StrictOrder pos_lt.
Proof. split; [intros a|intros a b c]; unfold complement, pos_lt; lia. Qed.

#[export] Instance leid_lt_strict : StrictOrder leid_lt.
Proof.
  split.
  - intros l H. induction l as [|a l IH]; inversion H; subst; [|auto].
    by apply (irreflexivity pos_lt a).
  - intros l1 l2 l3 H. revert l3. induction H as [b l|a b l1 l2 Hab|a l1 l2 H IH]; intros l3 H3;
      inversion H3; subst.
    1,2: constructor.
    + apply leid_lt_head. by etrans.
    + by apply leid_lt_head.
    + by apply leid_lt_head.
    + apply leid_lt_tail. auto.
Qed.

Lemma leid_lt_trichotomy l1 l2 : leid_lt l1 l2 \/ l1 = l2 \/ leid_lt l2 l1.
Proof.
  revert l2. induction l1 as [|a l1 IH]; intros [|b l2]; [auto|left; constructor|right; right; constructor|].
  destruct (pos_lt_trichotomy a b) as [H|[->|H]]; [left; by constructor| |right; right; by constructor].
  destruct (IH l2) as [H|[->|H]]; [left; by constructor|auto|right; right; by constructor].
Qed.

Lemma leid_lt_cons a b l1 l2 :
  leid_lt (a :: l1) (b :: l2) <-> pos_lt a b \/ (a = b /\ leid_lt l1 l2).
Proof.
  split.
  - intros H. inversion H; subst; auto.
  - intros [H|[-> H]]; [by apply leid_lt_head|by apply leid_lt_tail].
Qed.

Lemma leid_lt_nil_r l : ~ leid_lt l [].
Proof. intros H. inversion H. Qed.

Lemma leid_lt_app l l1 l2 : leid_lt (l ++ l1) (l ++ l2) <-> leid_lt l1 l2.
Proof.
  induction l as [|a l IH]; [done|]. simpl. rewrite leid_lt_cons, IH.
  pose proof (irreflexivity pos_lt a). unfold complement in *. tauto.
Qed.

Lemma leid_cmp_spec l1 l2 :
  Forall wf_pos l1 -> Forall wf_pos l2 ->
  (leid_cmp l1 l2 < 0 <-> leid_lt l1 l2) /\ (leid_cmp l1 l2 = 0 <-> l1 = l2) /\
  (leid_cmp l1 l2 > 0 <-> leid_lt l2 l1).
Proof.
  intros H1. revert l2. induction H1 as [|a l1 Ha H1 IH]; intros [|b l2] H2.
  - simpl. pose proof (leid_lt_nil_r []). split_and!; split; try lia; done.
  - simpl. pose proof (leid_lt_nil_r (b :: l2)).
    split_and!; split; try lia; try done; constructor.
  - simpl. pose proof (leid_lt_nil_r (a :: l1)).
    split_and!; split; try lia; try done; constructor.
  - apply Forall_cons in H2 as [Hb H2].
    destruct (pos_cmp_spec a b Ha Hb) as (Hlt & Heq & Hgt). destruct (IH l2 H2) as (? & ? & ?).
    rewrite !leid_lt_cons. simpl. pose proof (irreflexivity pos_lt b) as Hirr.
    assert (a :: l1 = b :: l2 <-> a = b /\ l1 = l2) as -> by naive_solver.
    destruct (Z.eqb_spec (pos_cmp a b) 0) as [E|E]; simpl.
    + apply Heq in E as ->. unfold complement in *. naive_solver.
    + assert (a <> b) by tauto. assert (b <> a) by congruence. tauto.
Qed.

Lemma leid_cmp_lt l1 l2 : wf_leid l1 -> wf_leid l2 -> leid_cmp l1 l2 < 0 <-> leid_lt l1 l2.
Proof. intros [H1 _] [H2 _]. by apply leid_cmp_spec. Qed.

(** ** A new identifier lies between its neighbours *)

#[local] Notation filler := (mkPos 0 0 0).

Lemma wf_filler : wf_pos filler.
Proof. split; simpl; unfold BASE, INT_MAX; lia. Qed.

Lemma pad_cons a l k : pad (Some (a :: l)) (S k) = a :: pad (Some l) k.
Proof. done. Qed.

Lemma pad_nil k : pad (Some []) (S k) = filler :: pad (Some []) k.
Proof. unfold pad. simpl. by rewrite take_nil, Nat.sub_0_r. Qed.

Lemma pad_wf p k : (forall l, p = Some l -> Forall wf_pos l) -> Forall wf_pos (pad p k).
Proof.
  intros H. unfold pad. apply Forall_app. split.
  - apply Forall_take. destruct p as [l|]; simpl; [by apply H|constructor].
  - apply Forall_replicate, wf_filler.
Qed.

Lemma leid_lt_nil_snoc l x : leid_lt [] (l ++ [x]).
Proof. destruct l; simpl; constructor. Qed.

Lemma pad_above l k x : lprefix (Some l) k < pos x -> leid_lt l (pad (Some l) k ++ [x]).
Proof.
  revert k. induction l as [|a l IH]; intros k Hx.
  { apply leid_lt_nil_snoc. }
  destruct k as [|k]; [apply leid_lt_head; by left|].
  rewrite pad_cons. simpl. apply leid_lt_tail. by apply IH.
Qed.

Lemma pad_below k l m x :
  wf_leid m -> leid_lt l m -> pos x < rprefix (Some m) k -> leid_lt (pad (Some l) k ++ [x]) m.
Proof.
  revert l m. induction k as [|k IH]; intros l m [Hm (z & Hz & Hzp)] Hlm Hx.
  all: destruct m as [|b m]; [by apply leid_lt_nil_r in Hlm|].
  { apply leid_lt_head. by left. }
  apply Forall_cons in Hm as [Hb Hm].
  assert (Hwf : m <> [] -> wf_leid m).
  { intros Hne. split; [done|]. exists z. split; [|done]. destruct m; [done|]. exact Hz. }
  destruct l as [|a l].
  - rewrite pad_nil. simpl. destruct (decide (pos b = 0)) as [E|E].
    + assert (b = filler) as ->.
      { destruct (wp_filler _ Hb E). destruct b; simpl in *; congruence. }
      assert (m <> []) as Hne by (intros ->; simpl in Hz; simplify_eq; simpl in Hzp; lia).
      apply leid_lt_tail. apply IH; [auto| |done]. destruct m; [done|constructor].
    + apply leid_lt_head. left. simpl. pose proof (wp_pos _ Hb). lia.
  - rewrite pad_cons. simpl. apply leid_lt_cons in Hlm as [H|[-> H]]; [by apply leid_lt_head|].
    apply leid_lt_tail. apply IH; [|done|done]. apply Hwf. intros ->.
    by apply leid_lt_nil_r in H.
Qed.

Section Construct.
Context (p q : option leid).
Hypothesis Hp : forall l, p = Some l -> wf_leid l.
Hypothesis Hq : forall l, q = Some l -> wf_leid l.

Lemma lprefix_range i : 0 <= lprefix p i < BASE.
Proof.
  unfold lprefix. destruct p as [l|]; [|unfold BASE; lia].
  destruct (l !! i) as [x|] eqn:E; [|unfold BASE; lia].
  apply wp_pos. eapply Forall_lookup_1; [|done]. by apply wl_pos, Hp.
Qed.

Lemma rprefix_range i : 0 <= rprefix q i <= BASE.
Proof.
  unfold rprefix. destruct q as [l|]; [|unfold BASE; lia].
  destruct (l !! i) as [x|] eqn:E; [|unfold BASE; lia].
  cut (0 <= pos x < BASE); [lia|].
  apply wp_pos. eapply Forall_lookup_1; [|done]. by apply wl_pos, Hq.
Qed.

Lemma gap_id i z : Z.abs z <= 2 -> i32 (rprefix q i - lprefix p i - z) = rprefix q i - lprefix p i - z.
Proof.
  pose proof (lprefix_range i). pose proof (rprefix_range i). intros Hz.
  apply i32_id. unfold BASE, int_range, INT_MIN, INT_MAX in *. lia.
Qed.

(** Past both identifiers the gap is the whole of [BASE]. *)
Lemma find_index_spec fuel i :
  (i + fuel = S (leid_num p `max` leid_num q))%nat -> (0 < fuel)%nat ->
  exists k, find_index fuel p q i = Ok k /\ 2 <= rprefix q k - lprefix p k.
Proof.
  revert i. induction fuel as [|fuel IH]; intros i Hi Hf; [lia|]. cbn [find_index].
  pose proof (gap_id i 0 ltac:(lia)) as Hg. rewrite !Z.sub_0_r in Hg. rewrite Hg.
  destruct (Z.ltb_spec (rprefix q i - lprefix p i) 2) as [H|H]; [|by exists i].
  destruct fuel as [|fuel]; [exfalso|apply IH; lia].
  assert (i >= leid_num p /\ i >= leid_num q)%nat as [Hip Hiq] by lia. clear Hg.
  assert (lprefix p i = 0) as H0.
  { unfold lprefix, leid_num in *. destruct p as [l|]; [|done]. by rewrite lookup_ge_None_2. }
  assert (rprefix q i = BASE) as H1.
  { unfold rprefix, leid_num in *. destruct q as [l|]; [|done]. by rewrite lookup_ge_None_2. }
  unfold BASE in *. lia.
Qed.

Lemma constructLeid_spec r t :
  0 <= r ->
  exists k x, constructLeid r p q t = Ok (pad p k ++ [x]) /\
    lprefix p k < pos x < rprefix q k /\ ppid x = vid t /\ pcount x = vc_total t.
Proof.
  intros Hr. unfold constructLeid.
  destruct (find_index_spec (S (leid_num p `max` leid_num q)) 0) as (k & -> & Hk); [lia..|].
  cbn [mbind res_bind]. pose proof (lprefix_range k). pose proof (rprefix_range k).
  rewrite gap_id by lia. set (g := rprefix q k - lprefix p k - 2) in *.
  set (step := if negb (g =? 0) then _ else _).
  assert (0 <= step /\ (step < g \/ step = 0)) as Hs.
  { subst step. destruct (Z.eqb_spec g 0); simpl; [lia|].
    destruct (Z.ltb_spec g RDM_STEP).
    - pose proof (Z.rem_bound_pos r g). lia.
    - pose proof (Z.rem_bound_pos r RDM_STEP). unfold RDM_STEP in *. lia. }
  eexists k, _. split; [done|]. simpl. rewrite i32_id; [split_and!; try done; lia|].
  unfold BASE, int_range, INT_MIN, INT_MAX in *. lia.
Qed.

(** What a neighbour on either side is compared with. *)
Definition between (id : leid) : Prop :=
  (forall l, p = Some l -> leid_lt l id) /\ (forall m, q = Some m -> leid_lt id m).

Lemma constructLeid_ok r t :
  0 <= r -> 0 <= vid t <= INT_MAX -> 0 <= vc_total t ->
  (forall l m, p = Some l -> q = Some m -> leid_lt l m) ->
  exists id a, constructLeid r p q t = Ok id /\ wf_leid id /\ between id /\
    last id = Some a /\ ppid a = vid t /\ pcount a = vc_total t.
Proof.
  intros Hr Hid Htot Hlt. destruct (constructLeid_spec r t Hr) as (k & x & -> & Hx & Hxp & Hxc).
  pose proof (lprefix_range k). pose proof (rprefix_range k).
  assert (vc_total t <= INT_MAX).
  { unfold vc_total. destruct (vector t) as [|y v] using rev_ind; [unfold INT_MAX; simpl; lia|].
    rewrite foldl_app. simpl. apply i32_range. }
  eexists _, x. split; [done|]. rewrite last_snoc. split_and!; try done.
  - split; [|exists x; rewrite last_snoc; split; [done|lia]].
    apply Forall_app. split; [apply pad_wf; intros l E; by apply wl_pos, Hp|].
    constructor; [|constructor]. split; lia.
  - split.
    + intros l E. rewrite E in *. apply pad_above. lia.
    + intros m E. rewrite E in *.
      assert (leid_lt (default [] p) m) as Hl.
      { destruct p as [l|]; simpl; [by apply Hlt|]. destruct (Hq m eq_refl) as [_ (z & Hz & _)].
        destruct m; [done|constructor]. }
      replace (pad p k) with (pad (Some (default [] p)) k) by by destruct p.
      apply pad_below; [by apply Hq|done|lia].
Qed.
End Construct.

(** ** Round trip through the wire format *)

Definition int_pos (a : position) : Prop :=
  int_range (pos a) /\ int_range (ppid a) /\ int_range (pcount a).
#[export] Instance int_pos_dec a : Decision (int_pos a).
Proof. unfold int_pos. apply _. Defined.

Lemma is_comma_num d : num_char d = true -> is_comma d = false.
Proof.
  unfold num_char, isdigit, is_comma. intros H. apply Z.eqb_neq. intros E. rewrite E in H. done.
Qed.

Lemma skip_to_bar_num s rest :
  all_num s = true -> skip_to_bar (s +:+ rest) = skip_to_bar rest.
Proof.
  induction s as [|c s IH]; simpl; [done|]. intros H. apply andb_true_iff in H as [Hc Hs].
  destruct (Z.eqb_spec (code c) 124) as [E|]; [|by apply IH].
  unfold num_char, isdigit in Hc. by rewrite E in Hc.
Qed.

(** Reading one position off the front of what [leidToSds] prints. *)
Lemma leid_parse_pos fuel size x rest :
  int_pos x -> starts_digit rest = false -> (size < LEID_BUF)%nat ->
  leid_parse (S fuel) size (print_pos x +:+ rest) =
    match skip_to_bar rest with
    | None => Ok [x]
    | Some p => l ← leid_parse fuel (S size) p; Ok (x :: l)
    end.
Proof.
  intros (H1 & H2 & H3) Hr Hsz. cbn [leid_parse]. rewrite decide_True by done.
  assert (Hsk : forall z s, skip_to is_comma (print_int z +:+ String "," s) = Ok ("," : ascii, s)%char).
  { intros z s. apply skip_to_num; [apply all_num_print_int|apply is_comma_num|done]. }
  assert (Hc : forall s, "," +:+ s = String "," s) by done.
  unfold print_pos. rewrite !string_app_assoc, !Hc.
  rewrite atoi_print_int, Hsk by done. cbn [mbind res_bind].
  rewrite atoi_print_int, Hsk by done. cbn [mbind res_bind].
  rewrite atoi_print_int, skip_to_bar_num by (done || apply all_num_print_int).
  by destruct x.
Qed.

Lemma leid_roundtrip_at l s fuel size :
  leidToSds l = Ok s -> Forall int_pos l ->
  (length l <= fuel)%nat -> (size + length l <= LEID_BUF)%nat ->
  leid_parse fuel size s = Ok l.
Proof.
  revert s fuel size. induction l as [|x l IH]; intros s fuel size Hs Hr Hf Hsz; [done|].
  apply Forall_cons in Hr as [Hx Hr]. destruct fuel as [|fuel]; [simpl in Hf; lia|].
  simpl in Hf, Hsz. destruct l as [|y l].
  - injection Hs as <-. rewrite <- (string_app_nil_r (print_pos x)).
    by rewrite leid_parse_pos by (done || lia).
  - cbn [leidToSds] in Hs. apply bind_Ok_inv in Hs as (t & Ht & Hs). injection Hs as <-.
    rewrite leid_parse_pos by (done || lia). simpl.
    by rewrite (IH t) by (done || simpl in *; lia).
Qed.

Lemma leidToSds_total l : l <> [] -> exists s, leidToSds l = Ok s /\ (length l <= String.length s)%nat.
Proof.
  induction l as [|x l IH]; intros Hl; [done|].
  assert (forall z, 0 < String.length (print_pos x +:+ z))%nat as Hpos.
  { intros z. unfold print_pos. rewrite !string_app_assoc, !string_length_app. simpl. lia. }
  destruct l as [|y l].
  - eexists. split; [done|]. specialize (Hpos ""). rewrite string_app_nil_r in Hpos. simpl. lia.
  - destruct IH as (s & Hs & Hlen); [done|]. 
    exists (print_pos x +:+ "|" +:+ s). split.
    { change (leidToSds (x :: y :: l)) with (t ← leidToSds (y :: l); Ok (print_pos x +:+ "|" +:+ t)).
      by rewrite Hs. } specialize (Hpos ""). rewrite string_app_nil_r in Hpos.
    rewrite !string_length_app. simpl in *. lia.
Qed.

Lemma leid_wire_ok l :
  l <> [] -> (length l <= LEID_BUF)%nat -> Forall int_pos l -> exists s, leidToSds l = Ok s /\ sdsToLeid s = Ok l.
Proof.
  intros Hne Hlen Hint. destruct (leidToSds_total l Hne) as (s & Hs & Hl).
  exists s. split; [done|]. apply leid_roundtrip_at; try done; lia.
Qed.

Lemma wf_leid_wire l : wf_leid l -> (length l <= LEID_BUF)%nat -> exists s, leidToSds l = Ok s /\ sdsToLeid s = Ok l.
Proof.
  intros [Hp (a & Ha & _)] Hl. apply leid_wire_ok; [by intros ->|done|]. eapply Forall_impl; [exact Hp|].
  intros x [H1 H2 H3 _]. unfold int_pos, int_range, INT_MIN, INT_MAX, BASE in *. lia.
Qed.

(** A new identifier is at most one longer than its neighbours. *)
Lemma find_index_bound fuel p q i k : find_index fuel p q i = Ok k -> (k < i + fuel)%nat.
Proof.
  revert i. induction fuel as [|fuel IH]; intros i; [done|]. cbn [find_index].
  destruct (_ <? 2); [intros H%IH; lia|intros [= <-]; lia].
Qed.

Lemma constructLeid_length r p q t id :
  constructLeid r p q t = Ok id -> (length id <= S (leid_num p `max` leid_num q))%nat.
Proof.
  unfold constructLeid. destruct (find_index _ p q 0) as [k|] eqn:Hk; [|done]. apply find_index_bound in Hk.
  cbn [mbind res_bind]. intros [= <-]. unfold pad. rewrite !length_app, length_take, length_replicate. cbn [length]. lia.
Qed.

(** * Properties *)

(** [leid_cmp] and [pos_cmp]: on identifiers the code builds, [leid_cmp] is a
    strict total order in the C convention: the sign tells which comes first,
    0 is equality, the order is transitive and the two directions agree. *)
Theorem leid_cmp_total_order l1 l2 l3 :
  wf_leid l1 -> wf_leid l2 -> wf_leid l3 ->
  (leid_cmp l1 l2 = 0 <-> l1 = l2) /\
  (leid_cmp l1 l2 < 0 <-> leid_cmp l2 l1 > 0) /\
  (leid_cmp l1 l2 < 0 -> leid_cmp l2 l3 < 0 -> leid_cmp l1 l3 < 0).
Proof.
  intros [H1 _] [H2 _] [H3 _].
  destruct (leid_cmp_spec l1 l2 H1 H2) as (A & B & C).
  destruct (leid_cmp_spec l2 l1 H2 H1) as (A' & B' & C').
  destruct (leid_cmp_spec l2 l3 H2 H3) as (A2 & _). destruct (leid_cmp_spec l1 l3 H1 H3) as (A3 & _).
  split_and!; [done|tauto|]. rewrite A, A2, A3. apply transitivity.
Qed.

(** C33 ([constructLeid]): for every random number, between two neighbours in
    order (either of them absent at an end of the list) the loop over the
    prefixes ends, and the identifier built is well formed, lies strictly
    between them for [leid_cmp], and ends in the id and the event count of the
    timestamp. *)
Theorem constructLeid_between r p q t :
  0 <= r -> 0 <= vid t <= INT_MAX -> 0 <= vc_total t ->
  (forall l, p = Some l -> wf_leid l) -> (forall m, q = Some m -> wf_leid m) ->
  (forall l m, p = Some l -> q = Some m -> leid_cmp l m < 0) ->
  exists id a, constructLeid r p q t = Ok id /\ wf_leid id /\
    (forall l, p = Some l -> leid_cmp l id < 0) /\
    (forall m, q = Some m -> leid_cmp id m < 0) /\
    last id = Some a /\ ppid a = vid t /\ pcount a = vc_total t.
Proof.
  intros Hr Hid Htot Hp Hq Hlt.
  destruct (constructLeid_ok p q Hp Hq r t Hr Hid Htot) as (id & a & Hc & Hwf & [Hl Hm] & Hlast).
  { intros l m El Em. apply leid_cmp_lt; auto. }
  exists id, a. split_and!; try done.
  - intros l E. apply leid_cmp_lt; auto.
  - intros m E. apply leid_cmp_lt; auto.
  - by apply Hlast.
  - by apply Hlast.
  - by apply Hlast.
Qed.

(** ([leidToSds], [sdsToLeid]): an identifier of up to 1024 positions in
    [int] range survives the wire format; the buffer is not overrun and the
    scan never leaves the string. *)
Theorem leid_wire_roundtrip l :
  l <> [] -> (length l <= LEID_BUF)%nat -> Forall int_pos l ->
  exists s, leidToSds l = Ok s /\ sdsToLeid s = Ok l.
Proof.
  apply leid_wire_ok.
Qed.

(** Two neighbours one apart, the right one ending in a filler's successor. *)
Lemma leid_cmp_total_order_witness :
  leid_cmp [mkPos 1 0 1] [mkPos 1 0 1; mkPos 5 1 2] < 0.
Proof.
  apply (leid_cmp_total_order [mkPos 1 0 1] [mkPos 1 0 1; mkPos 3 1 2] [mkPos 1 0 1; mkPos 5 1 2]);
    try reflexivity.
  all: apply (bool_decide_unpack _); reflexivity.
Defined.

Lemma constructLeid_between_witness :
  exists id, constructLeid 1000 (Some [mkPos 7 0 1]) (Some [mkPos 8 1 4]) (mkVc [2; 3] 1) = Ok id /\
    leid_cmp [mkPos 7 0 1] id < 0 /\ leid_cmp id [mkPos 8 1 4] < 0.
Proof.
  destruct (constructLeid_between 1000 (Some [mkPos 7 0 1]) (Some [mkPos 8 1 4]) (mkVc [2; 3] 1))
    as (id & a & H & _ & Hl & Hm & _).
  1-3: apply (bool_decide_unpack _); reflexivity.
  1-2: intros l E; injection E as <-; apply (bool_decide_unpack _); reflexivity.
  - intros l m E1 E2. injection E1 as <-. injection E2 as <-. reflexivity.
  - exists id. split; [exact H|split; [by apply Hl|by apply Hm]].
Defined.

Lemma leid_wire_roundtrip_witness :
  exists s, leidToSds [mkPos 0 0 0; mkPos 129 2 17] = Ok s /\
    sdsToLeid s = Ok [mkPos 0 0 0; mkPos 129 2 17].
Proof.
  apply (leid_wire_roundtrip [mkPos 0 0 0; mkPos 129 2 17]).
  - discriminate.
  - apply (bool_decide_unpack _); reflexivity.
  - apply (bool_decide_unpack _); reflexivity.
Defined.
