(* ===== verification/Util.v ===== *)
(** * Number formatting: util.c

    [digits10] and [ll2string] print integers two digits at a time into a
    buffer; [string2ll] (in [Double]) is the strict parser the ziplist uses to
    decide which strings it stores as integers; [d2string] prints the scores
    the ziplist-encoded sorted sets hold. *)

From S2P Require Import Prelude Sds Double.
From Stdlib Require Import Ascii SpecFloat.

(** ** Integers *)

Fixpoint digits10_fuel (fuel : nat) (v : Z) : res Z :=
  match fuel with
  | O => Crash Diverges
  | S fuel =>
      if v <? 10 then Ok 1 else if v <? 100 then Ok 2 else if v <? 1000 then Ok 3
      else if v <? 1000000000000 then
        Ok (if v <? 100000000 then
              if v <? 1000000 then
                if v <? 10000 then 4 else 5 + Z.b2z (100000 <=? v)
              else 7 + Z.b2z (10000000 <=? v)
            else if v <? 10000000000 then 9 + Z.b2z (1000000000 <=? v)
            else 11 + Z.b2z (100000000000 <=? v))
      else n ← digits10_fuel fuel (v / 1000000000000); Ok (12 + n)
  end.

(** Two calls are enough for 64 bits: [2^64 / 10^12 < 10^12]. *)
Definition digits10 (v : Z) : res Z := digits10_fuel 2 v.

Definition sdigits10 (v : Z) : res Z :=
  if v <? 0 then
    let uv := if negb (v =? LLONG_MIN) then - v else LLONG_MAX + 1 in
    n ← digits10 uv; Ok (n + 1)
  else digits10 v.

Definition digits : list ascii := String.list_ascii_of_string
  ("0001020304050607080910111213141516171819" +:+
   "2021222324252627282930313233343536373839" +:+
   "4041424344454647484950515253545556575859" +:+
   "6061626364656667686970717273747576777879" +:+
   "8081828384858687888990919293949596979899").

(** [while (value >= 100)]: two digits a turn, from the right. *)
Fixpoint ll_loop (fuel : nat) (value next : Z) (dst : list ascii) : res (Z * Z * list ascii) :=
  match fuel with
  | O => Crash Diverges
  | S fuel =>
      if 100 <=? value then
        let i := value mod 100 * 2 in
        let value := value / 100 in
        d1 ← zlookup digits (i + 1);
        dst ← zupdate dst next d1;
        d0 ← zlookup digits i;
        dst ← zupdate dst (next - 1) d0;
        ll_loop fuel value (next - 2) dst
      else Ok (value, next, dst)
  end.

(** The return value and the buffer; [dstlen] is the length of [dst].  Ten
    turns of the loop are enough for 20 digits. *)
Definition ll2string (dst : list ascii) (svalue : Z) : res (Z * list ascii) :=
  let '(value, negative) :=
    if svalue <? 0 then (if negb (svalue =? LLONG_MIN) then - svalue else LLONG_MAX + 1, 1)
    else (svalue, 0) in
  n ← digits10 value;
  let length := n + negative in
  if Z.of_nat (List.length dst) <=? length then Ok (0, dst)
  else
    dst ← zupdate dst length Ascii.zero;
    '(value, next, dst) ← ll_loop 11 value (length - 1) dst;
    dst ← (if value <? 10 then zupdate dst next (digit_char value)
           else
             let i := value * 2 in
             d1 ← zlookup digits (i + 1);
             dst ← zupdate dst next d1;
             d0 ← zlookup digits i;
             zupdate dst (next - 1) d0);
    dst ← (if 0 <? negative then zupdate dst 0 ("-")%char else Ok dst);
    Ok (length, dst).

(** ** The digits of a number *)

(** The decimal digits in front of [acc], as the buffer holds them. *)
Definition dec (n : Z) (acc : list ascii) : list ascii :=
  String.list_ascii_of_string (print_digits 20 n "") ++ acc.

Lemma print_digits_acc fuel n acc :
  String.list_ascii_of_string (print_digits fuel n acc) =
  String.list_ascii_of_string (print_digits fuel n "") ++ String.list_ascii_of_string acc.
Proof.
  revert n acc. induction fuel as [|fuel IH]; intros n acc; [done|].
  rewrite !print_digits_S. destruct (n <? 10); [done|].
  rewrite (IH _ (String _ acc)), (IH _ (String _ "")). by rewrite <- app_assoc.
Qed.

Lemma print_digits_fuel fuel fuel' n acc :
  0 <= n < 10 ^ Z.of_nat fuel -> (0 < fuel <= fuel')%nat ->
  print_digits fuel' n acc = print_digits fuel n acc.
Proof.
  revert fuel' n acc. induction fuel as [|fuel IH]; intros fuel' n acc Hn Hf; [lia|].
  destruct fuel' as [|fuel']; [lia|]. rewrite !print_digits_S.
  destruct (Z.ltb_spec n 10); [done|].
  destruct fuel as [|fuel]; [simpl in Hn; lia|].
  apply IH; [|lia]. split; [apply Z.div_pos; lia|]. apply Z.div_lt_upper_bound; [lia|].
  rewrite Nat2Z.inj_succ, Z.pow_succ_r in Hn by lia. lia.
Qed.

#[local] Notation U64 := (10 ^ 20).

Lemma dec_small n acc : 0 <= n < 10 -> dec n acc = digit_char n :: acc.
Proof.
  intros Hn. unfold dec. rewrite print_digits_S. by rewrite (proj2 (Z.ltb_lt n 10)) by lia.
Qed.

Lemma dec_step n acc :
  10 <= n < U64 -> dec n acc = dec (n / 10) (digit_char (n mod 10) :: acc).
Proof.
  intros Hn. unfold dec. rewrite print_digits_S, (proj2 (Z.ltb_ge n 10)) by lia.
  rewrite print_digits_acc. simpl. rewrite <- app_assoc. simpl. f_equal.
  f_equal. symmetry. apply print_digits_fuel; [|lia].
  split; [apply Z.div_pos; lia|]. apply Z.div_lt_upper_bound; simpl; lia.
Qed.

Lemma dec_step2 n acc :
  100 <= n < U64 ->
  dec n acc = dec (n / 100) (digit_char (n mod 100 / 10) :: digit_char (n mod 100 mod 10) :: acc).
Proof.
  intros Hn. pose proof (Z.div_mod n 10 ltac:(lia)). pose proof (Z.mod_pos_bound n 10 ltac:(lia)).
  rewrite dec_step by lia. rewrite dec_step by lia.
  rewrite Z.div_div by lia. change (10 * 10) with 100.
  assert (n / 10 mod 10 = n mod 100 / 10 /\ n mod 10 = n mod 100 mod 10) as [-> ->]; [|done].
  pose proof (Z.div_mod n 100 ltac:(lia)). pose proof (Z.mod_pos_bound n 100 ltac:(lia)).
  pose proof (Z.div_mod (n mod 100) 10 ltac:(lia)).
  pose proof (Z.mod_pos_bound (n mod 100) 10 ltac:(lia)).
  pose proof (Z.div_mod (n / 10) 10 ltac:(lia)).
  pose proof (Z.mod_pos_bound (n / 10) 10 ltac:(lia)). lia.
Qed.

(** The number of digits. *)
Definition ndigits (n : Z) : Z := Z.of_nat (List.length (dec n [])).

Lemma dec_length n acc : Z.of_nat (List.length (dec n acc)) = ndigits n + Z.of_nat (List.length acc).
Proof. unfold ndigits, dec. rewrite !length_app. simpl. lia. Qed.

Lemma ndigits_small n : 0 <= n < 10 -> ndigits n = 1.
Proof. intros Hn. unfold ndigits. by rewrite dec_small. Qed.

Lemma ndigits_step n : 10 <= n < U64 -> ndigits n = 1 + ndigits (n / 10).
Proof.
  intros Hn. unfold ndigits at 1. rewrite dec_step by done. rewrite dec_length. simpl. lia.
Qed.

Lemma ndigits_range k n :
  (0 < k <= 20)%nat -> 10 ^ (Z.of_nat k - 1) <= n < 10 ^ Z.of_nat k -> ndigits n = Z.of_nat k.
Proof.
  revert n. induction k as [|k IH]; intros n Hk Hn; [lia|].
  destruct (decide (k = 0)%nat) as [->|Hne].
  { apply ndigits_small. simpl in Hn. lia. }
  assert (10 ^ Z.of_nat (S k) = 10 * 10 ^ Z.of_nat k) as E.
  { rewrite Nat2Z.inj_succ, Z.pow_succ_r by lia. lia. }
  assert (10 ^ Z.of_nat k = 10 * 10 ^ (Z.of_nat k - 1)) as E'.
  { rewrite <- Z.pow_succ_r by lia. f_equal. lia. }
  assert (10 ^ Z.of_nat (S k) <= U64) by (apply Z.pow_le_mono_r; lia).
  replace (Z.of_nat (S k) - 1) with (Z.of_nat k) in Hn by lia.
  assert (0 < 10 ^ (Z.of_nat k - 1)) by (apply Z.pow_pos_nonneg; lia).
  rewrite ndigits_step by lia. rewrite IH; [lia|lia|].
  split; [apply Z.div_le_lower_bound; lia|apply Z.div_lt_upper_bound; lia].
Qed.

Lemma ndigits_shift k n :
  10 ^ Z.of_nat k <= n < U64 -> ndigits n = Z.of_nat k + ndigits (n / 10 ^ Z.of_nat k).
Proof.
  revert n. induction k as [|k IH]; intros n Hn; [by rewrite Z.div_1_r|].
  rewrite Nat2Z.inj_succ, Z.pow_succ_r in * by lia.
  assert (0 < 10 ^ Z.of_nat k) by (apply Z.pow_pos_nonneg; lia).
  rewrite ndigits_step by lia. rewrite IH.
  - rewrite Z.div_div by lia. lia.
  - split; [apply Z.div_le_lower_bound; lia|].
    apply Z.div_lt_upper_bound; lia.
Qed.

Lemma ndigits_le k n : (0 < k <= 20)%nat -> 0 <= n < 10 ^ Z.of_nat k -> 1 <= ndigits n <= Z.of_nat k.
Proof.
  revert n. induction k as [|k IH]; intros n Hk Hn; [lia|].
  assert (10 ^ Z.of_nat (S k) <= U64) by (apply Z.pow_le_mono_r; lia).
  destruct (Z.lt_ge_cases n 10); [rewrite ndigits_small; lia|].
  destruct (decide (k = 0)%nat) as [->|Hne]; [simpl in Hn; lia|].
  rewrite ndigits_step by lia. rewrite Nat2Z.inj_succ, Z.pow_succ_r in Hn by lia.
  cut (1 <= ndigits (n / 10) <= Z.of_nat k); [lia|]. apply IH; [lia|].
  split; [apply Z.div_pos; lia|apply Z.div_lt_upper_bound; lia].
Qed.

Lemma digits10_small fuel v : 0 <= v < 10 ^ 12 -> digits10_fuel (S fuel) v = Ok (ndigits v).
Proof.
  intros Hv. cbn [digits10_fuel].
  assert (Hk : forall k : nat, (0 < k <= 20)%nat -> 10 ^ (Z.of_nat k - 1) <= v < 10 ^ Z.of_nat k ->
    Ok (Z.of_nat k) = Ok (ndigits v)) by (intros; f_equal; symmetry; by apply ndigits_range).
  repeat match goal with
  | |- context [?a <? ?b] => destruct (Z.ltb_spec a b)
  | |- context [?a <=? ?b] => destruct (Z.leb_spec a b)
  end; try lia; simpl Z.b2z;
  first [ rewrite ndigits_small by lia; done
        | apply (Hk 2%nat); lia | apply (Hk 3%nat); lia | apply (Hk 4%nat); lia
        | apply (Hk 5%nat); lia | apply (Hk 6%nat); lia | apply (Hk 7%nat); lia
        | apply (Hk 8%nat); lia | apply (Hk 9%nat); lia | apply (Hk 10%nat); lia
        | apply (Hk 11%nat); lia | apply (Hk 12%nat); lia ].
Qed.

Lemma digits10_large fuel v :
  10 ^ 12 <= v -> digits10_fuel (S fuel) v = (n ← digits10_fuel fuel (v / 10 ^ 12); Ok (12 + n)).
Proof. intros Hv. cbn [digits10_fuel]. by rewrite !(proj2 (Z.ltb_ge _ _)) by lia. Qed.

Lemma digits10_spec v : 0 <= v < U64 -> digits10 v = Ok (ndigits v).
Proof.
  intros Hv. unfold digits10. destruct (Z.lt_ge_cases v (10 ^ 12)) as [H|H].
  { apply digits10_small. lia. }
  rewrite digits10_large, digits10_small; simpl; try lia.
  - f_equal. symmetry. apply (ndigits_shift 12). lia.
  - split; [apply Z.div_pos; lia|apply Z.div_lt_upper_bound; lia].
Qed.

(** ** [ll2string] prints the digits *)

Lemma digits_table i :
  0 <= i < 100 ->
  zlookup digits (i * 2 + 1) = Ok (digit_char (i mod 10)) /\
  zlookup digits (i * 2) = Ok (digit_char (i / 10)).
Proof.
  intros Hi.
  assert (forallb (fun j => bool_decide (
    zlookup digits (Z.of_nat j * 2 + 1) = Ok (digit_char (Z.of_nat j mod 10)) /\
    zlookup digits (Z.of_nat j * 2) = Ok (digit_char (Z.of_nat j / 10)))) (seq 0 100) = true) as H
    by (vm_compute; reflexivity).
  rewrite forallb_forall in H. specialize (H (Z.to_nat i)).
  rewrite bool_decide_eq_true, Z2Nat.id in H by lia. apply H. apply in_seq. lia.
Qed.

Lemma zupdate_app {A} (pre : list A) x y post n :
  n = Z.of_nat (List.length pre) -> zupdate (pre ++ x :: post) n y = Ok (pre ++ y :: post).
Proof.
  intros ->. rewrite zupdate_Ok by (rewrite length_app; simpl; lia). f_equal.
  rewrite Nat2Z.id. rewrite insert_app_r_alt by lia. by rewrite Nat.sub_diag.
Qed.

Lemma snoc_inv {A} (l : list A) n :
  Z.of_nat (List.length l) = n + 1 -> 0 <= n -> exists l' x, l = l' ++ [x] /\ Z.of_nat (List.length l') = n.
Proof.
  intros Hl Hn. destruct l as [|x l' _] using rev_ind; [simpl in Hl; lia|].
  exists l', x. split; [done|]. rewrite length_app in Hl. simpl in Hl. lia.
Qed.

(** The free part [pre] of the buffer, as long as the digits still to be
    written after [keep]. *)
Lemma ll_last value keep pre suf :
  0 <= value < 100 -> Z.of_nat (List.length pre) = ndigits value ->
  (if value <? 10 then zupdate (keep ++ pre ++ suf) (Z.of_nat (List.length (keep ++ pre)) - 1) (digit_char value)
   else
     d1 ← zlookup digits (value * 2 + 1);
     dst ← zupdate (keep ++ pre ++ suf) (Z.of_nat (List.length (keep ++ pre)) - 1) d1;
     d0 ← zlookup digits (value * 2);
     zupdate dst (Z.of_nat (List.length (keep ++ pre)) - 1 - 1) d0) = Ok (keep ++ dec value suf).
Proof.
  intros Hv Hpre. destruct (Z.ltb_spec value 10) as [H|H].
  - rewrite ndigits_small in Hpre by lia. destruct pre as [|a [|b pre]]; simpl in Hpre; try lia.
    rewrite dec_small by lia. simpl. apply zupdate_app. rewrite length_app. simpl. lia.
  - rewrite (ndigits_range 2) in Hpre by (simpl; lia).
    destruct pre as [|a [|b [|c pre]]]; simpl in Hpre; try lia.
    destruct (digits_table value ltac:(lia)) as [-> ->]. cbn [mbind res_bind].
    rewrite (app_assoc keep). replace (keep ++ [a; b]) with ((keep ++ [a]) ++ [b]) by by rewrite <- app_assoc.
    rewrite <- (app_assoc _ [b]). simpl.
    rewrite zupdate_app by (rewrite !length_app; simpl; lia). cbn [mbind res_bind].
    rewrite <- app_assoc. simpl. rewrite zupdate_app by (rewrite !length_app; simpl; lia).
    pose proof (Z.div_lt_upper_bound value 10 10). pose proof (Z.div_pos value 10).
    rewrite dec_step, dec_small by (simpl; lia). done.
Qed.

Lemma ll_loop_spec fuel value keep pre suf :
  0 <= value < 100 ^ Z.of_nat fuel -> value < U64 -> (0 < fuel)%nat ->
  Z.of_nat (List.length pre) = ndigits value ->
  exists v pre' suf', ll_loop fuel value (Z.of_nat (List.length (keep ++ pre)) - 1) (keep ++ pre ++ suf) =
      Ok (v, Z.of_nat (List.length (keep ++ pre')) - 1, keep ++ pre' ++ suf') /\
    0 <= v < 100 /\ Z.of_nat (List.length pre') = ndigits v /\ dec v suf' = dec value suf.
Proof.
  revert value pre suf. induction fuel as [|fuel IH]; intros value pre suf Hv Hu Hf Hpre; [lia|].
  cbn [ll_loop]. destruct (Z.leb_spec 100 value) as [H|H]; [|exists value, pre, suf; split_and!; (done || lia)].
  destruct fuel as [|fuel]; [simpl in Hv; lia|].
  assert (0 <= value mod 100 < 100) as Hm by (apply Z.mod_pos_bound; lia).
  rewrite (ndigits_shift 2) in Hpre by lia. change (10 ^ Z.of_nat 2) with 100 in Hpre.
  assert (0 <= value / 100 < 100 ^ Z.of_nat (S fuel) /\ value / 100 < U64) as [Hq Hq'].
  { rewrite Nat2Z.inj_succ, Z.pow_succ_r in Hv by lia.
    split; [split; [apply Z.div_pos; lia|]|]; apply Z.div_lt_upper_bound; lia. }
  assert (0 <= ndigits (value / 100)) by (unfold ndigits; lia).
  destruct (snoc_inv pre (1 + ndigits (value / 100))) as (p1 & b & -> & Hp1); [lia..|].
  destruct (snoc_inv p1 (ndigits (value / 100))) as (p2 & a & -> & Hp2); [lia..|].
  destruct (digits_table (value mod 100) Hm) as [-> ->]. cbn [mbind res_bind].
  replace (keep ++ ((p2 ++ [a]) ++ [b]) ++ suf) with ((keep ++ p2 ++ [a]) ++ b :: suf)
    by by rewrite <- !app_assoc.
  rewrite zupdate_app by (rewrite !length_app; simpl; lia). cbn [mbind res_bind].
  set (d := digit_char (value mod 100 mod 10)) in *.
  replace ((keep ++ p2 ++ [a]) ++ d :: suf) with ((keep ++ p2) ++ a :: d :: suf)
    by by rewrite <- !app_assoc.
  rewrite zupdate_app by (rewrite !length_app; simpl; lia). cbn [mbind res_bind].
  subst d. rewrite <- (app_assoc keep p2 (_ :: _)).
  replace (Z.of_nat (List.length (keep ++ (p2 ++ [a]) ++ [b])) - 1 - 2)
    with (Z.of_nat (List.length (keep ++ p2)) - 1) by (rewrite !length_app; simpl; lia).
  destruct (IH (value / 100) p2
    (digit_char (value mod 100 / 10) :: digit_char (value mod 100 mod 10) :: suf))
    as (v & pre' & suf' & -> & Hv' & Hl & Hd); [done|done|lia|done|].
  exists v, pre', suf'. split_and!; try done; try lia. rewrite Hd. symmetry. apply dec_step2. lia.
Qed.

Lemma take_split {A} k (l : list A) :
  (k <= List.length l)%nat -> exists l1 l2, l = l1 ++ l2 /\ List.length l1 = k.
Proof.
  intros Hk. exists (take k l), (drop k l). rewrite take_drop, length_take. split; [done|lia].
Qed.

Lemma print_int_list z :
  String.list_ascii_of_string (print_int z) = (if z <? 0 then ["-"%char] else []) ++ dec (Z.abs z) [].
Proof.
  unfold print_int, dec. rewrite app_nil_r. destruct (Z.ltb_spec z 0).
  - simpl. by rewrite Z.abs_neq by lia.
  - by rewrite Z.abs_eq by lia.
Qed.

Lemma list_ascii_length s : List.length (String.list_ascii_of_string s) = String.length s.
Proof. induction s; simpl; auto. Qed.

Lemma print_int_length z :
  Z.of_nat (String.length (print_int z)) = Z.b2z (z <? 0) + ndigits (Z.abs z).
Proof.
  rewrite <- list_ascii_length, print_int_list, length_app, Nat2Z.inj_add. f_equal.
  by destruct (z <? 0).
Qed.

(** What the buffer holds: the sign, the digits, a NUL, and the rest as it was. *)
Lemma ll2string_spec dst z :
  LLONG_MIN <= z <= LLONG_MAX -> (21 <= List.length dst)%nat ->
  exists junk, ll2string dst z =
    Ok (Z.of_nat (String.length (print_int z)),
        String.list_ascii_of_string (print_int z) ++ Ascii.zero :: junk).
Proof.
  unfold LLONG_MIN, LLONG_MAX. intros Hz Hdst. unfold ll2string.
  set (neg := z <? 0).
  assert (exists value, (if neg then (if negb (z =? LLONG_MIN) then - z else LLONG_MAX + 1, 1) else (z, 0)) =
     (value, Z.b2z neg) /\ value = Z.abs z) as (value & -> & Habs).
  { subst neg. unfold LLONG_MIN, LLONG_MAX. destruct (Z.ltb_spec z 0); simpl; eexists; (split; [done|]).
    - destruct (Z.eqb_spec z (-2 ^ 63)); simpl; lia.
    - lia. }
  assert (0 <= value < U64) as Hv by lia.
  rewrite digits10_spec by done. cbn [mbind res_bind].
  assert (1 <= ndigits value <= 19) as Hnd by (apply (ndigits_le 19); lia).
  rewrite (proj2 (Z.leb_gt _ _)) by (destruct neg; simpl; lia).
  assert (0 <= Z.b2z neg <= 1) as Hb by (destruct neg; simpl; lia).
  assert (exists len, Z.of_nat len = ndigits value + Z.b2z neg) as [len Hlen]
    by (exists (Z.to_nat (ndigits value + Z.b2z neg)); lia).
  rewrite <- Hlen.
  destruct (take_split len dst) as (dst0 & [|x junk] & -> & Htake); [lia|..].
  { rewrite app_nil_r in Hdst. lia. }
  rewrite zupdate_app by lia. cbn [mbind res_bind].
  destruct (take_split (Z.to_nat (Z.b2z neg)) dst0) as (keep & pre & Ekp & Hk).
  { lia. }
  rewrite Ekp in *. rewrite length_app in Htake.
  destruct (ll_loop_spec 11 value keep pre (Ascii.zero :: junk)) as (v & pre' & suf' & E & Hv' & Hpre' & Hdec);
    [change (100 ^ Z.of_nat 11) with (10 ^ 22); lia|lia|lia|lia|].
  rewrite length_app in E. rewrite <- (app_assoc keep).
  replace (Z.of_nat len - 1) with (Z.of_nat (List.length keep + List.length pre) - 1) by lia.
  rewrite E. clear E. cbn [mbind res_bind]. rewrite ll_last by done. cbn [mbind res_bind].
  rewrite Hdec. exists junk. rewrite print_int_length, print_int_list.
  fold neg. rewrite <- Habs. destruct neg; simpl in Hk.
  - destruct keep as [|c [|]]; try done. change (0 <? Z.b2z true) with true. cbv iota.
    change ([c] ++ dec value (Ascii.zero :: junk)) with ([] ++ c :: dec value (Ascii.zero :: junk)).
    rewrite zupdate_app by done. cbn [mbind res_bind]. unfold dec. rewrite app_nil_r, <- app_assoc.
    do 2 f_equal. simpl in Hlen. simpl. lia.
  - destruct keep as [|c keep]; [|done]. cbn [mbind res_bind Z.b2z Z.ltb Z.compare]. unfold dec.
    rewrite app_nil_r. do 2 f_equal. simpl in Hlen. lia.
Qed.

(** ** [string2ll] and [ll2string] are inverse to each other *)

Lemma scan_digits_ge s v w r : scan_digits s v = (w, r) -> 0 <= v -> v <= w.
Proof.
  revert v. induction s as [|c s IH]; intros v; simpl; [intros [= <- _]; lia|].
  destruct (isdigit c) eqn:Hc; [|intros [= <- _]; lia]. intros H Hv.
  unfold isdigit in Hc. apply andb_true_iff in Hc as [H1 H2]. apply Z.leb_le in H1, H2.
  specialize (IH _ H). lia.
Qed.

Lemma ll_digits_scan q v w :
  scan_digits q v = (w, "") -> 0 <= v -> w <= ULLONG_MAX -> ll_digits q v = Some w.
Proof.
  revert v. induction q as [|c q IH]; intros v; simpl; [by intros [= <-]|].
  destruct (isdigit c) eqn:Hc; [|done]. intros H Hv Hw.
  pose proof Hc as Hc'. unfold isdigit in Hc'.
  apply andb_true_iff in Hc' as [H1 H2]. apply Z.leb_le in H1, H2.
  pose proof (scan_digits_ge _ _ _ _ H ltac:(lia)).
  rewrite (proj2 (Z.ltb_ge _ v)) by (apply Z.div_le_lower_bound; lia).
  rewrite (proj2 (Z.ltb_ge _ (v * 10))) by lia.
  apply IH; [|lia|done]. rewrite <- H. f_equal. lia.
Qed.

(** The first digit of a positive number is not 0. *)
Lemma print_digits_first fuel n acc :
  0 < n < 10 ^ Z.of_nat fuel ->
  exists c s, print_digits fuel n acc = String c s /\ 49 <= code c <= 57.
Proof.
  revert n acc. induction fuel as [|fuel IH]; intros n acc Hn; [simpl in Hn; lia|].
  rewrite print_digits_S. destruct (Z.ltb_spec n 10).
  { eexists _, _. split; [done|]. rewrite code_digit_char; lia. }
  apply IH. rewrite Nat2Z.inj_succ, Z.pow_succ_r in Hn by lia.
  split; [apply Z.div_str_pos; lia|apply Z.div_lt_upper_bound; lia].
Qed.

Lemma string2ll_digits n c q :
  0 < n <= ULLONG_MAX -> print_digits 20 n "" = String c q ->
  49 <= code c <= 57 /\ ll_digits q (code c - 48) = Some n.
Proof.
  unfold ULLONG_MAX. intros Hn E.
  destruct (print_digits_first 20 n "") as (c' & q' & E' & Hc); [simpl; lia|].
  rewrite E in E'. injection E' as <- <-. split; [done|].
  apply ll_digits_scan; [|lia|unfold ULLONG_MAX; lia].
  pose proof (scan_print_digits 20 n "" ltac:(simpl; lia)) as H. rewrite E in H. simpl in H.
  unfold isdigit in H. rewrite !(proj2 (Z.leb_le _ _)) in H by lia. simpl in H.
  destruct (code c) eqn:Ec; try lia. exact H.
Qed.

Lemma string2ll_print_int z :
  LLONG_MIN <= z <= LLONG_MAX -> string2ll (print_int z) = Some z.
Proof.
  unfold LLONG_MIN, LLONG_MAX. intros Hz.
  destruct (decide (z = 0)) as [->|Hne]; [done|].
  destruct (print_digits 20 (Z.abs z) "") as [|c q] eqn:E.
  { destruct (print_digits_first 20 (Z.abs z) "") as (c & q & E' & _); [simpl; lia|]. congruence. }
  destruct (string2ll_digits (Z.abs z) c q) as [Hc Hll]; [unfold ULLONG_MAX; lia|done|].
  assert ((49 <=? code c) && (code c <=? 57) = true) as Hd by (rewrite !(proj2 (Z.leb_le _ _)) by lia; done).
  unfold print_int. destruct (Z.ltb_spec z 0) as [Hs|Hs].
  - rewrite <- (Z.abs_neq z) by lia. rewrite E. unfold string2ll. cbn [negb].
    rewrite bool_decide_false by done. change (code "-" =? 45) with true. cbv iota beta.
    rewrite Hd, Hll. rewrite (proj2 (Z.ltb_ge _ _)) by (unfold LLONG_MAX; lia). f_equal. lia.
  - rewrite <- (Z.abs_eq z) at 1 by lia. rewrite E. unfold string2ll.
    rewrite bool_decide_false.
    2: { intros E0. injection E0 as -> ->. change (code "0") with 48 in Hc. lia. }
    rewrite (proj2 (Z.eqb_neq (code c) 45)) by lia. cbv iota beta.
    rewrite Hd, Hll. rewrite (proj2 (Z.ltb_ge _ _)) by (unfold LLONG_MAX; lia). f_equal. lia.
Qed.

Lemma ll_digits_dec q v w acc :
  ll_digits q v = Some w -> 0 < v ->
  dec w acc = dec v (String.list_ascii_of_string q ++ acc) /\ v <= w.
Proof.
  revert v. induction q as [|c q IH]; intros v; simpl; [by intros [= <-]|].
  destruct (isdigit c) eqn:Hc; [|done].
  destruct (Z.ltb_spec (ULLONG_MAX / 10) v); [done|].
  destruct (Z.ltb_spec (ULLONG_MAX - (code c - 48)) (v * 10)); [done|].
  intros E Hv. unfold isdigit in Hc. apply andb_true_iff in Hc as [H1 H2]. apply Z.leb_le in H1, H2.
  destruct (IH _ E) as [-> ?]; [lia|]. split; [|lia]. unfold ULLONG_MAX in *.
  rewrite dec_step by lia.
  assert ((v * 10 + (code c - 48)) / 10 = v) as ->.
  { rewrite Z.add_comm, Z.div_add, Z.div_small; lia. }
  assert ((v * 10 + (code c - 48)) mod 10 = code c - 48) as ->.
  { rewrite Z.add_comm, Z.mod_add, Z.mod_small; lia. }
  do 2 f_equal. apply code_inj. rewrite code_digit_char; lia.
Qed.

Lemma string_of_list_inj s1 s2 :
  String.list_ascii_of_string s1 = String.list_ascii_of_string s2 -> s1 = s2.
Proof.
  intros H. rewrite <- (String.string_of_list_ascii_of_string s1), H.
  apply String.string_of_list_ascii_of_string.
Qed.

Lemma string2ll_strict s z :
  string2ll s = Some z -> print_int z = s /\ LLONG_MIN <= z <= LLONG_MAX.
Proof.
  unfold string2ll. destruct s as [|c r]; [done|].
  case_bool_decide as E0; [intros [= <-]; rewrite E0; done|].
  destruct (Z.eqb_spec (code c) 45) as [Ec|Ec].
  - destruct r as [|d q]; [done|]. destruct (_ && _) eqn:Hd; [|done].
    destruct (ll_digits q (code d - 48)) as [v|] eqn:Ell; [|done].
    destruct (Z.ltb_spec (LLONG_MAX + 1) v); [done|]. intros [= <-].
    apply andb_true_iff in Hd as [H1 H2]. apply Z.leb_le in H1, H2.
    destruct (ll_digits_dec _ _ _ [] Ell) as [Hdec ?]; [lia|]. unfold LLONG_MIN, LLONG_MAX in *.
    split; [|lia]. apply string_of_list_inj. rewrite print_int_list.
    rewrite (proj2 (Z.ltb_lt _ _)), Z.abs_neq, Z.opp_involutive by lia.
    rewrite Hdec, dec_small, app_nil_r by lia. simpl. f_equal; [by apply code_inj|].
    f_equal. apply code_inj. rewrite code_digit_char; lia.
  - destruct (_ && _) eqn:Hd; [|done].
    destruct (ll_digits r (code c - 48)) as [v|] eqn:Ell; [|done].
    destruct (Z.ltb_spec LLONG_MAX v); [done|]. intros [= <-].
    apply andb_true_iff in Hd as [H1 H2]. apply Z.leb_le in H1, H2.
    destruct (ll_digits_dec _ _ _ [] Ell) as [Hdec ?]; [lia|]. unfold LLONG_MIN, LLONG_MAX in *.
    split; [|lia]. apply string_of_list_inj. rewrite print_int_list.
    rewrite (proj2 (Z.ltb_ge _ _)), Z.abs_eq by lia.
    rewrite Hdec, dec_small, app_nil_r by lia. simpl. f_equal. apply code_inj. rewrite code_digit_char; lia.
Qed.

(** ** Doubles *)

(** [v >= 10^x] for the rational [v = num/den]. *)
Definition ge_pow10 (num den x : Z) : bool :=
  if 0 <=? x then den * 10 ^ x <=? num else den <=? num * 10 ^ (- x).

(** The decimal exponent of [m * 2^e]: the binary one scaled by log10 2, off by
    one at most. *)
Definition dec_exponent (m e : Z) : Z :=
  let num := m * 2 ^ Z.max e 0 in
  let den := 2 ^ Z.max (- e) 0 in
  let k := (Z.log2 m + e) * 30103 / 100000 in
  if ge_pow10 num den (k + 1) then k + 1
  else if ge_pow10 num den k then k else k - 1.

(** [num/den] to the nearest integer, ties to even. *)
Definition round_div (num den : Z) : Z :=
  let q := num / den in
  let r := num mod den in
  match 2 * r ?= den with
  | Lt => q
  | Gt => q + 1
  | Eq => if Z.even q then q else q + 1
  end.

(** The 17 significant digits of [m * 2^e] and their exponent. *)
Definition sig17 (m e : Z) : Z * Z :=
  let x := dec_exponent m e in
  let num := m * 2 ^ Z.max e 0 * 10 ^ Z.max (16 - x) 0 in
  let den := 2 ^ Z.max (- e) 0 * 10 ^ Z.max (x - 16) 0 in
  let n := round_div num den in
  if n =? 10 ^ 17 then (10 ^ 16, x + 1) else (n, x).

Fixpoint strip_zeros (l : list ascii) : list ascii :=
  match l with
  | [] => []
  | c :: l => match strip_zeros l with
              | [] => if code c =? 48 then [] else [c]
              | l' => c :: l'
              end
  end.

Definition zeros (n : Z) : list ascii := replicate (Z.to_nat n) ("0")%char.
Definition of_chars : list ascii -> string := String.string_of_list_ascii.

(** A fraction without trailing zeros, with its point if there is one left. *)
Definition fraction (l : list ascii) : string :=
  match strip_zeros l with [] => "" | l => "." +:+ of_chars l end.

(** [%.17g] of a finite value other than 0. *)
Definition print_g17 (neg : bool) (m : positive) (e : Z) : string :=
  let '(n, x) := sig17 (Z.pos m) e in
  let ds := dec n [] in
  let body :=
    if (-4 <=? x) && (x <? 17) then
      if 0 <=? x then of_chars (take (Z.to_nat (x + 1)) ds) +:+ fraction (drop (Z.to_nat (x + 1)) ds)
      else "0" +:+ fraction (zeros (- x - 1) ++ ds)
    else
      of_chars (take 1 ds) +:+ fraction (drop 1 ds) +:+ "e" +:+ (if x <? 0 then "-" else "+") +:+
      (if Z.abs x <? 10 then "0" else "") +:+ print_int (Z.abs x) in
  (if neg then "-" else "") +:+ body.

(** [(long long)value]: truncation, of a value known to be in range. *)
Definition trunc (neg : bool) (m : positive) (e : Z) : Z :=
  cond_Zopp neg (if 0 <=? e then Z.pos m * 2 ^ e else Z.pos m / 2 ^ (- e)).

Definition DBL_INT_MIN : double := double_of_Z (-4503599627370495).
Definition DBL_INT_MAX : double := double_of_Z 4503599627370496.

(** [d2string], with a buffer that is long enough. *)
Definition d2string (value : double) : string :=
  match value with
  | S754_nan => "nan"
  | S754_infinity neg => if neg then "-inf" else "inf"
  | S754_zero neg => if neg then "-0" else "0"
  | S754_finite neg m e =>
      if dlt DBL_INT_MIN value && dlt value DBL_INT_MAX &&
         deq value (double_of_Z (trunc neg m e))
      then print_int (trunc neg m e)
      else print_g17 neg m e
  end.

Example d2string_tests :
  d2string (of_decimal false 1 (-1)) = "0.10000000000000001" /\
  d2string (of_decimal true 15 (-1)) = "-1.5" /\
  d2string (of_decimal false 1 300) = "1.0000000000000001e+300" /\
  d2string (of_decimal false 123 (-9)) = "1.23e-07" /\
  d2string (double_of_Z (2 ^ 60)) = "1.152921504606847e+18" /\
  d2string (double_of_Z 9007199254740994) = "9007199254740994" /\
  d2string (double_of_Z (-42)) = "-42".
Proof. vm_compute. done. Qed.

(** * Properties *)

(** ([ll2string], [digits10], [string2ll]): in a buffer of at least 21 bytes
    the two-digits-at-a-time printer stays in bounds and writes the plain
    decimal form of every [long long], NUL-terminated, returning its length;
    the strict parser reads it back, and accepts no other spelling of the
    number, so a string the ziplist stores as an integer is recovered byte for
    byte. *)
Theorem ll2string_string2ll dst z :
  LLONG_MIN <= z <= LLONG_MAX -> (21 <= List.length dst)%nat ->
  exists s junk,
    ll2string dst z = Ok (Z.of_nat (String.length s),
                          String.list_ascii_of_string s ++ Ascii.zero :: junk) /\
    string2ll s = Some z /\ (forall s', string2ll s' = Some z -> s' = s).
Proof.
  intros Hz Hdst. destruct (ll2string_spec dst z Hz Hdst) as [junk E].
  exists (print_int z), junk. split_and!; [done|by apply string2ll_print_int|].
  intros s' Hs'. by apply string2ll_strict in Hs' as [? _].
Qed.

Lemma ll2string_string2ll_witness :
  exists s junk,
    ll2string (replicate 32 "x"%char) (-9223372036854775808) =
      Ok (Z.of_nat (String.length s), String.list_ascii_of_string s ++ Ascii.zero :: junk) /\
    string2ll s = Some (-9223372036854775808).
Proof.
  destruct (ll2string_string2ll (replicate 32 "x"%char) (-9223372036854775808))
    as (s & junk & H1 & H2 & _).
  - vm_compute. split; discriminate.
  - apply (bool_decide_unpack _). reflexivity.
  - exists s, junk. exact (conj H1 H2).
Defined.
