(* ===== verification/Score.v ===== *)
(** * The order of a sorted set: by score, then by element

    C's comparisons of doubles are a strict weak order on the values that are
    numbers; ties are broken by [sdscmp]. *)

From S2P Require Import Prelude Sds Double.
From Stdlib Require Import Ascii SpecFloat.

(** ** Doubles as triples in lexicographic order *)

Definition dkey (d : double) : Z * Z * Z :=
  match d with
  | S754_zero _ | S754_nan => (0, 0, 0)
  | S754_infinity neg => (if neg then -2 else 2, 0, 0)
  | S754_finite neg m e => if neg then (-1, - e, Z.neg m) else (1, e, Z.pos m)
  end.

Definition lex (a b : Z * Z * Z) : comparison :=
  let '(a1, a2, a3) := a in
  let '(b1, b2, b3) := b in
  match a1 ?= b1 with
  | Eq => match a2 ?= b2 with Eq => a3 ?= b3 | c => c end
  | c => c
  end.

Lemma SFcompare_key a b :
  isnan a = false -> isnan b = false -> SFcompare a b = Some (lex (dkey a) (dkey b)).
Proof.
  destruct a as [[]|[]| |[] m e], b as [[]|[]| |[] m' e']; try done; intros _ _; simpl.
  rewrite (Z.compare_opp e e'), (Z.compare_antisym e e').
  destruct (e ?= e'); simpl; done.
Qed.

Lemma lex_refl a : lex a a = Eq.
Proof. destruct a as [[a1 a2] a3]. simpl. by rewrite !Z.compare_refl. Qed.

Lemma lex_eq a b : lex a b = Eq <-> a = b.
Proof.
  split; [|intros ->; apply lex_refl]. destruct a as [[a1 a2] a3], b as [[b1 b2] b3]. simpl.
  destruct (Z.compare_spec a1 b1), (Z.compare_spec a2 b2), (Z.compare_spec a3 b3); try done.
  by intros _; subst.
Qed.

Lemma lex_antisym a b : lex b a = CompOpp (lex a b).
Proof.
  destruct a as [[a1 a2] a3], b as [[b1 b2] b3]. simpl.
  rewrite (Z.compare_antisym b1 a1), (Z.compare_antisym b2 a2), (Z.compare_antisym b3 a3).
  by destruct (b1 ?= a1), (b2 ?= a2), (b3 ?= a3).
Qed.

Lemma lex_lt a b :
  lex a b = Lt <->
  a.1.1 < b.1.1 \/ (a.1.1 = b.1.1 /\ (a.1.2 < b.1.2 \/ (a.1.2 = b.1.2 /\ a.2 < b.2))).
Proof.
  destruct a as [[a1 a2] a3], b as [[b1 b2] b3]. simpl.
  destruct (Z.compare_spec a1 b1), (Z.compare_spec a2 b2), (Z.compare_spec a3 b3);
    split; try done; lia.
Qed.

Lemma lex_trans a b c : lex a b = Lt -> lex b c = Lt -> lex a c = Lt.
Proof. rewrite !lex_lt. lia. Qed.

Lemma dlt_key a b :
  isnan a = false -> isnan b = false -> dlt a b = true <-> lex (dkey a) (dkey b) = Lt.
Proof. intros Ha Hb. unfold dlt, SFltb. rewrite SFcompare_key by done. by destruct (lex _ _). Qed.

Lemma deq_key a b :
  isnan a = false -> isnan b = false -> deq a b = true <-> dkey a = dkey b.
Proof.
  intros Ha Hb. unfold deq, SFeqb. rewrite SFcompare_key by done.
  rewrite <- lex_eq. by destruct (lex _ _).
Qed.

Lemma deq_num a b : deq a b = true -> isnan a = false /\ isnan b = false.
Proof. by destruct a as [[]|[]| |[] ma ea], b as [[]|[]| |[] mb eb]. Qed.

Lemma deq_trans a b c : deq a b = true -> deq b c = true -> deq a c = true.
Proof.
  intros Hab Hbc. destruct (deq_num _ _ Hab) as [Ha Hb], (deq_num _ _ Hbc) as [_ Hc].
  rewrite !deq_key in * by done. congruence.
Qed.

(** ** Entries *)

(** The test of the search loops: [x]'s entry comes before [(score, ele)]. *)
Definition entry_lt (x y : double * string) : bool :=
  dlt x.1 y.1 || (deq x.1 y.1 && (sdscmp x.2 y.2 <? 0)).

(** The same as a relation on entries whose scores are numbers. *)
Definition is_num (x : double * string) : Prop := isnan x.1 = false.

Definition ekey_lt (x y : double * string) : Prop :=
  lex (dkey x.1) (dkey y.1) = Lt \/ (dkey x.1 = dkey y.1 /\ sdscmp x.2 y.2 < 0).

Lemma entry_lt_key x y : is_num x -> is_num y -> entry_lt x y = true <-> ekey_lt x y.
Proof.
  intros Hx Hy. unfold entry_lt, ekey_lt.
  rewrite orb_true_iff, andb_true_iff, Z.ltb_lt, dlt_key, deq_key by done. done.
Qed.

#[export] Instance ekey_lt_trans : Transitive ekey_lt.
Proof.
  intros x y z [H1|[H1 H1']] [H2|[H2 H2']]; unfold ekey_lt.
  - left. by eapply lex_trans.
  - left. by rewrite <- H2.
  - left. by rewrite H1.
  - right. split; [congruence|]. by eapply sdscmp_trans.
Qed.

Lemma ekey_lt_irrefl x : ~ ekey_lt x x.
Proof.
  intros [H|[_ H]]; [by rewrite lex_refl in H|].
  pose proof (proj2 (sdscmp_eq x.2 x.2) eq_refl). lia.
Qed.

Lemma ekey_lt_asym x y : ekey_lt x y -> ~ ekey_lt y x.
Proof. intros H1 H2. apply (ekey_lt_irrefl x). by transitivity y. Qed.

(** Two entries are ordered, or they are of one element at one score. *)
Lemma ekey_lt_total x y : ekey_lt x y \/ ekey_lt y x \/ (dkey x.1 = dkey y.1 /\ x.2 = y.2).
Proof.
  unfold ekey_lt. rewrite (lex_antisym (dkey x.1)).
  destruct (lex (dkey x.1) (dkey y.1)) eqn:E; simpl; auto.
  apply lex_eq in E. pose proof (sdscmp_antisym x.2 y.2) as Hs.
  destruct (Z.lt_trichotomy (sdscmp x.2 y.2) 0) as [H|[H|H]]; [auto| |].
  - apply sdscmp_eq in H. auto.
  - right. left. right. split; [done|]. lia.
Qed.

Lemma entry_lt_false x y :
  is_num x -> is_num y -> entry_lt x y = false <-> ~ ekey_lt x y.
Proof.
  intros Hx Hy. rewrite <- (entry_lt_key x y Hx Hy). by destruct (entry_lt x y).
Qed.

(** ** Sorted lists of entries *)

Definition sorted_entries (l : list (double * string)) : Prop := StronglySorted ekey_lt l.

Lemma sorted_entries_app l1 l2 :
  sorted_entries (l1 ++ l2) <->
  sorted_entries l1 /\ sorted_entries l2 /\ (forall x y, x ∈ l1 -> y ∈ l2 -> ekey_lt x y).
Proof.
  unfold sorted_entries. induction l1 as [|a l1 IH]; simpl.
  - split; [|tauto]. intros H. split_and!; [constructor|done|]. intros x y Hx. by apply elem_of_nil in Hx.
  - split.
    + intros H. apply StronglySorted_inv in H as [H Hall]. apply IH in H as (H1 & H2 & H3).
      apply Forall_app in Hall as [Ha1 Ha2]. split_and!; [by constructor|done|].
      intros x y Hx Hy. apply elem_of_cons in Hx as [->|Hx]; [|auto].
      rewrite Forall_forall in Ha2. auto.
    + intros (H1 & H2 & H3). apply StronglySorted_inv in H1 as [H1 Ha].
      constructor; [apply IH; split_and!; try done; intros; apply H3; [by right|done]|].
      apply Forall_app. split; [done|]. rewrite Forall_forall. intros y Hy. apply H3; [by left|done].
Qed.
