(* ===== verification/Skiplist.v ===== *)
(** * The skip list of the sorted sets: t_zset.c, zsl functions

    Nodes live in a heap indexed by address; a node has one forward pointer and
    one span per level.  [SkiplistRep] relates a skip list to the list of its
    nodes. *)

From S2P Require Import Prelude Sds Double Score.
From Stdlib Require Import Ascii SpecFloat.

(** ** Data *)

Definition ZSKIPLIST_MAXLEVEL : nat := 32.

(** A field that [zmalloc] left unwritten is [None]; a null pointer is [Some
    None] there and [None] where the field is always written. *)
Record zskiplistNode := mkZn {
  ele : option string;
  score : double;
  backward : option (option nat);
  level : list (option (option nat * Z))
}.

Record zskiplist := mkZsl {
  nodes : gmap nat zskiplistNode;
  brk : nat;                      (* the next address the allocator gives out *)
  header : nat;
  tail : option nat;
  zlength : Z;
  zlevel : nat
}.

Definition set_nodes (z : zskiplist) (m : gmap nat zskiplistNode) : zskiplist :=
  mkZsl m (brk z) (header z) (tail z) (zlength z) (zlevel z).
Definition set_tail (z : zskiplist) (t : option nat) : zskiplist :=
  mkZsl (nodes z) (brk z) (header z) t (zlength z) (zlevel z).
Definition set_zlength (z : zskiplist) (n : Z) : zskiplist :=
  mkZsl (nodes z) (brk z) (header z) (tail z) n (zlevel z).
Definition set_zlevel (z : zskiplist) (n : nat) : zskiplist :=
  mkZsl (nodes z) (brk z) (header z) (tail z) (zlength z) n.

(** ** Member accesses *)

Definition node (z : zskiplist) (a : nat) : res zskiplistNode :=
  of_option UseAfterFree (nodes z !! a).

Definition get_level (z : zskiplist) (a i : nat) : res (option nat * Z) :=
  n ← node z a;
  l ← of_option OutOfBounds (level n !! i);
  of_option Uninitialised l.

Definition set_level (z : zskiplist) (a i : nat) (fs : option nat * Z) : res zskiplist :=
  n ← node z a;
  if decide (i < length (level n))%nat then
    Ok (set_nodes z (<[a := mkZn (ele n) (score n) (backward n) (<[i := Some fs]> (level n))]> (nodes z)))
  else Crash OutOfBounds.

Definition set_backward (z : zskiplist) (a : nat) (b : option nat) : res zskiplist :=
  n ← node z a;
  Ok (set_nodes z (<[a := mkZn (ele n) (score n) (Some b) (level n)]> (nodes z))).

Definition get_backward (z : zskiplist) (a : nat) : res (option nat) :=
  n ← node z a; of_option Uninitialised (backward n).

(** ** Creation *)

Definition zslCreateNode (lv : nat) (s : double) (e : option string) : zskiplistNode :=
  mkZn e s None (replicate lv None).

Definition zslCreate : zskiplist :=
  mkZsl {[ 0%nat := mkZn None dzero (Some None) (replicate ZSKIPLIST_MAXLEVEL (Some (None, 0))) ]}
    1 0 None 0 1.

Definition zslFreeNode (z : zskiplist) (a : nat) : res zskiplist :=
  _ ← node z a; Ok (set_nodes z (delete a (nodes z))).

(** [random() & 0xFFFF] against a quarter of [0xFFFF].  [rs] is what [random()]
    returns from here on; the level and the draws left. *)
Fixpoint random_level (rs : list Z) (lv : nat) : res (nat * list Z) :=
  match rs with
  | [] => Crash Diverges
  | r :: rs =>
      if 4 * Z.land r 65535 <? 65535 then random_level rs (S lv)
      else Ok (if decide (lv < ZSKIPLIST_MAXLEVEL)%nat then lv else ZSKIPLIST_MAXLEVEL, rs)
  end.
Definition zslRandomLevel (rs : list Z) : res (nat * list Z) := random_level rs 1.

(** ** Searching *)

(** The inner [while] of the searches: follow level [i] from [x] while there is
    a next node and the test holds of it; [rank] counts what was stepped over,
    in the width [norm] of the caller's counter. *)
Fixpoint walk (fuel : nat) (norm : Z -> Z) (go : Z -> Z -> zskiplistNode -> res bool)
    (z : zskiplist) (i x : nat) (rank : Z) : res (nat * Z) :=
  match fuel with
  | O => Crash Diverges
  | S fuel =>
      '(f, span) ← get_level z x i;
      match f with
      | None => Ok (x, rank)
      | Some y =>
          n ← node z y;
          b ← go rank span n;
          if (b : bool) then walk fuel norm go z i y (norm (rank + span)) else Ok (x, rank)
      end
  end.

(** The outer [for], from level [i - 1] down to 0: the node and the rank each
    level stops at, level 0 first.  A level is left after at most all nodes. *)
Fixpoint descend (i : nat) (norm : Z -> Z) (go : Z -> Z -> zskiplistNode -> res bool)
    (z : zskiplist) (x : nat) (rank : Z) : res (list (nat * Z)) :=
  match i with
  | O => Ok []
  | S i =>
      '(x, rank) ← walk (S (Z.to_nat (zlength z))) norm go z i x rank;
      rest ← descend i norm go z x rank;
      Ok (rest ++ [(x, rank)])
  end.

Definition ele_of (n : zskiplistNode) : res string := of_option NullDeref (ele n).

(** [forward->score < score || (forward->score == score && sdscmp(...) < 0)] *)
Definition comes_before (s : double) (e : string) (rank span : Z) (n : zskiplistNode) : res bool :=
  if dlt (score n) s then Ok true
  else if deq (score n) s then e' ← ele_of n; Ok (sdscmp e' e <? 0)
  else Ok false.

(** [update[i]] and [rank[i]] of the arrays on the stack. *)
Definition upd_at (u : list (nat * Z)) (i : nat) : res (nat * Z) :=
  of_option Uninitialised (u !! i).

(** ** Insertion *)

(** Levels the list did not have before: the header steps over every node. *)
Definition raise_level (zu : zskiplist * list (nat * Z)) (i : nat) : res (zskiplist * list (nat * Z)) :=
  let '(z, u) := zu in
  '(f, _) ← get_level z (header z) i;
  z ← set_level z (header z) i (f, zlength z);
  Ok (z, u ++ [(header z, 0)]).

Definition link_level (u : list (nat * Z)) (rank0 : Z) (x : nat) (z : zskiplist) (i : nat) : res zskiplist :=
  '(ui, ri) ← upd_at u i;
  '(f, span) ← get_level z ui i;
  z ← set_level z x i (f, span - (rank0 - ri));
  set_level z ui i (Some x, rank0 - ri + 1).

Definition bump_span (u : list (nat * Z)) (z : zskiplist) (i : nat) : res zskiplist :=
  '(ui, _) ← upd_at u i;
  '(f, span) ← get_level z ui i;
  set_level z ui i (f, span + 1).

Definition raise_to (z : zskiplist) (u : list (nat * Z)) (lv : nat) : res (zskiplist * list (nat * Z)) :=
  if decide (zlevel z < lv)%nat then
    '(z', u) ← foldM raise_level (z, u) (seq (zlevel z) (lv - zlevel z));
    Ok (set_zlevel z' lv, u)
  else Ok (z, u).

(** The new node, linked in after [update] on its levels. *)
Definition link_node (z : zskiplist) (u : list (nat * Z)) (lv : nat) (s : double) (e : string)
    : res (nat * zskiplist) :=
  let x := brk z in
  let z := mkZsl (<[x := zslCreateNode lv s (Some e)]> (nodes z)) (S x) (header z) (tail z)
             (zlength z) (zlevel z) in
  '(u0, rank0) ← upd_at u 0;
  z ← foldM (link_level u rank0 x) z (seq 0 lv);
  z ← foldM (bump_span u) z (seq lv (zlevel z - lv));
  z ← set_backward z x (if decide (u0 = header z) then None else Some u0);
  '(f, _) ← get_level z x 0;
  z ← (match f with
       | Some y => set_backward z y (Some x)
       | None => Ok (set_tail z (Some x))
       end);
  Ok (x, set_zlength z (zlength z + 1)).

Definition zslInsert (z : zskiplist) (s : double) (e : string) (rs : list Z)
    : res (nat * zskiplist * list Z) :=
  if isnan s then Crash AssertFail
  else
    u ← descend (zlevel z) u32 (comes_before s e) z (header z) 0;
    '(lv, rs) ← zslRandomLevel rs;
    '(z, u) ← raise_to z u lv;
    '(x, z) ← link_node z u lv s e;
    Ok (x, z, rs).

(** ** Deletion *)

Definition unlink_level (u : list (nat * Z)) (x : nat) (z : zskiplist) (i : nat) : res zskiplist :=
  '(ui, _) ← upd_at u i;
  '(f, span) ← get_level z ui i;
  if decide (f = Some x) then
    '(xf, xs) ← get_level z x i;
    set_level z ui i (xf, span + (xs - 1))
  else set_level z ui i (f, span - 1).

(** [while (zsl->level > 1 && header->level[zsl->level-1].forward == NULL)] *)
Fixpoint lower_level (z : zskiplist) (lv : nat) : res nat :=
  match lv with
  | S (S _ as lv') =>
      '(f, _) ← get_level z (header z) lv';
      match f with None => lower_level z lv' | Some _ => Ok lv end
  | _ => Ok lv
  end.

Definition zslDeleteNode (z : zskiplist) (x : nat) (u : list (nat * Z)) : res zskiplist :=
  z ← foldM (unlink_level u x) z (seq 0 (zlevel z));
  '(f, _) ← get_level z x 0;
  b ← get_backward z x;
  z ← (match f with
       | Some y => set_backward z y b
       | None => Ok (set_tail z b)
       end);
  lv ← lower_level z (zlevel z);
  Ok (set_zlength (set_zlevel z lv) (zlength z - 1)).

(** The node after the search position, if it is the element at the score. *)
Definition found (z : zskiplist) (s : double) (e : string) (u : list (nat * Z)) : res (option nat) :=
  '(x, _) ← upd_at u 0;
  '(f, _) ← get_level z x 0;
  match f with
  | None => Ok None
  | Some x =>
      n ← node z x;
      if deq s (score n) then
        e' ← ele_of n; Ok (if sdscmp e' e =? 0 then Some x else None)
      else Ok None
  end.

(** [zslDelete] with a null [node]: the node is freed. *)
Definition zslDelete (z : zskiplist) (s : double) (e : string) : res (bool * zskiplist) :=
  u ← descend (zlevel z) id (comes_before s e) z (header z) 0;
  x ← found z s e u;
  match x with
  | Some x => z ← zslDeleteNode z x u; z ← zslFreeNode z x; Ok (true, z)
  | None => Ok (false, z)
  end.

(** ** Score updates *)

Definition score_of (z : zskiplist) (a : nat) : res double := n ← node z a; Ok (score n).

(** Whether the node keeps its place with the new score. *)
Definition fits (z : zskiplist) (x : nat) (new : double) : res bool :=
  b ← get_backward z x;
  left ← (match b with None => Ok true | Some y => s ← score_of z y; Ok (dlt s new) end);
  if (left : bool) then
    '(f, _) ← get_level z x 0;
    match f with None => Ok true | Some y => s ← score_of z y; Ok (dlt new s) end
  else Ok false.

Definition zslUpdateScore (z : zskiplist) (cur : double) (e : string) (new : double) (rs : list Z)
    : res (nat * zskiplist * list Z) :=
  u ← descend (zlevel z) id (comes_before cur e) z (header z) 0;
  x ← found z cur e u;
  match x with
  | None => Crash AssertFail
  | Some x =>
      b ← fits z x new;
      n ← node z x;
      if (b : bool) then
        Ok (x, set_nodes z (<[x := mkZn (ele n) new (backward n) (level n)]> (nodes z)), rs)
      else
        z ← zslDeleteNode z x u;
        e' ← ele_of n;
        '(y, z, rs) ← zslInsert z new e' rs;
        z ← zslFreeNode z x;
        Ok (y, z, rs)
  end.

(** ** Ranks *)

Definition at_or_before (s : double) (e : string) (rank span : Z) (n : zskiplistNode) : res bool :=
  if dlt (score n) s then Ok true
  else if deq (score n) s then e' ← ele_of n; Ok (sdscmp e' e <=? 0)
  else Ok false.

(** One level at a time, returning as soon as the element is reached. *)
Fixpoint rank_levels (i : nat) (z : zskiplist) (s : double) (e : string) (x : nat) (rank : Z) : res Z :=
  match i with
  | O => Ok 0
  | S i =>
      '(x, rank) ← walk (S (Z.to_nat (zlength z))) id (at_or_before s e) z i x rank;
      n ← node z x;
      if (match ele n with Some e' => sdscmp e' e =? 0 | None => false end) then Ok rank
      else rank_levels i z s e x rank
  end.
Definition zslGetRank (z : zskiplist) (s : double) (e : string) : res Z :=
  rank_levels (zlevel z) z s e (header z) 0.

Definition within_rank (rank : Z) (traversed span : Z) (n : zskiplistNode) : res bool :=
  Ok (traversed + span <=? rank).

Fixpoint by_rank_levels (i : nat) (z : zskiplist) (rank : Z) (x : nat) (traversed : Z) : res (option nat) :=
  match i with
  | O => Ok None
  | S i =>
      '(x, traversed) ← walk (S (Z.to_nat (zlength z))) id (within_rank rank) z i x traversed;
      if traversed =? rank then Ok (Some x) else by_rank_levels i z rank x traversed
  end.
Definition zslGetElementByRank (z : zskiplist) (rank : Z) : res (option nat) :=
  by_rank_levels (zlevel z) z rank (header z) 0.
