(* ===== verification/SkiplistRep.v ===== *)
(** * What a skip list represents

    [zsl_rep z l]: the nodes of [z] after the header are [l], in this order; the
    forward pointer of a node at level [i] leads to the next node of [l] that is
    taller than [i], and the span is the number of positions it steps over.  The
    searches, insertion and deletion are proved to do on [l] what they are meant
    to do, and to keep the representation, spans included. *)

From S2P Require Import Prelude Sds Double Score Skiplist.
From Stdlib Require Import SpecFloat.

(** ** Forward pointers of a list of nodes *)

(** The next node in [l] taller than [i], and its distance; past the last such
    node, the distance to the end. *)
Fixpoint fwd (h : nat -> nat) (i : nat) (l : list nat) : option nat * Z :=
  match l with
  | [] => (None, 0)
  | a :: l =>
      if decide (i < h a)%nat then (Some a, 1)
      else let '(f, s) := fwd h i l in (f, s + 1)
  end.

Lemma fwd_ext h h' i l : (forall a, a ∈ l -> h a = h' a) -> fwd h i l = fwd h' i l.
Proof.
  induction l as [|a l IH]; intros H; simpl; [done|].
  rewrite (H a) by set_solver. rewrite IH; [done|]. intros b Hb. apply H. set_solver.
Qed.

Definition low (h : nat -> nat) (i : nat) (l : list nat) : Prop := Forall (fun a => (h a <= i)%nat) l.

Lemma fwd_low h i m l :
  low h i m -> fwd h i (m ++ l) = ((fwd h i l).1, (fwd h i l).2 + Z.of_nat (length m)).
Proof.
  intros Hm. induction Hm as [|a m Ha Hm IH]; simpl; [by destruct (fwd h i l); simpl; f_equal; lia|].
  rewrite decide_False by lia. rewrite IH. simpl. f_equal. lia.
Qed.

Lemma fwd_all_low h i l : low h i l -> fwd h i l = (None, Z.of_nat (length l)).
Proof. intros Hl. rewrite <- (app_nil_r l) at 1. by rewrite fwd_low. Qed.

Lemma fwd_high h i m a l :
  low h i m -> (i < h a)%nat -> fwd h i (m ++ a :: l) = (Some a, Z.of_nat (length m) + 1).
Proof. intros Hm Ha. rewrite fwd_low by done. simpl. rewrite decide_True by done. simpl. f_equal. lia. Qed.

Lemma elem_of_mid {T} (pre : list T) a post : a ∈ pre ++ a :: post.
Proof. apply elem_of_app. right. by left. Qed.

Lemma head_split {T} (h : T) l pre post :
  NoDup (h :: l) -> h :: l = pre ++ h :: post -> pre = [] /\ post = l.
Proof.
  intros Hnd E. destruct pre as [|c pre]; simpl in E; [by injection E as ->|].
  injection E as <- E. apply NoDup_cons in Hnd as [Hn _]. destruct Hn. rewrite E. apply elem_of_mid.
Qed.

(** A list has a first tall node or none. *)
Lemma low_or_high h i l :
  low h i l \/ exists m a r, l = m ++ a :: r /\ low h i m /\ (i < h a)%nat.
Proof.
  induction l as [|a l IH]; [left; constructor|].
  destruct (decide (i < h a)%nat) as [Ha|Ha].
  - right. exists [], a, l. split_and!; [done|constructor|done].
  - destruct IH as [Hl|(m & b & r & -> & Hm & Hb)].
    + left. constructor; [lia|done].
    + right. exists (a :: m), b, r. split_and!; [done| |done]. constructor; [lia|done].
Qed.

Lemma fwd_None h i l : (fwd h i l).1 = None <-> low h i l.
Proof.
  destruct (low_or_high h i l) as [Hl|(m & a & r & -> & Hm & Ha)].
  - rewrite <- (app_nil_r l) at 1. by rewrite fwd_low.
  - rewrite fwd_high by done. split; [done|]. intros H.
    unfold low in H. rewrite Forall_app, Forall_cons in H. lia.
Qed.

Lemma fwd_elem h i l a s : fwd h i l = (Some a, s) -> a ∈ l.
Proof.
  revert s. induction l as [|b l IH]; intros s; simpl; [done|].
  destruct (decide _); [intros [= -> _]; by left|].
  destruct (fwd h i l) as [f s'] eqn:E. intros [= -> _]. right. by eapply IH.
Qed.

(** A list has one last tall node. *)
Lemma last_high_unique h i pre a m pre' a' m' :
  pre ++ a :: m = pre' ++ a' :: m' ->
  low h i m -> low h i m' -> (i < h a)%nat -> (i < h a')%nat ->
  pre = pre' /\ a = a' /\ m = m'.
Proof.
  revert pre'. induction pre as [|b pre IH]; intros [|b' pre'] E Hm Hm' Ha Ha'; simplify_eq/=.
  - done.
  - unfold low in Hm. rewrite Forall_app, Forall_cons in Hm. lia.
  - unfold low in Hm'. rewrite Forall_app, Forall_cons in Hm'. lia.
  - destruct (IH pre') as (-> & -> & ->); done.
Qed.

(** ** Representation *)

Definition hgt (z : zskiplist) (a : nat) : nat :=
  match nodes z !! a with Some n => length (level n) | None => 0 end.

Definition lvl (z : zskiplist) (a i : nat) : option (option nat * Z) :=
  n ← nodes z !! a; l ← level n !! i; l.

Definition bk (z : zskiplist) (a : nat) : option (option nat) := n ← nodes z !! a; backward n.

(** What the node holds, which linking does not change. *)
Definition data (z : zskiplist) (a : nat) : option (double * option string) :=
  n ← nodes z !! a; Some (score n, ele n).

Record zsl_rep (z : zskiplist) (l : list nat) : Prop := {
  r_nodup : NoDup (header z :: l);
  r_alloc : forall a, a ∈ header z :: l -> is_Some (nodes z !! a);
  r_brk : forall a, is_Some (nodes z !! a) -> (a < brk z)%nat;
  r_hdr : hgt z (header z) = ZSKIPLIST_MAXLEVEL;
  r_lev : (1 <= zlevel z <= ZSKIPLIST_MAXLEVEL)%nat;
  r_hgt : forall a, a ∈ l -> (1 <= hgt z a <= zlevel z)%nat;
  r_fwd : forall pre a post i, header z :: l = pre ++ a :: post ->
            (i < hgt z a)%nat -> (i < zlevel z)%nat -> lvl z a i = Some (fwd (hgt z) i post);
  r_top : forall i, (zlevel z <= i < ZSKIPLIST_MAXLEVEL)%nat ->
            exists s, lvl z (header z) i = Some (None, s);
  r_back : forall pre a b post, header z :: l = pre ++ a :: b :: post ->
            bk z b = Some (if decide (a = header z) then None else Some a);
  r_tail : tail z = last l;
  r_len : zlength z = Z.of_nat (length l)
}.

Lemma get_level_lvl z a i fs : get_level z a i = Ok fs <-> lvl z a i = Some fs.
Proof.
  unfold get_level, lvl, node. destruct (nodes z !! a) as [n|]; simpl; [|done].
  destruct (level n !! i) as [l|]; simpl; [|done]. destruct l; simpl; naive_solver.
Qed.

Lemma get_backward_bk z a b : get_backward z a = Ok b <-> bk z a = Some b.
Proof.
  unfold get_backward, bk, node. destruct (nodes z !! a) as [n|]; simpl; [|done].
  destruct (backward n); simpl; naive_solver.
Qed.

Lemma node_Ok z a : is_Some (nodes z !! a) -> exists n, node z a = Ok n /\ nodes z !! a = Some n.
Proof. intros [n Hn]. exists n. unfold node. by rewrite Hn. Qed.

(** A zslist's first positions: the nodes up to the last tall one before a cut. *)
Definition upd_ok (z : zskiplist) (A : list nat) (i : nat) (xr : nat * Z) : Prop :=
  exists pre mid, header z :: A = pre ++ xr.1 :: mid /\ low (hgt z) i mid /\
    (i < hgt z xr.1)%nat /\ xr.2 = Z.of_nat (length pre).

(** ** The searches *)

Section Search.
Context (z : zskiplist) (A B : list nat) (norm : Z -> Z) (go : Z -> Z -> zskiplistNode -> res bool).
Hypothesis Hrep : zsl_rep z (A ++ B).
Hypothesis Hnorm : forall r, 0 <= r <= Z.of_nat (length A) -> norm r = r.
(** The test holds of the nodes of [A] and fails on the first ones after. *)
Hypothesis Hgo : forall pre y post n r s,
  header z :: A ++ B = pre ++ y :: post -> nodes z !! y = Some n ->
  r + s = Z.of_nat (length pre) -> 0 <= r -> 0 < s ->
  go r s n = Ok (bool_decide (length pre <= length A)%nat).

Lemma walk_spec fuel i pre x post :
  header z :: A = pre ++ x :: post -> (i < hgt z x)%nat -> (i < zlevel z)%nat ->
  (length post < fuel)%nat ->
  exists xr, walk fuel norm go z i x (Z.of_nat (length pre)) = Ok xr /\ upd_ok z A i xr.
Proof.
  revert pre x post. induction fuel as [|fuel IH]; intros pre x post Hx Hi Hz Hf; [lia|].
  assert (Hx' : header z :: A ++ B = pre ++ x :: post ++ B).
  { rewrite app_comm_cons, Hx. by rewrite <- app_assoc. }
  assert (HlenA : length A = (length pre + length post)%nat).
  { apply (f_equal length) in Hx. rewrite length_app in Hx. simpl in Hx. lia. }
  pose proof (r_fwd _ _ Hrep _ _ _ _ Hx' Hi Hz) as Hl. cbn [walk].
  apply get_level_lvl in Hl. rewrite Hl. clear Hl. cbn [mbind res_bind].
  destruct (low_or_high (hgt z) i post) as [Hlow|(m & y & r & -> & Hm & Hy)].
  - rewrite fwd_low by done. destruct (fwd (hgt z) i B) as [[y|] s] eqn:EB; cbn [fst snd].
    2: { eexists. split; [done|]. by exists pre, post. }
    destruct (low_or_high (hgt z) i B) as [HlB|(mB & y' & rB & EB' & HmB & HyB)].
    { apply fwd_None in HlB. rewrite EB in HlB. done. }
    rewrite EB', fwd_high in EB by done. injection EB as <- <-.
    assert (Hy : header z :: A ++ B = (pre ++ x :: post ++ mB) ++ y' :: rB).
    { rewrite Hx', EB'. by rewrite <- !app_assoc, <- app_comm_cons, <- !app_assoc. }
    destruct (node_Ok z y') as (n & -> & Hn).
    { apply (r_alloc _ _ Hrep). rewrite Hy. apply elem_of_mid. }
    cbn [mbind res_bind]. rewrite (Hgo _ _ _ n _ _ Hy Hn).
    2-4: rewrite ?length_app; simpl; rewrite ?length_app; lia.
    rewrite bool_decide_false by (rewrite length_app; simpl; rewrite length_app; lia).
    eexists. split; [done|]. by exists pre, post.
  - rewrite <- app_assoc. cbn [app]. rewrite fwd_high by done. cbn [fst snd].
    assert (Hy' : header z :: A ++ B = (pre ++ x :: m) ++ y :: r ++ B).
    { rewrite Hx'. by rewrite <- !app_assoc. }
    destruct (node_Ok z y) as (n & -> & Hn).
    { apply (r_alloc _ _ Hrep). rewrite Hy'. apply elem_of_mid. }
    cbn [mbind res_bind]. rewrite (Hgo _ _ _ n _ _ Hy' Hn).
    2-4: rewrite ?length_app; simpl; lia.
    rewrite length_app in HlenA. cbn [length] in HlenA.
    rewrite bool_decide_true by (rewrite length_app; simpl; lia).
    rewrite Hnorm by lia.
    replace (Z.of_nat (length pre) + (Z.of_nat (length m) + 1)) with (Z.of_nat (length (pre ++ x :: m)))
      by (rewrite length_app; simpl; lia).
    apply (IH _ _ r); [by rewrite <- app_assoc|done|done|].
    rewrite length_app in Hf. simpl in Hf. lia.
Qed.

Lemma descend_spec i pre x post :
  header z :: A = pre ++ x :: post -> (i <= hgt z x)%nat -> (i <= zlevel z)%nat ->
  exists u, descend i norm go z x (Z.of_nat (length pre)) = Ok u /\ length u = i /\
    forall j xr, u !! j = Some xr -> upd_ok z A j xr.
Proof.
  revert pre x post. induction i as [|i IH]; intros pre x post Hx Hi Hz; [by exists []|].
  cbn [descend].
  destruct (walk_spec (S (Z.to_nat (zlength z))) i pre x post) as ([x' r'] & -> & Hu); [done|lia|lia| |].
  { rewrite (r_len _ _ Hrep), length_app. apply (f_equal length) in Hx.
    rewrite length_app in Hx. simpl in Hx. lia. }
  cbn [mbind res_bind]. pose proof Hu as (pre' & mid & Hx' & Hlow & Hi' & Hr). simpl in *. subst r'.
  destruct (IH pre' x' mid) as (u & -> & Hlen & Hu'); [done|lia|lia|].
  eexists. split; [done|]. split; [rewrite length_app; simpl; lia|].
  intros j xr Hj. apply lookup_app_Some in Hj as [Hj|[Hge Hj]]; [by apply Hu'|].
  apply list_lookup_singleton_Some in Hj as [Hj <-]. by replace j with i by lia.
Qed.

Lemma search_spec :
  exists u, descend (zlevel z) norm go z (header z) 0 = Ok u /\ length u = zlevel z /\
    forall j xr, u !! j = Some xr -> upd_ok z A j xr.
Proof.
  apply (descend_spec _ [] _ A); [done| |lia]. rewrite (r_hdr _ _ Hrep). apply (r_lev _ _ Hrep).
Qed.
End Search.

(** ** Writes to a level *)

(** Linking touches nothing but forward pointers and spans. *)
Record frame (z z' : zskiplist) : Prop := {
  f_brk : brk z' = brk z;
  f_header : header z' = header z;
  f_tail : tail z' = tail z;
  f_len : zlength z' = zlength z;
  f_lev : zlevel z' = zlevel z;
  f_hgt : forall a, hgt z' a = hgt z a;
  f_bk : forall a, bk z' a = bk z a;
  f_data : forall a, data z' a = data z a
}.

#[export] Instance frame_preorder : PreOrder frame.
Proof.
  split; [by split|]. intros z1 z2 z3 [] []. split; intros; etransitivity; eauto.
Qed.

Lemma data_alloc z a : is_Some (data z a) <-> is_Some (nodes z !! a).
Proof. unfold data. destruct (nodes z !! a); simpl; [|done]. split; eauto. Qed.

Lemma hgt_alloc z a i : (i < hgt z a)%nat -> is_Some (nodes z !! a).
Proof. unfold hgt. destruct (nodes z !! a); [eauto|lia]. Qed.

Lemma set_level_spec z a i fs :
  (i < hgt z a)%nat ->
  exists z', set_level z a i fs = Ok z' /\ frame z z' /\ nodes z' !! a <> None /\
    forall b j, lvl z' b j = if decide (b = a /\ j = i) then Some fs else lvl z b j.
Proof.
  intros Hi. destruct (hgt_alloc _ _ _ Hi) as [n Hn]. unfold hgt in Hi. rewrite Hn in Hi.
  unfold set_level, node. rewrite Hn. simpl. rewrite decide_True by done.
  eexists. split; [done|]. split; [|split].
  - split; try done; intros b; unfold hgt, bk, data; simpl;
      (destruct (decide (b = a)) as [->|?];
       [rewrite lookup_insert_eq, Hn; simpl; by rewrite ?length_insert|by rewrite lookup_insert_ne]).
  - simpl. by rewrite lookup_insert_eq.
  - intros b j. unfold lvl. simpl. destruct (decide (b = a)) as [->|?].
    + rewrite lookup_insert_eq, Hn. simpl. destruct (decide (j = i)) as [->|?].
      * rewrite decide_True by done. by rewrite list_lookup_insert_eq.
      * rewrite decide_False by tauto. by rewrite list_lookup_insert_ne.
    + rewrite lookup_insert_ne by done. by rewrite decide_False by tauto.
Qed.

(** A loop over levels whose turn for [i] writes level [i] of the nodes and
    reads no other. *)
Lemma loop_levels (step : zskiplist -> nat -> res zskiplist) new z0 lo n :
  (forall i z, (lo <= i < lo + n)%nat -> frame z0 z -> (forall b, lvl z b i = lvl z0 b i) ->
     exists z', step z i = Ok z' /\ frame z z' /\ (forall b, lvl z' b i = new b i) /\
       (forall b j, j <> i -> lvl z' b j = lvl z b j)) ->
  exists z', foldM step z0 (seq lo n) = Ok z' /\ frame z0 z' /\
    forall b j, lvl z' b j = if decide (lo <= j < lo + n)%nat then new b j else lvl z0 b j.
Proof.
  induction n as [|n IH]; intros Hstep.
  { exists z0. simpl. split_and!; [done|done|]. intros b j. by rewrite decide_False by lia. }
  destruct IH as (z1 & E1 & F1 & L1); [intros; apply Hstep; [lia|done..]|].
  destruct (Hstep (lo + n)%nat z1) as (z2 & E2 & F2 & N2 & O2); [lia|done| |].
  { intros b. rewrite L1. by rewrite decide_False by lia. }
  exists z2. rewrite seq_S, foldM_app, E1. cbn [mbind res_bind foldM]. rewrite E2.
  split_and!; [done|by transitivity z1|]. intros b j.
  destruct (decide (j = lo + n)%nat) as [->|Hj].
  - rewrite N2. by rewrite decide_True by lia.
  - rewrite O2, L1 by done. repeat case_decide; done || lia.
Qed.

(** ** What a node's levels become when a node is linked in or out *)

Definition bump (fs : option nat * Z) : option nat * Z := (fs.1, fs.2 + 1).

Definition link_new (z : zskiplist) (u : list (nat * Z)) (n : Z) (x b i : nat) : option (option nat * Z) :=
  '(ui, ri) ← u !! i;
  fs ← lvl z ui i;
  if decide (b = x) then Some (fs.1, fs.2 - (n - ri))
  else if decide (b = ui) then Some (Some x, n - ri + 1)
  else lvl z b i.

Definition bump_new (z : zskiplist) (u : list (nat * Z)) (b i : nat) : option (option nat * Z) :=
  '(ui, _) ← u !! i;
  if decide (b = ui) then bump <$> lvl z b i else lvl z b i.

Definition unlink_new (z : zskiplist) (u : list (nat * Z)) (x b i : nat) : option (option nat * Z) :=
  '(ui, _) ← u !! i;
  if decide (b = ui) then
    fs ← lvl z ui i;
    if decide (fs.1 = Some x) then xs ← lvl z x i; Some (xs.1, fs.2 + (xs.2 - 1))
    else Some (fs.1, fs.2 - 1)
  else lvl z b i.

Lemma link_level_loop z u n x lv :
  (lv <= length u)%nat -> (lv <= hgt z x)%nat ->
  (forall i ui ri, (i < lv)%nat -> u !! i = Some (ui, ri) ->
     ui <> x /\ (i < hgt z ui)%nat /\ is_Some (lvl z ui i)) ->
  exists z', foldM (link_level u n x) z (seq 0 lv) = Ok z' /\ frame z z' /\
    forall b j, lvl z' b j = if decide (j < lv)%nat then link_new z u n x b j else lvl z b j.
Proof.
  intros Hlen Hx Hu.
  destruct (loop_levels (link_level u n x) (link_new z u n x) z 0 lv) as (z' & E & F & L).
  - intros i z1 Hi F1 L1.
    destruct (lookup_lt_is_Some_2 u i) as [[ui ri] Hui]; [lia|].
    destruct (Hu i ui ri) as (Hne & Hh & [[f s] Hfs]); [lia|done|].
    unfold link_level, upd_at. rewrite Hui. cbn [of_option mbind res_bind].
    pose proof (L1 ui) as Hl. rewrite Hfs in Hl. apply get_level_lvl in Hl. rewrite Hl.
    cbn [mbind res_bind].
    destruct (set_level_spec z1 x i (f, s - (n - ri))) as (z2 & -> & F2 & _ & L2);
      [rewrite (f_hgt _ _ F1); lia|]. cbn [mbind res_bind].
    destruct (set_level_spec z2 ui i (Some x, n - ri + 1)) as (z3 & -> & F3 & _ & L3);
      [rewrite (f_hgt _ _ F2), (f_hgt _ _ F1); lia|].
    exists z3. split_and!; [done|by transitivity z2| |].
    + intros b. unfold link_new. rewrite Hui. simpl. rewrite Hfs. simpl.
      rewrite L3, L2, L1. repeat case_decide; naive_solver.
    + intros b j Hj. rewrite L3, L2. repeat case_decide; naive_solver.
  - exists z'. split_and!; [done|done|]. intros b j. rewrite L. repeat case_decide; done || lia.
Qed.

Lemma bump_span_loop z u lo n :
  (lo + n <= length u)%nat ->
  (forall i ui ri, (lo <= i < lo + n)%nat -> u !! i = Some (ui, ri) ->
     (i < hgt z ui)%nat /\ is_Some (lvl z ui i)) ->
  exists z', foldM (bump_span u) z (seq lo n) = Ok z' /\ frame z z' /\
    forall b j, lvl z' b j = if decide (lo <= j < lo + n)%nat then bump_new z u b j else lvl z b j.
Proof.
  intros Hlen Hu. apply loop_levels. intros i z1 Hi F1 L1.
  destruct (lookup_lt_is_Some_2 u i) as [[ui ri] Hui]; [lia|].
  destruct (Hu i ui ri) as (Hh & [[f s] Hfs]); [lia|done|].
  unfold bump_span, upd_at. rewrite Hui. cbn [of_option mbind res_bind].
  pose proof (L1 ui) as Hl. rewrite Hfs in Hl. apply get_level_lvl in Hl. rewrite Hl.
  cbn [mbind res_bind].
  destruct (set_level_spec z1 ui i (f, s + 1)) as (z2 & -> & F2 & _ & L2);
    [rewrite (f_hgt _ _ F1); lia|].
  exists z2. split_and!; [done|done| |].
  - intros b. unfold bump_new. rewrite Hui. simpl. rewrite L2, L1.
    destruct (decide (b = ui)) as [->|?]; [rewrite Hfs; by rewrite decide_True|].
    by rewrite decide_False by tauto.
  - intros b j Hj. rewrite L2. by rewrite decide_False by tauto.
Qed.

Lemma unlink_level_loop z u x :
  (zlevel z <= length u)%nat ->
  (forall i ui ri, (i < zlevel z)%nat -> u !! i = Some (ui, ri) -> (i < hgt z ui)%nat /\
     exists fs, lvl z ui i = Some fs /\ (fs.1 = Some x -> is_Some (lvl z x i))) ->
  exists z', foldM (unlink_level u x) z (seq 0 (zlevel z)) = Ok z' /\ frame z z' /\
    forall b j, lvl z' b j = if decide (j < zlevel z)%nat then unlink_new z u x b j else lvl z b j.
Proof.
  intros Hlen Hu.
  destruct (loop_levels (unlink_level u x) (unlink_new z u x) z 0 (zlevel z)) as (z' & E & F & L).
  - intros i z1 Hi F1 L1.
    destruct (lookup_lt_is_Some_2 u i) as [[ui ri] Hui]; [lia|].
    destruct (Hu i ui ri) as (Hh & [f s] & Hfs & Hx); [lia|done|]. simpl in Hx.
    unfold unlink_level, upd_at. rewrite Hui. cbn [of_option mbind res_bind].
    pose proof (L1 ui) as Hl. rewrite Hfs in Hl. apply get_level_lvl in Hl. rewrite Hl.
    cbn [mbind res_bind].
    assert (Hset : forall fs', unlink_new z u x ui i = Some fs' ->
      exists z', set_level z1 ui i fs' = Ok z' /\ frame z1 z' /\
        (forall b, lvl z' b i = unlink_new z u x b i) /\ forall b j, j <> i -> lvl z' b j = lvl z1 b j).
    { intros fs' Hnew.
      destruct (set_level_spec z1 ui i fs') as (z2 & -> & F2 & _ & L2); [rewrite (f_hgt _ _ F1); lia|].
      exists z2. split_and!; [done|done| |].
      - intros b. rewrite L2, L1. destruct (decide (b = ui)) as [->|?].
        + by rewrite decide_True.
        + rewrite decide_False by tauto. unfold unlink_new. rewrite Hui. simpl. by rewrite decide_False.
      - intros b j Hj. rewrite L2. by rewrite decide_False by tauto. }
    unfold unlink_new in Hset at 1. rewrite Hui in Hset. simpl in Hset.
    rewrite decide_True, Hfs in Hset by done. simpl in Hset.
    destruct (decide (f = Some x)) as [Hf|Hf]; [|by apply Hset].
    destruct (Hx Hf) as [[xf xs] Hxl]. pose proof (L1 x) as Hl'. rewrite Hxl in Hl'.
    apply get_level_lvl in Hl'. rewrite Hl'. cbn [mbind res_bind]. apply Hset. by rewrite Hxl.
  - exists z'. split_and!; [done|done|]. intros b j. rewrite L. repeat case_decide; done || lia.
Qed.

(** ** Raising the level of the list *)

Lemma raise_levels_loop z u lo n :
  (lo + n <= hgt z (header z))%nat ->
  (forall i, (lo <= i < lo + n)%nat -> exists s, lvl z (header z) i = Some (None, s)) ->
  exists z', foldM raise_level (z, u) (seq lo n) = Ok (z', u ++ replicate n (header z, 0)) /\ frame z z' /\
    forall b j, lvl z' b j =
      if decide (b = header z /\ (lo <= j < lo + n)%nat) then Some (None, zlength z) else lvl z b j.
Proof.
  intros Hh Htop. induction n as [|n IH].
  { exists z. simpl. rewrite app_nil_r. split_and!; [done|done|]. intros b j.
    by rewrite decide_False by lia. }
  destruct IH as (z1 & E1 & F1 & L1); [lia|intros; apply Htop; lia|].
  rewrite seq_S, foldM_app, E1. cbn [mbind res_bind foldM raise_level].
  rewrite (f_header _ _ F1), (f_len _ _ F1).
  destruct (Htop (lo + n)%nat) as [s Hs]; [lia|].
  assert (lvl z1 (header z) (lo + n)%nat = Some (None, s)) as Hl.
  { rewrite L1. by rewrite decide_False by lia. }
  apply get_level_lvl in Hl. rewrite Hl. cbn [mbind res_bind].
  destruct (set_level_spec z1 (header z) (lo + n)%nat (None, zlength z)) as (z2 & -> & F2 & _ & L2).
  { rewrite (f_hgt _ _ F1). lia. }
  cbn [mbind res_bind]. exists z2. rewrite (f_header _ _ F2), (f_header _ _ F1).
  split_and!; [|by transitivity z1|].
  - do 2 f_equal. rewrite <- app_assoc. f_equal. rewrite <- replicate_S_end. done.
  - intros b j. rewrite L2, L1. repeat case_decide; naive_solver lia.
Qed.

Lemma raise_rep z A B u lv :
  zsl_rep z (A ++ B) -> length u = zlevel z -> (forall j xr, u !! j = Some xr -> upd_ok z A j xr) ->
  (1 <= lv <= ZSKIPLIST_MAXLEVEL)%nat ->
  exists z1 u1, raise_to z u lv = Ok (z1, u1) /\ zsl_rep z1 (A ++ B) /\
    brk z1 = brk z /\ header z1 = header z /\ (lv <= zlevel z1)%nat /\
    (forall a, data z1 a = data z a) /\
    length u1 = zlevel z1 /\ (forall j xr, u1 !! j = Some xr -> upd_ok z1 A j xr).
Proof.
  intros Hrep Hlen Hu Hlv. unfold raise_to. destruct (decide (zlevel z < lv)%nat) as [Hlt|Hge].
  2: { exists z, u. split_and!; try done. lia. }
  pose proof (r_hdr _ _ Hrep) as Hhdr.
  destruct (raise_levels_loop z u (zlevel z) (lv - zlevel z)) as (z' & -> & F & L); [lia| |].
  { intros i Hi. apply (r_top _ _ Hrep). lia. }
  cbn [mbind res_bind].
  assert (Hlow : forall i m, (zlevel z <= i)%nat -> (forall a, a ∈ m -> a ∈ A ++ B) -> low (hgt z) i m).
  { intros i m Hi Hm. apply Forall_forall. intros a Ha. pose proof (r_hgt _ _ Hrep a (Hm a Ha)). lia. }
  assert (Hfw : forall i l, fwd (hgt (set_zlevel z' lv)) i l = fwd (hgt z) i l).
  { intros i l. apply fwd_ext. intros a _. apply (f_hgt _ _ F). }
  assert (Hlvl : forall b j, lvl (set_zlevel z' lv) b j = lvl z' b j) by done.
  assert (Hhg : forall a, hgt (set_zlevel z' lv) a = hgt z a) by (intros a; apply (f_hgt _ _ F)).
  assert (Hal : forall a, is_Some (nodes z' !! a) <-> is_Some (nodes z !! a)).
  { intros a. rewrite <- !data_alloc. by rewrite (f_data _ _ F). }
  eexists _, _. split; [done|]. cbn [set_zlevel brk header zlevel].
  rewrite (f_brk _ _ F), (f_header _ _ F). split_and!; try done.
  - destruct Hrep. split; simpl; rewrite ?(f_header _ _ F), ?(f_tail _ _ F), ?(f_len _ _ F); try done.
    + intros a Ha. apply Hal. auto.
    + intros a Ha. rewrite (f_brk _ _ F). apply r_brk0. by apply Hal.
    + by rewrite Hhg.
    + intros a Ha. rewrite Hhg. pose proof (r_hgt0 a Ha). lia.
    + intros pre a post i E Hi Hz. rewrite Hlvl, Hfw, L. rewrite Hhg in Hi.
      destruct (decide (zlevel z <= i)%nat) as [Hi'|Hi'].
      * assert (a = header z) as ->.
        { destruct (decide (a = header z)) as [?|Hne]; [done|]. exfalso.
          assert (a ∈ header z :: A ++ B) as Ha by (rewrite E; apply elem_of_mid).
          apply elem_of_cons in Ha as [?|Ha]; [done|]. pose proof (r_hgt0 a Ha). lia. }
        rewrite decide_True by lia.
        assert (pre = [] /\ post = A ++ B) as [-> ->].
        { by apply (head_split (header z)). }
        rewrite fwd_all_low by (apply Hlow; [lia|done]). by rewrite r_len0.
      * rewrite decide_False by lia. apply (r_fwd0 pre); [done|done|lia].
    + intros i Hi. rewrite Hlvl, L. rewrite decide_False by lia. apply r_top0. lia.
    + intros pre a b post E. rewrite <- (r_back0 pre a b post E). apply (f_bk _ _ F).
  - intros a. apply (f_data _ _ F).
  - rewrite length_app, length_replicate. lia.
  - intros j xr Hj. unfold upd_ok. simpl. rewrite (f_header _ _ F).
    apply lookup_app_Some in Hj as [Hj|[Hge Hj]].
    + destruct (Hu j xr Hj) as (pre & mid & E & Hm & Hx & Hr).
      exists pre, mid. rewrite Hhg. split_and!; try done. eapply Forall_impl; [exact Hm|].
      intros a Ha. by rewrite Hhg.
    + apply lookup_replicate in Hj as [-> Hj]. exists [], A. simpl. rewrite Hhg.
      split_and!; try done; [|lia].
      eapply Forall_impl; [apply (Hlow j); [lia|intros b Hb; apply elem_of_app; by left]|]. intros a Ha. by rewrite Hhg.
Qed.

(** ** Splitting lists of nodes *)

Lemma app_split {T} (l1 l2 pre : list T) a post :
  l1 ++ l2 = pre ++ a :: post ->
  (exists mid, l1 = pre ++ a :: mid /\ post = mid ++ l2) \/
  (exists pre', pre = l1 ++ pre' /\ l2 = pre' ++ a :: post).
Proof.
  revert pre. induction l1 as [|b l1 IH]; intros pre E; simpl in E.
  { right. by exists pre. }
  destruct pre as [|c pre]; simpl in E; injection E as -> E.
  { left. by exists l1. }
  destruct (IH pre E) as [(mid & -> & ->)|(pre' & -> & ->)].
  - left. by exists mid.
  - right. by exists pre'.
Qed.

Lemma nodup_split {T} (a : T) pre m pre' m' :
  NoDup (pre ++ a :: m) -> pre ++ a :: m = pre' ++ a :: m' -> m = m'.
Proof.
  revert pre'. induction pre as [|c pre IH]; intros [|d pre'] Hnd E; simplify_eq/=; [done|..];
    apply NoDup_cons in Hnd as [Hn Hnd].
  - destruct Hn. apply elem_of_mid.
  - destruct Hn. apply elem_of_mid.
  - by apply (IH pre').
Qed.

Lemma fwd_0 h l : (forall a, a ∈ l -> (1 <= h a)%nat) -> (fwd h 0 l).1 = head l.
Proof.
  destruct l as [|a l]; intros H; simpl; [done|]. specialize (H a ltac:(by left)).
  by rewrite decide_True by lia.
Qed.

Lemma low_0 h l : low h 0 l -> (forall a, a ∈ l -> (1 <= h a)%nat) -> l = [].
Proof.
  intros Hl H. destruct l as [|a l]; [done|]. apply Forall_cons in Hl as [Ha _].
  specialize (H a ltac:(by left)). lia.
Qed.

(** The node before the cut, and its position. *)
Lemma upd_ok_0 z A B x r :
  zsl_rep z (A ++ B) -> upd_ok z A 0 (x, r) -> exists pre, header z :: A = pre ++ [x] /\ r = Z.of_nat (length A).
Proof.
  intros Hrep (pre & mid & E & Hm & _ & Hr). simpl in *.
  assert (mid = []) as ->.
  { apply (low_0 _ _ Hm). intros a Ha. apply (r_hgt _ _ Hrep). apply elem_of_app. left.
    destruct pre as [|c pre]; simpl in E; injection E as _ ->; [done|].
    apply elem_of_app. right. by right. }
  exists pre. split; [done|]. rewrite Hr. apply (f_equal length) in E. rewrite length_app in E.
  simpl in E. lia.
Qed.

(** What a node before the cut has at a level: its forward pointer stays before
    the cut, or it is the last tall node, and leads across. *)
Lemma upd_cases z A B i x r pre a mid :
  zsl_rep z (A ++ B) -> upd_ok z A i (x, r) -> (i < zlevel z)%nat ->
  header z :: A = pre ++ a :: mid -> (i < hgt z a)%nat ->
  (a <> x /\ exists m y rest, mid = m ++ y :: rest /\ low (hgt z) i m /\ (i < hgt z y)%nat /\
     lvl z a i = Some (Some y, Z.of_nat (length m) + 1)) \/
  (a = x /\ low (hgt z) i mid /\ r = Z.of_nat (length A) - Z.of_nat (length mid) /\
     lvl z a i = Some ((fwd (hgt z) i B).1, (fwd (hgt z) i B).2 + Z.of_nat (length mid))).
Proof.
  intros Hrep (pre' & mid' & E' & Hm' & Hx & Hr) Hi E Ha. simpl in *.
  assert (Hl : lvl z a i = Some (fwd (hgt z) i (mid ++ B))).
  { apply (r_fwd _ _ Hrep pre); [|done|done]. rewrite app_comm_cons, E. by rewrite <- app_assoc. }
  destruct (low_or_high (hgt z) i mid) as [Hlow|(m & y & rest & -> & Hm & Hy)].
  - right. rewrite E' in E. destruct (last_high_unique _ _ _ _ _ _ _ _ E Hm' Hlow Hx Ha) as (-> & -> & ->).
    split_and!; [done|done| |by rewrite Hl, fwd_low].
    apply (f_equal length) in E'. rewrite length_app in E'. simpl in E'. lia.
  - left. split.
    + intros ->. rewrite E' in E.
      pose proof (r_nodup _ _ Hrep) as Hnd. rewrite app_comm_cons, E' in Hnd.
      apply NoDup_app in Hnd as [Hnd _]. 
      assert (mid' = m ++ y :: rest) as ->.
      { by apply (nodup_split x pre' mid' pre (m ++ y :: rest) Hnd E). }
      unfold low in Hm'. rewrite Forall_app, Forall_cons in Hm'. lia.
    + exists m, y, rest. split_and!; try done. rewrite Hl, <- app_assoc. simpl. by rewrite fwd_high.
Qed.

(** ** Linking a node in *)

Section LinkIn.
Context (z z' : zskiplist) (A B : list nat) (u : list (nat * Z)) (x lv : nat).
#[local] Notation n := (Z.of_nat (length A)).
Hypothesis Hrep : zsl_rep z (A ++ B).
Hypothesis Hlv : (1 <= lv <= zlevel z)%nat.
Hypothesis Hx : x ∉ header z :: A ++ B.
Hypothesis Hu : forall j, (j < zlevel z)%nat -> exists xr, u !! j = Some xr /\ upd_ok z A j xr.
Hypothesis Hhgt : forall b, hgt z' b = if decide (b = x) then lv else hgt z b.
Hypothesis Hlvl : forall b j, (j < zlevel z)%nat -> (j < hgt z' b)%nat -> lvl z' b j =
  if decide (j < lv)%nat then link_new z u n x b j else bump_new z u b j.

Lemma fwd_hgt' i l : x ∉ l -> fwd (hgt z') i l = fwd (hgt z) i l.
Proof. intros Hl. apply fwd_ext. intros a Ha. rewrite Hhgt. rewrite decide_False; [done|]. by intros ->. Qed.

Lemma x_notin : x <> header z /\ x ∉ A /\ x ∉ B.
Proof. rewrite elem_of_cons, elem_of_app in Hx. tauto. Qed.

Lemma low_hgt' i l : x ∉ l -> low (hgt z) i l -> low (hgt z') i l.
Proof.
  intros Hl H. unfold low in *. rewrite Forall_forall in *. intros a Ha. rewrite Hhgt.
  rewrite decide_False by (by intros ->). auto.
Qed.

Lemma mid_notin pre a mid : header z :: A = pre ++ a :: mid -> x <> a /\ x ∉ mid.
Proof.
  intros E. destruct x_notin as (H1 & H2 & H3).
  assert (x ∉ header z :: A) as H by (rewrite elem_of_cons; tauto).
  rewrite E, elem_of_app, elem_of_cons in H. tauto.
Qed.

(** The new node's own levels. *)
Lemma link_fwd_new i :
  (i < lv)%nat -> lvl z' x i = Some (fwd (hgt z') i B).
Proof.
  intros Hi. assert (hgt z' x = lv) as Hhx by (rewrite Hhgt; by destruct (decide (x = x))).
  rewrite Hlvl, decide_True by lia. unfold link_new.
  destruct (Hu i ltac:(lia)) as ([ui ri] & -> & Hok).
  pose proof Hok as (pre & mid & E & Hm & Hh & Hr). simpl in *.
  destruct (upd_cases _ _ _ _ _ _ _ _ _ Hrep Hok ltac:(lia) E Hh) as [[? _]|(_ & _ & Hri & ->)]; [done|].
  simpl. rewrite decide_True by done. rewrite fwd_hgt' by apply x_notin.
  destruct (fwd (hgt z) i B) as [f s]. simpl. do 2 f_equal. lia.
Qed.

(** The levels of the nodes before the cut. *)
Lemma link_fwd_left i pre a mid :
  header z :: A = pre ++ a :: mid -> (i < hgt z a)%nat -> (i < zlevel z)%nat ->
  lvl z' a i = Some (fwd (hgt z') i (mid ++ x :: B)).
Proof.
  intros E Ha Hi. destruct (mid_notin _ _ _ E) as [Hxa Hxm].
  assert (hgt z' a = hgt z a) as Hha by (rewrite Hhgt; by destruct (decide (a = x))).
  destruct (Hu i Hi) as ([ui ri] & Hui & Hok). rewrite Hlvl by (done || lia). unfold link_new, bump_new.
  rewrite Hui. simpl.
  assert (exists fs, lvl z ui i = Some fs) as [fs Hfs].
  { pose proof Hok as (pre' & mid' & E' & _ & Hh' & _). simpl in *. eexists.
    apply (r_fwd _ _ Hrep pre' _ (mid' ++ B)); [|done|done]. by rewrite app_comm_cons, E', <- app_assoc. }
  rewrite Hfs. simpl.
  destruct (upd_cases _ _ _ _ _ _ _ _ _ Hrep Hok Hi E Ha)
    as [(Hne & m & y & rest & -> & Hm & Hy & Hl)|(-> & Hlow & Hri & Hl)].
  - rewrite (decide_False (P := a = x)), !(decide_False (P := a = ui)) by done.
    rewrite elem_of_app, elem_of_cons in Hxm.
    rewrite Hl, <- app_assoc. simpl. rewrite fwd_high;
      [by destruct (decide (i < lv)%nat)|apply low_hgt'; tauto|]. rewrite Hhgt, decide_False by (intros ->; tauto). done.
  - rewrite (decide_False (P := ui = x)) by done. rewrite !(decide_True (P := ui = ui)) by done.
    pose proof (low_hgt' i mid Hxm Hlow) as Hlow'. destruct (decide (i < lv)%nat) as [Hlt|Hge].
    + rewrite fwd_high; [do 2 f_equal; lia|done|]. rewrite Hhgt. by destruct (decide (x = x)).
    + rewrite fwd_low by done. simpl. rewrite Hhgt. destruct (decide (x = x)); [|done]. rewrite decide_False by done.
      rewrite fwd_hgt' by apply x_notin. rewrite Hl. unfold bump. destruct (fwd (hgt z) i B). simpl.
      do 2 f_equal. lia.
Qed.

(** The nodes after the cut keep theirs. *)
Lemma link_fwd_right i pre a post :
  B = pre ++ a :: post -> (i < hgt z a)%nat -> (i < zlevel z)%nat ->
  lvl z' a i = Some (fwd (hgt z') i post).
Proof.
  intros E Ha Hi. destruct x_notin as (_ & _ & HxB). rewrite E, elem_of_app, elem_of_cons in HxB.
  rewrite fwd_hgt' by tauto.
  rewrite <- (r_fwd _ _ Hrep (header z :: A ++ pre) a post i); [|by rewrite E, app_comm_cons, app_assoc|done|done].
  assert (hgt z' a = hgt z a) as Hha by (rewrite Hhgt; destruct (decide (a = x)); [naive_solver|done]).
  rewrite Hlvl by (done || lia). destruct (Hu i Hi) as ([ui ri] & Hui & (pre' & mid' & E' & _ & Hh' & _)). simpl in *.
  assert (a <> ui).
  { intros ->. pose proof (r_nodup _ _ Hrep) as Hnd. rewrite app_comm_cons, E, E' in Hnd.
    apply NoDup_app in Hnd as (_ & Hd & _). apply (Hd ui); apply elem_of_mid. }
  unfold link_new, bump_new. rewrite Hui. simpl.
  assert (exists fs, lvl z ui i = Some fs) as [fs ->].
  { eexists. apply (r_fwd _ _ Hrep pre' _ (mid' ++ B)); [|done|done]. by rewrite app_comm_cons, E', <- app_assoc. }
  simpl. rewrite (decide_False (P := a = x)) by (intros ->; tauto).
  rewrite !(decide_False (P := a = ui)) by done. by destruct (decide (i < lv)%nat).
Qed.

Lemma link_in_fwd pre a post i :
  header z :: A ++ x :: B = pre ++ a :: post -> (i < hgt z' a)%nat -> (i < zlevel z)%nat ->
  lvl z' a i = Some (fwd (hgt z') i post).
Proof.
  intros E Ha Hi. rewrite app_comm_cons in E. rewrite Hhgt in Ha. destruct x_notin as (Hxh & HxA & HxB).
  apply app_split in E as [(mid & E & ->)|(pre' & -> & E)].
  - destruct (mid_notin _ _ _ E). rewrite decide_False in Ha by done. by apply (link_fwd_left _ pre).
  - destruct pre' as [|c pre']; simpl in E; injection E as <- E.
    + rewrite decide_True in Ha by done. rewrite <- E. by apply link_fwd_new.
    + rewrite decide_False in Ha.
      2: { intros ->. apply HxB. rewrite E. apply elem_of_mid. }
      by apply (link_fwd_right _ pre').
Qed.
End LinkIn.

Lemma set_backward_spec z a v :
  is_Some (nodes z !! a) ->
  exists z', set_backward z a v = Ok z' /\
    brk z' = brk z /\ header z' = header z /\ tail z' = tail z /\ zlength z' = zlength z /\
    zlevel z' = zlevel z /\ (forall b, hgt z' b = hgt z b) /\ (forall b j, lvl z' b j = lvl z b j) /\
    (forall b, data z' b = data z b) /\ (forall b, bk z' b = if decide (b = a) then Some v else bk z b).
Proof.
  intros [n Hn]. unfold set_backward, node. rewrite Hn. simpl. eexists. split; [done|].
  simpl. split_and!; try done; intros b; [| | |]; try intros j;
    unfold hgt, lvl, data, bk; simpl; destruct (decide (b = a)) as [->|?];
    rewrite ?lookup_insert_eq, ?Hn, ?lookup_insert_ne by done; done.
Qed.

(** [if (x->level[0].forward) forward->backward = v; else zsl->tail = v;] *)
Lemma fix_next_spec z f v :
  (forall y, f = Some y -> is_Some (nodes z !! y)) ->
  exists z', match f with Some y => set_backward z y v | None => Ok (set_tail z v) end = Ok z' /\
    brk z' = brk z /\ header z' = header z /\
    tail z' = match f with Some _ => tail z | None => v end /\ zlength z' = zlength z /\
    zlevel z' = zlevel z /\ (forall b, hgt z' b = hgt z b) /\ (forall b j, lvl z' b j = lvl z b j) /\
    (forall b, data z' b = data z b) /\ (forall b, bk z' b = if decide (Some b = f) then Some v else bk z b).
Proof.
  intros Hf. destruct f as [y|].
  - destruct (set_backward_spec z y v (Hf y eq_refl)) as (z' & -> & ? & ? & ? & ? & ? & ? & ? & ? & Hb).
    exists z'. split_and!; try done. intros b. rewrite Hb. repeat case_decide; naive_solver.
  - eexists. split; [done|]. by split_and!.
Qed.

Lemma head_elem {T} (l : list T) y : head l = Some y -> y ∈ l.
Proof. destruct l; simpl; [done|]. intros [= ->]. by left. Qed.

(** The new backward pointers: the node's own, and that of the node after it. *)
Lemma link_in_back z z' A B x u0 pre0 :
  zsl_rep z (A ++ B) -> x ∉ header z :: A ++ B -> header z' = header z ->
  header z :: A = pre0 ++ [u0] ->
  (forall b, bk z' b = if decide (Some b = head B) then Some (Some x)
                       else if decide (b = x) then Some (if decide (u0 = header z) then None else Some u0)
                       else bk z b) ->
  forall pre a b post, header z' :: A ++ x :: B = pre ++ a :: b :: post ->
    bk z' b = Some (if decide (a = header z') then None else Some a).
Proof.
  intros Hrep Hx Hh Hu0 Hbk pre a b post E. rewrite Hh in *. rewrite Hbk.
  pose proof (r_nodup _ _ Hrep) as Hnd. rewrite app_comm_cons in Hnd, E, Hx.
  assert (HndB : forall c, c ∈ header z :: A -> c ∉ B) by (apply NoDup_app in Hnd; naive_solver).
  rewrite elem_of_app in Hx. assert (HxB : x ∉ B) by tauto.
  assert (Hhead : forall c, Some c = head B -> c ∈ B) by (intros c; destruct B; simpl; [done|intros [= ->]; by left]).
  apply app_split in E as [(mid & E & E')|(pre' & -> & E)].
  - destruct mid as [|c mid]; simpl in E'; injection E' as <- ->.
    + rewrite E in Hu0. apply app_inj_tail in Hu0 as [_ ->].
      rewrite decide_False by (intros H; apply HxB; auto). by rewrite (decide_True (P := b = b)).
    + assert (b ∈ header z :: A) by (rewrite E; apply elem_of_app; right; right; by left).
      rewrite decide_False by (intros H'; by apply (HndB b); auto).
      rewrite decide_False by (intros ->; tauto).
      apply (r_back _ _ Hrep pre a b (mid ++ B)). rewrite app_comm_cons, E. by rewrite <- app_assoc.
  - destruct pre' as [|c pre']; simpl in E; injection E as <- E.
    + rewrite E. simpl. rewrite decide_True by done. rewrite decide_False; [done|]. intros ->. apply Hx. left. by left.
    + assert (NoDup B) as HB by (apply NoDup_app in Hnd; naive_solver).
      assert (b ∈ B) as HbB by (rewrite E; apply elem_of_app; right; right; by left).
      rewrite decide_False.
      2: { rewrite E in HB |- *. destruct pre' as [|d pre']; simpl; intros [= ->].
           - apply NoDup_cons in HB as [Hn _]. apply Hn. by left.
           - apply NoDup_cons in HB as [Hn _]. apply Hn. apply elem_of_app. right. right. by left. }
      rewrite decide_False by (intros ->; done).
      apply (r_back _ _ Hrep (header z :: A ++ pre') a b post).
      rewrite E. by rewrite app_comm_cons, app_assoc.
Qed.

(** A node put in the heap, not linked yet. *)
Lemma alloc_spec z a n :
  nodes z !! a = None ->
  let z' := mkZsl (<[a := n]> (nodes z)) (S a) (header z) (tail z) (zlength z) (zlevel z) in
  (forall b, hgt z' b = if decide (b = a) then length (level n) else hgt z b) /\
  (forall b j, b <> a -> lvl z' b j = lvl z b j) /\
  (forall b, data z' b = if decide (b = a) then Some (score n, ele n) else data z b) /\
  (forall b, b <> a -> bk z' b = bk z b).
Proof.
  intros Hn z'. unfold hgt, lvl, data, bk, z'. simpl. split_and!; intros b; [|intros j Hb| |intros Hb].
  1,3: destruct (decide (b = a)) as [->|?]; [by rewrite lookup_insert_eq|by rewrite lookup_insert_ne].
  all: by rewrite lookup_insert_ne.
Qed.

Section LinkNode.
Context (z : zskiplist) (A B : list nat) (u : list (nat * Z)) (lv : nat) (s : double) (e : string).
Hypothesis Hrep : zsl_rep z (A ++ B).
Hypothesis Hlv : (1 <= lv <= zlevel z)%nat.
Hypothesis Hlen : length u = zlevel z.
Hypothesis Hu : forall j xr, u !! j = Some xr -> upd_ok z A j xr.
#[local] Notation x := (brk z).
#[local] Notation za :=
  (mkZsl (<[x := zslCreateNode lv s (Some e)]> (nodes z)) (S x) (header z) (tail z) (zlength z) (zlevel z)).

Lemma brk_fresh : nodes z !! x = None /\ x ∉ header z :: A ++ B.
Proof.
  clear Hlv Hlen Hu.
  assert (nodes z !! x = None) as Hn.
  { destruct (nodes z !! x) eqn:E; [|done]. pose proof (r_brk _ _ Hrep x (mk_is_Some _ _ E)). lia. }
  split; [done|]. intros Hin. destruct (r_alloc _ _ Hrep _ Hin) as [? ?]. congruence.
Qed.

Lemma upd_nth j : (j < zlevel z)%nat ->
  exists ui ri, u !! j = Some (ui, ri) /\ upd_ok z A j (ui, ri) /\ ui <> x /\
    (j < hgt z ui)%nat /\ is_Some (lvl z ui j).
Proof.
  intros Hj. destruct (lookup_lt_is_Some_2 u j) as [[ui ri] Hui]; [lia|].
  pose proof (Hu _ _ Hui) as Hok. exists ui, ri. pose proof Hok as (pre & mid & E & _ & Hh & _). simpl in *.
  split_and!; try done.
  - intros ->. destruct brk_fresh as [_ Hx]. apply Hx. rewrite app_comm_cons, E.
    apply elem_of_app. left. apply elem_of_mid.
  - rewrite (r_fwd _ _ Hrep pre ui (mid ++ B) j); [eauto| |done|done].
    by rewrite app_comm_cons, E, <- app_assoc.
Qed.

(** The two loops over the levels. *)
Lemma link_loops :
  exists zc, (z1 ← foldM (link_level u (Z.of_nat (length A)) x) za (seq 0 lv);
              foldM (bump_span u) z1 (seq lv (zlevel z1 - lv))) = Ok zc /\ frame za zc /\
    (forall b j, (j < zlevel z)%nat -> (j < hgt za b)%nat -> lvl zc b j =
       if decide (j < lv)%nat then link_new z u (Z.of_nat (length A)) x b j else bump_new z u b j) /\
    (forall b j, b <> x -> (zlevel z <= j)%nat -> lvl zc b j = lvl z b j).
Proof.
  destruct brk_fresh as [Hfresh Hx].
  destruct (alloc_spec z x (zslCreateNode lv s (Some e)) Hfresh) as (Ah & Al & _ & _).
  assert (Hhx : hgt za x = lv) by (rewrite Ah, decide_True by done; apply length_replicate).
  destruct (link_level_loop za u (Z.of_nat (length A)) x lv) as (zb & -> & Fb & Lb); [lia|lia| |].
  { intros i ui ri Hi Hui. destruct (upd_nth i ltac:(lia)) as (ui' & ri' & Hui' & _ & Hne & Hh & Hl).
    rewrite Hui in Hui'. injection Hui' as <- <-. rewrite Ah, Al, decide_False by done. done. }
  cbn [mbind res_bind]. rewrite (f_lev _ _ Fb). cbn [zlevel].
  destruct (bump_span_loop zb u lv (zlevel z - lv)) as (zc & -> & Fc & Lc); [lia| |].
  { intros i ui ri Hi Hui. destruct (upd_nth i ltac:(lia)) as (ui' & ri' & Hui' & _ & Hne & Hh & Hl).
    rewrite Hui in Hui'. injection Hui' as <- <-.
    rewrite (f_hgt _ _ Fb), Lb, Ah, decide_False by done.
    rewrite decide_False by lia. by rewrite Al. }
  exists zc. split_and!; [done|by transitivity zb| |].
  - intros b j Hj Hb. rewrite Lc, Lb.
    destruct (upd_nth j Hj) as (ui & ri & Hui & _ & Hne & Hh & Hl).
    destruct (decide (lv <= j < lv + (zlevel z - lv))%nat) as [Hin|Hin].
    + rewrite (decide_False (P := (j < lv)%nat)) by lia.
      assert (b <> x) by (intros ->; lia).
      unfold bump_new. rewrite Hui. simpl. rewrite !Lb, !Al by done.
      by rewrite !(decide_False (P := (j < lv)%nat)) by lia.
    + rewrite !decide_True by lia. unfold link_new. rewrite Hui. simpl. rewrite (Al ui j Hne).
      destruct Hl as [fs Hfs]. rewrite Hfs. simpl. destruct (decide (b = x)); [done|]. by rewrite Al.
  - intros b j Hb Hj. rewrite Lc, decide_False by lia. rewrite Lb, decide_False by lia. by rewrite Al.
Qed.

(** The representation of the result, from what the writes changed. *)
Lemma link_node_finish zc ze u0 pre0 :
  header z :: A = pre0 ++ [u0] ->
  (forall a, hgt zc a = if decide (a = x) then lv else hgt z a) ->
  (forall a, data zc a = if decide (a = x) then Some (s, Some e) else data z a) ->
  (forall b j, (j < zlevel z)%nat -> (j < hgt zc b)%nat -> lvl zc b j =
    if decide (j < lv)%nat then link_new z u (Z.of_nat (length A)) x b j else bump_new z u b j) ->
  (forall b j, b <> x -> (zlevel z <= j)%nat -> lvl zc b j = lvl z b j) ->
  header ze = header z -> brk ze = S x ->
  tail ze = match head B with Some _ => tail z | None => Some x end ->
  zlength ze = zlength z -> zlevel ze = zlevel z ->
  (forall b, hgt ze b = hgt zc b) -> (forall b j, lvl ze b j = lvl zc b j) ->
  (forall b, data ze b = data zc b) ->
  (forall b, bk ze b = if decide (Some b = head B) then Some (Some x)
     else if decide (b = x) then Some (if decide (u0 = header z) then None else Some u0) else bk z b) ->
  zsl_rep (set_zlength ze (zlength ze + 1)) (A ++ x :: B).
Proof.
  intros Hu0 Hhc Hdc HLc Lt Ehdr Ebrk Etail Elen Elev Eh El Ed Ebk.
  destruct brk_fresh as [Hfresh Hx].
  assert (Hupd : forall j, (j < zlevel z)%nat -> exists xr, u !! j = Some xr /\ upd_ok z A j xr).
  { intros j Hj. destruct (upd_nth j Hj) as (? & ? & ? & ? & _). eauto. }
  assert (Hal : forall a, is_Some (nodes ze !! a) <-> a = x \/ is_Some (nodes z !! a)).
  { intros a. rewrite <- !data_alloc, Ed, Hdc. destruct (decide (a = x)); naive_solver. }
  assert (Hhe : forall a, hgt ze a = if decide (a = x) then lv else hgt z a)
    by (intros a; by rewrite Eh, Hhc).
  assert (Hxh : header z <> x) by (intros E; apply Hx, elem_of_cons; by left).
  split; cbn [set_zlength nodes brk header tail zlength zlevel]; rewrite ?Ehdr, ?Ebrk, ?Elev.
  - assert (header z :: A ++ x :: B ≡ₚ x :: header z :: A ++ B) as ->.
    { rewrite <- Permutation_middle. constructor. }
    constructor; [done|]. apply (r_nodup _ _ Hrep).
  - intros a Ha. apply Hal. rewrite elem_of_cons, elem_of_app, elem_of_cons in Ha.
    destruct (decide (a = x)); [by left|]. right. apply (r_alloc _ _ Hrep).
    rewrite elem_of_cons, elem_of_app. tauto.
  - intros a Ha. apply Hal in Ha as [->|Ha]; [lia|]. apply (r_brk _ _ Hrep) in Ha. lia.
  - change (hgt ze (header z) = ZSKIPLIST_MAXLEVEL). rewrite Hhe, decide_False by done.
    apply (r_hdr _ _ Hrep).
  - apply (r_lev _ _ Hrep).
  - intros a Ha. change (hgt (set_zlength ze (zlength ze + 1)) a) with (hgt ze a). rewrite Hhe.
    destruct (decide (a = x)); [lia|]. apply (r_hgt _ _ Hrep).
    rewrite elem_of_app, elem_of_cons in Ha. rewrite elem_of_app. tauto.
  - intros pre a post i E Hi Hz. change (lvl ze a i = Some (fwd (hgt ze) i post)).
    rewrite El. rewrite (fwd_ext (hgt ze) (hgt zc)) by (intros; apply Eh).
    eapply (link_in_fwd z zc A B u x lv); eauto. by rewrite <- Eh.
  - intros i Hi. change (exists sp, lvl ze (header z) i = Some (None, sp)).
    rewrite El, Lt by (done || lia). apply (r_top _ _ Hrep). lia.
  - intros pre a b post E. change (bk ze b = Some (if decide (a = header z) then None else Some a)).
    rewrite <- Ehdr. eapply (link_in_back z ze A B x u0 pre0); eauto. by rewrite Ehdr.
  - rewrite Etail, (r_tail _ _ Hrep). destruct B as [|b B']; simpl.
    + by rewrite last_snoc.
    + rewrite !last_app. simpl. rewrite !last_cons. by destruct (last B').
  - rewrite Elen, (r_len _ _ Hrep). rewrite !length_app. simpl. lia.
Qed.

Lemma link_node_rep :
  exists z', link_node z u lv s e = Ok (x, z') /\ zsl_rep z' (A ++ x :: B) /\
    header z' = header z /\ brk z' = S x /\
    (forall a, data z' a = if decide (a = x) then Some (s, Some e) else data z a).
Proof.
  destruct brk_fresh as [Hfresh Hx].
  destruct (alloc_spec z x (zslCreateNode lv s (Some e)) Hfresh) as (Ah & Al & Ad & Ab).
  destruct link_loops as (zc & Eloop & Fc & Lc & Lt).
  destruct (upd_nth 0) as (u0 & r0 & Hu0 & Hok0 & _); [lia|].
  destruct (upd_ok_0 _ _ _ _ _ Hrep Hok0) as (pre0 & Epre0 & ->).
  apply bind_Ok_inv in Eloop as (zb & Eb & Ec).
  unfold link_node, upd_at. rewrite Hu0. cbn [of_option mbind res_bind]. rewrite Eb.
  cbn [mbind res_bind]. rewrite Ec. cbn [mbind res_bind].
  assert (Hhc : forall a, hgt zc a = if decide (a = x) then lv else hgt z a).
  { intros a. rewrite (f_hgt _ _ Fc), Ah. cbn [level zslCreateNode]. by rewrite length_replicate. }
  assert (Hdc : forall a, data zc a = if decide (a = x) then Some (s, Some e) else data z a).
  { intros a. by rewrite (f_data _ _ Fc), Ad. }
  rewrite (f_header _ _ Fc). cbn [header].
  destruct (set_backward_spec zc x (if decide (u0 = header z) then None else Some u0))
    as (zd & -> & Dbrk & Dhdr & Dtail & Dlen & Dlev & Dh & Dl & Dd & Db).
  { apply data_alloc. rewrite Hdc. by destruct (decide (x = x)). }
  cbn [mbind res_bind].
  assert (Hupd : forall j, (j < zlevel z)%nat -> exists xr, u !! j = Some xr /\ upd_ok z A j xr).
  { intros j Hj. destruct (upd_nth j Hj) as (? & ? & ? & ? & _). eauto. }
  assert (HLc : forall b j, (j < zlevel z)%nat -> (j < hgt zc b)%nat -> lvl zc b j =
    if decide (j < lv)%nat then link_new z u (Z.of_nat (length A)) x b j else bump_new z u b j).
  { intros b j Hj Hb. apply Lc; [done|]. by rewrite <- (f_hgt _ _ Fc). }
  assert (Hl0 : lvl zd x 0 = Some (fwd (hgt zc) 0 B)).
  { rewrite Dl. eapply (link_fwd_new z zc A B u x lv); eauto; lia. }
  apply get_level_lvl in Hl0. rewrite Hl0. cbn [mbind res_bind].
  assert (HB : (fwd (hgt zc) 0 B).1 = head B).
  { apply fwd_0. intros b Hb. rewrite Hhc. destruct (decide (b = x)); [lia|].
    apply (r_hgt _ _ Hrep). apply elem_of_app. by right. }
  destruct (fwd (hgt zc) 0 B) as [f sp] eqn:Ef. cbn [fst] in HB. subst f.
  destruct (fix_next_spec zd (head B) (Some x)) as (ze & -> & Ebrk & Ehdr & Etail & Elen & Elev & Eh & El & Ed & Eb').
  { intros y Hy. apply data_alloc. rewrite Dd, Hdc. destruct (decide (y = x)); [done|].
    apply data_alloc, (r_alloc _ _ Hrep). right. apply elem_of_app. right. by apply head_elem. }
  cbn [mbind res_bind]. eexists. split; [done|]. cbn [header brk set_zlength].
  rewrite Ehdr, Dhdr, (f_header _ _ Fc), Ebrk, Dbrk, (f_brk _ _ Fc). split_and!; try done.
  2: { intros a. rewrite <- Hdc, <- Dd, <- Ed. done. }
  apply (link_node_finish zc ze u0 pre0); try done.
  - by rewrite Ehdr, Dhdr, (f_header _ _ Fc).
  - by rewrite Ebrk, Dbrk, (f_brk _ _ Fc).
  - by rewrite Etail, Dtail, (f_tail _ _ Fc).
  - by rewrite Elen, Dlen, (f_len _ _ Fc).
  - by rewrite Elev, Dlev, (f_lev _ _ Fc).
  - intros b. by rewrite Eh, Dh.
  - intros b j. by rewrite El, Dl.
  - intros b. by rewrite Ed, Dd.
  - intros b. rewrite Eb', Db. destruct (decide (Some b = head B)); [done|].
    destruct (decide (b = x)); [done|]. rewrite (f_bk _ _ Fc). by rewrite Ab.
Qed.
End LinkNode.

(** ** Linking a node out *)

Section LinkOut.
Context (z : zskiplist) (A B : list nat) (u : list (nat * Z)) (x : nat).
Hypothesis Hrep : zsl_rep z (A ++ x :: B).
Hypothesis Hlen : length u = zlevel z.
Hypothesis Hu : forall j xr, u !! j = Some xr -> upd_ok z A j xr.

Lemma x_out : x <> header z /\ x ∉ A /\ x ∉ B /\ NoDup (header z :: A ++ B).
Proof.
  pose proof (r_nodup _ _ Hrep) as Hnd.
  assert (header z :: A ++ x :: B ≡ₚ x :: header z :: A ++ B) as E.
  { rewrite <- Permutation_middle. constructor. }
  rewrite E in Hnd. apply NoDup_cons in Hnd as [Hn Hnd].
  rewrite elem_of_cons, elem_of_app in Hn. tauto.
Qed.

Lemma x_fwd i : (i < hgt z x)%nat -> lvl z x i = Some (fwd (hgt z) i B).
Proof.
  intros Hi. apply (r_fwd _ _ Hrep (header z :: A)); [done|done|].
  pose proof (r_hgt _ _ Hrep x (elem_of_mid A x B)). lia.
Qed.

(** Across the cut: to the node itself, or over it. *)
Lemma fwd_x i :
  fwd (hgt z) i (x :: B) =
    if decide (i < hgt z x)%nat then (Some x, 1) else ((fwd (hgt z) i B).1, (fwd (hgt z) i B).2 + 1).
Proof. simpl. destruct (decide _); [done|]. by destruct (fwd (hgt z) i B). Qed.

Lemma fwd_not_x i : (fwd (hgt z) i B).1 <> Some x.
Proof.
  destruct (fwd (hgt z) i B) as [f s] eqn:E. simpl. intros ->. apply fwd_elem in E.
  destruct x_out as (_ & _ & ? & _). done.
Qed.

Lemma upd_out j : (j < zlevel z)%nat ->
  exists ui ri pre mid, u !! j = Some (ui, ri) /\ header z :: A = pre ++ ui :: mid /\
    low (hgt z) j mid /\ (j < hgt z ui)%nat /\ upd_ok z A j (ui, ri) /\
    lvl z ui j = Some ((fwd (hgt z) j (x :: B)).1, (fwd (hgt z) j (x :: B)).2 + Z.of_nat (length mid)).
Proof.
  intros Hj. destruct (lookup_lt_is_Some_2 u j) as [[ui ri] Hui]; [lia|].
  pose proof (Hu _ _ Hui) as Hok. pose proof Hok as (pre & mid & E & Hm & Hh & _). simpl in *.
  exists ui, ri, pre, mid. split_and!; try done.
  destruct (upd_cases _ _ _ _ _ _ _ _ _ Hrep Hok Hj E Hh) as [[? _]|(_ & _ & _ & ->)]; done.
Qed.

Lemma unlink_loop :
  exists z1, foldM (unlink_level u x) z (seq 0 (zlevel z)) = Ok z1 /\ frame z z1 /\
    forall b j, lvl z1 b j = if decide (j < zlevel z)%nat then unlink_new z u x b j else lvl z b j.
Proof.
  apply unlink_level_loop; [lia|]. intros i ui ri Hi Hui.
  destruct (upd_out i Hi) as (ui' & ri' & pre & mid & Hui' & _ & _ & Hh & _ & Hl).
  rewrite Hui in Hui'. injection Hui' as <- <-. split; [done|]. eexists. split; [done|]. cbn [fst].
  rewrite fwd_x. destruct (decide (i < hgt z x)%nat) as [Hx|Hx]; cbn [fst].
  - intros _. rewrite x_fwd by done. eauto.
  - intros H. by apply fwd_not_x in H.
Qed.

Lemma unlink_fwd pre a post i :
  header z :: A ++ B = pre ++ a :: post -> (i < hgt z a)%nat -> (i < zlevel z)%nat ->
  unlink_new z u x a i = Some (fwd (hgt z) i post).
Proof.
  intros E Ha Hi. rewrite app_comm_cons in E.
  destruct (upd_out i Hi) as (ui & ri & preu & mid & Hui & Eu & Hmid & Hh & Hok & Hl).
  unfold unlink_new. rewrite Hui. simpl.
  apply app_split in E as [(mid' & E & ->)|(pre' & -> & E)].
  - destruct (upd_cases _ _ _ _ _ _ _ _ _ Hrep Hok Hi E Ha)
      as [(Hne & m & y & rest & -> & Hm & Hy & Hl')|(-> & Hlow & _ & Hl')].
    + rewrite decide_False by done. rewrite Hl', <- app_assoc. simpl. by rewrite fwd_high.
    + rewrite decide_True by done. rewrite Hl'. cbn [mbind option_bind fst snd]. rewrite fwd_x.
      rewrite fwd_low by done. destruct (decide (i < hgt z x)%nat) as [Hx|Hx]; cbn [fst snd].
      * rewrite decide_True by done. rewrite x_fwd by done. simpl. do 2 f_equal. lia.
      * rewrite decide_False by apply fwd_not_x. do 2 f_equal. lia.
  - destruct x_out as (_ & _ & HxB & Hnd). rewrite app_comm_cons in Hnd.
    rewrite decide_False.
    2: { intros ->. rewrite Eu, E in Hnd. apply NoDup_app in Hnd as (_ & Hd & _).
         apply (Hd ui); apply elem_of_mid. }
    apply (r_fwd _ _ Hrep (header z :: A ++ x :: pre')); [|done|done].
    rewrite E. simpl. by rewrite <- app_assoc.
Qed.
End LinkOut.

Lemma lower_level_spec z lv :
  (1 <= lv)%nat -> (forall i, (i < lv)%nat -> is_Some (lvl z (header z) i)) ->
  exists lv', lower_level z lv = Ok lv' /\ (1 <= lv' <= lv)%nat /\
    (forall i, (lv' <= i < lv)%nat -> exists s, lvl z (header z) i = Some (None, s)).
Proof.
  induction lv as [|lv IH]; intros H1 Hl; [lia|]. destruct lv as [|lv].
  { exists 1%nat. split_and!; [done|lia|lia|]. intros i Hi. lia. }
  destruct (Hl (S lv)) as [[f s] Hf]; [lia|]. pose proof Hf as Hg. apply get_level_lvl in Hg.
  change (lower_level z (S (S lv))) with
    ('(f, _) ← get_level z (header z) (S lv);
     match f with None => lower_level z (S lv) | Some _ => Ok (S (S lv)) end).
  rewrite Hg. cbn [mbind res_bind]. destruct f as [y|].
  { eexists. split_and!; [done|lia|lia|]. intros i Hi. lia. }
  destruct IH as (lv' & -> & Hlv & Hi); [lia|intros; apply Hl; lia|].
  exists lv'. split_and!; [done|lia|lia|]. intros i Hi'.
  destruct (decide (i = S lv)) as [->|?]; [eauto|]. apply Hi. lia.
Qed.

Section DeleteNode.
Context (z : zskiplist) (A B : list nat) (u : list (nat * Z)) (x : nat).
Hypothesis Hrep : zsl_rep z (A ++ x :: B).
Hypothesis Hlen : length u = zlevel z.
Hypothesis Hu : forall j xr, u !! j = Some xr -> upd_ok z A j xr.

(** The node before [x]. *)
Lemma pred_of_x : exists pre a, header z :: A = pre ++ [a] /\
  bk z x = Some (if decide (a = header z) then None else Some a).
Proof.
  destruct (exists_last (l := header z :: A)) as (pre & a & E); [done|].
  exists pre, a. split; [done|]. apply (r_back _ _ Hrep pre a x B).
  rewrite app_comm_cons, E. by rewrite <- app_assoc.
Qed.

Lemma link_out_back z' pre0 a0 :
  header z :: A = pre0 ++ [a0] -> header z' = header z ->
  (forall b, bk z' b = if decide (Some b = head B) then Some (if decide (a0 = header z) then None else Some a0)
                       else bk z b) ->
  forall pre a b post, header z' :: A ++ B = pre ++ a :: b :: post ->
    bk z' b = Some (if decide (a = header z') then None else Some a).
Proof.
  intros E0 Hh Hbk pre a b post E. rewrite Hh in *. rewrite Hbk.
  destruct (x_out z A B x Hrep) as (_ & _ & _ & Hnd). rewrite app_comm_cons in Hnd, E.
  assert (HB : forall c, c ∈ header z :: A -> Some c <> head B).
  { intros c Hc H. symmetry in H. apply head_elem in H. apply NoDup_app in Hnd as (_ & Hd & _).
    by apply (Hd c). }
  apply app_split in E as [(mid & E & E')|(pre' & -> & E)].
  - destruct mid as [|c mid]; simpl in E'.
    + rewrite <- E'. simpl. rewrite decide_True by done.
      rewrite E in E0. by apply app_inj_tail in E0 as [_ ->].
    + injection E' as <- ->. rewrite decide_False.
      2: { apply HB. rewrite E. apply elem_of_app. right. right. by left. }
      apply (r_back _ _ Hrep pre a b (mid ++ x :: B)). rewrite app_comm_cons, E. by rewrite <- app_assoc.
  - rewrite decide_False.
    2: { apply NoDup_app in Hnd as (_ & _ & HndB). rewrite E in HndB |- *.
         destruct pre' as [|d pre']; simpl; intros [= ->];
           apply NoDup_cons in HndB as [Hn _]; apply Hn; [by left|].
         apply elem_of_app. right. right. by left. }
    apply (r_back _ _ Hrep (header z :: A ++ x :: pre') a b post).
    rewrite E. simpl. by rewrite <- app_assoc.
Qed.

(** The representation without the node, from what the writes changed. *)
Lemma delete_finish z1 z2 lv pre0 a0 :
  header z :: A = pre0 ++ [a0] -> frame z z1 ->
  (forall b j, lvl z1 b j = if decide (j < zlevel z)%nat then unlink_new z u x b j else lvl z b j) ->
  brk z2 = brk z1 -> header z2 = header z1 ->
  tail z2 = match head B with Some _ => tail z1 | None => if decide (a0 = header z) then None else Some a0 end ->
  zlength z2 = zlength z1 -> zlevel z2 = zlevel z1 ->
  (forall b, hgt z2 b = hgt z1 b) -> (forall b j, lvl z2 b j = lvl z1 b j) ->
  (forall b, data z2 b = data z1 b) ->
  (forall b, bk z2 b = if decide (Some b = head B) then Some (if decide (a0 = header z) then None else Some a0)
                       else bk z1 b) ->
  (1 <= lv <= zlevel z)%nat ->
  (forall i, (lv <= i < zlevel z)%nat -> exists s, lvl z2 (header z) i = Some (None, s)) ->
  zsl_rep (set_zlength (set_zlevel z2 lv) (zlength z2 - 1)) (A ++ B).
Proof.
  intros E0 F L1 Ebrk Ehdr Etail Elen Elev Eh El Ed Ebk Hlv Htop.
  destruct (x_out z A B x Hrep) as (Hxh & HxA & HxB & Hnd).
  rewrite (f_header _ _ F) in Ehdr. rewrite (f_brk _ _ F) in Ebrk. rewrite (f_len _ _ F) in Elen.
  rewrite (f_tail _ _ F) in Etail.
  assert (Hh : forall b, hgt z2 b = hgt z b) by (intros b; by rewrite Eh, (f_hgt _ _ F)).
  assert (Hal : forall a, is_Some (nodes z2 !! a) <-> is_Some (nodes z !! a)).
  { intros a. rewrite <- !data_alloc. by rewrite Ed, (f_data _ _ F). }
  assert (Hsub : forall a, a ∈ A ++ B -> a ∈ A ++ x :: B).
  { intros a. rewrite !elem_of_app, elem_of_cons. tauto. }
  assert (Hfw : forall pre a post i, header z :: A ++ B = pre ++ a :: post -> (i < hgt z a)%nat ->
    (i < zlevel z)%nat -> lvl z2 a i = Some (fwd (hgt z) i post)).
  { intros pre a post i E Hi Hz. rewrite El, L1, decide_True by done.
    by apply (unlink_fwd z A B u x Hrep Hlen Hu pre). }
  set (z3 := set_zlength _ _).
  assert (Hh3 : forall b, hgt z3 b = hgt z b) by (intros b; apply Hh).
  split; cbn [z3 set_zlength set_zlevel nodes brk header tail zlength zlevel]; rewrite ?Ehdr, ?Ebrk.
  - done.
  - intros a Ha. apply Hal, (r_alloc _ _ Hrep). rewrite elem_of_cons in Ha |- *. naive_solver.
  - intros a Ha. apply (r_brk _ _ Hrep). by apply Hal.
  - rewrite Hh3. apply (r_hdr _ _ Hrep).
  - pose proof (r_lev _ _ Hrep). lia.
  - intros a Ha. rewrite Hh3. pose proof (r_hgt _ _ Hrep a (Hsub a Ha)) as Hha. split; [lia|].
    destruct (decide (hgt z a <= lv)%nat) as [?|Hgt]; [done|]. exfalso.
    pose proof (r_hdr _ _ Hrep) as Hhd. pose proof (r_lev _ _ Hrep).
    destruct (Htop (hgt z a - 1)%nat) as [s Hs]; [lia|].
    rewrite (Hfw [] (header z) (A ++ B)) in Hs; [|done|lia|lia]. injection Hs as Hs.
    assert (low (hgt z) (hgt z a - 1) (A ++ B)) as Hlow by (apply fwd_None; by rewrite Hs).
    unfold low in Hlow. rewrite Forall_forall in Hlow. specialize (Hlow a Ha). simpl in Hlow. lia.
  - intros pre a post i E Hi Hz. change (lvl z2 a i = Some (fwd (hgt z3) i post)).
    rewrite (fwd_ext (hgt z3) (hgt z)) by (intros; apply Hh3). apply (Hfw pre); [done|by rewrite <- Hh3|lia].
  - intros i Hi. change (exists s, lvl z2 (header z) i = Some (None, s)).
    destruct (decide (i < zlevel z)%nat) as [Hlt|Hge]; [apply Htop; lia|].
    rewrite El, L1, decide_False by done. apply (r_top _ _ Hrep). lia.
  - intros pre a b post E. change (bk z2 b = Some (if decide (a = header z) then None else Some a)).
    pose proof (link_out_back z2 pre0 a0 E0 Ehdr) as Hback. rewrite Ehdr in Hback.
    eapply Hback; [|done]. intros c. rewrite Ebk. destruct (decide (Some c = head B)); [done|].
    apply (f_bk _ _ F).
  - rewrite Etail. destruct B as [|b B'].
    + simpl. rewrite app_nil_r. destruct pre0 as [|c pre0]; simpl in E0; injection E0 as <- ->.
      * by rewrite decide_True.
      * rewrite last_snoc, decide_False; [done|]. intros ->. apply NoDup_cons in Hnd as [Hn _].
        apply Hn. rewrite app_nil_r. apply elem_of_app. right. by left.
    + simpl. rewrite (r_tail _ _ Hrep), !last_app, !last_cons. by destruct (last B').
  - rewrite Elen, (r_len _ _ Hrep), !length_app. simpl. lia.
Qed.

Lemma delete_node_rep :
  exists z', zslDeleteNode z x u = Ok z' /\ zsl_rep z' (A ++ B) /\ header z' = header z /\
    brk z' = brk z /\ (forall a, data z' a = data z a).
Proof.
  destruct (unlink_loop z A B u x Hrep Hlen Hu) as (z1 & E1 & F & L1).
  destruct pred_of_x as (pre0 & a0 & E0 & Hbx). pose proof (r_lev _ _ Hrep) as Hlev.
  destruct (x_out z A B x Hrep) as (Hxh & HxA & HxB & Hnd).
  assert (Hxin : x ∈ A ++ x :: B) by apply elem_of_mid.
  assert (Hx0 : lvl z1 x 0 = Some (fwd (hgt z) 0 B)).
  { rewrite L1, decide_True by lia. unfold unlink_new.
    destruct (upd_out z A B u x Hrep Hlen Hu 0) as (ui & ri & pre & mid & -> & E & _); [lia|]. simpl.
    rewrite decide_False.
    - eapply x_fwd; [done|done|]. pose proof (r_hgt _ _ Hrep x Hxin). lia.
    - intros ->. assert (ui ∈ header z :: A) as Hin by (rewrite E; apply elem_of_mid).
      rewrite elem_of_cons in Hin. tauto. }
  unfold zslDeleteNode. rewrite E1. cbn [mbind res_bind]. apply get_level_lvl in Hx0. rewrite Hx0.
  assert (Hb1 : get_backward z1 x = Ok (if decide (a0 = header z) then None else Some a0)).
  { apply get_backward_bk. by rewrite (f_bk _ _ F). }
  assert (HB : (fwd (hgt z) 0 B).1 = head B).
  { apply fwd_0. intros b Hb. apply (r_hgt _ _ Hrep). apply elem_of_app. right. by right. }
  destruct (fwd (hgt z) 0 B) as [f sp]. cbn [fst] in HB. subst f. cbn [mbind res_bind].
  rewrite Hb1. cbn [mbind res_bind].
  destruct (fix_next_spec z1 (head B) (if decide (a0 = header z) then None else Some a0))
    as (z2 & -> & Ebrk & Ehdr & Etail & Elen & Elev & Eh & El & Ed & Eb).
  { intros y Hy. apply data_alloc. rewrite (f_data _ _ F). apply data_alloc, (r_alloc _ _ Hrep).
    right. apply elem_of_app. right. right. by apply head_elem. }
  cbn [mbind res_bind].
  destruct (lower_level_spec z2 (zlevel z2)) as (lv & -> & Hlv & Htop).
  { rewrite Elev, (f_lev _ _ F). lia. }
  { intros i Hi. rewrite Elev, (f_lev _ _ F) in Hi. rewrite El, Ehdr, (f_header _ _ F), L1, decide_True by done.
    erewrite (unlink_fwd z A B u x Hrep Hlen Hu []); [eauto|done| |done].
    rewrite (r_hdr _ _ Hrep). lia. }
  rewrite Elev, (f_lev _ _ F), Ehdr, (f_header _ _ F) in *. cbn [mbind res_bind].
  eexists. split; [done|]. cbn [header brk set_zlength set_zlevel]. split_and!.
  - apply (delete_finish z1 z2 lv pre0 a0); try done; by rewrite ?(f_header _ _ F), ?(f_lev _ _ F).
  - done.
  - by rewrite Ebrk, (f_brk _ _ F).
  - intros a. rewrite <- (f_data _ _ F), <- Ed. done.
Qed.
End DeleteNode.

(** A node that is not linked can be freed. *)
Lemma free_rep z l x :
  zsl_rep z l -> x ∉ header z :: l -> is_Some (nodes z !! x) ->
  exists z', zslFreeNode z x = Ok z' /\ zsl_rep z' l /\ header z' = header z /\
    (forall a, data z' a = if decide (a = x) then None else data z a).
Proof.
  intros Hrep Hx [n Hn]. unfold zslFreeNode, node. rewrite Hn. cbn [of_option mbind res_bind].
  eexists. split; [done|]. set (z' := set_nodes z _).
  assert (Hne : forall a, a <> x -> nodes z' !! a = nodes z !! a) by (intros a Ha; by apply lookup_delete_ne).
  assert (Hl : forall a, a ∈ header z :: l -> a <> x) by (intros a Ha ->; done).
  assert (Hh : forall a, a <> x -> hgt z' a = hgt z a) by (intros a Ha; unfold hgt; by rewrite Hne).
  split_and!; [|done|].
  2: { intros a. unfold data. destruct (decide (a = x)) as [->|?]; [|by rewrite Hne].
       simpl. by rewrite lookup_delete_eq. }
  destruct Hrep. split; cbn [z' set_nodes brk header tail zlength zlevel]; try done.
  - intros a Ha. rewrite Hne by auto. auto.
  - intros a Ha. apply r_brk0. destruct (decide (a = x)) as [->|?]; [|by rewrite <- Hne].
    simpl in Ha. rewrite lookup_delete_eq in Ha. by destruct Ha.
  - rewrite Hh; [done|]. apply Hl. by left.
  - intros a Ha. rewrite Hh; [auto|]. apply Hl. by right.
  - intros pre a post i E Hi Hz. assert (a <> x) as Ha by (apply Hl; rewrite E; apply elem_of_mid).
    rewrite Hh in Hi by done. unfold lvl. rewrite Hne by done. fold (lvl z a i).
    rewrite (fwd_ext (hgt z') (hgt z)); [by apply (r_fwd0 pre)|].
    intros b Hb. apply Hh, Hl. rewrite E. apply elem_of_app. right. by right.
  - intros i Hi. unfold lvl. rewrite Hne by (apply Hl; by left). by apply r_top0.
  - intros pre a b post E. unfold bk. rewrite Hne; [by apply (r_back0 pre _ _ post)|].
    apply Hl. rewrite E. apply elem_of_app. right. right. by left.
Qed.
