(* ===== verification/SkiplistSpec.v ===== *)
(** * The skip list as a sorted list of entries

    [zsl_view z l es]: the nodes [l] of [z] hold the entries [es], which are in
    the order of the sorted set.  Insertion, deletion, score updates and rank
    queries do on [es] what the reference functions on sorted lists do. *)

From S2P Require Import Prelude Sds Double Score Skiplist SkiplistRep.
From Stdlib Require Import SpecFloat.

(** ** The reference functions *)

Notation zentry := (double * string)%type.

Fixpoint zinsert (k : zentry) (es : list zentry) : list zentry :=
  match es with
  | [] => [k]
  | y :: es' => if entry_lt y k then y :: zinsert k es' else k :: es
  end.

Definition zremove (e : string) (es : list zentry) : list zentry :=
  filter (fun y => y.2 <> e) es.

Definition zscore (e : string) (es : list zentry) : option double :=
  fst <$> head (filter (fun y => y.2 = e) es).

(** Scores are numbers, entries are in order, an element occurs once. *)
Record zordered (es : list zentry) : Prop := {
  zo_num : Forall is_num es;
  zo_sorted : sorted_entries es;
  zo_nodup : NoDup es.*2
}.

Lemma zinsert_split k EA EB :
  (forall y, y ∈ EA -> entry_lt y k = true) -> (forall y, head EB = Some y -> entry_lt y k = false) ->
  zinsert k (EA ++ EB) = EA ++ k :: EB.
Proof.
  intros HA HB. induction EA as [|y EA IH]; simpl.
  - destruct EB as [|y EB]; simpl; [done|]. by rewrite (HB y).
  - rewrite (HA y) by (by left). rewrite IH; [done|]. intros; apply HA. by right.
Qed.

(** A key cuts a sorted list in two. *)
Lemma key_split k es :
  zordered es -> is_num k ->
  exists EA EB, es = EA ++ EB /\ (forall y, y ∈ EA -> entry_lt y k = true) /\
    (forall y, y ∈ EB -> entry_lt y k = false).
Proof.
  intros [Hnum Hs _] Hk. unfold sorted_entries in Hs. induction Hs as [|y es Hs IH Hall].
  { exists [], []. split_and!; [done|..]; intros y Hy; by apply elem_of_nil in Hy. }
  apply Forall_cons in Hnum as [Hy Hnum]. rewrite Forall_forall in Hall.
  destruct (entry_lt y k) eqn:E.
  - destruct (IH Hnum) as (EA & EB & -> & HA & HB). exists (y :: EA), EB. split_and!; [done| |done].
    intros w Hw. apply elem_of_cons in Hw as [->|Hw]; auto.
  - exists [], (y :: es). split_and!; [done|intros w Hw; by apply elem_of_nil in Hw|].
    intros w Hw. apply elem_of_cons in Hw as [->|Hw]; [done|].
    rewrite Forall_forall in Hnum. apply entry_lt_false; [by apply Hnum|done|]. intros Hlt.
    apply entry_lt_false in E; [|done|done]. apply E. transitivity w; [by apply Hall|done].
Qed.

Lemma zordered_app EA EB :
  zordered (EA ++ EB) <->
  zordered EA /\ zordered EB /\ (forall x y, x ∈ EA -> y ∈ EB -> ekey_lt x y /\ x.2 <> y.2).
Proof.
  split.
  - intros [H1 H2 H3]. apply Forall_app in H1 as [? ?]. apply sorted_entries_app in H2 as (? & ? & Hlt).
    rewrite fmap_app in H3. apply NoDup_app in H3 as (? & Hd & ?). split_and!; [by split..|].
    intros x y Hx Hy. split; [auto|]. intros E. apply (Hd x.2); [by apply list_elem_of_fmap_2|].
    rewrite E. by apply list_elem_of_fmap_2.
  - intros ([H1 H2 H3] & [H4 H5 H6] & H). split; [by apply Forall_app|apply sorted_entries_app; naive_solver|].
    rewrite fmap_app. apply NoDup_app. split_and!; [done| |done]. intros e He He'.
    apply list_elem_of_fmap in He as (x & -> & Hx). apply list_elem_of_fmap in He' as (y & E & Hy).
    by destruct (H x y Hx Hy).
Qed.

Lemma zordered_single k : is_num k -> zordered [k].
Proof.
  intros Hk. split; [by constructor|repeat constructor|]. simpl. apply NoDup_singleton.
Qed.

(** Inserting a new element at the cut keeps the order. *)
Lemma zordered_insert k EA EB :
  zordered (EA ++ EB) -> is_num k -> k.2 ∉ (EA ++ EB).*2 ->
  (forall y, y ∈ EA -> entry_lt y k = true) -> (forall y, y ∈ EB -> entry_lt y k = false) ->
  zordered (EA ++ k :: EB).
Proof.
  intros Ho Hk He HA HB. apply zordered_app in Ho as (HoA & HoB & Hlt).
  rewrite fmap_app, elem_of_app in He.
  assert (HnA : forall y, y ∈ EA -> y.2 <> k.2).
  { intros y Hy E. apply He. left. rewrite <- E. by apply list_elem_of_fmap_2. }
  assert (HnB : forall y, y ∈ EB -> y.2 <> k.2).
  { intros y Hy E. apply He. right. rewrite <- E. by apply list_elem_of_fmap_2. }
  assert (HkB : forall y, y ∈ EB -> ekey_lt k y).
  { intros y Hy. pose proof (zo_num _ HoB) as Hn. rewrite Forall_forall in Hn.
    pose proof (HB y Hy) as E. apply entry_lt_false in E; [|by apply Hn|done].
    destruct (ekey_lt_total k y) as [?|[?|[_ ?]]]; [done|done|]. by destruct (HnB y Hy). }
  assert (HAk : forall y, y ∈ EA -> ekey_lt y k).
  { intros y Hy. pose proof (zo_num _ HoA) as Hn. rewrite Forall_forall in Hn.
    apply entry_lt_key; [by apply Hn|done|auto]. }
  apply zordered_app. split_and!; [done| |].
  - apply (zordered_app [k] EB). split_and!; [by apply zordered_single|done|].
    intros x y ->%list_elem_of_singleton Hy. split; [auto|]. intros E. by apply (HnB y Hy).
  - intros x y Hx Hy. apply elem_of_cons in Hy as [->|Hy]; [auto|auto].
Qed.

Lemma Forall_keep {T} (P Q : T -> Prop) `{!forall x, Decision (Q x)} l : Forall P l -> Forall P (filter Q l).
Proof. rewrite !Forall_forall. intros HP x Hx. apply list_elem_of_filter in Hx as [_ Hx]. auto. Qed.

Lemma zordered_remove e es : zordered es -> zordered (zremove e es).
Proof.
  intros [H1 H2 H3]. unfold zremove. split.
  - by apply Forall_keep.
  - unfold sorted_entries in *. clear H1 H3. induction H2 as [|y es Hs IH Hall]; [constructor|].
    destruct (decide (y.2 <> e)).
    + rewrite filter_cons_True by done. constructor; [done|]. by apply Forall_keep.
    + by rewrite filter_cons_False.
  - eapply sublist_NoDup; [exact H3|]. apply fmap_sublist, sublist_filter.
Qed.

(** ** Entries of a skip list *)

Definition entries (z : zskiplist) (l : list nat) (es : list zentry) : Prop :=
  Forall2 (fun a y => data z a = Some (y.1, Some y.2)) l es.

Record zsl_view (z : zskiplist) (l : list nat) (es : list zentry) : Prop := {
  v_rep : zsl_rep z l;
  v_entries : entries z l es;
  v_ordered : zordered es;
  v_header : exists s, data z (header z) = Some (s, None);
  v_small : Z.of_nat (length es) < 2 ^ 32
}.

Lemma view_length z l es : zsl_view z l es -> length l = length es.
Proof. intros H. eapply Forall2_length, (v_entries _ _ _ H). Qed.

Lemma data_node z a n y : nodes z !! a = Some n -> data z a = Some (y.1, Some y.2) ->
  score n = y.1 /\ ele n = Some y.2.
Proof. unfold data. intros -> [= -> ->]. done. Qed.

(** The tests of the searches, on a node that holds an entry. *)
Lemma comes_before_entry k r sp n y :
  score n = y.1 -> ele n = Some y.2 -> comes_before k.1 k.2 r sp n = Ok (entry_lt y k).
Proof.
  intros Hs He. unfold comes_before, entry_lt, ele_of. rewrite Hs, He.
  destruct (dlt y.1 k.1); [done|]. by destruct (deq y.1 k.1).
Qed.

(** A search whose test says whether an entry is before the cut. *)
Section SearchCut.
Context (z : zskiplist) (l : list nat) (EA EB : list zentry).
Context (norm : Z -> Z) (go : Z -> Z -> zskiplistNode -> res bool).
Hypothesis Hv : zsl_view z l (EA ++ EB).
Hypothesis Hnorm : forall r, 0 <= r < 2 ^ 32 -> norm r = r.
Hypothesis Hgo : forall i y n r sp,
  (EA ++ EB) !! i = Some y -> score n = y.1 -> ele n = Some y.2 -> r + sp = Z.of_nat i + 1 -> 0 <= r -> 0 < sp ->
  go r sp n = Ok (bool_decide (i < length EA)%nat).

(** Nodes before and after the cut. *)
Lemma view_cut : exists A B, l = A ++ B /\ entries z A EA /\ entries z B EB.
Proof.
  pose proof (v_entries _ _ _ Hv) as H. apply Forall2_app_inv_r in H as (A & B & ? & ? & ->). by exists A, B.
Qed.

Lemma search_cut :
  exists A B u, l = A ++ B /\ entries z A EA /\ entries z B EB /\
    descend (zlevel z) norm go z (header z) 0 = Ok u /\
    length u = zlevel z /\ (forall j xr, u !! j = Some xr -> upd_ok z A j xr).
Proof.
  destruct view_cut as (A & B & -> & HeA & HeB).
  pose proof (Forall2_length _ _ _ HeA) as HlA. pose proof (v_small _ _ _ Hv) as Hsm.
  rewrite length_app in Hsm.
  destruct (search_spec z A B norm go) as (u & Hu); [apply Hv| | |by exists A, B, u].
  - intros r Hr. apply Hnorm. lia.
  - intros pre y post n r sp E Hn Hrs Hr Hsp.
    destruct pre as [|h pre]; [simpl in Hrs; lia|]. injection E as <- E.
    assert (exists w, (EA ++ EB) !! length pre = Some w /\ data z y = Some (w.1, Some w.2)) as (w & Hw & Hd).
    { pose proof (v_entries _ _ _ Hv) as He. eapply Forall2_lookup_l in He; [exact He|].
      rewrite E. by rewrite list_lookup_middle. }
    destruct (data_node _ _ _ _ Hn Hd) as [Hs He].
    rewrite (Hgo (length pre) w) by (done || (cbn [length] in Hrs; lia)). f_equal. cbn [length].
    apply bool_decide_ext. lia.
Qed.
End SearchCut.

Lemma search_view z l EA EB k norm :
  zsl_view z l (EA ++ EB) ->
  (forall y, y ∈ EA -> entry_lt y k = true) -> (forall y, y ∈ EB -> entry_lt y k = false) ->
  (forall r, 0 <= r < 2 ^ 32 -> norm r = r) ->
  exists A B u, l = A ++ B /\ entries z A EA /\ entries z B EB /\
    descend (zlevel z) norm (comes_before k.1 k.2) z (header z) 0 = Ok u /\
    length u = zlevel z /\ (forall j xr, u !! j = Some xr -> upd_ok z A j xr).
Proof.
  intros Hv HA HB Hnorm. apply (search_cut z l EA EB norm _ Hv Hnorm).
  intros i y n r sp Hi Hs He _ _ _. rewrite (comes_before_entry k _ _ n y) by done. f_equal.
  apply lookup_app_Some in Hi as [Hi|[Hge Hi]].
  - rewrite HA by (by eapply list_elem_of_lookup_2). apply lookup_lt_Some in Hi. by rewrite bool_decide_true by lia.
  - rewrite HB by (by eapply list_elem_of_lookup_2). by rewrite bool_decide_false by lia.
Qed.

(** ** Insertion *)

Lemma random_level_range rs n lv rs' :
  random_level rs n = Ok (lv, rs') -> (1 <= n)%nat -> (1 <= lv <= ZSKIPLIST_MAXLEVEL)%nat.
Proof.
  revert n. induction rs as [|r rs IH]; intros n; simpl; [done|].
  destruct (4 * Z.land r 65535 <? 65535).
  - intros H Hn. apply (IH (S n)); [done|lia].
  - intros [= <- _] Hn. unfold ZSKIPLIST_MAXLEVEL.
    destruct (decide (n < 32)%nat); lia.
Qed.


Lemma entries_ext z z' l es :
  (forall a, a ∈ l -> data z' a = data z a) -> entries z l es -> entries z' l es.
Proof.
  intros H He. unfold entries in *. induction He as [|a y l es Hy He IH]; constructor.
  - rewrite H by (by left). done.
  - apply IH. intros b Hb. apply H. by right.
Qed.

Lemma zslInsert_view z l es k rs lv rs' :
  zsl_view z l es -> is_num k -> k.2 ∉ es.*2 -> Z.of_nat (length es) + 1 < 2 ^ 32 ->
  zslRandomLevel rs = Ok (lv, rs') ->
  exists A B z', l = A ++ B /\ zslInsert z k.1 k.2 rs = Ok (brk z, z', rs') /\
    zsl_view z' (A ++ brk z :: B) (zinsert k es) /\ header z' = header z /\
    (forall a, data z' a = if decide (a = brk z) then Some (k.1, Some k.2) else data z a).
Proof.
  intros Hv Hk He Hsm Hrl. destruct (key_split k es (v_ordered _ _ _ Hv) Hk) as (EA & EB & -> & HA & HB).
  destruct (search_view z l EA EB k u32 Hv HA HB u32_id) as (A & B & u & -> & HeA & HeB & Hd & Hlen & Hu).
  pose proof (random_level_range rs 1 lv rs' Hrl ltac:(lia)) as Hlv.
  destruct (raise_rep z A B u lv (v_rep _ _ _ Hv) Hlen Hu Hlv)
    as (z1 & u1 & E1 & Hrep1 & Hbrk1 & Hhdr1 & Hlv1 & Hdata1 & Hlen1 & Hu1).
  destruct (link_node_rep z1 A B u1 lv k.1 k.2 Hrep1 (conj (proj1 Hlv) Hlv1) Hlen1 Hu1)
    as (z2 & E2 & Hrep2 & Hhdr2 & _ & Hdata2).
  rewrite Hbrk1 in E2, Hrep2. rewrite Hbrk1 in Hdata2.
  assert (Hdata : forall a, data z2 a = if decide (a = brk z) then Some (k.1, Some k.2) else data z a).
  { intros a. rewrite Hdata2. case_decide; [done|apply Hdata1]. }
  assert (Hfresh : brk z ∉ header z :: A ++ B).
  { rewrite <- Hbrk1, <- Hhdr1. by destruct (brk_fresh z1 A B Hrep1). }
  rewrite elem_of_cons, elem_of_app in Hfresh.
  assert (Hkeep : forall m ms, (forall a, a ∈ m -> a ∈ A \/ a ∈ B) -> entries z m ms -> entries z2 m ms).
  { intros m ms Hm. apply entries_ext. intros a Ha. rewrite Hdata, decide_False; [done|].
    intros ->. specialize (Hm _ Ha). tauto. }
  exists A, B, z2. split; [done|]. split.
  { unfold zslInsert. unfold is_num in Hk. rewrite Hk, Hd. cbn [mbind res_bind]. rewrite Hrl.
    cbn [mbind res_bind]. rewrite E1. cbn [mbind res_bind]. by rewrite E2. }
  split_and!; [|by rewrite Hhdr2|done].
  rewrite zinsert_split; [|done|intros y Hy; apply HB; by apply head_elem]. split; [done| | | |].
  - apply Forall2_app; [apply Hkeep; auto|]. constructor; [|apply Hkeep; auto].
    rewrite Hdata. by destruct (decide (brk z = brk z)).
  - apply zordered_insert; try done. apply (v_ordered _ _ _ Hv).
  - rewrite Hhdr2, Hhdr1. destruct (v_header _ _ _ Hv) as [s0 Hs0]. exists s0.
    rewrite Hdata, decide_False; [done|]. intros E. apply Hfresh. left. done.
  - rewrite length_app in *. simpl. lia.
Qed.

(** ** Deletion *)

Definition same_key (k y : zentry) : Prop := dkey k.1 = dkey y.1 /\ k.2 = y.2.

Lemma same_key_lt k y w : same_key k y -> ekey_lt w k <-> ekey_lt w y.
Proof. unfold same_key, ekey_lt. intros [-> ->]. done. Qed.

Lemma delete_cut k y EA EB :
  zordered (EA ++ EB) -> is_num k ->
  (forall w, w ∈ EA -> entry_lt w k = true) -> (forall w, w ∈ EB -> entry_lt w k = false) ->
  y ∈ EA ++ EB -> same_key k y ->
  exists EB', EB = y :: EB' /\ zremove k.2 (EA ++ EB) = EA ++ EB'.
Proof.
  intros Ho Hk HA HB Hy Hky. pose proof (zo_num _ Ho) as Hnum. rewrite Forall_forall in Hnum.
  assert (HyB : y ∈ EB).
  { apply elem_of_app in Hy as [Hy|Hy]; [|done]. exfalso.
    pose proof (HA y Hy) as Hlt. apply entry_lt_key in Hlt; [|apply Hnum; apply elem_of_app; by left|done].
    apply (same_key_lt _ _ _ Hky) in Hlt. by apply ekey_lt_irrefl in Hlt. }
  destruct EB as [|w EB]; [by apply elem_of_nil in HyB|].
  assert (w = y) as ->.
  { apply elem_of_cons in HyB as [->|HyB]; [done|]. exfalso.
    apply zordered_app in Ho as (_ & Ho & _). apply (zordered_app [w] EB) in Ho as (_ & _ & Hlt).
    destruct (Hlt w y) as [Hlt' _]; [by left|done|].
    pose proof (HB w ltac:(by left)) as Hf.
    apply entry_lt_false in Hf; [|apply Hnum, elem_of_mid|done]. apply Hf.
    by apply (same_key_lt _ _ _ Hky). }
  exists EB. split; [done|]. pose proof (zo_nodup _ Ho) as Hnd. destruct Hky as [_ E].
  rewrite fmap_app, fmap_cons in Hnd. apply NoDup_app in Hnd as (_ & Hd & Hnd).
  apply NoDup_cons in Hnd as [Hn _].
  unfold zremove. rewrite filter_app, filter_cons_False by naive_solver. f_equal; apply filter_all.
  - intros w Hw Ew. apply (Hd y.2); [|by left]. rewrite <- E, <- Ew. by apply list_elem_of_fmap_2.
  - intros w Hw Ew. apply Hn. rewrite <- E, <- Ew. by apply list_elem_of_fmap_2.
Qed.

(** Unlinking the node of an element. *)
Lemma zslDeleteNode_view z A x B u EA y EB :
  zsl_view z (A ++ x :: B) (EA ++ y :: EB) -> length A = length EA ->
  length u = zlevel z -> (forall j xr, u !! j = Some xr -> upd_ok z A j xr) ->
  exists z', zslDeleteNode z x u = Ok z' /\ zsl_view z' (A ++ B) (EA ++ EB) /\
    header z' = header z /\ brk z' = brk z /\ (forall a, data z' a = data z a).
Proof.
  intros Hv HlA Hlen Hu. destruct (delete_node_rep z A B u x (v_rep _ _ _ Hv) Hlen Hu)
    as (z' & E & Hrep & Hhdr & Hbrk & Hdata).
  exists z'. split_and!; try done.
  pose proof (v_entries _ _ _ Hv) as He. apply Forall2_app_inv in He as [HeA HeB]; [|done].
  apply Forall2_cons in HeB as [_ HeB]. split; [done| | | |].
  - apply (entries_ext z); [done|]. by apply Forall2_app.
  - pose proof (v_ordered _ _ _ Hv) as Ho. apply zordered_app in Ho as (HoA & HoB & Hlt).
    apply (zordered_app [y] EB) in HoB as (_ & HoB & _). apply zordered_app. split_and!; [done|done|].
    intros w w' Hw Hw'. apply Hlt; [done|by right].
  - rewrite Hhdr, Hdata. apply (v_header _ _ _ Hv).
  - pose proof (v_small _ _ _ Hv) as Hs. rewrite !length_app in *. simpl in Hs. lia.
Qed.

Lemma free_view z l es x :
  zsl_view z l es -> x ∉ header z :: l -> is_Some (nodes z !! x) ->
  exists z', zslFreeNode z x = Ok z' /\ zsl_view z' l es /\ header z' = header z /\
    (forall a, data z' a = if decide (a = x) then None else data z a).
Proof.
  intros Hv Hx Hn. destruct (free_rep z l x (v_rep _ _ _ Hv) Hx Hn) as (z' & E & Hrep & Hhdr & Hdata).
  exists z'. split_and!; try done. rewrite elem_of_cons in Hx. destruct Hv. split; try done.
  - apply (entries_ext z); [|done]. intros a Ha. rewrite Hdata, decide_False; [done|]. intros ->. tauto.
  - rewrite Hhdr. destruct v_header0 as [s Hs]. exists s. rewrite Hdata, decide_False; [done|].
    intros E'. apply Hx. by left.
Qed.

(** Where a search stops on level 0: in front of the cut, after as many nodes. *)
Lemma cut_node z A B u :
  zsl_rep z (A ++ B) -> length u = zlevel z -> (forall j xr, u !! j = Some xr -> upd_ok z A j xr) ->
  exists x u' pre sp, u = (x, Z.of_nat (length A)) :: u' /\ header z :: A = pre ++ [x] /\
    get_level z x 0 = Ok (head B, sp).
Proof.
  intros Hrep Hlen Hu. pose proof (r_lev _ _ Hrep) as Hlev. destruct u as [|[x r] u']; [simpl in Hlen; lia|].
  pose proof (Hu 0%nat _ eq_refl) as Hu0. destruct (upd_ok_0 _ _ _ _ _ Hrep Hu0) as (pre & E0 & ->).
  destruct Hu0 as (_ & _ & _ & _ & Hh & _). simpl in Hh.
  assert (Hl : lvl z x 0 = Some (fwd (hgt z) 0 B)).
  { apply (r_fwd _ _ Hrep pre); [|done|lia]. rewrite app_comm_cons, E0. by rewrite <- app_assoc. }
  assert (HB : (fwd (hgt z) 0 B).1 = head B).
  { apply fwd_0. intros b Hb. apply (r_hgt _ _ Hrep). apply elem_of_app. by right. }
  exists x, u', pre, (fwd (hgt z) 0 B).2. split_and!; [done|done|]. apply get_level_lvl.
  rewrite Hl, <- HB. by destruct (fwd (hgt z) 0 B).
Qed.

(** The node after the cut, when it holds the key. *)
Lemma found_spec z A B u EA EB k :
  zsl_view z (A ++ B) (EA ++ EB) -> length A = length EA ->
  length u = zlevel z -> (forall j xr, u !! j = Some xr -> upd_ok z A j xr) ->
  found z k.1 k.2 u = Ok (match B, EB with
                          | x :: _, y :: _ => if deq k.1 y.1 && bool_decide (y.2 = k.2) then Some x else None
                          | _, _ => None
                          end).
Proof.
  intros Hv HlA Hlen Hu. pose proof (v_rep _ _ _ Hv) as Hrep.
  destruct (cut_node z A B u Hrep Hlen Hu) as (u0 & u' & pre & sp & -> & _ & Hl).
  unfold found, upd_at. cbn [lookup list_lookup of_option mbind res_bind]. rewrite Hl. cbn [mbind res_bind].
  pose proof (v_entries _ _ _ Hv) as He. apply Forall2_app_inv in He as [_ He]; [|done].
  destruct He as [|x y B EB Hy He]; simpl; [done|].
  destruct (node_Ok z x) as (n & -> & Hn). { apply (r_alloc _ _ Hrep). right. apply elem_of_mid. }
  cbn [mbind res_bind]. destruct (data_node _ _ _ _ Hn Hy) as [-> Hele].
  unfold ele_of. rewrite Hele. destruct (deq k.1 y.1); [|done]. cbn [of_option mbind res_bind andb].
  f_equal. destruct (Z.eqb_spec (sdscmp y.2 k.2) 0) as [E|E].
  - apply sdscmp_eq in E. by rewrite bool_decide_true.
  - rewrite bool_decide_false; [done|]. intros E'. apply E. by apply sdscmp_eq.
Qed.

(** A key that is in the list: the cut is in front of its node. *)
Lemma locate z l es k y :
  zsl_view z l es -> is_num k -> y ∈ es -> same_key k y ->
  exists A x B EA EB u, l = A ++ x :: B /\ es = EA ++ y :: EB /\ length A = length EA /\
    zremove k.2 es = EA ++ EB /\
    (forall w, w ∈ EA -> entry_lt w k = true) /\ (forall w, w ∈ y :: EB -> entry_lt w k = false) /\
    descend (zlevel z) id (comes_before k.1 k.2) z (header z) 0 = Ok u /\
    length u = zlevel z /\ (forall j xr, u !! j = Some xr -> upd_ok z A j xr) /\
    found z k.1 k.2 u = Ok (Some x).
Proof.
  intros Hv Hk Hy Hky. destruct (key_split k es (v_ordered _ _ _ Hv) Hk) as (EA & EB & -> & HA & HB).
  destruct (delete_cut k y EA EB (v_ordered _ _ _ Hv) Hk HA HB Hy Hky) as (EB' & -> & Hrem).
  destruct (search_view z l EA (y :: EB') k id Hv HA HB ltac:(done)) as (A & B & u & -> & HeA & HeB & Hd & Hlen & Hu).
  pose proof (Forall2_length _ _ _ HeA) as HlA. pose proof HeB as HeB'.
  apply Forall2_cons_inv_r in HeB' as (x & B' & _ & _ & ->).
  exists A, x, B', EA, EB', u. split_and!; try done.
  rewrite (found_spec z A (x :: B') u EA (y :: EB') k) by done.
  pose proof (zo_num _ (v_ordered _ _ _ Hv)) as Hn. rewrite Forall_forall in Hn.
  destruct Hky as [Hkey He]. rewrite bool_decide_true by done.
  assert (deq k.1 y.1 = true) as -> by (apply deq_key; [done|apply Hn; done|done]). done.
Qed.

Lemma node_unlinked z A x B es :
  zsl_view z (A ++ x :: B) es -> x ∉ header z :: A ++ B /\ is_Some (nodes z !! x).
Proof.
  intros Hv. pose proof (v_rep _ _ _ Hv) as Hrep. destruct (x_out z A B x Hrep) as (? & ? & ? & _).
  split; [rewrite elem_of_cons, elem_of_app; tauto|].
  apply (r_alloc _ _ Hrep). right. apply elem_of_mid.
Qed.

Lemma zslDelete_view z l es k y :
  zsl_view z l es -> is_num k -> y ∈ es -> same_key k y ->
  exists A x B z', l = A ++ x :: B /\ data z x = Some (y.1, Some y.2) /\
    zslDelete z k.1 k.2 = Ok (true, z') /\ zsl_view z' (A ++ B) (zremove k.2 es) /\
    header z' = header z /\ (forall a, data z' a = if decide (a = x) then None else data z a).
Proof.
  intros Hv Hk Hy Hky.
  destruct (locate z l es k y Hv Hk Hy Hky)
    as (A & x & B & EA & EB & u & -> & -> & HlA & Hrem & _ & _ & Hd & Hlen & Hu & Hf).
  destruct (zslDeleteNode_view z A x B u EA y EB Hv HlA Hlen Hu) as (z1 & E1 & Hv1 & Hh1 & _ & Hd1).
  destruct (node_unlinked _ _ _ _ _ Hv) as [Hx Hn]. rewrite <- Hh1 in Hx.
  destruct (free_view z1 (A ++ B) (EA ++ EB) x Hv1 Hx) as (z2 & E2 & Hv2 & Hh2 & Hd2).
  { apply data_alloc. rewrite Hd1. by apply data_alloc. }
  exists A, x, B, z2. split; [done|]. split.
  { pose proof (v_entries _ _ _ Hv) as He. apply Forall2_app_inv in He as [_ He]; [|done].
    by apply Forall2_cons in He as [? _]. }
  unfold zslDelete. rewrite Hd. cbn [mbind res_bind]. rewrite Hf. cbn [mbind res_bind].
  rewrite E1. cbn [mbind res_bind]. rewrite E2, Hrem. split_and!; try done.
  - by rewrite Hh2.
  - intros a. rewrite Hd2. case_decide; [done|apply Hd1].
Qed.

Lemma zslDelete_none z l es k :
  zsl_view z l es -> is_num k -> (forall y, y ∈ es -> ~ same_key k y) -> zslDelete z k.1 k.2 = Ok (false, z).
Proof.
  intros Hv Hk Hno. destruct (key_split k es (v_ordered _ _ _ Hv) Hk) as (EA & EB & -> & HA & HB).
  destruct (search_view z l EA EB k id Hv HA HB ltac:(done)) as (A & B & u & -> & HeA & HeB & Hd & Hlen & Hu).
  pose proof (Forall2_length _ _ _ HeA) as HlA.
  unfold zslDelete. rewrite Hd. cbn [mbind res_bind]. rewrite (found_spec z A B u EA EB k) by done.
  destruct HeB as [|x y B EB Hy HeB]; [done|].
  pose proof (zo_num _ (v_ordered _ _ _ Hv)) as Hn. rewrite Forall_forall in Hn.
  destruct (deq k.1 y.1) eqn:Hdeq; [|done]. case_bool_decide as E; [|done].
  exfalso. apply (Hno y); [apply elem_of_mid|]. split; [|done].
  apply deq_key; [done|apply Hn, elem_of_mid|done].
Qed.

(** ** Score updates *)

Lemma dlt_trans a b c :
  isnan a = false -> isnan b = false -> isnan c = false -> dlt a b = true -> dlt b c = true -> dlt a c = true.
Proof. intros Ha Hb Hc. rewrite !dlt_key by done. apply lex_trans. Qed.

(** A lower entry than one below the score, or a higher one than one above. *)
Lemma entry_below w y new e :
  is_num w -> is_num y -> isnan new = false -> ekey_lt w y \/ w = y -> dlt y.1 new = true ->
  ekey_lt w (new, e).
Proof.
  intros Hw Hy Hn Hwy Hlt. apply dlt_key in Hlt; [|done|done]. left. simpl.
  destruct Hwy as [[H|[H _]]| ->]; [by eapply lex_trans|by rewrite H|done].
Qed.

Lemma entry_above w y new e :
  is_num w -> is_num y -> isnan new = false -> ekey_lt y w \/ w = y -> dlt new y.1 = true ->
  ekey_lt (new, e) w.
Proof.
  intros Hw Hy Hn Hwy Hlt. apply dlt_key in Hlt; [|done|done]. left. simpl.
  destruct Hwy as [[H|[H _]]| ->]; [by eapply lex_trans|by rewrite <- H|done].
Qed.

Lemma set_score_rep z l x n s :
  zsl_rep z l -> nodes z !! x = Some n ->
  let z' := set_nodes z (<[x := mkZn (ele n) s (backward n) (level n)]> (nodes z)) in
  zsl_rep z' l /\ (forall a, data z' a = if decide (a = x) then Some (s, ele n) else data z a).
Proof.
  intros Hrep Hn z'.
  assert (Hh : forall a, hgt z' a = hgt z a /\ (forall i, lvl z' a i = lvl z a i) /\ bk z' a = bk z a /\
    (is_Some (nodes z' !! a) <-> is_Some (nodes z !! a))).
  { intros a. unfold hgt, lvl, bk, z'. simpl. destruct (decide (a = x)) as [->|?].
    - rewrite lookup_insert_eq, Hn. split_and!; done.
    - by rewrite lookup_insert_ne. }
  split.
  2: { intros a. unfold data, z'. simpl. destruct (decide (a = x)) as [->|?];
       [by rewrite lookup_insert_eq|by rewrite lookup_insert_ne]. }
  split; cbn [z' set_nodes brk header tail zlength zlevel]; try by apply Hrep.
  - intros a Ha. by apply Hh, (r_alloc _ _ Hrep).
  - intros a Ha. apply (r_brk _ _ Hrep). by apply Hh.
  - rewrite (proj1 (Hh _)). apply (r_hdr _ _ Hrep).
  - intros a Ha. rewrite (proj1 (Hh _)). by apply (r_hgt _ _ Hrep).
  - intros pre a post i E Hi Hz. rewrite (proj1 (Hh _)) in Hi. rewrite (proj1 (proj2 (Hh _))).
    rewrite (fwd_ext (hgt z') (hgt z)) by (intros; apply Hh). by apply (r_fwd _ _ Hrep pre).
  - intros i Hi. rewrite (proj1 (proj2 (Hh _))). by apply (r_top _ _ Hrep).
  - intros pre a b post E. rewrite (proj1 (proj2 (proj2 (Hh _)))). by apply (r_back _ _ Hrep pre _ _ post).
Qed.

(** [fits] compares with the scores on both sides. *)
Lemma fits_spec z A x B EA y EB new :
  zsl_view z (A ++ x :: B) (EA ++ y :: EB) -> length A = length EA ->
  fits z x new = Ok (match last EA with Some w => dlt w.1 new | None => true end &&
                     match head EB with Some w => dlt new w.1 | None => true end).
Proof.
  intros Hv HlA. pose proof (v_rep _ _ _ Hv) as Hrep.
  assert (Hsc : forall a w, data z a = Some (w.1, Some w.2) -> score_of z a = Ok w.1).
  { intros a w Hd. unfold score_of, node, data in *. destruct (nodes z !! a); [|done]. simpl in *.
    by injection Hd as -> _. }
  pose proof (v_entries _ _ _ Hv) as He. apply Forall2_app_inv in He as [HeA HeB]; [|done].
  apply Forall2_cons in HeB as [_ HeB]. destruct (x_out z A B x Hrep) as (Hxh & HxA & _ & Hnd).
  assert (Hleft : exists b, get_backward z x = Ok b /\
     match b with None => Ok true | Some a => s ← score_of z a; Ok (dlt s new) end =
     Ok (match last EA with Some w => dlt w.1 new | None => true end)).
  { destruct A as [|a A _] using rev_ind.
    - destruct EA; [|done]. exists None. split; [|done]. apply get_backward_bk.
      rewrite (r_back _ _ Hrep [] (header z) x B eq_refl). by rewrite decide_True.
    - destruct EA as [|w EA _] using rev_ind; [rewrite length_app in HlA; simpl in HlA; lia|].
      apply Forall2_app_inv in HeA as [_ Ha]; [|rewrite !length_app in HlA; simpl in HlA; lia].
      apply Forall2_cons in Ha as [Ha _].
      exists (Some a). rewrite last_snoc. split; [|by rewrite (Hsc a w)]. apply get_backward_bk.
      rewrite (r_back _ _ Hrep (header z :: A) a x B) by (simpl; by rewrite <- app_assoc).
      rewrite decide_False; [done|]. intros ->. apply NoDup_cons in Hnd as [Hn _]. apply Hn.
      rewrite <- app_assoc. apply elem_of_mid. }
  destruct Hleft as (b & Hb & Hleft). unfold fits. rewrite Hb. cbn [mbind res_bind]. rewrite Hleft.
  cbn [mbind res_bind]. destruct (match last EA with Some w => dlt w.1 new | None => true end); [|done].
  assert (Hl : lvl z x 0 = Some (fwd (hgt z) 0 B)).
  { pose proof (r_hgt _ _ Hrep x (elem_of_mid A x B)). apply (r_fwd _ _ Hrep (header z :: A)); [done|lia|lia]. }
  apply get_level_lvl in Hl. rewrite Hl. cbn [mbind res_bind andb].
  assert (HB : (fwd (hgt z) 0 B).1 = head B).
  { apply fwd_0. intros c Hc. apply (r_hgt _ _ Hrep). apply elem_of_app. right. by right. }
  destruct (fwd (hgt z) 0 B) as [f sp]. cbn [fst] in HB. subst f.
  destruct HeB as [|c w B EB Hc HeB]; simpl; [done|]. by rewrite (Hsc c w).
Qed.

(** When the new score fits between the neighbours, the place is the right one. *)
Lemma fits_order EA y EB new :
  zordered (EA ++ y :: EB) -> isnan new = false ->
  match last EA with Some w => dlt w.1 new | None => true end = true ->
  match head EB with Some w => dlt new w.1 | None => true end = true ->
  (forall w, w ∈ EA -> entry_lt w (new, y.2) = true) /\
  (forall w, w ∈ EB -> entry_lt w (new, y.2) = false).
Proof.
  intros Ho Hn HA HB. pose proof (zo_num _ Ho) as Hnum. rewrite Forall_forall in Hnum.
  apply zordered_app in Ho as (HoA & HoB & _). apply (zordered_app [y] EB) in HoB as (_ & HoB & _).
  split; intros w Hw.
  - assert (is_num w) by (apply Hnum, elem_of_app; by left). apply entry_lt_key; [done|done|].
    destruct EA as [|v EA _] using rev_ind; [by apply elem_of_nil in Hw|]. rewrite last_snoc in HA.
    assert (is_num v) by (apply Hnum; rewrite <- app_assoc; apply elem_of_mid).
    apply (entry_below w v); try done. apply zordered_app in HoA as (_ & _ & Hlt).
    apply elem_of_app in Hw as [Hw|Hw]; [left; apply Hlt; [done|by left]|].
    right. by apply list_elem_of_singleton in Hw.
  - assert (is_num w) by (apply Hnum, elem_of_app; right; by right). apply entry_lt_false; [done|done|].
    apply ekey_lt_asym. destruct EB as [|v EB]; [by apply elem_of_nil in Hw|]. simpl in HB.
    assert (is_num v) by (apply Hnum, elem_of_app; right; right; by left).
    apply (entry_above w v); try done. apply (zordered_app [v] EB) in HoB as (_ & _ & Hlt).
    apply elem_of_cons in Hw as [->|Hw]; [by right|]. left. apply Hlt; [by left|done].
Qed.

Section UpdateScore.
Context (z : zskiplist) (A B : list nat) (x : nat) (EA EB : list zentry) (y : zentry) (new : double).
Hypothesis Hv : zsl_view z (A ++ x :: B) (EA ++ y :: EB).
Hypothesis HlA : length A = length EA.
Hypothesis Hn : isnan new = false.

Lemma update_in_place n :
  nodes z !! x = Some n ->
  match last EA with Some w => dlt w.1 new | None => true end = true ->
  match head EB with Some w => dlt new w.1 | None => true end = true ->
  let z' := set_nodes z (<[x := mkZn (ele n) new (backward n) (level n)]> (nodes z)) in
  zsl_view z' (A ++ x :: B) (zinsert (new, y.2) (EA ++ EB)) /\
  (forall a, data z' a = if decide (a = x) then Some (new, Some y.2) else data z a).
Proof.
  intros Hx HA HB z'.
  destruct (fits_order EA y EB new (v_ordered _ _ _ Hv) Hn HA HB) as [HlA' HlB].
  destruct (set_score_rep z _ x n new (v_rep _ _ _ Hv) Hx) as [Hrep Hd]. fold z' in Hrep, Hd.
  pose proof (v_entries _ _ _ Hv) as He. apply Forall2_app_inv in He as [HeA HeB]; [|done].
  apply Forall2_cons in HeB as [Hy HeB]. destruct (data_node _ _ _ _ Hx Hy) as [_ Hele].
  rewrite Hele in Hd. split; [|done].
  destruct (x_out z A B x (v_rep _ _ _ Hv)) as (Hxh & HxA & HxB & _).
  pose proof (v_ordered _ _ _ Hv) as Ho.
  rewrite zinsert_split; [|done|intros w Hw; apply HlB; by apply head_elem]. split; [done| | | |].
  - apply Forall2_app; [|constructor].
    + apply (entries_ext z); [|done]. intros a Ha. rewrite Hd, decide_False; [done|]. by intros ->.
    + rewrite Hd. by destruct (decide (x = x)).
    + apply (entries_ext z); [|done]. intros a Ha. rewrite Hd, decide_False; [done|]. by intros ->.
  - apply zordered_insert; try done.
    + apply zordered_app in Ho as (HoA & HoB & Hlt). apply (zordered_app [y] EB) in HoB as (_ & HoB & _).
      apply zordered_app. split_and!; [done|done|]. intros w w' Hw Hw'. apply Hlt; [done|by right].
    + pose proof (zo_nodup _ Ho) as Hnd. rewrite fmap_app, fmap_cons in Hnd. simpl.
      apply NoDup_app in Hnd as (_ & Hd' & Hnd). apply NoDup_cons in Hnd as [Hn' _].
      rewrite fmap_app, elem_of_app. intros [H|H]; [|done]. apply (Hd' _ H). by left.
  - cbn [z' set_nodes header]. destruct (v_header _ _ _ Hv) as [s Hs]. exists s.
    rewrite Hd, decide_False; [done|]. intros E. by apply Hxh.
  - pose proof (v_small _ _ _ Hv) as Hs. rewrite !length_app in *. simpl in *. lia.
Qed.

(** Otherwise the node is taken out and a new one put in. *)
Lemma update_moves u rs lv rs' :
  length u = zlevel z -> (forall j xr, u !! j = Some xr -> upd_ok z A j xr) ->
  zslRandomLevel rs = Ok (lv, rs') ->
  exists C D z', A ++ B = C ++ D /\ x <> brk z /\ brk z ∉ A ++ B /\
    (z1 ← zslDeleteNode z x u; '(y', z1, rs) ← zslInsert z1 new y.2 rs; z1 ← zslFreeNode z1 x; Ok (y', z1, rs)) =
      Ok (brk z, z', rs') /\
    zsl_view z' (C ++ brk z :: D) (zinsert (new, y.2) (EA ++ EB)) /\
    (forall a, data z' a = if decide (a = x) then None
                           else if decide (a = brk z) then Some (new, Some y.2) else data z a).
Proof.
  intros Hlen Hu Hrl.
  destruct (zslDeleteNode_view z A x B u EA y EB Hv HlA Hlen Hu) as (z1 & E1 & Hv1 & Hh1 & Hb1 & Hd1).
  rewrite E1. cbn [mbind res_bind]. pose proof (v_small _ _ _ Hv) as Hs. rewrite !length_app in Hs. simpl in Hs.
  pose proof (zo_nodup _ (v_ordered _ _ _ Hv)) as Hnd. rewrite fmap_app, fmap_cons in Hnd.
  apply NoDup_app in Hnd as (_ & Hd' & Hnd). apply NoDup_cons in Hnd as [Hn' _].
  destruct (zslInsert_view z1 (A ++ B) (EA ++ EB) (new, y.2) rs lv rs' Hv1) as (C & D & z2 & ECD & E2 & Hv2 & Hh2 & Hd2).
  { done. }
  { rewrite fmap_app, elem_of_app. intros [H|H]; [|done]. apply (Hd' _ H). by left. }
  { rewrite length_app. lia. }
  { done. }
  cbn [fst snd] in E2, Hd2. rewrite E2. cbn [mbind res_bind]. rewrite Hb1 in *.
  destruct (node_unlinked _ _ _ _ _ Hv) as [Hx Hnx].
  pose proof (r_brk _ _ (v_rep _ _ _ Hv) x Hnx) as Hxb.
  assert (Hfresh : brk z ∉ A ++ B).
  { destruct (brk_fresh z A (x :: B) (v_rep _ _ _ Hv)) as [_ Hf].
    rewrite elem_of_cons, elem_of_app, elem_of_cons in Hf. rewrite elem_of_app. tauto. }
  destruct (free_view z2 _ _ x Hv2) as (z3 & E3 & Hv3 & Hh3 & Hd3).
  { rewrite Hh2, Hh1. rewrite ECD in Hx. rewrite elem_of_cons, elem_of_app, elem_of_cons in *.
    intros [H|[H|[H|H]]]; [tauto|tauto|lia|tauto]. }
  { apply data_alloc. rewrite Hd2, Hd1, decide_False by lia. by apply data_alloc. }
  exists C, D, z3. rewrite E3. split_and!; try done; [lia|].
  intros a. rewrite Hd3, Hd2, Hd1. done.
Qed.
End UpdateScore.

Lemma zslUpdateScore_view z l es k y new rs lv rs' :
  zsl_view z l es -> is_num k -> isnan new = false -> y ∈ es -> same_key k y ->
  zslRandomLevel rs = Ok (lv, rs') ->
  exists x0 x z' l' rs1, x0 ∈ l /\ data z x0 = Some (y.1, Some y.2) /\
    zslUpdateScore z k.1 k.2 new rs = Ok (x, z', rs1) /\ (rs1 = rs \/ rs1 = rs') /\
    zsl_view z' l' (zinsert (new, k.2) (zremove k.2 es)) /\
    (forall a, a ∈ l' <-> a = x \/ (a ∈ l /\ a <> x0)) /\ (x = x0 \/ x ∉ l) /\
    data z' x = Some (new, Some k.2) /\ (forall a, a <> x -> a <> x0 -> data z' a = data z a).
Proof.
  intros Hv Hk Hn Hy Hky Hrl. pose proof (proj2 Hky) as He.
  destruct (locate z l es k y Hv Hk Hy Hky)
    as (A & x & B & EA & EB & u & -> & -> & HlA & Hrem & _ & _ & Hd & Hlen & Hu & Hf).
  destruct (node_unlinked _ _ _ _ _ Hv) as [Hx Hnx]. destruct (node_Ok _ _ Hnx) as (n & En & Hn').
  assert (Hdx : data z x = Some (y.1, Some y.2)).
  { pose proof (v_entries _ _ _ Hv) as Hen. apply Forall2_app_inv in Hen as [_ Hen]; [|done].
    by apply Forall2_cons in Hen as [? _]. }
  rewrite Hrem, He. unfold zslUpdateScore. rewrite <- He, Hd. cbn [mbind res_bind]. rewrite Hf.
  cbn [mbind res_bind]. rewrite (fits_spec z A x B EA y EB new Hv HlA). cbn [mbind res_bind]. rewrite En.
  cbn [mbind res_bind]. rewrite He. exists x.
  destruct (_ && _) eqn:Hfit.
  - apply andb_true_iff in Hfit as [HA HB].
    destruct (update_in_place z A B x EA EB y new Hv HlA Hn n Hn' HA HB) as [Hv' Hd'].
    eexists x, _, (A ++ x :: B), rs. split_and!; try done.
    + apply elem_of_mid.
    + by left.
    + intros a. destruct (decide (a = x)); [subst; split; [by left|intros _; apply elem_of_mid]|naive_solver].
    + by left.
    + rewrite Hd'. by destruct (decide (x = x)).
    + intros a Ha _. rewrite Hd'. by rewrite decide_False.
  - destruct (update_moves z A B x EA EB y new Hv HlA Hn u rs lv rs' Hlen Hu Hrl)
      as (C & D & z' & ECD & Hne & Hfresh & E & Hv' & Hd').
    destruct (data_node _ _ _ _ Hn' Hdx) as [_ Hele]. unfold ele_of. rewrite Hele. cbn [of_option mbind res_bind].
    destruct (zslDeleteNode z x u) as [z1|] eqn:E1; [|done]. cbn [mbind res_bind] in E |- *.
    rewrite E. eexists (brk z), z', (C ++ brk z :: D), rs'. split_and!; try done.
    + apply elem_of_mid.
    + by right.
    + intros a. assert (a ∈ A ++ B <-> a ∈ C ++ D) as Hab by (by rewrite ECD).
      rewrite elem_of_cons in Hx. rewrite !elem_of_app in *. rewrite !elem_of_cons. 
      split; [intros H|intros [H|[H Hne']]]; [|tauto|tauto].
      destruct (decide (a = brk z)); [by left|]. right. split; [tauto|]. intros ->. tauto.
    + right. rewrite elem_of_app, elem_of_cons in *. intros [H|[H|H]]; [tauto|by apply Hne|tauto].
    + rewrite Hd', decide_False by done. by destruct (decide (brk z = brk z)).
    + intros a Ha Ha'. rewrite Hd'. by rewrite !decide_False.
Qed.

(** ** Ranks *)

Lemma at_or_before_entry k r sp n w :
  score n = w.1 -> ele n = Some w.2 -> is_num w -> is_num k ->
  (ekey_lt w k \/ w = k -> at_or_before k.1 k.2 r sp n = Ok true) /\
  (ekey_lt k w -> at_or_before k.1 k.2 r sp n = Ok false).
Proof.
  intros Hs He Hw Hk. unfold at_or_before, ele_of. rewrite Hs, He. cbn [of_option mbind res_bind].
  pose proof (dlt_key w.1 k.1 Hw Hk) as Hlt. pose proof (deq_key w.1 k.1 Hw Hk) as Heq.
  pose proof (lex_antisym (dkey w.1) (dkey k.1)) as Ha. pose proof (sdscmp_antisym w.2 k.2) as Hsa.
  split.
  - intros [[H|[H H']]| ->].
    + apply Hlt in H. by rewrite H.
    + destruct (dlt w.1 k.1); [done|]. apply Heq in H. rewrite H. f_equal. apply Z.leb_le. lia.
    + destruct (dlt k.1 k.1); [done|]. rewrite (proj2 Heq) by done. f_equal. apply Z.leb_le.
      pose proof (proj2 (sdscmp_eq k.2 k.2) eq_refl). lia.
  - intros H. pose proof (ekey_lt_asym _ _ H) as Hn. rewrite <- entry_lt_key in Hn by done.
    unfold entry_lt in Hn. destruct (dlt w.1 k.1); [done|]. destruct (deq w.1 k.1); [|done].
    f_equal. apply Z.leb_gt. destruct H as [H|[_ H]]; [|lia].
    rewrite (proj1 Heq eq_refl), lex_refl in H. done.
Qed.

Section Ranks.
Context (z : zskiplist) (l : list nat) (EA EB : list zentry) (y : zentry).
Hypothesis Hv : zsl_view z l (EA ++ y :: EB).

Lemma rank_cut : exists A x B, l = A ++ x :: B /\ length A = length EA /\ data z x = Some (y.1, Some y.2).
Proof.
  pose proof (v_entries _ _ _ Hv) as He. apply Forall2_app_inv_r in He as (A & B & HA & HB & ->).
  apply Forall2_cons_inv_r in HB as (x & B' & Hx & _ & ->).
  exists A, x, B'. split_and!; [done| |done]. by eapply Forall2_length.
Qed.

(** The entry at a position. *)
Lemma entry_at h pre a post n :
  header z :: l = (h :: pre) ++ a :: post -> nodes z !! a = Some n ->
  exists w, (EA ++ y :: EB) !! length pre = Some w /\ score n = w.1 /\ ele n = Some w.2.
Proof.
  intros E Hn. injection E as <- E. pose proof (v_entries _ _ _ Hv) as He.
  eapply (Forall2_lookup_l _ _ _ (length pre) a) in He as (w & Hw & Hd).
  2: { rewrite E. by rewrite list_lookup_middle. }
  exists w. split; [done|]. by eapply data_node.
Qed.

Lemma rank_levels_spec A x B i pre c post :
  l = A ++ x :: B -> length A = length EA -> data z x = Some (y.1, Some y.2) ->
  header z :: A ++ [x] = pre ++ c :: post -> (i <= hgt z c)%nat -> (1 <= i <= zlevel z)%nat ->
  rank_levels i z y.1 y.2 c (Z.of_nat (length pre)) = Ok (Z.of_nat (length EA) + 1).
Proof.
  intros El HlA Hx. revert pre c post. induction i as [|i IH]; intros pre c post Hc Hi Hz; [lia|].
  cbn [rank_levels].
  pose proof (v_ordered _ _ _ Hv) as Ho. pose proof (zo_num _ Ho) as Hnum. rewrite Forall_forall in Hnum.
  assert (Hyn : is_num y) by apply Hnum, elem_of_mid.
  assert (Hrep : zsl_rep z ((A ++ [x]) ++ B)) by (rewrite <- app_assoc; simpl; rewrite <- El; apply Hv).
  pose proof (view_length _ _ _ Hv) as Hll.
  destruct (walk_spec z (A ++ [x]) B id (at_or_before y.1 y.2) Hrep ltac:(done)) with
    (fuel := S (Z.to_nat (zlength z))) (i := i) (pre := pre) (x := c) (post := post) as ([c' r'] & -> & Hok).
  { intros pre' a post' n r s E Hn Hrs Hr Hsp. destruct pre' as [|h pre']; [simpl in Hrs; lia|].
    rewrite <- app_assoc in E. cbn [app] in E. rewrite <- El in E.
    destruct (entry_at _ _ _ _ _ E Hn) as (w & Hw & Hs & He).
    assert (is_num w) as Hwn by (eapply Hnum, list_elem_of_lookup_2, Hw).
    destruct (at_or_before_entry y r s n w Hs He Hwn Hyn) as [H1 H2].
    apply zordered_app in Ho as (_ & Ho & Hlt). apply (zordered_app [y] EB) in Ho as (_ & _ & Hlt').
    rewrite length_app. cbn [length]. apply lookup_app_Some in Hw as [Hw|[Hge Hw]].
    - rewrite H1 by (left; apply Hlt; [by eapply list_elem_of_lookup_2|by left]).
      apply lookup_lt_Some in Hw. by rewrite bool_decide_true by lia.
    - destruct (length pre' - length EA)%nat as [|j] eqn:Ej; simpl in Hw.
      + injection Hw as <-. rewrite H1 by (by right). by rewrite bool_decide_true by lia.
      + rewrite H2 by (apply Hlt'; [by left|by eapply list_elem_of_lookup_2]).
        by rewrite bool_decide_false by lia. }
  { done. } { lia. } { lia. }
  { rewrite (r_len _ _ Hrep), !length_app. apply (f_equal length) in Hc. rewrite length_app in Hc.
    cbn [length] in Hc. rewrite length_app in Hc. simpl in *. lia. }
  cbn [mbind res_bind]. pose proof Hok as (pre' & mid & Hc' & Hlow & Hi' & Hr'). cbn [fst snd] in *. subst r'.
  assert (Hin : c' ∈ header z :: l).
  { assert (c' ∈ header z :: A ++ [x]) as Hc'' by (rewrite Hc'; apply elem_of_mid).
    rewrite El. rewrite elem_of_cons, elem_of_app, list_elem_of_singleton in Hc''.
    rewrite elem_of_cons, elem_of_app, elem_of_cons. tauto. }
  destruct (node_Ok z c') as (n & -> & Hn); [by apply (r_alloc _ _ (v_rep _ _ _ Hv))|]. cbn [mbind res_bind].
  destruct mid as [|m mid _] using rev_ind.
  - rewrite app_comm_cons in Hc'. apply app_inj_tail in Hc' as [<- <-].
    destruct (data_node _ _ _ _ Hn Hx) as [_ ->]. rewrite (proj2 (sdscmp_eq y.2 y.2)) by done.
    simpl. f_equal. lia.
  - assert (Hpre : header z :: A = pre' ++ c' :: mid).
    { rewrite app_comm_cons in Hc'. change (pre' ++ c' :: mid ++ [m]) with (pre' ++ (c' :: mid) ++ [m]) in Hc'.
      rewrite app_assoc in Hc'. by apply app_inj_tail in Hc' as [-> _]. }
    assert (1 <= i)%nat.
    { destruct i; [|lia]. exfalso. eapply (app_cons_not_nil mid []). symmetry. apply (low_0 _ _ Hlow).
      intros a Ha. apply (r_hgt _ _ Hrep), elem_of_app. left.
      assert (a ∈ header z :: A ++ [x]) as Ha' by (rewrite Hc'; apply elem_of_app; right; by right).
      apply elem_of_cons in Ha' as [->|?]; [|done]. exfalso.
      pose proof (r_nodup _ _ Hrep) as Hnd. rewrite app_comm_cons, Hc' in Hnd.
      destruct pre' as [|p pre']; simpl in Hc'; injection Hc' as <- Hc'.
      - simpl in Hnd. apply NoDup_cons in Hnd as [Hnd _]. apply Hnd, elem_of_app. by left.
      - simpl in Hnd. apply NoDup_cons in Hnd as [Hnd _]. apply Hnd. apply elem_of_app. left.
        apply elem_of_app. right. by right. }
    assert (match ele n with Some e' => sdscmp e' y.2 =? 0 | None => false end = false) as ->.
    { destruct pre' as [|p pre'].
      - simpl in Hpre. injection Hpre as <- _. destruct (v_header _ _ _ Hv) as [s Hs]. unfold data in Hs.
        rewrite Hn in Hs. simpl in Hs. by injection Hs as _ ->.
      - destruct (entry_at p pre' c' (mid ++ x :: B) n) as (w & Hw & _ & ->); [|done|].
        { rewrite El, app_comm_cons, Hpre. by rewrite <- app_assoc. }
        apply Z.eqb_neq. intros E. apply sdscmp_eq in E.
        rewrite lookup_app_l in Hw.
        2: { apply (f_equal length) in Hpre. rewrite length_app in Hpre. simpl in Hpre. lia. }
        apply zordered_app in Ho as (_ & _ & Hlt).
        destruct (Hlt w y) as [_ Hne]; [by eapply list_elem_of_lookup_2|by left|done]. }
    apply (IH pre' c' (mid ++ [m])); [done|lia|lia].
Qed.

Lemma zslGetRank_view : zslGetRank z y.1 y.2 = Ok (Z.of_nat (length EA) + 1).
Proof.
  destruct rank_cut as (A & x & B & El & HlA & Hx). pose proof (r_lev _ _ (v_rep _ _ _ Hv)) as Hlev.
  apply (rank_levels_spec A x B _ [] _ (A ++ [x])); try done; [|lia].
  rewrite (r_hdr _ _ (v_rep _ _ _ Hv)). lia.
Qed.
End Ranks.

Lemma by_rank_levels_spec z l r i pre c post :
  zsl_rep z l -> (1 <= r <= length l)%nat ->
  header z :: take r l = pre ++ c :: post -> (i <= hgt z c)%nat -> (1 <= i <= zlevel z)%nat ->
  by_rank_levels i z (Z.of_nat r) c (Z.of_nat (length pre)) = Ok (l !! pred r).
Proof.
  intros Hrep Hr. revert pre c post. induction i as [|i IH]; intros pre c post Hc Hi Hz; [lia|].
  cbn [by_rank_levels]. set (A := take r l) in *.
  assert (El : l = A ++ drop r l) by (symmetry; apply take_drop).
  assert (HlA : length A = r) by (unfold A; rewrite length_take; lia).
  assert (Hrep' : zsl_rep z (A ++ drop r l)) by (rewrite <- El; done).
  destruct (walk_spec z A (drop r l) id (within_rank (Z.of_nat r)) Hrep' ltac:(done)) with
    (fuel := S (Z.to_nat (zlength z))) (i := i) (pre := pre) (x := c) (post := post) as ([c' r'] & -> & Hok).
  { intros pre' a post' n r' s E Hn Hrs _ _. unfold within_rank. f_equal.
    destruct (Z.leb_spec (r' + s) (Z.of_nat r)); [by rewrite bool_decide_true by lia|].
    by rewrite bool_decide_false by lia. }
  { done. } { lia. } { lia. }
  { rewrite (r_len _ _ Hrep). apply (f_equal length) in Hc. rewrite length_app in Hc. simpl in Hc. lia. }
  cbn [mbind res_bind]. destruct Hok as (pre' & mid & Hc' & Hlow & Hi' & Hr'). cbn [fst snd] in *. subst r'.
  pose proof (f_equal length Hc') as Hlen. rewrite length_app in Hlen. cbn [length] in Hlen.
  destruct (Z.eqb_spec (Z.of_nat (length pre')) (Z.of_nat r)) as [E|E].
  - destruct mid as [|? ?]; [|simpl in Hlen; lia]. f_equal. symmetry.
    destruct pre' as [|p pre']; [simpl in E; lia|]. simpl in Hc'. injection Hc' as _ Hc'.
    rewrite El, Hc', <- app_assoc. apply list_lookup_middle. simpl in E. lia.
  - apply (IH pre' c' mid); [done|lia|]. split; [|lia]. destruct i; [|lia]. exfalso.
    assert (mid = []) as ->; [|simpl in Hlen; lia]. apply (low_0 _ _ Hlow). intros a Ha.
    apply (r_hgt _ _ Hrep). rewrite El. apply elem_of_app. left.
    destruct pre' as [|p pre']; simpl in Hc'; injection Hc' as _ ->; [done|].
    apply elem_of_app. right. by right.
Qed.

Lemma zslGetElementByRank_view z l es r :
  zsl_view z l es -> (1 <= r <= length es)%nat -> zslGetElementByRank z (Z.of_nat r) = Ok (l !! pred r).
Proof.
  intros Hv Hr. pose proof (v_rep _ _ _ Hv) as Hrep. pose proof (r_lev _ _ Hrep) as Hlev.
  apply (by_rank_levels_spec z l r _ [] _ (take r l)); try done.
  - by rewrite (view_length _ _ _ Hv).
  - rewrite (r_hdr _ _ Hrep). lia.
  - lia.
Qed.

Lemma zslCreate_view : zsl_view zslCreate [] [].
Proof.
  assert (Hl : forall a i, (i < 32)%nat -> a = 0%nat -> lvl zslCreate a i = Some (None, 0)).
  { intros a i Hi ->. unfold lvl, zslCreate. cbn [nodes]. rewrite lookup_singleton_eq.
    cbv [mbind option_bind]. cbn [level]. by rewrite lookup_replicate_2. }
  split; [split| | | |]; try done.
  - apply NoDup_singleton.
  - intros a ->%list_elem_of_singleton. by eexists.
  - intros a [n Hn]. unfold zslCreate in Hn. simpl nodes in Hn. apply lookup_singleton_Some in Hn as [<- _].
    simpl. lia.
  - unfold ZSKIPLIST_MAXLEVEL. simpl. lia.
  - intros a Ha. by apply elem_of_nil in Ha.
  - intros pre a post i E Hi Hz. destruct pre as [|? pre]; simpl in E; [|by destruct pre].
    injection E as <- <-. simpl in Hz. rewrite Hl by (done || lia). done.
  - intros i Hi. exists 0. apply Hl; [|done]. unfold ZSKIPLIST_MAXLEVEL in Hi. lia.
  - intros pre a b post E. by destruct pre as [|? [|? ?]].
  - constructor.
  - split; [constructor|constructor|constructor].
  - by eexists.
Qed.

(** * Properties *)

(** ([zslInsert], [zslRandomLevel]): inserting a new element whose score is a
    number keeps the skip list well formed (forward pointers, spans, backward
    pointers, tail, length, level), for every level the random draws give, and
    its entries become the sorted list with the new entry in its place. *)
Theorem zsl_insert_refines z l es s e rs lv rs' :
  zsl_view z l es -> isnan s = false -> e ∉ es.*2 -> Z.of_nat (length es) + 1 < 2 ^ 32 ->
  zslRandomLevel rs = Ok (lv, rs') ->
  exists x z' l', zslInsert z s e rs = Ok (x, z', rs') /\
    zsl_view z' l' (zinsert (s, e) es) /\ x ∈ l' /\ data z' x = Some (s, Some e).
Proof.
  intros Hv Hs He Hsm Hrl.
  destruct (zslInsert_view z l es (s, e) rs lv rs' Hv Hs He Hsm Hrl) as (A & B & z' & _ & E & Hv' & _ & Hd).
  exists (brk z), z', (A ++ brk z :: B). split_and!; [done|done|apply elem_of_mid|].
  rewrite Hd. by destruct (decide (brk z = brk z)).
Qed.

(** [zslDelete], [zslDeleteNode]: deleting by score and element takes
    exactly that entry out and frees its node, keeping the list well formed;
    when there is no such entry nothing changes and the function says so. *)
Theorem zsl_delete_refines z l es s e :
  zsl_view z l es -> isnan s = false ->
  (exists y, y ∈ es /\ dkey s = dkey y.1 /\ e = y.2 /\
     exists z' l', zslDelete z s e = Ok (true, z') /\ zsl_view z' l' (zremove e es)) \/
  ((forall y, y ∈ es -> e = y.2 -> dkey s <> dkey y.1) /\ zslDelete z s e = Ok (false, z)).
Proof.
  intros Hv Hs. destruct (decide (Exists (fun y => dkey s = dkey y.1 /\ e = y.2) es)) as [H|H].
  - left. apply Exists_exists in H as (y & Hy & Hkey & He). exists y. split_and!; try done.
    destruct (zslDelete_view z l es (s, e) y Hv Hs Hy (conj Hkey He)) as (A & x & B & z' & _ & _ & E & Hv' & _).
    by exists z', (A ++ B).
  - right. split.
    + intros y Hy He Hkey. apply H, Exists_exists. by exists y.
    + apply (zslDelete_none z l es (s, e) Hv Hs). intros y Hy Hk. apply H, Exists_exists. by exists y.
Qed.

(** [zslUpdateScore]: the in-place update and the remove-and-reinsert path
    have the same result, the sorted list with the element at its new score; the
    node returned is the one that now holds the element. *)
Theorem zsl_update_refines z l es s e new rs lv rs' :
  zsl_view z l es -> (s, e) ∈ es -> isnan new = false -> zslRandomLevel rs = Ok (lv, rs') ->
  exists x z' l' rs1, zslUpdateScore z s e new rs = Ok (x, z', rs1) /\
    zsl_view z' l' (zinsert (new, e) (zremove e es)) /\ x ∈ l' /\ data z' x = Some (new, Some e).
Proof.
  intros Hv Hy Hn Hrl.
  assert (isnan s = false) as Hs.
  { pose proof (zo_num _ (v_ordered _ _ _ Hv)) as H. rewrite Forall_forall in H. apply (H _ Hy). }
  destruct (zslUpdateScore_view z l es (s, e) (s, e) new rs lv rs' Hv Hs Hn Hy (conj eq_refl eq_refl) Hrl)
    as (x0 & x & z' & l' & rs1 & _ & _ & E & _ & Hv' & Hl' & _ & Hd & _).
  exists x, z', l', rs1. split_and!; try done. apply Hl'. by left.
Qed.

(** [zslGetRank], [zslGetElementByRank]: the spans are right: the rank of
    an entry is its position in the sorted list, counted from 1, and looking
    that rank up leads back to the node of the entry. *)
Theorem zsl_ranks z l es i s e :
  zsl_view z l es -> es !! i = Some (s, e) ->
  zslGetRank z s e = Ok (Z.of_nat i + 1) /\
  exists a, zslGetElementByRank z (Z.of_nat i + 1) = Ok (Some a) /\ data z a = Some (s, Some e).
Proof.
  intros Hv Hi. pose proof (lookup_lt_Some _ _ _ Hi) as Hlt.
  rewrite <- (take_drop_middle es i (s, e) Hi) in Hv. split.
  - pose proof (zslGetRank_view z l _ _ (s, e) Hv) as H. cbn [fst snd] in H. rewrite H, length_take.
    do 2 f_equal. lia.
  - rewrite (take_drop_middle es i (s, e) Hi) in Hv.
    pose proof (v_entries _ _ _ Hv) as He. eapply Forall2_lookup_r in He as (a & Ha & Hd); [|exact Hi].
    exists a. split; [|done]. replace (Z.of_nat i + 1) with (Z.of_nat (S i)) by lia.
    rewrite (zslGetElementByRank_view z l es (S i)) by (done || lia). simpl. by rewrite Ha.
Qed.

(** A list of two entries to run the functions on. *)
Definition two_entries : res zskiplist :=
  '(_, z, _) ← zslInsert zslCreate (double_of_Z 3) "b" [70000; 65535];
  '(_, z, _) ← zslInsert z (double_of_Z 1) "a" [0; 65535];
  Ok z.

Lemma two_entries_view :
  exists z l, two_entries = Ok z /\ zsl_view z l [(double_of_Z 1, "a"); (double_of_Z 3, "b")].
Proof.
  destruct (zslInsert_view zslCreate [] [] (double_of_Z 3, "b") [70000; 65535] 2 [])
    as (A & B & z1 & _ & E1 & Hv1 & _); [apply zslCreate_view|done|by intros ?%elem_of_nil|done|done|].
  destruct (zslInsert_view z1 _ _ (double_of_Z 1, "a") [0; 65535] 2 [] Hv1)
    as (C & D & z2 & _ & E2 & Hv2 & _); [done| |done|done|].
  { simpl. by intros ?%list_elem_of_singleton. }
  exists z2, (C ++ brk z1 :: D). split; [|exact Hv2].
  unfold two_entries. cbn [fst snd] in E1, E2. rewrite E1. cbn [mbind res_bind]. by rewrite E2.
Qed.

Lemma zsl_insert_refines_witness :
  exists x z', zslInsert zslCreate (double_of_Z 3) "b" [0; 65535] = Ok (x, z', []) /\
    exists l', zsl_view z' l' [(double_of_Z 3, "b")].
Proof.
  destruct (zsl_insert_refines zslCreate [] [] (double_of_Z 3) "b" [0; 65535] 2 [])
    as (x & z' & l' & H & Hv & _).
  - apply zslCreate_view.
  - reflexivity.
  - by intros ?%elem_of_nil.
  - reflexivity.
  - reflexivity.
  - exists x, z'. split; [exact H|]. exists l'. exact Hv.
Defined.

Lemma zsl_delete_refines_witness :
  exists z z', two_entries = Ok z /\ zslDelete z (double_of_Z 1) "a" = Ok (true, z') /\
    exists l', zsl_view z' l' [(double_of_Z 3, "b")].
Proof.
  destruct two_entries_view as (z & l & E & Hv).
  destruct (zsl_delete_refines z l _ (double_of_Z 1) "a" Hv eq_refl)
    as [(y & _ & _ & _ & z' & l' & H & Hv')|[H _]].
  - exists z, z'. split; [exact E|]. split; [exact H|]. exists l'. exact Hv'.
  - exfalso. apply (H (double_of_Z 1, "a")); [left|reflexivity..].
Defined.

Lemma zsl_update_refines_witness :
  exists z x z' rs, two_entries = Ok z /\
    zslUpdateScore z (double_of_Z 1) "a" (double_of_Z 9) [65535] = Ok (x, z', rs) /\
    exists l', zsl_view z' l' [(double_of_Z 3, "b"); (double_of_Z 9, "a")].
Proof.
  destruct two_entries_view as (z & l & E & Hv).
  destruct (zsl_update_refines z l _ (double_of_Z 1) "a" (double_of_Z 9) [65535] 1 [] Hv)
    as (x & z' & l' & rs & H & Hv' & _).
  - left.
  - reflexivity.
  - reflexivity.
  - exists z, x, z', rs. split; [exact E|]. split; [exact H|]. exists l'. exact Hv'.
Defined.

Lemma zsl_ranks_witness :
  exists z, two_entries = Ok z /\ zslGetRank z (double_of_Z 3) "b" = Ok 2.
Proof.
  destruct two_entries_view as (z & l & E & Hv). exists z. split; [exact E|].
  apply (zsl_ranks z l _ 1 (double_of_Z 3) "b" Hv eq_refl).
Defined.
