(* ===== verification/Zset.v ===== *)
(** * Sorted sets: t_zset.c, the encodings and the common API

    A small sorted set is a ziplist, a sequence of entries that alternates
    elements and scores; a larger one is a skip list with a dict from elements
    to nodes.  Here ziplists are lists of entries and pointers into them
    indices; Ziplist.v has their bytes. *)

From S2P Require Import Prelude Sds Double Util Score Skiplist.
From Stdlib Require Import Ascii SpecFloat.

(** ** Ziplist entries *)

Inductive zlentry :=
  | ZlInt (z : Z)
  | ZlStr (s : string).
#[export] Instance zlentry_eq_dec : EqDecision zlentry.
Proof. solve_decision. Defined.

Definition zipTryEncoding (s : string) : option Z :=
  if (32 <=? Z.of_nat (String.length s)) || (Z.of_nat (String.length s) =? 0) then None
  else string2ll s.

(** What [__ziplistInsert] stores for a string. *)
Definition zl_entry (s : string) : zlentry :=
  match zipTryEncoding s with Some z => ZlInt z | None => ZlStr s end.

Notation ziplist := (list zlentry).

(** The end marker is at the index after the last entry. *)
Definition ziplistIndex (zl : ziplist) (index : Z) : option nat :=
  let i := if index <? 0 then Z.of_nat (length zl) + index else index in
  if (0 <=? i) && (i <? Z.of_nat (length zl)) then Some (Z.to_nat i) else None.

Definition ziplistNext (zl : ziplist) (p : nat) : option nat :=
  if decide (S p < length zl)%nat then Some (S p) else None.

Definition ziplistPrev (zl : ziplist) (p : nat) : option nat :=
  if decide (length zl <= p)%nat then ziplistIndex zl (-1)
  else match p with O => None | S p => Some p end.

Definition ziplistGet (zl : ziplist) (p : option nat) : option zlentry := p ≫= fun i => zl !! i.

Definition ziplistCompare (zl : ziplist) (p : nat) (s : string) : bool :=
  match zl !! p with
  | None => false
  | Some (ZlStr s') => bool_decide (s' = s)
  | Some (ZlInt zval) => match zipTryEncoding s with Some sval => zval =? sval | None => false end
  end.

Definition ziplistInsert (zl : ziplist) (p : nat) (s : string) : ziplist :=
  take p zl ++ zl_entry s :: drop p zl.
Definition ziplistPushTail (zl : ziplist) (s : string) : ziplist := ziplistInsert zl (length zl) s.
Definition ziplistDelete (zl : ziplist) (p : nat) : ziplist := take p zl ++ drop (S p) zl.

(** ** Sorted sets in a ziplist *)

(** [serverAssert(p != NULL)] *)
Definition assert_ptr (p : option nat) : res nat := of_option AssertFail p.

(** The bytes of an integer entry: [ll2string] into a buffer of [len] bytes. *)
Definition ll_bytes (len : nat) (z : Z) : res string :=
  '(n, buf) ← ll2string (replicate len Ascii.zero) z;
  Ok (String.string_of_list_ascii (take (Z.to_nat n) buf)).

(** A string score is copied to a buffer of 128 bytes and terminated. *)
Definition entry_score (en : zlentry) : res double :=
  match en with
  | ZlStr s =>
      if decide (String.length s < 128)%nat then
        Ok (match strtod s with Some (d, _, _) => d | None => dzero end)
      else Crash OutOfBounds
  | ZlInt z => Ok (double_of_Z z)
  end.

Definition entry_bytes (en : zlentry) : res string :=
  match en with ZlStr s => Ok s | ZlInt z => ll_bytes 32 z end.

Definition zzlGetScore (zl : ziplist) (sptr : option nat) : res double :=
  p ← assert_ptr sptr;
  en ← of_option AssertFail (ziplistGet zl (Some p));
  entry_score en.

Definition ziplistGetObject (zl : ziplist) (sptr : option nat) : res string :=
  p ← assert_ptr sptr;
  en ← of_option AssertFail (ziplistGet zl (Some p));
  entry_bytes en.

Fixpoint memcmp (n : nat) (a b : string) : Z :=
  match n, a, b with
  | S n, String c a, String d b => if code c =? code d then memcmp n a b else code c - code d
  | _, _, _ => 0
  end.

Definition zzlCompareElements (zl : ziplist) (eptr : nat) (cstr : string) : res Z :=
  en ← of_option AssertFail (ziplistGet zl (Some eptr));
  vstr ← entry_bytes en;
  let vlen := String.length vstr in
  let clen := String.length cstr in
  let cmp := memcmp (vlen `min` clen) vstr cstr in
  Ok (if cmp =? 0 then Z.of_nat vlen - Z.of_nat clen else cmp).

Definition zzlLength (zl : ziplist) : Z := Z.of_nat (length zl) / 2.

Definition zzlNext (zl : ziplist) (sptr : nat) : res (option nat * option nat) :=
  match ziplistNext zl sptr with
  | Some e => s ← assert_ptr (ziplistNext zl e); Ok (Some e, Some s)
  | None => Ok (None, None)
  end.

Definition zzlPrev (zl : ziplist) (eptr : nat) : res (option nat * option nat) :=
  match ziplistPrev zl eptr with
  | Some s => e ← assert_ptr (ziplistPrev zl s); Ok (Some e, Some s)
  | None => Ok (None, None)
  end.

(** The element's entry, and its score when [want] (a non-null [score]). *)
Fixpoint zzlFind_from (fuel : nat) (zl : ziplist) (ele : string) (want : bool) (eptr : option nat)
    : res (option (nat * double)) :=
  match fuel with
  | O => Crash Diverges
  | S fuel =>
      match eptr with
      | None => Ok None
      | Some e =>
          s ← assert_ptr (ziplistNext zl e);
          if ziplistCompare zl e ele then
            d ← (if want then zzlGetScore zl (Some s) else Ok dzero);
            Ok (Some (e, d))
          else zzlFind_from fuel zl ele want (ziplistNext zl s)
      end
  end.
Definition zzlFind (zl : ziplist) (ele : string) (want : bool) : res (option (nat * double)) :=
  zzlFind_from (S (length zl)) zl ele want (ziplistIndex zl 0).

Definition zzlDelete (zl : ziplist) (eptr : nat) : ziplist :=
  ziplistDelete (ziplistDelete zl eptr) eptr.

Definition zzlInsertAt (zl : ziplist) (eptr : option nat) (ele : string) (score : double) : res ziplist :=
  let scorebuf := d2string score in
  match eptr with
  | None => Ok (ziplistPushTail (ziplistPushTail zl ele) scorebuf)
  | Some e =>
      let zl := ziplistInsert zl e ele in
      match ziplistNext zl e with
      | Some s => Ok (ziplistInsert zl s scorebuf)
      | None => Crash AssertFail
      end
  end.

Fixpoint zzlInsert_from (fuel : nat) (zl : ziplist) (ele : string) (score : double) (eptr : option nat)
    : res ziplist :=
  match fuel with
  | O => Crash Diverges
  | S fuel =>
      match eptr with
      | None => zzlInsertAt zl None ele score
      | Some e =>
          sp ← assert_ptr (ziplistNext zl e);
          s ← zzlGetScore zl (Some sp);
          here ← (if dlt score s then Ok true
                  else if deq s score then c ← zzlCompareElements zl e ele; Ok (0 <? c)
                  else Ok false);
          if (here : bool) then zzlInsertAt zl (Some e) ele score
          else zzlInsert_from fuel zl ele score (ziplistNext zl sp)
      end
  end.
Definition zzlInsert (zl : ziplist) (ele : string) (score : double) : res ziplist :=
  zzlInsert_from (S (length zl)) zl ele score (ziplistIndex zl 0).

(** ** Sorted set objects *)

(** [zset->dict] maps an element to the node whose score it points to. *)
Inductive zobj :=
  | ZZiplist (zl : ziplist)
  | ZSkiplist (dict : gmap string nat) (zsl : zskiplist).

(** [server.zset_max_ziplist_entries] and [server.zset_max_ziplist_value]. *)
Record zset_config := mkZcfg { max_entries : Z; max_value : Z }.

Definition createZsetObject : zobj := ZSkiplist ∅ zslCreate.
Definition createZsetZiplistObject : zobj := ZZiplist [].

Definition zsetLength (o : zobj) : Z :=
  match o with ZZiplist zl => zzlLength zl | ZSkiplist _ z => zlength z end.

(** [zsetConvert] to a skip list: the entries one by one. *)
Fixpoint convert_from (fuel : nat) (zl : ziplist) (eptr sptr : option nat)
    (d : gmap string nat) (z : zskiplist) (rs : list Z) : res (zobj * list Z) :=
  match fuel with
  | O => Crash Diverges
  | S fuel =>
      match eptr with
      | None => Ok (ZSkiplist d z, rs)
      | Some e =>
          score ← zzlGetScore zl sptr;
          ele ← ziplistGetObject zl (Some e);
          '(x, z, rs) ← zslInsert z score ele rs;
          if decide (is_Some (d !! ele)) then Crash AssertFail
          else
            sp ← assert_ptr sptr;
            '(eptr, sptr) ← zzlNext zl sp;
            convert_from fuel zl eptr sptr (<[ele := x]> d) z rs
      end
  end.

Definition zsetConvertToSkiplist (o : zobj) (rs : list Z) : res (zobj * list Z) :=
  match o with
  | ZSkiplist _ _ => Ok (o, rs)
  | ZZiplist zl =>
      e ← assert_ptr (ziplistIndex zl 0);
      s ← assert_ptr (ziplistNext zl e);
      convert_from (S (length zl)) zl (Some e) (Some s) ∅ zslCreate rs
  end.

(** [zsetConvert] to a ziplist: the nodes along level 0. *)
Fixpoint flatten_from (fuel : nat) (z : zskiplist) (x : option nat) (zl : ziplist) : res ziplist :=
  match fuel with
  | O => Crash Diverges
  | S fuel =>
      match x with
      | None => Ok zl
      | Some a =>
          n ← node z a;
          e ← ele_of n;
          zl ← zzlInsertAt zl None e (score n);
          '(f, _) ← get_level z a 0;
          flatten_from fuel z f zl
      end
  end.

Definition zsetConvertToZiplist (o : zobj) : res zobj :=
  match o with
  | ZZiplist _ => Ok o
  | ZSkiplist _ z =>
      '(f, _) ← get_level z (header z) 0;
      zl ← flatten_from (S (Z.to_nat (zlength z))) z f [];
      Ok (ZZiplist zl)
  end.

Definition zsetConvertToZiplistIfNeeded (cfg : zset_config) (o : zobj) (maxelelen : Z) : res zobj :=
  match o with
  | ZZiplist _ => Ok o
  | ZSkiplist _ z =>
      if (zlength z <=? max_entries cfg) && (maxelelen <=? max_value cfg)
      then zsetConvertToZiplist o else Ok o
  end.

(** [None] is [C_ERR]. *)
Definition zsetScore (o : zobj) (member : string) : res (option double) :=
  match o with
  | ZZiplist zl => r ← zzlFind zl member true; Ok (option_map snd r)
  | ZSkiplist d z =>
      match d !! member with
      | None => Ok None
      | Some a => s ← score_of z a; Ok (Some s)
      end
  end.

(** ** [zsetAdd] *)

Definition ZADD_NONE : Z := 0.
Definition ZADD_INCR : Z := 1.
Definition ZADD_NX : Z := 2.
Definition ZADD_XX : Z := 4.
Definition ZADD_NOP : Z := 8.
Definition ZADD_NAN : Z := 16.
Definition ZADD_ADDED : Z := 32.
Definition ZADD_UPDATED : Z := 64.

(** The return value, the flags, [*newscore] where it is written, the object
    and the random draws left. *)
Record zadd_result := mkZr {
  zr_ret : Z; zr_flags : Z; zr_new : option double; zr_obj : zobj; zr_rs : list Z
}.

Definition zsetAdd (cfg : zset_config) (o : zobj) (score : double) (ele : string) (flags : Z) (rs : list Z)
    : res zadd_result :=
  let incr := negb (Z.land flags ZADD_INCR =? 0) in
  let nx := negb (Z.land flags ZADD_NX =? 0) in
  let xx := negb (Z.land flags ZADD_XX =? 0) in
  if isnan score then Ok (mkZr 0 ZADD_NAN None o rs)
  else
    match o with
    | ZZiplist zl =>
        found ← zzlFind zl ele true;
        match found with
        | Some (eptr, cur) =>
            if nx then Ok (mkZr 1 ZADD_NOP None o rs)
            else
              let score := if incr then dadd score cur else score in
              if incr && isnan score then Ok (mkZr 0 ZADD_NAN None o rs)
              else
                let new := if incr then Some score else None in
                if negb (deq score cur) then
                  zl ← zzlInsert (zzlDelete zl eptr) ele score;
                  Ok (mkZr 1 ZADD_UPDATED new (ZZiplist zl) rs)
                else Ok (mkZr 1 0 new o rs)
        | None =>
            if negb xx then
              zl ← zzlInsert zl ele score;
              '(o, rs) ← (if (max_entries cfg <? zzlLength zl) || (max_value cfg <? Z.of_nat (String.length ele))
                          then zsetConvertToSkiplist (ZZiplist zl) rs
                          else Ok (ZZiplist zl, rs));
              Ok (mkZr 1 ZADD_ADDED (Some score) o rs)
            else Ok (mkZr 1 ZADD_NOP None o rs)
        end
    | ZSkiplist d z =>
        match d !! ele with
        | Some a =>
            if nx then Ok (mkZr 1 ZADD_NOP None o rs)
            else
              cur ← score_of z a;
              let score := if incr then dadd score cur else score in
              if incr && isnan score then Ok (mkZr 0 ZADD_NAN None o rs)
              else
                let new := if incr then Some score else None in
                if negb (deq score cur) then
                  '(x, z, rs) ← zslUpdateScore z cur ele score rs;
                  Ok (mkZr 1 ZADD_UPDATED new (ZSkiplist (<[ele := x]> d) z) rs)
                else Ok (mkZr 1 0 new o rs)
        | None =>
            if negb xx then
              '(x, z, rs) ← zslInsert z score ele rs;
              Ok (mkZr 1 ZADD_ADDED (Some score) (ZSkiplist (<[ele := x]> d) z) rs)
            else Ok (mkZr 1 ZADD_NOP None o rs)
        end
    end.

(** ** [zsetDel] *)

Definition zsetDel (o : zobj) (ele : string) : res (bool * zobj) :=
  match o with
  | ZZiplist zl =>
      found ← zzlFind zl ele false;
      match found with
      | Some (eptr, _) => Ok (true, ZZiplist (zzlDelete zl eptr))
      | None => Ok (false, o)
      end
  | ZSkiplist d z =>
      match d !! ele with
      | Some a =>
          s ← score_of z a;
          '(b, z) ← zslDelete z s ele;
          if (b : bool) then Ok (true, ZSkiplist (delete ele d) z) else Crash AssertFail
      | None => Ok (false, o)
      end
  end.

(** ** [zsetRank] *)

Fixpoint zzlRank_from (fuel : nat) (zl : ziplist) (ele : string) (eptr sptr : option nat) (rank : Z)
    : res (option Z) :=
  match fuel with
  | O => Crash Diverges
  | S fuel =>
      match eptr with
      | None => Ok None
      | Some e =>
          if ziplistCompare zl e ele then Ok (Some rank)
          else
            s ← assert_ptr sptr;
            '(eptr, sptr) ← zzlNext zl s;
            zzlRank_from fuel zl ele eptr sptr (rank + 1)
      end
  end.

(** -1 when the element is absent. *)
Definition zsetRank (o : zobj) (ele : string) (reverse : bool) : res Z :=
  let llen := zsetLength o in
  let ret r := Ok (if reverse then llen - r else r - 1) in
  match o with
  | ZZiplist zl =>
      e ← assert_ptr (ziplistIndex zl 0);
      s ← assert_ptr (ziplistNext zl e);
      r ← zzlRank_from (S (length zl)) zl ele (Some e) (Some s) 1;
      match r with Some r => ret r | None => Ok (-1) end
  | ZSkiplist d z =>
      match d !! ele with
      | Some a =>
          s ← score_of z a;
          r ← zslGetRank z s ele;
          if r =? 0 then Crash AssertFail else ret r
      | None => Ok (-1)
      end
  end.
