(* ===== verification/Bytes.v ===== *)
(** * Blocks of memory

    A block of bytes that was allocated with a size, as a list of cells.  A cell
    holds a byte, 0 to 255, or has not been written yet; reading such a cell, or
    any access outside the block, is a fault.  Numbers are stored with the least
    significant byte first. *)

From S2P Require Import Prelude Sds Double.
From Stdlib Require Import Ascii.

Notation block := (list Z).
Definition UNWRITTEN : Z := -1.

Definition blen {A} (l : list A) : Z := Z.of_nat (length l).

(** [b[p]] *)
Definition get (b : block) (p : Z) : res Z :=
  c ← zlookup b p;
  if c <? 0 then Crash Uninitialised else Ok c.

(** [n] cells from [p], as [memcpy] and [memmove] read them. *)
Definition cells (b : block) (p : Z) (n : Z) : res block :=
  if (0 <=? p) && (0 <=? n) && (p + n <=? blen b) then Ok (take (Z.to_nat n) (drop (Z.to_nat p) b)) else Crash OutOfBounds.

(** The cells [l] written at [p]. *)
Definition put (b : block) (p : Z) (l : block) : res block :=
  if (0 <=? p) && (p + blen l <=? blen b) then Ok (take (Z.to_nat p) b ++ l ++ drop (Z.to_nat (p + blen l)) b) else Crash OutOfBounds.

Definition memmove (b : block) (dst src n : Z) : res block := l ← cells b src n; put b dst l.

Definition zrealloc (b : block) (n : Z) : block := take (Z.to_nat n) b ++ replicate (Z.to_nat n - length b) UNWRITTEN.

(** Bytes read as a number. *)
Fixpoint le_val (l : list Z) : Z := match l with [] => 0 | c :: l => c + 256 * le_val l end.
Fixpoint le_bytes (n : nat) (v : Z) : list Z := match n with O => [] | S n => v mod 256 :: le_bytes n (v / 256) end.

Definition load_le (b : block) (p : Z) (n : nat) : res Z :=
  l ← cells b p (Z.of_nat n);
  if forallb (fun c => 0 <=? c) l then Ok (le_val l) else Crash Uninitialised.
Definition store_le (b : block) (p : Z) (n : nat) (v : Z) : res block := put b p (le_bytes n v).

(** The bytes of a string. *)
Definition str_bytes (s : string) : list Z := code <$> String.list_ascii_of_string s.

(** ** Blocks in pieces *)

Lemma blen_app {A} (l1 l2 : list A) : blen (l1 ++ l2) = blen l1 + blen l2.
Proof. unfold blen. rewrite length_app. lia. Qed.
Lemma blen_cons {A} (a : A) l : blen (a :: l) = 1 + blen l.
Proof. unfold blen. cbn. lia. Qed.
Lemma blen_nil {A} : blen (@nil A) = 0.
Proof. done. Qed.
Lemma blen_nonneg {A} (l : list A) : 0 <= blen l.
Proof. unfold blen. lia. Qed.
Lemma blen_nat {A} (l : list A) : Z.to_nat (blen l) = length l.
Proof. unfold blen. lia. Qed.

Lemma le_bytes_length n v : length (le_bytes n v) = n.
Proof. revert v. induction n as [|n IH]; intros v; cbn; [done|by rewrite IH]. Qed.
Lemma le_bytes_blen n v : blen (le_bytes n v) = Z.of_nat n.
Proof. unfold blen. by rewrite le_bytes_length. Qed.

Definition is_byte (c : Z) : Prop := 0 <= c < 256.

Lemma le_bytes_byte n v : Forall is_byte (le_bytes n v).
Proof. revert v. induction n as [|n IH]; intros v; cbn; constructor; [|done]. unfold is_byte. apply Z.mod_pos_bound. lia. Qed.

Lemma le_val_bytes n v : le_val (le_bytes n v) = v mod 256 ^ Z.of_nat n.
Proof.
  revert v. induction n as [|n IH]; intros v; cbn [le_bytes le_val]; [by rewrite Z.pow_0_r, Z.mod_1_r|].
  rewrite IH, Nat2Z.inj_succ, Z.pow_succ_r by lia. rewrite Z.rem_mul_r by lia. done.
Qed.

Lemma cells_at a l c : cells (a ++ l ++ c) (blen a) (blen l) = Ok l.
Proof.
  unfold cells. pose proof (blen_nonneg a). pose proof (blen_nonneg l). pose proof (blen_nonneg c).
  rewrite !blen_app, !(proj2 (Z.leb_le _ _)) by lia. cbn [andb]. by rewrite !blen_nat, drop_app_length, take_app_length.
Qed.

Lemma put_at a l c l' : blen l' = blen l -> put (a ++ l ++ c) (blen a) l' = Ok (a ++ l' ++ c).
Proof.
  intros Hl. unfold put. pose proof (blen_nonneg a). pose proof (blen_nonneg l). pose proof (blen_nonneg c).
  rewrite !blen_app, !(proj2 (Z.leb_le _ _)) by lia. cbn [andb]. rewrite !blen_nat, take_app_length.
  replace (Z.to_nat (blen a + blen l')) with (length a + length l)%nat by (unfold blen in *; lia).
  rewrite <- drop_drop, drop_app_length, drop_app_length. done.
Qed.

Lemma byte_at a c b : 0 <= c -> get (a ++ c :: b) (blen a) = Ok c.
Proof.
  intros Hc. unfold get, blen. rewrite zlookup_nat, list_lookup_middle by done. cbn [of_option mbind res_bind].
  by rewrite (proj2 (Z.ltb_ge _ _)).
Qed.

Lemma load_le_at a l c n : blen l = Z.of_nat n -> Forall is_byte l -> load_le (a ++ l ++ c) (blen a) n = Ok (le_val l).
Proof.
  intros Hl HF. unfold load_le. rewrite <- Hl, cells_at. cbn [mbind res_bind].
  assert (forallb (fun c => 0 <=? c) l = true) as ->; [|done]. apply List.forallb_forall.
  rewrite Forall_forall in HF. intros x Hx. apply Z.leb_le. apply list_elem_of_In in Hx. by apply HF in Hx as [? _].
Qed.

Lemma store_le_at a l c n v : blen l = Z.of_nat n -> store_le (a ++ l ++ c) (blen a) n v = Ok (a ++ le_bytes n v ++ c).
Proof. intros Hl. unfold store_le. apply put_at. by rewrite le_bytes_blen. Qed.

Lemma str_bytes_byte s : Forall is_byte (str_bytes s).
Proof.
  unfold str_bytes. apply Forall_fmap, Forall_forall. intros a _. unfold is_byte, code. cbn.
  pose proof (Ascii.N_ascii_bounded a). lia.
Qed.

(** ** Accesses at a position that is known by its distance *)

Lemma cells_split b a l c p n : b = a ++ l ++ c -> p = blen a -> n = blen l -> cells b p n = Ok l.
Proof. intros -> -> ->. apply cells_at. Qed.
Lemma put_split b a l c p l' : b = a ++ l ++ c -> p = blen a -> blen l' = blen l -> put b p l' = Ok (a ++ l' ++ c).
Proof. intros -> -> H. by apply put_at. Qed.
Lemma byte_split b a x c p : b = a ++ x :: c -> p = blen a -> 0 <= x -> get b p = Ok x.
Proof. intros -> -> H. by apply byte_at. Qed.
Lemma load_le_split b a l c p n :
  b = a ++ l ++ c -> p = blen a -> blen l = Z.of_nat n -> Forall is_byte l -> load_le b p n = Ok (le_val l).
Proof. intros -> -> H HF. by apply load_le_at. Qed.

(** Moving [r] towards the end, and towards the start; what is written over. *)
Lemma memmove_right a x r y z dst src n :
  src = blen a + blen x -> dst = blen a + blen x + blen y -> n = blen r ->
  memmove (a ++ x ++ r ++ y ++ z) dst src n = Ok ((a ++ x ++ take (length y) (r ++ y)) ++ r ++ z).
Proof.
  intros -> -> ->. unfold memmove.
  rewrite (cells_split _ (a ++ x) r (y ++ z)) by (rewrite ?blen_app, <- ?app_assoc; done). cbn [mbind res_bind].
  apply (put_split _ _ (drop (length y) (r ++ y))).
  - rewrite <- !app_assoc, (app_assoc (take _ _)), take_drop, <- !app_assoc. done.
  - rewrite !blen_app. unfold blen. rewrite length_take, length_app. lia.
  - unfold blen. rewrite length_drop, length_app. lia.
Qed.

Lemma memmove_left a x r z dst src n :
  src = blen a + blen x -> dst = blen a -> n = blen r ->
  memmove (a ++ x ++ r ++ z) dst src n = Ok (a ++ r ++ drop (length r) (x ++ r) ++ z).
Proof.
  intros -> -> ->. unfold memmove.
  rewrite (cells_split _ (a ++ x) r z) by (rewrite ?blen_app, <- ?app_assoc; done). cbn [mbind res_bind].
  apply (put_split _ _ (take (length r) (x ++ r))).
  - rewrite (app_assoc (take _ _)), take_drop, <- !app_assoc. done.
  - done.
  - unfold blen. rewrite length_take, length_app. lia.
Qed.

Lemma zrealloc_more b n : blen b <= n -> zrealloc b n = b ++ replicate (Z.to_nat (n - blen b)) UNWRITTEN.
Proof. intros Hn. unfold zrealloc, blen in *. rewrite take_ge by lia. repeat f_equal. lia. Qed.
Lemma zrealloc_less a c : zrealloc (a ++ c) (blen a) = a.
Proof.
  unfold zrealloc. rewrite blen_nat, take_app_length, length_app.
  replace (_ - _)%nat with 0%nat by lia. by rewrite app_nil_r.
Qed.

Lemma byte_in a l c p k x : l !! k = Some x -> 0 <= x -> p = blen a + Z.of_nat k -> get (a ++ l ++ c) p = Ok x.
Proof.
  intros Hl Hx ->. apply list_elem_of_split_length in Hl as (l1 & l2 & -> & ->).
  apply (byte_split _ (a ++ l1) x (l2 ++ c)); [by rewrite <- !app_assoc|by rewrite blen_app|done].
Qed.

(** Room for [n] cells after [a]: what follows is moved, with [d] more cells of
    the field [f] in front of it, or fewer. *)
Lemma memmove_room a f tl y z n d dst src cnt :
  0 <= n -> d <= blen a -> 0 <= blen f + d -> blen y = n + d ->
  dst = blen a + n -> src = blen a - d -> cnt = blen f + blen tl + d ->
  exists g v, blen g = n /\ blen v = blen f + d /\ memmove (a ++ f ++ tl ++ y ++ z) dst src cnt = Ok ((a ++ g) ++ v ++ tl ++ z).
Proof.
  intros Hn Hd Hf Hy -> -> ->. pose proof (blen_nonneg tl) as Htl. pose proof (blen_nonneg y).
  exists (take (Z.to_nat n) (f ++ tl ++ y)), (drop (Z.to_nat (blen a - d)) (a ++ f)). unfold blen in *. split_and!.
  - rewrite length_take, !length_app. lia.
  - rewrite length_drop, length_app. lia.
  - set (k := Z.to_nat (Z.of_nat (length a) - d)).
    assert (a ++ f ++ tl ++ y ++ z = take k (a ++ f) ++ [] ++ (drop k (a ++ f) ++ tl) ++ y ++ z) as ->.
    { cbn [app]. rewrite <- app_assoc, (app_assoc (take _ _)), take_drop, <- app_assoc. done. }
    rewrite memmove_right; unfold blen; rewrite ?length_app, ?length_take, ?length_drop, ?length_app; cbn [length]; try lia.
    f_equal. cbn [app]. rewrite <- (app_assoc (drop _ _) tl z). f_equal. rewrite <- app_assoc.
    rewrite <- (take_app_add' _ _ k (length y)) by (rewrite length_take, length_app; lia).
    rewrite (app_assoc (take k _)), take_drop, <- app_assoc.
    rewrite <- (take_app_add' a _ (length a) (Z.to_nat n)) by done. f_equal. lia.
Qed.

Lemma blen_split {A} (l : list A) a b : blen l = a + b -> 0 <= a -> 0 <= b ->
  exists l1 l2, l = l1 ++ l2 /\ blen l1 = a /\ blen l2 = b.
Proof.
  intros Hl Ha Hb. exists (take (Z.to_nat a) l), (drop (Z.to_nat a) l). rewrite take_drop.
  unfold blen in *. rewrite length_take, length_drop. split; [done|lia].
Qed.
