(* ===== verification/Ziplist.v ===== *)
(** * Ziplists: ziplist.c on bytes

    A ziplist is one block: the size in bytes, the offset of the last entry, the
    number of entries, the entries and an end marker.  An entry is the length of
    the entry before it (one byte, or five), the encoding with the length, and
    the data.  Pointers into a ziplist are offsets from its start. *)

From S2P Require Import Prelude Sds Double Util Zset Bytes.
From Stdlib Require Import Ascii.

Module Blob.

(** ** Encodings *)

Definition ZIP_END : Z := 255.
Definition ZIP_BIG_PREVLEN : Z := 254.
Definition ZIP_STR_MASK : Z := 192.
Definition ZIP_STR_06B : Z := 0.
Definition ZIP_STR_14B : Z := 64.
Definition ZIP_STR_32B : Z := 128.
Definition ZIP_INT_16B : Z := 192.
Definition ZIP_INT_32B : Z := 208.
Definition ZIP_INT_64B : Z := 224.
Definition ZIP_INT_24B : Z := 240.
Definition ZIP_INT_8B : Z := 254.
Definition ZIP_INT_IMM_MASK : Z := 15.
Definition ZIP_INT_IMM_MIN : Z := 241.
Definition ZIP_INT_IMM_MAX : Z := 253.
Definition UINT16_MAX : Z := 65535.
Definition ZIPLIST_HEADER_SIZE : Z := 10.
Definition ZIPLIST_END_SIZE : Z := 1.

Definition ZIP_IS_STR (enc : Z) : bool := Z.land enc ZIP_STR_MASK <? ZIP_STR_MASK.

Definition ZIPLIST_BYTES (zl : block) : res Z := load_le zl 0 4.
Definition ZIPLIST_TAIL_OFFSET (zl : block) : res Z := load_le zl 4 4.
Definition ZIPLIST_LENGTH (zl : block) : res Z := load_le zl 8 2.
Definition set_bytes (zl : block) (v : Z) : res block := store_le zl 0 4 v.
Definition set_tail (zl : block) (v : Z) : res block := store_le zl 4 4 v.
Definition set_length (zl : block) (v : Z) : res block := store_le zl 8 2 v.

Definition ZIPLIST_ENTRY_HEAD : Z := ZIPLIST_HEADER_SIZE.
Definition ZIPLIST_ENTRY_TAIL (zl : block) : res Z := ZIPLIST_TAIL_OFFSET zl.
Definition ZIPLIST_ENTRY_END (zl : block) : res Z := n ← ZIPLIST_BYTES zl; Ok (n - 1).

Definition ZIPLIST_INCR_LENGTH (zl : block) (incr : Z) : res block :=
  n ← ZIPLIST_LENGTH zl;
  if n <? UINT16_MAX then set_length zl (n + incr) else Ok zl.

(** The struct [zlentry]; its [p] is [at_p]. *)
Record entry_info := mkInfo {
  prevrawlensize : Z; prevrawlen : Z; lensize : Z; len : Z; headersize : Z; encoding : Z; at_p : Z
}.

Definition ZIP_ENTRY_ENCODING (zl : block) (ptr : Z) : res Z :=
  e ← get zl ptr;
  Ok (if e <? ZIP_STR_MASK then Z.land e ZIP_STR_MASK else e).

Definition zipIntSize (enc : Z) : res Z :=
  if enc =? ZIP_INT_8B then Ok 1
  else if enc =? ZIP_INT_16B then Ok 2
  else if enc =? ZIP_INT_24B then Ok 3
  else if enc =? ZIP_INT_32B then Ok 4
  else if enc =? ZIP_INT_64B then Ok 8
  else if (ZIP_INT_IMM_MIN <=? enc) && (enc <=? ZIP_INT_IMM_MAX) then Ok 0
  else Crash Panic.

(** [buf] of [zipStoreEntryEncoding]. *)
Definition encoding_bytes (enc rawlen : Z) : list Z :=
  if ZIP_IS_STR enc then
    if rawlen <=? 63 then [Z.lor ZIP_STR_06B rawlen]
    else if rawlen <=? 16383 then
      [Z.lor ZIP_STR_14B (Z.land (Z.shiftr rawlen 8) 63); Z.land rawlen 255]
    else
      [ZIP_STR_32B; Z.land (Z.shiftr rawlen 24) 255; Z.land (Z.shiftr rawlen 16) 255;
       Z.land (Z.shiftr rawlen 8) 255; Z.land rawlen 255]
  else [enc].

(** With a null [p] only the size; otherwise also the block with the bytes stored. *)
Definition zipStoreEntryEncoding_size (enc rawlen : Z) : Z :=
  if ZIP_IS_STR enc then if rawlen <=? 63 then 1 else if rawlen <=? 16383 then 2 else 5 else 1.
Definition zipStoreEntryEncoding (zl : block) (p enc rawlen : Z) : res (block * Z) :=
  zl ← put zl p (encoding_bytes enc rawlen);
  Ok (zl, zipStoreEntryEncoding_size enc rawlen).

(** Encoding, [lensize] and [len]. *)
Definition ZIP_DECODE_LENGTH (zl : block) (ptr : Z) : res (Z * Z * Z) :=
  enc ← ZIP_ENTRY_ENCODING zl ptr;
  if enc <? ZIP_STR_MASK then
    if enc =? ZIP_STR_06B then b ← get zl ptr; Ok (enc, 1, Z.land b 63)
    else if enc =? ZIP_STR_14B then
      b0 ← get zl ptr; b1 ← get zl (ptr + 1); Ok (enc, 2, Z.lor (Z.shiftl (Z.land b0 63) 8) b1)
    else if enc =? ZIP_STR_32B then
      b1 ← get zl (ptr + 1); b2 ← get zl (ptr + 2); b3 ← get zl (ptr + 3); b4 ← get zl (ptr + 4);
      Ok (enc, 5, u32 (Z.lor (Z.lor (Z.lor (Z.shiftl b1 24) (Z.shiftl b2 16)) (Z.shiftl b3 8)) b4))
    else Crash Panic
  else n ← zipIntSize enc; Ok (enc, 1, n).

(** ** The length of the previous entry *)

Definition zipStorePrevEntryLengthLarge (zl : block) (p len : Z) : res (block * Z) :=
  zl ← put zl p [ZIP_BIG_PREVLEN];
  zl ← put zl (p + 1) (le_bytes 4 len);
  Ok (zl, 5).

Definition zipStorePrevEntryLength_size (len : Z) : Z := if len <? ZIP_BIG_PREVLEN then 1 else 5.
Definition zipStorePrevEntryLength (zl : block) (p len : Z) : res (block * Z) :=
  if len <? ZIP_BIG_PREVLEN then zl ← put zl p [len]; Ok (zl, 1)
  else zipStorePrevEntryLengthLarge zl p len.

Definition ZIP_DECODE_PREVLENSIZE (zl : block) (ptr : Z) : res Z :=
  b ← get zl ptr; Ok (if b <? ZIP_BIG_PREVLEN then 1 else 5).

(** [prevlensize] and [prevlen]. *)
Definition ZIP_DECODE_PREVLEN (zl : block) (ptr : Z) : res (Z * Z) :=
  size ← ZIP_DECODE_PREVLENSIZE zl ptr;
  len ← (if size =? 1 then get zl ptr else load_le zl (ptr + 1) 4);
  Ok (size, len).

Definition zipPrevLenByteDiff (zl : block) (p len : Z) : res Z :=
  size ← ZIP_DECODE_PREVLENSIZE zl p;
  Ok (zipStorePrevEntryLength_size len - size).

Definition zipRawEntryLength (zl : block) (p : Z) : res Z :=
  prevlensize ← ZIP_DECODE_PREVLENSIZE zl p;
  '(_, lensize, len) ← ZIP_DECODE_LENGTH zl (p + prevlensize);
  Ok (u32 (prevlensize + lensize + len)).

(** ** Integers *)

(** The smallest encoding that can hold the value. *)
Definition int_encoding (value : Z) : Z :=
  if (0 <=? value) && (value <=? 12) then ZIP_INT_IMM_MIN + value
  else if (- 2 ^ 7 <=? value) && (value <=? 2 ^ 7 - 1) then ZIP_INT_8B
  else if (- 2 ^ 15 <=? value) && (value <=? 2 ^ 15 - 1) then ZIP_INT_16B
  else if (- 2 ^ 23 <=? value) && (value <=? 2 ^ 23 - 1) then ZIP_INT_24B
  else if (- 2 ^ 31 <=? value) && (value <=? 2 ^ 31 - 1) then ZIP_INT_32B
  else ZIP_INT_64B.

(** The value and its encoding. *)
Definition tryEncoding (s : string) : option (Z * Z) :=
  value ← zipTryEncoding s; Some (value, int_encoding value).

Definition zipSaveInteger (zl : block) (p value enc : Z) : res block :=
  if enc =? ZIP_INT_8B then put zl p (le_bytes 1 value)
  else if enc =? ZIP_INT_16B then put zl p (le_bytes 2 value)
  else if enc =? ZIP_INT_24B then put zl p (drop 1 (le_bytes 4 (i32 (Z.shiftl value 8))))
  else if enc =? ZIP_INT_32B then put zl p (le_bytes 4 value)
  else if enc =? ZIP_INT_64B then put zl p (le_bytes 8 value)
  else if (ZIP_INT_IMM_MIN <=? enc) && (enc <=? ZIP_INT_IMM_MAX) then Ok zl
  else Crash AssertFail.

Definition zipLoadInteger (zl : block) (p enc : Z) : res Z :=
  if enc =? ZIP_INT_8B then v ← load_le zl p 1; Ok (wrap 8 v)
  else if enc =? ZIP_INT_16B then v ← load_le zl p 2; Ok (wrap 16 v)
  else if enc =? ZIP_INT_32B then v ← load_le zl p 4; Ok (wrap 32 v)
  else if enc =? ZIP_INT_24B then v ← load_le zl p 3; Ok (Z.shiftr (i32 (Z.shiftl v 8)) 8)
  else if enc =? ZIP_INT_64B then v ← load_le zl p 8; Ok (wrap 64 v)
  else if (ZIP_INT_IMM_MIN <=? enc) && (enc <=? ZIP_INT_IMM_MAX) then Ok (Z.land enc ZIP_INT_IMM_MASK - 1)
  else Crash AssertFail.

Definition zipEntry (zl : block) (p : Z) : res entry_info :=
  '(prevsize, prev) ← ZIP_DECODE_PREVLEN zl p;
  '(enc, lsize, n) ← ZIP_DECODE_LENGTH zl (p + prevsize);
  Ok (mkInfo prevsize prev lsize n (prevsize + lsize) enc p).

(** ** Whole ziplists *)

Definition ziplistNew : res block :=
  let bytes := ZIPLIST_HEADER_SIZE + ZIPLIST_END_SIZE in
  let zl := replicate (Z.to_nat bytes) UNWRITTEN in
  zl ← set_bytes zl bytes;
  zl ← set_tail zl ZIPLIST_HEADER_SIZE;
  zl ← set_length zl 0;
  put zl (bytes - 1) [ZIP_END].

Definition ziplistResize (zl : block) (n : Z) : res block :=
  let n := u32 n in
  let zl := zrealloc zl n in
  zl ← set_bytes zl n;
  put zl (n - 1) [ZIP_END].

(** [while (p[0] != ZIP_END)]; a round that does not leave the loop moves to the
    next entry. *)
Fixpoint cascade (fuel : nat) (zl : block) (p curlen : Z) : res block :=
  match fuel with
  | O => Crash Diverges
  | S fuel =>
      b ← get zl p;
      if b =? ZIP_END then Ok zl
      else
        cur ← zipEntry zl p;
        let rawlen := u32 (headersize cur + len cur) in
        let rawlensize := zipStorePrevEntryLength_size rawlen in
        b ← get zl (p + rawlen);
        if b =? ZIP_END then Ok zl
        else
          next ← zipEntry zl (p + rawlen);
          if prevrawlen next =? rawlen then Ok zl
          else if prevrawlensize next <? rawlensize then
            let extra := rawlensize - prevrawlensize next in
            zl ← ziplistResize zl (curlen + extra);
            let np := p + rawlen in
            tail ← ZIPLIST_TAIL_OFFSET zl;
            zl ← (if negb (tail =? np) then set_tail zl (tail + extra) else Ok zl);
            zl ← memmove zl (np + rawlensize) (np + prevrawlensize next) (curlen - np - prevrawlensize next - 1);
            '(zl, _) ← zipStorePrevEntryLength zl np rawlen;
            cascade fuel zl np (curlen + extra)
          else if rawlensize <? prevrawlensize next then
            '(zl, _) ← zipStorePrevEntryLengthLarge zl (p + rawlen) rawlen; Ok zl
          else
            '(zl, _) ← zipStorePrevEntryLength zl (p + rawlen) rawlen; Ok zl
  end.

(** Every round but the last passes an entry of at least two bytes. *)
Definition __ziplistCascadeUpdate (zl : block) (p : Z) : res block :=
  curlen ← ZIPLIST_BYTES zl;
  cascade (S (length zl)) zl p curlen.

(** [for (i = 0; p[0] != ZIP_END && i < num; i++)] *)
Fixpoint skip_entries (num : nat) (zl : block) (p : Z) (deleted : Z) : res (Z * Z) :=
  b ← get zl p;
  if b =? ZIP_END then Ok (p, deleted)
  else
    match num with
    | O => Ok (p, deleted)
    | S num => n ← zipRawEntryLength zl p; skip_entries num zl (p + n) (deleted + 1)
    end.

Definition __ziplistDelete (zl : block) (p : Z) (num : nat) : res block :=
  first ← zipEntry zl p;
  '(p, deleted) ← skip_entries num zl p 0;
  let totlen := u32 (p - at_p first) in
  if 0 <? totlen then
    b ← get zl p;
    '(zl, nextdiff) ← (
      if negb (b =? ZIP_END) then
        nextdiff ← zipPrevLenByteDiff zl p (prevrawlen first);
        let p := p - nextdiff in
        '(zl, _) ← zipStorePrevEntryLength zl p (prevrawlen first);
        tail ← ZIPLIST_TAIL_OFFSET zl;
        zl ← set_tail zl (tail - totlen);
        e ← zipEntry zl p;
        b ← get zl (p + u32 (headersize e + len e));
        zl ← (if negb (b =? ZIP_END) then tail ← ZIPLIST_TAIL_OFFSET zl; set_tail zl (tail + nextdiff) else Ok zl);
        bytes ← ZIPLIST_BYTES zl;
        zl ← memmove zl (at_p first) p (bytes - p - 1);
        Ok (zl, nextdiff)
      else
        zl ← set_tail zl (at_p first - prevrawlen first);
        Ok (zl, 0));
    bytes ← ZIPLIST_BYTES zl;
    zl ← ziplistResize zl (bytes - totlen + nextdiff);
    zl ← ZIPLIST_INCR_LENGTH zl (- deleted);
    if negb (nextdiff =? 0) then __ziplistCascadeUpdate zl (at_p first) else Ok zl
  else Ok zl.

(** The string stands for [s] and [slen], which is below 2^32. *)
Definition __ziplistInsert (zl : block) (p : Z) (s : string) : res block :=
  let slen := blen (str_bytes s) in
  curlen ← ZIPLIST_BYTES zl;
  b ← get zl p;
  prevlen ← (
    if negb (b =? ZIP_END) then '(_, prevlen) ← ZIP_DECODE_PREVLEN zl p; Ok prevlen
    else
      ptail ← ZIPLIST_ENTRY_TAIL zl;
      b ← get zl ptail;
      if negb (b =? ZIP_END) then zipRawEntryLength zl ptail else Ok 0);
  let '(enc, value) := match tryEncoding s with Some (value, enc) => (enc, value) | None => (0, 123456789) end in
  reqlen ← (match tryEncoding s with Some _ => zipIntSize enc | None => Ok slen end);
  let reqlen := reqlen + zipStorePrevEntryLength_size prevlen in
  let reqlen := reqlen + zipStoreEntryEncoding_size enc slen in
  nextdiff ← (if negb (b =? ZIP_END) then zipPrevLenByteDiff zl p (u32 reqlen) else Ok 0);
  let forcelarge := (nextdiff =? -4) && (reqlen <? 4) in
  let nextdiff := if forcelarge then 0 else nextdiff in
  zl ← ziplistResize zl (curlen + reqlen + nextdiff);
  b ← get zl p;
  zl ← (
    if negb (b =? ZIP_END) then
      zl ← memmove zl (p + reqlen) (p - nextdiff) (curlen - p - 1 + nextdiff);
      '(zl, _) ← (if forcelarge then zipStorePrevEntryLengthLarge zl (p + reqlen) (u32 reqlen)
                  else zipStorePrevEntryLength zl (p + reqlen) (u32 reqlen));
      tail ← ZIPLIST_TAIL_OFFSET zl;
      zl ← set_tail zl (tail + reqlen);
      e ← zipEntry zl (p + reqlen);
      b ← get zl (p + (reqlen + headersize e + len e));
      if negb (b =? ZIP_END) then tail ← ZIPLIST_TAIL_OFFSET zl; set_tail zl (tail + nextdiff) else Ok zl
    else set_tail zl p);
  zl ← (if negb (nextdiff =? 0) then __ziplistCascadeUpdate zl (p + reqlen) else Ok zl);
  '(zl, n) ← zipStorePrevEntryLength zl p prevlen;
  let p := p + n in
  '(zl, n) ← zipStoreEntryEncoding zl p enc slen;
  let p := p + n in
  zl ← (if ZIP_IS_STR enc then put zl p (str_bytes s) else zipSaveInteger zl p value enc);
  ZIPLIST_INCR_LENGTH zl 1.

(** ** The interface *)

Definition ziplistPush (zl : block) (s : string) (head : bool) : res block :=
  p ← (if head then Ok ZIPLIST_ENTRY_HEAD else ZIPLIST_ENTRY_END zl);
  __ziplistInsert zl p s.

(** [while (prevlen > 0 && index--)], backwards, and [while (p[0] != ZIP_END &&
    index--)], forwards; the index at the end says whether the list was long
    enough. *)
Fixpoint index_back (fuel : nat) (zl : block) (p prevlen index : Z) : res (Z * Z) :=
  match fuel with
  | O => Crash Diverges
  | S fuel =>
      if 0 <? prevlen then
        if index =? 0 then Ok (p, index - 1)
        else
          let p := p - prevlen in
          '(_, prevlen) ← ZIP_DECODE_PREVLEN zl p;
          index_back fuel zl p prevlen (index - 1)
      else Ok (p, index)
  end.
Fixpoint index_forward (fuel : nat) (zl : block) (p index : Z) : res (Z * Z) :=
  match fuel with
  | O => Crash Diverges
  | S fuel =>
      b ← get zl p;
      if negb (b =? ZIP_END) then
        if index =? 0 then Ok (p, index - 1)
        else n ← zipRawEntryLength zl p; index_forward fuel zl (p + n) (index - 1)
      else Ok (p, index)
  end.

Definition ziplistIndex (zl : block) (index : Z) : res (option Z) :=
  '(p, index) ← (
    if index <? 0 then
      let index := - index - 1 in
      p ← ZIPLIST_ENTRY_TAIL zl;
      b ← get zl p;
      if negb (b =? ZIP_END) then
        '(_, prevlen) ← ZIP_DECODE_PREVLEN zl p;
        index_back (S (length zl)) zl p prevlen index
      else Ok (p, index)
    else index_forward (S (length zl)) zl ZIPLIST_ENTRY_HEAD index);
  b ← get zl p;
  Ok (if (b =? ZIP_END) || (0 <? index) then None else Some p).

Definition ziplistNext (zl : block) (p : Z) : res (option Z) :=
  b ← get zl p;
  if b =? ZIP_END then Ok None
  else
    n ← zipRawEntryLength zl p;
    b ← get zl (p + n);
    Ok (if b =? ZIP_END then None else Some (p + n)).

Definition ziplistPrev (zl : block) (p : Z) : res (option Z) :=
  b ← get zl p;
  if b =? ZIP_END then
    p ← ZIPLIST_ENTRY_TAIL zl;
    b ← get zl p;
    Ok (if b =? ZIP_END then None else Some p)
  else if p =? ZIPLIST_ENTRY_HEAD then Ok None
  else
    '(_, prevlen) ← ZIP_DECODE_PREVLEN zl p;
    if 0 <? prevlen then Ok (Some (p - prevlen)) else Crash AssertFail.

(** The bytes of a string or the integer; [None] at the end or for a null
    pointer. *)
Definition ziplistGet (zl : block) (p : option Z) : res (option (list Z + Z)) :=
  match p with
  | None => Ok None
  | Some p =>
      b ← get zl p;
      if b =? ZIP_END then Ok None
      else
        e ← zipEntry zl p;
        if ZIP_IS_STR (encoding e) then l ← cells zl (p + headersize e) (len e); Ok (Some (inl l))
        else v ← zipLoadInteger zl (p + headersize e) (encoding e); Ok (Some (inr v))
  end.

Definition ziplistInsert (zl : block) (p : Z) (s : string) : res block := __ziplistInsert zl p s.

(** The pointer is left at the offset of the entry deleted. *)
Definition ziplistDelete (zl : block) (p : Z) : res block := __ziplistDelete zl p 1.

Definition ziplistDeleteRange (zl : block) (index : Z) (num : nat) : res block :=
  p ← ziplistIndex zl index;
  match p with None => Ok zl | Some p => __ziplistDelete zl p num end.

Definition ziplistCompare (zl : block) (p : Z) (s : string) : res bool :=
  b ← get zl p;
  if b =? ZIP_END then Ok false
  else
    e ← zipEntry zl p;
    if ZIP_IS_STR (encoding e) then
      if len e =? blen (str_bytes s) then
        l ← cells zl (p + headersize e) (blen (str_bytes s)); Ok (bool_decide (l = str_bytes s))
      else Ok false
    else
      match tryEncoding s with
      | Some (sval, _) => zval ← zipLoadInteger zl (p + headersize e) (encoding e); Ok (zval =? sval)
      | None => Ok false
      end.

(** [vencoding] and [vll] once they are known: [Some None] is UCHAR_MAX. *)
Definition find_encoding (vs : string) (venc : option (option Z)) : option Z :=
  match venc with Some v => v | None => fst <$> tryEncoding vs end.

Fixpoint find_from (fuel : nat) (zl : block) (p : Z) (vs : string) (skip skipcnt : Z) (venc : option (option Z))
    : res (option Z) :=
  match fuel with
  | O => Crash Diverges
  | S fuel =>
      b ← get zl p;
      if b =? ZIP_END then Ok None
      else
        prevlensize ← ZIP_DECODE_PREVLENSIZE zl p;
        '(enc, lensize, len) ← ZIP_DECODE_LENGTH zl (p + prevlensize);
        let q := p + prevlensize + lensize in
        if skipcnt =? 0 then
          if ZIP_IS_STR enc then
            same ← (if len =? blen (str_bytes vs) then l ← cells zl q len; Ok (bool_decide (l = str_bytes vs)) else Ok false);
            if (same : bool) then Ok (Some p) else find_from fuel zl (q + len) vs skip skip venc
          else
            let v := find_encoding vs venc in
            same ← (match v with Some vll => ll ← zipLoadInteger zl q enc; Ok (ll =? vll) | None => Ok false end);
            if (same : bool) then Ok (Some p) else find_from fuel zl (q + len) vs skip skip (Some v)
        else find_from fuel zl (q + len) vs skip (skipcnt - 1) venc
  end.
Definition ziplistFind (zl : block) (p : Z) (vs : string) (skip : Z) : res (option Z) :=
  find_from (S (length zl)) zl p vs skip 0 None.

Fixpoint count_entries (fuel : nat) (zl : block) (p n : Z) : res Z :=
  match fuel with
  | O => Crash Diverges
  | S fuel =>
      b ← get zl p;
      if b =? ZIP_END then Ok n
      else k ← zipRawEntryLength zl p; count_entries fuel zl (p + k) (n + 1)
  end.

(** The length, and the block, in which the length may have been stored again. *)
Definition ziplistLen (zl : block) : res (Z * block) :=
  n ← ZIPLIST_LENGTH zl;
  if n <? UINT16_MAX then Ok (n, zl)
  else
    n ← count_entries (S (length zl)) zl ZIPLIST_HEADER_SIZE 0;
    zl ← (if n <? UINT16_MAX then set_length zl n else Ok zl);
    Ok (n, zl).

Definition ziplistBlobLen (zl : block) : res Z := ZIPLIST_BYTES zl.

(** For two ziplists at different addresses; the result takes the place of the
    longer one, and the other is freed. *)
Definition ziplistMerge (first second : block) : res block :=
  first_bytes ← ZIPLIST_BYTES first;
  first_len ← ZIPLIST_LENGTH first;
  second_bytes ← ZIPLIST_BYTES second;
  second_len ← ZIPLIST_LENGTH second;
  let append := second_len <=? first_len in
  let zlbytes := first_bytes + second_bytes - ZIPLIST_HEADER_SIZE - ZIPLIST_END_SIZE in
  let zllength := first_len + second_len in
  let zllength := if zllength <? UINT16_MAX then zllength else UINT16_MAX in
  first_offset ← ZIPLIST_TAIL_OFFSET first;
  second_offset ← ZIPLIST_TAIL_OFFSET second;
  target ← (
    if append then
      let target := zrealloc first zlbytes in
      l ← cells second ZIPLIST_HEADER_SIZE (second_bytes - ZIPLIST_HEADER_SIZE);
      put target (first_bytes - ZIPLIST_END_SIZE) l
    else
      let target := zrealloc second zlbytes in
      target ← memmove target (first_bytes - ZIPLIST_END_SIZE) ZIPLIST_HEADER_SIZE (second_bytes - ZIPLIST_HEADER_SIZE);
      l ← cells first 0 (first_bytes - ZIPLIST_END_SIZE);
      put target 0 l);
  target ← set_bytes target zlbytes;
  target ← set_length target zllength;
  target ← set_tail target (first_bytes - ZIPLIST_END_SIZE + (second_offset - ZIPLIST_HEADER_SIZE));
  __ziplistCascadeUpdate target first_offset.
End Blob.
