(* ===== verification/ZiplistSpec.v ===== *)
(** * What a ziplist holds

    The bytes of a ziplist against the list of its entries: the layout as a
    function of the entries, the functions of ziplist.c on it, and their
    refinement of the operations on lists of entries that t_zset.c's model
    uses. *)

From S2P Require Import Prelude Sds Double Util Zset Bytes Ziplist.
From Stdlib Require Import Ascii.
Import Blob.

(** ** One entry *)

Definition int_bytes (z : Z) : list Z :=
  let enc := int_encoding z in
  if enc =? ZIP_INT_8B then le_bytes 1 z
  else if enc =? ZIP_INT_16B then le_bytes 2 z
  else if enc =? ZIP_INT_24B then drop 1 (le_bytes 4 (i32 (Z.shiftl z 8)))
  else if enc =? ZIP_INT_32B then le_bytes 4 z
  else if enc =? ZIP_INT_64B then le_bytes 8 z
  else [].

Definition e_data (e : zlentry) : list Z := match e with ZlInt z => int_bytes z | ZlStr s => str_bytes s end.
Definition e_head (e : zlentry) : list Z :=
  match e with ZlInt z => [int_encoding z] | ZlStr s => encoding_bytes 0 (blen (str_bytes s)) end.

(** The encoding as it is read back. *)
Definition e_seen (e : zlentry) : Z :=
  match e with
  | ZlInt z => int_encoding z
  | ZlStr s =>
      let n := blen (str_bytes s) in
      if n <=? 63 then ZIP_STR_06B else if n <=? 16383 then ZIP_STR_14B else ZIP_STR_32B
  end.

Definition entry_ok (e : zlentry) : Prop := match e with ZlInt z => - 2 ^ 63 <= z < 2 ^ 63 | ZlStr _ => True end.

(** The possible encodings of an integer, with the values each one holds. *)
Lemma int_encoding_cases z (P : Z -> Prop) :
  (0 <= z <= 12 -> P (241 + z)) -> (- 2 ^ 7 <= z < 2 ^ 7 -> P ZIP_INT_8B) -> (- 2 ^ 15 <= z < 2 ^ 15 -> P ZIP_INT_16B) ->
  (- 2 ^ 23 <= z < 2 ^ 23 -> P ZIP_INT_24B) -> (- 2 ^ 31 <= z < 2 ^ 31 -> P ZIP_INT_32B) -> P ZIP_INT_64B ->
  P (int_encoding z).
Proof.
  intros H0 H1 H2 H3 H4 H5. unfold int_encoding, ZIP_INT_IMM_MIN.
  repeat match goal with |- P (if ?c then _ else _) => destruct c eqn:?H end; try done;
    match goal with H : _ && _ = true |- _ => apply andb_true_iff in H as [?%Z.leb_le ?%Z.leb_le] end;
    auto with lia.
Qed.

Lemma imm_values z : 0 <= z <= 12 -> z ∈ [0; 1; 2; 3; 4; 5; 6; 7; 8; 9; 10; 11; 12].
Proof. intros Hz. rewrite !elem_of_cons. lia. Qed.

Ltac each_imm H := apply imm_values in H; rewrite !elem_of_cons in H; destruct_or! H; [subst; try reflexivity..|by apply elem_of_nil in H].

Lemma int_encoding_range z : 192 <= int_encoding z < 255.
Proof. apply int_encoding_cases; intros; unfold ZIP_INT_8B, ZIP_INT_16B, ZIP_INT_24B, ZIP_INT_32B, ZIP_INT_64B; lia. Qed.

Lemma int_not_str z : ZIP_IS_STR (int_encoding z) = false.
Proof. apply int_encoding_cases; try (intros; reflexivity). intros H. by each_imm H. Qed.

Lemma int_size z : zipIntSize (int_encoding z) = Ok (blen (int_bytes z)).
Proof.
  unfold int_bytes. generalize (i32 (Z.shiftl z 8)). intros v.
  apply int_encoding_cases; try (intros; reflexivity). intros H. by each_imm H.
Qed.

Lemma int_bytes_byte z : Forall is_byte (int_bytes z).
Proof.
  unfold int_bytes. repeat case_match; try apply le_bytes_byte; [|constructor].
  apply Forall_drop, le_bytes_byte.
Qed.

(** The signed reading of the low bits of a number that fits. *)
Lemma wrap_mod bits z : 0 < bits -> - 2 ^ (bits - 1) <= z < 2 ^ (bits - 1) -> wrap bits (z mod 2 ^ bits) = z.
Proof.
  intros Hb Hz. unfold wrap. assert (2 ^ bits = 2 * 2 ^ (bits - 1)) as He.
  { rewrite <- Z.pow_succ_r by lia. f_equal. lia. }
  rewrite Zplus_mod_idemp_l, Z.mod_small; lia.
Qed.

(** Three bytes: the number is kept in the upper bytes of an int. *)
Lemma int24_shift z : - 2 ^ 23 <= z < 2 ^ 23 -> i32 (Z.shiftl z 8) = z * 256.
Proof. intros Hz. rewrite Z.shiftl_mul_pow2 by lia. apply i32_id. unfold int_range, INT_MIN, INT_MAX. lia. Qed.
Lemma int24_bytes z : - 2 ^ 23 <= z < 2 ^ 23 -> drop 1 (le_bytes 4 (i32 (Z.shiftl z 8))) = le_bytes 3 z.
Proof. intros Hz. rewrite int24_shift by done. cbn [le_bytes drop]. by rewrite Z.div_mul. Qed.
Lemma int24_load z : - 2 ^ 23 <= z < 2 ^ 23 -> Z.shiftr (i32 (Z.shiftl (z mod 2 ^ 24) 8)) 8 = z.
Proof.
  intros Hz. rewrite Z.shiftl_mul_pow2 by lia.
  replace (z mod 2 ^ 24 * 2 ^ 8) with ((z * 256) mod 2 ^ 32) by (rewrite Zmult_mod_distr_r with (c := 256) (b := 2 ^ 24); done).
  unfold i32. rewrite wrap_mod by lia. rewrite Z.shiftr_div_pow2 by lia. by rewrite Z.div_mul.
Qed.

Lemma load_at_wrap a n z c p : p = blen a -> (0 < n)%nat ->
  - 2 ^ (8 * Z.of_nat n - 1) <= z < 2 ^ (8 * Z.of_nat n - 1) ->
  (v ← load_le (a ++ le_bytes n z ++ c) p n; Ok (wrap (8 * Z.of_nat n) v)) = Ok z.
Proof.
  intros Hp Hn Hz. rewrite (load_le_split _ a (le_bytes n z) c) by (done || apply le_bytes_blen || apply le_bytes_byte).
  cbn [mbind res_bind]. rewrite le_val_bytes. change 256 with (2 ^ 8). rewrite <- Z.pow_mul_r, wrap_mod by lia. done.
Qed.

(** An integer is read back as it was stored. *)
Lemma zipLoadInteger_bytes a z c p : entry_ok (ZlInt z) -> p = blen a ->
  zipLoadInteger (a ++ int_bytes z ++ c) p (int_encoding z) = Ok z.
Proof.
  intros Hz Hp. unfold int_bytes. apply int_encoding_cases; [intros Hr..|]; unfold zipLoadInteger.
  - each_imm Hr.
  - exact (load_at_wrap a 1 z c p Hp ltac:(lia) Hr).
  - exact (load_at_wrap a 2 z c p Hp ltac:(lia) Hr).
  - rewrite int24_bytes by done. cbn -[load_le le_bytes i32 Z.shiftr Z.shiftl].
    rewrite (load_le_split _ a (le_bytes 3 z) c) by (done || apply le_bytes_byte). cbn [mbind res_bind].
    rewrite le_val_bytes. by rewrite int24_load.
  - exact (load_at_wrap a 4 z c p Hp ltac:(lia) Hr).
  - exact (load_at_wrap a 8 z c p Hp ltac:(lia) Hz).
Qed.

(** ** The encoding and the length *)

Lemma lor_shiftl a b k : 0 <= k -> 0 <= b < 2 ^ k -> Z.lor (Z.shiftl a k) b = a * 2 ^ k + b.
Proof.
  intros Hk Hb. pose proof (Z.add_lor_land (Z.shiftl a k) b) as Hs.
  assert (Z.land (Z.shiftl a k) b = 0) as Hl.
  { apply Z.bits_inj'. intros n Hn. rewrite Z.land_spec, Z.bits_0, Z.shiftl_spec by done.
    destruct (decide (n < k)); [rewrite Z.testbit_neg_r by lia; done|].
    rewrite <- (Z.mod_small b (2 ^ k)), Z.mod_pow2_bits_high by lia. apply andb_false_r. }
  rewrite Hl, Z.add_0_r, Z.shiftl_mul_pow2 in Hs by lia. rewrite Z.shiftl_mul_pow2 by lia. done.
Qed.
Lemma land_255 n : Z.land n 255 = n mod 2 ^ 8.
Proof. exact (Z.land_ones n 8 ltac:(lia)). Qed.
Lemma land_63 n : Z.land n 63 = n mod 2 ^ 6.
Proof. exact (Z.land_ones n 6 ltac:(lia)). Qed.
Lemma land_192 x : is_byte x -> Z.land x 192 = 64 * (x / 64).
Proof.
  intros Hx. assert (forallb (fun x => Z.land x 192 =? 64 * (x / 64)) (seqZ 0 256) = true) as H by reflexivity.
  apply Z.eqb_eq. apply (proj1 (List.forallb_forall _ _) H). apply list_elem_of_In, elem_of_seqZ. unfold is_byte in Hx. lia.
Qed.

(** The bytes that hold the length of a string. *)
Lemma str_head n : 0 <= n < 2 ^ 32 ->
  encoding_bytes 0 n =
  if n <=? 63 then [n] else if n <=? 16383 then [64 + n / 256; n mod 256]
  else [128; (n / 2 ^ 24) mod 256; (n / 2 ^ 16) mod 256; (n / 2 ^ 8) mod 256; n mod 256].
Proof.
  intros Hn. unfold encoding_bytes. cbn [ZIP_IS_STR Z.land Z.ltb Z.compare].
  destruct (Z.leb_spec n 63); [done|]. destruct (Z.leb_spec n 16383).
  - assert (0 <= n / 2 ^ 8 < 2 ^ 6) as Hd by (split; [apply Z.div_pos|apply Z.div_lt_upper_bound]; lia).
    rewrite Z.shiftr_div_pow2, land_255, land_63, (Z.mod_small (n / 2 ^ 8)) by lia.
    by rewrite (lor_shiftl 1 _ 6).
  - rewrite !Z.shiftr_div_pow2, !land_255 by lia. done.
Qed.

Lemma bytes_join b1 b2 b3 b4 : is_byte b1 -> is_byte b2 -> is_byte b3 -> is_byte b4 ->
  Z.lor (Z.lor (Z.lor (Z.shiftl b1 24) (Z.shiftl b2 16)) (Z.shiftl b3 8)) b4 =
  ((b1 * 2 ^ 8 + b2) * 2 ^ 8 + b3) * 2 ^ 8 + b4.
Proof.
  unfold is_byte. intros H1 H2 H3 H4.
  rewrite (lor_shiftl b1), (Z.shiftl_mul_pow2 b2) by (rewrite ?Z.shiftl_mul_pow2; lia).
  replace (b1 * 2 ^ 24 + b2 * 2 ^ 16) with (Z.shiftl (b1 * 2 ^ 8 + b2) 16) by (rewrite Z.shiftl_mul_pow2; lia).
  rewrite lor_shiftl, (Z.shiftl_mul_pow2 b3) by (rewrite ?Z.shiftl_mul_pow2; lia).
  replace (_ * 2 ^ 16 + b3 * 2 ^ 8) with (Z.shiftl ((b1 * 2 ^ 8 + b2) * 2 ^ 8 + b3) 8) by (rewrite Z.shiftl_mul_pow2; lia).
  by rewrite lor_shiftl by lia.
Qed.

Lemma bytes_joined n : 0 <= n < 2 ^ 32 ->
  (((n / 2 ^ 24) mod 256 * 2 ^ 8 + (n / 2 ^ 16) mod 256) * 2 ^ 8 + (n / 2 ^ 8) mod 256) * 2 ^ 8 + n mod 256 = n.
Proof.
  intros Hn. replace (n / 2 ^ 24) with (n / 256 / 256 / 256) by (by rewrite !Z.div_div).
  replace (n / 2 ^ 16) with (n / 256 / 256) by (by rewrite !Z.div_div).
  change (2 ^ 8) with 256. change (2 ^ 32) with (256 * 256 * 256 * 256) in Hn. Z.div_mod_to_equations. lia.
Qed.

Lemma byte_mod n : is_byte (n mod 256).
Proof. apply Z.mod_pos_bound. lia. Qed.

(** The encoding read from a first byte below 192. *)
Lemma str_encoding b c p x k : get b p = Ok x -> 0 <= x < 192 -> x / 64 = k -> c = 64 * k ->
  ZIP_ENTRY_ENCODING b p = Ok c.
Proof.
  intros Hg Hx Hk ->. unfold ZIP_ENTRY_ENCODING. rewrite Hg. cbn [mbind res_bind]. unfold ZIP_STR_MASK.
  rewrite (proj2 (Z.ltb_lt x 192)), land_192, Hk by (unfold is_byte; lia). done.
Qed.

Lemma decode_str a s c p : p = blen a -> blen (str_bytes s) < 2 ^ 32 ->
  ZIP_DECODE_LENGTH (a ++ e_head (ZlStr s) ++ c) p =
  Ok (e_seen (ZlStr s), blen (e_head (ZlStr s)), blen (str_bytes s)).
Proof.
  intros Hp Hn. unfold ZIP_DECODE_LENGTH. cbn [e_head e_seen].
  pose proof (blen_nonneg (str_bytes s)) as H0. set (n := blen (str_bytes s)) in *. rewrite str_head by lia.
  destruct (Z.leb_spec n 63) as [H1|H1]; [|destruct (Z.leb_spec n 16383) as [H2|H2]].
  - assert (get (a ++ [n] ++ c) p = Ok n) as Hg by (apply (byte_in _ _ _ p 0); [done|lia..]).
    rewrite (str_encoding _ 0 p n 0 Hg) by (try apply Z.div_small; lia). cbn [mbind res_bind].
    change (0 <? ZIP_STR_MASK) with true. change (0 =? ZIP_STR_06B) with true. cbv iota.
    rewrite Hg. cbn [mbind res_bind]. by rewrite land_63, Z.mod_small by lia.
  - assert (0 <= n / 256 < 64) as Hd by (split; [apply Z.div_pos|apply Z.div_lt_upper_bound]; lia).
    assert (get (a ++ [64 + n / 256; n mod 256] ++ c) p = Ok (64 + n / 256)) as Hg by (apply (byte_in _ _ _ p 0); [done|lia..]).
    rewrite (str_encoding _ 64 p _ 1 Hg) by (try (symmetry; apply (Z.div_unique _ _ _ (n / 256))); lia). cbn [mbind res_bind].
    change (64 <? ZIP_STR_MASK) with true. change (64 =? ZIP_STR_06B) with false. change (64 =? ZIP_STR_14B) with true. cbv iota.
    pose proof (byte_mod n) as Hm. unfold is_byte in Hm.
    rewrite Hg, (byte_in _ _ _ (p + 1) 1 (n mod 256)) by (done || lia). cbn [mbind res_bind].
    rewrite land_63, lor_shiftl by lia. rewrite <- (Z.add_mod_idemp_l 64) by lia. change (64 mod 2 ^ 6) with 0.
    rewrite (Z.mod_small (0 + _)) by lia. repeat f_equal. pose proof (Z.div_mod n 256 ltac:(lia)). lia.
  - assert (get (a ++ [128; (n / 2 ^ 24) mod 256; (n / 2 ^ 16) mod 256; (n / 2 ^ 8) mod 256; n mod 256] ++ c) p = Ok 128) as Hg
      by (apply (byte_in _ _ _ p 0); [done|lia..]).
    rewrite (str_encoding _ 128 p _ 2 Hg) by (done || lia). cbn [mbind res_bind].
    change (128 <? ZIP_STR_MASK) with true. change (128 =? ZIP_STR_06B) with false. change (128 =? ZIP_STR_14B) with false.
    change (128 =? ZIP_STR_32B) with true. cbv iota.
    pose proof (byte_mod (n / 2 ^ 24)) as B1. pose proof (byte_mod (n / 2 ^ 16)) as B2.
    pose proof (byte_mod (n / 2 ^ 8)) as B3. pose proof (byte_mod n) as B4.
    rewrite (byte_in _ _ _ (p + 1) 1 ((n / 2 ^ 24) mod 256)) by (done || unfold is_byte in *; lia).
    rewrite (byte_in _ _ _ (p + 2) 2 ((n / 2 ^ 16) mod 256)) by (done || unfold is_byte in *; lia).
    rewrite (byte_in _ _ _ (p + 3) 3 ((n / 2 ^ 8) mod 256)) by (done || unfold is_byte in *; lia).
    rewrite (byte_in _ _ _ (p + 4) 4 (n mod 256)) by (done || unfold is_byte in *; lia). cbn [mbind res_bind].
    rewrite bytes_join by done. unfold u32. rewrite bytes_joined by lia. rewrite Z.mod_small by lia. done.
Qed.

Lemma decode_length a e c p : p = blen a -> blen (e_data e) < 2 ^ 32 ->
  ZIP_DECODE_LENGTH (a ++ e_head e ++ c) p = Ok (e_seen e, blen (e_head e), blen (e_data e)).
Proof.
  destruct e as [z|s]; [|apply decode_str]. intros Hp Hn. unfold ZIP_DECODE_LENGTH, ZIP_ENTRY_ENCODING. cbn [e_head e_data e_seen].
  pose proof (int_encoding_range z) as Hr. assert (int_encoding z <? ZIP_STR_MASK = false) as Hf.
  { apply Z.ltb_ge. unfold ZIP_STR_MASK. lia. }
  rewrite (byte_in _ _ _ p 0 (int_encoding z)) by (done || lia). cbn [mbind res_bind]. rewrite Hf, Hf, int_size. done.
Qed.

(** ** The layout of entries *)

(** The length of the previous entry, in one byte or, when [big], in five. *)
Definition prev_bytes (big : bool) (prev : Z) : list Z := if big then ZIP_BIG_PREVLEN :: le_bytes 4 prev else [prev].
Definition psize (big : bool) : Z := if big then 5 else 1.
Definition fits (big : bool) (prev : Z) : Prop := 0 <= prev < 2 ^ 32 /\ (big = false -> prev < ZIP_BIG_PREVLEN).

Definition e_body (e : zlentry) : list Z := e_head e ++ e_data e.
Definition ecells (big : bool) (prev : Z) (e : zlentry) : list Z := prev_bytes big prev ++ e_body e.
Definition esize (big : bool) (e : zlentry) : Z := psize big + blen (e_body e).

(** The entries [l], each with the size of its field for the previous length;
    [prev] is what the first of them holds there. *)
Notation elist := (list (bool * zlentry)).
Fixpoint elayout (prev : Z) (l : elist) : list Z :=
  match l with [] => [] | (big, e) :: l => ecells big prev e ++ elayout (esize big e) l end.
Fixpoint laid (prev : Z) (l : elist) : Prop :=
  match l with [] => True | (big, e) :: l => fits big prev /\ entry_ok e /\ laid (esize big e) l end.
Fixpoint size (l : elist) : Z := match l with [] => 0 | (big, e) :: l => esize big e + size l end.
Fixpoint lsize (prev : Z) (l : elist) : Z := match l with [] => prev | (big, e) :: l => lsize (esize big e) l end.

Lemma prev_bytes_blen big prev : blen (prev_bytes big prev) = psize big.
Proof. by destruct big. Qed.
Lemma ecells_blen big prev e : blen (ecells big prev e) = esize big e.
Proof. unfold ecells, esize. by rewrite blen_app, prev_bytes_blen. Qed.
Lemma elayout_blen prev l : blen (elayout prev l) = size l.
Proof. revert prev. induction l as [|[big e] l IH]; intros prev; cbn; [done|]. by rewrite blen_app, ecells_blen, IH. Qed.
Lemma esize_pos big e : 2 <= esize big e.
Proof.
  assert (1 <= blen (e_head e)) as Hh.
  { destruct e as [z|s]; cbn; [done|]. unfold encoding_bytes. repeat case_match; unfold blen; cbn; lia. }
  unfold esize, e_body. rewrite blen_app. pose proof (blen_nonneg (e_data e)). destruct big; cbn; lia.
Qed.
Lemma size_nonneg l : 2 * Z.of_nat (length l) <= size l.
Proof. induction l as [|[big e] l IH]; cbn [length size]; [done|]. pose proof (esize_pos big e). lia. Qed.

Lemma elayout_app prev l1 l2 : elayout prev (l1 ++ l2) = elayout prev l1 ++ elayout (lsize prev l1) l2.
Proof. revert prev. induction l1 as [|[big e] l1 IH]; intros prev; cbn; [done|]. by rewrite IH, <- app_assoc. Qed.
Lemma laid_app prev l1 l2 : laid prev (l1 ++ l2) <-> laid prev l1 /\ laid (lsize prev l1) l2.
Proof. revert prev. induction l1 as [|[big e] l1 IH]; intros prev; cbn; [tauto|]. rewrite IH. tauto. Qed.
Lemma lsize_app prev l1 l2 : lsize prev (l1 ++ l2) = lsize (lsize prev l1) l2.
Proof. revert prev. induction l1 as [|[big e] l1 IH]; intros prev; cbn; [done|]. by rewrite IH. Qed.
Lemma size_app l1 l2 : size (l1 ++ l2) = size l1 + size l2.
Proof. induction l1 as [|[big e] l1 IH]; cbn; [done|]. rewrite IH. lia. Qed.

(** ** Reading an entry *)

Definition info (big : bool) (prev : Z) (e : zlentry) (p : Z) : entry_info :=
  mkInfo (psize big) prev (blen (e_head e)) (blen (e_data e)) (psize big + blen (e_head e)) (e_seen e) p.

Lemma info_size big prev e p : headersize (info big prev e p) + len (info big prev e p) = esize big e.
Proof. cbn. unfold esize, e_body. rewrite blen_app. lia. Qed.

(** A block with an entry at [p]. *)
Definition has_entry (zl : block) (p : Z) (big : bool) (prev : Z) (e : zlentry) : Prop :=
  exists a c, zl = a ++ ecells big prev e ++ c /\ p = blen a /\ fits big prev /\ entry_ok e /\ esize big e < 2 ^ 32.

Lemma data_small big e : esize big e < 2 ^ 32 -> blen (e_data e) < 2 ^ 32.
Proof. unfold esize, e_body. rewrite blen_app. pose proof (blen_nonneg (e_head e)). destruct big; cbn; lia. Qed.

Lemma entry_first zl p big prev e : has_entry zl p big prev e ->
  get zl p = Ok (if big then ZIP_BIG_PREVLEN else prev) /\ ((if big then ZIP_BIG_PREVLEN else prev) =? ZIP_END) = false.
Proof.
  intros (a & c & -> & -> & [Hp Hb] & _). unfold ecells. rewrite <- app_assoc. split.
  - apply (byte_in _ _ _ _ 0); [by destruct big|destruct big; unfold ZIP_BIG_PREVLEN; lia|lia].
  - apply Z.eqb_neq. destruct big; [done|]. specialize (Hb eq_refl). unfold ZIP_BIG_PREVLEN, ZIP_END in *. lia.
Qed.

Lemma entry_prevlensize zl p big prev e : has_entry zl p big prev e -> ZIP_DECODE_PREVLENSIZE zl p = Ok (psize big).
Proof.
  intros He. unfold ZIP_DECODE_PREVLENSIZE. rewrite (proj1 (entry_first _ _ _ _ _ He)). cbn [mbind res_bind].
  destruct big; [done|]. destruct He as (_ & _ & _ & _ & [_ Hb] & _). by rewrite (proj2 (Z.ltb_lt _ _) (Hb eq_refl)).
Qed.

Lemma entry_prevlen zl p big prev e : has_entry zl p big prev e -> ZIP_DECODE_PREVLEN zl p = Ok (psize big, prev).
Proof.
  intros He. unfold ZIP_DECODE_PREVLEN. rewrite (entry_prevlensize _ _ _ _ _ He). cbn [mbind res_bind].
  destruct big; cbn [psize Z.eqb Pos.eqb]; [|by rewrite (proj1 (entry_first _ _ _ _ _ He))].
  destruct He as (a & c & -> & -> & [Hp _] & _). unfold ecells. cbn [prev_bytes].
  rewrite (load_le_split _ (a ++ [ZIP_BIG_PREVLEN]) (le_bytes 4 prev) (e_body e ++ c)).
  - cbn [mbind res_bind]. rewrite le_val_bytes, Z.mod_small by lia. done.
  - by rewrite <- !app_assoc.
  - by rewrite blen_app.
  - apply le_bytes_blen.
  - apply le_bytes_byte.
Qed.

Lemma entry_length zl p big prev e : has_entry zl p big prev e ->
  ZIP_DECODE_LENGTH zl (p + psize big) = Ok (e_seen e, blen (e_head e), blen (e_data e)).
Proof.
  intros (a & c & -> & -> & _ & _ & Hs). unfold ecells, e_body.
  rewrite <- !app_assoc, (app_assoc a). apply decode_length; [by rewrite blen_app, prev_bytes_blen|by eapply data_small].
Qed.

Lemma entry_read zl p big prev e : has_entry zl p big prev e -> zipEntry zl p = Ok (info big prev e p).
Proof.
  intros He. unfold zipEntry. rewrite (entry_prevlen _ _ _ _ _ He). cbn [mbind res_bind].
  by rewrite (entry_length _ _ _ _ _ He).
Qed.

Lemma entry_rawlen zl p big prev e : has_entry zl p big prev e -> zipRawEntryLength zl p = Ok (esize big e).
Proof.
  intros He. unfold zipRawEntryLength. rewrite (entry_prevlensize _ _ _ _ _ He). cbn [mbind res_bind].
  rewrite (entry_length _ _ _ _ _ He). cbn [mbind res_bind]. destruct He as (_ & _ & _ & _ & _ & _ & Hs).
  pose proof (esize_pos big e). rewrite u32_id; unfold esize, e_body in *; rewrite blen_app in *; [f_equal|]; lia.
Qed.

Lemma entry_diff zl p big prev e n : has_entry zl p big prev e ->
  zipPrevLenByteDiff zl p n = Ok (zipStorePrevEntryLength_size n - psize big).
Proof. intros He. unfold zipPrevLenByteDiff. by rewrite (entry_prevlensize _ _ _ _ _ He). Qed.

Lemma has_entry_at a c big prev e p : p = blen a -> fits big prev -> entry_ok e -> esize big e < 2 ^ 32 ->
  has_entry (a ++ ecells big prev e ++ c) p big prev e.
Proof. intros -> Hf He Hs. exists a, c. done. Qed.

Lemma laid_entry prev l i big e : laid prev l -> l !! i = Some (big, e) ->
  fits big (lsize prev (take i l)) /\ entry_ok e /\ esize big e <= size l.
Proof.
  intros Hl Hi. apply list_elem_of_split_length in Hi as (l1 & l2 & -> & ->). apply laid_app in Hl as [_ Hl].
  rewrite take_app_length. destruct Hl as (Hf & He & _). split_and!; [done..|].
  rewrite size_app. cbn [size]. pose proof (size_nonneg l1). pose proof (size_nonneg l2). lia.
Qed.

Lemma has_entry_in a prev l c i big e p : laid prev l -> l !! i = Some (big, e) -> size l < 2 ^ 32 ->
  p = blen a + size (take i l) ->
  has_entry (a ++ elayout prev l ++ c) p big (lsize prev (take i l)) e.
Proof.
  intros Hl Hi Hs ->. destruct (laid_entry _ _ _ _ _ Hl Hi) as (Hf & He & Hz).
  apply list_elem_of_split_length in Hi as (l1 & l2 & -> & ->). rewrite take_app_length in *.
  exists (a ++ elayout prev l1), (elayout (esize big e) l2 ++ c). split_and!; [|by rewrite blen_app, elayout_blen|done|done|lia].
  rewrite elayout_app. cbn [elayout]. by rewrite <- !app_assoc.
Qed.

(** ** The header and the end *)

Definition hd (bytes tail count : Z) : list Z := le_bytes 4 bytes ++ le_bytes 4 tail ++ le_bytes 2 count.

Lemma hd_blen n t c : blen (hd n t c) = 10.
Proof. done. Qed.

Lemma hd_bytes n t c r : ZIPLIST_BYTES (hd n t c ++ r) = Ok (u32 n).
Proof.
  unfold ZIPLIST_BYTES, hd. rewrite (load_le_split _ [] (le_bytes 4 n) (le_bytes 4 t ++ le_bytes 2 c ++ r));
    [by rewrite le_val_bytes|by rewrite <- !app_assoc|done|apply le_bytes_blen|apply le_bytes_byte].
Qed.
Lemma hd_tail n t c r : ZIPLIST_TAIL_OFFSET (hd n t c ++ r) = Ok (u32 t).
Proof.
  unfold ZIPLIST_TAIL_OFFSET, hd. rewrite (load_le_split _ (le_bytes 4 n) (le_bytes 4 t) (le_bytes 2 c ++ r));
    [by rewrite le_val_bytes|by rewrite <- !app_assoc|done|apply le_bytes_blen|apply le_bytes_byte].
Qed.
Lemma hd_length n t c r : ZIPLIST_LENGTH (hd n t c ++ r) = Ok (c mod 2 ^ 16).
Proof.
  unfold ZIPLIST_LENGTH, hd. rewrite (load_le_split _ (le_bytes 4 n ++ le_bytes 4 t) (le_bytes 2 c) r);
    [by rewrite le_val_bytes|by rewrite <- !app_assoc|done|apply le_bytes_blen|apply le_bytes_byte].
Qed.
Lemma hd_set_bytes n t c r v : set_bytes (hd n t c ++ r) v = Ok (hd v t c ++ r).
Proof. exact (put_split _ [] (le_bytes 4 n) (le_bytes 4 t ++ le_bytes 2 c ++ r) 0 (le_bytes 4 v) eq_refl eq_refl eq_refl). Qed.
Lemma hd_set_tail n t c r v : set_tail (hd n t c ++ r) v = Ok (hd n v c ++ r).
Proof. exact (put_split _ (le_bytes 4 n) (le_bytes 4 t) (le_bytes 2 c ++ r) 4 (le_bytes 4 v) eq_refl eq_refl eq_refl). Qed.
Lemma hd_set_length n t c r v : set_length (hd n t c ++ r) v = Ok (hd n t v ++ r).
Proof. exact (put_split _ (le_bytes 4 n ++ le_bytes 4 t) (le_bytes 2 c) r 8 (le_bytes 2 v) eq_refl eq_refl eq_refl). Qed.

(** A larger block: some cells of no use, which start with the old end marker,
    then the end marker. *)
Definition spare (k : Z) : list Z := take (Z.to_nat k) ([ZIP_END] ++ replicate (Z.to_nat k) UNWRITTEN).

Lemma spare_blen k : 0 <= k -> blen (spare k) = k.
Proof. intros Hk. unfold spare, blen. rewrite length_take, length_app, length_replicate. cbn. lia. Qed.

Lemma resize_more n t c r k : n = 11 + blen r -> 0 <= k -> n + k < 2 ^ 32 ->
  ziplistResize (hd n t c ++ r ++ [ZIP_END]) (n + k) = Ok (hd (n + k) t c ++ r ++ spare k ++ [ZIP_END]).
Proof.
  intros Hn Hk Hb. pose proof (blen_nonneg r). unfold spare. set (j := [ZIP_END] ++ replicate (Z.to_nat k) UNWRITTEN).
  assert (length j = S (Z.to_nat k)) as Hj by (unfold j; rewrite length_app, length_replicate; done).
  unfold ziplistResize. rewrite u32_id by lia.
  assert (blen (hd n t c ++ r ++ [ZIP_END]) = n) as Hl by (rewrite !blen_app, hd_blen, (blen_cons ZIP_END), blen_nil; lia).
  rewrite zrealloc_more, Hl by lia. replace (n + k - n) with k by lia. rewrite <- !app_assoc. fold j.
  rewrite hd_set_bytes. cbn [mbind res_bind].
  rewrite (put_split _ (hd (n + k) t c ++ r ++ take (Z.to_nat k) j) (drop (Z.to_nat k) j) []).
  - by rewrite <- !app_assoc.
  - by rewrite app_nil_r, <- !app_assoc, take_drop.
  - rewrite !blen_app, hd_blen. unfold blen in *. rewrite length_take. lia.
  - unfold blen. rewrite length_drop, Hj. cbn. lia.
Qed.

(** A smaller block: what does not fit is lost. *)
Lemma resize_less n t c r j v : v = 11 + blen r -> v < 2 ^ 32 -> blen j <> 0 ->
  ziplistResize (hd n t c ++ r ++ j) v = Ok (hd v t c ++ r ++ [ZIP_END]).
Proof.
  intros Hv Hb Hj. pose proof (blen_nonneg r). destruct j as [|x j]; [done|].
  unfold ziplistResize. rewrite u32_id by lia.
  replace (hd n t c ++ r ++ x :: j) with ((hd n t c ++ r ++ [x]) ++ j) by (by rewrite <- !app_assoc).
  replace v with (blen (hd n t c ++ r ++ [x])) at 1 by (rewrite !blen_app, hd_blen, (blen_cons x), blen_nil; lia).
  rewrite zrealloc_less, hd_set_bytes. cbn [mbind res_bind].
  rewrite (put_split _ (hd v t c ++ r) [x] []); [by rewrite <- !app_assoc|by rewrite <- !app_assoc|rewrite blen_app, hd_blen; lia|done].
Qed.
