(* ===== verification/ZiplistEdit.v ===== *)
(** * Changing a ziplist

    The cascade of length updates, insertion and deletion on the bytes, and the
    entries they leave. *)

From S2P Require Import Prelude Sds Double Util Zset Bytes Ziplist ZiplistSpec.
From Stdlib Require Import Ascii.
Import Blob.

Definition large (n : Z) : bool := ZIP_BIG_PREVLEN <=? n.

Lemma prev_size n : zipStorePrevEntryLength_size n = psize (large n).
Proof.
  unfold zipStorePrevEntryLength_size, large. destruct (Z.ltb_spec n ZIP_BIG_PREVLEN), (Z.leb_spec ZIP_BIG_PREVLEN n); done || lia.
Qed.
Lemma large_fits n : 0 <= n < 2 ^ 32 -> fits (large n) n.
Proof. intros Hn. split; [done|]. unfold large. intros H%Z.leb_gt. done. Qed.
Lemma true_fits n : 0 <= n < 2 ^ 32 -> fits true n.
Proof. by split. Qed.

Lemma store_large a x c n p : p = blen a -> blen x = 5 ->
  zipStorePrevEntryLengthLarge (a ++ x ++ c) p n = Ok (a ++ prev_bytes true n ++ c, 5).
Proof.
  intros -> Hx. destruct x as [|x0 x]; [done|]. rewrite blen_cons in Hx. unfold zipStorePrevEntryLengthLarge.
  rewrite (put_split _ a [x0] (x ++ c)) by done. cbn [mbind res_bind].
  rewrite (put_split _ (a ++ [ZIP_BIG_PREVLEN]) x c); [cbn [mbind res_bind]; by rewrite <- !app_assoc| | |].
  - by rewrite <- !app_assoc.
  - by rewrite blen_app.
  - rewrite le_bytes_blen. lia.
Qed.

Lemma store_prev a x c n p : p = blen a -> blen x = psize (large n) ->
  zipStorePrevEntryLength (a ++ x ++ c) p n = Ok (a ++ prev_bytes (large n) n ++ c, psize (large n)).
Proof.
  intros Hp Hx. unfold zipStorePrevEntryLength, large in *.
  destruct (Z.ltb_spec n ZIP_BIG_PREVLEN), (Z.leb_spec ZIP_BIG_PREVLEN n); try lia.
  - by rewrite (put_split _ a x c).
  - by apply store_large.
Qed.

(** The last entry stays in its place behind the others. *)
Lemma size_removelast b e l : size (removelast ((b, e) :: l)) = match l with [] => 0 | _ => esize b e + size (removelast l) end.
Proof. by destruct l as [|[] l]. Qed.
Lemma size_removelast_le l : 0 <= size (removelast l) <= size l.
Proof.
  induction l as [|[b e] l IH]; [done|]. rewrite size_removelast. cbn [size]. pose proof (esize_pos b e). pose proof (size_nonneg l).
  destruct l; lia.
Qed.

(** ** The cascade *)

(** The entry [(b, e)] at the cursor has its final size; the next one may still
    hold another length, [q]. *)
Definition casc (mid : list Z) (b : bool) (x : Z) (e : zlentry) (q : Z) (l : elist) (cnt : Z) : block :=
  hd (11 + blen mid + esize b e + size l) (10 + blen mid + size (removelast ((b, e) :: l))) cnt ++
  mid ++ ecells b x e ++ elayout q l ++ [ZIP_END].

Lemma casc_cur mid b x e q l cnt : fits b x -> entry_ok e -> esize b e < 2 ^ 32 ->
  has_entry (casc mid b x e q l cnt) (10 + blen mid) b x e.
Proof. intros Hf He Hs. unfold casc. rewrite (app_assoc (hd _ _ _)). apply has_entry_at; try done. by rewrite blen_app, hd_blen. Qed.

Lemma casc_next mid b x e q b2 e2 l cnt : fits b2 q -> entry_ok e2 -> esize b2 e2 < 2 ^ 32 ->
  has_entry (casc mid b x e q ((b2, e2) :: l) cnt) (10 + blen mid + esize b e) b2 q e2.
Proof.
  intros Hf He Hs. unfold casc. cbn [elayout]. rewrite <- (app_assoc (ecells b2 _ _)), (app_assoc mid), (app_assoc (hd _ _ _)).
  apply has_entry_at; try done. rewrite !blen_app, ecells_blen, hd_blen. lia.
Qed.

Lemma casc_end mid b x e q cnt : get (casc mid b x e q [] cnt) (10 + blen mid + esize b e) = Ok ZIP_END.
Proof.
  unfold casc. cbn [elayout app]. rewrite (app_assoc mid), (app_assoc (hd _ _ _)).
  apply (byte_split _ _ ZIP_END [] _ eq_refl); [|done]. rewrite !blen_app, ecells_blen, hd_blen. lia.
Qed.

(** The block up to the length field of the next entry, the field, the rest. *)
Lemma casc_focus mid b x e q b2 e2 l cnt :
  casc mid b x e q ((b2, e2) :: l) cnt =
  (hd (11 + blen mid + esize b e + size ((b2, e2) :: l)) (10 + blen mid + size (removelast ((b, e) :: (b2, e2) :: l))) cnt ++
   mid ++ ecells b x e) ++ prev_bytes b2 q ++ e_body e2 ++ elayout (esize b2 e2) l ++ [ZIP_END].
Proof. unfold casc. cbn [elayout]. unfold ecells at 2. by rewrite <- !app_assoc. Qed.

Lemma casc_focus_blen n t cnt mid b x e : blen (hd n t cnt ++ mid ++ ecells b x e) = 10 + blen mid + esize b e.
Proof. rewrite !blen_app, hd_blen, ecells_blen. lia. Qed.

(** A new length in the room there is. *)
Lemma casc_store mid b x e q b2 e2 l cnt n : large n = b2 ->
  ('(zl, _) ← zipStorePrevEntryLength (casc mid b x e q ((b2, e2) :: l) cnt) (10 + blen mid + esize b e) n; Ok zl) =
  Ok (casc mid b x e n ((b2, e2) :: l) cnt).
Proof.
  intros <-. rewrite !casc_focus, store_prev by (by rewrite ?casc_focus_blen, ?prev_bytes_blen). done.
Qed.
Lemma casc_store_large mid b x e q e2 l cnt n :
  ('(zl, _) ← zipStorePrevEntryLengthLarge (casc mid b x e q ((true, e2) :: l) cnt) (10 + blen mid + esize b e) n; Ok zl) =
  Ok (casc mid b x e n ((true, e2) :: l) cnt).
Proof. rewrite !casc_focus, store_large by (by rewrite ?casc_focus_blen, ?prev_bytes_blen). done. Qed.

(** The next entry grows: a larger block, the rest moved, the length stored in
    five bytes, and the cursor on the next entry. *)
Lemma casc_grow mid b x e q e2 l cnt n (k : block -> res block) :
  let curlen := 11 + blen mid + esize b e + size ((false, e2) :: l) in
  let np := 10 + blen mid + esize b e in
  curlen + 4 < 2 ^ 32 -> large n = true ->
  (zl ← ziplistResize (casc mid b x e q ((false, e2) :: l) cnt) (curlen + 4);
   tail ← ZIPLIST_TAIL_OFFSET zl;
   zl ← (if negb (tail =? np) then set_tail zl (tail + 4) else Ok zl);
   zl ← memmove zl (np + 5) (np + 1) (curlen - np - 1 - 1);
   '(zl, _) ← zipStorePrevEntryLength zl np n;
   k zl) = k (casc (mid ++ ecells b x e) true n e2 (esize false e2) l cnt).
Proof.
  intros curlen np Hb Hn. unfold casc.
  pose proof (size_removelast_le ((false, e2) :: l)) as Ht. pose proof (size_nonneg l). pose proof (blen_nonneg mid).
  pose proof (esize_pos b e). pose proof (size_removelast_le l). pose proof (esize_pos false e2).
  set (t := 10 + blen mid + size (removelast ((b, e) :: (false, e2) :: l))).
  set (t' := 10 + blen (mid ++ ecells b x e) + size (removelast ((true, e2) :: l))).
  assert (blen (spare 4) = 4) as Hy by done. set (y := spare 4) in Hy.
  pose proof (resize_more curlen t cnt (mid ++ ecells b x e ++ elayout q ((false, e2) :: l)) 4
    ltac:(rewrite !blen_app, ecells_blen, elayout_blen; unfold curlen; lia) ltac:(lia) Hb) as Hr. fold y in Hr.
  rewrite <- !app_assoc in Hr. fold curlen. rewrite Hr. cbn [mbind res_bind].
  rewrite hd_tail, u32_id by (unfold t, curlen in *; rewrite size_removelast; cbn [size] in *; lia). cbn [mbind res_bind].
  assert (forall r, (if negb (t =? np) then set_tail (hd (curlen + 4) t cnt ++ r) (t + 4) else Ok (hd (curlen + 4) t cnt ++ r)) =
    Ok (hd (curlen + 4) t' cnt ++ r)) as ->.
  { intros r. unfold t, t', np. rewrite !size_removelast, blen_app, ecells_blen. destruct l as [|e3 l].
    - rewrite (proj2 (Z.eqb_eq _ _)) by lia. cbn [negb]. do 3 f_equal. lia.
    - rewrite (proj2 (Z.eqb_neq _ _)) by lia. cbn [negb]. rewrite hd_set_tail. do 3 f_equal. unfold esize, psize. lia. }
  cbn [mbind res_bind elayout]. unfold ecells at 2.
  assert (hd (curlen + 4) t' cnt ++ mid ++ ecells b x e ++ ((prev_bytes false q ++ e_body e2) ++ elayout (esize false e2) l) ++ y ++ [ZIP_END] =
    (hd (curlen + 4) t' cnt ++ mid ++ ecells b x e) ++ prev_bytes false q ++ (e_body e2 ++ elayout (esize false e2) l) ++ y ++ [ZIP_END]) as ->
    by (by rewrite <- !app_assoc).
  rewrite memmove_right.
  2, 3: rewrite casc_focus_blen, prev_bytes_blen; unfold np; cbn [psize]; lia.
  2: { rewrite blen_app, elayout_blen. unfold curlen, np. cbn [size]. unfold esize at 2. cbn [psize]. lia. }
  cbn [mbind res_bind]. rewrite <- (app_assoc (hd _ _ _ ++ _)), store_prev, Hn.
  2: by rewrite casc_focus_blen.
  2: { rewrite Hn. unfold blen in *. rewrite length_app, length_take, !length_app. cbn. lia. }
  cbn [mbind res_bind]. f_equal. rewrite <- !app_assoc. f_equal.
  unfold t', curlen. f_equal. rewrite blen_app, ecells_blen. cbn [size]. unfold esize at 2 4. cbn [psize]. lia.
Qed.

(** The cursor one entry further. *)
Lemma casc_step mid b x e b2 e2 l cnt :
  casc (mid ++ ecells b x e) b2 (esize b e) e2 (esize b2 e2) l cnt = casc mid b x e (esize b e) ((b2, e2) :: l) cnt.
Proof.
  unfold casc. cbn [elayout]. rewrite <- !app_assoc, blen_app, ecells_blen, (size_removelast b). f_equal. f_equal; cbn [size]; lia.
Qed.

Lemma cascade_fixes l fuel mid b x e q cnt : (length l < fuel)%nat -> fits b x -> entry_ok e -> laid q l ->
  11 + blen mid + esize b e + size l + 4 * Z.of_nat (length l) < 2 ^ 32 ->
  exists l', l'.*2 = l.*2 /\ laid (esize b e) l' /\ size l' <= size l + 4 * Z.of_nat (length l) /\
    cascade fuel (casc mid b x e q l cnt) (10 + blen mid) (11 + blen mid + esize b e + size l) =
    Ok (casc mid b x e (esize b e) l' cnt).
Proof.
  revert fuel mid b x e q. induction l as [|[b2 e2] l IH]; intros [|fuel] mid b x e q Hfuel Hf He Hl Hs; try (cbn in Hfuel; lia);
    pose proof (esize_pos b e); pose proof (blen_nonneg mid).
  - exists []. split_and!; [done..|]. cbn [cascade size length] in *.
    destruct (entry_first _ _ _ _ _ (casc_cur mid b x e q [] cnt Hf He ltac:(lia))) as [Hg Hne].
    rewrite Hg. cbn [mbind res_bind]. rewrite Hne, (entry_read _ _ _ _ _ (casc_cur mid b x e q [] cnt Hf He ltac:(lia))).
    cbn [mbind res_bind]. rewrite info_size, u32_id, casc_end by lia. done.
  - destruct Hl as (Hf2 & He2 & Hl). cbn [length] in Hs. cbn [size] in Hs. pose proof (size_nonneg l). pose proof (esize_pos b2 e2).
    pose proof (casc_cur mid b x e q ((b2, e2) :: l) cnt Hf He ltac:(lia)) as Hcur.
    pose proof (casc_next mid b x e q b2 e2 l cnt Hf2 He2 ltac:(lia)) as Hnext.
    destruct (entry_first _ _ _ _ _ Hcur) as [Hg Hne]. destruct (entry_first _ _ _ _ _ Hnext) as [Hg2 Hne2].
    cbn [cascade]. rewrite Hg. cbn [mbind res_bind]. rewrite Hne, (entry_read _ _ _ _ _ Hcur). cbn [mbind res_bind].
    rewrite info_size, u32_id, Hg2 by lia. cbn [mbind res_bind]. rewrite Hne2, (entry_read _ _ _ _ _ Hnext), prev_size.
    cbn [mbind res_bind info prevrawlen prevrawlensize].
    destruct (Z.eqb_spec q (esize b e)) as [->|Hq]; [exists ((b2, e2) :: l); split_and!; [done..|lia|done]|].
    destruct b2; [|destruct (large (esize b e)) eqn:Hlg].
    + exists ((true, e2) :: l). split_and!; [done|by split_and!; [apply true_fits; lia|..]|cbn [length size]; lia|].
      destruct (large (esize b e)) eqn:Hlg; [by apply casc_store|apply casc_store_large].
    + destruct (IH fuel (mid ++ ecells b x e) true (esize b e) e2 (esize false e2)) as (l' & Hm & Hl' & Hs' & Hc).
      { cbn in Hfuel. lia. } { apply true_fits. lia. } { done. } { done. }
      { rewrite blen_app, ecells_blen. unfold esize at 2. unfold esize in Hs at 2. cbn [psize] in *. lia. }
      exists ((true, e2) :: l'). split_and!; [by rewrite !fmap_cons, Hm|by split_and!; [apply true_fits; lia|..]| |].
      { cbn [length size]. unfold esize. cbn [psize]. lia. }
      etransitivity; [refine (casc_grow mid b x e q e2 l cnt (esize b e)
        (fun zl => cascade fuel zl (10 + blen mid + esize b e) (11 + blen mid + esize b e + size ((false, e2) :: l) + 4)) _ Hlg)|].
      { cbn [size]. lia. }
      rewrite casc_step in Hc. rewrite blen_app, ecells_blen in Hc. rewrite <- Hc.
      f_equal; [lia|]. cbn [size]. unfold esize at 2 4. cbn [psize]. lia.
    + exists ((false, e2) :: l). split_and!; [done|split_and!; [|done..]|cbn [length size]; lia|by apply casc_store].
      rewrite <- Hlg. apply large_fits. lia.
Qed.

Lemma cascade_update l mid b x e q cnt p : fits b x -> entry_ok e -> laid q l -> p = 10 + blen mid ->
  11 + blen mid + esize b e + size l + 4 * Z.of_nat (length l) < 2 ^ 32 ->
  exists l', l'.*2 = l.*2 /\ laid (esize b e) l' /\ size l' <= size l + 4 * Z.of_nat (length l) /\
    __ziplistCascadeUpdate (casc mid b x e q l cnt) p = Ok (casc mid b x e (esize b e) l' cnt).
Proof.
  intros Hf He Hl -> Hs. pose proof (size_nonneg l). pose proof (blen_nonneg mid). pose proof (esize_pos b e).
  destruct (cascade_fixes l (S (length (casc mid b x e q l cnt))) mid b x e q cnt) as (l' & Hm & Hl' & Hs' & Hc); try done.
  { pose proof (eq_refl (blen (casc mid b x e q l cnt))) as Hb. unfold casc in Hb at 2.
    rewrite !blen_app, elayout_blen, ecells_blen, hd_blen, (blen_cons ZIP_END), blen_nil in Hb. unfold blen in Hb at 1. lia. }
  exists l'. split_and!; try done. unfold __ziplistCascadeUpdate.
  assert (ZIPLIST_BYTES (casc mid b x e q l cnt) = Ok (11 + blen mid + esize b e + size l)) as ->
    by (unfold casc; rewrite hd_bytes, u32_id by lia; done).
  exact Hc.
Qed.

(** The byte after some entries: the end, or the start of another entry. *)
Lemma next_first a q l p : laid q l -> size l < 2 ^ 32 -> p = blen a ->
  exists x, get (a ++ elayout q l ++ [ZIP_END]) p = Ok x /\ (x =? ZIP_END) = match l with [] => true | _ => false end.
Proof.
  intros Hl Hs ->. destruct l as [|[b e] l].
  - exists ZIP_END. split; [|done]. by apply (byte_split _ a ZIP_END []).
  - assert (has_entry (a ++ elayout q ((b, e) :: l) ++ [ZIP_END]) (blen a) b q e) as He.
    { apply (has_entry_in a q ((b, e) :: l) [ZIP_END] 0); try done. cbn. lia. }
    apply entry_first in He as [Hg Hne]. by eexists.
Qed.

(** The tail offset is adjusted when the entry at [pos] is not the last one. *)
Lemma adjust_tail n t cnt mid b x e q l d pos (off : entry_info -> Z) :
  fits b x -> entry_ok e -> laid q l -> esize b e < 2 ^ 32 -> size l < 2 ^ 32 -> pos = 10 + blen mid -> 0 <= t < 2 ^ 32 ->
  off (info b x e pos) = pos + esize b e ->
  let zl := hd n t cnt ++ mid ++ ecells b x e ++ elayout q l ++ [ZIP_END] in
  (e ← zipEntry zl pos; b ← get zl (off e);
   if negb (b =? ZIP_END) then tail ← ZIPLIST_TAIL_OFFSET zl; set_tail zl (tail + d) else Ok zl) =
  Ok (hd n (match l with [] => t | _ => t + d end) cnt ++ mid ++ ecells b x e ++ elayout q l ++ [ZIP_END]).
Proof.
  intros Hf He Hl Hs1 Hs2 -> Ht Ho. cbv zeta.
  assert (blen (hd n t cnt ++ mid) = 10 + blen mid) as Hp by (by rewrite blen_app, hd_blen).
  rewrite (app_assoc (hd n t cnt)), (entry_read _ _ b x e) by (by apply has_entry_at). cbn [mbind res_bind].
  rewrite Ho, (app_assoc (hd n t cnt ++ mid)).
  destruct (next_first ((hd n t cnt ++ mid) ++ ecells b x e) q l (10 + blen mid + esize b e) Hl Hs2) as (y & Hg & Hy).
  { by rewrite blen_app, ecells_blen, Hp. }
  rewrite Hg. cbn [mbind res_bind]. rewrite Hy, <- !app_assoc. destruct l; cbn [negb]; [done|].
  rewrite hd_tail, u32_id by done. cbn [mbind res_bind]. by rewrite hd_set_tail.
Qed.

(** ** Insertion: making room *)

(** The entries from the cursor on are moved by [n]; the first of them gets the
    new length [n], in a field that is [d] bytes larger. *)
Lemma make_room l1 b2 e2 l2 cnt n d (fl : bool) B2 prev :
  let p := 10 + size l1 in
  let curlen := 11 + size l1 + size ((b2, e2) :: l2) in
  B2 = (if fl then true else large n) -> psize B2 = psize b2 + d -> 2 <= n -> 0 <= n + d -> entry_ok e2 ->
  laid (esize b2 e2) l2 ->
  curlen + n + 4 < 2 ^ 32 ->
  exists g, blen g = n /\
  (zl ← memmove (hd (curlen + n + d) (10 + size (removelast (l1 ++ (b2, e2) :: l2))) cnt ++
     elayout 0 l1 ++ elayout prev ((b2, e2) :: l2) ++ spare (n + d) ++ [ZIP_END]) (p + n) (p - d) (curlen - p - 1 + d);
   '(zl, _) ← (if fl then zipStorePrevEntryLengthLarge zl (p + n) n else zipStorePrevEntryLength zl (p + n) n);
   tail ← ZIPLIST_TAIL_OFFSET zl;
   zl ← set_tail zl (tail + n);
   e ← zipEntry zl (p + n);
   b ← get zl (p + (n + headersize e + len e));
   if negb (b =? ZIP_END) then tail ← ZIPLIST_TAIL_OFFSET zl; set_tail zl (tail + d) else Ok zl) =
  Ok (casc (elayout 0 l1 ++ g) B2 n e2 (esize b2 e2) l2 cnt).
Proof.
  intros p curlen HB Hd Hn Hnd He Hl Hs. pose proof (size_nonneg l1). pose proof (size_nonneg l2).
  pose proof (size_removelast_le l2). pose proof (esize_pos b2 e2).
  set (t := 10 + size (removelast (l1 ++ (b2, e2) :: l2))).
  assert (t = 10 + size l1 + size (removelast ((b2, e2) :: l2))) as Ht.
  { unfold t. rewrite removelast_app, size_app by done. lia. }
  assert (esize B2 e2 = esize b2 e2 + d) as HE by (unfold esize; lia).
  assert (-4 <= d <= 4) as Hd4 by (destruct b2, B2; cbn [psize] in Hd; lia).
  destruct (memmove_room (hd (curlen + n + d) t cnt ++ elayout 0 l1) (prev_bytes b2 prev) (e_body e2 ++ elayout (esize b2 e2) l2)
    (spare (n + d)) [ZIP_END] n d (p + n) (p - d) (curlen - p - 1 + d)) as (g & v & Hg & Hv & Hm).
  1-7: rewrite ?blen_app, ?elayout_blen, ?hd_blen, ?prev_bytes_blen, ?spare_blen by lia.
  { lia. } { lia. } { rewrite <- Hd. destruct B2; done. } { done. } { done. } { done. }
  { unfold curlen, p. cbn [size]. unfold esize at 1. lia. }
  exists g. split; [done|]. cbn [elayout]. unfold ecells at 1. rewrite <- !app_assoc in Hm |- *. rewrite Hm. cbn [mbind res_bind].
  assert (blen (hd (curlen + n + d) t cnt ++ elayout 0 l1 ++ g) = p + n) as Hp by (rewrite !blen_app, hd_blen, elayout_blen; unfold p; lia).
  assert ((if fl then zipStorePrevEntryLengthLarge else zipStorePrevEntryLength)
    ((hd (curlen + n + d) t cnt ++ elayout 0 l1 ++ g) ++ v ++ e_body e2 ++ elayout (esize b2 e2) l2 ++ [ZIP_END]) (p + n) n =
    Ok ((hd (curlen + n + d) t cnt ++ elayout 0 l1 ++ g) ++ prev_bytes B2 n ++ e_body e2 ++ elayout (esize b2 e2) l2 ++ [ZIP_END], psize B2)) as Hst.
  { rewrite prev_bytes_blen, <- Hd in Hv. subst B2. destruct fl; [apply store_large|apply store_prev]; done. }
  assert (forall (b : bool) (f g : block -> Z -> Z -> res (block * Z)) x y z, (if b then f x y z else g x y z) = (if b then f else g) x y z) as Hif
    by (by intros []).
  rewrite Hif, <- !app_assoc in *. rewrite Hst. cbn [mbind res_bind].
  assert (0 <= t /\ t + n < 2 ^ 32) as Hb by (rewrite Ht, size_removelast; unfold curlen in Hs; cbn [size] in Hs; destruct l2; lia).
  rewrite hd_tail, u32_id by lia. cbn [mbind res_bind]. rewrite hd_set_tail. cbn [mbind res_bind].
  unfold e_body at 1. set (zl := hd _ _ _ ++ _).
  assert (zl = hd (curlen + n + d) (t + n) cnt ++ (elayout 0 l1 ++ g) ++ ecells B2 n e2 ++ elayout (esize b2 e2) l2 ++ [ZIP_END]) as ->
    by (unfold zl, ecells, e_body; by rewrite <- !app_assoc).
  assert (blen (elayout 0 l1 ++ g) = size l1 + n) as Hgl by (by rewrite blen_app, elayout_blen, Hg).
  assert (esize B2 e2 < 2 ^ 32 /\ size l2 < 2 ^ 32 /\ n < 2 ^ 32) as (Hs1 & Hs2 & Hs3) by (unfold curlen in Hs; cbn [size] in Hs; lia).
  rewrite (adjust_tail _ _ _ _ _ _ _ _ _ d (p + n) (fun e => p + (n + headersize e + len e))); try done; try lia.
  - unfold casc. rewrite Hgl, Ht. f_equal. f_equal. f_equal.
    + unfold curlen. cbn [size]. lia.
    + rewrite !size_removelast. destruct l2; lia.
  - subst B2. destruct fl; [apply true_fits|apply large_fits]; lia.
  - pose proof (info_size B2 n e2 (p + n)). lia.
Qed.

(** The room for an entry of [n] bytes at the cursor, after the cascade. *)
Definition roomy (l1 : elist) (g : list Z) (n : Z) (l2 : elist) (cnt : Z) : block :=
  hd (11 + size l1 + n + size l2) (10 + size l1 + match l2 with [] => 0 | _ => n + size (removelast l2) end) cnt ++
  elayout 0 l1 ++ g ++ elayout n l2 ++ [ZIP_END].

(** The layout of a list of entries, and of two parts of it. *)
Definition layout (l : elist) (cnt : Z) : block :=
  hd (11 + size l) (10 + size (removelast l)) cnt ++ elayout 0 l ++ [ZIP_END].

Lemma layout_at l1 l2 cnt :
  layout (l1 ++ l2) cnt =
  hd (11 + size (l1 ++ l2)) (10 + size (removelast (l1 ++ l2))) cnt ++ elayout 0 l1 ++ elayout (lsize 0 l1) l2 ++ [ZIP_END].
Proof. unfold layout. by rewrite elayout_app, <- !app_assoc. Qed.

Lemma layout_entry l1 b e l2 cnt p : laid 0 (l1 ++ (b, e) :: l2) -> size (l1 ++ (b, e) :: l2) < 2 ^ 32 -> p = 10 + size l1 ->
  has_entry (layout (l1 ++ (b, e) :: l2) cnt) p b (lsize 0 l1) e.
Proof.
  intros Hl Hs ->. rewrite <- (take_app_length l1 ((b, e) :: l2)) at 3.
  unfold layout. apply has_entry_in; [done|by apply list_lookup_middle|done|by rewrite hd_blen, take_app_length].
Qed.

Lemma layout_tail l cnt : 11 + size l < 2 ^ 32 -> ZIPLIST_TAIL_OFFSET (layout l cnt) = Ok (10 + size (removelast l)).
Proof. intros Hs. pose proof (size_removelast_le l). unfold layout. rewrite hd_tail, u32_id by lia. done. Qed.
Lemma layout_bytes l cnt : 11 + size l < 2 ^ 32 -> ZIPLIST_BYTES (layout l cnt) = Ok (11 + size l).
Proof. intros Hs. pose proof (size_nonneg l). unfold layout. rewrite hd_bytes, u32_id by lia. done. Qed.

Lemma layout_first l1 l2 cnt p : laid (lsize 0 l1) l2 -> size l2 < 2 ^ 32 -> p = 10 + size l1 ->
  exists x, get (layout (l1 ++ l2) cnt) p = Ok x /\ (x =? ZIP_END) = match l2 with [] => true | _ => false end.
Proof.
  intros Hl Hs ->. rewrite layout_at, (app_assoc (hd _ _ _)). apply next_first; [done..|]. by rewrite blen_app, hd_blen, elayout_blen.
Qed.

Lemma layout_resize l1 l2 cnt n d m : 0 <= n + d -> m = 11 + size l1 + size l2 -> m + n + d < 2 ^ 32 ->
  ziplistResize (layout (l1 ++ l2) cnt) (m + n + d) =
  Ok (hd (m + n + d) (10 + size (removelast (l1 ++ l2))) cnt ++ elayout 0 l1 ++ elayout (lsize 0 l1) l2 ++ spare (n + d) ++ [ZIP_END]).
Proof.
  intros Hn -> Hs. rewrite layout_at, size_app, <- (Z.add_assoc _ n d), (app_assoc (elayout 0 l1)), Z.add_assoc.
  rewrite resize_more by (rewrite ?blen_app, ?elayout_blen; lia). by rewrite <- (app_assoc (elayout 0 l1)).
Qed.

Lemma casc_roomy l1 g n b2 e2 l2 cnt : blen g = n ->
  casc (elayout 0 l1 ++ g) b2 n e2 (esize b2 e2) l2 cnt = roomy l1 g n ((b2, e2) :: l2) cnt.
Proof.
  intros Hg. unfold casc, roomy. rewrite blen_app, elayout_blen, Hg. cbn [elayout]. rewrite <- !app_assoc.
  f_equal. f_equal; cbn [size]; lia.
Qed.

Definition nextdiff_of (b2 : bool) (n : Z) : Z := psize (large n) - psize b2.
Definition force (b2 : bool) (n : Z) : bool := (nextdiff_of b2 n =? -4) && (n <? 4).

Lemma force_flag b2 n :
  psize (if force b2 n then true else large n) = psize b2 + (if force b2 n then 0 else nextdiff_of b2 n) /\
  (2 <= n -> 0 <= n + (if force b2 n then 0 else nextdiff_of b2 n)).
Proof.
  unfold force, nextdiff_of.
  destruct b2, (large n), (Z.ltb_spec n 4); simpl; split; lia.
Qed.

Lemma room_cascade l1 g n b2 B2 e2 l2 cnt d p :
  blen g = n -> 2 <= n -> psize B2 = psize b2 + d -> fits B2 n -> entry_ok e2 -> laid (esize b2 e2) l2 -> p = 10 + size l1 ->
  11 + size l1 + size ((b2, e2) :: l2) + n + 4 * (Z.of_nat (length l2) + 1) < 2 ^ 32 ->
  exists l2', l2'.*2 = ((b2, e2) :: l2).*2 /\ laid n l2' /\ size l2' <= size ((b2, e2) :: l2) + 4 * Z.of_nat (S (length l2)) /\
    (if negb (d =? 0) then __ziplistCascadeUpdate (casc (elayout 0 l1 ++ g) B2 n e2 (esize b2 e2) l2 cnt) (p + n)
     else Ok (casc (elayout 0 l1 ++ g) B2 n e2 (esize b2 e2) l2 cnt)) = Ok (roomy l1 g n l2' cnt).
Proof.
  intros Hg Hn Hd Hf He Hl -> Hs. cbn [size] in Hs. pose proof (size_nonneg l2). pose proof (size_nonneg l1).
  assert (esize B2 e2 = esize b2 e2 + d) as HE by (unfold esize; lia).
  assert (-4 <= d <= 4) as Hd4 by (destruct b2, B2; cbn [psize] in Hd; lia).
  destruct (Z.eqb_spec d 0) as [->|Hd0]; cbn [negb].
  - assert (B2 = b2) as -> by (destruct b2, B2; done || (cbn in Hd; lia)).
    exists ((b2, e2) :: l2). split_and!; [done|done|lia|]. by rewrite casc_roomy.
  - destruct (cascade_update l2 (elayout 0 l1 ++ g) B2 n e2 (esize b2 e2) cnt (10 + size l1 + n)) as (l' & Hm & Hl' & Hs' & Hc); try done.
    { rewrite blen_app, elayout_blen. lia. } { rewrite blen_app, elayout_blen. lia. }
    exists ((B2, e2) :: l'). split_and!; [by rewrite !fmap_cons, Hm|done|cbn [size]; lia|]. by rewrite Hc, casc_roomy.
Qed.

Lemma insert_room l1 l2 cnt n b curlen p (k : block -> res block) :
  laid (lsize 0 l1) l2 -> 2 <= n -> p = 10 + size l1 -> curlen = 11 + size l1 + size l2 ->
  curlen + n + 4 * (Z.of_nat (length l2) + 1) < 2 ^ 32 -> get (layout (l1 ++ l2) cnt) p = Ok b ->
  exists g l2', blen g = n /\ l2'.*2 = l2.*2 /\ laid n l2' /\ size l2' <= size l2 + 4 * Z.of_nat (length l2) /\
  (nextdiff ← (if negb (b =? ZIP_END) then zipPrevLenByteDiff (layout (l1 ++ l2) cnt) p (u32 n) else Ok 0);
   let forcelarge := (nextdiff =? -4) && (n <? 4) in
   let nextdiff := if forcelarge then 0 else nextdiff in
   zl ← ziplistResize (layout (l1 ++ l2) cnt) (curlen + n + nextdiff);
   b ← get zl p;
   zl ← (
     if negb (b =? ZIP_END) then
       zl ← memmove zl (p + n) (p - nextdiff) (curlen - p - 1 + nextdiff);
       '(zl, _) ← (if forcelarge then zipStorePrevEntryLengthLarge zl (p + n) (u32 n)
                   else zipStorePrevEntryLength zl (p + n) (u32 n));
       tail ← ZIPLIST_TAIL_OFFSET zl;
       zl ← set_tail zl (tail + n);
       e ← zipEntry zl (p + n);
       b ← get zl (p + (n + headersize e + len e));
       if negb (b =? ZIP_END) then tail ← ZIPLIST_TAIL_OFFSET zl; set_tail zl (tail + nextdiff) else Ok zl
     else set_tail zl p);
   zl ← (if negb (nextdiff =? 0) then __ziplistCascadeUpdate zl (p + n) else Ok zl);
   k zl) = k (roomy l1 g n l2' cnt).
Proof.
  intros Hl Hn -> -> Hs Hb. pose proof (size_nonneg l1). pose proof (size_nonneg l2). rewrite (u32_id n) by lia.
  destruct (layout_first l1 l2 cnt (10 + size l1) Hl ltac:(lia) eq_refl) as (b' & Hb' & Hend). rewrite Hb in Hb'.
  injection Hb' as <-. rewrite Hend. destruct l2 as [|[b2 e2] l2].
  - exists (spare n), []. split_and!; [by apply spare_blen; lia|done..|]. cbn [negb mbind res_bind Z.eqb andb].
    cbn [size] in *. rewrite app_nil_r, !Z.add_0_r. unfold layout.
    rewrite resize_more by (rewrite ?elayout_blen; lia). cbn [mbind res_bind].
    rewrite (byte_split _ (hd (11 + size l1 + n) (10 + size (removelast l1)) cnt ++ elayout 0 l1) ZIP_END
      (drop 1 (spare n) ++ [ZIP_END])).
    + change (ZIP_END =? ZIP_END) with true. cbn [negb mbind res_bind]. rewrite hd_set_tail. cbn [mbind res_bind negb Z.eqb].
      unfold roomy. cbn [elayout size]. by rewrite !Z.add_0_r.
    + rewrite <- !app_assoc. do 2 f_equal. unfold spare. destruct (Z.to_nat n) eqn:?; [lia|done].
    + by rewrite blen_app, hd_blen, elayout_blen.
    + done.
  - cbn [negb]. destruct Hl as (Hf & He & Hl). cbn [size length] in *. pose proof (size_nonneg l2). pose proof (esize_pos b2 e2).
    rewrite (entry_diff _ _ b2 (lsize 0 l1) e2), prev_size.
    2: { rewrite layout_at, (app_assoc (hd _ _ _)). apply (has_entry_in _ _ _ _ 0); [done|done|cbn [size]; lia|].
         rewrite blen_app, hd_blen, elayout_blen. cbn. lia. }
    cbn [mbind res_bind]. fold (nextdiff_of b2 n). fold (force b2 n). set (d := if force b2 n then 0 else nextdiff_of b2 n).
    destruct (force_flag b2 n) as [Hflag Hpos]. fold d in Hflag, Hpos. specialize (Hpos Hn).
    set (B2 := if force b2 n then true else large n) in *.
    assert (-4 <= d <= 4) as Hd4 by (destruct b2, B2; cbn [psize] in Hflag; lia).
    destruct (make_room l1 b2 e2 l2 cnt n d (force b2 n) B2 (lsize 0 l1)) as (g & Hg & Hroom); try done.
    { cbn [size]. lia. }
    destruct (room_cascade l1 g n b2 B2 e2 l2 cnt d (10 + size l1)) as (l2' & Hm & Hl' & Hs' & Hc); try done.
    { unfold B2. destruct (force b2 n); [apply true_fits|apply large_fits]; lia. } { cbn [size]. lia. }
    exists g, l2'. split_and!; [done..|]. cbn [size] in Hroom.
    rewrite layout_resize by (cbn [size]; lia). cbn [mbind res_bind].
    destruct (entry_first _ _ b2 (lsize 0 l1) e2 (has_entry_in
      (hd (11 + size l1 + (esize b2 e2 + size l2) + n + d) (10 + size (removelast (l1 ++ (b2, e2) :: l2))) cnt ++ elayout 0 l1)
      (lsize 0 l1) ((b2, e2) :: l2) (spare (n + d) ++ [ZIP_END]) 0 b2 e2 (10 + size l1) ltac:(done) eq_refl ltac:(cbn [size]; lia)
      ltac:(rewrite blen_app, hd_blen, elayout_blen; cbn; lia))) as [Hg1 Hg2].
    rewrite <- (app_assoc (hd _ _ _)) in Hg1. rewrite Hg1. cbn [mbind res_bind]. rewrite Hg2. cbn [negb].
    rewrite Hroom. cbn [mbind res_bind]. rewrite Hc. done.
Qed.

(** ** Insertion: writing the entry *)

(** The encoding that [__ziplistInsert] asks for. *)
Definition e_enc (e : zlentry) : Z := match e with ZlInt z => int_encoding z | ZlStr _ => 0 end.

Lemma enc_bytes e s : (exists z, e = ZlInt z) \/ e = ZlStr s ->
  encoding_bytes (e_enc e) (blen (str_bytes s)) = e_head e /\
  zipStoreEntryEncoding_size (e_enc e) (blen (str_bytes s)) = blen (e_head e).
Proof.
  intros [[z ->]| ->]; cbn [e_enc e_head]; unfold encoding_bytes, zipStoreEntryEncoding_size.
  - by rewrite int_not_str.
  - split; [done|]. cbn [ZIP_IS_STR Z.land Z.ltb Z.compare]. by repeat case_match.
Qed.

Lemma save_int a x c z p : p = blen a -> blen x = blen (int_bytes z) ->
  zipSaveInteger (a ++ x ++ c) p z (int_encoding z) = Ok (a ++ int_bytes z ++ c).
Proof.
  intros -> Hx. pose proof (put_at a x c (int_bytes z) (eq_sym Hx)) as Hp. revert Hx Hp. unfold int_bytes, zipSaveInteger.
  generalize (i32 (Z.shiftl z 8)). intros v.
  apply int_encoding_cases; [intros Hr|intros _ _ Hp; exact Hp..|intros _ Hp; exact Hp].
  assert (forall k : list Z, blen x = blen (@nil Z) -> Ok (a ++ x ++ c) = Ok (a ++ [] ++ c)) as Hk by (intros _ Hx; destruct x; done).
  intros Hx _. revert Hx. each_imm Hr; exact (Hk []).
Qed.

Lemma zl_entry_ok s : entry_ok (zl_entry s).
Proof.
  unfold zl_entry, zipTryEncoding. case_match; [|done]. case_match; [done|].
  apply string2ll_strict in H as [_ Hr]. unfold LLONG_MIN, LLONG_MAX in Hr. cbn. lia.
Qed.

Lemma zl_entry_kind s : (exists z, zl_entry s = ZlInt z) \/ zl_entry s = ZlStr s.
Proof. unfold zl_entry. case_match; eauto. Qed.

(** What is known of the entry before anything is changed. *)
Lemma insert_encoding s :
  exists value,
    (match tryEncoding s with Some (value, enc) => (enc, value) | None => (0, 123456789) end) = (e_enc (zl_entry s), value) /\
    (match tryEncoding s with Some _ => zipIntSize (e_enc (zl_entry s)) | None => Ok (blen (str_bytes s)) end) = Ok (blen (e_data (zl_entry s))) /\
    (forall z, zl_entry s = ZlInt z -> value = z).
Proof.
  unfold tryEncoding, zl_entry. destruct (zipTryEncoding s) as [z|]; cbn; eexists; split_and!; [done|apply int_size|by intros ? [=]|done..].
Qed.

Definition incr_count (cnt d : Z) : Z := if cnt <? UINT16_MAX then cnt + d else cnt.

Lemma hd_incr_length n t cnt r d : 0 <= cnt <= UINT16_MAX ->
  ZIPLIST_INCR_LENGTH (hd n t cnt ++ r) d = Ok (hd n t (incr_count cnt d) ++ r).
Proof.
  intros Hc. unfold ZIPLIST_INCR_LENGTH, incr_count. rewrite hd_length. cbn [mbind res_bind].
  unfold UINT16_MAX in Hc. rewrite Z.mod_small by lia. case_match; [apply hd_set_length|done].
Qed.

Lemma write_data a x c s value p : let e := zl_entry s in
  p = blen a -> blen x = blen (e_data e) -> (forall z, e = ZlInt z -> value = z) ->
  (if ZIP_IS_STR (e_enc e) then put (a ++ x ++ c) p (str_bytes s) else zipSaveInteger (a ++ x ++ c) p value (e_enc e)) =
  Ok (a ++ e_data e ++ c).
Proof.
  intros e Hp Hx Hv. destruct (zl_entry_kind s) as [[z Hz]|Hz]; subst e; rewrite Hz in *; cbn [e_enc e_data] in *.
  - rewrite int_not_str, (Hv z eq_refl). by apply save_int.
  - cbn [ZIP_IS_STR Z.land Z.ltb Z.compare]. rewrite Hp. by apply put_at.
Qed.

Lemma write_entry l1 g l2 cnt s value p : let e := zl_entry s in let prev := lsize 0 l1 in
  blen g = esize (large prev) e -> (forall z, e = ZlInt z -> value = z) -> 0 <= cnt <= UINT16_MAX -> p = 10 + size l1 ->
  ('(zl, n) ← zipStorePrevEntryLength (roomy l1 g (esize (large prev) e) l2 cnt) p prev;
   let p := p + n in
   '(zl, n) ← zipStoreEntryEncoding zl p (e_enc e) (blen (str_bytes s));
   let p := p + n in
   zl ← (if ZIP_IS_STR (e_enc e) then put zl p (str_bytes s) else zipSaveInteger zl p value (e_enc e));
   ZIPLIST_INCR_LENGTH zl 1) = Ok (layout (l1 ++ (large prev, e) :: l2) (incr_count cnt 1)).
Proof.
  intros e prev Hg Hv Hc ->. unfold esize, e_body in Hg. rewrite blen_app in Hg.
  pose proof (blen_nonneg (e_head e)). pose proof (blen_nonneg (e_data e)).
  apply blen_split in Hg as (g1 & g' & -> & Hg1 & Hg); [|destruct (large prev); done|lia].
  apply blen_split in Hg as (g2 & g3 & -> & Hg2 & Hg3); [|lia..].
  destruct (enc_bytes e s (zl_entry_kind s)) as [Hhead Hsize]. unfold roomy. set (N := 11 + _ + _ + _). set (t := 10 + _ + _).
  assert (blen (hd N t cnt ++ elayout 0 l1) = 10 + size l1) as Ha by (by rewrite blen_app, hd_blen, elayout_blen).
  rewrite <- !app_assoc, (app_assoc (hd _ _ _)), store_prev by done. cbn [mbind res_bind].
  unfold zipStoreEntryEncoding. rewrite Hhead, Hsize, (app_assoc (hd _ _ _ ++ _)), put_split with
    (a := (hd N t cnt ++ elayout 0 l1) ++ prev_bytes (large prev) prev) (l := g2) (c := g3 ++ elayout (esize (large prev) e) l2 ++ [ZIP_END]).
  2: done. 2: by rewrite blen_app, Ha, prev_bytes_blen. 2: done.
  cbn [mbind res_bind].
  rewrite (app_assoc ((hd _ _ _ ++ _) ++ _)). unfold e at 3 4 5. rewrite (write_data _ g3 _ s value); [|by rewrite blen_app, blen_app, Ha, prev_bytes_blen|done|done]. cbn [mbind res_bind].
  rewrite <- !app_assoc, hd_incr_length by done. unfold layout. rewrite elayout_app. cbn [elayout].
  unfold ecells, e_body. rewrite <- !app_assoc. do 2 f_equal. unfold N, t. rewrite size_app, removelast_app, size_app, size_removelast by done.
  cbn [size]. f_equal; [lia|]. destruct l2; lia.
Qed.

(** ** Insertion *)

(** The count field holds the number of entries, or its largest value when that
    is not known without a scan. *)
Definition count_ok (cnt : Z) (n : nat) : Prop := 0 <= cnt <= UINT16_MAX /\ (cnt < UINT16_MAX -> cnt = Z.of_nat n).

Lemma insert_prevlen l1 l2 cnt p b : laid 0 (l1 ++ l2) -> 11 + size (l1 ++ l2) < 2 ^ 32 -> p = 10 + size l1 ->
  get (layout (l1 ++ l2) cnt) p = Ok b ->
  (if negb (b =? ZIP_END) then '(_, prevlen) ← ZIP_DECODE_PREVLEN (layout (l1 ++ l2) cnt) p; Ok prevlen
   else
     ptail ← ZIPLIST_ENTRY_TAIL (layout (l1 ++ l2) cnt);
     b ← get (layout (l1 ++ l2) cnt) ptail;
     if negb (b =? ZIP_END) then zipRawEntryLength (layout (l1 ++ l2) cnt) ptail else Ok 0) = Ok (lsize 0 l1).
Proof.
  intros Hl Hs -> Hb. pose proof (size_nonneg l1). pose proof (size_nonneg l2). rewrite size_app in Hs.
  pose proof Hl as [Hl1 Hl2]%laid_app.
  destruct (layout_first l1 l2 cnt (10 + size l1) Hl2 ltac:(lia) eq_refl) as (b' & Hb' & Hend). rewrite Hb in Hb'.
  injection Hb' as <-. rewrite Hend. destruct l2 as [|[b2 e2] l2]; cbn [negb].
  - rewrite app_nil_r in *. cbn [size] in Hs. rewrite Z.add_0_r in Hs. unfold ZIPLIST_ENTRY_TAIL. rewrite layout_tail by done.
    cbn [mbind res_bind]. destruct (list_eq_nil_dec l1) as [->|Hne].
    + cbn [size removelast] in *. rewrite Hb. cbn [mbind res_bind]. by rewrite Hend.
    + destruct (exists_last Hne) as (l & [b1 e1] & ->).
      assert (has_entry (layout (l ++ [(b1, e1)]) cnt) (10 + size l) b1 (lsize 0 l) e1) as He by (by apply layout_entry; [|lia|]).
      rewrite removelast_last. destruct (entry_first _ _ _ _ _ He) as [Hg Hne1]. rewrite Hg. cbn [mbind res_bind].
      rewrite Hne1. cbn [negb]. by rewrite (entry_rawlen _ _ _ _ _ He), lsize_app.
  - rewrite (entry_prevlen _ _ b2 (lsize 0 l1) e2); [done|]. apply layout_entry; [done|rewrite size_app; lia|done].
Qed.

Lemma zl_insert_at l1 l2 cnt s : let e := zl_entry s in let prev := lsize 0 l1 in
  laid 0 (l1 ++ l2) -> count_ok cnt (length (l1 ++ l2)) ->
  11 + size (l1 ++ l2) + esize (large prev) e + 4 * (Z.of_nat (length l2) + 1) < 2 ^ 32 ->
  exists l2', l2'.*2 = l2.*2 /\ laid (esize (large prev) e) l2' /\ size l2' <= size l2 + 4 * Z.of_nat (length l2) /\
    __ziplistInsert (layout (l1 ++ l2) cnt) (10 + size l1) s = Ok (layout (l1 ++ (large prev, e) :: l2') (incr_count cnt 1)).
Proof.
  intros e prev Hl [Hc _] Hs. pose proof (size_nonneg l1). pose proof (size_nonneg l2). pose proof (esize_pos (large prev) e).
  rewrite size_app in Hs. pose proof Hl as [Hl1 Hl2]%laid_app.
  destruct (layout_first l1 l2 cnt (10 + size l1) Hl2 ltac:(lia) eq_refl) as (b & Hb & _).
  destruct (insert_encoding s) as (value & Henc & Hreq & Hv).
  destruct (insert_room l1 l2 cnt (esize (large prev) e) b (11 + size l1 + size l2) (10 + size l1)
    (fun zl => '(zl, n) ← zipStorePrevEntryLength zl (10 + size l1) prev;
      let p := 10 + size l1 + n in
      '(zl, n) ← zipStoreEntryEncoding zl p (e_enc e) (blen (str_bytes s));
      let p := p + n in
      zl ← (if ZIP_IS_STR (e_enc e) then put zl p (str_bytes s) else zipSaveInteger zl p value (e_enc e));
      ZIPLIST_INCR_LENGTH zl 1)) as (g & l2' & Hg & Hm & Hl' & Hs' & Hroom); try done; [lia|].
  exists l2'. split_and!; try done. unfold __ziplistInsert.
  rewrite layout_bytes by (rewrite size_app; lia). cbn [mbind res_bind]. rewrite Hb. cbn [mbind res_bind].
  rewrite (insert_prevlen l1 l2 cnt _ b) by (done || (rewrite size_app; lia)). cbn [mbind res_bind].
  rewrite Henc, Hreq. cbn [mbind res_bind]. fold prev. rewrite (proj2 (enc_bytes _ s (zl_entry_kind s))), prev_size. fold e.
  replace (blen (e_data e) + psize (large prev) + blen (e_head e)) with (esize (large prev) e)
    by (unfold esize, e_body; rewrite blen_app; lia).
  replace (11 + size (l1 ++ l2)) with (11 + size l1 + size l2) by (rewrite size_app; lia).
  etransitivity; [exact Hroom|]. by apply write_entry.
Qed.

(** ** Deletion *)

Lemma bind_inner {A B C D} (a : res A) (f : A -> res B) (g : A -> B -> res C) (k : C -> res D) v :
  (x ← a; y ← f x; g x y) = Ok v -> (x ← a; y ← f x; z ← g x y; k z) = k v.
Proof. destruct a as [x|]; cbn; [|done]. destruct (f x) as [y|]; cbn; [by intros ->|done]. Qed.

Lemma skip_over d : forall num l1 l2 cnt k, laid 0 (l1 ++ d ++ l2) -> size (l1 ++ d ++ l2) < 2 ^ 32 ->
  num = length d \/ l2 = [] /\ (length d <= num)%nat ->
  skip_entries num (layout (l1 ++ d ++ l2) cnt) (10 + size l1) k = Ok (10 + size (l1 ++ d), k + Z.of_nat (length d)).
Proof.
  induction d as [|[b e] d IH]; intros num l1 l2 cnt k Hl Hs Hnum.
  - pose proof Hl as [_ Hl2]%laid_app. rewrite size_app in Hs. pose proof (size_nonneg l1).
    destruct (layout_first l1 l2 cnt (10 + size l1) Hl2 ltac:(cbn [app] in Hs; lia) eq_refl) as (x & Hx & Hend).
    cbn [app length] in *. rewrite app_nil_r, Z.add_0_r.
    destruct Hnum as [->|[-> _]]; [destruct l2|destruct num]; cbn [skip_entries]; rewrite Hx; cbn [mbind res_bind]; by rewrite Hend.
  - assert (has_entry (layout (l1 ++ ((b, e) :: d) ++ l2) cnt) (10 + size l1) b (lsize 0 l1) e) as He by (by apply layout_entry).
    destruct (entry_first _ _ _ _ _ He) as [Hg Hne]. destruct num as [|num]; [cbn in Hnum; lia|].
    cbn [skip_entries]. rewrite Hg. cbn [mbind res_bind]. rewrite Hne, (entry_rawlen _ _ _ _ _ He). cbn [mbind res_bind].
    assert (l1 ++ ((b, e) :: d) ++ l2 = (l1 ++ [(b, e)]) ++ d ++ l2) as Hre by (by rewrite <- app_assoc).
    replace (10 + size l1 + esize b e) with (10 + size (l1 ++ [(b, e)])) by (rewrite size_app; cbn; lia).
    rewrite Hre in *. rewrite IH; [|done|done|destruct Hnum as [Hn|[-> Hn]]; [left|right]; cbn in Hn; auto with lia].
    rewrite <- app_assoc. cbn [app length]. do 2 f_equal. lia.
Qed.

Lemma removelast_lsize l : size (removelast l) = size l - lsize 0 l.
Proof.
  destruct (list_eq_nil_dec l) as [->|Hne]; [done|]. destruct (exists_last Hne) as (l' & [b e] & ->).
  rewrite removelast_last, size_app, lsize_app. cbn. lia.
Qed.

Lemma lsize_range l : 0 <= lsize 0 l <= size l.
Proof. pose proof (removelast_lsize l). pose proof (size_removelast_le l). lia. Qed.

Lemma casc_layout l1 b e l2 cnt : casc (elayout 0 l1) b (lsize 0 l1) e (esize b e) l2 cnt = layout (l1 ++ (b, e) :: l2) cnt.
Proof.
  unfold casc, layout. rewrite elayout_app, elayout_blen, size_app, removelast_app, size_app by done. cbn [elayout size].
  rewrite <- !app_assoc. f_equal. f_equal; lia.
Qed.

(** A large length before the deleted entries has its five bytes in the first of
    them, so there is room when the next entry needs them. *)
Lemma deleted_room prev d : laid prev d -> d <> [] -> psize (large prev) <= size d.
Proof.
  destruct d as [|[b e] d]; [done|]. intros ([Hp Hb] & _) _. pose proof (size_nonneg d). pose proof (esize_pos b e).
  cbn [size]. unfold large. destruct (Z.leb_spec ZIP_BIG_PREVLEN prev) as [H1|H1]; cbn [psize]; [|lia].
  destruct b; [|specialize (Hb eq_refl); lia]. unfold esize. cbn [psize]. pose proof (blen_nonneg (e_body e)). lia.
Qed.

(** The entry after the deleted ones gets the length of the entry before them
    and is moved, with what follows it, to their place. *)
Lemma delete_join l1 d b2 e2 l2 cnt : let zl := layout (l1 ++ d ++ (b2, e2) :: l2) cnt in
  let prev := lsize 0 l1 in let p := 10 + size (l1 ++ d) in
  laid 0 (l1 ++ d ++ (b2, e2) :: l2) -> d <> [] -> 11 + size (l1 ++ d ++ (b2, e2) :: l2) + 4 < 2 ^ 32 ->
  exists J, blen J <> 0 /\
  (nextdiff ← zipPrevLenByteDiff zl p prev;
   let p := p - nextdiff in
   '(zl, _) ← zipStorePrevEntryLength zl p prev;
   tail ← ZIPLIST_TAIL_OFFSET zl;
   zl ← set_tail zl (tail - size d);
   e ← zipEntry zl p;
   b ← get zl (p + u32 (headersize e + len e));
   zl ← (if negb (b =? ZIP_END) then tail ← ZIPLIST_TAIL_OFFSET zl; set_tail zl (tail + nextdiff) else Ok zl);
   bytes ← ZIPLIST_BYTES zl;
   zl ← memmove zl (10 + size l1) p (bytes - p - 1);
   Ok (zl, nextdiff)) =
  Ok (hd (11 + size (l1 ++ d ++ (b2, e2) :: l2)) (10 + size l1 + size (removelast ((large prev, e2) :: l2))) cnt ++
      (elayout 0 l1 ++ ecells (large prev) prev e2 ++ elayout (esize b2 e2) l2) ++ J, nextdiff_of b2 prev).
Proof.
  intros zl prev p Hl Hd Hs. pose proof Hl as [Hl1 [Hld (Hf2 & He2 & Hl2)]%laid_app]%laid_app.
  pose proof (size_nonneg l1). pose proof (size_nonneg l2). pose proof (size_nonneg d). pose proof (esize_pos b2 e2).
  assert (size (l1 ++ d ++ (b2, e2) :: l2) = size l1 + size d + esize b2 e2 + size l2) as Hsz by (rewrite !size_app; cbn [size]; lia).
  assert (zl = layout ((l1 ++ d) ++ (b2, e2) :: l2) cnt) as Hzl by (by rewrite <- app_assoc).
  rewrite (entry_diff zl p b2 (lsize 0 (l1 ++ d)) e2), prev_size.
  2: { rewrite Hzl. apply layout_entry; rewrite <- ?app_assoc; done || lia. }
  fold (nextdiff_of b2 prev). cbn [mbind res_bind]. set (df := nextdiff_of b2 prev).
  assert (psize (large prev) = psize b2 + df) as Hdf by (unfold df, nextdiff_of; lia).
  pose proof (deleted_room prev d Hld Hd) as Hroom.
  destruct (blen_split (elayout prev d ++ prev_bytes b2 (lsize prev d)) (size d - df) (psize (large prev))) as (J & v & HJv & HJ & Hv).
  { rewrite blen_app, elayout_blen, prev_bytes_blen. lia. } { destruct b2, (large prev); cbn [psize] in *; lia. } { by destruct (large prev). }
  set (N := 11 + size (l1 ++ d ++ (b2, e2) :: l2)) in *. set (t := 10 + size (removelast (l1 ++ d ++ (b2, e2) :: l2))).
  set (rest := elayout (esize b2 e2) l2 ++ [ZIP_END]).
  assert (zl = (hd N t cnt ++ elayout 0 l1 ++ J) ++ v ++ e_body e2 ++ rest) as ->.
  { rewrite Hzl, layout_at, elayout_app. cbn [elayout]. unfold ecells. rewrite <- !app_assoc. fold N t prev. rewrite lsize_app. fold prev.
    do 2 f_equal. rewrite (app_assoc (elayout prev d)), HJv, <- !app_assoc. done. }
  assert (p - df = 10 + size l1 + blen J) as Hp by (unfold p; rewrite size_app; lia).
  rewrite store_prev; [|rewrite !blen_app, hd_blen, elayout_blen; lia|done]. cbn [mbind res_bind].
  assert (forall N t, (hd N t cnt ++ elayout 0 l1 ++ J) ++ prev_bytes (large prev) prev ++ e_body e2 ++ rest =
    hd N t cnt ++ (elayout 0 l1 ++ J) ++ ecells (large prev) prev e2 ++ elayout (esize b2 e2) l2 ++ [ZIP_END]) as ->
    by (intros; unfold ecells, rest; by rewrite <- !app_assoc).
  assert (t = 10 + size l1 + size d + size (removelast ((b2, e2) :: l2))) as Ht.
  { unfold t. rewrite (app_assoc l1), removelast_app, !size_app by done. lia. }
  pose proof (size_removelast_le ((b2, e2) :: l2)) as Hrl. cbn [size] in Hrl.
  rewrite hd_tail, u32_id by lia. cbn [mbind res_bind]. rewrite hd_set_tail. cbn [mbind res_bind].
  assert (esize (large prev) e2 = esize b2 e2 + df) as HE by (unfold esize; lia).
  assert (-4 <= df <= 4) as Hdf4 by (destruct b2, (large prev); cbn [psize] in Hdf; lia).
  assert (0 <= prev < 2 ^ 32) as Hprev. { pose proof (lsize_range l1). unfold prev. lia. }
  pose proof (esize_pos (large prev) e2).
  pose proof (adjust_tail N (t - size d) cnt (elayout 0 l1 ++ J) (large prev) prev e2 (esize b2 e2) l2 df (p - df)
    (fun e => p - df + u32 (headersize e + len e))) as Hadj.
  rewrite (bind_inner _ _ _ _ _ (Hadj ltac:(by apply large_fits) He2 Hl2 ltac:(lia) ltac:(lia)
    ltac:(rewrite blen_app, elayout_blen; lia) ltac:(lia) ltac:(cbv beta; rewrite info_size, u32_id by lia; done))).
  rewrite hd_bytes, u32_id by lia. cbn [mbind res_bind]. set (t2 := match l2 with [] => _ | _ => _ end).
  assert (hd N t2 cnt ++ (elayout 0 l1 ++ J) ++ ecells (large prev) prev e2 ++ elayout (esize b2 e2) l2 ++ [ZIP_END] =
    (hd N t2 cnt ++ elayout 0 l1) ++ J ++ (ecells (large prev) prev e2 ++ elayout (esize b2 e2) l2) ++ [ZIP_END]) as ->
    by (by rewrite <- !app_assoc).
  rewrite memmove_left; [|rewrite blen_app, hd_blen, elayout_blen; lia|by rewrite blen_app, hd_blen, elayout_blen|
    rewrite blen_app, ecells_blen, elayout_blen; unfold N; lia].
  cbn [mbind res_bind]. set (R := ecells (large prev) prev e2 ++ elayout (esize b2 e2) l2).
  exists (drop (length R) (J ++ R) ++ [ZIP_END]). split.
  { rewrite blen_app, (blen_cons ZIP_END), blen_nil. pose proof (blen_nonneg (drop (length R) (J ++ R))). lia. }
  do 2 f_equal. rewrite <- !app_assoc. f_equal. f_equal. unfold t2. rewrite Ht, !size_removelast. destruct l2; lia.
Qed.

(** The block is cut, and the change of size of the entry cascades. *)
Lemma delete_settle l1 b2 e2 l2 cnt N J totlen del : let prev := lsize 0 l1 in let df := nextdiff_of b2 prev in
  N = 11 + size l1 + totlen + esize b2 e2 + size l2 -> entry_ok e2 -> laid (esize b2 e2) l2 -> blen J <> 0 -> 0 <= cnt <= UINT16_MAX ->
  0 <= totlen /\ N + 4 * (Z.of_nat (length l2) + 2) < 2 ^ 32 ->
  exists l2', l2'.*2 = ((b2, e2) :: l2).*2 /\ laid prev l2' /\ size l2' <= size ((b2, e2) :: l2) + 4 * Z.of_nat (length ((b2, e2) :: l2)) /\
  ('(zl, nextdiff) ← Ok (hd N (10 + size l1 + size (removelast ((large prev, e2) :: l2))) cnt ++
      (elayout 0 l1 ++ ecells (large prev) prev e2 ++ elayout (esize b2 e2) l2) ++ J, df);
   bytes ← ZIPLIST_BYTES zl;
   zl ← ziplistResize zl (bytes - totlen + nextdiff);
   zl ← ZIPLIST_INCR_LENGTH zl (- del);
   if negb (nextdiff =? 0) then __ziplistCascadeUpdate zl (10 + size l1) else Ok zl) =
  Ok (layout (l1 ++ l2') (incr_count cnt (- del))).
Proof.
  intros prev df HN He2 Hl2 HJ Hc [Htot Hs]. pose proof (size_nonneg l1). pose proof (size_nonneg l2). pose proof (esize_pos b2 e2).
  assert (psize (large prev) = psize b2 + df) as Hdf by (unfold df, nextdiff_of; lia).
  assert (esize (large prev) e2 = esize b2 e2 + df) as HE by (unfold esize; lia).
  assert (-4 <= df <= 4) as Hdf4 by (destruct b2, (large prev); cbn [psize] in Hdf; lia).
  assert (0 <= prev < 2 ^ 32) as Hprev. { pose proof (lsize_range l1). unfold prev. lia. }
  pose proof (esize_pos (large prev) e2).
  destruct (cascade_update l2 (elayout 0 l1) (large prev) prev e2 (esize b2 e2) (incr_count cnt (- del)) (10 + size l1))
    as (l' & Hm & Hl' & Hs' & Hcas); try done; [by apply large_fits|by rewrite elayout_blen|rewrite elayout_blen; lia|].
  cbn [mbind res_bind]. rewrite hd_bytes, u32_id by lia. cbn [mbind res_bind].
  rewrite resize_less; [|rewrite !blen_app, ecells_blen, !elayout_blen; lia|lia|done]. cbn [mbind res_bind].
  rewrite hd_incr_length by done. cbn [mbind res_bind].
  set (zl := hd _ _ _ ++ _).
  assert (zl = casc (elayout 0 l1) (large prev) prev e2 (esize b2 e2) l2 (incr_count cnt (- del))) as ->.
  { unfold zl, casc. rewrite elayout_blen, <- !app_assoc. f_equal. f_equal. lia. }
  destruct (Z.eqb_spec df 0) as [Hz|Hnz]; cbn [negb].
  - assert (large prev = b2) as Hb by (destruct b2, (large prev); done || (cbn in Hdf; lia)). rewrite Hb in *.
    exists ((b2, e2) :: l2). split_and!; [done| |cbn [size]; lia|by rewrite casc_layout].
    split; [|done]. rewrite <- Hb. by apply large_fits.
  - exists ((large prev, e2) :: l'). split_and!; [by rewrite !fmap_cons, Hm| |cbn [size length]; lia|by rewrite Hcas, casc_layout].
    split; [by apply large_fits|done].
Qed.

Lemma zl_delete_at l1 d l2 cnt num :
  laid 0 (l1 ++ d ++ l2) -> d <> [] -> num = length d \/ l2 = [] /\ (length d <= num)%nat -> 0 <= cnt <= UINT16_MAX ->
  11 + size (l1 ++ d ++ l2) + 4 * (Z.of_nat (length l2) + 1) < 2 ^ 32 ->
  exists l2', l2'.*2 = l2.*2 /\ laid (lsize 0 l1) l2' /\ size l2' <= size l2 + 4 * Z.of_nat (length l2) /\
    __ziplistDelete (layout (l1 ++ d ++ l2) cnt) (10 + size l1) num =
    Ok (layout (l1 ++ l2') (incr_count cnt (- Z.of_nat (length d)))).
Proof.
  intros Hl Hd Hnum Hc Hs. pose proof (size_nonneg l1). pose proof (size_nonneg l2). pose proof (size_nonneg d).
  assert (size (l1 ++ d ++ l2) = size l1 + size d + size l2) as Hsz by (rewrite !size_app; lia).
  destruct d as [|[b1 e1] d']; [done|]. set (d := (b1, e1) :: d') in *. pose proof (esize_pos b1 e1). pose proof (size_nonneg d').
  assert (0 < size d) as Hpos by (cbn [d size]; lia).
  pose proof (layout_entry l1 b1 e1 (d' ++ l2) cnt _ Hl ltac:(change (size (l1 ++ d ++ l2) < 2 ^ 32); lia) eq_refl) as He1.
  change ((b1, e1) :: d' ++ l2) with (d ++ l2) in He1.
  unfold __ziplistDelete. rewrite (entry_read _ _ _ _ _ He1). cbn [mbind res_bind].
  rewrite (skip_over d num l1 l2 cnt 0 Hl ltac:(lia) Hnum). cbn [mbind res_bind info at_p prevrawlen].
  replace (10 + size (l1 ++ d) - (10 + size l1)) with (size d) by (rewrite size_app; lia).
  rewrite u32_id, (proj2 (Z.ltb_lt _ _)) by lia.
  assert (layout (l1 ++ d ++ l2) cnt = layout ((l1 ++ d) ++ l2) cnt) as Hre by (by rewrite app_assoc).
  pose proof Hl as [Hl1 [Hld Hl2]%laid_app]%laid_app.
  destruct (layout_first (l1 ++ d) l2 cnt (10 + size (l1 ++ d)) ltac:(by rewrite lsize_app) ltac:(lia) eq_refl) as (b & Hb & Hend).
  rewrite Hre, Hb, <- Hre. cbn [mbind res_bind]. rewrite Hend. destruct l2 as [|[b2 e2] l2]; cbn [negb].
  - exists []. split_and!; [done..|]. cbn [size length] in *. rewrite app_nil_r in *. unfold layout. rewrite hd_set_tail. cbn [mbind res_bind].
    rewrite hd_bytes, u32_id, elayout_app, <- (app_assoc (elayout 0 l1)) by lia. cbn [mbind res_bind].
    rewrite resize_less; [|rewrite elayout_blen; lia|lia|].
    2: { rewrite blen_app, elayout_blen, (blen_cons ZIP_END), blen_nil. lia. }
    cbn [mbind res_bind]. rewrite hd_incr_length by done. cbn [mbind res_bind negb Z.eqb]. rewrite removelast_lsize.
    rewrite !app_nil_r. do 2 f_equal. f_equal; lia.
  - destruct (delete_join l1 d b2 e2 l2 cnt Hl Hd ltac:(cbn [length size] in *; lia)) as (J & HJ & Hjoin). cbv zeta in Hjoin. rewrite Hjoin, (Z.add_0_l (Z.of_nat (length d))).
    apply delete_settle; [|apply Hl2|apply Hl2|done|done|]; cbn [length size] in *; lia.
Qed.
