(* ===== verification/ZiplistRefine.v ===== *)
(** * Ziplists refine lists of entries

    The representation of a list of entries by a block of bytes, and each
    function of ziplist.c's interface against the operation on lists of entries
    in the model of t_zset.c. *)

From S2P Require Import Prelude Sds Double Util Zset Bytes Ziplist ZiplistSpec ZiplistEdit.
From Stdlib Require Import Ascii.
Import Blob.

(** ** The representation *)

(** The block holds the entries [l]. *)
Definition holds (zl : block) (l : elist) : Prop :=
  laid 0 l /\ 11 + size l < 2 ^ 32 /\ exists cnt, count_ok cnt (length l) /\ zl = layout l cnt.

(** The part of this that does not depend on the header. *)
Definition entries_at (zl : block) (l : elist) : Prop :=
  laid 0 l /\ 11 + size l < 2 ^ 32 /\ exists h, blen h = 10 /\ zl = h ++ elayout 0 l ++ [ZIP_END].

Lemma holds_entries zl l : holds zl l -> entries_at zl l.
Proof. intros (Hl & Hs & cnt & _ & ->). split_and!; [done..|]. eexists. split; [|reflexivity]. done. Qed.

(** Where entry [i] is. *)
Definition offset (l : elist) (i : nat) : Z := 10 + size (take i l).

(** The entries fit in a ziplist with all their length fields large, and with
    some room for a last step of a cascade. *)
Fixpoint weight_of (es : list zlentry) : Z := match es with [] => 15 | e :: es => esize true e + 4 + weight_of es end.
Definition fits_in (es : list zlentry) : Prop := weight_of es < 2 ^ 32.

Lemma esize_large b e : esize b e <= esize true e.
Proof. unfold esize. destruct b; cbn; lia. Qed.
Lemma weight_of_size (l : elist) : 15 + size l + 4 * Z.of_nat (length l) <= weight_of (l.*2).
Proof.
  induction l as [|[b e] l IH]; [done|]. rewrite fmap_cons. cbn [weight_of size length snd]. pose proof (esize_large b e). lia.
Qed.
Lemma weight_of_app es1 es2 : weight_of (es1 ++ es2) = weight_of es1 + weight_of es2 - 15.
Proof. induction es1 as [|e es1 IH]; cbn; lia. Qed.
Lemma weight_of_nonneg es : 15 <= weight_of es.
Proof. induction es as [|e es IH]; cbn; [done|]. pose proof (esize_pos true e). lia. Qed.

Lemma holds_fits zl l : laid 0 l -> fits_in (l.*2) -> (exists cnt, count_ok cnt (length l) /\ zl = layout l cnt) -> holds zl l.
Proof. intros Hl Hf Hc. split_and!; [done| |done]. unfold fits_in in Hf. pose proof (weight_of_size l). lia. Qed.

Lemma holds_new : exists zl, ziplistNew = Ok zl /\ holds zl [].
Proof.
  eexists. split; [reflexivity|]. split_and!; [done|done|]. exists 0. split; [|reflexivity]. done.
Qed.

Lemma count_ok_incr cnt n d m : count_ok cnt n -> Z.of_nat n + d = Z.of_nat m -> d <= 1 -> count_ok (incr_count cnt d) m.
Proof.
  intros [Hc Hn] Hm Hd. unfold count_ok, incr_count. destruct (Z.ltb_spec cnt UINT16_MAX); [|lia]. rewrite Hn in * by done. lia.
Qed.

Lemma offset_take l l' i : take i l = take i l' -> offset l i = offset l' i.
Proof. unfold offset. by intros ->. Qed.

(** ** Insertion and deletion *)

(** Inserting at entry [i], or at the end, of a ziplist with room for the new
    entry: the block holds the entries that the insertion in the list gives, and
    the new entry is where the pointer was. *)
Lemma insert_refines zl l i s : holds zl l -> (i <= length l)%nat -> fits_in (Zset.ziplistInsert (l.*2) i s) ->
  exists zl' l', ziplistInsert zl (offset l i) s = Ok zl' /\ holds zl' l' /\ l'.*2 = Zset.ziplistInsert (l.*2) i s /\
    take i l' = take i l.
Proof.
  intros (Hl & Hs & cnt & Hc & ->) Hi Hf. unfold Zset.ziplistInsert, fits_in in Hf.
  rewrite <- fmap_take, <- fmap_drop, weight_of_app in Hf. cbn [weight_of] in Hf.
  pose proof (weight_of_size (take i l)). pose proof (weight_of_size (drop i l)).
  pose proof (esize_large (large (lsize 0 (take i l))) (zl_entry s)).
  pose proof (eq_sym (take_drop i l)) as Hsp.
  destruct (zl_insert_at (take i l) (drop i l) cnt s ltac:(by rewrite take_drop) ltac:(by rewrite take_drop)
    ltac:(rewrite size_app; lia)) as (l2' & Hm & Hl2 & Hs2 & Hins).
  rewrite take_drop in Hins. exists (layout (take i l ++ (large (lsize 0 (take i l)), zl_entry s) :: l2') (incr_count cnt 1)),
    (take i l ++ (large (lsize 0 (take i l)), zl_entry s) :: l2'). split; [exact Hins|]. split_and!.
  - apply holds_fits.
    + apply laid_app. rewrite Hsp in Hl. apply laid_app in Hl as [Hl1 _]. split; [done|]. refine (conj _ (conj (zl_entry_ok s) Hl2)).
      pose proof (lsize_range (take i l)). pose proof (weight_of_nonneg (drop i l).*2). pose proof (esize_pos true (zl_entry s)).
      apply large_fits. lia.
    + unfold fits_in. rewrite fmap_app, fmap_cons, Hm, weight_of_app. cbn [weight_of snd]. lia.
    + eexists. split; [|done]. eapply count_ok_incr; [done| |done].
      rewrite Hsp at 1. rewrite !length_app. cbn [length]. apply (f_equal length) in Hm. rewrite !length_fmap in Hm. lia.
  - unfold Zset.ziplistInsert. by rewrite fmap_app, fmap_cons, Hm, fmap_take, fmap_drop.
  - rewrite take_app_le, take_take by (rewrite length_take; lia). f_equal. lia.
Qed.

(** What [__ziplistDelete] leaves of a list of entries. *)
Definition delete_entries (es : list zlentry) (i num : nat) : list zlentry := take i es ++ drop (i + num) es.

Lemma delete_refines zl l i num : holds zl l -> (i < length l)%nat -> (0 < num)%nat -> fits_in (l.*2) ->
  exists zl' l', __ziplistDelete zl (offset l i) num = Ok zl' /\ holds zl' l' /\ l'.*2 = delete_entries (l.*2) i num /\
    take i l' = take i l.
Proof.
  intros (Hl & Hs & cnt & Hc & ->) Hi Hnum Hf.
  set (d := take num (drop i l)). set (l2 := drop (i + num) l).
  assert (l = take i l ++ d ++ l2) as Hsp. { unfold d, l2. by rewrite <- drop_drop, take_drop, take_drop. }
  assert (length d = Nat.min num (length l - i)) as Hd by (unfold d; rewrite length_take, length_drop; done).
  assert (length l2 = (length l - (i + num))%nat) as Hlen by (unfold l2; by rewrite length_drop).
  pose proof (weight_of_size l) as Hw. unfold fits_in in Hf.
  destruct (zl_delete_at (take i l) d l2 cnt num) as (l2' & Hm & Hl2 & Hs2 & Hdel).
  { by rewrite <- Hsp. } { intros He. rewrite He in Hd. cbn in Hd. lia. }
  { destruct (decide (num <= length l - i)%nat); [left; lia|right]. split; [apply nil_length_inv; lia|lia]. }
  { by destruct Hc. } { rewrite <- Hsp. lia. }
  rewrite <- Hsp in Hdel. eexists _, (take i l ++ l2'). split; [exact Hdel|].
  assert (length l2' = length l2) as Hm' by (apply (f_equal length) in Hm; by rewrite !length_fmap in Hm).
  split_and!.
  - apply holds_fits.
    + apply laid_app. split; [|done]. rewrite Hsp in Hl. by apply laid_app in Hl as [? _].
    + unfold fits_in. rewrite fmap_app, Hm, weight_of_app. rewrite Hsp, !fmap_app, !weight_of_app in Hf.
      pose proof (weight_of_nonneg d.*2). lia.
    + eexists. split; [|done]. eapply count_ok_incr; [exact Hc| |lia]. rewrite length_app, length_take. lia.
  - unfold delete_entries. rewrite fmap_app, Hm, fmap_take. unfold l2. by rewrite fmap_drop.
  - rewrite take_app_le, take_take by (rewrite length_take; lia). f_equal. lia.
Qed.

(** ** Reading an entry *)

(** What [ziplistGet] gives for an entry. *)
Definition reading (e : zlentry) : list Z + Z := match e with ZlInt z => inr z | ZlStr s => inl (str_bytes s) end.

Lemma seen_str s : ZIP_IS_STR (e_seen (ZlStr s)) = true.
Proof. cbn [e_seen]. by repeat case_match. Qed.

Lemma entry_data zl p b prev e : has_entry zl p b prev e ->
  exists a c, zl = a ++ e_data e ++ c /\ p + (psize b + blen (e_head e)) = blen a /\ entry_ok e.
Proof.
  intros (a & c & -> & -> & _ & He & _). exists (a ++ prev_bytes b prev ++ e_head e), c. unfold ecells, e_body.
  split_and!; [by rewrite <- !app_assoc|rewrite !blen_app, prev_bytes_blen; lia|done].
Qed.

Lemma str_bytes_inj s1 s2 : str_bytes s1 = str_bytes s2 -> s1 = s2.
Proof.
  unfold str_bytes. intros H. apply list_fmap_eq_inj in H; [|exact code_inj].
  rewrite <- (String.string_of_list_ascii_of_string s1), H. apply String.string_of_list_ascii_of_string.
Qed.

Lemma entry_loads zl p b prev e : has_entry zl p b prev e ->
  match e with
  | ZlInt z => zipLoadInteger zl (p + (psize b + blen (e_head e))) (e_seen e) = Ok z
  | ZlStr s => cells zl (p + (psize b + blen (e_head e))) (blen (e_data e)) = Ok (str_bytes s)
  end.
Proof.
  intros (a & c & -> & Hp & He)%entry_data. rewrite Hp. destruct e as [z|s]; cbn [e_data e_seen].
  - by apply zipLoadInteger_bytes.
  - apply cells_at.
Qed.

(** A raw comparison with a string, when the length says so. *)
Lemma compare_raw zl q s' s n : cells zl q (blen (str_bytes s')) = Ok (str_bytes s') -> n = blen (str_bytes s) \/ n = blen (str_bytes s') ->
  (if blen (str_bytes s') =? blen (str_bytes s) then l ← cells zl q n; Ok (bool_decide (l = str_bytes s)) else Ok false) =
  Ok (bool_decide (s' = s)).
Proof.
  intros Hv Hn. destruct (Z.eqb_spec (blen (str_bytes s')) (blen (str_bytes s))) as [Hb|Hb].
  - replace n with (blen (str_bytes s')) by lia. rewrite Hv. cbn [mbind res_bind]. f_equal.
    apply bool_decide_ext. split; [apply str_bytes_inj|by intros ->].
  - rewrite bool_decide_eq_false_2; [done|]. by intros ->.
Qed.

(** The entry that [ziplistFind] looks for: [skipcnt] entries are passed first,
    and [skip] between two comparisons. *)
Fixpoint find_entry (es : list zlentry) (vs : string) (skip skipcnt : nat) : option nat :=
  match es with
  | [] => None
  | _ :: es' =>
      match skipcnt with
      | O => if Zset.ziplistCompare es 0 vs then Some O else S <$> find_entry es' vs skip skip
      | S k => S <$> find_entry es' vs skip k
      end
  end.

(** ** Moving through a ziplist *)

Section Reads.
Context (zl : block) (l : elist) (Hz : entries_at zl l).

Lemma at_entry i b e : l !! i = Some (b, e) -> has_entry zl (offset l i) b (lsize 0 (take i l)) e.
Proof.
  intros Hi. destruct Hz as (Hl & Hs & h & Hh & ->). apply has_entry_in; [done|done|lia|]. by rewrite Hh.
Qed.

Lemma at_end i : (length l <= i)%nat -> get zl (offset l i) = Ok ZIP_END.
Proof.
  intros Hi. destruct Hz as (Hl & Hs & h & Hh & ->). unfold offset. rewrite take_ge by done.
  apply (byte_split _ (h ++ elayout 0 l) ZIP_END []); [by rewrite <- app_assoc|by rewrite blen_app, elayout_blen, Hh|done].
Qed.

(** The first byte tells an entry from the end. *)
Lemma at_any i : exists x, get zl (offset l i) = Ok x /\ (x =? ZIP_END) = bool_decide (length l <= i)%nat.
Proof.
  destruct (decide (length l <= i)%nat) as [Hi|Hi].
  - exists ZIP_END. rewrite at_end by done. by rewrite bool_decide_eq_true_2.
  - destruct (lookup_lt_is_Some_2 l i) as [[b e] He]; [lia|]. apply at_entry, entry_first in He as [Hg Hne].
    eexists. split; [exact Hg|]. by rewrite Hne, bool_decide_eq_false_2.
Qed.

Lemma offset_S i b e : l !! i = Some (b, e) -> offset l (S i) = offset l i + esize b e.
Proof. intros Hi. unfold offset. rewrite (take_S_r _ _ _ Hi), size_app. cbn. lia. Qed.

Lemma lsize_S i b e : l !! i = Some (b, e) -> lsize 0 (take (S i) l) = esize b e.
Proof. intros Hi. by rewrite (take_S_r _ _ _ Hi), lsize_app. Qed.

Lemma length_zl : (length l <= length zl)%nat.
Proof.
  destruct Hz as (_ & _ & h & _ & ->). pose proof (size_nonneg l). pose proof (elayout_blen 0 l). unfold blen in *. rewrite !length_app. lia.
Qed.

(** Stepping to the next entry: used by every scan. *)
Lemma step_next i : (i < length l)%nat -> exists b e, l !! i = Some (b, e) /\
  zipRawEntryLength zl (offset l i) = Ok (esize b e) /\ offset l (S i) = offset l i + esize b e.
Proof.
  intros Hi. destruct (lookup_lt_is_Some_2 l i Hi) as [[b e] He]. exists b, e. split_and!; [done| |by apply offset_S].
  exact (entry_rawlen _ _ _ _ _ (at_entry _ _ _ He)).
Qed.

Lemma next_refines i : (i <= length l)%nat -> ziplistNext zl (offset l i) = Ok (offset l <$> Zset.ziplistNext (l.*2) i).
Proof.
  intros Hi. unfold ziplistNext, Zset.ziplistNext. rewrite length_fmap. destruct (at_any i) as (x & Hx & He).
  rewrite Hx. cbn [mbind res_bind]. rewrite He. destruct (decide (length l <= i)%nat) as [Hle|Hlt].
  - rewrite bool_decide_eq_true_2 by done. by rewrite decide_False by lia.
  - rewrite bool_decide_eq_false_2 by done. destruct (step_next i) as (b & e & _ & Hr & Ho); [lia|]. rewrite Hr. cbn [mbind res_bind].
    rewrite <- Ho. destruct (at_any (S i)) as (y & Hy & Hey). rewrite Hy. cbn [mbind res_bind]. rewrite Hey.
    destruct (decide (S i < length l)%nat); [rewrite bool_decide_eq_false_2 by lia|rewrite bool_decide_eq_true_2 by lia]; done.
Qed.

Lemma prevlen_at i : (i < length l)%nat -> exists b, ZIP_DECODE_PREVLEN zl (offset l i) = Ok (psize b, lsize 0 (take i l)).
Proof. intros Hi. destruct (lookup_lt_is_Some_2 l i Hi) as [[b e] He]. exists b. exact (entry_prevlen _ _ _ _ _ (at_entry _ _ _ He)). Qed.

(** One entry back. *)
Lemma step_back i : (S i <= length l)%nat -> 0 < lsize 0 (take (S i) l) /\ offset l (S i) - lsize 0 (take (S i) l) = offset l i.
Proof.
  intros Hi. destruct (lookup_lt_is_Some_2 l i Hi) as [[b e] He]. rewrite (lsize_S _ _ _ He), (offset_S _ _ _ He).
  pose proof (esize_pos b e). lia.
Qed.

Lemma forward_refines fuel i index : (i <= length l)%nat -> (length l - i < fuel)%nat -> 0 <= index ->
  index_forward fuel zl (offset l i) index =
  Ok (if Z.of_nat i + index <? Z.of_nat (length l) then (offset l (i + Z.to_nat index), -1)
      else (offset l (length l), index - Z.of_nat (length l - i))).
Proof.
  revert i index. induction fuel as [|fuel IH]; intros i index Hi Hfuel Hindex; [lia|]. cbn [index_forward].
  destruct (at_any i) as (x & Hx & He). rewrite Hx. cbn [mbind res_bind]. rewrite He.
  destruct (decide (length l <= i)%nat) as [Hle|Hlt].
  - rewrite bool_decide_eq_true_2 by done. cbn [negb]. rewrite (proj2 (Z.ltb_ge _ _)) by lia.
    replace i with (length l) by lia. do 2 f_equal. lia.
  - rewrite bool_decide_eq_false_2 by done. cbn [negb]. destruct (Z.eqb_spec index 0) as [->|Hne].
    + rewrite (proj2 (Z.ltb_lt _ _)) by lia. rewrite Nat.add_0_r. done.
    + destruct (step_next i) as (b & e & _ & Hr & Ho); [lia|]. rewrite Hr. cbn [mbind res_bind].
      rewrite <- Ho, IH by lia. replace (Z.of_nat (S i) + (index - 1)) with (Z.of_nat i + index) by lia.
      case_match; do 2 f_equal; [f_equal|]; lia.
Qed.

Lemma back_refines fuel i index : (i < length l)%nat -> (i < fuel)%nat -> 0 <= index ->
  exists r, index_back fuel zl (offset l i) (lsize 0 (take i l)) index = Ok (offset l (i - Z.to_nat index), r) /\
    (0 <? r) = (Z.of_nat i <? index).
Proof.
  revert i index. induction fuel as [|fuel IH]; intros i index Hi Hfuel Hindex; [lia|]. cbn [index_back]. destruct i as [|i].
  - exists index. split; [done|]. done.
  - destruct (step_back i) as [Hp Ho]; [lia|]. rewrite (proj2 (Z.ltb_lt _ _)), Ho by done. destruct (Z.eqb_spec index 0) as [->|Hne].
    + exists (-1). split; [done|]. symmetry. apply Z.ltb_ge. lia.
    + destruct (prevlen_at i) as (b & Hb); [lia|]. rewrite Hb. cbn [mbind res_bind].
      destruct (IH i (index - 1)) as (r & Hr & Hlt); [lia..|]. exists r. rewrite Hr, Hlt. split; [do 3 f_equal; lia|].
      destruct (Z.ltb_spec (Z.of_nat i) (index - 1)), (Z.ltb_spec (Z.of_nat (S i)) index); done || lia.
Qed.

Lemma count_refines fuel i n : (i <= length l)%nat -> (length l - i < fuel)%nat ->
  count_entries fuel zl (offset l i) n = Ok (n + Z.of_nat (length l - i)).
Proof.
  revert i n. induction fuel as [|fuel IH]; intros i n Hi Hfuel; [lia|]. cbn [count_entries].
  destruct (at_any i) as (x & Hx & He). rewrite Hx. cbn [mbind res_bind]. rewrite He.
  destruct (decide (length l <= i)%nat) as [Hle|Hlt].
  - rewrite bool_decide_eq_true_2 by done. f_equal. lia.
  - rewrite bool_decide_eq_false_2 by done. destruct (step_next i) as (b & e & _ & Hr & Ho); [lia|]. rewrite Hr. cbn [mbind res_bind].
    rewrite <- Ho, IH by lia. f_equal. lia.
Qed.

Lemma get_refines i : (i <= length l)%nat -> ziplistGet zl (Some (offset l i)) = Ok (reading <$> Zset.ziplistGet (l.*2) (Some i)).
Proof.
  intros Hi. cbn [ziplistGet Zset.ziplistGet mbind option_bind]. destruct (at_any i) as (x & Hx & He). rewrite Hx. cbn [mbind res_bind].
  rewrite He, list_lookup_fmap. destruct (l !! i) as [[b e]|] eqn:Hle.
  - rewrite bool_decide_eq_false_2 by (apply lookup_lt_Some in Hle; lia). pose proof (at_entry _ _ _ Hle) as Hat.
    rewrite (entry_read _ _ _ _ _ Hat). pose proof (entry_loads _ _ _ _ _ Hat) as Hv. cbn [mbind res_bind info encoding headersize len].
    destruct e as [z|s]; [cbn [e_seen] in *; rewrite int_not_str|rewrite seen_str]; by rewrite Hv.
  - rewrite bool_decide_eq_true_2 by (by apply lookup_ge_None in Hle). done.
Qed.

Lemma compare_refines i s : (i <= length l)%nat -> ziplistCompare zl (offset l i) s = Ok (Zset.ziplistCompare (l.*2) i s).
Proof.
  intros Hi. unfold ziplistCompare, Zset.ziplistCompare. destruct (at_any i) as (x & Hx & He). rewrite Hx. cbn [mbind res_bind].
  rewrite He, list_lookup_fmap. destruct (l !! i) as [[b e]|] eqn:Hle; cbn [fmap option_fmap option_map snd].
  2: { by rewrite bool_decide_eq_true_2 by (by apply lookup_ge_None in Hle). }
  rewrite bool_decide_eq_false_2 by (apply lookup_lt_Some in Hle; lia). pose proof (at_entry _ _ _ Hle) as Hat.
  rewrite (entry_read _ _ _ _ _ Hat). pose proof (entry_loads _ _ _ _ _ Hat) as Hv. cbn [mbind res_bind info encoding headersize len].
  destruct e as [z|s']; [cbn [e_seen] in *; rewrite int_not_str|rewrite seen_str].
  - unfold tryEncoding. destruct (zipTryEncoding s) as [v|]; [|done]. cbn [mbind option_bind]. by rewrite Hv.
  - apply compare_raw; [done|by left].
Qed.

Lemma find_refines fuel i vs (skip skipcnt : nat) venc : (i <= length l)%nat -> (length l - i < fuel)%nat ->
  venc = None \/ venc = Some (zipTryEncoding vs) ->
  find_from fuel zl (offset l i) vs (Z.of_nat skip) (Z.of_nat skipcnt) venc =
  Ok ((fun j => offset l (i + j)) <$> find_entry (drop i (l.*2)) vs skip skipcnt).
Proof.
  revert i skipcnt venc. induction fuel as [|fuel IH]; intros i skipcnt venc Hi Hfuel Hvenc; [lia|]. cbn [find_from].
  destruct (at_any i) as (x & Hx & He). rewrite Hx. cbn [mbind res_bind]. rewrite He.
  destruct (decide (length l <= i)%nat) as [Hle|Hlt].
  { rewrite bool_decide_eq_true_2, drop_ge by (rewrite ?length_fmap; done). done. }
  rewrite bool_decide_eq_false_2 by done. destruct (step_next i) as (b & e & Hat & _ & Ho); [lia|].
  pose proof (at_entry _ _ _ Hat) as Hent. rewrite (entry_prevlensize _ _ _ _ _ Hent). cbn [mbind res_bind].
  rewrite (entry_length _ _ _ _ _ Hent). cbn [mbind res_bind].
  rewrite (drop_S _ e) by (by rewrite list_lookup_fmap, Hat). cbn [find_entry].
  assert (offset l i + psize b + blen (e_head e) + blen (e_data e) = offset l (S i)) as Hq
    by (rewrite Ho; unfold esize, e_body; rewrite blen_app; lia).
  assert (forall venc k, venc = None \/ venc = Some (zipTryEncoding vs) ->
    find_from fuel zl (offset l (S i)) vs (Z.of_nat skip) (Z.of_nat k) venc =
    Ok ((fun j => offset l (i + j)) <$> (S <$> find_entry (drop (S i) (l.*2)) vs skip k))) as Hnext.
  { intros v k Hv. rewrite IH by (done || lia). f_equal. rewrite <- option_fmap_compose. apply option_fmap_ext. intros j. cbn. f_equal. lia. }
  destruct skipcnt as [|k].
  - cbn [Z.of_nat Z.eqb]. pose proof (entry_loads _ _ _ _ _ Hent) as Hv. rewrite Z.add_assoc in Hv. cbn [Zset.ziplistCompare lookup list_lookup].
    destruct e as [z|s']; [cbn [e_seen] in *; rewrite int_not_str|rewrite seen_str].
    + assert (find_encoding vs venc = zipTryEncoding vs) as ->.
      { destruct Hvenc as [->| ->]; [|done]. unfold find_encoding, tryEncoding. by destruct (zipTryEncoding vs). }
      destruct (zipTryEncoding vs) as [v|]; [rewrite Hv; cbn [mbind res_bind]; destruct (z =? v); [by cbn; rewrite Nat.add_0_r|]|cbn [mbind res_bind]];
        rewrite Hq; apply Hnext; by right.
    + rewrite (compare_raw _ _ s' vs) by (done || by right). cbn [mbind res_bind]. destruct (bool_decide (s' = vs)); [by cbn; rewrite Nat.add_0_r|].
      rewrite Hq. by apply Hnext.
  - rewrite (proj2 (Z.eqb_neq _ _)) by lia. replace (Z.of_nat (S k) - 1) with (Z.of_nat k) by lia. rewrite Hq. by apply Hnext.
Qed.
End Reads.

(** ** From the tail, and the length *)

Section Header.
Context (zl : block) (l : elist) (Hz : holds zl l).

Lemma tail_refines : ZIPLIST_ENTRY_TAIL zl = Ok (offset l (length l - 1)).
Proof.
  destruct Hz as (_ & Hs & cnt & _ & ->). unfold ZIPLIST_ENTRY_TAIL. rewrite layout_tail by done. unfold offset.
  destruct (list_eq_nil_dec l) as [->|Hne]; [done|]. destruct (exists_last Hne) as (l' & e & ->).
  rewrite removelast_last, length_app. cbn [length]. replace (length l' + 1 - 1)%nat with (length l') by lia. by rewrite take_app_length.
Qed.

Lemma prev_refines i : (i <= length l)%nat -> ziplistPrev zl (offset l i) = Ok (offset l <$> Zset.ziplistPrev (l.*2) i).
Proof.
  pose proof (holds_entries zl l Hz) as He0. intros Hi. unfold ziplistPrev, Zset.ziplistPrev, Zset.ziplistIndex. rewrite length_fmap. destruct (at_any zl l He0 i) as (x & Hx & He).
  rewrite Hx. cbn [mbind res_bind]. rewrite He. destruct (decide (length l <= i)%nat) as [Hle|Hlt].
  - rewrite bool_decide_eq_true_2, tail_refines by done. cbn [mbind res_bind]. destruct (at_any zl l He0 (length l - 1)) as (y & Hy & Hey).
    rewrite Hy. cbn [mbind res_bind Z.ltb Z.compare]. rewrite Hey. destruct (length l) eqn:Hn; [done|].
    rewrite bool_decide_eq_false_2, !(proj2 (Z.leb_le _ _)), (proj2 (Z.ltb_lt _ _)) by lia. cbn [andb fmap option_fmap option_map].
    do 3 f_equal. lia.
  - rewrite bool_decide_eq_false_2 by done. destruct i as [|i]; [done|].
    destruct (step_back l i) as [Hp Ho]; [lia|]. destruct (prevlen_at zl l He0 (S i)) as (b & Hb); [lia|].
    rewrite Hb. cbn [mbind res_bind]. rewrite (proj2 (Z.ltb_lt _ _)), Ho by done.
    assert (offset l (S i) =? ZIPLIST_ENTRY_HEAD = false) as ->; [|done].
    apply Z.eqb_neq. unfold ZIPLIST_ENTRY_HEAD, ZIPLIST_HEADER_SIZE. unfold offset in *. pose proof (size_nonneg (take i l)). lia.
Qed.

Lemma index_refines index : ziplistIndex zl index = Ok (offset l <$> Zset.ziplistIndex (l.*2) index).
Proof.
  pose proof (holds_entries zl l Hz) as He0. unfold ziplistIndex, Zset.ziplistIndex. rewrite length_fmap. pose proof (length_zl zl l He0) as Hlen. destruct (Z.ltb_spec index 0) as [Hneg|Hpos].
  - rewrite tail_refines. cbn [mbind res_bind]. destruct (at_any zl l He0 (length l - 1)) as (x & Hx & He). rewrite Hx. cbn [mbind res_bind].
    rewrite He. destruct (length l) as [|n] eqn:Hn.
    + rewrite bool_decide_eq_true_2 by lia. cbn [negb mbind res_bind]. rewrite Hx. cbn [mbind res_bind]. rewrite He, bool_decide_eq_true_2 by lia.
      cbn [orb]. by rewrite (proj2 (Z.leb_gt _ _)) by lia.
    + rewrite bool_decide_eq_false_2 by lia. cbn [negb mbind res_bind]. destruct (prevlen_at zl l He0 (S n - 1)) as (b & Hb); [lia|].
      rewrite Hb. cbn [mbind res_bind]. destruct (back_refines zl l He0 (S (length zl)) (S n - 1) (- index - 1)) as (r & Hr & Hlt); [lia..|].
      rewrite Hr. cbn [mbind res_bind]. destruct (at_any zl l He0 (S n - 1 - Z.to_nat (- index - 1))) as (y & Hy & Hey). rewrite Hy. cbn [mbind res_bind].
      rewrite Hey, Hlt, bool_decide_eq_false_2 by lia. cbn [orb].
      destruct (Z.ltb_spec (Z.of_nat (S n - 1)) (- index - 1)).
      * rewrite (proj2 (Z.leb_gt _ _)) by lia. done.
      * rewrite (proj2 (Z.leb_le _ _)), (proj2 (Z.ltb_lt _ _)) by lia. cbn. do 3 f_equal. lia.
  - rewrite (proj2 (Z.leb_le _ _)) by lia. cbn [andb].
    pose proof (forward_refines zl l He0 (S (length zl)) 0 index ltac:(lia) ltac:(lia) Hpos) as Hf. change (offset l 0) with ZIPLIST_ENTRY_HEAD in Hf.
    rewrite Hf. cbn [Nat.add]. rewrite Z.add_0_l. destruct (Z.ltb_spec index (Z.of_nat (length l))); cbn [mbind res_bind].
    + destruct (at_any zl l He0 (Z.to_nat index)) as (y & Hy & Hey). rewrite Hy. cbn [mbind res_bind]. rewrite Hey, bool_decide_eq_false_2 by lia. done.
    + rewrite (at_end zl l He0) by lia. done.
Qed.

Lemma len_refines : exists zl', ziplistLen zl = Ok (Z.of_nat (length l), zl') /\ holds zl' l.
Proof.
  pose proof (holds_entries zl l Hz) as He0. pose proof (count_refines zl l He0 (S (length zl)) 0 0) as Hcount. pose proof (length_zl zl l He0). destruct Hz as (Hl & Hs & cnt & [Hc Hn] & Hlay).
  unfold ziplistLen, UINT16_MAX in *. assert (ZIPLIST_LENGTH zl = Ok cnt) as ->.
  { rewrite Hlay. unfold layout. by rewrite hd_length, Z.mod_small by lia. }
  cbn [mbind res_bind]. destruct (Z.ltb_spec cnt 65535) as [Hlt|Hge].
  - exists zl. split; [by rewrite Hn|done].
  - change ZIPLIST_HEADER_SIZE with (offset l 0). rewrite Hcount by lia. cbn [mbind res_bind]. rewrite Nat.sub_0_r, Z.add_0_l.
    destruct (Z.ltb_spec (Z.of_nat (length l)) 65535) as [Hsm|Hbig]; [|by exists zl].
    rewrite Hlay. unfold layout. rewrite hd_set_length. cbn [mbind res_bind]. eexists. split; [done|]. split_and!; [done..|].
    exists (Z.of_nat (length l)). split; [|done]. unfold count_ok, UINT16_MAX. lia.
Qed.
End Header.
