(* ===== verification/ZiplistMerge.v ===== *)
(** * Merging two ziplists

    The result holds the entries of both, unless the second one is empty: then
    the tail offset is set to the end marker. *)

From S2P Require Import Prelude Sds Double Util Zset Bytes Ziplist ZiplistSpec ZiplistEdit ZiplistRefine.
From Stdlib Require Import Ascii.
Import Blob.

(** The block after the entries are copied, when the second ziplist goes to the
    end of the first, and when the first goes in front of the second. *)
Lemma merge_append n1 t1 c1 n2 t2 c2 r1 r2 :
  n1 = 11 + blen r1 -> n2 = 11 + blen r2 ->
  (l ← cells (hd n2 t2 c2 ++ r2 ++ [ZIP_END]) ZIPLIST_HEADER_SIZE (n2 - ZIPLIST_HEADER_SIZE);
   put (zrealloc (hd n1 t1 c1 ++ r1 ++ [ZIP_END]) (n1 + n2 - ZIPLIST_HEADER_SIZE - ZIPLIST_END_SIZE)) (n1 - ZIPLIST_END_SIZE) l) =
  Ok (hd n1 t1 c1 ++ r1 ++ r2 ++ [ZIP_END]).
Proof.
  intros -> ->. unfold ZIPLIST_HEADER_SIZE, ZIPLIST_END_SIZE. pose proof (blen_nonneg r2).
  assert (forall r : block, blen (r ++ [ZIP_END]) = blen r + 1) as He by (intros r; by rewrite blen_app).
  rewrite (cells_split _ (hd (11 + blen r2) t2 c2) (r2 ++ [ZIP_END]) []); [|by rewrite app_nil_r|done|rewrite He; lia].
  cbn [mbind res_bind]. rewrite zrealloc_more by (rewrite blen_app, He, hd_blen; lia).
  rewrite (put_split _ (hd (11 + blen r1) t1 c1 ++ r1) ([ZIP_END] ++ replicate (Z.to_nat (blen r2)) UNWRITTEN) []).
  - by rewrite app_nil_r, <- !app_assoc.
  - rewrite app_nil_r, <- !app_assoc. do 5 f_equal. rewrite blen_app, He, hd_blen. lia.
  - rewrite blen_app, hd_blen. lia.
  - rewrite He. unfold blen. rewrite length_app, length_replicate. cbn. unfold blen in *. lia.
Qed.

Lemma merge_prepend n1 t1 c1 n2 t2 c2 r1 r2 :
  n1 = 11 + blen r1 -> n2 = 11 + blen r2 ->
  (target ← memmove (zrealloc (hd n2 t2 c2 ++ r2 ++ [ZIP_END]) (n1 + n2 - ZIPLIST_HEADER_SIZE - ZIPLIST_END_SIZE))
     (n1 - ZIPLIST_END_SIZE) ZIPLIST_HEADER_SIZE (n2 - ZIPLIST_HEADER_SIZE);
   l ← cells (hd n1 t1 c1 ++ r1 ++ [ZIP_END]) 0 (n1 - ZIPLIST_END_SIZE);
   put target 0 l) = Ok (hd n1 t1 c1 ++ r1 ++ r2 ++ [ZIP_END]).
Proof.
  intros -> ->. unfold ZIPLIST_HEADER_SIZE, ZIPLIST_END_SIZE. pose proof (blen_nonneg r1) as H1. pose proof (blen_nonneg r2) as H2.
  assert (forall r : block, blen (r ++ [ZIP_END]) = blen r + 1) as He by (intros r; by rewrite blen_app).
  rewrite zrealloc_more by (rewrite blen_app, He, hd_blen; lia).
  replace (11 + blen r1 + (11 + blen r2) - 10 - 1 - _) with (blen r1) by (rewrite blen_app, He, hd_blen; lia).
  set (y := replicate (Z.to_nat (blen r1)) UNWRITTEN). assert (blen y = blen r1) as Hy by (unfold y, blen; rewrite length_replicate; lia).
  assert ((hd (11 + blen r2) t2 c2 ++ r2 ++ [ZIP_END]) ++ y = hd (11 + blen r2) t2 c2 ++ [] ++ (r2 ++ [ZIP_END]) ++ y ++ []) as ->
    by (by rewrite app_nil_r, <- !app_assoc).
  rewrite memmove_right; [|done|rewrite hd_blen, blen_nil, Hy; lia|rewrite He; lia]. cbn [mbind res_bind].
  rewrite (cells_split _ [] (hd (11 + blen r1) t1 c1 ++ r1) [ZIP_END]); [|by rewrite <- app_assoc|done|rewrite blen_app, hd_blen; lia].
  cbn [mbind res_bind].
  rewrite (put_split _ [] (hd (11 + blen r2) t2 c2 ++ [] ++ take (length y) ((r2 ++ [ZIP_END]) ++ y)) (r2 ++ [ZIP_END])).
  - by rewrite <- !app_assoc.
  - cbn [app]. by rewrite app_nil_r.
  - done.
  - rewrite !blen_app, !hd_blen, blen_nil. unfold blen in *. rewrite length_take, !length_app. lia.
Qed.

Definition merged_count (c1 c2 : Z) : Z := if c1 + c2 <? UINT16_MAX then c1 + c2 else UINT16_MAX.

Lemma merged_count_ok c1 c2 n1 n2 : count_ok c1 n1 -> count_ok c2 n2 -> count_ok (merged_count c1 c2) (n1 + n2).
Proof.
  intros [H1 E1] [H2 E2]. unfold count_ok, merged_count, UINT16_MAX in *. destruct (Z.ltb_spec (c1 + c2) 65535); [|lia].
  rewrite E1, E2 in * by lia. lia.
Qed.

(** Up to the cascade. *)
Lemma merge_joins l1 c1 l2 c2 : 0 <= c1 <= UINT16_MAX -> 0 <= c2 <= UINT16_MAX -> 11 + size l1 + size l2 < 2 ^ 32 ->
  ziplistMerge (layout l1 c1) (layout l2 c2) =
  __ziplistCascadeUpdate
    (hd (11 + size l1 + size l2) (10 + size l1 + size (removelast l2)) (merged_count c1 c2) ++
     elayout 0 l1 ++ elayout 0 l2 ++ [ZIP_END]) (10 + size (removelast l1)).
Proof.
  intros Hc1 Hc2 Hs. pose proof (size_nonneg l1). pose proof (size_nonneg l2). unfold UINT16_MAX in *.
  assert (forall l c, 0 <= c <= 65535 -> ZIPLIST_LENGTH (layout l c) = Ok c) as Hlen.
  { intros l c Hc. unfold layout. by rewrite hd_length, Z.mod_small by lia. }
  unfold ziplistMerge. rewrite !layout_bytes, !layout_tail, !Hlen by (done || lia). cbn [mbind res_bind].
  set (zlbytes := 11 + size l1 + (11 + size l2) - ZIPLIST_HEADER_SIZE - ZIPLIST_END_SIZE).
  assert ((if c2 <=? c1 then
      l ← cells (layout l2 c2) ZIPLIST_HEADER_SIZE (11 + size l2 - ZIPLIST_HEADER_SIZE);
      put (zrealloc (layout l1 c1) zlbytes) (11 + size l1 - ZIPLIST_END_SIZE) l
    else
      target ← memmove (zrealloc (layout l2 c2) zlbytes) (11 + size l1 - ZIPLIST_END_SIZE) ZIPLIST_HEADER_SIZE (11 + size l2 - ZIPLIST_HEADER_SIZE);
      l ← cells (layout l1 c1) 0 (11 + size l1 - ZIPLIST_END_SIZE);
      put target 0 l) =
    Ok (hd (11 + size l1) (10 + size (removelast l1)) c1 ++ elayout 0 l1 ++ elayout 0 l2 ++ [ZIP_END])) as Hcopy.
  { unfold layout, zlbytes. destruct (c2 <=? c1); [apply merge_append|apply merge_prepend]; by rewrite elayout_blen. }
  cbv zeta. rewrite Hcopy.
  cbn [mbind res_bind]. rewrite hd_set_bytes. cbn [mbind res_bind]. rewrite hd_set_length. cbn [mbind res_bind].
  rewrite hd_set_tail. cbn [mbind res_bind]. fold UINT16_MAX. fold (merged_count c1 c2). f_equal. f_equal.
  unfold zlbytes, ZIPLIST_HEADER_SIZE, ZIPLIST_END_SIZE. f_equal; lia.
Qed.

(** The cascade starts at the last entry of the first ziplist, or at the first
    entry when that is empty. *)
Lemma merge_seam l1 l2 : laid 0 l1 -> laid 0 l2 -> l2 <> [] ->
  exists l1' b e q l2', l1 ++ l2 = l1' ++ (b, e) :: l2' /\ size (removelast l1) = size l1' /\
    elayout 0 l1 ++ elayout 0 l2 = elayout 0 l1' ++ ecells b (lsize 0 l1') e ++ elayout q l2' /\
    laid 0 (l1' ++ [(b, e)]) /\ laid q l2'.
Proof.
  intros Hl1 Hl2 Hne. destruct (list_eq_nil_dec l1) as [->|Hn1].
  - destruct l2 as [|[b e] l2]; [done|]. exists [], b, e, (esize b e), l2. destruct Hl2 as (? & ? & ?). by split_and!.
  - destruct (exists_last Hn1) as (l & [b e] & ->). exists l, b, e, 0, l2.
    split_and!; [by rewrite <- app_assoc|by rewrite removelast_last| |done|done].
    rewrite elayout_app. cbn [elayout]. by rewrite app_nil_r, <- !app_assoc.
Qed.

(** Merging gives the entries of the first ziplist and then those of the
    second. *)
Lemma merge_refines zl1 l1 zl2 l2 : holds zl1 l1 -> holds zl2 l2 -> l2 <> [] -> fits_in (l1.*2 ++ l2.*2) ->
  exists zl' l', ziplistMerge zl1 zl2 = Ok zl' /\ holds zl' l' /\ l'.*2 = l1.*2 ++ l2.*2.
Proof.
  intros (Hl1 & Hs1 & c1 & Hc1 & ->) (Hl2 & Hs2 & c2 & Hc2 & ->) Hne Hf. unfold fits_in in Hf. rewrite weight_of_app in Hf.
  pose proof (weight_of_size l1). pose proof (weight_of_size l2). pose proof (size_nonneg l1). pose proof (size_nonneg l2).
  rewrite merge_joins by (apply Hc1 || apply Hc2 || lia). set (cnt := merged_count c1 c2).
  destruct (merge_seam l1 l2 Hl1 Hl2 Hne) as (l1' & b & e & q & l2' & Hsp & Hoff & Hlay & Hlaid & Hq).
  assert (size l1 + size l2 = size l1' + esize b e + size l2') as Hsz.
  { apply (f_equal size) in Hsp. rewrite !size_app in Hsp. cbn [size] in Hsp. lia. }
  assert (size l1 + size (removelast l2) = size l1' + size (removelast ((b, e) :: l2'))) as Hrl.
  { apply (f_equal (@removelast _)) in Hsp. rewrite !removelast_app in Hsp by done. apply (f_equal size) in Hsp. by rewrite !size_app in Hsp. }
  assert (length l1 + length l2 = length l1' + S (length l2'))%nat as Hlen by (apply (f_equal length) in Hsp; by rewrite !length_app in Hsp).
  apply laid_app in Hlaid as [Hlaid (Hfit & He & _)].
  destruct (cascade_update l2' (elayout 0 l1') b (lsize 0 l1') e q cnt (10 + size l1')) as (l' & Hm & Hl' & Hs' & Hcas); try done;
    [by rewrite elayout_blen|rewrite elayout_blen; lia|].
  exists (layout (l1' ++ (b, e) :: l') cnt), (l1' ++ (b, e) :: l').
  assert ((l1' ++ (b, e) :: l').*2 = l1.*2 ++ l2.*2) as Hes by (by rewrite <- fmap_app, Hsp, !fmap_app, !fmap_cons, Hm).
  split_and!; [|apply holds_fits|done].
  - rewrite Hoff. etransitivity; [|rewrite <- casc_layout; exact Hcas]. f_equal. unfold casc. rewrite (app_assoc (elayout 0 l1)), Hlay.
    rewrite elayout_blen, <- !app_assoc. do 2 f_equal; lia.
  - apply laid_app. by split.
  - rewrite Hes. unfold fits_in. rewrite weight_of_app. lia.
  - exists cnt. split; [|done]. apply (f_equal length) in Hes. rewrite length_app, !length_fmap in Hes. rewrite Hes. by apply merged_count_ok.
Qed.

(** When the second ziplist is empty the tail offset of the result is the end:
    the entries are there, and a scan from the tail finds none. *)
Lemma merge_with_empty zl1 l1 zl2 : holds zl1 l1 -> holds zl2 [] -> l1 <> [] ->
  exists zl', ziplistMerge zl1 zl2 = Ok zl' /\ ziplistIndex zl' (-1) = Ok None /\
    forall i, (i < length l1)%nat -> ziplistGet zl' (Some (offset l1 i)) = Ok (reading <$> l1.*2 !! i).
Proof.
  intros (Hl1 & Hs1 & c1 & Hc1 & ->) (_ & _ & c2 & Hc2 & ->) Hne. pose proof (size_nonneg l1).
  rewrite merge_joins by (apply Hc1 || apply Hc2 || (cbn [size]; lia)). set (cnt := merged_count c1 c2). cbn [size removelast elayout app].
  set (zl := hd _ _ cnt ++ _). assert (entries_at zl l1) as Hat by (split_and!; [done..|]; eexists; split; [|reflexivity]; done).
  exists zl. split_and!.
  - destruct (exists_last Hne) as (l & [b e] & El). assert (l1 !! length l = Some (b, e)) as Hlast by (rewrite El; by apply list_lookup_middle).
    assert (10 + size (removelast l1) = offset l1 (length l)) as -> by (unfold offset; by rewrite El, removelast_last, take_app_length).
    pose proof (at_entry zl l1 Hat _ _ _ Hlast) as Hent. destruct (entry_first _ _ _ _ _ Hent) as [Hg Hnend].
    destruct (step_next zl l1 Hat (length l)) as (b' & e' & Hlast' & _ & Ho); [rewrite El, length_app; cbn; lia|].
    rewrite Hlast in Hlast'. injection Hlast' as <- <-.
    unfold __ziplistCascadeUpdate. assert (ZIPLIST_BYTES zl = Ok (11 + size l1 + 0)) as -> by (unfold zl; rewrite hd_bytes, u32_id by lia; done).
    cbn [mbind res_bind cascade]. rewrite Hg. cbn [mbind res_bind]. rewrite Hnend, (entry_read _ _ _ _ _ Hent). cbn [mbind res_bind].
    destruct Hent as (_ & _ & _ & _ & _ & _ & Hsmall). pose proof (esize_pos b e).
    rewrite info_size, u32_id, <- Ho, (at_end zl l1 Hat) by (rewrite ?El, ?length_app; cbn; lia). done.
  - unfold ziplistIndex. cbn [Z.ltb Z.compare]. unfold ZIPLIST_ENTRY_TAIL.
    assert (ZIPLIST_TAIL_OFFSET zl = Ok (offset l1 (length l1))) as ->.
    { unfold zl, offset. rewrite hd_tail, u32_id, firstn_all by lia. f_equal. lia. }
    cbn [mbind res_bind]. rewrite (at_end zl l1 Hat) by done. cbn. by rewrite (at_end zl l1 Hat).
  - intros i Hi. by apply (get_refines zl l1 Hat i), Nat.lt_le_incl.
Qed.
