(* ===== verification/ZiplistLaws.v ===== *)
(** * The laws of ziplists

    What the interface of ziplist.c promises to its callers: changes and reads of
    a block of bytes are changes and reads of a list of entries, in every
    sequence of operations. *)

From S2P Require Import Prelude Sds Double Util Zset Bytes Ziplist ZiplistSpec ZiplistEdit ZiplistRefine ZiplistMerge.
From Stdlib Require Import Ascii.
Import Blob.

(** ** Sequences of operations *)

(** Operations as their callers use them: the entry is found by its index, and
    a string goes to the end when there is no such entry. *)
Inductive zl_op :=
  | ZPush (s : string) (head : bool)
  | ZInsert (index : Z) (s : string)
  | ZDelete (index : Z)
  | ZDeleteRange (index : Z) (num : nat)
  | ZLen.

Definition run_op (zl : block) (o : zl_op) : res block :=
  match o with
  | ZPush s head => ziplistPush zl s head
  | ZInsert index s =>
      p ← ziplistIndex zl index;
      match p with Some p => ziplistInsert zl p s | None => ziplistPush zl s false end
  | ZDelete index =>
      p ← ziplistIndex zl index;
      match p with Some p => ziplistDelete zl p | None => Ok zl end
  | ZDeleteRange index num => ziplistDeleteRange zl index num
  | ZLen => '(_, zl) ← ziplistLen zl; Ok zl
  end.

Definition step_op (es : list zlentry) (o : zl_op) : list zlentry :=
  match o with
  | ZPush s head => if head then Zset.ziplistInsert es 0 s else Zset.ziplistPushTail es s
  | ZInsert index s =>
      match Zset.ziplistIndex es index with Some i => Zset.ziplistInsert es i s | None => Zset.ziplistPushTail es s end
  | ZDelete index => match Zset.ziplistIndex es index with Some i => Zset.ziplistDelete es i | None => es end
  | ZDeleteRange index num => match Zset.ziplistIndex es index with Some i => delete_entries es i num | None => es end
  | ZLen => es
  end.

(** The entries fit after every operation. *)
Fixpoint always_fits (es : list zlentry) (os : list zl_op) : Prop :=
  match os with [] => True | o :: os => fits_in (step_op es o) /\ always_fits (step_op es o) os end.

Lemma index_bound es index i : Zset.ziplistIndex es index = Some i -> (i < length es)%nat.
Proof.
  unfold Zset.ziplistIndex. generalize (if index <? 0 then Z.of_nat (length es) + index else index). intros k.
  destruct ((0 <=? k) && (k <? Z.of_nat (length es))) eqn:E; [|done]. apply andb_true_iff in E as [?%Z.leb_le ?%Z.ltb_lt]. intros [= <-]. lia.
Qed.

(** Deleting no entry changes nothing. *)
Lemma delete_none zl l i : holds zl l -> (i < length l)%nat -> __ziplistDelete zl (offset l i) 0 = Ok zl.
Proof.
  intros Hz Hi. destruct (lookup_lt_is_Some_2 l i Hi) as [[b e] He]. apply (at_entry _ _ (holds_entries _ _ Hz)) in He.
  unfold __ziplistDelete. rewrite (entry_read _ _ _ _ _ He). destruct (entry_first _ _ _ _ _ He) as [Hg Hne].
  cbn [mbind res_bind skip_entries]. rewrite Hg. cbn [mbind res_bind]. rewrite Hne. cbn [mbind res_bind info at_p].
  by rewrite Z.sub_diag.
Qed.

Lemma push_refines zl l s head : holds zl l -> fits_in (step_op (l.*2) (ZPush s head)) ->
  exists zl' l', ziplistPush zl s head = Ok zl' /\ holds zl' l' /\ l'.*2 = step_op (l.*2) (ZPush s head).
Proof.
  intros Hz Hf. assert ((if head then Ok ZIPLIST_ENTRY_HEAD else ZIPLIST_ENTRY_END zl) =
    Ok (offset l (if head then 0 else length l)%nat)) as Hp.
  { destruct head; [done|]. destruct Hz as (_ & Hs & cnt & _ & ->). unfold ZIPLIST_ENTRY_END. rewrite layout_bytes by done.
    cbn [mbind res_bind]. unfold offset. rewrite firstn_all. f_equal. lia. }
  assert (step_op (l.*2) (ZPush s head) = Zset.ziplistInsert (l.*2) (if head then 0 else length l)%nat s) as He.
  { destruct head; [done|]. cbn. unfold Zset.ziplistPushTail. by rewrite length_fmap. }
  rewrite He in *. destruct (insert_refines zl l (if head then 0 else length l)%nat s Hz) as (zl' & l' & Hi & Hh & Hes & _); [destruct head; lia|done|].
  exists zl', l'. split_and!; [|done..]. unfold ziplistPush. by rewrite Hp.
Qed.

Lemma op_refines zl l o : holds zl l -> fits_in (l.*2) -> fits_in (step_op (l.*2) o) ->
  exists zl' l', run_op zl o = Ok zl' /\ holds zl' l' /\ l'.*2 = step_op (l.*2) o.
Proof.
  intros Hz Hf Hf'. destruct o as [s head|index s|index|index num|].
  - by apply push_refines.
  - cbn [run_op step_op] in *. rewrite (index_refines zl l Hz). cbn [mbind res_bind].
    destruct (Zset.ziplistIndex (l.*2) index) as [i|] eqn:Hi; [|by apply (push_refines zl l s false)].
    apply index_bound in Hi. rewrite length_fmap in Hi.
    destruct (insert_refines zl l i s Hz ltac:(lia) Hf') as (zl' & l' & Hr & Hh & He & _). eauto.
  - cbn [run_op step_op] in *. rewrite (index_refines zl l Hz). cbn [mbind res_bind].
    destruct (Zset.ziplistIndex (l.*2) index) as [i|] eqn:Hi; [|by exists zl, l].
    apply index_bound in Hi. rewrite length_fmap in Hi.
    destruct (delete_refines zl l i 1 Hz Hi ltac:(lia) Hf) as (zl' & l' & Hr & Hh & He & _). exists zl', l'. split_and!; [done..|].
    rewrite He. unfold delete_entries, Zset.ziplistDelete. by rewrite Nat.add_1_r.
  - cbn [run_op step_op] in *. unfold ziplistDeleteRange. rewrite (index_refines zl l Hz). cbn [mbind res_bind].
    destruct (Zset.ziplistIndex (l.*2) index) as [i|] eqn:Hi; [|by exists zl, l].
    apply index_bound in Hi. rewrite length_fmap in Hi. cbn [fmap option_fmap option_map]. destruct num as [|num].
    + rewrite (delete_none zl l i Hz Hi). exists zl, l. split_and!; [done..|]. unfold delete_entries. by rewrite Nat.add_0_r, take_drop.
    + destruct (delete_refines zl l i (S num) Hz Hi ltac:(lia) Hf) as (zl' & l' & Hr & Hh & He & _). eauto.
  - cbn [run_op step_op] in *. destruct (len_refines zl l Hz) as (zl' & Hr & Hh). rewrite Hr. by exists zl', l.
Qed.

Lemma ops_refine os : forall zl l, holds zl l -> fits_in (l.*2) -> always_fits (l.*2) os ->
  exists zl' l', foldM run_op zl os = Ok zl' /\ holds zl' l' /\ l'.*2 = fold_left step_op os (l.*2).
Proof.
  induction os as [|o os IH]; intros zl l Hz Hf Hos; [by exists zl, l|]. destruct Hos as [Ho Hos].
  destruct (op_refines zl l o Hz Hf Ho) as (zl1 & l1 & Hr & Hz1 & He). cbn [foldM fold_left]. rewrite Hr. cbn [mbind res_bind].
  rewrite <- He in *. by apply IH.
Qed.

(** C25 (type): every ziplist is well formed.  A ziplist that is created by
    [ziplistNew] and changed by any sequence of pushes, insertions, deletions,
    range deletions and [ziplistLen] is never read or written out of its bounds,
    nor read where nothing was written, no loop diverges, and at the end the
    block is the layout of the entries that the same operations give on a list:
    its size and the tail offset are right, every entry holds the length of the
    one before it, and the end marker is in its place.  The entries must fit in
    2^32 bytes. *)
Theorem ziplist_well_formed os : always_fits [] os ->
  exists zl l, (zl ← ziplistNew; foldM run_op zl os) = Ok zl /\ holds zl l /\ l.*2 = fold_left step_op os [].
Proof.
  intros Hf. destruct holds_new as (zl0 & -> & Hz). cbn [mbind res_bind].
  apply (ops_refine os zl0 []); [done|vm_compute; reflexivity|done].
Qed.

(** ** Single operations *)

(** C26 (refinement): insertion and deletion at a pointer.  In a ziplist that
    holds the entries [l], with the pointer at entry [i] or, for an insertion, at
    the end: [ziplistInsert] gives a ziplist that holds what the insertion in the
    list of entries gives, and [__ziplistDelete] of [num] entries one that holds
    the others.  The entries before [i] have not moved, so the pointer is at the
    new entry, or at the one after the deleted ones. *)
Theorem ziplist_edits_refine zl l i : holds zl l -> fits_in (l.*2) ->
  (forall s, (i <= length l)%nat -> fits_in (Zset.ziplistInsert (l.*2) i s) ->
    exists zl' l', ziplistInsert zl (offset l i) s = Ok zl' /\ holds zl' l' /\ l'.*2 = Zset.ziplistInsert (l.*2) i s /\
      offset l' i = offset l i) /\
  (forall num, (i < length l)%nat -> (0 < num)%nat ->
    exists zl' l', __ziplistDelete zl (offset l i) num = Ok zl' /\ holds zl' l' /\ l'.*2 = delete_entries (l.*2) i num /\
      offset l' i = offset l i).
Proof.
  intros Hz Hf. split; [intros s Hi Hs|intros num Hi Hnum].
  - destruct (insert_refines zl l i s Hz Hi Hs) as (zl' & l' & Hr & Hh & He & Ht%offset_take). by exists zl', l'.
  - destruct (delete_refines zl l i num Hz Hi Hnum Hf) as (zl' & l' & Hr & Hh & He & Ht%offset_take). by exists zl', l'.
Qed.

(** C27 (functional): reading a ziplist.  In a ziplist that holds the entries [l],
    [ziplistIndex] from either end, and [ziplistNext], [ziplistPrev],
    [ziplistGet], [ziplistCompare] and [ziplistFind] at the pointer to entry [i],
    or to the end, answer what they answer on the list of entries; [ziplistLen]
    counts the entries, also when the count field is saturated. *)
Theorem ziplist_reads_refine zl l i : holds zl l -> (i <= length l)%nat ->
  (forall index, ziplistIndex zl index = Ok (offset l <$> Zset.ziplistIndex (l.*2) index)) /\
  ziplistNext zl (offset l i) = Ok (offset l <$> Zset.ziplistNext (l.*2) i) /\
  ziplistPrev zl (offset l i) = Ok (offset l <$> Zset.ziplistPrev (l.*2) i) /\
  ziplistGet zl (Some (offset l i)) = Ok (reading <$> Zset.ziplistGet (l.*2) (Some i)) /\
  (forall s, ziplistCompare zl (offset l i) s = Ok (Zset.ziplistCompare (l.*2) i s)) /\
  (forall vs skip, ziplistFind zl (offset l i) vs (Z.of_nat skip) =
    Ok ((fun j => offset l (i + j)) <$> find_entry (drop i (l.*2)) vs skip 0)) /\
  exists zl', ziplistLen zl = Ok (Z.of_nat (length l), zl') /\ holds zl' l.
Proof.
  intros Hz Hi. pose proof (holds_entries zl l Hz) as He. split_and!.
  - by apply index_refines.
  - by apply next_refines.
  - by apply prev_refines.
  - by apply get_refines.
  - intros s. by apply compare_refines.
  - intros vs skip. apply (find_refines zl l He _ i vs skip 0 None); [done| |by left]. pose proof (length_zl zl l He). lia.
  - by apply len_refines.
Qed.

(** C28 (roundtrip): what is stored is read back.  After [ziplistInsert] of a
    string the entry at the pointer compares equal to it, and [ziplistGet] gives
    its bytes or, when the string is the decimal form of a 64-bit integer, that
    integer. *)
Theorem ziplist_insert_get zl l i s : holds zl l -> (i <= length l)%nat -> fits_in (Zset.ziplistInsert (l.*2) i s) ->
  exists zl', ziplistInsert zl (offset l i) s = Ok zl' /\ ziplistCompare zl' (offset l i) s = Ok true /\
    (ziplistGet zl' (Some (offset l i)) = Ok (Some (inl (str_bytes s))) \/
     exists z, ziplistGet zl' (Some (offset l i)) = Ok (Some (inr z)) /\ print_int z = s).
Proof.
  intros Hz Hi Hf. destruct (insert_refines zl l i s Hz Hi Hf) as (zl' & l' & Hr & Hh & He & Ht). exists zl'.
  assert (l'.*2 !! i = Some (zl_entry s)) as Hat.
  { rewrite He. unfold Zset.ziplistInsert. apply list_lookup_middle. rewrite length_take, length_fmap. lia. }
  assert (i <= length l')%nat as Hi'. { apply lookup_lt_Some in Hat. rewrite length_fmap in Hat. lia. }
  apply offset_take in Ht. rewrite <- Ht in *. pose proof (holds_entries zl' l' Hh) as Hent. split_and!; [done| |].
  - rewrite (compare_refines zl' l' Hent) by done. unfold Zset.ziplistCompare. rewrite Hat. unfold zl_entry.
    destruct (zipTryEncoding s) as [z|]; [by rewrite Z.eqb_refl|by rewrite bool_decide_eq_true_2].
  - rewrite (get_refines zl' l' Hent) by done. cbn [Zset.ziplistGet mbind option_bind]. rewrite Hat. unfold zl_entry.
    destruct (zipTryEncoding s) as [z|] eqn:Hz'; [right|by left]. exists z. split; [done|].
    unfold zipTryEncoding in Hz'. case_match; [done|]. by apply string2ll_strict in Hz' as [? _].
Qed.

(** Merging.  [ziplistMerge] of two ziplists, the second one
    not empty, gives a ziplist that holds the entries of the first and then
    those of the second. *)
Theorem ziplist_merge_refines zl1 l1 zl2 l2 : holds zl1 l1 -> holds zl2 l2 -> l2 <> [] -> fits_in (l1.*2 ++ l2.*2) ->
  exists zl' l', ziplistMerge zl1 zl2 = Ok zl' /\ holds zl' l' /\ l'.*2 = l1.*2 ++ l2.*2.
Proof. apply merge_refines. Qed.

(** C40 (error): merging with an empty ziplist as the second loses the tail.  The
    tail offset of the result is the offset of the end marker, so the last entry
    is not found from the tail, although all the entries are there. *)
Theorem ziplist_merge_empty_tail zl1 l1 zl2 : holds zl1 l1 -> holds zl2 [] -> l1 <> [] ->
  exists zl', ziplistMerge zl1 zl2 = Ok zl' /\ ziplistIndex zl' (-1) = Ok None /\
    forall i, (i < length l1)%nat -> ziplistGet zl' (Some (offset l1 i)) = Ok (reading <$> l1.*2 !! i).
Proof. apply merge_with_empty. Qed.

(** ** Instances *)

(** A string that is too long for a one-byte length, and operations that make
    the length fields grow and cascade. *)
Definition long_string : string := String.string_of_list_ascii (repeat "x"%char 300).
Definition edge_string : string := String.string_of_list_ascii (repeat "y"%char 250).
Definition sample_ops : list zl_op :=
  [ZPush edge_string true; ZPush edge_string false; ZPush "7" false; ZInsert 0 long_string; ZInsert (-1) "-70000"; ZDelete 0;
   ZPush "last" false; ZDeleteRange 1 1; ZLen].

Lemma ziplist_well_formed_witness :
  always_fits [] sample_ops /\
  exists zl l, (zl ← ziplistNew; foldM run_op zl sample_ops) = Ok zl /\ holds zl l /\
    l.*2 = [ZlStr edge_string; ZlInt (-70000); ZlInt 7; ZlStr "last"].
Proof.
  assert (always_fits [] sample_ops) as Hf by (repeat split; vm_compute; reflexivity).
  split; [exact Hf|]. destruct (ziplist_well_formed sample_ops Hf) as (zl & l & Hr & Hz & He). exists zl, l.
  split_and!; [exact Hr|exact Hz|]. rewrite He. vm_compute. reflexivity.
Defined.

Definition sample_entries : list zlentry := [ZlStr long_string; ZlInt 5; ZlStr "z"].
Lemma sample_holds : exists zl l, holds zl l /\ l.*2 = sample_entries.
Proof.
  destruct holds_new as (zl0 & _ & Hz).
  destruct (ops_refine [ZPush long_string false; ZPush "5" false; ZPush "z" false] zl0 [] Hz) as (zl & l & _ & Hh & He).
  - vm_compute. reflexivity.
  - repeat split; vm_compute; reflexivity.
  - exists zl, l. split; [exact Hh|]. rewrite He. vm_compute. reflexivity.
Qed.

Lemma sample_length (l : elist) : l.*2 = sample_entries -> length l = 3%nat.
Proof. intros He. by apply (f_equal length) in He; rewrite length_fmap in He. Qed.

Lemma ziplist_edits_refine_witness :
  exists zl l zl1 (l1 : elist) zl2 (l2 : elist), holds zl l /\ l.*2 = sample_entries /\
    ziplistInsert zl (offset l 0) "head" = Ok zl1 /\ l1.*2 = ZlStr "head" :: sample_entries /\
    __ziplistDelete zl (offset l 0) 2 = Ok zl2 /\ l2.*2 = [ZlStr "z"].
Proof.
  destruct sample_holds as (zl & l & Hz & He). pose proof (sample_length l He) as Hlen.
  assert (fits_in (l.*2)) as Hf by (rewrite He; vm_compute; reflexivity).
  destruct (ziplist_edits_refine zl l 0 Hz Hf) as [Hins Hdel].
  destruct (Hins "head") as (zl1 & l1 & H1 & _ & He1 & _); [lia|rewrite He; vm_compute; reflexivity|].
  destruct (Hdel 2%nat) as (zl2 & l2 & H2 & _ & He2 & _); [lia|lia|].
  exists zl, l, zl1, l1, zl2, l2. split_and!; [exact Hz|exact He|exact H1| |exact H2|].
  - rewrite He1, He. reflexivity.
  - rewrite He2, He. reflexivity.
Defined.

Lemma ziplist_reads_refine_witness :
  exists zl l, holds zl l /\ ziplistIndex zl (-1) = Ok (Some (offset l 2)) /\ ziplistPrev zl (offset l 2) = Ok (Some (offset l 1)) /\
    ziplistGet zl (Some (offset l 2)) = Ok (Some (inl [122])) /\ ziplistCompare zl (offset l 2) "5" = Ok false.
Proof.
  destruct sample_holds as (zl & l & Hz & He). pose proof (sample_length l He) as Hlen.
  destruct (ziplist_reads_refine zl l 2 Hz) as (Hi & _ & Hp & Hg & Hc & _); [lia|]. exists zl, l.
  split_and!; [exact Hz|rewrite Hi, He; reflexivity|rewrite Hp, He; reflexivity|rewrite Hg, He; reflexivity|rewrite Hc, He; reflexivity].
Defined.

Lemma ziplist_insert_get_witness :
  exists zl l zl', holds zl l /\ ziplistInsert zl (offset l 1) "-12" = Ok zl' /\ ziplistCompare zl' (offset l 1) "-12" = Ok true.
Proof.
  destruct sample_holds as (zl & l & Hz & He). pose proof (sample_length l He) as Hlen.
  destruct (ziplist_insert_get zl l 1 "-12" Hz) as (zl' & Hr & Hc & _); [lia|rewrite He; vm_compute; reflexivity|].
  exists zl, l, zl'. split_and!; [exact Hz|exact Hr|exact Hc].
Defined.

Lemma ziplist_merge_refines_witness :
  exists zl l zl' (l' : elist), holds zl l /\ ziplistMerge zl zl = Ok zl' /\ l'.*2 = sample_entries ++ sample_entries.
Proof.
  destruct sample_holds as (zl & l & Hz & He). pose proof (sample_length l He) as Hlen.
  destruct (ziplist_merge_refines zl l zl l Hz Hz) as (zl' & l' & Hr & _ & He'); [by intros ->|rewrite He; vm_compute; reflexivity|].
  exists zl, l, zl', l'. split_and!; [exact Hz|exact Hr|]. rewrite He', He. reflexivity.
Defined.

Lemma ziplist_merge_empty_tail_witness :
  exists zl l zl0 zl', holds zl l /\ l.*2 = sample_entries /\ ziplistNew = Ok zl0 /\ ziplistMerge zl zl0 = Ok zl' /\
    ziplistIndex zl' (-1) = Ok None.
Proof.
  destruct sample_holds as (zl & l & Hz & He). destruct holds_new as (zl0 & H0 & Hz0). pose proof (sample_length l He) as Hlen.
  destruct (ziplist_merge_empty_tail zl l zl0 Hz Hz0) as (zl' & Hr & Hi & _); [by intros ->|].
  exists zl, l, zl0, zl'. split_and!; [exact Hz|exact He|exact H0|exact Hr|exact Hi].
Defined.
