(* ===== verification/ZsetSpec.v ===== *)
(** * Sorted sets: both encodings implement one abstract sorted map

    The abstract state is the list of entries in order.  A ziplist shows it as
    the sequence of its entries, a skip list through its nodes and its dict. *)

From S2P Require Import Prelude Sds Double Exact Util Score Skiplist SkiplistRep SkiplistSpec Zset.
From Stdlib Require Import Ascii SpecFloat.

(** ** Entries of a ziplist *)

Lemma zl_entry_bytes e : entry_bytes (zl_entry e) = Ok e.
Proof.
  unfold zl_entry, zipTryEncoding. destruct (_ || _); [done|].
  destruct (string2ll e) as [z|] eqn:E; [|done]. apply string2ll_strict in E as [<- Hz]. simpl. unfold ll_bytes.
  destruct (ll2string_spec (replicate 32 Ascii.zero) z Hz) as [junk ->]; [by rewrite length_replicate; lia|].
  cbn [mbind res_bind]. f_equal. rewrite Nat2Z.id, take_app_length'; [apply String.string_of_list_ascii_of_string|].
  by rewrite list_ascii_length.
Qed.

Lemma zl_entry_inj e e' : zl_entry e = zl_entry e' -> e = e'.
Proof.
  intros H. assert (Ok e = Ok e') as [= ->]; [|done]. by rewrite <- !zl_entry_bytes, H.
Qed.

Lemma compare_entry zl p e' e :
  zl !! p = Some (zl_entry e') -> ziplistCompare zl p e = bool_decide (e' = e).
Proof.
  intros Hp. unfold ziplistCompare. rewrite Hp. unfold zl_entry.
  destruct (zipTryEncoding e') as [z|] eqn:E; [|done].
  case_bool_decide as Hee; [subst; by rewrite E, Z.eqb_refl|].
  destruct (zipTryEncoding e) as [z'|] eqn:E'; [|done]. apply Z.eqb_neq. intros ->.
  apply Hee, zl_entry_inj. unfold zl_entry. by rewrite E, E'.
Qed.

(** [memcmp] on the common prefix and the difference of the lengths. *)
Lemma memcmp_sdscmp a b :
  let c := memcmp (String.length a `min` String.length b) a b in
  Z.sgn (if c =? 0 then Z.of_nat (String.length a) - Z.of_nat (String.length b) else c) = Z.sgn (sdscmp a b).
Proof.
  revert b. induction a as [|x a IH]; intros [|y b]; cbn [String.length Nat.min memcmp sdscmp]; try done.
  destruct (Z.eqb_spec (code x) (code y)) as [E|E].
  - cbn zeta in IH |- *. rewrite <- (IH b). f_equal. destruct (_ =? 0); lia.
  - cbn zeta. by rewrite (proj2 (Z.eqb_neq (code x - code y) 0)) by lia.
Qed.

(** ** Ziplists of a list of entries *)

Fixpoint flat (es : list zentry) : ziplist :=
  match es with [] => [] | y :: es => zl_entry y.2 :: zl_entry (d2string y.1) :: flat es end.

(** What is stored for a score is read back as the score. *)
Definition prints_back (s : double) : Prop := entry_score (zl_entry (d2string s)) = Ok s.

Lemma flat_length es : length (flat es) = (2 * length es)%nat.
Proof. induction es; simpl; lia. Qed.

Lemma flat_app a b : flat (a ++ b) = flat a ++ flat b.
Proof. induction a as [|y a IH]; simpl; [done|]. by rewrite IH. Qed.

Section At.
Context (EA : list zentry) (y : zentry) (EB : list zentry).
Notation i := (2 * length EA)%nat.

Lemma flat_ele : flat (EA ++ y :: EB) !! i = Some (zl_entry y.2).
Proof. rewrite flat_app, lookup_app_r; rewrite flat_length; [|lia]. by rewrite Nat.sub_diag. Qed.

Lemma flat_score : flat (EA ++ y :: EB) !! S i = Some (zl_entry (d2string y.1)).
Proof.
  rewrite flat_app, lookup_app_r; rewrite flat_length; [|lia]. by replace (S i - i)%nat with 1%nat by lia.
Qed.

Lemma next_score : ziplistNext (flat (EA ++ y :: EB)) i = Some (S i).
Proof. unfold ziplistNext. rewrite decide_True; [done|]. rewrite flat_length, length_app. simpl. lia. Qed.

(** The first element of the entries that start at an index. *)
Definition first_at (k : nat) (es : list zentry) : option nat := match es with [] => None | _ => Some k end.

Lemma next_ele : ziplistNext (flat (EA ++ y :: EB)) (S i) = first_at (S (S i)) EB.
Proof.
  unfold ziplistNext, first_at. rewrite flat_length, length_app. simpl. destruct EB as [|w EB']; simpl.
  - by rewrite decide_False by lia.
  - by rewrite decide_True by lia.
Qed.

Lemma get_score : prints_back y.1 -> zzlGetScore (flat (EA ++ y :: EB)) (Some (S i)) = Ok y.1.
Proof. intros H. unfold zzlGetScore, ziplistGet. cbn [assert_ptr of_option mbind res_bind option_bind]. by rewrite flat_score. Qed.

Lemma next_pair : zzlNext (flat (EA ++ y :: EB)) (S i) = Ok (first_at (S (S i)) EB, first_at (S (S (S i))) EB).
Proof.
  unfold zzlNext. rewrite next_ele. destruct EB as [|w EB'] eqn:E; [done|]. cbn [first_at].
  replace (S (S i)) with (2 * length (EA ++ [y]))%nat by (rewrite length_app; simpl; lia).
  replace (EA ++ y :: w :: EB') with ((EA ++ [y]) ++ w :: EB') by (by rewrite <- app_assoc).
  unfold ziplistNext. rewrite decide_True; [done|]. rewrite flat_length, !length_app. simpl. lia.
Qed.

Lemma delete_at : zzlDelete (flat (EA ++ y :: EB)) i = flat (EA ++ EB).
Proof.
  unfold zzlDelete, ziplistDelete. rewrite !flat_app. cbn [flat]. rewrite <- (flat_length EA).
  rewrite take_app_length, drop_app_ge by lia. replace (S _ - _)%nat with 1%nat by lia. simpl.
  rewrite take_app_length, drop_app_ge by lia. by replace (S _ - _)%nat with 1%nat by lia.
Qed.

Lemma insert_at e s :
  zzlInsertAt (flat (EA ++ EB)) (first_at i EB) e s = Ok (flat (EA ++ (s, e) :: EB)).
Proof.
  unfold zzlInsertAt, first_at. destruct EB as [|w EB'] eqn:E.
  - unfold ziplistPushTail, ziplistInsert. rewrite app_nil_r, !flat_app. simpl.
    rewrite !take_ge, !drop_ge by lia. by rewrite <- app_assoc.
  - unfold ziplistNext, ziplistInsert. rewrite !flat_app. cbn [flat fst snd]. rewrite <- (flat_length EA).
    rewrite take_app_length, drop_app_length. rewrite decide_True; [|rewrite length_app; simpl; lia].
    f_equal. rewrite take_app_ge, drop_app_ge by lia. replace (S _ - _)%nat with 1%nat by lia. simpl.
    by rewrite <- app_assoc.
Qed.
End At.

(** Integers print back. *)
Lemma trunc_canon s c : dig c <= 53 -> trunc s (shl (Z.to_nat (53 - dig c)) c) (dig c - 53) = cond_Zopp s (Z.pos c).
Proof.
  intros Hd. unfold trunc. rewrite shl_value, Z2Nat.id by lia. f_equal. destruct (Z.leb_spec 0 (dig c - 53)).
  - replace (dig c) with 53 by lia. simpl. lia.
  - replace (- (dig c - 53)) with (53 - dig c) by lia. apply Z.div_mul. apply Z.pow_nonzero; lia.
Qed.

Lemma d2string_Z z : Z.abs z < 4503599627370495 -> d2string (double_of_Z z) = print_int z.
Proof.
  intros Hz. destruct (double_of_Z_cases z) as [->|(s & c & Hd & Ez & E)]; [lia|done|].
  assert (dlt DBL_INT_MIN (double_of_Z z) = true) as H1.
  { unfold DBL_INT_MIN. rewrite dlt_Z by lia. apply Z.ltb_lt. lia. }
  assert (dlt (double_of_Z z) DBL_INT_MAX = true) as H2.
  { unfold DBL_INT_MAX. rewrite dlt_Z by lia. apply Z.ltb_lt. lia. }
  assert (deq (double_of_Z z) (double_of_Z z) = true) as H3 by (rewrite deq_Z by lia; apply Z.eqb_refl).
  rewrite E in *. unfold canon in *. unfold d2string. rewrite H1, H2. rewrite trunc_canon, <- Ez, E by done.
  cbn [andb]. by rewrite H3.
Qed.

Lemma print_int_short z : LLONG_MIN <= z <= LLONG_MAX -> (0 < String.length (print_int z) < 32)%nat.
Proof.
  unfold LLONG_MIN, LLONG_MAX. intros Hz. pose proof (print_int_length z) as Hl.
  pose proof (ndigits_le 20 (Z.abs z) ltac:(lia) ltac:(simpl; lia)) as Hn.
  assert (Z.b2z (z <? 0) <= 1) by (destruct (z <? 0); simpl; lia).
  assert (0 <= Z.b2z (z <? 0)) by (destruct (z <? 0); simpl; lia). lia.
Qed.

Lemma prints_back_Z z : Z.abs z < 4503599627370495 -> prints_back (double_of_Z z).
Proof.
  intros Hz. unfold prints_back. rewrite d2string_Z by done. unfold zl_entry, zipTryEncoding.
  assert (LLONG_MIN <= z <= LLONG_MAX) as Hr by (unfold LLONG_MIN, LLONG_MAX; lia).
  pose proof (print_int_short z Hr). rewrite (proj2 (Z.leb_gt _ _)), (proj2 (Z.eqb_neq _ _)) by lia. cbn [orb].
  by rewrite string2ll_print_int.
Qed.

(** ** Searching a ziplist *)

Definition all_back (es : list zentry) : Prop := Forall (fun y => prints_back y.1) es.

Lemma index_first es : ziplistIndex (flat es) 0 = first_at 0 es.
Proof. by destruct es. Qed.

Lemma first_at_snoc (EA : list zentry) (y : zentry) (EB : list zentry) :
  first_at (S (S (2 * length EA))) EB = first_at (2 * length (EA ++ [y])) EB.
Proof. rewrite length_app. simpl. by replace (S (S _)) with (length EA + 1 + (length EA + 1 + 0))%nat by lia. Qed.

Lemma find_from_some fuel EA EB y EC want :
  y.2 ∉ EB.*2 -> prints_back y.1 -> (length EB < fuel)%nat ->
  zzlFind_from fuel (flat (EA ++ EB ++ y :: EC)) y.2 want (first_at (2 * length EA) (EB ++ y :: EC)) =
  Ok (Some ((2 * length (EA ++ EB))%nat, if want then y.1 else dzero)).
Proof.
  intros Hy Hb. revert EA fuel. induction EB as [|v EB IH]; intros EA fuel Hf;
    (destruct fuel as [|fuel]; [simpl in Hf; lia|]); cbn [zzlFind_from first_at app].
  - rewrite next_score. cbn [assert_ptr of_option mbind res_bind].
    rewrite (compare_entry _ _ y.2) by apply flat_ele. rewrite bool_decide_true by done.
    rewrite app_nil_r. destruct want; [|done]. by rewrite get_score.
  - rewrite next_score. cbn [assert_ptr of_option mbind res_bind].
    rewrite (compare_entry _ _ v.2) by apply flat_ele.
    rewrite bool_decide_false by (intros E; apply Hy; simpl; rewrite E; by left).
    rewrite next_ele, (first_at_snoc EA v).
    specialize (IH ltac:(intros H; apply Hy; by right) (EA ++ [v]) fuel ltac:(simpl in Hf; lia)).
    rewrite <- !app_assoc in IH. exact IH.
Qed.

Lemma find_from_none fuel EA EB e want :
  e ∉ EB.*2 -> (length EB < fuel)%nat ->
  zzlFind_from fuel (flat (EA ++ EB)) e want (first_at (2 * length EA) EB) = Ok None.
Proof.
  revert EA fuel. induction EB as [|v EB IH]; intros EA fuel He Hf;
    (destruct fuel as [|fuel]; [simpl in Hf; lia|]); cbn [zzlFind_from first_at]; [done|].
  rewrite next_score. cbn [assert_ptr of_option mbind res_bind].
  rewrite (compare_entry _ _ v.2) by apply flat_ele.
  rewrite bool_decide_false by (intros E; apply He; simpl; rewrite E; by left).
  rewrite next_ele, (first_at_snoc EA v).
  specialize (IH (EA ++ [v]) fuel ltac:(intros H; apply He; by right) ltac:(simpl in Hf; lia)).
  by rewrite <- app_assoc in IH.
Qed.

Lemma zzlFind_some EA y EB want :
  y.2 ∉ EA.*2 -> prints_back y.1 ->
  zzlFind (flat (EA ++ y :: EB)) y.2 want = Ok (Some ((2 * length EA)%nat, if want then y.1 else dzero)).
Proof.
  intros Hy Hb. unfold zzlFind. rewrite index_first.
  apply (find_from_some _ [] EA y EB); [done..|]. rewrite flat_length, length_app. lia.
Qed.

Lemma zzlFind_none es e want : e ∉ es.*2 -> zzlFind (flat es) e want = Ok None.
Proof.
  intros He. unfold zzlFind. rewrite index_first. apply (find_from_none _ [] es); [done|].
  rewrite flat_length. lia.
Qed.

Lemma rank_from_spec fuel EA EB y EC r :
  y.2 ∉ EB.*2 -> (length EB < fuel)%nat ->
  zzlRank_from fuel (flat (EA ++ EB ++ y :: EC)) y.2 (first_at (2 * length EA) (EB ++ y :: EC))
    (first_at (S (2 * length EA)) (EB ++ y :: EC)) r = Ok (Some (r + Z.of_nat (length EB))).
Proof.
  revert EA fuel r. induction EB as [|v EB IH]; intros EA fuel r Hy Hf;
    (destruct fuel as [|fuel]; [simpl in Hf; lia|]); cbn [zzlRank_from first_at app].
  - rewrite (compare_entry _ _ y.2) by apply flat_ele. rewrite bool_decide_true by done.
    simpl. by rewrite Z.add_0_r.
  - rewrite (compare_entry _ _ v.2) by apply flat_ele.
    rewrite bool_decide_false by (intros E; apply Hy; simpl; rewrite E; by left).
    cbn [assert_ptr of_option mbind res_bind]. rewrite next_pair. cbn [mbind res_bind].
    specialize (IH (EA ++ [v]) fuel (r + 1) ltac:(intros H; apply Hy; by right) ltac:(simpl in Hf; lia)).
    rewrite <- !app_assoc in IH. rewrite (first_at_snoc EA v).
    replace (S (S (S (2 * length EA)))) with (S (2 * length (EA ++ [v]))) by (rewrite length_app; simpl; lia).
    etrans; [exact IH|]. do 2 f_equal. simpl. lia.
Qed.

Lemma rank_from_none fuel EA EB e r :
  e ∉ EB.*2 -> (length EB < fuel)%nat ->
  zzlRank_from fuel (flat (EA ++ EB)) e (first_at (2 * length EA) EB) (first_at (S (2 * length EA)) EB) r = Ok None.
Proof.
  revert EA fuel r. induction EB as [|v EB IH]; intros EA fuel r He Hf;
    (destruct fuel as [|fuel]; [simpl in Hf; lia|]); cbn [zzlRank_from first_at]; [done|].
  rewrite (compare_entry _ _ v.2) by apply flat_ele.
  rewrite bool_decide_false by (intros E; apply He; simpl; rewrite E; by left).
  cbn [assert_ptr of_option mbind res_bind]. rewrite next_pair. cbn [mbind res_bind].
  specialize (IH (EA ++ [v]) fuel (r + 1) ltac:(intros H; apply He; by right) ltac:(simpl in Hf; lia)).
  rewrite <- app_assoc in IH. rewrite (first_at_snoc EA v).
  by replace (S (S (S (2 * length EA)))) with (S (2 * length (EA ++ [v]))) by (rewrite length_app; simpl; lia).
Qed.

(** ** Insertion into a ziplist *)

(** The test of [zzlInsert]: insert before the first entry that is not below. *)
Lemma insert_here EA y EB k :
  is_num y -> is_num k -> y.2 <> k.2 ->
  (if dlt k.1 y.1 then Ok true
   else if deq y.1 k.1 then c ← zzlCompareElements (flat (EA ++ y :: EB)) (2 * length EA) k.2; Ok (0 <? c)
   else Ok false) = Ok (negb (entry_lt y k)).
Proof.
  intros Hy Hk Hne. unfold is_num in *. unfold zzlCompareElements, ziplistGet. cbn [mbind option_bind]. rewrite flat_ele.
  cbn [of_option mbind res_bind]. rewrite zl_entry_bytes. cbn [mbind res_bind]. unfold entry_lt.
  pose proof (memcmp_sdscmp y.2 k.2) as Hc. cbn zeta in Hc. set (c := if memcmp _ _ _ =? 0 then _ else _) in *.
  assert (sdscmp y.2 k.2 <> 0) as Hz by (by rewrite sdscmp_eq).
  assert ((0 <? c) = negb (sdscmp y.2 k.2 <? 0)) as -> by (clearbody c; zbool; lia).
  destruct (dlt k.1 y.1) eqn:E1.
  - apply dlt_key in E1; [|done|done]. destruct (dlt y.1 k.1) eqn:E2.
    + apply dlt_key in E2; [|done|done]. by rewrite lex_antisym, E1 in E2.
    + destruct (deq y.1 k.1) eqn:E3; [|done]. apply deq_key in E3; [|done|done]. by rewrite E3, lex_refl in E1.
  - destruct (deq y.1 k.1) eqn:E3.
    + apply deq_key in E3; [|done|done]. destruct (dlt y.1 k.1) eqn:E2; [|done].
      apply dlt_key in E2; [|done|done]. by rewrite E3, lex_refl in E2.
    + destruct (dlt y.1 k.1) eqn:E2; [done|]. exfalso.
      apply not_true_iff_false in E1, E2, E3. rewrite dlt_key in E1, E2 by done. rewrite deq_key in E3 by done.
      rewrite lex_antisym in E1. destruct (lex (dkey y.1) (dkey k.1)) eqn:E; try done. by apply lex_eq in E.
Qed.

Lemma zzlInsert_spec es k :
  zordered es -> all_back es -> is_num k -> k.2 ∉ es.*2 ->
  zzlInsert (flat es) k.2 k.1 = Ok (flat (zinsert k es)).
Proof.
  intros Ho Hb Hk Hn. unfold zzlInsert. rewrite index_first.
  assert (forall EB EA fuel, zordered EB -> all_back EB -> k.2 ∉ EB.*2 -> (length EB < fuel)%nat ->
    zzlInsert_from fuel (flat (EA ++ EB)) k.2 k.1 (first_at (2 * length EA) EB) = Ok (flat (EA ++ zinsert k EB))) as H.
  { clear es Ho Hb Hn. induction EB as [|y EB IH]; intros EA fuel Ho Hb Hn Hf;
      (destruct fuel as [|fuel]; [simpl in Hf; lia|]).
    - cbn [zzlInsert_from first_at zinsert]. pose proof (insert_at EA [] k.2 k.1) as H. by destruct k.
    - apply Forall_cons in Hb as [Hb1 Hb].
      cbn [zzlInsert_from first_at]. rewrite next_score. cbn [assert_ptr of_option mbind res_bind].
      rewrite get_score by done. cbn [mbind res_bind].
      rewrite insert_here; [|by destruct (Forall_cons_1 _ _ _ (zo_num _ Ho))|done|].
      2:{ intros E. apply Hn. simpl. rewrite E. by left. }
      cbn [mbind res_bind zinsert]. destruct (entry_lt y k); cbn [negb].
      + rewrite next_ele, (first_at_snoc EA y).
        specialize (IH (EA ++ [y]) fuel ltac:(by apply (zordered_app [y] EB) in Ho as (_ & ? & _)) Hb
          ltac:(intros H; apply Hn; by right) ltac:(simpl in Hf; lia)).
        by rewrite <- !app_assoc in IH.
      + pose proof (insert_at EA (y :: EB) k.2 k.1) as H. by destruct k. }
  apply (H es [] _); try done. rewrite flat_length. lia.
Qed.

Lemma zzlInsert_pair es s e :
  zordered es -> all_back es -> isnan s = false -> e ∉ es.*2 ->
  zzlInsert (flat es) e s = Ok (flat (zinsert (s, e) es)).
Proof. intros Ho Hb Hs He. by apply (zzlInsert_spec es (s, e)). Qed.

(** ** Scores *)

Lemma zscore_Some e es s : zscore e es = Some s -> (s, e) ∈ es.
Proof.
  unfold zscore. destruct (filter _ es) as [|[s' e'] r] eqn:E; [done|]. simpl. intros [= ->].
  assert ((s, e') ∈ filter (fun y : zentry => y.2 = e) es) as H by (rewrite E; by left).
  apply list_elem_of_filter in H as [<- H]. done.
Qed.

Lemma zscore_None e es : zscore e es = None <-> e ∉ es.*2.
Proof.
  split.
  - intros H (y & -> & Hy)%list_elem_of_fmap. unfold zscore in H.
    destruct (filter _ es) eqn:E; [|done]. assert (y ∈ filter (fun w : zentry => w.2 = y.2) es) as Hin
      by (by apply list_elem_of_filter). rewrite E in Hin. by apply elem_of_nil in Hin.
  - intros H. destruct (zscore e es) as [s|] eqn:E; [|done]. apply zscore_Some in E.
    destruct H. by apply (list_elem_of_fmap_2 snd) in E.
Qed.

Lemma zscore_elem e es s : zordered es -> (s, e) ∈ es -> zscore e es = Some s.
Proof.
  intros Ho Hin. destruct (zscore e es) as [s'|] eqn:E.
  - apply zscore_Some in E. apply list_elem_of_lookup in E as [i Hi], Hin as [j Hj].
    pose proof (zo_nodup _ Ho) as Hn. assert (i = j) as ->; [|congruence].
    eapply NoDup_lookup; [exact Hn| |]; rewrite list_lookup_fmap; [by rewrite Hi|by rewrite Hj].
  - apply zscore_None in E. destruct E. by apply (list_elem_of_fmap_2 snd) in Hin.
Qed.

(** The entries around the one of an element. *)
Lemma zscore_split e es s :
  zordered es -> zscore e es = Some s ->
  exists EA EB, es = EA ++ (s, e) :: EB /\ e ∉ EA.*2 /\ zremove e es = EA ++ EB.
Proof.
  intros Ho Hs. apply zscore_Some in Hs. apply list_elem_of_split in Hs as (EA & EB & ->).
  pose proof (zo_nodup _ Ho) as Hn. rewrite fmap_app, fmap_cons in Hn. apply NoDup_app in Hn as (H1 & H2 & H3).
  apply NoDup_cons in H3 as [H3 _]. exists EA, EB. split_and!; [done|intros H; eapply H2; [exact H|by left]|].
  unfold zremove. rewrite filter_app, filter_cons_False by (intros H; by apply H).
  rewrite !filter_all; [done| |]; intros [s' e'] Hin E; simpl in *; subst.
  - apply H3. by apply (list_elem_of_fmap_2 snd) in Hin.
  - apply (H2 e); [by apply (list_elem_of_fmap_2 snd) in Hin|by left].
Qed.

Lemma zremove_notin e es : e ∉ (zremove e es).*2.
Proof. intros (y & -> & Hy)%list_elem_of_fmap. by apply list_elem_of_filter in Hy as [? _]. Qed.

Lemma zinsert_perm k es : zinsert k es ≡ₚ k :: es.
Proof.
  induction es as [|y es IH]; simpl; [done|]. destruct (entry_lt y k); [|done]. rewrite IH. by constructor.
Qed.

Lemma zordered_zinsert k es : zordered es -> is_num k -> k.2 ∉ es.*2 -> zordered (zinsert k es).
Proof.
  intros Ho Hk Hn. destruct (key_split k es Ho Hk) as (EA & EB & -> & HA & HB).
  rewrite zinsert_split; [by apply zordered_insert|done|]. intros y Hy. apply HB. destruct EB; [done|].
  injection Hy as ->. by left.
Qed.

(** ** Random draws *)

(** The calls of [zslRandomLevel] a supply of draws is good for. *)
Definition stops (r : Z) : Prop := 65535 <= 4 * Z.land r 65535.
#[export] Instance stops_dec r : Decision (stops r).
Proof. unfold stops. apply _. Defined.
Definition draws (rs : list Z) : nat := length (filter stops rs).

Lemma draw rs :
  (0 < draws rs)%nat -> exists lv rs', zslRandomLevel rs = Ok (lv, rs') /\ draws rs = S (draws rs').
Proof.
  unfold zslRandomLevel. generalize 1%nat. induction rs as [|r rs IH]; intros n Hd; [simpl in Hd; unfold draws in Hd; simpl in Hd; lia|].
  cbn [random_level]. unfold draws in *. rewrite filter_cons in Hd |- *.
  destruct (Z.ltb_spec (4 * Z.land r 65535) 65535) as [H|H].
  - rewrite (decide_False (P := stops r)) in Hd |- * by (unfold stops; lia). by apply IH.
  - rewrite (decide_True (P := stops r)) in Hd |- * by (unfold stops; lia). eauto.
Qed.

(** ** Skip lists with their dict *)

Definition dict_ok (d : gmap string nat) (z : zskiplist) (l : list nat) : Prop :=
  forall e a, d !! e = Some a <-> a ∈ l /\ exists s, data z a = Some (s, Some e).

Definition sk_view (d : gmap string nat) (z : zskiplist) (es : list zentry) : Prop :=
  exists l, zsl_view z l es /\ dict_ok d z l.

Lemma node_entry z l es a : zsl_view z l es -> a ∈ l -> exists y, y ∈ es /\ data z a = Some (y.1, Some y.2).
Proof.
  intros Hv Ha. apply list_elem_of_lookup in Ha as [i Hi].
  destruct (Forall2_lookup_l _ _ _ _ _ (v_entries _ _ _ Hv) Hi) as (y & Hy & Hd).
  exists y. split; [|done]. by eapply list_elem_of_lookup_2.
Qed.

Lemma entry_node z l es y : zsl_view z l es -> y ∈ es -> exists a, a ∈ l /\ data z a = Some (y.1, Some y.2).
Proof.
  intros Hv Hy. apply list_elem_of_lookup in Hy as [i Hi].
  destruct (Forall2_lookup_r _ _ _ _ _ (v_entries _ _ _ Hv) Hi) as (a & Ha & Hd).
  exists a. split; [|done]. by eapply list_elem_of_lookup_2.
Qed.

Lemma data_score z a s e : data z a = Some (s, e) -> score_of z a = Ok s.
Proof. unfold data, score_of, node. destruct (nodes z !! a) as [n|]; simpl; [|done]. by intros [= -> _]. Qed.

Lemma sk_find d z es e :
  sk_view d z es ->
  match zscore e es with
  | Some s => exists a, d !! e = Some a /\ score_of z a = Ok s
  | None => d !! e = None
  end.
Proof.
  intros (l & Hv & Hd). pose proof (v_ordered _ _ _ Hv) as Ho. destruct (zscore e es) as [s|] eqn:E.
  - apply zscore_Some in E. destruct (entry_node _ _ _ _ Hv E) as (a & Ha & Hda). simpl in Hda.
    exists a. split; [apply Hd; eauto|]. by eapply data_score.
  - apply zscore_None in E. destruct (d !! e) as [a|] eqn:Ed; [|done]. exfalso.
    apply Hd in Ed as (Ha & s & Hs). destruct (node_entry _ _ _ _ Hv Ha) as (y & Hy & Hdy).
    rewrite Hs in Hdy. injection Hdy as _ ->. apply E. by apply (list_elem_of_fmap_2 snd).
Qed.

Lemma brk_out z l es : zsl_view z l es -> brk z ∉ l.
Proof.
  intros Hv Hin. pose proof (r_alloc _ _ (v_rep _ _ _ Hv) (brk z) ltac:(by right)) as H.
  apply (r_brk _ _ (v_rep _ _ _ Hv)) in H. lia.
Qed.

Lemma sk_insert d z es k rs :
  sk_view d z es -> is_num k -> k.2 ∉ es.*2 -> Z.of_nat (length es) + 1 < 2 ^ 32 -> (0 < draws rs)%nat ->
  exists x z' rs', zslInsert z k.1 k.2 rs = Ok (x, z', rs') /\ sk_view (<[k.2 := x]> d) z' (zinsert k es) /\
    draws rs = S (draws rs').
Proof.
  intros (l & Hv & Hd) Hk He Hsm Hr. destruct (draw rs Hr) as (lv & rs' & Hrl & Hdr).
  destruct (zslInsert_view z l es k rs lv rs' Hv Hk He Hsm Hrl) as (A & B & z' & -> & Hi & Hv' & _ & Hdata).
  pose proof (brk_out _ _ _ Hv) as Hfr.
  exists (brk z), z', rs'. split_and!; [done| |done]. eexists. split; [exact Hv'|].
  intros e a. rewrite Hdata. destruct (decide (e = k.2)) as [->|Hne].
  - rewrite lookup_insert_eq. split.
    + intros [= <-]. rewrite decide_True by done. split; [rewrite elem_of_app, elem_of_cons; auto|]. eauto.
    + intros [Ha [s Hs]]. case_decide as Hb; [by subst|]. exfalso.
      assert (a ∈ A ++ B) as Hin by (rewrite elem_of_app, elem_of_cons in Ha; rewrite elem_of_app; tauto).
      destruct (node_entry _ _ _ _ Hv Hin) as (y & Hy & Hdy). rewrite Hs in Hdy. injection Hdy as _ Hy2.
      apply He. rewrite Hy2. by apply (list_elem_of_fmap_2 snd).
  - rewrite lookup_insert_ne, (Hd e a) by done. case_decide as Hb.
    + subst a. split; [by intros [? _]|]. intros [_ [s [= _ Hs]]]. congruence.
    + rewrite !elem_of_app, elem_of_cons. split; intros [? ?]; (split; [tauto|done]).
Qed.

Lemma sk_ordered d z es : sk_view d z es -> zordered es.
Proof. intros (l & Hv & _). apply (v_ordered _ _ _ Hv). Qed.

Lemma sk_num d z es s e : sk_view d z es -> zscore e es = Some s -> is_num (s, e).
Proof.
  intros Hv Hs. apply zscore_Some in Hs. pose proof (zo_num _ (sk_ordered _ _ _ Hv)) as H.
  rewrite Forall_forall in H. by apply H.
Qed.

(** Deleting an element of the dict with its node. *)
Lemma dict_ok_delete d z z' A x B s e :
  dict_ok d z (A ++ x :: B) -> data z x = Some (s, Some e) ->
  (forall a, data z' a = if decide (a = x) then None else data z a) -> dict_ok (delete e d) z' (A ++ B).
Proof.
  intros Hd Hx Hdata. assert (d !! e = Some x) as Hex by (apply Hd; split; [apply elem_of_mid|eauto]).
  intros e' a. rewrite Hdata. destruct (decide (e' = e)) as [->|Hne].
  - rewrite lookup_delete_eq. split; [done|]. intros [Ha [s' Hs']]. case_decide as Hax; [done|].
    assert (d !! e = Some a) as Hea; [|congruence]. apply Hd. split; [|eauto].
    rewrite elem_of_app, elem_of_cons. rewrite elem_of_app in Ha. tauto.
  - rewrite lookup_delete_ne, (Hd e' a) by done. rewrite !elem_of_app, elem_of_cons. case_decide as Hax.
    + subst a. split; [|by intros [_ [? ?]]]. intros [_ [s' Hs']]. congruence.
    + split; intros [? ?]; (split; [tauto|done]).
Qed.

Lemma sk_delete d z es e s :
  sk_view d z es -> zscore e es = Some s ->
  exists z', zslDelete z s e = Ok (true, z') /\ sk_view (delete e d) z' (zremove e es).
Proof.
  intros Hsv Hs. pose proof (sk_num _ _ _ _ _ Hsv Hs) as Hk. destruct Hsv as (l & Hv & Hd).
  apply zscore_Some in Hs.
  destruct (zslDelete_view z l es (s, e) (s, e) Hv Hk Hs ltac:(by split)) as (A & x & B & z' & -> & Hx & Hi & Hv' & _ & Hdata).
  simpl in *. exists z'. split; [done|]. eexists. split; [exact Hv'|]. by eapply dict_ok_delete.
Qed.

Lemma sk_update d z es e s new rs :
  sk_view d z es -> zscore e es = Some s -> isnan new = false -> (0 < draws rs)%nat ->
  exists x z' rs', zslUpdateScore z s e new rs = Ok (x, z', rs') /\
    sk_view (<[e := x]> d) z' (zinsert (new, e) (zremove e es)) /\ (draws rs <= S (draws rs'))%nat.
Proof.
  intros Hsv Hs Hn Hr. pose proof (sk_num _ _ _ _ _ Hsv Hs) as Hk. destruct Hsv as (l & Hv & Hd).
  apply zscore_Some in Hs. destruct (draw rs Hr) as (lv & rs' & Hrl & Hdr).
  destruct (zslUpdateScore_view z l es (s, e) (s, e) new rs lv rs' Hv Hk Hn Hs ltac:(by split) Hrl)
    as (x0 & x & z' & l' & rs1 & Hx0 & Hdx0 & Hu & Hrs & Hv' & Hl' & Hor & Hx & Hdata). simpl in *.
  exists x, z', rs1. split_and!; [done| |destruct Hrs as [->| ->]; lia]. exists l'. split; [done|].
  assert (d !! e = Some x0) as Hex by (apply Hd; eauto).
  intros e' a. rewrite Hl'. destruct (decide (a = x)) as [->|Hax].
  { rewrite Hx. destruct (decide (e' = e)) as [->|Hne].
    - rewrite lookup_insert_eq. split; [eauto|done].
    - rewrite lookup_insert_ne, (Hd e' x) by done. split.
      + intros [Hin [s' Hs']]. destruct Hor as [-> |?]; [|done]. rewrite Hdx0 in Hs'. congruence.
      + intros [_ [s' [= _ Hs']]]. congruence. }
  destruct (decide (a = x0)) as [->|Hax0].
  { split; [|tauto]. destruct (decide (e' = e)) as [->|Hne]; [rewrite lookup_insert_eq; congruence|].
    rewrite lookup_insert_ne, (Hd e' x0) by done. intros [_ [s' Hs']]. congruence. }
  rewrite Hdata by done. destruct (decide (e' = e)) as [->|Hne].
  - rewrite lookup_insert_eq. split; [congruence|]. intros [[?|[Ha _]] Hs']; [done|].
    assert (d !! e = Some a) by (by apply Hd). congruence.
  - rewrite lookup_insert_ne, (Hd e' a) by done. split; intros [? ?]; (split; [tauto|done]).
Qed.

Lemma sk_create : sk_view ∅ zslCreate [].
Proof.
  exists []. split; [apply zslCreate_view|]. intros e a. rewrite lookup_empty. split; [done|].
  by intros [?%elem_of_nil _].
Qed.

(** ** Changing the encoding *)

Lemma zinsert_last EA k : (forall y, y ∈ EA -> entry_lt y k = true) -> zinsert k EA = EA ++ [k].
Proof. intros H. rewrite <- (app_nil_r EA) at 1. by apply zinsert_split. Qed.

Lemma convert_from_spec fuel EA EB d z rs :
  sk_view d z EA -> zordered (EA ++ EB) -> all_back (EA ++ EB) -> Z.of_nat (length (EA ++ EB)) < 2 ^ 32 ->
  (length EB <= draws rs)%nat -> (length EB < fuel)%nat ->
  exists d' z' rs', convert_from fuel (flat (EA ++ EB)) (first_at (2 * length EA) EB) (first_at (S (2 * length EA)) EB)
      d z rs = Ok (ZSkiplist d' z', rs') /\
    sk_view d' z' (EA ++ EB) /\ (draws rs <= length EB + draws rs')%nat.
Proof.
  revert EA fuel d z rs. induction EB as [|y EB IH]; intros EA fuel d z rs Hv Ho Hb Hsm Hr Hf;
    (destruct fuel as [|fuel]; [simpl in Hf; lia|]); cbn [convert_from first_at].
  { exists d, z, rs. rewrite app_nil_r. by split_and!. }
  apply Forall_app in Hb as Hb'. destruct Hb' as [_ [Hby _]%Forall_cons].
  rewrite get_score by done. cbn [mbind res_bind]. unfold ziplistGetObject, ziplistGet.
  cbn [assert_ptr of_option mbind res_bind option_bind]. rewrite flat_ele. cbn [of_option mbind res_bind].
  rewrite zl_entry_bytes. cbn [mbind res_bind].
  pose proof Ho as (HoA & HoB & Hcross)%zordered_app.
  assert (is_num y) as Hy by (by destruct (Forall_cons_1 _ _ _ (zo_num _ HoB))).
  assert (y.2 ∉ EA.*2) as Hny.
  { intros (w & E & Hw)%list_elem_of_fmap. destruct (Hcross w y Hw) as [_ ?]; [by left|]. congruence. }
  rewrite length_app in Hsm. simpl in Hsm, Hr, Hf.
  destruct (sk_insert d z EA y rs Hv Hy Hny) as (x & z1 & rs1 & Hi & Hv1 & Hd1); [lia..|].
  rewrite Hi. cbn [mbind res_bind].
  pose proof (sk_find d z EA y.2 Hv) as Hfi. rewrite (proj2 (zscore_None _ _) Hny) in Hfi. rewrite Hfi.
  rewrite decide_False by (intros [? ?]; done). rewrite next_pair. cbn [mbind res_bind].
  rewrite zinsert_last in Hv1.
  2:{ intros w Hw. apply entry_lt_key; [|done|by apply Hcross; [|left]].
      pose proof (zo_num _ HoA) as Hall. rewrite Forall_forall in Hall. by apply Hall. }
  replace (EA ++ y :: EB) with ((EA ++ [y]) ++ EB) in * by (by rewrite <- app_assoc).
  rewrite (first_at_snoc EA y).
  replace (S (S (S (2 * length EA)))) with (S (2 * length (EA ++ [y]))) by (rewrite length_app; simpl; lia).
  destruct (IH (EA ++ [y]) fuel (<[y.2 := x]> d) z1 rs1) as (d' & z' & rs' & Hc & Hv' & Hd'); try done;
    [rewrite ?length_app; simpl; lia..|].
  exists d', z', rs'. split_and!; [done|done|simpl; lia].
Qed.

Lemma zsetConvertToSkiplist_spec es rs :
  zordered es -> all_back es -> es <> [] -> Z.of_nat (length es) < 2 ^ 32 -> (length es <= draws rs)%nat ->
  exists d z rs', zsetConvertToSkiplist (ZZiplist (flat es)) rs = Ok (ZSkiplist d z, rs') /\
    sk_view d z es /\ (draws rs <= length es + draws rs')%nat.
Proof.
  intros Ho Hb Hne Hsm Hr. unfold zsetConvertToSkiplist. rewrite index_first.
  destruct es as [|y es]; [done|]. cbn [first_at assert_ptr of_option mbind res_bind].
  pose proof (next_score [] y es) as Hnx. cbn [app length Nat.mul Nat.add] in Hnx. rewrite Hnx. cbn [assert_ptr of_option mbind res_bind].
  apply (convert_from_spec _ [] (y :: es)); try done; [apply sk_create|]. rewrite flat_length. simpl. lia.
Qed.

Lemma flatten_from_spec fuel z pre l EA EB h :
  zsl_rep z (pre ++ l) -> header z :: pre = h -> entries z l EB -> (length l < fuel)%nat ->
  flatten_from fuel z (head l) (flat EA) = Ok (flat (EA ++ EB)).
Proof.
  intros Hrep Eh He. revert pre h EA fuel Hrep Eh. induction He as [|a y l EB Ha He IH]; intros pre h EA fuel Hrep Eh Hf;
    (destruct fuel as [|fuel]; [simpl in Hf; lia|]); cbn [flatten_from head]; [by rewrite app_nil_r|].
  assert (a ∈ pre ++ a :: l) as Hin by (apply elem_of_app; right; by left).
  destruct (r_alloc _ _ Hrep a ltac:(by right)) as [n Hn].
  unfold node. rewrite Hn. cbn [of_option mbind res_bind]. destruct (data_node _ _ _ _ Hn Ha) as [Hs Hel].
  unfold ele_of. rewrite Hel. cbn [of_option mbind res_bind]. rewrite Hs.
  pose proof (insert_at EA [] y.2 y.1) as Hat. rewrite app_nil_r in Hat. cbn [first_at] in Hat. rewrite Hat.
  cbn [mbind res_bind]. pose proof (r_hgt _ _ Hrep a Hin) as Hh.
  pose proof (r_fwd _ _ Hrep (header z :: pre) a l 0 eq_refl ltac:(lia) ltac:(lia)) as Hfw.
  apply get_level_lvl in Hfw. rewrite Hfw.
  assert (forall b, b ∈ l -> (0 < hgt z b)%nat) as Hpos.
  { intros b Hb. apply (r_hgt _ _ Hrep). apply elem_of_app. right. by right. }
  assert ((fwd (hgt z) 0 l).1 = head l) as Hhd.
  { destruct l as [|b l']; [done|]. simpl. rewrite decide_True; [done|]. apply Hpos. by left. }
  destruct (fwd (hgt z) 0 l) as [f sp] eqn:Ef. simpl in Hhd. subst f. cbn [mbind res_bind].
  replace (pre ++ a :: l) with ((pre ++ [a]) ++ l) in Hrep by (by rewrite <- app_assoc).
  simpl in Hf. assert ((y.1, y.2) = y) as Ey by (by destruct y). rewrite Ey.
  rewrite (IH (pre ++ [a]) _ (EA ++ [y]) fuel Hrep eq_refl ltac:(lia)). by rewrite <- app_assoc.
Qed.

Lemma zsetConvertToZiplist_spec d z es :
  sk_view d z es -> zsetConvertToZiplist (ZSkiplist d z) = Ok (ZZiplist (flat es)).
Proof.
  intros (l & Hv & _). pose proof (v_rep _ _ _ Hv) as Hrep. unfold zsetConvertToZiplist.
  pose proof (r_lev _ _ Hrep) as Hlev. pose proof (r_hdr _ _ Hrep) as Hhdr.
  pose proof (r_fwd _ _ Hrep [] (header z) l 0 eq_refl ltac:(rewrite Hhdr; unfold ZSKIPLIST_MAXLEVEL; lia) ltac:(lia)) as Hfw.
  apply get_level_lvl in Hfw. rewrite Hfw.
  assert ((fwd (hgt z) 0 l).1 = head l) as Hhd.
  { destruct l as [|b l']; [done|]. simpl. rewrite decide_True; [done|]. apply (r_hgt _ _ Hrep). by left. }
  destruct (fwd (hgt z) 0 l) as [f sp]. simpl in Hhd. subst f. cbn [mbind res_bind].
  pose proof (r_len _ _ Hrep) as Hl. rewrite Hl, Nat2Z.id.
  rewrite (flatten_from_spec _ z [] l [] es _ Hrep eq_refl (v_entries _ _ _ Hv)) by lia. done.
Qed.

(** ** The abstract sorted map *)

Definition zview (o : zobj) (es : list zentry) : Prop :=
  match o with
  | ZZiplist zl => zl = flat es /\ zordered es /\ all_back es
  | ZSkiplist d z => sk_view d z es
  end.

(** A ziplist stores scores as text. *)
Definition storable (o : zobj) (es : list zentry) : Prop :=
  match o with ZZiplist _ => all_back es | ZSkiplist _ _ => True end.

(** [zsetAdd] on the list of entries: the return value, the flags, the new
    score and the entries after. *)
Definition zadd_spec (es : list zentry) (score : double) (ele : string) (flags : Z)
    : Z * Z * option double * list zentry :=
  let incr := negb (Z.land flags ZADD_INCR =? 0) in
  let nx := negb (Z.land flags ZADD_NX =? 0) in
  let xx := negb (Z.land flags ZADD_XX =? 0) in
  if isnan score then (0, ZADD_NAN, None, es)
  else
    match zscore ele es with
    | None => if xx then (1, ZADD_NOP, None, es) else (1, ZADD_ADDED, Some score, zinsert (score, ele) es)
    | Some cur =>
        let score := if incr then dadd score cur else score in
        if nx then (1, ZADD_NOP, None, es)
        else if incr && isnan score then (0, ZADD_NAN, None, es)
        else
          let new := if incr then Some score else None in
          if deq score cur then (1, 0, new, es)
          else (1, ZADD_UPDATED, new, zinsert (score, ele) (zremove ele es))
    end.

Lemma zview_ordered o es : zview o es -> zordered es.
Proof. destruct o as [zl|d z]; [by intros (_ & ? & _)|apply sk_ordered]. Qed.

Lemma all_back_cut EA y EB : all_back (EA ++ y :: EB) -> prints_back y.1 /\ all_back (EA ++ EB).
Proof. unfold all_back. rewrite !Forall_app, Forall_cons. tauto. Qed.

(** What [zsetAdd] returns against what the entries say. *)
Definition zadd_ok (r : res zadd_result) (rs : list Z) (n : nat) (sp : Z * Z * option double * list zentry) : Prop :=
  exists x, r = Ok x /\ (zr_ret x, zr_flags x, zr_new x) = sp.1 /\ zview (zr_obj x) sp.2 /\
    (draws rs <= S n + draws (zr_rs x))%nat.

Lemma zadd_same o es rs n ret fl new :
  zview o es -> zadd_ok (Ok (mkZr ret fl new o rs)) rs n (ret, fl, new, es).
Proof. intros Hv. eexists. split; [done|]. simpl. split_and!; [done|done|lia]. Qed.

Lemma zadd_ziplist cfg es score ele flags rs :
  zordered es -> all_back es -> all_back (zadd_spec es score ele flags).2 ->
  Z.of_nat (length es) + 1 < 2 ^ 32 -> (length es < draws rs)%nat ->
  zadd_ok (zsetAdd cfg (ZZiplist (flat es)) score ele flags rs) rs (length es) (zadd_spec es score ele flags).
Proof.
  intros Ho Hb Hb' Hsm Hr. assert (zview (ZZiplist (flat es)) es) as Hv by done.
  unfold zsetAdd, zadd_spec in *. destruct (isnan score) eqn:Hn; [by apply zadd_same|].
  destruct (zscore ele es) as [cur|] eqn:Hs.
  - destruct (zscore_split _ _ _ Ho Hs) as (EA & EB & -> & Hne & Hrem).
    destruct (all_back_cut _ _ _ Hb) as [Hby Hbr]. pose proof (zzlFind_some EA (cur, ele) EB true Hne Hby) as Hf.
    cbn [fst snd] in Hf. rewrite Hf. cbn [mbind res_bind]. destruct (negb (Z.land flags ZADD_NX =? 0)); [by apply zadd_same|].
    set (sc := if negb (Z.land flags ZADD_INCR =? 0) then dadd score cur else score) in *.
    destruct (negb (Z.land flags ZADD_INCR =? 0) && isnan sc) eqn:Hin; [by apply zadd_same|].
    destruct (deq sc cur) eqn:Hd; [by apply zadd_same|]. cbn [negb].
    assert (isnan sc = false) as Hsc.
    { unfold sc in *. by destruct (negb (Z.land flags ZADD_INCR =? 0)). }
    rewrite delete_at. rewrite Hrem in Hb' |- *. assert (zordered (EA ++ EB)) as Ho'.
    { rewrite <- Hrem. by apply zordered_remove. }
    assert (ele ∉ (EA ++ EB).*2) as Hni by (rewrite <- Hrem; apply zremove_notin).
    rewrite zzlInsert_pair by done. cbn [mbind res_bind].
    eexists. split; [done|]. split_and!; [done| |simpl; lia]. simpl. split_and!; [done| |done].
    by apply zordered_zinsert.
  - pose proof (proj1 (zscore_None _ _) Hs) as Hne. rewrite zzlFind_none by done. cbn [mbind res_bind].
    destruct (negb (Z.land flags ZADD_XX =? 0)); [by apply zadd_same|]. cbn [negb].
    rewrite zzlInsert_pair by done. cbn [mbind res_bind].
    assert (zordered (zinsert (score, ele) es)) as Ho' by (by apply zordered_zinsert).
    destruct (_ || _).
    + destruct (zsetConvertToSkiplist_spec (zinsert (score, ele) es) rs Ho' Hb') as (d & z & rs' & -> & Hv' & Hd');
        rewrite ?zinsert_perm; simpl; [by destruct es; simpl; [|destruct (entry_lt _ _)]|lia|lia|].
      cbn [mbind res_bind]. eexists. split; [done|]. split_and!; [done|done|].
      rewrite zinsert_perm in Hd'. simpl in *. lia.
    + cbn [mbind res_bind]. eexists. split; [done|]. by split_and!; [| |simpl; lia].
Qed.

Lemma zadd_skiplist cfg d z es score ele flags rs :
  sk_view d z es -> Z.of_nat (length es) + 1 < 2 ^ 32 -> (0 < draws rs)%nat ->
  zadd_ok (zsetAdd cfg (ZSkiplist d z) score ele flags rs) rs (length es) (zadd_spec es score ele flags).
Proof.
  intros Hv Hsm Hr. assert (zview (ZSkiplist d z) es) as Hv' by done.
  unfold zsetAdd, zadd_spec in *. destruct (isnan score) eqn:Hn; [by apply zadd_same|].
  pose proof (sk_find d z es ele Hv) as Hf. destruct (zscore ele es) as [cur|] eqn:Hs.
  - destruct Hf as (a & -> & Hsc). destruct (negb (Z.land flags ZADD_NX =? 0)); [by apply zadd_same|].
    rewrite Hsc. cbn [mbind res_bind].
    set (sc := if negb (Z.land flags ZADD_INCR =? 0) then dadd score cur else score) in *.
    destruct (negb (Z.land flags ZADD_INCR =? 0) && isnan sc) eqn:Hin; [by apply zadd_same|].
    destruct (deq sc cur) eqn:Hd; [by apply zadd_same|]. cbn [negb].
    assert (isnan sc = false) as Hsn.
    { unfold sc in *. by destruct (negb (Z.land flags ZADD_INCR =? 0)). }
    destruct (sk_update d z es ele cur sc rs Hv Hs Hsn Hr) as (x & z' & rs' & -> & Hvu & Hdr).
    cbn [mbind res_bind]. eexists. split; [done|]. by split_and!; [| |simpl; lia].
  - rewrite Hf. destruct (negb (Z.land flags ZADD_XX =? 0)); [by apply zadd_same|]. cbn [negb].
    destruct (sk_insert d z es (score, ele) rs Hv Hn (proj1 (zscore_None _ _) Hs) Hsm Hr) as (x & z' & rs' & Hi & Hvu & Hdr).
    cbn [fst snd] in Hi. rewrite Hi. cbn [mbind res_bind]. eexists. split; [done|]. by split_and!; [| |simpl; lia].
Qed.

Lemma zset_del_view o es ele :
  zview o es ->
  exists o', zsetDel o ele = Ok (bool_decide (ele ∈ es.*2), o') /\ zview o' (zremove ele es).
Proof.
  intros Hv. pose proof (zview_ordered _ _ Hv) as Ho. destruct (zscore ele es) as [s|] eqn:Hs.
  - rewrite bool_decide_true. 2:{ apply zscore_Some in Hs. by apply (list_elem_of_fmap_2 snd) in Hs. }
    destruct o as [zl|d z]; simpl in Hv |- *.
    + destruct Hv as (-> & _ & Hb). destruct (zscore_split _ _ _ Ho Hs) as (EA & EB & -> & Hne & Hrem).
      destruct (all_back_cut _ _ _ Hb) as [Hby Hbr].
      pose proof (zzlFind_some EA (s, ele) EB false Hne Hby) as Hf. cbn [fst snd] in Hf. rewrite Hf. cbn [mbind res_bind].
      rewrite delete_at. eexists. split; [done|]. simpl. rewrite Hrem. split_and!; [done| |done].
      rewrite <- Hrem. by apply zordered_remove.
    + pose proof (sk_find d z es ele Hv) as Hf. rewrite Hs in Hf. destruct Hf as (a & -> & Hsc). rewrite Hsc.
      cbn [mbind res_bind]. destruct (sk_delete d z es ele s Hv Hs) as (z' & -> & Hv'). cbn [mbind res_bind]. eauto.
  - pose proof (proj1 (zscore_None _ _) Hs) as Hne. rewrite bool_decide_false by done.
    exists o. split.
    + destruct o as [zl|d z]; simpl in Hv |- *.
      * destruct Hv as (-> & _ & _). by rewrite zzlFind_none.
      * pose proof (sk_find d z es ele Hv) as Hf. rewrite Hs in Hf. by rewrite Hf.
    + unfold zremove. rewrite filter_all; [done|]. intros [s' e'] Hy E. simpl in E. subst.
      apply Hne. by apply (list_elem_of_fmap_2 snd) in Hy.
Qed.

(** ** What the calls of the queues do to the scores *)

Lemma zscore_insert es k s e :
  zordered es -> e ∉ es.*2 -> isnan s = false ->
  zscore k (zinsert (s, e) es) = if decide (k = e) then Some s else zscore k es.
Proof.
  intros Ho He Hs. assert (zordered (zinsert (s, e) es)) as Ho' by (by apply zordered_zinsert).
  case_decide as Hk.
  - subst k. apply zscore_elem; [done|]. rewrite zinsert_perm. by left.
  - destruct (zscore k es) as [s'|] eqn:E.
    + apply zscore_elem; [done|]. rewrite zinsert_perm. right. by apply zscore_Some.
    + apply zscore_None. apply zscore_None in E. rewrite zinsert_perm. simpl. rewrite elem_of_cons. tauto.
Qed.

Lemma zscore_remove es k e :
  zordered es -> zscore k (zremove e es) = if decide (k = e) then None else zscore k es.
Proof.
  intros Ho. case_decide as Hk.
  - subst k. apply zscore_None, zremove_notin.
  - destruct (zscore k es) as [s'|] eqn:E.
    + apply zscore_elem; [by apply zordered_remove|]. apply list_elem_of_filter. split; [done|]. by apply zscore_Some.
    + apply zscore_None. apply zscore_None in E. intros (y & -> & Hy)%list_elem_of_fmap.
      apply list_elem_of_filter in Hy as [_ Hy]. apply E. by apply (list_elem_of_fmap_2 snd).
Qed.

Lemma zremove_length e es : (length (zremove e es) <= length es)%nat.
Proof. apply length_filter. Qed.

Lemma zadd_none_spec es sc ele :
  zordered es ->
  let es' := (zadd_spec es sc ele ZADD_NONE).2 in
  (forall k, zscore k es' = if decide (k = ele) then zmirror_step (zscore ele es) (ZAdd sc) else zscore k es) /\
  (length es' <= S (length es))%nat /\ (forall y, y ∈ es' -> y ∈ es \/ (y = (sc, ele) /\ isnan sc = false)).
Proof.
  intros Ho. unfold zadd_spec. cbn [Z.land negb Z.eqb ZADD_NONE]. unfold zmirror_step.
  destruct (isnan sc) eqn:Hn.
  { cbn [snd]. split_and!; [|lia|auto]. intros k. by case_decide; subst. }
  destruct (zscore ele es) as [cur|] eqn:Hs.
  - replace (Z.land ZADD_NONE ZADD_NX =? 0) with true by done. replace (Z.land ZADD_NONE ZADD_INCR =? 0) with true by done.
    cbn [negb andb snd]. destruct (deq sc cur); cbn [snd].
    + split_and!; [|lia|auto]. intros k. by case_decide; subst.
    + split_and!.
      * intros k. rewrite zscore_insert; [|by apply zordered_remove|apply zremove_notin|done].
        case_decide; [done|]. rewrite zscore_remove by done. by rewrite decide_False.
      * rewrite zinsert_perm. simpl. pose proof (zremove_length ele es). lia.
      * intros y. rewrite zinsert_perm, elem_of_cons. intros [->|Hy]; [auto|].
        apply list_elem_of_filter in Hy. tauto.
  - replace (Z.land ZADD_NONE ZADD_XX =? 0) with true by done. cbn [negb snd]. split_and!.
    + intros k. apply zscore_insert; [done| |done]. by apply zscore_None.
    + by rewrite zinsert_perm.
    + intros y. rewrite zinsert_perm, elem_of_cons. tauto.
Qed.

(** ** Properties *)

Lemma zset_add_ok cfg o es score ele flags rs :
  zview o es -> storable o (zadd_spec es score ele flags).2 ->
  Z.of_nat (length es) + 1 < 2 ^ 32 -> (length es < draws rs)%nat ->
  zadd_ok (zsetAdd cfg o score ele flags rs) rs (length es) (zadd_spec es score ele flags).
Proof.
  intros Hv Hst Hsm Hr. destruct o as [zl|d z]; [destruct Hv as (-> & ? & ?); by apply zadd_ziplist|].
  apply zadd_skiplist; [done..|lia].
Qed.

(** C20 (refinement): [zsetAdd] does to an object of either encoding what
    [zadd_spec] does to the list of its entries - it adds, moves or leaves the
    element according to the NX, XX and INCR flags and to scores that are not
    numbers - with the same return value, flags and new score.  The object may
    change its encoding on the way; nothing crashes as long as the draws of
    [random()] suffice for a conversion. *)
Theorem zset_add_refines cfg o es score ele flags rs :
  zview o es -> storable o (zadd_spec es score ele flags).2 ->
  Z.of_nat (length es) + 1 < 2 ^ 32 -> (length es < draws rs)%nat ->
  exists r, zsetAdd cfg o score ele flags rs = Ok r /\
    (zr_ret r, zr_flags r, zr_new r) = (zadd_spec es score ele flags).1 /\
    zview (zr_obj r) (zadd_spec es score ele flags).2.
Proof.
  intros Hv Hst Hsm Hr. destruct (zset_add_ok cfg o es score ele flags rs Hv Hst Hsm Hr) as (r & ? & ? & ? & _). eauto.
Qed.

(** C21 (refinement): [zsetDel] removes exactly the element's entry, in either
    encoding, and returns whether there was one. *)
Theorem zset_del_refines o es ele :
  zview o es ->
  exists o', zsetDel o ele = Ok (bool_decide (ele ∈ es.*2), o') /\ zview o' (zremove ele es).
Proof. apply zset_del_view. Qed.

Lemma zsetLength_view o es : zview o es -> zsetLength o = Z.of_nat (length es).
Proof.
  destruct o as [zl|d z]; simpl.
  - intros (-> & _ & _). unfold zzlLength. rewrite flat_length. rewrite Nat2Z.inj_mul, Z.mul_comm. by rewrite Z.div_mul.
  - intros (l & Hv & _). rewrite (r_len _ _ (v_rep _ _ _ Hv)). by rewrite (view_length _ _ _ Hv).
Qed.

Lemma zsetRank_present o EA s e EB rev :
  zview o (EA ++ (s, e) :: EB) ->
  zsetRank o e rev = Ok (if rev then Z.of_nat (length EB) else Z.of_nat (length EA)).
Proof.
  intros Hv. pose proof (zview_ordered _ _ Hv) as Ho. unfold zsetRank. rewrite (zsetLength_view _ _ Hv).
  assert (zscore e (EA ++ (s, e) :: EB) = Some s) as Hs.
  { apply zscore_elem; [done|]. apply elem_of_app. right. by left. }
  rewrite length_app. cbn [length].
  assert (forall r, r = Z.of_nat (length EA) + 1 ->
    Ok (if rev then Z.of_nat (length EA + S (length EB)) - r else r - 1) =
    Ok (if rev then Z.of_nat (length EB) else Z.of_nat (length EA))) as Hret.
  { intros r ->. destruct rev; f_equal; lia. }
  destruct o as [zl|d z]; simpl in Hv.
  - destruct Hv as (-> & _ & _).
    assert (e ∉ EA.*2) as Hne.
    { pose proof (zo_nodup _ Ho) as Hn. rewrite fmap_app, fmap_cons in Hn. apply NoDup_app in Hn as (_ & H2 & _).
      intros H. eapply H2; [exact H|by left]. }
    pose proof (rank_from_spec (S (length (flat (EA ++ (s, e) :: EB)))) [] EA (s, e) EB 1 Hne) as Hr.
    specialize (Hr ltac:(rewrite flat_length, length_app; lia)). cbn [app snd] in Hr. rewrite index_first.
    assert (exists w W, EA ++ (s, e) :: EB = w :: W) as (w & W & E) by (destruct EA; simpl; eauto).
    rewrite E in Hr |- *. cbn [first_at assert_ptr of_option mbind res_bind].
    pose proof (next_score [] w W) as Hnx. cbn [app length Nat.mul Nat.add] in Hnx. rewrite Hnx. cbn [assert_ptr of_option mbind res_bind].
    cbn [first_at length Nat.mul Nat.add] in Hr. rewrite Hr. cbn [mbind res_bind]. apply Hret. lia.
  - pose proof (sk_find d z _ e Hv) as Hf. rewrite Hs in Hf. destruct Hf as (a & -> & Hsc). rewrite Hsc.
    cbn [mbind res_bind]. destruct Hv as (l & Hv & _).
    pose proof (zslGetRank_view z l EA EB (s, e) Hv) as Hr. cbn [fst snd] in Hr. rewrite Hr. cbn [mbind res_bind].
    rewrite (proj2 (Z.eqb_neq _ 0)) by lia. by apply Hret.
Qed.

Lemma zsetRank_absent o es e rev :
  zview o es -> e ∉ es.*2 -> es <> [] -> zsetRank o e rev = Ok (-1).
Proof.
  intros Hv Hne Hnn. unfold zsetRank. destruct o as [zl|d z]; simpl in Hv.
  - destruct Hv as (-> & _ & _). rewrite index_first. destruct es as [|y es]; [done|].
    cbn [first_at assert_ptr of_option mbind res_bind].
    pose proof (next_score [] y es) as Hnx. cbn [app length Nat.mul Nat.add] in Hnx. rewrite Hnx. cbn [assert_ptr of_option mbind res_bind].
    pose proof (rank_from_none (S (length (flat (y :: es)))) [] (y :: es) e 1 Hne) as Hr.
    specialize (Hr ltac:(rewrite flat_length; simpl; lia)). cbn [app first_at length Nat.mul Nat.add] in Hr. by rewrite Hr.
  - pose proof (sk_find d z es e Hv) as Hf. rewrite (proj2 (zscore_None _ _) Hne) in Hf. by rewrite Hf.
Qed.

Lemma zsetScore_view o es e : zview o es -> zsetScore o e = Ok (zscore e es).
Proof.
  intros Hv. pose proof (zview_ordered _ _ Hv) as Ho. destruct o as [zl|d z]; simpl in Hv |- *.
  - destruct Hv as (-> & _ & Hb). destruct (zscore e es) as [s|] eqn:Hs.
    + destruct (zscore_split _ _ _ Ho Hs) as (EA & EB & -> & Hne & _). destruct (all_back_cut _ _ _ Hb) as [Hby _].
      pose proof (zzlFind_some EA (s, e) EB true Hne Hby) as Hf. cbn [fst snd] in Hf. by rewrite Hf.
    + by rewrite zzlFind_none by (by apply zscore_None).
  - pose proof (sk_find d z es e Hv) as Hf. destruct (zscore e es) as [s|].
    + destruct Hf as (a & -> & ->). done.
    + by rewrite Hf.
Qed.

(** In either encoding [zsetLength], [zsetScore] and
    [zsetRank] return the number of entries, the score of the element and its
    position counted from either end, or report that it is absent. *)
Theorem zset_reads_refine o es ele :
  zview o es -> es <> [] ->
  zsetLength o = Z.of_nat (length es) /\ zsetScore o ele = Ok (zscore ele es) /\
  (forall i s, es !! i = Some (s, ele) ->
     zsetRank o ele false = Ok (Z.of_nat i) /\ zsetRank o ele true = Ok (Z.of_nat (length es - S i))) /\
  (ele ∉ es.*2 -> forall rev, zsetRank o ele rev = Ok (-1)).
Proof.
  intros Hv Hne. split_and!; [by apply zsetLength_view|by apply zsetScore_view| |].
  - intros i s Hi. pose proof (take_drop_middle _ _ _ Hi) as E. rewrite <- E in Hv.
    rewrite !(zsetRank_present _ _ _ _ _ _ Hv). apply lookup_lt_Some in Hi.
    rewrite length_take, length_drop. split; do 2 f_equal; lia.
  - intros He rev. by eapply zsetRank_absent.
Qed.

(** Converting an object to the other encoding and back
    keeps its entries; a ziplist survives the round trip unchanged. *)
Theorem zset_convert_roundtrip es rs :
  zview (ZZiplist (flat es)) es -> es <> [] -> Z.of_nat (length es) < 2 ^ 32 -> (length es <= draws rs)%nat ->
  exists o rs', zsetConvertToSkiplist (ZZiplist (flat es)) rs = Ok (o, rs') /\ zview o es /\
    zsetConvertToZiplist o = Ok (ZZiplist (flat es)).
Proof.
  intros (_ & Ho & Hb) Hne Hsm Hr.
  destruct (zsetConvertToSkiplist_spec es rs Ho Hb Hne Hsm Hr) as (d & z & rs' & Hc & Hv & _).
  exists (ZSkiplist d z), rs'. split_and!; [done|done|]. by apply zsetConvertToZiplist_spec.
Qed.

(** ** Witnesses *)

Definition two : list zentry := [(double_of_Z 1, "a"); (double_of_Z 3, "b")].

Lemma two_view : zview (ZZiplist (flat two)) two.
Proof.
  split_and!; [done| |].
  - apply (zordered_app [_] [_]). split_and!; [by apply zordered_single..|].
    intros x y ->%list_elem_of_singleton ->%list_elem_of_singleton. split; [by left|done].
  - by repeat constructor.
Qed.

(** Adding a third element to a set of two, at a limit of two entries. *)
Lemma zset_add_refines_witness :
  exists r, zsetAdd (mkZcfg 2 64) (ZZiplist (flat two)) (double_of_Z 2) "c" ZADD_NONE [65535; 65535; 0; 65535] = Ok r /\
    zr_flags r = ZADD_ADDED /\
    zview (zr_obj r) [(double_of_Z 1, "a"); (double_of_Z 2, "c"); (double_of_Z 3, "b")].
Proof.
  destruct (zset_add_refines (mkZcfg 2 64) (ZZiplist (flat two)) two (double_of_Z 2) "c" ZADD_NONE [65535; 65535; 0; 65535])
    as (r & Hr & Hf & Hv); [apply two_view|by repeat constructor|done|by vm_compute; lia|].
  exists r. split_and!; [exact Hr|by injection Hf|exact Hv].
Defined.

Lemma zset_del_refines_witness :
  exists o', zsetDel (ZZiplist (flat two)) "a" = Ok (true, o') /\ zview o' [(double_of_Z 3, "b")].
Proof. destruct (zset_del_refines (ZZiplist (flat two)) two "a" two_view) as (o' & Ho & Hv). exists o'. split; [exact Ho|exact Hv]. Defined.

Lemma zset_reads_refine_witness : zsetRank (ZZiplist (flat two)) "b" true = Ok 0.
Proof.
  destruct (zset_reads_refine (ZZiplist (flat two)) two "b" two_view ltac:(done)) as (_ & _ & H & _).
  apply (H 1%nat (double_of_Z 3)). reflexivity.
Defined.

Lemma zset_convert_roundtrip_witness :
  exists o rs', zsetConvertToSkiplist (ZZiplist (flat two)) [65535; 65535] = Ok (o, rs') /\
    zsetConvertToZiplist o = Ok (ZZiplist (flat two)).
Proof.
  destruct (zset_convert_roundtrip two [65535; 65535] two_view ltac:(done) eq_refl ltac:(by vm_compute; lia))
    as (o & rs' & H1 & _ & H2). exists o, rs'. split; [exact H1|exact H2].
Defined.
