(* ===== verification/ZRange.v ===== *)
(** * Ranges of a sorted set: t_zset.c

    Ranges by score, by element and by rank: their arguments, the first and the
    last entry inside, and the removal of all entries inside, in the skip list
    and in the ziplist. *)

From S2P Require Import Prelude Sds Double Util Score Skiplist Zset.
From Stdlib Require Import Ascii SpecFloat.

(** ** Ranges by score *)

Record zrangespec := mkRange { rmin : double; rmax : double; minex : bool; maxex : bool }.

Definition zslValueGteMin (value : double) (spec : zrangespec) : bool :=
  if minex spec then dlt (rmin spec) value else dle (rmin spec) value.

Definition zslValueLteMax (value : double) (spec : zrangespec) : bool :=
  if maxex spec then dlt value (rmax spec) else dle value (rmax spec).

(** Ranges that are empty whatever the set holds. *)
Definition never_in_range (range : zrangespec) : bool :=
  dlt (rmax range) (rmin range) || (deq (rmin range) (rmax range) && (minex range || maxex range)).

(** ** Ranges by element *)

(** [shared.minstring] and [shared.maxstring] are told apart by their address. *)
Inductive lexstr :=
  | MinString
  | MaxString
  | LexSds (s : string).

Record zlexrangespec := mkLexRange { lmin : lexstr; lmax : lexstr; lminex : bool; lmaxex : bool }.

Definition sdscmplex (a b : lexstr) : Z :=
  match a, b with
  | MinString, MinString | MaxString, MaxString => 0
  | MinString, _ | _, MaxString => -1
  | MaxString, _ | _, MinString => 1
  | LexSds a, LexSds b => sdscmp a b
  end.

Definition zslLexValueGteMin (value : string) (spec : zlexrangespec) : bool :=
  let c := sdscmplex (LexSds value) (lmin spec) in
  if lminex spec then 0 <? c else 0 <=? c.

Definition zslLexValueLteMax (value : string) (spec : zlexrangespec) : bool :=
  let c := sdscmplex (LexSds value) (lmax spec) in
  if lmaxex spec then c <? 0 else c <=? 0.

Definition never_in_lex_range (range : zlexrangespec) : bool :=
  let cmp := sdscmplex (lmin range) (lmax range) in
  (0 <? cmp) || ((cmp =? 0) && (lminex range || lmaxex range)).

(** ** Parsing *)

(** A string object: its bytes, or the integer of [OBJ_ENCODING_INT]. *)
Inductive strobj :=
  | ObjInt (z : Z)
  | ObjSds (s : string).

(** What a C function sees of the bytes: those before the first NUL. *)
Fixpoint cstr (s : string) : string :=
  match s with
  | EmptyString => EmptyString
  | String c s => if code c =? 0 then EmptyString else String c (cstr s)
  end.

(** [strtod] up to the end of the string; [None] is the error. *)
Definition whole_double (s : string) : option double :=
  match strtod s with
  | Some (d, EmptyString, _) => if isnan d then None else Some d
  | Some _ => None
  | None => match s with EmptyString => Some dzero | _ => None end
  end.

(** One end of the interval, and whether it is open. *)
Definition zslParseRangeItem (o : strobj) : option (double * bool) :=
  match o with
  | ObjInt z => Some (double_of_Z z, false)
  | ObjSds s =>
      match cstr s with
      | String c s' =>
          if code c =? 40 then d ← whole_double s'; Some (d, true)
          else d ← whole_double (String c s'); Some (d, false)
      | EmptyString => d ← whole_double EmptyString; Some (d, false)
      end
  end.

(** [None] is [C_ERR]. *)
Definition zslParseRange (min max : strobj) : option zrangespec :=
  '(mn, mnx) ← zslParseRangeItem min;
  '(mx, mxx) ← zslParseRangeItem max;
  Some (mkRange mn mx mnx mxx).

(** [sdsnewlen(c+1, sdslen(c)-1)] keeps NUL bytes; [c[1]] after a sign is
    the byte a C string would end at. *)
Definition zslParseLexRangeItem (item : string) : option (lexstr * bool) :=
  match item with
  | EmptyString => None
  | String c s =>
      let ends := match s with String d _ => code d =? 0 | EmptyString => true end in
      if code c =? 43 then (if ends then Some (MaxString, true) else None)
      else if code c =? 45 then (if ends then Some (MinString, true) else None)
      else if code c =? 40 then Some (LexSds s, true)
      else if code c =? 91 then Some (LexSds s, false)
      else None
  end.

Definition zslParseLexRange (min max : strobj) : option zlexrangespec :=
  match min, max with
  | ObjSds min, ObjSds max =>
      '(mn, mnx) ← zslParseLexRangeItem min;
      '(mx, mxx) ← zslParseLexRangeItem max;
      Some (mkLexRange mn mx mnx mxx)
  | _, _ => None
  end.

(** ** The skip list *)

(** [zsl->header->level[0].forward] *)
Definition first_node (z : zskiplist) : res (option nat) :=
  '(f, _) ← get_level z (header z) 0; Ok f.

(** Tests on the score and on the element of a node. *)
Definition on_score (test : double -> bool) (n : zskiplistNode) : res bool := Ok (test (score n)).
Definition on_ele (test : string -> bool) (n : zskiplistNode) : res bool := e ← ele_of n; Ok (test e).

(** The last node reaches the lower end and the first one the upper end. *)
Definition ends_in_range (gte lte : zskiplistNode -> res bool) (z : zskiplist) : res bool :=
  match tail z with
  | None => Ok false
  | Some x =>
      n ← node z x;
      b ← gte n;
      if (b : bool) then
        f ← first_node z;
        match f with None => Ok false | Some x => n ← node z x; lte n end
      else Ok false
  end.

Definition zslIsInRange (z : zskiplist) (range : zrangespec) : res bool :=
  if never_in_range range then Ok false
  else ends_in_range (on_score (fun v => zslValueGteMin v range)) (on_score (fun v => zslValueLteMax v range)) z.

Definition zslIsInLexRange (z : zskiplist) (range : zlexrangespec) : res bool :=
  if never_in_lex_range range then Ok false
  else ends_in_range (on_ele (fun v => zslLexValueGteMin v range)) (on_ele (fun v => zslLexValueLteMax v range)) z.

(** The loop conditions of the searches, which do not look at ranks. *)
Definition while_test (test : zskiplistNode -> res bool) (rank span : Z) (n : zskiplistNode) : res bool :=
  test n.
Definition while_not (test : zskiplistNode -> res bool) (rank span : Z) (n : zskiplistNode) : res bool :=
  b ← test n; Ok (negb b).

(** Where the search stops on level 0. *)
Definition stop_at (z : zskiplist) (u : list (nat * Z)) : nat :=
  match u with (x, _) :: _ => x | [] => header z end.

(** Go forward while out of range; the next node is the first one. *)
Definition first_in (gte lte : zskiplistNode -> res bool) (z : zskiplist) : res (option nat) :=
  u ← descend (zlevel z) id (while_not gte) z (header z) 0;
  '(f, _) ← get_level z (stop_at z u) 0;
  match f with
  | None => Crash AssertFail
  | Some x => n ← node z x; b ← lte n; Ok (if (b : bool) then Some x else None)
  end.

(** Go forward while in range; that node is the last one. *)
Definition last_in (gte lte : zskiplistNode -> res bool) (z : zskiplist) : res (option nat) :=
  u ← descend (zlevel z) id (while_test lte) z (header z) 0;
  let x := stop_at z u in
  n ← node z x;
  b ← gte n;
  Ok (if (b : bool) then Some x else None).

Definition zslFirstInRange (z : zskiplist) (range : zrangespec) : res (option nat) :=
  b ← zslIsInRange z range;
  if (b : bool) then
    first_in (on_score (fun v => zslValueGteMin v range)) (on_score (fun v => zslValueLteMax v range)) z
  else Ok None.

Definition zslLastInRange (z : zskiplist) (range : zrangespec) : res (option nat) :=
  b ← zslIsInRange z range;
  if (b : bool) then
    last_in (on_score (fun v => zslValueGteMin v range)) (on_score (fun v => zslValueLteMax v range)) z
  else Ok None.

Definition zslFirstInLexRange (z : zskiplist) (range : zlexrangespec) : res (option nat) :=
  b ← zslIsInLexRange z range;
  if (b : bool) then
    first_in (on_ele (fun v => zslLexValueGteMin v range)) (on_ele (fun v => zslLexValueLteMax v range)) z
  else Ok None.

Definition zslLastInLexRange (z : zskiplist) (range : zlexrangespec) : res (option nat) :=
  b ← zslIsInLexRange z range;
  if (b : bool) then
    last_in (on_ele (fun v => zslLexValueGteMin v range)) (on_ele (fun v => zslLexValueLteMax v range)) z
  else Ok None.

(** Deleting from [x] on while the test holds; the test sees how many nodes are
    gone.  The [update] array stays as the search left it. *)
Fixpoint delete_nodes (fuel : nat) (more : Z -> zskiplistNode -> res bool) (u : list (nat * Z))
    (z : zskiplist) (d : gmap string nat) (x : option nat) (removed : Z)
    : res (Z * gmap string nat * zskiplist) :=
  match fuel with
  | O => Crash Diverges
  | S fuel =>
      match x with
      | None => Ok (removed, d, z)
      | Some a =>
          n ← node z a;
          b ← more removed n;
          if (b : bool) then
            '(next, _) ← get_level z a 0;
            z ← zslDeleteNode z a u;
            n ← node z a;
            e ← ele_of n;
            z ← zslFreeNode z a;
            delete_nodes fuel more u z (delete e d) next (removed + 1)
          else Ok (removed, d, z)
      end
  end.

(** The search for the lower end, then the deletions; [more] also sees the rank
    the search stopped at. *)
Definition delete_range (go : Z -> Z -> zskiplistNode -> res bool) (more : Z -> Z -> zskiplistNode -> res bool)
    (z : zskiplist) (d : gmap string nat) : res (Z * gmap string nat * zskiplist) :=
  u ← descend (zlevel z) id go z (header z) 0;
  let traversed := match u with (_, r) :: _ => r | [] => 0 end in
  '(x, _) ← get_level z (stop_at z u) 0;
  delete_nodes (S (Z.to_nat (zlength z))) (more traversed) u z d x 0.

Definition zslDeleteRangeByScore (z : zskiplist) (range : zrangespec) (d : gmap string nat)
    : res (Z * gmap string nat * zskiplist) :=
  delete_range
    (while_test (on_score (fun v => if minex range then dle v (rmin range) else dlt v (rmin range))))
    (fun _ _ => on_score (fun v => if maxex range then dlt v (rmax range) else dle v (rmax range))) z d.

Definition zslDeleteRangeByLex (z : zskiplist) (range : zlexrangespec) (d : gmap string nat)
    : res (Z * gmap string nat * zskiplist) :=
  delete_range (while_not (on_ele (fun v => zslLexValueGteMin v range)))
    (fun _ _ => on_ele (fun v => zslLexValueLteMax v range)) z d.

(** [start] and [end] count from 1. *)
Definition zslDeleteRangeByRank (z : zskiplist) (start end_ : Z) (d : gmap string nat)
    : res (Z * gmap string nat * zskiplist) :=
  delete_range (fun traversed span _ => Ok (traversed + span <? start))
    (fun traversed removed _ => Ok (traversed + 1 + removed <=? end_)) z d.

(** Freeing a whole skip list: the nodes that stay allocated. *)
Fixpoint free_nodes (fuel : nat) (z : zskiplist) (x : option nat) : res zskiplist :=
  match fuel with
  | O => Crash Diverges
  | S fuel =>
      match x with
      | None => Ok z
      | Some a =>
          '(next, _) ← get_level z a 0;
          z ← zslFreeNode z a;
          free_nodes fuel z next
      end
  end.
Definition zslFree (z : zskiplist) : res zskiplist :=
  x ← first_node z;
  z ← zslFreeNode z (header z);
  free_nodes (S (Z.to_nat (zlength z))) z x.

(** ** The ziplist *)

Definition zzlIsInRange (zl : ziplist) (range : zrangespec) : res bool :=
  if never_in_range range then Ok false
  else
    match ziplistIndex zl (-1) with
    | None => Ok false
    | Some p =>
        s ← zzlGetScore zl (Some p);
        if zslValueGteMin s range then
          s ← zzlGetScore zl (ziplistIndex zl 1);
          Ok (zslValueLteMax s range)
        else Ok false
    end.

Definition zzlLexValueGteMin (zl : ziplist) (p : nat) (spec : zlexrangespec) : res bool :=
  value ← ziplistGetObject zl (Some p); Ok (zslLexValueGteMin value spec).

Definition zzlLexValueLteMax (zl : ziplist) (p : nat) (spec : zlexrangespec) : res bool :=
  value ← ziplistGetObject zl (Some p); Ok (zslLexValueLteMax value spec).

Definition zzlIsInLexRange (zl : ziplist) (range : zlexrangespec) : res bool :=
  if never_in_lex_range range then Ok false
  else
    match ziplistIndex zl (-2) with
    | None => Ok false
    | Some p =>
        b ← zzlLexValueGteMin zl p range;
        if (b : bool) then
          p ← assert_ptr (ziplistIndex zl 0); zzlLexValueLteMax zl p range
        else Ok false
    end.

(** The tests of an entry on its score, after its element. *)
Definition at_score (zl : ziplist) (test : double -> bool) (eptr : nat) : res bool :=
  sptr ← assert_ptr (ziplistNext zl eptr);
  s ← zzlGetScore zl (Some sptr);
  Ok (test s).

Fixpoint zzl_first (fuel : nat) (gte lte : nat -> res bool) (zl : ziplist) (eptr : option nat)
    : res (option nat) :=
  match fuel with
  | O => Crash Diverges
  | S fuel =>
      match eptr with
      | None => Ok None
      | Some e =>
          b ← gte e;
          if (b : bool) then b ← lte e; Ok (if (b : bool) then Some e else None)
          else s ← assert_ptr (ziplistNext zl e); zzl_first fuel gte lte zl (ziplistNext zl s)
      end
  end.

Fixpoint zzl_last (fuel : nat) (gte lte : nat -> res bool) (zl : ziplist) (eptr : option nat)
    : res (option nat) :=
  match fuel with
  | O => Crash Diverges
  | S fuel =>
      match eptr with
      | None => Ok None
      | Some e =>
          b ← lte e;
          if (b : bool) then b ← gte e; Ok (if (b : bool) then Some e else None)
          else
            match ziplistPrev zl e with
            | None => Ok None
            | Some s => e ← assert_ptr (ziplistPrev zl s); zzl_last fuel gte lte zl (Some e)
            end
      end
  end.

Definition zzlFirstInRange (zl : ziplist) (range : zrangespec) : res (option nat) :=
  b ← zzlIsInRange zl range;
  if (b : bool) then
    zzl_first (S (length zl)) (at_score zl (fun v => zslValueGteMin v range))
      (at_score zl (fun v => zslValueLteMax v range)) zl (ziplistIndex zl 0)
  else Ok None.

Definition zzlLastInRange (zl : ziplist) (range : zrangespec) : res (option nat) :=
  b ← zzlIsInRange zl range;
  if (b : bool) then
    zzl_last (S (length zl)) (at_score zl (fun v => zslValueGteMin v range))
      (at_score zl (fun v => zslValueLteMax v range)) zl (ziplistIndex zl (-2))
  else Ok None.

Definition zzlFirstInLexRange (zl : ziplist) (range : zlexrangespec) : res (option nat) :=
  b ← zzlIsInLexRange zl range;
  if (b : bool) then
    zzl_first (S (length zl)) (fun e => zzlLexValueGteMin zl e range) (fun e => zzlLexValueLteMax zl e range)
      zl (ziplistIndex zl 0)
  else Ok None.

Definition zzlLastInLexRange (zl : ziplist) (range : zlexrangespec) : res (option nat) :=
  b ← zzlIsInLexRange zl range;
  if (b : bool) then
    zzl_last (S (length zl)) (fun e => zzlLexValueGteMin zl e range) (fun e => zzlLexValueLteMax zl e range)
      zl (ziplistIndex zl (-2))
  else Ok None.

(** Deleting entries at [eptr] while the test holds: what follows moves up to
    [eptr], which ends as the end marker when the tail goes. *)
Fixpoint zzl_delete (fuel : nat) (lte : ziplist -> nat -> res bool) (zl : ziplist) (eptr : nat) (num : Z)
    : res (ziplist * Z) :=
  match fuel with
  | O => Crash Diverges
  | S fuel =>
      match ziplistNext zl eptr with
      | None => Ok (zl, num)
      | Some _ =>
          b ← lte zl eptr;
          if (b : bool) then
            zzl_delete fuel lte (ziplistDelete (ziplistDelete zl eptr) eptr) eptr (num + 1)
          else Ok (zl, num)
      end
  end.

Definition zzlDeleteRangeByScore (zl : ziplist) (range : zrangespec) : res (ziplist * Z) :=
  eptr ← zzlFirstInRange zl range;
  match eptr with
  | None => Ok (zl, 0)
  | Some e => zzl_delete (S (length zl)) (fun zl => at_score zl (fun v => zslValueLteMax v range)) zl e 0
  end.

Definition zzlDeleteRangeByLex (zl : ziplist) (range : zlexrangespec) : res (ziplist * Z) :=
  eptr ← zzlFirstInLexRange zl range;
  match eptr with
  | None => Ok (zl, 0)
  | Some e => zzl_delete (S (length zl)) (fun zl e => zzlLexValueLteMax zl e range) zl e 0
  end.

(** [ziplistDeleteRange] on entries: nothing when there is no such index. *)
Definition ziplistDeleteEntries (zl : ziplist) (index num : Z) : ziplist :=
  match ziplistIndex zl index with
  | None => zl
  | Some p => take p zl ++ drop (p + Z.to_nat num) zl
  end.

(** The indices are [unsigned int]s; the one passed on is an [int]. *)
Definition zzlDeleteRangeByRank (zl : ziplist) (start end_ : Z) : ziplist * Z :=
  let num := u32 (u32 (end_ - start) + 1) in
  (ziplistDeleteEntries zl (i32 (u32 (2 * (u32 (start - 1))))) (u32 (2 * num)), num).
