(* ===== verification/ZRangeSpec.v ===== *)
(** * Ranges of a sorted set as parts of the list of its entries

    On the sorted list of entries a range is a segment.  The searches of both
    encodings return the place of its first or last entry, and the deletions
    remove exactly its entries and count them. *)

From S2P Require Import Prelude Sds Double Util Score Skiplist SkiplistRep SkiplistSpec Zset ZsetSpec ZRange.
From Stdlib Require Import SpecFloat.

(** ** Tests along a list *)

(** Once the test holds it holds of all entries after. *)
Definition rises (p : zentry -> bool) (es : list zentry) : Prop :=
  StronglySorted (fun x y => p x = true -> p y = true) es.

Definition falls (p : zentry -> bool) (es : list zentry) : Prop := rises (fun y => negb (p y)) es.

Lemma rises_cut p es :
  rises p es -> exists EA EB, es = EA ++ EB /\ (forall y, y ∈ EA -> p y = false) /\ (forall y, y ∈ EB -> p y = true).
Proof.
  intros H. induction H as [|x es Hs IH Hall].
  { exists [], []. split_and!; [done|..]; intros y Hy; by apply elem_of_nil in Hy. }
  rewrite Forall_forall in Hall. destruct (p x) eqn:E.
  - exists [], (x :: es). split_and!; [done|intros y Hy; by apply elem_of_nil in Hy|].
    intros y Hy. apply elem_of_cons in Hy as [->|Hy]; auto.
  - destruct IH as (EA & EB & -> & HA & HB). exists (x :: EA), EB. split_and!; [done| |done].
    intros y Hy. apply elem_of_cons in Hy as [->|Hy]; auto.
Qed.

Lemma rises_app p EA EB : rises p (EA ++ EB) -> rises p EA /\ rises p EB.
Proof.
  unfold rises. induction EA as [|x EA IH]; simpl; [by split; [constructor|]|].
  intros H. apply StronglySorted_inv in H as [H Hall]. apply Forall_app in Hall as [Hall _].
  destruct (IH H). by split; [constructor|].
Qed.

Lemma rises_sorted (R : relation zentry) p es :
  StronglySorted R es -> (forall x y, x ∈ es -> y ∈ es -> R x y -> p x = true -> p y = true) -> rises p es.
Proof.
  intros H HR. induction H as [|x es Hs IH Hall]; constructor.
  - apply IH. intros a b Ha Hb. apply HR; by right.
  - rewrite Forall_forall in *. intros y Hy. apply HR; [by left|by right|auto].
Qed.

(** ** Segments *)

(** A range, as the tests of its two ends. *)
Record segment (gte lte : zentry -> bool) (es EA EM EB : list zentry) : Prop := {
  sg_es : es = EA ++ EM ++ EB;
  sg_before : forall y, y ∈ EA -> gte y = false;
  sg_in : forall y, y ∈ EM -> gte y = true /\ lte y = true;
  sg_after : forall y, y ∈ EB -> lte y = false
}.

(** Searching for the lower end first, or for the upper end first. *)
Lemma segment_low gte lte es :
  rises gte es -> falls lte es -> exists EA EM EB, segment gte lte es EA EM EB /\ (forall y, y ∈ EM ++ EB -> gte y = true).
Proof.
  intros Hg Hl. destruct (rises_cut _ _ Hg) as (EA & ER & -> & HA & HR).
  apply rises_app in Hl as [_ Hl]. destruct (rises_cut _ _ Hl) as (EM & EB & -> & HM & HB).
  exists EA, EM, EB. split; [|done]. split; [done|done|..]; intros y Hy.
  - split; [apply HR; apply elem_of_app; by left|]. specialize (HM y Hy). by apply negb_false_iff in HM.
  - specialize (HB y Hy). by apply negb_true_iff in HB.
Qed.

Lemma segment_high gte lte es :
  rises gte es -> falls lte es -> exists EA EM EB, segment gte lte es EA EM EB /\ (forall y, y ∈ EA ++ EM -> lte y = true).
Proof.
  intros Hg Hl. destruct (rises_cut _ _ Hl) as (EL & EB & -> & HL & HB).
  apply rises_app in Hg as [Hg _]. destruct (rises_cut _ _ Hg) as (EA & EM & -> & HA & HM).
  assert (HL' : forall y, y ∈ EA ++ EM -> lte y = true) by (intros y Hy; by apply negb_false_iff, HL).
  exists EA, EM, EB. split; [|done]. split; [by rewrite <- app_assoc|done|..]; intros y Hy.
  - split; [by apply HM|]. apply HL', elem_of_app. by right.
  - by apply negb_true_iff, HB.
Qed.

Lemma rises_last p es y : rises p es -> last es = Some y -> p y = false -> forall x, x ∈ es -> p x = false.
Proof.
  intros Hr Hl Hy x Hx. destruct (rises_cut _ _ Hr) as (EA & EB & -> & HA & HB).
  rewrite last_app in Hl. destruct (last EB) as [w|] eqn:E.
  - injection Hl as ->. apply last_Some_elem_of in E. by rewrite (HB _ E) in Hy.
  - apply last_None in E as ->. rewrite app_nil_r in Hx. auto.
Qed.

Lemma falls_head p es y : falls p es -> head es = Some y -> p y = false -> forall x, x ∈ es -> p x = false.
Proof.
  intros Hr Hh Hy x Hx. destruct es as [|w es]; [done|]. injection Hh as ->.
  apply elem_of_cons in Hx as [->|Hx]; [done|]. apply StronglySorted_inv in Hr as [_ Hall].
  rewrite Forall_forall in Hall. specialize (Hall x Hx). rewrite Hy in Hall. by apply negb_true_iff, Hall.
Qed.

(** The entries inside, the entries outside, and the places of those inside. *)
Definition inside (gte lte : zentry -> bool) (es : list zentry) : list zentry :=
  filter (fun y => gte y && lte y) es.
Definition outside (gte lte : zentry -> bool) (es : list zentry) : list zentry :=
  filter (fun y => negb (gte y && lte y)) es.
Definition places_in {T} (gte lte : zentry -> bool) (l : list T) (es : list zentry) : list T :=
  (filter (fun ay => gte ay.2 && lte ay.2) (zip l es)).*1.

(** Evaluating the tests of a segment on one of its entries. *)
Ltac seg_tests H :=
  let y := fresh in let Hy := fresh in
  first [intros [? y] Hy%elem_of_zip_r | intros y Hy]; cbn; specialize (H y Hy); cbn in H;
  first [rewrite H | destruct H as [-> ->]]; rewrite ?andb_false_r; cbn; tauto.

Section Segment.
Context (gte lte : zentry -> bool) (es EA EM EB : list zentry).
Hypothesis Hsg : segment gte lte es EA EM EB.

Lemma seg_inside : inside gte lte es = EM.
Proof using Hsg.
  destruct Hsg as [-> HA HM HB]. unfold inside. rewrite !filter_app.
  rewrite (filter_none _ EA) by seg_tests HA.
  rewrite (filter_all _ EM) by seg_tests HM.
  rewrite (filter_none _ EB) by seg_tests HB.
  by rewrite app_nil_r.
Qed.

Lemma seg_outside : outside gte lte es = EA ++ EB.
Proof using Hsg.
  destruct Hsg as [-> HA HM HB]. unfold outside. rewrite !filter_app.
  rewrite (filter_all _ EA) by seg_tests HA.
  rewrite (filter_none _ EM) by seg_tests HM.
  by rewrite (filter_all _ EB) by seg_tests HB.
Qed.

Lemma seg_places {T} (A M B : list T) :
  length A = length EA -> length M = length EM -> length B = length EB ->
  places_in gte lte (A ++ M ++ B) es = M.
Proof using Hsg.
  destruct Hsg as [-> HA HM HB]. intros H1 H2 H3. unfold places_in.
  rewrite (zip_with_app _ A (M ++ B) EA (EM ++ EB)), (zip_with_app _ M B EM EB) by done. rewrite !filter_app.
  rewrite (filter_none _ (zip A EA)) by seg_tests HA.
  rewrite (filter_all _ (zip M EM)) by seg_tests HM.
  rewrite (filter_none _ (zip B EB)) by seg_tests HB.
  rewrite app_nil_r. by apply fst_zip; lia.
Qed.
End Segment.

(** ** Ranges by score *)

Definition range_num (r : zrangespec) : Prop := isnan (rmin r) = false /\ isnan (rmax r) = false.

Definition score_gte (r : zrangespec) (y : zentry) : bool := zslValueGteMin y.1 r.
Definition score_lte (r : zrangespec) (y : zentry) : bool := zslValueLteMax y.1 r.

Lemma dle_key a b : isnan a = false -> isnan b = false -> dle a b = true <-> lex (dkey b) (dkey a) <> Lt.
Proof.
  intros Ha Hb. unfold dle, SFleb. rewrite SFcompare_key, (lex_antisym (dkey a) (dkey b)) by done.
  by destruct (lex (dkey a) (dkey b)).
Qed.

Lemma ekey_lt_score x y : ekey_lt x y -> lex (dkey y.1) (dkey x.1) <> Lt.
Proof.
  intros [H|[H _]]; [|by rewrite H, lex_refl]. intros H'. pose proof (lex_trans _ _ _ H H') as E. by rewrite lex_refl in E.
Qed.

Section ScoreTests.
Context (r : zrangespec) (es : list zentry).
Hypothesis Hr : range_num r.
Hypothesis Ho : zordered es.

Lemma es_num y : y ∈ es -> isnan y.1 = false.
Proof. intros Hy. pose proof (zo_num _ Ho) as H. rewrite Forall_forall in H. by apply H. Qed.

Lemma score_rises : rises (score_gte r) es.
Proof.
  destruct Hr as [Hmin _]. apply (rises_sorted ekey_lt); [apply Ho|]. intros x y Hx Hy Hlt%ekey_lt_score.
  apply es_num in Hx, Hy. unfold score_gte, zslValueGteMin.
  destruct (minex r); rewrite ?dlt_key, ?dle_key by done; rewrite !lex_lt in *; lia.
Qed.

Lemma score_falls : falls (score_lte r) es.
Proof.
  destruct Hr as [_ Hmax]. apply (rises_sorted ekey_lt); [apply Ho|]. intros x y Hx Hy Hlt%ekey_lt_score.
  apply es_num in Hx, Hy. rewrite !negb_true_iff, <- !not_true_iff_false. unfold score_lte, zslValueLteMax.
  destruct (maxex r); rewrite ?dlt_key, ?dle_key by done; rewrite !lex_lt in *; lia.
Qed.

Lemma never_score y : never_in_range r = true -> y ∈ es -> score_gte r y && score_lte r y = false.
Proof.
  destruct Hr as [Hmin Hmax]. intros Hn Hy%es_num. apply not_true_iff_false. rewrite andb_true_iff.
  unfold never_in_range in Hn. rewrite orb_true_iff, andb_true_iff, orb_true_iff, dlt_key, deq_key in Hn by done.
  unfold score_gte, score_lte, zslValueGteMin, zslValueLteMax. intros [H1 H2].
  assert (Hge : lex (dkey y.1) (dkey (rmin r)) <> Lt).
  { destruct (minex r); rewrite ?dlt_key, ?dle_key in H1 by done; rewrite !lex_lt in *; lia. }
  assert (Hle : lex (dkey (rmax r)) (dkey y.1) <> Lt).
  { destruct (maxex r); rewrite ?dlt_key, ?dle_key in H2 by done; rewrite !lex_lt in *; lia. }
  destruct Hn as [Hn|[E [Hn|Hn]]]; [rewrite !lex_lt in *; lia|..]; rewrite Hn in *.
  - rewrite dlt_key, E in H1 by done. done.
  - rewrite dlt_key, <- E in H2 by done. done.
Qed.

(** The loop conditions of the deletion are the tests of the ends. *)
Lemma below_min y : y ∈ es ->
  (if minex r then dle y.1 (rmin r) else dlt y.1 (rmin r)) = negb (score_gte r y).
Proof.
  destruct Hr as [Hmin _]. intros Hy%es_num. apply eq_true_iff_eq. rewrite negb_true_iff, <- not_true_iff_false.
  unfold score_gte, zslValueGteMin. destruct (minex r); rewrite ?dlt_key, ?dle_key by done; [tauto|].
  destruct (lex _ _); naive_solver.
Qed.
End ScoreTests.

(** ** Ranges by element *)

Definition lex_gte (r : zlexrangespec) (y : zentry) : bool := zslLexValueGteMin y.2 r.
Definition lex_lte (r : zlexrangespec) (y : zentry) : bool := zslLexValueLteMax y.2 r.

(** The entries of a range by element are a segment when all scores are equal. *)
Definition one_score (es : list zentry) : Prop := forall x y, x ∈ es -> y ∈ es -> dkey x.1 = dkey y.1.

Lemma sdscmplex_trans a b c : sdscmplex a b < 0 -> sdscmplex b c < 0 -> sdscmplex a c < 0.
Proof.
  destruct a as [| |a], b as [| |b], c as [| |c]; simpl; try lia. apply sdscmp_trans.
Qed.

Lemma sdscmplex_antisym a b : Z.sgn (sdscmplex b a) = - Z.sgn (sdscmplex a b).
Proof. destruct a as [| |a], b as [| |b]; simpl; try done. apply sdscmp_antisym. Qed.

Lemma sdscmplex_eq a b : sdscmplex a b = 0 <-> a = b.
Proof. destruct a as [| |a], b as [| |b]; simpl; try done. rewrite sdscmp_eq. naive_solver. Qed.

Lemma sdscmplex_le_trans a b c : sdscmplex a b <= 0 -> sdscmplex b c <= 0 ->
  sdscmplex a c <= 0 /\ (sdscmplex a b < 0 \/ sdscmplex b c < 0 -> sdscmplex a c < 0).
Proof.
  intros Hab Hbc. destruct (Z.eq_dec (sdscmplex a b) 0) as [E|E].
  { apply sdscmplex_eq in E. subst b. pose proof (proj2 (sdscmplex_eq a a) eq_refl). lia. }
  destruct (Z.eq_dec (sdscmplex b c) 0) as [E'|E'].
  { apply sdscmplex_eq in E'. subst c. lia. }
  assert (sdscmplex a c < 0) by (apply (sdscmplex_trans a b c); lia). lia.
Qed.

Section LexTests.
Context (r : zlexrangespec) (es : list zentry).
Hypothesis Ho : zordered es.
Hypothesis H1 : one_score es.

Lemma ele_lt x y : x ∈ es -> y ∈ es -> ekey_lt x y -> sdscmplex (LexSds x.2) (LexSds y.2) < 0.
Proof. intros Hx Hy [H|[_ H]]; [|done]. by rewrite (H1 x y Hx Hy), lex_refl in H. Qed.

Lemma lex_rises : rises (lex_gte r) es.
Proof.
  apply (rises_sorted ekey_lt); [apply Ho|]. intros x y Hx Hy Hlt%ele_lt; [|done..].
  unfold lex_gte, zslLexValueGteMin. pose proof (sdscmplex_antisym (LexSds x.2) (lmin r)).
  pose proof (sdscmplex_antisym (LexSds y.2) (lmin r)).
  pose proof (sdscmplex_le_trans (lmin r) (LexSds x.2) (LexSds y.2)).
  destruct (lminex r); rewrite ?Z.ltb_lt, ?Z.leb_le; lia.
Qed.

Lemma lex_falls : falls (lex_lte r) es.
Proof.
  apply (rises_sorted ekey_lt); [apply Ho|]. intros x y Hx Hy Hlt%ele_lt; [|done..].
  rewrite !negb_true_iff. unfold lex_lte, zslLexValueLteMax.
  pose proof (sdscmplex_le_trans (LexSds x.2) (LexSds y.2) (lmax r)).
  destruct (lmaxex r); rewrite ?Z.ltb_ge, ?Z.leb_gt; lia.
Qed.
End LexTests.

Lemma never_lex r y : never_in_lex_range r = true -> lex_gte r y && lex_lte r y = false.
Proof.
  intros Hn. apply not_true_iff_false. rewrite andb_true_iff. unfold never_in_lex_range in Hn.
  rewrite orb_true_iff, andb_true_iff, orb_true_iff, Z.ltb_lt, Z.eqb_eq in Hn.
  unfold lex_gte, lex_lte, zslLexValueGteMin, zslLexValueLteMax. intros [Hg Hl].
  pose proof (sdscmplex_antisym (LexSds y.2) (lmin r)).
  pose proof (sdscmplex_le_trans (lmin r) (LexSds y.2) (lmax r)).
  destruct (lminex r), (lmaxex r); rewrite ?Z.ltb_lt, ?Z.leb_le in *; destruct Hn as [Hn|[Hn []]]; try done; lia.
Qed.

Lemma places_none {T} gte lte (l : list T) es :
  (forall y, y ∈ es -> gte y && lte y = false) -> places_in gte lte l es = [].
Proof.
  intros H. unfold places_in. rewrite filter_none; [done|]. intros [a y] Hy%elem_of_zip_r. cbn. by rewrite (H y Hy); intros [].
Qed.

(** Outside of the ends nothing is in range. *)
Lemma ends_none {T} gte lte (l : list T) es y x :
  rises gte es -> falls lte es -> last es = Some y -> head es = Some x -> gte y && lte x = false ->
  places_in gte lte l es = [].
Proof.
  intros Hrise Hfall Hy Hx Hb. apply places_none. intros w Hw. apply andb_false_iff in Hb as [Hb|Hb].
  - by rewrite (rises_last _ _ _ Hrise Hy Hb w Hw).
  - rewrite (falls_head _ _ _ Hfall Hx Hb w Hw). apply andb_false_r.
Qed.

(** Both ends of the list against the range. *)
Definition ends_meet (gte lte : zentry -> bool) (es : list zentry) : bool :=
  match last es, head es with Some y, Some x => gte y && lte x | _, _ => false end.

(** The searches look at the ends first. *)
Lemma range_search gte lte (l : list nat) es (never : bool) ends find (pick : list nat -> option nat) :
  rises gte es -> falls lte es -> (never = true -> forall y, y ∈ es -> gte y && lte y = false) -> pick [] = None ->
  ends = Ok (ends_meet gte lte es) ->
  (forall y x, last es = Some y -> head es = Some x -> gte y = true -> lte x = true ->
     find = Ok (pick (places_in gte lte l es))) ->
  (b ← (if never then Ok false else ends); if (b : bool) then find else Ok None) = Ok (pick (places_in gte lte l es)).
Proof.
  intros Hrise Hfall Hnever Hnil -> Hf. destruct never; cbn [mbind res_bind].
  { rewrite places_none, Hnil; [done|auto]. }
  destruct es as [|x es]; [by rewrite places_none, Hnil; [|intros y Hy%elem_of_nil]|]. unfold ends_meet.
  destruct (last (x :: es)) as [y|] eqn:Ey; [|by apply last_None in Ey]. cbn [head].
  destruct (gte y && lte x) eqn:Eb.
  - apply andb_true_iff in Eb as [Eg El]. by eapply Hf.
  - by rewrite (ends_none _ _ _ _ _ _ Hrise Hfall Ey eq_refl Eb), Hnil.
Qed.

(** ** The searches of the skip list *)

Lemma first_node_view z l : zsl_rep z l -> first_node z = Ok (head l).
Proof.
  intros Hrep. pose proof (r_lev _ _ Hrep). unfold first_node.
  assert (Hl : lvl z (header z) 0 = Some (fwd (hgt z) 0 l)).
  { apply (r_fwd _ _ Hrep []); [done| |lia]. rewrite (r_hdr _ _ Hrep). unfold ZSKIPLIST_MAXLEVEL. lia. }
  apply get_level_lvl in Hl. rewrite Hl. cbn [mbind res_bind].
  rewrite <- (fwd_0 (hgt z) l); [by destruct (fwd (hgt z) 0 l)|]. intros a Ha. by apply (r_hgt _ _ Hrep).
Qed.

Lemma view_node z l es i y :
  zsl_view z l es -> es !! i = Some y ->
  exists a n, l !! i = Some a /\ node z a = Ok n /\ score n = y.1 /\ ele n = Some y.2.
Proof.
  intros Hv Hi. destruct (Forall2_lookup_r _ _ _ _ _ (v_entries _ _ _ Hv) Hi) as (a & Ha & Hd).
  destruct (node_Ok z a) as (n & En & Hn).
  { apply (r_alloc _ _ (v_rep _ _ _ Hv)). right. by eapply list_elem_of_lookup_2. }
  exists a, n. destruct (data_node _ _ _ _ Hn Hd). done.
Qed.

Section SkiplistRange.
Context (z : zskiplist) (l : list nat) (es : list zentry) (gte lte : zentry -> bool) (g t : zskiplistNode -> res bool).
Hypothesis Hv : zsl_view z l es.
Hypothesis Hg : forall n y, y ∈ es -> score n = y.1 -> ele n = Some y.2 -> g n = Ok (gte y).
Hypothesis Ht : forall n y, y ∈ es -> score n = y.1 -> ele n = Some y.2 -> t n = Ok (lte y).
Hypothesis Hrise : rises gte es.
Hypothesis Hfall : falls lte es.

Lemma ends_spec :
  ends_in_range g t z = Ok (ends_meet gte lte es).
Proof.
  unfold ends_meet.
  pose proof (v_rep _ _ _ Hv) as Hrep. pose proof (view_length _ _ _ Hv) as Hl. unfold ends_in_range.
  rewrite (r_tail _ _ Hrep), (first_node_view _ _ Hrep), !last_lookup, Hl. destruct (es !! pred (length es)) as [y|] eqn:Ey.
  - destruct (view_node _ _ _ _ _ Hv Ey) as (a & n & -> & -> & Hs & He). cbn [mbind res_bind].
    rewrite (Hg n y) by (done || by eapply list_elem_of_lookup_2). cbn [mbind res_bind].
    destruct es as [|x es'] eqn:Ees; [done|]. destruct (view_node _ _ _ 0 x Hv eq_refl) as (b & m & Hb & Hm & Hs' & He').
    rewrite <- head_lookup in Hb. rewrite Hb. destruct (gte y); [|done]. cbn [mbind res_bind head andb]. rewrite Hm.
    cbn [mbind res_bind]. apply Ht; [by left|done|done].
  - rewrite <- last_lookup in Ey. apply last_None in Ey. rewrite Ey in Hl |- *. by destruct l.
Qed.
(** The tests of the searches on a cut of the entries. *)
Lemma cut_test (p : zentry -> bool) (go : Z -> Z -> zskiplistNode -> res bool) EA EB :
  es = EA ++ EB -> (forall y, y ∈ EA -> p y = true) -> (forall y, y ∈ EB -> p y = false) ->
  (forall r sp n y, y ∈ es -> score n = y.1 -> ele n = Some y.2 -> go r sp n = Ok (p y)) ->
  exists A B u x pre, l = A ++ B /\ length A = length EA /\ length B = length EB /\
    descend (zlevel z) id go z (header z) 0 = Ok u /\ stop_at z u = x /\ header z :: A = pre ++ [x] /\
    (sp ← get_level z x 0; Ok sp.1) = Ok (head B).
Proof.
  intros Ees HA HB Hgo. pose proof Hv as Hv'. rewrite Ees in Hv'.
  destruct (search_cut z l EA EB id go Hv') as (A & B & u & -> & HeA & HeB & Hd & Hlen & Hu); [done| |].
  { intros i y n r sp Hi Hs He _ _ _. rewrite (Hgo _ _ n y) by (done || (rewrite Ees; by eapply list_elem_of_lookup_2)).
    f_equal. apply lookup_app_Some in Hi as [Hi|[Hge Hi]].
    - rewrite HA by (by eapply list_elem_of_lookup_2). apply lookup_lt_Some in Hi. by rewrite bool_decide_true by lia.
    - rewrite HB by (by eapply list_elem_of_lookup_2). by rewrite bool_decide_false by lia. }
  destruct (cut_node z A B u (v_rep _ _ _ Hv') Hlen Hu) as (x & u' & pre & sp & -> & Hpre & Hl).
  exists A, B, ((x, Z.of_nat (length A)) :: u'), x, pre. split_and!; try done.
  - by eapply Forall2_length.
  - by eapply Forall2_length.
  - by rewrite Hl.
Qed.

Lemma first_in_spec y :
  last es = Some y -> gte y = true -> first_in g t z = Ok (head (places_in gte lte l es)).
Proof.
  intros Hy Hgy. destruct (segment_low _ _ _ Hrise Hfall) as (EA & EM & EB & Hsg & HR).
  destruct (cut_test (fun y => negb (gte y)) (while_not g) EA (EM ++ EB))
    as (A & B & u & x & pre & El & HlA & HlB & Hd & Hst & _ & Hlv); [apply Hsg|..].
  { intros w Hw. by rewrite (sg_before _ _ _ _ _ _ Hsg w Hw). }
  { intros w Hw. by rewrite (HR w Hw). }
  { intros r sp n w Hw Hs He. unfold while_not. by rewrite (Hg n w). }
  unfold first_in. rewrite Hd. cbn [mbind res_bind]. rewrite Hst. destruct (get_level z x 0) as [[f sp]|]; [|done].
  cbn in Hlv. injection Hlv as ->. cbn [mbind res_bind].
  rewrite length_app in HlB. rewrite El in *.
  rewrite <- (take_drop (length EM) B) at 2. rewrite (seg_places _ _ _ _ _ _ Hsg A (take (length EM) B) (drop (length EM) B)).
  2-4: rewrite ?length_take, ?length_drop; lia.
  destruct (EM ++ EB) as [|w E'] eqn:EE.
  { exfalso. destruct Hsg as [Ees HA _ _]. rewrite EE, app_nil_r in Ees. rewrite Ees in Hy.
    apply last_Some_elem_of in Hy. by rewrite (HA _ Hy) in Hgy. }
  assert (Hw : es !! length EA = Some w).
  { rewrite (sg_es _ _ _ _ _ _ Hsg), EE. by rewrite list_lookup_middle. }
  destruct (view_node _ _ _ _ _ Hv Hw) as (a & n & Ha & Hn & Hs & He).
  rewrite <- HlA, lookup_app_r, Nat.sub_diag, <- head_lookup in Ha by lia. rewrite Ha. cbn [mbind res_bind]. rewrite Hn.
  cbn [mbind res_bind]. rewrite (Ht n w) by (done || by eapply list_elem_of_lookup_2). cbn [mbind res_bind]. f_equal.
  destruct B as [|b B]; [done|]. injection Ha as ->. destruct EM as [|m EM]; cbn [length take head].
  - cbn in EE. rewrite (sg_after _ _ _ _ _ _ Hsg w); [done|]. rewrite EE. by left.
  - injection EE as -> _. destruct (sg_in _ _ _ _ _ _ Hsg w) as [_ ->]; [by left|done].
Qed.

Lemma last_in_spec y :
  head es = Some y -> lte y = true -> last_in g t z = Ok (last (places_in gte lte l es)).
Proof.
  intros Hy Hly. destruct (segment_high _ _ _ Hrise Hfall) as (EA & EM & EB & Hsg & HL).
  pose proof (sg_es _ _ _ _ _ _ Hsg) as Ees. rewrite app_assoc in Ees.
  destruct (cut_test lte (while_test t) (EA ++ EM) EB)
    as (A & B & u & x & pre & El & HlA & HlB & Hd & Hst & Hpre & _); [done|done|apply Hsg| |].
  { intros r sp n w Hw Hs He. by apply Ht. }
  unfold last_in. rewrite Hd. cbn [mbind res_bind]. rewrite Hst.
  rewrite length_app in HlA. rewrite El in *.
  rewrite <- (take_drop (length EA) A), <- app_assoc, (seg_places _ _ _ _ _ _ Hsg).
  2-4: rewrite ?length_take, ?length_drop; lia.
  assert (Hne : (0 < length (EA ++ EM))%nat).
  { destruct (EA ++ EM) as [|w E'] eqn:EE; [|simpl; lia]. exfalso. rewrite Ees in Hy. destruct EB as [|w EB]; [done|].
    injection Hy as ->. by rewrite (sg_after _ _ _ _ _ _ Hsg y) in Hly by (by left). }
  rewrite length_app in Hne. destruct (lookup_lt_is_Some_2 (EA ++ EM) (pred (length A))) as [w Hw]; [rewrite length_app; lia|].
  destruct (view_node z (A ++ B) es (pred (length A)) w Hv) as (a & n & Ha & Hn & Hs & He).
  { rewrite Ees. by apply lookup_app_l_Some. }
  assert (last A = Some x) as Hx.
  { destruct A as [|a0 A0] using rev_ind; [simpl in HlA; lia|]. rewrite app_comm_cons in Hpre. apply app_inj_2 in Hpre as [_ [= ->]]; [|done].
    by rewrite last_snoc. }
  assert (a = x) as ->.
  { rewrite lookup_app_l, <- last_lookup in Ha by lia. congruence. }
  rewrite Hn. cbn [mbind res_bind].
  assert (Hwes : w ∈ es) by (rewrite Ees; apply elem_of_app; left; by eapply list_elem_of_lookup_2).
  rewrite (Hg n w) by done. cbn [mbind res_bind]. f_equal.
  destruct (decide (EM = [])) as [->|HM].
  - rewrite app_nil_r in Hw. rewrite (sg_before _ _ _ _ _ _ Hsg w) by (by eapply list_elem_of_lookup_2).
    by rewrite drop_ge by (simpl in HlA; lia).
  - assert (0 < length EM)%nat by (destruct EM; simpl; [done|lia]).
    rewrite lookup_app_r in Hw by lia. destruct (sg_in _ _ _ _ _ _ Hsg w) as [-> _]; [by eapply list_elem_of_lookup_2|].
    rewrite last_lookup in Hx |- *. rewrite lookup_drop, length_drop, <- Hx. f_equal. lia.
Qed.

Context (never : bool).
Hypothesis Hnever : never = true -> forall y, y ∈ es -> gte y && lte y = false.

Lemma first_spec :
  (b ← (if never then Ok false else ends_in_range g t z); if (b : bool) then first_in g t z else Ok None)
  = Ok (head (places_in gte lte l es)).
Proof. apply range_search; [done..|apply ends_spec|]. intros y x Hy _ Hgy _. by apply (first_in_spec y). Qed.

Lemma last_spec :
  (b ← (if never then Ok false else ends_in_range g t z); if (b : bool) then last_in g t z else Ok None)
  = Ok (last (places_in gte lte l es)).
Proof. apply range_search; [done..|apply ends_spec|]. intros y x _ Hx _ Hlx. by apply (last_in_spec x). Qed.
End SkiplistRange.

(** ** Deleting nodes one after another *)

(** Deleting a node leaves the heights of the nodes, so what the search put in
    [update] stays good for the next deletion. *)
Definition same_heights (z z' : zskiplist) : Prop :=
  (forall a, hgt z' a = hgt z a) /\ (zlevel z' <= zlevel z)%nat.

#[export] Instance same_heights_trans : Transitive same_heights.
Proof. intros z1 z2 z3 [H1 L1] [H2 L2]. split; [intros a; by rewrite H2|lia]. Qed.

Lemma heights_write z a n n' :
  nodes z !! a = Some n -> length (level n') = length (level n) -> same_heights z (set_nodes z (<[a := n']> (nodes z))).
Proof.
  intros Hn Hl. split; [|done]. intros b. unfold hgt. cbn [nodes set_nodes].
  destruct (decide (b = a)) as [->|Hb]; [by rewrite lookup_insert_eq, Hn|by rewrite lookup_insert_ne].
Qed.

Lemma set_level_heights z a i fs z' : set_level z a i fs = Ok z' -> same_heights z z'.
Proof.
  unfold set_level, node. destruct (nodes z !! a) as [n|] eqn:En; [|done]. cbn [of_option mbind res_bind].
  case_decide; [|done]. intros [= <-]. apply (heights_write z a n); [done|]. cbn. apply length_insert.
Qed.

Lemma set_backward_heights z a b z' : set_backward z a b = Ok z' -> same_heights z z'.
Proof.
  unfold set_backward, node. destruct (nodes z !! a) as [n|] eqn:En; [|done]. cbn [of_option mbind res_bind].
  intros [= <-]. by apply (heights_write z a n).
Qed.

Lemma unlink_level_heights u x z i z' : unlink_level u x z i = Ok z' -> same_heights z z'.
Proof.
  unfold unlink_level. destruct (upd_at u i) as [[ui ri]|]; [|done]. cbn [mbind res_bind].
  destruct (get_level z ui i) as [[f sp]|]; [|done]. cbn [mbind res_bind]. case_decide; [|apply set_level_heights].
  destruct (get_level z x i) as [[xf xs]|]; [|done]. cbn [mbind res_bind]. apply set_level_heights.
Qed.

Lemma unlink_heights u x js z z' : foldM (unlink_level u x) z js = Ok z' -> same_heights z z'.
Proof.
  revert z. induction js as [|i js IH]; intros z; cbn [foldM]; [intros [= ->]; by split|].
  destruct (unlink_level u x z i) as [z1|] eqn:E; [|done]. cbn [mbind res_bind]. intros H.
  transitivity z1; [by eapply unlink_level_heights|by apply IH].
Qed.

Lemma lower_level_le z lv lv' : lower_level z lv = Ok lv' -> (lv' <= lv)%nat.
Proof.
  induction lv as [|[|lv] IH]; cbn [lower_level]; [by intros [= <-]..|].
  destruct (get_level z (header z) (S lv)) as [[[f|] sp]|]; [| |done]; cbn [mbind res_bind]; [by intros [= <-]|].
  intros H%IH. lia.
Qed.

Lemma zslDeleteNode_heights z x u z' : zslDeleteNode z x u = Ok z' -> same_heights z z'.
Proof.
  unfold zslDeleteNode. destruct (foldM _ z _) as [z1|] eqn:E1; [|done]. cbn [mbind res_bind].
  destruct (get_level z1 x 0) as [[f sp]|]; [|done]. cbn [mbind res_bind].
  destruct (get_backward z1 x) as [b|]; [|done]. cbn [mbind res_bind].
  destruct (match f with Some y => set_backward z1 y b | None => Ok (set_tail z1 b) end) as [z2|] eqn:E2; [|done].
  cbn [mbind res_bind]. destruct (lower_level z2 (zlevel z2)) as [lv|] eqn:E3; [|done]. intros [= <-].
  transitivity z1; [by eapply unlink_heights|]. transitivity z2.
  - destruct f; [by eapply set_backward_heights|]. injection E2 as <-. by split.
  - split; [done|]. cbn. by eapply lower_level_le.
Qed.

(** Entries of [update] above the level of the list are not read. *)
Lemma zslDeleteNode_take z x u n :
  (zlevel z <= n)%nat -> zslDeleteNode z x (take n u) = zslDeleteNode z x u.
Proof.
  intros Hn. unfold zslDeleteNode. f_equal.
  enough (H : forall js z0, (forall i, i ∈ js -> (i < n)%nat) ->
            foldM (unlink_level (take n u) x) z0 js = foldM (unlink_level u x) z0 js).
  { apply H. intros i Hi%elem_of_seq. lia. }
  induction js as [|i js IH]; intros z0 Hi; [done|]. cbn [foldM].
  assert (unlink_level (take n u) x z0 i = unlink_level u x z0 i) as ->.
  { unfold unlink_level, upd_at. rewrite lookup_take_lt; [done|]. apply Hi. by left. }
  destruct (unlink_level u x z0 i) as [z1|]; [|done]. apply IH. intros j Hj. apply Hi. by right.
Qed.

Lemma upd_ok_heights z z' A i xr :
  (forall a, a ∈ header z :: A -> hgt z' a = hgt z a) -> header z' = header z -> upd_ok z A i xr -> upd_ok z' A i xr.
Proof.
  intros Hh Hhd (pre & mid & E & Hlow & Hi & Hr). exists pre, mid. rewrite Hhd. split; [done|].
  assert (Hin : forall a, a ∈ xr.1 :: mid -> a ∈ header z :: A) by (intros a Ha; rewrite E; apply elem_of_app; by right).
  split_and!; [|rewrite Hh; [done|apply Hin; by left]|done].
  unfold low in *. rewrite Forall_forall in *. intros a Ha. rewrite Hh; [auto|]. apply Hin. by right.
Qed.

(** What the deletions need of [update]. *)
Definition good_upd (z : zskiplist) (A : list nat) (u : list (nat * Z)) : Prop :=
  (zlevel z <= length u)%nat /\ forall j xr, (j < zlevel z)%nat -> u !! j = Some xr -> upd_ok z A j xr.

Section DeleteStep.
Context (d : gmap string nat) (z : zskiplist) (A B : list nat) (x : nat) (EA EB : list zentry) (y : zentry) (u : list (nat * Z)).
Hypothesis Hv : zsl_view z (A ++ x :: B) (EA ++ y :: EB).
Hypothesis HlA : length A = length EA.
Hypothesis Hd : dict_ok d z (A ++ x :: B).
Hypothesis Hu : good_upd z A u.

Lemma next_node : exists sp, get_level z x 0 = Ok (head B, sp).
Proof using Hv.
  clear HlA Hu.
  pose proof (v_rep _ _ _ Hv) as Hrep. exists (fwd (hgt z) 0 B).2. apply get_level_lvl.
  assert (Hin : forall a, a ∈ x :: B -> a ∈ A ++ x :: B) by (intros a Ha; apply elem_of_app; by right).
  pose proof (r_hgt _ _ Hrep x (Hin x ltac:(by left))) as Hx.
  rewrite (r_fwd _ _ Hrep (header z :: A) x B 0 eq_refl) by lia.
  rewrite <- (fwd_0 (hgt z) B); [by destruct (fwd _ _ _)|].
  intros a Ha. apply (r_hgt _ _ Hrep). apply Hin. by right.
Qed.

Lemma delete_step :
  exists z1 n z2, zslDeleteNode z x u = Ok z1 /\ node z1 x = Ok n /\ ele n = Some y.2 /\ zslFreeNode z1 x = Ok z2 /\
    zsl_view z2 (A ++ B) (EA ++ EB) /\ dict_ok (delete y.2 d) z2 (A ++ B) /\ good_upd z2 A u.
Proof.
  destruct Hu as [Hlen Hok].
  destruct (zslDeleteNode_view z A x B (take (zlevel z) u) EA y EB Hv HlA) as (z1 & E1 & Hv1 & Hh1 & _ & Hd1).
  { rewrite length_take. lia. }
  { intros j xr [Hj ?]%lookup_take_Some. by apply Hok. }
  rewrite zslDeleteNode_take in E1 by done. destruct (zslDeleteNode_heights _ _ _ _ E1) as [Hhg Hlv].
  destruct (node_unlinked _ _ _ _ _ Hv) as [Hx Hn]. rewrite <- Hh1 in Hx.
  assert (Hx1 : is_Some (nodes z1 !! x)) by (apply data_alloc; rewrite Hd1; by apply data_alloc).
  assert (Hdx : data z x = Some (y.1, Some y.2)).
  { pose proof (v_entries _ _ _ Hv) as He. apply Forall2_app_inv in He as [_ He]; [|done]. by apply Forall2_cons in He as [? _]. }
  destruct (free_view z1 (A ++ B) (EA ++ EB) x Hv1 Hx Hx1) as (z2 & E2 & Hv2 & Hh2 & Hd2).
  destruct (node_Ok z1 x Hx1) as (n & En & Hn1).
  exists z1, n, z2. split_and!; try done.
  - rewrite <- Hd1 in Hdx. by destruct (data_node _ _ _ _ Hn1 Hdx).
  - eapply dict_ok_delete; [exact Hd|exact Hdx|]. intros a. rewrite Hd2. case_decide; [done|apply Hd1].
  - unfold zslFreeNode in E2. rewrite En in E2. injection E2 as <-. split; [cbn; lia|]. intros j xr Hj Hxr.
    apply (upd_ok_heights z); [|by rewrite Hh2|apply Hok; [cbn in Hj; lia|done]].
    intros a Ha. rewrite <- (Hhg a). unfold hgt. cbn [nodes set_nodes]. rewrite lookup_delete_ne; [done|].
    intros <-. apply Hx. rewrite Hh1. rewrite elem_of_cons, elem_of_app. rewrite elem_of_cons in Ha. tauto.
Qed.
End DeleteStep.

Lemma delete_nodes_spec fuel more u A EA B EB EM : forall M d z removed,
  zsl_view z (A ++ M ++ B) (EA ++ EM ++ EB) -> length A = length EA -> length M = length EM ->
  dict_ok d z (A ++ M ++ B) -> good_upd z A u -> (length EM < fuel)%nat ->
  (forall i y n, EM !! i = Some y -> score n = y.1 -> ele n = Some y.2 -> more (removed + Z.of_nat i) n = Ok true) ->
  (forall y n, head EB = Some y -> score n = y.1 -> ele n = Some y.2 ->
     more (removed + Z.of_nat (length EM)) n = Ok false) ->
  exists d' z', delete_nodes fuel more u z d (head (M ++ B)) removed = Ok (removed + Z.of_nat (length EM), d', z') /\
    zsl_view z' (A ++ B) (EA ++ EB) /\ dict_ok d' z' (A ++ B).
Proof.
  revert EM. induction fuel as [|fuel IH]; intros EM M d z removed Hv HlA HlM Hd Hu Hf Hin Hout; [lia|].
  cbn [delete_nodes]. destruct EM as [|y EM], M as [|x M]; try done; cbn [app] in *.
  - rewrite Z.add_0_r in *. destruct (head B) as [b|] eqn:Eb; [|by exists d, z].
    assert (exists y, head EB = Some y) as [y Ey].
    { destruct EB as [|y EB]; [|by eauto]. apply view_length in Hv. rewrite !length_app in Hv.
      destruct B; [done|]. simpl in Hv. lia. }
    destruct (view_node z (A ++ B) (EA ++ EB) (length EA) y Hv) as (b' & n & Hb' & Hn & Hs & He).
    { rewrite lookup_app_r, Nat.sub_diag, <- head_lookup by lia. done. }
    assert (b' = b) as -> by (rewrite <- HlA, lookup_app_r, Nat.sub_diag, <- head_lookup in Hb' by lia; congruence).
    rewrite Hn. cbn [mbind res_bind]. rewrite (Hout y n Ey Hs He). cbn [mbind res_bind]. by exists d, z.
  - cbn [head]. destruct (view_node z _ _ (length EA) y Hv) as (b' & n & Hb' & Hn & Hs & He).
    { by rewrite list_lookup_middle. }
    assert (b' = x) as -> by (rewrite <- HlA, list_lookup_middle in Hb' by done; congruence).
    rewrite Hn. cbn [mbind res_bind]. pose proof (Hin 0%nat y n eq_refl Hs He) as Hm. rewrite Z.add_0_r in Hm. rewrite Hm.
    cbn [mbind res_bind]. destruct (next_node z A (M ++ B) x EA (EM ++ EB) y Hv) as [sp ->]. cbn [mbind res_bind].
    destruct (delete_step d z A (M ++ B) x EA (EM ++ EB) y u Hv HlA Hd Hu) as (z1 & n1 & z2 & E0 & E1 & He1 & E2 & Hv2 & Hd2 & Hu2).
    rewrite E0. cbn [mbind res_bind]. rewrite E1. cbn [mbind res_bind]. unfold ele_of. rewrite He1. cbn [of_option mbind res_bind]. rewrite E2. cbn [mbind res_bind].
    destruct (IH EM M (delete y.2 d) z2 (removed + 1)) as (d' & z' & E & Hv' & Hd'); try done.
    + simpl in HlM. lia.
    + simpl in Hf. lia.
    + intros i w m Hi. replace (removed + 1 + Z.of_nat i) with (removed + Z.of_nat (S i)) by lia. by apply Hin.
    + intros w m Hw. replace (removed + 1 + Z.of_nat (length EM)) with (removed + Z.of_nat (length (y :: EM))) by (simpl; lia). by apply Hout.
    + exists d', z'. split; [|done]. rewrite E. f_equal. f_equal. f_equal. simpl. lia.
Qed.

Lemma delete_range_spec d z EA EM EB go more :
  sk_view d z (EA ++ EM ++ EB) ->
  (forall i y n r sp, (EA ++ EM ++ EB) !! i = Some y -> score n = y.1 -> ele n = Some y.2 ->
     r + sp = Z.of_nat i + 1 -> 0 <= r -> 0 < sp -> go r sp n = Ok (bool_decide (i < length EA)%nat)) ->
  (forall i y n, EM !! i = Some y -> score n = y.1 -> ele n = Some y.2 ->
     more (Z.of_nat (length EA)) (Z.of_nat i) n = Ok true) ->
  (forall y n, head EB = Some y -> score n = y.1 -> ele n = Some y.2 ->
     more (Z.of_nat (length EA)) (Z.of_nat (length EM)) n = Ok false) ->
  exists d' z', delete_range go more z d = Ok (Z.of_nat (length EM), d', z') /\ sk_view d' z' (EA ++ EB).
Proof.
  intros (l & Hv & Hd) Hgo Hin Hout.
  destruct (search_cut z l EA (EM ++ EB) id go Hv) as (A & R & u & -> & HeA & HeR & Es & Hlen & Hu); [done|done|].
  apply Forall2_app_inv_r in HeR as (M & B & HeM & HeB & ->).
  pose proof (Forall2_length _ _ _ HeA) as HlA. pose proof (Forall2_length _ _ _ HeM) as HlM.
  destruct (cut_node z A (M ++ B) u (v_rep _ _ _ Hv) Hlen Hu) as (x & u' & pre & sp & -> & _ & Hl).
  unfold delete_range. rewrite Es. cbn [mbind res_bind stop_at]. rewrite Hl. cbn [mbind res_bind].
  destruct (delete_nodes_spec (S (Z.to_nat (zlength z))) (more (Z.of_nat (length A))) ((x, Z.of_nat (length A)) :: u')
              A EA B EB EM M d z 0) as (d' & z' & E & Hv' & Hd'); try done.
  - split; [lia|]. intros j xr _ Hj. by apply Hu.
  - rewrite (r_len _ _ (v_rep _ _ _ Hv)), !length_app. lia.
  - intros i y n Hi. rewrite HlA. by apply Hin.
  - intros y n Hy. rewrite HlA. by apply Hout.
  - exists d', z'. split; [exact E|]. by exists (A ++ B).
Qed.

(** A range given by tests of the entries. *)
Lemma delete_tests_spec d z es gte lte go more :
  sk_view d z es -> rises gte es -> falls lte es ->
  (forall r sp n y, y ∈ es -> score n = y.1 -> ele n = Some y.2 -> go r sp n = Ok (negb (gte y))) ->
  (forall r k n y, y ∈ es -> score n = y.1 -> ele n = Some y.2 -> more r k n = Ok (lte y)) ->
  exists d' z', delete_range go more z d = Ok (Z.of_nat (length (inside gte lte es)), d', z') /\
    sk_view d' z' (outside gte lte es).
Proof.
  intros Hv Hg Hl Hgo Hmore. destruct (segment_low _ _ _ Hg Hl) as (EA & EM & EB & Hsg & HR).
  rewrite (seg_inside _ _ _ _ _ _ Hsg), (seg_outside _ _ _ _ _ _ Hsg). destruct Hsg as [-> HA HM HB].
  apply (delete_range_spec d z EA EM EB go more Hv).
  - intros i y n r sp Hi Hs He _ _ _. rewrite (Hgo _ _ n y) by (done || by eapply list_elem_of_lookup_2). f_equal.
    apply lookup_app_Some in Hi as [Hi|[Hge Hi]].
    + rewrite HA by (by eapply list_elem_of_lookup_2). apply lookup_lt_Some in Hi. by rewrite bool_decide_true by lia.
    + rewrite HR by (by eapply list_elem_of_lookup_2). by rewrite bool_decide_false by lia.
  - intros i y n Hi Hs He. apply list_elem_of_lookup_2 in Hi.
    rewrite (Hmore _ _ n y) by (done || (rewrite !elem_of_app; tauto)). by destruct (HM y Hi) as [_ ->].
  - intros y n Hy Hs He. apply head_elem in Hy.
    rewrite (Hmore _ _ n y) by (done || (rewrite !elem_of_app; tauto)). by rewrite (HB y Hy).
Qed.

(** The entries from the [start]th to the [end]th. *)
Definition rank_from (start : Z) : nat := Z.to_nat (start - 1).
Definition ranks_in (start end_ : Z) (es : list zentry) : list zentry :=
  take (Z.to_nat (end_ - start + 1)) (drop (rank_from start) es).
Definition ranks_out (start end_ : Z) (es : list zentry) : list zentry :=
  take (rank_from start) es ++ drop (Z.to_nat (end_ - start + 1)) (drop (rank_from start) es).

Lemma delete_ranks_spec d z es start end_ :
  sk_view d z es -> 1 <= start ->
  exists d' z', zslDeleteRangeByRank z start end_ d = Ok (Z.of_nat (length (ranks_in start end_ es)), d', z') /\
    sk_view d' z' (ranks_out start end_ es).
Proof.
  intros Hv Hst. unfold zslDeleteRangeByRank, ranks_in, ranks_out. set (k := rank_from start).
  set (m := Z.to_nat (end_ - start + 1)).
  assert (Hk : Z.of_nat k = start - 1) by (unfold k, rank_from; lia).
  assert (Hes : es = take k es ++ take m (drop k es) ++ drop m (drop k es)) by (by rewrite !take_drop).
  rewrite Hes in Hv. apply (delete_range_spec _ _ _ _ _ _ _ Hv).
  - intros i y n r sp Hi _ _ Hrs _ _. f_equal. rewrite <- Hes in Hi. apply lookup_lt_Some in Hi. rewrite length_take.
    case_bool_decide; [rewrite Z.ltb_lt|rewrite Z.ltb_ge]; lia.
  - intros i y n [Hi Hlt]%lookup_take_Some _ _. apply lookup_lt_Some in Hi. rewrite length_drop in Hi. rewrite length_take.
    f_equal. apply Z.leb_le. lia.
  - intros y n Hy _ _. rewrite head_lookup, lookup_drop in Hy. apply lookup_lt_Some in Hy. rewrite length_drop in Hy.
    rewrite !length_take, length_drop. f_equal. apply Z.leb_gt. lia.
Qed.

(** ** The searches of the ziplist *)

(** The entries' elements are at the even indices. *)
Definition evens (es : list zentry) : list nat := (fun i => 2 * i)%nat <$> seq 0 (length es).

Definition last_at (k : nat) : option nat := match k with O => None | S k => Some (2 * k)%nat end.

Lemma evens_split EA EM EB :
  evens (EA ++ EM ++ EB) =
  evens EA ++ ((fun i => 2 * i)%nat <$> seq (length EA) (length EM)) ++
  ((fun i => 2 * i)%nat <$> seq (length EA + length EM) (length EB)).
Proof. unfold evens. rewrite !length_app, !seq_app, !fmap_app. done. Qed.

Lemma evens_places gte lte es EA EM EB :
  segment gte lte es EA EM EB ->
  places_in gte lte (evens es) es = (fun i => 2 * i)%nat <$> seq (length EA) (length EM).
Proof.
  intros Hsg. rewrite (sg_es _ _ _ _ _ _ Hsg) at 1. rewrite evens_split.
  apply (seg_places _ _ _ _ _ _ Hsg); unfold evens; by rewrite length_fmap, length_seq.
Qed.

Section ZiplistRange.
Context (es : list zentry) (gte lte : zentry -> bool) (g t : nat -> res bool).
Hypothesis Hg : forall EA y EB, es = EA ++ y :: EB -> g (2 * length EA)%nat = Ok (gte y).
Hypothesis Ht : forall EA y EB, es = EA ++ y :: EB -> t (2 * length EA)%nat = Ok (lte y).
Hypothesis Hrise : rises gte es.
Hypothesis Hfall : falls lte es.

Lemma zzl_first_walk E1 fuel E0 ER :
  es = E0 ++ E1 ++ ER -> (forall y, y ∈ E1 -> gte y = false) -> (length E1 <= fuel)%nat ->
  zzl_first fuel g t (flat es) (first_at (2 * length E0) (E1 ++ ER)) =
  zzl_first (fuel - length E1) g t (flat es) (first_at (2 * length (E0 ++ E1)) ER).
Proof.
  revert fuel E0. induction E1 as [|y E1 IH]; intros fuel E0 E Hno Hf; cbn [length app].
  { by rewrite Nat.sub_0_r, app_nil_r. }
  destruct fuel as [|fuel]; [simpl in Hf; lia|]. cbn [zzl_first first_at Nat.sub].
  rewrite (Hg E0 y (E1 ++ ER)) by done. cbn [mbind res_bind]. rewrite (Hno y) by (by left).
  pose proof (next_score E0 y (E1 ++ ER)) as Hs. pose proof (next_ele E0 y (E1 ++ ER)) as He.
  cbn [app] in E. rewrite <- E in Hs, He. rewrite Hs. cbn [assert_ptr of_option mbind res_bind]. rewrite He.
  replace (S (S (2 * length E0))) with (2 * length (E0 ++ [y]))%nat by (rewrite length_app; simpl; lia).
  rewrite (IH fuel (E0 ++ [y])).
  - by rewrite <- app_assoc.
  - rewrite E. by rewrite <- app_assoc.
  - intros w Hw. apply Hno. by right.
  - simpl in Hf. lia.
Qed.

Lemma zzl_first_spec fuel :
  (length es < fuel)%nat ->
  zzl_first fuel g t (flat es) (ziplistIndex (flat es) 0) = Ok (head (places_in gte lte (evens es) es)).
Proof.
  intros Hf. destruct (segment_low _ _ _ Hrise Hfall) as (EA & EM & EB & Hsg & HR).
  rewrite (evens_places _ _ _ _ _ _ Hsg). destruct Hsg as [E HA HM HB]. rewrite index_first.
  assert (Hl : (length EA < fuel)%nat) by (rewrite E, length_app in Hf; lia).
  pose proof (zzl_first_walk EA fuel [] (EM ++ EB) E HA ltac:(lia)) as Hw. cbn [length app] in Hw. rewrite Nat.mul_0_r, <- E in Hw.
  rewrite Hw. clear Hw. destruct (fuel - length EA)%nat as [|k] eqn:Ek; [lia|]. cbn [zzl_first].
  destruct EM as [|y EM].
  - cbn [app length seq fmap list_fmap head] in *. destruct EB as [|y EB]; [done|]. cbn [first_at].
    rewrite (Hg EA y EB), (Ht EA y EB) by done. cbn [mbind res_bind]. rewrite HR, HB by (by left). done.
  - cbn [app length seq fmap list_fmap head first_at] in *.
    rewrite (Hg EA y (EM ++ EB)), (Ht EA y (EM ++ EB)) by done. cbn [mbind res_bind].
    by destruct (HM y ltac:(by left)) as [-> ->].
Qed.

Lemma prev_pair k : (S k < length es)%nat ->
  ziplistPrev (flat es) (2 * S k) = Some (S (2 * k)) /\ ziplistPrev (flat es) (S (2 * k)) = Some (2 * k)%nat.
Proof.
  intros Hk. unfold ziplistPrev. rewrite flat_length. rewrite !decide_False by lia.
  replace (2 * S k)%nat with (S (S (2 * k))) by lia. done.
Qed.

Lemma zzl_last_walk E1 fuel ER E0 :
  es = ER ++ E1 ++ E0 -> (forall y, y ∈ E1 -> lte y = false) -> (length E1 <= fuel)%nat -> (0 < fuel - length E1)%nat ->
  zzl_last fuel g t (flat es) (last_at (length (ER ++ E1))) =
  zzl_last (fuel - length E1) g t (flat es) (last_at (length ER)).
Proof.
  revert fuel E0. induction E1 as [|y E1 IH] using rev_ind; intros fuel E0 E Hno Hf Hf'; cbn [length app].
  { by rewrite Nat.sub_0_r, app_nil_r. }
  destruct fuel as [|fuel]; [lia|]. rewrite length_app in Hf, Hf'. cbn [length] in Hf, Hf'.
  rewrite (length_app E1 [y]). rewrite app_assoc, length_app, Nat.add_1_r. cbn [last_at zzl_last length].
  assert (E' : es = (ER ++ E1) ++ y :: E0) by (rewrite E; by rewrite <- !app_assoc).
  rewrite (Ht _ _ _ E'). cbn [mbind res_bind]. rewrite (Hno y) by (apply elem_of_app; right; by left).
  replace (S fuel - (length E1 + 1))%nat with (fuel - length E1)%nat by lia.
  rewrite <- (IH fuel ([y] ++ E0)); [|by rewrite E, <- app_assoc|intros w Hw; apply Hno, elem_of_app; by left|lia|lia].
  destruct (length (ER ++ E1)) as [|k] eqn:Ek.
  - cbn [last_at]. unfold ziplistPrev. rewrite decide_False; [by destruct fuel; [lia|]|].
    rewrite flat_length, E', length_app. simpl. lia.
  - destruct (prev_pair k) as [-> Hp]; [rewrite E', length_app, Ek; simpl; lia|]. rewrite Hp. done.
Qed.

Lemma index_last : ziplistIndex (flat es) (-2) = last_at (length es).
Proof.
  unfold ziplistIndex. cbn [Z.ltb Z.compare]. rewrite flat_length. destruct (length es) as [|k]; [done|].
  cbn [last_at]. destruct (Z.leb_spec 0 (Z.of_nat (2 * S k) + -2)); [|lia].
  destruct (Z.ltb_spec (Z.of_nat (2 * S k) + -2) (Z.of_nat (2 * S k))); [|lia]. cbn [andb]. f_equal. lia.
Qed.

Lemma zzl_last_spec fuel :
  (length es < fuel)%nat ->
  zzl_last fuel g t (flat es) (ziplistIndex (flat es) (-2)) = Ok (last (places_in gte lte (evens es) es)).
Proof.
  intros Hf. destruct (segment_high _ _ _ Hrise Hfall) as (EA & EM & EB & Hsg & HL).
  rewrite (evens_places _ _ _ _ _ _ Hsg). destruct Hsg as [E HA HM HB]. rewrite index_last.
  assert (E' : es = (EA ++ EM) ++ EB ++ []) by (rewrite E, app_nil_r; by rewrite <- app_assoc).
  assert (Hl : (length EB < fuel)%nat) by (rewrite E, !length_app in Hf; lia).
  pose proof (zzl_last_walk EB fuel (EA ++ EM) [] E' HB ltac:(lia) ltac:(lia)) as Hw.
  rewrite <- (app_nil_r ((EA ++ EM) ++ EB)), <- app_assoc, <- E' in Hw. rewrite Hw. clear Hw.
  destruct (fuel - length EB)%nat as [|k] eqn:Ek; [lia|]. cbn [zzl_last].
  destruct EM as [|y EM _] using rev_ind.
  - rewrite app_nil_r in *. cbn [length seq fmap list_fmap last]. destruct EA as [|y EA _] using rev_ind; [done|].
    rewrite length_app, Nat.add_1_r. cbn [last_at].
    assert (E2 : es = EA ++ y :: EB) by (rewrite E; by rewrite <- !app_assoc).
    rewrite (Ht _ _ _ E2), (Hg _ _ _ E2). cbn [mbind res_bind].
    rewrite HL, HA by (apply elem_of_app; right; by left). done.
  - rewrite (length_app EM [y]), seq_app, fmap_app. cbn [length seq fmap list_fmap]. rewrite last_snoc.
    rewrite (app_assoc EA EM [y]), (length_app (EA ++ EM) [y]), Nat.add_1_r.
    cbn [last_at]. assert (E2 : es = (EA ++ EM) ++ y :: EB) by (rewrite E; by rewrite <- !app_assoc).
    rewrite (Ht _ _ _ E2), (Hg _ _ _ E2). cbn [mbind res_bind].
    destruct (HM y) as [-> ->]; [apply elem_of_app; right; by left|]. by rewrite length_app.
Qed.
End ZiplistRange.

(** The tests read at an entry of the ziplist. *)
Lemma at_score_flat EA y EB test :
  prints_back y.1 -> at_score (flat (EA ++ y :: EB)) test (2 * length EA) = Ok (test y.1).
Proof.
  intros Hb. unfold at_score. rewrite next_score. cbn [assert_ptr of_option mbind res_bind].
  rewrite get_score by done. done.
Qed.

Lemma get_object_flat EA y EB : ziplistGetObject (flat (EA ++ y :: EB)) (Some (2 * length EA)%nat) = Ok y.2.
Proof.
  unfold ziplistGetObject. cbn [assert_ptr of_option mbind res_bind ziplistGet option_bind]. rewrite flat_ele.
  cbn [of_option mbind res_bind]. apply zl_entry_bytes.
Qed.

Lemma lex_gte_flat EA y EB r : zzlLexValueGteMin (flat (EA ++ y :: EB)) (2 * length EA) r = Ok (lex_gte r y).
Proof. unfold zzlLexValueGteMin. by rewrite get_object_flat. Qed.
Lemma lex_lte_flat EA y EB r : zzlLexValueLteMax (flat (EA ++ y :: EB)) (2 * length EA) r = Ok (lex_lte r y).
Proof. unfold zzlLexValueLteMax. by rewrite get_object_flat. Qed.

Lemma all_back_elem es y : all_back es -> y ∈ es -> prints_back y.1.
Proof. unfold all_back. rewrite Forall_forall. auto. Qed.

Lemma index_in (zl : ziplist) i : (i < length zl)%nat -> ziplistIndex zl (Z.of_nat i) = Some i.
Proof.
  intros Hi. unfold ziplistIndex. destruct (Z.ltb_spec (Z.of_nat i) 0); [lia|].
  destruct (Z.leb_spec 0 (Z.of_nat i)); [|lia]. destruct (Z.ltb_spec (Z.of_nat i) (Z.of_nat (length zl))); [|lia].
  cbn [andb]. by rewrite Nat2Z.id.
Qed.

Lemma index_from_back (zl : ziplist) i k : length zl = (i + S k)%nat -> ziplistIndex zl (- Z.of_nat (S k)) = Some i.
Proof.
  intros Hl. unfold ziplistIndex. destruct (Z.ltb_spec (- Z.of_nat (S k)) 0); [|lia].
  replace (Z.of_nat (length zl) + - Z.of_nat (S k)) with (Z.of_nat i) by lia.
  destruct (Z.leb_spec 0 (Z.of_nat i)); [|lia]. destruct (Z.ltb_spec (Z.of_nat i) (Z.of_nat (length zl))); [|lia].
  cbn [andb]. by rewrite Nat2Z.id.
Qed.

Lemma zzlIsInRange_flat es r :
  all_back es ->
  zzlIsInRange (flat es) r =
  (if never_in_range r then Ok false else Ok (ends_meet (score_gte r) (score_lte r) es)).
Proof.
  intros Hb. unfold zzlIsInRange. destruct (never_in_range r); [done|]. unfold ends_meet.
  destruct es as [|y EA _] using rev_ind; [done|]. rewrite last_snoc.
  assert (Hlen : length (flat (EA ++ [y])) = (S (2 * length EA) + 1)%nat) by (rewrite flat_length, length_app; simpl; lia).
  change (-1) with (- Z.of_nat 1). rewrite (index_from_back _ _ 0 Hlen), (get_score EA y []) by (eapply all_back_elem; [done|apply elem_of_mid]).
  cbn [mbind res_bind]. unfold score_gte. destruct (EA ++ [y]) as [|x es] eqn:E; [by destruct EA|].
  destruct (zslValueGteMin y.1 r); [|done]. cbn [head andb].
  change 1 with (Z.of_nat 1). rewrite (index_in _ 1) by (rewrite flat_length; simpl; lia).
  pose proof (get_score [] x es (all_back_elem _ x Hb ltac:(by left))) as Hx.
  change (S (2 * length (@nil zentry)))%nat with 1%nat in Hx. cbn [app] in Hx. by rewrite Hx.
Qed.

Lemma zzlIsInLexRange_flat es r :
  zzlIsInLexRange (flat es) r =
  (if never_in_lex_range r then Ok false else Ok (ends_meet (lex_gte r) (lex_lte r) es)).
Proof.
  unfold zzlIsInLexRange. destruct (never_in_lex_range r); [done|]. unfold ends_meet.
  destruct es as [|y EA _] using rev_ind; [done|]. rewrite last_snoc.
  assert (Hlen : length (flat (EA ++ [y])) = (2 * length EA + 2)%nat) by (rewrite flat_length, length_app; simpl; lia).
  change (-2) with (- Z.of_nat 2). rewrite (index_from_back _ _ 1 Hlen), (lex_gte_flat EA y []). cbn [mbind res_bind].
  destruct (EA ++ [y]) as [|x es] eqn:E; [by destruct EA|]. destruct (lex_gte r y); [|done]. cbn [head andb].
  change 0 with (Z.of_nat 0). rewrite (index_in _ 0) by (rewrite flat_length; simpl; lia). apply (lex_lte_flat [] x es).
Qed.

(** Deleting entries one after another. *)
Lemma zzl_delete_spec (lte : zentry -> bool) (t : ziplist -> nat -> res bool) EA EB :
  (forall EA y EB, prints_back y.1 -> t (flat (EA ++ y :: EB)) (2 * length EA)%nat = Ok (lte y)) ->
  forall EM fuel num, all_back (EM ++ EB) -> (forall y, y ∈ EM -> lte y = true) ->
    (forall y, head EB = Some y -> lte y = false) -> (length EM < fuel)%nat ->
    zzl_delete fuel t (flat (EA ++ EM ++ EB)) (2 * length EA) num = Ok (flat (EA ++ EB), num + Z.of_nat (length EM)).
Proof.
  intros Ht EM. induction EM as [|y EM IH]; intros fuel num Hb Hin Hout Hf; (destruct fuel as [|fuel]; [simpl in Hf; lia|]);
    cbn [zzl_delete app].
  - rewrite Z.add_0_r. destruct EB as [|y EB].
    + unfold ziplistNext. rewrite flat_length, app_nil_r, decide_False; [done|lia].
    + rewrite next_score, Ht by (eapply all_back_elem; [done|by left]). cbn [mbind res_bind]. by rewrite (Hout y eq_refl).
  - rewrite next_score, Ht by (eapply all_back_elem; [done|by left]). cbn [mbind res_bind]. rewrite (Hin y) by (by left).
    change (ziplistDelete (ziplistDelete ?l ?i) ?i) with (zzlDelete l i). rewrite delete_at.
    rewrite IH; [f_equal; f_equal; cbn [length]; lia| | |done|simpl in Hf; lia].
    + apply Forall_cons in Hb. apply Hb.
    + intros w Hw. apply Hin. by right.
Qed.

(** ** Ranges by score, in both encodings *)

Lemma zslFirstInRange_view z l es r :
  zsl_view z l es -> range_num r -> zslFirstInRange z r = Ok (head (places_in (score_gte r) (score_lte r) l es)).
Proof.
  intros Hv Hr. pose proof (v_ordered _ _ _ Hv) as Ho. apply first_spec; try done.
  - intros n y _ Hs _. unfold on_score, score_gte. by rewrite Hs.
  - intros n y _ Hs _. unfold on_score, score_lte. by rewrite Hs.
  - by apply score_rises.
  - by apply score_falls.
  - intros Hn y. by apply never_score.
Qed.

Lemma zslLastInRange_view z l es r :
  zsl_view z l es -> range_num r -> zslLastInRange z r = Ok (last (places_in (score_gte r) (score_lte r) l es)).
Proof.
  intros Hv Hr. pose proof (v_ordered _ _ _ Hv) as Ho. apply last_spec; try done.
  - intros n y _ Hs _. unfold on_score, score_gte. by rewrite Hs.
  - intros n y _ Hs _. unfold on_score, score_lte. by rewrite Hs.
  - by apply score_rises.
  - by apply score_falls.
  - intros Hn y. by apply never_score.
Qed.

Lemma zslDeleteRangeByScore_view d z es r :
  sk_view d z es -> range_num r ->
  exists d' z', zslDeleteRangeByScore z r d = Ok (Z.of_nat (length (inside (score_gte r) (score_lte r) es)), d', z') /\
    sk_view d' z' (outside (score_gte r) (score_lte r) es).
Proof.
  intros Hv Hr. pose proof (sk_ordered _ _ _ Hv) as Ho.
  apply delete_tests_spec; [done|by apply score_rises|by apply score_falls|..].
  - intros r0 k n y Hy Hs _. unfold while_test, on_score. rewrite Hs. f_equal. by eapply below_min.
  - intros r0 k n y Hy Hs _. unfold on_score. by rewrite Hs.
Qed.

Section ScoreFlat.
Context (es : list zentry) (r : zrangespec).
Hypothesis Ho : zordered es.
Hypothesis Hb : all_back es.
Hypothesis Hr : range_num r.

Lemma at_score_es test EA y EB :
  es = EA ++ y :: EB -> at_score (flat es) test (2 * length EA) = Ok (test y.1).
Proof. intros E. rewrite E at 1. apply at_score_flat. eapply all_back_elem; [done|]. rewrite E. apply elem_of_mid. Qed.

Lemma zzlFirstInRange_flat :
  zzlFirstInRange (flat es) r = Ok (head (places_in (score_gte r) (score_lte r) (evens es) es)).
Proof.
  unfold zzlFirstInRange. rewrite zzlIsInRange_flat by done.
  apply range_search; [by apply score_rises|by apply score_falls|intros Hn y; by apply never_score|done|done|].
  intros _ _ _ _ _ _. apply zzl_first_spec; [apply at_score_es..|by apply score_rises|by apply score_falls|].
  rewrite flat_length. lia.
Qed.

Lemma zzlLastInRange_flat :
  zzlLastInRange (flat es) r = Ok (last (places_in (score_gte r) (score_lte r) (evens es) es)).
Proof.
  unfold zzlLastInRange. rewrite zzlIsInRange_flat by done.
  apply range_search; [by apply score_rises|by apply score_falls|intros Hn y; by apply never_score|done|done|].
  intros _ _ _ _ _ _. apply zzl_last_spec; [apply at_score_es..|by apply score_rises|by apply score_falls|].
  rewrite flat_length. lia.
Qed.
End ScoreFlat.

(** The deletions start at the first entry of the range. *)
Lemma zzl_delete_from gte lte t es :
  rises gte es -> falls lte es -> all_back es ->
  (forall EA y EB, prints_back y.1 -> t (flat (EA ++ y :: EB)) (2 * length EA)%nat = Ok (lte y)) ->
  (match head (places_in gte lte (evens es) es) with
   | None => Ok (flat es, 0)
   | Some e => zzl_delete (S (length (flat es))) t (flat es) e 0
   end) = Ok (flat (outside gte lte es), Z.of_nat (length (inside gte lte es))).
Proof.
  intros Hg Hl Hb Ht. destruct (segment_low _ _ _ Hg Hl) as (EA & EM & EB & Hsg & _).
  rewrite (evens_places _ _ _ _ _ _ Hsg), (seg_inside _ _ _ _ _ _ Hsg), (seg_outside _ _ _ _ _ _ Hsg).
  destruct Hsg as [-> _ HM HB]. destruct EM as [|y EM]; [done|]. cbn [length seq fmap list_fmap head].
  apply (zzl_delete_spec lte t EA EB Ht (y :: EM)).
  - unfold all_back in *. by apply Forall_app in Hb as [_ Hb].
  - intros w Hw. by destruct (HM w Hw).
  - intros w Hw. apply HB. by apply head_elem.
  - rewrite flat_length, !length_app. simpl. lia.
Qed.

Lemma zzlDeleteRangeByScore_flat es r :
  zordered es -> all_back es -> range_num r ->
  zzlDeleteRangeByScore (flat es) r =
  Ok (flat (outside (score_gte r) (score_lte r) es), Z.of_nat (length (inside (score_gte r) (score_lte r) es))).
Proof.
  intros Ho Hb Hr. unfold zzlDeleteRangeByScore. rewrite zzlFirstInRange_flat by done. cbn [mbind res_bind].
  apply zzl_delete_from; [by apply score_rises|by apply score_falls|done|]. intros EA y EB. apply at_score_flat.
Qed.

(** ** Ranges by element, in both encodings *)

Section LexSkiplist.
Context (z : zskiplist) (es : list zentry) (r : zlexrangespec).
Hypothesis H1 : one_score es.

Lemma on_ele_entry test n (y : zentry) : ele n = Some y.2 -> on_ele test n = Ok (test y.2).
Proof. intros He. unfold on_ele, ele_of. by rewrite He. Qed.

Lemma zslFirstInLexRange_view l :
  zsl_view z l es -> zslFirstInLexRange z r = Ok (head (places_in (lex_gte r) (lex_lte r) l es)).
Proof.
  intros Hv. pose proof (v_ordered _ _ _ Hv) as Ho. apply first_spec; try done.
  - intros n y _ _ He. exact (on_ele_entry _ n y He).
  - intros n y _ _ He. exact (on_ele_entry _ n y He).
  - by apply lex_rises.
  - by apply lex_falls.
  - intros Hn y _. by apply never_lex.
Qed.

Lemma zslLastInLexRange_view l :
  zsl_view z l es -> zslLastInLexRange z r = Ok (last (places_in (lex_gte r) (lex_lte r) l es)).
Proof.
  intros Hv. pose proof (v_ordered _ _ _ Hv) as Ho. apply last_spec; try done.
  - intros n y _ _ He. exact (on_ele_entry _ n y He).
  - intros n y _ _ He. exact (on_ele_entry _ n y He).
  - by apply lex_rises.
  - by apply lex_falls.
  - intros Hn y _. by apply never_lex.
Qed.

Lemma zslDeleteRangeByLex_view d :
  sk_view d z es ->
  exists d' z', zslDeleteRangeByLex z r d = Ok (Z.of_nat (length (inside (lex_gte r) (lex_lte r) es)), d', z') /\
    sk_view d' z' (outside (lex_gte r) (lex_lte r) es).
Proof.
  intros Hv. pose proof (sk_ordered _ _ _ Hv) as Ho.
  apply delete_tests_spec; [done|by apply lex_rises|by apply lex_falls|..].
  - intros r0 k n y _ _ He. unfold while_not. by rewrite (on_ele_entry _ _ _ He).
  - intros r0 k n y _ _ He. exact (on_ele_entry _ n y He).
Qed.
End LexSkiplist.

Section LexFlat.
Context (es : list zentry) (r : zlexrangespec).
Hypothesis Ho : zordered es.
Hypothesis H1 : one_score es.

Lemma zzlFirstInLexRange_flat :
  zzlFirstInLexRange (flat es) r = Ok (head (places_in (lex_gte r) (lex_lte r) (evens es) es)).
Proof.
  unfold zzlFirstInLexRange. rewrite zzlIsInLexRange_flat.
  apply range_search; [by apply lex_rises|by apply lex_falls|intros Hn y _; by apply never_lex|done|done|].
  intros _ _ _ _ _ _. apply zzl_first_spec; [intros EA y EB -> ..|by apply lex_rises|by apply lex_falls|].
  - apply lex_gte_flat.
  - apply lex_lte_flat.
  - rewrite flat_length. lia.
Qed.

Lemma zzlLastInLexRange_flat :
  zzlLastInLexRange (flat es) r = Ok (last (places_in (lex_gte r) (lex_lte r) (evens es) es)).
Proof.
  unfold zzlLastInLexRange. rewrite zzlIsInLexRange_flat.
  apply range_search; [by apply lex_rises|by apply lex_falls|intros Hn y _; by apply never_lex|done|done|].
  intros _ _ _ _ _ _. apply zzl_last_spec; [intros EA y EB -> ..|by apply lex_rises|by apply lex_falls|].
  - apply lex_gte_flat.
  - apply lex_lte_flat.
  - rewrite flat_length. lia.
Qed.

Lemma zzlDeleteRangeByLex_flat :
  all_back es ->
  zzlDeleteRangeByLex (flat es) r =
  Ok (flat (outside (lex_gte r) (lex_lte r) es), Z.of_nat (length (inside (lex_gte r) (lex_lte r) es))).
Proof.
  intros Hb. unfold zzlDeleteRangeByLex. rewrite zzlFirstInLexRange_flat. cbn [mbind res_bind].
  apply zzl_delete_from; [by apply lex_rises|by apply lex_falls|done|]. intros EA y EB _. apply lex_lte_flat.
Qed.
End LexFlat.

(** ** Ranges by rank in the ziplist *)

Lemma flat_take es k : take (2 * k) (flat es) = flat (take k es).
Proof.
  revert k. induction es as [|y es IH]; intros [|k]; try done. cbn [take flat].
  replace (2 * S k)%nat with (S (S (2 * k))) by lia. cbn [take]. by rewrite IH.
Qed.

Lemma flat_drop es k : drop (2 * k) (flat es) = flat (drop k es).
Proof.
  revert k. induction es as [|y es IH]; intros [|k]; try done. cbn [flat].
  replace (2 * S k)%nat with (S (S (2 * k))) by lia. cbn [drop]. by rewrite IH.
Qed.

Lemma zzlDeleteRangeByRank_flat es start end_ :
  1 <= start <= end_ -> end_ <= Z.of_nat (length es) -> 2 * Z.of_nat (length es) < 2 ^ 31 ->
  zzlDeleteRangeByRank (flat es) start end_ =
  (flat (ranks_out start end_ es), Z.of_nat (length (ranks_in start end_ es))).
Proof.
  intros Hst Hend Hlen. unfold zzlDeleteRangeByRank, ranks_in, ranks_out.
  assert (Hk : Z.of_nat (rank_from start) = start - 1) by (unfold rank_from; lia).
  rewrite (u32_id (end_ - start)), (u32_id (start - 1)), (u32_id (end_ - start + 1)) by lia.
  rewrite (u32_id (2 * (start - 1))), (u32_id (2 * (end_ - start + 1))) by lia.
  rewrite i32_id by (unfold int_range, INT_MIN, INT_MAX; lia). f_equal.
  - unfold ziplistDeleteEntries.
    replace (2 * (start - 1)) with (Z.of_nat (2 * rank_from start)) by lia. rewrite index_in by (rewrite flat_length; lia).
    rewrite flat_take, flat_app. f_equal. rewrite drop_drop, <- flat_drop. f_equal. lia.
  - rewrite length_take, length_drop. lia.
Qed.

(** ** Freeing a skip list *)

Lemma free_nodes_spec z0 l : forall fuel pre z,
  zsl_rep z0 (pre ++ l) -> (length l < fuel)%nat ->
  (forall a, a ∈ l -> nodes z !! a = nodes z0 !! a) ->
  exists z', free_nodes fuel z (head l) = Ok z' /\
    forall a, nodes z' !! a = if decide (a ∈ l) then None else nodes z !! a.
Proof.
  induction l as [|x l IH]; intros fuel pre z Hrep Hf Heq; (destruct fuel as [|fuel]; [simpl in Hf; lia|]); cbn [free_nodes head].
  { exists z. split; [done|]. intros a. by rewrite decide_False by (by intros ?%elem_of_nil). }
  assert (Hin : forall a, a ∈ x :: l -> a ∈ pre ++ x :: l) by (intros a Ha; apply elem_of_app; by right).
  pose proof (r_nodup _ _ Hrep) as Hnd. apply NoDup_cons in Hnd as [_ Hnd].
  apply NoDup_app in Hnd as (_ & _ & Hnd). apply NoDup_cons in Hnd as [Hxl _].
  destruct (node_Ok z0 x) as (n & En & Hn). { apply (r_alloc _ _ Hrep). right. apply Hin. by left. }
  assert (Hl : exists sp, get_level z x 0 = Ok (head l, sp)).
  { exists (fwd (hgt z0) 0 l).2. pose proof (r_hgt _ _ Hrep x (Hin x ltac:(by left))) as Hx.
    pose proof (r_fwd _ _ Hrep (header z0 :: pre) x l 0 eq_refl ltac:(lia) ltac:(lia)) as Hlv.
    apply get_level_lvl in Hlv. unfold get_level, node in *. rewrite Heq, Hlv by (by left). f_equal.
    rewrite <- (fwd_0 (hgt z0) l); [by destruct (fwd _ _ _)|]. intros a Ha. apply (r_hgt _ _ Hrep), Hin. by right. }
  destruct Hl as [sp ->]. cbn [mbind res_bind]. unfold zslFreeNode, node. rewrite Heq, Hn by (by left). cbn [of_option mbind res_bind].
  destruct (IH fuel (pre ++ [x]) (set_nodes z (delete x (nodes z)))) as (z' & E & Hz').
  - by rewrite <- app_assoc.
  - simpl in Hf. lia.
  - intros a Ha. cbn [nodes set_nodes]. rewrite lookup_delete_ne by (by intros <-). apply Heq. by right.
  - exists z'. split; [done|]. intros a. rewrite Hz'. cbn [nodes set_nodes]. destruct (decide (a = x)) as [->|Ha].
    + rewrite (decide_True (P := x ∈ x :: l)) by (by left). rewrite lookup_delete_eq. by case_decide.
    + rewrite lookup_delete_ne by done. apply decide_ext. rewrite elem_of_cons. tauto.
Qed.

Lemma zslFree_rep z l :
  zsl_rep z l -> exists z', zslFree z = Ok z' /\
    forall a, nodes z' !! a = if decide (a ∈ header z :: l) then None else nodes z !! a.
Proof.
  intros Hrep. unfold zslFree. rewrite (first_node_view _ _ Hrep). cbn [mbind res_bind].
  destruct (r_alloc _ _ Hrep (header z) ltac:(by left)) as [n Hn]. unfold zslFreeNode, node. rewrite Hn. cbn [of_option mbind res_bind].
  pose proof (r_nodup _ _ Hrep) as Hnd. apply NoDup_cons in Hnd as [Hh _].
  destruct (free_nodes_spec z l (S (Z.to_nat (zlength z))) [] (set_nodes z (delete (header z) (nodes z)))) as (z' & E & Hz').
  - done.
  - rewrite (r_len _ _ Hrep). lia.
  - intros a Ha. cbn [nodes set_nodes]. by rewrite lookup_delete_ne by (by intros <-).
  - exists z'. split; [done|]. intros a. rewrite Hz'. cbn [nodes set_nodes]. destruct (decide (a = header z)) as [->|Ha].
    + rewrite (decide_True (P := header z ∈ header z :: l)) by (by left). rewrite lookup_delete_eq. by case_decide.
    + rewrite lookup_delete_ne by done. apply decide_ext. rewrite elem_of_cons. tauto.
Qed.
