(* ===== verification/Store.v ===== *)
(** * The server and client state the CRDT commands work on

    The database, the metadata of the containers on the heap, the client that
    issued the command, and the monad commands are written in. *)

From S2P Require Import Prelude Sds Double Skiplist Zset.
From Stdlib Require Import Ascii.

(** ** Objects *)

Inductive obj_type := OBJ_STRING | OBJ_LIST | OBJ_SET | OBJ_ZSET | OBJ_HASH | OBJ_MODULE | OBJ_STREAM.
#[export] Instance obj_type_eq_dec : EqDecision obj_type.
Proof. solve_decision. Defined.

(** A field of a hash: a pointer or an [int] the CRDT code stored there, or
    text a client stored with HSET. *)
Inductive hval :=
  | HPtr (a : nat)
  | HInt (z : Z)
  | HText (s : string).

(** Objects the CRDT commands work on, and others, of which only the type and
    whether their encoding is one of a hash or of a sorted set matter. *)
Inductive robj :=
  | OHash (h : gmap string hval)
  | OZset (z : zobj)
  | OForeign (t : obj_type) (hash_encoding zset_encoding : bool).

Definition type_of (o : robj) : obj_type :=
  match o with OHash _ => OBJ_HASH | OZset _ => OBJ_ZSET | OForeign t _ _ => t end.

(** The switch on the encoding in t_hash.c; a ziplist that is not a hash is
    read as one. *)
Definition as_hash (o : robj) : res (gmap string hval) :=
  match o with
  | OHash h => Ok h
  | OZset (ZZiplist _) => Crash TypeConfusion
  | OZset (ZSkiplist _ _) => Crash Panic
  | OForeign _ b _ => Crash (if b then TypeConfusion else Panic)
  end.

(** The switch on the encoding in t_zset.c. *)
Definition as_zset (o : robj) : res zobj :=
  match o with
  | OZset z => Ok z
  | OHash _ => Crash TypeConfusion
  | OForeign _ _ b => Crash (if b then TypeConfusion else Panic)
  end.

(** ** Heap cells

    A pointer in C carries no type; a cell is tagged with the struct it holds,
    and reading it as another one is a [TypeConfusion].  Components state what
    they keep on the heap through this class. *)
Class Cell (A E : Type) := {
  inj : A -> E;
  prj : E -> option A;
  prj_inj : forall a, prj (inj a) = Some a
}.

(** ** Replies *)

Inductive reply :=
  | ROk
  | RErr (msg : string)
  | RNil
  | REmptyArray
  | RArray (n : Z)
  | RBulk (s : string)
  | RBulkInt (z : Z)
  | RDouble (d : double)
  | RInt (z : Z)
  | RHandshake.

Definition syntaxerr : reply := RErr "ERR syntax error".
Definition wrongtypeerr : reply := RErr "WRONGTYPE Operation against a key holding the wrong kind of value".
Definition notreplerr : reply := RErr "Not replication mod".
Definition ele_exist : reply := RErr "Element already exists".
Definition ele_nexist : reply := RErr "Element does not exist".

Section Store.
Context {E : Type}.

Record server := mkServer {
  p2p_count : Z;
  p2p_id : Z;
  replicas : list nat;         (* the clients that are links to other replicas *)
  zset_cfg : zset_config;
  db : gmap string robj;
  heap : gmap nat E;
  next_addr : nat;
  dirty : Z;
  rng : list Z                 (* what random() and rand() return from here on *)
}.

(** [c->rargv]: its contents ([rargc] is their number) and the slots allocated. *)
Record client := mkClient {
  argv : list string;
  rargv : option (list string * Z);
  is_replica : bool;           (* CLIENT_REPLICA *)
  replica_message : bool;      (* CLIENT_REPLICA_MESSAGE *)
  out : list reply
}.

(** The local [__capacity__] of a command goes with the state. *)
Record world := mkWorld { srv : server; cli : client; capacity : Z }.

(** ** The command monad

    [None] is an executed [return]: the rest of the command is skipped. *)

Definition M (A : Type) : Type := world -> res (option A * world).

#[global] Instance M_ret : MRet M := fun A a w => Ok (Some a, w).
#[global] Instance M_bind : MBind M := fun A B f m w =>
  match m w with
  | Ok (Some a, w') => f a w'
  | Ok (None, w') => Ok (None, w')
  | Crash c => Crash c
  end.

Definition return_ {A} : M A := fun w => Ok (None, w).
Definition lift {A} (r : res A) : M A := fun w =>
  match r with Ok a => Ok (Some a, w) | Crash c => Crash c end.
Definition get_srv : M server := fun w => Ok (Some (srv w), w).
Definition get_cli : M client := fun w => Ok (Some (cli w), w).
Definition get_cap : M Z := fun w => Ok (Some (capacity w), w).
Definition put_srv (s : server) : M unit := fun w => Ok (Some tt, mkWorld s (cli w) (capacity w)).
Definition put_cli (c : client) : M unit := fun w => Ok (Some tt, mkWorld (srv w) c (capacity w)).
Definition put_cap (z : Z) : M unit := fun w => Ok (Some tt, mkWorld (srv w) (cli w) z).
Definition skip : M unit := mret tt.

Fixpoint for_each {A} (l : list A) (f : A -> M unit) : M unit :=
  match l with
  | [] => skip
  | a :: l => _ ← f a; for_each l f
  end.

(** ** Field updates *)

Definition set_db (s : server) (d : gmap string robj) : server :=
  mkServer (p2p_count s) (p2p_id s) (replicas s) (zset_cfg s) d (heap s) (next_addr s) (dirty s) (rng s).
Definition set_heap (s : server) (h : gmap nat E) : server :=
  mkServer (p2p_count s) (p2p_id s) (replicas s) (zset_cfg s) (db s) h (next_addr s) (dirty s) (rng s).
Definition set_rng (s : server) (r : list Z) : server :=
  mkServer (p2p_count s) (p2p_id s) (replicas s) (zset_cfg s) (db s) (heap s) (next_addr s) (dirty s) r.
Definition add_dirty (s : server) : server :=
  mkServer (p2p_count s) (p2p_id s) (replicas s) (zset_cfg s) (db s) (heap s) (next_addr s) (dirty s + 1) (rng s).
Definition alloc_cell (s : server) (e : E) : server :=
  mkServer (p2p_count s) (p2p_id s) (replicas s) (zset_cfg s) (db s) (<[next_addr s := e]> (heap s))
    (S (next_addr s)) (dirty s) (rng s).
Definition set_argv (c : client) (a : list string) : client :=
  mkClient a (rargv c) (is_replica c) (replica_message c) (out c).
Definition set_rargv (c : client) (r : option (list string * Z)) : client :=
  mkClient (argv c) r (is_replica c) (replica_message c) (out c).
Definition add_out (c : client) (r : reply) : client :=
  mkClient (argv c) (rargv c) (is_replica c) (replica_message c) (out c ++ [r]).

(** [server.dirty++] *)
Definition dirty_inc : M unit := s ← get_srv; put_srv (add_dirty s).

(** ** networking.c *)

(** [prepareClientToWrite]: a replica gets no replies but the messages meant
    for it. *)
Definition prepareClientToWrite (c : client) : bool := negb (is_replica c && negb (replica_message c)).

Definition addReply (r : reply) : M unit :=
  c ← get_cli; if prepareClientToWrite c then put_cli (add_out c r) else skip.

(** ** Arguments *)

(** [c->argc] and [c->argv[i]]. *)
Definition argc : M Z := c ← get_cli; mret (Z.of_nat (length (argv c))).
Definition argv_at (i : nat) : M string := c ← get_cli; lift (of_option OutOfBounds (argv c !! i)).

(** [c->rargc] and [c->rargv[i]]. *)
Definition rargs : M (list string) :=
  c ← get_cli; match rargv c with Some (l, _) => mret l | None => lift (Crash NullDeref) end.
Definition rargv_at (i : nat) : M string := l ← rargs; lift (of_option OutOfBounds (l !! i)).

(** ** db.c: no key has a time to live *)

Definition lookupKey (k : string) : M (option robj) := s ← get_srv; mret (db s !! k).
Definition lookupKeyRead (k : string) : M (option robj) := lookupKey k.
Definition lookupKeyWrite (k : string) : M (option robj) := lookupKey k.

Definition lookupKeyReadOrReply (k : string) (r : reply) : M (option robj) :=
  o ← lookupKeyRead k;
  match o with
  | None => _ ← addReply r; mret None
  | Some _ => mret o
  end.

Definition dbAdd (k : string) (o : robj) : M unit :=
  s ← get_srv;
  match db s !! k with
  | Some _ => lift (Crash AssertFail)
  | None => put_srv (set_db s (<[k := o]> (db s)))
  end.

(** A write through a pointer to the object of a key. *)
Definition put_obj (k : string) (o : robj) : M unit :=
  s ← get_srv; put_srv (set_db s (<[k := o]> (db s))).

(** ** object.c *)

(** [checkType]: true after an error reply. *)
Definition checkType (o : robj) (t : obj_type) : M bool :=
  if decide (type_of o = t) then mret false
  else _ ← addReply wrongtypeerr; mret true.

Definition getDoubleFromObjectOrReply (o : string) : M (option double) :=
  match getDoubleFromObject o with
  | Some d => mret (Some d)
  | None => _ ← addReply (RErr "value is not a valid float"); mret None
  end.

Definition getLongLongFromObjectOrReply (o msg : string) : M (option Z) :=
  match getLongLongFromObject o with
  | Some z => mret (Some z)
  | None => _ ← addReply (RErr msg); mret None
  end.

(** ** Heap *)

Definition alloc `{Cell A E} (a : A) : M nat :=
  s ← get_srv; _ ← put_srv (alloc_cell s (inj a)); mret (next_addr s).
Definition load `{Cell A E} (p : nat) : M A :=
  s ← get_srv;
  match heap s !! p with
  | None => lift (Crash UseAfterFree)
  | Some e => lift (of_option TypeConfusion (prj e))
  end.
Definition store `{Cell A E} (p : nat) (a : A) : M unit :=
  s ← get_srv; put_srv (set_heap s (<[p := inj a]> (heap s))).

(** ** t_hash.c *)

(** [hashTypeGetValueObject] on the hash at the key [ht]. *)
Definition hashTypeGetValueObject (ht field : string) : M (option hval) :=
  o ← lookupKey ht;
  match o with
  | None => lift (Crash UseAfterFree)
  | Some o => h ← lift (as_hash o); mret (h !! field)
  end.

Definition hashTypeSet (ht field : string) (v : hval) : M unit :=
  o ← lookupKey ht;
  match o with
  | None => lift (Crash UseAfterFree)
  | Some o => h ← lift (as_hash o); put_obj ht (OHash (<[field := v]> h))
  end.

(** The pointer a field holds. *)
Definition as_ptr (v : hval) : res nat := match v with HPtr a => Ok a | _ => Crash TypeConfusion end.

(** ** RWFramework.c *)

(** [getInnerHT]; the object is known by its key. *)
Definition getInnerHT (tname suffix : string) (create : bool) : M (option string) :=
  let htname := tname +:+ suffix in
  ht ← lookupKeyRead htname;
  match ht with
  | Some _ => mret (Some htname)
  | None => if create then _ ← dbAdd htname (OHash ∅); mret (Some htname) else mret None
  end.

(** [rehHTGet]: the address of the element, created by [new] if asked to. *)
Definition rehHTGet `{Cell A E} (tname suffix key : string) (create : bool) (new : server -> res A) : M (option nat) :=
  ht ← getInnerHT tname suffix create;
  match ht with
  | None => mret None
  | Some ht =>
      value ← hashTypeGetValueObject ht key;
      match value with
      | None =>
          if negb create then mret None
          else
            s ← get_srv;
            e ← lift (new s);
            p ← alloc e;
            _ ← hashTypeSet ht key (HPtr p);
            mret (Some p)
      | Some v => p ← lift (as_ptr v); mret (Some p)
      end
  end.

(** The element through a pointer the code dereferences without a test. *)
Definition not_null {A} (p : option A) : M A := lift (of_option NullDeref p).

(** ** t_ozset.c: the sorted set of a container *)

Definition getZsetOrCreate (zset_name element_name : string) : M string :=
  zobj ← lookupKeyWrite zset_name;
  match zobj with
  | Some _ => mret zset_name
  | None =>
      s ← get_srv;
      let skip_zl := (max_entries (zset_cfg s) =? 0)
                     || (max_value (zset_cfg s) <? Z.of_nat (String.length element_name)) in
      _ ← dbAdd zset_name (OZset (if skip_zl then createZsetObject else createZsetZiplistObject));
      mret zset_name
  end.

(** [zsetAdd] with ZADD_NONE and [zsetDel] on the object of a key. *)
Definition zset_add (zset : string) (score : double) (ele : string) : M unit :=
  o ← lookupKey zset;
  match o with
  | None => lift (Crash UseAfterFree)
  | Some o =>
      s ← get_srv;
      if isnan score then skip
      else
        z ← lift (as_zset o);
        r ← lift (zsetAdd (zset_cfg s) z score ele ZADD_NONE (rng s));
        _ ← put_srv (set_rng s (zr_rs r));
        put_obj zset (OZset (zr_obj r))
  end.

Definition zset_del (zset ele : string) : M unit :=
  o ← lookupKey zset;
  match o with
  | None => lift (Crash UseAfterFree)
  | Some o =>
      z ← lift (as_zset o);
      r ← lift (zsetDel z ele);
      put_obj zset (OZset r.2)
  end.

(** One call on the sorted set of a container, as the queues make them: the set
    is looked up or created, then [zsetAdd] or [zsetDel] is called on it. *)
Definition run_act (key ele : string) (a : zact) : M unit :=
  zset ← getZsetOrCreate key ele;
  match a with
  | ZAdd score => zset_add zset score ele
  | ZDel => zset_del zset ele
  end.
End Store.

Arguments server : clear implicits.
Arguments world : clear implicits.
Arguments M : clear implicits.
