(* ===== verification/ZCommand.v ===== *)
(** * The sorted set commands of t_zset.c

    ZADD, ZINCRBY, ZREM, ZREMRANGEBYRANK/SCORE/LEX, ZRANGE, ZRANGEBYSCORE,
    ZRANGEBYLEX and their reverses, ZCOUNT, ZLEXCOUNT, ZCARD, ZSCORE, ZRANK,
    ZPOPMIN and ZPOPMAX on the server state of Store.v.  Clients speak RESP2;
    key events and watched keys are not modelled. *)

From S2P Require Import Prelude Sds Double Util Score Skiplist Zset ZRange Store.
From Stdlib Require Import Ascii.

Section Commands.
Context {E : Type}.
Notation M := (M E).

(** ** Helpers *)

(** [strcasecmp(opt, name) == 0] *)
Definition is_option (opt name : string) : bool := strcaseeq (cstr opt) name.

Definition add_dirty_by (s : server E) (n : Z) : server E :=
  mkServer (p2p_count s) (p2p_id s) (replicas s) (zset_cfg s) (db s) (heap s) (next_addr s) (dirty s + n) (rng s).
Definition dirty_add (n : Z) : M unit := s ← get_srv; put_srv (add_dirty_by s n).

Definition dbDelete (k : string) : M unit := s ← get_srv; put_srv (set_db s (delete k (db s))).

Definition lookupKeyWriteOrReply (k : string) (r : reply) : M (option robj) :=
  o ← lookupKeyWrite k;
  match o with
  | None => _ ← addReply r; mret None
  | Some _ => mret o
  end.

Definition getLongFromObjectOrReply (o : string) : M (option Z) :=
  getLongLongFromObjectOrReply o "value is not an integer or out of range".

(** An argument that has to be an integer; the command returns otherwise. *)
Definition long_or_return (i : nat) : M Z :=
  a ← argv_at i;
  v ← getLongFromObjectOrReply a;
  match v with Some v => mret v | None => return_ end.

(** [(zobj = lookupKey...OrReply(c,key,reply)) == NULL || checkType(c,zobj,OBJ_ZSET)] and the
    [return] after it. *)
Definition zset_at (lookup : string -> reply -> M (option robj)) (key : string) (r : reply) : M zobj :=
  o ← lookup key r;
  match o with
  | None => return_
  | Some o =>
      bad ← checkType o OBJ_ZSET;
      if (bad : bool) then return_ else lift (as_zset o)
  end.

(** Replies one after another. *)
Definition reply_all (rs : list reply) : M unit := for_each rs addReply.

(** An array whose length is filled in after its items. *)
Definition reply_array (rs : list reply) : M unit :=
  reply_all (RArray (Z.of_nat (length rs)) :: rs).

(** ** ZADD and ZINCRBY *)

Definition ZADD_CH : Z := 65536.

(** The options before the scores: the flags and the index of the first score. *)
Fixpoint zadd_options (args : list string) (flags : Z) (scoreidx : nat) : Z * nat :=
  match args with
  | [] => (flags, scoreidx)
  | opt :: args =>
      if is_option opt "nx" then zadd_options args (Z.lor flags ZADD_NX) (S scoreidx)
      else if is_option opt "xx" then zadd_options args (Z.lor flags ZADD_XX) (S scoreidx)
      else if is_option opt "ch" then zadd_options args (Z.lor flags ZADD_CH) (S scoreidx)
      else if is_option opt "incr" then zadd_options args (Z.lor flags ZADD_INCR) (S scoreidx)
      else (flags, scoreidx)
  end.

(** All scores are parsed before the first addition; the pairs. *)
Fixpoint zadd_scores (args : list string) : M (list (double * string)) :=
  match args with
  | s :: e :: args =>
      d ← getDoubleFromObjectOrReply s;
      match d with
      | None => return_
      | Some d => l ← zadd_scores args; mret ((d, e) :: l)
      end
  | _ => mret []
  end.

(** Elements added, updated and processed, and the score after the last call,
    where [zsetAdd] wrote it. *)
Record zadd_counts := mkZc { zc_added : Z; zc_updated : Z; zc_processed : Z; zc_score : option double }.

Fixpoint zadd_loop (key : string) (flags : Z) (pairs : list (double * string)) (z : zobj) (c : zadd_counts)
    : M zadd_counts :=
  match pairs with
  | [] => mret c
  | (score, ele) :: pairs =>
      s ← get_srv;
      r ← lift (zsetAdd (zset_cfg s) z score ele flags (rng s));
      _ ← put_srv (set_rng s (zr_rs r));
      _ ← put_obj key (OZset (zr_obj r));
      if zr_ret r =? 0 then _ ← addReply (RErr "resulting score is not a number (NaN)"); return_
      else
        let count f n := if Z.land (zr_flags r) f =? 0 then n else n + 1 in
        zadd_loop key flags pairs (zr_obj r)
          (mkZc (count ZADD_ADDED (zc_added c)) (count ZADD_UPDATED (zc_updated c))
             (if Z.land (zr_flags r) ZADD_NOP =? 0 then zc_processed c + 1 else zc_processed c) (zr_new r))
  end.

Definition zadd_reply (flags : Z) (c : zadd_counts) : M unit :=
  if negb (Z.land flags ZADD_INCR =? 0) then
    if zc_processed c =? 0 then addReply RNil
    else d ← lift (of_option Uninitialised (zc_score c)); addReply (RDouble d)
  else
    addReply (RInt (if negb (Z.land flags ZADD_CH =? 0) then zc_added c + zc_updated c else zc_added c)).

(** The set of the key, created if there is none. *)
Definition zadd_lookup (key first : string) (flags : Z) : M zobj :=
  o ← lookupKeyWrite key;
  match o with
  | Some o =>
      if decide (type_of o = OBJ_ZSET) then lift (as_zset o) else _ ← addReply wrongtypeerr; return_
  | None =>
      if negb (Z.land flags ZADD_XX =? 0) then _ ← zadd_reply flags (mkZc 0 0 0 (Some dzero)); return_
      else
        s ← get_srv;
        let skip_zl := (max_entries (zset_cfg s) =? 0)
                       || (max_value (zset_cfg s) <? Z.of_nat (String.length first)) in
        let z := if skip_zl then createZsetObject else createZsetZiplistObject in
        _ ← dbAdd key (OZset z);
        mret z
  end.

Definition zaddGenericCommand (flags : Z) : M unit :=
  key ← argv_at 1;
  c ← get_cli;
  let '(flags, scoreidx) := zadd_options (drop 2 (argv c)) flags 2 in
  let args := drop scoreidx (argv c) in
  let elements := length args in
  if decide (elements `mod` 2 <> 0 \/ elements = 0)%nat then _ ← addReply syntaxerr; return_
  else if negb (Z.land flags ZADD_NX =? 0) && negb (Z.land flags ZADD_XX =? 0) then
    _ ← addReply (RErr "XX and NX options at the same time are not compatible"); return_
  else if negb (Z.land flags ZADD_INCR =? 0) && (1 <? Z.of_nat elements / 2) then
    _ ← addReply (RErr "INCR option supports a single increment-element pair"); return_
  else
    pairs ← zadd_scores args;
    first ← argv_at (scoreidx + 1);
    z ← zadd_lookup key first flags;
    counts ← zadd_loop key flags pairs z (mkZc 0 0 0 (Some dzero));
    _ ← dirty_add (zc_added counts + zc_updated counts);
    zadd_reply flags counts.

Definition zaddCommand : M unit := zaddGenericCommand ZADD_NONE.
Definition zincrbyCommand : M unit := zaddGenericCommand ZADD_INCR.

(** ** ZREM *)

(** The elements deleted; the key goes with its last element. *)
Fixpoint zrem_loop (key : string) (eles : list string) (z : zobj) (deleted : Z) : M Z :=
  match eles with
  | [] => mret deleted
  | e :: eles =>
      '(b, z) ← lift (zsetDel z e);
      _ ← put_obj key (OZset z);
      let deleted := if (b : bool) then deleted + 1 else deleted in
      if zsetLength z =? 0 then _ ← dbDelete key; mret deleted
      else zrem_loop key eles z deleted
  end.

Definition zremCommand : M unit :=
  key ← argv_at 1;
  z ← zset_at lookupKeyWriteOrReply key (RInt 0);
  c ← get_cli;
  deleted ← zrem_loop key (drop 2 (argv c)) z 0;
  _ ← (if deleted =? 0 then skip else dirty_add deleted);
  addReply (RInt deleted).

(** ** ZREMRANGEBYRANK, ZREMRANGEBYSCORE and ZREMRANGEBYLEX *)

(** The range type with the parsed range. *)
Inductive zrange_arg :=
  | ByRank (start end_ : Z)
  | ByScore (range : zrangespec)
  | ByLex (range : zlexrangespec).

Inductive zrange_type := ZRANGE_RANK | ZRANGE_SCORE | ZRANGE_LEX.

Definition score_arg (min max : nat) : M zrangespec :=
  a ← argv_at min;
  b ← argv_at max;
  match zslParseRange (ObjSds a) (ObjSds b) with
  | Some r => mret r
  | None => _ ← addReply (RErr "min or max is not a float"); return_
  end.

Definition lex_arg (min max : nat) : M zlexrangespec :=
  a ← argv_at min;
  b ← argv_at max;
  match zslParseLexRange (ObjSds a) (ObjSds b) with
  | Some r => mret r
  | None => _ ← addReply (RErr "min or max not valid string range item"); return_
  end.

Definition zremrange_parse (t : zrange_type) : M zrange_arg :=
  match t with
  | ZRANGE_RANK => start ← long_or_return 2; end_ ← long_or_return 3; mret (ByRank start end_)
  | ZRANGE_SCORE => r ← score_arg 2 3; mret (ByScore r)
  | ZRANGE_LEX => r ← lex_arg 2 3; mret (ByLex r)
  end.

(** Indices that count from the end, clipped to the set; [None] is an empty
    range. *)
Definition sanitize (llen start end_ : Z) : option (Z * Z) :=
  let start := if start <? 0 then llen + start else start in
  let end_ := if end_ <? 0 then llen + end_ else end_ in
  let start := if start <? 0 then 0 else start in
  if (end_ <? start) || (llen <=? start) then None
  else Some (start, if llen <=? end_ then llen - 1 else end_).

(** The deletion in either encoding: the set after it and how many entries
    are gone. *)
Definition zremrange_delete (z : zobj) (a : zrange_arg) : res (zobj * Z) :=
  match z with
  | ZZiplist zl =>
      '(zl, n) ← (match a with
                  | ByRank start end_ => Ok (zzlDeleteRangeByRank zl (u32 (start + 1)) (u32 (end_ + 1)))
                  | ByScore r => zzlDeleteRangeByScore zl r
                  | ByLex r => zzlDeleteRangeByLex zl r
                  end);
      Ok (ZZiplist zl, n)
  | ZSkiplist d zsl =>
      '(n, d, zsl) ← (match a with
                      | ByRank start end_ => zslDeleteRangeByRank zsl (u32 (start + 1)) (u32 (end_ + 1)) d
                      | ByScore r => zslDeleteRangeByScore zsl r d
                      | ByLex r => zslDeleteRangeByLex zsl r d
                      end);
      Ok (ZSkiplist d zsl, n)
  end.

(** [zzlLength(zobj->ptr) == 0] and [dictSize(zs->dict) == 0] *)
Definition zset_emptied (z : zobj) : bool :=
  match z with ZZiplist zl => zzlLength zl =? 0 | ZSkiplist d _ => bool_decide (size d = 0%nat) end.

Definition zremrangeGenericCommand (t : zrange_type) : M unit :=
  key ← argv_at 1;
  a ← zremrange_parse t;
  z ← zset_at lookupKeyWriteOrReply key (RInt 0);
  a ← (match a with
       | ByRank start end_ =>
           match sanitize (zsetLength z) start end_ with
           | Some (start, end_) => mret (ByRank start end_)
           | None => _ ← addReply (RInt 0); return_
           end
       | _ => mret a
       end);
  '(z, deleted) ← lift (zremrange_delete z a);
  _ ← (if zset_emptied z then dbDelete key else put_obj key (OZset z));
  _ ← dirty_add deleted;
  addReply (RInt deleted).

Definition zremrangebyrankCommand : M unit := zremrangeGenericCommand ZRANGE_RANK.
Definition zremrangebyscoreCommand : M unit := zremrangeGenericCommand ZRANGE_SCORE.
Definition zremrangebylexCommand : M unit := zremrangeGenericCommand ZRANGE_LEX.

(** ** Walking over a set *)

(** An entry's element, and its score if it is asked for. *)
Definition zl_item (zl : ziplist) (withscores : bool) (eptr : nat) (sptr : option nat) : res (list reply) :=
  v ← of_option AssertFail (ziplistGet zl (Some eptr));
  let r := match v with ZlInt z => RBulkInt z | ZlStr s => RBulk s end in
  if withscores then s ← zzlGetScore zl sptr; Ok [r; RDouble s] else Ok [r].

Definition sl_item (z : zskiplist) (withscores : bool) (a : nat) : res (list reply) :=
  n ← node z a;
  e ← ele_of n;
  Ok (if withscores then [RBulk e; RDouble (score n)] else [RBulk e]).

(** [zzlPrev] and [zzlNext]; the pointers are not null. *)
Definition zl_move (zl : ziplist) (reverse : bool) (eptr : nat) (sptr : option nat) : res (option nat * option nat) :=
  s ← assert_ptr sptr;
  if reverse then zzlPrev zl eptr else zzlNext zl s.

Definition sl_move (z : zskiplist) (reverse : bool) (a : nat) : res (option nat) :=
  if reverse then get_backward z a else '(f, _) ← get_level z a 0; Ok f.

(** ** ZRANGE and ZREVRANGE *)

Fixpoint zrange_zl (n : nat) (zl : ziplist) (reverse withscores : bool) (eptr sptr : option nat)
    : res (list reply) :=
  match n with
  | O => Ok []
  | S n =>
      e ← assert_ptr eptr;
      s ← assert_ptr sptr;
      i ← zl_item zl withscores e (Some s);
      '(eptr, sptr) ← zl_move zl reverse e (Some s);
      rest ← zrange_zl n zl reverse withscores eptr sptr;
      Ok (i ++ rest)
  end.

Fixpoint zrange_sl (n : nat) (z : zskiplist) (reverse withscores : bool) (ln : option nat) : res (list reply) :=
  match n with
  | O => Ok []
  | S n =>
      a ← assert_ptr ln;
      i ← sl_item z withscores a;
      ln ← sl_move z reverse a;
      rest ← zrange_sl n z reverse withscores ln;
      Ok (i ++ rest)
  end.

(** The items from the [start]th on. *)
Definition zrange_items (z : zobj) (reverse withscores : bool) (start rangelen llen : Z) : res (list reply) :=
  match z with
  | ZZiplist zl =>
      e ← assert_ptr (ziplistIndex zl (i32 (if reverse then -2 - 2 * start else 2 * start)));
      zrange_zl (Z.to_nat rangelen) zl reverse withscores (Some e) (ziplistNext zl e)
  | ZSkiplist _ zsl =>
      ln ← (if 0 <? start then zslGetElementByRank zsl (if reverse then llen - start else start + 1)
            else if reverse then Ok (tail zsl) else first_node zsl);
      zrange_sl (Z.to_nat rangelen) zsl reverse withscores ln
  end.

Definition zrangeGenericCommand (reverse : bool) : M unit :=
  key ← argv_at 1;
  start ← long_or_return 2;
  end_ ← long_or_return 3;
  c ← get_cli;
  withscores ← (match drop 4 (argv c) with
                | [] => mret false
                | [o] => if is_option o "withscores" then mret true else _ ← addReply syntaxerr; return_
                | _ => _ ← addReply syntaxerr; return_
                end);
  z ← zset_at lookupKeyReadOrReply key REmptyArray;
  let llen := zsetLength z in
  match sanitize llen start end_ with
  | None => _ ← addReply REmptyArray; return_
  | Some (start, end_) =>
      let rangelen := end_ - start + 1 in
      _ ← addReply (RArray (if (withscores : bool) then rangelen * 2 else rangelen));
      items ← lift (zrange_items z reverse withscores start rangelen llen);
      reply_all items
  end.

Definition zrangeCommand : M unit := zrangeGenericCommand false.
Definition zrevrangeCommand : M unit := zrangeGenericCommand true.

(** ** ZRANGEBYSCORE, ZRANGEBYLEX and their reverses *)

(** WITHSCORES and LIMIT in any order; ZRANGEBYLEX only takes LIMIT.  The
    defaults are an offset of 0 and no limit. *)
Fixpoint zrangeby_options (fuel : nat) (scores : bool) (args : list string) (withscores : bool) (offset limit : Z)
    : M (bool * Z * Z) :=
  match fuel, args with
  | _, [] => mret (withscores, offset, limit)
  | O, _ => lift (Crash Diverges)
  | S fuel, o :: args' =>
      if scores && is_option o "withscores" then zrangeby_options fuel scores args' true offset limit
      else
        match args' with
        | a :: b :: args'' =>
            if is_option o "limit" then
              v ← getLongFromObjectOrReply a;
              match v with
              | None => return_
              | Some offset =>
                  v ← getLongFromObjectOrReply b;
                  match v with
                  | None => return_
                  | Some limit => zrangeby_options fuel scores args'' withscores offset limit
                  end
              end
            else _ ← addReply syntaxerr; return_
        | _ => _ ← addReply syntaxerr; return_
        end
  end.

(** [while (eptr && offset--)]: a negative offset runs to the end. *)
Fixpoint zl_skip (fuel : nat) (zl : ziplist) (reverse : bool) (offset : Z) (eptr sptr : option nat)
    : res (option nat * option nat) :=
  match fuel with
  | O => Crash Diverges
  | S fuel =>
      match eptr with
      | None => Ok (eptr, sptr)
      | Some e =>
          if offset =? 0 then Ok (eptr, sptr)
          else '(eptr, sptr) ← zl_move zl reverse e sptr; zl_skip fuel zl reverse (offset - 1) eptr sptr
      end
  end.

Fixpoint sl_skip (fuel : nat) (z : zskiplist) (reverse : bool) (offset : Z) (ln : option nat) : res (option nat) :=
  match fuel with
  | O => Crash Diverges
  | S fuel =>
      match ln with
      | None => Ok ln
      | Some a =>
          if offset =? 0 then Ok ln
          else ln ← sl_move z reverse a; sl_skip fuel z reverse (offset - 1) ln
      end
  end.

(** [while (eptr && limit--)]: the items while they are in range. *)
Fixpoint zl_emit (fuel : nat) (zl : ziplist) (reverse withscores : bool) (inr : nat -> res bool) (limit : Z)
    (eptr sptr : option nat) : res (list reply) :=
  match fuel with
  | O => Crash Diverges
  | S fuel =>
      match eptr with
      | None => Ok []
      | Some e =>
          if limit =? 0 then Ok []
          else
            b ← inr e;
            if (b : bool) then
              i ← zl_item zl withscores e sptr;
              '(eptr, sptr) ← zl_move zl reverse e sptr;
              rest ← zl_emit fuel zl reverse withscores inr (limit - 1) eptr sptr;
              Ok (i ++ rest)
            else Ok []
      end
  end.

Fixpoint sl_emit (fuel : nat) (z : zskiplist) (reverse withscores : bool) (inr : zskiplistNode -> res bool)
    (limit : Z) (ln : option nat) : res (list reply) :=
  match fuel with
  | O => Crash Diverges
  | S fuel =>
      match ln with
      | None => Ok []
      | Some a =>
          if limit =? 0 then Ok []
          else
            n ← node z a;
            b ← inr n;
            if (b : bool) then
              i ← sl_item z withscores a;
              ln ← sl_move z reverse a;
              rest ← sl_emit fuel z reverse withscores inr (limit - 1) ln;
              Ok (i ++ rest)
            else Ok []
      end
  end.

(** From the first node found on; [None] when there is none. *)
Definition zl_rangeby (zl : ziplist) (reverse withscores : bool) (inr : nat -> res bool) (offset limit : Z)
    (first : option nat) : res (option (list reply)) :=
  match first with
  | None => Ok None
  | Some e =>
      let fuel := S (length zl) in
      '(eptr, sptr) ← zl_skip fuel zl reverse offset (Some e) (ziplistNext zl e);
      items ← zl_emit fuel zl reverse withscores inr limit eptr sptr;
      Ok (Some items)
  end.

Definition sl_rangeby (z : zskiplist) (reverse withscores : bool) (inr : zskiplistNode -> res bool) (offset limit : Z)
    (first : option nat) : res (option (list reply)) :=
  match first with
  | None => Ok None
  | Some a =>
      let fuel := S (Z.to_nat (zlength z)) in
      ln ← sl_skip fuel z reverse offset (Some a);
      items ← sl_emit fuel z reverse withscores inr limit ln;
      Ok (Some items)
  end.

Definition zrangebyscore_items (z : zobj) (range : zrangespec) (reverse withscores : bool) (offset limit : Z)
    : res (option (list reply)) :=
  let inr v := if reverse then zslValueGteMin v range else zslValueLteMax v range in
  match z with
  | ZZiplist zl =>
      first ← (if reverse then zzlLastInRange zl range else zzlFirstInRange zl range);
      zl_rangeby zl reverse withscores (at_score zl inr) offset limit first
  | ZSkiplist _ zsl =>
      first ← (if reverse then zslLastInRange zsl range else zslFirstInRange zsl range);
      sl_rangeby zsl reverse withscores (on_score inr) offset limit first
  end.

Definition zrangebylex_items (z : zobj) (range : zlexrangespec) (reverse : bool) (offset limit : Z)
    : res (option (list reply)) :=
  match z with
  | ZZiplist zl =>
      first ← (if reverse then zzlLastInLexRange zl range else zzlFirstInLexRange zl range);
      zl_rangeby zl reverse false
        (fun e => if reverse then zzlLexValueGteMin zl e range else zzlLexValueLteMax zl e range) offset limit first
  | ZSkiplist _ zsl =>
      first ← (if reverse then zslLastInLexRange zsl range else zslFirstInLexRange zsl range);
      sl_rangeby zsl reverse false
        (on_ele (fun v => if reverse then zslLexValueGteMin v range else zslLexValueLteMax v range)) offset limit first
  end.

Definition reply_items (items : option (list reply)) : M unit :=
  match items with None => addReply REmptyArray | Some l => reply_array l end.

Definition genericZrangebyscoreCommand (reverse : bool) : M unit :=
  key ← argv_at 1;
  range ← (if reverse then score_arg 3 2 else score_arg 2 3);
  c ← get_cli;
  '(withscores, offset, limit) ← zrangeby_options (length (argv c)) true (drop 4 (argv c)) false 0 (-1);
  z ← zset_at lookupKeyReadOrReply key REmptyArray;
  items ← lift (zrangebyscore_items z range reverse withscores offset limit);
  reply_items items.

Definition zrangebyscoreCommand : M unit := genericZrangebyscoreCommand false.
Definition zrevrangebyscoreCommand : M unit := genericZrangebyscoreCommand true.

Definition genericZrangebylexCommand (reverse : bool) : M unit :=
  key ← argv_at 1;
  range ← (if reverse then lex_arg 3 2 else lex_arg 2 3);
  c ← get_cli;
  '(_, offset, limit) ← zrangeby_options (length (argv c)) false (drop 4 (argv c)) false 0 (-1);
  z ← zset_at lookupKeyReadOrReply key REmptyArray;
  items ← lift (zrangebylex_items z range reverse offset limit);
  reply_items items.

Definition zrangebylexCommand : M unit := genericZrangebylexCommand false.
Definition zrevrangebylexCommand : M unit := genericZrangebylexCommand true.

(** ** ZCOUNT and ZLEXCOUNT *)

Fixpoint zl_count (fuel : nat) (zl : ziplist) (inr : nat -> res bool) (eptr sptr : option nat) (count : Z) : res Z :=
  match fuel with
  | O => Crash Diverges
  | S fuel =>
      match eptr with
      | None => Ok count
      | Some e =>
          b ← inr e;
          if (b : bool) then
            '(eptr, sptr) ← zl_move zl false e sptr; zl_count fuel zl inr eptr sptr (count + 1)
          else Ok count
      end
  end.

(** From the first entry in range, which is checked again. *)
Definition zl_count_from (zl : ziplist) (inr : nat -> res bool) (first : option nat) : res Z :=
  match first with
  | None => Ok 0
  | Some e =>
      b ← inr e;
      if (b : bool) then zl_count (S (length zl)) zl inr (Some e) (ziplistNext zl e) 0 else Crash AssertFail
  end.

Definition node_rank (z : zskiplist) (a : nat) : res Z :=
  n ← node z a; e ← ele_of n; zslGetRank z (score n) e.

(** The ranks of the first and of the last node; [unsigned long]s. *)
Definition sl_count (z : zskiplist) (first : option nat) (last : res (option nat)) : res Z :=
  match first with
  | None => Ok 0
  | Some a =>
      rank ← node_rank z a;
      let count := zlength z - (rank - 1) in
      l ← last;
      match l with
      | None => Ok count
      | Some b => rank ← node_rank z b; Ok (count - (zlength z - rank))
      end
  end.

Definition zcount_of (z : zobj) (range : zrangespec) : res Z :=
  match z with
  | ZZiplist zl =>
      first ← zzlFirstInRange zl range;
      zl_count_from zl (at_score zl (fun v => zslValueLteMax v range)) first
  | ZSkiplist _ zsl =>
      first ← zslFirstInRange zsl range;
      sl_count zsl first (zslLastInRange zsl range)
  end.

Definition zlexcount_of (z : zobj) (range : zlexrangespec) : res Z :=
  match z with
  | ZZiplist zl =>
      first ← zzlFirstInLexRange zl range;
      zl_count_from zl (fun e => zzlLexValueLteMax zl e range) first
  | ZSkiplist _ zsl =>
      first ← zslFirstInLexRange zsl range;
      sl_count zsl first (zslLastInLexRange zsl range)
  end.

Definition zcountCommand : M unit :=
  key ← argv_at 1;
  range ← score_arg 2 3;
  z ← zset_at lookupKeyReadOrReply key (RInt 0);
  n ← lift (zcount_of z range);
  addReply (RInt n).

Definition zlexcountCommand : M unit :=
  key ← argv_at 1;
  range ← lex_arg 2 3;
  z ← zset_at lookupKeyReadOrReply key (RInt 0);
  n ← lift (zlexcount_of z range);
  addReply (RInt n).

(** ** ZCARD, ZSCORE, ZRANK and ZREVRANK *)

Definition zcardCommand : M unit :=
  key ← argv_at 1;
  z ← zset_at lookupKeyReadOrReply key (RInt 0);
  addReply (RInt (zsetLength z)).

Definition zscoreCommand : M unit :=
  key ← argv_at 1;
  z ← zset_at lookupKeyReadOrReply key RNil;
  ele ← argv_at 2;
  r ← lift (zsetScore z ele);
  addReply (match r with None => RNil | Some score => RDouble score end).

Definition zrankGenericCommand (reverse : bool) : M unit :=
  key ← argv_at 1;
  ele ← argv_at 2;
  z ← zset_at lookupKeyReadOrReply key RNil;
  rank ← lift (zsetRank z ele reverse);
  addReply (if 0 <=? rank then RInt rank else RNil).

Definition zrankCommand : M unit := zrankGenericCommand false.
Definition zrevrankCommand : M unit := zrankGenericCommand true.

(** ** ZPOPMIN and ZPOPMAX *)

Inductive zset_where := ZSET_MIN | ZSET_MAX.

(** The first or the last element and its score. *)
Definition zpop_pick (z : zobj) (where_ : zset_where) : res (string * double) :=
  match z with
  | ZZiplist zl =>
      e ← assert_ptr (ziplistIndex zl (match where_ with ZSET_MAX => -2 | ZSET_MIN => 0 end));
      ele ← ziplistGetObject zl (Some e);
      s ← assert_ptr (ziplistNext zl e);
      score ← zzlGetScore zl (Some s);
      Ok (ele, score)
  | ZSkiplist _ zsl =>
      f ← first_node zsl;
      a ← assert_ptr (match where_ with ZSET_MAX => tail zsl | ZSET_MIN => f end);
      n ← node zsl a;
      ele ← ele_of n;
      Ok (ele, score n)
  end.

(** [do ... while (--count)]; a set is left after its last element. *)
Fixpoint zpop_loop (fuel : nat) (key : string) (where_ : zset_where) (z : zobj) (count : Z) (out : list reply)
    : M (list reply) :=
  match fuel with
  | O => lift (Crash Diverges)
  | S fuel =>
      '(ele, score) ← lift (zpop_pick z where_);
      '(b, z) ← lift (zsetDel z ele);
      if (b : bool) then
        _ ← put_obj key (OZset z);
        _ ← dirty_inc;
        let out := out ++ [RBulk ele; RDouble score] in
        if zsetLength z =? 0 then _ ← dbDelete key; mret out
        else if count =? 1 then mret out
        else zpop_loop fuel key where_ z (count - 1) out
      else lift (Crash AssertFail)
  end.

(** The first of the keys that exists. *)
Fixpoint zpop_key (keys : list string) : M (option (string * zobj)) :=
  match keys with
  | [] => mret None
  | key :: keys =>
      o ← lookupKeyWrite key;
      match o with
      | None => zpop_key keys
      | Some o =>
          bad ← checkType o OBJ_ZSET;
          if (bad : bool) then return_ else z ← lift (as_zset o); mret (Some (key, z))
      end
  end.

Definition genericZpopCommand (keyv : list string) (where_ : zset_where) (emitkey : bool) (countarg : option string)
    : M unit :=
  count ← (match countarg with
           | None => mret 1
           | Some a =>
               v ← getLongFromObjectOrReply a;
               match v with
               | None => return_
               | Some count => if count <=? 0 then _ ← addReply REmptyArray; return_ else mret count
               end
           end);
  found ← zpop_key keyv;
  match found with
  | None => _ ← addReply REmptyArray; return_
  | Some (key, z) =>
      items ← zpop_loop (S (Z.to_nat (zsetLength z))) key where_ z count [];
      reply_array ((if emitkey then [RBulk key] else []) ++ items)
  end.

Definition zpop_command (where_ : zset_where) : M unit :=
  c ← get_cli;
  if decide (3 < length (argv c))%nat then _ ← addReply syntaxerr; return_
  else key ← argv_at 1; genericZpopCommand [key] where_ false (argv c !! 2%nat).

Definition zpopminCommand : M unit := zpop_command ZSET_MIN.
Definition zpopmaxCommand : M unit := zpop_command ZSET_MAX.
End Commands.
