(* ===== verification/Crdt.v ===== *)
(** * The macros commands are built from: CRDT.h

    A command has a prepare phase, run where the client issued it, and an
    effect phase, run there and at every replica it is broadcast to.  The
    arguments to broadcast grow in [c->rargv]. *)

From S2P Require Import Prelude Sds Double Zset Store.
From Stdlib Require Import Ascii.

Section Crdt.
Context {E : Type}.
Notation M := (M E).

Definition ADDITIONAL_CAPACITY : Z := 4.

(** [INIT_RARGV]: the arguments are copied into [__capacity__] slots. *)
Definition INIT_RARGV : M unit :=
  c ← get_cli;
  cap ← get_cap;
  if Z.of_nat (length (argv c)) <=? cap then put_cli (set_rargv c (Some (argv c, cap)))
  else lift (Crash OutOfBounds).

Definition init_if_null : M unit :=
  c ← get_cli; match rargv c with None => INIT_RARGV | Some _ => skip end.

(** [_RARGV_ADD]; [__capacity__] and the argument counts are [int]s. *)
Definition RARGV_ADD_SDS (str : string) : M unit :=
  _ ← init_if_null;
  c ← get_cli;
  cap ← get_cap;
  l ← rargs;
  let rargc := Z.of_nat (length l) in
  _ ← (if rargc =? cap then
         let cap := i32 (2 * cap - Z.of_nat (length (argv c))) in
         _ ← put_cap cap; put_cli (set_rargv c (Some (l, cap)))
       else skip);
  c ← get_cli;
  match rargv c with
  | None => lift (Crash NullDeref)
  | Some (l, alloc) =>
      if rargc <? alloc then put_cli (set_rargv c (Some (l ++ [str], alloc)))
      else lift (Crash OutOfBounds)
  end.

(** ** Checks of the prepare phase *)

Definition CHECK_ARGC (max : Z) : M unit :=
  n ← argc;
  if (max <? n) || (n <? 2) then _ ← addReply syntaxerr; return_ else skip.

Definition CHECK_CONTAINER_TYPE (t : obj_type) : M unit :=
  k ← argv_at 1;
  o ← lookupKeyRead k;
  match o with
  | Some o => if decide (type_of o = t) then skip else _ ← addReply wrongtypeerr; return_
  | None => skip
  end.

Definition CHECK_ARG_TYPE_INT (i : nat) : M unit :=
  o ← argv_at i;
  v ← getLongLongFromObjectOrReply o "value is not an integer";
  match v with Some _ => skip | None => return_ end.

Definition CHECK_ARG_TYPE_DOUBLE (i : nat) : M unit :=
  o ← argv_at i;
  v ← getDoubleFromObjectOrReply o;
  match v with Some _ => skip | None => return_ end.

(** ** Commands *)

Definition REPLICATION_MODE (s : server E) : bool :=
  negb (Z.of_nat (length (replicas s)) =? 0) || negb (p2p_count s =? 0).

(** [CRDT_BEGIN CRDT_PREPARE prepare CRDT_EFFECT effect CRDT_END] *)
Definition crdt_command (prepare effect : M unit) : M unit :=
  s ← get_srv;
  if REPLICATION_MODE s then
    c ← get_cli;
    _ ← (if is_replica c then skip
         else
           _ ← put_cap (Z.of_nat (length (argv c)) + ADDITIONAL_CAPACITY);
           _ ← prepare;
           _ ← addReply ROk;
           init_if_null);
    _ ← effect;
    c ← get_cli;
    _ ← (if replica_message c then addReply ROk else skip);
    return_
  else
    _ ← addReply notreplerr; return_.

(** ** Reasoning about commands *)

(** [m] from [w] returns, and what it returns satisfies [Q]. *)
Definition wp {A} (m : M A) (w : world E) (Q : option A -> world E -> Prop) : Prop :=
  exists r w', m w = Ok (r, w') /\ Q r w'.

Lemma wp_bind {A B} (m : M A) (f : A -> M B) w Q :
  wp m w (fun r w' => match r with Some a => wp (f a) w' Q | None => Q None w' end) -> wp (mbind f m) w Q.
Proof.
  intros (r & w' & Hm & HQ). unfold wp, mbind, M_bind. rewrite Hm.
  destruct r as [a|]; [|by exists None, w']. destruct HQ as (r & w2 & Hf & HQ). by exists r, w2.
Qed.

Lemma wp_mret {A} (a : A) w Q : Q (Some a) w -> wp (mret a) w Q.
Proof. intros H. by exists (Some a), w. Qed.

Lemma wp_skip w Q : Q (Some tt) w -> wp skip w Q.
Proof. apply wp_mret. Qed.

Lemma wp_return {A} w (Q : option A -> world E -> Prop) : Q None w -> wp return_ w Q.
Proof. intros H. by exists None, w. Qed.

Lemma wp_lift {A} (r : res A) a w Q : r = Ok a -> Q (Some a) w -> wp (lift r) w Q.
Proof. intros -> H. by exists (Some a), w. Qed.

Lemma wp_get_srv w Q : Q (Some (srv w)) w -> wp get_srv w Q.
Proof. intros H. by eexists _, _. Qed.
Lemma wp_get_cli w Q : Q (Some (cli w)) w -> wp get_cli w Q.
Proof. intros H. by eexists _, _. Qed.
Lemma wp_get_cap w Q : Q (Some (capacity w)) w -> wp get_cap w Q.
Proof. intros H. by eexists _, _. Qed.
Lemma wp_put_srv s w Q : Q (Some tt) (mkWorld s (cli w) (capacity w)) -> wp (put_srv s) w Q.
Proof. intros H. by eexists _, _. Qed.
Lemma wp_put_cli c w Q : Q (Some tt) (mkWorld (srv w) c (capacity w)) -> wp (put_cli c) w Q.
Proof. intros H. by eexists _, _. Qed.
Lemma wp_put_cap z w Q : Q (Some tt) (mkWorld (srv w) (cli w) z) -> wp (put_cap z) w Q.
Proof. intros H. by eexists _, _. Qed.

Lemma wp_mono {A} (m : M A) w (Q Q' : option A -> world E -> Prop) :
  wp m w Q -> (forall r w', Q r w' -> Q' r w') -> wp m w Q'.
Proof. intros (r & w' & Hm & HQ) H. exists r, w'. auto. Qed.

Lemma wp_run {A} (m : M A) w r w' : m w = Ok (r, w') -> wp m w (fun r1 w1 => r1 = r /\ w1 = w').
Proof. intros H. by exists r, w'. Qed.

End Crdt.

(** Steps through the primitives at the head of a command. *)
Ltac wp_step :=
  lazymatch goal with
  | |- wp (mbind _ _) _ _ => apply wp_bind
  | |- wp (mret _) _ _ => apply wp_mret
  | |- wp skip _ _ => apply wp_skip
  | |- wp return_ _ _ => apply wp_return
  | |- wp get_srv _ _ => apply wp_get_srv
  | |- wp get_cli _ _ => apply wp_get_cli
  | |- wp get_cap _ _ => apply wp_get_cap
  | |- wp (put_srv _) _ _ => apply wp_put_srv
  | |- wp (put_cli _) _ _ => apply wp_put_cli
  | |- wp (put_cap _) _ _ => apply wp_put_cap
  | |- wp (lift (Ok _)) _ _ => eapply wp_lift; [reflexivity|]
  end; cbn [srv cli capacity as_hash as_ptr as_zset of_option].
Ltac wp_steps := repeat wp_step.

Section Macros.
Context {E : Type}.
Notation M := (M E).
Implicit Types w : world E.

Lemma wp_addReply r w Q :
  Q (Some tt) (mkWorld (srv w) (if prepareClientToWrite (cli w) then add_out (cli w) r else cli w) (capacity w)) ->
  wp (addReply r) w Q.
Proof.
  intros H. unfold addReply. apply wp_bind, wp_get_cli. destruct (prepareClientToWrite (cli w)); [by apply wp_put_cli|].
  apply wp_skip. by destruct w.
Qed.

Lemma wp_argv_at i a w Q : argv (cli w) !! i = Some a -> Q (Some a) w -> wp (argv_at i) w Q.
Proof. intros Ha H. unfold argv_at. apply wp_bind, wp_get_cli. rewrite Ha. by eapply wp_lift. Qed.

Lemma wp_rargs l n w Q : rargv (cli w) = Some (l, n) -> Q (Some l) w -> wp rargs w Q.
Proof. intros Hr H. unfold rargs. apply wp_bind, wp_get_cli. rewrite Hr. by apply wp_mret. Qed.

Lemma wp_rargv_at i l n a w Q :
  rargv (cli w) = Some (l, n) -> l !! i = Some a -> Q (Some a) w -> wp (rargv_at i) w Q.
Proof. intros Hr Ha H. unfold rargv_at. apply wp_bind. eapply wp_rargs; [done|]. rewrite Ha. by eapply wp_lift. Qed.

Lemma wp_lookupKey k w Q : Q (Some (db (srv w) !! k)) w -> wp (lookupKey k) w Q.
Proof. intros H. unfold lookupKey. apply wp_bind, wp_get_srv, wp_mret. done. Qed.

Lemma wp_dirty_inc w Q : Q (Some tt) (mkWorld (add_dirty (srv w)) (cli w) (capacity w)) -> wp dirty_inc w Q.
Proof. intros H. unfold dirty_inc. by apply wp_bind, wp_get_srv, wp_put_srv. Qed.

(** ** The growth of [rargv] *)

(** One more argument fits: the array is full exactly when it is grown, and it
    is grown before the write. *)
Lemma wp_RARGV_ADD str w l :
  rargv (cli w) = Some (argv (cli w) ++ l, capacity w) ->
  let argc := Z.of_nat (length (argv (cli w))) in
  argc + Z.of_nat (length l) <= capacity w <= argc + 2 * Z.of_nat (length l) + ADDITIONAL_CAPACITY ->
  argc + ADDITIONAL_CAPACITY <= capacity w -> argc + 2 * Z.of_nat (length l) + ADDITIONAL_CAPACITY < 2 ^ 31 ->
  exists cap, wp (RARGV_ADD_SDS str) w (fun r w' =>
    r = Some tt /\ w' = mkWorld (srv w) (set_rargv (cli w) (Some (argv (cli w) ++ l ++ [str], cap))) cap) /\
    argc + Z.of_nat (length (l ++ [str])) <= cap <= argc + 2 * Z.of_nat (length (l ++ [str])) + ADDITIONAL_CAPACITY /\
    argc + ADDITIONAL_CAPACITY <= cap.
Proof.
  intros Hr argc Hc H4 Hb. unfold ADDITIONAL_CAPACITY in *. rewrite length_app, Nat2Z.inj_add. cbn [length].
  destruct (Z.eqb_spec (argc + Z.of_nat (length l)) (capacity w)) as [Hfull|Hroom].
  - exists (i32 (2 * capacity w - argc)).
    rewrite i32_id by (unfold int_range, INT_MIN, INT_MAX; lia). split; [|lia].
    unfold RARGV_ADD_SDS, init_if_null. wp_steps. rewrite Hr. wp_steps. apply (wp_rargs (argv (cli w) ++ l) (capacity w)); [done|].
    rewrite length_app, Nat2Z.inj_add, (proj2 (Z.eqb_eq _ _)) by done. fold argc. wp_steps. cbn [rargv set_rargv].
    rewrite i32_id by (unfold int_range, INT_MIN, INT_MAX; lia).
    rewrite (proj2 (Z.ltb_lt _ _)) by lia. wp_steps. rewrite <- app_assoc. done.
  - exists (capacity w). split; [|lia].
    unfold RARGV_ADD_SDS, init_if_null. wp_steps. rewrite Hr. wp_steps. apply (wp_rargs (argv (cli w) ++ l) (capacity w)); [done|].
    rewrite length_app, Nat2Z.inj_add. fold argc. rewrite (proj2 (Z.eqb_neq _ _)) by done. wp_steps. rewrite Hr.
    rewrite (proj2 (Z.ltb_lt _ _)) by lia. wp_steps. rewrite <- app_assoc. by destruct w.
Qed.

(** The client of a command that has added the arguments [l] so far. *)
Definition grown w (l : list string) : Prop :=
  let argc := Z.of_nat (length (argv (cli w))) in
  match rargv (cli w) with
  | None => l = [] /\ capacity w = argc + ADDITIONAL_CAPACITY
  | Some (r, alloc) =>
      r = argv (cli w) ++ l /\ alloc = capacity w /\
      argc + Z.of_nat (length l) <= capacity w <= argc + 2 * Z.of_nat (length l) + ADDITIONAL_CAPACITY /\
      argc + ADDITIONAL_CAPACITY <= capacity w
  end.

(** Everything but [rargv] and the capacity stays. *)
Definition same_but_rargv w w' : Prop :=
  srv w' = srv w /\ set_rargv (cli w') None = set_rargv (cli w) None.

Lemma wp_RARGV_grow str w l :
  grown w l -> Z.of_nat (length (argv (cli w))) + 2 * Z.of_nat (length l) + ADDITIONAL_CAPACITY < 2 ^ 31 ->
  wp (RARGV_ADD_SDS str) w (fun r w' =>
    r = Some tt /\ same_but_rargv w w' /\ grown w' (l ++ [str]) /\
    exists n, rargv (cli w') = Some (argv (cli w) ++ l ++ [str], n)).
Proof.
  intros Hg Hb. unfold grown in Hg. destruct (rargv (cli w)) as [[r n]|] eqn:Hr.
  - destruct Hg as (-> & -> & Hc & H4).
    destruct (wp_RARGV_ADD str w l Hr Hc H4 Hb) as (cap & Hwp & Hc' & H4').
    eapply wp_mono; [exact Hwp|]. intros ?? [-> ->]. split_and!; [done|done| |simpl; eauto].
    unfold grown. cbn [cli rargv set_rargv argv capacity]. split_and!; [done|done|lia..].
  - destruct Hg as [-> Hc]. unfold RARGV_ADD_SDS, init_if_null, INIT_RARGV. wp_steps. rewrite Hr. wp_steps.
    unfold ADDITIONAL_CAPACITY in *. rewrite (proj2 (Z.leb_le _ _)) by lia. wp_steps.
    eapply wp_rargs; [done|]. cbn [argv set_rargv]. rewrite (proj2 (Z.eqb_neq _ _)) by lia. wp_steps.
    cbn [rargv set_rargv]. rewrite (proj2 (Z.ltb_lt _ _)) by lia. wp_steps.
    split_and!; [done|done| |simpl; eauto].
    unfold grown. cbn [cli rargv set_rargv argv capacity length app]. unfold ADDITIONAL_CAPACITY. split_and!; [done|done|lia..].
Qed.

Lemma wp_RARGV_all strs w l :
  grown w l -> Z.of_nat (length (argv (cli w))) + 2 * Z.of_nat (length (l ++ strs)) + ADDITIONAL_CAPACITY < 2 ^ 31 ->
  strs <> [] ->
  wp (for_each strs RARGV_ADD_SDS) w (fun r w' =>
    r = Some tt /\ same_but_rargv w w' /\ grown w' (l ++ strs) /\
    exists n, rargv (cli w') = Some (argv (cli w) ++ l ++ strs, n)).
Proof.
  revert w l. induction strs as [|s strs IH]; intros w l Hg Hb Hne; [done|]. cbn [for_each].
  apply wp_bind. rewrite length_app in Hb. cbn [length] in Hb.
  eapply wp_mono; [apply (wp_RARGV_grow s w l Hg); lia|].
  intros r w' (-> & [Hs Hc] & Hg' & n & Hn).
  assert (argv (cli w') = argv (cli w)) as Ha by (by injection Hc).
  destruct strs as [|s' strs]; [cbn [for_each]; apply wp_skip; split_and!; [done|by split|done|eauto]|].
  eapply wp_mono; [apply (IH w' (l ++ [s]) Hg'); [|done]|].
  - rewrite Ha, !length_app. cbn [length] in *. lia.
  - intros r2 w2 (-> & [Hs2 Hc2] & Hg2 & n2 & Hn2). rewrite <- !app_assoc in *. rewrite Ha in Hn2.
    split_and!; [done|split; congruence|done|eauto].
Qed.

(** C29 (bounds): however many arguments a prepare phase adds to [rargv], every
    write stays inside the array, which is grown before it overflows; the array
    ends up with the client's arguments followed by the added ones.  The bound
    is that of the [int] the capacity is kept in. *)
Theorem rargv_bounds w strs :
  rargv (cli w) = None -> strs <> [] ->
  Z.of_nat (length (argv (cli w))) + 2 * Z.of_nat (length strs) + ADDITIONAL_CAPACITY < 2 ^ 31 ->
  exists w' n, (_ ← put_cap (Z.of_nat (length (argv (cli w))) + ADDITIONAL_CAPACITY); for_each strs RARGV_ADD_SDS) w
      = Ok (Some tt, w') /\
    rargv (cli w') = Some (argv (cli w) ++ strs, n) /\ Z.of_nat (length (argv (cli w) ++ strs)) <= n /\ srv w' = srv w.
Proof.
  intros Hr Hne Hb. set (w0 := mkWorld (srv w) (cli w) (Z.of_nat (length (argv (cli w))) + ADDITIONAL_CAPACITY)).
  destruct (wp_RARGV_all strs w0 []) as (r & w' & Hrun & -> & [Hs _] & Hg & n & Hn).
  - unfold grown, w0. cbn [cli capacity]. by rewrite Hr.
  - exact Hb.
  - done.
  - exists w', n. split_and!; [exact Hrun|exact Hn| |exact Hs].
    unfold grown in Hg. rewrite Hn in Hg. destruct Hg as (Heq & -> & Hc & _).
    cbn [app] in Hc, Heq.
    assert (argv (cli w') = argv (cli w)) as Ha.
    { by apply app_inv_tail in Heq. }
    rewrite Ha in Hc. rewrite length_app. lia.
Qed.
End Macros.

Definition idle_server : server unit := mkServer 2 0 [] (mkZcfg 128 64) ∅ ∅ 0 0 [].

(** Six added arguments make the array of a three-word command grow. *)
Lemma rargv_bounds_witness :
  exists w' n,
    (_ ← put_cap (Z.of_nat (length ["ozrem"; "s"; "a"]) + ADDITIONAL_CAPACITY);
     for_each ["1"; "2"; "3"; "4"; "5"; "6"] RARGV_ADD_SDS)
      (mkWorld idle_server (mkClient ["ozrem"; "s"; "a"] None false false []) 0) = Ok (Some tt, w') /\
    rargv (cli w') = Some (["ozrem"; "s"; "a"; "1"; "2"; "3"; "4"; "5"; "6"], n) /\ 9 <= n.
Proof.
  destruct (rargv_bounds (mkWorld idle_server (mkClient ["ozrem"; "s"; "a"] None false false []) 0)
    ["1"; "2"; "3"; "4"; "5"; "6"] eq_refl ltac:(done) eq_refl) as (w' & n & Hrun & Hr & Hn & _).
  exists w', n. split_and!; [exact Hrun|exact Hr|exact Hn].
Defined.

