(* ===== verification/ZCommandSpec.v ===== *)
(** * What the sorted set commands answer and leave behind

    Against the list of entries of a sorted set: the range deletions remove the
    selected entries and reply their number, the range queries reply the
    selected slice in either direction, the counts are the numbers of entries in
    range, in both encodings alike. *)

From S2P Require Import Prelude Sds Double Util Score Skiplist SkiplistRep SkiplistSpec Zset ZsetSpec ZRange ZRangeSpec.
From S2P Require Import Store Crdt ZCommand.
From Stdlib Require Import Ascii SpecFloat.

(** ** Walking along the places of a set *)

(** Moving from a place of the path leads to the next one, or off the path. *)
Definition walks {A} (move : nat -> res A) (at_ : option nat -> A) (path : list nat) : Prop :=
  forall pre a post, path = pre ++ a :: post -> move a = Ok (at_ (head post)).

Lemma walks_tail {A} move (at_ : option nat -> A) a path : walks move at_ (a :: path) -> walks move at_ path.
Proof. intros H pre b post ->. by apply (H (a :: pre)). Qed.

Lemma walks_suffix {A} move (at_ : option nat -> A) pre path : walks move at_ (pre ++ path) -> walks move at_ path.
Proof. intros H pre' b post ->. apply (H (pre ++ pre')). by rewrite app_assoc. Qed.

(** [while (p && offset--)] and [while (p && limit--)] on lists. *)
Definition zdrop {A} (offset : Z) (l : list A) : list A := if offset <? 0 then [] else drop (Z.to_nat offset) l.
Definition ztake {A} (limit : Z) (l : list A) : list A := if limit <? 0 then l else take (Z.to_nat limit) l.

Lemma zdrop_0 {A} (l : list A) : zdrop 0 l = l.
Proof. done. Qed.
Lemma zdrop_cons {A} offset (a : A) l : offset <> 0 -> zdrop offset (a :: l) = zdrop (offset - 1) l.
Proof.
  intros H. unfold zdrop. destruct (Z.ltb_spec offset 0), (Z.ltb_spec (offset - 1) 0); try lia; [done|].
  replace (Z.to_nat offset) with (S (Z.to_nat (offset - 1))) by lia. done.
Qed.
Lemma ztake_0 {A} (l : list A) : ztake 0 l = [].
Proof. done. Qed.
Lemma ztake_cons {A} limit (a : A) l : limit <> 0 -> ztake limit (a :: l) = a :: ztake (limit - 1) l.
Proof.
  intros H. unfold ztake. destruct (Z.ltb_spec limit 0), (Z.ltb_spec (limit - 1) 0); try lia; [done|].
  replace (Z.to_nat limit) with (S (Z.to_nat (limit - 1))) by lia. done.
Qed.
Lemma zdrop_nil {A} offset : zdrop offset (@nil A) = [].
Proof. unfold zdrop. destruct (offset <? 0); [done|by rewrite drop_nil]. Qed.
Lemma ztake_nil {A} limit : ztake limit (@nil A) = [].
Proof. unfold ztake. destruct (limit <? 0); [done|by rewrite take_nil]. Qed.

(** ** Walking in the skip list *)

Section WalkSkiplist.
Context (z : zskiplist) (reverse : bool) (path : list nat).
Hypothesis Hw : walks (sl_move z reverse) id path.

Lemma sl_skip_spec fuel offset :
  (length path < fuel)%nat -> sl_skip fuel z reverse offset (head path) = Ok (head (zdrop offset path)).
Proof.
  revert fuel offset Hw. induction path as [|a p IH]; intros fuel offset Hp Hf; (destruct fuel as [|fuel]; [simpl in Hf; lia|]);
    cbn [sl_skip head].
  { by rewrite zdrop_nil. }
  destruct (Z.eqb_spec offset 0) as [->|Hne]; [done|]. rewrite (Hp [] a p eq_refl). cbn [mbind res_bind].
  rewrite zdrop_cons by done. apply IH; [by eapply walks_tail|simpl in Hf; lia].
Qed.

(** The entries along the path. *)
Definition sl_holds (a : nat) (y : zentry) : Prop := exists n, node z a = Ok n /\ score n = y.1 /\ ele n = Some y.2.

Definition entry_items (withscores : bool) (y : zentry) : list reply :=
  if withscores then [RBulk y.2; RDouble y.1] else [RBulk y.2].

Lemma sl_item_spec a y ws : sl_holds a y -> sl_item z ws a = Ok (entry_items ws y).
Proof.
  intros (n & Hn & Hs & He). unfold sl_item, ele_of. rewrite Hn. cbn [mbind res_bind]. rewrite He, Hs. by destruct ws.
Qed.

(** Entries that pass the test up to one that does not. *)
Lemma sl_emit_spec ws (t : zskiplistNode -> res bool) (p : zentry -> bool) : forall ys rest fuel limit,
  Forall2 sl_holds path (ys ++ rest) ->
  (forall n y, y ∈ ys ++ rest -> score n = y.1 -> ele n = Some y.2 -> t n = Ok (p y)) ->
  (forall y, y ∈ ys -> p y = true) -> (forall y, head rest = Some y -> p y = false) -> (length path < fuel)%nat ->
  sl_emit fuel z reverse ws t limit (head path) = Ok (concat (entry_items ws <$> ztake limit ys)).
Proof.
  revert Hw. induction path as [|a pth IH]; intros Hp ys rest fuel limit He Ht Hin Hout Hf;
    (destruct fuel as [|fuel]; [simpl in Hf; lia|]); cbn [sl_emit head].
  { apply Forall2_nil_inv_l, app_eq_nil in He as [-> _]. by rewrite ztake_nil. }
  destruct (Z.eqb_spec limit 0) as [->|Hne]; [done|]. destruct ys as [|y ys].
  - rewrite ztake_nil. cbn [app] in *. apply Forall2_cons_inv_l in He as (y & rest' & (n & Hn & Hs & Hel) & _ & ->).
    rewrite Hn. cbn [mbind res_bind]. rewrite (Ht n y), Hout by (done || by left). done.
  - cbn [app] in He. apply Forall2_cons in He as [Hy He]. pose proof Hy as (n & Hn & Hs & Hel). rewrite Hn.
    cbn [mbind res_bind]. rewrite (Ht n y), Hin by (done || by left). cbn [mbind res_bind].
    rewrite (sl_item_spec a y) by done. cbn [mbind res_bind]. rewrite (Hp [] a pth eq_refl). cbn [mbind res_bind id].
    rewrite (IH (walks_tail _ _ _ _ Hp) ys rest fuel (limit - 1)).
    + by rewrite ztake_cons.
    + done.
    + intros m w Hm. apply Ht. by right.
    + intros w Hm. apply Hin. by right.
    + done.
    + simpl in Hf. lia.
Qed.
End WalkSkiplist.

Lemma sl_walks_forward z l : zsl_rep z l -> walks (sl_move z false) id l.
Proof.
  intros Hrep pre a post ->. unfold sl_move.
  assert (Hin : forall b, b ∈ a :: post -> b ∈ pre ++ a :: post) by (intros b Hb; apply elem_of_app; by right).
  pose proof (r_hgt _ _ Hrep a (Hin a ltac:(by left))) as Ha.
  pose proof (r_fwd _ _ Hrep (header z :: pre) a post 0 eq_refl ltac:(lia) ltac:(lia)) as Hl.
  apply get_level_lvl in Hl. rewrite Hl. cbn [mbind res_bind id]. rewrite <- (fwd_0 (hgt z) post).
  - by destruct (fwd _ _ _).
  - intros b Hb. apply (r_hgt _ _ Hrep), Hin. by right.
Qed.

Lemma sl_walks_backward z l : zsl_rep z l -> walks (sl_move z true) id (reverse l).
Proof.
  intros Hrep pre a post E. unfold sl_move. apply (f_equal reverse) in E.
  rewrite reverse_involutive, reverse_app, reverse_cons, <- app_assoc in E. cbn [app] in E.
  apply get_backward_bk. destruct post as [|b post].
  - cbn [reverse rev_append app head id] in *. rewrite (r_back _ _ Hrep [] (header z) a (reverse pre)) by (by rewrite E).
    by rewrite decide_True.
  - rewrite reverse_cons, <- app_assoc in E. cbn [app head id] in *.
    rewrite (r_back _ _ Hrep (header z :: reverse post) b a (reverse pre)) by (rewrite E; done).
    rewrite decide_False; [done|]. intros ->. pose proof (r_nodup _ _ Hrep) as Hnd. apply NoDup_cons in Hnd as [Hn _].
    apply Hn. rewrite E. apply elem_of_app. right. by left.
Qed.

Lemma view_holds z l es : zsl_view z l es -> Forall2 (sl_holds z) l es.
Proof.
  intros Hv. apply Forall2_same_length_lookup. split; [by eapply view_length|].
  intros i a y Ha Hy. destruct (view_node _ _ _ _ _ Hv Hy) as (b & n & Hb & Hn & Hs & He).
  assert (b = a) as -> by congruence. by exists n.
Qed.

(** ** Walking in the ziplist *)

(** What a bulk reply puts on the wire; an integer goes out in decimal. *)
Definition wire (r : reply) : reply := match r with RBulkInt z => RBulk (print_int z) | _ => r end.

(** The pointers of an entry: its element and its score after it. *)
Definition zl_at (e : option nat) : option nat * option nat := (e, S <$> e).

Section WalkZiplist.
Context (zl : ziplist) (reverse : bool) (path : list nat).
Hypothesis Hw : walks (fun e => zl_move zl reverse e (Some (S e))) zl_at path.

Lemma zl_skip_spec fuel offset :
  (length path < fuel)%nat ->
  zl_skip fuel zl reverse offset (head path) (S <$> head path) = Ok (zl_at (head (zdrop offset path))).
Proof.
  revert fuel offset Hw. induction path as [|a p IH]; intros fuel offset Hp Hf; (destruct fuel as [|fuel]; [simpl in Hf; lia|]);
    cbn [zl_skip head].
  { by rewrite zdrop_nil. }
  destruct (Z.eqb_spec offset 0) as [->|Hne]; [done|]. cbn [fmap option_fmap option_map].
  rewrite (Hp [] a p eq_refl). cbn [mbind res_bind zl_at].
  rewrite zdrop_cons by done. apply IH; [by eapply walks_tail|simpl in Hf; lia].
Qed.

Definition zl_holds (a : nat) (y : zentry) : Prop :=
  zl !! a = Some (zl_entry y.2) /\ zzlGetScore zl (Some (S a)) = Ok y.1.

Lemma wire_entry e : wire (match zl_entry e with ZlInt z => RBulkInt z | ZlStr s => RBulk s end) = RBulk e.
Proof.
  unfold zl_entry, zipTryEncoding. destruct (_ || _); [done|].
  destruct (string2ll e) as [z|] eqn:E; [|done]. apply string2ll_strict in E as [<- _]. done.
Qed.

Lemma zl_item_spec a y ws :
  zl_holds a y -> exists i, zl_item zl ws a (Some (S a)) = Ok i /\ wire <$> i = entry_items ws y.
Proof.
  intros [He Hs]. unfold zl_item, ziplistGet. cbn [mbind option_bind]. rewrite He. cbn [of_option mbind res_bind].
  destruct ws.
  - rewrite Hs. cbn [mbind res_bind]. eexists. split; [done|]. cbn [fmap list_fmap entry_items]. by rewrite wire_entry.
  - eexists. split; [done|]. cbn [fmap list_fmap entry_items]. by rewrite wire_entry.
Qed.

Lemma zl_emit_spec ws (t : nat -> res bool) (p : zentry -> bool) : forall ys rest fuel limit,
  Forall2 zl_holds path (ys ++ rest) ->
  Forall2 (fun a y => t a = Ok (p y)) path (ys ++ rest) ->
  (forall y, y ∈ ys -> p y = true) -> (forall y, head rest = Some y -> p y = false) -> (length path < fuel)%nat ->
  exists items, zl_emit fuel zl reverse ws t limit (head path) (S <$> head path) = Ok items /\
    wire <$> items = concat (entry_items ws <$> ztake limit ys).
Proof.
  revert Hw. induction path as [|a pth IH]; intros Hp ys rest fuel limit He Ht Hin Hout Hf;
    (destruct fuel as [|fuel]; [simpl in Hf; lia|]); cbn [zl_emit head].
  { apply Forall2_nil_inv_l, app_eq_nil in He as [-> _]. rewrite ztake_nil. by exists []. }
  destruct (Z.eqb_spec limit 0) as [->|Hne]; [by exists []|]. destruct ys as [|y ys].
  - rewrite ztake_nil. cbn [app] in *. apply Forall2_cons_inv_l in Ht as (y & rest' & Ht & _ & ->).
    rewrite Ht, Hout by done. by exists [].
  - cbn [app] in *. apply Forall2_cons in He as [Hy He]. apply Forall2_cons in Ht as [Hty Ht].
    rewrite Hty, Hin by (by left). cbn [mbind res_bind fmap option_fmap option_map].
    destruct (zl_item_spec a y ws Hy) as (i & -> & Hi). cbn [mbind res_bind]. rewrite (Hp [] a pth eq_refl). cbn [mbind res_bind zl_at].
    destruct (IH (walks_tail _ _ _ _ Hp) ys rest fuel (limit - 1)) as (items & -> & Hitems); try done.
    + intros w Hm. apply Hin. by right.
    + simpl in Hf. lia.
    + cbn [mbind res_bind]. eexists. split; [done|]. rewrite ztake_cons, fmap_app, Hi, Hitems by done. done.
Qed.
End WalkZiplist.

Section FlatWalks.
Context (es : list zentry).

Lemma evens_at pre a post : evens es = pre ++ a :: post -> a = (2 * length pre)%nat /\ length es = (length pre + S (length post))%nat.
Proof.
  intros E. unfold evens in E. split.
  - assert (H : ((fun i => 2 * i)%nat <$> seq 0 (length es)) !! length pre = Some a) by (rewrite E; by rewrite list_lookup_middle).
    rewrite list_lookup_fmap in H. destruct (seq 0 (length es) !! length pre) as [i|] eqn:Ei; [|done].
    apply lookup_seq in Ei as [-> _]. by injection H.
  - apply (f_equal length) in E. rewrite length_fmap, length_seq, length_app in E. done.
Qed.

(** The next place is the one two further, if there is one. *)
Lemma evens_head pre a post :
  evens es = pre ++ a :: post -> head post = if decide (S (length pre) < length es)%nat then Some (S (S a)) else None.
Proof.
  intros E. destruct (evens_at _ _ _ E) as [Ea El]. destruct post as [|b post].
  - rewrite decide_False by (simpl in El; lia). done.
  - rewrite decide_True by (simpl in El; lia). destruct (evens_at (pre ++ [a]) b post) as [-> _]; [by rewrite <- app_assoc|].
    rewrite length_app. cbn [head length]. f_equal. lia.
Qed.

Lemma zl_walks_forward : walks (fun e => zl_move (flat es) false e (Some (S e))) zl_at (evens es).
Proof.
  intros pre a post E. rewrite (evens_head _ _ _ E). destruct (evens_at _ _ _ E) as [-> El].
  unfold zl_move. cbn [assert_ptr of_option mbind res_bind].
  unfold zzlNext, ziplistNext at 1. rewrite flat_length. case_decide as Hd.
  - rewrite decide_True by lia. unfold ziplistNext. rewrite flat_length, decide_True by lia. done.
  - by rewrite decide_False by lia.
Qed.

Lemma zl_walks_backward : walks (fun e => zl_move (flat es) true e (Some (S e))) zl_at (reverse (evens es)).
Proof.
  intros pre a post E. apply (f_equal reverse) in E.
  rewrite reverse_involutive, reverse_app, reverse_cons, <- app_assoc in E. cbn [app] in E.
  destruct (evens_at _ _ _ E) as [-> El]. unfold zl_move. cbn [assert_ptr of_option mbind res_bind].
  rewrite length_reverse in *. unfold zzlPrev. destruct post as [|b post].
  - unfold ziplistPrev. rewrite flat_length, decide_False by (simpl in *; lia). done.
  - destruct (evens_at (reverse post) b (2 * length (b :: post) :: reverse pre)%nat) as [-> _].
    { rewrite E, reverse_cons. by rewrite <- app_assoc. }
    rewrite length_reverse. cbn [length] in *. destruct (prev_pair es (length post)) as [-> Hp]; [lia|].
    rewrite Hp. done.
Qed.

(** The entry at a place. *)
Lemma evens_entries (P : nat -> zentry -> Prop) :
  (forall EA y EB, es = EA ++ y :: EB -> P (2 * length EA)%nat y) -> Forall2 P (evens es) es.
Proof.
  intros HP. apply Forall2_same_length_lookup. split; [unfold evens; by rewrite length_fmap, length_seq|].
  intros i a y Ha Hy. unfold evens in Ha. rewrite list_lookup_fmap in Ha.
  destruct (seq 0 (length es) !! i) as [j|] eqn:Ej; [|done]. apply lookup_seq in Ej as [-> _]. injection Ha as <-.
  pose proof (take_drop_middle _ _ _ Hy) as E. pose proof (lookup_lt_Some _ _ _ Hy) as Hi.
  pose proof (HP (take i es) y (drop (S i) es) ltac:(done)) as H. rewrite length_take in H. by replace (i `min` length es)%nat with i in H by lia.
Qed.

Lemma flat_holds : all_back es -> Forall2 (zl_holds (flat es)) (evens es) es.
Proof.
  intros Hb. apply evens_entries. intros EA y EB E. rewrite E. split; [apply flat_ele|apply get_score].
  eapply all_back_elem; [done|]. rewrite E. apply elem_of_mid.
Qed.
End FlatWalks.

(** ** The slice of a range *)

Definition oriented {A} (rev : bool) (l : list A) : list A := if rev then reverse l else l.

(** The entries a range query lists. *)
Definition range_slice (rev : bool) (offset limit : Z) (ys : list zentry) : list zentry :=
  ztake limit (zdrop offset (oriented rev ys)).

(** [None] stands for the empty array sent when nothing is in range. *)
Definition range_answer (ws rev : bool) (offset limit : Z) (ys : list zentry) : option (list reply) :=
  match ys with [] => None | _ => Some (concat (entry_items ws <$> range_slice rev offset limit ys)) end.

Lemma oriented_app {A} rev (a b : list A) :
  oriented rev (a ++ b) = if rev then oriented rev b ++ oriented rev a else oriented rev a ++ oriented rev b.
Proof. destruct rev; [apply reverse_app|done]. Qed.

Lemma Forall2_oriented {A B} (R : A -> B -> Prop) rev l k : Forall2 R l k -> Forall2 R (oriented rev l) (oriented rev k).
Proof. intros H. destruct rev; [by apply Forall2_reverse|done]. Qed.

Lemma elem_of_oriented {A} rev (l : list A) y : y ∈ oriented rev l <-> y ∈ l.
Proof. destruct rev; [apply elem_of_reverse|done]. Qed.

Lemma length_oriented {A} rev (l : list A) : length (oriented rev l) = length l.
Proof. destruct rev; [apply length_reverse|done]. Qed.

Lemma head_oriented {A} rev (l : list A) : head (oriented rev l) = if rev then last l else head l.
Proof. destruct rev; [cbn [oriented]; by rewrite head_reverse|done]. Qed.

(** The path from the first place found: the places of the range, then places
    whose entries fail the test of the far end. *)
Lemma range_path (R : nat -> zentry -> Prop) (rev : bool) gte lte (l : list nat) es a :
  Forall2 R l es -> rises gte es -> falls lte es ->
  (if rev then last (places_in gte lte l es) else head (places_in gte lte l es)) = Some a ->
  exists pre path rest, oriented rev l = pre ++ path /\ head path = Some a /\
    Forall2 R path (oriented rev (inside gte lte es) ++ rest) /\
    (forall y, y ∈ oriented rev (inside gte lte es) -> (if rev then gte y else lte y) = true) /\
    (forall y, y ∈ rest -> (if rev then gte y else lte y) = false).
Proof.
  intros HR Hg Hl Ha. destruct (segment_low _ _ _ Hg Hl) as (EA & EM & EB & Hsg & _).
  rewrite (seg_inside _ _ _ _ _ _ Hsg). pose proof HR as HR'. rewrite (sg_es _ _ _ _ _ _ Hsg) in HR'.
  apply Forall2_app_inv_r in HR' as (A & R' & HA & HR' & ->). apply Forall2_app_inv_r in HR' as (M & B & HM & HB & ->).
  rewrite (seg_places _ _ _ _ _ _ Hsg A M B) in Ha by (by eapply Forall2_length).
  assert (HMo : head (oriented rev M) = Some a) by (rewrite head_oriented; destruct rev; exact Ha).
  assert (Hin : forall y, y ∈ oriented rev EM -> (if rev then gte y else lte y) = true).
  { intros y Hy%elem_of_oriented. destruct (sg_in _ _ _ _ _ _ Hsg y Hy). by destruct rev. }
  destruct rev.
  - exists (oriented true B), (oriented true M ++ oriented true A), (oriented true EA). split_and!; [|by destruct (oriented true M)| |done|].
    + by rewrite !oriented_app, <- app_assoc.
    + apply Forall2_app; by apply Forall2_oriented.
    + intros y Hy%elem_of_oriented. by apply (sg_before _ _ _ _ _ _ Hsg).
  - exists A, (M ++ B), EB. split_and!; [done|by destruct M| |done|].
    + by apply Forall2_app.
    + intros y Hy. by apply (sg_after _ _ _ _ _ _ Hsg).
Qed.

Lemma range_none (R : nat -> zentry -> Prop) (rev : bool) gte lte (l : list nat) es :
  Forall2 R l es -> rises gte es -> falls lte es ->
  (if rev then last (places_in gte lte l es) else head (places_in gte lte l es)) = None -> inside gte lte es = [].
Proof.
  intros HR Hg Hl Ha. destruct (segment_low _ _ _ Hg Hl) as (EA & EM & EB & Hsg & _).
  rewrite (seg_inside _ _ _ _ _ _ Hsg). rewrite (sg_es _ _ _ _ _ _ Hsg) in HR.
  apply Forall2_app_inv_r in HR as (A & R' & HA & HR' & ->). apply Forall2_app_inv_r in HR' as (M & B & HM & HB & ->).
  rewrite (seg_places _ _ _ _ _ _ Hsg A M B) in Ha by (by eapply Forall2_length).
  assert (M = []) as -> by (destruct rev; [by apply last_None|by apply head_None]). by apply Forall2_nil_inv_l in HM.
Qed.

(** Skipping into the path. *)
Lemma zdrop_path (R : nat -> zentry -> Prop) path ys rest offset :
  Forall2 R path (ys ++ rest) ->
  exists pre rest', path = pre ++ zdrop offset path /\ Forall2 R (zdrop offset path) (zdrop offset ys ++ rest') /\
    (forall y, y ∈ rest' -> y ∈ rest) /\ (forall y, y ∈ zdrop offset ys -> y ∈ ys).
Proof.
  intros H. unfold zdrop. destruct (offset <? 0).
  { exists path, []. rewrite app_nil_r. split_and!; [done|constructor|by intros y ?%elem_of_nil..]. }
  exists (take (Z.to_nat offset) path), (drop (Z.to_nat offset - length ys) rest). rewrite take_drop. split_and!; [done| |..].
  - apply (Forall2_drop _ _ _ (Z.to_nat offset)) in H. by rewrite drop_app in H.
  - intros y Hy. by apply (subseteq_drop _ _ _ Hy).
  - intros y Hy. by apply (subseteq_drop _ _ _ Hy).
Qed.

Definition wires (items : option (list reply)) : option (list reply) := (fun l : list reply => wire <$> l) <$> items.

Section RangeBy.
Context (es : list zentry) (gte lte : zentry -> bool) (rev ws : bool) (offset limit : Z).
Hypothesis Hg : rises gte es.
Hypothesis Hl : falls lte es.

Definition first_place (l : list nat) : option nat :=
  if rev then last (places_in gte lte l es) else head (places_in gte lte l es).

Lemma answer_some : inside gte lte es <> [] ->
  range_answer ws rev offset limit (inside gte lte es) =
  Some (concat (entry_items ws <$> ztake limit (zdrop offset (oriented rev (inside gte lte es))))).
Proof. unfold range_answer. by destruct (inside gte lte es). Qed.

Lemma first_inside (R : nat -> zentry -> Prop) l a : Forall2 R l es -> first_place l = Some a -> inside gte lte es <> [].
Proof.
  intros HR Ha E. destruct (segment_low _ _ _ Hg Hl) as (EA & EM & EB & Hsg & _).
  rewrite (seg_inside _ _ _ _ _ _ Hsg) in E. subst EM. unfold first_place in Ha.
  rewrite (places_none gte lte l es) in Ha; [by destruct rev|].
  intros y Hy. rewrite (sg_es _ _ _ _ _ _ Hsg) in Hy. apply elem_of_app in Hy as [Hy|Hy].
  - by rewrite (sg_before _ _ _ _ _ _ Hsg y Hy).
  - rewrite (sg_after _ _ _ _ _ _ Hsg y Hy). apply andb_false_r.
Qed.

Lemma sl_rangeby_spec z l t :
  zsl_view z l es ->
  (forall n y, y ∈ es -> score n = y.1 -> ele n = Some y.2 -> t n = Ok (if rev then gte y else lte y)) ->
  sl_rangeby z rev ws t offset limit (first_place l) = Ok (range_answer ws rev offset limit (inside gte lte es)).
Proof.
  intros Hv Ht. pose proof (view_holds _ _ _ Hv) as HR. pose proof (v_rep _ _ _ Hv) as Hrep.
  assert (HR' : Forall2 (fun a y => sl_holds z a y /\ y ∈ es) l es).
  { apply Forall2_same_length_lookup. split; [by eapply Forall2_length|]. intros i a y Ha Hy. split; [|by eapply list_elem_of_lookup_2].
    by eapply Forall2_lookup_lr. }
  unfold sl_rangeby. destruct (first_place l) as [a|] eqn:Ea.
  2: { by rewrite (range_none _ rev gte lte l es HR Hg Hl Ea). }
  rewrite answer_some by (by eapply first_inside). destruct (range_path _ rev gte lte l es a HR' Hg Hl Ea) as (pre & path & rest & El & Eh & HP & Hin & Hout).
  assert (Hw : walks (sl_move z rev) id path).
  { apply (walks_suffix _ _ pre). rewrite <- El. destruct rev; [by apply sl_walks_backward|by apply sl_walks_forward]. }
  assert (Hlen : (length path < S (Z.to_nat (zlength z)))%nat).
  { rewrite (r_len _ _ Hrep), Nat2Z.id. apply (f_equal length) in El. rewrite length_app, length_oriented in El. lia. }
  rewrite <- Eh, (sl_skip_spec z rev path Hw) by done. cbn [mbind res_bind].
  destruct (zdrop_path _ _ _ _ offset HP) as (pre' & rest' & Ep & HP' & Hrest & Hys).
  rewrite (sl_emit_spec z rev (zdrop offset path)) with (p := fun y => if rev then gte y else lte y) (ys := zdrop offset (oriented rev (inside gte lte es))) (rest := rest').
  - done.
  - rewrite Ep in Hw. by eapply walks_suffix.
  - eapply Forall2_impl; [exact HP'|]. by intros ? ? [? _].
  - intros n y Hy. apply Ht. apply list_elem_of_lookup in Hy as [i Hy].
    destruct (Forall2_lookup_r _ _ _ _ _ HP' Hy) as (b & _ & _ & Hyes). done.
  - intros y Hy. by apply Hin, Hys.
  - intros y Hy. apply Hout, Hrest. by apply head_elem.
  - rewrite Ep, length_app in Hlen. lia.
Qed.

Lemma zl_rangeby_spec t :
  all_back es -> (forall EA y EB, es = EA ++ y :: EB -> t (2 * length EA)%nat = Ok (if rev then gte y else lte y)) ->
  exists items, zl_rangeby (flat es) rev ws t offset limit (first_place (evens es)) = Ok items /\
    wires items = range_answer ws rev offset limit (inside gte lte es).
Proof.
  intros Hb Ht.
  assert (HR : Forall2 (fun a y => zl_holds (flat es) a y /\ t a = Ok (if rev then gte y else lte y)) (evens es) es).
  { pose proof (flat_holds es Hb) as H1. pose proof (evens_entries es (fun a y => t a = Ok (if rev then gte y else lte y)) Ht) as H2.
    apply Forall2_same_length_lookup. split; [by eapply Forall2_length|]. intros i a y Ha Hy.
    split; [exact (Forall2_lookup_lr _ _ _ _ _ _ H1 Ha Hy)|exact (Forall2_lookup_lr _ _ _ _ _ _ H2 Ha Hy)]. }
  unfold zl_rangeby. destruct (first_place (evens es)) as [a|] eqn:Ea.
  2: { exists None. by rewrite (range_none _ rev gte lte _ es HR Hg Hl Ea). }
  rewrite answer_some by (by eapply first_inside). destruct (range_path _ rev gte lte _ es a HR Hg Hl Ea) as (pre & path & rest & El & Eh & HP & Hin & Hout).
  assert (Hw : walks (fun e => zl_move (flat es) rev e (Some (S e))) zl_at path).
  { apply (walks_suffix _ _ pre). rewrite <- El. destruct rev; [apply zl_walks_backward|apply zl_walks_forward]. }
  assert (Hlen : (length path < S (length (flat es)))%nat).
  { rewrite flat_length. apply (f_equal length) in El. rewrite length_app, length_oriented in El.
    unfold evens in El. rewrite length_fmap, length_seq in El. lia. }
  assert (Hnx : ziplistNext (flat es) a = S <$> head path).
  { rewrite Eh. assert (Ha : a ∈ evens es).
    { apply (elem_of_oriented rev). rewrite El. apply elem_of_app. right. by apply head_elem. }
    apply list_elem_of_fmap in Ha as (i & -> & [_ Hi]%elem_of_seq). unfold ziplistNext. rewrite flat_length, decide_True by lia. done. }
  rewrite Hnx, <- Eh, (zl_skip_spec (flat es) rev path Hw) by done. cbn [mbind res_bind zl_at].
  destruct (zdrop_path _ _ _ _ offset HP) as (pre' & rest' & Ep & HP' & Hrest & Hys).
  destruct (zl_emit_spec (flat es) rev (zdrop offset path)) with (ws := ws) (t := t) (p := fun y => if rev then gte y else lte y)
    (ys := zdrop offset (oriented rev (inside gte lte es))) (rest := rest') (fuel := S (length (flat es))) (limit := limit) as (items & -> & Hi).
  - rewrite Ep in Hw. by eapply walks_suffix.
  - eapply Forall2_impl; [exact HP'|]. by intros ? ? [? _].
  - eapply Forall2_impl; [exact HP'|]. by intros ? ? [_ ?].
  - intros y Hy. by apply Hin, Hys.
  - intros y Hy. apply Hout, Hrest. by apply head_elem.
  - rewrite Ep, length_app in Hlen. lia.
  - cbn [mbind res_bind]. exists (Some items). split; [done|]. cbn [wires fmap option_fmap option_map]. by rewrite Hi.
Qed.
End RangeBy.

(** ** Counting a range *)

Lemma zl_count_spec zl (t : nat -> res bool) (p : zentry -> bool) : forall path ys rest fuel c,
  walks (fun e => zl_move zl false e (Some (S e))) zl_at path ->
  Forall2 (fun a y => t a = Ok (p y)) path (ys ++ rest) ->
  (forall y, y ∈ ys -> p y = true) -> (forall y, y ∈ rest -> p y = false) -> (length path < fuel)%nat ->
  zl_count fuel zl t (head path) (S <$> head path) c = Ok (c + Z.of_nat (length ys)).
Proof.
  induction path as [|a pth IH]; intros ys rest fuel c Hp Ht Hin Hout Hf; (destruct fuel as [|fuel]; [simpl in Hf; lia|]);
    cbn [zl_count head].
  { apply Forall2_nil_inv_l, app_eq_nil in Ht as [-> _]. f_equal. simpl. lia. }
  destruct ys as [|y ys]; cbn [app] in Ht.
  - apply Forall2_cons_inv_l in Ht as (y & rest' & Ht & _ & ->). rewrite Ht, Hout by (by left). cbn [mbind res_bind length].
    f_equal. lia.
  - apply Forall2_cons in Ht as [Hty Ht]. rewrite Hty, Hin by (by left). cbn [mbind res_bind fmap option_fmap option_map].
    rewrite (Hp [] a pth eq_refl). cbn [mbind res_bind zl_at]. rewrite (IH ys rest).
    + f_equal. cbn [length]. lia.
    + by eapply walks_tail.
    + done.
    + intros w Hm. apply Hin. by right.
    + done.
    + simpl in Hf. lia.
Qed.

Section Counts.
Context (es : list zentry) (gte lte : zentry -> bool).
Hypothesis Hg : rises gte es.
Hypothesis Hl : falls lte es.

Lemma zl_count_from_spec t :
  (forall EA y EB, es = EA ++ y :: EB -> t (2 * length EA)%nat = Ok (lte y)) ->
  zl_count_from (flat es) t (head (places_in gte lte (evens es) es)) = Ok (Z.of_nat (length (inside gte lte es))).
Proof.
  intros Ht. pose proof (evens_entries es (fun a y => t a = Ok (lte y)) Ht) as HR.
  unfold zl_count_from. destruct (head (places_in gte lte (evens es) es)) as [a|] eqn:Ea.
  2: { by rewrite (range_none _ false gte lte _ es HR Hg Hl Ea). }
  destruct (range_path _ false gte lte _ es a HR Hg Hl Ea) as (pre & path & rest & El & Eh & HP & Hin & Hout). cbn [oriented] in *.
  assert (Hw : walks (fun e => zl_move (flat es) false e (Some (S e))) zl_at path).
  { apply (walks_suffix _ _ pre). rewrite <- El. apply zl_walks_forward. }
  assert (Hta : t a = Ok true).
  { pose proof (first_inside es gte lte false Hg Hl _ _ a HR Ea) as Hne.
    destruct path as [|b path]; [done|]. injection Eh as ->. destruct (inside gte lte es) as [|y ys]; [done|].
    apply Forall2_cons in HP as [-> _]. f_equal. apply Hin. by left. }
  assert (Hnx : ziplistNext (flat es) a = S <$> head path).
  { rewrite Eh. assert (Ha : a ∈ evens es) by (rewrite El; apply elem_of_app; right; by apply head_elem).
    apply list_elem_of_fmap in Ha as (i & -> & [_ Hi]%elem_of_seq). unfold ziplistNext. rewrite flat_length, decide_True by lia. done. }
  rewrite Hta, Hnx, <- Eh. cbn [mbind res_bind]. rewrite (zl_count_spec _ t lte path (inside gte lte es) rest); try done.
  apply (f_equal length) in El. unfold evens in El. rewrite length_app, length_fmap, length_seq in El. rewrite flat_length. lia.
Qed.

Lemma node_rank_view z l EA y EB a :
  zsl_view z l (EA ++ y :: EB) -> l !! length EA = Some a -> node_rank z a = Ok (Z.of_nat (length EA) + 1).
Proof.
  intros Hv Ha. destruct (view_node z l _ (length EA) y Hv) as (b & n & Hb & Hn & Hs & He).
  { by rewrite list_lookup_middle. }
  assert (b = a) as -> by congruence. unfold node_rank, ele_of. rewrite Hn. cbn [mbind res_bind]. rewrite He, Hs.
  cbn [of_option mbind res_bind]. by apply (zslGetRank_view z l EA EB y).
Qed.

Lemma sl_count_spec z l :
  zsl_view z l es ->
  sl_count z (head (places_in gte lte l es)) (Ok (last (places_in gte lte l es))) = Ok (Z.of_nat (length (inside gte lte es))).
Proof.
  intros Hv. destruct (segment_low _ _ _ Hg Hl) as (EA & EM & EB & Hsg & _).
  rewrite (seg_inside _ _ _ _ _ _ Hsg). pose proof (sg_es _ _ _ _ _ _ Hsg) as Ees.
  pose proof (v_entries _ _ _ Hv) as He. rewrite Ees in He.
  apply Forall2_app_inv_r in He as (A & R & HA & HR & ->). apply Forall2_app_inv_r in HR as (M & B & HM & HB & ->).
  rewrite (seg_places _ _ _ _ _ _ Hsg A M B) by (by eapply Forall2_length).
  pose proof (Forall2_length _ _ _ HA) as HlA. pose proof (Forall2_length _ _ _ HM) as HlM. pose proof (Forall2_length _ _ _ HB) as HlB.
  destruct HM as [|a y M EM Hy HM]; [done|]. cbn [sl_count head].
  rewrite Ees in Hv. cbn [app] in Hv. rewrite (node_rank_view _ _ _ _ _ a Hv).
  2: { rewrite <- HlA. by rewrite list_lookup_middle. }
  cbn [mbind res_bind]. assert (exists b, last (a :: M) = Some b) as [b Eb].
  { destruct (last (a :: M)) eqn:E; [eauto|by apply last_None in E]. }
  rewrite Eb. destruct (exists_last (l := y :: EM)) as (EM' & w & E); [done|].
  rewrite (node_rank_view z (A ++ a :: M ++ B) (EA ++ EM') w EB b).
  - cbn [mbind res_bind]. rewrite (r_len _ _ (v_rep _ _ _ Hv)). f_equal. rewrite !length_app. cbn [app length].
    apply (f_equal length) in E. cbn [length] in E, HlM. rewrite length_app in E. cbn [length] in E. rewrite length_app. lia.
  - rewrite <- app_assoc. cbn [app]. change (w :: EB) with ([w] ++ EB). rewrite (app_assoc EM' [w] EB), <- E. done.
  - rewrite last_lookup in Eb. rewrite length_app, <- HlA. rewrite lookup_app_r by lia.
    replace (length A + length EM' - length A)%nat with (length EM') by lia.
    apply (f_equal length) in E. cbn [length] in E, HlM. rewrite length_app in E. cbn [length] in E.
    change (a :: M ++ B) with ((a :: M) ++ B). apply lookup_app_l_Some. rewrite <- Eb. f_equal. cbn [length]. lia.
Qed.
End Counts.

(** ** The selections on objects of either encoding *)

Lemma wire_items ws y : wire <$> entry_items ws y = entry_items ws y.
Proof. by destruct ws. Qed.

Lemma wire_concat ws ys : wire <$> concat (entry_items ws <$> ys) = concat (entry_items ws <$> ys).
Proof. induction ys as [|y ys IH]; [done|]. cbn [fmap list_fmap concat]. rewrite fmap_app, wire_items. f_equal. exact IH. Qed.

Lemma length_concat_items ws ys : length (concat (entry_items ws <$> ys)) = ((if ws then 2 else 1) * length ys)%nat.
Proof.
  induction ys as [|y ys IH]; [by destruct ws|]. cbn [fmap list_fmap concat length]. rewrite length_app.
  etrans; [apply f_equal, IH|]. destruct ws; simpl; lia.
Qed.

Lemma wires_answer ws rev offset limit ys : wires (range_answer ws rev offset limit ys) = range_answer ws rev offset limit ys.
Proof.
  unfold range_answer, wires. destruct ys as [|y ys]; [done|]. cbn [fmap option_fmap option_map]. by rewrite wire_concat.
Qed.

Section Objects.
Context (z : zobj) (es : list zentry).
Hypothesis Hz : zview z es.

Lemma zcount_of_view r :
  range_num r -> zcount_of z r = Ok (Z.of_nat (length (inside (score_gte r) (score_lte r) es))).
Proof.
  intros Hr. destruct z as [zl|d zsl].
  - destruct Hz as (-> & Ho & Hb). cbn [zcount_of]. rewrite zzlFirstInRange_flat by done. cbn [mbind res_bind].
    apply zl_count_from_spec; [by apply score_rises|by apply score_falls|]. intros EA y EB E. exact (at_score_es es Hb _ EA y EB E).
  - destruct Hz as (l & Hv & _). pose proof (v_ordered _ _ _ Hv) as Ho. cbn [zcount_of].
    rewrite (zslFirstInRange_view _ _ _ _ Hv Hr), (zslLastInRange_view _ _ _ _ Hv Hr). cbn [mbind res_bind].
    apply sl_count_spec; [by apply score_rises|by apply score_falls|done].
Qed.

Lemma zlexcount_of_view r :
  one_score es -> zlexcount_of z r = Ok (Z.of_nat (length (inside (lex_gte r) (lex_lte r) es))).
Proof.
  intros H1. destruct z as [zl|d zsl].
  - destruct Hz as (-> & Ho & Hb). cbn [zlexcount_of]. rewrite zzlFirstInLexRange_flat by done. cbn [mbind res_bind].
    apply zl_count_from_spec; [by apply lex_rises|by apply lex_falls|]. intros EA y EB ->. apply lex_lte_flat.
  - destruct Hz as (l & Hv & _). pose proof (v_ordered _ _ _ Hv) as Ho. cbn [zlexcount_of].
    rewrite (zslFirstInLexRange_view _ _ _ H1 _ Hv), (zslLastInLexRange_view _ _ _ H1 _ Hv). cbn [mbind res_bind].
    apply sl_count_spec; [by apply lex_rises|by apply lex_falls|done].
Qed.

Lemma zrangebyscore_items_view r rev ws offset limit :
  range_num r ->
  exists items, zrangebyscore_items z r rev ws offset limit = Ok items /\
    wires items = range_answer ws rev offset limit (inside (score_gte r) (score_lte r) es).
Proof.
  intros Hr. destruct z as [zl|d zsl].
  - destruct Hz as (-> & Ho & Hb). cbn [zrangebyscore_items]. rewrite zzlLastInRange_flat, zzlFirstInRange_flat by done.
    pose proof (zl_rangeby_spec es (score_gte r) (score_lte r) rev ws offset limit ltac:(by apply score_rises) ltac:(by apply score_falls)
      (at_score (flat es) (fun v => if rev then zslValueGteMin v r else zslValueLteMax v r)) Hb) as H.
    unfold first_place in H. destruct rev; cbn [mbind res_bind]; apply H; intros EA y EB E; exact (at_score_es es Hb _ EA y EB E).
  - destruct Hz as (l & Hv & _). pose proof (v_ordered _ _ _ Hv) as Ho. cbn [zrangebyscore_items].
    rewrite (zslFirstInRange_view _ _ _ _ Hv Hr), (zslLastInRange_view _ _ _ _ Hv Hr).
    exists (range_answer ws rev offset limit (inside (score_gte r) (score_lte r) es)). split; [|apply wires_answer].
    pose proof (sl_rangeby_spec es (score_gte r) (score_lte r) rev ws offset limit ltac:(by apply score_rises) ltac:(by apply score_falls) zsl l
      (on_score (fun v => if rev then zslValueGteMin v r else zslValueLteMax v r)) Hv) as H. unfold first_place in H.
    destruct rev; cbn [mbind res_bind]; apply H; intros n y _ Hs _; unfold on_score; by rewrite Hs.
Qed.

Lemma zrangebylex_items_view r rev offset limit :
  one_score es ->
  exists items, zrangebylex_items z r rev offset limit = Ok items /\
    wires items = range_answer false rev offset limit (inside (lex_gte r) (lex_lte r) es).
Proof.
  intros H1. destruct z as [zl|d zsl].
  - destruct Hz as (-> & Ho & Hb). cbn [zrangebylex_items]. rewrite zzlLastInLexRange_flat, zzlFirstInLexRange_flat by done.
    pose proof (zl_rangeby_spec es (lex_gte r) (lex_lte r) rev false offset limit ltac:(by apply lex_rises) ltac:(by apply lex_falls)
      (fun e => if rev then zzlLexValueGteMin (flat es) e r else zzlLexValueLteMax (flat es) e r) Hb) as H.
    unfold first_place in H. destruct rev; cbn [mbind res_bind]; apply H; intros EA y EB ->; [apply lex_gte_flat|apply lex_lte_flat].
  - destruct Hz as (l & Hv & _). pose proof (v_ordered _ _ _ Hv) as Ho. cbn [zrangebylex_items].
    rewrite (zslFirstInLexRange_view _ _ _ H1 _ Hv), (zslLastInLexRange_view _ _ _ H1 _ Hv).
    exists (range_answer false rev offset limit (inside (lex_gte r) (lex_lte r) es)). split; [|apply wires_answer].
    pose proof (sl_rangeby_spec es (lex_gte r) (lex_lte r) rev false offset limit ltac:(by apply lex_rises) ltac:(by apply lex_falls) zsl l
      (on_ele (fun v => if rev then zslLexValueGteMin v r else zslLexValueLteMax v r)) Hv) as H. unfold first_place in H.
    destruct rev; cbn [mbind res_bind]; apply H; intros n y _ _ He; exact (on_ele_entry _ n y He).
Qed.
End Objects.

(** ** Deleting a range from an object of either encoding *)

Lemma zordered_sublist es es' : es' `sublist_of` es -> zordered es -> zordered es'.
Proof.
  intros Hs [H1 H2 H3]. split.
  - rewrite Forall_forall in *. intros y Hy. apply H1. by apply (sublist_subseteq _ _ Hs).
  - unfold sorted_entries in *. clear H1 H3. induction Hs as [|y es' es Hs IH|y es' es Hs IH]; [done|..];
      apply StronglySorted_inv in H2 as [H2 Hall]; [|auto]. constructor; [auto|].
    rewrite Forall_forall in *. intros w Hw. apply Hall. by apply (sublist_subseteq _ _ Hs).
  - eapply sublist_NoDup; [exact H3|]. by apply fmap_sublist.
Qed.

Lemma flat_view_sublist es es' : es' `sublist_of` es -> zview (ZZiplist (flat es)) es -> zview (ZZiplist (flat es')) es'.
Proof.
  intros Hs (_ & Ho & Hb). split_and!; [done|by eapply zordered_sublist|].
  unfold all_back in *. rewrite Forall_forall in *. intros y Hy. apply Hb. by apply (sublist_subseteq _ _ Hs).
Qed.

(** The entries a range selects, and those it leaves. *)
Definition selected (a : zrange_arg) (es : list zentry) : list zentry * list zentry :=
  match a with
  | ByRank start end_ => (ranks_in (start + 1) (end_ + 1) es, ranks_out (start + 1) (end_ + 1) es)
  | ByScore r => (inside (score_gte r) (score_lte r) es, outside (score_gte r) (score_lte r) es)
  | ByLex r => (inside (lex_gte r) (lex_lte r) es, outside (lex_gte r) (lex_lte r) es)
  end.

Definition selectable (a : zrange_arg) (es : list zentry) : Prop :=
  match a with
  | ByRank start end_ => 0 <= start <= end_ /\ end_ < Z.of_nat (length es)
  | ByScore r => range_num r
  | ByLex _ => one_score es
  end.

Lemma selected_sublist a es : (selected a es).2 `sublist_of` es.
Proof.
  destruct a as [start end_|r|r]; [|apply sublist_filter..]. cbn [selected snd]. unfold ranks_out.
  set (k := rank_from (start + 1)). set (m := Z.to_nat _).
  assert (H : take k es ++ drop m (drop k es) `sublist_of` take k es ++ drop k es)
    by (apply sublist_app; [done|apply sublist_drop]). by rewrite take_drop in H.
Qed.

Lemma zremrange_delete_view z es a :
  zview z es -> selectable a es -> 2 * Z.of_nat (length es) < 2 ^ 31 ->
  exists z', zremrange_delete z a = Ok (z', Z.of_nat (length (selected a es).1)) /\ zview z' (selected a es).2.
Proof.
  intros Hz Ha Hlen. pose proof (selected_sublist a es) as Hsub. destruct z as [zl|d zsl]; cbn [zremrange_delete].
  - pose proof Hz as Hz'. destruct Hz' as (-> & Ho & Hb). exists (ZZiplist (flat (selected a es).2)).
    split; [|by eapply flat_view_sublist]. destruct a as [start end_|r|r]; cbn [selected selectable fst snd] in *.
    + rewrite !u32_id by lia. rewrite zzlDeleteRangeByRank_flat by lia. done.
    + by rewrite zzlDeleteRangeByScore_flat.
    + by rewrite zzlDeleteRangeByLex_flat.
  - assert (exists d' z', (match a with
        | ByRank start end_ => zslDeleteRangeByRank zsl (u32 (start + 1)) (u32 (end_ + 1)) d
        | ByScore r => zslDeleteRangeByScore zsl r d
        | ByLex r => zslDeleteRangeByLex zsl r d
        end) = Ok (Z.of_nat (length (selected a es).1), d', z') /\ sk_view d' z' (selected a es).2) as (d' & z' & -> & Hv').
    { destruct a as [start end_|r|r]; cbn [selected selectable fst snd] in *.
      - rewrite !u32_id by lia. apply delete_ranks_spec; [done|lia].
      - by apply zslDeleteRangeByScore_view.
      - by apply zslDeleteRangeByLex_view. }
    cbn [mbind res_bind]. eexists. split; [done|exact Hv'].
Qed.

Lemma zset_emptied_view z es : zview z es -> zset_emptied z = bool_decide (es = []).
Proof.
  intros Hz. destruct z as [zl|d zsl]; cbn [zset_emptied].
  - pose proof (zsetLength_view _ _ Hz) as Hl. cbn [zsetLength] in Hl. rewrite Hl. destruct es as [|y es]; [done|].
    rewrite bool_decide_false by done. apply Z.eqb_neq. simpl. lia.
  - destruct Hz as (l & Hv & Hd). apply bool_decide_ext. rewrite map_size_empty_iff. split.
    + intros ->. destruct es as [|y es]; [done|]. destruct (entry_node _ _ _ y Hv ltac:(by left)) as (a & Ha & Hda).
      assert ((∅ : gmap string nat) !! y.2 = Some a) by (apply Hd; eauto). done.
    + intros ->. pose proof (view_length _ _ _ Hv) as Hl. destruct l; [|done]. apply map_empty. intros e.
      destruct (d !! e) as [a|] eqn:E; [|done]. by apply Hd in E as [?%elem_of_nil _].
Qed.

(** ** Commands *)

Section Commands.
Context {E : Type}.
Notation M := (M E).
Implicit Types w : world E.

(** The world after some replies. *)
Definition said w (rs : list reply) : world E :=
  mkWorld (srv w) (mkClient (argv (cli w)) (rargv (cli w)) (is_replica (cli w)) (replica_message (cli w)) (out (cli w) ++ rs))
    (capacity w).

(** A client that is not a link to a replica. *)
Definition listens w : Prop := prepareClientToWrite (cli w) = true.

Lemma said_said w a b : said (said w a) b = said w (a ++ b).
Proof. unfold said. cbn. by rewrite app_assoc. Qed.

Lemma said_nil w : said w [] = w.
Proof. unfold said. rewrite app_nil_r. by destruct w as [s []]. Qed.

Lemma wp_say r w (Q : option unit -> world E -> Prop) : listens w -> Q (Some tt) (said w [r]) -> wp (addReply r) w Q.
Proof. intros Hc HQ. apply wp_addReply. unfold listens in Hc. by rewrite Hc. Qed.

Lemma wp_say_all rs w (Q : option unit -> world E -> Prop) : listens w -> Q (Some tt) (said w rs) -> wp (reply_all rs) w Q.
Proof.
  unfold reply_all. revert w. induction rs as [|r rs IH]; intros w Hc HQ; cbn [for_each].
  { apply wp_skip. by rewrite said_nil in HQ. }
  apply wp_bind, wp_say; [done|]. apply IH; [done|]. by rewrite said_said.
Qed.

(** Running a command step by step. *)
Lemma run_bind {A B} (m : M A) (f : A -> M B) w a w' : m w = Ok (Some a, w') -> mbind f m w = f a w'.
Proof. intros H. unfold mbind, M_bind. by rewrite H. Qed.

Lemma crash_bind {A B} (m : M A) (f : A -> M B) w c : m w = Crash c -> mbind f m w = Crash c.
Proof. intros H. unfold mbind, M_bind. by rewrite H. Qed.

Lemma wp_say_return {A} r w (Q : option A -> world E -> Prop) :
  listens w -> Q None (said w [r]) -> wp (_ ← addReply r; return_) w Q.
Proof. intros Hc HQ. apply wp_bind, wp_say; [done|]. by apply wp_return. Qed.

Lemma wp_zset_read key r z w (Q : option zobj -> world E -> Prop) :
  db (srv w) !! key = Some (OZset z) -> Q (Some z) w -> wp (zset_at lookupKeyReadOrReply key r) w Q.
Proof.
  intros Hk HQ. unfold zset_at, lookupKeyReadOrReply, lookupKeyRead. apply wp_bind, wp_bind, wp_lookupKey. rewrite Hk.
  wp_steps. unfold checkType. cbn [type_of]. rewrite decide_True by done. wp_steps. done.
Qed.

Lemma wp_zset_write key r z w (Q : option zobj -> world E -> Prop) :
  db (srv w) !! key = Some (OZset z) -> Q (Some z) w -> wp (zset_at lookupKeyWriteOrReply key r) w Q.
Proof.
  intros Hk HQ. unfold zset_at, lookupKeyWriteOrReply, lookupKeyWrite. apply wp_bind, wp_bind, wp_lookupKey. rewrite Hk.
  wp_steps. unfold checkType. cbn [type_of]. rewrite decide_True by done. wp_steps. done.
Qed.

Lemma wp_score_arg i j a b w (Q : option zrangespec -> world E -> Prop) :
  argv (cli w) !! i = Some a -> argv (cli w) !! j = Some b -> listens w ->
  match zslParseRange (ObjSds a) (ObjSds b) with
  | Some r => Q (Some r) w
  | None => Q None (said w [RErr "min or max is not a float"])
  end -> wp (score_arg i j) w Q.
Proof.
  intros Ha Hb Hc HQ. unfold score_arg. apply wp_bind, (wp_argv_at i a); [done|]. apply wp_bind, (wp_argv_at j b); [done|].
  destruct (zslParseRange _ _); [by apply wp_mret|by apply wp_say_return].
Qed.

Lemma wp_lex_arg i j a b w (Q : option zlexrangespec -> world E -> Prop) :
  argv (cli w) !! i = Some a -> argv (cli w) !! j = Some b -> listens w ->
  match zslParseLexRange (ObjSds a) (ObjSds b) with
  | Some r => Q (Some r) w
  | None => Q None (said w [RErr "min or max not valid string range item"])
  end -> wp (lex_arg i j) w Q.
Proof.
  intros Ha Hb Hc HQ. unfold lex_arg. apply wp_bind, (wp_argv_at i a); [done|]. apply wp_bind, (wp_argv_at j b); [done|].
  destruct (zslParseLexRange _ _); [by apply wp_mret|by apply wp_say_return].
Qed.

Lemma wp_long i a w (Q : option Z -> world E -> Prop) :
  argv (cli w) !! i = Some a -> listens w ->
  match getLongLongFromObject a with
  | Some v => Q (Some v) w
  | None => Q None (said w [RErr "value is not an integer or out of range"])
  end -> wp (long_or_return i) w Q.
Proof.
  intros Ha Hc HQ. unfold long_or_return, getLongFromObjectOrReply, getLongLongFromObjectOrReply.
  apply wp_bind, (wp_argv_at i a); [done|]. apply wp_bind. destruct (getLongLongFromObject a); wp_steps; [done|].
  apply wp_say; [done|]. by wp_steps.
Qed.
End Commands.

(** The bounds of a parsed range are numbers. *)
Lemma parse_range_num a b r : zslParseRange (ObjSds a) (ObjSds b) = Some r -> range_num r.
Proof.
  assert (Hw : forall s d, whole_double s = Some d -> isnan d = false).
  { intros s d. unfold whole_double. destruct (strtod s) as [[[v [|c q]] x]|].
    - destruct (isnan v) eqn:Ev; [done|]. by intros [= <-].
    - done.
    - by destruct s; [intros [= <-]|]. }
  assert (Hi : forall s d x, zslParseRangeItem (ObjSds s) = Some (d, x) -> isnan d = false).
  { intros s d x. cbn [zslParseRangeItem]. destruct (cstr s) as [|c q]; [|destruct (code c =? 40)];
      match goal with |- context [whole_double ?t] => destruct (whole_double t) as [v|] eqn:Ev; [|done] end;
      intros [= <- _]; by eapply Hw. }
  unfold zslParseRange. destruct (zslParseRangeItem (ObjSds a)) as [[mn mnx]|] eqn:Ea; [|done].
  destruct (zslParseRangeItem (ObjSds b)) as [[mx mxx]|] eqn:Eb; [|done]. intros [= <-]. split; cbn; by eapply Hi.
Qed.

Lemma sanitize_range llen start end_ s e : sanitize llen start end_ = Some (s, e) -> 0 <= s <= e /\ e < llen.
Proof.
  unfold sanitize. set (s1 := if start <? 0 then llen + start else start).
  set (e1 := if end_ <? 0 then llen + end_ else end_). set (s2 := if s1 <? 0 then 0 else s1).
  assert (0 <= s2) by (unfold s2; destruct (Z.ltb_spec s1 0); lia).
  destruct (Z.ltb_spec e1 s2); [done|]. destruct (Z.leb_spec llen s2); [done|]. cbn [orb]. intros [= <- <-].
  destruct (Z.leb_spec llen e1); lia.
Qed.

(** What ZREMRANGEBY... with these arguments selects and leaves, or the error. *)
Definition remrange_of (t : zrange_type) (a b : string) (es : list zentry) : list zentry * list zentry + reply :=
  match t with
  | ZRANGE_RANK =>
      match getLongLongFromObject a, getLongLongFromObject b with
      | Some start, Some end_ =>
          inl (match sanitize (Z.of_nat (length es)) start end_ with
               | Some (s, e) => selected (ByRank s e) es
               | None => ([], es)
               end)
      | _, _ => inr (RErr "value is not an integer or out of range")
      end
  | ZRANGE_SCORE =>
      match zslParseRange (ObjSds a) (ObjSds b) with
      | Some r => inl (selected (ByScore r) es)
      | None => inr (RErr "min or max is not a float")
      end
  | ZRANGE_LEX =>
      match zslParseLexRange (ObjSds a) (ObjSds b) with
      | Some r => inl (selected (ByLex r) es)
      | None => inr (RErr "min or max not valid string range item")
      end
  end.

Section Properties.
Context {E : Type}.
Implicit Types w : world E.

(** The server with another sorted set, or none, at a key and [n] more changes. *)
Definition with_zset w (key : string) (o : option zobj) (n : Z) : world E :=
  mkWorld (add_dirty_by (set_db (srv w) (partial_alter (fun _ => OZset <$> o) key (db (srv w)))) n) (cli w) (capacity w).

Lemma with_same w key z : db (srv w) !! key = Some (OZset z) -> with_zset w key (Some z) 0 = w.
Proof.
  intros Hk. unfold with_zset, add_dirty_by, set_db. destruct w as [[] c cap]. cbn in *. rewrite Z.add_0_r.
  f_equal. f_equal. apply map_eq. intros k. destruct (decide (k = key)) as [->|Hne].
  - by rewrite lookup_partial_alter_eq.
  - by rewrite lookup_partial_alter_ne.
Qed.

(** The deletion and what follows it. *)
Lemma wp_remove key z es a w (Q : option unit -> world E -> Prop) :
  zview z es -> selectable a es -> 2 * Z.of_nat (length es) < 2 ^ 31 -> listens w ->
  (forall z', zview z' (selected a es).2 ->
     Q (Some tt) (said (with_zset w key (if decide ((selected a es).2 = []) then None else Some z')
                          (Z.of_nat (length (selected a es).1))) [RInt (Z.of_nat (length (selected a es).1))])) ->
  wp ('(z, deleted) ← lift (zremrange_delete z a);
      _ ← (if zset_emptied z then dbDelete key else put_obj key (OZset z));
      _ ← dirty_add deleted;
      addReply (RInt deleted)) w Q.
Proof.
  intros Hz Ha Hlen Hc HQ. destruct (zremrange_delete_view z es a Hz Ha Hlen) as (z' & Ez & Hz'). specialize (HQ z' Hz').
  apply wp_bind. eapply wp_lift; [exact Ez|]. cbv beta iota. rewrite (zset_emptied_view _ _ Hz'). unfold dbDelete, put_obj, dirty_add.
  case_bool_decide as Hn.
  - rewrite decide_True in HQ by done. wp_steps. by apply wp_say.
  - rewrite decide_False in HQ by done. wp_steps. by apply wp_say.
Qed.

(** C22 (refinement): on a key that holds a sorted set of either encoding,
    ZREMRANGEBYRANK, ZREMRANGEBYSCORE and ZREMRANGEBYLEX reply an error and change
    nothing when an end of the range cannot be parsed; otherwise they remove
    exactly the entries the range selects, reply and record how many these are,
    and delete the key when none is left.  A range by element needs entries of
    one score. *)
Theorem zremrange_refines w t cmd key a b z es :
  argv (cli w) = [cmd; key; a; b] -> listens w -> db (srv w) !! key = Some (OZset z) -> zview z es -> es <> [] ->
  2 * Z.of_nat (length es) < 2 ^ 31 -> (t = ZRANGE_LEX -> one_score es) ->
  wp (zremrangeGenericCommand t) w (fun _ w' =>
    match remrange_of t a b es with
    | inr err => w' = said w [err]
    | inl (gone, kept) =>
        exists z', zview z' kept /\
          w' = said (with_zset w key (if decide (kept = []) then None else Some z') (Z.of_nat (length gone)))
                 [RInt (Z.of_nat (length gone))]
    end).
Proof.
  intros Hargs Hc Hk Hz Hne Hlen H1. unfold zremrangeGenericCommand. apply wp_bind, (wp_argv_at 1 key); [by rewrite Hargs|].
  apply wp_bind. unfold remrange_of. destruct t; cbn [zremrange_parse].
  - apply wp_bind, (wp_long 2 a); [by rewrite Hargs|done|]. destruct (getLongLongFromObject a) as [start|]; [|done].
    apply wp_bind, (wp_long 3 b); [by rewrite Hargs|done|]. destruct (getLongLongFromObject b) as [end_|]; [|done].
    wp_steps. apply (wp_zset_write key _ z); [done|]. rewrite (zsetLength_view _ _ Hz).
    destruct (sanitize (Z.of_nat (length es)) start end_) as [[s e]|] eqn:Es.
    + apply wp_bind, wp_mret. apply (wp_remove key z es); [done|by eapply sanitize_range|done|done|].
      intros z' Hz'. destruct (selected _ es) as [gone kept] eqn:Esel. eauto.
    + wp_steps. apply wp_say; [done|]. wp_steps. exists z. split; [done|]. rewrite decide_False by done. by rewrite with_same.
  - apply wp_bind, (wp_score_arg 2 3 a b); [by rewrite Hargs..|done|].
    destruct (zslParseRange _ _) as [r|] eqn:Er; [|done]. wp_steps. apply (wp_zset_write key _ z); [done|]. apply wp_bind, wp_mret.
    apply (wp_remove key z es); [done|by eapply parse_range_num|done|done|]. intros z' Hz'. cbn [selected fst snd] in *. eauto.
  - apply wp_bind, (wp_lex_arg 2 3 a b); [by rewrite Hargs..|done|].
    destruct (zslParseLexRange _ _) as [r|] eqn:Er; [|done]. wp_steps. apply (wp_zset_write key _ z); [done|]. apply wp_bind, wp_mret.
    apply (wp_remove key z es); [done|by apply H1|done|done|]. intros z' Hz'. cbn [selected fst snd] in *. eauto.
Qed.

(** C24 (functional): ZCOUNT replies how many entries have a score in the range,
    and ZLEXCOUNT, on a set whose entries have one score, how many elements are
    between the two ends, in both encodings: the walk along the ziplist and the
    difference of two ranks in the skip list agree. *)
Theorem zcount_counts w cmd key a b z es r lr :
  argv (cli w) = [cmd; key; a; b] -> listens w -> db (srv w) !! key = Some (OZset z) -> zview z es ->
  (zslParseRange (ObjSds a) (ObjSds b) = Some r ->
   wp zcountCommand w (fun _ w' =>
     w' = said w [RInt (Z.of_nat (length (inside (score_gte r) (score_lte r) es)))])) /\
  (zslParseLexRange (ObjSds a) (ObjSds b) = Some lr -> one_score es ->
   wp zlexcountCommand w (fun _ w' =>
     w' = said w [RInt (Z.of_nat (length (inside (lex_gte lr) (lex_lte lr) es)))])).
Proof.
  intros Hargs Hc Hk Hz. split.
  - intros Hr. unfold zcountCommand. apply wp_bind, (wp_argv_at 1 key); [by rewrite Hargs|].
    apply wp_bind, (wp_score_arg 2 3 a b); [by rewrite Hargs..|done|]. rewrite Hr.
    apply wp_bind, (wp_zset_read key _ z); [done|]. apply wp_bind.
    eapply wp_lift; [by apply zcount_of_view; [|eapply parse_range_num]|]. by apply wp_say.
  - intros Hr H1. unfold zlexcountCommand. apply wp_bind, (wp_argv_at 1 key); [by rewrite Hargs|].
    apply wp_bind, (wp_lex_arg 2 3 a b); [by rewrite Hargs..|done|]. rewrite Hr.
    apply wp_bind, (wp_zset_read key _ z); [done|]. apply wp_bind.
    eapply wp_lift; [by apply zlexcount_of_view|]. by apply wp_say.
Qed.

(** ** Range queries *)

(** Options a range query takes; a later one overrides an earlier one. *)
Inductive reads_options (scores : bool) : list string -> bool * Z * Z -> bool * Z * Z -> Prop :=
  | ro_end o : reads_options scores [] o o
  | ro_scores word args ws off lim o :
      scores = true -> is_option word "withscores" = true -> reads_options scores args (true, off, lim) o ->
      reads_options scores (word :: args) (ws, off, lim) o
  | ro_limit word a b args ws off lim off' lim' o :
      is_option word "limit" = true -> getLongLongFromObject a = Some off' -> getLongLongFromObject b = Some lim' ->
      reads_options scores args (ws, off', lim') o -> reads_options scores (word :: a :: b :: args) (ws, off, lim) o.

Lemma limit_not_scores word : is_option word "limit" = true -> is_option word "withscores" = false.
Proof.
  unfold is_option, strcaseeq. rewrite bool_decide_eq_true, bool_decide_eq_false. intros ->. done.
Qed.

Lemma wp_options scores args o o' : reads_options scores args o o' ->
  forall fuel w (Q : option (bool * Z * Z) -> world E -> Prop), (length args <= fuel)%nat -> Q (Some o') w ->
  wp (zrangeby_options fuel scores args o.1.1 o.1.2 o.2) w Q.
Proof.
  induction 1 as [o|word args ws off lim o -> Hw Ho IH|word a b args ws off lim off' lim' o Hw Ha Hb Ho IH]; intros fuel w Q Hf HQ;
    (destruct fuel as [|fuel]; [try (simpl in Hf; lia)|]); cbn [zrangeby_options fst snd] in *.
  - apply wp_mret. by destruct o as [[ws off] lim].
  - apply wp_mret. by destruct o as [[ws off] lim].
  - rewrite Hw. cbn [andb]. apply IH; [simpl in Hf; lia|done].
  - rewrite (limit_not_scores _ Hw), andb_false_r, Hw. unfold getLongFromObjectOrReply, getLongLongFromObjectOrReply. rewrite Ha, Hb.
    wp_steps. apply IH; [simpl in Hf; lia|done].
Qed.

Definition range_replies (ws rev : bool) (offset limit : Z) (ys : list zentry) : list reply :=
  match range_answer ws rev offset limit ys with
  | None => [REmptyArray]
  | Some l => RArray (Z.of_nat (length l)) :: l
  end.

Lemma wp_reply_items items w (Q : option unit -> world E -> Prop) ws rev off lim ys :
  listens w -> wires items = range_answer ws rev off lim ys ->
  (forall rs, wire <$> rs = range_replies ws rev off lim ys -> Q (Some tt) (said w rs)) -> wp (reply_items items) w Q.
Proof.
  intros Hc Hi HQ. unfold reply_items. unfold range_replies in HQ. rewrite <- Hi in HQ. destruct items as [l|].
  - apply wp_say_all; [done|]. apply HQ. cbn [wires fmap option_fmap option_map list_fmap wire]. by rewrite length_fmap.
  - apply wp_say; [done|]. by apply HQ.
Qed.

(** C23 (functional): ZRANGEBYSCORE and ZREVRANGEBYSCORE reply the entries whose
    scores are in the range, from the lower or from the upper end, after the
    offset and up to the limit, with their scores if asked for; ZRANGEBYLEX and
    ZREVRANGEBYLEX do the same for the elements of a set of one score.  The
    server does not change, and both encodings put the same bytes on the wire. *)
Theorem zrangeby_lists w (rev : bool) cmd key a b opts z es r lr ws off lim :
  argv (cli w) = cmd :: key :: a :: b :: opts -> listens w -> db (srv w) !! key = Some (OZset z) -> zview z es ->
  (zslParseRange (ObjSds (if rev then b else a)) (ObjSds (if rev then a else b)) = Some r ->
   reads_options true opts (false, 0, -1) (ws, off, lim) ->
   wp (genericZrangebyscoreCommand rev) w (fun _ w' => exists rs, w' = said w rs /\
     wire <$> rs = range_replies ws rev off lim (inside (score_gte r) (score_lte r) es))) /\
  (zslParseLexRange (ObjSds (if rev then b else a)) (ObjSds (if rev then a else b)) = Some lr -> one_score es ->
   reads_options false opts (false, 0, -1) (ws, off, lim) ->
   wp (genericZrangebylexCommand rev) w (fun _ w' => exists rs, w' = said w rs /\
     wire <$> rs = range_replies false rev off lim (inside (lex_gte lr) (lex_lte lr) es))).
Proof.
  intros Hargs Hc Hk Hz. split.
  - intros Hr Ho. unfold genericZrangebyscoreCommand. apply wp_bind, (wp_argv_at 1 key); [by rewrite Hargs|].
    assert (Hs : forall Q : option zrangespec -> world E -> Prop, Q (Some r) w -> wp (if rev then score_arg 3 2 else score_arg 2 3) w Q).
    { intros Q HQ. destruct rev; [apply (wp_score_arg 3 2 b a)|apply (wp_score_arg 2 3 a b)]; rewrite ?Hargs; try done; by rewrite Hr. }
    apply wp_bind, Hs. apply wp_bind, wp_get_cli. rewrite Hargs. cbn [drop]. apply wp_bind.
    apply (wp_options true opts (false, 0, -1) (ws, off, lim) Ho); [simpl; lia|]. apply wp_bind, (wp_zset_read key _ z); [done|].
    destruct (zrangebyscore_items_view z es Hz r rev ws off lim (parse_range_num _ _ _ Hr)) as (items & Ei & Hi).
    apply wp_bind. eapply wp_lift; [exact Ei|]. eapply wp_reply_items; [done|exact Hi|]. eauto.
  - intros Hr H1 Ho. unfold genericZrangebylexCommand. apply wp_bind, (wp_argv_at 1 key); [by rewrite Hargs|].
    assert (Hs : forall Q : option zlexrangespec -> world E -> Prop, Q (Some lr) w -> wp (if rev then lex_arg 3 2 else lex_arg 2 3) w Q).
    { intros Q HQ. destruct rev; [apply (wp_lex_arg 3 2 b a)|apply (wp_lex_arg 2 3 a b)]; rewrite ?Hargs; try done; by rewrite Hr. }
    apply wp_bind, Hs. apply wp_bind, wp_get_cli. rewrite Hargs. cbn [drop]. apply wp_bind.
    apply (wp_options false opts (false, 0, -1) (ws, off, lim) Ho); [simpl; lia|]. apply wp_bind, (wp_zset_read key _ z); [done|].
    destruct (zrangebylex_items_view z es Hz lr rev off lim H1) as (items & Ei & Hi).
    apply wp_bind. eapply wp_lift; [exact Ei|]. eapply wp_reply_items; [done|exact Hi|]. eauto.
Qed.

(** ** ZRANGE and ZREVRANGE *)

Lemma zrange_zl_spec zl rev ws : forall n path ys,
  walks (fun e => zl_move zl rev e (Some (S e))) zl_at path -> Forall2 (zl_holds zl) path ys -> (n <= length ys)%nat ->
  exists items, zrange_zl n zl rev ws (head path) (S <$> head path) = Ok items /\
    wire <$> items = concat (entry_items ws <$> take n ys).
Proof.
  induction n as [|n IH]; intros path ys Hw HR Hn; [by exists []|].
  destruct HR as [|a y path ys Hy HR]; [simpl in Hn; lia|]. cbn [zrange_zl head fmap option_fmap option_map assert_ptr of_option mbind res_bind].
  destruct (zl_item_spec zl a y ws Hy) as (i & -> & Hi). cbn [mbind res_bind]. rewrite (Hw [] a path eq_refl). cbn [mbind res_bind zl_at].
  destruct (IH path ys (walks_tail _ _ _ _ Hw) HR) as (items & -> & Hitems); [simpl in Hn; lia|].
  cbn [mbind res_bind]. eexists. split; [done|]. by rewrite fmap_app, Hi, Hitems.
Qed.

Lemma zrange_sl_spec z rev ws : forall n path ys,
  walks (sl_move z rev) id path -> Forall2 (sl_holds z) path ys -> (n <= length ys)%nat ->
  zrange_sl n z rev ws (head path) = Ok (concat (entry_items ws <$> take n ys)).
Proof.
  induction n as [|n IH]; intros path ys Hw HR Hn; [done|].
  destruct HR as [|a y path ys Hy HR]; [simpl in Hn; lia|]. cbn [zrange_sl head assert_ptr of_option mbind res_bind].
  rewrite (sl_item_spec z a y ws Hy). cbn [mbind res_bind]. rewrite (Hw [] a path eq_refl). cbn [mbind res_bind id].
  rewrite (IH path ys (walks_tail _ _ _ _ Hw) HR); [done|simpl in Hn; lia].
Qed.

Lemma oriented_lookup {A} (rev : bool) (l : list A) i :
  (i < length l)%nat -> oriented rev l !! i = l !! (if rev then (length l - S i)%nat else i).
Proof. intros Hi. destruct rev; [by apply reverse_lookup|done]. Qed.

(** The place the listing starts at. *)
Lemma zrange_start_zl es (rev : bool) start :
  (start < length es)%nat -> 2 * Z.of_nat (length es) < 2 ^ 31 ->
  ziplistIndex (flat es) (i32 (if rev then -2 - 2 * Z.of_nat start else 2 * Z.of_nat start)) = oriented rev (evens es) !! start.
Proof.
  intros Hs Hlen. assert (He : length (evens es) = length es) by (unfold evens; by rewrite length_fmap, length_seq).
  rewrite oriented_lookup, He by lia. unfold evens. rewrite list_lookup_fmap.
  rewrite i32_id by (unfold int_range, INT_MIN, INT_MAX; destruct rev; lia). destruct rev.
  - rewrite lookup_seq_lt by lia. cbn [fmap option_fmap option_map].
    replace (-2 - 2 * Z.of_nat start) with (- Z.of_nat (S (2 * start + 1))) by lia. apply index_from_back. rewrite flat_length. lia.
  - rewrite lookup_seq_lt by lia. cbn [fmap option_fmap option_map].
    replace (2 * Z.of_nat start) with (Z.of_nat (2 * start)) by lia. rewrite index_in by (rewrite flat_length; lia). done.
Qed.

Lemma zrange_start_sl z l es (rev : bool) start :
  zsl_view z l es -> (start < length es)%nat ->
  (if 0 <? Z.of_nat start then zslGetElementByRank z (if rev then Z.of_nat (length es) - Z.of_nat start else Z.of_nat start + 1)
   else if rev then Ok (tail z) else first_node z) = Ok (oriented rev l !! start).
Proof.
  intros Hv Hs. pose proof (view_length _ _ _ Hv) as Hl. rewrite oriented_lookup by lia. destruct (Z.ltb_spec 0 (Z.of_nat start)).
  - destruct rev.
    + replace (Z.of_nat (length es) - Z.of_nat start) with (Z.of_nat (length es - start)) by lia.
      rewrite (zslGetElementByRank_view z l es) by (done || lia). do 2 f_equal. lia.
    + replace (Z.of_nat start + 1) with (Z.of_nat (S start)) by lia. by rewrite (zslGetElementByRank_view z l es) by (done || lia).
  - assert (start = 0%nat) as -> by lia. pose proof (v_rep _ _ _ Hv) as Hrep. destruct rev.
    + rewrite (r_tail _ _ Hrep), last_lookup. do 2 f_equal. lia.
    + rewrite (first_node_view _ _ Hrep). by rewrite head_lookup.
Qed.

Lemma zrange_items_view z es rev ws start n :
  zview z es -> (start < length es)%nat -> (start + n <= length es)%nat -> 2 * Z.of_nat (length es) < 2 ^ 31 ->
  exists items, zrange_items z rev ws (Z.of_nat start) (Z.of_nat n) (Z.of_nat (length es)) = Ok items /\
    wire <$> items = concat (entry_items ws <$> take n (drop start (oriented rev es))).
Proof.
  intros Hz Hs Hn Hlen. unfold zrange_items. rewrite Nat2Z.id. destruct z as [zl|d zsl].
  - destruct Hz as (-> & Ho & Hb). rewrite zrange_start_zl by done.
    pose proof (Forall2_drop _ _ _ start (Forall2_oriented _ rev _ _ (flat_holds es Hb))) as HR.
    destruct (lookup_lt_is_Some_2 (oriented rev (evens es)) start) as [a Ha].
    { rewrite length_oriented. unfold evens. by rewrite length_fmap, length_seq. }
    rewrite Ha. cbn [assert_ptr of_option mbind res_bind].
    assert (Hh : head (drop start (oriented rev (evens es))) = Some a) by (by rewrite head_lookup, lookup_drop, Nat.add_0_r).
    assert (Hnx : ziplistNext (flat es) a = S <$> Some a).
    { apply list_elem_of_lookup_2, elem_of_oriented, list_elem_of_fmap in Ha as (i & -> & [_ Hi]%elem_of_seq).
      unfold ziplistNext. rewrite flat_length, decide_True by lia. done. }
    rewrite Hnx, <- Hh. apply zrange_zl_spec; [|done|rewrite length_drop, length_oriented; lia].
    apply (walks_suffix _ _ (take start (oriented rev (evens es)))). rewrite take_drop.
    destruct rev; [apply zl_walks_backward|apply zl_walks_forward].
  - destruct Hz as (l & Hv & _). rewrite (zrange_start_sl zsl l es) by done. cbn [mbind res_bind].
    assert (oriented rev l !! start = head (drop start (oriented rev l))) as -> by (by rewrite head_lookup, lookup_drop, Nat.add_0_r).
    eexists. split; [|apply wire_concat].
    apply zrange_sl_spec; [|apply Forall2_drop, Forall2_oriented; by apply view_holds|rewrite length_drop, length_oriented; lia].
    apply (walks_suffix _ _ (take start (oriented rev l))). rewrite take_drop.
    destruct rev; [apply sl_walks_backward|apply sl_walks_forward]; apply Hv.
Qed.

(** ZRANGE and ZREVRANGE reply the entries between the two ranks, which count
    from the end when they are negative, in either direction. *)
Theorem zrange_lists w rev cmd key a b opts z es start end_ ws :
  argv (cli w) = cmd :: key :: a :: b :: opts -> listens w -> db (srv w) !! key = Some (OZset z) -> zview z es ->
  2 * Z.of_nat (length es) < 2 ^ 31 ->
  getLongLongFromObject a = Some start -> getLongLongFromObject b = Some end_ ->
  (opts = [] /\ ws = false \/ exists o, opts = [o] /\ is_option o "withscores" = true /\ ws = true) ->
  wp (zrangeGenericCommand rev) w (fun _ w' => exists rs, w' = said w rs /\
    match sanitize (Z.of_nat (length es)) start end_ with
    | None => rs = [REmptyArray]
    | Some (s, e) =>
        let items := concat (entry_items ws <$> take (Z.to_nat (e - s + 1)) (drop (Z.to_nat s) (oriented rev es))) in
        wire <$> rs = RArray (Z.of_nat (length items)) :: items
    end).
Proof.
  intros Hargs Hc Hk Hz Hlen Ha Hb Ho. unfold zrangeGenericCommand. apply wp_bind, (wp_argv_at 1 key); [by rewrite Hargs|].
  apply wp_bind, (wp_long 2 a); [by rewrite Hargs|done|]. rewrite Ha. apply wp_bind, (wp_long 3 b); [by rewrite Hargs|done|]. rewrite Hb.
  apply wp_bind, wp_get_cli. rewrite Hargs. cbn [drop]. apply wp_bind.
  assert (Hopt : forall Q : option bool -> world E -> Prop, Q (Some ws) w ->
    wp (match opts with
        | [] => mret false
        | [o] => if is_option o "withscores" then mret true else _ ← addReply syntaxerr; return_
        | _ => _ ← addReply syntaxerr; return_
        end) w Q).
  { intros Q HQ. destruct Ho as [[-> ->]|(o & -> & Hs & ->)]; [by apply wp_mret|]. rewrite Hs. by apply wp_mret. }
  apply Hopt. apply wp_bind, (wp_zset_read key _ z); [done|]. rewrite (zsetLength_view _ _ Hz).
  destruct (sanitize (Z.of_nat (length es)) start end_) as [[s e]|] eqn:Es.
  2: { apply wp_say_return; [done|]. eauto. }
  apply sanitize_range in Es. set (n := Z.to_nat (e - s + 1)).
  destruct (zrange_items_view z es rev ws (Z.to_nat s) n Hz) as (items & Ei & Hi); [lia|lia|done|].
  replace (Z.of_nat (Z.to_nat s)) with s in Ei by lia. replace (Z.of_nat n) with (e - s + 1) in Ei by lia.
  apply wp_bind, wp_say; [done|]. apply wp_bind. eapply wp_lift; [exact Ei|]. apply wp_say_all; [done|]. rewrite said_said.
  eexists. split; [done|]. cbn [app fmap list_fmap wire]. rewrite Hi. f_equal. f_equal.
  rewrite length_concat_items, length_take, length_drop, length_oriented. destruct ws; lia.
Qed.

(** ** ZPOPMIN and ZPOPMAX *)

Definition from_max (wh : zset_where) : bool := match wh with ZSET_MAX => true | ZSET_MIN => false end.

Lemma zpop_pick_view z es wh :
  zview z es ->
  zpop_pick z wh = match head (oriented (from_max wh) es) with Some y => Ok (y.2, y.1) | None => Crash AssertFail end.
Proof.
  intros Hz. rewrite head_oriented. destruct z as [zl|d zsl]; cbn [zpop_pick].
  - destruct Hz as (-> & Ho & Hb).
    assert (Hpick : forall i y, es !! i = Some y ->
      (e ← assert_ptr (Some (2 * i)%nat); ele ← ziplistGetObject (flat es) (Some e); s ← assert_ptr (ziplistNext (flat es) e);
       score ← zzlGetScore (flat es) (Some s); Ok (ele, score)) = Ok (y.2, y.1)).
    { intros i y Hy. pose proof (take_drop_middle _ _ _ Hy) as Ees. pose proof (lookup_lt_Some _ _ _ Hy) as Hi.
      assert (Hl : length (take i es) = i) by (rewrite length_take; lia).
      pose proof (get_object_flat (take i es) y (drop (S i) es)) as H1. pose proof (next_score (take i es) y (drop (S i) es)) as H2.
      pose proof (get_score (take i es) y (drop (S i) es)) as H3. rewrite Ees, Hl in H1, H2, H3.
      cbn [assert_ptr of_option mbind res_bind]. rewrite H1. cbn [mbind res_bind]. rewrite H2. cbn [assert_ptr of_option mbind res_bind].
      rewrite H3; [done|]. eapply all_back_elem; [done|]. by eapply list_elem_of_lookup_2. }
    destruct wh; cbn [from_max].
    + rewrite index_first. destruct es as [|y es'] eqn:Ees; [done|]. exact (Hpick 0%nat y eq_refl).
    + rewrite index_last. destruct (last es) as [y|] eqn:Ey.
      * rewrite last_lookup in Ey. pose proof (lookup_lt_Some _ _ _ Ey) as Hi. destruct (length es) as [|k] eqn:El; [lia|].
        exact (Hpick k y Ey).
      * apply last_None in Ey as ->. done.
  - destruct Hz as (l & Hv & _). pose proof (v_rep _ _ _ Hv) as Hrep. rewrite (first_node_view _ _ Hrep), (r_tail _ _ Hrep).
    cbn [mbind res_bind]. pose proof (view_holds _ _ _ Hv) as HR. apply (Forall2_oriented _ (from_max wh)) in HR.
    assert (Hh : match wh with ZSET_MIN => head l | ZSET_MAX => last l end = head (oriented (from_max wh) l)).
    { rewrite head_oriented. by destruct wh. }
    destruct (oriented (from_max wh) l) as [|a p] eqn:El, (oriented (from_max wh) es) as [|y q] eqn:Ees; try (by apply Forall2_nil_inv_l in HR || by apply Forall2_nil_inv_r in HR).
    + assert (Hn : (if from_max wh then last es else head es) = None) by (rewrite <- head_oriented, Ees; done).
      destruct wh; cbn [from_max head] in *; by rewrite Hh, Hn.
    + assert (Hn : (if from_max wh then last es else head es) = Some y) by (rewrite <- head_oriented, Ees; done).
      apply Forall2_cons in HR as [(n & Hnd & Hs & He) _]. unfold ele_of.
      destruct wh; cbn [from_max head] in *; rewrite Hh, Hn; cbn [assert_ptr of_option mbind res_bind]; rewrite Hnd; cbn [mbind res_bind];
        rewrite He; cbn [of_option mbind res_bind]; by rewrite Hs.
Qed.

(** The entries left after [n] were taken from one end. *)
Definition left_after (rev : bool) (n : nat) (es : list zentry) : list zentry := oriented rev (drop n (oriented rev es)).

Lemma oriented_twice {A} rev (l : list A) : oriented rev (oriented rev l) = l.
Proof. destruct rev; [apply reverse_involutive|done]. Qed.

Lemma zremove_oriented rev e es : zremove e (oriented rev es) = oriented rev (zremove e es).
Proof.
  destruct rev; [|done]. unfold zremove. cbn [oriented]. induction es as [|y es IH]; [done|].
  rewrite reverse_cons, filter_app, IH. destruct (decide (y.2 <> e)).
  - rewrite (filter_cons_True _ y es), (filter_cons_True _ y []) by done. by rewrite reverse_cons.
  - rewrite (filter_cons_False _ y es), (filter_cons_False _ y []) by done. apply app_nil_r.
Qed.

Lemma zremove_first rev es y q : zordered es -> oriented rev es = y :: q -> zremove y.2 es = oriented rev q.
Proof.
  intros Ho Eq. rewrite <- (oriented_twice rev es), Eq, zremove_oriented. f_equal. unfold zremove.
  rewrite filter_cons_False by (intros H; by apply H). apply filter_all. intros w Hw He.
  assert (Hnd : NoDup (y :: q).*2).
  { rewrite <- Eq. pose proof (zo_nodup _ Ho) as H. destruct rev; [|done]. cbn [oriented]. by rewrite fmap_reverse, reverse_Permutation. }
  apply NoDup_cons in Hnd as [Hn _]. apply Hn. rewrite <- He. by apply list_elem_of_fmap_2.
Qed.

Lemma with_with w key o1 o2 n m : with_zset (with_zset w key o1 n) key o2 m = with_zset w key o2 (n + m).
Proof.
  unfold with_zset, add_dirty_by, set_db. cbn. f_equal. f_equal; [|lia]. apply map_eq. intros k.
  destruct (decide (k = key)) as [->|Hne]; [by rewrite !lookup_partial_alter_eq|by rewrite !lookup_partial_alter_ne].
Qed.

Lemma wp_zpop_loop key wh : forall fuel z es count out w (Q : option (list reply) -> world E -> Prop),
  zview z es -> es <> [] -> (length es <= fuel)%nat -> 1 <= count ->
  let n := (Z.to_nat count `min` length es)%nat in
  (forall z', zview z' (left_after (from_max wh) n es) ->
     Q (Some (out ++ concat (entry_items true <$> take n (oriented (from_max wh) es))))
       (with_zset w key (if decide (left_after (from_max wh) n es = []) then None else Some z') (Z.of_nat n))) ->
  wp (zpop_loop fuel key wh z count out) w Q.
Proof.
  induction fuel as [|fuel IH]; intros z es count out w Q Hz Hne Hf Hc n HQ; [destruct es; [done|simpl in Hf; lia]|].
  cbn [zpop_loop]. pose proof (zpop_pick_view z es wh Hz) as Hp. set (rev := from_max wh) in *.
  destruct (oriented rev es) as [|y q] eqn:Eq.
  { apply (f_equal length) in Eq. rewrite length_oriented in Eq. by destruct es. }
  apply wp_bind. eapply wp_lift; [exact Hp|]. destruct (zset_del_view z es y.2 Hz) as (z1 & Ed & Hz1).
  rewrite (zremove_first rev es y q (zview_ordered _ _ Hz) Eq) in Hz1.
  rewrite bool_decide_true in Ed.
  2: { apply list_elem_of_fmap_2. apply (elem_of_oriented rev). rewrite Eq. by left. }
  cbv beta iota. apply wp_bind. eapply wp_lift; [exact Ed|]. cbv beta iota. unfold put_obj, dirty_inc. wp_steps.
  rewrite (zsetLength_view _ _ Hz1), length_oriented.
  assert (Hw : mkWorld (add_dirty (set_db (srv w) (<[key:=OZset z1]> (db (srv w))))) (cli w) (capacity w) = with_zset w key (Some z1) 1) by done.
  rewrite Hw. clear Hw.
  assert (Hlen : length es = S (length q)) by (apply (f_equal length) in Eq; by rewrite length_oriented in Eq).
  assert (Hla : forall k, left_after rev (S k) es = oriented rev (drop k q)) by (intros k; unfold left_after; by rewrite Eq).
  destruct (Z.eqb_spec (Z.of_nat (length q)) 0) as [Hq|Hq].
  - assert (q = []) as -> by (destruct q; [done|simpl in Hq; lia]). assert (n = 1%nat) as Hn by (unfold n; cbn [length] in Hlen; lia). rewrite Hn in *.
    rewrite Hla in HQ. cbn [drop oriented] in HQ.
    assert (Hnil : oriented rev (@nil zentry) = []) by (by destruct rev). rewrite Hnil in *. specialize (HQ z1 Hz1). rewrite decide_True in HQ by done.
    unfold dbDelete. wp_steps.
    assert (Hw : mkWorld (set_db (srv (with_zset w key (Some z1) 1)) (delete key (db (srv (with_zset w key (Some z1) 1)))))
                   (cli (with_zset w key (Some z1) 1)) (capacity (with_zset w key (Some z1) 1)) = with_zset w key None 1).
    { trans (with_zset (with_zset w key (Some z1) 1) key None 0); [|by rewrite with_with].
      generalize (with_zset w key (Some z1) 1). intros w0. unfold with_zset, add_dirty_by, set_db. cbn. by rewrite Z.add_0_r. }
    rewrite Hw. exact HQ.
  - assert (Hnq : oriented rev q <> []).
    { intros H. apply Hq. by rewrite <- (length_oriented rev q), H. }
    destruct (Z.eqb_spec count 1) as [->|Hc1].
    + assert (n = 1%nat) as Hn by (unfold n; lia). rewrite Hn in *. rewrite Hla in HQ. cbn [drop] in HQ. specialize (HQ z1 Hz1). rewrite decide_False in HQ.
      * apply wp_mret. exact HQ.
      * exact Hnq.
    + apply (IH z1 (oriented rev q)); [done|done|rewrite length_oriented; lia|lia|]. rewrite length_oriented. fold rev.
      set (m := (Z.to_nat (count - 1) `min` length q)%nat). assert (Hnm : n = S m) by (unfold n, m; lia).
      rewrite Hnm, Hla in HQ. unfold left_after. rewrite oriented_twice. intros z' Hz'. rewrite with_with.
      replace (1 + Z.of_nat m) with (Z.of_nat (S m)) by lia. specialize (HQ z' Hz'). cbn [take fmap list_fmap concat] in HQ.
      by rewrite <- app_assoc.
Qed.

(** ZPOPMIN and ZPOPMAX take as many entries as asked for, or all, from their
    end, reply them with their scores, and delete the key with the last one. *)
Theorem zpop_takes w wh cmd key a z es count :
  argv (cli w) = [cmd; key; a] -> listens w -> db (srv w) !! key = Some (OZset z) -> zview z es -> es <> [] ->
  getLongLongFromObject a = Some count -> 0 < count ->
  let n := (Z.to_nat count `min` length es)%nat in
  let items := concat (entry_items true <$> take n (oriented (from_max wh) es)) in
  wp (zpop_command wh) w (fun _ w' => exists z', zview z' (left_after (from_max wh) n es) /\
    w' = said (with_zset w key (if decide (left_after (from_max wh) n es = []) then None else Some z') (Z.of_nat n))
           (RArray (Z.of_nat (length items)) :: items)).
Proof.
  intros Hargs Hc Hk Hz Hne Ha Hpos n items. unfold zpop_command. apply wp_bind, wp_get_cli. rewrite Hargs.
  rewrite decide_False by (simpl; lia). apply wp_bind, (wp_argv_at 1 key); [by rewrite Hargs|].
  change ([cmd; key; a] !! 2%nat) with (Some a). unfold genericZpopCommand, getLongFromObjectOrReply, getLongLongFromObjectOrReply.
  rewrite Ha. apply wp_bind. wp_steps. rewrite (proj2 (Z.leb_gt count 0)) by done. apply wp_mret. apply wp_bind. cbn [zpop_key].
  apply wp_bind, wp_lookupKey. rewrite Hk. apply wp_bind. unfold checkType. cbn [type_of]. rewrite decide_True by done.
  wp_steps. apply (wp_zpop_loop key wh _ z es count [] w); [done|done| |lia|].
  { rewrite (zsetLength_view _ _ Hz). lia. }
  intros z' Hz'. cbn [app]. apply wp_say_all; [done|]. eauto.
Qed.

(** A set that lost its last element keeps its key: the queues delete elements
    with [zsetDel] and leave the object. *)
Lemma wp_last_removed w key ele z s (Q : option unit -> world E -> Prop) :
  db (srv w) !! key = Some (OZset z) -> zview z [(s, ele)] ->
  (forall z', zview z' [] -> Q (Some tt) (with_zset w key (Some z') 0)) -> wp (run_act key ele ZDel) w Q.
Proof.
  intros Hk Hz HQ. destruct (zset_del_view z _ ele Hz) as (z' & Ed & Hz'). specialize (HQ z').
  unfold run_act, getZsetOrCreate, lookupKeyWrite. apply wp_bind, wp_bind, wp_lookupKey. rewrite Hk. apply wp_mret.
  unfold zset_del. apply wp_bind, wp_lookupKey. rewrite Hk. wp_steps. eapply wp_lift; [exact Ed|]. unfold put_obj. wp_steps. cbn [snd].
  assert (Hw : mkWorld (set_db (srv w) (<[key:=OZset z']> (db (srv w)))) (cli w) (capacity w) = with_zset w key (Some z') 0).
  { unfold with_zset, add_dirty_by, set_db. cbn. by rewrite Z.add_0_r. }
  rewrite Hw. apply HQ. unfold zremove in Hz'. rewrite filter_cons_False in Hz' by (intros H; by apply H). exact Hz'.
Qed.

(** C39 (error): a removal from a queue that takes the last element out of its
    sorted set leaves an empty sorted set at the key.  ZPOPMIN and ZPOPMAX on the
    key then fail their assertion that there is an element, in either encoding,
    and the server exits. *)
Theorem zpop_emptied_queue_asserts w key ele z s cmd c cap :
  db (srv w) !! key = Some (OZset z) -> zview z [(s, ele)] -> argv c = [cmd; key] ->
  wp (run_act key ele ZDel) w (fun _ w' =>
    zpopminCommand (mkWorld (srv w') c cap) = Crash AssertFail /\ zpopmaxCommand (mkWorld (srv w') c cap) = Crash AssertFail).
Proof.
  intros Hk Hz Hc. eapply wp_last_removed; [exact Hk|exact Hz|]. intros z' Hz'.
  assert (Hpop : forall wh, zpop_command wh (mkWorld (srv (with_zset w key (Some z') 0)) c cap) = Crash AssertFail).
  { intros wh. destruct c as [av rv ir rm ot]. cbn in Hc. subst av. unfold zpop_command.
    set (w1 := mkWorld (srv (with_zset w key (Some z') 0)) (mkClient [cmd; key] rv ir rm ot) cap).
    rewrite (run_bind get_cli _ w1 (cli w1) w1 eq_refl), decide_False by (cbn; lia).
    rewrite (run_bind (argv_at 1) _ w1 key w1 eq_refl).
    change (argv (cli w1) !! 2%nat) with (@None string).
    unfold genericZpopCommand. rewrite (run_bind (mret 1) _ w1 1 w1 eq_refl). cbn [zpop_key].
    assert (Hl : lookupKeyWrite key w1 = Ok (Some (Some (OZset z')), w1)).
    { unfold lookupKeyWrite, lookupKey. rewrite (run_bind get_srv _ w1 (srv w1) w1 eq_refl).
      cbn [w1 srv with_zset add_dirty_by set_db db]. by rewrite lookup_partial_alter_eq. }
    rewrite (run_bind _ _ w1 (Some (key, z')) w1) by (by rewrite (run_bind _ _ _ _ _ Hl)).
    apply crash_bind. cbn [zpop_loop]. apply crash_bind. unfold lift. rewrite (zpop_pick_view z' [] wh Hz'). by destruct wh. }
  split; apply Hpop.
Qed.
End Properties.

(** ** Witnesses *)

(** Two entries of one score. *)
Definition twins : list zentry := [(double_of_Z 1, "a"); (double_of_Z 1, "b")].

Lemma twins_view : zview (ZZiplist (flat twins)) twins.
Proof.
  split_and!; [done| |].
  - apply (zordered_app [_] [_]). split_and!; [by apply zordered_single..|].
    intros x y ->%list_elem_of_singleton ->%list_elem_of_singleton. split; [by right|done].
  - by repeat constructor.
Qed.

Lemma twins_one_score : one_score twins.
Proof.
  intros x y Hx Hy. unfold twins in *. rewrite !elem_of_cons in Hx, Hy.
  destruct Hx as [->|[->|?%elem_of_nil]], Hy as [->|[->|?%elem_of_nil]]; done.
Qed.

(** A server whose key "z" holds a sorted set, and a client's words. *)
Definition demo (es : list zentry) (args : list string) : world unit :=
  mkWorld (set_db idle_server {[ "z" := OZset (ZZiplist (flat es)) ]}) (mkClient args None false false []) 0.

Lemma zremrange_refines_witness :
  wp (zremrangeGenericCommand ZRANGE_SCORE) (demo two ["zremrangebyscore"; "z"; "2"; "9"]) (fun _ w' =>
    exists z', zview z' [(double_of_Z 1, "a")] /\ db (srv w') !! "z" = Some (OZset z') /\ out (cli w') = [RInt 1]).
Proof.
  eapply wp_mono.
  - apply (zremrange_refines (demo two ["zremrangebyscore"; "z"; "2"; "9"]) ZRANGE_SCORE "zremrangebyscore" "z" "2" "9"
      (ZZiplist (flat two)) two); [reflexivity|reflexivity|reflexivity|apply two_view|discriminate|reflexivity|discriminate].
  - intros r w' H.
    replace (remrange_of ZRANGE_SCORE "2" "9" two) with
      (inl ([(double_of_Z 3, "b")], [(double_of_Z 1, "a")]) : list zentry * list zentry + reply) in H by (vm_compute; reflexivity).
    destruct H as (z' & Hz' & ->). exists z'. split; [exact Hz'|]. split; reflexivity.
Defined.

Lemma zcount_counts_witness :
  wp zcountCommand (demo two ["zcount"; "z"; "(1"; "inf"]) (fun _ w' => out (cli w') = [RInt 1]) /\
  wp zlexcountCommand (demo twins ["zlexcount"; "z"; "[a"; "(b"]) (fun _ w' => out (cli w') = [RInt 1]).
Proof.
  split.
  - eapply wp_mono.
    + apply (zcount_counts (demo two ["zcount"; "z"; "(1"; "inf"]) "zcount" "z" "(1" "inf" (ZZiplist (flat two)) two
        (mkRange (double_of_Z 1) (dinf false) true false) (mkLexRange MinString MaxString true true));
        [reflexivity|reflexivity|reflexivity|apply two_view|vm_compute; reflexivity].
    + intros r w' ->. vm_compute. reflexivity.
  - eapply wp_mono.
    + apply (zcount_counts (demo twins ["zlexcount"; "z"; "[a"; "(b"]) "zlexcount" "z" "[a" "(b" (ZZiplist (flat twins)) twins
        (mkRange dzero dzero false false) (mkLexRange (LexSds "a") (LexSds "b") false true));
        [reflexivity|reflexivity|reflexivity|apply twins_view|reflexivity|apply twins_one_score].
    + intros r w' ->. vm_compute. reflexivity.
Defined.

Lemma zrangeby_lists_witness :
  wp (genericZrangebyscoreCommand true) (demo two ["zrevrangebyscore"; "z"; "9"; "-inf"; "LIMIT"; "1"; "5"; "WITHSCORES"])
    (fun _ w' => wire <$> out (cli w') = [RArray 2; RBulk "a"; RDouble (double_of_Z 1)]) /\
  wp (genericZrangebylexCommand false) (demo twins ["zrangebylex"; "z"; "-"; "+"; "limit"; "0"; "1"])
    (fun _ w' => wire <$> out (cli w') = [RArray 1; RBulk "a"]).
Proof.
  split.
  - eapply wp_mono.
    + apply (zrangeby_lists (demo two ["zrevrangebyscore"; "z"; "9"; "-inf"; "LIMIT"; "1"; "5"; "WITHSCORES"]) true
        "zrevrangebyscore" "z" "9" "-inf" ["LIMIT"; "1"; "5"; "WITHSCORES"] (ZZiplist (flat two)) two
        (mkRange (dinf true) (double_of_Z 9) false false) (mkLexRange MinString MaxString true true) true 1 5);
        [reflexivity|reflexivity|reflexivity|apply two_view|vm_compute; reflexivity|].
      apply (ro_limit _ _ _ _ _ _ _ _ 1 5); [reflexivity..|]. apply ro_scores; [reflexivity..|]. apply ro_end.
    + intros r w' (rs & -> & Hrs). change (out (cli (said _ rs))) with rs. rewrite Hrs. vm_compute. reflexivity.
  - eapply wp_mono.
    + apply (zrangeby_lists (demo twins ["zrangebylex"; "z"; "-"; "+"; "limit"; "0"; "1"]) false
        "zrangebylex" "z" "-" "+" ["limit"; "0"; "1"] (ZZiplist (flat twins)) twins
        (mkRange dzero dzero false false) (mkLexRange MinString MaxString true true) false 0 1);
        [reflexivity|reflexivity|reflexivity|apply twins_view|reflexivity|apply twins_one_score|].
      apply (ro_limit _ _ _ _ _ _ _ _ 0 1); [reflexivity..|]. apply ro_end.
    + intros r w' (rs & -> & Hrs). change (out (cli (said _ rs))) with rs. rewrite Hrs. vm_compute. reflexivity.
Defined.

Lemma zpop_emptied_queue_asserts_witness :
  wp (run_act "z" "a" ZDel) (demo [(double_of_Z 1, "a")] []) (fun _ w' =>
    zpopminCommand (mkWorld (srv w') (mkClient ["zpopmin"; "z"] None false false []) 0) = Crash AssertFail /\
    zpopmaxCommand (mkWorld (srv w') (mkClient ["zpopmin"; "z"] None false false []) 0) = Crash AssertFail).
Proof.
  apply (zpop_emptied_queue_asserts (demo [(double_of_Z 1, "a")] []) "z" "a" (ZZiplist (flat [(double_of_Z 1, "a")]))
    (double_of_Z 1) "zpopmin"); [reflexivity| |reflexivity].
  split; [reflexivity|]. split; [apply zordered_single; reflexivity|repeat constructor].
Defined.
