(* ===== verification/ZWriteSpec.v ===== *)
(** * ZADD, ZINCRBY and ZREM on the entries of a sorted set

    The commands that take several elements do to the entries what their steps
    do one after another, and reply the totals. *)

From S2P Require Import Prelude Sds Double Util Score Skiplist SkiplistRep SkiplistSpec Zset ZsetSpec ZRange ZRangeSpec.
From S2P Require Import Store Crdt ZCommand ZCommandSpec.
From Stdlib Require Import Ascii SpecFloat.

(** ** The steps of ZADD on entries *)

(** One more element with the flags [zsetAdd] returned. *)
Definition counted (c : zadd_counts) (fl : Z) (new : option double) : zadd_counts :=
  let count f n := if Z.land fl f =? 0 then n else n + 1 in
  mkZc (count ZADD_ADDED (zc_added c)) (count ZADD_UPDATED (zc_updated c))
    (if Z.land fl ZADD_NOP =? 0 then zc_processed c + 1 else zc_processed c) new.

(** All elements in turn; no counts when a score stopped being a number. *)
Fixpoint zadd_all (flags : Z) (pairs : list (double * string)) (es : list zentry) (c : zadd_counts)
    : option zadd_counts * list zentry :=
  match pairs with
  | [] => (Some c, es)
  | (s, e) :: pairs =>
      let '(ret, fl, new, es') := zadd_spec es s e flags in
      if ret =? 0 then (None, es') else zadd_all flags pairs es' (counted c fl new)
  end.

(** Scores that a ziplist keeps exactly, at every step. *)
Fixpoint adds_print (flags : Z) (pairs : list (double * string)) (es : list zentry) : Prop :=
  match pairs with
  | [] => True
  | (s, e) :: pairs => all_back (zadd_spec es s e flags).2 /\ adds_print flags pairs (zadd_spec es s e flags).2
  end.

Lemma zadd_spec_length es s e flags : (length (zadd_spec es s e flags).2 <= S (length es))%nat.
Proof.
  unfold zadd_spec. destruct (isnan s); [simpl; lia|]. destruct (zscore e es) as [cur|]; [|destruct (negb _); [simpl; lia|]].
  - repeat (match goal with |- context [if ?b then _ else _] => destruct b end; cbn [snd]; try lia);
      rewrite zinsert_perm; simpl; pose proof (zremove_length e es); lia.
  - cbn [snd]. rewrite zinsert_perm. done.
Qed.

Section Zadd.
Context {E : Type}.
Implicit Types w : world E.

(** The server with a sorted set at a key, [rs] random draws left and [n] more
    changes. *)
Definition with_added w (key : string) (z : zobj) (rs : list Z) (n : Z) : world E :=
  let s := srv w in
  mkWorld (mkServer (p2p_count s) (p2p_id s) (replicas s) (zset_cfg s) (<[key := OZset z]> (db s)) (heap s) (next_addr s)
             (dirty s + n) rs) (cli w) (capacity w).

Lemma added_added w key z1 z2 rs1 rs2 n m :
  with_added (with_added w key z1 rs1 n) key z2 rs2 m = with_added w key z2 rs2 (n + m).
Proof. unfold with_added. cbn. rewrite insert_insert_eq. by rewrite Z.add_assoc. Qed.

(** Random draws for every conversion the elements may cause. *)
Definition enough_draws (es : list zentry) (k : nat) (rs : list Z) : Prop :=
  ((length es + k + 1) * k <= draws rs)%nat.

Lemma wp_zadd_loop key flags : forall pairs z es c w (Q : option zadd_counts -> world E -> Prop),
  zview z es -> adds_print flags pairs es -> Z.of_nat (length es + length pairs) < 2 ^ 32 ->
  enough_draws es (length pairs) (rng (srv w)) -> listens w -> db (srv w) !! key = Some (OZset z) ->
  (forall z' rs, zview z' (zadd_all flags pairs es c).2 ->
     match (zadd_all flags pairs es c).1 with
     | Some c' => Q (Some c') (with_added w key z' rs 0)
     | None => Q None (said (with_added w key z' rs 0) [RErr "resulting score is not a number (NaN)"])
     end) ->
  wp (zadd_loop key flags pairs z c) w Q.
Proof.
  induction pairs as [|[s e] pairs IH]; intros z es c w Q Hz Hp Hlen Hd Hc Hk HQ; cbn [zadd_loop].
  { apply wp_mret. specialize (HQ z (rng (srv w)) Hz). cbn [zadd_all fst] in HQ.
    assert (Hw : with_added w key z (rng (srv w)) 0 = w); [|by rewrite Hw in HQ].
    unfold with_added. rewrite insert_id, Z.add_0_r by done. by destruct w as [[]]. }
  unfold enough_draws in Hd. cbn [length adds_print] in *. destruct Hp as [Hp Hps].
  destruct (zset_add_ok (zset_cfg (srv w)) z es s e flags (rng (srv w)) Hz) as (r & Er & Hr & Hv & Hdr); [by destruct z|lia|nia|].
  pose proof (zadd_spec_length es s e flags) as Hl.
  apply wp_bind, wp_get_srv. apply wp_bind. eapply wp_lift; [exact Er|]. apply wp_bind, wp_put_srv. apply wp_bind.
  unfold put_obj. wp_steps. cbn [set_rng db].
  assert (Hw : mkWorld (set_db (set_rng (srv w) (zr_rs r)) (<[key:=OZset (zr_obj r)]> (db (srv w)))) (cli w) (capacity w)
               = with_added w key (zr_obj r) (zr_rs r) 0).
  { unfold with_added, set_db, set_rng. cbn. by rewrite Z.add_0_r. }
  rewrite Hw. clear Hw. cbn [zadd_all] in HQ. destruct (zadd_spec es s e flags) as [[[ret fl] new] es'] eqn:Es. cbn [fst snd] in *.
  injection Hr as -> -> ->. destruct (ret =? 0).
  - apply wp_say_return; [done|]. exact (HQ (zr_obj r) (zr_rs r) Hv).
  - apply (IH (zr_obj r) es'); [done|done|lia| |done| |].
    + unfold enough_draws. cbn [with_added srv rng]. nia.
    + cbn [with_added srv db]. by rewrite lookup_insert_eq.
    + intros z' rs Hz'. specialize (HQ z' rs Hz'). rewrite added_added. unfold counted in *. exact HQ.
Qed.

(** The pairs of score and element as words of a command line. *)
Fixpoint pair_words (l : list (string * string)) : list string :=
  match l with [] => [] | (s, e) :: l => s :: e :: pair_words l end.

Definition reads_pair (p : string * string) (y : double * string) : Prop :=
  getDoubleFromObject p.1 = Some y.1 /\ p.2 = y.2.

Lemma pair_words_length l : length (pair_words l) = (2 * length l)%nat.
Proof. induction l as [|[s e] l IH]; [done|]. simpl. lia. Qed.

Lemma wp_scores words pairs : Forall2 reads_pair words pairs ->
  forall w (Q : option (list (double * string)) -> world E -> Prop), Q (Some pairs) w -> wp (zadd_scores (pair_words words)) w Q.
Proof.
  induction 1 as [|[s e] [d e'] words pairs [Hs He] _ IH]; intros w Q HQ; cbn [pair_words zadd_scores]; [by apply wp_mret|].
  cbn [fst snd] in *. subst e'. unfold getDoubleFromObjectOrReply. rewrite Hs. wp_steps. apply IH. by wp_steps.
Qed.

(** The reply: the new score of an increment, or how many elements changed. *)
Definition zadd_answer (flags : Z) (c : zadd_counts) : reply :=
  if negb (Z.land flags ZADD_INCR =? 0) then
    (if zc_processed c =? 0 then RNil else match zc_score c with Some d => RDouble d | None => RNil end)
  else RInt (if negb (Z.land flags ZADD_CH =? 0) then zc_added c + zc_updated c else zc_added c).

(** An increment that was carried out has written the new score. *)
Lemma incr_writes flags pairs es c :
  negb (Z.land flags ZADD_INCR =? 0) = true -> (length pairs <= 1)%nat ->
  (zadd_all flags pairs es (mkZc 0 0 0 (Some dzero))).1 = Some c -> zc_processed c <> 0 -> is_Some (zc_score c).
Proof.
  intros Hi Hl Hc Hp. destruct pairs as [|[s e] [|]]; [by injection Hc as <-| |simpl in Hl; lia].
  cbn [zadd_all] in Hc. unfold zadd_spec in Hc. rewrite Hi in Hc. destruct (isnan s); [done|].
  destruct (zscore e es) as [cur|].
  - destruct (negb (Z.land flags ZADD_NX =? 0)); [by injection Hc as <-|]. cbn [andb] in Hc.
    destruct (isnan (dadd s cur)); [done|]. destruct (deq (dadd s cur) cur); injection Hc as <-; by eexists.
  - destruct (negb (Z.land flags ZADD_XX =? 0)); injection Hc as <-; [done|by eexists].
Qed.

Lemma wp_zadd_reply flags pairs es c w (Q : option unit -> world E -> Prop) :
  (negb (Z.land flags ZADD_INCR =? 0) = true -> (length pairs <= 1)%nat) ->
  (zadd_all flags pairs es (mkZc 0 0 0 (Some dzero))).1 = Some c -> listens w ->
  Q (Some tt) (said w [zadd_answer flags c]) -> wp (zadd_reply flags c) w Q.
Proof.
  intros Hl Hc Hw HQ. unfold zadd_reply, zadd_answer in *. destruct (negb (Z.land flags ZADD_INCR =? 0)) eqn:Hi.
  - destruct (Z.eqb_spec (zc_processed c) 0) as [Hz|Hz]; [by apply wp_say|].
    destruct (incr_writes flags pairs es c Hi (Hl eq_refl) Hc Hz) as [d Hd]. rewrite Hd in *. wp_steps. by apply wp_say.
  - by apply wp_say.
Qed.

(** The set of the key before the command. *)
Definition zset_before w (key first : string) : option zobj :=
  match db (srv w) !! key with
  | Some (OZset z) => Some z
  | Some _ => None
  | None =>
      Some (if (max_entries (zset_cfg (srv w)) =? 0) || (max_value (zset_cfg (srv w)) <? Z.of_nat (String.length first))
            then createZsetObject else createZsetZiplistObject)
  end.

Lemma wp_zadd_lookup key first flags z w (Q : option zobj -> world E -> Prop) :
  zset_before w key first = Some z -> (Z.land flags ZADD_XX = 0 \/ is_Some (db (srv w) !! key)) ->
  Q (Some z) (with_added w key z (rng (srv w)) 0) -> wp (zadd_lookup key first flags) w Q.
Proof.
  intros Hb Hx HQ. unfold zset_before in Hb. unfold zadd_lookup, lookupKeyWrite. apply wp_bind, wp_lookupKey.
  destruct (db (srv w) !! key) as [[h|z0|t b1 b2]|] eqn:Hk; [done| |done|].
  - injection Hb as ->. cbn [type_of]. rewrite decide_True by done. eapply wp_lift; [done|].
    assert (Hw : with_added w key z (rng (srv w)) 0 = w); [|by rewrite Hw in HQ].
    unfold with_added. rewrite insert_id, Z.add_0_r by done. by destruct w as [[]].
  - injection Hb as Hz. destruct Hx as [Hx|[? ?]]; [|done]. rewrite Hx. cbn [Z.eqb negb]. wp_steps. rewrite Hz.
    unfold dbAdd. wp_steps. rewrite Hk. wp_steps.
    assert (Hw : mkWorld (set_db (srv w) (<[key:=OZset z]> (db (srv w)))) (cli w) (capacity w) = with_added w key z (rng (srv w)) 0); [|by rewrite Hw].
    unfold with_added, set_db. by rewrite Z.add_0_r.
Qed.

(** ZADD and ZINCRBY with any options carry out [zsetAdd] on the elements in
    order, on the set of the key or on a new one, and reply how many elements
    were added, or changed with CH, or the new score of an increment.  All
    scores are parsed first; an increment that is not a number ends the command
    with an error after the elements before it. *)
Theorem zadd_refines w flags flags' cmd key opts words pairs z es :
  argv (cli w) = cmd :: key :: opts ++ pair_words words -> listens w ->
  zadd_options (opts ++ pair_words words) flags 2 = (flags', 2 + length opts)%nat ->
  Forall2 reads_pair words pairs -> words <> [] ->
  (Z.land flags' ZADD_NX = 0 \/ Z.land flags' ZADD_XX = 0) ->
  (negb (Z.land flags' ZADD_INCR =? 0) = true -> (length pairs <= 1)%nat) ->
  zset_before w key (default cmd (snd <$> head words)) = Some z -> zview z es ->
  (Z.land flags' ZADD_XX = 0 \/ is_Some (db (srv w) !! key)) ->
  adds_print flags' pairs es -> Z.of_nat (length es + length pairs) < 2 ^ 32 ->
  enough_draws es (length pairs) (rng (srv w)) ->
  wp (zaddGenericCommand flags) w (fun _ w' => exists z' rs, let r := zadd_all flags' pairs es (mkZc 0 0 0 (Some dzero)) in
    zview z' r.2 /\
    match r.1 with
    | Some c => w' = said (with_added w key z' rs (zc_added c + zc_updated c)) [zadd_answer flags' c]
    | None => w' = said (with_added w key z' rs 0) [RErr "resulting score is not a number (NaN)"]
    end).
Proof.
  intros Hargs Hc Hopt Hp Hne Hnx Hincr Hb Hz Hxx Hprint Hlen Hdraws. unfold zaddGenericCommand.
  apply wp_bind, (wp_argv_at 1 key); [by rewrite Hargs|]. apply wp_bind, wp_get_cli. rewrite Hargs. cbn [drop]. rewrite drop_0, Hopt.
  replace (drop (2 + length opts) (cmd :: key :: opts ++ pair_words words)) with (pair_words words) by (cbn [Nat.add drop]; by rewrite drop_app_length).
  pose proof (Forall2_length _ _ _ Hp) as Hl. assert (Hpos : (0 < length words)%nat) by (destruct words; [done|simpl; lia]).
  rewrite decide_False.
  2: { rewrite pair_words_length. intros [H|H]; [|lia]. apply H. rewrite Nat.mul_comm. by apply Nat.Div0.mod_mul. }
  assert (negb (Z.land flags' ZADD_NX =? 0) && negb (Z.land flags' ZADD_XX =? 0) = false) as ->.
  { destruct Hnx as [-> | ->]; [done|apply andb_false_r]. }
  assert (negb (Z.land flags' ZADD_INCR =? 0) && (1 <? Z.of_nat (length (pair_words words)) / 2) = false) as ->.
  { destruct (negb (Z.land flags' ZADD_INCR =? 0)); [|done]. cbn [andb]. apply Z.ltb_ge. rewrite pair_words_length, Nat2Z.inj_mul, Z.mul_comm, Z.div_mul by done.
    specialize (Hincr eq_refl). lia. }
  apply wp_bind, (wp_scores _ _ Hp). destruct words as [|[s0 e0] words]; [done|]. apply wp_bind.
  apply (wp_argv_at _ e0).
  { rewrite Hargs. change ((opts ++ s0 :: e0 :: pair_words words) !! (length opts + 1)%nat = Some e0). rewrite lookup_app_r by lia. by replace (length opts + 1 - length opts)%nat with 1%nat by lia. }
  apply wp_bind, (wp_zadd_lookup key e0 flags' z w); [done|done|]. apply wp_bind.
  apply (wp_zadd_loop key flags' pairs z es); [done|done|done|done|done| |].
  { cbn [with_added srv db]. by rewrite lookup_insert_eq. }
  intros z' rs Hz'. rewrite added_added. destruct (zadd_all flags' pairs es _) as [[c|] es'] eqn:Ea; cbn [fst snd] in *; [|eauto].
  apply wp_bind. unfold dirty_add. wp_steps. apply (wp_zadd_reply flags' pairs es); [done|by rewrite Ea|done|]. exists z', rs. split; [done|].
  unfold said, with_added, add_dirty_by. cbn. by rewrite Z.add_0_r.
Qed.
End Zadd.

(** ** ZREM *)

Definition without (eles : list string) (es : list zentry) : list zentry := filter (fun y => y.2 ∉ eles) es.

Lemma without_cons e eles es : without (e :: eles) es = without eles (zremove e es).
Proof.
  unfold without, zremove. rewrite list_filter_filter. apply list_filter_iff. intros y. rewrite not_elem_of_cons. tauto.
Qed.

Lemma without_nil es : without [] es = es.
Proof. unfold without. apply filter_all. intros y _. apply not_elem_of_nil. Qed.

Lemma zremove_count e es :
  NoDup es.*2 -> Z.of_nat (length es) = Z.of_nat (length (zremove e es)) + (if bool_decide (e ∈ es.*2) then 1 else 0).
Proof.
  intros Hnd. unfold zremove. induction es as [|y es IH]; [done|]. cbn [fmap list_fmap] in Hnd. apply NoDup_cons in Hnd as [Hn Hnd].
  specialize (IH Hnd). destruct (decide (y.2 <> e)) as [He|He].
  - rewrite filter_cons_True by done. cbn [length]. rewrite (bool_decide_ext (e ∈ (y :: es).*2) (e ∈ es.*2)); [lia|].
    cbn [fmap list_fmap]. rewrite elem_of_cons. naive_solver.
  - rewrite filter_cons_False by done. apply dec_stable in He as <-.
    rewrite (bool_decide_false (y.2 ∈ es.*2)) in IH by done. rewrite bool_decide_true by (by left). cbn [length]. lia.
Qed.

Section Zrem.
Context {E : Type}.
Implicit Types w : world E.

Lemma wp_zrem_loop key : forall eles z es deleted w (Q : option Z -> world E -> Prop),
  zview z es -> db (srv w) !! key = Some (OZset z) -> (eles <> [] \/ es <> []) ->
  (forall z', zview z' (without eles es) ->
     Q (Some (deleted + (Z.of_nat (length es) - Z.of_nat (length (without eles es)))))
       (with_zset w key (if decide (without eles es = []) then None else Some z') 0)) ->
  wp (zrem_loop key eles z deleted) w Q.
Proof.
  induction eles as [|e eles IH]; intros z es deleted w Q Hz Hk Hne HQ; cbn [zrem_loop].
  { apply wp_mret. specialize (HQ z). rewrite without_nil in HQ. destruct Hne as [?|Hne]; [done|]. rewrite decide_False, with_same in HQ by done.
    rewrite Z.sub_diag, Z.add_0_r in HQ. by apply HQ. }
  destruct (zset_del_view z es e Hz) as (z1 & Ed & Hz1). pose proof (zremove_count e es (zo_nodup _ (zview_ordered _ _ Hz))) as Hcnt.
  apply wp_bind. eapply wp_lift; [exact Ed|]. cbv beta iota. apply wp_bind. unfold put_obj. wp_steps.
  assert (Hw : mkWorld (set_db (srv w) (<[key:=OZset z1]> (db (srv w)))) (cli w) (capacity w) = with_zset w key (Some z1) 0).
  { unfold with_zset, add_dirty_by, set_db. cbn. by rewrite Z.add_0_r. }
  rewrite Hw, (zsetLength_view _ _ Hz1). clear Hw. rewrite without_cons in HQ.
  assert (Hdel : (if bool_decide (e ∈ es.*2) then deleted + 1 else deleted) = deleted + (Z.of_nat (length es) - Z.of_nat (length (zremove e es))))
    by (destruct (bool_decide _); lia). rewrite Hdel.
  destruct (Z.eqb_spec (Z.of_nat (length (zremove e es))) 0) as [H0|H0].
  - assert (zremove e es = []) as Hnil by (destruct (zremove e es); [done|simpl in H0; lia]). rewrite Hnil in *.
    change (without eles []) with (@nil zentry) in HQ. specialize (HQ z1 Hz1). rewrite decide_True in HQ by done.
    apply wp_bind. unfold dbDelete. wp_steps.
    assert (Hw : mkWorld (set_db (srv (with_zset w key (Some z1) 0)) (delete key (db (srv (with_zset w key (Some z1) 0)))))
                   (cli (with_zset w key (Some z1) 0)) (capacity (with_zset w key (Some z1) 0)) = with_zset w key None 0); [|by rewrite Hw].
    trans (with_zset (with_zset w key (Some z1) 0) key None 0); [|by rewrite with_with].
    generalize (with_zset w key (Some z1) 0). intros w0. unfold with_zset, add_dirty_by, set_db. cbn. by rewrite Z.add_0_r.
  - apply (IH z1 (zremove e es)); [done| |by right; destruct (zremove e es)|].
    + cbn [with_zset srv add_dirty_by set_db db]. by rewrite lookup_partial_alter_eq.
    + intros z' Hz'. rewrite with_with. specialize (HQ z' Hz').
      replace (deleted + (Z.of_nat (length es) - Z.of_nat (length (zremove e es))) +
        (Z.of_nat (length (zremove e es)) - Z.of_nat (length (without eles (zremove e es)))))
        with (deleted + (Z.of_nat (length es) - Z.of_nat (length (without eles (zremove e es))))) by lia. exact HQ.
Qed.

(** ZREM removes the elements it names, replies how many were there, and deletes
    the key with the last one. *)
Theorem zrem_refines w cmd key eles z es :
  argv (cli w) = cmd :: key :: eles -> listens w -> db (srv w) !! key = Some (OZset z) -> zview z es -> eles <> [] ->
  let gone := Z.of_nat (length es) - Z.of_nat (length (without eles es)) in
  wp zremCommand w (fun _ w' => exists z', zview z' (without eles es) /\
    w' = said (with_zset w key (if decide (without eles es = []) then None else Some z') gone) [RInt gone]).
Proof.
  intros Hargs Hc Hk Hz Hne gone. unfold zremCommand. apply wp_bind, (wp_argv_at 1 key); [by rewrite Hargs|].
  apply wp_bind, (wp_zset_write key _ z); [done|]. apply wp_bind, wp_get_cli. rewrite Hargs. cbn [drop]. rewrite drop_0. apply wp_bind.
  apply (wp_zrem_loop key eles z es); [done|done|by left|]. intros z' Hz'. rewrite Z.add_0_l. fold gone. apply wp_bind.
  assert (Hd : forall Q : option unit -> world E -> Prop,
    Q (Some tt) (with_zset w key (if decide (without eles es = []) then None else Some z') gone) ->
    wp (if gone =? 0 then skip else dirty_add gone) (with_zset w key (if decide (without eles es = []) then None else Some z') 0) Q).
  { intros Q HQ. destruct (Z.eqb_spec gone 0) as [->|Hg]; [by apply wp_skip|]. unfold dirty_add. wp_steps.
    unfold with_zset, add_dirty_by in *. cbn in *. by rewrite Z.add_0_r. }
  apply Hd. apply wp_say; [done|]. eauto.
Qed.
End Zrem.
