(* ===== verification/RWFCommand.v ===== *)
(** * RWFramework.h for commands: preconditions and remove histories

    What the prepare and effect phases of the commands on remove-win framework
    containers share. *)

From S2P Require Import Prelude Sds VectorClock RWFramework Double Zset Store Crdt.

Section Macros.
Context {E : Type}.
Notation M := (M E).

(** [e] is the header of the element, [None] for a null pointer. *)
Definition PREPARE_PRECOND_ADD (e : option reh) : M unit :=
  match e with
  | Some h => if EXISTS h then _ ← addReply ele_exist; return_ else skip
  | None => skip
  end.

Definition PREPARE_PRECOND_NON_ADD (e : option reh) : M unit :=
  match e with
  | Some h => if EXISTS h then skip else _ ← addReply ele_nexist; return_
  | None => _ ← addReply ele_nexist; return_
  end.

Definition ADD_CR_NON_RMV (h : reh) : M unit := s ← lift (vcToSds (current h)); RARGV_ADD_SDS s.
Definition ADD_CR_RMV (h : reh) : M unit := s ← lift (vc_now (current h)); RARGV_ADD_SDS s.

(** [CR_GET_LAST]; [rargc] is at least 1 wherever it is used. *)
Definition CR_GET_LAST : M vc :=
  l ← rargs;
  s ← lift (of_option OutOfBounds (last l));
  lift (sdsToVC s).
End Macros.
