(* ===== verification/RwfzCmd.v ===== *)
(** * RWF-RPQ: the commands of t_rwfzset.c

    [rwfzadd], [rwfzincrby], [rwfzrem], [rwfzscore] and [rwfzmax] on the server
    state: the metadata of a container is a hash of pointers to elements, the
    visible elements are mirrored in a sorted set. *)

From S2P Require Import Prelude Sds VectorClock Causal Double Exact Util Score Skiplist.
From S2P Require Import Zset RWFramework RwfZset Store Crdt RWFCommand.
From Stdlib Require Import Ascii.

Section Commands.
Context {E : Type} `{!Cell rwfze E}.
Notation M := (M E).

Definition RWF_RPQ_TABLE_SUFFIX : string := "_rwfzets_".

(** [GET_RWFZE(argv, create)] and [GET_RWFZE(rargv, create)]. *)
Definition GET_RWFZE (arg : nat -> M string) (create : bool) : M (option nat) :=
  tname ← arg 1%nat;
  key ← arg 2%nat;
  rehHTGet tname RWF_RPQ_TABLE_SUFFIX key create (fun s => rwfzeNew (p2p_count s) (p2p_id s)).

(** The header of an element that may be missing. *)
Definition header_of (p : option nat) : M (option reh) :=
  match p with Some p => e ← load p; mret (Some (header e)) | None => mret None end.

Definition rwfz_removeFunc (p : nat) (t : vc) : M unit :=
  e ← load p;
  r ← lift (remove_elem e t);
  _ ← store p r.1;
  if (r.2 : bool) then
    key ← rargv_at 1;
    ele ← rargv_at 2;
    _ ← run_act key ele ZDel;
    dirty_inc
  else skip.

(** The sorted set follows an element that changed. *)
Definition rwfz_follow (p : nat) : M unit :=
  key ← rargv_at 1;
  ele ← rargv_at 2;
  e ← load p;
  _ ← run_act key ele (ZAdd (SCORE e));
  dirty_inc.

Definition rwfzadd_prepare : M unit :=
  _ ← CHECK_ARGC 4;
  _ ← CHECK_CONTAINER_TYPE OBJ_ZSET;
  _ ← CHECK_ARG_TYPE_DOUBLE 3;
  p ← GET_RWFZE argv_at true;
  h ← header_of p;
  _ ← PREPARE_PRECOND_ADD h;
  h ← not_null h;
  ADD_CR_NON_RMV h.

Definition rwfzadd_effect : M unit :=
  a ← rargv_at 3;
  let v := getDoubleFromObject a in
  t ← CR_GET_LAST;
  p ← GET_RWFZE rargv_at true;
  p ← not_null p;
  _ ← rwfz_removeFunc p t;
  e ← load p;
  let '(h, b) := addCheck (header e) t in
  _ ← store p (mkRwfze h (innate e) (acquired e));
  if b then
    v ← lift (of_option Uninitialised v);
    _ ← store p (mkRwfze h v (acquired e));
    rwfz_follow p
  else skip.

Definition rwfzaddCommand : M unit := crdt_command rwfzadd_prepare rwfzadd_effect.

Definition rwfzincrby_prepare : M unit :=
  _ ← CHECK_ARGC 4;
  _ ← CHECK_CONTAINER_TYPE OBJ_ZSET;
  _ ← CHECK_ARG_TYPE_DOUBLE 3;
  p ← GET_RWFZE argv_at false;
  h ← header_of p;
  _ ← PREPARE_PRECOND_NON_ADD h;
  h ← not_null h;
  ADD_CR_NON_RMV h.

Definition rwfzincrby_effect : M unit :=
  a ← rargv_at 3;
  let v := getDoubleFromObject a in
  t ← CR_GET_LAST;
  p ← GET_RWFZE rargv_at true;
  p ← not_null p;
  _ ← rwfz_removeFunc p t;
  e ← load p;
  let '(h, b) := updateCheck (header e) t in
  _ ← store p (mkRwfze h (innate e) (acquired e));
  if b then
    v ← lift (of_option Uninitialised v);
    _ ← store p (mkRwfze h (innate e) (dadd (acquired e) v));
    rwfz_follow p
  else skip.

Definition rwfzincrbyCommand : M unit := crdt_command rwfzincrby_prepare rwfzincrby_effect.

Definition rwfzrem_prepare : M unit :=
  _ ← CHECK_ARGC 3;
  _ ← CHECK_CONTAINER_TYPE OBJ_ZSET;
  p ← GET_RWFZE argv_at false;
  h ← header_of p;
  _ ← PREPARE_PRECOND_NON_ADD h;
  h ← not_null h;
  ADD_CR_RMV h.

Definition rwfzrem_effect : M unit :=
  p ← GET_RWFZE rargv_at true;
  p ← not_null p;
  t ← CR_GET_LAST;
  rwfz_removeFunc p t.

Definition rwfzremCommand : M unit := crdt_command rwfzrem_prepare rwfzrem_effect.
End Commands.

(** ** Queries

    The three queues answer queries from the sorted set with the same code. *)

Section Queries.
Context {E : Type}.
Notation M := (M E).

Definition zscoreQuery : M unit :=
  key ← argv_at 1;
  zobj ← lookupKeyReadOrReply key RNil;
  match zobj with
  | None => return_
  | Some o =>
      bad ← checkType o OBJ_ZSET;
      if (bad : bool) then return_
      else
        z ← lift (as_zset o);
        ele ← argv_at 2;
        r ← lift (zsetScore z ele);
        match r with
        | None => addReply RNil
        | Some score => addReply (RDouble score)
        end
  end.

(** The last entry of a ziplist, or the tail of the skip list. *)
Definition zmax_reply (z : zobj) : M unit :=
  match z with
  | ZZiplist zl =>
      e ← lift (of_option NullDeref (ziplistIndex zl (-2)));
      s ← lift (assert_ptr (ziplistNext zl e));
      v ← lift (of_option AssertFail (ziplistGet zl (Some e)));
      _ ← addReply (match v with ZlInt z => RBulkInt z | ZlStr s => RBulk s end);
      sc ← lift (zzlGetScore zl (Some s));
      addReply (RDouble sc)
  | ZSkiplist _ zsl =>
      ln ← lift (of_option AssertFail (tail zsl));
      n ← lift (node zsl ln);
      e ← lift (ele_of n);
      _ ← addReply (RBulk e);
      addReply (RDouble (score n))
  end.

Definition zmaxQuery : M unit :=
  key ← argv_at 1;
  zobj ← lookupKeyReadOrReply key REmptyArray;
  match zobj with
  | None => return_
  | Some o =>
      bad ← checkType o OBJ_ZSET;
      if (bad : bool) then return_
      else
        z ← lift (as_zset o);
        if zsetLength z =? 0 then _ ← addReply REmptyArray; return_
        else _ ← addReply (RArray 2); zmax_reply z
  end.

Definition rwfzscoreCommand : M unit := zscoreQuery.
Definition rwfzmaxCommand : M unit := zmaxQuery.
End Queries.
