(* ===== verification/Container.v ===== *)
(** * Containers of the priority queues

    A queue under the key [K] is a hash of pointers to its elements' metadata
    under the key with a suffix, and a sorted set under [K] itself.  This file
    relates the two objects to the map of elements and the list of entries they
    stand for, and shows what the accesses of the commands do to those. *)

From S2P Require Import Prelude Sds Double Util Score Skiplist SkiplistRep SkiplistSpec Zset ZsetSpec Store Crdt.
From Stdlib Require Import Ascii.

Section Container.
Context {A E : Type} `{!Cell A E}.
Context (suffix : string) (suffix_ne : suffix <> "").
Implicit Types (w : world E) (s : server E).

(** ** Views *)

Record elems_view (hp : gmap nat E) (h : gmap string hval) (els : gmap string A) : Prop := {
  ev_dom : forall k, is_Some (h !! k) <-> is_Some (els !! k);
  ev_ptr : forall k e, els !! k = Some e -> exists p, h !! k = Some (HPtr p) /\ hp !! p = Some (inj e);
  ev_inj : forall k k' p, h !! k = Some (HPtr p) -> h !! k' = Some (HPtr p) -> k = k'
}.

Definition hash_view s (K : string) (els : gmap string A) : Prop :=
  match db s !! (K +:+ suffix) with
  | None => els = ∅
  | Some (OHash h) => elems_view (heap s) h els
  | Some _ => False
  end.

Definition zset_view s (K : string) (es : list zentry) : Prop :=
  match db s !! K with
  | None => es = []
  | Some (OZset z) => zview z es
  | Some _ => False
  end.

Record cview s (K : string) (els : gmap string A) (es : list zentry) : Prop := {
  cv_hash : hash_view s K els;
  cv_zset : zset_view s K es;
  cv_fresh : forall p, is_Some (heap s !! p) -> (p < next_addr s)%nat
}.

(** The metadata of the element is at the address. *)
Definition points s (K ele : string) (p : nat) : Prop :=
  exists h, db s !! (K +:+ suffix) = Some (OHash h) /\ h !! ele = Some (HPtr p).

(** What no access changes. *)
Definition same_conf s s' : Prop :=
  p2p_count s' = p2p_count s /\ p2p_id s' = p2p_id s /\ replicas s' = replicas s /\ zset_cfg s' = zset_cfg s.

#[local] Instance same_conf_refl : Reflexive same_conf.
Proof. by intros s. Qed.
#[local] Instance same_conf_trans : Transitive same_conf.
Proof. intros s1 s2 s3 (?&?&?&?) (?&?&?&?). unfold same_conf. split_and!; congruence. Qed.

(** An access that leaves the container at [els'] and [es'], after at most [c]
    insertions into the sorted set. *)
Record step_to w w' (K : string) (els' : gmap string A) (es es' : list zentry) (c : nat) : Prop := {
  st_cli : cli w' = cli w;
  st_cap : capacity w' = capacity w;
  st_conf : same_conf (srv w) (srv w');
  st_points : forall e p, points (srv w) K e p -> points (srv w') K e p;
  st_view : cview (srv w') K els' es';
  st_len : (length es' <= length es + c)%nat;
  st_draws : (draws (rng (srv w)) <= c * S (length es + c) + draws (rng (srv w')))%nat
}.

Lemma step_refl w K els es : cview (srv w) K els es -> step_to w w K els es es 0.
Proof. intros H. split; try done; lia. Qed.

Lemma step_trans w w1 w2 K els1 els2 es es1 es2 c1 c2 :
  step_to w w1 K els1 es es1 c1 -> step_to w1 w2 K els2 es1 es2 c2 -> step_to w w2 K els2 es es2 (c1 + c2).
Proof.
  intros [??????] [??????]. split; try congruence; auto; [by etrans|lia|].
  assert (c2 * S (length es1 + c2) <= c2 * S (length es + (c1 + c2)))%nat by (apply Nat.mul_le_mono_l; lia).
  assert (c1 * S (length es + c1) <= c1 * S (length es + (c1 + c2)))%nat by (apply Nat.mul_le_mono_l; lia). lia.
Qed.

(** The same for the server alone. *)
Record moved s s' (K : string) (els' : gmap string A) (es es' : list zentry) (c : nat) : Prop := {
  mv_conf : same_conf s s';
  mv_view : cview s' K els' es';
  mv_len : (length es' <= length es + c)%nat;
  mv_draws : (draws (rng s) <= c * S (length es + c) + draws (rng s'))%nat
}.

Lemma step_moved w w' K els es es' c : step_to w w' K els es es' c -> moved (srv w) (srv w') K els es es' c.
Proof. intros [??????]. by split. Qed.

Lemma step_dirty w w' K els es es' c :
  step_to w w' K els es es' c ->
  step_to w (mkWorld (add_dirty (srv w')) (cli w') (capacity w')) K els es es' c.
Proof. intros [? ? ? ? [? ? ?] ? ?]. by split. Qed.

Lemma string_app_length (a b : string) : String.length (a +:+ b) = (String.length a + String.length b)%nat.
Proof. induction a; simpl; auto. Qed.

Lemma suffix_key K : K +:+ suffix <> K.
Proof using suffix_ne.
  intros H. apply (f_equal String.length) in H. rewrite string_app_length in H.
  destruct suffix; [done|]. simpl in H. lia.
Qed.

(** ** Elements *)

Lemma load_points w K els es ele p e :
  cview (srv w) K els es -> points (srv w) K ele p -> els !! ele = Some e ->
  heap (srv w) !! p = Some (inj e).
Proof.
  intros [Hh _ _] (h & Hd & Hp) He. unfold hash_view in Hh. rewrite Hd in Hh.
  destruct (ev_ptr _ _ _ Hh _ _ He) as (p' & Hp' & Hheap). congruence.
Qed.

Lemma wp_load w K els es ele p e Q :
  cview (srv w) K els es -> points (srv w) K ele p -> els !! ele = Some e -> Q (Some e) w -> wp (load p) w Q.
Proof.
  intros Hv Hp He HQ. unfold load. apply wp_bind, wp_get_srv.
  rewrite (load_points w K els es ele p e Hv Hp He). rewrite prj_inj. by eapply wp_lift.
Qed.

Lemma wp_store w K els es ele p e (Q : option unit -> world E -> Prop) :
  cview (srv w) K els es -> points (srv w) K ele p -> is_Some (els !! ele) ->
  (forall w', step_to w w' K (<[ele := e]> els) es es 0 -> Q (Some tt) w') ->
  wp (store p e) w Q.
Proof.
  intros Hv Hp He HQ. unfold store. apply wp_bind, wp_get_srv, wp_put_srv.
  apply HQ. destruct Hv as [Hh Hz Hf]. destruct He as [e0 He]. pose proof Hp as (h & Hd & Hph).
  split; try done; try lia. split; [|done|].
  - unfold hash_view in *. cbn [srv set_heap db]. rewrite Hd in Hh |- *. destruct Hh as [H1 H2 H3]. split.
    + intros k. rewrite H1. destruct (decide (k = ele)) as [->|Hne]; [rewrite lookup_insert_eq|by rewrite lookup_insert_ne].
      split; [by eexists|]. intros _. by rewrite He.
    + intros k e1. destruct (decide (k = ele)) as [->|Hne].
      * rewrite lookup_insert_eq. intros [= <-]. exists p. split; [done|]. cbn. by rewrite lookup_insert_eq.
      * rewrite lookup_insert_ne by done. intros Hk. destruct (H2 _ _ Hk) as (p' & Hp' & Hheap).
        exists p'. split; [done|]. cbn. rewrite lookup_insert_ne; [done|]. intros ->. apply Hne. by eapply H3.
    + done.
  - intros p' Hp'. cbn [srv set_heap heap next_addr] in *. destruct (decide (p' = p)) as [->|Hne].
    + apply Hf. unfold hash_view in Hh. rewrite Hd in Hh. destruct (ev_ptr _ _ _ Hh _ _ He) as (p2 & Hp2 & Hheap).
      assert (p2 = p) as -> by congruence. by eexists.
    + apply Hf. by rewrite lookup_insert_ne in Hp'.
Qed.

(** The hash of the container, created when missing. *)
Lemma wp_getInnerHT w K els es :
  cview (srv w) K els es ->
  wp (getInnerHT K suffix true) w (fun r w' =>
    r = Some (Some (K +:+ suffix)) /\ step_to w w' K els es es 0 /\ exists h, db (srv w') !! (K +:+ suffix) = Some (OHash h)).
Proof using suffix_ne.
  intros Hv. unfold getInnerHT. apply wp_bind, wp_lookupKey. pose proof Hv as [Hh Hz Hf]. unfold hash_view in Hh.
  destruct (db (srv w) !! (K +:+ suffix)) as [[h|z|t b1 b2]|] eqn:Hd; try done.
  - wp_steps. split_and!; [done|by apply step_refl|eauto].
  - subst els. unfold dbAdd. wp_steps. rewrite Hd. wp_steps. split_and!; [done| |].
    + split; try done; try lia. { intros e p (h & Hh' & _). cbn in Hh'. congruence. } split; [| |done].
      * unfold hash_view. cbn [srv set_db db]. rewrite lookup_insert_eq. split.
        { intros k. rewrite !lookup_empty. by split; intros [? ?]. }
        { intros k e. by rewrite lookup_empty. }
        { intros k k' p. by rewrite lookup_empty. }
      * unfold zset_view. cbn [srv set_db db]. rewrite lookup_insert_ne by apply suffix_key. done.
    + cbn [srv set_db db]. rewrite lookup_insert_eq. eauto.
Qed.

(** A new element of the container. *)
Lemma wp_new_elem w K els es ele e h :
  cview (srv w) K els es -> els !! ele = None -> db (srv w) !! (K +:+ suffix) = Some (OHash h) ->
  wp (p ← alloc e; _ ← hashTypeSet (K +:+ suffix) ele (HPtr p); mret (Some p)) w (fun r w' => exists p,
    r = Some (Some p) /\ step_to w w' K (<[ele := e]> els) es es 0 /\ points (srv w') K ele p).
Proof using suffix_ne.
  intros [Hh Hz Hf] He Hd. unfold hash_view in Hh. rewrite Hd in Hh. destruct Hh as [H1 H2 H3].
  unfold alloc. wp_steps. unfold hashTypeSet. apply wp_bind, wp_lookupKey. cbn [srv alloc_cell db]. rewrite Hd. cbn [as_hash].
  unfold put_obj. wp_steps. exists (next_addr (srv w)). split_and!; [done| |].
  - split; try done; try lia.
    { intros k p (h' & Hh' & Hp). assert (h' = h) as -> by congruence. exists (<[ele := HPtr (next_addr (srv w))]> h).
      cbn [set_db db srv]. rewrite lookup_insert_eq. split; [done|]. rewrite lookup_insert_ne; [done|]. intros <-.
      destruct (proj1 (H1 ele) ltac:(by eexists)). congruence. }
    assert (forall k e1 p, els !! k = Some e1 -> h !! k = Some (HPtr p) -> p <> next_addr (srv w)) as Hnew.
    { intros k e1 p Hk Hp ->. destruct (H2 _ _ Hk) as (p' & Hp' & Hheap).
      assert (p' = next_addr (srv w)) as -> by congruence. specialize (Hf _ ltac:(by eexists)). lia. }
    split.
    + unfold hash_view. cbn [srv set_db db alloc_cell heap]. rewrite lookup_insert_eq. split.
      * intros k. destruct (decide (k = ele)) as [->|Hne]; [rewrite !lookup_insert_eq|rewrite !lookup_insert_ne by done; apply H1].
        by split; intros _; eexists.
      * intros k e1. destruct (decide (k = ele)) as [->|Hne].
        { rewrite !lookup_insert_eq. intros [= <-]. exists (next_addr (srv w)). split; [done|].
          cbn. by rewrite lookup_insert_eq. }
        rewrite !lookup_insert_ne by done. intros Hk. destruct (H2 _ _ Hk) as (p & Hp & Hheap).
        exists p. split; [done|]. cbn. rewrite lookup_insert_ne; [done|]. intros E'. symmetry in E'. revert E'. by eapply Hnew.
      * assert (forall k p, k <> ele -> h !! k = Some (HPtr p) -> p <> next_addr (srv w)) as Hnew'.
        { intros k p Hk Hp. destruct (proj1 (H1 k) ltac:(by eexists)) as [e1 He1]. by eapply Hnew. }
        intros k k' p. destruct (decide (k = ele)) as [->|Hk], (decide (k' = ele)) as [->|Hk']; try done.
        { rewrite lookup_insert_eq, lookup_insert_ne by done. intros [= <-] Hp. by apply Hnew' in Hp. }
        { rewrite lookup_insert_eq, lookup_insert_ne by done. intros Hp [= <-]. by apply Hnew' in Hp. }
        rewrite !lookup_insert_ne by done. apply H3.
    + unfold zset_view in *. cbn [srv set_db db alloc_cell]. rewrite lookup_insert_ne by apply suffix_key. exact Hz.
    + intros p. cbn [srv set_db alloc_cell heap next_addr]. destruct (decide (p = next_addr (srv w))) as [->|Hne]; [lia|].
      rewrite lookup_insert_ne by done. intros Hp. specialize (Hf p Hp). lia.
  - eexists. cbn [srv set_db db]. rewrite lookup_insert_eq. split; [done|]. by rewrite lookup_insert_eq.
Qed.

(** [rehHTGet] with [create]. *)
Lemma wp_get w K els es ele new e0 :
  cview (srv w) K els es -> (els !! ele = None -> forall s', same_conf (srv w) s' -> new s' = Ok e0) ->
  wp (rehHTGet K suffix ele true new) w (fun r w' => exists p,
    r = Some (Some p) /\ step_to w w' K (<[ele := default e0 (els !! ele)]> els) es es 0 /\ points (srv w') K ele p).
Proof using suffix_ne.
  intros Hv Hnew. unfold rehHTGet. apply wp_bind. eapply wp_mono; [by apply (wp_getInnerHT w K els es)|].
  intros r w1 (-> & Hst & h & Hd1). pose proof (st_view _ _ _ _ _ _ _ Hst) as Hv1.
  apply wp_bind. unfold hashTypeGetValueObject.
  apply wp_bind, wp_lookupKey. rewrite Hd1. wp_steps. pose proof (cv_hash _ _ _ _ Hv1) as Hh. unfold hash_view in Hh.
  rewrite Hd1 in Hh. destruct (els !! ele) as [e|] eqn:He.
  - destruct (ev_ptr _ _ _ Hh _ _ He) as (p & Hp & Hheap). rewrite Hp. wp_steps. exists p.
    split_and!; [done| |by exists h]. by rewrite insert_id.
  - assert (h !! ele = None) as Hn.
    { destruct (h !! ele) eqn:Hx; [|done]. destruct (proj1 (ev_dom _ _ _ Hh ele) ltac:(by eexists)). congruence. }
    rewrite Hn. cbn [negb]. wp_steps. eapply wp_lift; [apply Hnew; [done|apply (st_conf _ _ _ _ _ _ _ Hst)]|].
    eapply wp_mono; [by eapply wp_new_elem|]. intros r w2 (p & -> & Hst2 & ?). exists p.
    split_and!; [done| |done]. by apply (step_trans _ w1 _ _ els _ _ es _ 0 0).
Qed.

(** [rehHTGet] without [create]: the database stays as it is. *)
Lemma wp_find w K els es ele new :
  cview (srv w) K els es ->
  wp (rehHTGet K suffix ele false new) w (fun r w' => w' = w /\
    match els !! ele with
    | Some e => exists p, r = Some (Some p) /\ points (srv w) K ele p
    | None => r = Some None
    end).
Proof.
  intros Hv. unfold rehHTGet, getInnerHT. apply wp_bind, wp_bind, wp_lookupKey.
  pose proof (cv_hash _ _ _ _ Hv) as Hh. unfold hash_view in Hh.
  destruct (db (srv w) !! (K +:+ suffix)) as [[h|z|t b1 b2]|] eqn:Hd; try done.
  - wp_steps. unfold hashTypeGetValueObject. apply wp_bind, wp_lookupKey. rewrite Hd. wp_steps.
    destruct (els !! ele) as [e|] eqn:He.
    + destruct (ev_ptr _ _ _ Hh _ _ He) as (p & Hp & Hheap). rewrite Hp. wp_steps. split; [done|]. exists p.
      split; [done|]. by exists h.
    + assert (h !! ele = None) as Hn.
      { destruct (h !! ele) eqn:Hx; [|done]. destruct (proj1 (ev_dom _ _ _ Hh ele) ltac:(by eexists)). congruence. }
      rewrite Hn. cbn [negb]. by wp_steps.
  - subst els. wp_steps. by rewrite lookup_empty.
Qed.

(** ** The sorted set *)

(** What a call on the sorted set needs: draws for the levels of new nodes, and
    a score that a ziplist reads back. *)
Definition act_ok s (es : list zentry) (a : zact) : Prop :=
  Z.of_nat (length es) + 1 < 2 ^ 32 /\ (length es < draws (rng s))%nat /\
  match a with ZAdd sc => isnan sc = false -> prints_back sc | ZDel => True end.

Definition act_cost (a : zact) : nat := match a with ZAdd _ => 1 | ZDel => 0 end.

(** Only the score of the element changes. *)
Definition scores_after (es es' : list zentry) (ele : string) (a : zact) : Prop :=
  forall k, zscore k es' = if decide (k = ele) then zmirror_step (zscore ele es) a else zscore k es.

Lemma wp_getZset w K els es ele :
  cview (srv w) K els es ->
  wp (getZsetOrCreate K ele) w (fun r w' => exists z,
    r = Some K /\ step_to w w' K els es es 0 /\ rng (srv w') = rng (srv w) /\
    db (srv w') !! K = Some (OZset z) /\ zview z es).
Proof using suffix_ne.
  intros Hv. pose proof Hv as [Hh Hz Hf]. unfold getZsetOrCreate. apply wp_bind, wp_lookupKey.
  unfold zset_view in Hz. destruct (db (srv w) !! K) as [[h|z|t b1 b2]|] eqn:Hd; try done.
  - wp_steps. exists z. split_and!; try done. by apply step_refl.
  - subst es. unfold dbAdd. wp_steps. rewrite Hd. wp_steps. cbn [srv set_db db].
    set (z := if _ || _ then createZsetObject else createZsetZiplistObject).
    assert (zview z []) as Hzv.
    { unfold z. destruct (_ || _); [apply sk_create|]. split_and!; [done| |constructor].
      split; [constructor|constructor|apply NoDup_nil_2]. }
    exists z. split_and!; try done.
    + split; try done; try lia.
      { intros e p (h & Hh' & Hp). exists h. cbn [srv set_db db]. pose proof (suffix_key K). by rewrite lookup_insert_ne. }
      split; [| |done].
      * unfold hash_view in *. cbn [srv set_db db]. pose proof (suffix_key K). by rewrite lookup_insert_ne.
      * unfold zset_view. cbn [srv set_db db]. by rewrite lookup_insert_eq.
    + by rewrite lookup_insert_eq.
Qed.

(** The sorted set replaced by another. *)
Lemma put_zset s K els es z es' r :
  cview s K els es -> zview z es' -> cview (set_db (set_rng s r) (<[K := OZset z]> (db s))) K els es'.
Proof using suffix_ne.
  intros [Hh Hz Hf] Hv. pose proof (suffix_key K). split; [| |done].
  - unfold hash_view in *. cbn [set_db db set_rng]. by rewrite lookup_insert_ne.
  - unfold zset_view. cbn [srv set_db db]. by rewrite lookup_insert_eq.
Qed.

Lemma points_put s K z r e p :
  points s K e p -> points (set_db (set_rng s r) (<[K := OZset z]> (db s))) K e p.
Proof using suffix_ne.
  intros (h & Hd & Hp). exists h. cbn [srv set_db db]. pose proof (suffix_key K). by rewrite lookup_insert_ne.
Qed.

(** The sorted set replaced in a step. *)
Lemma step_put w K els es z es' r c :
  cview (srv w) K els es -> zview z es' -> (length es' <= length es + c)%nat ->
  (draws (rng (srv w)) <= c * S (length es + c) + draws r)%nat ->
  step_to w (mkWorld (set_db (set_rng (srv w) r) (<[K := OZset z]> (db (srv w)))) (cli w) (capacity w)) K els es es' c.
Proof using suffix_ne.
  intros Hv Hz Hl Hd. split; try done; cbn [srv]; [intros e p; apply points_put|by eapply put_zset].
Qed.

Lemma wp_run_act w K els es ele a :
  cview (srv w) K els es -> act_ok (srv w) es a ->
  wp (run_act K ele a) w (fun r w' => r = Some tt /\
    exists es', step_to w w' K els es es' (act_cost a) /\ scores_after es es' ele a).
Proof using suffix_ne.
  intros Hv (Hsm & Hdr & Ha). unfold run_act. apply wp_bind. eapply wp_mono; [by apply wp_getZset|].
  intros r w1 (z & -> & Hst & Hr1 & Hd1 & Hz1). pose proof (st_view _ _ _ _ _ _ _ Hst) as Hv1.
  assert (forall w2 es' c, step_to w1 w2 K els es es' c -> step_to w w2 K els es es' c) as Htr
    by (intros w2 es' c H2; exact (step_trans _ _ _ _ _ _ _ _ _ 0 c Hst H2)).
  pose proof (zview_ordered _ _ Hz1) as Ho. destruct a as [sc|].
  - unfold zset_add. apply wp_bind, wp_lookupKey. rewrite Hd1. wp_steps.
    pose proof (zadd_none_spec es sc ele Ho) as (Hsc & Hlen & Hin). destruct (isnan sc) eqn:Hn.
    { wp_steps. split; [done|]. exists es. split.
      - destruct (Htr w1 es 0%nat (step_refl _ _ _ _ Hv1)). split; try done; lia.
      - intros k. case_decide; [|done]. subst. unfold zmirror_step. by rewrite Hn. }
    wp_steps.
    assert (zadd_ok (zsetAdd (zset_cfg (srv w1)) z sc ele ZADD_NONE (rng (srv w1))) (rng (srv w1)) (length es)
              (zadd_spec es sc ele ZADD_NONE)) as (x & Hx & _ & Hvx & Hdx).
    { rewrite Hr1. destruct z as [zl|d zs].
      - destruct Hz1 as (-> & _ & Hb). apply zadd_ziplist; try done. apply Forall_forall. intros y Hy.
        destruct (Hin y Hy) as [Hy'|[-> _]]; [|by apply Ha]. unfold all_back in Hb. rewrite Forall_forall in Hb. by apply Hb.
      - apply zadd_skiplist; [done..|lia]. }
    eapply wp_lift; [exact Hx|]. unfold put_obj. wp_steps. split; [done|].
    exists (zadd_spec es sc ele ZADD_NONE).2. split; [|done]. apply Htr, step_put; [done|done|simpl; lia|simpl; lia].
  - unfold zset_del. apply wp_bind, wp_lookupKey. rewrite Hd1. cbn [as_zset]. wp_steps.
    destruct (zset_del_view z es ele Hz1) as (z' & Hz' & Hv').
    eapply wp_lift; [exact Hz'|]. unfold put_obj. wp_steps. split; [done|].
    exists (zremove ele es). split; [|intros k; by apply zscore_remove].
    pose proof (zremove_length ele es). pose proof (step_put w1 K els es z' (zremove ele es) (rng (srv w1)) 0 Hv1 Hv') as Hp.
    replace (set_rng (srv w1) (rng (srv w1))) with (srv w1) in Hp by (by destruct (srv w1)).
    apply Htr, Hp; lia.
Qed.

(** ** Several calls on the sorted set *)

(** What a sequence of calls needs. *)
Record acts_ok s (es : list zentry) (acts : list zact) : Prop := {
  ak_small : Z.of_nat (length es + length acts) < 2 ^ 32;
  ak_draws : (length acts * S (length es + length acts) <= draws (rng s))%nat;
  ak_prints : forall sc, ZAdd sc ∈ acts -> isnan sc = false -> prints_back sc
}.

Definition scores_follow (es es' : list zentry) (ele : string) (acts : list zact) : Prop :=
  forall k, zscore k es' = if decide (k = ele) then zmirror (zscore ele es) acts else zscore k es.

Lemma step_weaken w w' K els es es' c c' :
  (c <= c')%nat -> step_to w w' K els es es' c -> step_to w w' K els es es' c'.
Proof.
  intros Hc [??????]. split; try done; [lia|].
  assert (c * S (length es + c) <= c' * S (length es + c'))%nat by (apply Nat.mul_le_mono; lia). lia.
Qed.

Lemma wp_run_acts K els ele acts : forall w es,
  cview (srv w) K els es -> acts_ok (srv w) es acts ->
  wp (for_each acts (run_act K ele)) w (fun r w' => r = Some tt /\
    exists es', step_to w w' K els es es' (length acts) /\ scores_follow es es' ele acts).
Proof using suffix_ne.
  induction acts as [|a acts IH]; intros w es Hv [Hsm Hdr Hpb]; cbn [for_each].
  { apply wp_skip. split; [done|]. exists es. split; [by apply step_refl|]. intros k. by case_decide; subst. }
  cbn [length] in Hsm, Hdr. apply wp_bind. eapply wp_mono; [apply (wp_run_act w K els es ele a Hv)|].
  { split_and!; [lia|nia|]. destruct a as [sc|]; [|done]. apply Hpb. by left. }
  intros r w1 (-> & es1 & Hst & Hsc).
  assert (step_to w w1 K els es es1 1) as Hst1 by (eapply step_weaken; [|exact Hst]; by destruct a; cbn; lia).
  pose proof (st_len _ _ _ _ _ _ _ Hst1) as Hl1. pose proof (st_draws _ _ _ _ _ _ _ Hst1) as Hd1.
  eapply wp_mono; [apply (IH w1 es1 (st_view _ _ _ _ _ _ _ Hst1))|].
  - split; [lia| |intros sc Hs; apply Hpb; by right].
    assert (length acts * S (length es1 + length acts) <= length acts * S (length es + S (length acts)))%nat
      by (apply Nat.mul_le_mono_l; lia). lia.
  - intros r w2 (-> & es2 & Hst2 & Hsc2). split; [done|]. exists es2. split; [exact (step_trans _ _ _ _ _ _ _ _ _ _ _ Hst1 Hst2)|].
    intros k. rewrite Hsc2, !Hsc. unfold zmirror. cbn [foldl]. case_decide; [by rewrite decide_True|done].
Qed.
End Container.
