(* ===== verification/RwfzSpec.v ===== *)
(** * RWF-RPQ: the commands keep the sorted set in step with the metadata

    The effect phases of the commands refine the element functions of
    [RwfZset], and after every one of them the sorted set shows exactly the
    elements that exist, with their scores. *)

From S2P Require Import Prelude Sds VectorClock Causal Double Exact Util Score Skiplist SkiplistSpec Zset ZsetSpec.
From S2P Require Import RWFramework RwfZset Store Crdt Container RWFCommand RwfzCmd.
From Stdlib Require Import Ascii.

Section Spec.
Context {E : Type} `{!Cell rwfze E}.
Implicit Types (w : world E) (s : server E).
Notation suffix := RWF_RPQ_TABLE_SUFFIX.

Lemma rwf_suffix_ne : suffix <> "".
Proof. done. Qed.

Notation cview := (cview suffix).
Notation points := (points suffix).
Notation step_to := (step_to suffix).

(** The sorted set shows the elements that exist. *)
Definition mirrored (els : gmap string rwfze) (es : list zentry) : Prop :=
  forall k, match els !! k with
            | Some e => mirrors (zscore k es) (EXISTS (header e)) (SCORE e)
            | None => zscore k es = None
            end.

(** The operation a list of broadcast arguments stands for. *)
Definition msg_op (l : list string) (K ele : string) (o : rwfz_op) : Prop :=
  l !! 1%nat = Some K /\ l !! 2%nat = Some ele /\
  (exists str, last l = Some str /\ sdsToVC str = Ok (op_vc o)) /\
  match o with
  | RwfzAdd v _ | RwfzIncr v _ => exists a, l !! 3%nat = Some a /\ getDoubleFromObject a = Some v
  | RwfzRem _ => True
  end.

Definition rwfz_effect_cmd (o : rwfz_op) : M E unit :=
  match o with
  | RwfzAdd _ _ => rwfzadd_effect
  | RwfzIncr _ _ => rwfzincrby_effect
  | RwfzRem _ => rwfzrem_effect
  end.

(** The element an operation finds. *)
Definition find_elem s (els : gmap string rwfze) (ele : string) : res rwfze :=
  match els !! ele with Some e => Ok e | None => rwfzeNew (p2p_count s) (p2p_id s) end.

Definition clock_size (e : rwfze) : nat := length (vector (current (header e))).

(** ** Steps of the effects *)

Lemma wp_CR_GET_LAST w l n o K ele Q :
  rargv (cli w) = Some (l, n) -> msg_op l K ele o -> Q (Some (op_vc o)) w -> wp CR_GET_LAST w Q.
Proof.
  intros Hr (_ & _ & (str & Hl & Hs) & _) HQ. unfold CR_GET_LAST. apply wp_bind. eapply wp_rargs; [done|].
  rewrite Hl. wp_steps. by eapply wp_lift.
Qed.

Lemma wp_GET_rargv w l n o K ele els es e :
  rargv (cli w) = Some (l, n) -> msg_op l K ele o -> cview (srv w) K els es -> find_elem (srv w) els ele = Ok e ->
  wp (GET_RWFZE rargv_at true) w (fun r w' => exists p,
    r = Some (Some p) /\ step_to w w' K (<[ele := e]> els) es es 0 /\ points (srv w') K ele p).
Proof.
  intros Hr (H1 & H2 & _) Hv He. unfold GET_RWFZE. apply wp_bind, (wp_rargv_at 1 l n K); [done..|].
  apply wp_bind, (wp_rargv_at 2 l n ele); [done..|]. eapply wp_mono.
  - apply (wp_get suffix rwf_suffix_ne w K els es ele _ e Hv). intros Hn s' (Hc & Hi & _).
    unfold find_elem in He. rewrite Hn in He. by rewrite Hc, Hi.
  - intros r w' (p & -> & Hst & Hp). exists p. split_and!; try done. unfold find_elem in He.
    destruct (els !! ele); [by injection He as ->|done].
Qed.

(** Helper: a step that keeps the client keeps its arguments. *)
Lemma step_rargv w w' K els es es' c l n :
  step_to w w' K els es es' c -> rargv (cli w) = Some (l, n) -> rargv (cli w') = Some (l, n).
Proof. intros Hst Hr. by rewrite (st_cli _ _ _ _ _ _ _ _ Hst). Qed.

Lemma wp_removeFunc w l n o K ele els es p e e1 b :
  rargv (cli w) = Some (l, n) -> msg_op l K ele o -> cview (srv w) K els es -> points (srv w) K ele p ->
  els !! ele = Some e -> remove_elem e (op_vc o) = Ok (e1, b) ->
  Z.of_nat (length es) + 1 < 2 ^ 32 -> (length es < draws (rng (srv w)))%nat ->
  wp (rwfz_removeFunc p (op_vc o)) w (fun r w' => r = Some tt /\ points (srv w') K ele p /\
    exists es', step_to w w' K (<[ele := e1]> els) es es' 0 /\
      forall k, zscore k es' = if decide (k = ele /\ b = true) then None else zscore k es).
Proof.
  intros Hr Hm Hv Hp He Hrem Hsm Hdr. pose proof Hm as (H1 & H2 & _). unfold rwfz_removeFunc.
  apply wp_bind. eapply wp_load; [done..|]. apply wp_bind. eapply wp_lift; [exact Hrem|].
  cbn [fst snd]. apply wp_bind. eapply wp_store; [done..|by eexists|]. intros w1 Hst1.
  pose proof (st_points _ _ _ _ _ _ _ _ Hst1 _ _ Hp) as Hp1. destruct b.
  - apply wp_bind, (wp_rargv_at 1 l n K); [by eapply step_rargv|done|].
    apply wp_bind, (wp_rargv_at 2 l n ele); [by eapply step_rargv|done|].
    pose proof (wp_run_act suffix rwf_suffix_ne w1 K (<[ele := e1]> els) es ele ZDel (st_view _ _ _ _ _ _ _ _ Hst1)) as Hact.
    pose proof (st_draws _ _ _ _ _ _ _ _ Hst1) as Hd1. cbn [Nat.mul Nat.add] in Hd1.
    specialize (Hact ltac:(split_and!; [done|lia|done])). apply wp_bind. eapply wp_mono; [exact Hact|].
    intros r w2 (-> & es' & Hst2 & Hsc).
    apply wp_dirty_inc. split; [done|]. cbn [srv]. split.
    { exact (st_points _ _ _ _ _ _ _ _ Hst2 _ _ Hp1). }
    exists es'. split.
    + apply step_dirty. exact (step_trans _ _ _ _ _ _ _ _ _ _ _ _ Hst1 Hst2).
    + intros k. rewrite Hsc. destruct (decide (k = ele)) as [->|Hk]; [by rewrite decide_True|].
      by rewrite decide_False by tauto.
  - wp_steps. split_and!; try done. exists es. split; [done|]. intros k. by rewrite decide_False by (by intros [_ ?]).
Qed.

Lemma wp_follow w l n o K ele els es p e :
  rargv (cli w) = Some (l, n) -> msg_op l K ele o -> cview (srv w) K els es -> points (srv w) K ele p ->
  els !! ele = Some e -> act_ok (srv w) es (ZAdd (SCORE e)) ->
  wp (rwfz_follow p) w (fun r w' => r = Some tt /\
    exists es', step_to w w' K els es es' 1 /\ scores_after es es' ele (ZAdd (SCORE e))).
Proof.
  intros Hr (H1 & H2 & _) Hv Hp He Hok. unfold rwfz_follow.
  apply wp_bind, (wp_rargv_at 1 l n K); [done..|]. apply wp_bind, (wp_rargv_at 2 l n ele); [done..|].
  apply wp_bind. eapply wp_load; [done..|]. apply wp_bind.
  eapply wp_mono; [by apply (wp_run_act suffix rwf_suffix_ne w K els es ele)|].
  intros r w2 (-> & es' & Hst & Hsc). apply wp_dirty_inc. split; [done|]. exists es'. split; [|done]. by apply step_dirty.
Qed.

(** ** The sorted set after an operation *)

Lemma mirrored_insert els es es' ele e' :
  mirrored els es -> (forall k, k <> ele -> zscore k es' = zscore k es) ->
  mirrors (zscore ele es') (EXISTS (header e')) (SCORE e') -> mirrored (<[ele := e']> els) es'.
Proof.
  intros Hm Hk He k. destruct (decide (k = ele)) as [->|Hne]; [by rewrite lookup_insert_eq|].
  rewrite lookup_insert_ne, Hk by done. apply Hm.
Qed.

(** What the element shows after its removal. *)
Lemma remove_mirrors els es es' ele e e1 b t s :
  mirrored els es -> find_elem s els ele = Ok e -> remove_elem e t = Ok (e1, b) ->
  (forall k, zscore k es' = if decide (k = ele /\ b = true) then None else zscore k es) ->
  mirrors (zscore ele es') (EXISTS (header e1)) (SCORE e1).
Proof.
  intros Hm He Hrem Hsc. rewrite Hsc. unfold remove_elem, removeCheck in Hrem.
  destruct (rmv_scan _ _) as [[]|]; [..|done]; simpl in Hrem; injection Hrem as <- <-.
  - by rewrite decide_True.
  - rewrite decide_False by (by intros [_ ?]). specialize (Hm ele). unfold find_elem in He.
    destruct (els !! ele) as [e'|] eqn:Hl; [injection He as ->; by destruct e|]. rewrite Hm.
    unfold rwfzeNew, REH_INIT in He. destruct (_vc_new _ _); [|done]. by injection He as <-.
Qed.

Lemma zmirror_mirrors m sc : mirrors (zmirror_step m (ZAdd sc)) true sc.
Proof. exact (mirrors_add m sc). Qed.

(** An add that takes effect makes the element exist. *)
Lemma addCheck_exists h t h' : 0 <= vid t -> addCheck h t = (h', true) -> EXISTS h' = true.
Proof.
  intros Ht. unfold addCheck, EXISTS, PID_NEXIST. destruct (negb _); [done|]. destruct (_ <? _); [|done].
  intros [= <-]. simpl. destruct (Z.eqb_spec (vid t) (-1)); [lia|done].
Qed.

Lemma updateCheck_exists h t h' : updateCheck h t = (h', true) -> EXISTS h' = true.
Proof.
  unfold updateCheck. destruct (negb (vc_equal _ _)); [done|]. destruct (EXISTS h) eqn:He; simpl; intros [= <-]; done.
Qed.

Lemma addCheck_same h t h' : addCheck h t = (h', false) -> h' = h.
Proof. unfold addCheck. destruct (negb _); [by intros [= <-]|]. destruct (_ <? _); [done|by intros [= <-]]. Qed.

Lemma updateCheck_same h t h' : updateCheck h t = (h', false) -> h' = h.
Proof. unfold updateCheck. destruct (negb _); [by intros [= <-]|]. by destruct (negb _). Qed.

(** The tail of an add or an increment that took effect: [e2] is written and
    the sorted set follows. *)
Lemma wp_write_follow w w1 l n o K ele els es es1 p e1 e2 :
  step_to w w1 K (<[ele := e1]> els) es es1 0 -> rargv (cli w1) = Some (l, n) -> msg_op l K ele o ->
  points (srv w1) K ele p -> mirrored els es -> (forall k, k <> ele -> zscore k es1 = zscore k es) ->
  EXISTS (header e2) = true -> (isnan (SCORE e2) = false -> prints_back (SCORE e2)) ->
  Z.of_nat (length es) + 1 < 2 ^ 32 -> (length es < draws (rng (srv w)))%nat ->
  wp (_ ← store p e2; rwfz_follow p) w1 (fun r w' => r = Some tt /\
    exists es', step_to w w' K (<[ele := e2]> els) es es' 1 /\ mirrored (<[ele := e2]> els) es').
Proof.
  intros Hst Hr Hm Hp Hmir Hother Hex Hpb Hsm Hdr. apply wp_bind. eapply wp_store; [apply (st_view _ _ _ _ _ _ _ _ Hst)|done|by rewrite lookup_insert_eq|].
  intros w2 Hst2. rewrite insert_insert_eq in Hst2.
  pose proof (step_trans _ _ _ _ _ _ _ _ _ _ _ _ Hst Hst2) as Hst12. cbn [Nat.add] in Hst12.
  pose proof (st_len _ _ _ _ _ _ _ _ Hst12) as Hl12. pose proof (st_draws _ _ _ _ _ _ _ _ Hst12) as Hd12.
  eapply wp_mono; [eapply (wp_follow w2 l n o K ele _ es1 p e2)|].
  - eapply step_rargv; [exact Hst2|exact Hr].
  - done.
  - apply (st_view _ _ _ _ _ _ _ _ Hst2).
  - by apply (st_points _ _ _ _ _ _ _ _ Hst2).
  - by rewrite lookup_insert_eq.
  - split_and!; [lia|lia|done].
  - intros r w3 (-> & es' & Hst3 & Hsc). split; [done|]. exists es'. split.
    + exact (step_trans _ _ _ _ _ _ _ _ _ _ _ _ Hst12 Hst3).
    + apply (mirrored_insert els es); [done| |].
      * intros k Hk. rewrite Hsc, decide_False by done. by apply Hother.
      * rewrite Hsc, decide_True by done. rewrite Hex. apply zmirror_mirrors.
Qed.

(** The part all three effects start with. *)
Lemma wp_effect_start w l n o K ele els es e e1 b (k : nat -> M E unit) R :
  rargv (cli w) = Some (l, n) -> msg_op l K ele o -> cview (srv w) K els es -> find_elem (srv w) els ele = Ok e ->
  remove_elem e (op_vc o) = Ok (e1, b) -> Z.of_nat (length es) + 1 < 2 ^ 32 -> (length es < draws (rng (srv w)))%nat ->
  (forall p w' es', step_to w w' K (<[ele := e1]> els) es es' 0 -> points (srv w') K ele p ->
     (forall k, zscore k es' = if decide (k = ele /\ b = true) then None else zscore k es) -> wp (k p) w' R) ->
  wp (p ← GET_RWFZE rargv_at true; p ← not_null p; _ ← rwfz_removeFunc p (op_vc o); k p) w R.
Proof.
  intros Hr Hm Hv He Hrem Hsm Hdr Hk. apply wp_bind. eapply wp_mono; [by eapply (wp_GET_rargv w l n o K ele els es e)|].
  intros r w1 (p & -> & Hst1 & Hp1). apply wp_bind. eapply wp_lift; [done|]. apply wp_bind.
  pose proof (st_draws _ _ _ _ _ _ _ _ Hst1) as Hd1. cbn [Nat.mul Nat.add] in Hd1.
  eapply wp_mono; [eapply (wp_removeFunc w1 l n o K ele (<[ele := e]> els) es p e e1 b)|].
  - eapply step_rargv; [exact Hst1|exact Hr].
  - done.
  - apply (st_view _ _ _ _ _ _ _ _ Hst1).
  - done.
  - by rewrite lookup_insert_eq.
  - done.
  - done.
  - lia.
  - intros r w2 (-> & Hp2 & es' & Hst2 & Hsc). rewrite insert_insert_eq in Hst2. apply (Hk p w2 es'); [|done|done].
    exact (step_trans _ _ _ _ _ _ _ _ _ _ _ _ Hst1 Hst2).
Qed.

(** An operation that is outdated leaves the element as the removal left it. *)
Lemma wp_write_same w w1 K ele els es es1 p e e1 b t :
  step_to w w1 K (<[ele := e1]> els) es es1 0 -> points (srv w1) K ele p -> mirrored els es ->
  find_elem (srv w) els ele = Ok e -> remove_elem e t = Ok (e1, b) ->
  (forall k, zscore k es1 = if decide (k = ele /\ b = true) then None else zscore k es) ->
  wp (store p e1) w1 (fun r w' => r = Some tt /\
    exists es', step_to w w' K (<[ele := e1]> els) es es' 1 /\ mirrored (<[ele := e1]> els) es').
Proof.
  intros Hst Hp Hmir He Hrem Hsc. eapply wp_store; [apply (st_view _ _ _ _ _ _ _ _ Hst)|done|by rewrite lookup_insert_eq|].
  intros w2 Hst2. rewrite insert_insert_eq in Hst2. split; [done|]. exists es1.
  pose proof (step_trans _ _ _ _ _ _ _ _ _ _ _ _ Hst Hst2) as [??????]. split; [split; try done; lia|].
  apply (mirrored_insert els es); [done| |by eapply remove_mirrors].
  intros k Hk. rewrite Hsc, decide_False; [done|tauto].
Qed.

(** The rest of an add or an increment: the check, and the element written when
    it passes. *)
Lemma wp_checked w l n o K ele els es e e1 b h c e2 v (chk : reh -> vc -> reh * bool) (upd : reh -> double -> rwfze -> rwfze) :
  rargv (cli w) = Some (l, n) -> msg_op l K ele o -> cview (srv w) K els es -> mirrored els es ->
  find_elem (srv w) els ele = Ok e -> remove_elem e (op_vc o) = Ok (e1, b) ->
  chk (header e1) (op_vc o) = (h, c) -> e2 = (if c then upd h v e1 else e1) ->
  (c = true -> EXISTS (header e2) = true) -> (c = false -> h = header e1) ->
  (isnan (SCORE e2) = false -> prints_back (SCORE e2)) ->
  Z.of_nat (length es) + 1 < 2 ^ 32 -> (length es < draws (rng (srv w)))%nat ->
  wp (p ← GET_RWFZE rargv_at true; p ← not_null p; _ ← rwfz_removeFunc p (op_vc o);
      e0 ← load p;
      let '(h, b) := chk (header e0) (op_vc o) in
      _ ← store p (mkRwfze h (innate e0) (acquired e0));
      if b then v ← lift (of_option Uninitialised (Some v)); _ ← store p (upd h v e0); rwfz_follow p
      else skip) w (fun r w' => r = Some tt /\
    exists es', step_to w w' K (<[ele := e2]> els) es es' 1 /\ mirrored (<[ele := e2]> els) es').
Proof.
  intros Hr Hm Hv Hmir He Hrem Hchk He2 Hex Hsame Hpb Hsm Hdr.
  apply (wp_effect_start w l n o K ele els es e e1 b
    (fun p => e0 ← load p; let '(h, b) := chk (header e0) (op_vc o) in
              _ ← store p (mkRwfze h (innate e0) (acquired e0));
              if b then v ← lift (of_option Uninitialised (Some v)); _ ← store p (upd h v e0); rwfz_follow p
              else skip)); try done.
  intros p w1 es1 Hst1 Hp1 Hsc1. apply wp_bind.
  eapply wp_load; [apply (st_view _ _ _ _ _ _ _ _ Hst1)|done|by rewrite lookup_insert_eq|]. rewrite Hchk.
  destruct c.
  - apply wp_bind. eapply wp_store; [apply (st_view _ _ _ _ _ _ _ _ Hst1)|done|by rewrite lookup_insert_eq|].
    intros w2 Hst2. rewrite insert_insert_eq in Hst2. apply wp_bind. eapply wp_lift; [done|]. subst e2.
    pose proof (step_trans _ _ _ _ _ _ _ _ _ _ _ _ Hst1 Hst2) as Hst12.
    eapply wp_write_follow; [exact Hst12| |exact Hm| |exact Hmir| |by apply Hex|done..].
    + eapply step_rargv; [exact Hst12|exact Hr].
    + by apply (st_points _ _ _ _ _ _ _ _ Hst2).
    + intros k Hk. rewrite Hsc1, decide_False; [done|tauto].
  - rewrite (Hsame eq_refl). replace (mkRwfze (header e1) (innate e1) (acquired e1)) with e1 in * by (by destruct e1).
    subst e2. apply wp_bind. eapply wp_mono; [by eapply wp_write_same|]. intros r w2 (-> & Hres). wp_steps. done.
Qed.

Lemma wp_rem_effect w l n t K ele els es e e1 b :
  rargv (cli w) = Some (l, n) -> msg_op l K ele (RwfzRem t) -> cview (srv w) K els es -> mirrored els es ->
  find_elem (srv w) els ele = Ok e -> remove_elem e t = Ok (e1, b) ->
  Z.of_nat (length es) + 1 < 2 ^ 32 -> (length es < draws (rng (srv w)))%nat ->
  wp rwfzrem_effect w (fun r w' => r = Some tt /\
    exists es', step_to w w' K (<[ele := e1]> els) es es' 1 /\ mirrored (<[ele := e1]> els) es').
Proof.
  intros Hr Hm Hv Hmir He Hrem Hsm Hdr. unfold rwfzrem_effect.
  apply wp_bind. eapply wp_mono; [by eapply (wp_GET_rargv w l n _ K ele els es e)|].
  intros r w1 (p & -> & Hst1 & Hp1). apply wp_bind. eapply wp_lift; [done|]. apply wp_bind.
  assert (rargv (cli w1) = Some (l, n)) as Hr1 by (eapply step_rargv; [exact Hst1|exact Hr]).
  eapply (wp_CR_GET_LAST w1 l n (RwfzRem t)); [done..|]. cbn [op_vc].
  pose proof (st_draws _ _ _ _ _ _ _ _ Hst1) as Hd1. cbn [Nat.mul Nat.add] in Hd1.
  eapply wp_mono; [eapply (wp_removeFunc w1 l n (RwfzRem t) K ele (<[ele := e]> els) es p e e1 b); try done|].
  - apply (st_view _ _ _ _ _ _ _ _ Hst1).
  - by rewrite lookup_insert_eq.
  - lia.
  - intros r w2 (-> & Hp2 & es' & Hst2 & Hsc). rewrite insert_insert_eq in Hst2. split; [done|]. exists es'.
    pose proof (step_trans _ _ _ _ _ _ _ _ _ _ _ _ Hst1 Hst2) as [??????]. split; [split; try done; lia|].
    apply (mirrored_insert els es); [done| |by eapply remove_mirrors].
    intros k Hk. rewrite Hsc, decide_False; [done|tauto].
Qed.

(** The effect phases refine the element functions. *)
Lemma wp_rwfz_effect w l n o K ele els es e e' :
  rargv (cli w) = Some (l, n) -> msg_op l K ele o -> cview (srv w) K els es -> mirrored els es ->
  find_elem (srv w) els ele = Ok e -> rwfz_effect e o = Ok e' -> 0 <= vid (op_vc o) ->
  (isnan (SCORE e') = false -> prints_back (SCORE e')) ->
  Z.of_nat (length es) + 1 < 2 ^ 32 -> (length es < draws (rng (srv w)))%nat ->
  wp (rwfz_effect_cmd o) w (fun r w' => r = Some tt /\
    exists es', step_to w w' K (<[ele := e']> els) es es' 1 /\ mirrored (<[ele := e']> els) es').
Proof.
  intros Hr Hm Hv Hmir He Heff Ht Hpb Hsm Hdr. unfold rwfz_effect in Heff.
  destruct (remove_elem e _) as [[e1 b]|] eqn:Hrem; [|done]. cbn [mbind res_bind] in Heff.
  destruct o as [v t|v t|t]; cbn [rwfz_effect_cmd op_vc] in *.
  - pose proof Hm as (_ & _ & _ & a & Ha & Hd). unfold rwfzadd_effect.
    apply wp_bind, (wp_rargv_at 3 l n a); [done..|]. rewrite Hd. apply wp_bind. eapply wp_CR_GET_LAST; [done..|].
    unfold add_elem in Heff. destruct (addCheck (header e1) t) as [h c] eqn:Hac.
    apply (wp_checked w l n (RwfzAdd v t) K ele els es e e1 b h c e' v addCheck (fun h v e0 => mkRwfze h v (acquired e0)));
      try done; destruct c; injection Heff as <-; try done.
    + apply addCheck_same in Hac as ->. by destruct e1.
    + intros _. by eapply addCheck_exists.
    + intros _. by apply addCheck_same in Hac.
  - pose proof Hm as (_ & _ & _ & a & Ha & Hd). unfold rwfzincrby_effect.
    apply wp_bind, (wp_rargv_at 3 l n a); [done..|]. rewrite Hd. apply wp_bind. eapply wp_CR_GET_LAST; [done..|].
    unfold incr_elem in Heff. destruct (updateCheck (header e1) t) as [h c] eqn:Hac.
    apply (wp_checked w l n (RwfzIncr v t) K ele els es e e1 b h c e' v updateCheck
             (fun h v e0 => mkRwfze h (innate e0) (dadd (acquired e0) v)));
      try done; destruct c; injection Heff as <-; try done.
    + apply updateCheck_same in Hac as ->. by destruct e1.
    + intros _. by eapply updateCheck_exists.
    + intros _. by apply updateCheck_same in Hac.
  - injection Heff as <-. by eapply wp_rem_effect.
Qed.

(** ** Commands of a client *)

Inductive rwfz_user := UAdd (a : string) | UIncr (a : string) | URem.

Definition user_args (K ele : string) (u : rwfz_user) : list string :=
  match u with
  | UAdd a => ["rwfzadd"; K; ele; a]
  | UIncr a => ["rwfzincrby"; K; ele; a]
  | URem => ["rwfzrem"; K; ele]
  end.

Definition user_cmd (u : rwfz_user) : M E unit :=
  match u with
  | UAdd _ => rwfzaddCommand
  | UIncr _ => rwfzincrbyCommand
  | URem => rwfzremCommand
  end.

(** The next remove of the replica: its own entry incremented. *)
Definition next_remove (c : vc) : vc :=
  mkVc (<[Z.to_nat (vid c) := entry (vector c) (vid c) + 1]> (vector c)) (vid c).

(** What the command asks for when it is accepted. *)
Definition user_op (e : rwfze) (u : rwfz_user) : option rwfz_op :=
  match u with
  | UAdd a =>
      v ← getDoubleFromObject a;
      if EXISTS (header e) then None else Some (RwfzAdd v (current (header e)))
  | UIncr a =>
      v ← getDoubleFromObject a;
      if EXISTS (header e) then Some (RwfzIncr v (current (header e))) else None
  | URem => if EXISTS (header e) then Some (RwfzRem (next_remove (current (header e)))) else None
  end.

(** The reply to a command that is refused. *)
Definition user_refused (u : rwfz_user) : reply :=
  match u with
  | UAdd a => match getDoubleFromObject a with Some _ => ele_exist | None => RErr "value is not a valid float" end
  | UIncr a => match getDoubleFromObject a with Some _ => ele_nexist | None => RErr "value is not a valid float" end
  | URem => ele_nexist
  end.

(** A fresh client that sends the command. *)
Definition local_client (K ele : string) (u : rwfz_user) (c : client) : Prop :=
  argv c = user_args K ele u /\ rargv c = None /\ is_replica c = false /\ replica_message c = false.

Lemma local_reply K ele u c : local_client K ele u c -> prepareClientToWrite c = true.
Proof. intros (_ & _ & Hi & _). unfold prepareClientToWrite. by rewrite Hi. Qed.

(** The stamp the prepare phase adds, read back at the replicas. *)
Definition stamp_of (u : rwfz_user) (h : reh) : res string :=
  match u with URem => vc_now (current h) | _ => vcToSds (current h) end.

Lemma stamp_roundtrip N e u o :
  wf_vc N (current (header e)) -> (0 < N <= VC_INT_BUF)%nat -> user_op e u = Some o ->
  exists str, stamp_of u (header e) = Ok str /\ sdsToVC str = Ok (op_vc o).
Proof.
  intros Hwf HN Ho. destruct u as [a|a|]; cbn [user_op stamp_of] in *.
  - destruct (getDoubleFromObject a); [|done]. cbn [mbind option_bind] in Ho. destruct (EXISTS _); [done|].
    injection Ho as <-. by eapply wf_vc_roundtrip.
  - destruct (getDoubleFromObject a); [|done]. cbn [mbind option_bind] in Ho. destruct (EXISTS _); [|done].
    injection Ho as <-. by eapply wf_vc_roundtrip.
  - destruct (EXISTS _); [|done]. injection Ho as <-. cbn [op_vc]. unfold next_remove.
    pose proof (wf_id _ _ Hwf) as Hid. pose proof (wf_size _ _ Hwf) as Hsz.
    destruct (lookup_lt_is_Some_2 (vector (current (header e))) (Z.to_nat (vid (current (header e))))) as [x Hx]; [lia|].
    destruct (vc_now_spec N _ x Hwf HN Hx) as (str & Hn & Hs). exists str. split; [done|]. rewrite Hs.
    do 3 f_equal. unfold entry. by rewrite Hx.
Qed.

(** ** The prepare phase *)

Definition user_prepare (u : rwfz_user) : M E unit :=
  match u with
  | UAdd _ => rwfzadd_prepare
  | UIncr _ => rwfzincrby_prepare
  | URem => rwfzrem_prepare
  end.

Lemma wp_check_argc max w (Q : option unit -> world E -> Prop) :
  2 <= Z.of_nat (length (argv (cli w))) <= max -> Q (Some tt) w -> wp (CHECK_ARGC max) w Q.
Proof.
  intros Hn HQ. unfold CHECK_ARGC, argc. wp_steps. rewrite (proj2 (Z.ltb_ge _ _)) by lia.
  rewrite (proj2 (Z.ltb_ge _ _)) by lia. cbn [orb]. by wp_steps.
Qed.

Lemma wp_check_container w K els es (Q : option unit -> world E -> Prop) :
  argv (cli w) !! 1%nat = Some K -> cview (srv w) K els es -> Q (Some tt) w -> wp (CHECK_CONTAINER_TYPE OBJ_ZSET) w Q.
Proof.
  intros Hk [_ Hz _] HQ. unfold CHECK_CONTAINER_TYPE. apply wp_bind, (wp_argv_at 1 K); [done|].
  apply wp_bind, wp_lookupKey. unfold zset_view in Hz. destruct (db (srv w) !! K) as [[h|z|t b1 b2]|]; try done; [rewrite decide_True by done|]; by wp_steps.
Qed.

Lemma wp_check_double w i a (Q : option unit -> world E -> Prop) :
  argv (cli w) !! i = Some a -> prepareClientToWrite (cli w) = true ->
  match getDoubleFromObject a with
  | Some _ => Q (Some tt) w
  | None => Q None (mkWorld (srv w) (add_out (cli w) (RErr "value is not a valid float")) (capacity w))
  end -> wp (CHECK_ARG_TYPE_DOUBLE i) w Q.
Proof.
  intros Ha Hp HQ. unfold CHECK_ARG_TYPE_DOUBLE. apply wp_bind, (wp_argv_at i a); [done|]. apply wp_bind.
  unfold getDoubleFromObjectOrReply. destruct (getDoubleFromObject a); [by wp_steps|].
  apply wp_bind, wp_addReply. rewrite Hp. by wp_steps.
Qed.

(** The state in which an accepted command enters its effect phase. *)
Definition prepared w w' (K ele : string) (els : gmap string rwfze) (es : list zentry) (e : rwfze) (str : string) (u : rwfz_user) : Prop :=
  moved suffix (srv w) (srv w') K (<[ele := e]> els) es es 0 /\ is_replica (cli w') = false /\ replica_message (cli w') = false /\
  out (cli w') = out (cli w) /\ exists n, rargv (cli w') = Some (user_args K ele u ++ [str], n).

Lemma prepared_add w w1 w2 K ele els es e str u :
  local_client K ele u (cli w) -> step_to w w1 K (<[ele := e]> els) es es 0 ->
  same_but_rargv w1 w2 -> (exists n, rargv (cli w2) = Some (argv (cli w1) ++ [] ++ [str], n)) ->
  prepared w w2 K ele els es e str u.
Proof.
  intros (Ha & Hr & Hi & Hm) Hst [Hs Hc] [n Hn]. pose proof (step_moved _ _ _ _ _ _ _ _ Hst) as Hmv.
  rewrite (st_cli _ _ _ _ _ _ _ _ Hst) in Hc, Hn. rewrite Ha in Hn. injection Hc as Ha2 Hi2 Hm2 Ho2.
  unfold prepared. rewrite Hs. split_and!; [done|congruence|congruence|congruence|eauto].
Qed.

(** [RARGV_ADD_SDS] of the stamp in a prepare phase that added nothing so far. *)
Lemma wp_stamp w w1 K ele els es e str u st :
  local_client K ele u (cli w) -> capacity w = Z.of_nat (length (user_args K ele u)) + ADDITIONAL_CAPACITY ->
  step_to w w1 K (<[ele := e]> els) es es 0 -> st = Ok str ->
  wp (str ← lift st; RARGV_ADD_SDS str) w1 (fun r w' => r = Some tt /\ prepared w w' K ele els es e str u).
Proof.
  intros Hl Hcap Hst ->. apply wp_bind. eapply wp_lift; [done|]. pose proof Hl as (Ha & Hr & _ & _).
  eapply wp_mono; [apply (wp_RARGV_grow str w1 [])|].
  - unfold grown. rewrite (st_cli _ _ _ _ _ _ _ _ Hst), (st_cap _ _ _ _ _ _ _ _ Hst), Hr, Ha. by split.
  - rewrite (st_cli _ _ _ _ _ _ _ _ Hst), Ha. by destruct u.
  - intros r w' (-> & Hsb & _ & Hn). split; [done|]. by eapply prepared_add.
Qed.

(** The element as the prepare phases find it. *)
Lemma wp_GET_argv_new w K ele els es e u :
  local_client K ele u (cli w) -> cview (srv w) K els es -> find_elem (srv w) els ele = Ok e ->
  wp (p ← GET_RWFZE argv_at true; header_of p) w (fun r w' =>
    r = Some (Some (header e)) /\ step_to w w' K (<[ele := e]> els) es es 0).
Proof.
  intros (Ha & _) Hv He. apply wp_bind. unfold GET_RWFZE.
  apply wp_bind, (wp_argv_at 1 K); [by rewrite Ha; destruct u|].
  apply wp_bind, (wp_argv_at 2 ele); [by rewrite Ha; destruct u|].
  eapply wp_mono.
  - apply (wp_get suffix rwf_suffix_ne w K els es ele _ e Hv). intros Hn s' (Hc & Hi & _).
    unfold find_elem in He. rewrite Hn in He. by rewrite Hc, Hi.
  - intros r w' (p & -> & Hst & Hp).
    assert (default e (els !! ele) = e) as Hd by (unfold find_elem in He; destruct (els !! ele); [by injection He as ->|done]).
    rewrite Hd in Hst. cbn [header_of]. apply wp_bind.
    eapply wp_load; [apply (st_view _ _ _ _ _ _ _ _ Hst)|done|by rewrite lookup_insert_eq|]. by wp_steps.
Qed.

Lemma wp_GET_argv_find w K ele els es u :
  local_client K ele u (cli w) -> cview (srv w) K els es ->
  wp (p ← GET_RWFZE argv_at false; header_of p) w (fun r w' => w' = w /\ r = Some (header <$> els !! ele)).
Proof.
  intros (Ha & _) Hv. apply wp_bind. unfold GET_RWFZE.
  apply wp_bind, (wp_argv_at 1 K); [by rewrite Ha; destruct u|].
  apply wp_bind, (wp_argv_at 2 ele); [by rewrite Ha; destruct u|].
  eapply wp_mono; [by apply (wp_find suffix w K els es)|]. intros r w' [-> Hf]. destruct (els !! ele) as [e|] eqn:He.
  - destruct Hf as (p & -> & Hp). cbn [header_of]. apply wp_bind. eapply wp_load; [done..|]. by wp_steps.
  - subst r. cbn [header_of]. by wp_steps.
Qed.

(** What a prepare phase does: it is refused with a reply and changes nothing,
    or it leaves the arguments to broadcast. *)
Definition prepare_ok w w' (r : option unit) (K ele : string) (els : gmap string rwfze) (es : list zentry)
    (e : rwfze) (u : rwfz_user) : Prop :=
  match user_op e u with
  | None => r = None /\ moved suffix (srv w) (srv w') K els es es 0 /\ cli w' = add_out (cli w) (user_refused u)
  | Some o => r = Some tt /\ exists str, sdsToVC str = Ok (op_vc o) /\ prepared w w' K ele els es e str u
  end.

Lemma bind_assoc {A B C} (m : M E A) (f : A -> M E B) (g : B -> M E C) w :
  ((m ≫= f) ≫= g) w = (m ≫= fun a => f a ≫= g) w.
Proof. unfold mbind, M_bind. by destruct (m w) as [[[a|] w']|]. Qed.

Lemma wp_assoc {A B C} (m : M E A) (f : A -> M E B) (g : B -> M E C) w Q :
  wp ((m ≫= f) ≫= g) w Q -> wp (m ≫= fun a => f a ≫= g) w Q.
Proof. intros (r & w' & Hrun & HQ). exists r, w'. by rewrite <- bind_assoc. Qed.

Lemma moved_refl s K els es : cview s K els es -> moved suffix s s K els es es 0.
Proof. intros H. split; [by split_and!|done|lia|lia]. Qed.

Lemma wp_add_prepare w K ele els es e a N :
  local_client K ele (UAdd a) (cli w) -> capacity w = 4 + ADDITIONAL_CAPACITY -> cview (srv w) K els es ->
  find_elem (srv w) els ele = Ok e -> wf_vc N (current (header e)) -> (0 < N <= VC_INT_BUF)%nat ->
  wp rwfzadd_prepare w (fun r w' => prepare_ok w w' r K ele els es e (UAdd a)).
Proof.
  intros Hl Hcap Hv He Hwf HN. pose proof Hl as (Ha & _). pose proof (local_reply _ _ _ _ Hl) as Hrep.
  unfold rwfzadd_prepare. apply wp_bind, wp_check_argc; [rewrite Ha; simpl; lia|].
  apply wp_bind, (wp_check_container w K els es); [by rewrite Ha|done|].
  apply wp_bind, (wp_check_double w 3 a); [by rewrite Ha|done|]. unfold prepare_ok. cbn [user_op user_refused].
  destruct (getDoubleFromObject a) as [v|] eqn:Hd; cbn [mbind option_bind].
  2:{ split_and!; [done|by apply moved_refl|done]. }
  apply wp_assoc, wp_bind. eapply wp_mono; [by eapply wp_GET_argv_new|]. intros r w1 [-> Hst].
  apply wp_bind. cbn [PREPARE_PRECOND_ADD]. destruct (EXISTS (header e)) eqn:Hex.
  - apply wp_bind, wp_addReply. rewrite (st_cli _ _ _ _ _ _ _ _ Hst), Hrep. wp_steps. split_and!; [done| |done].
    assert (els !! ele = Some e) as Hin.
    { unfold find_elem in He. destruct (els !! ele); [by injection He as ->|]. unfold rwfzeNew, REH_INIT in He.
      destruct (_vc_new _ _); [|done]. by injection He as <-. }
    pose proof (step_moved _ _ _ _ _ _ _ _ Hst) as Hmv. by rewrite insert_id in Hmv.
  - wp_steps. apply (wp_lift _ (header e)); [done|].
    destruct (stamp_roundtrip N e (UAdd a) (RwfzAdd v (current (header e))) Hwf HN) as (str & Hst1 & Hst2).
    { cbn [user_op]. rewrite Hd. cbn [mbind option_bind]. by rewrite Hex. }
    eapply wp_mono; [by eapply (wp_stamp w w1 K ele els es e str (UAdd a))|]. intros r w2 [-> Hp]. eauto.
Qed.

(** The prepare phases of the commands that need the element to exist. *)
Lemma wp_nonadd_prepare w K ele els es e u N :
  u = URem \/ (exists a v, u = UIncr a /\ getDoubleFromObject a = Some v) ->
  local_client K ele u (cli w) -> capacity w = Z.of_nat (length (user_args K ele u)) + ADDITIONAL_CAPACITY ->
  cview (srv w) K els es -> find_elem (srv w) els ele = Ok e -> wf_vc N (current (header e)) -> (0 < N <= VC_INT_BUF)%nat ->
  wp (p ← GET_RWFZE argv_at false; h ← header_of p; _ ← PREPARE_PRECOND_NON_ADD h; h ← not_null h;
      str ← lift (stamp_of u h); RARGV_ADD_SDS str) w (fun r w' => prepare_ok w w' r K ele els es e u).
Proof.
  intros Hu Hl Hcap Hv He Hwf HN. pose proof (local_reply _ _ _ _ Hl) as Hrep.
  assert (user_refused u = ele_nexist) as Hrf.
  { destruct Hu as [->|(a & v & -> & Hd)]; cbn [user_refused]; [done|by rewrite Hd]. }
  assert (EXISTS (header e) = false -> user_op e u = None) as Hop0.
  { intros Hex. destruct Hu as [->|(a & v & -> & Hd)]; cbn [user_op]; [by rewrite Hex|]. rewrite Hd. cbn. by rewrite Hex. }
  assert (EXISTS (header e) = true -> exists o, user_op e u = Some o) as Hop1.
  { intros Hex. destruct Hu as [->|(a & v & -> & Hd)]; cbn [user_op]; [rewrite Hex; eauto|]. rewrite Hd. cbn. rewrite Hex. eauto. }
  apply wp_assoc, wp_bind. eapply wp_mono; [by eapply wp_GET_argv_find|]. intros r w1 [-> ->].
  unfold prepare_ok. apply wp_bind.
  assert (forall w', w' = mkWorld (srv w) (add_out (cli w) ele_nexist) (capacity w) -> user_op e u = None ->
    prepare_ok w w' None K ele els es e u) as Href.
  { intros w' -> Hno. unfold prepare_ok. rewrite Hno, Hrf. split_and!; [done|by apply moved_refl|done]. }
  unfold find_elem in He. destruct (els !! ele) as [e0|] eqn:Hin; cbn [fmap option_fmap option_map].
  - injection He as ->. cbn [PREPARE_PRECOND_NON_ADD]. destruct (EXISTS (header e)) eqn:Hex.
    + wp_steps. apply (wp_lift _ (header e)); [done|]. destruct (Hop1 eq_refl) as [o Ho]. rewrite Ho.
      destruct (stamp_roundtrip N e u o Hwf HN Ho) as (str & Hst1 & Hst2).
      eapply wp_mono; [eapply (wp_stamp w w K ele els es e str u); [done|done| |done]|].
      { rewrite insert_id by done. by apply step_refl. }
      intros r w2 [-> Hp]. eauto.
    + apply wp_bind, wp_addReply. rewrite Hrep. wp_steps. by apply Href; [|apply Hop0].
  - cbn [PREPARE_PRECOND_NON_ADD]. apply wp_bind, wp_addReply. rewrite Hrep. wp_steps. apply Href; [done|apply Hop0].
    unfold rwfzeNew, REH_INIT in He. destruct (_vc_new _ _); [|done]. by injection He as <-.
Qed.

Lemma wp_prepare w K ele els es e u N :
  local_client K ele u (cli w) -> capacity w = Z.of_nat (length (user_args K ele u)) + ADDITIONAL_CAPACITY ->
  cview (srv w) K els es -> find_elem (srv w) els ele = Ok e -> wf_vc N (current (header e)) -> (0 < N <= VC_INT_BUF)%nat ->
  wp (user_prepare u) w (fun r w' => prepare_ok w w' r K ele els es e u).
Proof.
  intros Hl Hcap Hv He Hwf HN. pose proof Hl as (Ha & _). pose proof (local_reply _ _ _ _ Hl) as Hrep.
  destruct u as [a|a|]; cbn [user_prepare].
  - by eapply wp_add_prepare.
  - unfold rwfzincrby_prepare. apply wp_bind, wp_check_argc; [rewrite Ha; simpl; lia|].
    apply wp_bind, (wp_check_container w K els es); [by rewrite Ha|done|].
    apply wp_bind, (wp_check_double w 3 a); [by rewrite Ha|done|]. destruct (getDoubleFromObject a) as [v|] eqn:Hd.
    + apply (wp_nonadd_prepare w K ele els es e (UIncr a) N); try done. right. eauto.
    + unfold prepare_ok. cbn [user_op user_refused]. rewrite Hd. cbn [mbind option_bind].
      split_and!; [done|by apply moved_refl|done].
  - unfold rwfzrem_prepare. apply wp_bind, wp_check_argc; [rewrite Ha; simpl; lia|].
    apply wp_bind, (wp_check_container w K els es); [by rewrite Ha|done|].
    apply (wp_nonadd_prepare w K ele els es e URem N); try done. by left.
Qed.

Lemma rwfz_effect_Ok e o : length (vector (current (header e))) = length (vector (op_vc o)) -> is_Ok (rwfz_effect e o).
Proof.
  intros Hlen. unfold rwfz_effect, remove_elem. rewrite removeCheck_spec by done. cbn [mbind res_bind].
  by destruct (decide _), o; eexists.
Qed.

Lemma user_op_size e u o N : wf_vc N (current (header e)) -> user_op e u = Some o ->
  length (vector (op_vc o)) = N /\ vid (op_vc o) = vid (current (header e)).
Proof.
  intros Hwf Ho. destruct u as [a|a|]; cbn [user_op] in Ho.
  - destruct (getDoubleFromObject a); [|done]. cbn in Ho. destruct (EXISTS _); [done|]. injection Ho as <-.
    split; [apply (wf_size _ _ Hwf)|done].
  - destruct (getDoubleFromObject a); [|done]. cbn in Ho. destruct (EXISTS _); [|done]. injection Ho as <-.
    split; [apply (wf_size _ _ Hwf)|done].
  - destruct (EXISTS _); [|done]. injection Ho as <-. cbn. rewrite length_insert. split; [apply (wf_size _ _ Hwf)|done].
Qed.

Lemma user_msg K ele u e o str :
  user_op e u = Some o -> sdsToVC str = Ok (op_vc o) -> msg_op (user_args K ele u ++ [str]) K ele o.
Proof.
  intros Ho Hs. destruct u as [a|a|]; cbn [user_op] in Ho.
  - destruct (getDoubleFromObject a) as [v|] eqn:Hd; [|done]. cbn in Ho. destruct (EXISTS _); [done|].
    injection Ho as <-. split_and!; try done; eauto.
  - destruct (getDoubleFromObject a) as [v|] eqn:Hd; [|done]. cbn in Ho. destruct (EXISTS _); [|done].
    injection Ho as <-. split_and!; try done; eauto.
  - destruct (EXISTS _); [|done]. injection Ho as <-. split_and!; try done; eauto.
Qed.

Lemma user_effect e u o : user_op e u = Some o -> user_cmd u = crdt_command (user_prepare u) (rwfz_effect_cmd o).
Proof.
  destruct u as [a|a|]; cbn [user_op].
  - destruct (getDoubleFromObject a); [|done]. cbn. destruct (EXISTS _); [done|]. by intros [= <-].
  - destruct (getDoubleFromObject a); [|done]. cbn. destruct (EXISTS _); [|done]. by intros [= <-].
  - destruct (EXISTS _); [|done]. by intros [= <-].
Qed.

Lemma user_shape u : exists eff, user_cmd u = crdt_command (user_prepare u) eff.
Proof. destruct u; by eexists. Qed.

(** The elements with the one the command works on made explicit. *)
Lemma mirrored_elem s els es ele e :
  mirrored els es -> find_elem s els ele = Ok e -> mirrored (<[ele := e]> els) es.
Proof.
  intros Hm He. apply (mirrored_insert els es); [done|done|]. specialize (Hm ele). unfold find_elem in He.
  destruct (els !! ele) as [e0|] eqn:Hl; [by injection He as ->|]. rewrite Hm.
  unfold rwfzeNew, REH_INIT in He. destruct (_vc_new _ _); [|done]. by injection He as <-.
Qed.

(** What a command does at the replica it is issued at. *)
Definition local_ok w w' (K ele : string) (els : gmap string rwfze) (es : list zentry) (e : rwfze) (u : rwfz_user) : Prop :=
  is_replica (cli w') = false /\
  match user_op e u with
  | None =>
      rargv (cli w') = None /\ out (cli w') = out (cli w) ++ [user_refused u] /\
      moved suffix (srv w) (srv w') K els es es 0
  | Some o =>
      exists str n e' es', sdsToVC str = Ok (op_vc o) /\ rargv (cli w') = Some (user_args K ele u ++ [str], n) /\
        out (cli w') = out (cli w) ++ [ROk] /\ rwfz_effect e o = Ok e' /\
        moved suffix (srv w) (srv w') K (<[ele := e']> els) es es' 1 /\ mirrored (<[ele := e']> els) es'
  end.

Lemma moved_trans s s1 s2 K els1 els2 es es1 es2 c1 c2 :
  moved suffix s s1 K els1 es es1 c1 -> moved suffix s1 s2 K els2 es1 es2 c2 ->
  moved suffix s s2 K els2 es es2 (c1 + c2).
Proof.
  intros [(?&?&?&?) ???] [(?&?&?&?) ???]. split; [unfold same_conf; split_and!; congruence|done|lia|].
  assert (c2 * S (length es1 + c2) <= c2 * S (length es + (c1 + c2)))%nat by (apply Nat.mul_le_mono_l; lia).
  assert (c1 * S (length es + c1) <= c1 * S (length es + (c1 + c2)))%nat by (apply Nat.mul_le_mono_l; lia). lia.
Qed.

Lemma wp_local w K ele els es e u N :
  local_client K ele u (cli w) -> REPLICATION_MODE (srv w) = true -> cview (srv w) K els es -> mirrored els es ->
  find_elem (srv w) els ele = Ok e -> wf_vc N (current (header e)) -> (0 < N <= VC_INT_BUF)%nat ->
  (forall o e', user_op e u = Some o -> rwfz_effect e o = Ok e' -> isnan (SCORE e') = false -> prints_back (SCORE e')) ->
  Z.of_nat (length es) + 1 < 2 ^ 32 -> (length es < draws (rng (srv w)))%nat ->
  wp (user_cmd u) w (fun r w' => r = None /\ local_ok w w' K ele els es e u).
Proof.
  intros Hl Hmode Hv Hmir He Hwf HN Hpb Hsm Hdr. pose proof Hl as (Ha & Hra & Hi & Hrm).
  assert (exists eff, user_cmd u = crdt_command (user_prepare u) eff /\
            forall o, user_op e u = Some o -> eff = rwfz_effect_cmd o) as (eff & -> & Heff).
  { destruct (user_op e u) as [o|] eqn:Ho.
    - exists (rwfz_effect_cmd o). split; [by eapply user_effect|]. by intros ? [= ->].
    - destruct (user_shape u) as [eff ->]. by exists eff. }
  unfold crdt_command. wp_steps. rewrite Hmode. wp_steps. rewrite Hi. wp_steps.
  set (w0 := mkWorld (srv w) (cli w) _).
  eapply wp_mono; [apply (wp_prepare w0 K ele els es e u N)|]; try done; [by unfold w0; cbn [capacity]; rewrite Ha|].
  intros r w1 Hpre. unfold prepare_ok in Hpre. unfold local_ok. destruct (user_op e u) as [o|] eqn:Ho.
  2:{ destruct Hpre as (-> & Hmv & Hc). cbn. split; [done|]. rewrite Hc. by split_and!. }
  destruct Hpre as (-> & str & Hs & Hmv & Hi1 & Hrm1 & Hout & n & Hr1). wp_steps. apply wp_addReply.
  unfold prepareClientToWrite. rewrite Hi1. cbn [andb negb]. unfold init_if_null. wp_steps. cbn [rargv add_out].
  rewrite Hr1. wp_steps. rewrite (Heff o eq_refl).
  destruct (user_op_size e u o N Hwf Ho) as [Hsz Hid].
  destruct (rwfz_effect_Ok e o) as [e' He']; [by rewrite Hsz, (wf_size _ _ Hwf)|].
  pose proof (mv_draws _ _ _ _ _ _ _ _ Hmv) as Hd1. cbn [Nat.mul Nat.add] in Hd1.
  eapply wp_mono; [eapply (wp_rwfz_effect _ (user_args K ele u ++ [str]) n o K ele (<[ele := e]> els) es e e')|]; cbn [cli srv rargv add_out].
  - exact Hr1.
  - by eapply user_msg.
  - apply (mv_view _ _ _ _ _ _ _ _ Hmv).
  - by eapply mirrored_elem.
  - unfold find_elem. by rewrite lookup_insert_eq.
  - done.
  - rewrite Hid. apply (wf_id _ _ Hwf).
  - by eapply Hpb.
  - done.
  - cbn [w0 srv] in Hd1. lia.
  - intros r w2 (-> & es' & Hst & Hmir2). wp_steps. rewrite (st_cli _ _ _ _ _ _ _ _ Hst). cbn [cli add_out replica_message].
    rewrite Hrm1. wp_steps. split; [done|]. rewrite insert_insert_eq in Hst, Hmir2.
    rewrite (st_cli _ _ _ _ _ _ _ _ Hst). cbn [cli add_out rargv out is_replica]. split; [done|].
    exists str, n, e', es'. split_and!; try done.
    + by rewrite Hout.
    + exact (moved_trans _ _ _ _ _ _ _ _ _ _ _ Hmv (step_moved _ _ _ _ _ _ _ _ Hst)).
Qed.

(** What it does at a replica it was broadcast to. *)
Lemma wp_remote w l n o K ele els es e e' u e0 :
  rargv (cli w) = Some (l, n) -> is_replica (cli w) = true -> replica_message (cli w) = false ->
  REPLICATION_MODE (srv w) = true -> user_op e0 u = Some o -> msg_op l K ele o ->
  cview (srv w) K els es -> mirrored els es -> find_elem (srv w) els ele = Ok e -> rwfz_effect e o = Ok e' ->
  0 <= vid (op_vc o) -> (isnan (SCORE e') = false -> prints_back (SCORE e')) ->
  Z.of_nat (length es) + 1 < 2 ^ 32 -> (length es < draws (rng (srv w)))%nat ->
  wp (user_cmd u) w (fun r w' => r = None /\ cli w' = cli w /\
    exists es', moved suffix (srv w) (srv w') K (<[ele := e']> els) es es' 1 /\ mirrored (<[ele := e']> els) es').
Proof.
  intros Hr Hi Hrm Hmode Ho Hm Hv Hmir He Heff Hid Hpb Hsm Hdr. rewrite (user_effect _ _ _ Ho).
  unfold crdt_command. wp_steps. rewrite Hmode. wp_steps. rewrite Hi. wp_steps.
  eapply wp_mono; [by eapply (wp_rwfz_effect w l n o K ele els es e e')|].
  intros r w2 (-> & es' & Hst & Hmir2). wp_steps. rewrite (st_cli _ _ _ _ _ _ _ _ Hst), Hrm. wp_steps.
  split_and!; [done|apply (st_cli _ _ _ _ _ _ _ _ Hst)|]. exists es'. split; [|done]. by apply step_moved.
Qed.

(** C14 (functional): a complete RWFZADD, RWFZINCRBY or RWFZREM of a client,
    from its argument vector to its reply, on every branch.  It is refused with
    the error reply that fits (the value is no number, the element exists
    already, or not yet), broadcasts nothing and leaves the container as it
    was; or it is accepted, executes its operation on the element, leaves
    the arguments to broadcast with a clock every receiver reads back, and brings the
    sorted set in line with the element. *)
Theorem rwfz_local_command w K ele els es e u N :
  local_client K ele u (cli w) -> REPLICATION_MODE (srv w) = true -> cview (srv w) K els es -> mirrored els es ->
  find_elem (srv w) els ele = Ok e -> wf_vc N (current (header e)) -> (0 < N <= VC_INT_BUF)%nat ->
  (forall o e', user_op e u = Some o -> rwfz_effect e o = Ok e' -> isnan (SCORE e') = false -> prints_back (SCORE e')) ->
  Z.of_nat (length es) + 1 < 2 ^ 32 -> (length es < draws (rng (srv w)))%nat ->
  exists w', user_cmd u w = Ok (None, w') /\ local_ok w w' K ele els es e u.
Proof.
  intros. destruct (wp_local w K ele els es e u N) as (r & w' & Hrun & -> & Hok); try done. by exists w'.
Qed.

(** a command that arrives over a link, with any stamp, keeps
    the sorted set in line with the metadata: executed on a container where the
    scores mirror the elements, it leaves one where they do, with the element
    changed by its operation and no other; it sends no reply. *)
Theorem rwfz_remote_command w l n o K ele els es e e' u e0 :
  rargv (cli w) = Some (l, n) -> is_replica (cli w) = true -> replica_message (cli w) = false ->
  REPLICATION_MODE (srv w) = true -> user_op e0 u = Some o -> msg_op l K ele o ->
  cview (srv w) K els es -> mirrored els es -> find_elem (srv w) els ele = Ok e -> rwfz_effect e o = Ok e' ->
  0 <= vid (op_vc o) -> (isnan (SCORE e') = false -> prints_back (SCORE e')) ->
  Z.of_nat (length es) + 1 < 2 ^ 32 -> (length es < draws (rng (srv w)))%nat ->
  exists w' es', user_cmd u w = Ok (None, w') /\ cli w' = cli w /\
    cview (srv w') K (<[ele := e']> els) es' /\ mirrored (<[ele := e']> els) es'.
Proof.
  intros. destruct (wp_remote w l n o K ele els es e e' u e0) as (r & w' & Hrun & -> & Hc & es' & Hmv & Hm); try done.
  exists w', es'. split_and!; try done. apply Hmv.
Qed.
End Spec.

(** ** Commands on a server of two replicas *)

#[export] Instance rwfze_cell : Cell rwfze rwfze.
Proof. exists id Some. done. Defined.

Definition fresh_server : server rwfze := mkServer 2 0 [] (mkZcfg 128 64) ∅ ∅ 0 0 [65535; 65535].

Lemma fresh_view : cview RWF_RPQ_TABLE_SUFFIX fresh_server "q" ∅ [].
Proof. split; [done|done|]. by intros p [c Hc]. Qed.

Lemma fresh_mirrored : mirrored ∅ [].
Proof. by intros k. Qed.

Definition fresh_elem : rwfze := mkRwfze (mkReh PID_NEXIST (mkVc [0; 0] 0)) dzero dzero.

Definition first_add : rwfz_op := RwfzAdd (double_of_Z 5) (mkVc [0; 0] 0).

Lemma first_add_op : user_op fresh_elem (UAdd "5") = Some first_add.
Proof. by vm_compute. Qed.

Lemma first_add_prints e' : rwfz_effect fresh_elem first_add = Ok e' -> prints_back (SCORE e').
Proof.
  intros He. assert (match rwfz_effect fresh_elem first_add with Ok e => SCORE e = double_of_Z 5 | _ => False end) as H by (by vm_compute).
  rewrite He in H. rewrite H. by apply prints_back_Z.
Qed.

Lemma fresh_wf : wf_vc 2 (current (header fresh_elem)).
Proof. by repeat constructor. Qed.

Lemma rwfz_local_command_witness :
  let w := mkWorld fresh_server (mkClient ["rwfzadd"; "q"; "a"; "5"] None false false []) 0 in
  exists w', user_cmd (UAdd "5") w = Ok (None, w') /\ local_ok w w' "q" "a" ∅ [] fresh_elem (UAdd "5").
Proof.
  intros w. destruct (rwfz_local_command w "q" "a" ∅ [] fresh_elem (UAdd "5") 2) as (w' & Hrun & Hok).
  - by split_and!.
  - reflexivity.
  - apply fresh_view.
  - apply fresh_mirrored.
  - reflexivity.
  - apply fresh_wf.
  - unfold VC_INT_BUF. lia.
  - intros o e' Ho He' _. rewrite first_add_op in Ho. injection Ho as <-. by apply first_add_prints.
  - cbn. lia.
  - by apply Nat.ltb_lt.
  - exists w'. split; [exact Hrun|exact Hok].
Defined.

Lemma rwfz_remote_command_witness :
  let l := ["rwfzadd"; "q"; "a"; "5"; "0,0|0"] in
  let w := mkWorld fresh_server (mkClient l (Some (l, 5)) true false []) 0 in
  exists w' e' es', user_cmd (UAdd "5") w = Ok (None, w') /\ cli w' = cli w /\ mirrored (<["a" := e']> ∅) es'.
Proof.
  intros l w. destruct (res_ok_with (rwfz_effect fresh_elem first_add) (fun _ => True)) as (e' & He & _); [by vm_compute|].
  destruct (rwfz_remote_command w l 5 first_add "q" "a" ∅ [] fresh_elem e' (UAdd "5") fresh_elem)
    as (w' & es' & Hrun & Hc & _ & Hm).
  - reflexivity.
  - reflexivity.
  - reflexivity.
  - reflexivity.
  - apply first_add_op.
  - split_and!; [done|done| |].
    + eexists. split; [reflexivity|]. vm_compute. reflexivity.
    + eexists. split; [reflexivity|]. vm_compute. reflexivity.
  - apply fresh_view.
  - apply fresh_mirrored.
  - reflexivity.
  - exact He.
  - cbn. lia.
  - intros _. by apply first_add_prints.
  - cbn. lia.
  - by apply Nat.ltb_lt.
  - exists w', e', es'. split_and!; done.
Defined.
