(* ===== verification/P2P.v ===== *)
(** * Links between replicas: p2p.c, and the hooks in server.c and networking.c

    A server keeps a list of the clients that are links to other replicas.
    After a command issued by an ordinary client, the arguments its prepare
    phase left in [rargv] are written to all of them; what arrives over a link
    is executed without a prepare phase and not passed on. *)

From S2P Require Import Prelude Sds Double Zset Store Crdt.
From Stdlib Require Import Ascii.

Section P2P.
Context {E : Type}.
Notation M := (M E).
Notation server := (server E).

(** ** Broadcast *)

Definition set_message (c : client) (b : bool) : client :=
  mkClient (argv c) (rargv c) (is_replica c) b (out c).

Definition add_reply_to (c : client) (r : reply) : client :=
  if prepareClientToWrite c then add_out c r else c.

(** The body of the loop: the arguments go out as an array of bulk strings. *)
Definition write_command (args : list string) (c : client) : client :=
  let c := set_message c true in
  let c := add_reply_to c (RArray (Z.of_nat (length args))) in
  let c := foldl (fun c a => add_reply_to c (RBulk a)) c args in
  set_message c false.

(** [clients] is the heap of client structs. *)
Fixpoint broadcast_to (links : list nat) (args : list string) (clients : gmap nat client) : res (gmap nat client) :=
  match links with
  | [] => Ok clients
  | r :: links =>
      c ← of_option UseAfterFree (clients !! r);
      broadcast_to links args (<[r := write_command args c]> clients)
  end.

Definition replicationBroadcast (links : list nat) (args : list string) (clients : gmap nat client)
    : res (gmap nat client) :=
  if Z.of_nat (length links) =? 0 then Ok clients else broadcast_to links args clients.

Lemma broadcast_nil args clients : replicationBroadcast [] args clients = Ok clients.
Proof. done. Qed.

(** ** [call] *)

Record node := mkNode { nsrv : server; clients : gmap nat client }.

(** The hook before a command: the arguments of a link are the ones to execute. *)
Definition call_enter (c : client) : client :=
  if is_replica c then set_rargv c (Some (argv c, Z.of_nat (length (argv c)))) else c.

(** The hook after a command of the client [id]. *)
Definition call_leave (links : list nat) (id : nat) (c : client) (cls : gmap nat client) : res (gmap nat client) :=
  cls ← match rargv c with
        | Some (l, _) => if is_replica c then Ok cls else replicationBroadcast links l cls
        | None => Ok cls
        end;
  c ← of_option UseAfterFree (cls !! id);
  Ok (<[id := if is_replica c then set_rargv c None else c]> cls).

(** [call] of the command function [proc] for the client [id]; [argv] is
    already set. *)
Definition call (proc : M unit) (id : nat) (nd : node) : res node :=
  c ← of_option UseAfterFree (clients nd !! id);
  '(_, w) ← proc (mkWorld (nsrv nd) (call_enter c) 0);
  cls ← call_leave (replicas (srv w)) id (cli w) (<[id := cli w]> (clients nd));
  Ok (mkNode (srv w) cls).

(** [freeClientArgv], after every command outside a transaction. *)
Definition freeClientArgv (c : client) : client := set_rargv (set_argv c []) None.

Definition set_client_argv (id : nat) (args : list string) (nd : node) : node :=
  mkNode (nsrv nd) (alter (fun c => set_argv c args) id (clients nd)).

(** A command read from the connection of the client [id]. *)
Definition processCommand (proc : M unit) (id : nat) (args : list string) (nd : node) : res node :=
  nd ← call proc id (set_client_argv id args nd);
  Ok (mkNode (nsrv nd) (alter freeClientArgv id (clients nd))).

(** The loop of [execCommand]: the queued commands are called one after the
    other, with the arguments swapped and nothing else reset. *)
Fixpoint exec_queue (q : list (M unit * list string)) (id : nat) (nd : node) : res node :=
  match q with
  | [] => Ok nd
  | (proc, args) :: q => nd ← call proc id (set_client_argv id args nd); exec_queue q id nd
  end.

(** A disconnected client is freed; [server.replicas] keeps its pointer. *)
Definition freeClient (id : nat) (nd : node) : node := mkNode (nsrv nd) (delete id (clients nd)).

(** ** REPLICATE *)

(** What [replicateCommand] changes: the configuration, the replies, the static
    [exp_local], and the connections it opened. *)
Record repl_state := mkRepl {
  rp_count : Z; rp_id : Z; rp_links : list nat; rp_exp_local : bool;
  rp_replica : bool; rp_out : list reply; rp_dialled : list (string * Z)
}.

Definition rp_reply (s : repl_state) (r : reply) : repl_state :=
  mkRepl (rp_count s) (rp_id s) (rp_links s) (rp_exp_local s) (rp_replica s) (rp_out s ++ [r]) (rp_dialled s).
Definition rp_dial (s : repl_state) (ip : string) (port : Z) : repl_state :=
  mkRepl (rp_count s) (rp_id s) (rp_links s) (rp_exp_local s) (rp_replica s) (rp_out s) (rp_dialled s ++ [(ip, port)]).

(** [getLongFromObjectOrReply]; the target stays unwritten when it fails. *)
Definition get_long (s : repl_state) (o msg : string) : repl_state * option Z :=
  match getLongLongFromObject o with
  | Some z => (s, Some z)
  | None => (rp_reply s (RErr msg), None)
  end.

Context (connect : string -> Z -> bool).

(** One round of the loops: the address at [argv[i]] and the port after it.
    True when the connection failed and the command returns. *)
Definition connect_round (argv : list string) (i : nat) (s : repl_state) : res (repl_state * bool) :=
  o ← of_option OutOfBounds (argv !! S i);
  let '(s, port) := get_long s o "invalid port number." in
  ip ← of_option OutOfBounds (argv !! i);
  port ← of_option Uninitialised port;
  Ok (if connect ip (i32 port) then (rp_dial s ip (i32 port), false)
      else (rp_reply s (RErr "Something wrong connecting replicas."), true)).

(** [for (int i = lo; i < hi; i += 2)] over argument positions. *)
Fixpoint connect_loop (fuel : nat) (argv : list string) (base : nat) (i hi : Z) (s : repl_state)
    : res (repl_state * bool) :=
  match fuel with
  | O => Crash Diverges
  | S fuel =>
      if i <? hi then
        '(s, failed) ← connect_round argv (base + Z.to_nat i) s;
        if (failed : bool) then Ok (s, true) else connect_loop fuel argv base (i + 2) hi s
      else Ok (s, false)
  end.

Definition replicateCommand (cluster_enabled : bool) (id : nat) (argv : list string) (s : repl_state) : res repl_state :=
  if cluster_enabled then Ok (rp_reply s (RErr "REPLICATE not allowed in cluster mode."))
  else
    a1 ← of_option OutOfBounds (argv !! 1%nat);
    a2 ← of_option OutOfBounds (argv !! 2%nat);
    if strcaseeq a1 "replica" && strcaseeq a2 "handshake" then
      Ok (mkRepl (rp_count s) (rp_id s) (rp_links s ++ [id]) (rp_exp_local s) true (rp_out s) (rp_dialled s))
    else
      let '(s, size) := get_long s a1 "invalid replica size." in
      let '(s, pid) := get_long s a2 "invalid replica id." in
      size ← of_option Uninitialised size;
      pid ← of_option Uninitialised pid;
      let s := mkRepl (i32 size) (i32 pid) (rp_links s) (rp_exp_local s) (rp_replica s) (rp_out s) (rp_dialled s) in
      a3 ← of_option OutOfBounds (argv !! 3%nat);
      let argc := Z.of_nat (length argv) in
      '(s, failed) ←
        (if strcaseeq a3 "automat" then connect_loop (S (length argv)) argv 4 0 (rp_id s) s
         else
           let s := if (3 <? argc) && strcaseeq a3 "exp_local"
                    then mkRepl (rp_count s) (rp_id s) (rp_links s) true (rp_replica s) (rp_out s) (rp_dialled s) else s in
           connect_loop (S (length argv)) argv 0 (if rp_exp_local s then 4 else 3) argc s);
      Ok (if (failed : bool) then s else rp_reply s ROk).
End P2P.

Arguments node : clear implicits.

(** ** What a broadcast writes *)

Section Broadcast.
Implicit Types c : client.

(** A link that received the command [args] as a request. *)
Definition sent (args : list string) c : client :=
  mkClient (argv c) (rargv c) (is_replica c) false
    (out c ++ RArray (Z.of_nat (length args)) :: (RBulk <$> args)).

Lemma write_args args c :
  replica_message c = true ->
  foldl (fun c a => add_reply_to c (RBulk a)) c args =
    mkClient (argv c) (rargv c) (is_replica c) true (out c ++ (RBulk <$> args)).
Proof.
  revert c. induction args as [|a args IH]; intros c Hm; cbn [foldl].
  - rewrite app_nil_r. by destruct c; cbn in *; subst.
  - unfold add_reply_to at 2. unfold prepareClientToWrite. rewrite Hm, andb_false_r. cbn [negb].
    rewrite IH by done. cbn. by rewrite <- app_assoc.
Qed.

Lemma write_command_sent args c : write_command args c = sent args c.
Proof.
  unfold write_command, add_reply_to at 2, prepareClientToWrite. cbn [set_message replica_message].
  rewrite andb_false_r. cbn [negb]. rewrite write_args by done. unfold sent, set_message. cbn. by rewrite <- app_assoc.
Qed.

Lemma broadcast_sent links args cls :
  NoDup links -> Forall (fun r => is_Some (cls !! r)) links ->
  exists cls', broadcast_to links args cls = Ok cls' /\
    forall r, cls' !! r = if decide (r ∈ links) then sent args <$> cls !! r else cls !! r.
Proof.
  revert cls. induction links as [|r links IH]; intros cls Hnd Hin.
  - exists cls. split; [done|]. intros r. by rewrite decide_False by apply not_elem_of_nil.
  - apply NoDup_cons in Hnd as [Hr Hnd]. apply Forall_cons in Hin as [[c Hc] Hin]. cbn [broadcast_to].
    rewrite Hc. cbn [of_option mbind res_bind]. rewrite write_command_sent.
    destruct (IH (<[r := sent args c]> cls)) as (cls' & Hb & Hcls); [done| |].
    { eapply Forall_impl; [exact Hin|]. intros r' Hr'. cbn. rewrite lookup_insert_is_Some'. by right. }
    exists cls'. split; [done|]. intros r'. rewrite Hcls. destruct (decide (r' = r)) as [->|Hne].
    + rewrite decide_False by done. rewrite (decide_True (P := r ∈ r :: links)) by (by left).
      by rewrite lookup_insert_eq, Hc.
    + rewrite lookup_insert_ne by done. pose proof (elem_of_cons links r' r) as Hel.
      destruct (decide (r' ∈ links)), (decide (r' ∈ r :: links)); tauto.
Qed.

Lemma broadcast_freed links args cls r :
  r ∈ links -> cls !! r = None -> broadcast_to links args cls = Crash UseAfterFree.
Proof.
  revert cls. induction links as [|r' links IH]; intros cls Hr Hc; [by apply elem_of_nil in Hr|].
  cbn [broadcast_to]. destruct (decide (r = r')) as [->|Hne]; [by rewrite Hc|].
  destruct (cls !! r'); [|done]. cbn [of_option mbind res_bind]. apply IH.
  - by apply elem_of_cons in Hr as [?|?].
  - by rewrite lookup_insert_ne.
Qed.

Lemma broadcast_length links args cls r :
  r ∈ links -> replicationBroadcast links args cls = broadcast_to links args cls.
Proof.
  intros Hr. unfold replicationBroadcast. destruct links as [|? links]; [by apply elem_of_nil in Hr|].
  by rewrite (proj2 (Z.eqb_neq _ _)) by (cbn; lia).
Qed.
End Broadcast.

Section Calls.
Context {E : Type}.

(** C30 (functional): after a command of an ordinary client that filled
    [rargv], [call] writes to every link the array of exactly these arguments,
    once, and changes no other client; a link gets it although replies to
    links are suppressed. *)
Theorem call_broadcasts (proc : M E unit) id nd c w r0 l n :
  clients nd !! id = Some c -> is_replica c = false ->
  proc (mkWorld (nsrv nd) c 0) = Ok (r0, w) -> rargv (cli w) = Some (l, n) -> is_replica (cli w) = false ->
  NoDup (replicas (srv w)) -> id ∉ replicas (srv w) -> Forall (fun r => is_Some (clients nd !! r)) (replicas (srv w)) ->
  exists nd', call proc id nd = Ok nd' /\ nsrv nd' = srv w /\ clients nd' !! id = Some (cli w) /\
    (forall r, r ∈ replicas (srv w) -> clients nd' !! r = sent l <$> clients nd !! r) /\
    (forall r, r ∉ replicas (srv w) -> r <> id -> clients nd' !! r = clients nd !! r).
Proof.
  intros Hc Hi Hrun Hr Hi' Hnd Hid Hin. unfold call, call_enter, call_leave. rewrite Hc. cbn [of_option mbind res_bind].
  rewrite Hi, Hrun. cbn [mbind res_bind]. rewrite Hr, Hi'.
  assert (exists cls', replicationBroadcast (replicas (srv w)) l (<[id := cli w]> (clients nd)) = Ok cls' /\
    forall r, cls' !! r = if decide (r ∈ replicas (srv w)) then sent l <$> <[id := cli w]> (clients nd) !! r
                          else <[id := cli w]> (clients nd) !! r) as (cls & Hb & Hcls).
  { unfold replicationBroadcast. destruct (Z.eqb_spec (Z.of_nat (length (replicas (srv w)))) 0) as [Hz|Hz].
    - destruct (replicas (srv w)); [|done]. eexists. split; [done|]. intros r. by rewrite decide_False by apply not_elem_of_nil.
    - apply broadcast_sent; [done|]. eapply Forall_impl; [exact Hin|]. intros r Hs. cbn. rewrite lookup_insert_is_Some'. by right. }
  rewrite Hb. cbn [mbind res_bind]. rewrite Hcls, decide_False, lookup_insert_eq by done. cbn [of_option mbind res_bind].
  rewrite Hi'. eexists. split; [done|]. cbn [nsrv clients]. split_and!; [done|by rewrite lookup_insert_eq| |].
  - intros r Hrl. assert (id <> r) by (intros ->; done). rewrite lookup_insert_ne, Hcls, decide_True, lookup_insert_ne by done. done.
  - intros r Hrl Hne. rewrite lookup_insert_ne, Hcls, decide_False, lookup_insert_ne by done. done.
Qed.

(** C35 (error): when a link was disconnected, [freeClient] released its client
    but left it in [server.replicas]: the next command of a client that has
    something to broadcast uses the freed client. *)
Theorem broadcast_after_disconnect (proc : M E unit) id r nd c w r0 l n :
  id <> r -> clients nd !! id = Some c -> is_replica c = false ->
  proc (mkWorld (nsrv nd) c 0) = Ok (r0, w) -> rargv (cli w) = Some (l, n) -> is_replica (cli w) = false ->
  r ∈ replicas (srv w) -> call proc id (freeClient r nd) = Crash UseAfterFree.
Proof.
  intros Hne Hc Hi Hrun Hr Hi' Hin. unfold call, call_enter, call_leave, freeClient. cbn [clients nsrv].
  rewrite lookup_delete_ne, Hc by done. cbn [of_option mbind res_bind]. rewrite Hi, Hrun. cbn [mbind res_bind].
  rewrite Hr, Hi', (broadcast_length _ _ _ r), (broadcast_freed _ _ _ r) by (done || by rewrite lookup_insert_ne, lookup_delete_eq).
  done.
Qed.
End Calls.

(** ** Whom REPLICATE connects *)

Section Replicate.
Context (connect : string -> Z -> bool).

(** An address with its port as text and as a number. *)
Record addr := mkAddr { ip : string; port_text : string; port : Z }.

Definition addr_ok (a : addr) : Prop := getLongLongFromObject (port_text a) = Some (port a).
Definition addr_args (l : list addr) : list string := l ≫= (fun a => [ip a; port_text a]).

(** Connects one address after the other up to the first failure. *)
Fixpoint dial (l : list addr) (s : repl_state) : repl_state * bool :=
  match l with
  | [] => (s, false)
  | a :: l =>
      if connect (ip a) (i32 (port a)) then dial l (rp_dial s (ip a) (i32 (port a)))
      else (rp_reply s (RErr "Something wrong connecting replicas."), true)
  end.

Definition finish (r : repl_state * bool) : repl_state := if r.2 then r.1 else rp_reply r.1 ROk.

Lemma addr_args_length l : length (addr_args l) = (2 * length l)%nat.
Proof. unfold addr_args. induction l as [|a l IH]; [done|]. cbn. rewrite IH. lia. Qed.

Lemma connect_loop_dials l : forall pre rest fuel base i hi s,
  Forall addr_ok l -> 0 <= i -> (base + Z.to_nat i = length pre)%nat -> (length l < fuel)%nat ->
  i + 2 * Z.of_nat (length l) - 2 < hi <= i + 2 * Z.of_nat (length l) ->
  connect_loop connect fuel (pre ++ addr_args l ++ rest) base i hi s = Ok (dial l s).
Proof.
  induction l as [|a l IH]; intros pre rest fuel base i hi s Hok Hi Hb Hf Hhi; (destruct fuel as [|fuel]; [cbn in Hf; lia|]); cbn [connect_loop].
  - by rewrite (proj2 (Z.ltb_ge i hi)) by (cbn in Hhi; lia).
  - cbn [length] in Hf, Hhi. apply Forall_cons in Hok as [Ha Hok]. rewrite (proj2 (Z.ltb_lt i hi)) by lia.
    unfold connect_round. rewrite Hb. cbn [addr_args mbind list_bind app].
    rewrite lookup_app_r, lookup_app_r by lia. replace (S (length pre) - length pre)%nat with 1%nat by lia.
    rewrite Nat.sub_diag. cbn [lookup list_lookup of_option mbind res_bind]. unfold get_long. rewrite Ha.
    cbn [of_option mbind res_bind]. cbn [dial]. destruct (connect (ip a) (i32 (port a))); [|done].
    cbn [mbind res_bind].
    pose proof (IH (pre ++ [ip a; port_text a]) rest fuel base (i + 2) hi (rp_dial s (ip a) (i32 (port a)))) as H.
    rewrite <- app_assoc in H. apply H; [done|lia| |lia|lia]. rewrite length_app. cbn. lia.
Qed.

(** The state after the first two arguments. *)
Definition configured (size id : Z) (s : repl_state) : repl_state :=
  mkRepl (i32 size) (i32 id) (rp_links s) (rp_exp_local s) (rp_replica s) (rp_out s) (rp_dialled s).

Lemma replicate_start client a1 a2 a3 rest size id s :
  getLongLongFromObject a1 = Some size -> getLongLongFromObject a2 = Some id -> strcaseeq a1 "replica" = false ->
  rp_exp_local s = false -> strcaseeq a3 "exp_local" = false ->
  replicateCommand connect false client ("replicate" :: a1 :: a2 :: a3 :: rest) s =
    (r ← (if strcaseeq a3 "automat"
          then connect_loop connect (5 + length rest) ("replicate" :: a1 :: a2 :: a3 :: rest) 4 0 (i32 id) (configured size id s)
          else connect_loop connect (5 + length rest) ("replicate" :: a1 :: a2 :: a3 :: rest) 0 3 (4 + Z.of_nat (length rest)) (configured size id s));
     Ok (finish r)).
Proof.
  intros H1 H2 H3 H4 H5. destruct s as [? ? ? el ? ? ?]. cbn [rp_exp_local] in H4. subst el. unfold replicateCommand. cbn [lookup list_lookup of_option mbind res_bind]. rewrite H3. cbn [andb].
  unfold get_long. rewrite H1, H2. cbn [of_option mbind res_bind rp_id rp_exp_local]. rewrite H5, andb_false_r.
  unfold configured. cbn [rp_exp_local rp_links rp_replica rp_out rp_dialled length].
  replace (Z.of_nat (S (S (S (S (length rest)))))) with (4 + Z.of_nat (length rest)) by lia.
  destruct (strcaseeq a3 "automat"); (destruct (connect_loop _ _ _ _ _ _ _) as [[s' b]|]; [|done]); by destruct b.
Qed.

(** C31 (functional): [REPLICATE size id ip port ...] stores the
    configuration and connects all the addresses it is given, in order, up to the
    first failure; the reply tells which.  [REPLICATE size id AUTOMAT ip port
    ...], which is given the addresses of all replicas and has to connect the
    [id] ones before its own, connects only half of them. *)
Theorem replicate_connects client a1 a2 size id l s :
  getLongLongFromObject a1 = Some size -> getLongLongFromObject a2 = Some id -> strcaseeq a1 "replica" = false ->
  rp_exp_local s = false -> Forall addr_ok l -> 0 <= id -> id <= Z.of_nat (length l) -> id <= INT_MAX ->
  Forall (fun a => strcaseeq (ip a) "exp_local" = false /\ strcaseeq (ip a) "automat" = false) l -> l <> [] ->
  replicateCommand connect false client (["replicate"; a1; a2] ++ addr_args l) s =
    Ok (finish (dial l (configured size id s))) /\
  replicateCommand connect false client (["replicate"; a1; a2; "automat"] ++ addr_args l) s =
    Ok (finish (dial (take (Z.to_nat ((id + 1) / 2)) l) (configured size id s))).
Proof.
  intros H1 H2 H3 H4 Hok Hid Hle Hmax Hne Hl. split.
  - destruct l as [|a l]; [done|]. apply Forall_cons in Hne as [[Hx Ha] _].
    cbn [app addr_args mbind list_bind]. rewrite (replicate_start _ _ _ _ _ size id) by done. rewrite Ha.
    pose proof (connect_loop_dials (a :: l) ["replicate"; a1; a2] [] (5 + S (length (addr_args l))) 0 3
      (4 + Z.of_nat (S (length (addr_args l)))) (configured size id s) Hok) as H.
    rewrite app_nil_r in H. rewrite addr_args_length in *. cbn [app addr_args mbind list_bind length] in *.
    rewrite addr_args_length in *.
    rewrite H; [done|lia|done|lia|lia].
  - cbn [app]. rewrite (replicate_start _ _ _ _ _ size id) by done.
    change (strcaseeq "automat" "automat") with true. 
    rewrite (i32_id id) by (unfold int_range, INT_MIN, INT_MAX in *; lia). set (k := Z.to_nat ((id + 1) / 2)).
    assert ((id + 1) / 2 * 2 <= id + 1 < (id + 1) / 2 * 2 + 2) as Hk by (pose proof (Z.div_mod (id + 1) 2); pose proof (Z.mod_pos_bound (id + 1) 2); lia).
    assert (0 <= (id + 1) / 2) by (apply Z.div_pos; lia).
    assert (addr_args l = addr_args (take k l) ++ addr_args (drop k l)) as Hsplit.
    { unfold addr_args. by rewrite <- bind_app, take_drop. }
    pose proof (connect_loop_dials (take k l) ["replicate"; a1; a2; "automat"] (addr_args (drop k l)) (5 + length (addr_args l)) 4 0
      id (configured size id s)) as H'. cbn [app] in H'. rewrite <- Hsplit in H'.
    rewrite H'; [done|by apply Forall_take|lia|done|..]; rewrite length_take, ?addr_args_length; lia.
Qed.
End Replicate.

(** Three replicas: the last one is to connect the other two and connects one. *)
Lemma replicate_connects_witness :
  let a := mkAddr "10.0.0.1" "6379" 6379 in let b := mkAddr "10.0.0.2" "6380" 6380 in let c := mkAddr "10.0.0.3" "6381" 6381 in
  let s := mkRepl 0 (-1) [] false false [] [] in
  replicateCommand (fun _ _ => true) false 0 (["replicate"; "3"; "2"] ++ addr_args [a; b]) s =
    Ok (mkRepl 3 2 [] false false [ROk] [("10.0.0.1", 6379); ("10.0.0.2", 6380)]) /\
  replicateCommand (fun _ _ => true) false 0 (["replicate"; "3"; "2"; "automat"] ++ addr_args [a; b; c]) s =
    Ok (mkRepl 3 2 [] false false [ROk] [("10.0.0.1", 6379)]).
Proof.
  intros a b c s. split.
  - apply (replicate_connects (fun _ _ => true) 0 "3" "2" 3 2 [a; b] s); try done; by repeat constructor.
  - apply (replicate_connects (fun _ _ => true) 0 "3" "2" 3 2 [a; b; c] s); try done; by repeat constructor.
Defined.
