(* ===== verification/System.v ===== *)
(** * A system of replicas with one queue container

    Replicas execute the commands of their clients and, in any order, the
    messages of the other replicas.  What is here does not depend on the kind of
    the queue: the steps of the system for a given command table, and the
    bookkeeping of the messages each replica executed. *)

From S2P Require Import Prelude Double Exact Score Skiplist SkiplistSpec Zset ZsetSpec Store Crdt Container RwfzCmd P2P.

(** ** Replicas and runs *)

Inductive action (R : Type) :=
  | Client (i : nat) (x : string) (u : R)
  | Deliver (j m : nat).
Arguments Client {R}.
Arguments Deliver {R}.

(** The messages broadcast so far, and for every replica the ones it executed,
    in its order. *)
Record sys (E : Type) := mkSys { servers : list (server E); log : list (list string); got : list (list nat) }.
Arguments mkSys {E}.
Arguments servers {E}.
Arguments log {E}.
Arguments got {E}.

Section System.
Context {E R : Type}.
(** The command table, and the arguments of a request on an element. *)
Context (table : list string -> option (M E unit)) (args : string -> R -> list string).

(** A command of an ordinary client, and what there is to broadcast. *)
Definition issue (s : server E) (l : list string) : res (server E * option (list string)) :=
  match table l with
  | None => Ok (s, None)
  | Some proc =>
      nd ← call proc 0 (mkNode s {[ 0%nat := mkClient l None false false [] ]});
      c ← of_option UseAfterFree (clients nd !! 0%nat);
      Ok (nsrv nd, fst <$> rargv c)
  end.

(** A command that arrives over a link. *)
Definition receive (s : server E) (l : list string) : res (server E) :=
  match table l with
  | None => Ok s
  | Some proc =>
      nd ← call proc 0 (mkNode s {[ 0%nat := mkClient l None true false [] ]});
      Ok (nsrv nd)
  end.

Definition sys_step (st : sys E) (a : action R) : res (sys E) :=
  match a with
  | Client i x u =>
      match servers st !! i with
      | None => Ok st
      | Some s =>
          '(s, m) ← issue s (args x u);
          Ok (match m with
              | None => mkSys (<[i := s]> (servers st)) (log st) (got st)
              | Some l => mkSys (<[i := s]> (servers st)) (log st ++ [l])
                            (alter (fun g => g ++ [length (log st)]) i (got st))
              end)
      end
  | Deliver j m =>
      match servers st !! j, log st !! m, got st !! j with
      | Some s, Some l, Some g =>
          if decide (m ∈ g) then Ok st
          else
            s ← receive s l;
            Ok (mkSys (<[j := s]> (servers st)) (log st) (<[j := g ++ [m]]> (got st)))
      | _, _, _ => Ok st
      end
  end.

Definition sys_run (st : sys E) (l : list (action R)) : res (sys E) := foldM sys_step st l.
End System.

(** Replicas of one configuration, each with its own supply of random numbers. *)
Definition boot {E} (cfg : zset_config) (n i : nat) (rs : list Z) : server E :=
  mkServer (Z.of_nat n) (Z.of_nat i) [] cfg ∅ ∅ 0 0 rs.
Definition sys_init {E} (cfg : zset_config) (rss : list (list Z)) : sys E :=
  mkSys (imap (boot cfg (length rss)) rss) [] (replicate (length rss) []).

(** ** Commands of clients and links *)

Section Calls.
Context {E : Type}.

Lemma mode_on (s : server E) : 0 < p2p_count s -> REPLICATION_MODE s = true.
Proof. intros H. unfold REPLICATION_MODE. rewrite (proj2 (Z.eqb_neq (p2p_count s) 0)) by lia. apply orb_true_r. Qed.

(** [call] where there are no links to write to, and for a link. *)
Lemma call_client (proc : M E unit) s c w' r :
  proc (mkWorld s c 0) = Ok (r, w') -> is_replica c = false -> is_replica (cli w') = false -> replicas (srv w') = [] ->
  call proc 0 (mkNode s {[ 0%nat := c ]}) = Ok (mkNode (srv w') {[ 0%nat := cli w' ]}).
Proof.
  intros Hrun Hi Hi' Hl. unfold call, call_enter, call_leave. cbn [clients nsrv]. rewrite lookup_singleton_eq. cbn [of_option mbind res_bind].
  rewrite Hi, Hrun. cbn [mbind res_bind]. rewrite insert_singleton_eq, Hi'.
  destruct (rargv (cli w')) as [[l n]|]; [rewrite Hl, broadcast_nil|];
    cbn [mbind res_bind]; rewrite lookup_singleton_eq; cbn [of_option mbind res_bind]; by rewrite Hi', insert_singleton_eq.
Qed.

Lemma call_link (proc : M E unit) s c w' r :
  proc (mkWorld s (set_rargv c (Some (argv c, Z.of_nat (length (argv c))))) 0) = Ok (r, w') ->
  is_replica c = true -> is_replica (cli w') = true ->
  call proc 0 (mkNode s {[ 0%nat := c ]}) = Ok (mkNode (srv w') {[ 0%nat := set_rargv (cli w') None ]}).
Proof.
  intros Hrun Hi Hi'. unfold call, call_enter, call_leave. cbn [clients nsrv]. rewrite lookup_singleton_eq. cbn [of_option mbind res_bind].
  rewrite Hi, Hrun. cbn [mbind res_bind]. rewrite insert_singleton_eq, Hi'.
  destruct (rargv (cli w')) as [[l n]|];
    cbn [mbind res_bind]; rewrite lookup_singleton_eq; cbn [of_option mbind res_bind]; by rewrite Hi', insert_singleton_eq.
Qed.
End Calls.

(** ** Messages *)

Section Messages.
Context {op : Type} (parse : list string -> option (string * op)) (value : op -> option double).

Definition parsed (lg : list (list string)) (m : nat) : option (string * op) := lg !! m ≫= parse.

Definition for_elem (x : string) (xo : string * op) : option op :=
  if decide (xo.1 = x) then Some xo.2 else None.

(** The operations on [x] among the messages with the given numbers. *)
Definition ops_got (lg : list (list string)) (g : list nat) (x : string) : list op :=
  omap (fun m => parsed lg m ≫= for_elem x) g.

(** The values of all messages. *)
Definition log_values (lg : list (list string)) : list double := omap (fun l => parse l ≫= fun xo => value xo.2) lg.
End Messages.

Lemma omap_lookup_seq {X Y} (f : X -> option Y) (l : list X) :
  omap (fun m => l !! m ≫= f) (seq 0 (length l)) = omap f l.
Proof.
  induction l as [|a l IH] using rev_ind; [done|]. rewrite length_app, Nat.add_1_r, seq_S, !omap_app. f_equal.
  - rewrite <- IH. apply list_omap_ext. apply Forall2_same_length_lookup. split; [done|].
    intros j m m' Hm Hm'. assert (m' = m) as -> by congruence. apply lookup_seq in Hm as [-> Hj]. by rewrite lookup_app_l.
  - cbn. rewrite lookup_app_r, Nat.sub_diag by lia. done.
Qed.

Lemma omap_submseteq {X Y} (f : X -> option Y) (l1 l2 : list X) : l1 ⊆+ l2 -> omap f l1 ⊆+ omap f l2.
Proof.
  intros [k Hk]%submseteq_Permutation. rewrite Hk, omap_app. apply submseteq_inserts_r. done.
Qed.

Lemma submseteq_nodup {A} (l1 l2 : list A) : l1 ⊆+ l2 -> NoDup l2 -> NoDup l1.
Proof. intros [k Hk]%submseteq_Permutation Hnd. rewrite Hk in Hnd. by apply NoDup_app in Hnd as [? _]. Qed.

Lemma lookup_update {X} (l : list X) i j x y :
  <[i := x]> l !! j = Some y -> (i = j /\ y = x) \/ (i <> j /\ l !! j = Some y).
Proof.
  intros H. destruct (decide (i = j)) as [<-|Hne]; [left|right].
  - split; [done|]. pose proof (lookup_lt_Some _ _ _ H) as Hl. rewrite length_insert in Hl.
    rewrite list_lookup_insert_eq in H by done. by injection H.
  - by rewrite list_lookup_insert_ne in H.
Qed.

Lemma alter_update {X} (f : X -> X) (l : list X) i y : l !! i = Some y -> alter f i l = <[i := f y]> l.
Proof.
  intros Hy. apply list_eq. intros j. destruct (decide (i = j)) as [<-|Hne].
  - rewrite list_lookup_alter_eq, Hy, list_lookup_insert_eq by (by eapply lookup_lt_Some). done.
  - by rewrite list_lookup_alter_ne, list_lookup_insert_ne.
Qed.

Section Bookkeeping.
Context {op : Type} {parse : list string -> option (string * op)} {value : op -> option double}.
Implicit Types (lg : list (list string)) (g : list nat).
Notation parsed := (parsed parse).
Notation ops_got := (ops_got parse).
Notation log_values := (log_values parse value).

Lemma elem_of_ops_got lg g x o : o ∈ ops_got lg g x <-> exists m, m ∈ g /\ parsed lg m = Some (x, o).
Proof.
  unfold System.ops_got. rewrite list_elem_of_omap. split.
  - intros (m & Hm & Hp). exists m. split; [done|]. destruct (parsed lg m) as [[y o']|]; [|done]. cbn in Hp.
    unfold for_elem in Hp. cbn in Hp. case_decide; [|done]. by subst; injection Hp as ->.
  - intros (m & Hm & Hp). exists m. split; [done|]. rewrite Hp. cbn. unfold for_elem. cbn. by rewrite decide_True.
Qed.

Lemma parsed_app lg l m : (m < length lg)%nat -> parsed (lg ++ [l]) m = parsed lg m.
Proof. intros Hm. unfold System.parsed. by rewrite lookup_app_l. Qed.

Lemma parsed_new lg l : parsed (lg ++ [l]) (length lg) = parse l.
Proof. unfold System.parsed. by rewrite lookup_app_r, Nat.sub_diag by lia. Qed.

Lemma parsed_lt lg m xo : parsed lg m = Some xo -> (m < length lg)%nat.
Proof. unfold System.parsed. destruct (lg !! m) eqn:Hl; [|done]. intros _. by eapply lookup_lt_Some. Qed.

Lemma parsed_snoc lg l y o m z o' :
  parse l = Some (y, o) -> parsed (lg ++ [l]) m = Some (z, o') ->
  parsed lg m = Some (z, o') \/ (m = length lg /\ z = y /\ o' = o).
Proof.
  intros Hl Hm. destruct (decide (m < length lg)%nat) as [Hlt|Hge]; [left; by rewrite parsed_app in Hm|right].
  pose proof (parsed_lt _ _ _ Hm) as Hn. rewrite length_app in Hn. cbn in Hn. assert (m = length lg) as -> by lia.
  rewrite parsed_new, Hl in Hm. by injection Hm as -> ->.
Qed.

Lemma ops_got_app lg l g x : Forall (fun m => m < length lg)%nat g -> ops_got (lg ++ [l]) g x = ops_got lg g x.
Proof.
  unfold System.ops_got. induction 1 as [|m g Hm Hg IH]; [done|]. rewrite !omap_cons_eq, parsed_app, IH by done. done.
Qed.

Lemma ops_got_snoc lg g m x y o :
  parsed lg m = Some (y, o) -> ops_got lg (g ++ [m]) x = ops_got lg g x ++ (if decide (y = x) then [o] else []).
Proof.
  intros Hp. unfold System.ops_got. rewrite omap_app. f_equal. cbn. rewrite Hp. cbn. unfold for_elem. cbn. by case_decide.
Qed.

Lemma ops_got_all lg l x y o :
  parse l = Some (x, o) ->
  ops_got (lg ++ [l]) (seq 0 (length (lg ++ [l]))) y =
    ops_got lg (seq 0 (length lg)) y ++ (if decide (x = y) then [o] else []).
Proof.
  intros Hp. rewrite length_app, Nat.add_1_r, seq_S, (ops_got_snoc _ _ _ _ x o) by (by rewrite parsed_new).
  rewrite ops_got_app; [done|]. apply Forall_seq. lia.
Qed.

Lemma perm_got lg g g' x : g ≡ₚ g' -> ops_got lg g x ≡ₚ ops_got lg g' x.
Proof. intros Hp. unfold System.ops_got. by rewrite Hp. Qed.

Lemma got_in_all lg g x o :
  Forall (fun m => m < length lg)%nat g -> o ∈ ops_got lg g x -> o ∈ ops_got lg (seq 0 (length lg)) x.
Proof.
  intros Hin (m & Hm & Hp)%elem_of_ops_got. apply elem_of_ops_got. exists m. split; [|done].
  apply elem_of_seq. rewrite Forall_forall in Hin. specialize (Hin _ Hm). cbn in Hin. lia.
Qed.

Lemma ops_got_nodup lg g x :
  NoDup g -> Forall (fun m => m < length lg)%nat g -> NoDup (ops_got lg (seq 0 (length lg)) x) -> NoDup (ops_got lg g x).
Proof.
  intros Hnd Hin Hall. assert (g ⊆+ seq 0 (length lg)) as Hsub.
  { apply NoDup_submseteq; [done|]. intros m Hm. apply elem_of_seq. rewrite Forall_forall in Hin. specialize (Hin m Hm). cbn in Hin. lia. }
  apply (omap_submseteq (fun m => parsed lg m ≫= for_elem x)) in Hsub.
  by eapply submseteq_nodup.
Qed.

Lemma parsed_inj lg x o m m' :
  NoDup (ops_got lg (seq 0 (length lg)) x) -> parsed lg m = Some (x, o) -> parsed lg m' = Some (x, o) -> m = m'.
Proof.
  intros Hnd Hm Hm'. destruct (decide (m = m')) as [|Hne]; [done|exfalso].
  assert ([m; m'] ⊆+ seq 0 (length lg)) as Hsub.
  { apply NoDup_submseteq; [apply NoDup_cons; split; [set_solver|apply NoDup_singleton]|].
    intros k Hk. apply elem_of_seq. pose proof (parsed_lt _ _ _ Hm). pose proof (parsed_lt _ _ _ Hm'). set_solver by lia. }
  apply (omap_submseteq (fun m => parsed lg m ≫= for_elem x)) in Hsub. apply submseteq_nodup in Hsub; [|exact Hnd].
  cbn in Hsub. rewrite Hm, Hm' in Hsub. cbn in Hsub. unfold for_elem in Hsub. cbn in Hsub. rewrite decide_True in Hsub by done.
  apply NoDup_cons in Hsub as [Hn _]. apply Hn. by left.
Qed.

(** A replica received each value at most once. *)
Lemma values_got lg g x :
  NoDup g -> Forall (fun m => m < length lg)%nat g -> omap value (ops_got lg g x) ⊆+ log_values lg.
Proof.
  intros Hnd Hin. unfold System.log_values. rewrite <- (omap_lookup_seq _ lg).
  transitivity (omap (fun m => lg !! m ≫= (fun l => parse l ≫= (fun xo => value xo.2))) g).
  - clear Hnd. unfold System.ops_got, System.parsed. induction Hin as [|m g Hm Hg IH]; [done|]. rewrite !omap_cons_eq.
    destruct (lg !! m) as [l|]; cbn; [|done]. destruct (parse l) as [[y o]|]; cbn; [|done].
    unfold for_elem at 1. cbn. case_decide; cbn.
    + destruct (value o); [by apply submseteq_skip|done].
    + destruct (value o); [by apply submseteq_cons|done].
  - apply omap_submseteq. apply NoDup_submseteq; [done|]. intros m Hm. apply elem_of_seq.
    rewrite Forall_forall in Hin. specialize (Hin m Hm). lia.
Qed.

Lemma log_values_new {A} (f : A -> option double) acts a lg l x o :
  log_values lg `sublist_of` omap f acts -> parse l = Some (x, o) -> value o = f a ->
  log_values (lg ++ [l]) `sublist_of` omap f (acts ++ [a]).
Proof.
  intros Hlv Hp Hv. unfold System.log_values. rewrite !omap_app. apply sublist_app; [done|]. cbn. rewrite Hp. cbn. by rewrite Hv.
Qed.

(** One more message for a replica. *)
Lemma got_snoc g m n : NoDup g -> Forall (fun k => k < n)%nat g -> m ∉ g -> (m < n)%nat ->
  NoDup (g ++ [m]) /\ Forall (fun k => k < n)%nat (g ++ [m]).
Proof.
  intros Hnd Hin Hm Hl. split; [apply NoDup_app; split_and!; [done| |apply NoDup_singleton]; by intros y Hy ->%list_elem_of_singleton|].
  apply Forall_app. split; [done|by constructor].
Qed.
Lemma got_length (g : list nat) n : NoDup g -> Forall (fun m => m < n)%nat g -> (length g <= n)%nat.
Proof.
  intros Hnd Hin. transitivity (length (seq 0 n)); [|by rewrite length_seq]. apply submseteq_length, NoDup_submseteq; [done|].
  intros m Hm. apply elem_of_seq. rewrite Forall_forall in Hin. specialize (Hin m Hm). cbn in Hin. lia.
Qed.

Lemma ops_got_length lg g x : (length (ops_got lg g x) <= length g)%nat.
Proof.
  unfold System.ops_got. induction g as [|m g IH]; [done|]. rewrite omap_cons_eq. destruct (_ ≫= _); cbn [length]; lia.
Qed.
End Bookkeeping.

(** ** Answers *)

Definition score_reply (m : option double) : reply := match m with Some d => RDouble d | None => RNil end.

(** The reply to a query of the score of an element. *)
Definition ask {E} (query : M E unit) (nm K : string) (s : server E) (x : string) : res (list reply) :=
  '(_, w) ← query (mkWorld s (mkClient [nm; K; x] None false false []) 0);
  Ok (out (cli w)).

Lemma ask_view {A E} `{!Cell A E} suffix nm K (s : server E) (els : gmap string A) es x :
  cview suffix s K els es -> ask zscoreQuery nm K s x = Ok [score_reply (zscore x es)].
Proof.
  intros [_ Hz _]. unfold zset_view in Hz. unfold ask.
  set (c := mkClient _ _ _ _ _). set (w := mkWorld s c 0).
  assert (wp zscoreQuery w (fun _ w' => out (cli w') = [score_reply (zscore x es)])) as (r & w' & -> & Hout);
    [|by cbn; rewrite Hout].
  unfold zscoreQuery. wp_step. eapply wp_argv_at; [done|].
  wp_step. unfold lookupKeyReadOrReply, lookupKeyRead. wp_step. apply wp_lookupKey. cbn [srv w].
  destruct (db s !! K) as [[h|z|t hk zk]|]; try done; [|subst es; wp_step; apply wp_addReply; wp_steps; done].
  wp_steps. unfold checkType. rewrite decide_True by done. wp_steps. eapply wp_argv_at; [done|].
  wp_step. eapply wp_lift; [by apply zsetScore_view|].
  destruct (zscore x es); apply wp_addReply; done.
Qed.

Definition same_score (m m' : option double) : Prop :=
  match m, m' with Some d, Some d' => deq d d' = true | None, None => True | _, _ => False end.

Lemma mirrors_agree m m' b sc :
  mirrors m b sc -> mirrors m' b sc -> isnan sc = false -> same_score m m'.
Proof.
  intros H H' Hn. destruct b; cbn in *; [|by subst].
  destruct H as [H|(c & -> & Hc)]; [congruence|]. destruct H' as [H'|(c' & -> & Hc')]; [congruence|]. cbn.
  eapply deq_trans; [exact Hc|]. by apply deq_sym.
Qed.

Lemma isnan_Z z : Z.abs z < 2 ^ 53 -> isnan (double_of_Z z) = false.
Proof. intros Hz. apply (deq_num (double_of_Z z) (double_of_Z z)). by rewrite deq_Z, Z.eqb_refl. Qed.

(** Integers whose magnitudes add up to less than this are printed and summed
    exactly. *)
Definition BOUND : Z := 4503599627370495.
