(* ===== verification/RwfzSystem.v ===== *)
(** * A system of replicas with one RWF-RPQ container

    Replicas execute the commands of their clients and, in any order, the
    messages of the other replicas.  Every run is free of crashes, and replicas
    that executed the same messages answer queries alike. *)

From S2P Require Import Prelude Sds VectorClock Causal Double Exact Util Score Skiplist SkiplistSpec Zset ZsetSpec.
From S2P Require Import RWFramework RwfZset Store Crdt Container RWFCommand RwfzCmd RwfzSpec P2P System.
From Stdlib Require Import Ascii.

#[local] Arguments sdsToVC : simpl never.
#[local] Arguments getDoubleFromObject : simpl never.

Section System.
Context {E : Type} `{!Cell rwfze E}.
Context (K : string).

(** ** Replicas *)

(** The entries of the command table. *)
Definition lookupCommand (args : list string) : option (M E unit) :=
  nm ← head args;
  if strcaseeq nm "rwfzadd" then Some rwfzaddCommand
  else if strcaseeq nm "rwfzincrby" then Some rwfzincrbyCommand
  else if strcaseeq nm "rwfzrem" then Some rwfzremCommand
  else None.

(** ** Messages *)

Definition parse_msg (l : list string) : option (string * rwfz_op) :=
  nm ← head l;
  x ← l !! 2%nat;
  str ← last l;
  match sdsToVC str with
  | Crash _ => None
  | Ok t =>
      if decide (nm = "rwfzadd") then a ← l !! 3%nat; v ← getDoubleFromObject a; Some (x, RwfzAdd v t)
      else if decide (nm = "rwfzincrby") then a ← l !! 3%nat; v ← getDoubleFromObject a; Some (x, RwfzIncr v t)
      else Some (x, RwfzRem t)
  end.

Notation sys := (System.sys E).
Notation action := (System.action rwfz_user).
Notation issue := (System.issue lookupCommand).
Notation receive := (System.receive lookupCommand).
Notation sys_step := (System.sys_step lookupCommand (user_args K)).
Notation sys_run := (System.sys_run lookupCommand (user_args K)).
Notation ask := (System.ask rwfzscoreCommand "rwfzscore" K).
Notation parsed := (System.parsed parse_msg).
Notation ops_got := (System.ops_got parse_msg).
Notation log_values := (System.log_values parse_msg op_value).

(** The values clients send. *)
Definition action_value (a : action) : option double :=
  match a with
  | Client _ _ (UAdd a) | Client _ _ (UIncr a) => getDoubleFromObject a
  | _ => None
  end.

Lemma lookup_user x u : lookupCommand (user_args K x u) = Some (user_cmd u).
Proof. by destruct u. Qed.

Lemma lookup_user_msg x u str : lookupCommand (user_args K x u ++ [str]) = Some (user_cmd u).
Proof. by destruct u. Qed.

Lemma parse_user x u e o str :
  user_op e u = Some o -> sdsToVC str = Ok (op_vc o) -> parse_msg (user_args K x u ++ [str]) = Some (x, o).
Proof.
  intros Ho Hs. destruct u as [a|a|]; cbn [user_op] in Ho.
  - destruct (getDoubleFromObject a) as [v|] eqn:Hd; [|done]. cbn in Ho. destruct (EXISTS _); [done|].
    injection Ho as <-. cbn [op_vc] in Hs. unfold parse_msg. cbn. rewrite Hs. cbn. by rewrite Hd.
  - destruct (getDoubleFromObject a) as [v|] eqn:Hd; [|done]. cbn in Ho. destruct (EXISTS _); [|done].
    injection Ho as <-. cbn [op_vc] in Hs. unfold parse_msg. cbn. rewrite Hs. cbn. by rewrite Hd.
  - destruct (EXISTS _); [|done]. injection Ho as <-. cbn [op_vc] in Hs. unfold parse_msg. cbn. by rewrite Hs.
Qed.

(** ** What replicas do *)

Notation cview := (cview RWF_RPQ_TABLE_SUFFIX).
Notation moved := (moved RWF_RPQ_TABLE_SUFFIX).

Lemma issue_spec s x els es e u N :
  0 < p2p_count s -> replicas s = [] -> cview s K els es -> mirrored els es ->
  find_elem s els x = Ok e -> wf_vc N (current (header e)) -> (0 < N <= VC_INT_BUF)%nat ->
  (forall o e', user_op e u = Some o -> rwfz_effect e o = Ok e' -> isnan (SCORE e') = false -> prints_back (SCORE e')) ->
  Z.of_nat (length es) + 1 < 2 ^ 32 -> (length es < draws (rng s))%nat ->
  exists s' m, issue s (user_args K x u) = Ok (s', m) /\
    match user_op e u with
    | None => m = None /\ moved s s' K els es es 0
    | Some o => exists str e' es', m = Some (user_args K x u ++ [str]) /\ sdsToVC str = Ok (op_vc o) /\
        rwfz_effect e o = Ok e' /\ moved s s' K (<[x := e']> els) es es' 1 /\ mirrored (<[x := e']> els) es'
    end.
Proof.
  intros Hm Hl Hv Hmir He Hwf HN Hpb Hsm Hdr. unfold System.issue. rewrite lookup_user.
  set (c := mkClient (user_args K x u) None false false []).
  destruct (wp_local (mkWorld s c 0) K x els es e u N) as (r & w' & Hrun & -> & Hi & Hok); try done; [by apply mode_on|].
  assert (replicas (srv w') = []) as Hlk.
  { destruct (user_op e u); [destruct Hok as (? & ? & ? & ? & _ & _ & _ & _ & Hmv & _)|destruct Hok as (_ & _ & Hmv)];
      pose proof (mv_conf _ _ _ _ _ _ _ _ Hmv) as (_ & _ & Hlk & _); cbn [srv] in Hlk; congruence. }
  rewrite (call_client _ s c w' None) by done. cbn [mbind res_bind clients nsrv].
  rewrite lookup_singleton_eq. cbn [of_option mbind res_bind]. eexists _, _. split; [done|].
  destruct (user_op e u) as [o|].
  - destruct Hok as (str & n & e' & es' & Hs & Hr & Hout & Heff & Hmv & Hmir'). rewrite Hr. exists str, e', es'. by split_and!.
  - destruct Hok as (Hr & Hout & Hmv). rewrite Hr. by split_and!.
Qed.

Lemma receive_spec s x els es e e' u e0 o str :
  0 < p2p_count s -> user_op e0 u = Some o -> sdsToVC str = Ok (op_vc o) -> 0 <= vid (op_vc o) ->
  cview s K els es -> mirrored els es -> find_elem s els x = Ok e -> rwfz_effect e o = Ok e' ->
  (isnan (SCORE e') = false -> prints_back (SCORE e')) ->
  Z.of_nat (length es) + 1 < 2 ^ 32 -> (length es < draws (rng s))%nat ->
  exists s' es', receive s (user_args K x u ++ [str]) = Ok s' /\
    moved s s' K (<[x := e']> els) es es' 1 /\ mirrored (<[x := e']> els) es'.
Proof.
  intros Hm Ho Hs Hid Hv Hmir He Heff Hpb Hsm Hdr. unfold System.receive. rewrite lookup_user_msg.
  set (l := user_args K x u ++ [str]). set (c := mkClient l None true false []).
  destruct (wp_remote (mkWorld s (set_rargv c (Some (l, Z.of_nat (length l)))) 0) l (Z.of_nat (length l)) o K x els es e e' u e0)
    as (r & w' & Hrun & -> & Hc & es' & Hmv & Hmir'); try done; [by apply mode_on|by eapply user_msg|].
  rewrite (call_link _ s c w' None); [|done|done|by rewrite Hc]. cbn [mbind res_bind nsrv]. eauto.
Qed.

(** ** The invariant of a run

    [N] replicas; [TT] is the number of actions of the whole run and [T] the
    number done so far. *)

Context (N TT : nat) (HN : (0 < N <= VC_INT_BUF)%nat) (HTT : Z.of_nat TT + 2 < INT_MAX).

Definition log_entry (T : nat) (l : list string) : Prop :=
  exists x u e0 o str, l = user_args K x u ++ [str] /\ user_op e0 u = Some o /\ sdsToVC str = Ok (op_vc o) /\
    wf_vc N (op_vc o) /\ vle (vector (op_vc o)) (replicate N (Z.of_nat T)).

(** Every element is what the messages the replica executed make of it. *)
Definition built (lg : list (list string)) (i : nat) (g : list nat) (s : server E) (els : gmap string rwfze) : Prop :=
  forall x, exists e, find_elem s els x = Ok e /\
    (e ← rwfzeNew (Z.of_nat N) (Z.of_nat i); foldM rwfz_effect e (ops_got lg g x)) = Ok e.

Record replica_ok (T : nat) (lg : list (list string)) (i : nat) (s : server E) (g : list nat) : Prop := {
  ro_count : p2p_count s = Z.of_nat N;
  ro_id : p2p_id s = Z.of_nat i;
  ro_links : replicas s = [];
  ro_nodup : NoDup g;
  ro_in : Forall (fun m => m < length lg)%nat g;
  ro_own : forall m x o, parsed lg m = Some (x, o) -> vid (op_vc o) = Z.of_nat i -> m ∈ g;
  ro_state : exists els es, cview s K els es /\ mirrored els es /\ (length es <= T)%nat /\
    ((TT - T) * (TT + 2) <= draws (rng s))%nat /\ built lg i g s els
}.

Record sys_ok (acts : list action) (st : sys) : Prop := {
  so_servers : length (servers st) = N;
  so_got : length (got st) = N;
  so_log : Forall (log_entry (length acts)) (log st);
  so_agree : forall x, adds_agree (ops_got (log st) (seq 0 (length (log st))) x);
  so_values : log_values (log st) `sublist_of` omap action_value acts;
  so_replicas : forall i s g, servers st !! i = Some s -> got st !! i = Some g ->
    replica_ok (length acts) (log st) i s g
}.

Lemma vle_replicate v (a b : Z) : a <= b -> vle v (replicate N a) -> vle v (replicate N b).
Proof.
  intros Hab H. etrans; [exact H|]. clear -Hab. apply vle_alt; [by rewrite !length_replicate|].
  intros j x y Hx Hy. apply lookup_replicate in Hx as [-> _], Hy as [-> _]. lia.
Qed.

Lemma log_entry_mono T T' l : (T <= T')%nat -> log_entry T l -> log_entry T' l.
Proof.
  intros HT (x & u & e0 & o & str & ? & ? & ? & ? & Hv). exists x, u, e0, o, str. split_and!; try done.
  eapply vle_replicate; [|exact Hv]. lia.
Qed.

Lemma log_entry_parsed T l : log_entry T l -> exists x o, parse_msg l = Some (x, o) /\ wf_vc N (op_vc o) /\
  vle (vector (op_vc o)) (replicate N (Z.of_nat T)).
Proof. intros (x & u & e0 & o & str & -> & Ho & Hs & Hwf & Hv). exists x, o. split_and!; try done. by eapply parse_user. Qed.

Lemma ops_wf T lg g x :
  Forall (log_entry T) lg -> Forall (fun o => wf_vc N (op_vc o) /\ vle (vector (op_vc o)) (replicate N (Z.of_nat T))) (ops_got lg g x).
Proof.
  intros Hlg. apply Forall_forall. intros o (m & _ & Hp)%elem_of_ops_got. unfold System.parsed in Hp.
  destruct (lg !! m) as [l|] eqn:Hl; [|done]. cbn in Hp. pose proof (Forall_lookup_1 _ _ _ _ Hlg Hl) as He.
  destruct (log_entry_parsed _ _ He) as (y & o' & Hp' & ? & ?). rewrite Hp in Hp'. by injection Hp' as -> ->.
Qed.

(** An element as the messages built it. *)
Lemma elem_built T lg i g x e :
  Forall (log_entry T) lg -> (i < N)%nat -> Z.of_nat T < INT_MAX ->
  (e ← rwfzeNew (Z.of_nat N) (Z.of_nat i); foldM rwfz_effect e (ops_got lg g x)) = Ok e ->
  let l := ops_got lg g x in
  e = mk_elem (Z.of_nat i) (history op_stamp (replicate N 0) l, data_spec (surviving N l)) /\
  sized op_stamp N l /\ ids_ok l /\ wf_vc N (current (header e)) /\ vid (current (header e)) = Z.of_nat i /\
  vle (vector (current (header e))) (replicate N (Z.of_nat T)).
Proof.
  intros Hlg Hi HT Hrun l. pose proof (ops_wf T lg g x Hlg) as Hwf. fold l in Hwf, Hrun.
  assert (Forall (wf_vc N) (op_vc <$> l)) as Hwf1.
  { rewrite Forall_fmap. eapply Forall_impl; [exact Hwf|]. by intros o [? _]. }
  destruct (wf_ops _ _ Hwf1) as [Hs Hid]. rewrite rwfz_run_spec in Hrun by done. injection Hrun as <-.
  assert (vle (history op_stamp (replicate N 0) l) (replicate N (Z.of_nat T))) as Hle.
  { apply (history_lub _ N); [apply length_replicate|done|]. split.
    - apply vle_replicate with (a := 0); [lia|done].
    - eapply Forall_impl; [exact Hwf|]. by intros o [_ ?]. }
  assert (vle (replicate N 0) (history op_stamp (replicate N 0) l)) as Hge.
  { apply (history_lub op_stamp N (replicate N 0) l); [apply length_replicate|done|done]. }
  unfold mk_elem. destruct (data_spec _) as [[p inn] acq]. cbn [header current vector vid].
  split_and!; try done. split; cbn [vector vid]; [|..|lia].
  - apply history_length, length_replicate.
  - apply Forall_lookup. intros j z Hz.
    assert (j < N)%nat as Hj.
    { apply lookup_lt_Some in Hz. by rewrite (history_length _ N) in Hz by apply length_replicate. }
    pose proof (vle_lookup _ _ j z (Z.of_nat T) Hle Hz ltac:(by apply lookup_replicate_2)).
    pose proof (vle_lookup _ _ j 0 z Hge ltac:(by apply lookup_replicate_2) Hz). lia.
Qed.

Lemma find_elem_conf (s s' : server E) els x : same_conf s s' -> find_elem s' els x = find_elem s els x.
Proof. intros (Hc & Hi & _). unfold find_elem. by rewrite Hc, Hi. Qed.

Lemma run_snoc (c : res rwfze) l o :
  (e ← c; foldM rwfz_effect e (l ++ [o])) = (e ← (e ← c; foldM rwfz_effect e l); rwfz_effect e o).
Proof. destruct c as [e|]; [|done]. cbn [mbind res_bind]. rewrite foldM_app. cbn. by destruct (foldM _ _ _) as [e1|]; cbn; [destruct (rwfz_effect e1 o)|]. Qed.

Lemma built_conf lg i g s s' els : same_conf s s' -> built lg i g s els -> built lg i g s' els.
Proof. intros Hc Hb x. destruct (Hb x) as (e & He & Hr). exists e. by rewrite (find_elem_conf _ _ _ _ Hc). Qed.

Lemma built_exec lg i g s s' els x e o e' m :
  built lg i g s els -> find_elem s els x = Ok e -> parsed lg m = Some (x, o) -> rwfz_effect e o = Ok e' ->
  same_conf s s' -> built lg i (g ++ [m]) s' (<[x := e']> els).
Proof.
  intros Hb He Hp Heff Hc y. rewrite (ops_got_snoc _ _ _ _ _ _ Hp). destruct (Hb y) as (e1 & He1 & Hr1).
  destruct (decide (x = y)) as [<-|Hne].
  - exists e'. unfold find_elem at 1. rewrite lookup_insert_eq. split; [done|]. rewrite run_snoc, Hr1.
    assert (e1 = e) as -> by congruence. exact Heff.
  - exists e1. rewrite app_nil_r. split; [|done]. rewrite (find_elem_conf _ _ _ _ Hc). unfold find_elem in *.
    by rewrite lookup_insert_ne.
Qed.

Lemma replica_mono T lg i s g : replica_ok T lg i s g -> replica_ok (S T) lg i s g.
Proof.
  intros [? ? ? ? ? ? (els & es & ? & ? & ? & ? & ?)]. split; try done. exists els, es. split_and!; try done; [lia|].
  etrans; [|done]. apply Nat.mul_le_mono_r. lia.
Qed.

(** A message of another replica does not concern this one yet. *)
Lemma replica_log T lg i s g l :
  replica_ok T lg i s g -> (forall x o, parse_msg l = Some (x, o) -> vid (op_vc o) <> Z.of_nat i) ->
  replica_ok T (lg ++ [l]) i s g.
Proof.
  intros [? ? ? ? Hin Hown (els & es & ? & ? & ? & ? & Hb)] Hl. split; try done.
  - eapply Forall_impl; [exact Hin|]. intros m Hm. cbn beta in *. rewrite length_app. lia.
  - intros m x o Hp Hid. destruct (decide (m < length lg)%nat) as [Hm|Hm].
    + rewrite parsed_app in Hp by done. by eapply Hown.
    + assert (m = length lg) as ->.
      { unfold System.parsed in Hp. destruct ((lg ++ [l]) !! m) eqn:Hx; [|done]. apply lookup_lt_Some in Hx.
        rewrite length_app in Hx. simpl in Hx. lia. }
      rewrite parsed_new in Hp. by apply Hl in Hp.
  - exists els, es. split_and!; try done. intros x. rewrite ops_got_app by done. apply Hb.
Qed.

(** A replica that executed one more message. *)
Lemma replica_exec T lg i s s' g els es es' x e o e' m :
  p2p_count s = Z.of_nat N -> p2p_id s = Z.of_nat i -> replicas s = [] -> NoDup g ->
  Forall (fun m => m < length lg)%nat g ->
  (forall m' y o', parsed lg m' = Some (y, o') -> vid (op_vc o') = Z.of_nat i -> m' ∈ g ++ [m]) ->
  built lg i g s els -> (length es <= T)%nat -> ((TT - T) * (TT + 2) <= draws (rng s))%nat ->
  find_elem s els x = Ok e -> parsed lg m = Some (x, o) -> (m < length lg)%nat -> m ∉ g -> rwfz_effect e o = Ok e' ->
  moved s s' K (<[x := e']> els) es es' 1 -> mirrored (<[x := e']> els) es' -> (T < TT)%nat ->
  replica_ok (S T) lg i s' (g ++ [m]).
Proof.
  intros Hc Hi Hl Hnd Hin Hown Hb Hlen Hd He Hp Hm Hng Heff [Hconf Hv Hle Hdr] Hmir HT.
  destruct (Hconf) as (Hc' & Hi' & Hl' & _). split; try congruence; try done.
  - apply NoDup_app. split_and!; [done| |apply NoDup_singleton]. intros y Hy ->%list_elem_of_singleton. done.
  - apply Forall_app. split; [done|]. by constructor.
  - exists (<[x := e']> els), es'. split_and!; [done|done|lia| |by eapply built_exec].
    assert (1 * S (length es + 1) <= TT + 2)%nat by lia.
    replace (TT - T)%nat with (S (TT - S T)) in Hd by lia. cbn [Nat.mul] in Hd. lia.
Qed.

(** ** Scores of a run are small integers *)

Lemma next_prints T lg i g x e o e' :
  Forall (log_entry T) lg -> Z.of_nat T < INT_MAX -> (i < N)%nat ->
  (e ← rwfzeNew (Z.of_nat N) (Z.of_nat i); foldM rwfz_effect e (ops_got lg g x)) = Ok e ->
  wf_vc N (op_vc o) -> ints_below BOUND (op_values (ops_got lg g x ++ [o])) -> rwfz_effect e o = Ok e' ->
  prints_back (SCORE e').
Proof.
  intros Hlg HT Hi Hrun Hwf Hints Heff. destruct (elem_built T lg i g x e Hlg Hi HT Hrun) as (_ & Hs & Hid & _).
  destruct (rwfz_score_int N (Z.of_nat i) (ops_got lg g x ++ [o]) BOUND) as (e1 & z & He1 & Hz & Hb).
  - apply Forall_app. split; [done|]. constructor; [apply (wf_size _ _ Hwf)|done].
  - apply Forall_app. split; [done|]. constructor; [apply (wf_id _ _ Hwf)|done].
  - done.
  - unfold BOUND. lia.
  - rewrite run_snoc, Hrun in He1. cbn [mbind res_bind] in He1. assert (e1 = e') as -> by congruence.
    rewrite Hz. by apply prints_back_Z.
Qed.

Lemma user_value e u o i x : user_op e u = Some o -> op_value o = action_value (Client i x u).
Proof.
  destruct u as [a|a|]; cbn [user_op action_value].
  - destruct (getDoubleFromObject a); [|done]. cbn. destruct (EXISTS _); [done|]. by intros [= <-].
  - destruct (getDoubleFromObject a); [|done]. cbn. destruct (EXISTS _); [|done]. by intros [= <-].
  - destruct (EXISTS _); [|done]. by intros [= <-].
Qed.

(** An accepted operation is stamped with a clock one step further at most. *)
Lemma user_op_wf T e u o :
  wf_vc N (current (header e)) -> vle (vector (current (header e))) (replicate N (Z.of_nat T)) ->
  Z.of_nat T + 1 < INT_MAX -> user_op e u = Some o ->
  wf_vc N (op_vc o) /\ vle (vector (op_vc o)) (replicate N (Z.of_nat (S T))).
Proof.
  intros Hwf Hle HT Ho. set (c := current (header e)) in *.
  assert (vle (vector c) (replicate N (Z.of_nat (S T)))) as Hle' by (eapply vle_replicate; [|exact Hle]; lia).
  destruct u as [a|a|]; cbn [user_op] in Ho.
  - destruct (getDoubleFromObject a); [|done]. cbn in Ho. destruct (EXISTS _); [done|]. by injection Ho as <-.
  - destruct (getDoubleFromObject a); [|done]. cbn in Ho. destruct (EXISTS _); [|done]. by injection Ho as <-.
  - destruct (EXISTS _); [|done]. injection Ho as <-. cbn [op_vc]. fold c. unfold next_remove.
    pose proof (wf_id _ _ Hwf) as Hid. pose proof (wf_size _ _ Hwf) as Hsz.
    destruct (lookup_lt_is_Some_2 (vector c) (Z.to_nat (vid c))) as [z Hz]; [lia|].
    assert (entry (vector c) (vid c) = z) as -> by (unfold entry; by rewrite Hz).
    pose proof (wf_vc_lookup _ _ _ _ Hwf Hz) as Hr.
    pose proof (vle_lookup _ _ _ _ (Z.of_nat T) Hle Hz ltac:(apply lookup_replicate_2; lia)) as Hb.
    split.
    + split; cbn [vector vid]; [by rewrite length_insert| |done]. apply Forall_insert; [apply (wf_entries _ _ Hwf)|lia].
    + cbn [vector]. apply vle_alt; [by rewrite length_insert, length_replicate|].
      intros j a b Ha Hb'. apply lookup_replicate in Hb' as [-> Hj].
      destruct (decide (j = Z.to_nat (vid c))) as [->|Hne].
      * rewrite list_lookup_insert_eq in Ha by lia. injection Ha as <-. lia.
      * rewrite list_lookup_insert_ne in Ha by done.
        pose proof (vle_lookup _ _ _ _ (Z.of_nat (S T)) Hle' Ha ltac:(by apply lookup_replicate_2)). lia.
Qed.

(** ** Adds with one stamp *)

(** An accepted add is the first one of its replica in its epoch. *)
Lemma add_is_new T lg i g x e a v t v' t' :
  Forall (log_entry T) lg -> (i < N)%nat -> Z.of_nat T < INT_MAX ->
  (e ← rwfzeNew (Z.of_nat N) (Z.of_nat i); foldM rwfz_effect e (ops_got lg g x)) = Ok e ->
  user_op e (UAdd a) = Some (RwfzAdd v t) -> RwfzAdd v' t' ∈ ops_got lg g x -> vector t <> vector t'.
Proof.
  intros Hlg Hi HT Hrun Ho Hin Hv. destruct (elem_built _ _ _ _ _ _ Hlg Hi HT Hrun) as (He & Hs & Hid & _).
  set (l := ops_got lg g x) in *. cbn [user_op] in Ho. destruct (getDoubleFromObject a); [|done]. cbn in Ho.
  destruct (EXISTS (header e)) eqn:Hex; [done|]. injection Ho as -> <-.
  assert (RwfzAdd v' t' ∈ surviving N l) as Hsv.
  { unfold surviving, survivors. apply list_elem_of_filter. split; [|done]. unfold in_epoch. split; [done|].
    unfold op_stamp. cbn [op_vc]. rewrite <- Hv, He. unfold mk_elem. by destruct (data_spec _) as [[? ?] ?]. }
  destruct (winner (surviving N l)) as [[j w]|] eqn:Hw; [|by rewrite winner_None in Hw; apply Hw in Hsv].
  assert (ids_ok (surviving N l)) as Hids by
    (apply Forall_forall; intros o [Ho _]%survivors_stamp; unfold ids_ok in Hid; rewrite Forall_forall in Hid; by apply Hid).
  pose proof (winner_id_nonneg _ _ _ Hids Hw) as Hj.
  rewrite He in Hex. unfold data_spec in Hex. rewrite Hw in Hex. cbn in Hex. apply negb_false_iff, Z.eqb_eq in Hex. unfold PID_NEXIST in Hex. cbn in Hex. lia.
Qed.

Lemma agree_new lg l x o :
  parse_msg l = Some (x, o) -> (forall y, adds_agree (ops_got lg (seq 0 (length lg)) y)) ->
  (forall v t v' t', o = RwfzAdd v t -> RwfzAdd v' t' ∈ ops_got lg (seq 0 (length lg)) x ->
     vid t = vid t' -> vector t <> vector t') ->
  forall y, adds_agree (ops_got (lg ++ [l]) (seq 0 (length (lg ++ [l]))) y).
Proof.
  intros Hp Hag Hnew y v t v' t'. rewrite (ops_got_all _ _ _ _ _ Hp), !elem_of_app.
  case_decide as Hxy; [subst y|rewrite !elem_of_nil; intros [?|[]] [?|[]]; by eapply Hag].
  rewrite !list_elem_of_singleton. intros [H1|<-] [H2|H2] Hv Hi.
  - by eapply Hag.
  - exfalso. by eapply (Hnew v' t' v t).
  - exfalso. by eapply (Hnew v t v' t').
  - by injection H2.
Qed.

(** ** Steps of the system *)

Lemma log_mono T T' lg : (T <= T')%nat -> Forall (log_entry T) lg -> Forall (log_entry T') lg.
Proof. intros HT Hl. eapply Forall_impl; [exact Hl|]. intros l. by apply log_entry_mono. Qed.

Lemma sys_idle acts a st : sys_ok acts st -> sys_ok (acts ++ [a]) st.
Proof.
  intros [? ? Hlg ? Hv Hr].
  split; try done; rewrite ?length_app, ?omap_app; cbn [length].
  - eapply log_mono; [|exact Hlg]. lia.
  - by apply sublist_inserts_r.
  - intros i s g Hs Hg. rewrite Nat.add_1_r. apply replica_mono. by apply Hr.
Qed.

Lemma values_next acts a lg g x o :
  log_values lg `sublist_of` omap action_value acts -> NoDup g -> Forall (fun m => m < length lg)%nat g ->
  op_value o = action_value a -> ints_below BOUND (omap action_value (acts ++ [a])) ->
  ints_below BOUND (op_values (ops_got lg g x ++ [o])).
Proof.
  intros Hlv Hnd Hin Hv Hints. eapply ints_below_sub; [|exact Hints]. unfold op_values. rewrite !omap_app.
  apply submseteq_app; [etrans; [by apply values_got|by apply sublist_submseteq]|]. cbn. by rewrite Hv.
Qed.

(** What a step needs to know of a replica. *)
Lemma replica_elem acts st i s x :
  sys_ok acts st -> (length acts < TT)%nat -> servers st !! i = Some s ->
  exists g els es e, got st !! i = Some g /\ replica_ok (length acts) (log st) i s g /\ (i < N)%nat /\
    0 < p2p_count s /\ cview s K els es /\ mirrored els es /\ built (log st) i g s els /\ find_elem s els x = Ok e /\
    (e ← rwfzeNew (Z.of_nat N) (Z.of_nat i); foldM rwfz_effect e (ops_got (log st) g x)) = Ok e /\
    (length es <= length acts)%nat /\ ((TT - length acts) * (TT + 2) <= draws (rng s))%nat /\
    Z.of_nat (length es) + 1 < 2 ^ 32 /\ (length es < draws (rng s))%nat.
Proof.
  intros Hok HT Hs. pose proof (lookup_lt_Some _ _ _ Hs) as Hi. rewrite (so_servers _ _ Hok) in Hi.
  destruct (lookup_lt_is_Some_2 (got st) i) as [g Hg]; [by rewrite (so_got _ _ Hok)|].
  pose proof (so_replicas _ _ Hok i s g Hs Hg) as Hr. destruct (ro_state _ _ _ _ _ Hr) as (els & es & Hv & Hmir & Hlen & Hd & Hb).
  destruct (Hb x) as (e & He & Hrun). exists g, els, es, e. split_and!; try done.
  - rewrite (ro_count _ _ _ _ _ Hr). lia.
  - unfold INT_MAX in HTT. lia.
  - replace (TT - length acts)%nat with (S (TT - S (length acts))) in Hd by lia. cbn [Nat.mul] in Hd. lia.
Qed.

(** A replica that answered without changing an element. *)
Lemma replica_same T lg i s s' g els es :
  replica_ok T lg i s g -> built lg i g s els -> mirrored els es -> (length es <= T)%nat ->
  ((TT - T) * (TT + 2) <= draws (rng s))%nat -> moved s s' K els es es 0 -> replica_ok T lg i s' g.
Proof.
  intros [Hc Hi Hl ? ? ? _] Hb Hmir Hlen Hd [Hconf Hv _ Hdr]. pose proof Hconf as (Hc' & Hi' & Hl' & _).
  split; try congruence; try done. exists els, es. split_and!; try done; [lia|by eapply built_conf].
Qed.

Lemma own_new T lg i s g l x o :
  replica_ok T lg i s g -> parse_msg l = Some (x, o) ->
  forall m y o', parsed (lg ++ [l]) m = Some (y, o') -> vid (op_vc o') = Z.of_nat i -> m ∈ g ++ [length lg].
Proof.
  intros Hr Hp m y o' Hm Hid. apply elem_of_app. destruct (decide (m < length lg)%nat) as [Hlt|Hge].
  - left. rewrite parsed_app in Hm by done. by eapply (ro_own _ _ _ _ _ Hr).
  - right. apply list_elem_of_singleton. unfold System.parsed in Hm. destruct ((lg ++ [l]) !! m) eqn:Hx; [|done].
    apply lookup_lt_Some in Hx. rewrite length_app in Hx. simpl in Hx. lia.
Qed.

Lemma replica_accept T lg i s s' g els es es' x e o e' l :
  replica_ok T lg i s g -> built lg i g s els -> (length es <= T)%nat -> ((TT - T) * (TT + 2) <= draws (rng s))%nat ->
  find_elem s els x = Ok e -> parse_msg l = Some (x, o) -> rwfz_effect e o = Ok e' ->
  moved s s' K (<[x := e']> els) es es' 1 -> mirrored (<[x := e']> els) es' -> (T < TT)%nat ->
  replica_ok (S T) (lg ++ [l]) i s' (g ++ [length lg]).
Proof.
  intros Hr Hb Hlen Hd He Hp Heff Hmv Hmir HT. pose proof (ro_in _ _ _ _ _ Hr) as Hin.
  eapply (replica_exec T (lg ++ [l]) i s s' g els es es' x e o e'); try done; try apply Hr.
  - eapply Forall_impl; [exact Hin|]. intros m Hm. cbn beta in *. rewrite length_app. lia.
  - by eapply own_new.
  - intros y. rewrite ops_got_app by done. apply Hb.
  - by rewrite parsed_new.
  - rewrite length_app. cbn. lia.
  - intros Hm. rewrite Forall_forall in Hin. specialize (Hin _ Hm). cbn in Hin. lia.
Qed.

Lemma step_accepted acts st i x u s s' g els es e o str e' es' :
  sys_ok acts st -> (length acts < TT)%nat -> servers st !! i = Some s -> got st !! i = Some g -> (i < N)%nat ->
  replica_ok (length acts) (log st) i s g -> built (log st) i g s els -> (length es <= length acts)%nat ->
  ((TT - length acts) * (TT + 2) <= draws (rng s))%nat -> find_elem s els x = Ok e ->
  (e ← rwfzeNew (Z.of_nat N) (Z.of_nat i); foldM rwfz_effect e (ops_got (log st) g x)) = Ok e ->
  user_op e u = Some o -> sdsToVC str = Ok (op_vc o) -> rwfz_effect e o = Ok e' ->
  moved s s' K (<[x := e']> els) es es' 1 -> mirrored (<[x := e']> els) es' ->
  sys_ok (acts ++ [Client i x u])
    (mkSys (<[i := s']> (servers st)) (log st ++ [user_args K x u ++ [str]])
       (alter (fun g => g ++ [length (log st)]) i (got st))).
Proof.
  intros Hok HT Hs Hg Hi Hr Hb Hlen Hd He Hrun Ho Hstr Heff Hmv Hmir.
  set (l := user_args K x u ++ [str]).
  assert (parse_msg l = Some (x, o)) as Hp by (by eapply parse_user).
  destruct (elem_built _ _ _ _ _ _ (so_log _ _ Hok) Hi ltac:(lia) Hrun) as (_ & _ & _ & Hwf & Hid & Hle).
  destruct (user_op_wf _ _ _ _ Hwf Hle ltac:(lia) Ho) as [Hwfo Hleo].
  destruct (user_op_size _ _ _ _ Hwf Ho) as [_ Hvid]. rewrite Hid in Hvid.
  split; cbn [servers got log].
  - by rewrite length_insert, (so_servers _ _ Hok).
  - by rewrite length_alter, (so_got _ _ Hok).
  - rewrite length_app, Nat.add_1_r. apply Forall_app. split; [eapply log_mono; [|apply (so_log _ _ Hok)]; lia|].
    constructor; [|done]. exists x, u, e, o, str. by split_and!.
  - eapply agree_new; [exact Hp|apply (so_agree _ _ Hok)|]. intros v t v' t' -> (m & _ & Hm)%elem_of_ops_got Hids.
    assert (m ∈ g) as Hmg by (eapply (ro_own _ _ _ _ _ Hr); [exact Hm|]; cbn in *; congruence).
    destruct u as [a|a|]; [|cbn in Ho; by destruct (getDoubleFromObject a); cbn in Ho; [destruct (EXISTS _)|]|cbn in Ho; by destruct (EXISTS _)].
    apply (add_is_new (length acts) (log st) i g x e a v t v' t'); try done; [apply (so_log _ _ Hok)|lia|].
    apply elem_of_ops_got. eauto.
  - eapply log_values_new; [apply (so_values _ _ Hok)|exact Hp|by eapply user_value].
  - intros j sj gj Hsj Hgj. rewrite length_app, Nat.add_1_r.
    destruct (lookup_update _ _ _ _ _ Hsj) as [[-> ->]|[Hne Hsj']].
    + rewrite list_lookup_alter_eq, Hg in Hgj. injection Hgj as <-.
      by eapply (replica_accept _ _ _ s).
    + rewrite list_lookup_alter_ne in Hgj by done. apply replica_mono, replica_log; [by apply (so_replicas _ _ Hok)|].
      intros y o' Hp'. rewrite Hp in Hp'. injection Hp' as <- <-. lia.
Qed.

(** What a replica does with a command of its client. *)
Lemma client_issue acts st i x u s :
  sys_ok acts st -> (length acts < TT)%nat -> ints_below BOUND (omap action_value (acts ++ [Client i x u])) ->
  servers st !! i = Some s ->
  exists g els es e s' m, got st !! i = Some g /\ (i < N)%nat /\ replica_ok (length acts) (log st) i s g /\
    built (log st) i g s els /\ mirrored els es /\ find_elem s els x = Ok e /\
    (e ← rwfzeNew (Z.of_nat N) (Z.of_nat i); foldM rwfz_effect e (ops_got (log st) g x)) = Ok e /\
    (length es <= length acts)%nat /\ ((TT - length acts) * (TT + 2) <= draws (rng s))%nat /\
    issue s (user_args K x u) = Ok (s', m) /\
    match user_op e u with
    | None => m = None /\ moved s s' K els es es 0
    | Some o => exists str e' es', m = Some (user_args K x u ++ [str]) /\ sdsToVC str = Ok (op_vc o) /\
        rwfz_effect e o = Ok e' /\ moved s s' K (<[x := e']> els) es es' 1 /\ mirrored (<[x := e']> els) es'
    end.
Proof.
  intros Hok HT Hints Hs. destruct (replica_elem acts st i s x Hok HT Hs)
    as (g & els & es & e & Hg & Hr & Hi & Hm & Hv & Hmir & Hb & He & Hrun & Hlen & Hd & Hsm & Hdr).
  destruct (elem_built _ _ _ _ _ _ (so_log _ _ Hok) Hi ltac:(lia) Hrun) as (_ & _ & _ & Hwf & Hid & Hle).
  destruct (issue_spec s x els es e u N) as (s' & m & Hiss & Hcase); try done; [apply Hr|..].
  { intros o e' Ho Heff _. destruct (user_op_wf _ _ _ _ Hwf Hle ltac:(lia) Ho) as [Hwfo _].
    eapply (next_prints (length acts) (log st) i g x e o); try done; [apply (so_log _ _ Hok)|lia|].
    eapply values_next; [apply (so_values _ _ Hok)|apply Hr|apply Hr|by eapply user_value|done]. }
  exists g, els, es, e, s', m. by split_and!.
Qed.

Lemma step_client acts st i x u :
  sys_ok acts st -> (length acts < TT)%nat -> ints_below BOUND (omap action_value (acts ++ [Client i x u])) ->
  exists st', sys_step st (Client i x u) = Ok st' /\ sys_ok (acts ++ [Client i x u]) st'.
Proof.
  intros Hok HT Hints. cbn [System.sys_step]. destruct (servers st !! i) as [s|] eqn:Hs; [|eexists; split; [done|by apply sys_idle]].
  destruct (client_issue acts st i x u s Hok HT Hints Hs)
    as (g & els & es & e & s' & m & Hg & Hi & Hr & Hb & Hmir & He & Hrun & Hlen & Hd & Hiss & Hcase).
  rewrite Hiss. cbn [mbind res_bind]. destruct (user_op e u) as [o|] eqn:Ho.
  - destruct Hcase as (str & e' & es' & -> & Hstr & Heff & Hmv & Hmir'). eexists. split; [done|]. by eapply step_accepted.
  - destruct Hcase as (-> & Hmv). eexists. split; [done|].
    assert (sys_ok acts (mkSys (<[i := s']> (servers st)) (log st) (got st))) as Hok'; [|by apply sys_idle].
    destruct Hok as [? ? ? ? ? Hrep]. split; cbn [servers got log]; try done; [by rewrite length_insert|].
    intros j sj gj Hsj Hgj. destruct (lookup_update _ _ _ _ _ Hsj) as [[-> ->]|[Hne Hsj']]; [|by apply Hrep].
    assert (gj = g) as -> by congruence. by eapply replica_same.
Qed.

Lemma step_deliver acts st j m :
  sys_ok acts st -> (length acts < TT)%nat -> ints_below BOUND (omap action_value (acts ++ [Deliver j m])) ->
  exists st', sys_step st (Deliver j m) = Ok st' /\ sys_ok (acts ++ [Deliver j m]) st'.
Proof.
  intros Hok HT Hints. cbn [System.sys_step].
  destruct (servers st !! j) as [s|] eqn:Hs; [|eexists; split; [done|by apply sys_idle]].
  destruct (log st !! m) as [l|] eqn:Hl; [|eexists; split; [done|by apply sys_idle]].
  pose proof (Forall_lookup_1 _ _ _ _ (so_log _ _ Hok) Hl) as (x & u & e0 & o & str & -> & Ho & Hstr & Hwfo & Hleo).
  destruct (replica_elem acts st j s x Hok HT Hs)
    as (g & els & es & e & Hg & Hr & Hi & Hm & Hv & Hmir & Hb & He & Hrun & Hlen & Hd & Hsm & Hdr).
  rewrite Hg. case_decide as Hmg; [eexists; split; [done|by apply sys_idle]|].
  assert (parsed (log st) m = Some (x, o)) as Hp by (unfold System.parsed; rewrite Hl; by eapply parse_user).
  destruct (elem_built _ _ _ _ _ _ (so_log _ _ Hok) Hi ltac:(lia) Hrun) as (_ & _ & _ & Hwf & Hid & Hle).
  destruct (rwfz_effect_Ok e o) as [e' Heff]; [by rewrite (wf_size _ _ Hwf), (wf_size _ _ Hwfo)|].
  pose proof (lookup_lt_Some _ _ _ Hl) as Hml.
  destruct (got_snoc g m (length (log st)) (ro_nodup _ _ _ _ _ Hr) (ro_in _ _ _ _ _ Hr) Hmg Hml) as [Hnd Hin].
  destruct (receive_spec s x els es e e' u e0 o str) as (s' & es' & -> & Hmv & Hmir'); try done.
  { apply (wf_id _ _ Hwfo). }
  { intros _. eapply (next_prints (length acts) (log st) j g x e o); try done; [apply (so_log _ _ Hok)|lia|].
    pose proof (values_got (parse := parse_msg) (value := op_value) (log st) (g ++ [m]) x Hnd Hin) as Hsub. rewrite (ops_got_snoc _ _ _ _ _ _ Hp), decide_True in Hsub by done.
    eapply ints_below_sub; [|exact Hints]. etrans; [exact Hsub|]. etrans; [apply sublist_submseteq, (so_values _ _ Hok)|].
    rewrite omap_app. by apply submseteq_inserts_r. }
  cbn [mbind res_bind]. eexists. split; [done|]. split; cbn [servers got log].
  - by rewrite length_insert, (so_servers _ _ Hok).
  - by rewrite length_insert, (so_got _ _ Hok).
  - eapply log_mono; [|apply (so_log _ _ Hok)]. rewrite length_app. lia.
  - apply (so_agree _ _ Hok).
  - rewrite omap_app. apply sublist_inserts_r, (so_values _ _ Hok).
  - intros i si gi Hsi Hgi. rewrite length_app, Nat.add_1_r.
    destruct (lookup_update _ _ _ _ _ Hsi) as [[-> ->]|[Hne Hsi']], (lookup_update _ _ _ _ _ Hgi) as [[? ->]|[? Hgi']]; try done.
    + eapply (replica_exec (length acts) (log st) i s); try done; try apply Hr. intros m' y o' Hp' Hv'. apply elem_of_app. left. by eapply (ro_own _ _ _ _ _ Hr).
    + apply replica_mono. by apply (so_replicas _ _ Hok).
Qed.

(** ** Runs *)

Lemma run_ok acts' : forall acts st,
  sys_ok acts st -> (length (acts ++ acts') <= TT)%nat -> ints_below BOUND (omap action_value (acts ++ acts')) ->
  exists st', sys_run st acts' = Ok st' /\ sys_ok (acts ++ acts') st'.
Proof.
  induction acts' as [|a acts' IH]; intros acts st Hok Hlen Hints; [exists st; by rewrite app_nil_r|].
  assert (exists st', sys_step st a = Ok st' /\ sys_ok (acts ++ [a]) st') as (st1 & Hst & Hok1).
  { rewrite length_app in Hlen. cbn in Hlen. replace (a :: acts') with ([a] ++ acts') in Hints by done.
    rewrite app_assoc, omap_app in Hints.
    assert (ints_below BOUND (omap action_value (acts ++ [a]))) as Hints'.
    { eapply ints_below_sub; [|exact Hints]. by apply submseteq_inserts_r. }
    destruct a as [i x u|j m]; [apply step_client|apply step_deliver]; try done; lia. }
  destruct (IH (acts ++ [a]) st1 Hok1) as (st2 & Hrun & Hok2); [by rewrite <- app_assoc..|].
  exists st2. rewrite <- app_assoc in Hok2. split; [|done]. unfold System.sys_run in *. cbn [foldM]. by rewrite Hst.
Qed.

Lemma init_ok cfg rss :
  length rss = N -> Forall (fun rs => TT * (TT + 2) <= draws rs)%nat rss -> sys_ok [] (sys_init cfg rss).
Proof.
  intros Hn Hd. unfold sys_init. split; cbn [servers got log]; try done.
  - by rewrite length_imap.
  - by rewrite length_replicate.
  - intros x v t v' t' Hin. by apply elem_of_nil in Hin.
  - intros i s g Hs Hg. rewrite list_lookup_imap in Hs. destruct (rss !! i) as [rs|] eqn:Hrs; [|done].
    cbn in Hs. injection Hs as <-. apply lookup_replicate in Hg as [-> _].
    split; cbn [boot p2p_count p2p_id replicas]; try done; [by rewrite Hn|constructor|].
    exists ∅, []. split_and!; try done.
    + split; [done|done|]. intros p [c Hc]. done.
    + cbn [length]. rewrite Nat.sub_0_r. by apply (Forall_lookup_1 _ _ _ _ Hd Hrs).
    + intros x. unfold find_elem. rewrite lookup_empty. cbn [boot p2p_count p2p_id]. rewrite Hn.
      destruct (rwfzeNew (Z.of_nat N) (Z.of_nat i)) as [e|c] eqn:He; [by exists e|]. by rewrite rwfzeNew_Ok in He.
Qed.

(** ** Answers *)

Lemma mirrored_find (s : server E) els es x e :
  mirrored els es -> find_elem s els x = Ok e -> mirrors (zscore x es) (EXISTS (header e)) (SCORE e).
Proof.
  intros Hm He. specialize (Hm x). unfold find_elem in He. destruct (els !! x) as [e'|]; [by injection He as <-|].
  rewrite Hm. unfold rwfzeNew, REH_INIT in He. destruct (_vc_new _ _); [|done]. by injection He as <-.
Qed.

(** Two replicas that executed the same messages hold the same elements. *)
Lemma elems_agree acts st i j si sj gi gj eli elj x ei ej :
  sys_ok acts st -> (length acts <= TT)%nat -> ints_below BOUND (omap action_value acts) -> (i < N)%nat ->
  replica_ok (length acts) (log st) i si gi -> built (log st) i gi si eli -> built (log st) j gj sj elj ->
  gi ≡ₚ gj -> find_elem si eli x = Ok ei -> find_elem sj elj x = Ok ej ->
  EXISTS (header ei) = EXISTS (header ej) /\ SCORE ei = SCORE ej /\ isnan (SCORE ei) = false.
Proof.
  intros Hok HT Hints Hi Hri Hbi Hbj Hp Hei Hej.
  destruct (Hbi x) as (e1 & He1 & Hr1), (Hbj x) as (e2 & He2 & Hr2).
  assert (e1 = ei) as -> by congruence. assert (e2 = ej) as -> by congruence.
  pose proof (ops_wf _ _ gi x (so_log _ _ Hok)) as Hwf.
  assert (Forall (wf_vc N) (op_vc <$> ops_got (log st) gi x)) as Hwf1.
  { rewrite Forall_fmap. eapply Forall_impl; [exact Hwf|]. by intros o [? _]. }
  assert (ints_below BOUND (op_values (ops_got (log st) gi x))) as Hi'.
  { eapply ints_below_sub; [|exact Hints]. etrans; [apply values_got; apply Hri|].
    apply sublist_submseteq, (so_values _ _ Hok). }
  destruct (rwfz_integer_agree N (Z.of_nat i) (Z.of_nat j) (ops_got (log st) gi x) (ops_got (log st) gj x))
    as (e1 & e2 & H1 & H2 & Hx & Hs); try done; [| by apply perm_got| |].
  - pose proof (so_agree _ _ Hok x) as Hag. intros v t v' t' Hv Hv'. apply Hag; (eapply got_in_all; [apply Hri|done]).
  - intros v Hv. apply ints_below_small. destruct (start_values BOUND _ v ltac:(done) Hi' Hv) as [? ?].
    split; [done|]. unfold BOUND in *. lia.
  - assert (e1 = ei) as -> by congruence. assert (e2 = ej) as -> by congruence. split_and!; try done.
    destruct (wf_ops _ _ Hwf1) as [Hs1 Hid1].
    destruct (rwfz_score_int N (Z.of_nat i) _ BOUND Hs1 Hid1 Hi' ltac:(done)) as (e & z & He & Hz & Hzb).
    assert (e = ei) as -> by congruence. rewrite Hz. apply isnan_Z. unfold BOUND in *. lia.
Qed.

Lemma answers_agree acts st i j si sj gi gj x :
  sys_ok acts st -> (length acts <= TT)%nat -> ints_below BOUND (omap action_value acts) ->
  servers st !! i = Some si -> servers st !! j = Some sj -> got st !! i = Some gi -> got st !! j = Some gj -> gi ≡ₚ gj ->
  exists m m', ask si x = Ok [score_reply m] /\ ask sj x = Ok [score_reply m'] /\ same_score m m'.
Proof.
  intros Hok HT Hints Hsi Hsj Hgi Hgj Hp. pose proof (so_replicas _ _ Hok) as Hr.
  pose proof (lookup_lt_Some _ _ _ Hsi) as Hi. rewrite (so_servers _ _ Hok) in Hi.
  pose proof (Hr i si gi Hsi Hgi) as Hri. destruct (ro_state _ _ _ _ _ Hri) as (eli & esi & Hvi & Hmi & _ & _ & Hbi).
  destruct (ro_state _ _ _ _ _ (Hr j sj gj Hsj Hgj)) as (elj & esj & Hvj & Hmj & _ & _ & Hbj).
  destruct (Hbi x) as (ei & Hei & _), (Hbj x) as (ej & Hej & _).
  exists (zscore x esi), (zscore x esj). split_and!; [by eapply ask_view|by eapply ask_view|].
  destruct (elems_agree acts st i j si sj gi gj eli elj x ei ej) as (Hx & Hs & Hn); try done.
  eapply mirrors_agree; [by eapply mirrored_find| |exact Hn].
  rewrite Hx, Hs. by eapply mirrored_find.
Qed.
End System.

(** ** Runs from the start *)

Definition rwfz_run {E} `{!Cell rwfze E} (K : string) : sys E -> list (action rwfz_user) -> res (sys E) :=
  sys_run lookupCommand (user_args K).
Definition rwfz_ask {E} (K : string) : server E -> string -> res (list reply) := ask rwfzscoreCommand "rwfzscore" K.

Section Runs.
Context {E : Type} `{!Cell rwfze E}.

(** A run on [rss], the random numbers of each replica: the clocks of the
    messages fit the buffer of [sdsToVC], the clocks do not overflow, the
    values sent are integers that are added and printed exactly, and every
    replica has random numbers for its insertions. *)
Record good_run (rss : list (list Z)) (acts : list (action rwfz_user)) : Prop := {
  gr_replicas : (0 < length rss <= VC_INT_BUF)%nat;
  gr_length : Z.of_nat (length acts) + 2 < INT_MAX;
  gr_values : ints_below BOUND (omap action_value acts);
  gr_draws : Forall (fun rs => length acts * (length acts + 2) <= draws rs)%nat rss
}.

Lemma good_run_ok K cfg rss acts :
  good_run rss acts ->
  exists st : sys E, rwfz_run K (sys_init cfg rss) acts = Ok st /\ sys_ok K (length rss) (length acts) acts st.
Proof.
  intros [Hn Hl Hv Hd].
  apply (run_ok K (length rss) (length acts) Hn Hl acts []); [by apply init_ok|done|done].
Qed.


End Runs.

(** ** A concrete run *)

(** An increment at one replica concurrent with a remove at the other. *)
Definition sample_run : list (action rwfz_user) :=
  [Client 0 "a" (UAdd "5"); Deliver 1 0; Client 1 "a" (UIncr "2"); Client 0 "a" URem; Client 0 "a" (UAdd "7");
   Deliver 0 1; Deliver 1 3; Deliver 1 2].
Definition sample_draws : list (list Z) := [replicate 80 65535; replicate 80 65535].
Definition sample_end : res (sys rwfze) :=
  rwfz_run (E := rwfze) "q" (sys_init (mkZcfg 128 64) sample_draws) sample_run.

Lemma sample_good : good_run sample_draws sample_run.
Proof.
  split.
  - cbn. unfold VC_INT_BUF. lia.
  - unfold INT_MAX. cbn. lia.
  - assert (omap action_value sample_run = [double_of_Z 5; double_of_Z 2; double_of_Z 7]) as -> by (by vm_compute).
    split; [|by vm_compute]. repeat (apply Forall_cons; split; [by vm_compute|]). done.
  - apply Forall_cons; split; [|apply Forall_cons; split; [|done]]; vm_compute; lia.
Qed.


Lemma sample_got :
  exists st, sample_end = Ok st /\ length (servers st) = 2%nat /\ got st = [[0; 2; 3; 1]; [0; 1; 3; 2]]%nat.
Proof. apply (res_ok_with sample_end (fun st => length (servers st) = 2%nat /\ got st = _)). vm_compute. done. Qed.


(** ** Links and transactions *)

(** The requests in what was written to a link. *)
Definition requests (l : list reply) : list (list string) :=
  (foldr (fun r '(cur, acc) => match r with
                               | RArray _ => ([], cur :: acc)
                               | RBulk s => (s :: cur, acc)
                               | _ => (cur, acc)
                               end) ([], []) l).2.

(** A replica with an ordinary client 1 and a link 7 to another one. *)
Definition linked_node : node rwfze :=
  mkNode (mkServer 2 0 [7%nat] (mkZcfg 128 64) ∅ ∅ 0 0 (replicate 9 65535))
    {[ 1%nat := mkClient [] None false false []; 7%nat := mkClient [] None true false [] ]}.
Definition other_server : server rwfze := mkServer 2 1 [] (mkZcfg 128 64) ∅ ∅ 0 0 (replicate 9 65535).

(** [RWFZADD q a 5], then [MULTI], [RWFZINCRBY q a 2], [RWFZSCORE q a], [EXEC]. *)
Definition transaction : res (node rwfze) :=
  nd ← processCommand rwfzaddCommand 1 ["rwfzadd"; "q"; "a"; "5"] linked_node;
  exec_queue [(rwfzincrbyCommand, ["rwfzincrby"; "q"; "a"; "2"]); (rwfzscoreCommand, ["rwfzscore"; "q"; "a"])] 1 nd.

(** What the link carried, and the score here and at the replica that executed it. *)
Definition transaction_outcome : res (list (list string) * list reply * list reply) :=
  nd ← transaction;
  lk ← of_option UseAfterFree (clients nd !! 7%nat);
  s1 ← foldM (receive lookupCommand) other_server (requests (out lk));
  here ← rwfz_ask "q" (nsrv nd) "a";
  there ← rwfz_ask "q" s1 "a";
  Ok (requests (out lk), here, there).


(** The add as the client of [linked_node] sends it. *)
Definition adding_client : client := mkClient ["rwfzadd"; "q"; "a"; "5"] None false false [].
Definition adding_node : node rwfze :=
  mkNode (nsrv linked_node) {[ 1%nat := adding_client; 7%nat := mkClient [] None true false [] ]}.
Definition added_args : list string := ["rwfzadd"; "q"; "a"; "5"; "0,0|0"].

Lemma adding_run :
  exists rw, rwfzaddCommand (mkWorld (nsrv adding_node) adding_client 0) = Ok rw /\
    exists n, rargv (cli rw.2) = Some (added_args, n) /\ is_replica (cli rw.2) = false /\ replicas (srv rw.2) = [7%nat].
Proof.
  apply (res_ok_with (rwfzaddCommand (mkWorld (nsrv adding_node) adding_client 0))
    (fun rw => exists n, rargv (cli rw.2) = Some (added_args, n) /\ is_replica (cli rw.2) = false /\ replicas (srv rw.2) = [7%nat])).
  vm_compute. by eexists.
Qed.

Lemma call_broadcasts_witness :
  exists nd, call rwfzaddCommand 1 adding_node = Ok nd /\
    clients nd !! 7%nat = Some (sent added_args (mkClient [] None true false [])).
Proof.
  destruct adding_run as ([r w] & Hrun & n & Hr & Hi & Hl). cbn [snd] in *.
  destruct (call_broadcasts rwfzaddCommand 1 adding_node adding_client w r added_args n eq_refl eq_refl Hrun Hr Hi)
    as (nd & Hc & _ & _ & Hs & _); try (rewrite Hl).
  - apply NoDup_singleton.
  - by apply (bool_decide_unpack _).
  - apply Forall_singleton. by eexists.
  - exists nd. split; [exact Hc|]. rewrite Hs; [reflexivity|]. rewrite Hl. by left.
Defined.

Lemma broadcast_after_disconnect_witness :
  call rwfzaddCommand 1 (freeClient 7 adding_node) = Crash UseAfterFree.
Proof.
  destruct adding_run as ([r w] & Hrun & n & Hr & Hi & Hl). cbn [snd] in *.
  apply (broadcast_after_disconnect rwfzaddCommand 1 7 adding_node adding_client w r added_args n ltac:(done) eq_refl eq_refl Hrun Hr Hi).
  rewrite Hl. by left.
Defined.
