(* ===== verification/TlaNet.v ===== *)
(** * Processes that broadcast: the skeleton of the TLA+ specifications

    The specifications under MET/TLA share one skeleton: processes that prepare
    an operation, broadcast it with its number and execute it, and that execute,
    one by one and in any order, what the others broadcast.  The transition
    relation, and what holds of every reachable state: which messages each
    process has executed, that its state is what they make of it, and how each
    message came about. *)

From S2P Require Import Prelude.

Module Net.

Lemma NoDup_middle_inj {A} (l1 l2 : list A) x r1 r2 :
  NoDup (l1 ++ x :: r1) -> l2 ++ x :: r2 = l1 ++ x :: r1 -> l1 = l2.
Proof.
  revert l2. induction l1 as [|y l1 IH]; intros [|z l2] Hnd Heq; cbn in *; try done.
  - injection Heq as -> <-. apply NoDup_cons in Hnd as [Hn _]. set_solver.
  - injection Heq as -> Heq. apply NoDup_cons in Hnd as [Hn _]. set_solver.
  - injection Heq as -> Heq. apply NoDup_cons in Hnd as [_ Hnd]. f_equal. by apply IH.
Qed.

Record message (P : Type) := mkMsg { num : nat; params : P }.
#[global] Arguments mkMsg {P}.
#[global] Arguments num {P}.
#[global] Arguments params {P}.

#[export] Instance message_eq_dec {P} `{EqDecision P} : EqDecision (message P).
Proof. solve_decision. Defined.
#[export] Instance message_countable {P} `{Countable P} : Countable (message P).
Proof. refine (inj_countable' (fun m => (num m, params m)) (fun x => mkMsg x.1 x.2) _). by intros []. Defined.

Section Net.
(** Payloads of messages, local states and requests; [own] is the effect where
    the operation was prepared and [effect] where it is received; a process
    takes up a message when it is [ready]. *)
Context {P L R : Type} `{Countable P}.
Context (N MaxOps : nat) (L0 : nat -> L) (prepare : L -> nat -> R -> option P).
Context (own effect : L -> P -> L) (ready : L -> P -> bool) (allowed : R -> Prop).

(** [ops], [opcount] and the variables of the processes; process [self] of
    [Procs] is the index [self - 1]. *)
Record state := mkState { ops : list (gset (message P)); opcount : nat; locals : list L }.

Definition Init : state := mkState (replicate N ∅) 0 (imap (fun i _ => L0 i) (replicate N tt)).

Definition Broadcast (self : nat) (m : message P) (q : list (gset (message P))) : list (gset (message P)) :=
  imap (fun j s => if decide (j = self) then s else s ∪ {[ m ]}) q.

(** The process loop without the steps that change nothing. *)
Inductive Next (st : state) : state -> Prop :=
  | next_request self s r :
      (opcount st < MaxOps)%nat -> locals st !! self = Some s -> allowed r ->
      Next st (match prepare s self r with
               | None => mkState (ops st) (S (opcount st)) (locals st)
               | Some p => mkState (Broadcast self (mkMsg (S (opcount st)) p) (ops st)) (S (opcount st))
                                   (<[self := own s p]> (locals st))
               end)
  | next_update self s q m :
      locals st !! self = Some s -> ops st !! self = Some q -> m ∈ q -> ready s (params m) = true ->
      Next st (mkState (<[self := q ∖ {[ m ]}]> (ops st)) (opcount st) (<[self := effect s (params m)]> (locals st))).

Definition reachable (st : state) : Prop := rtc Next Init st.

(** ** What a process executed *)

(** An operation of process [o.1] executed at process [i]. *)
Definition exec (i : nat) (s : L) (o : nat * P) : L := if decide (o.1 = i) then own s o.2 else effect s o.2.
Definition executed (lg : list (nat * message P)) (g : list nat) : list (nat * P) :=
  omap (fun m => (fun o => (o.1, params o.2)) <$> lg !! m) g.
Definition replay (i : nat) (lg : list (nat * message P)) (g : list nat) : L := foldl (exec i) (L0 i) (executed lg g).

(** [lg] is all that was broadcast, with the senders, and [got] the numbers of
    what each process executed, in its order. *)
Record tracks (st : state) (lg : list (nat * message P)) (got : list (list nat)) : Prop := {
  tk_ops : length (ops st) = N;
  tk_locals : length (locals st) = N;
  tk_got : length got = N;
  tk_len : (length lg <= opcount st <= MaxOps)%nat;
  tk_nums : forall m o, lg !! m = Some o -> (num o.2 <= opcount st)%nat;
  tk_inj : forall m m' o o', lg !! m = Some o -> lg !! m' = Some o' -> num o.2 = num o'.2 -> m = m';
  tk_bound : forall i g, got !! i = Some g -> NoDup g /\ Forall (fun m => m < length lg)%nat g;
  tk_local : forall i g s, got !! i = Some g -> locals st !! i = Some s -> s = replay i lg g;
  tk_pending : forall i g q, got !! i = Some g -> ops st !! i = Some q ->
    forall x, x ∈ q <-> exists m o, lg !! m = Some o /\ o.2 = x /\ m ∉ g;
  tk_born : forall m i x, lg !! m = Some (i, x) -> exists g1 g2 r,
    got !! i = Some (g1 ++ m :: g2) /\ Forall (fun k => k < m)%nat g1 /\ allowed r /\
    prepare (replay i lg g1) i r = Some (params x);
  tk_ready : forall i g1 m g2 o, got !! i = Some (g1 ++ m :: g2) -> lg !! m = Some o ->
    o.1 = i \/ ready (replay i lg g1) (params o.2) = true
}.

Lemma executed_app lg l g : Forall (fun m => m < length lg)%nat g -> executed (lg ++ l) g = executed lg g.
Proof.
  unfold executed. induction 1 as [|m g Hm Hg IH]; [done|]. cbn. rewrite lookup_app_l, IH by done. done.
Qed.

Lemma replay_app i lg l g : Forall (fun m => m < length lg)%nat g -> replay i (lg ++ l) g = replay i lg g.
Proof. intros Hg. unfold replay. by rewrite executed_app. Qed.

Lemma replay_snoc i lg g m o : lg !! m = Some o -> replay i lg (g ++ [m]) = exec i (replay i lg g) (o.1, params o.2).
Proof. intros Hm. unfold replay, executed. rewrite omap_app, foldl_app. cbn. by rewrite Hm. Qed.

(** The state of a process is that of the messages it executed. *)
Lemma got_at st lg got i s : tracks st lg got -> locals st !! i = Some s -> exists g, got !! i = Some g /\ s = replay i lg g.
Proof.
  intros Ht Hs. destruct (lookup_lt_is_Some_2 got i) as [g Hg].
  { rewrite (tk_got _ _ _ Ht), <- (tk_locals _ _ _ Ht). by eapply lookup_lt_Some. }
  exists g. split; [done|]. by apply (tk_local _ _ _ Ht).
Qed.

Lemma init_tracks : tracks Init [] (replicate N []).
Proof.
  split; cbn [Init ops locals opcount]; try done; rewrite ?length_imap, ?length_replicate; try done.
  - cbn. lia.
  - intros i g (-> & _)%lookup_replicate. split; [constructor|done].
  - intros i g s (-> & Hi)%lookup_replicate Hs. rewrite list_lookup_imap, lookup_replicate_2 in Hs by done. by injection Hs as <-.
  - intros i g q (-> & _)%lookup_replicate (-> & _)%lookup_replicate x. split; [set_solver|]. by intros (m & o & ? & _).
Qed.

(** ** Every reachable state is tracked *)

Lemma split_snoc {A} (g1 g2 g : list A) m k :
  g ++ [k] = g1 ++ m :: g2 -> (g2 = [] /\ g1 = g /\ m = k) \/ exists g2', g2 = g2' ++ [k] /\ g = g1 ++ m :: g2'.
Proof.
  intros Heq. destruct g2 as [|y g2' _] using rev_ind.
  - left. by apply app_inj_tail in Heq as [-> ->].
  - right. exists g2'. rewrite app_comm_cons, app_assoc in Heq. by apply app_inj_tail in Heq as [-> ->].
Qed.

Lemma lookup_log (lg : list (nat * message P)) l m o :
  (lg ++ [l]) !! m = Some o -> lg !! m = Some o \/ (m = length lg /\ o = l).
Proof.
  intros Hm. destruct (decide (m < length lg)%nat) as [Hlt|Hge]; [left; by rewrite lookup_app_l in Hm|right].
  pose proof (lookup_lt_Some _ _ _ Hm) as Hb. rewrite length_app in Hb. cbn in Hb. assert (m = length lg) as -> by lia.
  rewrite lookup_app_r, Nat.sub_diag in Hm by lia. by injection Hm.
Qed.

Lemma bound_app (lg l : list (nat * message P)) g : Forall (fun m => m < length lg)%nat g -> Forall (fun m => m < length (lg ++ l))%nat g.
Proof. intros Hg. eapply Forall_impl; [exact Hg|]. intros m Hm. cbn beta in *. rewrite length_app. lia. Qed.

Lemma refused_tracks st lg got :
  tracks st lg got -> (opcount st < MaxOps)%nat -> tracks (mkState (ops st) (S (opcount st)) (locals st)) lg got.
Proof.
  intros [? ? ? ? Hn ? ? ? ? ? ?] Hc. split; try done; cbn [opcount]; [lia|]. intros m o Hm. specialize (Hn m o Hm). lia.
Qed.

(** The sequences after one more message [k] at [self]. *)
Lemma got_cases (got : list (list nat)) self g k i g' :
  got !! self = Some g -> <[self := g ++ [k]]> got !! i = Some g' ->
  (i = self /\ g' = g ++ [k]) \/ (i <> self /\ got !! i = Some g').
Proof.
  intros Hg Hi. destruct (decide (i = self)) as [->|Hne].
  - left. rewrite list_lookup_insert_eq in Hi by (by eapply lookup_lt_Some). by injection Hi as <-.
  - right. by rewrite list_lookup_insert_ne in Hi.
Qed.

Lemma born_keep st lg got self g k m i (x : message P) :
  tracks st lg got -> got !! self = Some g -> lg !! m = Some (i, x) -> exists g1 g2 r,
    <[self := g ++ [k]]> got !! i = Some (g1 ++ m :: g2) /\ Forall (fun k => k < m)%nat g1 /\ allowed r /\
    prepare (replay i lg g1) i r = Some (params x) /\ Forall (fun k => k < length lg)%nat g1.
Proof.
  intros Ht Hg Hm. destruct (tk_born _ _ _ Ht m i x Hm) as (g1 & g2 & r & Hgi & Hlt & Ha & Hp).
  assert (Forall (fun k => k < length lg)%nat g1) as Hb.
  { eapply Forall_impl; [exact Hlt|]. intros y Hy. cbn beta in *. pose proof (lookup_lt_Some _ _ _ Hm). lia. }
  destruct (decide (i = self)) as [->|Hne].
  - exists g1, (g2 ++ [k]), r. rewrite list_lookup_insert_eq by (by eapply lookup_lt_Some).
    assert (g = g1 ++ m :: g2) as -> by congruence. by rewrite <- app_assoc.
  - exists g1, g2, r. by rewrite list_lookup_insert_ne by congruence.
Qed.

Section Request.
Context (st : state) (lg : list (nat * message P)) (got : list (list nat)) (self : nat) (s : L) (g : list nat) (r : R) (p : P).
Context (Ht : tracks st lg got) (Hs : locals st !! self = Some s) (Hg : got !! self = Some g).
Context (Hc : (opcount st < MaxOps)%nat) (Ha : allowed r) (Hp : prepare s self r = Some p).
Notation m := (mkMsg (S (opcount st)) p).
Notation lg' := (lg ++ [(self, m)]).
Notation got' := (<[self := g ++ [length lg]]> got).

#[local] Lemma sent_new : lg' !! length lg = Some (self, m).
Proof. by rewrite lookup_app_r, Nat.sub_diag by lia. Qed.

#[local] Lemma not_yet i g' : got !! i = Some g' -> length lg ∉ g'.
Proof using Ht Hs Hg Hc Ha Hp.
  intros Hi Hin. destruct (tk_bound _ _ _ Ht _ _ Hi) as [_ Hb]. rewrite Forall_forall in Hb. specialize (Hb _ Hin). cbn in Hb. lia.
Qed.

#[local] Lemma request_bound i g' : got' !! i = Some g' -> NoDup g' /\ Forall (fun k => k < length lg')%nat g'.
Proof using Ht Hs Hg Hc Ha Hp.
  intros Hi. destruct (got_cases _ _ _ _ _ _ Hg Hi) as [[-> ->]|[Hne Hgi]].
  - destruct (tk_bound _ _ _ Ht _ _ Hg) as [? ?]. split.
    + apply NoDup_app. split_and!; [done| |apply NoDup_singleton]. intros y Hy ->%list_elem_of_singleton. by eapply not_yet.
    + apply Forall_app. split; [by apply bound_app|]. constructor; [rewrite length_app; cbn; lia|done].
  - destruct (tk_bound _ _ _ Ht _ _ Hgi) as [? ?]. split; [done|by apply bound_app].
Qed.

#[local] Lemma request_local i g' s' : got' !! i = Some g' -> <[self := own s p]> (locals st) !! i = Some s' -> s' = replay i lg' g'.
Proof using Ht Hs Hg Hc Ha Hp.
  intros Hi Hs'. destruct (got_cases _ _ _ _ _ _ Hg Hi) as [[-> ->]|[Hne Hgi]].
  - rewrite list_lookup_insert_eq in Hs' by (by eapply lookup_lt_Some). injection Hs' as <-.
    rewrite (replay_snoc _ _ _ _ _ sent_new), replay_app by apply (tk_bound _ _ _ Ht _ _ Hg).
    unfold exec. cbn [fst snd]. rewrite decide_True by done. by rewrite (tk_local _ _ _ Ht _ _ _ Hg Hs).
  - rewrite list_lookup_insert_ne in Hs' by congruence. rewrite replay_app by apply (tk_bound _ _ _ Ht _ _ Hgi).
    by apply (tk_local _ _ _ Ht).
Qed.

#[local] Lemma request_pending i g' q : got' !! i = Some g' -> Broadcast self m (ops st) !! i = Some q ->
  forall x, x ∈ q <-> exists k o, lg' !! k = Some o /\ o.2 = x /\ k ∉ g'.
Proof using Ht Hs Hg Hc Ha Hp.
  intros Hi Hq x. unfold Broadcast in Hq. rewrite list_lookup_imap in Hq.
  destruct (ops st !! i) as [q0|] eqn:Hq0; [|done]. injection Hq as <-.
  destruct (got_cases _ _ _ _ _ _ Hg Hi) as [[-> ->]|[Hne Hgi]].
  - rewrite decide_True, (tk_pending _ _ _ Ht _ _ _ Hg Hq0) by done. split.
    + intros (k & o & Hk & Ho & Hni). exists k, o. rewrite lookup_app_l by (by eapply lookup_lt_Some). split_and!; try done.
      intros [?| ->%list_elem_of_singleton]%elem_of_app; [done|]. apply lookup_lt_Some in Hk. lia.
    + intros (k & o & [Hk|[-> ->]]%lookup_log & Ho & Hni); [|set_solver]. exists k, o. set_solver.
  - rewrite decide_False, elem_of_union, elem_of_singleton, (tk_pending _ _ _ Ht _ _ _ Hgi Hq0) by congruence. split.
    + intros [(k & o & Hk & Ho & Hni)| ->].
      { exists k, o. by rewrite lookup_app_l by (by eapply lookup_lt_Some). }
      exists (length lg), (self, m). split_and!; [apply sent_new|done|]. by eapply not_yet.
    + intros (k & o & [Hk|[-> ->]]%lookup_log & Ho & Hni); [left; by exists k, o|by right].
Qed.

#[local] Lemma request_ready i g1 k g2 o : got' !! i = Some (g1 ++ k :: g2) -> lg' !! k = Some o ->
  o.1 = i \/ ready (replay i lg' g1) (params o.2) = true.
Proof using Ht Hs Hg Hc Ha Hp.
  assert (Hold : forall i g2, got !! i = Some (g1 ++ k :: g2) -> lg' !! k = Some o -> o.1 = i \/ ready (replay i lg' g1) (params o.2) = true).
  { intros j g2' Hj Hk. destruct (tk_bound _ _ _ Ht _ _ Hj) as [_ Hb]. apply Forall_app in Hb as [Hb1 Hb2].
    apply Forall_cons in Hb2 as [Hk' _]. rewrite lookup_app_l in Hk by done. rewrite replay_app by done. by eapply (tk_ready _ _ _ Ht). }
  intros Hi Hk. destruct (got_cases _ _ _ _ _ _ Hg Hi) as [[-> Heq]|[Hne Hgi]]; [|by eapply Hold].
  symmetry in Heq. apply split_snoc in Heq as [(-> & -> & ->)|(g2' & -> & Hgeq)].
  - left. rewrite sent_new in Hk. by injection Hk as <-.
  - apply (Hold self g2'); [congruence|done].
Qed.

#[local] Lemma request_born k i x : lg' !! k = Some (i, x) -> exists g1 g2 r',
  got' !! i = Some (g1 ++ k :: g2) /\ Forall (fun j => j < k)%nat g1 /\ allowed r' /\ prepare (replay i lg' g1) i r' = Some (params x).
Proof using Ht Hs Hg Hc Ha Hp.
  intros [Hk|[-> Hx]]%lookup_log.
  - destruct (born_keep st lg got self g (length lg) k i x Ht Hg Hk) as (g1 & g2 & r' & H1 & H2 & H3 & H4 & H5).
    exists g1, g2, r'. by rewrite replay_app.
  - injection Hx as -> ->. destruct (tk_bound _ _ _ Ht _ _ Hg) as [_ Hb]. exists g, [], r.
    rewrite list_lookup_insert_eq by (by eapply lookup_lt_Some).
    rewrite replay_app, <- (tk_local _ _ _ Ht _ _ _ Hg Hs) by done. by split_and!.
Qed.

Lemma request_tracks :
  tracks (mkState (Broadcast self m (ops st)) (S (opcount st)) (<[self := own s p]> (locals st))) lg' got'.
Proof using Ht Hs Hg Hc Ha Hp.
  split; cbn [ops locals opcount]; [..|apply request_bound|apply request_local|apply request_pending|apply request_born|apply request_ready].
  - unfold Broadcast. rewrite length_imap. apply Ht.
  - rewrite length_insert. apply Ht.
  - rewrite length_insert. apply Ht.
  - pose proof (tk_len _ _ _ Ht). rewrite length_app. cbn [length]. lia.
  - intros k o [Hk|[-> ->]]%lookup_log; [|done]. pose proof (tk_nums _ _ _ Ht _ _ Hk). lia.
  - intros k k' o o' [Hk|[-> ->]]%lookup_log [Hk'|[-> ->]]%lookup_log Hn; try done.
    + by eapply (tk_inj _ _ _ Ht).
    + pose proof (tk_nums _ _ _ Ht _ _ Hk). cbn in Hn. lia.
    + pose proof (tk_nums _ _ _ Ht _ _ Hk'). cbn in Hn. lia.
Qed.
End Request.

Lemma update_tracks st lg got self s g q x :
  tracks st lg got -> locals st !! self = Some s -> got !! self = Some g -> ops st !! self = Some q -> x ∈ q ->
  ready s (params x) = true ->
  exists k, tracks (mkState (<[self := q ∖ {[ x ]}]> (ops st)) (opcount st) (<[self := effect s (params x)]> (locals st)))
    lg (<[self := g ++ [k]]> got).
Proof.
  intros Ht Hs Hg Hq Hx Hrd. pose proof (tk_local _ _ _ Ht _ _ _ Hg Hs) as Hrep. destruct (tk_bound _ _ _ Ht _ _ Hg) as [Hnd Hb].
  destruct (proj1 (tk_pending _ _ _ Ht _ _ _ Hg Hq x) Hx) as (k & o & Hk & Ho & Hni). exists k.
  assert (Hne0 : o.1 <> self).
  { intros Hself. destruct o as [j y]. cbn in Hself. subst j. destruct (tk_born _ _ _ Ht _ _ _ Hk) as (g1 & g2 & r & Hgs & _).
    apply Hni. assert (g = g1 ++ k :: g2) as -> by congruence. set_solver. }
  split; cbn [ops locals opcount]; rewrite ?length_insert; try apply Ht.
  - intros i g' Hi. destruct (got_cases _ _ _ _ _ _ Hg Hi) as [[-> ->]|[Hne Hgi]]; [|by apply (tk_bound _ _ _ Ht i)]. split.
    + apply NoDup_app. split_and!; [done| |apply NoDup_singleton]. by intros y Hy ->%list_elem_of_singleton.
    + apply Forall_app. split; [done|]. constructor; [by eapply lookup_lt_Some|done].
  - intros i g' s' Hi Hs'. destruct (got_cases _ _ _ _ _ _ Hg Hi) as [[-> ->]|[Hne Hgi]].
    + rewrite list_lookup_insert_eq in Hs' by (by eapply lookup_lt_Some). injection Hs' as <-.
      rewrite (replay_snoc _ _ _ _ _ Hk). unfold exec. cbn [fst snd]. rewrite decide_False by done. by rewrite <- Hrep, Ho.
    + rewrite list_lookup_insert_ne in Hs' by congruence. by apply (tk_local _ _ _ Ht i).
  - intros i g' q' Hi Hq' y. destruct (got_cases _ _ _ _ _ _ Hg Hi) as [[-> ->]|[Hne Hgi]].
    + rewrite list_lookup_insert_eq in Hq' by (by eapply lookup_lt_Some). injection Hq' as <-.
      rewrite elem_of_difference, elem_of_singleton, (tk_pending _ _ _ Ht _ _ _ Hg Hq). split.
      * intros [(j & o' & Hj & Ho' & Hnj) Hyx]. exists j, o'. split_and!; try done.
        intros [?| ->%list_elem_of_singleton]%elem_of_app; [done|]. congruence.
      * intros (j & o' & Hj & Ho' & Hnj). split; [exists j, o'; set_solver|]. intros ->. apply Hnj, elem_of_app. right.
        apply list_elem_of_singleton. eapply (tk_inj _ _ _ Ht); [exact Hj|exact Hk|congruence].
    + rewrite list_lookup_insert_ne in Hq' by congruence. by eapply (tk_pending _ _ _ Ht i).
  - intros m i y Hm. destruct (born_keep st lg got self g k m i y Ht Hg Hm) as (g1 & g2 & r' & ? & ? & ? & ? & _). by exists g1, g2, r'.
  - intros i g1 m g2 o' Hi Hm. destruct (got_cases _ _ _ _ _ _ Hg Hi) as [[-> Heq]|[Hne Hgi]]; [|by eapply (tk_ready _ _ _ Ht)].
    symmetry in Heq. apply split_snoc in Heq as [(-> & -> & ->)|(g2' & -> & ->)]; [|by eapply (tk_ready _ _ _ Ht)].
    right. assert (o' = o) as -> by congruence. by rewrite <- Hrep, Ho.
Qed.

Lemma reachable_tracks st : reachable st -> exists lg got, tracks st lg got.
Proof.
  revert st. apply rtc_ind_r; [exists [], (replicate N []); apply init_tracks|]. intros st1 st2 _ Hn (lg & got & Ht).
  destruct Hn as [self s r Hc Hs Ha|self s q m Hs Hq Hm Hrd]; destruct (got_at _ _ _ _ _ Ht Hs) as (g & Hg & _).
  - destruct (prepare s self r) as [p|] eqn:Hp; [|exists lg, got; by apply refused_tracks].
    eexists _, _. by eapply request_tracks.
  - destruct (update_tracks st1 lg got self s g q m) as [k Hk]; try done. by eexists _, _.
Qed.

(** ** Consequences *)

(** A message is pending at a process that has not executed it. *)
Lemma pending_iff st lg got i g q m o :
  tracks st lg got -> got !! i = Some g -> ops st !! i = Some q -> lg !! m = Some o -> o.2 ∈ q <-> m ∉ g.
Proof.
  intros Ht Hg Hq Hm. rewrite (tk_pending _ _ _ Ht _ _ _ Hg Hq). split; [|by exists m, o].
  intros (k & o' & Hk & Ho & Hni). by assert (m = k) as -> by (eapply (tk_inj _ _ _ Ht); [exact Hm|exact Hk|congruence]).
Qed.

(** Processes with the same messages to come executed the same messages. *)
Lemma same_pending st lg got p1 p2 g1 g2 q :
  tracks st lg got -> got !! p1 = Some g1 -> got !! p2 = Some g2 -> ops st !! p1 = Some q -> ops st !! p2 = Some q -> g1 ≡ₚ g2.
Proof.
  intros Ht Hg1 Hg2 Hq1 Hq2. destruct (tk_bound _ _ _ Ht _ _ Hg1) as [Hnd1 Hb1], (tk_bound _ _ _ Ht _ _ Hg2) as [Hnd2 Hb2].
  apply NoDup_Permutation; [done..|]. rewrite Forall_forall in Hb1, Hb2.
  assert (forall m, (m < length lg)%nat -> m ∈ g1 <-> m ∈ g2) as Hiff; [|intros m; split; intros Hm; apply (Hiff m); auto].
  intros m [o Hm]%lookup_lt_is_Some_2. pose proof (pending_iff _ _ _ _ _ _ _ _ Ht Hg1 Hq1 Hm). pose proof (pending_iff _ _ _ _ _ _ _ _ Ht Hg2 Hq2 Hm).
  destruct (decide (m ∈ g1)), (decide (m ∈ g2)); tauto.
Qed.

Lemma executed_perm lg g1 g2 : g1 ≡ₚ g2 -> executed lg g1 ≡ₚ executed lg g2.
Proof. intros Hp. unfold executed. by rewrite Hp. Qed.

Lemma elem_of_executed lg g i p :
  (i, p) ∈ executed lg g <-> exists m x, m ∈ g /\ lg !! m = Some (i, x) /\ params x = p.
Proof.
  unfold executed. rewrite list_elem_of_omap. split.
  - intros (m & Hm & Hx). destruct (lg !! m) as [[j x]|] eqn:Hl; [|done]. injection Hx as <- <-. by exists m, x.
  - intros (m & x & Hm & Hl & <-). exists m. by rewrite Hl.
Qed.

(** The sender of a message executed its own earlier ones before. *)
Lemma own_before st lg got m m' i x x' g1 g2 :
  tracks st lg got -> lg !! m = Some (i, x) -> lg !! m' = Some (i, x') -> (m < m')%nat ->
  got !! i = Some (g1 ++ m' :: g2) -> m ∈ g1.
Proof.
  intros Ht Hm Hm' Hlt Hg. destruct (tk_born _ _ _ Ht _ _ _ Hm) as (h1 & h2 & _ & Hh & Hh1 & _).
  assert (g1 ++ m' :: g2 = h1 ++ m :: h2) as Heq by congruence.
  destruct (tk_bound _ _ _ Ht _ _ Hg) as [Hnd _]. assert (m ∈ g1 ++ m' :: g2) as Hin by (rewrite Heq; set_solver).
  apply elem_of_app in Hin as [?|[->|Hin]%elem_of_cons]; [done|lia|]. exfalso.
  assert (m' ∈ h1) as Hin'; [|rewrite Forall_forall in Hh1; specialize (Hh1 _ Hin'); cbn in Hh1; lia].
  apply list_elem_of_split in Hin as (k1 & k2 & ->). rewrite app_comm_cons, app_assoc in Heq.
  assert (h1 = g1 ++ m' :: k1) as ->; [|set_solver].
  apply (NoDup_middle_inj h1 (g1 ++ m' :: k1) m h2 k2); [by rewrite <- Heq, <- app_assoc|done].
Qed.
End Net.

(** The state of a process where both effects are the same. *)
Lemma replay_effects {P L : Type} (L0 : nat -> L) (effect : L -> P -> L) i lg g :
  replay L0 effect effect i lg g = foldl effect (L0 i) ((executed lg g).*2).
Proof.
  unfold replay. generalize (executed lg g), (L0 i). intros l. induction l as [|o l IH]; intros s; [done|].
  cbn [foldl fmap list_fmap]. rewrite IH. unfold exec. by case_decide.
Qed.

(** The payloads of a log. *)
Definition payloads {P : Type} (lg : list (nat * message P)) : list P := (fun o => params o.2) <$> lg.

Lemma elem_of_payloads {P : Type} (lg : list (nat * message P)) p :
  p ∈ payloads lg <-> exists m i x, lg !! m = Some (i, x) /\ params x = p.
Proof.
  unfold payloads. rewrite list_elem_of_fmap. split.
  - intros ([i x] & -> & (m & Hm)%list_elem_of_lookup). by exists m, i, x.
  - intros (m & i & x & Hm & <-). exists (i, x). split; [done|]. by eapply list_elem_of_lookup_2.
Qed.

Lemma executed_payloads {P : Type} (lg : list (nat * message P)) g p :
  p ∈ (executed lg g).*2 <-> exists m i x, m ∈ g /\ lg !! m = Some (i, x) /\ params x = p.
Proof.
  rewrite list_elem_of_fmap. split.
  - intros ([i q] & -> & (m & x & Hm & Hl & Hx)%elem_of_executed). by exists m, i, x.
  - intros (m & i & x & Hm & Hl & <-). exists (i, params x). split; [done|]. apply elem_of_executed. by exists m, x.
Qed.
End Net.
