(* ===== verification/TlaSim.v ===== *)
(** * Runs of servers as runs of a specification

    A system of servers and a specification in the shape of [TlaNet] side by
    side, for one element: the messages on the element that were broadcast and
    not executed by a server are the messages its process still has to take up,
    and the process is in the state the executed ones make of it. *)

From S2P Require Import Prelude Double System TlaNet.

Section Simulation.
Context {op P L R : Type} `{Countable P}.
Context {parse : list string -> option (string * op)}.
(** The specification, and the payload of an operation. *)
Context (N MaxOps : nat) (prepare : L -> nat -> R -> option P) (own effect : L -> P -> L).
Context (ready : L -> P -> bool) (allowed : R -> Prop) (abs : op -> P).
(** The states of a process that executed a list of operations; [foreign]
    operations are those of other processes. *)
Context (rel : nat -> list op -> L -> Prop) (foreign : nat -> op -> Prop).
Context (rel_own : forall i l s r o, rel i l s -> prepare s i r = Some (abs o) -> rel i (l ++ [o]) (own s (abs o))).
Context (rel_effect : forall i l s o, rel i l s -> foreign i o -> rel i (l ++ [o]) (effect s (abs o))).
(** The element. *)
Context (x : string).
Implicit Types (lg : list (list string)) (exed : list (list nat)) (f : nat -> nat).
Notation parsed := (parsed parse).
Notation ops_got := (ops_got parse).
Notation spec := (Net.state (P := P) (L := L)).
Notation Next := (Net.Next MaxOps prepare own effect ready allowed).

(** [exed] lists the messages each server executed, in its order; [f] is the
    number the specification gave to a message of the log. *)
Record simulates (T : nat) (f : nat -> nat) (lg : list (list string)) (exed : list (list nat)) (t : spec) : Prop := {
  sm_ops : length (Net.ops t) = N;
  sm_locals : length (Net.locals t) = N;
  sm_count : (Net.opcount t <= T)%nat;
  sm_nums : forall m o, parsed lg m = Some (x, o) -> (f m <= Net.opcount t)%nat;
  sm_inj : forall m m' o o', parsed lg m = Some (x, o) -> parsed lg m' = Some (x, o') -> f m = f m' -> m = m';
  sm_local : forall i g s, exed !! i = Some g -> Net.locals t !! i = Some s ->
    rel i (ops_got lg g x) s;
  sm_pending : forall i g q, exed !! i = Some g -> Net.ops t !! i = Some q ->
    forall y, y ∈ q <-> exists m o, parsed lg m = Some (x, o) /\ m ∉ g /\ y = Net.mkMsg (f m) (abs o)
}.

Lemma sim_mono T T' f lg exed t : (T <= T')%nat -> simulates T f lg exed t -> simulates T' f lg exed t.
Proof using. intros HT [? ? ? ? ? ? ?]. split; try done. lia. Qed.

(** Messages on other elements change nothing. *)
Lemma sim_view T f lg lg' exed exed' t :
  simulates T f lg exed t -> (forall m o, parsed lg' m = Some (x, o) <-> parsed lg m = Some (x, o)) ->
  (forall j g', exed' !! j = Some g' -> exists g, exed !! j = Some g /\ ops_got lg' g' x = ops_got lg g x /\
     forall m o, parsed lg m = Some (x, o) -> m ∈ g' <-> m ∈ g) ->
  simulates T f lg' exed' t.
Proof using.
  intros [? ? ? Hn Hinj Hl Hp] Hpx Hgot. split; try done.
  - intros m o' Hm. apply Hpx in Hm. by eapply Hn.
  - intros m m' o' o'' Hm Hm'. apply Hpx in Hm, Hm'. by eapply Hinj.
  - intros j gj s Hj Hs. destruct (Hgot j gj Hj) as (gj0 & Hj0 & -> & _). by apply Hl.
  - intros j gj q Hj Hq z. destruct (Hgot j gj Hj) as (gj0 & Hj0 & _ & Hm). rewrite (Hp j gj0 q Hj0 Hq). split.
    + intros (m & o' & H1 & H2 & H3). exists m, o'. split_and!; [by apply Hpx|by rewrite (Hm m o')|done].
    + intros (m & o' & H1 & H2 & H3). apply Hpx in H1. exists m, o'. split_and!; [done|by rewrite <- (Hm m o')|done].
Qed.

Lemma parsed_other lg l y o m o' :
  parse l = Some (y, o) -> y <> x -> parsed (lg ++ [l]) m = Some (x, o') <-> parsed lg m = Some (x, o').
Proof using.
  intros Hy Hne. split.
  - intros [?|(_ & -> & _)]%(parsed_snoc _ _ _ _ _ _ _ Hy); done.
  - intros Hm. rewrite parsed_app; [done|]. by eapply parsed_lt.
Qed.

(** A message on another element that was executed. *)
Lemma sim_other_exec T f lg exed t j g m y o :
  simulates T f lg exed t -> exed !! j = Some g -> parsed lg m = Some (y, o) -> y <> x ->
  simulates T f lg (<[j := g ++ [m]]> exed) t.
Proof using.
  intros Hsim Hg Hm Hne. eapply sim_view; [exact Hsim|done|]. intros i gi Hi.
  destruct (Net.got_cases _ _ _ _ _ _ Hg Hi) as [[-> ->]|[_ Hgi]]; [|by exists gi].
  exists g. split_and!; [done| |].
  - by rewrite (ops_got_snoc _ _ _ _ y o), decide_False, app_nil_r.
  - intros k o' Hk. rewrite elem_of_app, list_elem_of_singleton. split; [|by left]. intros [?| ->]; [done|congruence].
Qed.

(** A message on another element that was broadcast. *)
Lemma sim_other_sent T f lg exed t l y o :
  simulates T f lg exed t -> parse l = Some (y, o) -> y <> x ->
  (forall j gj, exed !! j = Some gj -> Forall (fun m => m < length lg)%nat gj) ->
  simulates T f (lg ++ [l]) exed t.
Proof using.
  intros Hsim Hy Hne Hb. eapply sim_view; [exact Hsim|intros; by eapply parsed_other|].
  intros j gj Hj. exists gj. split_and!; [done| |done]. apply ops_got_app. by apply (Hb j).
Qed.

(** A request the specification refuses as well. *)
Lemma sim_refused T f lg exed t i s r :
  simulates T f lg exed t -> (T < MaxOps)%nat -> Net.locals t !! i = Some s -> allowed r -> prepare s i r = None ->
  exists t', Next t t' /\ simulates (S T) f lg exed t'.
Proof using.
  intros [? ? ? Hn ? ? ?] HT Hs Ha Hp.
  pose proof (Net.next_request MaxOps prepare own effect ready allowed t i s r ltac:(lia) Hs Ha) as Hx.
  rewrite Hp in Hx. eexists. split; [exact Hx|]. split; try done; cbn [Net.opcount]; [lia|].
  intros m o Hm. specialize (Hn m o Hm). lia.
Qed.

(** ** An operation on the element that was accepted *)

Section Accepted.
Context (T : nat) (f : nat -> nat) (lg : list (list string)) (exed : list (list nat)) (t : spec) (i : nat) (g : list nat) (l : list string) (o : op).
Context (Hsim : simulates T f lg exed t) (Hg : exed !! i = Some g) (Hpar : parse l = Some (x, o)).
Context (Hb : forall j gj, exed !! j = Some gj -> Forall (fun m => m < length lg)%nat gj).

Definition renumber (m : nat) : nat := if decide (m = length lg) then S (Net.opcount t) else f m.

Lemma old_number m o' : parsed lg m = Some (x, o') -> m <> length lg /\ renumber m = f m /\ parsed (lg ++ [l]) m = Some (x, o').
Proof using.
  intros Hm. pose proof (parsed_lt _ _ _ Hm) as Hlt. split; [lia|]. unfold renumber. rewrite decide_False by lia.
  split; [done|]. by rewrite parsed_app.
Qed.

Lemma new_number : renumber (length lg) = S (Net.opcount t) /\ parsed (lg ++ [l]) (length lg) = Some (x, o).
Proof using Hpar. unfold renumber. rewrite decide_True by done. by rewrite parsed_new. Qed.

Lemma new_unseen j gj : exed !! j = Some gj -> length lg ∉ gj.
Proof using Hb. intros Hj Hin. specialize (Hb j gj Hj). rewrite Forall_forall in Hb. specialize (Hb _ Hin). cbn in Hb. lia. Qed.

Lemma accepted_pending j gj q y :
  <[i := g ++ [length lg]]> exed !! j = Some gj ->
  Net.Broadcast i (Net.mkMsg (S (Net.opcount t)) (abs o)) (Net.ops t) !! j = Some q ->
  y ∈ q <-> exists m o', parsed (lg ++ [l]) m = Some (x, o') /\ m ∉ gj /\ y = Net.mkMsg (renumber m) (abs o').
Proof using Hsim Hg Hpar Hb.
  clear rel_own rel_effect foreign. intros Hj Hq. pose proof (sm_pending _ _ _ _ _ Hsim) as Hpd. destruct new_number as [Hn1 Hn2].
  unfold Net.Broadcast in Hq. rewrite list_lookup_imap in Hq. destruct (Net.ops t !! j) as [q0|] eqn:Hq0; [|done]. injection Hq as <-.
  destruct (Net.got_cases _ _ _ _ _ _ Hg Hj) as [[-> ->]|[Hij Hj']].
  - rewrite decide_True, (Hpd i g q0 Hg Hq0) by done. split.
    + intros (m & o' & H1 & H2 & ->). destruct (old_number m o' H1) as (Hne & Hf & Hp). exists m, o'. rewrite Hf.
      split_and!; [done| |done]. by intros [?|?%list_elem_of_singleton]%elem_of_app.
    + intros (m & o' & [Hm|(-> & _ & _)]%(parsed_snoc _ _ _ _ _ _ _ Hpar) & H2 & ->); [|set_solver].
      destruct (old_number m o' Hm) as (_ & -> & _). exists m, o'. split_and!; [done|set_solver|done].
  - rewrite decide_False by done. rewrite elem_of_union, elem_of_singleton, (Hpd j gj q0 Hj' Hq0). split.
    + intros [(m & o' & H1 & H2 & ->)| ->].
      * destruct (old_number m o' H1) as (_ & Hf & Hp). exists m, o'. by rewrite Hf.
      * exists (length lg), o. rewrite Hn1. split_and!; [done|by eapply new_unseen|done].
    + intros (m & o' & [Hm|(-> & _ & ->)]%(parsed_snoc _ _ _ _ _ _ _ Hpar) & H2 & ->); [left|right; by rewrite Hn1].
      destruct (old_number m o' Hm) as (_ & -> & _). by exists m, o'.
Qed.

Lemma sim_accepted s r :
  (T < MaxOps)%nat -> Net.locals t !! i = Some s -> allowed r -> prepare s i r = Some (abs o) ->
  exists t' f', Next t t' /\ simulates (S T) f' (lg ++ [l]) (<[i := g ++ [length lg]]> exed) t'.
Proof using Hsim Hg Hpar Hb rel_own.
  intros HT Hs Ha Hp. pose proof Hsim as [? ? ? Hn Hinj Hl _].
  pose proof (Net.next_request MaxOps prepare own effect ready allowed t i s r ltac:(lia) Hs Ha) as Hx.
  rewrite Hp in Hx. destruct new_number as [Hn1 Hn2]. eexists. exists renumber. split; [exact Hx|].
  split; cbn [Net.ops Net.locals Net.opcount]; [unfold Net.Broadcast; by rewrite length_imap|by rewrite length_insert|lia|..].
  - intros m o' [Hm|(-> & _ & _)]%(parsed_snoc _ _ _ _ _ _ _ Hpar); [|by rewrite Hn1].
    destruct (old_number m o' Hm) as (_ & -> & _). specialize (Hn m o' Hm). lia.
  - intros m m' o1 o2 [Hm|(-> & _ & _)]%(parsed_snoc _ _ _ _ _ _ _ Hpar) [Hm'|(-> & _ & _)]%(parsed_snoc _ _ _ _ _ _ _ Hpar); try done;
      rewrite ?Hn1; repeat match goal with Hk : parsed lg ?k = Some (x, ?ok) |- _ =>
        pose proof (Hn k ok Hk); destruct (old_number k ok Hk) as (_ & -> & _); revert Hk end; intros; try lia.
    by eapply Hinj.
  - intros j gj sj Hj Hsj. destruct (Net.got_cases _ _ _ _ _ _ Hg Hj) as [[-> ->]|[Hij Hj']].
    + rewrite list_lookup_insert_eq in Hsj by (by eapply lookup_lt_Some). injection Hsj as <-.
      rewrite (ops_got_snoc _ _ _ _ x o), decide_True by done. rewrite ops_got_app by (by apply (Hb i)).
      eapply rel_own; [by apply Hl|exact Hp].
    + rewrite list_lookup_insert_ne in Hsj by congruence. rewrite ops_got_app by (by apply (Hb j)). by apply Hl.
  - intros j gj q Hj Hq y. by eapply accepted_pending.
Qed.
End Accepted.

(** An operation on the element of another server that is executed. *)
Lemma sim_exec T f lg exed t j g s m o :
  simulates T f lg exed t -> exed !! j = Some g -> Net.locals t !! j = Some s -> parsed lg m = Some (x, o) -> m ∉ g ->
  ready s (abs o) = true -> foreign j o -> exists t', Next t t' /\ simulates T f lg (<[j := g ++ [m]]> exed) t'.
Proof using rel_effect.
  clear rel_own. intros [Hlo Hll ? Hn Hinj Hl Hpd] Hg Hs Hm Hmg Hrd Hfo.
  destruct (lookup_lt_is_Some_2 (Net.ops t) j) as [q Hq]; [rewrite Hlo, <- Hll; by eapply lookup_lt_Some|].
  set (y := Net.mkMsg (f m) (abs o)). assert (y ∈ q) as Hy by (apply (Hpd j g q Hg Hq); by exists m, o).
  exists (Net.mkState (<[j := q ∖ {[ y ]}]> (Net.ops t)) (Net.opcount t) (<[j := effect s (abs o)]> (Net.locals t))).
  split; [by apply (Net.next_update MaxOps prepare own effect ready allowed t j s q y)|].
  split; cbn [Net.ops Net.locals Net.opcount]; rewrite ?length_insert; try done.
  - intros i gi si Hi Hsi. destruct (Net.got_cases _ _ _ _ _ _ Hg Hi) as [[-> ->]|[Hne Hgi]].
    + rewrite list_lookup_insert_eq in Hsi by (by eapply lookup_lt_Some). injection Hsi as <-.
      rewrite (ops_got_snoc _ _ _ _ x o), decide_True by done. apply rel_effect; [by apply Hl|done].
    + rewrite list_lookup_insert_ne in Hsi by congruence. by apply Hl.
  - intros i gi qi Hi Hqi z. destruct (Net.got_cases _ _ _ _ _ _ Hg Hi) as [[-> ->]|[Hne Hgi]].
    + rewrite list_lookup_insert_eq in Hqi by (by eapply lookup_lt_Some). injection Hqi as <-.
      rewrite elem_of_difference, elem_of_singleton, (Hpd j g q Hg Hq). split.
      * intros [(k & o' & H1 & H2 & ->) Hz]. exists k, o'. split_and!; try done.
        intros [?| ->%list_elem_of_singleton]%elem_of_app; [done|]. apply Hz. unfold y. by assert (o' = o) as -> by congruence.
      * intros (k & o' & H1 & H2 & ->). split; [exists k, o'; split_and!; [done|set_solver|done]|]. unfold y. intros [= Hf _].
        apply H2, elem_of_app. right. apply list_elem_of_singleton. by eapply Hinj.
    + rewrite list_lookup_insert_ne in Hqi by congruence. by apply (Hpd i).
Qed.

Lemma sim_init L0 : (forall i, rel i [] (L0 i)) -> simulates 0 id [] (replicate N []) (Net.Init N L0).
Proof using.
  clear rel_own rel_effect foreign. intros H0. split; cbn [Net.Init Net.ops Net.locals Net.opcount]; rewrite ?length_imap, ?length_replicate; try done.
  - intros i g s (-> & _)%lookup_replicate Hs. rewrite list_lookup_imap in Hs. destruct (replicate N () !! i); [|done]. injection Hs as <-. apply H0.
  - intros i g q (-> & _)%lookup_replicate (-> & _)%lookup_replicate y. split; [set_solver|]. by intros (m & o & ? & _).
Qed.

(** A process has nothing to take up when its server executed everything. *)
Lemma sim_drained T f lg exed t i g q :
  simulates T f lg exed t -> exed !! i = Some g -> Net.ops t !! i = Some q ->
  q = ∅ <-> forall k o, parsed lg k = Some (x, o) -> k ∈ g.
Proof using.
  clear rel_own rel_effect foreign. intros Hsim Hg Hq. pose proof (sm_pending _ _ _ _ _ Hsim i g q Hg Hq) as Hp. split.
  - intros -> k o Hk. destruct (decide (k ∈ g)) as [|Hn]; [done|]. exfalso.
    assert (Net.mkMsg (f k) (abs o) ∈ (∅ : gset (Net.message P))) as Hin by (apply Hp; by exists k, o). by apply elem_of_empty in Hin.
  - intros Hall. apply set_eq. intros y. rewrite Hp. split; [|set_solver]. intros (k & o & Hk & Hn & _). by apply Hall in Hk.
Qed.
End Simulation.

(** Where both effects are the same, a process is in the state they make. *)
Section Runs.
Context {op P L : Type} (L0 : L) (effect : L -> P -> L) (abs : op -> P).

Definition runs_to (_ : nat) (l : list op) (s : L) : Prop := s = foldl effect L0 (abs <$> l).

Lemma runs_to_step i l s o : runs_to i l s -> runs_to i (l ++ [o]) (effect s (abs o)).
Proof. intros ->. unfold runs_to. by rewrite fmap_app, foldl_app. Qed.
End Runs.
