(* ===== verification/TlaRwf.v ===== *)
(** * The TLA+ specification of the RWF queue (MET/TLA/rwf_crpq/rwf_rpq.tla)

    The specification the repository model-checks for two processes and two
    operations, for one element, as its configuration has it; and its invariant
    [SEC] for any number of processes, operations and values. *)

From S2P Require Import Prelude VectorClock Causal RWFramework TlaNet.

Module RwfRpq.

(** ** The algorithm

    For the one element of [Elmts], [e_set] holds at most one record and [t_set]
    at most one vector: every [set_update] takes out the record it replaces. *)
Record elem := mkEl { p_ini : Z; v_inn : Z; v_acq : Z }.
Inductive payload := PAdd (val pi : Z) (rh : list Z) | PRem (rh : list Z) | PInc (val : Z) (rh : list Z).
Record local := mkLocal { e_set : option elem; t_set : option (list Z) }.

#[export] Instance payload_eq_dec : EqDecision payload.
Proof. solve_decision. Defined.
#[export] Instance payload_countable : Countable payload.
Proof.
  refine (inj_countable'
    (fun p => match p with PAdd v i r => inl (v, i, r) | PRem r => inr (inl r) | PInc v r => inr (inr (v, r)) end)
    (fun x => match x with inl (v, i, r) => PAdd v i r | inr (inl r) => PRem r | inr (inr (v, r)) => PInc v r end) _).
  by intros [].
Defined.

Section Spec.
Context (N : nat).

Definition Max_RH (a b : list Z) : list Z := zip_with (fun x y => if x <=? y then y else x) a b.
Definition _Lookup (e : option elem) : bool := match e with Some _ => true | None => false end.
Definition _ELEMENT (e : option elem) : elem := match e with Some r => r | None => mkEl (-1) 0 0 end.
Definition _RH (t : option (list Z)) : list Z := match t with Some v => v | None => replicate N 0 end.

(** [\E j \in Procs: local_rh[j] < rh[j]] *)
Definition newer (local_rh rh : list Z) : bool := existsb (fun p => p.1 <? p.2) (zip local_rh rh).

(** The prepare phases; [None] for the record with the key null. *)
Inductive request := RAdd (v : Z) | RRem | RInc (i : Z).

Definition prepare (s : local) (self : nat) (r : request) : option payload :=
  match r with
  | RAdd v => if _Lookup (e_set s) then None else Some (PAdd v (Z.of_nat (S self)) (_RH (t_set s)))
  | RInc i => if _Lookup (e_set s) then Some (PInc i (_RH (t_set s))) else None
  | RRem => if _Lookup (e_set s) then Some (PRem (alter (fun x => x + 1) self (_RH (t_set s)))) else None
  end.

(** The effects. *)
Definition Remove (s : local) (rhp : list Z) : local :=
  let local_rh := _RH (t_set s) in
  if newer local_rh rhp then mkLocal None (Some (Max_RH rhp local_rh)) else s.

Definition Add (s : local) (x pi : Z) (rh : list Z) : local :=
  let local_rh := _RH (t_set s) in
  if newer local_rh rh then
    let t := Some (Max_RH rh local_rh) in
    if decide (rh = _RH t) then mkLocal (Some (mkEl pi x 0)) t else mkLocal None t
  else
    let ele := _ELEMENT (e_set s) in
    if decide (rh = _RH (t_set s)) then
      if pi >? p_ini ele then mkLocal (Some (mkEl pi x (v_acq ele))) (t_set s) else s
    else s.

Definition Increase (s : local) (i : Z) (rh : list Z) : local :=
  let local_rh := _RH (t_set s) in
  if newer local_rh rh then
    let t := Some (Max_RH rh local_rh) in
    if decide (rh = _RH t) then mkLocal (Some (mkEl (-1) 0 (0 + i))) t else mkLocal None t
  else
    let ele := _ELEMENT (e_set s) in
    if decide (rh = _RH (t_set s)) then mkLocal (Some (mkEl (p_ini ele) (v_inn ele) (v_acq ele + i))) (t_set s) else s.

Definition effect (s : local) (m : payload) : local :=
  match m with PAdd x pi rh => Add s x pi rh | PRem rh => Remove s rh | PInc i rh => Increase s i rh end.

Definition fresh : local := mkLocal None None.

(** ** The state as a function of the operations executed *)

Definition rh_of (m : payload) : list Z := match m with PAdd _ _ rh | PRem rh | PInc _ rh => rh end.
Definition is_rem (m : payload) : bool := match m with PRem _ => true | _ => false end.

(** What an operation of the current history does to the record. *)
Definition upd (p : option elem) (m : payload) : option elem :=
  let ele := _ELEMENT p in
  match m with
  | PAdd x pi _ => if pi >? p_ini ele then Some (mkEl pi x (v_acq ele)) else p
  | PInc i _ => Some (mkEl (p_ini ele) (v_inn ele) (v_acq ele + i))
  | PRem _ => p
  end.

(** [t_set] has no vector as long as nothing was removed. *)
Definition loc (s : list Z * option elem) : local :=
  mkLocal s.2 (if decide (s.1 = replicate N 0) then None else Some s.1).

Lemma newer_spec a b : length a = length b -> newer a b = negb (bool_decide (vle b a)).
Proof.
  unfold newer. revert b. induction a as [|x a IH]; intros [|y b] Hl; try done; cbn in *.
  rewrite IH by lia. rewrite (bool_decide_ext (vle (y :: b) (x :: a)) (y <= x /\ vle b a)) by apply vle_cons.
  destruct (Z.ltb_spec x y); destruct (bool_decide_reflect (vle b a)), (bool_decide_reflect (y <= x /\ vle b a)); cbn; lia || tauto || done.
Qed.

Lemma Max_RH_spec a b : Max_RH a b = vec_update b a \/ length a <> length b.
Proof.
  destruct (decide (length a = length b)) as [Hl|]; [left|by right]. unfold Max_RH.
  revert b Hl. induction a as [|x a IH]; intros [|y b] Hl; try done; cbn in *. f_equal; [|apply IH; lia].
  rewrite Z.gtb_ltb. destruct (Z.leb_spec x y), (Z.ltb_spec y x); lia.
Qed.

Lemma RH_loc s : _RH (t_set (loc s)) = s.1.
Proof. unfold loc, _RH. cbn [t_set]. by case_decide. Qed.

Lemma loc_newer cur rh p :
  length cur = N -> length rh = N -> vle (replicate N 0) cur -> ~ vle rh cur ->
  mkLocal p (Some (vec_update cur rh)) = loc (vec_update cur rh, p).
Proof.
  intros Hc Hr Hz Hn. unfold loc. cbn [fst snd]. rewrite decide_False; [done|]. intros Heq. apply Hn.
  transitivity (vec_update cur rh); [apply vec_update_ub_r; lia|by rewrite Heq].
Qed.

Definition wf_payload (m : payload) : Prop :=
  length (rh_of m) = N /\ match m with PAdd _ pi _ => 0 < pi | _ => True end.

Lemma effect_step cur p m :
  length cur = N -> vle (replicate N 0) cur -> wf_payload m ->
  effect (loc (cur, p)) m = loc (rwf_step rh_of is_rem (fun _ => None) upd (cur, p) m).
Proof.
  intros Hc Hz [Hr Hpi]. unfold rwf_step.
  assert (Hnew : newer cur (rh_of m) = negb (bool_decide (vle (rh_of m) cur))) by (apply newer_spec; lia).
  destruct (Max_RH_spec (rh_of m) cur) as [HM|]; [|lia].
  destruct (decide (vle (rh_of m) cur)) as [Hle|Hn].
  - rewrite bool_decide_true in Hnew by done. destruct m as [x pi rh|rh|i rh]; cbn [effect rh_of is_rem] in *;
      [unfold Add|unfold Remove|unfold Increase]; rewrite RH_loc; cbn [fst]; rewrite Hnew; cbn [negb]; [|done|].
    + case_decide; [|done]. cbn [upd e_set loc snd]. by destruct (pi >? _).
    + by case_decide.
  - rewrite bool_decide_false in Hnew by done. pose proof (fun p => loc_newer cur (rh_of m) p Hc Hr Hz Hn) as Hloc.
    destruct m as [x pi rh|rh|i rh]; cbn [effect rh_of is_rem] in *;
      [unfold Add|unfold Remove|unfold Increase]; rewrite RH_loc; cbn [fst]; rewrite Hnew; cbn [negb _RH]; rewrite HM.
    + case_decide; [|apply Hloc]. rewrite Hloc. cbn [upd _ELEMENT p_ini v_acq]. rewrite (proj2 (Z.gtb_lt pi (-1))) by lia. done.
    + apply Hloc.
    + case_decide; [|apply Hloc]. rewrite Hloc. done.
Qed.

Lemma effects_run l :
  Forall wf_payload l ->
  foldl effect fresh l =
    loc (history rh_of (replicate N 0) l, foldl upd None (survivors rh_of is_rem (history rh_of (replicate N 0) l) l)).
Proof.
  intros Hl. assert (Hs : sized rh_of N l) by (eapply Forall_impl; [exact Hl|]; by intros m [? _]).
  rewrite <- (rwf_run_spec rh_of is_rem (fun _ => None) upd N) by (done || apply length_replicate).
  assert (fresh = loc (replicate N 0, None)) as -> by (unfold loc, fresh; cbn [fst snd]; by rewrite decide_True).
  induction l as [|m l IH] using rev_ind; [done|]. apply Forall_app in Hl as [Hl Hm]. apply Forall_cons in Hm as [Hm _].
  apply Forall_app in Hs as [Hs _]. unfold rwf_run. rewrite !foldl_app. cbn [foldl]. rewrite IH by done. fold (rwf_run rh_of is_rem (fun _ => None) upd (replicate N 0, None) l).
  rewrite (rwf_run_spec rh_of is_rem (fun _ => None) upd N) by (done || apply length_replicate). apply effect_step; [|..|done].
  - apply history_length, length_replicate.
  - apply (history_lub rh_of N (replicate N 0) l); [apply length_replicate|done|done].
Qed.

(** ** The order does not matter *)

(** One process adds an element once per history. *)
Definition agree (l : list payload) : Prop :=
  forall v v' pi rh, PAdd v pi rh ∈ l -> PAdd v' pi rh ∈ l -> v = v'.

Lemma upd_comm rh a b p :
  wf_payload a -> wf_payload b -> agree [a; b] -> rh_of a = rh -> rh_of b = rh -> upd (upd p a) b = upd (upd p b) a.
Proof.
  intros [_ Ha] [_ Hb] Hag Hra Hrb. destruct a as [x pi ra|ra|i ra], b as [y pj rb|rb|j rb]; try done; cbn [rh_of] in *; subst ra rb.
  - assert (pi = pj -> x = y) as Hxy by (intros ->; apply (Hag x y pj rh); set_solver).
    unfold upd. rewrite !Z.gtb_ltb. destruct p as [[p0 i0 a0]|]; cbn [_ELEMENT p_ini v_acq].
    + destruct (Z.ltb_spec p0 pi), (Z.ltb_spec p0 pj); cbn [_ELEMENT p_ini v_acq];
        repeat match goal with |- context [?a <? ?b] => destruct (Z.ltb_spec a b) end; try done; try lia.
      assert (pi = pj) as -> by lia. by rewrite Hxy.
    + rewrite (proj2 (Z.ltb_lt (-1) pi)), (proj2 (Z.ltb_lt (-1) pj)) by lia. cbn [_ELEMENT p_ini v_acq].
      destruct (Z.ltb_spec pi pj), (Z.ltb_spec pj pi); try done; try lia. assert (pi = pj) as -> by lia. by rewrite Hxy.
  - unfold upd. destruct p as [[p0 i0 a0]|]; cbn [_ELEMENT p_ini v_acq v_inn]; destruct (_ >? _); cbn [_ELEMENT p_ini v_acq v_inn]; done.
  - unfold upd. destruct p as [[p0 i0 a0]|]; cbn [_ELEMENT p_ini v_acq v_inn]; destruct (_ >? _); cbn [_ELEMENT p_ini v_acq v_inn]; done.
  - unfold upd. destruct p as [[p0 i0 a0]|]; cbn [_ELEMENT p_ini v_acq v_inn]; do 2 f_equal; lia.
Qed.

Lemma effects_perm l1 l2 :
  Forall wf_payload l1 -> agree l1 -> l1 ≡ₚ l2 -> foldl effect fresh l1 = foldl effect fresh l2.
Proof.
  intros Hl Hag Hp. rewrite !effects_run by (by rewrite <- ?Hp).
  assert (Hs : sized rh_of N l1) by (eapply Forall_impl; [exact Hl|]; by intros m [? _]).
  rewrite <- (history_perm rh_of N _ l1 l2) by (done || apply length_replicate). do 2 f_equal.
  apply foldl_comm_perm; [|unfold survivors; generalize (history rh_of (replicate N 0) l1); intros h; by rewrite Hp].
  rewrite Forall_forall in Hl.
  unfold survivors. intros a b p Ha Hb. apply list_elem_of_filter in Ha as [[_ Ha'] Ha], Hb as [[_ Hb'] Hb].
  apply (upd_comm (history rh_of (replicate N 0) l1)); try done; [by apply Hl..|].
  intros v v' pi rh Hv Hv'. apply (Hag v v' pi rh); [by apply elem_of_cons in Hv as [->|[->|[]%elem_of_nil]%elem_of_cons]|].
  by apply elem_of_cons in Hv' as [->|[->|[]%elem_of_nil]%elem_of_cons].
Qed.

(** An add of the current history leaves a record. *)
Lemma upd_added v pi rh l p : 0 < pi -> PAdd v pi rh ∈ l -> is_Some (foldl upd p l).
Proof.
  intros Hpi. revert p. assert (Hs : forall l p, is_Some p -> is_Some (foldl upd p l)).
  { clear l. intros l. induction l as [|m l IH]; intros p Hp; [done|]. cbn [foldl]. apply IH.
    destruct m as [x pj r|r|i r]; cbn [upd]; [destruct (_ >? _)|..]; done || by eexists. }
  induction l as [|m l IH]; intros p Hin; [by apply elem_of_nil in Hin|]. cbn [foldl].
  apply elem_of_cons in Hin as [<-|Hin]; [|by apply IH]. apply Hs. cbn [upd].
  destruct p as [e|]; [destruct (_ >? _); by eexists|]. cbn [_ELEMENT p_ini]. rewrite (proj2 (Z.gtb_lt _ _)) by lia. by eexists.
Qed.

(** ** Reachable states *)

Context (MaxOps : nat) (Values Increments : Z -> Prop).

Definition allowed (r : request) : Prop := match r with RAdd v => Values v | RInc i => Increments i | RRem => True end.

Notation state := (Net.state (P := payload) (L := local)).
Definition reachable : state -> Prop :=
  Net.reachable N MaxOps (fun _ => fresh) prepare effect effect (fun _ _ => true) allowed.

Definition SEC (st : state) : Prop :=
  forall p1 p2 s1 s2 q, p1 <> p2 -> Net.ops st !! p1 = Some q -> Net.ops st !! p2 = Some q ->
    Net.locals st !! p1 = Some s1 -> Net.locals st !! p2 = Some s2 -> e_set s1 = e_set s2 /\ t_set s1 = t_set s2.

Notation tracks := (Net.tracks N MaxOps (fun _ => fresh) prepare effect effect (fun _ _ => true) allowed).
Notation log := (list (nat * Net.message payload)).

(** Messages carry vectors of the right size and the number of their sender. *)
Definition sent_by (i : nat) (m : payload) : Prop :=
  wf_payload m /\ match m with PAdd _ pi _ => pi = Z.of_nat (S i) | _ => True end.

Lemma prepare_sent l i r m :
  Forall wf_payload l -> prepare (foldl effect fresh l) i r = Some m -> sent_by i m.
Proof.
  intros Hl. rewrite effects_run by done. set (h := history _ _ _).
  assert (length h = N) as Hh by (apply history_length, length_replicate).
  unfold prepare. rewrite RH_loc. cbn [fst]. unfold sent_by, wf_payload.
  destruct r; (destruct (_Lookup _); [|]); try done; intros [= <-]; cbn [rh_of]; rewrite ?length_alter; split_and!; try done; lia.
Qed.

Lemma log_sent st lg got m o : tracks st lg got -> lg !! m = Some o -> sent_by o.1 (Net.params o.2).
Proof.
  intros Ht. revert o. induction (lt_wf m) as [m _ IH]; intros [i x] Hm.
  destruct (Net.tk_born _ _ _ _ _ _ _ _ _ _ _ Ht m i x Hm) as (g1 & g2 & r & _ & Hlt & _ & Hp).
  rewrite Net.replay_effects in Hp. eapply prepare_sent; [|exact Hp]. apply Forall_fmap, Forall_forall. intros [j p] Hin.
  apply Net.elem_of_executed in Hin as (k & y & Hk & Hy & <-). rewrite Forall_forall in Hlt. specialize (Hlt _ Hk).
  by destruct (IH k Hlt (j, y) Hy) as [? _].
Qed.

Lemma executed_wf st lg got g : tracks st lg got -> Forall wf_payload ((Net.executed lg g).*2).
Proof.
  intros Ht. apply Forall_fmap, Forall_forall. intros [j p] Hin. apply Net.elem_of_executed in Hin as (k & y & _ & Hy & <-).
  by destruct (log_sent st lg got k (j, y) Ht Hy) as [? _].
Qed.

(** A process does not add twice in one history. *)
Lemma add_once st lg got m m' i x x' v v' pi rh :
  tracks st lg got -> lg !! m = Some (i, x) -> lg !! m' = Some (i, x') -> (m < m')%nat ->
  Net.params x = PAdd v pi rh -> Net.params x' = PAdd v' pi rh -> False.
Proof.
  intros Ht Hm Hm' Hlt Hx Hx'. destruct (Net.tk_born _ _ _ _ _ _ _ _ _ _ _ Ht m' i x' Hm') as (g1 & g2 & r & Hg & _ & _ & Hp).
  pose proof (Net.own_before _ _ _ _ _ _ _ _ _ _ _ _ _ _ _ _ _ _ Ht Hm Hm' Hlt Hg) as Hin.
  rewrite Net.replay_effects, effects_run in Hp by (by eapply executed_wf). rewrite Hx' in Hp.
  set (l := (Net.executed lg g1).*2) in *. set (h := history rh_of (replicate N 0) l) in *.
  assert (PAdd v pi rh ∈ l) as Hl.
  { apply list_elem_of_fmap. exists (i, PAdd v pi rh). split; [done|]. apply Net.elem_of_executed. by exists m, x. }
  unfold prepare in Hp. rewrite RH_loc in Hp. cbn [fst e_set loc snd] in Hp.
  destruct (log_sent _ _ _ _ _ Ht Hm) as [Hw _]. cbn [snd] in Hw. rewrite Hx in Hw. destruct Hw as [_ Hpi].
  destruct r; [|by destruct (_Lookup _)..]. destruct (_Lookup _) eqn:Hlk; [done|]. injection Hp as _ _ Hh.
  destruct (upd_added v pi rh (survivors rh_of is_rem h l) None Hpi) as [e He]; [|by rewrite He in Hlk].
  apply list_elem_of_filter. split; [|done]. by split.
Qed.

Lemma executed_agree st lg got g : tracks st lg got -> agree ((Net.executed lg g).*2).
Proof.
  intros Ht v v' pi rh Hv Hv'.
  apply list_elem_of_fmap in Hv as ([i p] & Hp & Hi), Hv' as ([i' p'] & Hp' & Hi'). cbn in Hp, Hp'. subst p p'.
  apply Net.elem_of_executed in Hi as (m & x & _ & Hm & Hx), Hi' as (m' & x' & _ & Hm' & Hx').
  destruct (log_sent _ _ _ _ _ Ht Hm) as [_ Hpi], (log_sent _ _ _ _ _ Ht Hm') as [_ Hpi']. cbn [fst snd] in *.
  rewrite Hx in Hpi. rewrite Hx' in Hpi'. assert (i' = i) as -> by lia.
  destruct (Nat.lt_trichotomy m m') as [Hlt|[->|Hlt]].
  - destruct (add_once _ _ _ m m' i x x' v v' pi rh Ht); done.
  - assert (x' = x) as -> by congruence. congruence.
  - destruct (add_once _ _ _ m' m i x' x v' v pi rh Ht); done.
Qed.

(** C10 (invariant): the specification's own invariant, which the repository
    checks for 2 processes and 2 operations, holds for every number of
    processes and operations and every set of values: processes with the same
    messages to come are in the same state. *)
Theorem rwf_spec_sec st : reachable st -> SEC st.
Proof.
  intros (lg & got & Ht)%Net.reachable_tracks p1 p2 s1 s2 q _ Hq1 Hq2 Hs1 Hs2.
  destruct (Net.got_at _ _ _ _ _ _ _ _ _ _ _ _ _ Ht Hs1) as (g1 & Hg1 & ->), (Net.got_at _ _ _ _ _ _ _ _ _ _ _ _ _ Ht Hs2) as (g2 & Hg2 & ->).
  rewrite !Net.replay_effects.
  rewrite (effects_perm ((Net.executed lg g1).*2) ((Net.executed lg g2).*2)); [done|by eapply executed_wf|by eapply executed_agree|].
  apply fmap_Permutation, Net.executed_perm. by eapply Net.same_pending.
Qed.
End Spec.

(** Two processes: an add at the first reaches the second. *)
Lemma rwf_spec_sec_witness :
  exists st, reachable 2 2 (fun _ => True) (fun _ => True) st /\ Net.opcount st = 1%nat /\ SEC st.
Proof.
  set (m := Net.mkMsg 1 (PAdd 10 1 [0; 0])).
  pose proof (Net.next_request 2 (prepare 2) (effect 2) (effect 2) (fun _ _ => true) (allowed (fun _ => True) (fun _ => True))
    (Net.Init 2 (fun _ => fresh)) 0 fresh (RAdd 10) ltac:(apply Nat.lt_0_2) eq_refl I) as H1.
  match type of H1 with Net.Next _ _ _ _ _ _ _ ?st =>
    pose proof (Net.next_update 2 (prepare 2) (effect 2) (effect 2) (fun _ _ => true) (allowed (fun _ => True) (fun _ => True))
      st 1 fresh (∅ ∪ {[ m ]}) m eq_refl eq_refl ltac:(by apply elem_of_union_r, elem_of_singleton) eq_refl) as H2
  end.
  eassert (reachable 2 2 (fun _ => True) (fun _ => True) _) as Hr by (eapply rtc_l; [exact H1|]; eapply rtc_once; exact H2).
  eexists. split; [exact Hr|]. split; [reflexivity|]. apply (rwf_spec_sec 2 2 (fun _ => True) (fun _ => True) _ Hr).
Defined.
End RwfRpq.
