(* ===== verification/RwfzRefine.v ===== *)
(** * The servers implement the TLA+ specification

    Every run of the system of servers is, for each element, a run of the
    specification of [TlaRwf]: the elements of the servers are what the
    oracle of MET reads off them, and the messages in flight are the
    specification's. *)

From S2P Require Import Prelude Sds VectorClock Causal Double Exact Util Score Skiplist SkiplistSpec Zset ZsetSpec.
From S2P Require Import RWFramework RwfZset Store Crdt Container RWFCommand RwfzCmd RwfzSpec P2P System RwfzSystem TlaNet TlaSim TlaRwf.
Import RwfRpq.

#[local] Arguments sdsToVC : simpl never.
#[local] Arguments getDoubleFromObject : simpl never.

(** ** The refinement mapping

    As MET/oracle.h compares a server with the specification: process numbers
    from 1, values as integers. *)
Definition abs_op (o : rwfz_op) : payload :=
  match o with
  | RwfzAdd v t => PAdd (to_Z v) (vid t + 1) (vector t)
  | RwfzIncr v t => PInc (to_Z v) (vector t)
  | RwfzRem t => PRem (vector t)
  end.

Definition abs_elem (e : rwfze) : option elem :=
  if EXISTS (RwfZset.header e) then Some (mkEl (pid (RwfZset.header e) + 1) (to_Z (innate e)) (to_Z (acquired e))) else None.

Lemma abs_stamp o : rh_of (abs_op o) = op_stamp o.
Proof. by destruct o. Qed.

Lemma abs_rem o : is_rem (abs_op o) = op_is_rmv o.
Proof. by destruct o. Qed.

Lemma abs_history cur l : history rh_of cur (abs_op <$> l) = history op_stamp cur l.
Proof. unfold history. rewrite foldl_fmap. revert cur. induction l as [|o l IH]; intros cur; [done|]. cbn [foldl]. by rewrite abs_stamp, IH. Qed.

Lemma abs_survivors cur l : survivors rh_of is_rem cur (abs_op <$> l) = abs_op <$> survivors op_stamp op_is_rmv cur l.
Proof.
  unfold survivors. induction l as [|o l IH]; [done|]. rewrite fmap_cons, !filter_cons, IH. pose proof (abs_stamp o) as Hs. pose proof (abs_rem o) as Hr.
  destruct (decide (in_epoch op_stamp op_is_rmv cur o)) as [[H1 H2]|Hn].
  - rewrite decide_True; [done|]. split; congruence.
  - rewrite decide_False; [done|]. intros [H1 H2]. apply Hn. split; congruence.
Qed.

(** The data of an element and the record of the specification. *)
Definition same_data (B : Z) (d : data) (p : option elem) : Prop :=
  match p with
  | None => d = fresh_data
  | Some e => d = (p_ini e - 1, double_of_Z (v_inn e), double_of_Z (v_acq e)) /\ p_ini e <> 0 /\ Z.abs (v_inn e) + Z.abs (v_acq e) <= B
  end.

Lemma same_data_apply B d p o :
  same_data B d p -> 0 <= vid (op_vc o) -> ints_below (2 ^ 53 - B) (op_values [o]) -> 0 <= B ->
  same_data (B + iabs (op_values [o])) (data_apply d o) (upd p (abs_op o)).
Proof.
  intros Hd Hid [Hint Hb] HB. pose proof (isum_iabs (op_values [o])) as Hs.
  destruct o as [v t|v t|t]; cbn [op_values omap list_omap op_value op_vc abs_op upd data_apply] in *.
  - apply Forall_cons in Hint as [Hv _]. unfold is_int in Hv. rewrite iabs_cons in *. unfold iabs in *. cbn [fmap list_fmap zsum foldr] in *.
    destruct p as [[p0 i0 a0]|]; cbn [same_data _ELEMENT p_ini v_inn v_acq] in *.
    + destruct Hd as (-> & Hp & Hle). cbn [data_apply]. rewrite Z.gtb_ltb. destruct (Z.ltb_spec p0 (vid t + 1)), (Z.ltb_spec (p0 - 1) (vid t)); try lia; cbn [same_data p_ini v_inn v_acq].
      * split_and!; [|lia..]. rewrite <- Hv. by replace (vid t + 1 - 1) with (vid t) by lia.
      * split_and!; done || lia.
    + subst d. unfold fresh_data. cbn [data_apply]. rewrite (proj2 (Z.gtb_lt _ _)) by lia. unfold PID_NEXIST. rewrite (proj2 (Z.ltb_lt _ _)) by lia. cbn [same_data p_ini v_inn v_acq].
      split_and!; [|lia..]. rewrite <- Hv. by replace (vid t + 1 - 1) with (vid t) by lia.
  - apply Forall_cons in Hint as [Hv _]. unfold is_int in Hv. rewrite iabs_cons in *. unfold iabs in *. cbn [fmap list_fmap zsum foldr] in *.
    assert (Hadd : forall a, Z.abs a <= B -> dadd (double_of_Z a) v = double_of_Z (a + to_Z v)).
    { intros a Ha. rewrite Hv at 1. apply dadd_Z; lia. }
    destruct p as [[p0 i0 a0]|]; cbn [same_data _ELEMENT p_ini v_inn v_acq] in *.
    + destruct Hd as (-> & Hp & Hle). cbn [data_apply]. rewrite (proj2 (Z.eqb_neq _ _)) by (unfold PID_NEXIST; lia). rewrite Hadd by lia. split_and!; done || lia.
    + subst d. unfold fresh_data. cbn [data_apply]. rewrite Z.eqb_refl. split_and!; [|lia|lia]. change dzero with (double_of_Z 0) at 2. rewrite Hadd by lia. done.
  - destruct d as [[p0 i0] a0], p as [e|]; [|done]. destruct Hd as (? & ? & ?). unfold iabs. cbn. split_and!; [done..|lia].
Qed.

Lemma same_data_run l :
  ids_ok l -> ints_below (2 ^ 53) (op_values l) ->
  same_data (iabs (op_values l)) (foldl data_apply fresh_data l) (foldl upd None (abs_op <$> l)).
Proof.
  induction l as [|o l IH] using rev_ind; intros Hid Hb; [done|].
  apply Forall_app in Hid as [Hid Ho]. apply Forall_cons in Ho as [Ho _].
  unfold op_values in *. rewrite omap_app in *. destruct Hb as [Hi Hb]. apply Forall_app in Hi as [Hi1 Hi2].
  rewrite iabs_app in Hb. pose proof (iabs_nonneg (omap op_value l)). pose proof (iabs_nonneg (omap op_value [o])).
  rewrite fmap_app, !foldl_app, iabs_app. cbn [fmap list_fmap foldl]. apply same_data_apply; try done.
  - apply IH; [done|]. split; [done|lia].
  - split; [done|]. unfold op_values. lia.
Qed.


(** The element as its messages built it, and the specification's process that
    executed the same messages. *)
Lemma abs_run (n : nat) id l e :
  sized op_stamp n l -> ids_ok l -> ints_below (2 ^ 53) (op_values l) ->
  (e ← rwfzeNew (Z.of_nat n) id; foldM rwfz_effect e l) = Ok e ->
  foldl (effect n) fresh (abs_op <$> l) = loc n (vector (current (RwfZset.header e)), abs_elem e) /\
  (forall r, abs_elem e = Some r -> SCORE e = double_of_Z (v_inn r + v_acq r) /\ Z.abs (v_inn r + v_acq r) < 2 ^ 53).
Proof.
  intros Hs Hid Hi Hrun. rewrite rwfz_run_spec in Hrun by done. injection Hrun as <-. set (h := history op_stamp (replicate n 0) l).
  assert (Forall (wf_payload n) (abs_op <$> l)) as Hwf.
  { apply Forall_fmap, Forall_forall. intros o Ho. unfold ids_ok in Hid. unfold sized in Hs. rewrite Forall_forall in Hid, Hs.
    specialize (Hid o Ho). specialize (Hs o Ho). split; [by rewrite abs_stamp|]. destruct o; cbn in *; done || lia. }
  rewrite effects_run, abs_history, abs_survivors by done. fold h. fold (surviving n l).
  assert (ids_ok (surviving n l)) as Hids by
    (apply Forall_forall; intros o [Ho _]%survivors_stamp; unfold ids_ok in Hid; rewrite Forall_forall in Hid; by apply Hid).
  assert (op_values (surviving n l) ⊆+ op_values l) as Hsub by (apply sublist_submseteq; unfold op_values; apply omap_sublist, surviving_sublist).
  pose proof (ints_below_sub _ _ _ Hsub Hi) as [Hi' Hb'].
  pose proof (same_data_run (surviving n l) Hids (conj Hi' Hb')) as Hd.
  rewrite data_apply_spec in Hd by (done || (apply Forall_forall; intros o Ho%survivors_stamp; tauto)).
  set (d := data_spec (surviving n l)) in *. destruct (foldl upd None _) as [[p0 i0 a0]|] eqn:Hf; cbn [same_data p_ini v_inn v_acq] in Hd.
  - destruct Hd as (-> & Hp & Hle). unfold mk_elem, abs_elem, EXISTS, SCORE. cbn [RwfZset.header pid current vector innate acquired].
    rewrite (proj2 (Z.eqb_neq _ _)) by (unfold PID_NEXIST; lia). cbn [negb]. rewrite !to_Z_double by lia. split.
    + unfold loc. cbn [fst snd]. by replace (p0 - 1 + 1) with p0 by lia.
    + intros r [= <-]. cbn [v_inn v_acq]. split; [apply dadd_Z; lia|lia].
  - rewrite Hd. done.
Qed.

(** ** Requests *)

Definition abs_user (u : rwfz_user) : option request :=
  match u with
  | UAdd a => RAdd ∘ to_Z <$> getDoubleFromObject a
  | UIncr a => RInc ∘ to_Z <$> getDoubleFromObject a
  | URem => Some RRem
  end.

Lemma abs_refused e u : abs_user u = None -> user_op e u = None.
Proof. destruct u as [a|a|]; cbn; [destruct (getDoubleFromObject a)..|]; done. Qed.

Lemma abs_prepare (n i : nat) e u r :
  vid (current (RwfZset.header e)) = Z.of_nat i -> (i < length (vector (current (RwfZset.header e))))%nat -> abs_user u = Some r ->
  prepare n (loc n (vector (current (RwfZset.header e)), abs_elem e)) i r = abs_op <$> user_op e u.
Proof.
  intros Hid Hi Hu. unfold prepare. rewrite RH_loc. cbn [fst loc e_set snd].
  assert (_Lookup (abs_elem e) = EXISTS (RwfZset.header e)) as -> by (unfold abs_elem; by destruct (EXISTS _)).
  destruct u as [a|a|]; cbn [abs_user user_op] in *.
  - destruct (getDoubleFromObject a) as [v|]; [|done]. injection Hu as <-. cbn. destruct (EXISTS _); [done|]. cbn. rewrite Hid. do 2 f_equal. lia.
  - destruct (getDoubleFromObject a) as [v|]; [|done]. injection Hu as <-. cbn. by destruct (EXISTS _).
  - injection Hu as <-. destruct (EXISTS _); [|done]. cbn [abs_op fmap option_fmap option_map next_remove vector]. do 2 f_equal.
    set (v := vector _) in *. rewrite Hid, Nat2Z.id. destruct (lookup_lt_is_Some_2 v i Hi) as [z Hz]. unfold entry. rewrite Nat2Z.id, Hz. cbn.
    apply list_eq. intros j. destruct (decide (j = i)) as [->|Hne].
    + by rewrite list_lookup_alter_eq, Hz, list_lookup_insert_eq by done.
    + by rewrite list_lookup_alter_ne, list_lookup_insert_ne by done.
Qed.

(** ** The simulation *)

Section Simulation.
Context {E : Type} `{!Cell rwfze E}.
Context (K : string) (N TT : nat) (HN : (0 < N <= VC_INT_BUF)%nat) (HTT : Z.of_nat TT + 2 < INT_MAX).
Context (x : string) (V : Z -> Prop).
Notation sys := (System.sys E).
Notation sys_step := (System.sys_step lookupCommand (user_args K)).
Notation sys_run := (System.sys_run lookupCommand (user_args K)).
Notation parsed := (System.parsed parse_msg).
Notation ops_got := (System.ops_got parse_msg).
Notation Next := (Net.Next TT (prepare N) (effect N) (effect N) (fun _ _ => true) (allowed V V)).
(** Every message is executed when it is received. *)
Notation sim T f st t := (simulates (parse := parse_msg) N abs_op (runs_to fresh (effect N) abs_op) x T f (log st) (got st) t).

(** ** Steps and runs *)

Lemma bounds_got acts st : sys_ok K N TT acts st ->
  forall j gj, got st !! j = Some gj -> Forall (fun m => m < length (log st))%nat gj.
Proof.
  intros Hok j gj Hj. destruct (lookup_lt_is_Some_2 (servers st) j) as [s Hs].
  { rewrite (so_servers _ _ _ _ _ Hok), <- (so_got _ _ _ _ _ Hok). by eapply lookup_lt_Some. }
  apply (so_replicas _ _ _ _ _ Hok j s gj Hs Hj).
Qed.

(** The specification's process where the server executed the same messages. *)
Lemma sim_local acts f st t i g s sl e :
  sys_ok K N TT acts st -> (length acts <= TT)%nat -> ints_below BOUND (omap action_value acts) -> sim (length acts) f st t ->
  (i < N)%nat -> replica_ok K N TT (length acts) (log st) i s g -> got st !! i = Some g -> Net.locals t !! i = Some sl ->
  (e ← rwfzeNew (Z.of_nat N) (Z.of_nat i); foldM rwfz_effect e (ops_got (log st) g x)) = Ok e ->
  sl = loc N (vector (current (RwfZset.header e)), abs_elem e) /\
  vid (current (RwfZset.header e)) = Z.of_nat i /\ length (vector (current (RwfZset.header e))) = N /\
  (forall r, abs_elem e = Some r -> SCORE e = double_of_Z (v_inn r + v_acq r) /\ Z.abs (v_inn r + v_acq r) < 2 ^ 53).
Proof.
  intros Hok HT Hints Hsim Hi Hr Hg Hsl Hrun.
  destruct (elem_built K N TT HN (length acts) (log st) i g x e (so_log _ _ _ _ _ Hok) Hi ltac:(lia) Hrun) as (_ & Hsz & Hids & Hwf & Hid & _).
  destruct (abs_run N (Z.of_nat i) (ops_got (log st) g x) e Hsz Hids) as [Hrel Hsc]; [|done|].
  { assert (ints_below BOUND (op_values (ops_got (log st) g x))) as [? ?]; [|split; [done|unfold BOUND in *; lia]].
    eapply ints_below_sub; [|exact Hints]. etrans; [apply values_got; apply Hr|apply sublist_submseteq, (so_values _ _ _ _ _ Hok)]. }
  rewrite (sm_local _ _ _ _ _ _ _ _ _ Hsim i g sl Hg Hsl). split_and!; try done. apply (wf_size _ _ Hwf).
Qed.

Lemma abs_allowed i y u r :
  (forall v, action_value (Client i y u) = Some v -> V (to_Z v)) -> abs_user u = Some r -> allowed V V r.
Proof.
  intros HV Hu. destruct u as [a|a|]; cbn [abs_user action_value] in *; [destruct (getDoubleFromObject a) as [v|]; [|done]..|by injection Hu as <-];
    injection Hu as <-; by apply HV.
Qed.

Lemma sim_client acts f st st' t i y u :
  sys_ok K N TT acts st -> (length acts < TT)%nat -> ints_below BOUND (omap action_value (acts ++ [Client i y u])) ->
  (forall v, action_value (Client i y u) = Some v -> V (to_Z v)) -> sim (length acts) f st t ->
  sys_step st (Client i y u) = Ok st' -> exists t' f', rtc Next t t' /\ sim (S (length acts)) f' st' t'.
Proof.
  intros Hok HT Hints HV Hsim Hstep. cbn [System.sys_step] in Hstep.
  assert (Hstay : forall sv : list (server E), exists t' f', rtc Next t t' /\ sim (S (length acts)) f' (mkSys sv (log st) (got st)) t').
  { intros sv. exists t, f. split; [done|]. by eapply sim_mono; [|exact Hsim]; lia. }
  destruct (servers st !! i) as [s|] eqn:Hs; [|injection Hstep as <-; destruct st; apply Hstay].
  destruct (client_issue K N TT HN HTT acts st i y u s Hok HT Hints Hs)
    as (g & els & es & e & s' & m & Hg & Hi & Hr & Hb & Hmir & He & Hrun & Hlen & Hd & Hiss & Hcase).
  rewrite Hiss in Hstep. cbn [mbind res_bind] in Hstep.
  destruct (lookup_lt_is_Some_2 (Net.locals t) i) as [sl Hsl]; [by rewrite (sm_locals _ _ _ _ _ _ _ _ _ Hsim)|].
  assert (ints_below BOUND (omap action_value acts)) as Hints'.
  { eapply ints_below_sub; [|exact Hints]. rewrite omap_app. by apply submseteq_inserts_r. }
  destruct (user_op e u) as [o|] eqn:Ho.
  - destruct Hcase as (str & e' & es' & -> & Hstr & _ & _ & _). injection Hstep as <-.
    cbn [log got]. rewrite (alter_update _ _ _ _ Hg). pose proof (parse_user K y u e o str Ho Hstr) as Hpar.
    destruct (decide (y = x)) as [->|Hne].
    2:{ exists t, f. split; [done|]. eapply sim_mono; [apply Nat.le_succ_diag_r|]. eapply sim_other_exec; [|done|by rewrite parsed_new|done].
        eapply sim_other_sent; try done. by eapply bounds_got. }
    destruct (sim_local acts f st t i g s sl e) as (-> & Hid & Hvl & _); try done; try lia.
    destruct (abs_user u) as [r|] eqn:Hu; [|by rewrite (abs_refused e u Hu) in Ho].
    pose proof (abs_prepare N i e u r Hid ltac:(lia) Hu) as Hp. rewrite Ho in Hp. cbn [fmap option_fmap option_map] in Hp.
    destruct (sim_accepted N TT (prepare N) (effect N) (effect N) (fun _ _ => true) (allowed V V) abs_op (runs_to fresh (effect N) abs_op) ltac:(intros; by apply runs_to_step) x _ _ _ _ _ i g _ o Hsim Hg Hpar ltac:(by eapply bounds_got) _ r HT Hsl ltac:(by eapply abs_allowed) Hp) as (t' & f' & Hn & Hs').
    exists t', f'. split; [by apply rtc_once|done].
  - destruct Hcase as (-> & _). injection Hstep as <-. destruct (decide (y = x)) as [->|Hne]; [|apply Hstay].
    destruct (abs_user u) as [r|] eqn:Hu; [clear Hstay|apply Hstay].
    destruct (sim_local acts f st t i g s sl e) as (-> & Hid & Hvl & _); try done; try lia.
    pose proof (abs_prepare N i e u r Hid ltac:(lia) Hu) as Hp. rewrite Ho in Hp.
    destruct (sim_refused N TT (prepare N) (effect N) (effect N) (fun _ _ => true) (allowed V V) abs_op _ x _ _ _ _ _ i _ r Hsim HT Hsl ltac:(by eapply abs_allowed) Hp) as (t' & Hn & Hs').
    exists t', f. split; [by apply rtc_once|done].
Qed.

Lemma sim_message acts f st st' t j m :
  sys_ok K N TT acts st -> sim (length acts) f st t ->
  sys_step st (Deliver j m) = Ok st' -> exists t' f', rtc Next t t' /\ sim (S (length acts)) f' st' t'.
Proof.
  intros Hok Hsim Hstep. cbn [System.sys_step] in Hstep.
  assert (Hstay : exists t' f', rtc Next t t' /\ sim (S (length acts)) f' st t').
  { exists t, f. split; [done|]. eapply sim_mono; [|exact Hsim]; lia. }
  destruct (servers st !! j) as [s|] eqn:Hs; [|by injection Hstep as <-].
  destruct (log st !! m) as [l|] eqn:Hl; [|by injection Hstep as <-].
  destruct (got st !! j) as [g|] eqn:Hg; [|by injection Hstep as <-].
  case_decide as Hmg; [by injection Hstep as <-|]. destruct (receive lookupCommand s l) as [s'|]; [|done]. cbn [mbind res_bind] in Hstep. injection Hstep as <-.
  pose proof (Forall_lookup_1 _ _ _ _ (so_log _ _ _ _ _ Hok) Hl) as Hent. destruct (log_entry_parsed _ _ _ _ Hent) as (y & o & Hpar & _).
  assert (parsed (log st) m = Some (y, o)) as Hp by (unfold System.parsed; by rewrite Hl).
  destruct (lookup_lt_is_Some_2 (Net.locals t) j) as [sl Hsl].
  { rewrite (sm_locals _ _ _ _ _ _ _ _ _ Hsim), <- (so_servers _ _ _ _ _ Hok). by eapply lookup_lt_Some. }
  destruct (decide (y = x)) as [->|Hne].
  - destruct (sim_exec N TT (prepare N) (effect N) (effect N) (fun _ _ => true) (allowed V V) abs_op (runs_to fresh (effect N) abs_op) (fun _ _ => True) ltac:(intros; by apply runs_to_step) x _ _ _ _ _ j g sl m o Hsim Hg Hsl Hp Hmg eq_refl I) as (t' & Hn & Hs').
    exists t', f. split; [by apply rtc_once|]. eapply sim_mono; [|exact Hs']; lia.
  - exists t, f. split; [done|]. eapply sim_mono; [apply Nat.le_succ_diag_r|]. by eapply sim_other_exec.
Qed.

Lemma sim_run acts' : forall acts st st' f t,
  sys_ok K N TT acts st -> (length (acts ++ acts') <= TT)%nat -> ints_below BOUND (omap action_value (acts ++ acts')) ->
  (forall v, v ∈ omap action_value acts' -> V (to_Z v)) -> sim (length acts) f st t -> sys_run st acts' = Ok st' ->
  exists t' f', rtc Next t t' /\ sim (length (acts ++ acts')) f' st' t'.
Proof.
  induction acts' as [|a acts' IH]; intros acts st st' f t Hok Hlen Hints HV Hsim Hrun.
  { injection Hrun as <-. exists t, f. by rewrite app_nil_r. }
  unfold System.sys_run in Hrun. cbn [foldM] in Hrun. destruct (sys_step st a) as [st1|] eqn:Hstep; [|done]. cbn [mbind res_bind] in Hrun.
  replace (a :: acts') with ([a] ++ acts') in Hlen, Hints |- * by done. rewrite app_assoc in Hlen, Hints |- *.
  rewrite !length_app in Hlen. cbn [length] in Hlen.
  assert (ints_below BOUND (omap action_value (acts ++ [a]))) as Hi1.
  { eapply ints_below_sub; [|exact Hints]. rewrite (omap_app _ (acts ++ [a])). by apply submseteq_inserts_r. }
  assert (HVa : forall v, action_value a = Some v -> V (to_Z v)).
  { intros v Hv. apply HV. rewrite omap_cons_eq, Hv. by left. }
  assert (HVs : forall v, v ∈ omap action_value acts' -> V (to_Z v)).
  { intros v Hv. apply HV. rewrite omap_cons_eq. destruct (action_value a); [by right|done]. }
  assert (exists t1 f1, rtc Next t t1 /\ sim (S (length acts)) f1 st1 t1) as (t1 & f1 & Hr1 & Hs1).
  { destruct a as [i y u|j m]; [eapply sim_client|eapply sim_message]; try done; lia. }
  assert (sys_ok K N TT (acts ++ [a]) st1) as Hok1.
  { destruct a as [i y u|j m]; [destruct (step_client K N TT HN HTT acts st i y u) as (st2 & H2 & ?)|destruct (step_deliver K N TT HN HTT acts st j m) as (st2 & H2 & ?)];
      try done; try lia; congruence. }
  destruct (IH (acts ++ [a]) st1 st' f1 t1) as (t' & f' & Hr2 & Hs2); try done.
  - rewrite !length_app. cbn. lia.
  - rewrite length_app. cbn. by rewrite Nat.add_1_r.
  - exists t', f'. split; [by etrans|done].
Qed.

End Simulation.

(** The score the specification gives the element. *)
Definition spec_score (s : local) : option double := (fun r => double_of_Z (v_inn r + v_acq r)) <$> e_set s.

(** The numbers sent by the clients of a run. *)
Definition sent_value (acts : list (action rwfz_user)) (z : Z) : Prop := exists v, v ∈ omap action_value acts /\ to_Z v = z.

Section Refinement.
Context {E : Type} `{!Cell rwfze E}.

End Refinement.

