(* ===== verification/QueueSpec.v ===== *)
(** * What the commands of the queues share

    Steps of a prepare phase and of an effect phase that do not depend on the
    kind of the elements: the checks of the arguments, finding and creating the
    element, the arguments to broadcast, and the frame of a command. *)

From S2P Require Import Prelude Sds Double Util Score Skiplist SkiplistSpec Zset ZsetSpec Store Crdt Container System.
From Stdlib Require Import Ascii.

Section Checks.
Context {A E : Type} `{!Cell A E}.
Context (suffix : string).
Implicit Types (w : world E) (s : server E).

Lemma check_argc_ok max w (Q : option unit -> world E -> Prop) :
  2 <= Z.of_nat (length (argv (cli w))) <= max -> Q (Some tt) w -> wp (CHECK_ARGC max) w Q.
Proof.
  intros Hn HQ. unfold CHECK_ARGC, argc. wp_steps. rewrite (proj2 (Z.ltb_ge _ _)) by lia.
  rewrite (proj2 (Z.ltb_ge _ _)) by lia. cbn [orb]. by wp_steps.
Qed.

Lemma check_container_ok w K (els : gmap string A) es (Q : option unit -> world E -> Prop) :
  argv (cli w) !! 1%nat = Some K -> cview suffix (srv w) K els es -> Q (Some tt) w ->
  wp (CHECK_CONTAINER_TYPE OBJ_ZSET) w Q.
Proof.
  intros Hk [_ Hz _] HQ. unfold CHECK_CONTAINER_TYPE. apply wp_bind, (wp_argv_at 1 K); [done|].
  apply wp_bind, wp_lookupKey. unfold zset_view in Hz.
  destruct (db (srv w) !! K) as [[h|z|t b1 b2]|]; try done; [rewrite decide_True by done|]; by wp_steps.
Qed.

Definition not_a_float : reply := RErr "value is not a valid float".

Lemma check_double_ok w i a (Q : option unit -> world E -> Prop) :
  argv (cli w) !! i = Some a -> prepareClientToWrite (cli w) = true ->
  match getDoubleFromObject a with
  | Some _ => Q (Some tt) w
  | None => Q None (mkWorld (srv w) (add_out (cli w) not_a_float) (capacity w))
  end -> wp (CHECK_ARG_TYPE_DOUBLE i) w Q.
Proof.
  intros Ha Hp HQ. unfold CHECK_ARG_TYPE_DOUBLE. apply wp_bind, (wp_argv_at i a); [done|]. apply wp_bind.
  unfold getDoubleFromObjectOrReply. destruct (getDoubleFromObject a); [by wp_steps|].
  apply wp_bind, wp_addReply. rewrite Hp. by wp_steps.
Qed.

Lemma still s K (els : gmap string A) es : cview suffix s K els es -> moved suffix s s K els es es 0.
Proof. intros H. split; [by split_and!|done|lia|lia]. Qed.

Lemma moved_then s s1 s2 K (els1 els2 : gmap string A) es es1 es2 c1 c2 :
  moved suffix s s1 K els1 es es1 c1 -> moved suffix s1 s2 K els2 es1 es2 c2 ->
  moved suffix s s2 K els2 es es2 (c1 + c2).
Proof.
  intros [(?&?&?&?) ???] [(?&?&?&?) ???]. split; [unfold same_conf; split_and!; congruence|done|lia|].
  assert (c2 * S (length es1 + c2) <= c2 * S (length es + (c1 + c2)))%nat by (apply Nat.mul_le_mono_l; lia).
  assert (c1 * S (length es + c1) <= c1 * S (length es + (c1 + c2)))%nat by (apply Nat.mul_le_mono_l; lia). lia.
Qed.

(** Calls on the sorted set can be made in two parts. *)
Lemma acts_ok_app s es a1 a2 : acts_ok s es (a1 ++ a2) -> acts_ok s es a1.
Proof.
  intros [Hs Hd Hp]. rewrite length_app in Hs, Hd. split; [lia| |].
  - etrans; [|exact Hd]. apply Nat.mul_le_mono; lia.
  - intros sc Hsc. apply Hp. apply elem_of_app. by left.
Qed.

Lemma acts_ok_rest w w' K (els : gmap string A) es es' a1 a2 :
  acts_ok (srv w) es (a1 ++ a2) -> step_to suffix w w' K els es es' (length a1) -> acts_ok (srv w') es' a2.
Proof.
  intros [Hs Hd Hp] Hst. pose proof (st_len _ _ _ _ _ _ _ _ Hst) as Hl. pose proof (st_draws _ _ _ _ _ _ _ _ Hst) as Hdr.
  rewrite length_app in Hs, Hd. split; [lia| |].
  - assert (length a2 * S (length es' + length a2) <= length a2 * S (length es + (length a1 + length a2)))%nat
      by (apply Nat.mul_le_mono_l; lia).
    assert (length a1 * S (length es + length a1) <= length a1 * S (length es + (length a1 + length a2)))%nat
      by (apply Nat.mul_le_mono_l; lia). lia.
  - intros sc Hsc. apply Hp. apply elem_of_app. by right.
Qed.

Lemma scores_follow_app es es1 es2 ele a1 a2 :
  scores_follow es es1 ele a1 -> scores_follow es1 es2 ele a2 -> scores_follow es es2 ele (a1 ++ a2).
Proof.
  intros H1 H2 k. rewrite H2, !H1. case_decide; [|done]. subst. rewrite decide_True by done.
  unfold zmirror. by rewrite foldl_app.
Qed.
End Checks.

Section Elements.
Context {A E : Type} `{!Cell A E}.
Context (suffix : string) (suffix_ne : suffix <> "").
(** How the queue makes a new element; it reads the configuration only. *)
Context (new : server E -> res A) (new_conf : forall s s', same_conf s s' -> new s' = new s).
Implicit Types (w : world E) (s : server E).

(** The element an operation finds. *)
Definition found s (els : gmap string A) (ele : string) : res A :=
  match els !! ele with Some e => Ok e | None => new s end.

Definition GET (arg : nat -> M E string) (create : bool) : M E (option nat) :=
  tname ← arg 1%nat; key ← arg 2%nat; rehHTGet tname suffix key create new.

Lemma get_at arg w K els es ele e :
  (forall i a, [""; K; ele] !! i = Some a -> (0 < i)%nat -> forall Q : option string -> world E -> Prop, Q (Some a) w -> wp (arg i) w Q) ->
  cview suffix (srv w) K els es -> found (srv w) els ele = Ok e ->
  wp (GET arg true) w (fun r w' => exists p,
    r = Some (Some p) /\ step_to suffix w w' K (<[ele := e]> els) es es 0 /\ points suffix (srv w') K ele p).
Proof using suffix_ne new_conf.
  intros Harg Hv He. unfold GET. apply wp_bind, (Harg 1%nat K); [done|lia|].
  apply wp_bind, (Harg 2%nat ele); [done|lia|]. eapply wp_mono.
  - apply (wp_get suffix suffix_ne w K els es ele _ e Hv). intros Hn s' Hs.
    unfold found in He. rewrite Hn in He. by rewrite (new_conf _ _ Hs).
  - intros r w' (p & -> & Hst & Hp). exists p. split_and!; try done. unfold found in He.
    destruct (els !! ele); [by injection He as ->|done].
Qed.

Lemma get_rargv w l n K els es ele e :
  rargv (cli w) = Some (l, n) -> l !! 1%nat = Some K -> l !! 2%nat = Some ele ->
  cview suffix (srv w) K els es -> found (srv w) els ele = Ok e ->
  wp (GET rargv_at true) w (fun r w' => exists p,
    r = Some (Some p) /\ step_to suffix w w' K (<[ele := e]> els) es es 0 /\ points suffix (srv w') K ele p).
Proof using suffix_ne new_conf.
  intros Hr H1 H2. apply get_at. intros i a Hi Hpos Q HQ.
  destruct i as [|[|[|i]]]; [lia| | |done]; injection Hi as <-; by eapply wp_rargv_at.
Qed.

Lemma get_argv w K els es ele e :
  argv (cli w) !! 1%nat = Some K -> argv (cli w) !! 2%nat = Some ele ->
  cview suffix (srv w) K els es -> found (srv w) els ele = Ok e ->
  wp (GET argv_at true) w (fun r w' => exists p,
    r = Some (Some p) /\ step_to suffix w w' K (<[ele := e]> els) es es 0 /\ points suffix (srv w') K ele p).
Proof using suffix_ne new_conf.
  intros H1 H2. apply get_at. intros i a Hi Hpos Q HQ.
  destruct i as [|[|[|i]]]; [lia| | |done]; injection Hi as <-; by eapply wp_argv_at.
Qed.

Lemma find_argv w K els es ele :
  argv (cli w) !! 1%nat = Some K -> argv (cli w) !! 2%nat = Some ele -> cview suffix (srv w) K els es ->
  wp (GET argv_at false) w (fun r w' => w' = w /\
    match els !! ele with
    | Some e => exists p, r = Some (Some p) /\ points suffix (srv w) K ele p
    | None => r = Some None
    end).
Proof.
  intros H1 H2 Hv. unfold GET. apply wp_bind, (wp_argv_at 1 K); [done|]. apply wp_bind, (wp_argv_at 2 ele); [done|].
  by apply (wp_find suffix w K els es).
Qed.

(** An element that is read, replaced by [e'] and followed by the sorted set. *)
Lemma wp_apply w K els es ele p e e' acts (k : M E unit) R :
  cview suffix (srv w) K els es -> points suffix (srv w) K ele p -> els !! ele = Some e -> acts_ok (srv w) es acts ->
  (forall w' es', step_to suffix w w' K (<[ele := e']> els) es es' (length acts) -> scores_follow es es' ele acts ->
     points suffix (srv w') K ele p -> wp k w' R) ->
  wp (_ ← store p e'; _ ← for_each acts (run_act K ele); k) w R.
Proof using suffix_ne.
  intros Hv Hp He Hok Hk. apply wp_bind. eapply (wp_store suffix); [done..|by eexists|]. intros w1 Hst1. apply wp_bind.
  assert (acts_ok (srv w1) es acts) as Hok1.
  { destruct Hok as [Hs Hd Hpr]. split; [done| |done]. pose proof (st_draws _ _ _ _ _ _ _ _ Hst1). lia. }
  eapply wp_mono; [apply (wp_run_acts suffix suffix_ne K _ ele acts w1 es (st_view _ _ _ _ _ _ _ _ Hst1) Hok1)|].
  intros r w2 (-> & es' & Hst2 & Hsc). apply (Hk w2 es'); [|done|].
  - exact (step_trans _ _ _ _ _ _ _ _ _ _ 0 _ Hst1 Hst2).
  - apply (st_points _ _ _ _ _ _ _ _ Hst2), (st_points _ _ _ _ _ _ _ _ Hst1), Hp.
Qed.
End Elements.

(** ** The frame of a command *)

Section Frame.
Context {E : Type}.
Implicit Types (w : world E) (c : client).

(** A client that sends [args] as its first command. *)
Definition sends (args : list string) c : Prop :=
  argv c = args /\ rargv c = None /\ is_replica c = false /\ replica_message c = false.

Lemma sends_reply args c : sends args c -> prepareClientToWrite c = true.
Proof. intros (_ & _ & Hi & _). unfold prepareClientToWrite. by rewrite Hi. Qed.

(** The client of an accepted command: nothing sent yet, [args] to broadcast. *)
Definition prepared_client (args : list string) c c' : Prop :=
  is_replica c' = false /\ replica_message c' = false /\ out c' = out c /\ argv c' = argv c /\
  exists n, rargv c' = Some (args, n).

Definition start_world w : world E :=
  mkWorld (srv w) (cli w) (Z.of_nat (length (argv (cli w))) + ADDITIONAL_CAPACITY).

(** A command at the replica it is issued at. *)
Lemma wp_issue pre eff args w Q :
  sends args (cli w) -> REPLICATION_MODE (srv w) = true ->
  wp pre (start_world w) (fun r w1 =>
    match r with
    | None => Q None w1
    | Some _ =>
        is_replica (cli w1) = false /\ replica_message (cli w1) = false /\ is_Some (rargv (cli w1)) /\
        wp eff (mkWorld (srv w1) (add_out (cli w1) ROk) (capacity w1)) (fun r w2 =>
          r = Some tt /\ replica_message (cli w2) = false /\ Q None w2)
    end) ->
  wp (crdt_command pre eff) w Q.
Proof.
  intros (Ha & Hr & Hi & Hm) Hmode Hpre. unfold crdt_command. wp_steps. rewrite Hmode. wp_steps. rewrite Hi. wp_steps.
  eapply wp_mono; [exact Hpre|]. intros [u|] w1 H1; [|done]. destruct H1 as (Hi1 & Hm1 & [[l n] Hr1] & Heff).
  wp_steps. apply wp_addReply. unfold prepareClientToWrite. rewrite Hi1. cbn [andb negb]. unfold init_if_null. wp_steps.
  cbn [rargv add_out]. rewrite Hr1. wp_steps. eapply wp_mono; [exact Heff|]. intros r w2 (-> & Hm2 & HQ).
  wp_steps. rewrite Hm2. by wp_steps.
Qed.

(** The same command arriving over a link. *)
Lemma wp_arrive pre eff w (Q : option unit -> world E -> Prop) :
  is_replica (cli w) = true -> REPLICATION_MODE (srv w) = true ->
  wp eff w (fun r w2 => r = Some tt /\ replica_message (cli w2) = false /\ Q None w2) ->
  wp (crdt_command pre eff) w Q.
Proof.
  intros Hi Hmode Heff. unfold crdt_command. wp_steps. rewrite Hmode. wp_steps. rewrite Hi. wp_steps.
  eapply wp_mono; [exact Heff|]. intros r w2 (-> & Hm2 & HQ). wp_steps. rewrite Hm2. by wp_steps.
Qed.

(** The arguments a prepare phase adds, when nothing was added before. *)
Lemma wp_add_strings args strs w w1 :
  sends args (cli w) -> cli w1 = cli w -> capacity w1 = capacity (start_world w) -> strs <> [] ->
  Z.of_nat (length args) + 2 * Z.of_nat (length strs) + ADDITIONAL_CAPACITY < 2 ^ 31 ->
  wp (for_each strs RARGV_ADD_SDS) w1 (fun r w2 =>
    r = Some tt /\ srv w2 = srv w1 /\ prepared_client (args ++ strs) (cli w) (cli w2)).
Proof.
  intros (Ha & Hr & Hi & Hm) Hc Hcap Hne Hlen.
  eapply wp_mono; [apply (wp_RARGV_all strs w1 [])|]; cbn [app].
  - unfold grown. by rewrite Hc, Hr, Hcap.
  - by rewrite Hc, Ha.
  - done.
  - intros r w2 (-> & [Hs2 Hc2] & _ & n & Hn). rewrite Hc in Hc2, Hn. rewrite Ha in Hn.
    injection Hc2 as Ha2 Hi2 Hm2 Ho2. split_and!; [done|done|]. split_and!; try congruence. eauto.
Qed.

Lemma wp_add_string args str w w1 :
  sends args (cli w) -> cli w1 = cli w -> capacity w1 = capacity (start_world w) ->
  Z.of_nat (length args) + 2 + ADDITIONAL_CAPACITY < 2 ^ 31 ->
  wp (RARGV_ADD_SDS str) w1 (fun r w2 =>
    r = Some tt /\ srv w2 = srv w1 /\ prepared_client (args ++ [str]) (cli w) (cli w2)).
Proof.
  intros Hs Hc Hcap Hlen. destruct (wp_add_strings args [str] w w1 Hs Hc Hcap) as (r & w2 & Hrun & HQ); [done|cbn; lia|].
  cbn [for_each] in Hrun. unfold mbind, M_bind in Hrun.
  destruct (RARGV_ADD_SDS str w1) as [[[[]|] w2']|] eqn:Hadd; [|by injection Hrun as <- <-; destruct HQ|done].
  injection Hrun as <- <-. by exists (Some tt), w2'.
Qed.
End Frame.

(** ** Commands of clients *)

(** What a client asks of a queue; the values are texts. *)
Inductive quser := QAdd (a : string) | QIncr (a : string) | QRem.

(** The arguments, for the names of the three commands. *)
Definition quser_args (nadd nincr nrem K ele : string) (u : quser) : list string :=
  match u with
  | QAdd a => [nadd; K; ele; a]
  | QIncr a => [nincr; K; ele; a]
  | QRem => [nrem; K; ele]
  end.

Lemma quser_key nadd nincr nrem K ele u l :
  (quser_args nadd nincr nrem K ele u ++ l) !! 1%nat = Some K /\ (quser_args nadd nincr nrem K ele u ++ l) !! 2%nat = Some ele.
Proof. by destruct u. Qed.

Lemma quser_args_length nadd nincr nrem K ele u : (3 <= length (quser_args nadd nincr nrem K ele u) <= 4)%nat.
Proof. destruct u; cbn; lia. Qed.

(** The reply to a command that is refused. *)
Definition quser_refused (u : quser) : reply :=
  match u with
  | QAdd a => match getDoubleFromObject a with Some _ => ele_exist | None => not_a_float end
  | QIncr a => match getDoubleFromObject a with Some _ => ele_nexist | None => not_a_float end
  | QRem => ele_nexist
  end.

(** The values clients send. *)
Definition quser_value (a : action quser) : option double :=
  match a with
  | Client _ _ (QAdd a) | Client _ _ (QIncr a) => getDoubleFromObject a
  | _ => None
  end.
