(* ===== verification/RzCmd.v ===== *)
(** * The remove-win priority queue: the commands of t_rzset.c

    [rzadd], [rzincrby] and [rzrem] stamp their operation with the next clock of
    the element; the effect executes it when it is causally ready and keeps it
    in the element otherwise. *)

From S2P Require Import Prelude Sds VectorClock Causal Double Exact ARSet RZset Util Score Skiplist.
From S2P Require Import Zset Store Crdt RwfzCmd.
From Stdlib Require Import Ascii.

Section Commands.
Context {E : Type} `{!Cell rze E}.
Notation M := (M E).

Definition RW_RPQ_TABLE_SUFFIX : string := "_rzets_".

(** [GET_RZE(argv, create)] and [GET_RZE(rargv, create)]. *)
Definition GET_RZE (arg : nat -> M string) (create : bool) : M (option nat) :=
  tname ← arg 1%nat;
  key ← arg 2%nat;
  rehHTGet tname RW_RPQ_TABLE_SUFFIX key create (fun s => rzeNew (p2p_count s) (p2p_id s)).

(** ** Effects *)

(** [addFunc], [increaseFunc] and [removeFunc] with the element at [p]: the
    change of the element, the calls on the sorted set, [server.dirty++]. *)
Definition rz_addFunc (p : nat) (tname key : string) (v : double) (t : vc) : M unit :=
  e ← load p;
  r ← lift (addFunc (rz_body e) v t);
  _ ← store p (mkRze r.1 (rz_ops e));
  _ ← for_each r.2 (run_act tname key);
  dirty_inc.

Definition rz_increaseFunc (p : nat) (tname key : string) (v : double) (t : vc) : M unit :=
  e ← load p;
  r ← lift (increaseFunc (rz_body e) v t);
  _ ← store p (mkRze r.1 (rz_ops e));
  _ ← for_each r.2 (run_act tname key);
  dirty_inc.

Definition rz_removeFunc (p : nat) (tname key : string) (t : vc) : M unit :=
  e ← load p;
  r ← lift (removeFunc (rz_body e) t);
  _ ← store p (mkRze r.1 (rz_ops e));
  _ ← for_each r.2 (run_act tname key);
  dirty_inc.

Definition rz_run (p : nat) (tname key : string) (c : rz_cmd) : M unit :=
  match rz_type c with
  | RZADD => rz_addFunc p tname key (rz_value c) (rz_t c)
  | RZINCBY => rz_increaseFunc p tname key (rz_value c) (rz_t c)
  | RZREM => rz_removeFunc p tname key (rz_t c)
  end.

(** [notifyLoop]: each round runs the first operation that is ready and takes it
    out of [ops]. *)
Fixpoint rz_notify (fuel : nat) (p : nat) (tname key : string) : M unit :=
  match fuel with
  | O => lift (Crash Diverges)
  | S fuel =>
      e ← load p;
      r ← lift (take_ready rz_t (rz_current (rz_body e)) (rz_ops e));
      match r with
      | None => skip
      | Some (cmd, rest) =>
          _ ← rz_run p tname key cmd;
          e ← load p;
          _ ← store p (mkRze (rz_body e) rest);
          rz_notify fuel p tname key
      end
  end.

Definition rz_notifyLoop (p : nat) (tname key : string) : M unit :=
  e ← load p; rz_notify (S (length (rz_ops e))) p tname key.

(** What the effects of the three commands do with their operation. *)
Definition rz_receive (p : nat) (tname key : string) (c : rz_cmd) : M unit :=
  e ← load p;
  b ← lift (vc_causally_ready (rz_current (rz_body e)) (rz_t c));
  if (b : bool) then
    _ ← rz_run p tname key c;
    rz_notifyLoop p tname key
  else store p (mkRze (rz_body e) (rz_ops e ++ [c])).

(** The clock at [rargv[i]] and the element. *)
Definition rz_stamp (i : nat) : M vc := s ← rargv_at i; lift (sdsToVC s).
Definition rz_value_arg : M double := a ← rargv_at 3; lift (of_option Uninitialised (getDoubleFromObject a)).

Definition rz_effect_with (c : rz_cmd) : M unit :=
  p ← GET_RZE rargv_at true;
  p ← not_null p;
  tname ← rargv_at 1;
  key ← rargv_at 2;
  rz_receive p tname key c.

Definition rzadd_effect : M unit := v ← rz_value_arg; t ← rz_stamp 4; rz_effect_with (rz_cmdNew RZADD v t).
Definition rzincrby_effect : M unit := v ← rz_value_arg; t ← rz_stamp 4; rz_effect_with (rz_cmdNew RZINCBY v t).
Definition rzrem_effect : M unit := t ← rz_stamp 3; rz_effect_with (rz_cmdNew RZREM dzero t).

(** ** Commands *)

(** [RARGV_ADD_SDS(vc_now(e->current))] *)
Definition rz_add_now (e : rze) : M unit := s ← lift (vc_now (rz_current (rz_body e))); RARGV_ADD_SDS s.

Definition rzadd_prepare : M unit :=
  _ ← CHECK_ARGC 4;
  _ ← CHECK_CONTAINER_TYPE OBJ_ZSET;
  _ ← CHECK_ARG_TYPE_DOUBLE 3;
  p ← GET_RZE argv_at true;
  p ← not_null p;
  e ← load p;
  if LOOKUP (rz_sets (rz_body e)) then _ ← addReply ele_exist; return_
  else rz_add_now e.

(** The end of the prepare phases that need the element. *)
Definition rz_need_element : M unit :=
  p ← GET_RZE argv_at false;
  match p with
  | None => _ ← addReply ele_nexist; return_
  | Some p =>
      e ← load p;
      if LOOKUP (rz_sets (rz_body e)) then rz_add_now e
      else _ ← addReply ele_nexist; return_
  end.

Definition rzincrby_prepare : M unit :=
  _ ← CHECK_ARGC 4;
  _ ← CHECK_CONTAINER_TYPE OBJ_ZSET;
  _ ← CHECK_ARG_TYPE_DOUBLE 3;
  rz_need_element.

Definition rzrem_prepare : M unit :=
  _ ← CHECK_ARGC 3;
  _ ← CHECK_CONTAINER_TYPE OBJ_ZSET;
  rz_need_element.

Definition rzaddCommand : M unit := crdt_command rzadd_prepare rzadd_effect.
Definition rzincrbyCommand : M unit := crdt_command rzincrby_prepare rzincrby_effect.
Definition rzremCommand : M unit := crdt_command rzrem_prepare rzrem_effect.
Definition rzscoreCommand : M unit := zscoreQuery.
Definition rzmaxCommand : M unit := zmaxQuery.
End Commands.
