(* ===== verification/OzCmd.v ===== *)
(** * The add-win priority queue: the commands of t_ozset.c

    [ozadd] tags its operation with a fresh Lamport clock; [ozincrby] and
    [ozrem] carry the tags of the adds they saw. *)

From S2P Require Import Prelude Sds LamportClock Double Exact OZset Util Score Skiplist.
From S2P Require Import Zset Store Crdt RwfzCmd.
From Stdlib Require Import Ascii.

Section Commands.
Context {E : Type} `{!Cell oze E}.
Notation M := (M E).

Definition ORI_RPQ_TABLE_SUFFIX : string := "_ozets_".

(** [GET_OZE(argv, create)] and [GET_OZE(rargv, create)]. *)
Definition GET_OZE (arg : nat -> M string) (create : bool) : M (option nat) :=
  tname ← arg 1%nat;
  key ← arg 2%nat;
  rehHTGet tname ORI_RPQ_TABLE_SUFFIX key create (fun _ => Ok ozeNew).

(** ** Effects *)

(** [sdsToLc] of [rargv[i]], [rargv[i + 1]], ... *)
Definition oz_tags_from (i : nat) : M (list lc) := l ← rargs; lift (foldM (fun ts s => t ← sdsToLc s; Ok (ts ++ [t])) [] (drop i l)).

Definition oz_value_arg : M double := a ← rargv_at 3; lift (of_option Uninitialised (getDoubleFromObject a)).

(** The element changes, the sorted set follows, [server.dirty++]. *)
Definition oz_apply (f : oze -> res (oze * list zact)) : M unit :=
  p ← GET_OZE rargv_at true;
  p ← not_null p;
  e ← load p;
  r ← lift (f e);
  _ ← store p r.1;
  tname ← rargv_at 1;
  key ← rargv_at 2;
  _ ← for_each r.2 (run_act tname key);
  dirty_inc.

Definition ozadd_run : M unit :=
  v ← oz_value_arg;
  s ← rargv_at 4;
  t ← lift (sdsToLc s);
  oz_apply (fun e => ozadd_effect e t v).

Definition ozincrby_run : M unit :=
  v ← oz_value_arg;
  ts ← oz_tags_from 4;
  oz_apply (fun e => ozincrby_effect e ts v).

Definition ozrem_run : M unit :=
  ts ← oz_tags_from 3;
  oz_apply (fun e => ozrem_effect e ts).

(** ** Commands *)

(** [lc_new(e->current)] and [e->current++]. *)
Definition oz_new_tag (id : Z) (e : oze) : lc * oze :=
  (_lc_new (oz_current e) id,
   mkOze (i32 (oz_current e + 1)) (oz_innate e) (oz_acquired e) (oz_aset e) (oz_rset e) (oz_fresh e)).

Definition ozadd_prepare : M unit :=
  _ ← CHECK_ARGC 4;
  _ ← CHECK_CONTAINER_TYPE OBJ_ZSET;
  _ ← CHECK_ARG_TYPE_DOUBLE 3;
  p ← GET_OZE argv_at true;
  p ← not_null p;
  e ← load p;
  if LOOKUP e then _ ← addReply ele_exist; return_
  else
    s ← get_srv;
    let '(t, e) := oz_new_tag (p2p_id s) e in
    _ ← store p e;
    RARGV_ADD_SDS (lcToSds t).

(** The end of the prepare phases that need the element: the tags of all its
    adds are broadcast. *)
Definition oz_need_element : M unit :=
  p ← GET_OZE argv_at false;
  match p with
  | None => _ ← addReply ele_nexist; return_
  | Some p =>
      e ← load p;
      if LOOKUP e then for_each (oz_aset e) (fun pa => RARGV_ADD_SDS (lcToSds (oz_t pa.2)))
      else _ ← addReply ele_nexist; return_
  end.

Definition ozincrby_prepare : M unit :=
  _ ← CHECK_ARGC 4;
  _ ← CHECK_CONTAINER_TYPE OBJ_ZSET;
  _ ← CHECK_ARG_TYPE_DOUBLE 3;
  oz_need_element.

Definition ozrem_prepare : M unit :=
  _ ← CHECK_ARGC 3;
  _ ← CHECK_CONTAINER_TYPE OBJ_ZSET;
  oz_need_element.

Definition ozaddCommand : M unit := crdt_command ozadd_prepare ozadd_run.
Definition ozincrbyCommand : M unit := crdt_command ozincrby_prepare ozincrby_run.
Definition ozremCommand : M unit := crdt_command ozrem_prepare ozrem_run.
Definition ozscoreCommand : M unit := zscoreQuery.
Definition ozmaxCommand : M unit := zmaxQuery.
End Commands.
