(* ===== verification/RzSpec.v ===== *)
(** * Remove-win queue: the commands refine the functions on elements

    The effect phases execute exactly what [RZset] says on the element, also
    the operations that waited for it, and pass the calls on to the sorted set;
    the prepare phases accept or refuse and stamp the operation. *)

From S2P Require Import Prelude Sds VectorClock Causal Double Exact ARSet RZset Util Score Skiplist SkiplistSpec.
From S2P Require Import Zset ZsetSpec Store Crdt Container RwfzCmd QueueSpec RzCmd.
From Stdlib Require Import Ascii.

#[local] Arguments sdsToVC : simpl never.
#[local] Arguments getDoubleFromObject : simpl never.

Section Spec.
Context {E : Type} `{!Cell rze E}.
Implicit Types (w : world E) (s : server E).
Notation suffix := RW_RPQ_TABLE_SUFFIX.
Notation cview := (cview suffix).
Notation points := (points suffix).
Notation step_to := (step_to suffix).

Lemma rz_suffix_ne : suffix <> "".
Proof. done. Qed.

Definition rz_new s : res rze := rzeNew (p2p_count s) (p2p_id s).

Lemma rz_new_conf s s' : same_conf s s' -> rz_new s' = rz_new s.
Proof. intros (Hc & Hi & _). unfold rz_new. by rewrite Hc, Hi. Qed.

(** ** Executing operations *)

Lemma rz_exec_acc b acts c :
  rz_exec (b, acts) c = (r ← rz_exec (b, []) c; Ok (r.1, acts ++ r.2)).
Proof.
  unfold rz_exec. destruct (rz_type c); (destruct (addFunc _ _ _) as [[? ?]|] + destruct (increaseFunc _ _ _) as [[? ?]|] + destruct (removeFunc _ _) as [[? ?]|]); done.
Qed.

Lemma wp_rz_run w K els es ele p b ops c b' acts :
  cview (srv w) K els es -> points (srv w) K ele p -> els !! ele = Some (mkRze b ops) ->
  rz_exec (b, []) c = Ok (b', acts) -> acts_ok (srv w) es acts ->
  wp (rz_run p K ele c) w (fun r w' => r = Some tt /\ points (srv w') K ele p /\
    exists es', step_to w w' K (<[ele := mkRze b' ops]> els) es es' (length acts) /\ scores_follow es es' ele acts).
Proof.
  intros Hv Hp He Hx Hok.
  assert (wp (e ← load p; r ← lift (match rz_type c with
                                    | RZADD => addFunc (rz_body e) (rz_value c) (rz_t c)
                                    | RZINCBY => increaseFunc (rz_body e) (rz_value c) (rz_t c)
                                    | RZREM => removeFunc (rz_body e) (rz_t c)
                                    end);
              _ ← store p (mkRze r.1 (rz_ops e)); _ ← for_each r.2 (run_act K ele); dirty_inc) w
    (fun r w' => r = Some tt /\ points (srv w') K ele p /\
    exists es', step_to w w' K (<[ele := mkRze b' ops]> els) es es' (length acts) /\ scores_follow es es' ele acts)) as H.
  { apply wp_bind. eapply (wp_load suffix); [done..|]. apply wp_bind. cbn [rz_body rz_ops].
    eapply wp_lift with (a := (b', acts)).
    { unfold rz_exec in Hx. destruct (rz_type c);
        (destruct (addFunc _ _ _) as [[? ?]|] + destruct (increaseFunc _ _ _) as [[? ?]|] + destruct (removeFunc _ _) as [[? ?]|]);
        cbn in Hx; by simplify_eq. }
    cbn [fst snd]. eapply (wp_apply suffix rz_suffix_ne); [done..|]. intros w' es' Hst Hsc Hp'.
    apply wp_dirty_inc. split_and!; [done|done|]. exists es'. split; [|done]. by apply step_dirty. }
  unfold rz_run. by destruct (rz_type c).
Qed.

(** The result of running the element functions on an element of a container:
    [e'] in place of the element, the sorted set after [acts]. *)
Definition rz_result w w' (K ele : string) (els : gmap string rze) (es : list zentry) (p : nat) (e' : rze) (acts : list zact) : Prop :=
  points (srv w') K ele p /\
  exists es', step_to w w' K (<[ele := e']> els) es es' (length acts) /\ scores_follow es es' ele acts.

Lemma rz_result_trans w w1 w2 K ele els es es1 p e1 e2 a1 a2 :
  step_to w w1 K (<[ele := e1]> els) es es1 (length a1) -> scores_follow es es1 ele a1 ->
  rz_result w1 w2 K ele (<[ele := e1]> els) es1 p e2 a2 -> rz_result w w2 K ele els es p e2 (a1 ++ a2).
Proof.
  intros Hst Hsc (Hp & es2 & Hst2 & Hsc2). split; [done|]. exists es2. rewrite insert_insert_eq in Hst2. split.
  - rewrite length_app. exact (step_trans _ _ _ _ _ _ _ _ _ _ _ _ Hst Hst2).
  - by eapply scores_follow_app.
Qed.

Lemma rz_result_refl w K ele els es p e :
  cview (srv w) K els es -> points (srv w) K ele p -> els !! ele = Some e -> rz_result w w K ele els es p e [].
Proof.
  intros Hv Hp He. split; [done|]. exists es. rewrite insert_id by done. split; [by apply step_refl|].
  intros k. case_decide; by subst.
Qed.

(** [notifyLoop] runs what [notify_rounds] says. *)
Lemma wp_rz_notify K ele p fuel : forall b acts0 ops b' acts' ops',
  notify_rounds rz_t st_current rz_exec fuel (b, acts0) ops = Ok (b', acts', ops') ->
  exists acts, acts' = acts0 ++ acts /\ forall w els es,
    cview (srv w) K els es -> points (srv w) K ele p -> els !! ele = Some (mkRze b ops) -> acts_ok (srv w) es acts ->
    wp (rz_notify fuel p K ele) w (fun r w' => r = Some tt /\ rz_result w w' K ele els es p (mkRze b' ops') acts).
Proof.
  induction fuel as [|fuel IH]; intros b acts0 ops b' acts' ops' Hn; [done|]. cbn [notify_rounds] in Hn.
  change (st_current (b, acts0)) with (rz_current b) in Hn.
  destruct (take_ready rz_t (rz_current b) ops) as [[[c rest]|]|] eqn:Ht; [..|done]; cbn [mbind res_bind] in Hn.
  - rewrite rz_exec_acc in Hn. destruct (rz_exec (b, []) c) as [[b1 a1]|] eqn:Hx; [|done]. cbn [mbind res_bind fst snd] in Hn.
    destruct (IH _ _ _ _ _ _ Hn) as (a2 & -> & Hrun). exists (a1 ++ a2). split; [by rewrite app_assoc|].
    intros w els es Hv Hp He Hok. cbn [rz_notify]. apply wp_bind. eapply (wp_load suffix); [done..|].
    cbn [rz_body rz_ops]. apply wp_bind. eapply wp_lift; [exact Ht|]. apply wp_bind.
    eapply wp_mono; [eapply (wp_rz_run w K els es ele p b ops c b1 a1); try done; by eapply acts_ok_app|].
    intros r w1 (-> & Hp1 & es1 & Hst1 & Hsc1). apply wp_bind.
    eapply (wp_load suffix); [apply (st_view _ _ _ _ _ _ _ _ Hst1)|done|by rewrite lookup_insert_eq|]. cbn [rz_body].
    apply wp_bind. eapply (wp_store suffix); [apply (st_view _ _ _ _ _ _ _ _ Hst1)|done|by rewrite lookup_insert_eq|].
    intros w2 Hst2. rewrite insert_insert_eq in Hst2.
    pose proof (step_trans _ _ _ _ _ _ _ _ _ _ _ 0 Hst1 Hst2) as Hst12. rewrite Nat.add_0_r in Hst12.
    eapply wp_mono; [apply (Hrun w2 (<[ele := mkRze b1 rest]> els) es1)|].
    + apply (st_view _ _ _ _ _ _ _ _ Hst2).
    + by apply (st_points _ _ _ _ _ _ _ _ Hst2).
    + by rewrite lookup_insert_eq.
    + by eapply acts_ok_rest.
    + intros r w3 [-> Hres]. split; [done|]. by eapply rz_result_trans.
  - injection Hn as <- <- <-. exists []. split; [by rewrite app_nil_r|]. intros w els es Hv Hp He Hok. cbn [rz_notify].
    apply wp_bind. eapply (wp_load suffix); [done..|]. cbn [rz_body rz_ops]. apply wp_bind. eapply wp_lift; [exact Ht|].
    apply wp_skip. split; [done|]. by apply rz_result_refl.
Qed.

(** The effect of one operation refines [rz_effect]. *)
Lemma wp_rz_receive w K ele els es p e c e' acts :
  cview (srv w) K els es -> points (srv w) K ele p -> els !! ele = Some e -> rz_effect (e, []) c = Ok (e', acts) ->
  acts_ok (srv w) es acts ->
  wp (rz_receive p K ele c) w (fun r w' => r = Some tt /\ rz_result w w' K ele els es p e' acts).
Proof.
  intros Hv Hp He Heff Hok. unfold rz_effect in Heff. unfold rz_receive. apply wp_bind. eapply (wp_load suffix); [done..|].
  destruct (vc_causally_ready _ _) as [[]|] eqn:Hr; cbn [mbind res_bind] in Heff; [..|done].
  - destruct e as [b ops]. cbn [rz_body rz_ops] in *.
    destruct (rz_exec (b, []) c) as [[b1 a1]|] eqn:Hx; [|done]. cbn [mbind res_bind] in Heff.
    unfold notifyLoop, notify_loop in Heff.
    destruct (notify_rounds _ _ _ _ _ _) as [[[b2 a'] ops']|] eqn:Hn; [|done]. cbn [mbind res_bind] in Heff. injection Heff as <- <-.
    destruct (wp_rz_notify K ele p _ _ _ _ _ _ _ Hn) as (a2 & -> & Hrun).
    apply wp_bind. eapply wp_lift; [reflexivity|]. apply wp_bind.
    eapply wp_mono; [eapply (wp_rz_run w K els es ele p b ops c b1 a1); try done; by eapply acts_ok_app|].
    intros r w1 (-> & Hp1 & es1 & Hst1 & Hsc1). unfold rz_notifyLoop. apply wp_bind.
    eapply (wp_load suffix); [apply (st_view _ _ _ _ _ _ _ _ Hst1)|done|by rewrite lookup_insert_eq|]. cbn [rz_ops].
    eapply wp_mono; [apply (Hrun w1 (<[ele := mkRze b1 ops]> els) es1)|].
    + apply (st_view _ _ _ _ _ _ _ _ Hst1).
    + done.
    + by rewrite lookup_insert_eq.
    + by eapply acts_ok_rest.
    + intros r w2 [-> Hres]. split; [done|]. by eapply rz_result_trans.
  - injection Heff as <- <-. apply wp_bind. eapply wp_lift; [reflexivity|].
    eapply (wp_store suffix); [done..|by eexists|]. intros w1 Hst1. split; [done|]. split; [by apply (st_points _ _ _ _ _ _ _ _ Hst1)|].
    exists es. split; [done|]. intros k. case_decide; by subst.
Qed.

(** ** Messages *)

Definition rz_effect_cmd (c : rz_cmd) : M E unit :=
  match rz_type c with RZADD => rzadd_effect | RZINCBY => rzincrby_effect | RZREM => rzrem_effect end.

(** The operation a list of broadcast arguments stands for. *)
Definition rz_msg (l : list string) (K ele : string) (c : rz_cmd) : Prop :=
  l !! 1%nat = Some K /\ l !! 2%nat = Some ele /\
  match rz_type c with
  | RZREM => rz_value c = dzero /\ exists str, l !! 3%nat = Some str /\ sdsToVC str = Ok (rz_t c)
  | _ => (exists a, l !! 3%nat = Some a /\ getDoubleFromObject a = Some (rz_value c)) /\
         exists str, l !! 4%nat = Some str /\ sdsToVC str = Ok (rz_t c)
  end.

Lemma wp_rz_stamp i w l n str t (Q : option vc -> world E -> Prop) :
  rargv (cli w) = Some (l, n) -> l !! i = Some str -> sdsToVC str = Ok t -> Q (Some t) w -> wp (rz_stamp i) w Q.
Proof. intros Hr Hi Ht HQ. unfold rz_stamp. apply wp_bind. eapply wp_rargv_at; [done..|]. by eapply wp_lift. Qed.

Lemma wp_rz_value w l n a v (Q : option double -> world E -> Prop) :
  rargv (cli w) = Some (l, n) -> l !! 3%nat = Some a -> getDoubleFromObject a = Some v -> Q (Some v) w ->
  wp rz_value_arg w Q.
Proof.
  intros Hr Hi Hd HQ. unfold rz_value_arg. apply wp_bind. eapply wp_rargv_at; [done..|]. rewrite Hd. by eapply wp_lift.
Qed.

Lemma wp_rz_effect w l n c K ele els es e e' acts :
  rargv (cli w) = Some (l, n) -> rz_msg l K ele c -> cview (srv w) K els es -> found rz_new (srv w) els ele = Ok e ->
  rz_effect (e, []) c = Ok (e', acts) -> acts_ok (srv w) es acts ->
  wp (rz_effect_cmd c) w (fun r w' => r = Some tt /\
    exists es', step_to w w' K (<[ele := e']> els) es es' (length acts) /\ scores_follow es es' ele acts).
Proof.
  intros Hr (H1 & H2 & Hm) Hv He Heff Hok.
  assert (wp (rz_effect_with c) w (fun r w' => r = Some tt /\
    exists es', step_to w w' K (<[ele := e']> els) es es' (length acts) /\ scores_follow es es' ele acts)) as Hwith.
  { unfold rz_effect_with. apply wp_bind.
    eapply wp_mono; [eapply (get_rargv suffix rz_suffix_ne rz_new rz_new_conf w l n K els es ele e); done|].
    intros r w1 (p & -> & Hst1 & Hp1). apply wp_bind. apply (wp_lift _ p); [done|].
    apply wp_bind, (wp_rargv_at 1 l n K); [by rewrite (st_cli _ _ _ _ _ _ _ _ Hst1)|done|].
    apply wp_bind, (wp_rargv_at 2 l n ele); [by rewrite (st_cli _ _ _ _ _ _ _ _ Hst1)|done|].
    eapply wp_mono; [eapply (wp_rz_receive w1 K ele (<[ele := e]> els) es p e c e' acts)|].
    - apply (st_view _ _ _ _ _ _ _ _ Hst1).
    - done.
    - by rewrite lookup_insert_eq.
    - done.
    - by apply (acts_ok_rest suffix w w1 K (<[ele := e]> els) es es []).
    - intros r w2 (-> & _ & es2 & Hst2 & Hsc2). split; [done|]. exists es2. rewrite insert_insert_eq in Hst2.
      split; [exact (step_trans _ _ _ _ _ _ _ _ _ _ 0 _ Hst1 Hst2)|done]. }
  unfold rz_effect_cmd. destruct c as [ty v t]. cbn [rz_type rz_value rz_t] in *. destruct ty.
  - destruct Hm as ((a & Ha & Hd) & str & Hs & Hc). apply wp_bind. eapply wp_rz_value; [done..|].
    apply wp_bind. by eapply wp_rz_stamp.
  - destruct Hm as ((a & Ha & Hd) & str & Hs & Hc). apply wp_bind. eapply wp_rz_value; [done..|].
    apply wp_bind. by eapply wp_rz_stamp.
  - destruct Hm as (-> & str & Hs & Hc). apply wp_bind. by eapply wp_rz_stamp.
Qed.

(** ** Commands of clients *)

Definition rz_args : string -> string -> quser -> list string := quser_args "rzadd" "rzincrby" "rzrem".

Definition rz_prepare (u : quser) : M E unit :=
  match u with QAdd _ => rzadd_prepare | QIncr _ => rzincrby_prepare | QRem => rzrem_prepare end.

Definition rz_command (u : quser) : M E unit :=
  match u with QAdd _ => rzaddCommand | QIncr _ => rzincrbyCommand | QRem => rzremCommand end.

(** The clock one event later: the replica's own entry incremented. *)
Definition rz_tick (c : vc) : vc := mkVc (<[Z.to_nat (vid c) := entry (vector c) (vid c) + 1]> (vector c)) (vid c).

Definition rz_present (e : rze) : bool := LOOKUP (rz_sets (rz_body e)).
Definition rz_clock (e : rze) : vc := rz_current (rz_body e).

(** What the command asks for when it is accepted. *)
Definition rz_user (e : rze) (u : quser) : option rz_cmd :=
  match u with
  | QAdd a => v ← getDoubleFromObject a; if rz_present e then None else Some (rz_cmdNew RZADD v (rz_tick (rz_clock e)))
  | QIncr a => v ← getDoubleFromObject a; if rz_present e then Some (rz_cmdNew RZINCBY v (rz_tick (rz_clock e))) else None
  | QRem => if rz_present e then Some (rz_cmdNew RZREM dzero (rz_tick (rz_clock e))) else None
  end.

Lemma rz_now N e :
  wf_vc N (rz_clock e) -> (0 < N <= VC_INT_BUF)%nat ->
  exists str, vc_now (rz_clock e) = Ok str /\ sdsToVC str = Ok (rz_tick (rz_clock e)).
Proof.
  intros Hwf HN. pose proof (wf_id _ _ Hwf) as Hid. pose proof (wf_size _ _ Hwf) as Hsz.
  destruct (lookup_lt_is_Some_2 (vector (rz_clock e)) (Z.to_nat (vid (rz_clock e)))) as [x Hx]; [lia|].
  destruct (vc_now_spec N _ x Hwf HN Hx) as (str & Hn & Hs). exists str. split; [done|]. rewrite Hs.
  unfold rz_tick, entry. by rewrite Hx.
Qed.

(** A prepare phase refuses and changes nothing, or leaves the stamped operation
    to broadcast. *)
Definition rz_prepared w w1 (r : option unit) (K ele : string) (els : gmap string rze) (es : list zentry) (e : rze) (u : quser) : Prop :=
  match rz_user e u with
  | None => r = None /\ moved suffix (srv w) (srv w1) K els es es 0 /\ cli w1 = add_out (cli w) (quser_refused u)
  | Some c => r = Some tt /\ moved suffix (srv w) (srv w1) K (<[ele := e]> els) es es 0 /\
      exists str, sdsToVC str = Ok (rz_t c) /\ prepared_client (rz_args K ele u ++ [str]) (cli w) (cli w1)
  end.

Lemma wp_rz_add_now w w1 K ele els es e u N c :
  sends (rz_args K ele u) (cli w) -> step_to (start_world w) w1 K (<[ele := e]> els) es es 0 ->
  wf_vc N (rz_clock e) -> (0 < N <= VC_INT_BUF)%nat -> rz_user e u = Some c -> rz_t c = rz_tick (rz_clock e) ->
  wp (rz_add_now e) w1 (fun r w2 => rz_prepared w w2 r K ele els es e u).
Proof.
  intros Hs Hst Hwf HN Hu Ht. destruct (rz_now N e Hwf HN) as (str & Hn & Hstr). unfold rz_add_now.
  apply wp_bind. eapply wp_lift; [exact Hn|].
  eapply wp_mono; [eapply (wp_add_string (rz_args K ele u) str w w1 Hs)|].
  - apply (st_cli _ _ _ _ _ _ _ _ Hst).
  - apply (st_cap _ _ _ _ _ _ _ _ Hst).
  - pose proof (quser_args_length "rzadd" "rzincrby" "rzrem" K ele u). unfold ADDITIONAL_CAPACITY, rz_args. lia.
  - intros r w2 (-> & Hs2 & Hc2). unfold rz_prepared. rewrite Hu, Hs2. split_and!; [done| |].
    + exact (step_moved _ _ _ _ _ _ _ _ Hst).
    + exists str. by rewrite Ht.
Qed.

Lemma rz_new_hidden s e : rz_new s = Ok e -> rz_present e = false.
Proof. unfold rz_new, rzeNew. destruct (_vc_new _ _); [|done]. by intros [= <-]. Qed.

Lemma wp_rz_need w K ele els es e u N :
  sends (rz_args K ele u) (cli w) -> cview (srv w) K els es -> found rz_new (srv w) els ele = Ok e ->
  wf_vc N (rz_clock e) -> (0 < N <= VC_INT_BUF)%nat -> quser_refused u = ele_nexist ->
  (rz_present e = false -> rz_user e u = None) ->
  (rz_present e = true -> exists c, rz_user e u = Some c /\ rz_t c = rz_tick (rz_clock e)) ->
  wp rz_need_element (start_world w) (fun r w2 => rz_prepared w w2 r K ele els es e u).
Proof.
  intros Hs Hv He Hwf HN Href Hno Hyes. pose proof Hs as (Ha & _). pose proof (sends_reply _ _ Hs) as Hrep.
  destruct (quser_key "rzadd" "rzincrby" "rzrem" K ele u []) as [H1 H2]. rewrite app_nil_r in H1, H2.
  assert (rz_user e u = None -> wp (_ ← addReply ele_nexist; return_) (start_world w)
            (fun r w2 => rz_prepared w w2 r K ele els es e u)) as Hrefuse.
  { intros Hu. apply wp_bind, wp_addReply. cbn [cli start_world]. rewrite Hrep. wp_steps. unfold rz_prepared.
    rewrite Hu, Href. split_and!; [done|by apply still|done]. }
  unfold rz_need_element. apply wp_bind.
  eapply wp_mono; [apply (find_argv suffix rz_new (start_world w) K els es ele); cbn [cli start_world srv]; by rewrite ?Ha|].
  intros r w1 [-> Hf]. unfold found in He. destruct (els !! ele) as [e0|] eqn:Hl.
  - injection He as ->. destruct Hf as (p & -> & Hp). apply wp_bind. eapply (wp_load suffix); [done..|].
    destruct (LOOKUP (rz_sets (rz_body e))) eqn:Hx.
    + destruct (Hyes Hx) as (c & Hc & Ht). eapply wp_rz_add_now; try done. rewrite insert_id by done. by apply step_refl.
    + by apply Hrefuse, Hno.
  - subst r. by apply Hrefuse, Hno, (rz_new_hidden (srv w)).
Qed.

Lemma wp_rz_prepare w K ele els es e u N :
  sends (rz_args K ele u) (cli w) -> cview (srv w) K els es -> found rz_new (srv w) els ele = Ok e ->
  wf_vc N (rz_clock e) -> (0 < N <= VC_INT_BUF)%nat ->
  wp (rz_prepare u) (start_world w) (fun r w2 => rz_prepared w w2 r K ele els es e u).
Proof.
  intros Hs Hv He Hwf HN. pose proof Hs as (Ha & _). pose proof (sends_reply _ _ Hs) as Hrep.
  assert (argv (cli (start_world w)) !! 1%nat = Some K /\ argv (cli (start_world w)) !! 2%nat = Some ele) as [H1 H2]
    by (cbn [cli start_world]; rewrite Ha; by destruct u).
  assert (forall a, (exists b, u = QAdd b /\ a = b) \/ (exists b, u = QIncr b /\ a = b) -> getDoubleFromObject a = None ->
    rz_prepared w (mkWorld (srv w) (add_out (cli w) not_a_float) (capacity (start_world w))) None K ele els es e u) as Hbad.
  { intros a Hu Hd. unfold rz_prepared. destruct Hu as [(b & -> & ->)|(b & -> & ->)]; cbn [rz_user quser_refused]; rewrite Hd;
      cbn [mbind option_bind]; (split_and!; [done|by apply still|done]). }
  destruct u as [a|a|]; cbn [rz_prepare]; unfold rzadd_prepare, rzincrby_prepare, rzrem_prepare;
    (apply wp_bind, check_argc_ok; [cbn [cli start_world]; rewrite Ha; cbn; lia|]);
    (apply wp_bind, (check_container_ok suffix _ K els es); [done|done|]).
  - apply wp_bind, (check_double_ok _ 3 a); [cbn [cli start_world]; by rewrite Ha|done|].
    destruct (getDoubleFromObject a) as [v|] eqn:Hd; [|apply (Hbad a); [by left; exists a|done]].
    apply wp_bind. eapply wp_mono; [eapply (get_argv suffix rz_suffix_ne rz_new rz_new_conf); done|].
    intros r w1 (p & -> & Hst & Hp). apply wp_bind. apply (wp_lift _ p); [done|]. apply wp_bind.
    eapply (wp_load suffix); [apply (st_view _ _ _ _ _ _ _ _ Hst)|done|by rewrite lookup_insert_eq|].
    destruct (LOOKUP (rz_sets (rz_body e))) eqn:Hx.
    + apply wp_bind, wp_addReply. rewrite (st_cli _ _ _ _ _ _ _ _ Hst). cbn [cli start_world]. rewrite Hrep. wp_steps.
      unfold rz_prepared. cbn [rz_user quser_refused]. rewrite Hd. cbn [mbind option_bind]. unfold rz_present. rewrite Hx.
      split_and!; [done| |done]. pose proof (step_moved _ _ _ _ _ _ _ _ Hst) as Hmv. unfold found in He.
      destruct (els !! ele) as [e0|] eqn:Hl; [injection He as ->; by rewrite insert_id in Hmv|].
      apply rz_new_hidden in He. unfold rz_present in He. congruence.
    + eapply (wp_rz_add_now w w1 K ele els es e (QAdd a) N (rz_cmdNew RZADD v (rz_tick (rz_clock e)))); try done. cbn [rz_user]. rewrite Hd. cbn [mbind option_bind]. unfold rz_present. by rewrite Hx.
  - apply wp_bind, (check_double_ok _ 3 a); [cbn [cli start_world]; by rewrite Ha|done|].
    destruct (getDoubleFromObject a) as [v|] eqn:Hd; [|apply (Hbad a); [by right; exists a|done]].
    eapply (wp_rz_need w K ele els es e (QIncr a) N); try done; cbn [rz_user quser_refused]; rewrite Hd; cbn [mbind option_bind];
      [done|by intros ->|intros ->; eauto].
  - eapply (wp_rz_need w K ele els es e QRem N); try done; cbn [rz_user]; [by intros ->|intros ->; eauto].
Qed.

Lemma rz_user_msg K ele u e c str :
  rz_user e u = Some c -> sdsToVC str = Ok (rz_t c) -> rz_msg (rz_args K ele u ++ [str]) K ele c.
Proof.
  intros Hu Hs. unfold rz_msg, rz_args. destruct (quser_key "rzadd" "rzincrby" "rzrem" K ele u [str]) as [-> ->].
  destruct u as [a|a|]; cbn [rz_user] in Hu.
  - destruct (getDoubleFromObject a) as [v|] eqn:Hd; [|done]. cbn in Hu. destruct (rz_present e); [done|].
    injection Hu as <-. cbn. split_and!; eauto.
  - destruct (getDoubleFromObject a) as [v|] eqn:Hd; [|done]. cbn in Hu. destruct (rz_present e); [|done].
    injection Hu as <-. cbn. split_and!; eauto.
  - destruct (rz_present e); [|done]. injection Hu as <-. cbn. split_and!; eauto.
Qed.

Lemma rz_command_shape e u :
  match rz_user e u with
  | Some c => rz_command u = crdt_command (rz_prepare u) (rz_effect_cmd c)
  | None => exists eff, rz_command u = crdt_command (rz_prepare u) eff
  end.
Proof.
  destruct u as [a|a|]; cbn [rz_user].
  - destruct (getDoubleFromObject a); cbn; [destruct (rz_present e)|]; by try eexists.
  - destruct (getDoubleFromObject a); cbn; [destruct (rz_present e)|]; by try eexists.
  - destruct (rz_present e); by try eexists.
Qed.

(** What a command does at the replica it is issued at. *)
Definition rz_local_ok w w' (K ele : string) (els : gmap string rze) (es : list zentry) (e : rze) (u : quser) : Prop :=
  is_replica (cli w') = false /\
  match rz_user e u with
  | None =>
      rargv (cli w') = None /\ out (cli w') = out (cli w) ++ [quser_refused u] /\
      moved suffix (srv w) (srv w') K els es es 0
  | Some c =>
      exists str n e' acts es', sdsToVC str = Ok (rz_t c) /\ rargv (cli w') = Some (rz_args K ele u ++ [str], n) /\
        out (cli w') = out (cli w) ++ [ROk] /\ rz_effect (e, []) c = Ok (e', acts) /\
        moved suffix (srv w) (srv w') K (<[ele := e']> els) es es' (length acts) /\ scores_follow es es' ele acts
  end.

Lemma moved_acts s s' K els es acts :
  moved suffix s s' K els es es 0 -> acts_ok s es acts -> acts_ok s' es acts.
Proof. intros [_ _ _ Hd] [? Hdr ?]. split; [done|lia|done]. Qed.

Lemma wp_rz_local w K ele els es e u N :
  sends (rz_args K ele u) (cli w) -> REPLICATION_MODE (srv w) = true -> cview (srv w) K els es ->
  found rz_new (srv w) els ele = Ok e -> wf_vc N (rz_clock e) -> (0 < N <= VC_INT_BUF)%nat ->
  (forall c, rz_user e u = Some c -> exists e' acts, rz_effect (e, []) c = Ok (e', acts) /\ acts_ok (srv w) es acts) ->
  wp (rz_command u) w (fun r w' => r = None /\ rz_local_ok w w' K ele els es e u).
Proof.
  intros Hs Hmode Hv He Hwf HN Heff. pose proof (rz_command_shape e u) as Hshape.
  pose proof (wp_rz_prepare w K ele els es e u N Hs Hv He Hwf HN) as Hpre. unfold rz_prepared in Hpre. unfold rz_local_ok.
  pose proof Hs as (Ha & Hr & Hi & Hm). destruct (rz_user e u) as [c|] eqn:Hu.
  - destruct (Heff c eq_refl) as (e' & acts & Hc & Hok). rewrite Hshape.
    eapply wp_issue; [done..|]. eapply wp_mono; [exact Hpre|]. intros r w1 (-> & Hmv & str & Hstr & Hi1 & Hm1 & Ho1 & _ & n & Hn).
    split_and!; [done|done|by rewrite Hn|].
    eapply wp_mono; [eapply (wp_rz_effect _ (rz_args K ele u ++ [str]) n c K ele (<[ele := e]> els) es e e' acts)|]; cbn [cli srv rargv add_out].
    + done.
    + by eapply rz_user_msg.
    + apply Hmv.
    + unfold found. by rewrite lookup_insert_eq.
    + done.
    + by eapply moved_acts.
    + intros r w2 (-> & es' & Hst & Hsc). rewrite (st_cli _ _ _ _ _ _ _ _ Hst). cbn [cli add_out replica_message is_replica out rargv].
      split_and!; try done. exists str, n, e', acts, es'. rewrite insert_insert_eq in Hst. split_and!; try done; [by rewrite Ho1|].
      exact (moved_then _ _ _ _ _ _ _ _ _ _ _ _ Hmv (step_moved _ _ _ _ _ _ _ _ Hst)).
  - destruct Hshape as [eff ->]. eapply wp_issue; [done..|]. eapply wp_mono; [exact Hpre|].
    intros r w1 (-> & Hmv & Hc). rewrite Hc. cbn. by split_and!.
Qed.

Lemma wp_rz_remote w l n c K ele els es e e' acts u e0 :
  rargv (cli w) = Some (l, n) -> is_replica (cli w) = true -> replica_message (cli w) = false ->
  REPLICATION_MODE (srv w) = true -> rz_user e0 u = Some c -> rz_msg l K ele c ->
  cview (srv w) K els es -> found rz_new (srv w) els ele = Ok e -> rz_effect (e, []) c = Ok (e', acts) -> acts_ok (srv w) es acts ->
  wp (rz_command u) w (fun r w' => r = None /\ cli w' = cli w /\
    exists es', moved suffix (srv w) (srv w') K (<[ele := e']> els) es es' (length acts) /\ scores_follow es es' ele acts).
Proof.
  intros Hr Hi Hm Hmode Hu Hmsg Hv He Heff Hok. pose proof (rz_command_shape e0 u) as Hshape. rewrite Hu in Hshape.
  rewrite Hshape. apply wp_arrive; [done..|]. eapply wp_mono; [by eapply (wp_rz_effect w l n c K ele els es e e' acts)|].
  intros r w2 (-> & es' & Hst & Hsc). rewrite (st_cli _ _ _ _ _ _ _ _ Hst). split_and!; try done.
  exists es'. split; [|done]. by apply step_moved.
Qed.

(** A complete RZADD, RZINCRBY or RZREM of a client on every
    branch.  It is refused with the error reply that fits, broadcasts nothing
    and leaves the container as it was; or it is accepted, stamped with the next
    event of the element's clock, leaves the arguments to broadcast with a
    stamp every receiver reads back, executes the operation together with the
    buffered ones it makes ready, and passes their calls on to the sorted set. *)
Theorem rz_local_command w K ele els es e u N :
  sends (rz_args K ele u) (cli w) -> REPLICATION_MODE (srv w) = true -> cview (srv w) K els es ->
  found rz_new (srv w) els ele = Ok e -> wf_vc N (rz_clock e) -> (0 < N <= VC_INT_BUF)%nat ->
  (forall c, rz_user e u = Some c -> exists e' acts, rz_effect (e, []) c = Ok (e', acts) /\ acts_ok (srv w) es acts) ->
  exists w', rz_command u w = Ok (None, w') /\ rz_local_ok w w' K ele els es e u.
Proof.
  intros. destruct (wp_rz_local w K ele els es e u N) as (r & w' & Hrun & -> & Hok); try done. by exists w'.
Qed.

(** a command of the remove-win queue that arrives over a
    link does to its element what the effect says, whether it is ready, waits
    for its predecessors or releases waiting operations: the element is replaced
    by the outcome, the sorted set follows the calls in their order, no other
    element, key or the client is touched and no reply is sent. *)
Theorem rz_remote_command w l n c K ele els es e e' acts u e0 :
  rargv (cli w) = Some (l, n) -> is_replica (cli w) = true -> replica_message (cli w) = false ->
  REPLICATION_MODE (srv w) = true -> rz_user e0 u = Some c -> rz_msg l K ele c ->
  cview (srv w) K els es -> found rz_new (srv w) els ele = Ok e -> rz_effect (e, []) c = Ok (e', acts) -> acts_ok (srv w) es acts ->
  exists w' es', rz_command u w = Ok (None, w') /\ cli w' = cli w /\
    moved suffix (srv w) (srv w') K (<[ele := e']> els) es es' (length acts) /\ scores_follow es es' ele acts.
Proof.
  intros. destruct (wp_rz_remote w l n c K ele els es e e' acts u e0) as (r & w' & Hrun & -> & Hc & es' & Hmv & Hf); try done.
  by exists w', es'.
Qed.
End Spec.

(** ** Commands on a server of two replicas *)

#[export] Instance rze_cell : Cell rze rze.
Proof. exists id Some. done. Defined.

Definition rz_server : server rze := mkServer 2 0 [] (mkZcfg 128 64) ∅ ∅ 0 0 [65535; 65535].

Lemma rz_server_view : cview RW_RPQ_TABLE_SUFFIX rz_server "q" ∅ [].
Proof. split; [done|done|]. by intros p [c Hc]. Qed.

Definition rz_fresh : rze := mkRze (mkBody (mkVc [0; 0] 0) ars_new) [].
Definition rz_first : rz_cmd := rz_cmdNew RZADD (double_of_Z 5) (mkVc [1; 0] 0).

Lemma rz_fresh_wf : wf_vc 2 (rz_clock rz_fresh).
Proof. by repeat constructor. Qed.

Lemma rz_first_op : rz_user rz_fresh (QAdd "5") = Some rz_first.
Proof. by vm_compute. Qed.

Lemma rz_first_effect : exists e', rz_effect (rz_fresh, []) rz_first = Ok (e', [ZAdd (double_of_Z 5)]).
Proof. eexists. vm_compute. reflexivity. Qed.

Lemma one_act_ok (A : Type) (s : server A) :
  (2 <= draws (rng s))%nat -> acts_ok s [] [ZAdd (double_of_Z 5)].
Proof.
  intros Hd. split; cbn [length]; [lia|lia|]. intros sc Hin _. apply list_elem_of_singleton in Hin.
  assert (sc = double_of_Z 5) as -> by congruence. by apply prints_back_Z.
Qed.

Lemma rz_local_command_witness :
  let w := mkWorld rz_server (mkClient ["rzadd"; "q"; "a"; "5"] None false false []) 0 in
  exists w', rz_command (QAdd "5") w = Ok (None, w') /\ rz_local_ok w w' "q" "a" ∅ [] rz_fresh (QAdd "5").
Proof.
  intros w. destruct rz_first_effect as [e' He'].
  destruct (rz_local_command w "q" "a" ∅ [] rz_fresh (QAdd "5") 2) as (w' & Hrun & Hok).
  - by split_and!.
  - reflexivity.
  - apply rz_server_view.
  - reflexivity.
  - apply rz_fresh_wf.
  - unfold VC_INT_BUF. lia.
  - intros c Hc. rewrite rz_first_op in Hc. injection Hc as <-. eexists _, _. split; [exact He'|].
    apply one_act_ok. by apply Nat.leb_le.
  - exists w'. split; [exact Hrun|exact Hok].
Defined.

Lemma rz_remote_command_witness :
  let l := ["rzadd"; "q"; "a"; "5"; "1,0|0"] in
  let w := mkWorld rz_server (mkClient l (Some (l, 5)) true false []) 0 in
  exists w' es', rz_command (QAdd "5") w = Ok (None, w') /\ cli w' = cli w /\ zscore "a" es' = Some (double_of_Z 5).
Proof.
  intros l w. destruct rz_first_effect as [e' He'].
  destruct (rz_remote_command w l 5 rz_first "q" "a" ∅ [] rz_fresh e' [ZAdd (double_of_Z 5)] (QAdd "5") rz_fresh)
    as (w' & es' & Hrun & Hc & _ & Hsc).
  - reflexivity.
  - reflexivity.
  - reflexivity.
  - reflexivity.
  - apply rz_first_op.
  - split_and!; [done|done|]. split.
    + eexists. split; [reflexivity|]. vm_compute. reflexivity.
    + eexists. split; [reflexivity|]. vm_compute. reflexivity.
  - apply rz_server_view.
  - reflexivity.
  - exact He'.
  - apply one_act_ok. by apply Nat.leb_le.
  - exists w', es'. split; [exact Hrun|]. split; [exact Hc|]. rewrite (Hsc "a"). by vm_compute.
Defined.
