(* ===== verification/RzSystem.v ===== *)
(** * A system of replicas with one remove-win queue

    The commands of [RzCmd] in a system of replicas: whatever clients send and
    in whatever order messages arrive, the operations on an element form a
    history as the causal delivery buffer needs it, no run reaches an error, and
    replicas that received the same messages answer alike, also while
    operations wait for their predecessors. *)

From S2P Require Import Prelude Sds VectorClock Causal Double Exact ARSet RZset Util Score Skiplist SkiplistSpec.
From S2P Require Import Zset ZsetSpec Store Crdt Container RwfzCmd P2P System QueueSpec RzCmd RzSpec.
From Stdlib Require Import Ascii.

#[local] Arguments sdsToVC : simpl never.
#[local] Arguments getDoubleFromObject : simpl never.

(** ** Calls on the sorted set *)

Definition rz_op_value (c : rz_cmd) : option double :=
  match rz_type c with RZREM => None | _ => Some (rz_value c) end.

Lemma rz_values b l i :
  b ∈ l -> rz_type b = RZADD -> i `sublist_of` incr_values l -> rz_value b :: i ⊆+ omap rz_op_value l.
Proof.
  intros Hb Ht Hi. etrans; [apply submseteq_skip, sublist_submseteq; exact Hi|]. clear i Hi.
  assert (forall k, incr_values k ⊆+ omap rz_op_value k) as Hall.
  { intros k. unfold incr_values, incr_value, rz_op_value. induction k as [|c k IH]; [done|]. rewrite !omap_cons_eq.
    destruct (rz_type c); [by apply submseteq_cons|by apply submseteq_skip|done]. }
  apply list_elem_of_split in Hb as (l1 & l2 & ->). unfold incr_values. rewrite !omap_app, !omap_cons_eq.
  unfold incr_value at 2, rz_op_value at 2. rewrite Ht. rewrite Permutation_middle.
  apply submseteq_app; [apply Hall|]. apply submseteq_skip, Hall.
Qed.

Lemma rz_score_int n l s sc B :
  ars_reached rz_t rz_kind l s -> causal_seq rz_t n l -> LOOKUP s = true -> rz_score s = Ok sc ->
  ints_below B (omap rz_op_value l) -> B <= 2 ^ 53 -> exists z, sc = double_of_Z z /\ Z.abs z < B.
Proof.
  intros Hs Hl HL Hsc Hints HB. destruct (scores_agree n l l s s Hl Hl (reflexivity _) Hs Hs HL) as (b & i & _ & _ & Hb & Ht & Hi & Hsc' & _).
  rewrite Hsc in Hsc'. injection Hsc' as ->. apply sum_int; [|done]. eapply ints_below_sub; [by eapply rz_values|done].
Qed.

(** An operation makes one call at most, with the score the element then has. *)
Lemma rz_exec_calls e acts c e' acts' :
  rz_exec (e, acts) c = Ok (e', acts') ->
  vid (rz_current e') = vid (rz_current e) /\
  exists new, acts' = acts ++ new /\ (length new <= 1)%nat /\
    forall sc, ZAdd sc ∈ new -> LOOKUP (rz_sets e') = true /\ rz_score (rz_sets e') = Ok sc.
Proof.
  unfold rz_exec. destruct (rz_type c); unfold addFunc, increaseFunc, removeFunc.
  - destruct (ars_add _ _ _) as [s|]; [|done]. cbn [mbind res_bind]. destruct (LOOKUP s) eqn:HL.
    + destruct (rz_score s) as [sc|] eqn:Hsc; [|done]. intros [= <- <-]. split; [apply vc_update_id|]. exists [ZAdd sc].
      split_and!; [done|done|]. intros sc' Heq%list_elem_of_singleton. assert (sc' = sc) as -> by congruence. by split.
    + intros [= <- <-]. split; [apply vc_update_id|]. exists []. split_and!; [done|cbn; lia|]. by intros sc ?%elem_of_nil.
  - cbn zeta. set (s := ars_upd _ _ _). destruct (LOOKUP s) eqn:HL.
    + destruct (value s) as [p|]; [|done]. destruct (deref (aset s) p) as [a|]; [|done]. cbn [mbind res_bind].
      destruct (older _ _); [destruct (rz_score s) as [sc|] eqn:Hsc; [|done]|]; intros [= <- <-]; (split; [apply vc_update_id|]).
      * exists [ZAdd sc]. split_and!; [done|done|]. intros sc' Heq%list_elem_of_singleton. assert (sc' = sc) as -> by congruence. by split.
      * exists []. split_and!; [done|cbn; lia|]. by intros sc ?%elem_of_nil.
    + intros [= <- <-]. split; [apply vc_update_id|]. exists []. split_and!; [done|cbn; lia|]. by intros sc ?%elem_of_nil.
  - destruct (ars_rem _ _) as [s|]; [|done]. cbn [mbind res_bind]. intros [= <- <-]. split; [apply vc_update_id|].
    eexists. split; [done|]. destruct (LOOKUP s); (split; [cbn; lia|]); [by intros sc ?%elem_of_nil|].
    intros sc Hsc%list_elem_of_singleton. done.
Qed.

(** ** An element of a replica *)

(** [rz_reached] for the element of replica [id], with what the calls on the
    sorted set need. *)
Record rz_tracked (n : nat) (id : Z) (l : list rz_cmd) (st : rze_body * list zact) : Prop := {
  rt_reached : rz_reached n l st;
  rt_id : vid (rz_current st.1) = id;
  rt_calls : (length st.2 <= length l)%nat;
  rt_ints : ints_below BOUND (omap rz_op_value l) ->
    forall sc, ZAdd sc ∈ st.2 -> exists z, sc = double_of_Z z /\ Z.abs z < BOUND
}.

#[export] Instance rz_tracked_exec n id : CausalExec rz_t st_current rz_exec n (rz_tracked n id).
Proof.
  split.
  - intros l st [Hr _ _ _]. split; [apply (rr_vec _ _ _ Hr)|apply (rr_id _ _ _ Hr)].
  - intros l [e acts] c [Hr Hid Hlen Hints] Hseq. destruct (rz_exec_step n l (e, acts) c Hr Hseq) as ([e' acts'] & Hx & Hr').
    exists (e', acts'). split; [done|]. destruct (rz_exec_calls _ _ _ _ _ Hx) as (Hid' & new & -> & Hnew & Hsc). cbn [fst snd] in *.
    split; cbn [fst snd]; [done|congruence|rewrite !length_app; cbn [length]; lia|].
    intros Hb sc [Hin|Hin]%elem_of_app.
    + apply Hints; [|done]. eapply ints_below_sub; [|exact Hb]. rewrite omap_app. by apply submseteq_inserts_r.
    + destruct (Hsc sc Hin) as [HL Hs]. eapply (rz_score_int n); [apply (rr_sets _ _ _ Hr')|done..|]. unfold BOUND. lia.
Qed.

Definition rz_elem_at (n : nat) (i : nat) (ex : list rz_cmd) (e : rze) (acts : list zact) (got : list rz_cmd) : Prop :=
  settled_at rz_t (n := n) (reached := rz_tracked n (Z.of_nat i)) ex ((rz_body e, acts), rz_ops e) got.

Lemma notify_acc fuel b acts ops :
  notify_rounds rz_t st_current rz_exec fuel (b, acts) ops =
    (r ← notify_rounds rz_t st_current rz_exec fuel (b, []) ops; Ok ((r.1.1, acts ++ r.1.2), r.2)).
Proof.
  revert b acts ops. induction fuel as [|fuel IH]; intros b acts ops; [done|]. cbn [notify_rounds st_current fst].
  destruct (take_ready _ _ _) as [[[o rest]|]|]; cbn [mbind res_bind fst snd]; [|by rewrite app_nil_r|done].
  rewrite (rz_exec_acc b acts), (rz_exec_acc b []). destruct (rz_exec (b, []) o) as [[b1 a1]|]; cbn [mbind res_bind fst snd app]; [|done].
  rewrite (IH b1 (acts ++ a1)), (IH b1 a1). destruct (notify_rounds _ _ _ fuel (b1, []) rest) as [[[b2 a2] ops2]|]; cbn [mbind res_bind fst snd]; [|done].
  by rewrite app_assoc.
Qed.

Lemma rz_effect_acc e acts c :
  rz_effect (e, acts) c = (r ← rz_effect (e, []) c; Ok (r.1, acts ++ r.2)).
Proof.
  unfold rz_effect. destruct (vc_causally_ready _ _) as [[]|]; cbn [mbind res_bind fst snd]; [|by rewrite app_nil_r|done].
  rewrite (rz_exec_acc _ acts), (rz_exec_acc _ []). destruct (rz_exec (rz_body e, []) c) as [[b1 a1]|]; cbn [mbind res_bind fst snd app]; [|done].
  unfold notifyLoop, notify_loop. rewrite (notify_acc _ b1 (acts ++ a1)), (notify_acc _ b1 a1).
  destruct (notify_rounds _ _ _ _ (b1, []) _) as [[[b2 a2] ops2]|]; cbn [mbind res_bind fst snd]; [|done]. by rewrite app_assoc.
Qed.

Lemma rz_elem_fresh (n i : nat) e : (i < n)%nat -> rzeNew (Z.of_nat n) (Z.of_nat i) = Ok e -> rz_elem_at n i [] e [] [].
Proof.
  intros Hi He. destruct (rzeNew_reached n (Z.of_nat i) ltac:(lia)) as (e' & He' & Hops & Hr).
  assert (e' = e) as -> by congruence. unfold rz_elem_at. rewrite Hops. split_and!; cbn [fst snd]; [constructor| |done|done].
  split; [done| |done|by intros _ sc ?%elem_of_nil]. unfold rzeNew, _vc_new in He. destruct (_ <? _); [done|].
  injection He as <-. done.
Qed.

(** The element after one more operation. *)
Lemma rz_elem_effect n i hist ex e acts got c :
  valid_history rz_t n hist -> rz_elem_at n i ex e acts got -> (c :: got) ⊆ hist ->
  exists e' new ex', rz_effect (e, []) c = Ok (e', new) /\ rz_elem_at n i ex' e' (acts ++ new) (got ++ [c]) /\
    ex `prefix_of` ex' /\ (ready rz_t (n := n) ex c -> ex ++ [c] `prefix_of` ex').
Proof.
  intros Hh He Hsub. destruct (deliver_settles_at rz_t st_current rz_exec hist Hh ex _ got c He Hsub)
    as ([[body acts'] ops'] & ex' & Hd & Hset & Hpre & Hready).
  pose proof (rz_effect_deliver e acts c) as Heff. rewrite Hd, rz_effect_acc in Heff. cbn [mbind res_bind] in Heff.
  destruct (rz_effect (e, []) c) as [[e' new]|] eqn:He'; [|done]. cbn [mbind res_bind fst snd] in Heff.
  injection Heff as -> <-. exists (mkRze body ops'), new, ex'. by split_and!.
Qed.

(** Replicas that received the same operations agree on the element. *)
Lemma rz_elems_agree n i j hist exi exj ei ej ai aj gi gj :
  valid_history rz_t n hist -> rz_elem_at n i exi ei ai gi -> rz_elem_at n j exj ej aj gj -> gi ≡ₚ gj -> NoDup gi -> gi ⊆ hist ->
  ints_below BOUND (omap rz_op_value gi) ->
  same_score (zmirror None ai) (zmirror None aj).
Proof.
  intros Hh Hi Hj Hg Hnd Hsub Hints. unfold rz_elem_at in *.
  assert (forall k ex e a g, settled_at rz_t (n := n) (reached := rz_tracked n (Z.of_nat k)) ex ((rz_body e, a), rz_ops e) g ->
    settled_at rz_t (n := n) (reached := rz_reached n) ex ((rz_body e, a), rz_ops e) g) as Hweak.
  { intros k ex e a g (H1 & H2 & H3 & H4). split_and!; try done. apply H2. }
  pose proof (settled_unique rz_t st_current rz_exec hist Hh _ _ _ _ _ _ (Hweak _ _ _ _ _ Hi) (Hweak _ _ _ _ _ Hj) Hg Hnd Hsub) as Hex.
  destruct Hi as (Hxi & [Hri _ _ _] & Hpi & _), Hj as (Hxj & [Hrj _ _ _] & Hpj & _). cbn [fst snd] in *.
  pose proof (rr_mirror _ _ _ Hri) as Hmi. pose proof (rr_mirror _ _ _ Hrj) as Hmj. cbn [fst snd] in Hmi, Hmj.
  pose proof (rr_sets _ _ _ Hri) as Hsi. pose proof (rr_sets _ _ _ Hrj) as Hsj. cbn [fst snd] in Hsi, Hsj.
  rewrite <- (LOOKUP_perm rz_t rz_kind exi exj _ _ Hex Hsi Hsj) in Hmj.
  destruct (LOOKUP (rz_sets (rz_body ei))) eqn:HL; [|by rewrite Hmi, Hmj].
  destruct Hmi as (sci & Hsci & Hmi), Hmj as (scj & Hscj & Hmj).
  destruct (scores_agree n exi exj _ _ Hxi Hxj Hex Hsi Hsj HL) as (b & i1 & i2 & Hp & Hb & Ht & Hsl & H1 & H2).
  assert (ints_below BOUND (rz_value b :: i1)) as Hb1.
  { eapply ints_below_sub; [by eapply (rz_values b exi)|]. eapply ints_below_sub; [|exact Hints]. rewrite <- Hpi, omap_app. by apply submseteq_inserts_r. }
  assert (scj = sci) as ->.
  { rewrite Hsci in H1. rewrite Hscj in H2. injection H1 as ->. injection H2 as ->. symmetry. apply small_ints_sum_perm; [|done].
    apply ints_below_small. destruct Hb1 as [? ?]. split; [done|]. unfold BOUND in *. lia. }
  eapply mirrors_agree; [exact Hmi|exact Hmj|].
  destruct (rz_score_int n exi _ sci BOUND Hsi Hxi HL Hsci) as (z & -> & Hz); [|by unfold BOUND|apply isnan_Z; unfold BOUND in *; lia].
  eapply ints_below_sub; [|exact Hints]. rewrite <- Hpi, omap_app. by apply submseteq_inserts_r.
Qed.

(** ** Messages *)

Definition rz_parse (l : list string) : option (string * rz_cmd) :=
  nm ← head l;
  x ← l !! 2%nat;
  str ← last l;
  match sdsToVC str with
  | Crash _ => None
  | Ok t =>
      if decide (nm = "rzadd") then a ← l !! 3%nat; v ← getDoubleFromObject a; Some (x, rz_cmdNew RZADD v t)
      else if decide (nm = "rzincrby") then a ← l !! 3%nat; v ← getDoubleFromObject a; Some (x, rz_cmdNew RZINCBY v t)
      else Some (x, rz_cmdNew RZREM dzero t)
  end.

Lemma rz_user_cases e u c :
  rz_user e u = Some c -> rz_t c = rz_tick (rz_clock e) /\ forall i x, rz_op_value c = quser_value (Client i x u).
Proof.
  destruct u as [a|a|]; cbn [rz_user quser_value].
  - destruct (getDoubleFromObject a); [|done]. cbn. destruct (rz_present e); [done|]. by intros [= <-].
  - destruct (getDoubleFromObject a); [|done]. cbn. destruct (rz_present e); [|done]. by intros [= <-].
  - destruct (rz_present e); [|done]. by intros [= <-].
Qed.

Lemma rz_parse_user K x u e c str :
  rz_user e u = Some c -> sdsToVC str = Ok (rz_t c) -> rz_parse (rz_args K x u ++ [str]) = Some (x, c).
Proof.
  intros Ho Hs. destruct u as [a|a|]; cbn [rz_user] in Ho.
  - destruct (getDoubleFromObject a) as [v|] eqn:Hd; [|done]. cbn in Ho. destruct (rz_present e); [done|].
    injection Ho as <-. cbn [rz_t rz_cmdNew] in Hs. unfold rz_parse. cbn. rewrite Hs. cbn. by rewrite Hd.
  - destruct (getDoubleFromObject a) as [v|] eqn:Hd; [|done]. cbn in Ho. destruct (rz_present e); [|done].
    injection Ho as <-. cbn [rz_t rz_cmdNew] in Hs. unfold rz_parse. cbn. rewrite Hs. cbn. by rewrite Hd.
  - destruct (rz_present e); [|done]. injection Ho as <-. cbn [rz_t rz_cmdNew] in Hs. unfold rz_parse. cbn. by rewrite Hs.
Qed.

Section System.
Context {E : Type} `{!Cell rze E}.
Context (K : string).

(** The entries of the command table. *)
Definition rz_table (args : list string) : option (M E unit) :=
  nm ← head args;
  if strcaseeq nm "rzadd" then Some rzaddCommand
  else if strcaseeq nm "rzincrby" then Some rzincrbyCommand
  else if strcaseeq nm "rzrem" then Some rzremCommand
  else None.

Notation sys := (System.sys E).
Notation action := (System.action quser).
Notation issue := (System.issue rz_table).
Notation receive := (System.receive rz_table).
Notation sys_step := (System.sys_step rz_table (rz_args K)).
Notation sys_run := (System.sys_run rz_table (rz_args K)).
Notation parsed := (System.parsed rz_parse).
Notation ops_got := (System.ops_got rz_parse).
Notation log_values := (System.log_values rz_parse rz_op_value).
Notation all_ops lg x := (ops_got lg (seq 0 (length lg)) x).
Notation cview := (cview RW_RPQ_TABLE_SUFFIX).
Notation moved := (moved RW_RPQ_TABLE_SUFFIX).
Notation found := (found rz_new).

Lemma rz_table_user x u l : rz_table (rz_args K x u ++ l) = Some (rz_command u).
Proof. by destruct u. Qed.

(** ** What replicas do *)

Lemma rz_issue s x els es e u N :
  0 < p2p_count s -> replicas s = [] -> cview s K els es -> found s els x = Ok e -> wf_vc N (rz_clock e) ->
  (0 < N <= VC_INT_BUF)%nat ->
  (forall c, rz_user e u = Some c -> exists e' acts, rz_effect (e, []) c = Ok (e', acts) /\ acts_ok s es acts) ->
  exists s' m, issue s (rz_args K x u) = Ok (s', m) /\
    match rz_user e u with
    | None => m = None /\ moved s s' K els es es 0
    | Some c => exists str e' acts es', m = Some (rz_args K x u ++ [str]) /\ sdsToVC str = Ok (rz_t c) /\
        rz_effect (e, []) c = Ok (e', acts) /\ moved s s' K (<[x := e']> els) es es' (length acts) /\ scores_follow es es' x acts
    end.
Proof.
  intros Hm Hl Hv He Hwf HN Hok. unfold System.issue. pose proof (rz_table_user x u []) as Htab. rewrite app_nil_r in Htab. rewrite Htab.
  set (c := mkClient (rz_args K x u) None false false []).
  destruct (wp_rz_local (mkWorld s c 0) K x els es e u N) as (r & w' & Hrun & -> & Hi & Hok'); try done; [by apply mode_on|].
  assert (replicas (srv w') = []) as Hlk.
  { destruct (rz_user e u); [destruct Hok' as (? & ? & ? & ? & ? & _ & _ & _ & _ & Hmv & _)|destruct Hok' as (_ & _ & Hmv)];
      pose proof (mv_conf _ _ _ _ _ _ _ _ Hmv) as (_ & _ & Hlk & _); cbn [srv] in Hlk; congruence. }
  rewrite (call_client _ s c w' None) by done. cbn [mbind res_bind clients nsrv].
  rewrite lookup_singleton_eq. cbn [of_option mbind res_bind]. eexists _, _. split; [done|].
  destruct (rz_user e u) as [o|].
  - destruct Hok' as (str & n & e' & acts & es' & Hs & Hr & Hout & Heff & Hmv & Hsc). rewrite Hr. exists str, e', acts, es'. by split_and!.
  - destruct Hok' as (Hr & Hout & Hmv). rewrite Hr. by split_and!.
Qed.

Lemma rz_receive_msg s x els es e e' acts u e0 c str :
  0 < p2p_count s -> rz_user e0 u = Some c -> sdsToVC str = Ok (rz_t c) ->
  cview s K els es -> found s els x = Ok e -> rz_effect (e, []) c = Ok (e', acts) -> acts_ok s es acts ->
  exists s' es', receive s (rz_args K x u ++ [str]) = Ok s' /\
    moved s s' K (<[x := e']> els) es es' (length acts) /\ scores_follow es es' x acts.
Proof.
  intros Hm Hu Hs Hv He Heff Hok. unfold System.receive. rewrite rz_table_user.
  set (l := rz_args K x u ++ [str]). set (cl := mkClient l None true false []).
  destruct (wp_rz_remote (mkWorld s (set_rargv cl (Some (l, Z.of_nat (length l)))) 0) l (Z.of_nat (length l)) c K x els es e e' acts u e0)
    as (r & w' & Hrun & -> & Hc & es' & Hmv & Hsc); try done; [by apply mode_on|by eapply rz_user_msg|].
  rewrite (call_link _ s cl w' None); [|done|done|by rewrite Hc]. cbn [mbind res_bind nsrv]. eauto.
Qed.

(** ** The invariant of a run

    [N] replicas; [TT] is the number of actions of the whole run and [T] the
    number done so far. *)

Context (N TT : nat) (HN : (0 < N <= VC_INT_BUF)%nat) (HTT : 2 * Z.of_nat TT + 2 < INT_MAX).

Definition rz_entry (T : nat) (l : list string) : Prop :=
  exists x u e0 c str, l = rz_args K x u ++ [str] /\ rz_user e0 u = Some c /\ sdsToVC str = Ok (rz_t c) /\
    vle (vector (rz_t c)) (replicate N (Z.of_nat T)).

(** An element is what the operations received make of it, the sorted set
    follows it, and the replica has executed all it issued itself. *)
Definition rz_elem_ok (lg : list (list string)) (i : nat) (g : list nat) (s : server E) (els : gmap string rze)
    (es : list zentry) (x : string) : Prop :=
  exists e acts ex, found s els x = Ok e /\ rz_elem_at N i ex e acts (ops_got lg g x) /\ zscore x es = zmirror None acts /\
    forall c, c ∈ all_ops lg x -> vid (rz_t c) = Z.of_nat i -> c ∈ ex.

(** Random numbers for the calls one message can cause. *)
Definition per_step : nat := TT * (2 * TT).

Record rz_replica (T : nat) (lg : list (list string)) (i : nat) (s : server E) (g : list nat) : Prop := {
  zr_count : p2p_count s = Z.of_nat N;
  zr_id : p2p_id s = Z.of_nat i;
  zr_links : replicas s = [];
  zr_nodup : NoDup g;
  zr_in : Forall (fun m => m < length lg)%nat g;
  zr_state : exists els es, cview s K els es /\ ((TT - T) * per_step <= draws (rng s))%nat /\
    forall x, rz_elem_ok lg i g s els es x
}.

Record rz_sys_ok (acts : list action) (st : sys) : Prop := {
  zs_servers : length (servers st) = N;
  zs_got : length (got st) = N;
  zs_len : (length (log st) <= length acts)%nat;
  zs_log : Forall (rz_entry (length acts)) (log st);
  zs_hist : forall x, valid_history rz_t N (all_ops (log st) x);
  zs_values : log_values (log st) `sublist_of` omap quser_value acts;
  zs_replicas : forall i s g, servers st !! i = Some s -> got st !! i = Some g -> rz_replica (length acts) (log st) i s g
}.

Lemma rz_entry_mono T T' l : (T <= T')%nat -> rz_entry T l -> rz_entry T' l.
Proof.
  intros HT (x & u & e0 & c & str & ? & ? & ? & Hv). exists x, u, e0, c, str. split_and!; try done.
  etrans; [exact Hv|]. apply vle_alt; [by rewrite !length_replicate|].
  intros j a b [-> _]%lookup_replicate [-> _]%lookup_replicate. lia.
Qed.

Lemma rz_log_mono T T' lg : (T <= T')%nat -> Forall (rz_entry T) lg -> Forall (rz_entry T') lg.
Proof. intros HT Hl. eapply Forall_impl; [exact Hl|]. intros l. by apply rz_entry_mono. Qed.

Lemma rz_stamps T lg g x c :
  Forall (rz_entry T) lg -> c ∈ ops_got lg g x -> vle (vector (rz_t c)) (replicate N (Z.of_nat T)).
Proof.
  intros Hlg (m & _ & Hp)%elem_of_ops_got. unfold System.parsed in Hp. destruct (lg !! m) as [l|] eqn:Hl; [|done]. cbn in Hp.
  destruct (Forall_lookup_1 _ _ _ _ Hlg Hl) as (y & u & e0 & c' & str & -> & Hu & Hs & Hv).
  rewrite (rz_parse_user K y u e0 c' str Hu Hs) in Hp. by injection Hp as _ <-.
Qed.

(** The clock of an element. *)
Lemma rz_clock_ok T lg i g x ex e acts :
  Forall (rz_entry T) lg -> (i < N)%nat -> Forall (fun m => m < length lg)%nat g -> rz_elem_at N i ex e acts (ops_got lg g x) ->
  vector (rz_clock e) = join rz_t N ex /\ vid (rz_clock e) = Z.of_nat i /\ wf_vc N (rz_clock e) /\
  vle (vector (rz_clock e)) (replicate N (Z.of_nat T)) /\ ex ⊆ all_ops lg x /\ (length acts <= length g)%nat.
Proof.
  intros Hlg Hi Hin (Hx & [Hr Hid Hcalls _] & Hp & _). cbn [fst snd] in *.
  pose proof (rr_vec _ _ _ Hr) as Hv. cbn [fst] in Hv. pose proof (causal_seq_wf _ _ _ Hx) as Hwf.
  assert (forall c, c ∈ ex -> c ∈ ops_got lg g x) as Hsub by (intros c Hc; rewrite <- Hp; apply elem_of_app; by left).
  unfold rz_clock. split_and!; [done|done| | | |].
  - assert (rz_current (rz_body e) = mkVc (join rz_t N ex) (Z.of_nat i)) as ->.
    { destruct (rz_current (rz_body e)). cbn in *. by rewrite Hv, Hid. }
    apply join_wf; [done|lia].
  - rewrite Hv. unfold join. apply (history_lub _ N); [apply length_replicate|by apply wf_sized|]. split.
    + apply vle_alt; [by rewrite !length_replicate|]. intros j a b [-> _]%lookup_replicate [-> _]%lookup_replicate. lia.
    + apply Forall_forall. intros c Hc. eapply rz_stamps; [exact Hlg|by apply Hsub].
  - intros c Hc. eapply got_in_all; [exact Hin|by apply Hsub].
  - assert (length ex <= length (ops_got lg g x))%nat by (rewrite <- (Permutation_length Hp), length_app; lia).
    pose proof (ops_got_length (parse := rz_parse) lg g x). lia.
Qed.

(** The stamp of the next operation. *)
Lemma rz_tick_ok T c :
  wf_vc N c -> vle (vector c) (replicate N (Z.of_nat T)) -> Z.of_nat T + 1 < INT_MAX ->
  wf_vc N (rz_tick c) /\ vle (vector (rz_tick c)) (replicate N (Z.of_nat (S T))) /\
  forall j, 0 <= j < Z.of_nat N -> entry (vector (rz_tick c)) j = entry (vector c) j + (if decide (j = vid c) then 1 else 0).
Proof.
  intros Hwf Hle HT. pose proof (wf_id _ _ Hwf) as Hid. pose proof (wf_size _ _ Hwf) as Hsz. unfold rz_tick.
  destruct (lookup_lt_is_Some_2 (vector c) (Z.to_nat (vid c))) as [z Hz]; [lia|].
  assert (entry (vector c) (vid c) = z) as He by (unfold entry; by rewrite Hz). rewrite He.
  pose proof (wf_vc_lookup _ _ _ _ Hwf Hz) as Hr.
  pose proof (vle_lookup _ _ _ _ (Z.of_nat T) Hle Hz ltac:(apply lookup_replicate_2; lia)) as Hb. split_and!; cbn [vector vid].
  - split; cbn [vector vid]; [by rewrite length_insert| |done]. apply Forall_insert; [apply (wf_entries _ _ Hwf)|lia].
  - apply vle_alt; [by rewrite length_insert, length_replicate|]. intros j a b Ha [-> Hj]%lookup_replicate.
    destruct (decide (j = Z.to_nat (vid c))) as [->|Hne].
    + rewrite list_lookup_insert_eq in Ha by lia. injection Ha as <-. lia.
    + rewrite list_lookup_insert_ne in Ha by done.
      pose proof (vle_lookup _ _ _ _ (Z.of_nat T) Hle Ha ltac:(by apply lookup_replicate_2)). lia.
  - intros j Hj. case_decide as Hjc.
    + subst j. rewrite He. unfold entry. by rewrite list_lookup_insert_eq by lia.
    + unfold entry. rewrite list_lookup_insert_ne by lia. lia.
Qed.

(** Every element of the sorted set had a message. *)
Lemma rz_entries T lg i s g els es :
  Forall (rz_entry T) lg -> (i < N)%nat -> Forall (fun m => m < length lg)%nat g -> cview s K els es ->
  (forall x, rz_elem_ok lg i g s els es x) -> (length es <= length g)%nat.
Proof.
  intros Hlg Hi Hin Hv Hel. assert (zordered es) as Ho.
  { pose proof (cv_zset _ _ _ _ _ Hv) as Hz. unfold zset_view in Hz. destruct (db s !! K) as [[h|z|t b1 b2]|]; try done; [by eapply zview_ordered|].
    subst es. split; [constructor|constructor|constructor]. }
  assert (es.*2 ⊆ omap (fun m => fst <$> parsed lg m) g) as Hsub.
  { intros x Hx. destruct (Hel x) as (e & acts & ex & _ & He & Hz & _).
    assert (ops_got lg g x <> []) as Hne.
    { intros Hnil. assert (acts = []) as ->.
      { destruct He as (_ & [_ _ Hc _] & Hp & _). cbn [snd] in Hc. rewrite Hnil in Hp. symmetry in Hp.
        apply Permutation_nil, app_nil in Hp as [-> _]. by destruct acts; [|cbn in Hc; lia]. }
      cbn in Hz. apply zscore_None in Hz. done. }
    destruct (ops_got lg g x) as [|c r] eqn:Hops; [done|]. assert (c ∈ ops_got lg g x) as Hc by (rewrite Hops; by left).
    apply elem_of_ops_got in Hc as (m & Hm & Hp). apply list_elem_of_omap. exists m. by rewrite Hp. }
  pose proof (submseteq_length _ _ (NoDup_submseteq _ _ (zo_nodup _ Ho) Hsub)) as Hlen. rewrite length_fmap in Hlen.
  etrans; [exact Hlen|]. clear. induction g as [|m g IH]; [done|]. rewrite omap_cons_eq. destruct (_ <$> _); cbn [length]; lia.
Qed.

Lemma found_conf (s s' : server E) els x : same_conf s s' -> found s' els x = found s els x.
Proof. intros Hc. unfold QueueSpec.found. by rewrite (rz_new_conf s s' Hc). Qed.

(** ** One more message at a replica *)

Section Message.
Context (T : nat) (lg lg' : list (list string)) (i : nat) (s : server E) (g : list nat) (els : gmap string rze) (es : list zentry).
Context (x : string) (c : rz_cmd) (m : nat) (e : rze) (acts : list zact) (ex : list rz_cmd).
Context (HT : (T < TT)%nat) (Hi : (i < N)%nat) (Hlg : Forall (rz_entry T) lg) (Hlen : (length lg <= T)%nat).
Context (Hrep : rz_replica T lg i s g) (Hv : cview s K els es) (Hd : ((TT - T) * per_step <= draws (rng s))%nat).
Context (Hel : forall y, rz_elem_ok lg i g s els es y).
Context (He : found s els x = Ok e) (Hat : rz_elem_at N i ex e acts (ops_got lg g x)) (Hz : zscore x es = zmirror None acts).
Context (Hown : forall b, b ∈ all_ops lg x -> vid (rz_t b) = Z.of_nat i -> b ∈ ex).
(** The log with the message. *)
Context (Hgot : forall y, ops_got lg' g y = ops_got lg g y) (Hoth : forall y, y <> x -> all_ops lg' y = all_ops lg y).
Context (Hll : (length lg <= length lg')%nat) (Hh : valid_history rz_t N (all_ops lg' x)).
Context (Hp : parsed lg' m = Some (x, c)) (Hmg : m ∉ g).
Context (Hnew : forall b, b ∈ all_ops lg' x -> b ∈ all_ops lg x \/ (b = c /\ ready rz_t (n := N) ex c)).
Context (Hints : ints_below BOUND (omap rz_op_value (ops_got lg' (g ++ [m]) x))).

Lemma message_acts e' new ex' :
  rz_elem_at N i ex' e' (acts ++ new) (ops_got lg g x ++ [c]) ->
  acts_ok s es new /\ (length new * S (length es + length new) <= per_step)%nat.
Proof.
  intros Hat'. pose proof (rz_entries T lg i s g els es Hlg Hi (zr_in _ _ _ _ _ Hrep) Hv Hel) as Hes.
  pose proof (got_length g _ (zr_nodup _ _ _ _ _ Hrep) (zr_in _ _ _ _ _ Hrep)) as Hg.
  assert (length new <= S (length g))%nat as Hn.
  { destruct Hat' as (_ & [_ _ Hc _] & Hpm & _). cbn [fst snd] in *. apply Permutation_length in Hpm. rewrite !length_app in *. cbn [length] in *.
    pose proof (ops_got_length (parse := rz_parse) lg g x). lia. }
  assert (length new * S (length es + length new) <= per_step)%nat as Hcost.
  { unfold per_step. apply Nat.mul_le_mono; lia. }
  split; [|done]. split; [unfold INT_MAX in *; lia| |].
  - replace (TT - T)%nat with (S (TT - S T)) in Hd by lia. cbn [Nat.mul] in Hd. lia.
  - intros sc Hsc _. destruct Hat' as (_ & [_ _ _ Hi'] & Hpm & _). cbn [fst snd] in *.
    destruct (Hi') with (sc := sc) as (z & -> & Hzb); [|apply elem_of_app; by right|by apply prints_back_Z].
    eapply ints_below_sub; [|exact Hints]. rewrite (ops_got_snoc _ _ _ _ _ _ Hp), decide_True, Hgot, <- Hpm, omap_app by done. by apply submseteq_inserts_r.
Qed.

Lemma message_elems s' es' e' new ex' y :
  rz_elem_at N i ex' e' (acts ++ new) (ops_got lg g x ++ [c]) -> ex `prefix_of` ex' ->
  (ready rz_t (n := N) ex c -> ex ++ [c] `prefix_of` ex') ->
  same_conf s s' -> scores_follow es es' x new -> rz_elem_ok lg' i (g ++ [m]) s' (<[x := e']> els) es' y.
Proof.
  intros Hat' [k1 Hk1] Hrd Hc Hsc. unfold rz_elem_ok. rewrite (ops_got_snoc _ _ _ _ _ _ Hp), Hgot, Hsc.
  destruct (decide (x = y)) as [<-|Hne].
  - exists e', (acts ++ new), ex'. unfold QueueSpec.found at 1. rewrite lookup_insert_eq, decide_True by done. split_and!; [done|done| |].
    + rewrite Hz. unfold zmirror. by rewrite foldl_app.
    + intros b Hb Hv'. destruct (Hnew b Hb) as [Hb'|[-> Hr]].
      * rewrite Hk1. apply elem_of_app. left. by apply Hown.
      * destruct (Hrd Hr) as [k Hk]. rewrite Hk. apply elem_of_app. left. apply elem_of_app. right. by apply list_elem_of_singleton.
  - destruct (Hel y) as (e1 & a1 & x1 & H1 & H2 & H3 & H4). exists e1, a1, x1. rewrite app_nil_r, decide_False by done. split_and!; [|done|done|].
    + rewrite (found_conf _ _ _ _ Hc). unfold QueueSpec.found in *. by rewrite lookup_insert_ne.
    + by rewrite Hoth by done.
Qed.

Lemma rz_message :
  exists e' new, rz_effect (e, []) c = Ok (e', new) /\ acts_ok s es new /\
    forall s' es', moved s s' K (<[x := e']> els) es es' (length new) -> scores_follow es es' x new ->
      rz_replica (S T) lg' i s' (g ++ [m]).
Proof.
  pose proof (parsed_lt _ _ _ Hp) as Hml. pose proof Hrep as [Hc Hid Hl Hnd Hin _].
  assert (Forall (fun k => k < length lg')%nat g) as Hin' by (eapply Forall_impl; [exact Hin|]; cbn; lia).
  destruct (got_snoc g m (length lg') Hnd Hin' Hmg Hml) as [Hnd' Hin''].
  assert ((c :: ops_got lg g x) ⊆ all_ops lg' x) as Hsub.
  { intros b [->|Hb]%elem_of_cons; (eapply got_in_all; [exact Hin''|]); rewrite (ops_got_snoc _ _ _ _ _ _ Hp), decide_True, Hgot by done;
      apply elem_of_app; [right; by apply list_elem_of_singleton|by left]. }
  destruct (rz_elem_effect N i _ ex e acts _ c Hh Hat Hsub) as (e' & new & ex' & Heff & Hat' & Hpre & Hrd).
  destruct (message_acts e' new ex' Hat') as [Hok Hcost]. exists e', new. split_and!; [done|done|].
  intros s' es' [Hconf Hv' _ Hdr] Hsc. pose proof Hconf as (Hc' & Hid' & Hl' & _). split; try congruence; try done.
  exists (<[x := e']> els), es'. split_and!; [done| |].
  - replace (TT - T)%nat with (S (TT - S T)) in Hd by lia. cbn [Nat.mul] in Hd. lia.
  - intros y. by eapply message_elems.
Qed.
End Message.

(** ** Steps of the system *)

Lemma rz_replica_mono T lg i s g : rz_replica T lg i s g -> rz_replica (S T) lg i s g.
Proof.
  intros [? ? ? ? ? (els & es & ? & ? & ?)]. split; try done. exists els, es. split_and!; try done.
  etrans; [|done]. apply Nat.mul_le_mono_r. lia.
Qed.

(** A message of another replica does not concern this one yet. *)
Lemma rz_replica_log T lg i s g l x c :
  rz_replica T lg i s g -> rz_parse l = Some (x, c) -> vid (rz_t c) <> Z.of_nat i -> rz_replica T (lg ++ [l]) i s g.
Proof.
  intros [? ? ? ? Hin (els & es & ? & ? & Hel)] Hp Hne. split; try done.
  - eapply Forall_impl; [exact Hin|]. intros m Hm. cbn beta in *. rewrite length_app. lia.
  - exists els, es. split_and!; try done. intros y. destruct (Hel y) as (e & acts & ex & H1 & H2 & H3 & H4). exists e, acts, ex.
    rewrite ops_got_app by done. split_and!; try done. intros b Hb Hv. rewrite (ops_got_all _ _ _ _ _ Hp) in Hb.
    apply elem_of_app in Hb as [Hb|Hb]; [by apply H4|]. case_decide; [|by apply elem_of_nil in Hb].
    apply list_elem_of_singleton in Hb as ->. done.
Qed.

Lemma rz_sys_idle acts a st : rz_sys_ok acts st -> rz_sys_ok (acts ++ [a]) st.
Proof.
  intros [? ? ? Hlg ? Hv Hr]. split; try done; rewrite ?length_app, ?omap_app; cbn [length].
  - lia.
  - eapply rz_log_mono; [|exact Hlg]. lia.
  - by apply sublist_inserts_r.
  - intros i s g Hs Hg. rewrite Nat.add_1_r. apply rz_replica_mono. by apply Hr.
Qed.

Lemma rz_got_ints acts lg g x :
  log_values lg `sublist_of` omap quser_value acts -> ints_below BOUND (omap quser_value acts) -> NoDup g ->
  Forall (fun m => m < length lg)%nat g -> ints_below BOUND (omap rz_op_value (ops_got lg g x)).
Proof.
  intros Hlv Hints Hnd Hin. eapply ints_below_sub; [|exact Hints]. etrans; [by apply values_got|by apply sublist_submseteq].
Qed.

(** What a step needs to know of a replica and an element. *)
Lemma rz_at acts st i s x :
  rz_sys_ok acts st -> (length acts <= TT)%nat -> servers st !! i = Some s ->
  exists g els es e a ex, got st !! i = Some g /\ (i < N)%nat /\ rz_replica (length acts) (log st) i s g /\ 0 < p2p_count s /\
    cview s K els es /\ ((TT - length acts) * per_step <= draws (rng s))%nat /\ (forall y, rz_elem_ok (log st) i g s els es y) /\
    found s els x = Ok e /\ rz_elem_at N i ex e a (ops_got (log st) g x) /\ zscore x es = zmirror None a /\
    (forall b, b ∈ all_ops (log st) x -> vid (rz_t b) = Z.of_nat i -> b ∈ ex).
Proof.
  intros Hok HT Hs. pose proof (lookup_lt_Some _ _ _ Hs) as Hi. rewrite (zs_servers _ _ Hok) in Hi.
  destruct (lookup_lt_is_Some_2 (got st) i) as [g Hg]; [by rewrite (zs_got _ _ Hok)|].
  pose proof (zs_replicas _ _ Hok i s g Hs Hg) as Hr. destruct (zr_state _ _ _ _ _ Hr) as (els & es & Hv & Hd & Hel).
  destruct (Hel x) as (e & a & ex & H1 & H2 & H3 & H4). exists g, els, es, e, a, ex. split_and!; try done.
  rewrite (zr_count _ _ _ _ _ Hr). lia.
Qed.

(** A replica that answered without changing an element. *)
Lemma rz_replica_same T lg i s s' g els es :
  rz_replica T lg i s g -> (forall y, rz_elem_ok lg i g s els es y) -> ((TT - T) * per_step <= draws (rng s))%nat ->
  moved s s' K els es es 0 -> rz_replica T lg i s' g.
Proof.
  intros [Hc Hi Hl ? ? _] Hel Hd [Hconf Hv _ Hdr]. pose proof Hconf as (Hc' & Hi' & Hl' & _).
  split; try congruence; try done. exists els, es. split_and!; [done|lia|]. intros y.
  destruct (Hel y) as (e & a & ex & H1 & H2). exists e, a, ex. by rewrite (found_conf _ _ _ _ Hconf).
Qed.

(** The history with an accepted operation. *)
Lemma rz_accepted_op acts st i g x e a ex u c str :
  rz_sys_ok acts st -> (length acts < TT)%nat -> (i < N)%nat -> Forall (fun m => m < length (log st))%nat g ->
  rz_elem_at N i ex e a (ops_got (log st) g x) ->
  (forall b, b ∈ all_ops (log st) x -> vid (rz_t b) = Z.of_nat i -> b ∈ ex) ->
  rz_user e u = Some c -> sdsToVC str = Ok (rz_t c) ->
  let lg' := log st ++ [rz_args K x u ++ [str]] in
  rz_parse (rz_args K x u ++ [str]) = Some (x, c) /\ rz_entry (S (length acts)) (rz_args K x u ++ [str]) /\
  vid (rz_t c) = Z.of_nat i /\ ready rz_t (n := N) ex c /\ forall y, valid_history rz_t N (all_ops lg' y).
Proof.
  intros Hok HT Hi Hin Hat Hown Hu Hstr lg'. pose proof (rz_parse_user K x u e c str Hu Hstr) as Hp.
  destruct (rz_clock_ok _ _ _ _ _ _ _ _ (zs_log _ _ Hok) Hi Hin Hat) as (Hvec & Hid & Hwf & Hle & Hsub & _).
  destruct (rz_user_cases e u c Hu) as [Htick _]. destruct (rz_tick_ok _ _ Hwf Hle ltac:(lia)) as (Hwf' & Hle' & Hent).
  rewrite <- Htick in Hwf', Hle', Hent. assert (vid (rz_t c) = Z.of_nat i) as Hvid by (by rewrite Htick).
  assert (forall j, 0 <= j < Z.of_nat N -> entry (vector (rz_t c)) j =
    entry (join rz_t N ex) j + (if decide (j = vid (rz_t c)) then 1 else 0)) as Hent'.
  { intros j Hj. by rewrite Hent, Hvec, Hvid, Hid. }
  split_and!; [done| |done| |].
  - exists x, u, e, c, str. by split_and!.
  - unfold ready. apply (next_event_entry N); [apply join_length|done|]. split.
    + intros j Hj Hne. rewrite Hent', decide_False by done. cbn [vector]. lia.
    + unfold own. rewrite Hent', decide_True by (done || by apply (wf_id _ _ Hwf')). done.
  - intros y. unfold lg'. rewrite (ops_got_all _ _ _ _ _ Hp). case_decide as Hxy; [subst y|rewrite app_nil_r; apply (zs_hist _ _ Hok)].
    eapply (valid_history_snoc rz_t N _ ex); [apply (zs_hist _ _ Hok)|apply Hat|done|done|done|].
    intros b Hb Hv. apply Hown; [done|congruence].
Qed.

Section Client.
Context (acts : list action) (st : sys) (i : nat) (x : string) (u : quser) (s : server E).
Context (Hok : rz_sys_ok acts st) (HT : (length acts < TT)%nat).
Context (Hints : ints_below BOUND (omap quser_value (acts ++ [Client i x u]))) (Hs : servers st !! i = Some s).

(** What a replica does with a command of its client. *)
Lemma rz_client_issue :
  exists g els es e a ex s' m, got st !! i = Some g /\ (i < N)%nat /\ rz_replica (length acts) (log st) i s g /\
    rz_elem_at N i ex e a (ops_got (log st) g x) /\ issue s (rz_args K x u) = Ok (s', m) /\
    match rz_user e u with
    | None => m = None /\ moved s s' K els es es 0 /\ rz_replica (length acts) (log st) i s' g
    | Some c => exists str, m = Some (rz_args K x u ++ [str]) /\
        rz_parse (rz_args K x u ++ [str]) = Some (x, c) /\ rz_entry (S (length acts)) (rz_args K x u ++ [str]) /\
        vid (rz_t c) = Z.of_nat i /\ ready rz_t (n := N) ex c /\
        (forall y, valid_history rz_t N (all_ops (log st ++ [rz_args K x u ++ [str]]) y)) /\
        rz_replica (S (length acts)) (log st ++ [rz_args K x u ++ [str]]) i s' (g ++ [length (log st)])
    end.
Proof.
  destruct (rz_at acts st i s x Hok ltac:(lia) Hs) as (g & els & es & e & a & ex & Hg & Hi & Hr & Hm & Hv & Hd & Hel & He & Hat & Hz & Hown).
  pose proof (zr_in _ _ _ _ _ Hr) as Hin. pose proof (zr_nodup _ _ _ _ _ Hr) as Hnd.
  destruct (rz_clock_ok _ _ _ _ _ _ _ _ (zs_log _ _ Hok) Hi Hin Hat) as (_ & _ & Hwf & _).
  assert (Hmsg : forall c str, rz_user e u = Some c -> sdsToVC str = Ok (rz_t c) ->
    exists e' new, rz_effect (e, []) c = Ok (e', new) /\ acts_ok s es new /\
      forall s' es', moved s s' K (<[x := e']> els) es es' (length new) -> scores_follow es es' x new ->
        rz_replica (S (length acts)) (log st ++ [rz_args K x u ++ [str]]) i s' (g ++ [length (log st)])).
  { intros c str Hu Hstr.
    destruct (rz_accepted_op acts st i g x e a ex u c str Hok HT Hi Hin Hat Hown Hu Hstr) as (Hp & Hent & Hvid & Hrd & Hh).
    set (l := rz_args K x u ++ [str]) in *.
    apply (rz_message (length acts) (log st) (log st ++ [l]) i s g els es x c (length (log st)) e a ex); try done.
    - apply (zs_log _ _ Hok).
    - apply (zs_len _ _ Hok).
    - intros y. by apply ops_got_app.
    - intros y Hne. by rewrite (ops_got_all _ _ _ _ _ Hp), decide_False, app_nil_r by done.
    - rewrite length_app. lia.
    - by rewrite parsed_new.
    - intros Hlast. rewrite Forall_forall in Hin. specialize (Hin _ Hlast). cbn in Hin. lia.
    - intros b Hb. rewrite (ops_got_all _ _ _ _ _ Hp), decide_True in Hb by done.
      apply elem_of_app in Hb as [Hb| ->%list_elem_of_singleton]; [by left|by right].
    - destruct (got_snoc g (length (log st)) (length (log st ++ [l]))) as [Hnd' Hin']; try done.
      { eapply Forall_impl; [exact Hin|]. intros k Hk. cbn beta in *. rewrite length_app. lia. }
      { intros Hlast. rewrite Forall_forall in Hin. specialize (Hin _ Hlast). cbn in Hin. lia. }
      { rewrite length_app. cbn. lia. }
      eapply rz_got_ints; [|exact Hints|done|done]. eapply log_values_new; [apply (zs_values _ _ Hok)|exact Hp|].
      destruct (rz_user_cases e u c Hu) as [_ Hval]. apply Hval. }
  destruct (rz_issue s x els es e u N) as (s' & m & Hiss & Hcase); try done; [apply Hr| |].
  { intros c Hu. destruct (rz_now N e Hwf HN) as (str & _ & Hstr). destruct (rz_user_cases e u c Hu) as [Htick _].
    rewrite <- Htick in Hstr. destruct (Hmsg c str Hu Hstr) as (e' & new & H1 & H2 & _). eauto. }
  exists g, els, es, e, a, ex, s', m. split_and!; try done. destruct (rz_user e u) as [c|] eqn:Hu.
  - destruct Hcase as (str & e' & new & es' & -> & Hstr & Heff & Hmv & Hsc).
    destruct (rz_accepted_op acts st i g x e a ex u c str Hok HT Hi Hin Hat Hown Hu Hstr) as (Hp & Hent & Hvid & Hrd & Hh).
    destruct (Hmsg c str eq_refl Hstr) as (e1 & new1 & H1 & _ & Hrep). assert (e1 = e' /\ new1 = new) as [-> ->] by (split; congruence).
    exists str. split_and!; try done. by eapply Hrep.
  - destruct Hcase as (-> & Hmv). split_and!; try done. by eapply rz_replica_same.
Qed.

Lemma rz_step_client :
  exists st', sys_step st (Client i x u) = Ok st' /\ rz_sys_ok (acts ++ [Client i x u]) st'.
Proof.
  cbn [System.sys_step]. rewrite Hs.
  destruct rz_client_issue as (g & els & es & e & a & ex & s' & m & Hg & Hi & Hr & Hat & -> & Hcase). cbn [mbind res_bind].
  destruct (rz_user e u) as [c|] eqn:Hu.
  - destruct Hcase as (str & -> & Hp & Hent & Hvid & Hrd & Hh & Hrep). eexists. split; [done|].
    set (l := rz_args K x u ++ [str]) in *. destruct Hok as [Hsv Hgt Hlen Hlg _ Hval Hreps].
    split; cbn [servers got log].
    + by rewrite length_insert.
    + by rewrite length_alter.
    + rewrite !length_app. cbn [length]. lia.
    + rewrite length_app, Nat.add_1_r. apply Forall_app. split; [eapply rz_log_mono; [|exact Hlg]; lia|by constructor].
    + done.
    + eapply log_values_new; [exact Hval|exact Hp|]. by destruct (rz_user_cases e u c Hu) as [_ ?].
    + intros j sj gj Hsj Hgj. rewrite (alter_update _ _ _ _ Hg) in Hgj. rewrite length_app, Nat.add_1_r.
      destruct (lookup_update _ _ _ _ _ Hsj) as [[-> ->]|[Hne Hsj']], (lookup_update _ _ _ _ _ Hgj) as [[? ->]|[? Hgj']]; try done.
      apply rz_replica_mono. eapply rz_replica_log; [by apply Hreps|exact Hp|lia].
  - destruct Hcase as (-> & Hmv & Hrep). eexists. split; [done|]. apply rz_sys_idle.
    destruct Hok as [Hsv Hgt Hlen Hlg Hh Hval Hreps]. split; cbn [servers got log]; try done; [by rewrite length_insert|].
    intros j sj gj Hsj Hgj. destruct (lookup_update _ _ _ _ _ Hsj) as [[-> ->]|[Hne Hsj']]; [|by apply Hreps].
    by assert (gj = g) as -> by congruence.
Qed.
End Client.

(** What a replica does with a message. *)
Lemma rz_deliver_message acts st j m s l g :
  rz_sys_ok acts st -> (length acts < TT)%nat -> ints_below BOUND (omap quser_value acts) ->
  servers st !! j = Some s -> log st !! m = Some l -> got st !! j = Some g -> m ∉ g ->
  exists s', receive s l = Ok s' /\ rz_replica (S (length acts)) (log st) j s' (g ++ [m]).
Proof.
  intros Hok HT Hints Hs Hl Hg Hmg.
  destruct (Forall_lookup_1 _ _ _ _ (zs_log _ _ Hok) Hl) as (x & u & e0 & c & str & -> & Hu & Hstr & Hle).
  destruct (rz_at acts st j s x Hok ltac:(lia) Hs) as (g' & els & es & e & a & ex & Hg' & Hi & Hr & Hm & Hv & Hd & Hel & He & Hat & Hz & Hown).
  assert (g' = g) as -> by congruence. pose proof (lookup_lt_Some _ _ _ Hl) as Hml.
  assert (parsed (log st) m = Some (x, c)) as Hp by (unfold System.parsed; rewrite Hl; by eapply rz_parse_user).
  destruct (rz_message (length acts) (log st) (log st) j s g els es x c m e a ex) as (e' & new & Heff & Hok' & Hrep); try done.
  { apply (zs_log _ _ Hok). }
  { apply (zs_len _ _ Hok). }
  { apply (zs_hist _ _ Hok). }
  { intros b Hb. by left. }
  { destruct (got_snoc g m (length (log st)) (zr_nodup _ _ _ _ _ Hr) (zr_in _ _ _ _ _ Hr) Hmg Hml).
    eapply rz_got_ints; [apply (zs_values _ _ Hok)|done..]. }
  destruct (rz_receive_msg s x els es e e' new u e0 c str) as (s' & es' & -> & Hmv & Hsc); try done. exists s'. split; [done|]. by eapply Hrep.
Qed.

Lemma rz_step_deliver acts st j m :
  rz_sys_ok acts st -> (length acts < TT)%nat -> ints_below BOUND (omap quser_value acts) ->
  exists st', sys_step st (Deliver j m) = Ok st' /\ rz_sys_ok (acts ++ [Deliver j m]) st'.
Proof.
  intros Hok HT Hints. cbn [System.sys_step].
  destruct (servers st !! j) as [s|] eqn:Hs; [|eexists; split; [done|by apply rz_sys_idle]].
  destruct (log st !! m) as [l|] eqn:Hl; [|eexists; split; [done|by apply rz_sys_idle]].
  destruct (got st !! j) as [g|] eqn:Hg; [|eexists; split; [done|by apply rz_sys_idle]].
  case_decide as Hmg; [eexists; split; [done|by apply rz_sys_idle]|].
  destruct (rz_deliver_message acts st j m s l g) as (s' & -> & Hrep); try done. cbn [mbind res_bind]. eexists. split; [done|].
  pose proof (rz_sys_idle acts (Deliver j m) st Hok) as [Hsv Hgt Hlen Hlg Hh Hval Hreps].
  split; cbn [servers got log]; try done; [by rewrite length_insert..|].
  intros i si gi Hsi Hgi. destruct (lookup_update _ _ _ _ _ Hsi) as [[-> ->]|[Hne Hsi']], (lookup_update _ _ _ _ _ Hgi) as [[? ->]|[? Hgi']]; try done.
  - by rewrite length_app, Nat.add_1_r.
  - by apply Hreps.
Qed.

(** ** Runs *)

Lemma rz_step_ok acts a st :
  rz_sys_ok acts st -> (length acts < TT)%nat -> ints_below BOUND (omap quser_value (acts ++ [a])) ->
  exists st', sys_step st a = Ok st' /\ rz_sys_ok (acts ++ [a]) st'.
Proof.
  intros Hok HT Hints. destruct a as [i x u|j m].
  - destruct (servers st !! i) as [s|] eqn:Hs; [by eapply rz_step_client|].
    exists st. cbn [System.sys_step]. rewrite Hs. split; [done|by apply rz_sys_idle].
  - apply rz_step_deliver; try done. eapply ints_below_sub; [|exact Hints]. rewrite omap_app. by apply submseteq_inserts_r.
Qed.

Lemma rz_run_ok acts' : forall acts st,
  rz_sys_ok acts st -> (length (acts ++ acts') <= TT)%nat -> ints_below BOUND (omap quser_value (acts ++ acts')) ->
  exists st', sys_run st acts' = Ok st' /\ rz_sys_ok (acts ++ acts') st'.
Proof.
  induction acts' as [|a acts' IH]; intros acts st Hok Hlen Hints; [exists st; by rewrite app_nil_r|].
  replace (a :: acts') with ([a] ++ acts') in Hlen, Hints |- * by done. rewrite app_assoc in Hlen, Hints |- *.
  destruct (rz_step_ok acts a st Hok) as (st1 & Hst & Hok1).
  { rewrite !length_app in Hlen. cbn in Hlen. lia. }
  { eapply ints_below_sub; [|exact Hints]. rewrite (omap_app _ (acts ++ [a])). by apply submseteq_inserts_r. }
  destruct (IH (acts ++ [a]) st1 Hok1 Hlen Hints) as (st2 & Hrun & Hok2). exists st2. split; [|done].
  unfold System.sys_run in *. cbn [app foldM]. by rewrite Hst.
Qed.

Lemma rz_init_ok cfg rss :
  length rss = N -> Forall (fun rs => TT * per_step <= draws rs)%nat rss -> rz_sys_ok [] (sys_init cfg rss).
Proof.
  intros Hn Hd. unfold sys_init. split; cbn [servers got log]; try done.
  - by rewrite length_imap.
  - by rewrite length_replicate.
  - intros x. apply valid_history_nil.
  - intros i s g Hs Hg. rewrite list_lookup_imap in Hs. destruct (rss !! i) as [rs|] eqn:Hrs; [|done].
    cbn in Hs. injection Hs as <-. apply lookup_replicate in Hg as [-> Hi]. rewrite Hn in Hi.
    split; cbn [boot p2p_count p2p_id replicas]; try done; [by rewrite Hn|constructor|].
    exists ∅, []. split_and!.
    + split; [done|done|]. intros p [c Hc]. done.
    + cbn [length]. rewrite Nat.sub_0_r. by apply (Forall_lookup_1 _ _ _ _ Hd Hrs).
    + intros x. destruct (rzeNew_reached N (Z.of_nat i) ltac:(lia)) as (e & He & _). exists e, [], [].
      unfold QueueSpec.found, rz_new. rewrite lookup_empty. cbn [boot p2p_count p2p_id]. rewrite Hn. split_and!; [done| |done|].
      * by apply rz_elem_fresh.
      * by intros c Hc%elem_of_nil.
Qed.

(** ** Answers *)

Lemma rz_answers acts st i j si sj gi gj x :
  rz_sys_ok acts st -> (length acts <= TT)%nat -> ints_below BOUND (omap quser_value acts) ->
  servers st !! i = Some si -> servers st !! j = Some sj -> got st !! i = Some gi -> got st !! j = Some gj -> gi ≡ₚ gj ->
  exists m m', ask rzscoreCommand "rzscore" K si x = Ok [score_reply m] /\
    ask rzscoreCommand "rzscore" K sj x = Ok [score_reply m'] /\ same_score m m'.
Proof.
  intros Hok HT Hints Hsi Hsj Hgi Hgj Hp.
  destruct (rz_at acts st i si x Hok HT Hsi) as (g1 & els1 & es1 & e1 & a1 & ex1 & Hg1 & Hi & Hr1 & _ & Hv1 & _ & _ & _ & Hat1 & Hz1 & _).
  destruct (rz_at acts st j sj x Hok HT Hsj) as (g2 & els2 & es2 & e2 & a2 & ex2 & Hg2 & Hj & Hr2 & _ & Hv2 & _ & _ & _ & Hat2 & Hz2 & _).
  assert (g1 = gi) as -> by congruence. assert (g2 = gj) as -> by congruence.
  exists (zscore x es1), (zscore x es2). split_and!; [by eapply ask_view|by eapply ask_view|]. rewrite Hz1, Hz2.
  pose proof (zr_nodup _ _ _ _ _ Hr1) as Hnd. pose proof (zr_in _ _ _ _ _ Hr1) as Hin.
  eapply (rz_elems_agree N i j _ ex1 ex2 e1 e2 a1 a2); [apply (zs_hist _ _ Hok x)|done|done|by apply perm_got| | |].
  - apply ops_got_nodup; [done|done|apply (vh_nodup _ _ _ (zs_hist _ _ Hok x))].
  - intros c Hc. by eapply got_in_all.
  - eapply rz_got_ints; [apply (zs_values _ _ Hok)|done..].
Qed.
End System.

(** ** Runs from the start *)

Definition rz_run_sys {E} `{!Cell rze E} (K : string) : sys E -> list (action quser) -> res (sys E) :=
  sys_run rz_table (rz_args K).
Definition rz_ask {E} (K : string) : server E -> string -> res (list reply) := ask rzscoreCommand "rzscore" K.

(** A run on [rss], the random numbers of each replica: the clocks of the
    messages fit the buffer of [sdsToVC], the clocks do not overflow, the
    values sent are integers that are added and printed exactly, and every
    replica has random numbers for its insertions. *)
Record rz_good_run (rss : list (list Z)) (acts : list (action quser)) : Prop := {
  zg_replicas : (0 < length rss <= VC_INT_BUF)%nat;
  zg_length : 2 * Z.of_nat (length acts) + 2 < INT_MAX;
  zg_values : ints_below BOUND (omap quser_value acts);
  zg_draws : Forall (fun rs => length acts * per_step (length acts) <= draws rs)%nat rss
}.

Section Runs.
Context {E : Type} `{!Cell rze E}.

Lemma rz_good_run_ok K cfg rss acts :
  rz_good_run rss acts ->
  exists st : sys E, rz_run_sys K (sys_init cfg rss) acts = Ok st /\ rz_sys_ok K (length rss) (length acts) acts st.
Proof.
  intros [Hn Hl Hv Hd]. apply (rz_run_ok K (length rss) (length acts) Hn Hl acts []); [by apply rz_init_ok|done|done].
Qed.


End Runs.

(** ** A concrete run *)

(** The increment of replica 1 reaches replica 2 before the add it saw. *)
Definition rz_sample : list (action quser) :=
  [Client 0 "a" (QAdd "5"); Deliver 1 0; Client 1 "a" (QIncr "2"); Deliver 2 1; Deliver 2 0; Deliver 0 1].
Definition rz_sample_draws : list (list Z) := replicate 3 (replicate 440 65535).
Definition rz_sample_end : res (sys rze) := rz_run_sys "q" (sys_init (mkZcfg 128 64) rz_sample_draws) rz_sample.

Lemma rz_sample_good : rz_good_run rz_sample_draws rz_sample.
Proof.
  split.
  - unfold VC_INT_BUF. cbn. lia.
  - unfold INT_MAX. cbn. lia.
  - assert (omap quser_value rz_sample = [double_of_Z 5; double_of_Z 2]) as -> by (by vm_compute).
    split; [|by vm_compute]. repeat (apply Forall_cons; split; [by vm_compute|]). done.
  - apply Forall_replicate. apply Nat.leb_le. vm_compute. reflexivity.
Qed.


Lemma rz_sample_got :
  exists st, rz_sample_end = Ok st /\ length (servers st) = 3%nat /\ got st = [[0; 1]; [0; 1]; [1; 0]]%nat.
Proof. apply (res_ok_with rz_sample_end (fun st => length (servers st) = 3%nat /\ got st = _)). vm_compute. done. Qed.

