(* ===== verification/TlaRmvwin.v ===== *)
(** * The TLA+ specification of the remove-win queue

    MET/TLA/rmvwin_crpq/rmvwin_rpq.tla: operations carry vector clocks, a
    process takes up a message when it is causally ready, adds and removes
    supersede what their clock covers.  The invariants the repository lets TLC
    check, [SEC] and [Rcd_Concurrent], hold for every number of processes. *)

From S2P Require Import Prelude Sds VectorClock Causal Double Exact TlaNet.

Module RmvwinRpq.

(** ** The algorithm *)

(** A record of [a_set]: [t], [pid], [v_inn] and [v_acq]. *)
Record rcd := mkRcd { rt : list Z; rpid : Z; v_inn : Z; v_acq : Z }.
Inductive payload := PAdd (pid : Z) (t : list Z) (val : Z) | PRem (pid : Z) (t : list Z) | PInc (pid : Z) (t : list Z) (val : Z).

#[global] Instance rcd_eq_dec : EqDecision rcd.
Proof. solve_decision. Defined.
#[global] Instance rcd_countable : Countable rcd.
Proof.
  refine (inj_countable' (fun r => (rt r, rpid r, v_inn r, v_acq r)) (fun '(t, p, i, a) => mkRcd t p i a) _). by intros [].
Defined.
#[global] Instance payload_eq_dec : EqDecision payload.
Proof. solve_decision. Defined.
#[global] Instance payload_countable : Countable payload.
Proof.
  refine (inj_countable'
    (fun p => match p with PAdd i t v => inl (i, t, v) | PRem i t => inr (inl (i, t)) | PInc i t v => inr (inr (i, t, v)) end)
    (fun x => match x with inl (i, t, v) => PAdd i t v | inr (inl (i, t)) => PRem i t | inr (inr (i, t, v)) => PInc i t v end) _).
  by intros [].
Defined.

Record local := mkLocal { a_set : gset rcd; r_set : gset (list Z); local_vc : list Z }.

Definition VC_Inc (vc : list Z) (self : nat) : list Z := alter (fun x => x + 1) self vc.
Definition VC_Max (a b : list Z) : list Z := zip_with (fun x y => if x <=? y then y else x) a b.
Definition VC_Less (a b : list Z) : bool := forallb (fun p => p.1 <=? p.2) (zip a b).
Definition VC_Concurrent (a b : list Z) : bool :=
  existsb (fun p => p.1 <? p.2) (zip a b) && existsb (fun p => p.1 >? p.2) (zip a b).

Section Spec.
Context (N : nat).

Definition Causally_Ready (msg : list Z) (pid : Z) (local : list Z) : bool :=
  forallb (fun j => if Z.of_nat (S j) =? pid then entry msg (Z.of_nat j) =? entry local (Z.of_nat j) + 1
                    else entry msg (Z.of_nat j) <=? entry local (Z.of_nat j)) (seq 0 N).

Definition _Lookup (s : local) : bool := bool_decide (a_set s <> ∅ /\ r_set s = ∅).

(** The prepare phases; [None] for the record with pid -1. *)
Inductive request := RAdd (v : Z) | RRem | RInc (i : Z).

Definition prepare (s : local) (self : nat) (r : request) : option payload :=
  let t := VC_Inc (local_vc s) self in
  let pid := Z.of_nat (S self) in
  match r with
  | RAdd x => if _Lookup s then None else Some (PAdd pid t x)
  | RInc i => if _Lookup s then Some (PInc pid t i) else None
  | RRem => if _Lookup s then Some (PRem pid t) else None
  end.

(** The effects. *)
Definition covered (t : list Z) (a : gset rcd) : gset rcd := filter (fun ar => VC_Less (rt ar) t = true) a.

Definition Add (s : local) (x : Z) (t : list Z) (pid : Z) : local :=
  mkLocal ((a_set s ∖ covered t (a_set s)) ∪ {[ mkRcd t pid x 0 ]})
          (r_set s ∖ filter (fun r => VC_Less r t = true) (r_set s)) (VC_Max (local_vc s) t).

Definition Remove (s : local) (t : list Z) : local :=
  mkLocal (a_set s ∖ covered t (a_set s)) (r_set s ∪ {[ t ]}) (VC_Max (local_vc s) t).

Definition Increase (s : local) (i : Z) (t : list Z) : local :=
  let inc_ars := covered t (a_set s) in
  mkLocal ((a_set s ∖ inc_ars) ∪ set_map (fun r => mkRcd (rt r) (rpid r) (v_inn r) (v_acq r + i)) inc_ars)
          (r_set s) (VC_Max (local_vc s) t).

Definition effect (s : local) (m : payload) : local :=
  match m with PAdd pid t x => Add s x t pid | PRem _ t => Remove s t | PInc _ t i => Increase s i t end.

Definition pt (m : payload) : list Z := match m with PAdd _ t _ | PRem _ t | PInc _ t _ => t end.
Definition ppid (m : payload) : Z := match m with PAdd p _ _ | PRem p _ | PInc p _ _ => p end.
Definition pval (m : payload) : Z := match m with PAdd _ _ v | PInc _ _ v => v | PRem _ _ => 0 end.

Definition msg_ready (s : local) (m : payload) : bool := Causally_Ready (pt m) (ppid m) (local_vc s).

Definition fresh : local := mkLocal ∅ ∅ (replicate N 0).

(** ** The state as a function of the operations executed *)

Definition pts (m : payload) : vc := mkVc (pt m) (ppid m - 1).
Definition is_add (m : payload) : bool := match m with PAdd _ _ _ => true | _ => false end.
Definition is_rem (m : payload) : bool := match m with PRem _ _ => true | _ => false end.

(** The increments that saw the add [b], and its record. *)
Definition inc_seen (b m : payload) : option Z :=
  match m with PInc _ t v => if VC_Less (pt b) t then Some v else None | _ => None end.
Definition record (l : list payload) (b : payload) : rcd := mkRcd (pt b) (ppid b) (pval b) (zsum (omap (inc_seen b) l)).

(** Adds that no add or remove superseded, removes that no add did. *)
Definition live_add (l : list payload) (b : payload) : Prop :=
  b ∈ l /\ is_add b = true /\ forall c, c ∈ l -> is_add c || is_rem c = true -> ~ vlt (pt b) (pt c).
Definition live_rem (l : list payload) (b : payload) : Prop :=
  b ∈ l /\ is_rem b = true /\ forall c, c ∈ l -> is_add c = true -> ~ vlt (pt b) (pt c).

Lemma VC_Max_update a b : length a = length b -> VC_Max a b = vec_update a b.
Proof.
  revert b. induction a as [|x a IH]; intros [|y b] Hl; try done. cbn. injection Hl as Hl. unfold VC_Max in IH. rewrite IH by done. f_equal.
  rewrite Z.gtb_ltb. destruct (Z.leb_spec x y), (Z.ltb_spec x y); lia.
Qed.

Lemma VC_Less_vle a b : length a = length b -> VC_Less a b = true <-> vle a b.
Proof.
  revert b. induction a as [|x a IH]; intros [|y b] Hl; try done.
  injection Hl as Hl. unfold VC_Less in *. cbn. rewrite andb_true_iff, Z.leb_le, vle_cons, IH by done. done.
Qed.

Lemma VC_Concurrent_spec a b : length a = length b -> ~ vle a b -> ~ vle b a -> VC_Concurrent a b = true.
Proof.
  assert (forall a b, length a = length b -> ~ vle b a -> existsb (fun p => p.1 <? p.2) (zip a b) = true) as Hlt.
  { clear. intros a. induction a as [|x a IH]; intros [|y b] Hl Hn; try done.
    injection Hl as Hl. cbn. apply orb_true_iff. destruct (Z.ltb_spec x y); [by left|right]. apply IH; [done|].
    intros Hv. apply Hn. by apply vle_cons. }
  intros Hl Hab Hba. unfold VC_Concurrent. rewrite Hlt by done. cbn. rewrite <- (Hlt b a) by done. clear. revert b.
  induction a as [|x a IH]; intros [|y b]; try done. cbn. rewrite IH. f_equal. apply Z.gtb_ltb.
Qed.

(** ** One more operation *)

Section Step.
Context (l : list payload) (o : payload) (Hl : causal_seq pts N (l ++ [o])).

Lemma step_parts : causal_seq pts N l /\ Forall (fun m => length (pt m) = N) l /\ length (pt o) = N /\
  forall b, b ∈ l -> ~ vle (pt o) (pt b).
Proof using Hl.
  inversion Hl as [|l' o' Hseq Hwf Hnext Hdep Heq]; [by destruct l|]. apply app_inj_tail in Heq as [-> ->]. split_and!; [done| | |].
  - eapply Forall_impl; [by eapply causal_seq_wf|]. intros m Hm. apply (wf_size _ _ Hm).
  - apply (wf_size _ _ Hwf).
  - intros b Hb. by apply (causal_not_above pts N l o b).
Qed.

Lemma less_iff b : b ∈ l -> VC_Less (pt b) (pt o) = true <-> vlt (pt b) (pt o).
Proof using Hl.
  intros Hb. destruct step_parts as (_ & Hlen & Ho & Hna). rewrite Forall_forall in Hlen.
  rewrite VC_Less_vle by (by rewrite (Hlen b Hb)). split; [|by intros [? _]]. intros Hle. split; [done|]. intros Heq. apply (Hna b Hb). by rewrite Heq.
Qed.

Lemma less_cases b : b ∈ l -> (VC_Less (pt b) (pt o) = true /\ vlt (pt b) (pt o)) \/ (VC_Less (pt b) (pt o) <> true /\ ~ vlt (pt b) (pt o)).
Proof using Hl. intros Hb. pose proof (less_iff b Hb) as Hi. destruct (VC_Less _ _); [left|right]; (split; [done|]); [by apply Hi|intros H; by apply Hi in H]. Qed.

Lemma live_add_step b :
  live_add (l ++ [o]) b <->
    (live_add l b /\ (is_add o || is_rem o = true -> ~ vlt (pt b) (pt o))) \/ (b = o /\ is_add o = true).
Proof using Hl.
  destruct step_parts as (_ & _ & _ & Hna). unfold live_add. setoid_rewrite elem_of_app. setoid_rewrite list_elem_of_singleton. split.
  - intros ([Hb| ->] & Ha & Hc); [left|by right]. split; [split_and!; [done|done|]|]; intros; apply Hc; auto.
  - intros [[(Hb & Ha & Hc) Ho]|[-> Ha]].
    + split_and!; [by left|done|]. intros c [Hin| ->]; auto.
    + split_and!; [by right|done|]. intros c [Hin| ->] _ [Hle Hne]; [by eapply Hna|done].
Qed.

Lemma live_rem_step b :
  live_rem (l ++ [o]) b <->
    (live_rem l b /\ (is_add o = true -> ~ vlt (pt b) (pt o))) \/ (b = o /\ is_rem o = true).
Proof using Hl.
  destruct step_parts as (_ & _ & _ & Hna). unfold live_rem. setoid_rewrite elem_of_app. setoid_rewrite list_elem_of_singleton. split.
  - intros ([Hb| ->] & Ha & Hc); [left|by right]. split; [split_and!; [done|done|]|]; intros; apply Hc; auto.
  - intros [[(Hb & Ha & Hc) Ho]|[-> Ha]].
    + split_and!; [by left|done|]. intros c [Hin| ->]; auto.
    + split_and!; [by right|done|]. intros c [Hin| ->] _ [Hle Hne]; [by eapply Hna|done].
Qed.

Lemma record_step b :
  record (l ++ [o]) b = match o with
    | PInc _ t v => if VC_Less (pt b) t then mkRcd (pt b) (ppid b) (pval b) (v_acq (record l b) + v) else record l b
    | _ => record l b end.
Proof using.
  clear Hl. assert (forall k x, zsum (k ++ [x]) = zsum k + x) as Hsnoc by (intros k x; induction k as [|y k IH]; cbn; unfold zsum in *; cbn in *; lia).
  unfold record. rewrite omap_app. destruct o as [p t v|p t|p t v]; cbn [omap list_omap inc_seen]; rewrite ?app_nil_r; try done.
  destruct (VC_Less _ _); [|by rewrite app_nil_r]. cbn [v_acq]. by rewrite Hsnoc.
Qed.

(** Nothing executed before it saw the new operation. *)
Lemma record_new : is_add o = true -> record (l ++ [o]) o = mkRcd (pt o) (ppid o) (pval o) 0.
Proof using Hl.
  intros Ha. rewrite record_step. assert (record l o = mkRcd (pt o) (ppid o) (pval o) 0) as ->; [|by destruct o].
  unfold record. f_equal. assert (omap (inc_seen o) l = []) as ->; [|done]. destruct step_parts as (_ & Hlen & Ho & Hna).
  clear Ha Hl. induction l as [|c k IH]; [done|]. rewrite omap_cons_eq. apply Forall_cons in Hlen as [Hc Hlen].
  rewrite IH; [|done|intros b Hb; apply Hna; by right]. destruct c as [| |p t v]; cbn [inc_seen]; try done.
  destruct (VC_Less (pt o) t) eqn:Hv; [|done]. exfalso. apply (Hna (PInc p t v)); [by left|]. apply VC_Less_vle; [cbn in Hc; cbn; lia|done].
Qed.
End Step.

Lemma payload_case (m : payload) :
  (exists p t v, m = PAdd p t v) \/ (exists p t, m = PRem p t) \/ (exists p t v, m = PInc p t v).
Proof. destruct m; eauto 6. Qed.

(** What the sets hold after an execution. *)
Record describes (l : list payload) (s : local) : Prop := {
  ds_a : forall r, r ∈ a_set s <-> exists b, live_add l b /\ r = record l b;
  ds_r : forall t, t ∈ r_set s <-> exists b, live_rem l b /\ t = pt b;
  ds_vc : local_vc s = join pts N l
}.

Section Effect.
Context (l : list payload) (o : payload) (s : local) (Hl : causal_seq pts N (l ++ [o])) (Hs : describes l s).

Lemma effect_vc : local_vc (effect s o) = join pts N (l ++ [o]).
Proof using Hl Hs.
  destruct (step_parts l o Hl) as (_ & _ & Ho & _). rewrite join_snoc, <- (ds_vc _ _ Hs). cbn [pts vector].
  rewrite <- VC_Max_update; [destruct (payload_case o) as [(? & ? & ? & ->)|[(? & ? & ->)|(? & ? & ? & ->)]]; done|]. by rewrite (ds_vc _ _ Hs), join_length.
Qed.

(** A record of the set before, covered by the operation or not. *)
Lemma covered_iff r : r ∈ covered (pt o) (a_set s) <-> exists b, live_add l b /\ r = record l b /\ vlt (pt b) (pt o).
Proof using Hl Hs.
  unfold covered. rewrite elem_of_filter, (ds_a _ _ Hs). split.
  - intros [Hv (b & Hb & ->)]. exists b. split_and!; [done..|]. apply (less_iff l o Hl b); [apply Hb|done].
  - intros (b & Hb & -> & Hv). split; [|by exists b]. apply (less_iff l o Hl b); [apply Hb|done].
Qed.

Lemma uncovered_iff r : r ∈ a_set s ∖ covered (pt o) (a_set s) <-> exists b, live_add l b /\ r = record l b /\ ~ vlt (pt b) (pt o).
Proof using Hl Hs.
  rewrite elem_of_difference, (ds_a _ _ Hs). unfold covered. rewrite elem_of_filter, (ds_a _ _ Hs). split.
  - intros [(b & Hb & ->) Hn]. exists b. split_and!; [done..|]. intros Hv. apply Hn. split; [|by exists b].
    apply (less_iff l o Hl b); [apply Hb|done].
  - intros (b & Hb & -> & Hv). split; [by exists b|]. intros [Hless _]. apply Hv. apply (less_iff l o Hl b); [apply Hb|done].
Qed.

Lemma effect_a r : r ∈ a_set (effect s o) <-> exists b, live_add (l ++ [o]) b /\ r = record (l ++ [o]) b.
Proof using Hl Hs.
  setoid_rewrite (live_add_step l o Hl). pose proof (record_step l o) as Hrec. pose proof (record_new l o Hl) as Hnew.
  pose proof uncovered_iff as Hun. pose proof covered_iff as Hco.
  pose proof (less_cases l o Hl) as Hless. destruct (payload_case o) as [(p & t & v & Ho)|[(p & t & Ho)|(p & t & v & Ho)]]; rewrite Ho in *;
    cbn [effect Add Remove Increase a_set is_add is_rem orb pt ppid pval] in *.
  - rewrite elem_of_union, elem_of_singleton, Hun, <- (Hnew eq_refl). split.
    + intros [(b & Hb & -> & Hv)| ->]; [exists b|exists o; rewrite Ho; auto]. by rewrite Hrec; auto.
    + intros (b & [[Hb Hv]|[-> _]] & ->); [left; exists b; rewrite Hrec; auto|by right].
  - rewrite Hun. split.
    + intros (b & Hb & -> & Hv). exists b. rewrite Hrec. auto.
    + intros (b & [[Hb Hv]|[_ ?]] & ->); [|done]. exists b. rewrite Hrec. auto.
  - rewrite elem_of_union, elem_of_map, Hun. setoid_rewrite Hco. split.
    + intros [(b & Hb & -> & Hv)|(r' & -> & b & Hb & -> & Hv)]; exists b; (split; [by left|]); rewrite Hrec;
        destruct (Hless b ltac:(apply Hb)) as [[Hlt ?]|[Hlt ?]]; try done; [by destruct (VC_Less _ _)|by rewrite Hlt].
    + intros (b & [[Hb _]|[_ ?]] & ->); [|done]. rewrite Hrec. destruct (Hless b ltac:(apply Hb)) as [[Hlt Hv]|[Hlt Hv]].
      * right. exists (record l b). rewrite Hlt. split; [done|]. by exists b.
      * left. exists b. destruct (VC_Less _ _); done.
Qed.

Lemma effect_r t' : t' ∈ r_set (effect s o) <-> exists b, live_rem (l ++ [o]) b /\ t' = pt b.
Proof using Hl Hs.
  setoid_rewrite (live_rem_step l o Hl). pose proof (less_iff l o Hl) as Hless. pose proof (ds_r _ _ Hs) as Hr.
  destruct (payload_case o) as [(p & t & v & Ho)|[(p & t & Ho)|(p & t & v & Ho)]]; rewrite Ho in *;
    cbn [effect Add Remove Increase r_set is_add is_rem pt] in *.
  - rewrite elem_of_difference, elem_of_filter, Hr. split.
    + intros [(b & Hb & ->) Hn]. exists b. split; [|done]. left. split; [done|]. intros _ Hv. apply Hn. split; [|by exists b].
      apply Hless; [apply Hb|done].
    + intros (b & [[Hb Hv]|[_ ?]] & ->); [|done]. split; [by exists b|]. intros [Hle _]. apply Hv; [done|]. apply Hless; [apply Hb|done].
  - rewrite elem_of_union, elem_of_singleton, Hr. split.
    + intros [(b & Hb & ->)| ->]; [exists b; split; [by left|done]|exists o; rewrite Ho; auto].
    + intros (b & [[Hb _]|[-> _]] & ->); [left; by exists b|by right].
  - rewrite Hr. split; [intros (b & Hb & ->); exists b; split; [by left|done]|]. intros (b & [[Hb _]|[_ ?]] & ->); [by exists b|done].
Qed.

Lemma effect_describes : describes (l ++ [o]) (effect s o).
Proof using Hl Hs. split; [apply effect_a|apply effect_r|apply effect_vc]. Qed.
End Effect.

Lemma effects_describe l : causal_seq pts N l -> describes l (foldl effect fresh l).
Proof.
  induction l as [|o l IH] using rev_ind; intros Hl.
  - split; cbn [foldl fresh a_set r_set local_vc]; [| |done].
    + intros r. split; [set_solver|]. intros (b & (Hb & _) & _). by apply elem_of_nil in Hb.
    + intros t. split; [set_solver|]. intros (b & (Hb & _) & _). by apply elem_of_nil in Hb.
  - destruct (step_parts l o Hl) as (Hl' & _). rewrite foldl_app. cbn [foldl]. apply effect_describes; [done|]. by apply IH.
Qed.

(** The order of execution does not show. *)
Lemma rm_effects_perm l1 l2 :
  causal_seq pts N l1 -> causal_seq pts N l2 -> l1 ≡ₚ l2 ->
  a_set (foldl effect fresh l1) = a_set (foldl effect fresh l2) /\ r_set (foldl effect fresh l1) = r_set (foldl effect fresh l2).
Proof.
  intros H1 H2 Hp. pose proof (effects_describe l1 H1) as [Ha1 Hr1 _]. pose proof (effects_describe l2 H2) as [Ha2 Hr2 _].
  assert (forall b, record l1 b = record l2 b) as Hrec by (intros b; unfold record; f_equal; apply zsum_perm; by rewrite Hp).
  split; apply set_eq; intros r.
  - rewrite Ha1, Ha2. setoid_rewrite Hrec. unfold live_add. by setoid_rewrite Hp.
  - rewrite Hr1, Hr2. unfold live_rem. by setoid_rewrite Hp.
Qed.

(** ** Reachable states *)

Context (MaxOps : nat) (Values Increments : Z -> Prop).

Definition allowed (r : request) : Prop := match r with RAdd v => Values v | RInc i => Increments i | RRem => True end.

Notation state := (Net.state (P := payload) (L := local)).
Definition reachable : state -> Prop := Net.reachable N MaxOps (fun _ => fresh) prepare effect effect msg_ready allowed.

Definition SEC (st : state) : Prop :=
  forall p1 p2 s1 s2 q, p1 <> p2 -> Net.ops st !! p1 = Some q -> Net.ops st !! p2 = Some q ->
    Net.locals st !! p1 = Some s1 -> Net.locals st !! p2 = Some s2 -> a_set s1 = a_set s2 /\ r_set s1 = r_set s2.

Definition AA_Con (s : local) : Prop :=
  forall rcd1 rcd2, rcd1 ∈ a_set s -> rcd2 ∈ a_set s -> rt rcd1 <> rt rcd2 -> VC_Concurrent (rt rcd1) (rt rcd2) = true.
Definition RR_Con (s : local) : Prop :=
  forall t1 t2, t1 ∈ r_set s -> t2 ∈ r_set s -> t1 <> t2 -> VC_Concurrent t1 t2 = true.
Definition AR_Con (s : local) : Prop :=
  forall r t, r ∈ a_set s -> t ∈ r_set s -> VC_Concurrent (rt r) t = true.
Definition Rcd_Concurrent (s : local) : Prop := AA_Con s /\ AR_Con s /\ RR_Con s.

Notation log := (list (nat * Net.message payload)).
Notation tracks := (Net.tracks N MaxOps (fun _ => fresh) prepare effect effect msg_ready allowed).
Notation exed lg g := ((Net.executed lg g).*2).

Lemma prepare_stamp s i r p :
  prepare s i r = Some p -> pt p = VC_Inc (local_vc s) i /\ ppid p = Z.of_nat (S i) /\ (is_rem p = true -> r_set s = ∅).
Proof.
  unfold prepare. destruct r; destruct (_Lookup s) eqn:Hlk; try done; intros [= <-]; split_and!; try done.
  intros _. unfold _Lookup in Hlk. by apply bool_decide_eq_true in Hlk as [_ ?].
Qed.

Lemma VC_Inc_entry v i j : (i < length v)%nat -> 0 <= j -> entry (VC_Inc v i) j = entry v j + (if decide (j = Z.of_nat i) then 1 else 0).
Proof.
  intros Hi Hj. unfold VC_Inc, entry. case_decide as Hd.
  - subst j. rewrite Nat2Z.id, list_lookup_alter_eq. by destruct (lookup_lt_is_Some_2 v i Hi) as [y ->].
  - rewrite list_lookup_alter_ne by lia. lia.
Qed.

Lemma ready_next v p :
  length v = N -> wf_vc N (pts p) -> Causally_Ready (pt p) (ppid p) v = true -> next_event (mkVc v 0) (pts p).
Proof.
  intros Hv Hwf Hr. unfold Causally_Ready in Hr. rewrite forallb_forall in Hr. pose proof (wf_id _ _ Hwf) as Hid. cbn [pts vid] in Hid.
  apply (next_event_entry N); [done|done|]. cbn [pts vector vid]. split.
  - intros j Hj Hne. specialize (Hr (Z.to_nat j)). rewrite in_seq in Hr. specialize (Hr ltac:(lia)).
    rewrite (proj2 (Z.eqb_neq _ _)) in Hr by lia. rewrite Z2Nat.id in Hr by lia. by apply Z.leb_le.
  - unfold own. cbn [pts vector vid]. specialize (Hr (Z.to_nat (ppid p - 1))). rewrite in_seq in Hr. specialize (Hr ltac:(lia)).
    rewrite (proj2 (Z.eqb_eq _ _)) in Hr by lia. rewrite Z2Nat.id in Hr by lia. by apply Z.eqb_eq.
Qed.

Lemma next_ready v p :
  length v = N -> wf_vc N (pts p) -> next_event (mkVc v 0) (pts p) -> Causally_Ready (pt p) (ppid p) v = true.
Proof.
  intros Hv Hwf Hn. apply (next_event_entry N) in Hn as [Hoth Hown]; [|done|done]. unfold own in Hown. cbn [pts vector vid] in *.
  unfold Causally_Ready. apply forallb_forall. intros j Hj%in_seq. destruct (Z.eqb_spec (Z.of_nat (S j)) (ppid p)) as [Heq|Hne].
  - apply Z.eqb_eq. replace (Z.of_nat j) with (ppid p - 1) by lia. done.
  - apply Z.leb_le. apply Hoth; lia.
Qed.

Section Tracked.
Context (st : state) (lg : log) (got : list (list nat)) (Ht : tracks st lg got) (HMax : Z.of_nat MaxOps < INT_MAX).

Lemma born m i x : lg !! m = Some (i, x) -> exists g1 g2,
  got !! i = Some (g1 ++ m :: g2) /\ Forall (fun k => k < m)%nat g1 /\
  pt (Net.params x) = VC_Inc (local_vc (foldl effect fresh (exed lg g1))) i /\ ppid (Net.params x) = Z.of_nat (S i) /\
  (is_rem (Net.params x) = true -> r_set (foldl effect fresh (exed lg g1)) = ∅).
Proof using Ht.
  intros Hm. destruct (Net.tk_born _ _ _ _ _ _ _ _ _ _ _ Ht m i x Hm) as (g1 & g2 & r & Hg & Hlt & _ & Hp).
  rewrite Net.replay_effects in Hp. apply prepare_stamp in Hp as (? & ? & ?). by exists g1, g2.
Qed.

(** What was executed was the next event of its sender. *)
Lemma executed_next i g1 k g2 j x :
  got !! i = Some (g1 ++ k :: g2) -> lg !! k = Some (j, x) -> (i < N)%nat -> causal_seq pts N (exed lg g1) ->
  wf_vc N (pts (Net.params x)) -> next_event (mkVc (join pts N (exed lg g1)) 0) (pts (Net.params x)).
Proof using Ht.
  intros Hg Hk Hi Hseq Hwf. pose proof (ds_vc _ _ (effects_describe _ Hseq)) as Hvc.
  assert (length (join pts N (exed lg g1)) = N) as Hlen by apply join_length.
  destruct (Net.tk_ready _ _ _ _ _ _ _ _ _ _ _ Ht i g1 k g2 (j, x) Hg Hk) as [Hown|Hr].
  - cbn in Hown. subst j. destruct (born k i x Hk) as (h1 & h2 & Hh & _ & Hpt & Hpid & _).
    destruct (Net.tk_bound _ _ _ _ _ _ _ _ _ _ _ Ht i _ Hg) as [Hnd _]. rewrite Hg in Hh. injection Hh as Hh.
    assert (g1 = h1) as <- by (by eapply Net.NoDup_middle_inj). rewrite Hvc in Hpt. apply (next_event_entry N); [done|done|].
    unfold own. cbn [pts vector vid]. rewrite Hpt, Hpid. split.
    + intros y Hy Hne. rewrite VC_Inc_entry, decide_False by lia. lia.
    + rewrite VC_Inc_entry, decide_True by lia. done.
  - rewrite Net.replay_effects in Hr. unfold msg_ready in Hr. rewrite Hvc in Hr. by apply ready_next.
Qed.

Lemma executed_causal m i g1 g2 :
  valid_history pts N (Net.payloads (take m lg)) -> got !! i = Some (g1 ++ g2) -> (i < N)%nat -> Forall (fun k => k < m)%nat g1 ->
  causal_seq pts N (exed lg g1).
Proof using Ht.
  intros Hh. revert g2. induction g1 as [|k g1 IH] using rev_ind; intros g2 Hg Hi Hlt; [constructor|].
  apply Forall_app in Hlt as [Hlt Hk]. apply Forall_cons in Hk as [Hk _]. rewrite <- app_assoc in Hg. cbn in Hg.
  specialize (IH _ Hg Hi Hlt). destruct (Net.tk_bound _ _ _ _ _ _ _ _ _ _ _ Ht i _ Hg) as [_ Hb].
  apply Forall_app in Hb as [_ Hb]. apply Forall_cons in Hb as [Hkl _]. destruct (lookup_lt_is_Some_2 lg k Hkl) as [[j x] Hx].
  assert (exed lg (g1 ++ [k]) = exed lg g1 ++ [Net.params x]) as ->.
  { unfold Net.executed. rewrite omap_app, fmap_app. cbn. by rewrite Hx. }
  assert (Net.params x ∈ Net.payloads (take m lg)) as Hin.
  { apply Net.elem_of_payloads. exists k, j, x. by rewrite lookup_take_lt. }
  apply (causal_extend pts _ Hh); [done| |done|].
  - intros p (k' & j' & x' & Hk' & Hx' & <-)%Net.executed_payloads. apply Net.elem_of_payloads. exists k', j', x'.
    rewrite Forall_forall in Hlt. by rewrite lookup_take_lt by (by apply Hlt).
  - eapply executed_next; [exact Hg|exact Hx|done..|]. pose proof (vh_wf _ _ _ Hh) as Hwf. rewrite Forall_forall in Hwf. by apply Hwf.
Qed.

Lemma vle_bound v (a b : Z) : a <= b -> vle v (replicate N a) -> vle v (replicate N b).
Proof using.
  intros Hab H. etrans; [exact H|]. apply vle_alt; [by rewrite !length_replicate|].
  intros j x y [-> _]%lookup_replicate [-> _]%lookup_replicate. done.
Qed.

(** The stamp of a message, after the messages [g1] its sender executed. *)
Lemma stamp_next m g1 i x :
  (i < N)%nat -> (m < MaxOps)%nat -> causal_seq pts N (exed lg g1) ->
  Forall (fun p => vle (pt p) (replicate N (Z.of_nat m))) (exed lg g1) ->
  pt (Net.params x) = VC_Inc (local_vc (foldl effect fresh (exed lg g1))) i -> ppid (Net.params x) = Z.of_nat (S i) ->
  wf_vc N (pts (Net.params x)) /\ vle (pt (Net.params x)) (replicate N (Z.of_nat (S m))) /\
  forall j, 0 <= j < Z.of_nat N ->
    entry (pt (Net.params x)) j = entry (join pts N (exed lg g1)) j + (if decide (j = ppid (Net.params x) - 1) then 1 else 0).
Proof using HMax.
  intros Hi Hm Hseq Hb Hpt Hpid. rewrite (ds_vc _ _ (effects_describe _ Hseq)) in Hpt. set (J := join pts N (exed lg g1)) in *.
  assert (length J = N) as HJ by apply join_length. pose proof (causal_seq_wf _ _ _ Hseq) as Hwf.
  assert (vle J (replicate N (Z.of_nat m))) as HJm.
  { unfold J, join. apply (history_lub _ N); [apply length_replicate|by apply wf_sized|]. split; [|exact Hb]. apply (vle_bound _ 0); [lia|done]. }
  assert (forall j, 0 <= j < Z.of_nat N -> entry (pt (Net.params x)) j = entry J j + (if decide (j = ppid (Net.params x) - 1) then 1 else 0)) as Hent.
  { intros j Hj. rewrite Hpt, VC_Inc_entry by lia. f_equal. apply decide_ext. lia. }
  assert (length (pt (Net.params x)) = N) as Hlen by (rewrite Hpt; unfold VC_Inc; by rewrite length_alter).
  assert (forall j, 0 <= j < Z.of_nat N -> 0 <= entry (pt (Net.params x)) j <= Z.of_nat (S m)) as Hrange.
  { intros j Hj. pose proof (entry_mono _ _ j HJm) as H1. pose proof (entry_nonneg N _ j (join_wf pts N _ 0 Hwf ltac:(lia))) as H2. cbn [vector] in H2.
    assert (entry (replicate N (Z.of_nat m)) j = Z.of_nat m) as H3 by (unfold entry; by rewrite lookup_replicate_2 by lia).
    rewrite Hent by done. fold J in H2. case_decide; lia. }
  split_and!; [|apply entry_vle; [by rewrite length_replicate|]|done].
  - split; cbn [pts vector vid]; [done| |lia]. apply Forall_forall. intros z [j Hz]%list_elem_of_lookup.
    pose proof (lookup_lt_Some _ _ _ Hz). specialize (Hrange (Z.of_nat j) ltac:(lia)). rewrite (entry_lookup _ _ _ Hz) in Hrange. lia.
  - intros j Hj. rewrite Hlen in Hj. assert (entry (replicate N (Z.of_nat (S m))) j = Z.of_nat (S m)) as -> by (unfold entry; by rewrite lookup_replicate_2 by lia).
    by apply Hrange.
Qed.

Lemma got_proc i g : got !! i = Some g -> (i < N)%nat.
Proof using Ht. intros Hg. rewrite <- (Net.tk_got _ _ _ _ _ _ _ _ _ _ _ Ht). by eapply lookup_lt_Some. Qed.

Lemma log_valid m : (m <= length lg)%nat ->
  valid_history pts N (Net.payloads (take m lg)) /\ Forall (fun p => vle (pt p) (replicate N (Z.of_nat m))) (Net.payloads (take m lg)).
Proof using Ht HMax.
  induction m as [|m IH]; intros Hm; [split; [apply valid_history_nil|constructor]|]. destruct IH as [Hh Hb]; [lia|].
  destruct (lookup_lt_is_Some_2 lg m) as [[i x] Hx]; [lia|].
  destruct (born m i x Hx) as (g1 & g2 & Hg & Hlt & Hpt & Hpid & _). pose proof (got_proc _ _ Hg) as Hi.
  pose proof (executed_causal m i g1 (m :: g2) Hh Hg Hi Hlt) as Hseq.
  assert (exed lg g1 ⊆ Net.payloads (take m lg)) as Hsub.
  { intros p (k & j & y & Hk & Hy & <-)%Net.executed_payloads. apply Net.elem_of_payloads. exists k, j, y.
    rewrite Forall_forall in Hlt. by rewrite lookup_take_lt by (by apply Hlt). }
  destruct (stamp_next m g1 i x) as (Hwf & Hle & Hent); try done.
  { pose proof (Net.tk_len _ _ _ _ _ _ _ _ _ _ _ Ht). lia. }
  { apply Forall_forall. intros p Hp. rewrite Forall_forall in Hb. by apply Hb, Hsub. }
  assert (Net.payloads (take (S m) lg) = Net.payloads (take m lg) ++ [Net.params x]) as ->.
  { unfold Net.payloads. by rewrite (take_S_r lg m (i, x)), fmap_app. }
  split.
  - eapply (valid_history_snoc pts N _ (exed lg g1)); [done..|]. intros b (k & j & y & Hy & <-)%Net.elem_of_payloads Hv.
    apply lookup_take_Some in Hy as [Hy Hk]. apply Net.executed_payloads. exists k, j, y. split_and!; [|done|done].
    destruct (born k j y Hy) as (_ & _ & _ & _ & _ & Hpid' & _). cbn [pts vid] in Hv. assert (j = i) as -> by lia.
    eapply (Net.own_before _ _ _ _ _ _ _ _ _ _ _ k m i y x); done.
  - apply Forall_app. split; [|by constructor]. eapply Forall_impl; [exact Hb|]. intros p Hp. eapply vle_bound; [|exact Hp]. lia.
Qed.

Lemma all_valid : valid_history pts N (Net.payloads lg).
Proof using Ht HMax. rewrite <- (take_ge lg (length lg)) by done. by apply log_valid. Qed.

Lemma all_causal i g : got !! i = Some g -> causal_seq pts N (exed lg g) /\ exed lg g ⊆ Net.payloads lg.
Proof using Ht HMax.
  intros Hg. destruct (Net.tk_bound _ _ _ _ _ _ _ _ _ _ _ Ht i _ Hg) as [_ Hb]. split.
  - apply (executed_causal (length lg) i g []); [by apply log_valid|by rewrite app_nil_r|by eapply got_proc|done].
  - intros p (k & j & y & Hk & Hy & <-)%Net.executed_payloads. apply Net.elem_of_payloads. eauto.
Qed.

(** Between two removes in causal order lies an add. *)
Lemma remove_superseded r o :
  r ∈ Net.payloads lg -> o ∈ Net.payloads lg -> is_rem r = true -> is_rem o = true -> vlt (pt r) (pt o) ->
  exists c, c ∈ Net.payloads lg /\ is_add c = true /\ vlt (pt r) (pt c) /\ vle (pt c) (pt o).
Proof using Ht HMax.
  intros Hr (m & i & x & Hx & <-)%Net.elem_of_payloads Hrr Hro Hlt.
  destruct (born m i x Hx) as (g1 & g2 & Hg & _ & Hpt & Hpid & Hempty). specialize (Hempty Hro). pose proof (got_proc _ _ Hg) as Hi.
  destruct (all_causal i _ Hg) as [Hall Hsub]. pose proof all_valid as Hh.
  assert (causal_seq pts N (exed lg g1)) as Hseq.
  { apply (executed_causal (length lg) i g1 (m :: g2)); [by apply log_valid|done|done|].
    destruct (Net.tk_bound _ _ _ _ _ _ _ _ _ _ _ Ht i _ Hg) as [_ Hb]. by apply Forall_app in Hb as [? _]. }
  pose proof (effects_describe _ Hseq) as [_ Hds Hvc]. rewrite Hvc in Hpt. set (J := join pts N (exed lg g1)) in *.
  assert (length J = N) as HJ by apply join_length. pose proof (vh_wf _ _ _ Hh) as Hwf. rewrite Forall_forall in Hwf.
  assert (Net.params x ∈ Net.payloads lg) as Hxin by (apply Net.elem_of_payloads; by exists m, i, x).
  assert (r ∈ exed lg g1) as Hre.
  { pose proof (wf_id _ _ (Hwf r Hr)) as Hid. pose proof (entry_mono _ _ (vid (pts r)) (proj1 Hlt)) as Hle. rewrite Hpt, VC_Inc_entry in Hle by lia.
    assert (own (pts r) <= entry J (vid (pts r))) as Hown.
    { unfold own. cbn [pts vector vid] in *. case_decide as Hd; [|lia]. destruct (decide (entry (pt r) (ppid r - 1) = entry J (ppid r - 1) + 1)) as [Heq|]; [|lia].
      exfalso. assert (r = Net.params x) as Heq'; [|subst r; by apply vlt_irrefl in Hlt].
      apply (vh_key _ _ _ Hh); [done|done|cbn; lia|]. unfold own. cbn [pts vector vid]. rewrite Heq, Hpt, VC_Inc_entry by lia.
      rewrite decide_True by lia. do 2 f_equal. lia. }
    destruct (causal_seq_complete pts N _ _ _ Hseq Hid (conj (vh_own _ _ _ Hh r Hr) Hown)) as (b & Hb & Hv & Hw).
    rewrite <- (vh_key _ _ _ Hh b r); [done| |done..]. apply Net.executed_payloads in Hb as (k & j & y & _ & Hy & <-).
    apply Net.elem_of_payloads. eauto. }
  destruct (decide (Exists (fun c => is_add c = true /\ vlt (pt r) (pt c)) (exed lg g1))) as [HE|HE].
  - apply Exists_exists in HE as (c & Hc & Hadd & Hrc). exists c. split_and!; [|done|done|].
    + apply Net.executed_payloads in Hc as (k & j & y & _ & Hy & <-). apply Net.elem_of_payloads. eauto.
    + etrans; [exact (join_ge pts N _ c (causal_seq_wf _ _ _ Hseq) Hc)|]. fold J. rewrite Hpt. apply entry_vle.
      { unfold VC_Inc. by rewrite length_alter. }
      intros j Hj. rewrite VC_Inc_entry by lia. case_decide; lia.
  - exfalso. assert (pt r ∈ r_set (foldl effect fresh (exed lg g1))) as Hin; [|rewrite Hempty in Hin; set_solver].
    apply Hds. exists r. split; [|done]. split_and!; [done|done|]. intros c Hc Hadd Hv. apply HE, Exists_exists. eauto.
Qed.

Lemma concurrent_of b c :
  b ∈ Net.payloads lg -> c ∈ Net.payloads lg -> pt b <> pt c -> ~ vlt (pt b) (pt c) -> ~ vlt (pt c) (pt b) ->
  VC_Concurrent (pt b) (pt c) = true.
Proof using Ht HMax.
  intros Hb Hc Hne H1 H2. pose proof (vh_wf _ _ _ all_valid) as Hwf. rewrite Forall_forall in Hwf.
  apply VC_Concurrent_spec; [exact (eq_trans (wf_size _ _ (Hwf _ Hb)) (eq_sym (wf_size _ _ (Hwf _ Hc))))| |].
  - intros Hle. by apply H1.
  - intros Hle. apply H2. split; [done|congruence].
Qed.

Lemma records_concurrent i g : got !! i = Some g -> Rcd_Concurrent (foldl effect fresh (exed lg g)).
Proof using Ht HMax.
  intros Hg. destruct (all_causal i g Hg) as [Hseq Hsub]. pose proof (effects_describe _ Hseq) as [Ha Hr _]. split_and!.
  - intros r1 r2 (b & (Hb & Hab & Hlb) & ->)%Ha (c & (Hc & Hac & Hlc) & ->)%Ha Hne. cbn [record rt] in *.
    apply concurrent_of; [by apply Hsub..|done| |]; [apply Hlb|apply Hlc]; rewrite ?Hab, ?Hac; done.
  - intros r1 t (b & (Hb & Hab & Hlb) & ->)%Ha (c & (Hc & Hrc & Hlc) & ->)%Hr. cbn [record rt].
    apply concurrent_of; [by apply Hsub..| |apply Hlb; [done|by rewrite Hrc, orb_true_r]|by apply Hlc].
    intros Heq. assert (b = c) as -> by (apply (vh_vec _ _ _ all_valid); [by apply Hsub..|done]). by destruct c.
  - intros t1 t2 (b & (Hb & Hrb & Hlb) & ->)%Hr (c & (Hc & Hrc & Hlc) & ->)%Hr Hne.
    assert (forall b c, b ∈ exed lg g -> c ∈ exed lg g -> is_rem b = true -> is_rem c = true ->
      (forall d, d ∈ exed lg g -> is_add d = true -> ~ vlt (pt b) (pt d)) -> ~ vlt (pt b) (pt c)) as Hno.
    { clear -Ht HMax Hseq Hsub. intros b c Hb Hc Hrb Hrc Hl Hlt.
      destruct (remove_superseded b c (Hsub _ Hb) (Hsub _ Hc) Hrb Hrc Hlt) as (d & Hd & Had & Hbd & Hdc).
      apply (Hl d); [|done|done]. by eapply (executed_closed pts _ all_valid (exed lg g) c d). }
    apply concurrent_of; [by apply Hsub..|done|by apply Hno|by apply Hno].
Qed.

Lemma tracked_sec : SEC st.
Proof using Ht HMax.
  intros p1 p2 s1 s2 q _ Hq1 Hq2 Hs1 Hs2.
  destruct (Net.got_at _ _ _ _ _ _ _ _ _ _ _ _ _ Ht Hs1) as (g1 & Hg1 & ->), (Net.got_at _ _ _ _ _ _ _ _ _ _ _ _ _ Ht Hs2) as (g2 & Hg2 & ->).
  rewrite !Net.replay_effects.
  apply rm_effects_perm; [by eapply all_causal..|]. apply fmap_Permutation, Net.executed_perm. by eapply Net.same_pending.
Qed.
End Tracked.

(** C11 (invariant): the invariants the repository checks for two processes
    and eight operations hold for every number of processes, every number of
    operations a 32-bit clock can count and every set of values: processes with
    the same messages to come hold the same records and removes ([SEC]), and in
    every process the records that are kept, the removes that are kept, and
    records and removes, are pairwise concurrent ([Rcd_Concurrent]). *)
Theorem rmvwin_spec_invariants st :
  Z.of_nat MaxOps < INT_MAX -> reachable st -> SEC st /\ forall i s, Net.locals st !! i = Some s -> Rcd_Concurrent s.
Proof.
  intros HMax (lg & got & Ht)%Net.reachable_tracks. split; [by eapply tracked_sec|]. intros i s Hs.
  destruct (Net.got_at _ _ _ _ _ _ _ _ _ _ _ _ _ Ht Hs) as (g & Hg & ->). rewrite Net.replay_effects. by eapply records_concurrent.
Qed.
End Spec.

(** Two processes: an add at the first reaches the second. *)
Lemma rmvwin_spec_invariants_witness :
  exists st, reachable 2 8 (fun _ => True) (fun _ => True) st /\ Net.opcount st = 1%nat /\
    SEC st /\ forall i s, Net.locals st !! i = Some s -> Rcd_Concurrent s.
Proof.
  set (m := Net.mkMsg 1 (PAdd 1 [1; 0] 10)).
  pose proof (Net.next_request 8 prepare effect effect (msg_ready 2) (allowed (fun _ => True) (fun _ => True))
    (Net.Init 2 (fun _ => fresh 2)) 0 (fresh 2) (RAdd 10) ltac:(apply Nat.lt_0_succ) eq_refl I) as H1.
  match type of H1 with Net.Next _ _ _ _ _ _ _ ?st =>
    pose proof (Net.next_update 8 prepare effect effect (msg_ready 2) (allowed (fun _ => True) (fun _ => True))
      st 1 (fresh 2) (∅ ∪ {[ m ]}) m eq_refl eq_refl ltac:(by apply elem_of_union_r, elem_of_singleton) eq_refl) as H2
  end.
  eassert (reachable 2 8 (fun _ => True) (fun _ => True) _) as Hr by (eapply rtc_l; [exact H1|]; eapply rtc_once; exact H2).
  eexists. split; [exact Hr|]. split; [reflexivity|].
  apply (rmvwin_spec_invariants 2 8 (fun _ => True) (fun _ => True) _ ltac:(unfold INT_MAX; lia) Hr).
Defined.
End RmvwinRpq.
