(* ===== verification/TlaLeid.v ===== *)
(** * Positions of list elements in the TLA+ specification of the RWF list

    The identifiers of MET/TLA/rwf_list/rwf_list.tla: sequences of pairs of a
    number and a process, compared by the number they stand for, and the
    generator of a position between two others.  It always returns a position
    that lies strictly between them and ends in a pair of its process. *)

From S2P Require Import Prelude.

Module RwfLeid.

Section Leid.
(** [unspecified] is what [CHOOSE] yields where no value satisfies its formula. *)
Context (N MaxElmts : nat) (unspecified : nat).

(** ** The definitions of the specification *)

(** [f[x]] of a function on [Elmts], and [[j \in Elmts |-> f]]. *)
Definition at_ {A} `{Inhabited A} (l : list A) (x : nat) : A := l !!! (x - 1)%nat.
Definition Elmts : list nat := seq 1 MaxElmts.
Definition fn {A} (f : nat -> A) : list A := f <$> Elmts.

Definition CHOOSE (P : nat -> bool) (S : list nat) : nat := default unspecified (head (filter P S)).

Definition Sum (S : gset Z) : Z := set_fold Z.add 0 S.
Definition Range (f : list Z) : gset Z := list_to_set f.
Definition Max (S : list nat) : nat := CHOOSE (fun x => forallb (fun y => y <=? x)%nat S) S.
Definition Min (S : list nat) : nat := CHOOSE (fun x => forallb (fun y => (y =? x) || (x <? y))%nat S) S.

Definition Dft_leid : list (Z * Z) := fn (fun _ => (0, 0)).

Definition Leid (l_set : list (list (Z * Z))) (e : nat) : Z :=
  if (e =? 0)%nat then 0
  else Sum (Range (fn (fun j => ((at_ (at_ l_set e) j).1 * Z.of_nat N + (at_ (at_ l_set e) j).2)
                                * (((Z.of_nat MaxElmts + 1) * Z.of_nat N) ^ Z.of_nat (MaxElmts - j))))).

Definition E_count (l_set : list (list (Z * Z))) : nat :=
  length (filter (fun x => at_ l_set x <> Dft_leid) Elmts).

Definition Leid_suc (l_set : list (list (Z * Z))) (prev : nat) : list (Z * Z) :=
  let S := filter (fun e => Leid l_set prev <? Leid l_set e) Elmts in
  if decide (S = []) then Dft_leid
  else at_ l_set (CHOOSE (fun x => forallb (fun y => (y =? x)%nat || (Leid l_set x <? Leid l_set y)) S) S).

Definition lprefix (p : list (Z * Z)) (i : nat) : Z := (at_ p i).1.
Definition num (p : list (Z * Z)) : nat :=
  if decide (p = Dft_leid) then 0%nat else Max (filter (fun x => at_ p x <> (0, 0)) Elmts).
Definition rprefix (p : list (Z * Z)) (i : nat) : Z :=
  if (num p <? i)%nat then Z.of_nat MaxElmts + 1 else (at_ p i).1.

Definition Leid_Gen (p q : list (Z * Z)) (self : nat) : list (Z * Z) :=
  let idx := Min (filter (fun x => 2 <=? rprefix q x - lprefix p x) Elmts) in
  if decide (p = Dft_leid) then
    fn (fun j => if (j =? idx)%nat then (lprefix p idx + 1, Z.of_nat self - 1) else (0, 0))
  else
    let pnum := num p in
    let qnum := num q in
    fn (fun j =>
      if (j <? idx)%nat && (j <=? pnum)%nat then ((at_ p j).1, (at_ p j).2)
      else if (j <? idx)%nat && (pnum <? j)%nat then
        if (j <? qnum)%nat then ((at_ q j).1, (at_ q j).2) else (0, Z.of_nat self - 1)
      else if (j =? idx)%nat then (lprefix p idx + 1, Z.of_nat self - 1)
      else (0, 0)).

Definition Leid_New (l_set : list (list (Z * Z))) (self prev : nat) : list (Z * Z) :=
  let p := if (prev =? 0)%nat then Dft_leid else at_ l_set prev in
  Leid_Gen p (Leid_suc l_set prev) self.

(** ** Functions on [Elmts] and [CHOOSE] *)

Lemma elem_of_Elmts x : x ∈ Elmts <-> (1 <= x <= MaxElmts)%nat.
Proof. unfold Elmts. rewrite elem_of_seq. lia. Qed.

Lemma at_fn {A} `{Inhabited A} (f : nat -> A) x : (1 <= x <= MaxElmts)%nat -> at_ (fn f) x = f x.
Proof.
  intros Hx. unfold at_, fn, Elmts. apply list_lookup_total_correct. rewrite list_lookup_fmap, lookup_seq_lt by lia.
  cbn. f_equal. f_equal. lia.
Qed.

Lemma at_fmap {A B} `{Inhabited A, Inhabited B} (f : A -> B) (l : list A) x : (1 <= x <= length l)%nat -> at_ (f <$> l) x = f (at_ l x).
Proof. intros Hx. unfold at_. apply list_lookup_total_correct. rewrite list_lookup_fmap, list_lookup_lookup_total_lt by lia. done. Qed.

Lemma length_fn {A} (f : nat -> A) : length (fn f) = MaxElmts.
Proof. unfold fn, Elmts. by rewrite length_fmap, length_seq. Qed.

Lemma fn_ext {A} `{Inhabited A} (l1 l2 : list A) :
  length l1 = MaxElmts -> length l2 = MaxElmts -> (forall x, (1 <= x <= MaxElmts)%nat -> at_ l1 x = at_ l2 x) -> l1 = l2.
Proof.
  intros H1 H2 Hat. apply list_eq_same_length with MaxElmts; [done..|]. intros i x y Hi Hx Hy.
  specialize (Hat (S i) ltac:(lia)). unfold at_ in Hat. replace (S i - 1)%nat with i in Hat by lia.
  by rewrite (list_lookup_total_correct _ _ _ Hx), (list_lookup_total_correct _ _ _ Hy) in Hat.
Qed.

Lemma choose_spec P S : (exists x, x ∈ S /\ P x = true) -> CHOOSE P S ∈ S /\ P (CHOOSE P S) = true.
Proof.
  intros (x & Hx & HP). unfold CHOOSE. destruct (filter P S) as [|y l] eqn:Hf.
  - exfalso. assert (x ∈ filter P S) as Hin by (apply list_elem_of_filter; rewrite HP; done). rewrite Hf in Hin. by apply elem_of_nil in Hin.
  - cbn. assert (y ∈ filter P S) as Hin by (rewrite Hf; by left). apply list_elem_of_filter in Hin as [HPy Hy]. by apply Is_true_true in HPy.
Qed.

Lemma least_exists (f : nat -> Z) S : S <> [] -> exists x, x ∈ S /\ forall y, y ∈ S -> f x <= f y.
Proof.
  induction S as [|a S IH]; [done|]. intros _. destruct S as [|b S].
  - exists a. split; [by left|]. by intros y ->%list_elem_of_singleton.
  - destruct IH as (x & Hx & Hle); [done|]. destruct (Z.le_gt_cases (f a) (f x)).
    + exists a. split; [by left|]. intros y [->|Hy]%elem_of_cons; [lia|]. specialize (Hle y Hy). lia.
    + exists x. split; [by right|]. intros y [->|Hy]%elem_of_cons; [lia|by apply Hle].
Qed.

(** The element of a set with the least value, where values differ. *)
Lemma choose_least (f : nat -> Z) (below : nat -> nat -> bool) S :
  S <> [] -> (forall x y, x ∈ S -> y ∈ S -> f x = f y -> x = y) -> (forall x y, below x y = true <-> f x < f y) ->
  let x := CHOOSE (fun x => forallb (fun y => (y =? x)%nat || below x y) S) S in x ∈ S /\ forall y, y ∈ S -> f x <= f y.
Proof.
  intros Hne Hinj Hb. cbv zeta. destruct (choose_spec (fun x => forallb (fun y => (y =? x)%nat || below x y) S) S) as [Hx HP].
  - destruct (least_exists f S Hne) as (z & Hz & Hle). exists z. split; [done|]. apply forallb_forall. intros y Hy%list_elem_of_In.
    apply orb_true_iff. rewrite Nat.eqb_eq, Hb. specialize (Hle y Hy). destruct (decide (y = z)); [by left|right].
    assert (f z <> f y) by (intros E; by apply Hinj in E). lia.
  - split; [done|]. intros y Hy. rewrite forallb_forall in HP. specialize (HP y ltac:(by apply list_elem_of_In)).
    apply orb_true_iff in HP as [E%Nat.eqb_eq|?%Hb]; [rewrite <- E|]; lia.
Qed.

Lemma Min_spec S : S <> [] -> Min S ∈ S /\ forall y, y ∈ S -> (Min S <= y)%nat.
Proof.
  intros Hne. destruct (choose_least Z.of_nat Nat.ltb S Hne) as [Hin Hle]; [lia|intros; rewrite Nat.ltb_lt; lia|].
  split; [done|]. intros y Hy. specialize (Hle y Hy). unfold Min. lia.
Qed.

Lemma Max_spec S : S <> [] -> Max S ∈ S /\ forall y, y ∈ S -> (y <= Max S)%nat.
Proof.
  intros Hne. destruct (choose_spec (fun x => forallb (fun y => y <=? x)%nat S) S) as [Hx HP].
  - destruct (least_exists (fun x => - Z.of_nat x) S Hne) as (z & Hz & Hle). exists z. split; [done|]. apply forallb_forall.
    intros y Hy%list_elem_of_In. apply Nat.leb_le. specialize (Hle y Hy). lia.
  - split; [done|]. intros y Hy. rewrite forallb_forall in HP. apply Nat.leb_le. apply HP. by apply list_elem_of_In.
Qed.

(** ** The order of positions *)

Definition digit (d : Z * Z) : Z := d.1 * Z.of_nat N + d.2.
Notation base := ((Z.of_nat MaxElmts + 1) * Z.of_nat N).

Definition good_pair (d : Z * Z) : Prop := 0 <= d.1 <= Z.of_nat MaxElmts /\ 0 <= d.2 < Z.of_nat N.
Definition good (p : list (Z * Z)) : Prop := length p = MaxElmts /\ forall x, (1 <= x <= MaxElmts)%nat -> good_pair (at_ p x).

Lemma digit_bound d : good_pair d -> 0 <= digit d < base.
Proof. unfold good_pair, digit. nia. Qed.

Lemma digit_inj d d' : good_pair d -> good_pair d' -> digit d = digit d' -> d = d'.
Proof.
  destruct d as [a b], d' as [a' b']. unfold good_pair, digit. cbn [fst snd]. intros [Ha Hb] [Ha' Hb'] E.
  assert (a = a') as -> by nia. f_equal. lia.
Qed.

(** The number a position stands for, most significant pair first. *)
Fixpoint horner (l : list Z) : Z :=
  match l with [] => 0 | d :: l => d * base ^ Z.of_nat (length l) + horner l end.

Lemma horner_bound l : Forall (fun d => 0 <= d < base) l -> 0 <= horner l < base ^ Z.of_nat (length l).
Proof.
  induction 1 as [|d l Hd Hl IH]; [cbn; lia|]. cbn [horner length]. rewrite Nat2Z.inj_succ, Z.pow_succ_r by lia. nia.
Qed.

Lemma horner_app l1 l2 : horner (l1 ++ l2) = horner l1 * base ^ Z.of_nat (length l2) + horner l2.
Proof.
  induction l1 as [|d l1 IH]; [cbn; lia|]. cbn [app horner]. rewrite IH, length_app, Nat2Z.inj_add, Z.pow_add_r by lia. lia.
Qed.

Lemma horner_lt l d d' r r' :
  Forall (fun d => 0 <= d < base) r -> Forall (fun d => 0 <= d < base) r' -> length r = length r' -> d < d' ->
  horner (l ++ d :: r) < horner (l ++ d' :: r').
Proof.
  intros Hr Hr' Hl Hd. rewrite !horner_app. cbn [horner length]. rewrite Hl.
  pose proof (horner_bound r Hr). pose proof (horner_bound r' Hr'). rewrite Hl in *. nia.
Qed.

(** The sum over the set of summands is their sum: only zeros coincide. *)
Definition sumZ (l : list Z) : Z := foldr Z.add 0 l.

#[local] Instance sumZ_perm : Proper ((≡ₚ) ==> (=)) sumZ.
Proof. apply foldr_permutation_proper; [typeclasses eauto..|]. intros; lia. Qed.

Lemma Sum_Range l : (forall i j x, (i < j)%nat -> l !! i = Some x -> l !! j = Some x -> x = 0) -> Sum (Range l) = sumZ l.
Proof.
  unfold Range. induction l as [|x l IH]; intros Hz; [done|]. cbn [list_to_set sumZ foldr]. fold (sumZ l).
  rewrite <- IH by (intros i j y Hij Hi Hj; by apply (Hz (S i) (S j) y ltac:(lia))).
  destruct (decide (x ∈ l)) as [Hin|Hn].
  - replace ({[ x ]} ∪ list_to_set l : gset Z) with (list_to_set l : gset Z) by set_solver.
    apply list_elem_of_lookup in Hin as [i Hi]. rewrite (Hz 0%nat (S i) x); [lia|lia|done|done].
  - unfold Sum, set_fold. cbn. change (foldr Z.add 0 ?l) with (sumZ l).
    by rewrite elements_union_singleton by (by rewrite elem_of_list_to_set).
Qed.

Lemma sumZ_horner l : Forall (fun d => 0 <= d < base) l -> forall k,
  sumZ (imap (fun i d => d * base ^ Z.of_nat (k + length l - (k + S i))) l) = horner l.
Proof.
  induction 1 as [|d l Hd Hl IH]; intros k; [done|]. cbn [imap length horner sumZ foldr].
  f_equal; [do 3 f_equal; lia|]. rewrite <- (IH k). f_equal. apply imap_ext. intros i x _. cbn. do 3 f_equal. lia.
Qed.

Lemma summands_distinct l i j x : Forall (fun d => 0 <= d < base) l -> (i < j)%nat ->
  imap (fun i d => d * base ^ Z.of_nat (length l - S i)) l !! i = Some x ->
  imap (fun i d => d * base ^ Z.of_nat (length l - S i)) l !! j = Some x -> x = 0.
Proof.
  intros Hl Hij. rewrite !list_lookup_imap. intros (a & Ha & Hx)%fmap_Some (b & Hb & Hy)%fmap_Some.
  rewrite Forall_lookup in Hl. pose proof (Hl _ _ Ha). pose proof (Hl _ _ Hb) as Hb'. apply lookup_lt_Some in Hb.
  assert (Z.of_nat (length l - S i) = Z.of_nat (length l - S j) + 1 + Z.of_nat (j - S i)) as E by lia.
  rewrite E, Z.pow_add_r, Z.pow_add_r, Z.pow_1_r in Hx by lia. set (w := base ^ Z.of_nat (length l - S j)) in *.
  assert (0 <= w) by (apply Z.pow_nonneg; lia). assert (1 <= base ^ Z.of_nat (j - S i)) by (apply (Z.pow_le_mono_r base 0); lia).
  set (u := base ^ Z.of_nat (j - S i)) in *. destruct (decide (a = 0)) as [->|Ha0]; [lia|].
  destruct (decide (w = 0)) as [->|]; [lia|]. assert (w * base <= w * base * u) by nia. nia.
Qed.

Lemma lookup_at (p : list (Z * Z)) x : (1 <= x <= length p)%nat -> p !! (x - 1)%nat = Some (at_ p x).
Proof. intros Hx. unfold at_. by apply list_lookup_lookup_total_lt; lia. Qed.

Lemma digits_bound p : good p -> Forall (fun d => 0 <= d < base) (digit <$> p).
Proof.
  intros [Hlen Hg]. apply Forall_lookup. intros i x Hx. rewrite list_lookup_fmap in Hx. apply fmap_Some in Hx as (d & Hd & ->).
  pose proof (lookup_lt_Some _ _ _ Hd). pose proof (lookup_at p (S i) ltac:(lia)) as Hat. replace (S i - 1)%nat with i in Hat by lia.
  assert (d = at_ p (S i)) as -> by congruence. apply digit_bound, Hg. lia.
Qed.

Lemma Leid_horner l_set e : e <> 0%nat -> good (at_ l_set e) -> Leid l_set e = horner (digit <$> at_ l_set e).
Proof.
  intros He [Hlen Hg]. unfold Leid. rewrite (proj2 (Nat.eqb_neq _ _) He). set (p := at_ l_set e) in *.
  pose proof (digits_bound p (conj Hlen Hg)) as Hd.
  assert (fn (fun j => ((at_ p j).1 * Z.of_nat N + (at_ p j).2) * base ^ Z.of_nat (MaxElmts - j)) =
          imap (fun i d => d * base ^ Z.of_nat (length (digit <$> p) - S i)) (digit <$> p)) as ->.
  { apply list_eq_same_length with MaxElmts; [rewrite length_imap, length_fmap; lia|apply length_fn|].
    intros i x y Hi Hx Hy. unfold fn, Elmts in Hx. rewrite list_lookup_fmap, lookup_seq_lt in Hx by lia. injection Hx as <-.
    rewrite list_lookup_imap, list_lookup_fmap in Hy. apply fmap_Some in Hy as (d & (a & Ha & ->)%fmap_Some & ->).
    pose proof (lookup_at p (S i) ltac:(lia)) as Hat. replace (S i - 1)%nat with i in Hat by lia.
    rewrite length_fmap, Hlen. cbn [Nat.add]. by assert (a = at_ p (S i)) as -> by congruence. }
  rewrite Sum_Range by (intros i j x; by apply summands_distinct). rewrite <- (sumZ_horner _ Hd 0). done.
Qed.

(** Positions in lexicographic order. *)
Definition lex (p q : list (Z * Z)) : Prop :=
  exists x, (1 <= x <= MaxElmts)%nat /\ (forall i, (1 <= i < x)%nat -> at_ p i = at_ q i) /\ digit (at_ p x) < digit (at_ q x).

(** The order of positions is the order of their numbers. *)
Lemma lex_horner p q : good p -> good q -> lex p q -> horner (digit <$> p) < horner (digit <$> q).
Proof.
  intros Hp Hq (x & Hx & Heq & Hlt). pose proof (digits_bound p Hp) as Hbp. pose proof (digits_bound q Hq) as Hbq.
  destruct Hp as [Hlp _], Hq as [Hlq _].
  assert (take (x - 1) p = take (x - 1) q) as Ht.
  { apply list_eq. intros i. destruct (decide (i < x - 1)%nat) as [Hi|].
    - rewrite !lookup_take_lt by done. pose proof (lookup_at p (S i) ltac:(lia)) as E1. pose proof (lookup_at q (S i) ltac:(lia)) as E2.
      replace (S i - 1)%nat with i in * by lia. by rewrite E1, E2, Heq by lia.
    - by rewrite !lookup_take_ge by lia. }
  assert (Hcut : forall l, length l = MaxElmts -> digit <$> l = (digit <$> take (x - 1) l) ++ digit (at_ l x) :: (digit <$> drop (S (x - 1)) l)).
  { intros l Hl. rewrite <- (take_drop_middle l _ _ (lookup_at l x ltac:(lia))) at 1. by rewrite fmap_app, fmap_cons. }
  rewrite (Hcut p Hlp) in Hbp |- *. rewrite (Hcut q Hlq) in Hbq |- *. rewrite Ht.
  apply Forall_app in Hbp as [_ [_ ?]%Forall_cons]. apply Forall_app in Hbq as [_ [_ ?]%Forall_cons].
  apply horner_lt; try done. rewrite !length_fmap, !length_drop. lia.
Qed.

(** The first place where two positions differ. *)
Lemma first_place (P : nat -> Prop) `{forall x, Decision (P x)} n :
  (forall i, (1 <= i < n)%nat -> P i) \/ exists x, (1 <= x < n)%nat /\ ~ P x /\ forall i, (1 <= i < x)%nat -> P i.
Proof.
  induction n as [|n [IH|(x & Hx & Hn & Hb)]]; [left; lia| |right; exists x; split_and!; [lia..|done|done]].
  destruct (decide (P n)) as [Hp|Hp]; [left|].
  - intros i Hi. destruct (decide (i = n)) as [->|]; [done|apply IH; lia].
  - destruct n as [|n]; [left; lia|]. right. exists (S n). split_and!; [lia..|done|]. intros i Hi. apply IH. lia.
Qed.

Lemma lex_total p q : good p -> good q -> p <> q -> lex p q \/ lex q p.
Proof.
  intros [Hlp Hp] [Hlq Hq] Hne. destruct (first_place (fun x => at_ p x = at_ q x) (S MaxElmts)) as [Hall|(x & Hx & Hd & Hb)].
  - destruct Hne. apply fn_ext; [done..|]. intros x Hx. apply Hall. lia.
  - destruct (Z.lt_trichotomy (digit (at_ p x)) (digit (at_ q x))) as [Hlt|[E|Hlt]].
    + left. exists x. split_and!; [lia..|done|done].
    + destruct Hd. apply digit_inj; [apply Hp; lia|apply Hq; lia|done].
    + right. exists x. split_and!; [lia..| |done]. intros i Hi. symmetry. by apply Hb.
Qed.

Lemma lex_of_le p q n : good p -> good q -> (1 <= n <= MaxElmts)%nat ->
  (forall i, (1 <= i < n)%nat -> digit (at_ p i) <= digit (at_ q i)) -> digit (at_ p n) < digit (at_ q n) -> lex p q.
Proof.
  intros [_ Hp] [_ Hq] Hn Hle Hlt. destruct (first_place (fun x => at_ p x = at_ q x) n) as [Hall|(x & Hx & Hd & Hb)].
  - by exists n.
  - exists x. split_and!; [lia..|done|]. specialize (Hle x ltac:(lia)).
    assert (digit (at_ p x) <> digit (at_ q x)) by (intros E; apply Hd, digit_inj; [apply Hp; lia|apply Hq; lia|done]). lia.
Qed.

(** ** The generator *)

(** Where a position ends: after pair [k], and with a number that is not 0. *)
Definition ends (k : nat) (p : list (Z * Z)) : Prop :=
  (k <= MaxElmts)%nat /\ ((1 <= k)%nat -> 1 <= (at_ p k).1) /\ forall x, (k < x <= MaxElmts)%nat -> at_ p x = (0, 0).

Lemma Dft_good : (1 <= N)%nat -> good Dft_leid.
Proof. intros HN. split; [apply length_fn|]. intros x Hx. unfold Dft_leid. rewrite at_fn by done. unfold good_pair. cbn. lia. Qed.

Lemma ends_0 : ends 0 Dft_leid.
Proof. split_and!; [lia|intros ?; lia|]. intros x Hx. unfold Dft_leid. by rewrite at_fn by lia. Qed.

Lemma ends_Dft k p : length p = MaxElmts -> ends k p -> p = Dft_leid <-> k = 0%nat.
Proof.
  intros Hl (Hk & Hnum & Hz). split.
  - intros ->. destruct k as [|k]; [done|]. specialize (Hnum ltac:(lia)). unfold Dft_leid in Hnum. rewrite at_fn in Hnum by lia. cbn in Hnum. lia.
  - intros ->. apply fn_ext; [done|apply length_fn|]. intros x Hx. unfold Dft_leid. rewrite at_fn by done. apply Hz. lia.
Qed.

Lemma num_ends k p : length p = MaxElmts -> ends k p -> num p = k.
Proof.
  intros Hl He. unfold num. pose proof (ends_Dft k p Hl He) as HD. destruct He as (Hk & Hnum & Hz). case_decide as Hp; [symmetry; by apply HD|].
  assert (k <> 0%nat) as Hk0 by tauto. specialize (Hnum ltac:(lia)).
  assert (k ∈ filter (fun x => at_ p x <> (0, 0)) Elmts) as Hin.
  { apply list_elem_of_filter. rewrite elem_of_Elmts. split; [|lia]. intros E. rewrite E in Hnum. cbn in Hnum. lia. }
  destruct (Max_spec (filter (fun x => at_ p x <> (0, 0)) Elmts)) as [Hm Hle]; [intros E; rewrite E in Hin; by apply elem_of_nil in Hin|].
  specialize (Hle k Hin). apply list_elem_of_filter in Hm as [Hm Hb%elem_of_Elmts].
  set (m := Max _) in *. destruct (decide (m <= k)%nat); [lia|]. destruct Hm. apply Hz. lia.
Qed.

Lemma digit_num d d' : good_pair d -> good_pair d' -> d.1 < d'.1 -> digit d < digit d'.
Proof. unfold good_pair, digit. nia. Qed.

Lemma digit_le_zero d : good_pair d -> digit (0, 0) <= digit d.
Proof. intros H%digit_bound. unfold digit in *. cbn in *. lia. Qed.

Lemma rprefix_ends k p x : length p = MaxElmts -> ends k p ->
  rprefix p x = if (k <? x)%nat then Z.of_nat MaxElmts + 1 else (at_ p x).1.
Proof. intros Hl He. unfold rprefix. by rewrite (num_ends k). Qed.

Section Gen.
Context (p q : list (Z * Z)) (kp kq n self : nat).
Context (Hp : good p) (Hep : ends kp p) (Hq : good q) (Heq : ends kq q).
Context (Hkp : (kp <= n)%nat) (Hkq : (kq <= n)%nat) (Hn : (n < MaxElmts)%nat) (Hself : (1 <= self <= N)%nat).
Notation idx := (Min (filter (fun x => 2 <=? rprefix q x - lprefix p x) Elmts)).

(** There is a level with room, at the latest one below both positions. *)
Lemma idx_spec : (1 <= idx <= S n)%nat /\ 2 <= rprefix q idx - (at_ p idx).1.
Proof using Hp Hep Hq Heq Hkp Hkq Hn Hself.
  set (S := filter _ _). set (x := Datatypes.S (Nat.max kp kq)).
  assert (x ∈ S) as Hx.
  { apply list_elem_of_filter. rewrite elem_of_Elmts. split; [|lia]. apply Is_true_true, Z.leb_le. unfold lprefix.
    rewrite (rprefix_ends kq) by (done || apply Hq). rewrite (proj2 (Nat.ltb_lt kq x)) by lia.
    destruct Hep as (_ & _ & Hz). rewrite Hz by lia. cbn. lia. }
  destruct (Min_spec S) as [Hm Hle]; [intros E; rewrite E in Hx; by apply elem_of_nil in Hx|]. specialize (Hle x Hx).
  apply list_elem_of_filter in Hm as [Hr%Is_true_true%Z.leb_le Hb%elem_of_Elmts]. unfold lprefix in Hr. split; [lia|done].
Qed.

Lemma kq_covers x : (1 <= x <= MaxElmts)%nat -> digit (at_ p x) < digit (at_ q x) -> (x <= kq)%nat.
Proof using Hp Hep Hq Heq Hkp Hkq Hn Hself.
  intros Hx Hlt. destruct (decide (x <= kq)%nat) as [|Hgt]; [done|]. destruct Heq as (_ & _ & Hz). rewrite Hz in Hlt by lia.
  pose proof (digit_le_zero (at_ p x) ltac:(by apply Hp)). lia.
Qed.

(** The number of the last pair. *)
Lemma idx_num : 1 <= (at_ p idx).1 + 1 <= Z.of_nat MaxElmts.
Proof using Hp Hep Hq Heq Hkp Hkq Hn Hself.
  destruct idx_spec as [Hb Hr]. destruct Hp as [_ Hgp], Hq as [Hlq Hgq]. destruct (Hgp idx ltac:(lia)) as [? _], (Hgq idx ltac:(lia)) as [? _].
  rewrite (rprefix_ends kq) in Hr by done. destruct (kq <? idx)%nat; lia.
Qed.

Lemma below_idx : (idx <= kq)%nat -> (at_ p idx).1 + 1 < (at_ q idx).1.
Proof using Hp Hep Hq Heq Hkp Hkq Hn Hself.
  intros Hle. destruct idx_spec as [Hb Hr]. rewrite (rprefix_ends kq) in Hr by (done || apply Hq).
  rewrite (proj2 (Nat.ltb_ge kq idx)) in Hr by lia. lia.
Qed.

(** The new position, pair by pair. *)
Lemma Gen_at j : (1 <= j <= MaxElmts)%nat ->
  at_ (Leid_Gen p q self) j =
    if (j <? idx)%nat then if (j <=? kp)%nat then at_ p j
                           else if (kp =? 0)%nat then (0, 0) else if (j <? kq)%nat then at_ q j else (0, Z.of_nat self - 1)
    else if (j =? idx)%nat then ((at_ p idx).1 + 1, Z.of_nat self - 1) else (0, 0).
Proof using Hp Hep Hq Heq Hkp Hkq Hn Hself.
  intros Hj. unfold Leid_Gen. generalize idx. intros k. change (lprefix p k) with (at_ p k).1.
  destruct Hp as [Hlp _], Hq as [Hlq _]. pose proof (ends_Dft kp p Hlp Hep) as HD. case_decide as Hd; rewrite at_fn by done.
  - rewrite (proj1 HD Hd). cbn [Nat.eqb].
    destruct (Nat.ltb_spec j k), (Nat.eqb_spec j k); try lia; [|done..]. by rewrite (proj2 (Nat.leb_gt j 0)) by lia.
  - rewrite (num_ends kp p), (num_ends kq q) by done.
    assert (kp <> 0%nat) by tauto. rewrite (proj2 (Nat.eqb_neq kp 0)) by done. rewrite <- !surjective_pairing.
    destruct (Nat.ltb_spec j k), (Nat.leb_spec j kp), (Nat.ltb_spec kp j); cbn [andb]; try lia; done.
Qed.

Lemma self_pair : 0 <= Z.of_nat self - 1 < Z.of_nat N.
Proof using Hp Hep Hq Heq Hkp Hkq Hn Hself. lia. Qed.

Lemma Gen_good : good (Leid_Gen p q self) /\ ends idx (Leid_Gen p q self) /\ (at_ (Leid_Gen p q self) idx).2 = Z.of_nat self - 1.
Proof using Hp Hep Hq Heq Hkp Hkq Hn Hself.
  destruct idx_spec as [Hb _]. pose proof idx_num. pose proof self_pair. split_and!.
  - split; [unfold Leid_Gen; case_decide; apply length_fn|]. intros x Hx. rewrite Gen_at by done. destruct Hp as [_ Hgp], Hq as [_ Hgq].
    specialize (Hgp x Hx). specialize (Hgq x Hx).
    repeat case_match; try done; unfold good_pair; cbn [fst snd]; lia.
  - split_and!; [lia| |].
    + intros _. rewrite Gen_at, Nat.ltb_irrefl, Nat.eqb_refl by lia. cbn [fst]. lia.
    + intros x Hx. rewrite Gen_at, (proj2 (Nat.ltb_ge x idx)), (proj2 (Nat.eqb_neq x idx)) by lia. done.
  - rewrite Gen_at, Nat.ltb_irrefl, Nat.eqb_refl by lia. done.
Qed.

Lemma Gen_above : lex p (Leid_Gen p q self).
Proof using Hp Hep Hq Heq Hkp Hkq Hn Hself.
  destruct idx_spec as [Hb _]. destruct Gen_good as [Hg _]. pose proof self_pair. apply lex_of_le with idx; [done..|lia| |].
  - intros i Hi. destruct Hg as [_ Hg]. specialize (Hg i ltac:(lia)). rewrite Gen_at, (proj2 (Nat.ltb_lt i idx)) in * by lia.
    destruct (Nat.leb_spec i kp); [done|]. destruct Hep as (_ & _ & Hz). rewrite (Hz i) by lia. by apply digit_le_zero.
  - destruct Hg as [_ Hg]. apply digit_num; [apply Hp; lia|apply Hg; lia|].
    rewrite Gen_at, Nat.ltb_irrefl, Nat.eqb_refl by lia. cbn [fst]. lia.
Qed.

Lemma Gen_below : lex p q -> lex (Leid_Gen p q self) q.
Proof using Hp Hep Hq Heq Hkp Hkq Hn Hself.
  intros (y & Hy & Hpre & Hlt). destruct idx_spec as [Hb _]. destruct Gen_good as [Hg _].
  pose proof (kq_covers y Hy Hlt) as Hykq. pose proof below_idx as Hroom. pose proof self_pair.
  pose proof Gen_at as Hat. set (k := idx) in *. set (r := Leid_Gen p q self) in *.
  assert (Hz : forall x, (kp < x <= MaxElmts)%nat -> at_ p x = (0, 0)) by apply Hep.
  assert (Hk : (k <= kq)%nat -> digit (at_ r k) < digit (at_ q k)).
  { intros Hle. apply digit_num; [apply Hg; lia|apply Hq; lia|]. rewrite Hat, Nat.ltb_irrefl, Nat.eqb_refl by lia. by apply Hroom. }
  (* pairs of the new position where [p] and [q] agree or [p] has ended *)
  assert (Hr : forall j, (1 <= j < k)%nat -> (j < y)%nat \/ (kp < j < kq)%nat -> digit (at_ r j) <= digit (at_ q j)).
  { intros j Hj Hc. rewrite Hat, (proj2 (Nat.ltb_lt j k)) by lia. destruct (Nat.leb_spec j kp); [rewrite Hpre by lia; done|].
    destruct (kp =? 0)%nat; [apply digit_le_zero, Hq; lia|]. destruct (Nat.ltb_spec j kq); [done|]. lia. }
  destruct (decide (k <= y)%nat) as [Hky|Hyk].
  - apply lex_of_le with k; [done|done|lia| |apply Hk; lia]. intros j Hj. apply Hr; lia.
  - destruct (decide (y <= kp)%nat) as [Hykp|Hykp].
    + apply lex_of_le with y; [done|done|lia|intros j Hj; apply Hr; lia|].
      rewrite Hat, (proj2 (Nat.ltb_lt y k)), (proj2 (Nat.leb_le y kp)) by lia. done.
    + assert (Hle : forall j, (1 <= j < k)%nat -> (j < kq)%nat -> digit (at_ r j) <= digit (at_ q j)).
      { intros j Hj Hjq. apply Hr; [done|]. destruct (decide (j < y)%nat); [by left|right; lia]. }
      destruct (decide (k <= kq)%nat) as [Hkkq|Hkq'].
      * apply lex_of_le with k; [done|done|lia| |by apply Hk]. intros j Hj. apply Hle; lia.
      * apply lex_of_le with kq; [done|done|lia|intros j Hj; apply Hle; lia|].
        destruct Heq as (_ & Hnum & _). specialize (Hnum ltac:(lia)). apply digit_num; [apply Hg; lia|apply Hq; lia|].
        rewrite Hat, (proj2 (Nat.ltb_lt kq k)), (proj2 (Nat.leb_gt kq kp)), Nat.ltb_irrefl by lia. destruct (kp =? 0)%nat; cbn [fst]; lia.
Qed.
End Gen.

(** ** A position after an element *)

(** The positions a process knows: none of them deeper than [n], and no two
    elements at the same place. *)
Record placed (n : nat) (l_set : list (list (Z * Z))) : Prop := {
  pl_good : forall e, (1 <= e <= MaxElmts)%nat -> good (at_ l_set e);
  pl_ends : forall e, (1 <= e <= MaxElmts)%nat -> exists k, (k <= n)%nat /\ ends k (at_ l_set e);
  pl_apart : forall e e', (1 <= e <= MaxElmts)%nat -> (1 <= e' <= MaxElmts)%nat -> e <> e' ->
    at_ l_set e <> Dft_leid -> at_ l_set e' <> Dft_leid -> at_ l_set e <> at_ l_set e'
}.

Lemma horner_Dft : horner (digit <$> Dft_leid) = 0.
Proof. unfold Dft_leid, fn. generalize Elmts. intros l. induction l as [|x l IH]; [done|]. cbn [fmap list_fmap horner] in *. rewrite IH. unfold digit. cbn [fst snd]. lia. Qed.

Lemma horner_inj p q : good p -> good q -> horner (digit <$> p) = horner (digit <$> q) -> p = q.
Proof.
  intros Hp Hq E. destruct (decide (p = q)) as [|Hne]; [done|].
  destruct (lex_total p q Hp Hq Hne) as [Hl|Hl]; apply lex_horner in Hl; done || lia.
Qed.

Lemma lex_of_horner p q : good p -> good q -> horner (digit <$> p) < horner (digit <$> q) -> lex p q.
Proof.
  intros Hp Hq Hlt. destruct (decide (p = q)) as [->|Hne]; [lia|].
  destruct (lex_total p q Hp Hq Hne) as [Hl|Hl]; [done|]. apply lex_horner in Hl; done || lia.
Qed.

(** The position an element is inserted after; [prev] is 0 for the front. *)
Definition place (l_set : list (list (Z * Z))) (prev : nat) : list (Z * Z) := if (prev =? 0)%nat then Dft_leid else at_ l_set prev.

Section New.
Context (n self prev : nat) (l_set : list (list (Z * Z))) (Hpl : placed n l_set) (HN : (1 <= N)%nat).
Context (Hprev : prev = 0%nat \/ (1 <= prev <= MaxElmts)%nat).

Lemma place_good : good (place l_set prev) /\ exists k, (k <= n)%nat /\ ends k (place l_set prev).
Proof using Hpl HN Hprev.
  unfold place. destruct Hprev as [->|Hp]; cbn [Nat.eqb].
  - split; [by apply Dft_good|]. exists 0%nat. split; [lia|apply ends_0].
  - rewrite (proj2 (Nat.eqb_neq _ _)) by lia. split; [by apply (pl_good n)|by apply (pl_ends n)].
Qed.

Lemma Leid_place : Leid l_set prev = horner (digit <$> place l_set prev).
Proof using Hpl HN Hprev.
  unfold place. destruct Hprev as [->|Hp]; [cbn [Nat.eqb]; by rewrite horner_Dft|].
  rewrite (proj2 (Nat.eqb_neq _ _)) by lia. apply Leid_horner; [lia|by apply (pl_good n)].
Qed.

Lemma Leid_elem e : (1 <= e <= MaxElmts)%nat -> Leid l_set e = horner (digit <$> at_ l_set e).
Proof using Hpl HN Hprev. intros He. apply Leid_horner; [lia|by apply (pl_good n)]. Qed.

Lemma Leid_nonneg : 0 <= Leid l_set prev.
Proof using Hpl HN Hprev. rewrite Leid_place. apply horner_bound, digits_bound, place_good. Qed.

(** The successor is the next element, if there is one. *)
Lemma Leid_suc_spec :
  (Leid_suc l_set prev = Dft_leid /\ forall e, (1 <= e <= MaxElmts)%nat -> Leid l_set e <= Leid l_set prev) \/
  (exists t, (1 <= t <= MaxElmts)%nat /\ Leid_suc l_set prev = at_ l_set t /\ Leid l_set prev < Leid l_set t /\
     forall e, (1 <= e <= MaxElmts)%nat -> Leid l_set e <= Leid l_set prev \/ Leid l_set t <= Leid l_set e).
Proof using Hpl HN Hprev.
  unfold Leid_suc. set (S := filter _ _).
  assert (HS : forall e, e ∈ S <-> Leid l_set prev < Leid l_set e /\ (1 <= e <= MaxElmts)%nat).
  { intros e. unfold S. rewrite list_elem_of_filter, elem_of_Elmts, Is_true_true, Z.ltb_lt. done. }
  case_decide as Hem; [left|right].
  - split; [done|]. intros e He. apply Z.nlt_ge. intros Hlt. assert (e ∈ S) as Hin by (by apply HS). rewrite Hem in Hin. by apply elem_of_nil in Hin.
  - assert (Hne : forall e, e ∈ S -> at_ l_set e <> Dft_leid).
    { intros e [Hlt He]%HS E. rewrite (Leid_elem e He), E, horner_Dft in Hlt. pose proof Leid_nonneg. lia. }
    destruct (choose_least (Leid l_set) (fun x y => Leid l_set x <? Leid l_set y) S Hem) as [Hin Hle].
    + intros x y Hx Hy E. destruct (decide (x = y)) as [|Hxy]; [done|]. exfalso. pose proof (Hne x Hx). pose proof (Hne y Hy).
      apply HS in Hx as [_ Hx], Hy as [_ Hy]. apply (pl_apart n l_set Hpl x y); try done.
      rewrite !Leid_elem in E by done. apply horner_inj in E; [done|by apply (pl_good n)..].
    + intros x y. apply Z.ltb_lt.
    + eexists. apply HS in Hin as [Hlt Hb]. split; [exact Hb|]. split; [reflexivity|]. split; [exact Hlt|].
      intros e He. destruct (Z.le_gt_cases (Leid l_set e) (Leid l_set prev)) as [|Hgt]; [by left|right]. apply Hle, HS. split; [lia|done].
Qed.

Context (Hn : (n < MaxElmts)%nat) (Hself : (1 <= self <= N)%nat).

(** The new position follows [prev] at once, and ends in a pair of its process. *)
Lemma Leid_New_spec :
  let r := Leid_New l_set self prev in
  good r /\ (exists k, (1 <= k <= S n)%nat /\ ends k r /\ (at_ r k).2 = Z.of_nat self - 1) /\
  Leid l_set prev < horner (digit <$> r) /\
  forall e, (1 <= e <= MaxElmts)%nat -> Leid l_set e <= Leid l_set prev \/ horner (digit <$> r) < Leid l_set e.
Proof using Hpl HN Hprev Hn Hself.
  cbv zeta. unfold Leid_New. fold (place l_set prev). destruct place_good as [Hgp (kp & Hkp & Hep)]. rewrite Leid_place.
  assert (Hsuc : good (Leid_suc l_set prev) /\ (exists k, (k <= n)%nat /\ ends k (Leid_suc l_set prev)) /\
    forall r, (lex (place l_set prev) (Leid_suc l_set prev) -> lex r (Leid_suc l_set prev)) -> good r ->
      forall e, (1 <= e <= MaxElmts)%nat -> Leid l_set e <= Leid l_set prev \/ horner (digit <$> r) < Leid l_set e).
  { destruct Leid_suc_spec as [[-> Hall]|(t & Ht & -> & Hlt & Hall)].
    - split_and!; [by apply Dft_good| |intros r _ _ e He; left; by apply Hall].
      exists 0%nat. split; [lia|apply ends_0].
    - pose proof (pl_good n l_set Hpl t Ht) as Hgt. split_and!; [done|by apply (pl_ends n)|].
      intros r Hr Hgr e He. destruct (Hall e He) as [|Hle]; [by left|right].
      rewrite Leid_place, (Leid_elem t Ht) in Hlt. rewrite (Leid_elem t Ht) in Hle.
      apply lex_of_horner in Hlt; [|done..]. specialize (Hr Hlt). apply lex_horner in Hr; [lia|done..]. }
  destruct Hsuc as (Hgq & (kq & Hkq & Heq) & Hbelow).
  destruct (Gen_good (place l_set prev) _ kp kq n self Hgp Hep Hgq Heq Hkp Hkq Hn Hself) as (Hg & He & Hpid).
  destruct (idx_spec (place l_set prev) _ kp kq n self Hgp Hep Hgq Heq Hkp Hkq Hn Hself) as [Hidx _].
  pose proof (Gen_above (place l_set prev) _ kp kq n self Hgp Hep Hgq Heq Hkp Hkq Hn Hself) as Hab.
  split_and!; [done| |by apply lex_horner|].
  - eexists. split; [exact Hidx|]. split; [exact He|exact Hpid].
  - rewrite <- Leid_place. apply Hbelow; [|done]. by apply (Gen_below _ _ kp kq n).
Qed.
End New.
End Leid.
End RwfLeid.
