(* ===== verification/TlaList.v ===== *)
(** * The TLA+ specification of the RWF list (MET/TLA/rwf_list/rwf_list.tla)

    The specification the repository model-checks for two processes and two
    operations; its invariants [SEC] and [Leid_TO] and the assertion in its
    process, for any number of processes, operations and values. *)

From S2P Require Import Prelude VectorClock Causal RWFramework TlaNet TlaRwf TlaLeid.
Import RwfLeid.

Module RwfListTla.

(** ** The algorithm

    [e_set], [t_set], [l_set] and [lt_set] of a process are functions on
    [Elmts]: the list of their values, with one record for each element. *)
Record acq := mkAcq { acq_v : Z; acq_t : Z; acq_id : Z }.
Record content := mkContent { p_ini : Z; v_inn : Z; v_acq : acq }.
Record entry := mkEntry { e_set : content; t_set : list Z; l_set : list (Z * Z); lt_set : Z }.
Inductive payload :=
  | PAdd (key : nat) (val p_ini : Z) (rh : list Z) (pos : list (Z * Z))
  | PRem (key : nat) (rh : list Z)
  | PUpd (key : nat) (val : Z) (rh : list Z) (lt_t lt_id : Z).
Notation local := (list entry).

Definition Dft_acq : acq := mkAcq 0 (-1) (-1).
Definition Dft_eset_content : content := mkContent (-1) 0 Dft_acq.

#[export] Instance acq_eq_dec : EqDecision acq.
Proof. solve_decision. Defined.
#[export] Instance content_eq_dec : EqDecision content.
Proof. solve_decision. Defined.
#[export] Instance entry_inhabited : Inhabited entry := populate (mkEntry Dft_eset_content [] [] 0).
#[export] Instance payload_eq_dec : EqDecision payload.
Proof. solve_decision. Defined.
#[export] Instance payload_countable : Countable payload.
Proof.
  refine (inj_countable'
    (fun p => match p with PAdd k v i r q => inl (k, v, i, r, q) | PRem k r => inr (inl (k, r)) | PUpd k v r t i => inr (inr (k, v, r, t, i)) end)
    (fun x => match x with inl (k, v, i, r, q) => PAdd k v i r q | inr (inl (k, r)) => PRem k r | inr (inr (k, v, r, t, i)) => PUpd k v r t i end) _).
  by intros [].
Defined.

Definition key (m : payload) : nat := match m with PAdd k _ _ _ _ | PRem k _ | PUpd k _ _ _ _ => k end.

Section Spec.
Context (N MaxOps unspecified : nat).
Notation MaxElmts := MaxOps.
Notation Dft_leid := (Dft_leid MaxElmts).
Notation Elmts := (Elmts MaxElmts).
Notation newer := RwfRpq.newer.
Notation Max_RH := RwfRpq.Max_RH.

Definition pMax (a b : Z) : Z := if a <=? b then b else a.

Definition _Lookup (s : local) (e : nat) : bool := bool_decide (e_set (at_ s e) <> Dft_eset_content).

(** The prepare phases of process [self]; [None] for the record with the key -1. *)
Definition _Add (s : local) (self prev e : nat) (x : Z) : option payload :=
  if negb (_Lookup s e) && bool_decide (l_set (at_ s e) = Dft_leid)
     && ((prev =? 0)%nat || (_Lookup s prev && bool_decide (l_set (at_ s prev) <> Dft_leid)))
  then Some (PAdd e x (Z.of_nat self) (t_set (at_ s e)) (Leid_New N MaxElmts unspecified (l_set <$> s) self prev))
  else None.

Definition _reAdd (s : local) (self e : nat) (x : Z) : option payload :=
  if negb (_Lookup s e) && bool_decide (l_set (at_ s e) <> Dft_leid)
  then Some (PAdd e x (Z.of_nat self) (t_set (at_ s e)) (l_set (at_ s e)))
  else None.

Definition _Update (s : local) (e : nat) (i t : Z) (self : nat) : option payload :=
  if _Lookup s e then Some (PUpd e i (t_set (at_ s e)) (t + 1) (Z.of_nat self)) else None.

Definition _Remove (s : local) (self e : nat) : option payload :=
  if _Lookup s e then Some (PRem e (alter (fun x => x + 1) (self - 1)%nat (t_set (at_ s e)))) else None.

Inductive request := RAdd (prev e : nat) (v : Z) | RReAdd (e : nat) (v : Z) | RRem (e : nat) | RUpd (e : nat) (i : Z).

Definition prepare (s : local) (self : nat) (r : request) : option payload :=
  match r with
  | RAdd prev e v => _Add s (S self) prev e v
  | RReAdd e v => _reAdd s (S self) e v
  | RRem e => _Remove s (S self) e
  | RUpd e i => _Update s e i (lt_set (at_ s e)) (S self)
  end.

(** The effects on the values at the element. *)
Definition Remove (n : entry) (rhp : list Z) : entry :=
  if newer (t_set n) rhp then mkEntry Dft_eset_content (Max_RH rhp (t_set n)) (l_set n) 0 else n.

Definition Add (n : entry) (x pi : Z) (rh : list Z) (pos : list (Z * Z)) : entry :=
  let n :=
    if newer (t_set n) rh then
      let t := Max_RH rh (t_set n) in
      mkEntry (if decide (rh = t) then mkContent pi x Dft_acq else Dft_eset_content) t (l_set n) 0
    else if bool_decide (rh = t_set n) && (pi >? p_ini (e_set n)) then
      mkEntry (mkContent pi x (v_acq (e_set n))) (t_set n) (l_set n) (lt_set n)
    else n in
  mkEntry (e_set n) (t_set n) pos (lt_set n).

Definition Update (n : entry) (i : Z) (rh : list Z) (lt_t lt_id : Z) : entry :=
  if newer (t_set n) rh then
    let t := Max_RH rh (t_set n) in
    if decide (rh = t) then mkEntry (mkContent (-1) 0 (mkAcq i lt_t lt_id)) t (l_set n) (pMax 0 lt_t)
    else mkEntry Dft_eset_content t (l_set n) 0
  else
    let old := v_acq (e_set n) in
    if bool_decide (rh = t_set n) && ((acq_t old <? lt_t) || ((acq_t old =? lt_t) && (acq_id old <? lt_id))) then
      mkEntry (mkContent (p_ini (e_set n)) (v_inn (e_set n)) (mkAcq i lt_t lt_id)) (t_set n) (l_set n) (pMax (lt_set n) lt_t)
    else n.

Definition entry_effect (n : entry) (m : payload) : entry :=
  match m with
  | PAdd _ x pi rh pos => Add n x pi rh pos
  | PRem _ rh => Remove n rh
  | PUpd _ i rh t id => Update n i rh t id
  end.

Definition effect (s : local) (m : payload) : local := alter (fun n => entry_effect n m) (key m - 1)%nat s.

Definition fresh_entry : entry := mkEntry Dft_eset_content (replicate N 0) Dft_leid 0.
Definition fresh : local := fn MaxElmts (fun _ => fresh_entry).

(** The processes on the network of [TlaNet], with [elmtcount]: a new element
    takes the next number, and [elmtcount] grows when its add is accepted. *)
Context (Values : Z -> Prop).
Notation net := (Net.state (P := payload) (L := local)).

Record state := mkState { st_net : net; elmtcount : nat }.

Definition Init : state := mkState (Net.Init N (fun _ => fresh)) 0.

Definition allowed (ec : nat) (r : request) : Prop :=
  match r with
  | RAdd prev e v => (ec < MaxElmts)%nat /\ e = S ec /\ Values v /\ (prev = 0%nat \/ prev ∈ Elmts)
  | RReAdd e v | RUpd e v => e ∈ Elmts /\ Values v
  | RRem e => e ∈ Elmts
  end.

Definition counted_as (r : request) (ec : nat) : nat := match r with RAdd _ _ _ => S ec | _ => ec end.

Inductive Next (st : state) : state -> Prop :=
  | next_request self s r :
      (Net.opcount (st_net st) < MaxOps)%nat -> Net.locals (st_net st) !! self = Some s -> allowed (elmtcount st) r ->
      Next st (match prepare s self r with
               | None => mkState (Net.mkState (Net.ops (st_net st)) (S (Net.opcount (st_net st))) (Net.locals (st_net st))) (elmtcount st)
               | Some p =>
                   mkState (Net.mkState (Net.Broadcast self (Net.mkMsg (S (Net.opcount (st_net st))) p) (Net.ops (st_net st)))
                              (S (Net.opcount (st_net st))) (<[self := effect s p]> (Net.locals (st_net st))))
                           (counted_as r (elmtcount st))
               end)
  | next_no_more self s :
      (Net.opcount (st_net st) < MaxOps)%nat -> Net.locals (st_net st) !! self = Some s -> (MaxElmts <= elmtcount st)%nat ->
      Next st (mkState (Net.mkState (Net.ops (st_net st)) (S (Net.opcount (st_net st))) (Net.locals (st_net st))) (elmtcount st))
  | next_effect self s q m :
      Net.locals (st_net st) !! self = Some s -> Net.ops (st_net st) !! self = Some q -> m ∈ q ->
      Next st (mkState (Net.mkState (<[self := q ∖ {[ m ]}]> (Net.ops (st_net st))) (Net.opcount (st_net st))
                          (<[self := effect s (Net.params m)]> (Net.locals (st_net st)))) (elmtcount st)).

Definition reachable (st : state) : Prop := rtc Next Init st.

(** The invariants, and the assertion of process 1 when all is delivered. *)
Definition SEC (st : state) : Prop :=
  forall p1 p2 s1 s2 q, p1 <> p2 -> Net.ops (st_net st) !! p1 = Some q -> Net.ops (st_net st) !! p2 = Some q ->
    Net.locals (st_net st) !! p1 = Some s1 -> Net.locals (st_net st) !! p2 = Some s2 ->
    e_set <$> s1 = e_set <$> s2 /\ t_set <$> s1 = t_set <$> s2 /\ l_set <$> s1 = l_set <$> s2 /\ lt_set <$> s1 = lt_set <$> s2.

Definition Leid_TO (st : state) : Prop :=
  forall p s i j, Net.locals (st_net st) !! p = Some s -> i ∈ Elmts -> j ∈ Elmts -> i <> j ->
    l_set (at_ s i) = Dft_leid \/ l_set (at_ s j) = Dft_leid \/ l_set (at_ s i) <> l_set (at_ s j).

Definition Asserted (st : state) : Prop :=
  forall s, Net.locals (st_net st) !! 0%nat = Some s -> Net.opcount (st_net st) = MaxOps ->
    Net.ops (st_net st) = replicate N ∅ -> E_count MaxElmts (l_set <$> s) = elmtcount st.

(** ** An element as a function of the operations on it *)

Definition rh_of (m : payload) : list Z := match m with PAdd _ _ _ rh _ | PRem _ rh | PUpd _ _ rh _ _ => rh end.
Definition is_rem (m : payload) : bool := match m with PRem _ _ => true | _ => false end.
Definition is_add (m : payload) : bool := match m with PAdd _ _ _ _ _ => true | _ => false end.

(** What an operation of the current history does to the content and the clock. *)
Definition upd (p : content * Z) (m : payload) : content * Z :=
  let '(c, lt) := p in
  match m with
  | PAdd _ x pi _ _ => if pi >? p_ini c then (mkContent pi x (v_acq c), lt) else p
  | PUpd _ i _ t id =>
      if (acq_t (v_acq c) <? t) || ((acq_t (v_acq c) =? t) && (acq_id (v_acq c) <? id))
      then (mkContent (p_ini c) (v_inn c) (mkAcq i t id), pMax lt t) else p
  | PRem _ _ => p
  end.

Definition wf_payload (m : payload) : Prop :=
  length (rh_of m) = N /\ (1 <= key m <= MaxElmts)%nat /\
  match m with PAdd _ _ pi _ _ => 0 < pi | PUpd _ _ _ t _ => 0 < t | PRem _ _ => True end.

Definition core (n : entry) : list Z * (content * Z) := (t_set n, (e_set n, lt_set n)).
Notation null := (Dft_eset_content, 0).
Notation step := (rwf_step rh_of is_rem (fun _ => null) upd).

Lemma entry_core n m : length (t_set n) = N -> wf_payload m -> core (entry_effect n m) = step (core n) m.
Proof.
  intros Ht (Hr & _ & Hw). unfold core at 2, rwf_step.
  assert (Hnew : newer (t_set n) (rh_of m) = negb (bool_decide (vle (rh_of m) (t_set n)))) by (apply RwfRpq.newer_spec; lia).
  destruct (RwfRpq.Max_RH_spec (rh_of m) (t_set n)) as [HM|]; [|lia].
  destruct (decide (vle (rh_of m) (t_set n))) as [Hle|Hn].
  - rewrite bool_decide_true in Hnew by done. destruct m as [k x pi rh pos|k rh|k i rh t id]; cbn [entry_effect rh_of is_rem] in *;
      [unfold Add|unfold Remove|unfold Update]; rewrite Hnew; cbn [negb]; [|done|].
    + destruct (decide (rh = t_set n)) as [Heq|Hne]; [rewrite bool_decide_true by done|by rewrite bool_decide_false by done].
      cbn [andb upd]. by destruct (pi >? _).
    + destruct (decide (rh = t_set n)) as [Heq|Hne]; [rewrite bool_decide_true by done|by rewrite bool_decide_false by done].
      cbn [andb upd]. by destruct (_ || _).
  - rewrite bool_decide_false in Hnew by done. destruct m as [k x pi rh pos|k rh|k i rh t id]; cbn [entry_effect rh_of is_rem] in *;
      [unfold Add|unfold Remove|unfold Update]; rewrite Hnew; cbn [negb]; rewrite HM; [|done|].
    + cbn [e_set t_set lt_set]. unfold core. cbn [e_set t_set lt_set]. case_decide; [|done].
      cbn [upd p_ini Dft_eset_content]. by rewrite (proj2 (Z.gtb_lt pi (-1))) by lia.
    + case_decide; [|done]. cbn [upd p_ini v_inn v_acq Dft_eset_content Dft_acq acq_t acq_id].
      by rewrite (proj2 (Z.ltb_lt (-1) t)) by lia.
Qed.

Lemma core_length n m : length (t_set n) = N -> wf_payload m -> length (t_set (entry_effect n m)) = N.
Proof.
  intros Ht Hw. change (t_set (entry_effect n m)) with (core (entry_effect n m)).1. rewrite entry_core by done.
  destruct Hw as [Hr _]. unfold rwf_step, core. case_decide.
  - by destruct (is_rem m); [|case_decide].
  - assert (length (vec_update (t_set n) (rh_of m)) = N) by (rewrite vec_update_length; lia). by destruct (is_rem m); [|case_decide].
Qed.

Lemma entries_core l : Forall wf_payload l ->
  core (foldl entry_effect (fresh_entry) l) =
    (history rh_of (replicate N 0) l, foldl upd null (survivors rh_of is_rem (history rh_of (replicate N 0) l) l)).
Proof.
  intros Hl. assert (Hs : sized rh_of N l) by (eapply Forall_impl; [exact Hl|]; by intros m [? _]).
  rewrite <- (rwf_run_spec rh_of is_rem (fun _ => null) upd N) by (done || apply length_replicate). unfold rwf_run.
  change (replicate N 0, null) with (core fresh_entry). assert (length (t_set fresh_entry) = N) as Hn by apply length_replicate.
  generalize dependent fresh_entry. clear Hs. induction Hl as [|m l Hm Hl IH]; intros n Hn; [done|]. cbn [foldl].
  rewrite <- entry_core by done. apply IH. by apply core_length.
Qed.

(** Where the add messages of an element agree on its place. *)
Lemma entries_place l q n : (forall k x pi rh pos, PAdd k x pi rh pos ∈ l -> pos = q) ->
  l_set (foldl entry_effect n l) = if existsb is_add l then q else l_set n.
Proof.
  revert n. induction l as [|m l IH]; intros n Hq; [done|]. cbn [foldl existsb].
  rewrite IH by (intros k x pi rh pos Hin; apply (Hq k x pi rh); by right).
  destruct (existsb is_add l); [by rewrite orb_true_r|]. rewrite orb_false_r.
  destruct m as [k x pi rh pos|k rh|k i rh t id]; cbn [is_add entry_effect].
  - cbn. apply (Hq k x pi rh). by left.
  - unfold Remove. by destruct (newer _ _).
  - unfold Update. destruct (newer _ _); [by case_decide|by destruct (_ && _)].
Qed.

(** A process's state at an element depends on the operations on it. *)
Lemma effects_at s l e : length s = MaxElmts -> (1 <= e <= MaxElmts)%nat -> Forall wf_payload l ->
  at_ (foldl effect s l) e = foldl entry_effect (at_ s e) (filter (fun m => key m = e) l) /\ length (foldl effect s l) = MaxElmts.
Proof.
  intros Hs He Hl. revert s Hs. induction Hl as [|m l (_ & Hk & _) Hl IH]; intros s Hs; [done|]. cbn [foldl].
  destruct (IH (effect s m)) as [-> ->]; [by unfold effect; rewrite length_alter|]. split; [|done]. unfold effect, at_.
  destruct (decide (key m = e)) as [<-|Hne].
  - rewrite filter_cons_True by done. cbn [foldl]. f_equal. apply list_lookup_total_correct. rewrite list_lookup_alter.
    by rewrite decide_True, list_lookup_lookup_total_lt by lia.
  - rewrite filter_cons_False by done. f_equal. unfold at_. rewrite !list_lookup_total_alt, list_lookup_alter_ne by lia. done.
Qed.

(** ** The order does not matter *)

(** One process adds an element once per history, and each of its updates has a
    later time. *)
Definition agree (l : list payload) : Prop :=
  (forall k x x' pi rh pos pos', PAdd k x pi rh pos ∈ l -> PAdd k x' pi rh pos' ∈ l -> x = x') /\
  (forall k i i' rh t id, PUpd k i rh t id ∈ l -> PUpd k i' rh t id ∈ l -> i = i').

Lemma pMax_max a b : pMax a b = Z.max a b.
Proof. unfold pMax. destruct (Z.leb_spec a b); lia. Qed.

Ltac cases_Z :=
  repeat (match goal with
          | |- context [?a >? ?b] => rewrite (Z.gtb_ltb a b)
          | |- context [?a <? ?b] => destruct (Z.ltb_spec a b)
          | |- context [?a =? ?b] => destruct (Z.eqb_spec a b)
          end; cbn [orb andb upd p_ini v_inn v_acq acq_t acq_id]); try lia.

Lemma adds_commute k x pi rh pos x' pi' pos' p : (pi = pi' -> x = x') ->
  upd (upd p (PAdd k x pi rh pos)) (PAdd k x' pi' rh pos') = upd (upd p (PAdd k x' pi' rh pos')) (PAdd k x pi rh pos).
Proof.
  intros Hx. destruct p as [[p0 i0 a0] lt]. cbn [upd p_ini v_acq]. cases_Z; try done.
  assert (pi = pi') as -> by lia. by rewrite Hx.
Qed.

Lemma updates_commute k i t id rh i' t' id' p : (t = t' -> id = id' -> i = i') ->
  upd (upd p (PUpd k i rh t id)) (PUpd k i' rh t' id') = upd (upd p (PUpd k i' rh t' id')) (PUpd k i rh t id).
Proof.
  intros Hi. destruct p as [[p0 i0 [a0 t0 id0]] lt]. cbn [upd p_ini v_inn v_acq acq_t acq_id].
  cases_Z; try done; rewrite ?pMax_max;
    try (assert (t = t') as -> by lia); try (assert (id = id') as -> by lia); rewrite ?Hi by done; try (f_equal; lia).
Qed.

Lemma add_update_commute k x pi rh pos i t id p :
  upd (upd p (PAdd k x pi rh pos)) (PUpd k i rh t id) = upd (upd p (PUpd k i rh t id)) (PAdd k x pi rh pos).
Proof. destruct p as [[p0 i0 [a0 t0 id0]] lt]. cbn [upd p_ini v_inn v_acq acq_t acq_id]. by cases_Z. Qed.

Lemma upd_removed p k rh : upd p (PRem k rh) = p.
Proof. by destruct p. Qed.

Lemma updates_comm rh k a b p l : agree l -> a ∈ l -> b ∈ l -> rh_of a = rh -> rh_of b = rh -> key a = k -> key b = k ->
  upd (upd p a) b = upd (upd p b) a.
Proof.
  intros [Hadd Hupd] Ha Hb Hra Hrb Hka Hkb.
  destruct a as [ka x pi ra pos|ka ra|ka i ra t id], b as [kb y pj rb qos|kb rb|kb j rb u jd]; rewrite ?upd_removed; try done; cbn [rh_of key] in *; subst.
  - apply adds_commute. intros ->. eapply Hadd; [exact Ha|exact Hb].
  - apply add_update_commute.
  - symmetry. apply add_update_commute.
  - apply updates_commute. intros -> ->. eapply Hupd; [exact Ha|exact Hb].
Qed.

Lemma entries_perm l1 l2 e : Forall wf_payload l1 -> agree l1 -> (forall m, m ∈ l1 -> key m = e) -> l1 ≡ₚ l2 ->
  core (foldl entry_effect fresh_entry l1) = core (foldl entry_effect fresh_entry l2).
Proof.
  intros Hl Hag Hk Hp. rewrite !entries_core by (by rewrite <- ?Hp).
  assert (Hs : sized rh_of N l1) by (eapply Forall_impl; [exact Hl|]; by intros m [? _]).
  rewrite <- (history_perm rh_of N _ l1 l2) by (done || apply length_replicate). f_equal.
  apply foldl_comm_perm; [|unfold survivors; generalize (history rh_of (replicate N 0) l1); intros h; by rewrite Hp].
  intros a b p [[_ Ha'] Ha]%list_elem_of_filter [[_ Hb'] Hb]%list_elem_of_filter.
  by apply (updates_comm (history rh_of (replicate N 0) l1) e a b p l1); auto.
Qed.

(** ** What the operations executed leave at an element *)

Lemma upd_grows p m : p_ini p.1 <= p_ini (upd p m).1 /\ p.2 <= (upd p m).2 /\
  (acq_t (v_acq p.1) <= p.2 -> acq_t (v_acq (upd p m).1) <= (upd p m).2).
Proof.
  destruct p as [c lt], m as [k x pi rh pos|k rh|k i rh t id]; cbn [upd fst snd]; [|lia|].
  - rewrite Z.gtb_ltb. destruct (Z.ltb_spec (p_ini c) pi); cbn; lia.
  - destruct (_ || _); cbn; rewrite ?pMax_max; lia.
Qed.

Lemma upds_grow p l : p_ini p.1 <= p_ini (foldl upd p l).1 /\ p.2 <= (foldl upd p l).2 /\
  (acq_t (v_acq p.1) <= p.2 -> acq_t (v_acq (foldl upd p l).1) <= (foldl upd p l).2).
Proof.
  revert p. induction l as [|m l IH]; intros p; [cbn; lia|]. cbn [foldl]. pose proof (upd_grows p m). specialize (IH (upd p m)). intuition lia.
Qed.

(** An add of the current history left its content, an update its time. *)
Lemma upds_added k x pi rh pos l p : PAdd k x pi rh pos ∈ l -> pi <= p_ini (foldl upd p l).1.
Proof.
  intros (l1 & l2 & ->)%list_elem_of_split. rewrite foldl_app. cbn [foldl]. destruct (foldl upd p l1) as [c lt].
  etrans; [|apply upds_grow]. cbn [upd fst]. rewrite Z.gtb_ltb. destruct (Z.ltb_spec (p_ini c) pi); cbn; lia.
Qed.

Lemma upds_updated k i rh t id l p : acq_t (v_acq p.1) <= p.2 -> PUpd k i rh t id ∈ l -> t <= (foldl upd p l).2.
Proof.
  intros Hp (l1 & l2 & ->)%list_elem_of_split. rewrite foldl_app. cbn [foldl]. pose proof (upds_grow p l1) as (_ & _ & Hlt).
  specialize (Hlt Hp). destruct (foldl upd p l1) as [c lt]. cbn [fst snd] in Hlt.
  transitivity (upd (c, lt) (PUpd k i rh t id)).2; [|apply (upds_grow (upd (c, lt) (PUpd k i rh t id)) l2)]. cbn [upd].
  cases_Z; cbn [snd]; rewrite ?pMax_max; lia.
Qed.

(** ** Reachable states *)

Notation tracks := (Net.tracks N MaxOps (fun _ => fresh) prepare effect effect (fun _ _ => true) (fun r => exists ec, allowed ec r)).
Notation log := (list (nat * Net.message payload)).
Notation done_at lg g e := (filter (fun m => key m = e) ((Net.executed lg g).*2)).

(** Messages carry the number of their sender. *)
Definition sent_by (i : nat) (m : payload) : Prop :=
  wf_payload m /\
  match m with PAdd _ _ pi _ _ => pi = Z.of_nat (S i) | PUpd _ _ _ _ id => id = Z.of_nat (S i) | PRem _ _ => True end.

Lemma fresh_at e : (1 <= e <= MaxElmts)%nat -> at_ fresh e = fresh_entry.
Proof. intros He. unfold fresh. by rewrite at_fn. Qed.

(** The entry of an element at a process that executed [l]. *)
Lemma run_at l e : (1 <= e <= MaxElmts)%nat -> Forall wf_payload l ->
  at_ (foldl effect fresh l) e = foldl entry_effect fresh_entry (filter (fun m => key m = e) l).
Proof. intros He Hl. rewrite <- (fresh_at e He). apply effects_at; [apply length_fn|done|done]. Qed.

Lemma run_length l : Forall wf_payload l -> length (foldl effect fresh l) = MaxElmts.
Proof.
  intros Hl. destruct (decide (MaxElmts = 0)%nat) as [E|]; [|apply (effects_at fresh l 1); [apply length_fn|lia|done]].
  destruct Hl as [|m l (_ & ? & _) Hl]; [apply length_fn|lia].
Qed.

Lemma filter_wf l e : Forall wf_payload l -> Forall wf_payload (filter (fun m => key m = e) l).
Proof. rewrite !Forall_forall. intros Hl m [_ Hm]%list_elem_of_filter. by apply Hl. Qed.

Lemma run_core l e : (1 <= e <= MaxElmts)%nat -> Forall wf_payload l ->
  let d := filter (fun m => key m = e) l in
  core (at_ (foldl effect fresh l) e) =
    (history rh_of (replicate N 0) d, foldl upd null (survivors rh_of is_rem (history rh_of (replicate N 0) d) d)).
Proof. intros He Hl. rewrite run_at by done. by apply entries_core, filter_wf. Qed.

Lemma run_clock l e : (1 <= e <= MaxElmts)%nat -> Forall wf_payload l ->
  length (t_set (at_ (foldl effect fresh l) e)) = N /\ 0 <= lt_set (at_ (foldl effect fresh l) e).
Proof.
  intros He Hl. pose proof (run_core l e He Hl) as Hc. cbv zeta in Hc. unfold core in Hc. injection Hc as -> Hc.
  split; [apply history_length, length_replicate|]. set (d := survivors _ _ _ _) in Hc. pose proof (upds_grow null d) as (_ & H & _).
  rewrite <- Hc in H. exact H.
Qed.

Lemma request_elem ec r : allowed ec r -> match r with RAdd _ e _ | RReAdd e _ | RRem e | RUpd e _ => (1 <= e <= MaxElmts)%nat end.
Proof. destruct r; cbn [allowed]; rewrite ?elem_of_Elmts; intuition lia. Qed.

Lemma prepare_sends l i r ec m : Forall wf_payload l -> allowed ec r -> prepare (foldl effect fresh l) i r = Some m -> sent_by i m.
Proof.
  intros Hl Ha%request_elem Hp. set (s := foldl effect fresh l) in *.
  destruct r as [prev e v|e v|e|e v]; destruct (run_clock l e Ha Hl) as [Ht Hlt]; fold s in Ht, Hlt; cbn [prepare] in Hp;
    unfold _Add, _reAdd, _Remove, _Update in Hp; case_match; try done; injection Hp as <-; unfold sent_by, wf_payload; cbn [rh_of key];
    rewrite ?length_alter; split_and!; done || lia.
Qed.

Lemma log_sends st lg got m o : tracks st lg got -> lg !! m = Some o -> sent_by o.1 (Net.params o.2).
Proof.
  intros Ht. revert o. induction (lt_wf m) as [m _ IH]; intros [i x] Hm.
  destruct (Net.tk_born _ _ _ _ _ _ _ _ _ _ _ Ht m i x Hm) as (g1 & g2 & r & _ & Hlt & [ec Ha] & Hp).
  rewrite Net.replay_effects in Hp. eapply prepare_sends; [|exact Ha|exact Hp]. apply Forall_forall.
  intros p (k & j & y & Hk & Hy & <-)%Net.executed_payloads. rewrite Forall_forall in Hlt. specialize (Hlt _ Hk).
  by destruct (IH k Hlt (j, y) Hy) as [? _].
Qed.

Lemma executed_ok st lg got g : tracks st lg got -> Forall wf_payload ((Net.executed lg g).*2).
Proof.
  intros Ht. apply Forall_forall. intros p (k & j & y & _ & Hy & <-)%Net.executed_payloads. by destruct (log_sends st lg got k (j, y) Ht Hy) as [? _].
Qed.

(** What a sender had executed when it prepared a message. *)
Lemma sent_earlier st lg got m m' i x x' :
  tracks st lg got -> lg !! m = Some (i, x) -> lg !! m' = Some (i, x') -> (m < m')%nat ->
  exists l r ec, Forall wf_payload l /\ Net.params x ∈ l /\ allowed ec r /\ prepare (foldl effect fresh l) i r = Some (Net.params x').
Proof.
  intros Ht Hm Hm' Hlt. destruct (Net.tk_born _ _ _ _ _ _ _ _ _ _ _ Ht m' i x' Hm') as (g1 & g2 & r & Hg & _ & [ec Ha] & Hp).
  pose proof (Net.own_before _ _ _ _ _ _ _ _ _ _ _ _ _ _ _ _ _ _ Ht Hm Hm' Hlt Hg) as Hin. rewrite Net.replay_effects in Hp.
  exists ((Net.executed lg g1).*2), r, ec. split_and!; [by eapply executed_ok| |done|done]. apply Net.executed_payloads. by exists m, i, x.
Qed.

(** An operation of the current history of its element is not lost. *)
Lemma run_survivor l m : Forall wf_payload l -> m ∈ l -> is_rem m = false -> rh_of m = t_set (at_ (foldl effect fresh l) (key m)) ->
  exists d, m ∈ d /\ (e_set (at_ (foldl effect fresh l) (key m)), lt_set (at_ (foldl effect fresh l) (key m))) = foldl upd null d.
Proof.
  intros Hl Hm Hr Hh. assert (1 <= key m <= MaxElmts)%nat as Hk by (rewrite Forall_forall in Hl; by destruct (Hl m Hm) as (_ & ? & _)).
  pose proof (run_core l (key m) Hk Hl) as Hc. cbv zeta in Hc. unfold core in Hc. injection Hc as Ht Hc. eexists. split; [|exact (f_equal id Hc)].
  apply list_elem_of_filter. split; [|apply list_elem_of_filter; done]. split; [by rewrite Hr|congruence].
Qed.

Lemma adds_once l i r k v v' pi rh pos pos' : Forall wf_payload l -> PAdd k v pi rh pos ∈ l ->
  prepare (foldl effect fresh l) i r = Some (PAdd k v' pi rh pos') -> False.
Proof.
  intros Hl Hin Hp. assert (_Lookup (foldl effect fresh l) k = false /\ rh = t_set (at_ (foldl effect fresh l) k)) as [Hlk Hrh].
  { destruct r as [prev e u|e u|e|e u]; cbn [prepare] in Hp; unfold _Add, _reAdd, _Remove, _Update in Hp; case_match eqn:Hc; try done;
      injection Hp; intros; subst; split; try done; by destruct (_Lookup _ k). }
  destruct (run_survivor l (PAdd k v pi rh pos) Hl Hin eq_refl Hrh) as (d & Hd & Hc). cbn [key] in Hc.
  pose proof (upds_added k v pi rh pos d null Hd) as Hpi. rewrite <- Hc in Hpi. cbn [fst] in Hpi.
  unfold _Lookup in Hlk. apply bool_decide_eq_false, dec_stable in Hlk. rewrite Hlk in Hpi. cbn in Hpi.
  rewrite Forall_forall in Hl. destruct (Hl _ Hin) as (_ & _ & Hpos). cbn in Hpos. lia.
Qed.

Lemma updates_once l i r k v v' rh t id : Forall wf_payload l -> PUpd k v rh t id ∈ l ->
  prepare (foldl effect fresh l) i r = Some (PUpd k v' rh t id) -> False.
Proof.
  intros Hl Hin Hp. assert (t = lt_set (at_ (foldl effect fresh l) k) + 1 /\ rh = t_set (at_ (foldl effect fresh l) k)) as [Hlt Hrh].
  { destruct r as [prev e u|e u|e|e u]; cbn [prepare] in Hp; unfold _Add, _reAdd, _Remove, _Update in Hp; case_match; try done.
    injection Hp; intros; subst; done. }
  destruct (run_survivor l (PUpd k v rh t id) Hl Hin eq_refl Hrh) as (d & Hd & Hc). cbn [key] in Hc.
  pose proof (upds_updated k v rh t id d null) as Hle. rewrite <- Hc in Hle. cbn in Hle. specialize (Hle ltac:(lia) Hd). lia.
Qed.

(** Two messages of one sender are the same if neither can follow the other. *)
Lemma sent_once st lg got m m' i x x' :
  tracks st lg got -> lg !! m = Some (i, x) -> lg !! m' = Some (i, x') ->
  (forall l r, Forall wf_payload l -> Net.params x ∈ l -> prepare (foldl effect fresh l) i r = Some (Net.params x') -> False) ->
  (forall l r, Forall wf_payload l -> Net.params x' ∈ l -> prepare (foldl effect fresh l) i r = Some (Net.params x) -> False) -> x = x'.
Proof.
  intros Ht Hm Hm' H1 H2. destruct (Nat.lt_trichotomy m m') as [Hlt|[->|Hlt]]; [exfalso|congruence|exfalso].
  - destruct (sent_earlier _ _ _ _ _ _ _ _ Ht Hm Hm' Hlt) as (l & r & ec & Hl & Hin & _ & Hp). by eapply H1.
  - destruct (sent_earlier _ _ _ _ _ _ _ _ Ht Hm' Hm Hlt) as (l & r & ec & Hl & Hin & _ & Hp). by eapply H2.
Qed.

Lemma executed_agrees st lg got g : tracks st lg got -> agree ((Net.executed lg g).*2).
Proof.
  intros Ht. split.
  - intros k v v' pi rh pos pos' (m & i & x & _ & Hm & Hx)%Net.executed_payloads (m' & i' & x' & _ & Hm' & Hx')%Net.executed_payloads.
    destruct (log_sends _ _ _ _ _ Ht Hm) as [_ Hs], (log_sends _ _ _ _ _ Ht Hm') as [_ Hs']. cbn [fst snd] in *. rewrite Hx in Hs. rewrite Hx' in Hs'.
    assert (i' = i) as -> by lia. assert (x = x') as ->; [|congruence].
    apply (sent_once _ _ _ _ _ _ _ _ Ht Hm Hm'); rewrite Hx, Hx'; intros l r; apply adds_once.
  - intros k v v' rh t id (m & i & x & _ & Hm & Hx)%Net.executed_payloads (m' & i' & x' & _ & Hm' & Hx')%Net.executed_payloads.
    destruct (log_sends _ _ _ _ _ Ht Hm) as [_ Hs], (log_sends _ _ _ _ _ Ht Hm') as [_ Hs']. cbn [fst snd] in *. rewrite Hx in Hs. rewrite Hx' in Hs'.
    assert (i' = i) as -> by lia. assert (x = x') as ->; [|congruence].
    apply (sent_once _ _ _ _ _ _ _ _ Ht Hm Hm'); rewrite Hx, Hx'; intros l r; apply updates_once.
Qed.

(** ** The places of elements *)

(** Each numbered element has one place, made by one process; [adds_of] are the
    messages that add it. *)
Definition adds_of (lg : log) (e : nat) (m : nat) : Prop :=
  exists i x v pi rh pos, lg !! m = Some (i, x) /\ Net.params x = PAdd e v pi rh pos.

Record places (ec : nat) (lg : log) (got : list (list nat)) (P : nat -> list (Z * Z)) (A : nat -> nat) : Prop := {
  pc_count : (ec <= MaxElmts)%nat;
  pc_adds : forall m i x e v pi rh pos, lg !! m = Some (i, x) -> Net.params x = PAdd e v pi rh pos -> (1 <= e <= ec)%nat /\ pos = P e;
  pc_shape : forall e, (1 <= e <= ec)%nat -> good N MaxElmts (P e) /\
    exists k, (1 <= k <= e)%nat /\ ends MaxElmts k (P e) /\ (at_ (P e) k).2 = Z.of_nat (A e);
  pc_home : forall e, (1 <= e <= ec)%nat -> exists g m, got !! A e = Some g /\ m ∈ g /\ adds_of lg e m;
  pc_apart : forall e e', (1 <= e <= ec)%nat -> (1 <= e' <= ec)%nat -> e <> e' -> P e <> P e'
}.

Lemma place_Dft ec lg got P A e : places ec lg got P A -> (1 <= e <= ec)%nat -> P e <> Dft_leid.
Proof.
  intros Hpl He E. destruct (pc_shape _ _ _ _ _ Hpl e He) as [[Hl _] (k & Hk & Hend & _)].
  apply (ends_Dft MaxElmts k (P e) Hl Hend) in E. lia.
Qed.

(** The place of an element at a process: none before its add is executed. *)
Lemma local_place st ec lg got P A i g s e :
  tracks st lg got -> places ec lg got P A -> got !! i = Some g -> Net.locals st !! i = Some s -> (1 <= e <= MaxElmts)%nat ->
  (l_set (at_ s e) = Dft_leid /\ forall m, m ∈ g -> ~ adds_of lg e m) \/
  (l_set (at_ s e) = P e /\ (1 <= e <= ec)%nat /\ exists m, m ∈ g /\ adds_of lg e m).
Proof.
  intros Ht Hpl Hg Hs He. rewrite (Net.tk_local _ _ _ _ _ _ _ _ _ _ _ Ht _ _ _ Hg Hs), Net.replay_effects.
  pose proof (executed_ok _ _ _ g Ht) as Hok. rewrite run_at by done. set (d := filter _ _).
  assert (Hd : forall k v pi rh pos, PAdd k v pi rh pos ∈ d -> k = e /\ (1 <= e <= ec)%nat /\ pos = P e /\ exists m, m ∈ g /\ adds_of lg e m).
  { intros k v pi rh pos [Hk (m & j & x & Hm & Hlg & Hx)%Net.executed_payloads]%list_elem_of_filter. cbn [key] in Hk. subst k.
    destruct (pc_adds _ _ _ _ _ Hpl _ _ _ _ _ _ _ _ Hlg Hx). split_and!; try done; try lia. exists m. split; [done|]. by exists j, x, v, pi, rh, pos. }
  rewrite (entries_place d (P e)) by (intros k v pi rh pos Hin; by destruct (Hd _ _ _ _ _ Hin) as (_ & _ & ? & _)).
  destruct (existsb is_add d) eqn:Hex; [right|left].
  - apply existsb_exists in Hex as (p & Hp%list_elem_of_In & Ha). destruct p as [k v pi rh pos|k rh|k u rh t id]; try done.
    destruct (Hd _ _ _ _ _ Hp) as (_ & ? & _ & ?). done.
  - split; [done|]. intros m Hm (j & x & v & pi & rh & pos & Hlg & Hx).
    assert (existsb is_add d = true) as Ht'; [|congruence]. apply existsb_exists. exists (PAdd e v pi rh pos). split; [|done].
    apply list_elem_of_In, list_elem_of_filter. split; [done|]. apply Net.executed_payloads. by exists m, j, x.
Qed.

(** The identifiers a process knows fit the generator. *)
Lemma local_placed st ec lg got P A i g s :
  (1 <= N)%nat -> tracks st lg got -> places ec lg got P A -> got !! i = Some g -> Net.locals st !! i = Some s ->
  placed N MaxElmts ec (l_set <$> s) /\ length s = MaxElmts.
Proof.
  intros HN Ht Hpl Hg Hs. assert (Hlen : length s = MaxElmts).
  { rewrite (Net.tk_local _ _ _ _ _ _ _ _ _ _ _ Ht _ _ _ Hg Hs), Net.replay_effects. by apply run_length, (executed_ok _ _ _ g Ht). }
  assert (Hat : forall e, (1 <= e <= MaxElmts)%nat -> at_ (l_set <$> s) e = l_set (at_ s e)) by (intros e He; apply at_fmap; lia).
  split; [|done]. split.
  - intros e He. rewrite Hat by done. destruct (local_place st ec lg got P A i g s e) as [[-> _]|(-> & Hec & _)]; try done; [by apply Dft_good|].
    by apply (pc_shape _ _ _ _ _ Hpl).
  - intros e He. rewrite Hat by done. destruct (local_place st ec lg got P A i g s e) as [[-> _]|(-> & Hec & _)]; try done.
    + exists 0%nat. split; [lia|apply ends_0].
    + destruct (pc_shape _ _ _ _ _ Hpl e Hec) as [_ (k & Hk & Hend & _)]. exists k. split; [lia|done].
  - intros e e' He He' Hne. rewrite !Hat by done.
    destruct (local_place st ec lg got P A i g s e) as [[-> _]|(-> & Hec & _)]; try done.
    destruct (local_place st ec lg got P A i g s e') as [[-> _]|(-> & Hec' & _)]; try done. intros _ _. by apply (pc_apart _ _ _ _ _ Hpl).
Qed.

(** A step that numbers no element. *)
Lemma places_step ec lg got P A ls self g k :
  places ec lg got P A -> got !! self = Some g ->
  (forall o e v pi rh pos, o ∈ ls -> Net.params o.2 = PAdd e v pi rh pos -> (1 <= e <= ec)%nat /\ pos = P e) ->
  places ec (lg ++ ls) (<[self := g ++ [k]]> got) P A.
Proof.
  intros [Hc Ha Hs Hh Hd] Hg Hls. split; try done.
  - intros m i x e v pi rh pos [Hm|[_ Hm]]%lookup_app_Some Hx; [by eapply Ha|].
    apply (Hls (i, x) e v pi rh pos); [by eapply list_elem_of_lookup_2|done].
  - intros e He. destruct (Hh e He) as (g0 & m & Hg0 & Hm & i & x & v & pi & rh & pos & Hlg & Hx).
    assert (adds_of (lg ++ ls) e m) by (exists i, x, v, pi, rh, pos; by rewrite lookup_app_l by (by eapply lookup_lt_Some)).
    destruct (decide (A e = self)) as [<-|Hne].
    + exists (g ++ [k]), m. rewrite list_lookup_insert_eq by (by eapply lookup_lt_Some). assert (g0 = g) as -> by congruence. set_solver.
    + exists g0, m. by rewrite list_lookup_insert_ne by congruence.
Qed.

Section NewElement.
Context (st : net) (ec : nat) (lg : log) (got : list (list nat)) (P : nat -> list (Z * Z)) (A : nat -> nat).
Context (self : nat) (g : list nat) (s : local) (prev : nat).
Context (Ht : tracks st lg got) (Hpl : places ec lg got P A) (Hg : got !! self = Some g) (Hs : Net.locals st !! self = Some s).
Context (Hec : (ec < MaxElmts)%nat) (Hprev : prev = 0%nat \/ prev ∈ Elmts).
Notation r := (Leid_New N MaxElmts unspecified (l_set <$> s) (S self) prev).

#[local] Lemma process_bound : (S self <= N)%nat.
Proof using Ht Hs Hpl Hg Hec Hprev. apply lookup_lt_Some in Hs. rewrite (Net.tk_locals _ _ _ _ _ _ _ _ _ _ _ Ht) in Hs. lia. Qed.

#[local] Lemma new_spec :
  good N MaxElmts r /\ (exists k, (1 <= k <= S ec)%nat /\ ends MaxElmts k r /\ (at_ r k).2 = Z.of_nat self) /\
  forall e, (1 <= e <= MaxElmts)%nat -> l_set (at_ s e) <> Dft_leid -> l_set (at_ s e) <> r.
Proof using Ht Hs Hpl Hg Hec Hprev.
  pose proof process_bound as HN. destruct (local_placed st ec lg got P A self g s) as [Hp Hlen]; try done; [lia|].
  destruct (Leid_New_spec N MaxElmts unspecified ec (S self) prev (l_set <$> s) Hp) as (Hgood & (k & Hk & Hend & Hpid) & Hab & Hbel); [lia| |lia..|].
  { rewrite elem_of_Elmts in Hprev. done. }
  split_and!; [done| |].
  - exists k. split_and!; [lia..|done|]. lia.
  - intros e He _ E. assert (at_ (l_set <$> s) e = r) as Er.
    { rewrite <- E. apply at_fmap. lia. }
    specialize (Hbel e He). rewrite (Leid_horner N MaxElmts _ e), Er in Hbel by (lia || by rewrite Er). lia.
Qed.

(** The new place differs from those of all elements, known here or not. *)
#[local] Lemma new_apart e : (1 <= e <= ec)%nat -> P e <> r.
Proof using Ht Hs Hpl Hg Hec Hprev.
  intros He. destruct new_spec as (Hgood & (k & Hk & Hend & Hpid) & Hne).
  destruct (local_place st ec lg got P A self g s e) as [[_ Hno]|(Heq & _ & _)]; try done; [lia| |].
  - intros E. destruct (pc_shape _ _ _ _ _ Hpl e He) as [[Hl _] (k' & Hk' & Hend' & Hpid')].
    assert (k' = k) as ->; [by rewrite <- (num_ends MaxElmts unspecified k' (P e)), E, (num_ends MaxElmts unspecified k) by (done || apply Hgood)|].
    rewrite E, Hpid in Hpid'. assert (A e = self) as HA by lia.
    destruct (pc_home _ _ _ _ _ Hpl e He) as (g0 & m & Hg0 & Hm & Hadd). rewrite HA in Hg0. apply (Hno m); [congruence|done].
  - rewrite <- Heq. apply Hne; [lia|]. rewrite Heq. by eapply place_Dft.
Qed.

Lemma places_new x v pi rh : Net.params x = PAdd (S ec) v pi rh r ->
  places (S ec) (lg ++ [(self, x)]) (<[self := g ++ [length lg]]> got)
    (fun e => if decide (e = S ec) then r else P e) (fun e => if decide (e = S ec) then self else A e).
Proof using Ht Hs Hpl Hg Hec Hprev.
  intros Hx. destruct new_spec as (Hgood & Hshape & _). split.
  - lia.
  - intros m i y e u pj rj pos Hm Hy. apply lookup_app_Some in Hm as [Hm|[_ Hm]].
    + destruct (pc_adds _ _ _ _ _ Hpl _ _ _ _ _ _ _ _ Hm Hy). rewrite decide_False by lia. split; [lia|done].
    + apply list_lookup_singleton_Some in Hm as [_ [= <- <-]]. rewrite Hx in Hy. injection Hy as <- <- <- <- <-. rewrite decide_True by done. split; [lia|done].
  - intros e He. case_decide as E; [subst e; done|]. apply (pc_shape _ _ _ _ _ Hpl). lia.
  - intros e He. case_decide as E.
    + exists (g ++ [length lg]), (length lg). rewrite list_lookup_insert_eq by (by eapply lookup_lt_Some).
      split_and!; [done|set_solver|]. exists self, x, v, pi, rh, r. subst e. by rewrite lookup_app_r, Nat.sub_diag by lia.
    + destruct (pc_home ec (lg ++ []) _ P A (places_step ec lg got P A [] self g (length lg) Hpl Hg ltac:(by intros ? ? ? ? ? ? ?%elem_of_nil)) e) as (g0 & m & Hg0 & Hm & i & y & u & pj & rj & pos & Hlg & Hy); [lia|].
      rewrite app_nil_r in Hlg. exists g0, m. split_and!; [done..|]. exists i, y, u, pj, rj, pos. by rewrite lookup_app_l by (by eapply lookup_lt_Some).
  - intros e e' He He' Hne. repeat case_decide; subst; try done.
    + apply not_eq_sym, new_apart. lia.
    + apply new_apart. lia.
    + apply (pc_apart _ _ _ _ _ Hpl); lia || done.
Qed.
End NewElement.

Definition inv (st : state) : Prop :=
  exists lg got P A, tracks (st_net st) lg got /\ places (elmtcount st) lg got P A.

Lemma init_inv : inv Init.
Proof.
  exists [], (replicate N []), (fun _ => []), (fun _ => 0%nat). split; [apply Net.init_tracks|]. split; cbn; lia || done.
Qed.

Lemma request_inv st self s r p lg got g P A :
  tracks (st_net st) lg got -> places (elmtcount st) lg got P A -> got !! self = Some g ->
  Net.locals (st_net st) !! self = Some s -> allowed (elmtcount st) r -> prepare s self r = Some p ->
  exists P' A', places (counted_as r (elmtcount st)) (lg ++ [(self, Net.mkMsg (S (Net.opcount (st_net st))) p)])
    (<[self := g ++ [length lg]]> got) P' A'.
Proof.
  intros Ht Hpl Hg Hs Ha Hp. destruct r as [prev e v|e v|e|e v]; cbn [prepare counted_as allowed] in *.
  - destruct Ha as (Hec & -> & _ & Hprev). unfold _Add in Hp. case_match; [|done]. injection Hp as <-. eexists _, _.
    by eapply (places_new (st_net st)).
  - destruct Ha as [He _]. exists P, A. apply places_step; [done..|]. intros o e' v' pi rh pos ->%list_elem_of_singleton. cbn [snd Net.params].
    unfold _reAdd in Hp. case_match eqn:Hc; [|done]. injection Hp as <-. intros [= <- <- <- <- <-].
    apply andb_true_iff in Hc as [_ Hc%bool_decide_eq_true]. apply elem_of_Elmts in He.
    destruct (local_place (st_net st) (elmtcount st) lg got P A self g s e) as [[? _]|(-> & ? & _)]; done.
  - exists P, A. apply places_step; [done..|]. intros o e' v' pi rh pos ->%list_elem_of_singleton. cbn [snd Net.params].
    unfold _Remove in Hp. case_match; [|done]. by injection Hp as <-.
  - exists P, A. apply places_step; [done..|]. intros o e' v' pi rh pos ->%list_elem_of_singleton. cbn [snd Net.params].
    unfold _Update in Hp. case_match; [|done]. by injection Hp as <-.
Qed.

Lemma reachable_inv st : reachable st -> inv st.
Proof.
  revert st. apply rtc_ind_r; [apply init_inv|]. intros st1 st2 _ Hn (lg & got & P & A & Ht & Hpl).
  destruct Hn as [self s r Hc Hs Ha|self s Hc Hs _|self s q m Hs Hq Hm]; destruct (Net.got_at _ _ _ _ _ _ _ _ _ _ _ _ _ Ht Hs) as (g & Hg & _).
  - destruct (prepare s self r) as [p|] eqn:Hp.
    + destruct (request_inv st1 self s r p lg got g P A) as (P' & A' & Hpl'); try done. exists (lg ++ [(self, Net.mkMsg (S (Net.opcount (st_net st1))) p)]), (<[self := g ++ [length lg]]> got), P', A'.
      split; [|done]. cbn [st_net]. eapply Net.request_tracks; try done. by exists (elmtcount st1).
    + exists lg, got, P, A. split; [by apply Net.refused_tracks|done].
  - exists lg, got, P, A. split; [by apply Net.refused_tracks|done].
  - destruct (Net.update_tracks _ _ _ _ _ _ _ _ (st_net st1) lg got self s g q m Ht Hs Hg Hq Hm eq_refl) as [k Hk].
    exists lg, (<[self := g ++ [k]]> got), P, A. split; [done|]. cbn [elmtcount]. rewrite <- (app_nil_r lg).
    apply places_step; [done..|]. by intros o e v pi rh pos ?%elem_of_nil.
Qed.

(** ** The invariants *)

Lemma executed_same lg g1 g2 st got P A ec e : tracks st lg got -> places ec lg got P A -> g1 ≡ₚ g2 -> (1 <= e <= MaxElmts)%nat ->
  at_ (foldl effect fresh ((Net.executed lg g1).*2)) e = at_ (foldl effect fresh ((Net.executed lg g2).*2)) e.
Proof.
  intros Ht Hpl Hp He. pose proof (executed_ok _ _ _ g1 Ht) as H1. pose proof (executed_ok _ _ _ g2 Ht) as H2. rewrite !run_at by done.
  set (d1 := filter _ _). set (d2 := filter _ (_ lg g2).*2).
  assert (d1 ≡ₚ d2) as Hd by (unfold d1, d2; by rewrite (Net.executed_perm lg g1 g2 Hp)).
  assert (Hq : forall g k x pi rh pos, PAdd k x pi rh pos ∈ done_at lg g e -> pos = P e).
  { intros g k x pi rh pos [Hk (m & j & y & _ & Hlg & Hy)%Net.executed_payloads]%list_elem_of_filter. cbn [key] in Hk. subst k.
    by destruct (pc_adds _ _ _ _ _ Hpl _ _ _ _ _ _ _ _ Hlg Hy). }
  assert (Hl : l_set (foldl entry_effect fresh_entry d1) = l_set (foldl entry_effect fresh_entry d2)).
  { rewrite !(entries_place _ (P e)) by (intros k x pi rh pos; apply Hq). assert (existsb is_add d1 = existsb is_add d2) as ->; [|done].
    apply eq_true_iff_eq. rewrite !existsb_exists. setoid_rewrite <- list_elem_of_In. by setoid_rewrite Hd. }
  assert (Hc : core (foldl entry_effect fresh_entry d1) = core (foldl entry_effect fresh_entry d2)).
  { apply (entries_perm d1 d2 e); [by apply filter_wf| | |done].
    - destruct (executed_agrees _ _ _ g1 Ht) as [Ha Hu]. split.
      + intros k x x' pi rh pos pos' [_ Hx]%list_elem_of_filter [_ Hx']%list_elem_of_filter. by eapply Ha.
      + intros k x x' rh t id [_ Hx]%list_elem_of_filter [_ Hx']%list_elem_of_filter. by eapply Hu.
    - by intros m [? _]%list_elem_of_filter. }
  destruct (foldl entry_effect fresh_entry d1), (foldl entry_effect fresh_entry d2). unfold core in Hc. cbn in *. congruence.
Qed.

Lemma sec_holds st : inv st -> SEC st.
Proof.
  intros (lg & got & P & A & Ht & Hpl) p1 p2 s1 s2 q _ Hq1 Hq2 Hs1 Hs2.
  destruct (Net.got_at _ _ _ _ _ _ _ _ _ _ _ _ _ Ht Hs1) as (g1 & Hg1 & ->), (Net.got_at _ _ _ _ _ _ _ _ _ _ _ _ _ Ht Hs2) as (g2 & Hg2 & ->). rewrite !Net.replay_effects.
  assert (foldl effect fresh ((Net.executed lg g1).*2) = foldl effect fresh ((Net.executed lg g2).*2)) as ->; [|done].
  apply (fn_ext MaxElmts); [by apply run_length, (executed_ok _ _ _ _ Ht)..|]. intros e He.
  eapply executed_same; [exact Ht|exact Hpl| |done]. by eapply Net.same_pending.
Qed.

Lemma leids_hold st : inv st -> Leid_TO st.
Proof.
  intros (lg & got & P & A & Ht & Hpl) p s i j Hs Hi%elem_of_Elmts Hj%elem_of_Elmts Hne.
  destruct (Net.got_at _ _ _ _ _ _ _ _ _ _ _ _ _ Ht Hs) as (g & Hg & _).
  destruct (local_place _ _ lg got P A p g s i Ht Hpl Hg Hs Hi) as [[-> _]|(-> & Hi' & _)]; [by left|right].
  destruct (local_place _ _ lg got P A p g s j Ht Hpl Hg Hs Hj) as [[-> _]|(-> & Hj' & _)]; [by left|right].
  by apply (pc_apart _ _ _ _ _ Hpl).
Qed.

Lemma assertion_holds st : inv st -> Asserted st.
Proof.
  intros (lg & got & P & A & Ht & Hpl) s Hs _ Hops. pose proof (lookup_lt_Some _ _ _ Hs) as HN. rewrite (Net.tk_locals _ _ _ _ _ _ _ _ _ _ _ Ht) in HN.
  destruct (Net.got_at _ _ _ _ _ _ _ _ _ _ _ _ _ Ht Hs) as (g & Hg & _).
  destruct (local_placed (st_net st) (elmtcount st) lg got P A 0%nat g s) as [_ Hlen]; [lia|done..|].
  assert (Hall : forall m o, lg !! m = Some o -> m ∈ g).
  { intros m o Hm. apply dec_stable. intros Hni.
    pose proof (proj2 (Net.pending_iff _ _ _ _ _ _ _ _ _ _ _ 0%nat g ∅ m o Ht Hg ltac:(rewrite Hops; by apply lookup_replicate_2) Hm) Hni) as Hin.
    by apply elem_of_empty in Hin. }
  assert (Hat : forall e, (1 <= e <= MaxElmts)%nat -> at_ (l_set <$> s) e <> Dft_leid <-> (e <= elmtcount st)%nat).
  { intros e He. rewrite at_fmap by lia.
    destruct (local_place _ _ lg got P A 0%nat g s e Ht Hpl Hg Hs He) as [[-> Hno]|(-> & Hec & _)].
    - split; [done|]. intros Hec. destruct (pc_home _ _ _ _ _ Hpl e) as (g0 & m & _ & _ & i & x & v & pi & rh & pos & Hlg & Hx); [lia|].
      exfalso. apply (Hno m); [by eapply Hall|]. by exists i, x, v, pi, rh, pos.
    - split; [lia|]. intros _. by eapply place_Dft. }
  pose proof (pc_count _ _ _ _ _ Hpl) as Hle. unfold E_count, RwfLeid.Elmts.
  assert (seq 1 MaxElmts = seq 1 (elmtcount st) ++ seq (1 + elmtcount st) (MaxElmts - elmtcount st)) as -> by (rewrite <- seq_app; f_equal; lia).
  rewrite filter_app, length_app.
  rewrite (filter_all _ (seq 1 _)), length_seq by (intros e He%elem_of_seq; apply Hat; lia).
  rewrite filter_none; [cbn; lia|]. intros e He%elem_of_seq Hn. apply Hat in Hn; lia.
Qed.

(** C13 (invariant): the invariants of the specification of the list, which the
    repository checks for 2 processes and 2 operations, hold for every number of
    processes and operations and every set of values: processes with the same
    messages to come are in the same state, no two elements have the same place,
    and the assertion of process 1 never fails. *)
Theorem rwf_list_spec_invariants st : reachable st -> SEC st /\ Leid_TO st /\ Asserted st.
Proof. intros H%reachable_inv. split_and!; [by apply sec_holds|by apply leids_hold|by apply assertion_holds]. Qed.
End Spec.

#[local] Existing Instances Net.message_eq_dec Net.message_countable.

(** Two processes: the first adds an element, the second adds one after it, and
    both messages arrive. *)
Lemma rwf_list_spec_invariants_witness :
  exists st, reachable 2 2 0 (fun _ => True) st /\ elmtcount st = 2%nat /\ Net.ops (st_net st) = replicate 2 ∅ /\
    SEC st /\ Leid_TO 2 st /\ Asserted 2 2 st.
Proof.
  set (m1 := Net.mkMsg 1 (PAdd 1 10 1 [0; 0] [(1, 0); (0, 0)])).
  set (m2 := Net.mkMsg 2 (PAdd 2 20 2 [0; 0] [(2, 1); (0, 0)])).
  set (f := fresh 2 2). set (s1 := effect f (Net.params m1)). set (s2 := effect s1 (Net.params m2)).
  set (st := mkState (Net.mkState [∅; ∅] 2 [s2; s2]) 2).
  assert (reachable 2 2 0 (fun _ => True) st) as Hr.
  { set (t1 := mkState (Net.mkState [∅; ∅ ∪ {[ m1 ]}] 1 [s1; f]) 1).
    set (t2 := mkState (Net.mkState [∅; (∅ ∪ {[ m1 ]}) ∖ {[ m1 ]}] 1 [s1; s1]) 1).
    set (t3 := mkState (Net.mkState [∅ ∪ {[ m2 ]}; (∅ ∪ {[ m1 ]}) ∖ {[ m1 ]}] 2 [s1; s2]) 2).
    assert (forall m : Net.message payload, (∅ ∪ {[ m ]}) ∖ {[ m ]} = (∅ : gset (Net.message payload))) as He by set_solver.
    assert (st = mkState (Net.mkState [(∅ ∪ {[ m2 ]}) ∖ {[ m2 ]}; (∅ ∪ {[ m1 ]}) ∖ {[ m1 ]}] 2 [s2; s2]) 2) as -> by (by rewrite !He).
    apply (rtc_l _ _ t1); [|apply (rtc_l _ _ t2); [|apply (rtc_l _ _ t3); [|apply rtc_once]]].
    - apply (next_request 2 2 0 (fun _ => True) (Init 2 2) 0 f (RAdd 0 1 10)); [apply Nat.lt_0_2|done|].
      split_and!; [apply Nat.lt_0_2|done|done|by left].
    - apply (next_effect 2 2 0 (fun _ => True) t1 1 f (∅ ∪ {[ m1 ]}) m1); [done|done|set_solver].
    - apply (next_request 2 2 0 (fun _ => True) t2 1 s1 (RAdd 1 2 20)); [apply Nat.lt_1_2|done|].
      split_and!; [apply Nat.lt_1_2|done|done|right; by left].
    - apply (next_effect 2 2 0 (fun _ => True) t3 0 s1 (∅ ∪ {[ m2 ]}) m2); [done|done|set_solver]. }
  exists st. split; [exact Hr|]. split; [reflexivity|]. split; [reflexivity|].
  apply (rwf_list_spec_invariants 2 2 0 (fun _ => True) st Hr).
Defined.
End RwfListTla.
