(* ===== verification/TlaAddwin.v ===== *)
(** * The TLA+ specification of the add-win queue (MET/TLA/addwin_crpq/addwin_rpq.tla)

    The specification for one element, as its configuration has it; and its
    invariant [SEC] for any number of processes, operations and values. *)

From S2P Require Import Prelude TlaNet.

Module AddwinRpq.

(** ** The algorithm

    A tag is the pair of a process and a number.  [a_set] holds at most one
    record for a tag, since [set_update] and [Increase] take out the records
    they replace: it is a finite map from tags, and [_T_Set] its domain. *)
Notation tag := (nat * nat)%type.
Record rcd := mkRcd { v_inn : Z; v_acq : Z; change : Z }.
Notation aset := (gmap tag rcd).
Record local := mkLocal { a_set : aset; r_set : gset tag; num : nat }.
Inductive payload := PAdd (val : Z) (t : tag) | PRem (O : gset tag) | PInc (val : Z) (O : gset tag).

#[global] Instance payload_eq_dec : EqDecision payload.
Proof. solve_decision. Defined.
#[global] Instance payload_countable : Countable payload.
Proof.
  refine (inj_countable'
    (fun p => match p with PAdd v t => inl (v, t) | PRem o => inr (inl o) | PInc v o => inr (inr (v, o)) end)
    (fun x => match x with inl (v, t) => PAdd v t | inr (inl o) => PRem o | inr (inr (v, o)) => PInc v o end) _).
  by intros [].
Defined.

Definition _Observe_T (a : aset) (r : gset tag) : gset tag := dom a ∖ r.
Definition _Lookup (a : aset) (r : gset tag) : bool := bool_decide (_Observe_T a r <> ∅).
Definition _Element (a : aset) (t : tag) : rcd := default (mkRcd 0 0 0) (a !! t).

(** The prepare phases; [None] for the record with the key null. *)
Inductive request := RAdd (v : Z) | RRem | RInc (i : Z).

Definition prepare (s : local) (self : nat) (r : request) : option payload :=
  match r with
  | RAdd x => if _Lookup (a_set s) (r_set s) then None else Some (PAdd x (S self, num s))
  | RInc i => if _Lookup (a_set s) (r_set s) then Some (PInc i (_Observe_T (a_set s) (r_set s))) else None
  | RRem => if _Lookup (a_set s) (r_set s) then Some (PRem (_Observe_T (a_set s) (r_set s))) else None
  end.

(** The effects on the two sets. *)
Definition Remove (r : gset tag) (o : gset tag) : gset tag := r ∪ o.
Definition Add (a : aset) (x : Z) (t : tag) : aset :=
  let e := _Element a t in <[t := mkRcd x (v_acq e) (change e)]> a.
Definition raised (i : Z) (e : rcd) : rcd := mkRcd (v_inn e) (v_acq e + i) (change e + Z.abs i).
Definition Increase (a : aset) (i : Z) (o : gset tag) : aset :=
  foldr (fun t a' => <[t := raised i (_Element a t)]> a') a (elements o).

Definition upd (s : aset * gset tag) (m : payload) : aset * gset tag :=
  match m with
  | PAdd x t => (Add s.1 x t, s.2)
  | PRem o => (s.1, Remove s.2 o)
  | PInc i o => (Increase s.1 i o, s.2)
  end.

(** Where an operation is received, and where it was prepared. *)
Definition effect (s : local) (m : payload) : local :=
  let s' := upd (a_set s, r_set s) m in mkLocal s'.1 s'.2 (num s).
Definition own (s : local) (m : payload) : local :=
  let s' := upd (a_set s, r_set s) m in
  mkLocal s'.1 s'.2 (match m with PAdd _ _ => S (num s) | _ => num s end).

Definition fresh : local := mkLocal ∅ ∅ 0.

#[global] Instance rcd_eq_dec : EqDecision rcd.
Proof. solve_decision. Defined.
#[global] Instance rcd_countable : Countable rcd.
Proof. refine (inj_countable' (fun e => (v_inn e, v_acq e, change e)) (fun x => mkRcd x.1.1 x.1.2 x.2) _). by intros []. Defined.

Lemma lookup_Increase a i o t : Increase a i o !! t = if decide (t ∈ o) then Some (raised i (_Element a t)) else a !! t.
Proof.
  unfold Increase. assert (forall l, foldr (fun t a' => <[t := raised i (_Element a t)]> a') a l !! t =
    if decide (t ∈ l) then Some (raised i (_Element a t)) else a !! t) as Hl.
  { induction l as [|u l IH]; cbn [foldr]; [by rewrite decide_False by (by intros ?%elem_of_nil)|].
    destruct (decide (u = t)) as [->|Hne].
    - by rewrite lookup_insert_eq, decide_True by (by left).
    - rewrite lookup_insert_ne, IH by done. destruct (decide (t ∈ l)); [rewrite decide_True by (by right)|rewrite decide_False by set_solver]; done. }
  rewrite Hl. destruct (decide (t ∈ o)); [rewrite decide_True by (by apply elem_of_elements)|rewrite decide_False by (by rewrite elem_of_elements)]; done.
Qed.

Lemma lookup_Add a x t u :
  Add a x t !! u = if decide (u = t) then Some (mkRcd x (v_acq (_Element a t)) (change (_Element a t))) else a !! u.
Proof. unfold Add. case_decide as Hd; [by rewrite Hd, lookup_insert_eq|by rewrite lookup_insert_ne]. Qed.

(** ** The maps are the sets of records of the specification *)

Definition records (a : aset) : gset (tag * rcd) := map_to_set pair a.

Lemma elem_of_records a t e : (t, e) ∈ records a <-> a !! t = Some e.
Proof. unfold records. rewrite elem_of_map_to_set. split; [by intros (? & ? & ? & [= -> ->])|eauto]. Qed.

(** [set_update] of the record of a tag. *)
Lemma records_Add a x t :
  let e := _Element a t in
  records (Add a x t) = (records a ∖ {[ (t, e) ]}) ∪ {[ (t, mkRcd x (v_acq e) (change e)) ]}.
Proof.
  cbv zeta. apply set_eq. intros [u f]. rewrite elem_of_union, elem_of_difference, !elem_of_singleton, !elem_of_records.
  unfold Add, _Element. destruct (decide (u = t)) as [->|Hne].
  - rewrite lookup_insert_eq. destruct (a !! t) as [e|] eqn:He; cbn [default]; naive_solver.
  - rewrite lookup_insert_ne by done. naive_solver.
Qed.

(** [Increase] takes the records of the tags out and puts the raised ones in. *)
Lemma records_Increase a i o :
  let olds : gset (tag * rcd) := set_map (fun t => (t, _Element a t)) o in
  records (Increase a i o) = (records a ∖ olds) ∪ set_map (fun x => (x.1, raised i x.2)) olds.
Proof.
  cbv zeta. apply set_eq. intros [u f]. rewrite elem_of_union, elem_of_difference, !elem_of_records, lookup_Increase.
  rewrite !elem_of_map. case_decide as Hu.
  - split; [intros [= <-]; right; exists (u, _Element a u); split; [done|]; apply elem_of_map; eauto|].
    intros [[Hl Hn]|([w e] & Hw & (t & [= -> ->] & Ht)%elem_of_map)]; [|by injection Hw as -> ->].
    destruct Hn. exists u. unfold _Element. by rewrite Hl.
  - split; [intros Hl; left; split; [done|]; by intros (t & [= -> _] & Ht)|]. intros [[Hl _]|([w e] & Hw & (t & [= -> ->] & Ht)%elem_of_map)]; [done|].
    by injection Hw as -> _.
Qed.

(** ** The order does not matter *)

(** Adds with one tag agree. *)
Definition agree (l : list payload) : Prop := forall v v' t, PAdd v t ∈ l -> PAdd v' t ∈ l -> v = v'.

Lemma Element_Add a x t u : _Element (Add a x t) u =
  if decide (u = t) then mkRcd x (v_acq (_Element a t)) (change (_Element a t)) else _Element a u.
Proof. unfold _Element at 1. rewrite lookup_Add. by case_decide. Qed.

Lemma Element_Increase a i o t : _Element (Increase a i o) t =
  if decide (t ∈ o) then raised i (_Element a t) else _Element a t.
Proof. unfold _Element at 1. rewrite lookup_Increase. by case_decide. Qed.

Lemma aw_upd_comm a b s : agree [a; b] -> upd (upd s a) b = upd (upd s b) a.
Proof.
  intros Hag. destruct s as [A r], a as [x t|o|i o], b as [y u|o'|j o']; cbn [upd fst snd]; try done;
    f_equal; try (unfold Remove; set_solver); apply map_eq; intros w;
    repeat (rewrite lookup_Add || rewrite lookup_Increase || rewrite Element_Add || rewrite Element_Increase);
    repeat (case_decide; simplify_eq); try done.
  - by rewrite (Hag x y t) by set_solver.
  - unfold raised. cbn. do 2 f_equal; lia.
Qed.

Lemma upds_perm l1 l2 s : agree l1 -> l1 ≡ₚ l2 -> foldl upd s l1 = foldl upd s l2.
Proof.
  intros Hag Hp. apply foldl_comm_perm; [|done]. intros a b p Ha Hb. apply aw_upd_comm.
  intros v v' t Hv Hv'. apply (Hag v v' t); [by apply elem_of_cons in Hv as [->|[->|[]%elem_of_nil]%elem_of_cons]|].
  by apply elem_of_cons in Hv' as [->|[->|[]%elem_of_nil]%elem_of_cons].
Qed.

(** ** Reachable states *)

Section Spec.
Context (N MaxOps : nat) (Values Increments : Z -> Prop).

Definition allowed (r : request) : Prop := match r with RAdd v => Values v | RInc i => Increments i | RRem => True end.

Notation state := (Net.state (P := payload) (L := local)).
Definition reachable : state -> Prop :=
  Net.reachable N MaxOps (fun _ => fresh) prepare own effect (fun _ _ => true) allowed.

Definition SEC (st : state) : Prop :=
  forall p1 p2 s1 s2 q, p1 <> p2 -> Net.ops st !! p1 = Some q -> Net.ops st !! p2 = Some q ->
    Net.locals st !! p1 = Some s1 -> Net.locals st !! p2 = Some s2 -> a_set s1 = a_set s2 /\ r_set s1 = r_set s2.

Notation tracks := (Net.tracks N MaxOps (fun _ => fresh) prepare own effect (fun _ _ => true) allowed).
Notation replay := (Net.replay (fun _ => fresh) own effect).

(** The two sets depend on what was executed, not on where it came from. *)
Definition sets (s : local) : aset * gset tag := (a_set s, r_set s).

Lemma exec_sets i s o : sets (Net.exec own effect i s o) = upd (sets s) o.2.
Proof. unfold Net.exec. case_decide; unfold sets, own, effect; cbn [a_set r_set]; by destruct (upd _ _). Qed.

Lemma replay_sets i lg g : sets (replay i lg g) = foldl upd (∅, ∅) ((Net.executed lg g).*2).
Proof.
  unfold Net.replay. change (∅, ∅) with (sets fresh). generalize (Net.executed lg g), fresh. intros l.
  induction l as [|o l IH]; intros s; [done|]. cbn [foldl fmap list_fmap]. by rewrite IH, exec_sets.
Qed.

(** Numbers only grow. *)
Lemma exec_num i l s : (num s <= num (foldl (Net.exec own effect i) s l))%nat.
Proof.
  revert s. induction l as [|o l IH]; intros s; [done|]. cbn [foldl]. etransitivity; [|apply IH].
  unfold Net.exec. case_decide; unfold own, effect; cbn [num]; [destruct o.2; lia|done].
Qed.

Lemma born_add st lg got m i x v t :
  tracks st lg got -> lg !! m = Some (i, x) -> Net.params x = PAdd v t ->
  exists g1 g2, got !! i = Some (g1 ++ m :: g2) /\ t = (S i, num (replay i lg g1)).
Proof.
  intros Ht Hm Hx. destruct (Net.tk_born _ _ _ _ _ _ _ _ _ _ _ Ht m i x Hm) as (g1 & g2 & r & Hg & _ & _ & Hp).
  exists g1, g2. split; [done|]. rewrite Hx in Hp. unfold prepare in Hp.
  destruct r; destruct (_Lookup _ _); try done. by injection Hp as _ <-.
Qed.

Lemma add_counts lg i g1 g2 m x v t :
  lg !! m = Some (i, x) -> Net.params x = PAdd v t -> (num (replay i lg g1) < num (replay i lg (g1 ++ m :: g2)))%nat.
Proof.
  intros Hm Hx. unfold Net.replay, Net.executed. rewrite omap_app, foldl_app. cbn [omap list_omap]. rewrite Hm. cbn [fmap option_fmap option_map foldl fst snd].
  eapply Nat.lt_le_trans; [|apply exec_num]. unfold Net.exec at 2. cbn [fst snd]. rewrite decide_True, Hx by done. apply Nat.lt_succ_diag_r.
Qed.

(** A process does not use a tag twice. *)
Lemma tag_once st lg got m m' i x x' v v' t :
  tracks st lg got -> lg !! m = Some (i, x) -> lg !! m' = Some (i, x') -> (m < m')%nat ->
  Net.params x = PAdd v t -> Net.params x' = PAdd v' t -> False.
Proof.
  intros Ht Hm Hm' Hlt Hx Hx'. destruct (born_add _ _ _ _ _ _ _ _ Ht Hm Hx) as (h1 & h2 & Hh & ->).
  destruct (born_add _ _ _ _ _ _ _ _ Ht Hm' Hx') as (g1 & g2 & Hg & [= Heq]).
  pose proof (Net.own_before _ _ _ _ _ _ _ _ _ _ _ _ _ _ _ _ _ _ Ht Hm Hm' Hlt Hg) as Hin.
  apply list_elem_of_split in Hin as (k1 & k2 & ->). rewrite Hg in Hh. injection Hh as Hh.
  destruct (Net.tk_bound _ _ _ _ _ _ _ _ _ _ _ Ht _ _ Hg) as [Hnd _]. rewrite <- app_assoc in Hnd, Hh. cbn in Hnd, Hh.
  assert (k1 = h1) as -> by (eapply Net.NoDup_middle_inj; [exact Hnd|done]).
  pose proof (add_counts lg i h1 k2 m x v _ Hm Hx). lia.
Qed.

Lemma addwin_executed_agree st lg got g : tracks st lg got -> agree ((Net.executed lg g).*2).
Proof.
  intros Ht v v' t (m & i & x & _ & Hm & Hx)%Net.executed_payloads (m' & i' & x' & _ & Hm' & Hx')%Net.executed_payloads.
  assert (i' = i) as ->.
  { destruct (born_add _ _ _ _ _ _ _ _ Ht Hm Hx) as (? & ? & _ & ->), (born_add _ _ _ _ _ _ _ _ Ht Hm' Hx') as (? & ? & _ & [= ? _]). done. }
  destruct (Nat.lt_trichotomy m m') as [Hlt|[->|Hlt]].
  - destruct (tag_once _ _ _ m m' i x x' v v' t Ht); done.
  - assert (x' = x) as -> by congruence. congruence.
  - destruct (tag_once _ _ _ m' m i x' x v' v t Ht); done.
Qed.

(** C12 (invariant): the specification's own invariant, which the repository
    checks for 2 processes and 2 operations, holds for every number of
    processes and operations and every set of values and increments, whatever
    the order in which operations are received: processes with the same
    messages to come have the same records and the same removed tags. *)
Theorem addwin_spec_sec st : reachable st -> SEC st.
Proof.
  intros (lg & got & Ht)%Net.reachable_tracks p1 p2 s1 s2 q _ Hq1 Hq2 Hs1 Hs2.
  destruct (Net.got_at _ _ _ _ _ _ _ _ _ _ _ _ _ Ht Hs1) as (g1 & Hg1 & Hr1), (Net.got_at _ _ _ _ _ _ _ _ _ _ _ _ _ Ht Hs2) as (g2 & Hg2 & Hr2).
  assert (sets s1 = sets s2) as [= -> ->]; [|done].
  rewrite Hr1, Hr2, !replay_sets.
  apply upds_perm; [by eapply addwin_executed_agree|]. apply fmap_Permutation, Net.executed_perm. by eapply Net.same_pending.
Qed.
End Spec.

(** Two processes: an add at the first reaches the second. *)
Lemma addwin_spec_sec_witness :
  exists st, reachable 2 2 (fun _ => True) (fun _ => True) st /\ Net.opcount st = 1%nat /\ SEC st.
Proof.
  set (m := Net.mkMsg 1 (PAdd 10 (1%nat, 0%nat))).
  pose proof (Net.next_request 2 prepare own effect (fun _ _ => true) (allowed (fun _ => True) (fun _ => True))
    (Net.Init 2 (fun _ => fresh)) 0 fresh (RAdd 10) ltac:(apply Nat.lt_0_2) eq_refl I) as H1.
  match type of H1 with Net.Next _ _ _ _ _ _ _ ?st =>
    pose proof (Net.next_update 2 prepare own effect (fun _ _ => true) (allowed (fun _ => True) (fun _ => True))
      st 1 fresh (∅ ∪ {[ m ]}) m eq_refl eq_refl ltac:(by apply elem_of_union_r, elem_of_singleton) eq_refl) as H2
  end.
  eassert (reachable 2 2 (fun _ => True) (fun _ => True) _) as Hr by (eapply rtc_l; [exact H1|]; eapply rtc_once; exact H2).
  eexists. split; [exact Hr|]. split; [reflexivity|]. apply (addwin_spec_sec 2 2 (fun _ => True) (fun _ => True) _ Hr).
Defined.
End AddwinRpq.
