(* ===== verification/RzRefine.v ===== *)
(** * The remove-win queue implements its TLA+ specification

    Every run of the system of servers is, for each element, a run of the
    specification of [TlaRmvwin].  A message that waits in the buffer of an
    element is one the specification has not taken up; where a delivery lets a
    server execute several operations, the specification takes as many steps. *)

From S2P Require Import Prelude Sds VectorClock Causal Double Exact ARSet RZset Util Score Skiplist SkiplistSpec.
From S2P Require Import Zset ZsetSpec Store Crdt Container RwfzCmd P2P System QueueSpec RzCmd RzSpec RzSystem TlaNet TlaSim TlaRmvwin.

#[local] Arguments sdsToVC : simpl never.
#[local] Arguments getDoubleFromObject : simpl never.

Module R := RmvwinRpq.

(** ** The refinement mapping *)

Definition abs_cmd (c : rz_cmd) : R.payload :=
  match rz_type c with
  | RZADD => R.PAdd (vid (rz_t c) + 1) (vector (rz_t c)) (to_Z (rz_value c))
  | RZINCBY => R.PInc (vid (rz_t c) + 1) (vector (rz_t c)) (to_Z (rz_value c))
  | RZREM => R.PRem (vid (rz_t c) + 1) (vector (rz_t c))
  end.

Lemma abs_pt c : R.pt (abs_cmd c) = vector (rz_t c).
Proof. unfold abs_cmd. by destruct (rz_type c). Qed.

Lemma abs_ppid c : R.ppid (abs_cmd c) = vid (rz_t c) + 1.
Proof. unfold abs_cmd. by destruct (rz_type c). Qed.

Lemma abs_pts c : R.pts (abs_cmd c) = rz_t c.
Proof. unfold R.pts. rewrite abs_pt, abs_ppid. destruct (rz_t c) as [v i]. cbn. f_equal. lia. Qed.

Lemma abs_kinds c : R.is_add (abs_cmd c) = is_add rz_kind c /\ R.is_rem (abs_cmd c) = is_rem rz_kind c.
Proof. unfold abs_cmd, is_add, is_rem, rz_kind. by destruct (rz_type c). Qed.

Lemma abs_join n l : join R.pts n (abs_cmd <$> l) = join rz_t n l.
Proof.
  unfold join, history. rewrite foldl_fmap. generalize (replicate n 0). induction l as [|c l IH]; intros v; [done|]. cbn [foldl].
  by rewrite abs_pts, IH.
Qed.

Lemma abs_causal n l : causal_seq rz_t n l -> causal_seq R.pts n (abs_cmd <$> l).
Proof.
  induction 1 as [|l c Hl IH Hwf Hn Hd]; [constructor|]. rewrite fmap_app. cbn [fmap list_fmap].
  constructor; rewrite ?abs_pts, ?abs_join; [done..|].
  intros b (b' & -> & Hb)%list_elem_of_fmap. rewrite abs_pts. by apply Hd.
Qed.

(** ** The element and the process that executed the same operations *)

Section Element.
Context (N : nat) (l : list rz_cmd) (Hl : causal_seq rz_t N l).
Notation proc := (foldl R.effect (R.fresh N) (abs_cmd <$> l)).

Lemma proc_describes : R.describes N (abs_cmd <$> l) proc.
Proof using Hl. by apply R.effects_describe, abs_causal. Qed.

Lemma abs_live_add c : R.live_add (abs_cmd <$> l) c <-> exists b, b ∈ live_adds rz_t rz_kind l /\ c = abs_cmd b.
Proof using.
  unfold R.live_add, live_adds, live. split.
  - intros ((b & -> & Hb)%list_elem_of_fmap & Ha & Hk). exists b. split; [|done]. apply list_elem_of_filter. split; [|done].
    split; [by destruct (abs_kinds b) as [<- _]|]. apply Forall_forall. intros o Ho Hko. unfold before. rewrite <- !abs_pts.
    apply Hk; [by apply list_elem_of_fmap_2|]. by destruct (abs_kinds o) as [-> ->].
  - intros (b & [[Ha Hk] Hb]%list_elem_of_filter & ->). split_and!; [by apply list_elem_of_fmap_2|by destruct (abs_kinds b) as [-> _]|].
    intros c (o & -> & Ho)%list_elem_of_fmap Hko. rewrite !abs_pt. rewrite Forall_forall in Hk. apply Hk; [done|].
    by destruct (abs_kinds o) as [<- <-].
Qed.

Lemma abs_live_rem c : R.live_rem (abs_cmd <$> l) c <-> exists b, b ∈ live_rems rz_t rz_kind l /\ c = abs_cmd b.
Proof using.
  unfold R.live_rem, live_rems, live. split.
  - intros ((b & -> & Hb)%list_elem_of_fmap & Ha & Hk). exists b. split; [|done]. apply list_elem_of_filter. split; [|done].
    split; [by destruct (abs_kinds b) as [_ <-]|]. apply Forall_forall. intros o Ho Hko. unfold before. rewrite <- !abs_pts.
    apply Hk; [by apply list_elem_of_fmap_2|]. by destruct (abs_kinds o) as [-> _].
  - intros (b & [[Ha Hk] Hb]%list_elem_of_filter & ->). split_and!; [by apply list_elem_of_fmap_2|by destruct (abs_kinds b) as [_ ->]|].
    intros c (o & -> & Ho)%list_elem_of_fmap Hko. rewrite !abs_pt. rewrite Forall_forall in Hk. apply Hk; [done|].
    by destruct (abs_kinds o) as [<- _].
Qed.

Lemma abs_lookup s : ars_reached rz_t rz_kind l s -> R._Lookup proc = LOOKUP s.
Proof using Hl.
  intros Hs. rewrite (LOOKUP_spec _ _ _ _ Hs). destruct proc_describes as [Ha Hr _]. unfold R._Lookup.
  rewrite <- bool_decide_and. apply bool_decide_ext. apply and_iff_both.
  - rewrite set_eq. split.
    + intros Hne Hnil. apply Hne. intros r. rewrite Ha. setoid_rewrite abs_live_add. rewrite Hnil. set_solver.
    + intros Hne Hemp. destruct (live_adds rz_t rz_kind l) as [|b k] eqn:Hlv; [done|].
      assert (R.record (abs_cmd <$> l) (abs_cmd b) ∈ R.a_set proc) as Hin; [|apply Hemp in Hin; set_solver].
      apply Ha. exists (abs_cmd b). split; [|done]. apply abs_live_add. exists b. rewrite Hlv. split; [by left|done].
  - split.
    + intros Hemp. destruct (live_rems rz_t rz_kind l) as [|b k] eqn:Hlv; [done|].
      assert (R.pt (abs_cmd b) ∈ R.r_set proc) as Hin; [|rewrite Hemp in Hin; set_solver].
      apply Hr. exists (abs_cmd b). split; [|done]. apply abs_live_rem. exists b. rewrite Hlv. split; [by left|done].
    + intros Hnil. apply set_eq. intros t. rewrite Hr. setoid_rewrite abs_live_rem. rewrite Hnil. set_solver.
Qed.

(** The increments that saw an add. *)
Lemma causal_vec_inj k b c :
  causal_seq rz_t N k -> b ∈ k -> c ∈ k -> vector (rz_t b) = vector (rz_t c) -> b = c.
Proof using.
  induction 1 as [|k o Hk IH Hwf Hn Hd]; [by intros ?%elem_of_nil|].
  intros [Hb| ->%list_elem_of_singleton]%elem_of_app [Hc| ->%list_elem_of_singleton]%elem_of_app Heq; auto; exfalso.
  - apply (causal_not_above rz_t N k o b Hk Hwf Hn Hb). by rewrite Heq.
  - apply (causal_not_above rz_t N k o c Hk Hwf Hn Hc). by rewrite Heq.
Qed.

Lemma abs_seen b :
  b ∈ l -> rz_type b = RZADD -> omap (R.inc_seen (abs_cmd b)) (abs_cmd <$> l) = to_Z <$> seen l b.
Proof using Hl.
  intros Hb Ht. unfold seen. assert (forall k, k ⊆ l -> omap (R.inc_seen (abs_cmd b)) (abs_cmd <$> k) = to_Z <$> omap (seen_by b) k) as Hall; [|by apply Hall].
  induction k as [|c k IH]; intros Hsub; [done|]. rewrite fmap_cons, !omap_cons_eq, IH by set_solver.
  pose proof (eq_refl (abs_cmd c)) as Hac. unfold abs_cmd in Hac at 2. pose proof (eq_refl (seen_by b c)) as Hsb. unfold seen_by in Hsb at 2.
  destruct (rz_type c) eqn:Htc; rewrite Hac, Hsb; cbn [R.inc_seen]; [done| |done]. rewrite abs_pt.
  assert (c ∈ l) as Hc by set_solver. pose proof (causal_seq_wf _ _ _ Hl) as Hwf. rewrite Forall_forall in Hwf.
  pose proof (R.VC_Less_vle (vector (rz_t b)) (vector (rz_t c)) (eq_trans (wf_size _ _ (Hwf _ Hb)) (eq_sym (wf_size _ _ (Hwf _ Hc))))) as Hv.
  case_decide as Hbc.
  - destruct Hbc as [Hle _]. by rewrite (proj2 Hv Hle).
  - destruct (R.VC_Less _ _); [|done]. destruct Hbc. split; [by apply Hv|]. intros Heq.
    assert (b = c) by (by apply (causal_vec_inj l)). congruence.
Qed.

(** What the specification's process answers: the record of the largest
    process number. *)
Definition spec_answer (s : R.local) (m : option double) : Prop :=
  if R._Lookup s then exists r, r ∈ R.a_set s /\ (forall r', r' ∈ R.a_set s -> R.rpid r' <= R.rpid r) /\
    same_score m (Some (double_of_Z (R.v_inn r + R.v_acq r)))
  else m = None.

Lemma answer_spec st :
  rz_reached N l st -> ints_below BOUND (omap rz_op_value l) -> spec_answer proc (zmirror None st.2).
Proof using Hl.
  intros Hr Hints. pose proof (rr_sets _ _ _ Hr) as Hs. pose proof (rr_mirror _ _ _ Hr) as Hm. unfold spec_answer. rewrite (abs_lookup _ Hs).
  destruct (LOOKUP (rz_sets st.1)) eqn:HL; [|done]. destruct Hm as (sc & Hsc & Hm).
  destruct (visible_value _ _ Hs HL) as (p & a & Hp & Ha & Hsc'). pose proof (reached_value _ _ _ _ Hs) as Hv. rewrite Hp in Hv.
  destruct Hv as (b & a' & [Hlive Hmax] & Ha' & (Hb & _ & Hpay)). assert (a' = a) as -> by congruence.
  apply rz_payload in Hpay as [Hx Hi]. rewrite Hsc in Hsc'. injection Hsc' as Hsc'. rewrite Hx, Hi in Hsc'.
  assert (rz_type b = RZADD) as Ht.
  { unfold live_adds, live in Hlive. apply list_elem_of_filter in Hlive as [[Hadd _] _]. unfold is_add, rz_kind in Hadd. by destruct (rz_type b). }
  destruct (sum_int_eq BOUND (rz_value b) (seen l b)) as [Heq Hbd]; [|by unfold BOUND|].
  { eapply ints_below_sub; [|exact Hints]. apply rz_values; [done|done|apply seen_incr_values]. }
  destruct proc_describes as [Hda _ _]. exists (R.record (abs_cmd <$> l) (abs_cmd b)). split_and!.
  - apply Hda. exists (abs_cmd b). split; [|done]. apply abs_live_add. by exists b.
  - intros r' (c & (b' & Hb' & ->)%abs_live_add & ->)%Hda. cbn [R.record R.rpid]. rewrite !abs_ppid. specialize (Hmax b' Hb'). lia.
  - assert (R.pval (abs_cmd b) = to_Z (rz_value b)) as Hpv by (unfold abs_cmd; by rewrite Ht).
    cbn [R.record R.v_inn R.v_acq]. rewrite abs_seen, Hpv by done. fold (isum (seen l b)). rewrite <- Heq, <- Hsc'.
    destruct Hm as [Hnan|(d & -> & Hd)]; [|done]. rewrite Hsc', Heq, isnan_Z in Hnan by (unfold BOUND in *; lia). done.
Qed.
End Element.

(** ** Requests *)

Definition abs_quser (u : quser) : option R.request :=
  match u with
  | QAdd a => R.RAdd ∘ to_Z <$> getDoubleFromObject a
  | QIncr a => R.RInc ∘ to_Z <$> getDoubleFromObject a
  | QRem => Some R.RRem
  end.

Lemma abs_quser_refused e u : abs_quser u = None -> rz_user e u = None.
Proof. destruct u as [a|a|]; cbn; [destruct (getDoubleFromObject a)..|]; done. Qed.

(** The process whose clock and visibility are the element's prepares the same
    operation. *)
Lemma abs_rz_prepare (s : R.local) (i : nat) e u r :
  R.local_vc s = vector (rz_clock e) -> R._Lookup s = rz_present e -> vid (rz_clock e) = Z.of_nat i ->
  (i < length (vector (rz_clock e)))%nat -> abs_quser u = Some r ->
  R.prepare s i r = abs_cmd <$> rz_user e u.
Proof.
  intros Hvc Hlk Hid Hi Hu. unfold R.prepare. rewrite Hlk, Hvc.
  assert (R.VC_Inc (vector (rz_clock e)) i = vector (rz_tick (rz_clock e))) as Htick.
  { unfold rz_tick, R.VC_Inc. cbn [vector]. rewrite Hid, Nat2Z.id. destruct (lookup_lt_is_Some_2 _ _ Hi) as [z Hz].
    rewrite (alter_update _ _ _ _ Hz). unfold entry. by rewrite Nat2Z.id, Hz. }
  assert (Z.of_nat (S i) = vid (rz_tick (rz_clock e)) + 1) as Hpid by (cbn [rz_tick vid]; lia).
  rewrite Htick, Hpid. destruct u as [a|a|]; cbn [abs_quser rz_user] in *.
  - destruct (getDoubleFromObject a) as [v|]; [|done]. injection Hu as <-. cbn. by destruct (rz_present e).
  - destruct (getDoubleFromObject a) as [v|]; [|done]. injection Hu as <-. cbn. by destruct (rz_present e).
  - injection Hu as <-. by destruct (rz_present e).
Qed.

(** ** The simulation *)

Section Simulation.
Context {E : Type} `{!Cell rze E}.
Context (K : string) (N TT : nat) (HN : (0 < N <= VC_INT_BUF)%nat) (HTT : 2 * Z.of_nat TT + 2 < INT_MAX).
Context (x : string) (V : Z -> Prop).
Notation sys := (System.sys E).
Notation sys_step := (System.sys_step rz_table (rz_args K)).
Notation sys_run := (System.sys_run rz_table (rz_args K)).
Notation parsed := (System.parsed rz_parse).
Notation ops_got := (System.ops_got rz_parse).
Notation all_ops lg x := (ops_got lg (seq 0 (length lg)) x).
Notation Next := (Net.Next TT R.prepare R.effect R.effect (R.msg_ready N) (R.allowed V V)).
Notation sim := (simulates (parse := rz_parse) N abs_cmd (runs_to (R.fresh N) R.effect abs_cmd) x).

(** [gx] are the messages on the element that the replica executed, among the
    ones it received. *)
Definition executed_ok (lg : list (list string)) (i : nat) (g gx : list nat) : Prop :=
  NoDup gx /\ gx ⊆ g /\ causal_seq rz_t N (ops_got lg gx x) /\
  exists e a ex, rz_elem_at N i ex e a (ops_got lg g x) /\ ops_got lg gx x ≡ₚ ex.

Lemma process_state l s : causal_seq rz_t N l -> s = foldl R.effect (R.fresh N) (abs_cmd <$> l) -> R.local_vc s = join rz_t N l.
Proof. intros Hl ->. destruct (proc_describes N l Hl) as [_ _ ->]. apply abs_join. Qed.

(** The specification takes up what is ready. *)
Lemma sim_take_up T f lg exed t j gx m c :
  sim T f lg exed t -> exed !! j = Some gx -> (j < N)%nat -> valid_history rz_t N (all_ops lg x) ->
  causal_seq rz_t N (ops_got lg gx x) -> Forall (fun k => k < length lg)%nat gx ->
  parsed lg m = Some (x, c) -> m ∉ gx -> ready rz_t (n := N) (ops_got lg gx x) c ->
  exists t', Next t t' /\ sim T f lg (<[j := gx ++ [m]]> exed) t' /\ causal_seq rz_t N (ops_got lg (gx ++ [m]) x).
Proof.
  intros Hsim Hgx Hj Hh Hseq Hb Hm Hmg Hrd. destruct (lookup_lt_is_Some_2 (Net.locals t) j) as [s Hs]; [by rewrite (sm_locals _ _ _ _ _ _ _ _ _ Hsim)|].
  pose proof (sm_local _ _ _ _ _ _ _ _ _ Hsim j gx s Hgx Hs) as Hst.
  assert (c ∈ all_ops lg x) as Hc.
  { apply elem_of_ops_got. exists m. split; [|done]. apply elem_of_seq. pose proof (parsed_lt _ _ _ Hm). lia. }
  pose proof (vh_wf _ _ _ Hh) as Hwf. rewrite Forall_forall in Hwf. specialize (Hwf _ Hc).
  destruct (sim_exec (parse := rz_parse) N TT R.prepare R.effect R.effect (R.msg_ready N) (R.allowed V V) abs_cmd (runs_to (R.fresh N) R.effect abs_cmd) (fun _ _ => True) ltac:(intros; by apply runs_to_step) x T f lg exed t j gx s m c) as (t' & Hn & Hs'); try done.
  { unfold R.msg_ready. rewrite (process_state _ _ Hseq Hst). apply R.next_ready; [apply join_length|by rewrite abs_pts|by rewrite abs_pts]. }
  exists t'. split_and!; [done|done|]. rewrite (ops_got_snoc _ _ _ _ _ _ Hm), decide_True by done.
  apply (causal_extend rz_t _ Hh); [done| |done|done]. intros b Hin. by eapply got_in_all.
Qed.

(** The specification catches up with the operations [ex] a replica executed. *)
Section CatchUp.
Context (T : nat) (f : nat -> nat) (lg : list (list string)) (j : nat) (g : list nat) (ex ops : list rz_cmd).
Context (Hj : (j < N)%nat) (Hh : valid_history rz_t N (all_ops lg x)) (Hb : Forall (fun k => k < length lg)%nat g).
Context (Hex : causal_seq rz_t N ex) (Hp : ex ++ ops ≡ₚ ops_got lg g x).

Definition behind (t : Net.state (P := R.payload) (L := R.local)) (exed : list (list nat)) (gx : list nat) : Prop :=
  sim T f lg exed t /\ exed !! j = Some gx /\ NoDup gx /\ gx ⊆ g /\ causal_seq rz_t N (ops_got lg gx x).

(** The operations before it in [ex] make the next one ready. *)
Lemma next_in_ex pre c post gx :
  ex = pre ++ c :: post -> gx ⊆ g -> causal_seq rz_t N (ops_got lg gx x) -> pre ⊆ ops_got lg gx x -> c ∉ ops_got lg gx x ->
  exists m, parsed lg m = Some (x, c) /\ m ∈ g /\ m ∉ gx /\ ready rz_t (n := N) (ops_got lg gx x) c.
Proof.
  intros Heq Hsub Hseq Hpre Hnin. assert (c ∈ ex) as Hcx by (rewrite Heq; set_solver).
  assert (ex ⊆ all_ops lg x) as Hexh.
  { intros b Hc. eapply got_in_all; [exact Hb|]. rewrite <- Hp. apply elem_of_app. by left. }
  assert (c ∈ ops_got lg g x) as (m & Hmg & Hm)%elem_of_ops_got by (rewrite <- Hp; apply elem_of_app; by left).
  exists m. split_and!; [done|done|intros Hmx; apply Hnin, elem_of_ops_got; eauto|].
  apply (below_executed_ready rz_t _ Hh); [done| |by apply Hexh|done|].
  - intros b Hk. eapply got_in_all; [|exact Hk]. apply Forall_forall. intros k Hkx. rewrite Forall_forall in Hb. by apply Hb, Hsub.
  - intros b Hbh Hlt. apply Hpre. assert (b ∈ ex) as Hbx by (eapply (executed_closed rz_t _ Hh ex c b); [done|done|done|done|apply Hlt]).
    rewrite Heq in Hbx. apply elem_of_app in Hbx as [?|[q Hq]%list_elem_of_lookup]; [done|]. exfalso.
    pose proof (causal_seq_sorted rz_t N ex Hex (length pre + q) (length pre) b c) as Hsort. rewrite Heq in Hsort.
    rewrite !lookup_app_r in Hsort by lia. rewrite Nat.sub_diag in Hsort. replace (length pre + q - length pre)%nat with q in Hsort by lia.
    specialize (Hsort Hq eq_refl Hlt). lia.
Qed.

Lemma catch_up_from post : forall pre t exed gx,
  ex = pre ++ post -> behind t exed gx -> pre ⊆ ops_got lg gx x ->
  exists t' gx', rtc Next t t' /\ behind t' (<[j := gx']> exed) gx' /\ ex ⊆ ops_got lg gx' x /\
    forall c, c ∈ ops_got lg gx' x -> c ∈ ops_got lg gx x \/ c ∈ ex.
Proof.
  induction post as [|c post IH]; intros pre t exed gx Heq (Hsim & Hgx & Hnd & Hsub & Hseq) Hpre.
  { exists t, gx. rewrite list_insert_id by done. rewrite app_nil_r in Heq. subst pre. split_and!; try done. by left. }
  destruct (decide (c ∈ ops_got lg gx x)) as [Hin|Hnin].
  { apply (IH (pre ++ [c])); [by rewrite <- app_assoc|by split_and!|]. intros b [?| ->%list_elem_of_singleton]%elem_of_app; auto. }
  destruct (next_in_ex pre c post gx Heq Hsub Hseq Hpre Hnin) as (m & Hm & Hmg & Hmx & Hrd).
  destruct (sim_take_up T f lg exed t j gx m c) as (t1 & Hn & Hsim1 & Hseq1); try done.
  { apply Forall_forall. intros k Hk. rewrite Forall_forall in Hb. by apply Hb, Hsub. }
  assert (ops_got lg (gx ++ [m]) x = ops_got lg gx x ++ [c]) as Happ by (by rewrite (ops_got_snoc _ _ _ _ _ _ Hm), decide_True).
  destruct (IH (pre ++ [c]) t1 (<[j := gx ++ [m]]> exed) (gx ++ [m])) as (t' & gx' & Hr & Hbeh & Hall & Hback).
  - by rewrite <- app_assoc.
  - split_and!; try done.
    + rewrite list_lookup_insert_eq; [done|]. by eapply lookup_lt_Some.
    + apply NoDup_app. split_and!; [done| |apply NoDup_singleton]. by intros y Hy ->%list_elem_of_singleton.
    + intros k [?| ->%list_elem_of_singleton]%elem_of_app; auto.
  - rewrite Happ. intros b [?|?]%elem_of_app; apply elem_of_app; auto.
  - rewrite list_insert_insert_eq in Hbeh. rewrite Happ in Hback. exists t', gx'. split_and!; [by eapply rtc_l|done|done|].
    intros b Hb'. destruct (Hback b Hb') as [[?| ->%list_elem_of_singleton]%elem_of_app|?]; auto. right. rewrite Heq. set_solver.
Qed.
End CatchUp.

(** After a step, replica [j] has executed what it can. *)
Lemma sim_settle T f lg exed t j g gx e a ex :
  sim T f lg exed t -> exed !! j = Some gx -> (j < N)%nat -> valid_history rz_t N (all_ops lg x) ->
  NoDup gx -> gx ⊆ g -> NoDup g -> Forall (fun k => k < length lg)%nat g -> causal_seq rz_t N (ops_got lg gx x) ->
  rz_elem_at N j ex e a (ops_got lg g x) ->
  exists t' gx', rtc Next t t' /\ sim T f lg (<[j := gx']> exed) t' /\ executed_ok lg j g gx'.
Proof.
  intros Hsim Hgx Hj Hh Hnd Hsub Hndg Hb Hseq Hat. pose proof Hat as (Hex & _ & Hp & _). cbn [snd] in Hp.
  destruct (catch_up_from T f lg j g ex (rz_ops e) Hj Hh Hb Hex Hp ex [] t exed gx eq_refl) as (t' & gx' & Hr & Hbeh & Hall & _);
    [by split_and!|by intros c ?%elem_of_nil|]. destruct Hbeh as (Hs' & _ & Hnd' & Hsub' & Hseq').
  exists t', gx'. split_and!; try done. split_and!; try done. exists e, a, ex. split; [done|].
  assert (NoDup (all_ops lg x)) as Hna by apply (vh_nodup _ _ _ Hh).
  apply NoDup_Permutation.
  - apply ops_got_nodup; [done| |done]. apply Forall_forall. intros k Hk. rewrite Forall_forall in Hb. by apply Hb, Hsub'.
  - pose proof (ops_got_nodup lg g x Hndg Hb Hna) as Hnd2. rewrite <- Hp in Hnd2. by apply NoDup_app in Hnd2 as [? _].
  - intros c. split; [|apply Hall]. revert c.
    eapply (settled_max rz_t st_current rz_exec (reached := rz_tracked N (Z.of_nat j)) _ Hh); [exact Hseq'| |exact Hat|].
    + intros c (k & Hk & Hkc)%elem_of_ops_got. apply elem_of_ops_got. exists k. split; [by apply Hsub'|done].
    + intros c Hc. by eapply got_in_all.
Qed.

Record rz_sim (acts : list (action quser)) (f : nat -> nat) (st : sys) (exed : list (list nat))
    (t : Net.state (P := R.payload) (L := R.local)) : Prop := {
  rs_sim : sim (length acts) f (log st) exed t;
  rs_len : length exed = N;
  rs_exed : forall i g gx, got st !! i = Some g -> exed !! i = Some gx -> executed_ok (log st) i g gx
}.

(** The replica where something happened settles, the others are as before. *)
Lemma rz_sim_settle T acts f st exed t j g gx :
  rz_sys_ok K N TT acts st -> length exed = N -> sim T f (log st) exed t -> (T <= length acts)%nat ->
  got st !! j = Some g -> exed !! j = Some gx -> NoDup gx -> gx ⊆ g -> causal_seq rz_t N (ops_got (log st) gx x) ->
  (forall i gi gxi, i <> j -> got st !! i = Some gi -> exed !! i = Some gxi -> executed_ok (log st) i gi gxi) ->
  exists t' exed', rtc Next t t' /\ rz_sim acts f st exed' t'.
Proof.
  intros Hok Hlen Hsim Hle Hg Hgx Hnd Hsub Hseq Hoth.
  assert (j < N)%nat as Hj by (rewrite <- (zs_got _ _ _ _ _ Hok); by eapply lookup_lt_Some).
  destruct (lookup_lt_is_Some_2 (servers st) j) as [s Hs]; [by rewrite (zs_servers _ _ _ _ _ Hok)|].
  pose proof (zs_replicas _ _ _ _ _ Hok j s g Hs Hg) as Hr. destruct (zr_state _ _ _ _ _ _ _ _ Hr) as (els & es & _ & _ & Hel).
  destruct (Hel x) as (e & a & ex & _ & Hat & _).
  destruct (sim_settle T f (log st) exed t j g gx e a ex) as (t' & gx' & Hrt & Hs' & Hex); try done.
  { apply (zs_hist _ _ _ _ _ Hok). }
  { apply Hr. }
  { apply Hr. }
  exists t', (<[j := gx']> exed). split; [done|]. split; [by eapply sim_mono|by rewrite length_insert|].
  intros i gi gxi Hgi Hgxi. destruct (lookup_update _ _ _ _ _ Hgxi) as [[<- ->]|[Hne Hgxi']]; [|by eapply Hoth].
  by assert (gi = g) as -> by congruence.
Qed.

(** More messages in the log do not concern what was executed. *)
Lemma executed_log lg l i g gx : Forall (fun k => k < length lg)%nat g -> executed_ok lg i g gx -> executed_ok (lg ++ [l]) i g gx.
Proof.
  intros Hb (Hnd & Hsub & Hseq & e & a & ex & Hat & Hp).
  assert (Forall (fun k => k < length lg)%nat gx) as Hbx by (apply Forall_forall; intros k Hk; rewrite Forall_forall in Hb; by apply Hb, Hsub).
  split_and!; [done|done|by rewrite ops_got_app|]. exists e, a, ex. by rewrite !ops_got_app.
Qed.

Lemma rz_bounds acts st i g : rz_sys_ok K N TT acts st -> got st !! i = Some g -> Forall (fun k => k < length (log st))%nat g.
Proof.
  intros Hok Hg. destruct (lookup_lt_is_Some_2 (servers st) i) as [s Hs].
  { rewrite (zs_servers _ _ _ _ _ Hok), <- (zs_got _ _ _ _ _ Hok). by eapply lookup_lt_Some. }
  apply (zs_replicas _ _ _ _ _ Hok i s g Hs Hg).
Qed.

(** The process in the state of the element. *)
Lemma rz_sim_local acts f st exed t i g s sl gx e a ex :
  rz_sys_ok K N TT acts st -> rz_sim acts f st exed t -> (i < N)%nat -> got st !! i = Some g -> exed !! i = Some gx -> Net.locals t !! i = Some sl ->
  rz_replica K N TT (length acts) (log st) i s g -> rz_elem_at N i ex e a (ops_got (log st) g x) ->
  (let s' := foldl R.effect (R.fresh N) (abs_cmd <$> ex) in R.a_set sl = R.a_set s' /\ R.r_set sl = R.r_set s') /\
  ops_got (log st) gx x ≡ₚ ex /\ R.local_vc sl = vector (rz_clock e) /\ R._Lookup sl = rz_present e.
Proof.
  intros Hok [Hsim Hlen Hexd] Hi Hg Hgx Hsl Hr Hat. destruct (Hexd i g gx Hg Hgx) as (Hnd & Hsub & Hseq & e' & a' & ex' & Hat' & Hp).
  pose proof (sm_local _ _ _ _ _ _ _ _ _ Hsim i gx sl Hgx Hsl) as Hst. pose proof (zs_hist _ _ _ _ _ Hok x) as Hh.
  pose proof (zr_in _ _ _ _ _ _ _ _ Hr) as Hin. pose proof (zr_nodup _ _ _ _ _ _ _ _ Hr) as Hndg.
  assert (ex' ≡ₚ ex) as Hpe.
  { eapply (settled_unique rz_t st_current rz_exec (reached := rz_tracked N (Z.of_nat i)) _ Hh); [exact Hat'|exact Hat|done| |].
    - apply ops_got_nodup; [done|done|apply (vh_nodup _ _ _ Hh)].
    - intros c Hc. by eapply got_in_all. }
  rewrite Hpe in Hp. destruct Hat as (Hex & [Hre _ _ _] & _). cbn [fst snd] in Hre.
  destruct (R.rm_effects_perm N (abs_cmd <$> ops_got (log st) gx x) (abs_cmd <$> ex)) as [Ha Hrs]; [by apply abs_causal..|by rewrite Hp|].
  rewrite <- Hst in Ha, Hrs. split_and!; [done|done| |].
  - rewrite (process_state _ _ Hseq Hst). pose proof (rr_vec _ _ _ Hre) as Hv. cbn [fst] in Hv. unfold rz_clock. rewrite Hv.
    apply join_perm; [by eapply causal_seq_wf|done].
  - pose proof (abs_lookup N ex Hex _ (rr_sets _ _ _ Hre)) as Hlk. unfold R._Lookup in *. rewrite Ha, Hrs. exact Hlk.
Qed.

Lemma abs_quser_allowed i y u r :
  (forall v, quser_value (Client i y u) = Some v -> V (to_Z v)) -> abs_quser u = Some r -> R.allowed V V r.
Proof.
  intros HV Hu. destruct u as [a|a|]; cbn [abs_quser quser_value] in *; [destruct (getDoubleFromObject a) as [v|]; [|done]..|by injection Hu as <-];
    injection Hu as <-; by apply HV.
Qed.

Lemma rz_sim_prepare acts f st exed t i g s sl gx e a ex u r :
  rz_sys_ok K N TT acts st -> rz_sim acts f st exed t -> (i < N)%nat -> got st !! i = Some g -> exed !! i = Some gx -> Net.locals t !! i = Some sl ->
  rz_replica K N TT (length acts) (log st) i s g -> rz_elem_at N i ex e a (ops_got (log st) g x) -> abs_quser u = Some r ->
  R.prepare sl i r = abs_cmd <$> rz_user e u.
Proof.
  intros Hok Hrs Hi Hg Hgx Hsl Hr Hat Hau.
  destruct (rz_sim_local acts f st exed t i g s sl gx e a ex) as (_ & _ & Hvc & Hlk); try done.
  destruct (rz_clock_ok K N TT HN (length acts) (log st) i g x ex e a (zs_log _ _ _ _ _ Hok) Hi (zr_in _ _ _ _ _ _ _ _ Hr) Hat) as (_ & Hid & Hwfc & _).
  apply abs_rz_prepare; try done. rewrite (wf_size _ _ Hwfc). lia.
Qed.

(** ** Steps and runs *)

Lemma rz_sim_stay acts a f st st' exed t :
  rz_sim acts f st exed t -> log st' = log st -> got st' = got st -> rz_sim (acts ++ [a]) f st' exed t.
Proof.
  intros [Hsim Hlen Hexd] Hl Hg. split; rewrite ?Hl, ?Hg; try done. eapply sim_mono; [|exact Hsim]. rewrite length_app. lia.
Qed.

Lemma rz_sim_get acts f st exed t i g :
  rz_sys_ok K N TT acts st -> rz_sim acts f st exed t -> got st !! i = Some g ->
  exists gx sl, exed !! i = Some gx /\ Net.locals t !! i = Some sl /\ executed_ok (log st) i g gx /\ (i < N)%nat.
Proof.
  intros Hok [Hsim Hlen Hexd] Hg. assert (i < N)%nat as Hi by (rewrite <- (zs_got _ _ _ _ _ Hok); by eapply lookup_lt_Some).
  destruct (lookup_lt_is_Some_2 exed i) as [gx Hgx]; [by rewrite Hlen|].
  destruct (lookup_lt_is_Some_2 (Net.locals t) i) as [sl Hsl]; [by rewrite (sm_locals _ _ _ _ _ _ _ _ _ Hsim)|].
  exists gx, sl. split_and!; try done. by apply Hexd.
Qed.

(** An accepted operation, on the element or another one. *)
Lemma rz_sim_accept acts f st exed t i y u s' g gx sl l c ex e a :
  rz_sys_ok K N TT acts st -> rz_sim acts f st exed t -> (length acts < TT)%nat -> got st !! i = Some g -> exed !! i = Some gx ->
  Net.locals t !! i = Some sl -> executed_ok (log st) i g gx -> rz_elem_at N i ex e a (ops_got (log st) g y) ->
  rz_replica K N TT (length acts) (log st) i (s' : server E) g ->
  rz_parse l = Some (y, c) -> rz_user e u = Some c -> ready rz_t (n := N) ex c -> (i < N)%nat ->
  (forall v, quser_value (Client i y u) = Some v -> V (to_Z v)) ->
  (forall z, valid_history rz_t N (all_ops (log st ++ [l]) z)) ->
  exists t1 f1 gx1, rtc Next t t1 /\ sim (S (length acts)) f1 (log st ++ [l]) (<[i := gx1]> exed) t1 /\
    NoDup gx1 /\ gx1 ⊆ g ++ [length (log st)] /\ causal_seq rz_t N (ops_got (log st ++ [l]) gx1 x).
Proof.
  intros Hok Hrs HT Hg Hgx Hsl Hexd Hat Hr Hp Hu Hrd Hi HV Hh. pose proof Hexd as (Hnd & Hsub & Hseq & _).
  assert (Hbg : forall j gj, exed !! j = Some gj -> Forall (fun k => k < length (log st))%nat gj).
  { intros j gj Hj. assert (j < N)%nat as Hjn by (rewrite <- (rs_len _ _ _ _ _ Hrs); by eapply lookup_lt_Some).
    destruct (lookup_lt_is_Some_2 (got st) j) as [g' Hg']; [by rewrite (zs_got _ _ _ _ _ Hok)|].
    destruct (rs_exed _ _ _ _ _ Hrs j g' gj Hg' Hj) as (_ & Hs & _). pose proof (rz_bounds _ _ _ _ Hok Hg') as Hb.
    apply Forall_forall. intros k Hk. rewrite Forall_forall in Hb. by apply Hb, Hs. }
  destruct (decide (y = x)) as [->|Hne].
  2:{ exists t, f, gx. rewrite list_insert_id by done. split_and!; try done; [| |by rewrite ops_got_app by (by eapply Hbg)].
      - eapply sim_mono; [apply Nat.le_succ_diag_r|]. eapply sim_other_sent; try done. apply Hrs.
      - intros k Hk. apply elem_of_app. left. by apply Hsub. }
  destruct (rz_sim_local acts f st exed t i g s' sl gx e a ex) as (_ & Hpe & _); try done.
  destruct (abs_quser u) as [r|] eqn:Hau; [|by rewrite (abs_quser_refused e u Hau) in Hu].
  pose proof (rz_sim_prepare acts f st exed t i g s' sl gx e a ex u r Hok Hrs Hi Hg Hgx Hsl Hr Hat Hau) as Hprep. rewrite Hu in Hprep. cbn in Hprep.
  destruct (sim_accepted N TT R.prepare R.effect R.effect (R.msg_ready N) (R.allowed V V) abs_cmd (runs_to (R.fresh N) R.effect abs_cmd) ltac:(intros; by apply runs_to_step) x _ _ _ _ _ i gx l c (rs_sim _ _ _ _ _ Hrs) Hgx Hp Hbg sl r HT Hsl
    ltac:(by eapply abs_quser_allowed) Hprep) as (t1 & f1 & Hn & Hs1).
  exists t1, f1, (gx ++ [length (log st)]). split_and!; [by apply rtc_once|done| | |].
  - apply NoDup_app. split_and!; [done| |apply NoDup_singleton]. intros k Hk ->%list_elem_of_singleton. specialize (Hbg i gx Hgx).
    rewrite Forall_forall in Hbg. specialize (Hbg _ Hk). cbn in Hbg. lia.
  - intros k [Hk|Hk]%elem_of_app; apply elem_of_app; [left; by apply Hsub|by right].
  - assert (parsed (log st ++ [l]) (length (log st)) = Some (x, c)) as Hpn by (by rewrite parsed_new).
    rewrite (ops_got_snoc _ _ _ _ _ _ Hpn), decide_True, ops_got_app by (done || by eapply Hbg).
    apply (causal_extend rz_t _ (Hh x)); [done| | |].
    + intros b Hb. rewrite (ops_got_all _ _ _ _ _ Hp). apply elem_of_app. left. eapply got_in_all; [by eapply Hbg|done].
    + rewrite (ops_got_all _ _ _ _ _ Hp), decide_True by done. apply elem_of_app. right. by apply list_elem_of_singleton.
    + unfold ready in *. by rewrite (join_perm rz_t N _ ex (causal_seq_wf _ _ _ Hseq) Hpe).
Qed.

Lemma rz_sim_client acts f st st' exed t i y u :
  rz_sys_ok K N TT acts st -> (length acts < TT)%nat -> ints_below BOUND (omap quser_value (acts ++ [Client i y u])) ->
  (forall v, quser_value (Client i y u) = Some v -> V (to_Z v)) -> rz_sim acts f st exed t ->
  sys_step st (Client i y u) = Ok st' -> rz_sys_ok K N TT (acts ++ [Client i y u]) st' ->
  exists t' f' exed', rtc Next t t' /\ rz_sim (acts ++ [Client i y u]) f' st' exed' t'.
Proof.
  intros Hok HT Hints HV Hrs Hstep Hok'. cbn [System.sys_step] in Hstep.
  destruct (servers st !! i) as [s|] eqn:Hs; [|injection Hstep as <-; exists t, f, exed; split; [done|by eapply rz_sim_stay]].
  destruct (rz_client_issue K N TT HN HTT acts st i y u s Hok HT Hints Hs)
    as (g & els & es & e & a & ex & s' & m & Hg & Hi & Hr & Hat & Hiss & Hcase). rewrite Hiss in Hstep. cbn [mbind res_bind] in Hstep.
  destruct (rz_sim_get acts f st exed t i g Hok Hrs Hg) as (gx & sl & Hgx & Hsl & Hexd & _).
  destruct (rz_user e u) as [c|] eqn:Hu.
  - destruct Hcase as (str & -> & Hp & _ & _ & Hrd & Hh & _). injection Hstep as <-. rewrite (alter_update _ _ _ _ Hg) in Hok' |- *. set (l := rz_args K y u ++ [str]) in *.
    destruct (rz_sim_accept acts f st exed t i y u s g gx sl l c ex e a) as (t1 & f1 & gx1 & Hr1 & Hs1 & Hnd1 & Hsub1 & Hseq1); try done.
    destruct (rz_sim_settle (S (length acts)) (acts ++ [Client i y u]) f1 _ (<[i := gx1]> exed) t1 i (g ++ [length (log st)]) gx1 Hok') as (t2 & ex2 & Hr2 & Hs2);
      cbn [log got]; try done.
    + rewrite length_insert. apply Hrs.
    + rewrite length_app. cbn. lia.
    + apply list_lookup_insert_eq. by eapply lookup_lt_Some.
    + apply list_lookup_insert_eq. by eapply lookup_lt_Some.
    + intros j gj gxj Hne Hgj Hgxj. rewrite list_lookup_insert_ne in Hgj, Hgxj by congruence. apply executed_log; [by eapply rz_bounds|].
      by apply (rs_exed _ _ _ _ _ Hrs).
    + exists t2, f1, ex2. split; [by etrans|done].
  - destruct Hcase as (-> & _). injection Hstep as <-.
    destruct (decide (y = x)) as [->|Hne]; [|exists t, f, exed; split; [done|by eapply rz_sim_stay]].
    destruct (abs_quser u) as [r|] eqn:Hau; [|exists t, f, exed; split; [done|by eapply rz_sim_stay]].
    pose proof (rz_sim_prepare acts f st exed t i g s sl gx e a ex u r Hok Hrs Hi Hg Hgx Hsl Hr Hat Hau) as Hprep. rewrite Hu in Hprep.
    destruct (sim_refused N TT R.prepare R.effect R.effect (R.msg_ready N) (R.allowed V V) abs_cmd _ x _ _ _ _ _ i sl r (rs_sim _ _ _ _ _ Hrs) HT Hsl
      ltac:(by eapply abs_quser_allowed) Hprep) as (t1 & Hn & Hs1).
    exists t1, f, exed. split; [by apply rtc_once|]. split; [by rewrite length_app, Nat.add_1_r|apply Hrs|apply Hrs].
Qed.

Lemma rz_sim_deliver acts f st st' exed t j m :
  rz_sys_ok K N TT acts st -> rz_sim acts f st exed t ->
  sys_step st (Deliver j m) = Ok st' -> rz_sys_ok K N TT (acts ++ [Deliver j m]) st' ->
  exists t' f' exed', rtc Next t t' /\ rz_sim (acts ++ [Deliver j m]) f' st' exed' t'.
Proof.
  intros Hok Hrs Hstep Hok'. cbn [System.sys_step] in Hstep.
  assert (Hstay : exists t' f' exed', rtc Next t t' /\ rz_sim (acts ++ [Deliver j m]) f' st exed' t').
  { exists t, f, exed. split; [done|by eapply rz_sim_stay]. }
  destruct (servers st !! j) as [s|] eqn:Hs; [|by injection Hstep as <-].
  destruct (log st !! m) as [l|] eqn:Hl; [|by injection Hstep as <-].
  destruct (got st !! j) as [g|] eqn:Hg; [|by injection Hstep as <-].
  case_decide as Hmg; [by injection Hstep as <-|]. clear Hstay. destruct (receive rz_table s l) as [s'|]; [|done]. cbn [mbind res_bind] in Hstep. injection Hstep as <-.
  destruct (rz_sim_get acts f st exed t j g Hok Hrs Hg) as (gx & sl & Hgx & Hsl & (Hnd & Hsub & Hseq & _) & _).
  destruct (rz_sim_settle (length acts) (acts ++ [Deliver j m]) f _ exed t j (g ++ [m]) gx Hok') as (t2 & ex2 & Hr2 & Hs2); cbn [log got]; try done.
  - apply Hrs.
  - apply Hrs.
  - rewrite length_app. lia.
  - apply list_lookup_insert_eq. by eapply lookup_lt_Some.
  - intros k Hk. apply elem_of_app. left. by apply Hsub.
  - intros i gi gxi Hne Hgi Hgxi. rewrite list_lookup_insert_ne in Hgi by congruence. by apply (rs_exed _ _ _ _ _ Hrs).
  - by exists t2, f, ex2.
Qed.

Lemma rz_sim_run acts' : forall acts st st' f exed t,
  rz_sys_ok K N TT acts st -> (length (acts ++ acts') <= TT)%nat -> ints_below BOUND (omap quser_value (acts ++ acts')) ->
  (forall v, v ∈ omap quser_value acts' -> V (to_Z v)) -> rz_sim acts f st exed t -> sys_run st acts' = Ok st' ->
  exists t' f' exed', rtc Next t t' /\ rz_sim (acts ++ acts') f' st' exed' t'.
Proof.
  induction acts' as [|a acts' IH]; intros acts st st' f exed t Hok Hlen Hints HV Hrs Hrun.
  { injection Hrun as <-. exists t, f, exed. by rewrite app_nil_r. }
  unfold System.sys_run in Hrun. cbn [foldM] in Hrun. destruct (sys_step st a) as [st1|] eqn:Hstep; [|done]. cbn [mbind res_bind] in Hrun.
  replace (a :: acts') with ([a] ++ acts') in Hlen, Hints |- * by done. rewrite app_assoc in Hlen, Hints |- *.
  assert (length acts < TT)%nat as HT by (rewrite !length_app in Hlen; cbn in Hlen; lia).
  assert (ints_below BOUND (omap quser_value (acts ++ [a]))) as Hi1.
  { eapply ints_below_sub; [|exact Hints]. rewrite (omap_app _ (acts ++ [a])). by apply submseteq_inserts_r. }
  destruct (rz_step_ok K N TT HN HTT acts a st Hok HT Hi1) as (st2 & Hst2 & Hok1). assert (st2 = st1) as -> by congruence.
  rewrite omap_cons_eq in HV.
  assert (exists t1 f1 exed1, rtc Next t t1 /\ rz_sim (acts ++ [a]) f1 st1 exed1 t1) as (t1 & f1 & exed1 & Hr1 & Hs1).
  { destruct a as [i y u|j m]; [eapply rz_sim_client|eapply rz_sim_deliver]; try done. intros v Hv. apply HV. rewrite Hv. by left. }
  destruct (IH (acts ++ [a]) st1 st' f1 exed1 t1) as (t' & f' & exed' & Hr2 & Hs2); try done.
  { intros v Hv. apply HV. destruct (quser_value a); [by right|done]. }
  exists t', f', exed'. split; [by etrans|done].
Qed.

Lemma rz_sim_init cfg rss : length rss = N -> rz_sim [] id (sys_init (E := E) cfg rss) (replicate N []) (Net.Init N (fun _ => R.fresh N)).
Proof.
  intros Hn. unfold sys_init. split; cbn [log got length].
  - by apply sim_init.
  - apply length_replicate.
  - intros i g gx (-> & Hi)%lookup_replicate (-> & _)%lookup_replicate. rewrite Hn in Hi. split_and!; [constructor|done|constructor|].
    destruct (rzeNew_reached N (Z.of_nat i) ltac:(lia)) as (e & He & _). exists e, [], []. split; [by apply rz_elem_fresh|done].
Qed.

(** What a server answers, and when it has everything. *)
Lemma rz_sim_answer acts f st exed t i s g :
  rz_sys_ok K N TT acts st -> rz_sim acts f st exed t -> (length acts <= TT)%nat -> ints_below BOUND (omap quser_value acts) ->
  servers st !! i = Some s -> got st !! i = Some g ->
  exists l q m, Net.locals t !! i = Some l /\ Net.ops t !! i = Some q /\
    ask rzscoreCommand "rzscore" K s x = Ok [score_reply m] /\ spec_answer l m /\
    (q = ∅ <-> forall k c, parsed (log st) k = Some (x, c) -> k ∈ g).
Proof.
  intros Hok Hrs HT Hints Hs Hg.
  destruct (rz_at K N TT HN acts st i s x Hok HT Hs) as (g' & els & es & e & a & ex & Hg' & Hi & Hr & _ & Hv & _ & _ & _ & Hat & Hz & _).
  assert (g' = g) as -> by congruence. destruct (rz_sim_get acts f st exed t i g Hok Hrs Hg) as (gx & sl & Hgx & Hsl & Hexd & _).
  destruct (lookup_lt_is_Some_2 (Net.ops t) i) as [q Hq]; [by rewrite (sm_ops _ _ _ _ _ _ _ _ _ (rs_sim _ _ _ _ _ Hrs))|].
  destruct (rz_sim_local acts f st exed t i g s sl gx e a ex) as ([Ha Hrr] & Hpe & _ & _); try done.
  pose proof Hat as (Hex & [Hre _ _ _] & Hp & _). cbn [fst snd] in Hre, Hp.
  exists sl, q, (zscore x es). split_and!; [done|done|by eapply ask_view| |].
  - pose proof (answer_spec N ex Hex (rz_body e, a) Hre) as Hans. cbn [snd] in Hans. rewrite Hz. unfold spec_answer in *. unfold R._Lookup in *. rewrite Ha, Hrr.
    apply Hans. eapply ints_below_sub; [|eapply rz_got_ints; [apply (zs_values _ _ _ _ _ Hok)|done|apply Hr|apply (zr_in _ _ _ _ _ _ _ _ Hr)]].
    rewrite <- Hp, omap_app. by apply submseteq_inserts_r.
  - rewrite (sim_drained _ _ _ _ _ _ _ _ _ _ _ _ (rs_sim _ _ _ _ _ Hrs) Hgx Hq). destruct Hexd as (_ & Hsub & _). split.
    + intros Hall k c Hk. apply Hsub. by eapply Hall.
    + intros Hall k c Hk. pose proof (zs_hist _ _ _ _ _ Hok x) as Hh. pose proof (vh_nodup _ _ _ Hh) as Hnd.
      assert (ops_got (log st) g x ≡ₚ all_ops (log st) x) as Hpa.
      { apply NoDup_Permutation; [apply ops_got_nodup; [apply Hr|apply (zr_in _ _ _ _ _ _ _ _ Hr)|done]|done|]. intros b. rewrite !elem_of_ops_got. split.
        - intros (m & _ & Hm). exists m. split; [|done]. apply elem_of_seq. pose proof (parsed_lt _ _ _ Hm). lia.
        - intros (m & _ & Hm). exists m. split; [by eapply Hall|done]. }
      pose proof (settled_complete rz_t st_current rz_exec (reached := rz_tracked N (Z.of_nat i)) _ Hh _ _ (ex_intro _ ex Hat) Hpa) as Hnil. cbn [snd] in Hnil.
      rewrite Hnil, app_nil_r in Hp. assert (c ∈ ops_got (log st) gx x) as (k' & Hk' & Hkc)%elem_of_ops_got.
      { rewrite Hpe, Hp, Hpa. apply elem_of_ops_got. exists k. split; [|done]. apply elem_of_seq. pose proof (parsed_lt _ _ _ Hk). lia. }
      by rewrite (parsed_inj (value := rz_op_value) _ _ _ _ _ Hnd Hk Hkc).
Qed.
End Simulation.

(** The values clients sent. *)
Definition rz_sent (acts : list (action quser)) (z : Z) : Prop := exists v, v ∈ omap quser_value acts /\ to_Z v = z.

Section Refinement.
Context {E : Type} `{!Cell rze E}.

End Refinement.

