(* ===== verification/OzSpec.v ===== *)
(** * Add-win queue: the commands refine the functions on elements *)

From S2P Require Import Prelude Sds LamportClock Double Exact OZset Util Score Skiplist SkiplistSpec.
From S2P Require Import Zset ZsetSpec Store Crdt Container RwfzCmd QueueSpec OzCmd.
From Stdlib Require Import Ascii.

#[local] Arguments sdsToLc : simpl never.
#[local] Arguments getDoubleFromObject : simpl never.

Section Spec.
Context {E : Type} `{!Cell oze E}.
Implicit Types (w : world E) (s : server E).
Notation suffix := ORI_RPQ_TABLE_SUFFIX.
Notation cview := (cview suffix).
Notation points := (points suffix).
Notation step_to := (step_to suffix).

Lemma oz_suffix_ne : suffix <> "".
Proof. done. Qed.

Definition oz_new s : res oze := Ok ozeNew.

Lemma oz_new_conf s s' : same_conf s s' -> oz_new s' = oz_new s.
Proof. done. Qed.

(** ** Messages *)

Definition oz_effect_cmd (o : oz_op) : M E unit :=
  match o with OzAdd _ _ => ozadd_run | OzIncr _ _ => ozincrby_run | OzRem _ => ozrem_run end.

(** Tags as they are sent. *)
Definition reads_tags (strs : list string) (ts : list lc) : Prop := Forall2 (fun str t => sdsToLc str = Ok t) strs ts.

(** The operation a list of broadcast arguments stands for. *)
Definition oz_msg (l : list string) (K ele : string) (o : oz_op) : Prop :=
  l !! 1%nat = Some K /\ l !! 2%nat = Some ele /\
  match o with
  | OzAdd t v => (exists a, l !! 3%nat = Some a /\ getDoubleFromObject a = Some v) /\
                 exists str, l !! 4%nat = Some str /\ sdsToLc str = Ok t
  | OzIncr ts v => (exists a, l !! 3%nat = Some a /\ getDoubleFromObject a = Some v) /\ reads_tags (drop 4 l) ts
  | OzRem ts => reads_tags (drop 3 l) ts
  end.

Lemma read_tags strs ts acc :
  reads_tags strs ts -> foldM (fun (ts : list lc) (str : string) => t ← sdsToLc str; Ok (ts ++ [t])) acc strs = Ok (acc ++ ts).
Proof.
  intros H. revert acc. induction H as [|str t strs ts Hs Hf IH]; intros acc; [by rewrite app_nil_r|].
  cbn [foldM]. rewrite Hs. cbn [mbind res_bind]. by rewrite IH, <- app_assoc.
Qed.

Lemma wp_oz_tags i w l n ts (Q : option (list lc) -> world E -> Prop) :
  rargv (cli w) = Some (l, n) -> reads_tags (drop i l) ts -> Q (Some ts) w -> wp (oz_tags_from i) w Q.
Proof.
  intros Hr Ht HQ. unfold oz_tags_from. apply wp_bind. eapply wp_rargs; [done|].
  eapply wp_lift; [exact (read_tags _ _ [] Ht)|done].
Qed.

Lemma wp_oz_value w l n a v (Q : option double -> world E -> Prop) :
  rargv (cli w) = Some (l, n) -> l !! 3%nat = Some a -> getDoubleFromObject a = Some v -> Q (Some v) w ->
  wp oz_value_arg w Q.
Proof.
  intros Hr Hi Hd HQ. unfold oz_value_arg. apply wp_bind. eapply wp_rargv_at; [done..|]. rewrite Hd. by eapply wp_lift.
Qed.

Lemma wp_oz_apply f w l n K ele els es e e' acts :
  rargv (cli w) = Some (l, n) -> l !! 1%nat = Some K -> l !! 2%nat = Some ele -> cview (srv w) K els es ->
  found oz_new (srv w) els ele = Ok e -> f e = Ok (e', acts) -> acts_ok (srv w) es acts ->
  wp (oz_apply f) w (fun r w' => r = Some tt /\
    exists es', step_to w w' K (<[ele := e']> els) es es' (length acts) /\ scores_follow es es' ele acts).
Proof.
  intros Hr H1 H2 Hv He Hf Hok. unfold oz_apply. apply wp_bind.
  eapply wp_mono; [eapply (get_rargv suffix oz_suffix_ne oz_new oz_new_conf w l n K els es ele e); done|].
  intros r w1 (p & -> & Hst1 & Hp1). apply wp_bind. apply (wp_lift _ p); [done|]. apply wp_bind.
  eapply (wp_load suffix); [apply (st_view _ _ _ _ _ _ _ _ Hst1)|done|by rewrite lookup_insert_eq|].
  apply wp_bind. eapply wp_lift; [exact Hf|]. cbn [fst snd]. apply wp_bind.
  eapply (wp_store suffix); [apply (st_view _ _ _ _ _ _ _ _ Hst1)|done|by rewrite lookup_insert_eq|]. intros w2 Hst2.
  rewrite insert_insert_eq in Hst2. pose proof (step_trans _ _ _ _ _ _ _ _ _ _ 0 0 Hst1 Hst2) as Hst12.
  assert (rargv (cli w2) = Some (l, n)) as Hr2 by (by rewrite (st_cli _ _ _ _ _ _ _ _ Hst12)).
  apply wp_bind, (wp_rargv_at 1 l n K); [done..|]. apply wp_bind, (wp_rargv_at 2 l n ele); [done..|]. apply wp_bind.
  eapply wp_mono; [apply (wp_run_acts suffix oz_suffix_ne K _ ele acts w2 es (st_view _ _ _ _ _ _ _ _ Hst2))|].
  { by apply (acts_ok_rest suffix w w2 K (<[ele := e']> els) es es []). }
  intros r w3 (-> & es' & Hst3 & Hsc). apply wp_dirty_inc. split; [done|]. exists es'. split; [|done].
  apply step_dirty. exact (step_trans _ _ _ _ _ _ _ _ _ _ 0 _ Hst12 Hst3).
Qed.

Lemma wp_oz_effect w l n o K ele els es e e' acts :
  rargv (cli w) = Some (l, n) -> oz_msg l K ele o -> cview (srv w) K els es -> found oz_new (srv w) els ele = Ok e ->
  oz_effect (e, []) o = Ok (e', acts) -> acts_ok (srv w) es acts ->
  wp (oz_effect_cmd o) w (fun r w' => r = Some tt /\
    exists es', step_to w w' K (<[ele := e']> els) es es' (length acts) /\ scores_follow es es' ele acts).
Proof.
  intros Hr (H1 & H2 & Hm) Hv He Heff Hok. unfold oz_effect in Heff. destruct o as [t v|ts v|ts]; cbn [oz_effect_cmd].
  - destruct (ozadd_effect e t v) as [[e1 a1]|] eqn:Hx; [|done]. cbn in Heff. injection Heff as <- <-.
    destruct Hm as ((a & Ha & Hd) & str & Hs & Ht). unfold ozadd_run. apply wp_bind. eapply wp_oz_value; [done..|].
    apply wp_bind. eapply wp_rargv_at; [done..|]. apply wp_bind. eapply wp_lift; [exact Ht|].
    by eapply wp_oz_apply.
  - destruct (ozincrby_effect e ts v) as [[e1 a1]|] eqn:Hx; [|done]. cbn in Heff. injection Heff as <- <-.
    destruct Hm as ((a & Ha & Hd) & Ht). unfold ozincrby_run. apply wp_bind. eapply wp_oz_value; [done..|].
    apply wp_bind. eapply wp_oz_tags; [done..|]. by eapply wp_oz_apply.
  - destruct (ozrem_effect e ts) as [[e1 a1]|] eqn:Hx; [|done]. cbn in Heff. injection Heff as <- <-.
    unfold ozrem_run. apply wp_bind. eapply wp_oz_tags; [done..|]. by eapply wp_oz_apply.
Qed.

(** ** Commands of clients *)

Definition oz_args : string -> string -> quser -> list string := quser_args "ozadd" "ozincrby" "ozrem".

Definition oz_prepare (u : quser) : M E unit :=
  match u with QAdd _ => ozadd_prepare | QIncr _ => ozincrby_prepare | QRem => ozrem_prepare end.

Definition oz_command (u : quser) : M E unit :=
  match u with QAdd _ => ozaddCommand | QIncr _ => ozincrbyCommand | QRem => ozremCommand end.

(** The tags of the adds an element holds. *)
Definition oz_tags (e : oze) : list lc := (fun pa : nat * oz_ase => oz_t pa.2) <$> oz_aset e.

(** What the command asks for when it is accepted, and the element after the
    prepare phase: an add uses up a tag. *)
Definition oz_user (id : Z) (e : oze) (u : quser) : option (oz_op * oze) :=
  match u with
  | QAdd a =>
      v ← getDoubleFromObject a;
      if LOOKUP e then None else let '(t, e1) := oz_new_tag id e in Some (OzAdd t v, e1)
  | QIncr a => v ← getDoubleFromObject a; if LOOKUP e then Some (OzIncr (oz_tags e) v, e) else None
  | QRem => if LOOKUP e then Some (OzRem (oz_tags e), e) else None
  end.

Definition op_tags (o : oz_op) : list lc := match o with OzAdd t _ => [t] | OzIncr ts _ | OzRem ts => ts end.

(** The tags fit the integers they are printed as. *)
Definition tags_ok (ts : list lc) : Prop :=
  Forall wf_lc ts /\ Z.of_nat (length ts) < 2 ^ 29.

Definition oz_prepared w w1 (r : option unit) (K ele : string) (els : gmap string oze) (es : list zentry) (e : oze) (u : quser) : Prop :=
  match oz_user (p2p_id (srv w)) e u with
  | None => r = None /\ moved suffix (srv w) (srv w1) K els es es 0 /\ cli w1 = add_out (cli w) (quser_refused u)
  | Some (o, e1) => r = Some tt /\ moved suffix (srv w) (srv w1) K (<[ele := e1]> els) es es 0 /\
      prepared_client (oz_args K ele u ++ (lcToSds <$> op_tags o)) (cli w) (cli w1)
  end.

Lemma tags_roundtrip ts : Forall wf_lc ts -> reads_tags (lcToSds <$> ts) ts.
Proof.
  intros H. apply Forall2_fmap_l, Forall_Forall2_diag. eapply Forall_impl; [exact H|]. intros t [Hx Hid].
  apply lcToSds_roundtrip; unfold int_range, INT_MIN, INT_MAX in *; lia.
Qed.

Lemma wp_oz_add_tags w w1 K ele els es e1 u o :
  sends (oz_args K ele u) (cli w) -> step_to (start_world w) w1 K (<[ele := e1]> els) es es 0 ->
  op_tags o <> [] -> Z.of_nat (length (op_tags o)) < 2 ^ 29 ->
  wp (for_each (lcToSds <$> op_tags o) RARGV_ADD_SDS) w1 (fun r w2 =>
    r = Some tt /\ moved suffix (srv w) (srv w2) K (<[ele := e1]> els) es es 0 /\
    prepared_client (oz_args K ele u ++ (lcToSds <$> op_tags o)) (cli w) (cli w2)).
Proof.
  intros Hs Hst Hne Hlen. eapply wp_mono; [eapply (wp_add_strings (oz_args K ele u) (lcToSds <$> op_tags o) w w1 Hs)|].
  - apply (st_cli _ _ _ _ _ _ _ _ Hst).
  - apply (st_cap _ _ _ _ _ _ _ _ Hst).
  - by destruct (op_tags o).
  - pose proof (quser_args_length "ozadd" "ozincrby" "ozrem" K ele u). unfold ADDITIONAL_CAPACITY, oz_args. rewrite length_fmap. lia.
  - intros r w2 (-> & Hs2 & Hc2). rewrite Hs2. split_and!; try done. exact (step_moved _ _ _ _ _ _ _ _ Hst).
Qed.

Lemma for_each_fmap {X Y} (f : X -> Y) (g : Y -> M E unit) (l : list X) :
  for_each (f <$> l) g = for_each l (fun x => g (f x)).
Proof. induction l as [|x l IH]; [done|]. cbn [fmap list_fmap for_each]. by rewrite IH. Qed.

Lemma wp_oz_need w K ele els es e u o :
  sends (oz_args K ele u) (cli w) -> cview (srv w) K els es -> found oz_new (srv w) els ele = Ok e ->
  Z.of_nat (length (oz_tags e)) < 2 ^ 29 -> quser_refused u = ele_nexist -> op_tags o = oz_tags e ->
  oz_user (p2p_id (srv w)) e u = (if LOOKUP e then Some (o, e) else None) ->
  wp oz_need_element (start_world w) (fun r w2 => oz_prepared w w2 r K ele els es e u).
Proof.
  intros Hs Hv He Hlen Href Htags Hu. pose proof Hs as (Ha & _). pose proof (sends_reply _ _ Hs) as Hrep.
  destruct (quser_key "ozadd" "ozincrby" "ozrem" K ele u []) as [H1 H2]. rewrite app_nil_r in H1, H2.
  assert (LOOKUP e = false -> wp (_ ← addReply ele_nexist; return_) (start_world w)
            (fun r w2 => oz_prepared w w2 r K ele els es e u)) as Hrefuse.
  { intros Hx. apply wp_bind, wp_addReply. cbn [cli start_world]. rewrite Hrep. wp_steps. unfold oz_prepared.
    rewrite Hu, Hx, Href. split_and!; [done|by apply still|done]. }
  unfold oz_need_element. apply wp_bind.
  eapply wp_mono; [apply (find_argv suffix oz_new (start_world w) K els es ele); cbn [cli start_world srv]; by rewrite ?Ha|].
  intros r w1 [-> Hf]. unfold found in He. destruct (els !! ele) as [e0|] eqn:Hl.
  - injection He as ->. destruct Hf as (p & -> & Hp). apply wp_bind. eapply (wp_load suffix); [done..|].
    destruct (LOOKUP e) eqn:Hx; [|by apply Hrefuse].
    assert (for_each (oz_aset e) (fun pa => RARGV_ADD_SDS (E := E) (lcToSds (oz_t pa.2)))
      = for_each (lcToSds <$> op_tags o) RARGV_ADD_SDS) as -> by (rewrite Htags; unfold oz_tags; by rewrite !for_each_fmap).
    eapply wp_mono; [eapply (wp_oz_add_tags w _ K ele els es e u o Hs)|].
    + rewrite insert_id by done. by apply step_refl.
    + rewrite Htags. unfold oz_tags. unfold LOOKUP in Hx. by destruct (oz_aset e).
    + by rewrite Htags.
    + intros r w2 (-> & Hmv & Hc). unfold oz_prepared. rewrite Hu. by split_and!.
  - subst r. injection He as <-. by apply Hrefuse.
Qed.

Lemma wp_oz_prepare w K ele els es e u :
  sends (oz_args K ele u) (cli w) -> cview (srv w) K els es -> found oz_new (srv w) els ele = Ok e ->
  Z.of_nat (length (oz_tags e)) < 2 ^ 29 ->
  wp (oz_prepare u) (start_world w) (fun r w2 => oz_prepared w w2 r K ele els es e u).
Proof.
  intros Hs Hv He Hlen. pose proof Hs as (Ha & _). pose proof (sends_reply _ _ Hs) as Hrep.
  assert (argv (cli (start_world w)) !! 1%nat = Some K /\ argv (cli (start_world w)) !! 2%nat = Some ele) as [H1 H2]
    by (cbn [cli start_world]; rewrite Ha; by destruct u).
  assert (forall a, (exists b, u = QAdd b /\ a = b) \/ (exists b, u = QIncr b /\ a = b) -> getDoubleFromObject a = None ->
    oz_prepared w (mkWorld (srv w) (add_out (cli w) not_a_float) (capacity (start_world w))) None K ele els es e u) as Hbad.
  { intros a Hu Hd. unfold oz_prepared. destruct Hu as [(b & -> & ->)|(b & -> & ->)]; cbn [oz_user quser_refused]; rewrite Hd;
      cbn [mbind option_bind]; (split_and!; [done|by apply still|done]). }
  destruct u as [a|a|]; cbn [oz_prepare]; unfold ozadd_prepare, ozincrby_prepare, ozrem_prepare;
    (apply wp_bind, check_argc_ok; [cbn [cli start_world]; rewrite Ha; cbn; lia|]);
    (apply wp_bind, (check_container_ok suffix _ K els es); [done|done|]).
  - apply wp_bind, (check_double_ok _ 3 a); [cbn [cli start_world]; by rewrite Ha|done|].
    destruct (getDoubleFromObject a) as [v|] eqn:Hd; [|apply (Hbad a); [by left; exists a|done]].
    apply wp_bind. eapply wp_mono; [eapply (get_argv suffix oz_suffix_ne oz_new oz_new_conf); done|].
    intros r w1 (p & -> & Hst & Hp). apply wp_bind. apply (wp_lift _ p); [done|]. apply wp_bind.
    eapply (wp_load suffix); [apply (st_view _ _ _ _ _ _ _ _ Hst)|done|by rewrite lookup_insert_eq|].
    unfold oz_prepared. cbn [oz_user quser_refused]. rewrite Hd. cbn [mbind option_bind]. destruct (LOOKUP e) eqn:Hx.
    + apply wp_bind, wp_addReply. rewrite (st_cli _ _ _ _ _ _ _ _ Hst). cbn [cli start_world]. rewrite Hrep. wp_steps.
      split_and!; [done| |done]. pose proof (step_moved _ _ _ _ _ _ _ _ Hst) as Hmv. unfold found in He.
      destruct (els !! ele) as [e0|] eqn:Hl; [injection He as ->; by rewrite insert_id in Hmv|]. by injection He as <-.
    + wp_steps. pose proof (st_conf _ _ _ _ _ _ _ _ Hst) as (_ & Hpid & _). cbn [start_world srv] in Hpid. rewrite Hpid.
      cbn [oz_new_tag]. apply wp_bind. eapply (wp_store suffix); [apply (st_view _ _ _ _ _ _ _ _ Hst)|done|by rewrite lookup_insert_eq|].
      intros w2 Hst2. rewrite insert_insert_eq in Hst2.
      pose proof (step_trans _ _ _ _ _ _ _ _ _ _ 0 0 Hst Hst2) as Hst12. cbn [Nat.add] in Hst12.
      eapply wp_mono; [eapply (wp_add_string (oz_args K ele (QAdd a)) _ w w2 Hs)|].
      * apply (st_cli _ _ _ _ _ _ _ _ Hst12).
      * apply (st_cap _ _ _ _ _ _ _ _ Hst12).
      * unfold ADDITIONAL_CAPACITY. cbn. lia.
      * intros r w3 (-> & Hs3 & Hc3). rewrite Hs3. split_and!; [done| |exact Hc3]. exact (step_moved _ _ _ _ _ _ _ _ Hst12).
  - apply wp_bind, (check_double_ok _ 3 a); [cbn [cli start_world]; by rewrite Ha|done|].
    destruct (getDoubleFromObject a) as [v|] eqn:Hd; [|apply (Hbad a); [by right; exists a|done]].
    eapply (wp_oz_need w K ele els es e (QIncr a) (OzIncr (oz_tags e) v)); try done; cbn [oz_user quser_refused]; by rewrite Hd.
  - by eapply (wp_oz_need w K ele els es e QRem (OzRem (oz_tags e))).
Qed.

Lemma oz_user_msg K ele u id e o e1 :
  oz_user id e u = Some (o, e1) -> Forall wf_lc (op_tags o) -> oz_msg (oz_args K ele u ++ (lcToSds <$> op_tags o)) K ele o.
Proof.
  intros Hu Ht. pose proof (tags_roundtrip _ Ht) as Hrt. unfold oz_msg, oz_args.
  destruct (quser_key "ozadd" "ozincrby" "ozrem" K ele u (lcToSds <$> op_tags o)) as [-> ->].
  destruct u as [a|a|]; cbn [oz_user] in Hu.
  - destruct (getDoubleFromObject a) as [v|] eqn:Hd; [|done]. cbn in Hu. destruct (LOOKUP e); [done|].
    injection Hu as <- <-. cbn in Hrt |- *. apply Forall2_cons in Hrt as [Hrt _]. split_and!; eauto.
  - destruct (getDoubleFromObject a) as [v|] eqn:Hd; [|done]. cbn in Hu. destruct (LOOKUP e); [|done].
    injection Hu as <- <-. split_and!; try done. eauto.
  - destruct (LOOKUP e); [|done]. injection Hu as <- <-. by split_and!.
Qed.

Lemma oz_command_shape id e u :
  match oz_user id e u with
  | Some (o, _) => oz_command u = crdt_command (oz_prepare u) (oz_effect_cmd o)
  | None => exists eff, oz_command u = crdt_command (oz_prepare u) eff
  end.
Proof.
  destruct u as [a|a|]; cbn [oz_user].
  - destruct (getDoubleFromObject a); cbn; [destruct (LOOKUP e)|]; by try eexists.
  - destruct (getDoubleFromObject a); cbn; [destruct (LOOKUP e)|]; by try eexists.
  - destruct (LOOKUP e); by try eexists.
Qed.

(** What a command does at the replica it is issued at. *)
Definition oz_local_ok w w' (K ele : string) (els : gmap string oze) (es : list zentry) (e : oze) (u : quser) : Prop :=
  is_replica (cli w') = false /\
  match oz_user (p2p_id (srv w)) e u with
  | None =>
      rargv (cli w') = None /\ out (cli w') = out (cli w) ++ [quser_refused u] /\
      moved suffix (srv w) (srv w') K els es es 0
  | Some (o, e1) =>
      exists n e' acts es', rargv (cli w') = Some (oz_args K ele u ++ (lcToSds <$> op_tags o), n) /\
        out (cli w') = out (cli w) ++ [ROk] /\ oz_effect (e1, []) o = Ok (e', acts) /\
        moved suffix (srv w) (srv w') K (<[ele := e']> els) es es' (length acts) /\ scores_follow es es' ele acts
  end.

Lemma wp_oz_local w K ele els es e u :
  sends (oz_args K ele u) (cli w) -> REPLICATION_MODE (srv w) = true -> cview (srv w) K els es ->
  found oz_new (srv w) els ele = Ok e -> Z.of_nat (length (oz_tags e)) < 2 ^ 29 ->
  (forall o e1, oz_user (p2p_id (srv w)) e u = Some (o, e1) ->
     Forall wf_lc (op_tags o) /\ exists e' acts, oz_effect (e1, []) o = Ok (e', acts) /\ acts_ok (srv w) es acts) ->
  wp (oz_command u) w (fun r w' => r = None /\ oz_local_ok w w' K ele els es e u).
Proof.
  intros Hs Hmode Hv He Hlen Heff. pose proof (oz_command_shape (p2p_id (srv w)) e u) as Hshape.
  pose proof (wp_oz_prepare w K ele els es e u Hs Hv He Hlen) as Hpre. unfold oz_prepared in Hpre. unfold oz_local_ok.
  pose proof Hs as (Ha & Hr & Hi & Hm). destruct (oz_user (p2p_id (srv w)) e u) as [[o e1]|] eqn:Hu.
  - destruct (Heff o e1 eq_refl) as (Hwf & e' & acts & Hc & Hok). rewrite Hshape.
    eapply wp_issue; [done..|]. eapply wp_mono; [exact Hpre|]. intros r w1 (-> & Hmv & Hi1 & Hm1 & Ho1 & _ & n & Hn).
    split_and!; [done|done|by rewrite Hn|].
    eapply wp_mono; [eapply (wp_oz_effect _ (oz_args K ele u ++ (lcToSds <$> op_tags o)) n o K ele (<[ele := e1]> els) es e1 e' acts)|];
      cbn [cli srv rargv add_out].
    + done.
    + by eapply oz_user_msg.
    + apply Hmv.
    + unfold found. by rewrite lookup_insert_eq.
    + done.
    + destruct Hok as [? Hdr ?]. split; [done| |done]. pose proof (mv_draws _ _ _ _ _ _ _ _ Hmv). lia.
    + intros r w2 (-> & es' & Hst & Hsc). rewrite (st_cli _ _ _ _ _ _ _ _ Hst). cbn [cli add_out replica_message is_replica out rargv].
      split_and!; try done. exists n, e', acts, es'. rewrite insert_insert_eq in Hst. split_and!; try done; [by rewrite Ho1|].
      exact (moved_then _ _ _ _ _ _ _ _ _ _ _ _ Hmv (step_moved _ _ _ _ _ _ _ _ Hst)).
  - destruct Hshape as [eff ->]. eapply wp_issue; [done..|]. eapply wp_mono; [exact Hpre|].
    intros r w1 (-> & Hmv & Hc). rewrite Hc. cbn. by split_and!.
Qed.

Lemma wp_oz_remote w l n o K ele els es e e' acts u id e0 e1 :
  rargv (cli w) = Some (l, n) -> is_replica (cli w) = true -> replica_message (cli w) = false ->
  REPLICATION_MODE (srv w) = true -> oz_user id e0 u = Some (o, e1) -> oz_msg l K ele o ->
  cview (srv w) K els es -> found oz_new (srv w) els ele = Ok e -> oz_effect (e, []) o = Ok (e', acts) -> acts_ok (srv w) es acts ->
  wp (oz_command u) w (fun r w' => r = None /\ cli w' = cli w /\
    exists es', moved suffix (srv w) (srv w') K (<[ele := e']> els) es es' (length acts) /\ scores_follow es es' ele acts).
Proof.
  intros Hr Hi Hm Hmode Hu Hmsg Hv He Heff Hok. pose proof (oz_command_shape id e0 u) as Hshape. rewrite Hu in Hshape.
  rewrite Hshape. apply wp_arrive; [done..|]. eapply wp_mono; [by eapply (wp_oz_effect w l n o K ele els es e e' acts)|].
  intros r w2 (-> & es' & Hst & Hsc). rewrite (st_cli _ _ _ _ _ _ _ _ Hst). split_and!; try done.
  exists es'. split; [|done]. by apply step_moved.
Qed.

(** A complete OZADD, OZINCRBY or OZREM of a client on every
    branch.  It is refused with the error reply that fits, broadcasts nothing
    and leaves the container as it was; or it is accepted, leaves the
    arguments to broadcast with the tags it is about (the new tag of an add, all
    tags of the element for an increment or a removal), executes its operation on
    the element and passes its calls on to the sorted set. *)
Theorem oz_local_command w K ele els es e u :
  sends (oz_args K ele u) (cli w) -> REPLICATION_MODE (srv w) = true -> cview (srv w) K els es ->
  found oz_new (srv w) els ele = Ok e -> Z.of_nat (length (oz_tags e)) < 2 ^ 29 ->
  (forall o e1, oz_user (p2p_id (srv w)) e u = Some (o, e1) ->
     Forall wf_lc (op_tags o) /\ exists e' acts, oz_effect (e1, []) o = Ok (e', acts) /\ acts_ok (srv w) es acts) ->
  exists w', oz_command u w = Ok (None, w') /\ oz_local_ok w w' K ele els es e u.
Proof.
  intros. destruct (wp_oz_local w K ele els es e u) as (r & w' & Hrun & -> & Hok); try done. by exists w'.
Qed.

(** a command of the add-win queue that arrives over a link
    reads its operation back from the arguments and does to the element
    what the effect says; the sorted set follows the calls in their
    order, no other element, key or the client is touched and no reply is
    sent. *)
Theorem oz_remote_command w l n o K ele els es e e' acts u id e0 e1 :
  rargv (cli w) = Some (l, n) -> is_replica (cli w) = true -> replica_message (cli w) = false ->
  REPLICATION_MODE (srv w) = true -> oz_user id e0 u = Some (o, e1) -> oz_msg l K ele o ->
  cview (srv w) K els es -> found oz_new (srv w) els ele = Ok e -> oz_effect (e, []) o = Ok (e', acts) -> acts_ok (srv w) es acts ->
  exists w' es', oz_command u w = Ok (None, w') /\ cli w' = cli w /\
    moved suffix (srv w) (srv w') K (<[ele := e']> els) es es' (length acts) /\ scores_follow es es' ele acts.
Proof.
  intros. destruct (wp_oz_remote w l n o K ele els es e e' acts u id e0 e1) as (r & w' & Hrun & -> & Hc & es' & Hmv & Hf); try done.
  by exists w', es'.
Qed.
End Spec.

(** ** Commands on a server of two replicas *)

#[export] Instance oze_cell : Cell oze oze.
Proof. exists id Some. done. Defined.

Definition oz_server : server oze := mkServer 2 0 [] (mkZcfg 128 64) ∅ ∅ 0 0 [65535; 65535].

Lemma oz_server_view : cview ORI_RPQ_TABLE_SUFFIX oz_server "q" ∅ [].
Proof. split; [done|done|]. by intros p [c Hc]. Qed.

Definition oz_first : oz_op := OzAdd (mkLc 0 0) (double_of_Z 5).

Definition oz_first_elem : oze := mkOze 1 None None [] [] 0.

Lemma oz_first_op : oz_user 0 ozeNew (QAdd "5") = Some (oz_first, oz_first_elem).
Proof. by vm_compute. Qed.

Lemma oz_first_effect : exists e', oz_effect (oz_first_elem, []) oz_first = Ok (e', [ZAdd (double_of_Z 5)]).
Proof. eexists. vm_compute. reflexivity. Qed.

Lemma oz_first_acts : acts_ok oz_server [] [ZAdd (double_of_Z 5)].
Proof.
  split; cbn [length]; [lia|by apply Nat.leb_le|]. intros sc Hin _. apply list_elem_of_singleton in Hin.
  assert (sc = double_of_Z 5) as -> by congruence. by apply prints_back_Z.
Qed.

Lemma oz_local_command_witness :
  let w := mkWorld oz_server (mkClient ["ozadd"; "q"; "a"; "5"] None false false []) 0 in
  exists w', oz_command (QAdd "5") w = Ok (None, w') /\ oz_local_ok w w' "q" "a" ∅ [] ozeNew (QAdd "5").
Proof.
  intros w. pose proof oz_first_op as Ho. destruct oz_first_effect as [e' He'].
  destruct (oz_local_command w "q" "a" ∅ [] ozeNew (QAdd "5")) as (w' & Hrun & Hok).
  - by split_and!.
  - reflexivity.
  - apply oz_server_view.
  - reflexivity.
  - cbn. lia.
  - intros o e2 Hc. change (oz_user 0 ozeNew (QAdd "5") = Some (o, e2)) in Hc. rewrite Ho in Hc. injection Hc as <- <-. split; [by apply (bool_decide_unpack _)|].
    eexists _, _. split; [exact He'|]. apply oz_first_acts.
  - exists w'. split; [exact Hrun|exact Hok].
Defined.

Lemma oz_first_remote : exists e', oz_effect (ozeNew, []) oz_first = Ok (e', [ZAdd (double_of_Z 5)]).
Proof. eexists. vm_compute. reflexivity. Qed.

Lemma oz_remote_command_witness :
  let l := ["ozadd"; "q"; "a"; "5"; "0,0"] in
  let w := mkWorld oz_server (mkClient l (Some (l, 5)) true false []) 0 in
  exists w' es', oz_command (QAdd "5") w = Ok (None, w') /\ cli w' = cli w /\ zscore "a" es' = Some (double_of_Z 5).
Proof.
  intros l w. pose proof oz_first_op as Ho. destruct oz_first_remote as [e' He'].
  destruct (oz_remote_command w l 5 oz_first "q" "a" ∅ [] ozeNew e' [ZAdd (double_of_Z 5)] (QAdd "5") 0 ozeNew oz_first_elem)
    as (w' & es' & Hrun & Hc & _ & Hsc).
  - reflexivity.
  - reflexivity.
  - reflexivity.
  - reflexivity.
  - exact Ho.
  - split_and!; [done|done|]. split.
    + eexists. split; [reflexivity|]. vm_compute. reflexivity.
    + eexists. split; [reflexivity|]. vm_compute. reflexivity.
  - apply oz_server_view.
  - reflexivity.
  - exact He'.
  - apply oz_first_acts.
  - exists w', es'. split; [exact Hrun|]. split; [exact Hc|]. rewrite (Hsc "a"). by vm_compute.
Defined.
