(* ===== verification/OzSystem.v ===== *)
(** * A system of replicas with one add-win queue

    The commands of [OzCmd] in a system of replicas.  Messages arrive in any
    order in which an increment follows the adds it names, as it does when
    delivery is causal; nothing is asked of adds and removes.  No run reaches an
    error, and replicas that received the same messages answer alike. *)

From S2P Require Import Prelude Sds LamportClock Double Exact OZset OzMirror Util Score Skiplist SkiplistSpec.
From S2P Require Import Zset ZsetSpec Store Crdt Container RwfzCmd P2P System QueueSpec OzCmd OzSpec.
From Stdlib Require Import Ascii.

#[local] Arguments sdsToLc : simpl never.
#[local] Arguments getDoubleFromObject : simpl never.

(** ** Operations and their values *)

Definition oz_op_value (o : oz_op) : option double :=
  match o with OzAdd _ v | OzIncr _ v => Some v | OzRem _ => None end.

(** The steps of a list of operations. *)
Definition steps_of (l : list oz_op) : list oz_micro := concat (micros <$> l).

Lemma steps_of_snoc l o : steps_of (l ++ [o]) = steps_of l ++ micros o.
Proof. unfold steps_of. rewrite fmap_app, concat_app. cbn. by rewrite app_nil_r. Qed.

Lemma elem_of_steps s l : s ∈ steps_of l <-> exists o, o ∈ l /\ s ∈ micros o.
Proof.
  unfold steps_of. induction l as [|o l IH]; cbn [fmap list_fmap concat].
  - split; [by intros ?%elem_of_nil|by intros (o & ?%elem_of_nil & _)].
  - rewrite elem_of_app, IH. split.
    + intros [H|(o' & Ho & H)]; [exists o; split; [by left|done]|exists o'; split; [by right|done]].
    + intros (o' & [->|Ho]%elem_of_cons & H); [by left|right; by exists o'].
Qed.

Lemma elem_of_adds t v l : MAdd t v ∈ steps_of l <-> OzAdd t v ∈ l.
Proof.
  rewrite elem_of_steps. split; [|intros H; exists (OzAdd t v); split; [done|by left]].
  intros ([u w|ts w|ts] & Ho & H); cbn in H.
  - by apply list_elem_of_singleton in H as [= -> ->].
  - apply list_elem_of_fmap in H as (? & ? & ?). done.
  - apply list_elem_of_fmap in H as (? & ? & ?). done.
Qed.

(** Operations as servers make them. *)
Definition op_ok (o : oz_op) : Prop := Forall wf_lc (op_tags o) /\ NoDup (op_tags o).

Lemma incs_one ts v t : NoDup ts -> incs_of ((fun u => MIncr u v) <$> ts) t = if decide (t ∈ ts) then [v] else [].
Proof.
  unfold incs_of. induction 1 as [|u ts Hu Hnd IH]; [by rewrite decide_False by (by intros ?%elem_of_nil)|].
  rewrite fmap_cons, omap_cons_eq, IH. cbn [inc_of]. destruct (decide (u = t)) as [->|Hne].
  - rewrite (decide_False (P := t ∈ ts)) by done. by rewrite decide_True by (by left).
  - destruct (decide (t ∈ ts)) as [Ht|Ht]; [by rewrite decide_True by (by right)|].
    rewrite decide_False; [done|]. intros [->|?]%elem_of_cons; done.
Qed.

Lemma incs_values l t : Forall op_ok l -> incs_of (steps_of l) t ⊆+ omap (fun o => match o with OzIncr _ v => Some v | _ => None end) l.
Proof.
  unfold steps_of. induction 1 as [|o l [_ Hnd] Hl IH]; [done|]. cbn [fmap list_fmap concat]. unfold incs_of in *. rewrite omap_app, omap_cons_eq.
  destruct o as [u v|ts v|ts]; cbn [micros op_tags] in *; [done| |].
  - pose proof (incs_one ts v t Hnd) as Hone. unfold incs_of in Hone. rewrite Hone.
    case_decide; [by apply submseteq_skip|by apply submseteq_cons].
  - assert (omap (inc_of t) (MRem <$> ts) = []) as -> by (clear; by induction ts). done.
Qed.

Lemma incr_ops_values l : omap (fun o => match o with OzIncr _ v => Some v | _ => None end) l ⊆+ omap oz_op_value l.
Proof. induction l as [|o l IH]; [done|]. rewrite !omap_cons_eq. destruct o; cbn [oz_op_value]; [by apply submseteq_cons|by apply submseteq_skip|done]. Qed.

Lemma add_incr_values l t v r : Forall op_ok l -> OzAdd t v ∈ l -> v :: incs_of (steps_of l) r ⊆+ omap oz_op_value l.
Proof.
  intros Hl Hin. etrans; [apply submseteq_skip, incs_values; done|]. clear Hl.
  apply list_elem_of_split in Hin as (l1 & l2 & ->). rewrite !omap_app, !omap_cons_eq. cbn [oz_op_value]. rewrite Permutation_middle.
  apply submseteq_app; [apply incr_ops_values|]. apply submseteq_skip, incr_ops_values.
Qed.

Lemma all_incs_value l v : v ∈ all_incs (steps_of l) -> v ∈ omap oz_op_value l.
Proof.
  unfold all_incs. intros (s & Hs & Hv)%list_elem_of_omap. destruct s as [u w|u w|u]; try done. injection Hv as ->.
  apply elem_of_steps in Hs as (o & Ho & Hm). apply list_elem_of_omap. exists o. split; [done|].
  destruct o as [u' w|ts w|ts]; cbn in Hm.
  - by apply list_elem_of_singleton in Hm.
  - by apply list_elem_of_fmap in Hm as (? & [= -> ->] & _).
  - by apply list_elem_of_fmap in Hm as (? & ? & _).
Qed.

Lemma int_steps_ok l : Forall op_ok l -> ints_below (2 ^ 53) (omap oz_op_value l) -> int_steps (steps_of l).
Proof.
  intros Hl [Hi Hb]. split_and!.
  - apply Forall_forall. intros v Hv%all_incs_value. rewrite Forall_forall in Hi. by apply Hi.
  - intros t. eapply Z.le_lt_trans; [|exact Hb]. unfold weight. apply iabs_submseteq. etrans; [by apply incs_values|apply incr_ops_values].
  - apply Forall_forall. intros s (o & Ho & Hs)%elem_of_steps. rewrite Forall_forall in Hl. destruct (Hl o Ho) as [Hw _]. rewrite Forall_forall in Hw.
    destruct o as [u v|ts v|ts]; cbn in Hs, Hw.
    + apply list_elem_of_singleton in Hs as ->. apply Hw. by left.
    + apply list_elem_of_fmap in Hs as (t & -> & Ht). by apply Hw.
    + apply list_elem_of_fmap in Hs as (t & -> & Ht). by apply Hw.
Qed.

Lemma score_int l sc B :
  Forall op_ok l -> score_spec (steps_of l) sc -> ints_below B (omap oz_op_value l) -> B <= 2 ^ 53 ->
  exists z, sc = double_of_Z z /\ Z.abs z < B.
Proof.
  intros Hl (t & v & r & _ & _ & Hx & _ & _ & ->) Hi HB. apply x_of_elem, elem_of_adds in Hx.
  destruct (ints_below_sub B _ _ (add_incr_values l t v r Hl Hx) Hi) as [Hf Hb]. apply Forall_cons in Hf as [Hv _]. rewrite iabs_cons in Hb.
  pose proof (isum_iabs (incs_of (steps_of l) r)). unfold is_int in Hv. exists (to_Z v + isum (incs_of (steps_of l) r)). split; [|lia].
  rewrite Hv at 1. apply dadd_Z; lia.
Qed.

(** ** An element of a replica *)

(** The element of a replica after the operations [l], with what the sorted set
    has for it. *)
Record oz_elem_at (l : list oz_op) (e : oze) (mir : option double) : Prop := {
  oe_inv : oz_inv (steps_of l) false e;
  oe_tags : tags_touched (steps_of l) e;
  oe_added : all_added (steps_of l);
  oe_shows : shows mir e
}.

Lemma oz_elem_new : oz_elem_at [] ozeNew None.
Proof. destruct oz_inv_new. split; try done. by intros t ?%Exists_nil. Qed.

(** A new tag changes nothing else. *)
Lemma oz_elem_tag id l e mir : oz_elem_at l e mir -> oz_elem_at l (oz_new_tag id e).2 mir.
Proof.
  intros [(Hc & Hi & Ha) Ht Hadd Hs]. split; try done. split_and!; try done. by eapply core_same; [..|exact Hc].
Qed.

(** The tags of an element are those of adds it received. *)
Lemma oz_elem_tags l e mir t : oz_elem_at l e mir -> t ∈ oz_tags e -> (exists v, OzAdd t v ∈ l) /\ wf_lc t.
Proof.
  intros [(Hc & _) Htt Hadd _] ([p a] & -> & Hin)%list_elem_of_fmap. pose proof (oi_ok _ _ Hc _ _ Hin) as Hok. cbn [snd]. split; [|apply Hok].
  pose proof (Hadd _ (Htt _ _ Hin) (eo_live _ _ Hok)) as Hx. destruct (x_of _ _) as [v|] eqn:Hv; [|done]. exists v. by apply elem_of_adds, x_of_elem.
Qed.

Lemma oz_tags_nodup m d e : oz_inv m d e -> NoDup (oz_tags e).
Proof.
  intros (Hc & _). pose proof (oi_addr _ _ Hc) as Hnd. pose proof (oi_tags _ _ Hc) as Htg. unfold oz_tags. clear Hc.
  induction (oz_aset e) as [|[p a] L IH]; [constructor|]. cbn [fmap list_fmap snd fst] in *. apply NoDup_cons in Hnd as [Hp Hnd]. apply NoDup_cons. split.
  - intros ([q b] & Heq & Hin)%list_elem_of_fmap. cbn [snd] in Heq. apply Hp. assert (p = q) as -> by (eapply (Htg p a q b); [by left|by right|done]).
    by apply (list_elem_of_fmap_2 fst) in Hin.
  - apply IH; [done|]. intros q b r c Hq Hr. apply Htg; by right.
Qed.

Definition adds_once (l : list oz_op) : Prop := forall t v v', OzAdd t v ∈ l -> OzAdd t v' ∈ l -> v = v'.

(** Before an increment come the adds it names. *)
Definition comes_in_time (l : list oz_op) (o : oz_op) : Prop :=
  match o with
  | OzAdd t _ => forall v, OzAdd t v ∉ l
  | OzIncr ts _ => forall t, t ∈ ts -> exists v, OzAdd t v ∈ l
  | OzRem _ => True
  end.

Lemma x_of_more m m' t : x_of m t <> None -> x_of (m ++ m') t <> None.
Proof.
  intros H. destruct (x_of m t) as [v|] eqn:Hv; [|done]. apply x_of_elem in Hv. apply (x_of_added _ _ v), elem_of_app. by left.
Qed.

Lemma in_time_added l o : all_added (steps_of l) -> comes_in_time l o -> all_added (steps_of l ++ micros o).
Proof.
  intros Hadd Hin t Ht Hlive.
  assert (MRem t ∉ steps_of l) as Hl by (intros H; apply Hlive, elem_of_app; by left).
  unfold touched in Ht. apply Exists_app in Ht as [Ht|Ht]; [by apply x_of_more, Hadd|].
  apply Exists_exists in Ht as (s & Hs & Hst). destruct o as [u v|ts v|ts]; cbn in Hs, Hin.
  - apply list_elem_of_singleton in Hs as ->. subst u. apply (x_of_added _ _ v), elem_of_app. right. by left.
  - apply list_elem_of_fmap in Hs as (u & -> & Hu). subst u. destruct (Hin t Hu) as [w Hw].
    apply x_of_more, (x_of_added _ _ w). by apply elem_of_adds.
  - by apply list_elem_of_fmap in Hs as (u & -> & _).
Qed.

(** The element after one more operation. *)
Lemma oz_elem_effect l e mir o :
  oz_elem_at l e mir -> comes_in_time l o -> Forall op_ok (l ++ [o]) -> ints_below BOUND (omap oz_op_value (l ++ [o])) ->
  exists e' new, oz_effect (e, []) o = Ok (e', new) /\ oz_current e' = oz_current e /\ (length new <= 1)%nat /\
    oz_elem_at (l ++ [o]) e' (zmirror mir new) /\
    forall sc, ZAdd sc ∈ new -> exists z, sc = double_of_Z z /\ Z.abs z < BOUND.
Proof.
  intros [Hinv Htt Hadd Hs] Htime Hok Hints. pose proof (in_time_added l o Hadd Htime) as Hadd'.
  assert (int_steps (steps_of l ++ micros o)) as Hint.
  { rewrite <- steps_of_snoc. apply int_steps_ok; [done|]. destruct Hints as [? ?]. split; [done|]. unfold BOUND in *. lia. }
  destruct (oz_effect_calls (steps_of l) e o Hinv Htt Hadd Hint Hadd') as (e' & new & Heff & (Hcur & Hlen & Hsc & Hmir) & Hinv' & Htt').
  { intros t v -> u Hu%elem_of_adds. by apply (Htime u). }
  exists e', new. split_and!; try done.
  - split; rewrite ?steps_of_snoc; try done. by apply Hmir.
  - intros sc Hin. destruct (Hsc sc Hin) as [HL HS]. destruct (SCORE_ok _ _ Hinv' Htt' Hadd') as (sc' & HS' & Hspec).
    assert (sc' = sc) as -> by congruence. rewrite <- steps_of_snoc in Hspec. eapply score_int; [exact Hok|by apply Hspec|done|]. unfold BOUND. lia.
Qed.

(** Replicas that received the same operations agree on the element. *)
Lemma oz_elems_agree l1 l2 e1 e2 m1 m2 :
  oz_elem_at l1 e1 m1 -> oz_elem_at l2 e2 m2 -> l1 ≡ₚ l2 -> adds_once l1 -> Forall op_ok l1 ->
  ints_below BOUND (omap oz_op_value l1) -> same_score m1 m2.
Proof.
  intros [Hi1 Ht1 Ha1 Hs1] [Hi2 Ht2 Ha2 Hs2] Hp Hu Hok Hints.
  assert (steps_of l1 ≡ₚ steps_of l2) as Hpm by (unfold steps_of; by rewrite Hp).
  unfold shows in *. rewrite <- (oz_LOOKUP_perm _ _ e1 e2 Hpm) in Hs2 by done. destruct (LOOKUP e1) eqn:HL; [|by rewrite Hs1, Hs2].
  destruct Hs1 as (sc1 & Hsc1 & Hm1), Hs2 as (sc2 & Hsc2 & Hm2).
  destruct (SCORE_ok _ _ Hi1 Ht1 Ha1) as (c1 & Hc1 & Hspec1), (SCORE_ok _ _ Hi2 Ht2 Ha2) as (c2 & Hc2 & Hspec2).
  assert (c1 = sc1) as -> by congruence. assert (c2 = sc2) as -> by congruence.
  assert (LOOKUP e2 = true) as HL2 by (by rewrite <- (oz_LOOKUP_perm _ _ e1 e2 Hpm)).
  assert (sc1 = sc2) as <-.
  { apply (score_spec_unique _ _ _ _ Hpm); [|by apply Hspec1|by apply Hspec2]. intros t v v' Hv%elem_of_adds Hv'%elem_of_adds. by eapply Hu. }
  eapply mirrors_agree; [exact Hm1|exact Hm2|]. destruct (score_int l1 sc1 BOUND) as (z & -> & Hz); [done|by apply Hspec1|done|by unfold BOUND|].
  apply isnan_Z. unfold BOUND in *. lia.
Qed.

(** ** Messages *)

Definition oz_read_tags (strs : list string) : option (list lc) :=
  match foldM (fun (ts : list lc) (str : string) => t ← sdsToLc str; Ok (ts ++ [t])) [] strs with Ok ts => Some ts | Crash _ => None end.

Definition oz_parse (l : list string) : option (string * oz_op) :=
  nm ← head l;
  x ← l !! 2%nat;
  if decide (nm = "ozadd") then
    a ← l !! 3%nat; v ← getDoubleFromObject a; ts ← oz_read_tags (drop 4 l); t ← head ts; Some (x, OzAdd t v)
  else if decide (nm = "ozincrby") then
    a ← l !! 3%nat; v ← getDoubleFromObject a; ts ← oz_read_tags (drop 4 l); Some (x, OzIncr ts v)
  else
    ts ← oz_read_tags (drop 3 l); Some (x, OzRem ts).

Lemma oz_read_sent ts : Forall wf_lc ts -> oz_read_tags (lcToSds <$> ts) = Some ts.
Proof. intros H. unfold oz_read_tags. by rewrite (read_tags _ ts []) by (by apply tags_roundtrip). Qed.

Lemma oz_parse_args K x u l :
  oz_parse (oz_args K x u ++ l) =
    match u with
    | QAdd a => v ← getDoubleFromObject a; ts ← oz_read_tags l; t ← head ts; Some (x, OzAdd t v)
    | QIncr a => v ← getDoubleFromObject a; ts ← oz_read_tags l; Some (x, OzIncr ts v)
    | QRem => ts ← oz_read_tags l; Some (x, OzRem ts)
    end.
Proof. by destruct u. Qed.

Lemma oz_parse_user K x u id e o e1 :
  oz_user id e u = Some (o, e1) -> Forall wf_lc (op_tags o) ->
  oz_parse (oz_args K x u ++ (lcToSds <$> op_tags o)) = Some (x, o).
Proof.
  intros Ho Hw. rewrite oz_parse_args, (oz_read_sent _ Hw). destruct u as [a|a|]; cbn [oz_user] in Ho.
  - destruct (getDoubleFromObject a) as [v|]; [|done]. cbn in Ho. destruct (LOOKUP e); [done|]. by injection Ho as <- <-.
  - destruct (getDoubleFromObject a) as [v|]; [|done]. cbn in Ho. destruct (LOOKUP e); [|done]. by injection Ho as <- <-.
  - destruct (LOOKUP e); [|done]. by injection Ho as <- <-.
Qed.

(** What an accepted command asks for. *)
Lemma oz_user_cases id e u o e1 :
  oz_user id e u = Some (o, e1) ->
  (forall i x, oz_op_value o = quser_value (Client i x u)) /\
  ((exists v, o = OzAdd (_lc_new (oz_current e) id) v /\ e1 = (oz_new_tag id e).2) \/
   (op_tags o = oz_tags e /\ (forall t v, o <> OzAdd t v) /\ e1 = e)).
Proof.
  destruct u as [a|a|]; cbn [oz_user quser_value].
  - destruct (getDoubleFromObject a) as [v|]; [|done]. cbn. destruct (LOOKUP e); [done|]. intros [= <- <-]. split; [done|]. left. by exists v.
  - destruct (getDoubleFromObject a) as [v|]; [|done]. cbn. destruct (LOOKUP e); [|done]. intros [= <- <-]. split; [done|]. by right.
  - destruct (LOOKUP e); [|done]. intros [= <- <-]. split; [done|]. by right.
Qed.

(** The adds of replica [i]. *)
Definition own_add (i : nat) (o : oz_op) : bool := match o with OzAdd t _ => bool_decide (Z.to_nat (lid t) = i) | _ => false end.
Definition own_adds (i : nat) (l : list oz_op) : nat := length (List.filter (own_add i) l).

Lemma own_adds_snoc i l o : own_adds i (l ++ [o]) = (own_adds i l + if own_add i o then 1 else 0)%nat.
Proof. unfold own_adds. rewrite List.filter_app, length_app. cbn [List.filter]. by destruct (own_add i o). Qed.

Section System.
Context {E : Type} `{!Cell oze E}.
Context (K : string).

(** The entries of the command table. *)
Definition oz_table (args : list string) : option (M E unit) :=
  nm ← head args;
  if strcaseeq nm "ozadd" then Some ozaddCommand
  else if strcaseeq nm "ozincrby" then Some ozincrbyCommand
  else if strcaseeq nm "ozrem" then Some ozremCommand
  else None.

Notation sys := (System.sys E).
Notation action := (System.action quser).
Notation issue := (System.issue oz_table).
Notation receive := (System.receive oz_table).
Notation sys_step := (System.sys_step oz_table (oz_args K)).
Notation sys_run := (System.sys_run oz_table (oz_args K)).
Notation parsed := (System.parsed oz_parse).
Notation ops_got := (System.ops_got oz_parse).
Notation log_values := (System.log_values oz_parse oz_op_value).
Notation cview := (cview ORI_RPQ_TABLE_SUFFIX).
Notation moved := (moved ORI_RPQ_TABLE_SUFFIX).
Notation found := (found oz_new).

Lemma oz_table_user x u l : oz_table (oz_args K x u ++ l) = Some (oz_command u).
Proof. by destruct u. Qed.

(** ** What replicas do *)

Lemma oz_issue s x els es e u :
  0 < p2p_count s -> replicas s = [] -> cview s K els es -> found s els x = Ok e -> Z.of_nat (length (oz_tags e)) < 2 ^ 29 ->
  (forall o e1, oz_user (p2p_id s) e u = Some (o, e1) ->
     Forall wf_lc (op_tags o) /\ exists e' acts, oz_effect (e1, []) o = Ok (e', acts) /\ acts_ok s es acts) ->
  exists s' m, issue s (oz_args K x u) = Ok (s', m) /\
    match oz_user (p2p_id s) e u with
    | None => m = None /\ moved s s' K els es es 0
    | Some (o, e1) => exists e' acts es', m = Some (oz_args K x u ++ (lcToSds <$> op_tags o)) /\
        oz_effect (e1, []) o = Ok (e', acts) /\ moved s s' K (<[x := e']> els) es es' (length acts) /\ scores_follow es es' x acts
    end.
Proof.
  intros Hm Hl Hv He Hlen Hok. unfold System.issue. pose proof (oz_table_user x u []) as Htab. rewrite app_nil_r in Htab. rewrite Htab.
  set (c := mkClient (oz_args K x u) None false false []).
  destruct (wp_oz_local (mkWorld s c 0) K x els es e u) as (r & w' & Hrun & -> & Hi & Hok'); try done; [by apply mode_on|].
  cbn [srv] in Hok'. assert (replicas (srv w') = []) as Hlk.
  { destruct (oz_user _ e u) as [[o e1]|]; [destruct Hok' as (? & ? & ? & ? & _ & _ & _ & Hmv & _)|destruct Hok' as (_ & _ & Hmv)];
      pose proof (mv_conf _ _ _ _ _ _ _ _ Hmv) as (_ & _ & Hlk & _); cbn [srv] in Hlk; congruence. }
  rewrite (call_client _ s c w' None) by done. cbn [mbind res_bind clients nsrv].
  rewrite lookup_singleton_eq. cbn [of_option mbind res_bind]. eexists _, _. split; [done|].
  destruct (oz_user _ e u) as [[o e1]|].
  - destruct Hok' as (n & e' & acts & es' & Hr & Hout & Heff & Hmv & Hsc). rewrite Hr. exists e', acts, es'. by split_and!.
  - destruct Hok' as (Hr & Hout & Hmv). rewrite Hr. by split_and!.
Qed.

Lemma oz_receive_msg s x els es e e' acts u id e0 e1 o :
  0 < p2p_count s -> oz_user id e0 u = Some (o, e1) -> Forall wf_lc (op_tags o) ->
  cview s K els es -> found s els x = Ok e -> oz_effect (e, []) o = Ok (e', acts) -> acts_ok s es acts ->
  exists s' es', receive s (oz_args K x u ++ (lcToSds <$> op_tags o)) = Ok s' /\
    moved s s' K (<[x := e']> els) es es' (length acts) /\ scores_follow es es' x acts.
Proof.
  intros Hm Hu Hw Hv He Heff Hok. unfold System.receive. rewrite oz_table_user.
  set (l := oz_args K x u ++ _). set (cl := mkClient l None true false []).
  destruct (wp_oz_remote (mkWorld s (set_rargv cl (Some (l, Z.of_nat (length l)))) 0) l (Z.of_nat (length l)) o K x els es e e' acts u id e0 e1)
    as (r & w' & Hrun & -> & Hc & es' & Hmv & Hsc); try done; [by apply mode_on|by eapply oz_user_msg|].
  rewrite (call_link _ s cl w' None); [|done|done|by rewrite Hc]. cbn [mbind res_bind nsrv]. eauto.
Qed.
(** ** The invariant of a run

    [N] replicas; [TT] is the number of actions of the whole run and [T] the
    number done so far. *)

Context (N TT : nat) (HN : (0 < N)%nat /\ Z.of_nat N <= INT_MAX) (HTT : Z.of_nat TT + 2 < 2 ^ 29).

Definition oz_entry (l : list string) : Prop :=
  exists x u id e0 o e1, l = oz_args K x u ++ (lcToSds <$> op_tags o) /\ oz_user id e0 u = Some (o, e1) /\ op_ok o.

(** An element is what the operations received make of it, the sorted set
    follows it, its next tag is new, and the replica executed its own adds. *)
Definition oz_elem_ok (T : nat) (lg : list (list string)) (i : nat) (g : list nat) (s : server E) (els : gmap string oze)
    (es : list zentry) (x : string) : Prop :=
  exists e, found s els x = Ok e /\ oz_elem_at (ops_got lg g x) e (zscore x es) /\ 0 <= oz_current e <= Z.of_nat T /\
    oz_current e = Z.of_nat (own_adds i (ops_got lg g x)) /\
    forall k t v, parsed lg k = Some (x, OzAdd t v) -> lid t = Z.of_nat i -> lx t < oz_current e /\ k ∈ g.

(** Random numbers for the call one message can cause. *)
Definition oz_per_step : nat := S TT.

Record oz_replica (T : nat) (lg : list (list string)) (i : nat) (s : server E) (g : list nat) : Prop := {
  or_count : p2p_count s = Z.of_nat N;
  or_id : p2p_id s = Z.of_nat i;
  or_links : replicas s = [];
  or_nodup : NoDup g;
  or_in : Forall (fun m => m < length lg)%nat g;
  or_state : exists els es, cview s K els es /\ ((TT - T) * oz_per_step <= draws (rng s))%nat /\
    forall x, oz_elem_ok T lg i g s els es x
}.

(** The tags of adds are unique, and increments name tags of adds. *)
Record oz_log_ok (lg : list (list string)) : Prop := {
  ol_entries : Forall oz_entry lg;
  ol_adds : forall x k k' t v v', parsed lg k = Some (x, OzAdd t v) -> parsed lg k' = Some (x, OzAdd t v') -> k = k';
  ol_named : forall x k ts v t, parsed lg k = Some (x, OzIncr ts v) -> t ∈ ts -> exists k' w, parsed lg k' = Some (x, OzAdd t w)
}.

Record oz_sys_ok (acts : list action) (st : sys) : Prop := {
  os_servers : length (servers st) = N;
  os_got : length (got st) = N;
  os_len : (length (log st) <= length acts)%nat;
  os_log : oz_log_ok (log st);
  os_values : log_values (log st) `sublist_of` omap quser_value acts;
  os_replicas : forall i s g, servers st !! i = Some s -> got st !! i = Some g -> oz_replica (length acts) (log st) i s g
}.

Lemma oz_ops_ok lg g x : Forall oz_entry lg -> Forall op_ok (ops_got lg g x).
Proof.
  intros Hlg. apply Forall_forall. intros o (m & _ & Hp)%elem_of_ops_got. unfold System.parsed in Hp. destruct (lg !! m) as [l|] eqn:Hl; [|done]. cbn in Hp.
  destruct (Forall_lookup_1 _ _ _ _ Hlg Hl) as (y & u & id & e0 & o' & e1 & -> & Hu & Hok).
  rewrite (oz_parse_user K y u id e0 o' e1 Hu (proj1 Hok)) in Hp. by injection Hp as _ <-.
Qed.

(** Every element of the sorted set had a message. *)
Lemma oz_entries T lg i s g els es :
  cview s K els es -> (forall x, oz_elem_ok T lg i g s els es x) -> (length es <= length g)%nat.
Proof.
  intros Hv Hel. assert (zordered es) as Ho.
  { pose proof (cv_zset _ _ _ _ _ Hv) as Hz. unfold zset_view in Hz. destruct (db s !! K) as [[h|z|t b1 b2]|]; try done; [by eapply zview_ordered|].
    subst es. split; [constructor|constructor|constructor]. }
  assert (es.*2 ⊆ omap (fun m => fst <$> parsed lg m) g) as Hsub.
  { intros x Hx. destruct (Hel x) as (e & _ & Hat & _).
    assert (ops_got lg g x <> []) as Hne.
    { intros Hnil. rewrite Hnil in Hat. pose proof (oe_shows _ _ _ Hat) as Hsh. unfold shows in Hsh.
      destruct (LOOKUP e) eqn:HL; [|by apply zscore_None in Hsh]. unfold LOOKUP in HL. destruct (oz_aset e) as [|[p a] L] eqn:He; [done|].
      pose proof (oe_tags _ _ _ Hat p a) as Ht. rewrite He in Ht. specialize (Ht ltac:(by left)). by apply Exists_nil in Ht. }
    destruct (ops_got lg g x) as [|c r] eqn:Hops; [done|]. assert (c ∈ ops_got lg g x) as Hc by (rewrite Hops; by left).
    apply elem_of_ops_got in Hc as (m & Hm & Hp). apply list_elem_of_omap. exists m. by rewrite Hp. }
  pose proof (submseteq_length _ _ (NoDup_submseteq _ _ (zo_nodup _ Ho) Hsub)) as Hlen. rewrite length_fmap in Hlen.
  etrans; [exact Hlen|]. clear. induction g as [|m g IH]; [done|]. rewrite omap_cons_eq. destruct (_ <$> _); cbn [length]; lia.
Qed.

(** ** One more message at a replica *)

Section Message.
Context (T : nat) (lg lg' : list (list string)) (i : nat) (s : server E) (g : list nat) (els : gmap string oze) (es : list zentry).
Context (x : string) (o : oz_op) (m : nat) (e : oze).
Context (HT : (T < TT)%nat) (Hlen : (length lg <= T)%nat).
Context (Hrep : oz_replica T lg i s g) (Hv : cview s K els es) (Hd : ((TT - T) * oz_per_step <= draws (rng s))%nat).
Context (Hel : forall y, oz_elem_ok T lg i g s els es y).
Context (Hat : oz_elem_at (ops_got lg g x) e (zscore x es)) (Hcur : 0 <= oz_current e <= Z.of_nat (S T)).
Context (Hcnt : oz_current e = Z.of_nat (own_adds i (ops_got lg g x ++ [o]))).
(** The log with the message. *)
Context (Hlg : Forall oz_entry lg') (Hll : (length lg <= length lg')%nat) (Hgot : forall y, ops_got lg' g y = ops_got lg g y).
Context (Hoth : forall y k t v, y <> x -> parsed lg' k = Some (y, OzAdd t v) -> parsed lg k = Some (y, OzAdd t v)).
Context (Hown : forall k t v, parsed lg' k = Some (x, OzAdd t v) -> lid t = Z.of_nat i -> lx t < oz_current e /\ k ∈ g ++ [m]).
Context (Hp : parsed lg' m = Some (x, o)) (Hmg : m ∉ g) (Htime : comes_in_time (ops_got lg g x) o).
Context (Hints : ints_below BOUND (omap oz_op_value (ops_got lg' (g ++ [m]) x))).

Lemma oz_message :
  exists e' new, oz_effect (e, []) o = Ok (e', new) /\ acts_ok s es new /\
    forall s' es', moved s s' K (<[x := e']> els) es es' (length new) -> scores_follow es es' x new ->
      oz_replica (S T) lg' i s' (g ++ [m]).
Proof.
  pose proof (parsed_lt _ _ _ Hp) as Hml. pose proof Hrep as [Hc Hid Hl Hnd Hin _].
  assert (Forall (fun k => k < length lg')%nat g) as Hin' by (eapply Forall_impl; [exact Hin|]; cbn; lia).
  destruct (got_snoc g m (length lg') Hnd Hin' Hmg Hml) as [Hnd' Hin''].
  assert (ops_got lg' (g ++ [m]) x = ops_got lg g x ++ [o]) as Hops by (by rewrite (ops_got_snoc _ _ _ _ _ _ Hp), decide_True, Hgot).
  pose proof (oz_ops_ok lg' (g ++ [m]) x Hlg) as Hok. rewrite Hops in Hok, Hints.
  destruct (oz_elem_effect _ e _ o Hat Htime Hok Hints) as (e' & new & Heff & Hcur' & Hn & Hat' & Hsc).
  pose proof (oz_entries T lg i s g els es Hv Hel) as Hes. pose proof (got_length g _ Hnd Hin) as Hg.
  assert (length new * S (length es + length new) <= oz_per_step)%nat as Hcost.
  { unfold oz_per_step. transitivity (1 * S (T + 1))%nat; [apply Nat.mul_le_mono; lia|lia]. }
  replace (TT - T)%nat with (S (TT - S T)) in Hd by lia. cbn [Nat.mul] in Hd.
  exists e', new. split_and!; [done| |].
  - split; [lia|lia|]. intros sc Hin1 _. destruct (Hsc sc Hin1) as (z & -> & Hz). by apply prints_back_Z.
  - intros s' es' [Hconf Hv' _ Hdr] Hf. pose proof Hconf as (Hc' & Hid' & Hl' & _). split; try congruence; try done.
    exists (<[x := e']> els), es'. split_and!; [done|lia|]. intros y. unfold oz_elem_ok. rewrite (Hf y).
    destruct (decide (y = x)) as [->|Hne].
    + exists e'. unfold QueueSpec.found. rewrite lookup_insert_eq, Hops. split_and!; try done; [lia|lia|congruence|]. rewrite Hcur'. exact Hown.
    + destruct (Hel y) as (e2 & H1 & H2 & H3 & H3' & H4). exists e2. rewrite (ops_got_snoc _ _ _ _ _ _ Hp), decide_False, app_nil_r, Hgot by done.
      split_and!; [|done|lia|lia|done|]; [unfold QueueSpec.found in *; by rewrite lookup_insert_ne|].
      intros k t v Hk Hi. destruct (H4 k t v) as [? ?]; [by apply Hoth|done|]. split; [done|]. apply elem_of_app. by left.
Qed.
End Message.
(** ** Accepted operations *)

Lemma oz_log_snoc lg l x o :
  oz_log_ok lg -> oz_entry l -> oz_parse l = Some (x, o) ->
  (forall t v k v', o = OzAdd t v -> parsed lg k = Some (x, OzAdd t v') -> False) ->
  (forall ts v t, o = OzIncr ts v -> t ∈ ts -> exists k w, parsed lg k = Some (x, OzAdd t w)) -> oz_log_ok (lg ++ [l]).
Proof.
  intros [Hent Hadd Hnam] Hl Hp Hnew Hincr. split; [apply Forall_app; split; [done|by constructor]|..].
  - intros y k k' t v v' Hk Hk'.
    destruct (parsed_snoc _ _ _ _ _ _ _ Hp Hk) as [Hk1|(-> & -> & <-)], (parsed_snoc _ _ _ _ _ _ _ Hp Hk') as [Hk1'|(-> & ? & Ho)]; try done.
    + by eapply Hadd.
    + subst. destruct (Hnew _ _ _ _ eq_refl Hk1).
    + destruct (Hnew _ _ _ _ eq_refl Hk1').
  - assert (forall y k t w, parsed lg k = Some (y, OzAdd t w) -> parsed (lg ++ [l]) k = Some (y, OzAdd t w)) as Hmono.
    { intros y k t w Hk. rewrite parsed_app; [done|by eapply parsed_lt]. }
    intros y k ts v t Hk Ht. destruct (parsed_snoc _ _ _ _ _ _ _ Hp Hk) as [Hk1|(-> & -> & <-)].
    + destruct (Hnam _ _ _ _ _ Hk1 Ht) as (k' & w & ?). exists k', w. by apply Hmono.
    + destruct (Hincr _ _ _ eq_refl Ht) as (k' & w & ?). exists k', w. by apply Hmono.
Qed.

Section Accepted.
Context (T : nat) (lg : list (list string)) (i : nat) (g : list nat) (x : string) (e : oze) (mir : option double) (u : quser) (o : oz_op) (e1 : oze).
Context (HT : (T < TT)%nat) (Hi : (i < N)%nat) (Hlg : oz_log_ok lg) (Hat : oz_elem_at (ops_got lg g x) e mir).
Context (Hcur : 0 <= oz_current e <= Z.of_nat T).
Context (Hcnt : oz_current e = Z.of_nat (own_adds i (ops_got lg g x))).
Context (Hown : forall k t v, parsed lg k = Some (x, OzAdd t v) -> lid t = Z.of_nat i -> lx t < oz_current e /\ k ∈ g).
Context (Hu : oz_user (Z.of_nat i) e u = Some (o, e1)).

Lemma oz_accepted_ok :
  op_ok o /\ comes_in_time (ops_got lg g x) o /\ oz_elem_at (ops_got lg g x) e1 mir /\ 0 <= oz_current e1 <= Z.of_nat (S T) /\
  oz_current e <= oz_current e1 /\ oz_current e1 = Z.of_nat (own_adds i (ops_got lg g x ++ [o])) /\
  forall t v, o = OzAdd t v -> lid t = Z.of_nat i /\ lx t = oz_current e /\ oz_current e1 = oz_current e + 1.
Proof.
  destruct (oz_user_cases _ _ _ _ _ Hu) as [_ [(v & -> & ->)|(Htags & Hna & ->)]].
  - assert (oz_current (oz_new_tag (Z.of_nat i) e).2 = oz_current e + 1) as Hc1.
    { cbn. apply i32_id. unfold int_range, INT_MIN, INT_MAX in *. lia. }
    split_and!.
    + split; cbn [op_tags]; [|apply NoDup_singleton]. apply Forall_singleton. unfold wf_lc, INT_MAX in *. cbn. lia.
    + intros w (k & _ & Hk)%elem_of_ops_got. destruct (Hown k _ w Hk eq_refl) as [Hlt _]. cbn in Hlt. lia.
    + by apply oz_elem_tag.
    + lia.
    + lia.
    + lia.
    + rewrite own_adds_snoc, Hc1. cbn [own_add _lc_new lid]. rewrite bool_decide_true by lia. lia.
    + intros t w [= <- <-]. split_and!; [done|done|]. exact Hc1.
  - split_and!.
    + split; rewrite Htags; [|eapply oz_tags_nodup, Hat]. apply Forall_forall. intros t Ht. by eapply oz_elem_tags.
    + destruct o as [t v|ts v|ts]; [by destruct (Hna t v)| |done]. cbn in Htags |- *. subst ts. intros t Ht. by eapply oz_elem_tags.
    + done.
    + lia.
    + lia.
    + lia.
    + rewrite own_adds_snoc. destruct o as [t v|ts v|ts]; [by destruct (Hna t v)|cbn [own_add]; lia..].
    + intros t v ->. by destruct (Hna t v).
Qed.

Lemma oz_accepted_log :
  let l := oz_args K x u ++ (lcToSds <$> op_tags o) in
  oz_parse l = Some (x, o) /\ oz_log_ok (lg ++ [l]) /\
  forall k t v, parsed (lg ++ [l]) k = Some (x, OzAdd t v) -> lid t = Z.of_nat i ->
    lx t < oz_current e1 /\ k ∈ g ++ [length lg].
Proof.
  destruct oz_accepted_ok as (Hok & Htime & _ & _ & Hle & _ & Hadd). intros l. pose proof (oz_parse_user K x u _ e o e1 Hu (proj1 Hok)) as Hp. fold l in Hp.
  split_and!; [done| |].
  - eapply oz_log_snoc; [done| |exact Hp| |].
    + exists x, u, (Z.of_nat i), e, o, e1. by split_and!.
    + intros t v k v' Ho Hk. destruct (Hadd t v Ho) as (Hid & Hx & _). destruct (Hown k t v' Hk Hid) as [Hlt _]. lia.
    + intros ts v t -> Ht. destruct (Htime t Ht) as (w & (k & _ & Hk)%elem_of_ops_got). by exists k, w.
  - intros k t v Hk Hid. destruct (parsed_snoc _ _ _ _ _ _ _ Hp Hk) as [Hk1|(-> & _ & Ho)].
    + destruct (Hown k t v Hk1 Hid) as [Hlt Hin]. split; [lia|]. apply elem_of_app. by left.
    + destruct (Hadd t v (eq_sym Ho)) as (_ & -> & ->). split; [lia|]. apply elem_of_app. right. by apply list_elem_of_singleton.
Qed.
End Accepted.

(** ** Steps of the system *)

Lemma oz_replica_mono T lg i s g : oz_replica T lg i s g -> oz_replica (S T) lg i s g.
Proof.
  intros [? ? ? ? ? (els & es & ? & ? & Hel)]. split; try done. exists els, es. split_and!; try done.
  - etrans; [|done]. apply Nat.mul_le_mono_r. lia.
  - intros x. destruct (Hel x) as (e & ? & ? & ? & ? & ?). exists e. split_and!; try done; lia.
Qed.

(** A message of another replica does not concern this one yet. *)
Lemma oz_replica_log T lg i s g l x o :
  oz_replica T lg i s g -> oz_parse l = Some (x, o) -> (forall t v, o = OzAdd t v -> lid t <> Z.of_nat i) -> oz_replica T (lg ++ [l]) i s g.
Proof.
  intros [? ? ? ? Hin (els & es & ? & ? & Hel)] Hp Hne. split; try done.
  - eapply Forall_impl; [exact Hin|]. intros m Hm. cbn beta in *. rewrite length_app. lia.
  - exists els, es. split_and!; try done. intros y. destruct (Hel y) as (e & H1 & H2 & H3 & H3' & H4). exists e.
    rewrite ops_got_app by done. split_and!; try done; [lia|lia|]. intros k t v Hk Hid.
    destruct (parsed_snoc _ _ _ _ _ _ _ Hp Hk) as [Hk1|(_ & _ & Ho)]; [by eapply H4|]. by destruct (Hne t v).
Qed.

Lemma oz_sys_idle acts a st : oz_sys_ok acts st -> oz_sys_ok (acts ++ [a]) st.
Proof.
  intros [? ? ? Hlg Hv Hr]. split; try done; rewrite ?length_app, ?omap_app; cbn [length].
  - lia.
  - by apply sublist_inserts_r.
  - intros i s g Hs Hg. rewrite Nat.add_1_r. apply oz_replica_mono. by apply Hr.
Qed.

Lemma oz_got_ints acts lg g x :
  log_values lg `sublist_of` omap quser_value acts -> ints_below BOUND (omap quser_value acts) -> NoDup g ->
  Forall (fun m => m < length lg)%nat g -> ints_below BOUND (omap oz_op_value (ops_got lg g x)).
Proof.
  intros Hlv Hints Hnd Hin. eapply ints_below_sub; [|exact Hints]. etrans; [by apply values_got|by apply sublist_submseteq].
Qed.

(** What a step needs to know of a replica and an element. *)
Lemma oz_at acts st i s x :
  oz_sys_ok acts st -> servers st !! i = Some s ->
  exists g els es e, got st !! i = Some g /\ (i < N)%nat /\ oz_replica (length acts) (log st) i s g /\ 0 < p2p_count s /\
    cview s K els es /\ ((TT - length acts) * oz_per_step <= draws (rng s))%nat /\
    (forall y, oz_elem_ok (length acts) (log st) i g s els es y) /\
    found s els x = Ok e /\ oz_elem_at (ops_got (log st) g x) e (zscore x es) /\ 0 <= oz_current e <= Z.of_nat (length acts) /\
    oz_current e = Z.of_nat (own_adds i (ops_got (log st) g x)) /\
    (forall k t v, parsed (log st) k = Some (x, OzAdd t v) -> lid t = Z.of_nat i -> lx t < oz_current e /\ k ∈ g).
Proof.
  intros Hok Hs. pose proof (lookup_lt_Some _ _ _ Hs) as Hi. rewrite (os_servers _ _ Hok) in Hi.
  destruct (lookup_lt_is_Some_2 (got st) i) as [g Hg]; [by rewrite (os_got _ _ Hok)|].
  pose proof (os_replicas _ _ Hok i s g Hs Hg) as Hr. destruct (or_state _ _ _ _ _ Hr) as (els & es & Hv & Hd & Hel).
  destruct (Hel x) as (e & H1 & H2 & H3 & H3' & H4). exists g, els, es, e. split_and!; try done; try lia.
  rewrite (or_count _ _ _ _ _ Hr). lia.
Qed.

(** A replica that answered without changing an element. *)
Lemma oz_replica_same T lg i s s' g els es :
  oz_replica T lg i s g -> (forall y, oz_elem_ok T lg i g s els es y) -> ((TT - T) * oz_per_step <= draws (rng s))%nat ->
  moved s s' K els es es 0 -> oz_replica T lg i s' g.
Proof.
  intros [Hc Hi Hl ? ? _] Hel Hd [Hconf Hv _ Hdr]. pose proof Hconf as (Hc' & Hi' & Hl' & _).
  split; try congruence; try done. exists els, es. split_and!; [done|lia|]. exact Hel.
Qed.
Section Client.
Context (acts : list action) (st : sys) (i : nat) (x : string) (u : quser) (s : server E).
Context (Hok : oz_sys_ok acts st) (HT : (length acts < TT)%nat).
Context (Hints : ints_below BOUND (omap quser_value (acts ++ [Client i x u]))) (Hs : servers st !! i = Some s).

Lemma oz_tags_few g e mir :
  NoDup g -> Forall (fun m => m < length (log st))%nat g -> oz_elem_at (ops_got (log st) g x) e mir -> Z.of_nat (length (oz_tags e)) < 2 ^ 29.
Proof.
  intros Hnd Hin Hat. assert (length (oz_tags e) <= length g)%nat as Hle.
  { etrans; [|apply (ops_got_length (parse := oz_parse) (log st) g x)].
    transitivity (length (omap (fun o => match o with OzAdd t _ => Some t | _ => None end) (ops_got (log st) g x))).
    - apply submseteq_length, NoDup_submseteq; [eapply oz_tags_nodup, Hat|]. intros t Ht. destruct (oz_elem_tags _ _ _ _ Hat Ht) as [[v Hv] _].
      apply list_elem_of_omap. by exists (OzAdd t v).
    - clear. induction (ops_got (log st) g x) as [|o l IH]; [done|]. rewrite omap_cons_eq. destruct o; cbn [length]; lia. }
  pose proof (got_length g _ Hnd Hin). pose proof (os_len _ _ Hok). lia.
Qed.

(** What a replica does with a command of its client. *)
Lemma oz_client_issue :
  exists g e mir s' m, got st !! i = Some g /\ issue s (oz_args K x u) = Ok (s', m) /\
    oz_elem_at (ops_got (log st) g x) e mir /\ oz_current e = Z.of_nat (own_adds i (ops_got (log st) g x)) /\
    match oz_user (Z.of_nat i) e u with
    | None => m = None /\ oz_replica (length acts) (log st) i s' g
    | Some (o, e1) => exists l, m = Some l /\ oz_parse l = Some (x, o) /\ oz_log_ok (log st ++ [l]) /\
        oz_op_value o = quser_value (Client i x u) /\ (forall t v, o = OzAdd t v -> lid t = Z.of_nat i) /\
        oz_replica (S (length acts)) (log st ++ [l]) i s' (g ++ [length (log st)])
    end.
Proof.
  destruct (oz_at acts st i s x Hok Hs) as (g & els & es & e & Hg & Hi & Hr & Hm & Hv & Hd & Hel & He & Hat & Hcur & Hcnt & Hown).
  pose proof (or_in _ _ _ _ _ Hr) as Hin. pose proof (or_nodup _ _ _ _ _ Hr) as Hnd. pose proof (or_id _ _ _ _ _ Hr) as Hid.
  assert (length (log st) ∉ g) as Hlast.
  { intros Hl. rewrite Forall_forall in Hin. specialize (Hin _ Hl). cbn in Hin. lia. }
  assert (Hmsg : forall o e1, oz_user (p2p_id s) e u = Some (o, e1) ->
    exists e' new, oz_effect (e1, []) o = Ok (e', new) /\ acts_ok s es new /\
      forall s' es', moved s s' K (<[x := e']> els) es es' (length new) -> scores_follow es es' x new ->
        oz_replica (S (length acts)) (log st ++ [oz_args K x u ++ (lcToSds <$> op_tags o)]) i s' (g ++ [length (log st)])).
  { intros o e1 Hu. rewrite Hid in Hu.
    destruct (oz_accepted_ok _ _ _ _ _ _ _ _ _ _ HT Hi Hat Hcur Hcnt Hown Hu) as (Hop & Htime & Hat1 & Hcur1 & _ & Hcnt1 & _).
    destruct (oz_accepted_log _ _ _ _ _ _ _ _ _ _ HT Hi (os_log _ _ Hok) Hat Hcur Hcnt Hown Hu) as (Hp & Hlg' & Hown1). cbv zeta in *.
    set (l := oz_args K x u ++ _) in *.
    apply (oz_message (length acts) (log st) (log st ++ [l]) i s g els es x o (length (log st)) e1); try done.
    - apply (os_len _ _ Hok).
    - apply Hlg'.
    - rewrite length_app. lia.
    - intros y. by apply ops_got_app.
    - intros y k t v Hne Hk. destruct (parsed_snoc _ _ _ _ _ _ _ Hp Hk) as [?|(_ & ? & _)]; done.
    - by rewrite parsed_new.
    - destruct (got_snoc g (length (log st)) (length (log st ++ [l]))) as [Hnd' Hin']; try done.
      { eapply Forall_impl; [exact Hin|]. intros k Hk. cbn beta in *. rewrite length_app. lia. }
      { rewrite length_app. cbn. lia. }
      eapply oz_got_ints; [|exact Hints|done|done]. eapply log_values_new; [apply (os_values _ _ Hok)|exact Hp|].
      by destruct (oz_user_cases _ _ _ _ _ Hu) as [Hval _]. }
  destruct (oz_issue s x els es e u) as (s' & m & Hiss & Hcase); try done; [apply Hr|by eapply oz_tags_few| |].
  { intros o e1 Hu. destruct (Hmsg o e1 Hu) as (e' & new & H1 & H2 & _). rewrite Hid in Hu.
    destruct (oz_accepted_ok _ _ _ _ _ _ _ _ _ _ HT Hi Hat Hcur Hcnt Hown Hu) as ([Hw _] & _). eauto. }
  exists g, e, (zscore x es), s', m. split_and!; try done. rewrite <- Hid. destruct (oz_user (p2p_id s) e u) as [[o e1]|] eqn:Hu.
  - destruct Hcase as (e' & new & es' & -> & Heff & Hmv & Hsc). destruct (Hmsg o e1 eq_refl) as (e2 & new2 & H1 & _ & Hrep).
    assert (e2 = e' /\ new2 = new) as [-> ->] by (split; congruence). rewrite Hid in Hu.
    destruct (oz_accepted_ok _ _ _ _ _ _ _ _ _ _ HT Hi Hat Hcur Hcnt Hown Hu) as (_ & _ & _ & _ & _ & _ & Hadd).
    destruct (oz_accepted_log _ _ _ _ _ _ _ _ _ _ HT Hi (os_log _ _ Hok) Hat Hcur Hcnt Hown Hu) as (Hp & Hlg' & _).
    exists (oz_args K x u ++ (lcToSds <$> op_tags o)). split_and!; try done.
    + by destruct (oz_user_cases _ _ _ _ _ Hu) as [Hval _].
    + intros t v Ho. rewrite Hid. by destruct (Hadd t v Ho).
    + by eapply Hrep.
  - destruct Hcase as (-> & Hmv). split; [done|]. by eapply oz_replica_same.
Qed.

Lemma oz_step_client :
  exists st', sys_step st (Client i x u) = Ok st' /\ oz_sys_ok (acts ++ [Client i x u]) st'.
Proof.
  cbn [System.sys_step]. rewrite Hs. destruct oz_client_issue as (g & e & mir & s' & m & Hg & -> & _ & _ & Hcase). cbn [mbind res_bind].
  destruct (oz_user (Z.of_nat i) e u) as [[o e1]|].
  - destruct Hcase as (l & -> & Hp & Hlg & Hval & Hid & Hrep). eexists. split; [done|]. destruct Hok as [Hsv Hgt Hlen _ Hvals Hreps].
    split; cbn [servers got log].
    + by rewrite length_insert.
    + by rewrite length_alter.
    + rewrite !length_app. cbn [length]. lia.
    + done.
    + by eapply log_values_new.
    + intros j sj gj Hsj Hgj. rewrite (alter_update _ _ _ _ Hg) in Hgj. rewrite length_app, Nat.add_1_r.
      destruct (lookup_update _ _ _ _ _ Hsj) as [[-> ->]|[Hne Hsj']], (lookup_update _ _ _ _ _ Hgj) as [[? ->]|[? Hgj']]; try done.
      apply oz_replica_mono. eapply oz_replica_log; [by apply Hreps|exact Hp|]. intros t v Ho. rewrite (Hid t v Ho). lia.
  - destruct Hcase as [-> Hrep]. eexists. split; [done|]. apply oz_sys_idle. destruct Hok as [Hsv Hgt Hlen Hlg Hval Hreps].
    split; cbn [servers got log]; try done; [by rewrite length_insert|].
    intros j sj gj Hsj Hgj. destruct (lookup_update _ _ _ _ _ Hsj) as [[-> ->]|[Hne Hsj']]; [|by apply Hreps].
    by assert (gj = g) as -> by congruence.
Qed.
End Client.

(** Deliveries that respect what increments depend on. *)
Definition oz_deliverable (st : sys) (a : action) : bool :=
  match a with
  | Deliver j m =>
      match parsed (log st) m, got st !! j with
      | Some (x, OzIncr ts _), Some g =>
          forallb (fun k => match parsed (log st) k with
                            | Some (y, OzAdd t _) => if decide (y = x /\ t ∈ ts) then bool_decide (k ∈ g) else true
                            | _ => true
                            end) (seq 0 (length (log st)))
      | _, _ => true
      end
  | Client _ _ _ => true
  end.

Fixpoint oz_in_time (st : sys) (l : list action) : bool :=
  match l with
  | [] => true
  | a :: l => oz_deliverable st a && match sys_step st a with Ok st' => oz_in_time st' l | Crash _ => true end
  end.

Lemma oz_deliverable_in_time st j m g x o :
  oz_log_ok (log st) -> oz_deliverable st (Deliver j m) = true -> got st !! j = Some g -> parsed (log st) m = Some (x, o) -> m ∉ g ->
  comes_in_time (ops_got (log st) g x) o.
Proof.
  intros Hlg Hd Hg Hp Hm. destruct o as [t v|ts v|ts]; cbn [comes_in_time]; [| |done].
  - intros w (k & Hk & Hpk)%elem_of_ops_got. by assert (k = m) as -> by (by eapply (ol_adds _ Hlg)).
  - intros t Ht. destruct (ol_named _ Hlg _ _ _ _ _ Hp Ht) as (k & w & Hk). exists w. apply elem_of_ops_got. exists k. split; [|done].
    cbn [oz_deliverable] in Hd. rewrite Hp, Hg in Hd. rewrite forallb_forall in Hd. specialize (Hd k). rewrite Hk in Hd.
    rewrite decide_True in Hd by done. apply (bool_decide_unpack _). rewrite Hd; [done|]. apply in_seq. pose proof (parsed_lt _ _ _ Hk). lia.
Qed.

(** A message that is not executed yet is not an add of the replica's own. *)
Lemma oz_foreign acts st j m s g x o :
  oz_sys_ok acts st -> servers st !! j = Some s -> got st !! j = Some g -> parsed (log st) m = Some (x, o) -> m ∉ g -> own_add j o = false.
Proof.
  intros Hok Hs Hg Hp Hmg. destruct (own_add j o) eqn:Hw; [|done]. exfalso. destruct o as [t v|ts v|ts]; [|done..].
  cbn [own_add] in Hw. apply bool_decide_eq_true in Hw.
  destruct (oz_at acts st j s x Hok Hs) as (g' & els & es & e & Hg' & _ & _ & _ & _ & _ & _ & _ & _ & _ & _ & Hown).
  assert (g' = g) as -> by congruence. assert (op_ok (OzAdd t v)) as [Hwf _].
  { pose proof (oz_ops_ok (log st) [m] x (ol_entries _ (os_log _ _ Hok))) as Hf. rewrite Forall_forall in Hf. apply Hf, elem_of_ops_got.
    exists m. split; [by left|done]. }
  apply Forall_cons in Hwf as [Hwf _]. unfold wf_lc in Hwf. destruct (Hown m t v Hp); [lia|done].
Qed.

(** What a replica does with a message. *)
Lemma oz_deliver_message acts st j m s l g :
  oz_sys_ok acts st -> (length acts < TT)%nat -> ints_below BOUND (omap quser_value acts) -> oz_deliverable st (Deliver j m) = true ->
  servers st !! j = Some s -> log st !! m = Some l -> got st !! j = Some g -> m ∉ g ->
  exists s', receive s l = Ok s' /\ oz_replica (S (length acts)) (log st) j s' (g ++ [m]).
Proof.
  intros Hok HT Hints Hdel Hs Hl Hg Hmg.
  destruct (Forall_lookup_1 _ _ _ _ (ol_entries _ (os_log _ _ Hok)) Hl) as (x & u & id & e0 & o & e1 & -> & Hu & Hop).
  destruct (oz_at acts st j s x Hok Hs) as (g' & els & es & e & Hg' & Hi & Hr & Hm & Hv & Hd & Hel & He & Hat & Hcur & Hcnt & Hown).
  assert (g' = g) as -> by congruence. pose proof (lookup_lt_Some _ _ _ Hl) as Hml.
  assert (parsed (log st) m = Some (x, o)) as Hp by (unfold System.parsed; rewrite Hl; by eapply oz_parse_user, Hop).
  destruct (oz_message (length acts) (log st) (log st) j s g els es x o m e) as (e' & new & Heff & Hok' & Hrep); try done.
  { apply (os_len _ _ Hok). }
  { lia. }
  { rewrite own_adds_snoc, (oz_foreign acts st j m s g x o) by done. lia. }
  { apply (os_log _ _ Hok). }
  { intros k t v Hk Hw. destruct (Hown k t v Hk Hw). split; [done|]. apply elem_of_app. by left. }
  { by eapply oz_deliverable_in_time; [apply (os_log _ _ Hok)|..]. }
  { destruct (got_snoc g m (length (log st)) (or_nodup _ _ _ _ _ Hr) (or_in _ _ _ _ _ Hr) Hmg Hml).
    eapply oz_got_ints; [apply (os_values _ _ Hok)|done..]. }
  destruct (oz_receive_msg s x els es e e' new u id e0 e1 o) as (s' & es' & -> & Hmv & Hsc); try done; [apply Hop|].
  exists s'. split; [done|]. by eapply Hrep.
Qed.

Lemma oz_step_deliver acts st j m :
  oz_sys_ok acts st -> (length acts < TT)%nat -> ints_below BOUND (omap quser_value acts) -> oz_deliverable st (Deliver j m) = true ->
  exists st', sys_step st (Deliver j m) = Ok st' /\ oz_sys_ok (acts ++ [Deliver j m]) st'.
Proof.
  intros Hok HT Hints Hdel. cbn [System.sys_step].
  destruct (servers st !! j) as [s|] eqn:Hs; [|eexists; split; [done|by apply oz_sys_idle]].
  destruct (log st !! m) as [l|] eqn:Hl; [|eexists; split; [done|by apply oz_sys_idle]].
  destruct (got st !! j) as [g|] eqn:Hg; [|eexists; split; [done|by apply oz_sys_idle]].
  case_decide as Hmg; [eexists; split; [done|by apply oz_sys_idle]|].
  destruct (oz_deliver_message acts st j m s l g) as (s' & -> & Hrep); try done. cbn [mbind res_bind]. eexists. split; [done|].
  pose proof (oz_sys_idle acts (Deliver j m) st Hok) as [Hsv Hgt Hlen Hlg Hval Hreps].
  split; cbn [servers got log]; try done; [by rewrite length_insert..|].
  intros i si gi Hsi Hgi. destruct (lookup_update _ _ _ _ _ Hsi) as [[-> ->]|[Hne Hsi']], (lookup_update _ _ _ _ _ Hgi) as [[? ->]|[? Hgi']]; try done.
  - by rewrite length_app, Nat.add_1_r.
  - by apply Hreps.
Qed.
(** ** Runs *)

Lemma oz_step_ok acts a st :
  oz_sys_ok acts st -> (length acts < TT)%nat -> ints_below BOUND (omap quser_value (acts ++ [a])) -> oz_deliverable st a = true ->
  exists st', sys_step st a = Ok st' /\ oz_sys_ok (acts ++ [a]) st'.
Proof.
  intros Hok HT Hints Hdel. destruct a as [i x u|j m].
  - destruct (servers st !! i) as [s|] eqn:Hs; [by eapply oz_step_client|].
    exists st. cbn [System.sys_step]. rewrite Hs. split; [done|by apply oz_sys_idle].
  - apply oz_step_deliver; try done. eapply ints_below_sub; [|exact Hints]. rewrite omap_app. by apply submseteq_inserts_r.
Qed.

Lemma oz_run_ok acts' : forall acts st,
  oz_sys_ok acts st -> (length (acts ++ acts') <= TT)%nat -> ints_below BOUND (omap quser_value (acts ++ acts')) ->
  oz_in_time st acts' = true -> exists st', sys_run st acts' = Ok st' /\ oz_sys_ok (acts ++ acts') st'.
Proof.
  induction acts' as [|a acts' IH]; intros acts st Hok Hlen Hints Htime; [exists st; by rewrite app_nil_r|].
  replace (a :: acts') with ([a] ++ acts') in Hlen, Hints |- * by done. rewrite app_assoc in Hlen, Hints |- *.
  cbn [oz_in_time] in Htime. apply andb_true_iff in Htime as [Hdel Htime].
  destruct (oz_step_ok acts a st Hok) as (st1 & Hst & Hok1); [| |done|].
  { rewrite !length_app in Hlen. cbn in Hlen. lia. }
  { eapply ints_below_sub; [|exact Hints]. rewrite (omap_app _ (acts ++ [a])). by apply submseteq_inserts_r. }
  rewrite Hst in Htime. destruct (IH (acts ++ [a]) st1 Hok1 Hlen Hints Htime) as (st2 & Hrun & Hok2). exists st2. split; [|done].
  unfold System.sys_run in *. cbn [app foldM]. by rewrite Hst.
Qed.

Lemma oz_init_ok cfg rss :
  length rss = N -> Forall (fun rs => TT * oz_per_step <= draws rs)%nat rss -> oz_sys_ok [] (sys_init cfg rss).
Proof.
  intros Hn Hd. unfold sys_init. split; cbn [servers got log]; try done.
  - by rewrite length_imap.
  - by rewrite length_replicate.
  - intros i s g Hs Hg. rewrite list_lookup_imap in Hs. destruct (rss !! i) as [rs|] eqn:Hrs; [|done].
    cbn in Hs. injection Hs as <-. apply lookup_replicate in Hg as [-> Hi]. rewrite Hn in Hi.
    split; cbn [boot p2p_count p2p_id replicas]; try done; [by rewrite Hn|constructor|].
    exists ∅, []. split_and!.
    + split; [done|done|]. intros p [c Hc]. done.
    + cbn [length]. rewrite Nat.sub_0_r. by apply (Forall_lookup_1 _ _ _ _ Hd Hrs).
    + intros x. exists ozeNew. split_and!; [done|apply oz_elem_new|cbn; lia..|done|]. by intros k t v Hk.
Qed.

(** ** Answers *)

Lemma oz_answers acts st i j si sj gi gj x :
  oz_sys_ok acts st -> ints_below BOUND (omap quser_value acts) ->
  servers st !! i = Some si -> servers st !! j = Some sj -> got st !! i = Some gi -> got st !! j = Some gj -> gi ≡ₚ gj ->
  exists m m', ask ozscoreCommand "ozscore" K si x = Ok [score_reply m] /\
    ask ozscoreCommand "ozscore" K sj x = Ok [score_reply m'] /\ same_score m m'.
Proof.
  intros Hok Hints Hsi Hsj Hgi Hgj Hp.
  destruct (oz_at acts st i si x Hok Hsi) as (g1 & els1 & es1 & e1 & Hg1 & Hi & Hr1 & _ & Hv1 & _ & _ & _ & Hat1 & _).
  destruct (oz_at acts st j sj x Hok Hsj) as (g2 & els2 & es2 & e2 & Hg2 & Hj & Hr2 & _ & Hv2 & _ & _ & _ & Hat2 & _).
  assert (g1 = gi) as -> by congruence. assert (g2 = gj) as -> by congruence.
  exists (zscore x es1), (zscore x es2). split_and!; [by eapply ask_view|by eapply ask_view|].
  eapply oz_elems_agree; [exact Hat1|exact Hat2|by apply perm_got| | |].
  - intros t v v' (k & _ & Hk)%elem_of_ops_got (k' & _ & Hk')%elem_of_ops_got.
    assert (k = k') as <- by (by eapply (ol_adds _ (os_log _ _ Hok))). congruence.
  - apply oz_ops_ok, (os_log _ _ Hok).
  - eapply oz_got_ints; [apply (os_values _ _ Hok)|done|apply Hr1|apply Hr1].
Qed.
End System.

(** ** Runs from the start *)

Definition oz_run_sys {E} `{!Cell oze E} (K : string) : sys E -> list (action quser) -> res (sys E) :=
  sys_run oz_table (oz_args K).
Definition oz_ask {E} (K : string) : server E -> string -> res (list reply) := ask ozscoreCommand "ozscore" K.

Section Runs.
Context {E : Type} `{!Cell oze E}.

(** A run on [rss], the random numbers of each replica: increments arrive after
    the adds they name, the tags do not overflow, the values sent are integers
    that are added and printed exactly, and every replica has random numbers
    for its insertions. *)
Record oz_good_run (K : string) (cfg : zset_config) (rss : list (list Z)) (acts : list (action quser)) : Prop := {
  og_replicas : (0 < length rss)%nat /\ Z.of_nat (length rss) <= INT_MAX;
  og_length : Z.of_nat (length acts) + 2 < 2 ^ 29;
  og_values : ints_below BOUND (omap quser_value acts);
  og_draws : Forall (fun rs => length acts * oz_per_step (length acts) <= draws rs)%nat rss;
  og_time : oz_in_time K (sys_init (E := E) cfg rss) acts = true
}.

Lemma oz_good_run_ok K cfg rss acts :
  oz_good_run K cfg rss acts ->
  exists st : sys E, oz_run_sys K (sys_init cfg rss) acts = Ok st /\ oz_sys_ok K (length rss) (length acts) acts st.
Proof.
  intros [Hn Hl Hv Hd Ht]. apply (oz_run_ok K (length rss) (length acts) Hn Hl acts []); [by apply oz_init_ok|done|done|done].
Qed.


End Runs.

(** ** A concrete run *)

(** Replicas 0 and 1 add the element at the same time, replica 1 sees both adds
    and increments, replica 0 removes what it knew; replica 2 receives the
    remove before the add. *)
Definition oz_sample : list (action quser) :=
  [Client 0 "a" (QAdd "5"); Client 1 "a" (QAdd "7"); Deliver 1 0; Client 1 "a" (QIncr "2"); Client 0 "a" QRem;
   Deliver 0 1; Deliver 0 2; Deliver 2 3; Deliver 2 1; Deliver 2 0; Deliver 2 2; Deliver 1 3].
Definition oz_sample_draws : list (list Z) := replicate 3 (replicate 160 65535).
Definition oz_sample_end : res (sys oze) := oz_run_sys "q" (sys_init (mkZcfg 128 64) oz_sample_draws) oz_sample.

Lemma oz_sample_good : oz_good_run (E := oze) "q" (mkZcfg 128 64) oz_sample_draws oz_sample.
Proof.
  split.
  - unfold INT_MAX. cbn. lia.
  - cbn. lia.
  - assert (omap quser_value oz_sample = [double_of_Z 5; double_of_Z 7; double_of_Z 2]) as -> by (by vm_compute).
    split; [|by vm_compute]. repeat (apply Forall_cons; split; [by vm_compute|]). done.
  - apply Forall_replicate. apply Nat.leb_le. vm_compute. reflexivity.
  - vm_compute. reflexivity.
Qed.


Lemma oz_sample_got :
  exists st, oz_sample_end = Ok st /\ length (servers st) = 3%nat /\ got st = [[0; 3; 1; 2]; [1; 0; 2; 3]; [3; 1; 0; 2]]%nat.
Proof. apply (res_ok_with oz_sample_end (fun st => length (servers st) = 3%nat /\ got st = _)). vm_compute. done. Qed.

