(* ===== verification/OzRefine.v ===== *)
(** * The servers of the add-win queue implement the TLA+ specification

    Every run of the servers is, for each element, a run of the specification of
    [TlaAddwin]: the adds and removes an element knows are those of its process,
    the messages in flight are the specification's, and OZSCORE answers from the
    records of the process. *)

From S2P Require Import Prelude Sds LamportClock Double Exact OZset OzMirror Util Score Skiplist SkiplistSpec.
From S2P Require Import Zset ZsetSpec Store Crdt Container RwfzCmd P2P System QueueSpec OzCmd OzSpec OzSystem TlaNet TlaSim TlaAddwin.

Module A := AddwinRpq.

#[local] Arguments sdsToLc : simpl never.
#[local] Arguments getDoubleFromObject : simpl never.

(** ** The refinement mapping

    Process numbers from 1, values as integers. *)
Definition abs_tag (t : lc) : nat * nat := (S (Z.to_nat (lid t)), Z.to_nat (lx t)).

Definition abs_oz (o : oz_op) : A.payload :=
  match o with
  | OzAdd t v => A.PAdd (to_Z v) (abs_tag t)
  | OzIncr ts v => A.PInc (to_Z v) (list_to_set (abs_tag <$> ts))
  | OzRem ts => A.PRem (list_to_set (abs_tag <$> ts))
  end.

Lemma abs_tag_inj t u : wf_lc t -> wf_lc u -> abs_tag t = abs_tag u -> t = u.
Proof. unfold wf_lc, abs_tag. intros Ht Hu [= H1 H2]. apply lc_eq_iff. lia. Qed.

Lemma abs_tags_in t ts : wf_lc t -> Forall wf_lc ts -> abs_tag t ∈ (list_to_set (abs_tag <$> ts) : gset (nat * nat)) <-> t ∈ ts.
Proof.
  intros Ht Hts. rewrite elem_of_list_to_set, list_elem_of_fmap. rewrite Forall_forall in Hts. split.
  - intros (u & Heq & Hu). by rewrite (abs_tag_inj t u) by auto.
  - intros H. by exists t.
Qed.

(** ** The records of a process

    What the steps [m] leave for a tag. *)
Definition rec_of (m : list oz_micro) (t : lc) : A.rcd :=
  A.mkRcd (from_option to_Z 0 (x_of m t)) (isum (incs_of m t)) (weight m t).

Lemma rec_of_untouched m t : ~ touched m t -> rec_of m t = A.mkRcd 0 0 0.
Proof. intros H. destruct (untouched_entry m t H) as [Hx Hi]. unfold rec_of, weight. by rewrite Hx, Hi. Qed.

Lemma rec_of_add m u v t :
  rec_of (m ++ [MAdd u v]) t =
    if decide (t = u) then A.mkRcd (to_Z v) (A.v_acq (rec_of m u)) (A.change (rec_of m u)) else rec_of m t.
Proof.
  unfold rec_of, weight, x_of, incs_of. rewrite foldl_app, omap_app. cbn [foldl x_step omap list_omap inc_of]. rewrite app_nil_r.
  destruct (decide (t = u)) as [->|Hne]; [by rewrite decide_True|by rewrite decide_False].
Qed.

Lemma x_of_incrs m ts v t : x_of (m ++ ((fun u => MIncr u v) <$> ts)) t = x_of m t.
Proof. unfold x_of. rewrite foldl_app. generalize (foldl (x_step t) None m). intros acc. by induction ts. Qed.

Lemma rec_of_incr m ts v t :
  NoDup ts -> rec_of (m ++ ((fun u => MIncr u v) <$> ts)) t = if decide (t ∈ ts) then A.raised (to_Z v) (rec_of m t) else rec_of m t.
Proof.
  intros Hnd. unfold rec_of, weight. rewrite x_of_incrs.
  assert (incs_of (m ++ ((fun u => MIncr u v) <$> ts)) t = incs_of m t ++ if decide (t ∈ ts) then [v] else []) as ->.
  { unfold incs_of at 1. rewrite omap_app. f_equal. by apply incs_one. }
  case_decide; [|by rewrite app_nil_r]. by rewrite isum_snoc, iabs_snoc.
Qed.

Lemma rec_of_rem m ts t : rec_of (m ++ (MRem <$> ts)) t = rec_of m t.
Proof.
  unfold rec_of, weight, x_of, incs_of. rewrite foldl_app, omap_app.
  assert (forall acc, foldl (x_step t) acc (MRem <$> ts) = acc) as -> by (intros acc; by induction ts).
  assert (omap (inc_of t) (MRem <$> ts) = []) as -> by (by induction ts). by rewrite app_nil_r.
Qed.

Lemma touched_app m m' t : touched (m ++ m') t <-> touched m t \/ touched m' t.
Proof. apply Exists_app. Qed.

Lemma touched_incrs ts v t : touched ((fun u => MIncr u v) <$> ts) t <-> t ∈ ts.
Proof.
  unfold touched. rewrite Exists_exists. split.
  - intros (s & (u & -> & Hu)%list_elem_of_fmap & Hs). by subst u.
  - intros H. exists (MIncr t v). split; [|done]. apply list_elem_of_fmap. by exists t.
Qed.

Lemma touched_rems ts t : ~ touched (MRem <$> ts) t.
Proof. unfold touched. rewrite Exists_exists. by intros (s & (u & -> & Hu)%list_elem_of_fmap & Hs). Qed.

(** The two sets of a process that executed the operations [l]. *)
Record sets_of (m : list oz_micro) (s : A.aset * gset (nat * nat)) : Prop := {
  so_records : forall t, wf_lc t -> s.1 !! abs_tag t = if decide (touched m t) then Some (rec_of m t) else None;
  so_removed : forall t, wf_lc t -> abs_tag t ∈ s.2 <-> MRem t ∈ m;
  so_tags : forall tag, tag ∈ dom s.1 \/ tag ∈ s.2 -> exists t, wf_lc t /\ tag = abs_tag t
}.

Lemma sets_of_element m s t : sets_of m s -> wf_lc t -> A._Element s.1 (abs_tag t) = rec_of m t.
Proof.
  intros Hs Ht. unfold A._Element. rewrite (so_records _ _ Hs t Ht). case_decide; [done|]. cbn. by rewrite rec_of_untouched.
Qed.

Lemma rem_in_fmap t (ts : list lc) : MRem t ∈ (MRem <$> ts) <-> t ∈ ts.
Proof.
  rewrite list_elem_of_fmap. split; [by intros (u & [= ->] & ?)|]. intros H. by exists t.
Qed.

Lemma sets_of_add m s u v : sets_of m s -> wf_lc u -> sets_of (m ++ [MAdd u v]) (A.upd s (A.PAdd (to_Z v) (abs_tag u))).
Proof.
  intros Hs Hu. pose proof Hs as [Hrec Hrem Htag]. split; cbn [A.upd fst snd].
  - intros t Ht. rewrite A.lookup_Add, (sets_of_element m s u Hs Hu), rec_of_add. destruct (decide (t = u)) as [->|Hne].
    + rewrite decide_True by done. rewrite decide_True; [done|]. apply touched_app. right. by constructor.
    + rewrite decide_False by (intros Heq; by apply Hne, abs_tag_inj). rewrite Hrec by done. apply decide_ext. rewrite touched_app.
      split; [by left|]. intros [?|Hx]; [done|]. apply Exists_cons in Hx as [Hx|Hx%Exists_nil]; [by subst|done].
  - intros t Ht. rewrite Hrem by done. rewrite elem_of_app. split; [by left|]. intros [?|Hx%list_elem_of_singleton]; done.
  - intros tag [Hx|Hx]; [|apply Htag; by right]. unfold A.Add in Hx. rewrite dom_insert, elem_of_union, elem_of_singleton in Hx.
    destruct Hx as [->|Hx]; [by exists u|apply Htag; by left].
Qed.

Lemma sets_of_incr m s ts v :
  sets_of m s -> Forall wf_lc ts -> NoDup ts ->
  sets_of (m ++ ((fun u => MIncr u v) <$> ts)) (A.upd s (A.PInc (to_Z v) (list_to_set (abs_tag <$> ts)))).
Proof.
  intros Hs Hts Hnd. pose proof Hs as [Hrec Hrem Htag].
  assert (forall t, wf_lc t -> A.Increase s.1 (to_Z v) (list_to_set (abs_tag <$> ts)) !! abs_tag t =
    if decide (t ∈ ts) then Some (A.raised (to_Z v) (rec_of m t)) else s.1 !! abs_tag t) as Hinc.
  { intros t Ht. rewrite A.lookup_Increase, (sets_of_element m s t Hs Ht). apply decide_ext. by apply abs_tags_in. }
  split; cbn [A.upd fst snd].
  - intros t Ht. rewrite Hinc, rec_of_incr by done. destruct (decide (t ∈ ts)) as [Hin|Hn].
    + rewrite decide_True; [done|]. apply touched_app. right. by apply touched_incrs.
    + rewrite Hrec by done. apply decide_ext. rewrite touched_app, touched_incrs. tauto.
  - intros t Ht. rewrite Hrem by done. rewrite elem_of_app. split; [by left|]. intros [?|(? & ? & _)%list_elem_of_fmap]; done.
  - intros tag [Hx|Hx]; [|apply Htag; by right]. apply elem_of_dom in Hx as [r Hx]. rewrite A.lookup_Increase in Hx. case_decide as Hd.
    + apply elem_of_list_to_set, list_elem_of_fmap in Hd as (t & -> & Ht). rewrite Forall_forall in Hts. by exists t; auto.
    + apply Htag. left. by apply elem_of_dom.
Qed.

Lemma sets_of_rem m s ts :
  sets_of m s -> Forall wf_lc ts -> sets_of (m ++ (MRem <$> ts)) (A.upd s (A.PRem (list_to_set (abs_tag <$> ts)))).
Proof.
  intros [Hrec Hrem Htag] Hts. split; cbn [A.upd fst snd]; unfold A.Remove.
  - intros t Ht. rewrite Hrec, rec_of_rem by done. apply decide_ext. rewrite touched_app. pose proof (touched_rems ts t). tauto.
  - intros t Ht. rewrite elem_of_union, elem_of_app, Hrem, abs_tags_in, rem_in_fmap by done. done.
  - intros tag [Hx|Hx]; [apply Htag; by left|]. apply elem_of_union in Hx as [Hx|Hx]; [apply Htag; by right|].
    apply elem_of_list_to_set, list_elem_of_fmap in Hx as (t & -> & Ht). rewrite Forall_forall in Hts. by exists t; auto.
Qed.

Lemma sets_of_ops l : Forall op_ok l -> sets_of (steps_of l) (foldl A.upd (∅, ∅) (abs_oz <$> l)).
Proof.
  induction l as [|o l IH] using rev_ind; intros Hl.
  - split; cbn [fst snd foldl fmap list_fmap].
    + intros t Ht. rewrite lookup_empty, decide_False; [done|]. by intros ?%Exists_nil.
    + intros t Ht. split; [set_solver|by intros ?%elem_of_nil].
    + intros tag. set_solver.
  - apply Forall_app in Hl as [Hl Ho]. apply Forall_cons in Ho as [[Hw Hnd] _]. rewrite steps_of_snoc, fmap_app, foldl_app. cbn [fmap list_fmap foldl].
    destruct o as [u v|ts v|ts]; cbn [micros abs_oz op_tags] in *.
    + apply sets_of_add; [by apply IH|by apply Forall_cons in Hw as [? _]].
    + apply sets_of_incr; [by apply IH|done|done].
    + apply sets_of_rem; [by apply IH|done].
Qed.

(** ** Requests *)

Definition oz_request (u : quser) : option A.request :=
  match u with
  | QAdd a => A.RAdd ∘ to_Z <$> getDoubleFromObject a
  | QIncr a => A.RInc ∘ to_Z <$> getDoubleFromObject a
  | QRem => Some A.RRem
  end.

Lemma oz_request_refused id e u : oz_request u = None -> oz_user id e u = None.
Proof. destruct u as [a|a|]; cbn; [destruct (getDoubleFromObject a)..|]; done. Qed.

(** The states of process [i] after the operations [l]. *)
Definition oz_runs (i : nat) (l : list oz_op) (s : A.local) : Prop :=
  A.sets s = foldl A.upd (∅, ∅) (abs_oz <$> l) /\ A.num s = own_adds i l.

Lemma oz_runs_own i l s r o : oz_runs i l s -> A.prepare s i r = Some (abs_oz o) -> oz_runs i (l ++ [o]) (A.own s (abs_oz o)).
Proof.
  intros [Hs Hn] Hp. split.
  - rewrite fmap_app, foldl_app. cbn [fmap list_fmap foldl]. rewrite <- Hs. unfold A.sets, A.own. cbn [A.a_set A.r_set]. by destruct (A.upd _ _).
  - rewrite own_adds_snoc, <- Hn. unfold A.own. cbn [A.num]. destruct o as [t v|ts v|ts]; cbn [abs_oz own_add]; [|lia..].
    unfold A.prepare in Hp. destruct r; destruct (A._Lookup _ _); try done. cbn [abs_oz] in Hp. unfold abs_tag in Hp. injection Hp as _ Hid _.
    rewrite bool_decide_true by lia. lia.
Qed.

Lemma oz_runs_effect i l s o : oz_runs i l s -> own_add i o = false -> oz_runs i (l ++ [o]) (A.effect s (abs_oz o)).
Proof.
  intros [Hs Hn] Ho. split.
  - rewrite fmap_app, foldl_app. cbn [fmap list_fmap foldl]. rewrite <- Hs. unfold A.sets, A.effect. cbn [A.a_set A.r_set]. by destruct (A.upd _ _).
  - rewrite own_adds_snoc, Ho, <- Hn. unfold A.effect. cbn [A.num]. lia.
Qed.

(** The tags a process observes are those of the element. *)
Lemma oz_observes l e mir s : Forall op_ok l -> oz_elem_at l e mir -> A.sets s = foldl A.upd (∅, ∅) (abs_oz <$> l) ->
  A._Observe_T (A.a_set s) (A.r_set s) = list_to_set (abs_tag <$> oz_tags e).
Proof.
  intros Hl [(Hc & _) Htt _ _] Hs. pose proof (sets_of_ops l Hl) as Hso. rewrite <- Hs in Hso. destruct Hso as [Hrec Hrem Htag].
  unfold A.sets in *. cbn [fst snd] in *. pose proof (fun t => live_entry _ _ t Hc Htt) as Hlive.
  apply set_eq. intros tag. unfold A._Observe_T. rewrite elem_of_difference, elem_of_dom, elem_of_list_to_set, list_elem_of_fmap. split.
  - intros [[r Hr] Hn]. destruct (Htag tag) as (t & Ht & ->); [left; by apply elem_of_dom|]. rewrite Hrec in Hr by done. case_decide as Hd; [|done].
    exists t. split; [done|]. rewrite Hrem in Hn by done. destruct (proj1 (Hlive t)) as (p & a & Ha & <-); [by split|]. apply list_elem_of_fmap. by exists (p, a).
  - intros (t & -> & ([p a] & -> & Ha)%list_elem_of_fmap). cbn [snd]. pose proof (eo_wf _ _ (oi_ok _ _ Hc _ _ Ha)) as Ht.
    destruct (proj2 (Hlive (oz_t a))) as [H1 H2]; [by exists p, a|]. rewrite Hrec, Hrem by done. split; [|done]. rewrite decide_True by done. by eexists.
Qed.

Lemma oz_lookup l e mir s : Forall op_ok l -> oz_elem_at l e mir -> A.sets s = foldl A.upd (∅, ∅) (abs_oz <$> l) ->
  A._Lookup (A.a_set s) (A.r_set s) = LOOKUP e.
Proof.
  intros Hl Hat Hs. unfold A._Lookup. rewrite (oz_observes l e mir s Hl Hat Hs). unfold LOOKUP, oz_tags. destruct (oz_aset e) as [|pa L].
  - apply bool_decide_false. intros H. by apply H.
  - apply bool_decide_true. cbn [fmap list_fmap list_to_set]. set_solver.
Qed.

Lemma oz_prepares i l e mir s u r :
  Forall op_ok l -> oz_elem_at l e mir -> oz_runs i l s -> oz_current e = Z.of_nat (own_adds i l) -> oz_request u = Some r ->
  A.prepare s i r = (fun oe => abs_oz oe.1) <$> oz_user (Z.of_nat i) e u.
Proof.
  intros Hl Hat [Hs Hn] Hc Hr. unfold A.prepare. rewrite (oz_lookup l e mir s Hl Hat Hs), (oz_observes l e mir s Hl Hat Hs).
  destruct u as [a|a|]; cbn [oz_request oz_user] in *.
  - destruct (getDoubleFromObject a) as [v|]; [|done]. injection Hr as <-. cbn. destruct (LOOKUP e); [done|]. cbn. unfold abs_tag. cbn.
    do 3 f_equal; lia.
  - destruct (getDoubleFromObject a) as [v|]; [|done]. injection Hr as <-. cbn. by destruct (LOOKUP e).
  - injection Hr as <-. by destruct (LOOKUP e).
Qed.

(** ** The simulation *)

Section Simulation.
Context {E : Type} `{!Cell oze E}.
Context (K : string) (N TT : nat) (HN : (0 < N)%nat /\ Z.of_nat N <= INT_MAX) (HTT : Z.of_nat TT + 2 < 2 ^ 29).
Context (x : string) (V : Z -> Prop).
Notation sys := (System.sys E).
Notation sys_step := (System.sys_step oz_table (oz_args K)).
Notation sys_run := (System.sys_run oz_table (oz_args K)).
Notation parsed := (System.parsed oz_parse).
Notation ops_got := (System.ops_got oz_parse).
Notation Next := (Net.Next TT A.prepare A.own A.effect (fun _ _ => true) (A.allowed V V)).
(** Every message is executed when it is received. *)
Notation sim T f st t := (simulates (parse := oz_parse) N abs_oz oz_runs x T f (log st) (got st) t).

Lemma oz_bounds_got acts (st : sys) : oz_sys_ok K N TT acts st ->
  forall j gj, got st !! j = Some gj -> Forall (fun m => m < length (log st))%nat gj.
Proof.
  intros Hok j gj Hj. destruct (lookup_lt_is_Some_2 (servers st) j) as [s Hs].
  { rewrite (os_servers _ _ _ _ _ Hok), <- (os_got _ _ _ _ _ Hok). by eapply lookup_lt_Some. }
  apply (os_replicas _ _ _ _ _ Hok j s gj Hs Hj).
Qed.

Lemma oz_allowed i y u r : (forall v, quser_value (Client i y u) = Some v -> V (to_Z v)) -> oz_request u = Some r -> A.allowed V V r.
Proof.
  intros HV Hu. destruct u as [a|a|]; cbn [oz_request quser_value] in *; [destruct (getDoubleFromObject a) as [v|]; [|done]..|by injection Hu as <-];
    injection Hu as <-; by apply HV.
Qed.

Lemma oz_sim_client acts f (st st' : sys) t i y u :
  oz_sys_ok K N TT acts st -> (length acts < TT)%nat -> ints_below BOUND (omap quser_value (acts ++ [Client i y u])) ->
  (forall v, quser_value (Client i y u) = Some v -> V (to_Z v)) -> sim (length acts) f st t ->
  sys_step st (Client i y u) = Ok st' -> exists t' f', rtc Next t t' /\ sim (S (length acts)) f' st' t'.
Proof.
  intros Hok HT Hints HV Hsim Hstep. cbn [System.sys_step] in Hstep.
  assert (Hstay : forall sv : list (server E), exists t' f', rtc Next t t' /\ sim (S (length acts)) f' (mkSys sv (log st) (got st)) t').
  { intros sv. exists t, f. split; [done|]. by eapply sim_mono; [|exact Hsim]; lia. }
  destruct (servers st !! i) as [s|] eqn:Hs; [|injection Hstep as <-; destruct st; apply Hstay].
  destruct (oz_client_issue K N TT HN HTT acts st i y u s Hok HT Hints Hs) as (g & e & mir & s' & m & Hg & Hiss & Hat & Hcur & Hcase).
  rewrite Hiss in Hstep. cbn [mbind res_bind] in Hstep.
  destruct (lookup_lt_is_Some_2 (Net.locals t) i) as [sl Hsl].
  { rewrite (sm_locals _ _ _ _ _ _ _ _ _ Hsim), <- (os_servers _ _ _ _ _ Hok). by eapply lookup_lt_Some. }
  pose proof (sm_local _ _ _ _ _ _ _ _ _ Hsim i g sl Hg Hsl) as Hrun.
  pose proof (oz_ops_ok K (log st) g y (ol_entries _ _ (os_log _ _ _ _ _ Hok))) as Hops.
  destruct (oz_user (Z.of_nat i) e u) as [[o e1]|] eqn:Ho.
  - destruct Hcase as (l & -> & Hpar & _). injection Hstep as <-. cbn [log got]. rewrite (alter_update _ _ _ _ Hg).
    destruct (decide (y = x)) as [->|Hne].
    2:{ exists t, f. split; [done|]. eapply sim_mono; [apply Nat.le_succ_diag_r|]. eapply sim_other_exec; [|done|by rewrite parsed_new|done].
        eapply sim_other_sent; try done. by eapply oz_bounds_got. }
    destruct (oz_request u) as [r|] eqn:Hu; [|by rewrite (oz_request_refused _ e u Hu) in Ho].
    pose proof (oz_prepares i _ e mir sl u r Hops Hat Hrun Hcur Hu) as Hp. rewrite Ho in Hp. cbn [fmap option_fmap option_map fst] in Hp.
    destruct (sim_accepted N TT A.prepare A.own A.effect (fun _ _ => true) (A.allowed V V) abs_oz oz_runs oz_runs_own x _ _ _ _ _ i g _ o
      Hsim Hg Hpar ltac:(by eapply oz_bounds_got) _ r HT Hsl ltac:(by eapply oz_allowed) Hp) as (t' & f' & Hn & Hs').
    exists t', f'. split; [by apply rtc_once|done].
  - destruct Hcase as (-> & _). injection Hstep as <-. destruct (decide (y = x)) as [->|Hne]; [|apply Hstay].
    destruct (oz_request u) as [r|] eqn:Hu; [clear Hstay|apply Hstay].
    pose proof (oz_prepares i _ e mir sl u r Hops Hat Hrun Hcur Hu) as Hp. rewrite Ho in Hp.
    destruct (sim_refused N TT A.prepare A.own A.effect (fun _ _ => true) (A.allowed V V) abs_oz _ x _ _ _ _ _ i _ r
      Hsim HT Hsl ltac:(by eapply oz_allowed) Hp) as (t' & Hn & Hs').
    exists t', f. split; [by apply rtc_once|done].
Qed.

Lemma oz_sim_message acts f (st st' : sys) t j m :
  oz_sys_ok K N TT acts st -> sim (length acts) f st t ->
  sys_step st (Deliver j m) = Ok st' -> exists t' f', rtc Next t t' /\ sim (S (length acts)) f' st' t'.
Proof.
  intros Hok Hsim Hstep. cbn [System.sys_step] in Hstep.
  assert (Hstay : exists t' f', rtc Next t t' /\ sim (S (length acts)) f' st t').
  { exists t, f. split; [done|]. eapply sim_mono; [|exact Hsim]; lia. }
  destruct (servers st !! j) as [s|] eqn:Hs; [|by injection Hstep as <-].
  destruct (log st !! m) as [l|] eqn:Hl; [|by injection Hstep as <-].
  destruct (got st !! j) as [g|] eqn:Hg; [|by injection Hstep as <-].
  case_decide as Hmg; [by injection Hstep as <-|]. destruct (receive oz_table s l) as [s'|]; [|done]. cbn [mbind res_bind] in Hstep. injection Hstep as <-.
  destruct (Forall_lookup_1 _ _ _ _ (ol_entries _ _ (os_log _ _ _ _ _ Hok)) Hl) as (y & u & id & e0 & o & e1 & -> & Hu & Hop).
  assert (parsed (log st) m = Some (y, o)) as Hp by (unfold System.parsed; rewrite Hl; by eapply oz_parse_user, Hop).
  destruct (lookup_lt_is_Some_2 (Net.locals t) j) as [sl Hsl].
  { rewrite (sm_locals _ _ _ _ _ _ _ _ _ Hsim), <- (os_servers _ _ _ _ _ Hok). by eapply lookup_lt_Some. }
  destruct (decide (y = x)) as [->|Hne].
  - pose proof (oz_foreign K N TT HN acts st j m s g x o Hok Hs Hg Hp Hmg) as Hfo.
    destruct (sim_exec N TT A.prepare A.own A.effect (fun _ _ => true) (A.allowed V V) abs_oz oz_runs (fun i o => own_add i o = false) oz_runs_effect
      x _ _ _ _ _ j g sl m o Hsim Hg Hsl Hp Hmg eq_refl Hfo) as (t' & Hn & Hs').
    exists t', f. split; [by apply rtc_once|]. eapply sim_mono; [|exact Hs']; lia.
  - exists t, f. split; [done|]. eapply sim_mono; [apply Nat.le_succ_diag_r|]. by eapply sim_other_exec.
Qed.
Lemma oz_sim_run acts' : forall acts (st st' : sys) f t,
  oz_sys_ok K N TT acts st -> (length (acts ++ acts') <= TT)%nat -> ints_below BOUND (omap quser_value (acts ++ acts')) ->
  oz_in_time K st acts' = true ->
  (forall v, v ∈ omap quser_value acts' -> V (to_Z v)) -> sim (length acts) f st t -> sys_run st acts' = Ok st' ->
  exists t' f', rtc Next t t' /\ sim (length (acts ++ acts')) f' st' t'.
Proof.
  induction acts' as [|a acts' IH]; intros acts st st' f t Hok Hlen Hints Htime HV Hsim Hrun.
  { injection Hrun as <-. exists t, f. by rewrite app_nil_r. }
  unfold System.sys_run in Hrun. cbn [foldM] in Hrun. destruct (sys_step st a) as [st1|] eqn:Hstep; [|done]. cbn [mbind res_bind] in Hrun.
  cbn [oz_in_time] in Htime. rewrite Hstep in Htime. apply andb_true_iff in Htime as [Hdel Htime].
  replace (a :: acts') with ([a] ++ acts') in Hlen, Hints |- * by done. rewrite app_assoc in Hlen, Hints |- *.
  rewrite !length_app in Hlen. cbn [length] in Hlen.
  assert (ints_below BOUND (omap quser_value (acts ++ [a]))) as Hi1.
  { eapply ints_below_sub; [|exact Hints]. rewrite (omap_app _ (acts ++ [a])). by apply submseteq_inserts_r. }
  assert (HVa : forall v, quser_value a = Some v -> V (to_Z v)).
  { intros v Hv. apply HV. rewrite omap_cons_eq, Hv. by left. }
  assert (HVs : forall v, v ∈ omap quser_value acts' -> V (to_Z v)).
  { intros v Hv. apply HV. rewrite omap_cons_eq. destruct (quser_value a); [by right|done]. }
  assert (exists t1 f1, rtc Next t t1 /\ sim (S (length acts)) f1 st1 t1) as (t1 & f1 & Hr1 & Hs1).
  { destruct a as [i y u|j m]; [eapply oz_sim_client|eapply oz_sim_message]; try done; lia. }
  destruct (oz_step_ok K N TT HN HTT acts a st Hok ltac:(lia) Hi1 Hdel) as (st2 & H2 & Hok1). assert (st2 = st1) as -> by congruence.
  destruct (IH (acts ++ [a]) st1 st' f1 t1) as (t' & f' & Hr2 & Hs2); try done.
  - rewrite !length_app. cbn. lia.
  - rewrite length_app. cbn. by rewrite Nat.add_1_r.
  - exists t', f'. split; [by etrans|done].
Qed.
End Simulation.

(** ** Elements and processes *)

(** The entries of an element are the records of the tags the process observes,
    and it knows the same removed tags. *)
Definition same_element (e : oze) (s : A.local) : Prop :=
  (forall t, wf_lc t -> rsetGet (oz_rset e) t = bool_decide (abs_tag t ∈ A.r_set s)) /\
  (forall tag r, tag ∈ A._Observe_T (A.a_set s) (A.r_set s) /\ A.a_set s !! tag = Some r <->
     exists p a v, (p, a) ∈ oz_aset e /\ abs_tag (oz_t a) = tag /\ oz_x a = Some v /\
       r = A.mkRcd (to_Z v) (to_Z (oz_inc a)) (to_Z (oz_count a))).

(** The score of the records: the value of the last observed tag, and the
    increments of the observed record that changed most. *)
Definition tag_before (u w : nat * nat) : Prop := (u.1 < w.1)%nat \/ (u.1 = w.1 /\ u.2 < w.2)%nat.

Definition spec_scores (s : A.local) (m : option double) : Prop :=
  let seen := A._Observe_T (A.a_set s) (A.r_set s) in
  let rcd := A._Element (A.a_set s) in
  match m with
  | None => seen = ∅
  | Some d => exists tag inc, tag ∈ seen /\ (forall u, u ∈ seen -> ~ tag_before tag u) /\
      ((inc = 0 /\ forall u, u ∈ seen -> A.change (rcd u) = 0) \/
       exists r, r ∈ seen /\ inc = A.v_acq (rcd r) /\
         forall u, u ∈ seen -> A.change (rcd u) < A.change (rcd r) \/ (A.change (rcd u) = A.change (rcd r) /\ ~ tag_before r u)) /\
      d = double_of_Z (A.v_inn (rcd tag) + inc)
  end.

Lemma tag_before_lt t u : wf_lc t -> wf_lc u -> tag_before (abs_tag t) (abs_tag u) <-> tag_lt t u.
Proof. unfold wf_lc, tag_before, abs_tag, tag_lt. cbn. lia. Qed.

Section Element.
Context (l : list oz_op) (e : oze) (mir : option double) (s : A.local).
Context (Hl : Forall op_ok l) (Hat : oz_elem_at l e mir) (Hs : A.sets s = foldl A.upd (∅, ∅) (abs_oz <$> l)).
Context (Hints : ints_below BOUND (omap oz_op_value l)).
Notation seen := (A._Observe_T (A.a_set s) (A.r_set s)).

Lemma process_sets : sets_of (steps_of l) (A.a_set s, A.r_set s).
Proof using Hl Hs. change (A.a_set s, A.r_set s) with (A.sets s). rewrite Hs. by apply sets_of_ops. Qed.

(** The observed tags are the live ones. *)
Lemma seen_live tag : tag ∈ seen <-> exists t, wf_lc t /\ tag = abs_tag t /\ live (steps_of l) t.
Proof using Hl Hat Hs.
  rewrite (oz_observes l e mir s Hl Hat Hs), elem_of_list_to_set, list_elem_of_fmap. destruct Hat as [(Hc & _) Htt _ _].
  pose proof (fun t => live_entry _ _ t Hc Htt) as Hlive. split.
  - intros (t & -> & ([p a] & -> & Ha)%list_elem_of_fmap). exists (oz_t a). split_and!; [apply (oi_ok _ _ Hc _ _ Ha)|done|]. apply Hlive. by exists p, a.
  - intros (t & Ht & -> & (p & a & Ha & <-)%Hlive). exists (oz_t a). split; [done|]. apply list_elem_of_fmap. by exists (p, a).
Qed.

Lemma seen_element t : wf_lc t -> A._Element (A.a_set s) (abs_tag t) = rec_of (steps_of l) t.
Proof using Hl Hs. intros Ht. exact (sets_of_element _ _ t process_sets Ht). Qed.

Lemma weight_small t : weight (steps_of l) t < 2 ^ 53.
Proof using Hl Hints.
  assert (int_steps (steps_of l)) as (_ & H & _); [|apply H]. apply int_steps_ok; [done|]. destruct Hints as [? ?]. split; [done|]. unfold BOUND in *. lia.
Qed.

(** An entry of the element and the record of its tag. *)
Lemma entry_record p a : (p, a) ∈ oz_aset e ->
  exists v, oz_x a = Some v /\ rec_of (steps_of l) (oz_t a) = A.mkRcd (to_Z v) (to_Z (oz_inc a)) (to_Z (oz_count a)).
Proof using Hl Hat Hints.
  intros Ha. destruct Hat as [(Hc & _) Htt Hadd _]. destruct (oi_ok _ _ Hc _ _ Ha) as [_ Hlive Hx Hi Hw].
  pose proof (Hadd _ (Htt _ _ Ha) Hlive) as Hn. destruct (x_of (steps_of l) (oz_t a)) as [v|] eqn:Hv; [|done]. exists v. split; [done|].
  pose proof (weight_small (oz_t a)) as Hb. pose proof (oz_weight_nonneg (steps_of l) (oz_t a)). pose proof (isum_iabs (incs_of (steps_of l) (oz_t a))).
  unfold rec_of. rewrite Hv, Hi, Hw. cbn [from_option]. unfold weight in *. by rewrite !to_Z_double by lia.
Qed.

Lemma elem_same : same_element e s.
Proof using All.
  pose proof process_sets as Hso. split.
  - intros t Ht. destruct Hat as [(Hc & _) _ _ _]. rewrite (oi_rset _ _ Hc t Ht). apply bool_decide_ext. symmetry. by apply (so_removed _ _ Hso).
  - intros tag r. rewrite seen_live. pose proof Hat as [(Hc & _) Htt _ _]. split.
    + intros [(t & Ht & -> & Hlive) Hr]. pose proof (so_records _ _ Hso t Ht) as Hrec. cbn [fst] in Hrec. rewrite Hr, decide_True in Hrec by apply Hlive.
      injection Hrec as ->. apply (live_entry _ _ t Hc Htt) in Hlive as (p & a & Ha & <-). destruct (entry_record p a Ha) as (v & Hv & Hrec). by exists p, a, v.
    + intros (p & a & v & Ha & <- & Hv & ->). pose proof (oi_ok _ _ Hc _ _ Ha) as [Ht Hl1 _ _ _]. pose proof (Htt _ _ Ha) as Htch.
      split; [by exists (oz_t a)|]. pose proof (so_records _ _ Hso _ Ht) as Hrec. cbn [fst] in Hrec. rewrite Hrec, decide_True by done.
      destruct (entry_record p a Ha) as (v' & Hv' & ->). by assert (v' = v) as -> by congruence.
Qed.

Lemma spec_score_of sc : score_spec (steps_of l) sc -> spec_scores s (Some sc).
Proof using All.
  intros Hsc. destruct (score_int l sc (2 ^ 53)) as (z & Hz & Hzb); [done|done|destruct Hints; split; [done|unfold BOUND in *; lia]|done|].
  destruct Hsc as (t & v & r & Hlt & Hmax & Hx & Hr & Hrl & Heq).
  assert (forall t, live (steps_of l) t -> wf_lc t) as Hwf.
  { intros u Hu. destruct Hat as [(Hc & _) Htt _ _]. apply (live_entry _ _ u Hc Htt) in Hu as (p & a & Ha & <-). apply (oi_ok _ _ Hc _ _ Ha). }
  pose proof (Hwf t Hlt) as Ht. exists (abs_tag t), (isum (incs_of (steps_of l) r)). split_and!.
  - apply seen_live. by exists t.
  - intros u (u' & Hu & -> & Hlu)%seen_live. rewrite tag_before_lt by done. by apply Hmax.
  - destruct (decide (weight (steps_of l) r = 0)) as [H0|Hn]; [left|right].
    + split; [by apply weight_zero_sum|]. intros u (u' & Hu & -> & Hlu)%seen_live. rewrite seen_element by done. cbn [rec_of A.change].
      destruct (Hr u' Hlu) as [?|[?|[? _]]]; [done| |lia]. pose proof (oz_weight_nonneg (steps_of l) u'). lia.
    + destruct Hrl as [Hrl|]; [|done]. pose proof (Hwf r Hrl) as Hr'. exists (abs_tag r). split_and!; [apply seen_live; by exists r|by rewrite seen_element|].
      intros u (u' & Hu & -> & Hlu)%seen_live. rewrite !seen_element, tag_before_lt by done. cbn [rec_of A.change].
      pose proof (oz_weight_nonneg (steps_of l) r). destruct (Hr u' Hlu) as [?|[?|?]]; [left; lia|by left|by right].
  - rewrite seen_element by done. cbn [rec_of A.v_inn]. rewrite Hx. cbn [from_option]. rewrite Heq. apply x_of_elem, elem_of_adds in Hx.
    destruct (ints_below_sub BOUND _ _ (add_incr_values l t v r Hl Hx) Hints) as [Hf Hb]. apply Forall_cons in Hf as [Hv _]. rewrite iabs_cons in Hb.
    pose proof (isum_iabs (incs_of (steps_of l) r)). unfold is_int in Hv. rewrite Hv at 1. unfold BOUND in *. apply dadd_Z; lia.
Qed.

Lemma elem_scores : exists m, spec_scores s m /\ same_score mir m.
Proof using All.
  pose proof Hat as [Hinv Htt Hadd Hsh]. unfold shows in Hsh. destruct (LOOKUP e) eqn:HL.
  - destruct Hsh as (sc & Hsc & Hm). destruct (SCORE_ok _ _ Hinv Htt Hadd) as (sc' & Hsc' & Hspec). assert (sc' = sc) as -> by congruence.
    exists (Some sc). split; [by apply spec_score_of, Hspec|].
    destruct (score_int l sc (2 ^ 53)) as (z & -> & Hzb); [done|by apply Hspec|destruct Hints; split; [done|unfold BOUND in *; lia]|done|].
    destruct Hm as [Hn|(c & -> & Hc)]; [by rewrite isnan_Z in Hn|done].
  - subst mir. exists None. split; [|done]. cbn. pose proof (oz_lookup l e _ s Hl Hat Hs) as Hlk. rewrite HL in Hlk. unfold A._Lookup in Hlk.
    apply bool_decide_eq_false in Hlk. by apply dec_stable.
Qed.
End Element.

(** The numbers sent by the clients of a run. *)
Definition oz_sent (acts : list (action quser)) (z : Z) : Prop := exists v, v ∈ omap quser_value acts /\ to_Z v = z.

(** What a server has for the element [x], and the process it implements. *)
Definition oz_implements {E} `{!Cell oze E} (K x : string) (s : server E) (l : A.local) : Prop :=
  exists els es e m m', cview ORI_RPQ_TABLE_SUFFIX s K els es /\ found oz_new s els x = Ok e /\ same_element e l /\
    oz_ask K s x = Ok [score_reply m] /\ spec_scores l m' /\ same_score m m'.

Section Refinement.
Context {E : Type} `{!Cell oze E}.

End Refinement.

