(* ===== verification/ListBasics.v ===== *)
(** * What the two list types share: list_basics.c

    A list is one hash: its fields are the elements by their ids, and under
    reserved names the first element, the clock new positions are made from and
    the number of elements. *)

From S2P Require Import Prelude Sds VectorClock Leid Double Util Zset Store Crdt.
From Stdlib Require Import Ascii.

(** ** Formats *)

(** [FORALL_NORMAL], [FORALL_BITMAP] and [property_type]. *)
Inductive normal := font | size | color.
Inductive bitmap := bold | italic | underline.
#[export] Instance normal_eq_dec : EqDecision normal.
Proof. solve_decision. Defined.
#[export] Instance bitmap_eq_dec : EqDecision bitmap.
Proof. solve_decision. Defined.

Definition FORALL_NORMAL : list normal := [font; size; color].
Definition FORALL_BITMAP : list bitmap := [bold; italic; underline].

Definition normal_name (p : normal) : string := match p with font => "font" | size => "size" | color => "color" end.
Definition bitmap_name (p : bitmap) : string :=
  match p with bold => "bold" | italic => "italic" | underline => "underline" end.

(** [__bold], [__italic] and [__underline]. *)
Definition property_bit (p : bitmap) : Z := match p with bold => 1 | italic => 2 | underline => 4 end.

(** [property |= __p] and [property &= ~__p] on [int]. *)
Definition set_bit (property : Z) (p : bitmap) (on : bool) : Z :=
  if on then Z.lor property (property_bit p) else Z.land property (Z.lnot (property_bit p)).

(** A list operation names the property it updates. *)
Inductive prop := PNormal (p : normal) | PBitmap (p : bitmap).
#[export] Instance prop_eq_dec : EqDecision prop.
Proof. solve_decision. Defined.

(** What [strcmp] sees of a string: the bytes before the first zero. *)
Fixpoint c_str (s : string) : string :=
  match s with
  | EmptyString => EmptyString
  | String c r => if code c =? 0 then EmptyString else String c (c_str r)
  end.

(** The comparisons with [strcmp]: the first that matches. *)
Definition prop_of_name (type : string) : option prop :=
  let s := c_str type in
  if decide (s = "font") then Some (PNormal font)
  else if decide (s = "size") then Some (PNormal size)
  else if decide (s = "color") then Some (PNormal color)
  else if decide (s = "bold") then Some (PBitmap bold)
  else if decide (s = "italic") then Some (PBitmap italic)
  else if decide (s = "underline") then Some (PBitmap underline)
  else None.

(** The values of the properties of an element.  [zmalloc] leaves the [int]s of
    the normal ones unwritten: [None]. *)
Record formats := mkFormats { f_font : option Z; f_size : option Z; f_color : option Z; property : Z }.

Definition get_normal (f : formats) (p : normal) : option Z :=
  match p with font => f_font f | size => f_size f | color => f_color f end.
Definition set_normal (f : formats) (p : normal) (v : Z) : formats :=
  match p with
  | font => mkFormats (Some v) (f_size f) (f_color f) (property f)
  | size => mkFormats (f_font f) (Some v) (f_color f) (property f)
  | color => mkFormats (f_font f) (f_size f) (Some v) (property f)
  end.
Definition set_property (f : formats) (p : bitmap) (on : bool) : formats :=
  mkFormats (f_font f) (f_size f) (f_color f) (set_bit (property f) p on).

(** The value of a property written, [int value]. *)
Definition write_prop (f : formats) (p : prop) (value : Z) : formats :=
  match p with
  | PNormal p => set_normal f p value
  | PBitmap p => set_property f p (negb (value =? 0))
  end.

(** The values an insert brings, read as [long long] and kept as [int]. *)
Definition pick (vals : Z * Z * Z) (p : normal) : Z :=
  i32 (match p with font => vals.1.1 | size => vals.1.2 | color => vals.2 end).

Definition prop_name (p : prop) : string := match p with PNormal p => normal_name p | PBitmap p => bitmap_name p end.

Section ListBasics.
Context {E : Type}.
Notation M := (M E).

(** [GET_LIST_HT(arg, create)]: the key without a suffix. *)
Definition GET_LIST_HT (arg : nat -> M string) (create : bool) : M (option string) :=
  tname ← arg 1%nat; getInnerHT tname "" create.

(** The pointer in a field that may be missing. *)
Definition getHead (ht : string) : M (option nat) :=
  value ← hashTypeGetValueObject ht "head";
  match value with
  | None => mret None
  | Some v => p ← lift (as_ptr v); mret (Some p)
  end.

Definition setHead (ht : string) (e : nat) : M unit := hashTypeSet ht "head" (HPtr e).

(** The address of the list's clock, made at the first use. *)
Definition getCurrent `{!Cell vc E} (ht : string) : M nat :=
  value ← hashTypeGetValueObject ht "current";
  match value with
  | None =>
      s ← get_srv;
      e ← lift (_vc_new (p2p_count s) (p2p_id s));
      p ← alloc e;
      _ ← hashTypeSet ht "current" (HPtr p);
      mret p
  | Some v => lift (as_ptr v)
  end.

(** The [int] in a field. *)
Definition as_int (v : hval) : res Z := match v with HInt z => Ok z | _ => Crash TypeConfusion end.

Definition getLen (ht : string) : M Z :=
  value ← hashTypeGetValueObject ht "length";
  match value with None => mret 0 | Some v => lift (as_int v) end.

Definition incrLen (ht : string) (inc : Z) : M unit :=
  if inc =? 0 then skip
  else
    len ← getLen ht;
    hashTypeSet ht "length" (HInt (i32 (len + inc))).

(** RWFLLEN and RLLEN. *)
Definition lenQuery : M unit :=
  key ← argv_at 1;
  o ← lookupKeyReadOrReply key (RInt 0);
  match o with
  | None => return_
  | Some o =>
      bad ← checkType o OBJ_HASH;
      if (bad : bool) then return_ else n ← getLen key; addReply (RInt n)
  end.

(** [rand()]: zeros after the numbers listed. *)
Definition rand : M Z :=
  s ← get_srv;
  match rng s with
  | [] => mret 0
  | r :: rs => _ ← put_srv (set_rng s rs); mret r
  end.

(** Whether [constructLeid] calls [rand()]. *)
Definition leid_gap (p q : option leid) : res Z :=
  index ← find_index (S (leid_num p `max` leid_num q)) p q 0;
  Ok (i32 (rprefix q index - lprefix p index - 2)).

Definition new_leid (p q : option leid) (t : vc) : M leid :=
  gap ← lift (leid_gap p q);
  r ← (if gap =? 0 then mret 0 else rand);
  lift (constructLeid r p q t).

(** [sdstolower] of an argument in place.  The arguments to broadcast are the
    same objects as the client's. *)
Definition tolower_at (i : nat) (l : list string) : list string := alter sdstolower i l.

Definition tolower_argv (i : nat) : M unit := c ← get_cli; put_cli (set_argv c (tolower_at i (argv c))).

Definition tolower_rargv (i : nat) : M unit :=
  c ← get_cli;
  match rargv c with
  | None => lift (Crash NullDeref)
  | Some (l, n) => put_cli (set_rargv (set_argv c (tolower_at i (argv c))) (Some (tolower_at i l, n)))
  end.
End ListBasics.
