(* ===== verification/ListLink.v ===== *)
(** * The linked list of elements

    Both list types keep their elements in a singly linked list ordered by the
    position identifiers and spell out the same loop to put a new element in.
    It is written and verified here once, over what it needs of an element. *)

From S2P Require Import Prelude Sds VectorClock Leid Double Util Zset Store Crdt ListBasics.
From Stdlib Require Import Ascii.

(** What the loop reads and writes of an element: [pos_id] and [next]. *)
Class Linked (A : Type) := {
  l_pos : A -> option leid;
  l_next : A -> option nat;
  l_set_next : A -> option nat -> A;
  l_next_set : forall a n, l_next (l_set_next a n) = n;
  l_pos_set : forall a n, l_pos (l_set_next a n) = l_pos a;
  l_set_set : forall a m n, l_set_next (l_set_next a m) n = l_set_next a n
}.

Section Link.
Context {A E : Type} `{!Cell A E, !Linked A}.
Notation M := (M E).

(** A read through a pointer to an element. *)
Definition elem_at (s : server E) (p : nat) : res A :=
  match heap s !! p with
  | None => Crash UseAfterFree
  | Some c => of_option TypeConfusion (prj c)
  end.

(** [while (q != NULL && leid_cmp(e->pos_id, q->pos_id) > 0) p = q, q = q->next;] *)
Fixpoint find_place (fuel : nat) (s : server E) (id : leid) (p : nat) (q : option nat) : res (nat * option nat) :=
  match fuel with
  | O => Crash Diverges
  | S fuel =>
      match q with
      | None => Ok (p, None)
      | Some q1 =>
          e ← elem_at s q1;
          qid ← of_option NullDeref (l_pos e);
          if 0 <? leid_cmp id qid then find_place fuel s id q1 (l_next e) else Ok (p, q)
      end
  end.

(** The element at [p] with the position [id] put into the list of the hash
    [ht]; [get_pre] looks up the element it was inserted after. *)
Definition link_element (ht : string) (p : nat) (id : leid) (get_pre : M (option nat)) : M unit :=
  head ← getHead ht;
  match head with
  | None => setHead ht p
  | Some h =>
      he ← load h;
      hid ← lift (of_option NullDeref (l_pos he));
      if leid_cmp id hid <? 0 then
        _ ← setHead ht p;
        e ← load p;
        store p (l_set_next e head)
      else
        pre ← get_pre;
        start ← match pre with
                | None => mret h
                | Some q => pe ← load q; mret (match l_pos pe with None => h | Some _ => q end)
                end;
        se ← load start;
        s ← get_srv;
        r ← lift (find_place (S (base.size (heap s))) s id start (l_next se));
        e1 ← load r.1;
        _ ← store r.1 (l_set_next e1 (Some p));
        e ← load p;
        store p (l_set_next e r.2)
  end.

(** ** The prepare phase of an insert *)

Definition no_pre (a : string) : reply := RErr ("No pre element " +:+ a +:+ " in the list.").
Definition not_added (a : string) : reply := RErr ("Element " +:+ a +:+ " hasn't been added, can't be readded.").
Definition has_position (a : string) : reply := RErr ("Element " +:+ a +:+ " has set its position, can only be readded.").

Definition refuse (f : string -> reply) (i : nat) : M unit := a ← argv_at i; _ ← addReply (f a); return_.

(** The neighbours of the new position. *)
Definition insert_between (pre : option nat) : M (option leid * option leid) :=
  match pre with
  | None =>
      ht ← GET_LIST_HT argv_at true;
      ht ← not_null ht;
      head ← getHead ht;
      after ← match head with None => mret None | Some h => he ← load h; mret (l_pos he) end;
      mret (None, after)
  | Some q =>
      pe ← load q;
      after ← match l_next pe with None => mret None | Some r => re ← load r; mret (l_pos re) end;
      mret (l_pos pe, after)
  end.

(** The address of the list's clock and a new position made with it. *)
Definition new_position `{!Cell vc E} (pre : option nat) : M (nat * leid) :=
  ends ← insert_between pre;
  ht ← GET_LIST_HT argv_at true;
  ht ← not_null ht;
  q ← getCurrent ht;
  cur ← load q;
  id ← new_leid ends.1 ends.2 cur;
  mret (q, id).

(** What both types do to prepare an insert.  They differ in when an element is
    [visible], in what they do to the clock once a position is made from it,
    and in the timestamp of the message. *)
Definition insert_prepare `{!Cell vc E} (get_pre get_new : M (option nat)) (visible : A -> bool) (l_oid : A -> option string)
    (tick : nat -> M unit) (stamp : A -> M unit) : M unit :=
  _ ← CHECK_ARGC 9;
  _ ← CHECK_CONTAINER_TYPE OBJ_HASH;
  _ ← for_each [5; 6; 7; 8]%nat CHECK_ARG_TYPE_INT;
  pre ← get_pre;
  _ ← match pre with
      | None =>
          _ ← tolower_argv 2;
          a ← argv_at 2;
          if decide (c_str a = "null") then skip
          else if decide (c_str a = "readd") then skip
          else refuse no_pre 2
      | Some q =>
          pe ← load q;
          if visible pe then match l_pos pe with Some _ => skip | None => refuse no_pre 2 end
          else refuse no_pre 2
      end;
  p ← get_new;
  p ← not_null p;
  e ← load p;
  _ ← (if visible e then _ ← addReply ele_exist; return_ else skip);
  a ← argv_at 2;
  _ ← match l_oid e with
      | None =>
          if decide (c_str a = "readd") then refuse not_added 3
          else
            r ← new_position pre;
            _ ← tick r.1;
            str ← lift (leidToSds r.2);
            RARGV_ADD_SDS str
      | Some _ =>
          if decide (c_str a = "readd") then
            id ← lift (of_option NullDeref (l_pos e));
            str ← lift (leidToSds id);
            RARGV_ADD_SDS str
          else refuse has_position 3
      end;
  stamp e.

(** ** RWFLLIST and RLLIST

    [show] is what the type prints of an element, nothing for one that is not
    in the list any more. *)

Fixpoint list_from (show : A -> res (list reply)) (fuel : nat) (s : server E) (p : option nat) : res (list reply) :=
  match fuel with
  | O => Crash Diverges
  | S fuel =>
      match p with
      | None => Ok []
      | Some p =>
          e ← elem_at s p;
          l ← show e;
          r ← list_from show fuel s (l_next e);
          Ok (l ++ r)
      end
  end.

Definition listQuery (show : A -> res (list reply)) : M unit :=
  key ← argv_at 1;
  o ← lookupKeyReadOrReply key REmptyArray;
  match o with
  | None => return_
  | Some o =>
      bad ← checkType o OBJ_HASH;
      if (bad : bool) then return_
      else
        n ← getLen key;
        _ ← addReply (RArray n);
        head ← getHead key;
        s ← get_srv;
        l ← lift (list_from show (S (base.size (heap s))) s head);
        for_each l addReply
  end.

(** ** Segments *)

(** From the pointer [p] the list visits the addresses and positions [l] and
    arrives at [q]. *)
Fixpoint seg (s : server E) (p : option nat) (l : list (nat * leid)) (q : option nat) : Prop :=
  match l with
  | [] => p = q
  | (a, id) :: l => p = Some a /\ exists e, elem_at s a = Ok e /\ l_pos e = Some id /\ seg s (l_next e) l q
  end.

(** Positions of a list: the ones the code makes, in strict order. *)
Definition ordered (ids : list leid) : Prop := Forall wf_leid ids /\ StronglySorted leid_lt ids.

Definition head_of (h : gmap string hval) : option nat := match h !! "head" with Some (HPtr p) => Some p | _ => None end.

(** The list in the hash under the key [K]. *)
Record list_view (s : server E) (K : string) (h : gmap string hval) (l : list (nat * leid)) : Prop := {
  lv_db : db s !! K = Some (OHash h);
  lv_head : match h !! "head" with None | Some (HPtr _) => True | _ => False end;
  lv_seg : seg s (head_of h) l None;
  lv_nodup : NoDup l.*1;
  lv_ordered : ordered l.*2
}.

(** The new entry at its place. *)
Fixpoint place (p : nat) (id : leid) (l : list (nat * leid)) : list (nat * leid) :=
  match l with
  | [] => [(p, id)]
  | (a, i) :: l' => if 0 <? leid_cmp id i then (a, i) :: place p id l' else (p, id) :: l
  end.

Lemma seg_app s p l1 l2 q : seg s p (l1 ++ l2) q <-> exists m, seg s p l1 m /\ seg s m l2 q.
Proof.
  revert p. induction l1 as [|[a id] l1 IH]; intros p; cbn [app seg].
  - split; [intros H; by exists p|by intros (m & -> & H)].
  - split.
    + intros (-> & e & He & Hp & Hs). apply IH in Hs as (m & H1 & H2). exists m. split; [|done]. split; [done|]. by exists e.
    + intros (m & (-> & e & He & Hp & H1) & H2). split; [done|]. exists e. split_and!; try done. apply IH. by exists m.
Qed.

Lemma seg_ext s s' p l q :
  (forall a, a ∈ l.*1 -> elem_at s' a = elem_at s a) -> seg s p l q -> seg s' p l q.
Proof.
  revert p. induction l as [|[a id] l IH]; intros p He; [done|]. cbn [seg]. intros (-> & e & Ha & Hp & Hc).
  split; [done|]. exists e. rewrite He by (cbn; by left). split_and!; try done. apply IH; [|done].
  intros b Hb. apply He. cbn. by right.
Qed.

Lemma seg_elem s p l q a id :
  seg s p l q -> (a, id) ∈ l -> exists e, elem_at s a = Ok e /\ l_pos e = Some id.
Proof.
  revert p. induction l as [|[b i] l IH]; intros p Hs Hin; [by apply elem_of_nil in Hin|].
  cbn [seg] in Hs. destruct Hs as (_ & e & He & Hp & Hs). apply elem_of_cons in Hin as [[= -> ->]|Hin]; [eauto|].
  by eapply IH.
Qed.

(** ** The order *)

Lemma cmp_cases id i :
  wf_leid id -> wf_leid i -> id <> i ->
  (leid_lt i id /\ (0 <? leid_cmp id i) = true /\ (leid_cmp id i <? 0) = false) \/
  (leid_lt id i /\ (0 <? leid_cmp id i) = false /\ (leid_cmp id i <? 0) = true).
Proof.
  intros [H1 _] [H2 _] Hne. destruct (leid_cmp_spec id i H1 H2) as (Hlt & Heq & Hgt).
  destruct (leid_lt_trichotomy id i) as [H|[H|H]]; [right|done|left]; (split; [done|]).
  - apply Hlt in H. split; [apply Z.ltb_ge|apply Z.ltb_lt]; lia.
  - apply Hgt in H. split; [apply Z.ltb_lt|apply Z.ltb_ge]; lia.
Qed.

(** Where an identifier belongs in an ordered list. *)
Lemma cut_ordered id (l : list (nat * leid)) :
  ordered l.*2 -> wf_leid id -> id ∉ l.*2 ->
  exists l1 l2, l = l1 ++ l2 /\ Forall (fun x => leid_lt x.2 id) l1 /\ Forall (fun x => leid_lt id x.2) l2.
Proof.
  intros [Hwf Hs] Hid Hni. induction l as [|[a i] l IH]; [by exists [], []|]. cbn [fmap list_fmap] in *.
  apply Forall_cons in Hwf as [Hi Hwf]. apply StronglySorted_inv in Hs as [Hs Hall].
  destruct (cmp_cases id i Hid Hi) as [(Hlt & _)|(Hlt & _)]; [set_solver| |].
  - destruct IH as (l1 & l2 & -> & H1 & H2); [done|done|set_solver|]. exists ((a, i) :: l1), l2. split_and!; [done|by constructor|done].
  - exists [], ((a, i) :: l). split_and!; [done|constructor|]. constructor; [done|].
    rewrite Forall_fmap in Hall. eapply Forall_impl; [exact Hall|]. intros x Hx. cbn in *. by transitivity i.
Qed.

Lemma place_cut p id l1 l2 :
  Forall wf_leid (l1 ++ l2).*2 -> wf_leid id ->
  Forall (fun x => leid_lt x.2 id) l1 -> Forall (fun x => leid_lt id x.2) l2 ->
  place p id (l1 ++ l2) = l1 ++ (p, id) :: l2.
Proof.
  intros Hwf Hid H1 H2. rewrite fmap_app, Forall_app in Hwf. destruct Hwf as [Hw1 Hw2].
  induction l1 as [|[a i] l1 IH]; cbn [app place].
  - destruct l2 as [|[b j] l2]; [done|]. cbn [place]. apply Forall_cons in H2 as [H2 _]. cbn in *. apply Forall_cons in Hw2 as [Hj _].
    by rewrite (proj2 (Z.ltb_ge _ _)) by (apply (leid_cmp_lt id j Hid Hj) in H2; lia).
  - cbn in *. apply Forall_cons in H1 as [H1 H1'], Hw1 as [Hi Hw1]. cbn in H1.
    destruct (leid_cmp_spec id i) as (_ & _ & Hgt); [apply Hid|apply Hi|].
    rewrite (proj2 (Z.ltb_lt _ _)) by (apply Hgt in H1; lia). by rewrite IH.
Qed.

Lemma ordered_place id (l1 l2 : list leid) :
  ordered (l1 ++ l2) -> wf_leid id -> Forall (fun i => leid_lt i id) l1 -> Forall (fun i => leid_lt id i) l2 ->
  ordered (l1 ++ id :: l2).
Proof.
  intros [Hwf Hs] Hid H1 H2. apply Forall_app in Hwf as [Hw1 Hw2]. split; [apply Forall_app; split; [done|by constructor]|].
  apply StronglySorted_app in Hs as (Hx & Hs1 & Hs2). apply StronglySorted_app. split_and!; [|done|by constructor].
  rewrite Forall_forall in *. intros x y Hxl Hy. apply elem_of_cons in Hy as [->|Hy]; [by apply H1|by apply Hx].
Qed.

(** The loop stops between the smaller and the larger positions. *)
Lemma find_place_spec s id l1 l2 : forall p q fuel,
  seg s q (l1 ++ l2) None -> Forall wf_leid (l1 ++ l2).*2 -> wf_leid id ->
  Forall (fun x => leid_lt x.2 id) l1 -> Forall (fun x => leid_lt id x.2) l2 -> (length l1 < fuel)%nat ->
  exists m, find_place fuel s id p q = Ok (default p (last l1.*1), m) /\ seg s m l2 None.
Proof.
  induction l1 as [|[a i] l1 IH]; intros p q fuel Hs Hwf Hid H1 H2 Hf; (destruct fuel as [|fuel]; [cbn in Hf; lia|]); cbn [find_place app] in *.
  - exists q. split; [|done]. destruct l2 as [|[b j] l2]; cbn [seg] in Hs; [by subst|].
    destruct Hs as (-> & e & He & Hp & Hs). rewrite He. cbn [mbind res_bind]. rewrite Hp. cbn [of_option mbind res_bind].
    apply Forall_cons in H2 as [H2 _]. cbn in *. apply Forall_cons in Hwf as [Hj _].
    by rewrite (proj2 (Z.ltb_ge _ _)) by (apply (leid_cmp_lt id j Hid Hj) in H2; lia).
  - cbn [seg] in Hs. destruct Hs as (-> & e & He & Hp & Hs). rewrite He. cbn [mbind res_bind]. rewrite Hp. cbn [of_option mbind res_bind].
    cbn in Hwf. apply Forall_cons in H1 as [H1 H1'], Hwf as [Hi Hwf]. cbn in H1.
    destruct (leid_cmp_spec id i) as (_ & _ & Hgt); [apply Hid|apply Hi|].
    rewrite (proj2 (Z.ltb_lt _ _)) by (apply Hgt in H1; lia).
    destruct (IH a (l_next e) fuel) as (m & Hm & Hsm); try done; [cbn in Hf; lia|].
    exists m. split; [|done]. rewrite Hm. do 2 f_equal. cbn. by destruct (last l1.*1) eqn:Hl; rewrite last_cons, Hl.
Qed.

(** ** Steps *)

Lemma elem_at_set s p (a : A) q :
  elem_at (set_heap s (<[p := inj a]> (heap s))) q = if decide (q = p) then Ok a else elem_at s q.
Proof.
  unfold elem_at. cbn [heap set_heap]. case_decide as Hq; [subst; rewrite lookup_insert_eq, prj_inj; done|].
  by rewrite lookup_insert_ne.
Qed.

Lemma elem_at_cell s p (e : A) : elem_at s p = Ok e -> is_Some (heap s !! p).
Proof. unfold elem_at. destruct (heap s !! p) as [c|]; [by exists c|done]. Qed.

Lemma insert_cell (hp : gmap nat E) p c q : is_Some (hp !! p) -> is_Some (<[p := c]> hp !! q) -> is_Some (hp !! q).
Proof. intros Hp. destruct (decide (q = p)) as [->|Hq]; [done|]. by rewrite lookup_insert_ne. Qed.

Lemma wp_load_at (w : world E) p (e : A) Q : elem_at (srv w) p = Ok e -> Q (Some e) w -> wp (load p) w Q.
Proof.
  intros He HQ. unfold load. apply wp_bind, wp_get_srv. unfold elem_at in He.
  destruct (heap (srv w) !! p) as [c|]; [|done]. by eapply wp_lift.
Qed.

Lemma wp_store_at (w : world E) p (e : A) (Q : option unit -> world E -> Prop) :
  Q (Some tt) (mkWorld (set_heap (srv w) (<[p := inj e]> (heap (srv w)))) (cli w) (capacity w)) -> wp (store p e) w Q.
Proof. intros HQ. unfold store. by apply wp_bind, wp_get_srv, wp_put_srv. Qed.

Lemma wp_getHead (w : world E) K h Q :
  db (srv w) !! K = Some (OHash h) -> match h !! "head" with None | Some (HPtr _) => True | _ => False end ->
  Q (Some (head_of h)) w -> wp (getHead K) w Q.
Proof.
  intros Hd Hh HQ. unfold getHead, hashTypeGetValueObject. apply wp_bind, wp_bind, wp_lookupKey. rewrite Hd.
  cbn [as_hash]. wp_steps. unfold head_of in HQ. destruct (h !! "head") as [[p|z|t]|]; [|done..|]; by wp_steps.
Qed.

Definition put_hash (s : server E) (K : string) (h : gmap string hval) : server E := set_db s (<[K := OHash h]> (db s)).

Lemma wp_setHead (w : world E) K h p Q :
  db (srv w) !! K = Some (OHash h) ->
  Q (Some tt) (mkWorld (put_hash (srv w) K (<["head" := HPtr p]> h)) (cli w) (capacity w)) -> wp (setHead K p) w Q.
Proof.
  intros Hd HQ. unfold setHead, hashTypeSet. apply wp_bind, wp_lookupKey. rewrite Hd. cbn [as_hash]. wp_steps.
  unfold put_obj. by wp_steps.
Qed.

(** The element an insert names as its predecessor: not there, without a
    position yet, or in the list before the new one. *)
Definition pre_ok (s : server E) (l : list (nat * leid)) (id : leid) (pre : option nat) : Prop :=
  match pre with
  | None => True
  | Some q => exists e, elem_at s q = Ok e /\
      match l_pos e with None => True | Some qid => (q, qid) ∈ l /\ leid_lt qid id end
  end.

(** What linking an element leaves: the list with the element in place; of the
    other elements only [next] may have changed. *)
Record linked (w w' : world E) (K : string) (h : gmap string hval) (l : list (nat * leid)) (p : nat) (id : leid) : Prop := {
  lk_cli : cli w' = cli w;
  lk_cap : capacity w' = capacity w;
  lk_view : exists h', list_view (srv w') K h' (place p id l) /\ (forall f, f <> "head" -> h' !! f = h !! f);
  lk_keys : forall k, k <> K -> db (srv w') !! k = db (srv w) !! k;
  lk_elems : forall q e, elem_at (srv w) q = Ok e -> elem_at (srv w') q = Ok e \/ exists n, elem_at (srv w') q = Ok (l_set_next e n);
  lk_rest : set_heap (set_db (srv w') ∅) ∅ = set_heap (set_db (srv w) ∅) ∅;
  lk_cells : forall q, q ∉ p :: l.*1 -> heap (srv w') !! q = heap (srv w) !! q;
  lk_dom : forall q, is_Some (heap (srv w') !! q) -> is_Some (heap (srv w) !! q)
}.

Lemma seg_head s l : seg s None l None -> l = [].
Proof. destruct l as [|[a i] l]; [done|]. by intros [? _]. Qed.

Lemma seg_first s a l : seg s (Some a) l None -> exists i l' e, l = (a, i) :: l' /\ elem_at s a = Ok e /\ l_pos e = Some i.
Proof. destruct l as [|[b i] l]; [done|]. intros ([= ->] & e & He & Hi & _). by exists i, l, e. Qed.

(** The list ends up in order, for a new entry between [l1] and [l2]. *)
Lemma view_place s s' K h h' l1 l2 p id :
  list_view s K h (l1 ++ l2) -> wf_leid id -> p ∉ (l1 ++ l2).*1 ->
  Forall (fun x => leid_lt x.2 id) l1 -> Forall (fun x => leid_lt id x.2) l2 ->
  db s' !! K = Some (OHash h') -> match h' !! "head" with None | Some (HPtr _) => True | _ => False end ->
  seg s' (head_of h') (l1 ++ (p, id) :: l2) None -> list_view s' K h' (place p id (l1 ++ l2)).
Proof.
  intros [_ _ _ Hnd Hord] Hid Hp H1 H2 Hd Hh Hs. rewrite place_cut by (done || apply Hord). split; try done.
  - rewrite fmap_app, fmap_cons in *. cbn [fst]. rewrite <- Permutation_middle, NoDup_cons. by split.
  - rewrite fmap_app, fmap_cons in *. cbn [snd]. apply ordered_place; try done; by rewrite Forall_fmap.
Qed.

(** Addresses of a list are cells of the heap: the loop's fuel is enough. *)
Lemma seg_size s p l q : seg s p l q -> NoDup l.*1 -> (length l <= base.size (heap s))%nat.
Proof.
  intros Hs Hnd. rewrite <- (length_fmap fst l), <- (size_list_to_set (C := gset nat) _ Hnd), <- size_dom.
  apply subseteq_size. intros a Ha. apply elem_of_list_to_set, list_elem_of_fmap in Ha as ([b i] & -> & Ha).
  destruct (seg_elem _ _ _ _ _ _ Hs Ha) as (e & He & _). unfold elem_at in He. apply elem_of_dom. cbn [fst].
  destruct (heap s !! b) as [c|]; [by exists c|done].
Qed.

Lemma seg_set s a (e : A) p l q :
  a ∉ l.*1 -> seg s p l q -> seg (set_heap s (<[a := inj e]> (heap s))) p l q.
Proof. intros Ha. apply seg_ext. intros b Hb. rewrite elem_at_set, decide_False; [done|]. by intros ->. Qed.

(** The two stores that put [p] after [z]. *)
Definition spliced (s : server E) (z : nat) (ze : A) (p : nat) (e : A) (m : option nat) : server E :=
  let s1 := set_heap s (<[z := inj (l_set_next ze (Some p))]> (heap s)) in
  set_heap s1 (<[p := inj (l_set_next e m)]> (heap s1)).

Lemma elem_at_spliced s z ze p e m q :
  elem_at (spliced s z ze p e m) q =
    if decide (q = p) then Ok (l_set_next e m) else if decide (q = z) then Ok (l_set_next ze (Some p)) else elem_at s q.
Proof. unfold spliced. by rewrite !elem_at_set. Qed.

Lemma seg_spliced s hd l1 l2 z zid ze p id e m :
  seg s hd (l1 ++ [(z, zid)]) m -> seg s m l2 None -> NoDup ((l1 ++ [(z, zid)]) ++ l2).*1 -> p ∉ ((l1 ++ [(z, zid)]) ++ l2).*1 ->
  elem_at s z = Ok ze -> l_pos e = Some id ->
  seg (spliced s z ze p e m) hd ((l1 ++ [(z, zid)]) ++ (p, id) :: l2) None.
Proof.
  intros H1 H2 Hnd Hp Hz He. rewrite !fmap_app in *. cbn [fmap list_fmap fst] in *.
  apply NoDup_app in Hnd as (Hnd & Hdis & _). apply NoDup_app in Hnd as (_ & Hz1 & _).
  assert (Hout : forall q, q <> p -> q <> z -> elem_at (spliced s z ze p e m) q = elem_at s q).
  { intros q Hq1 Hq2. by rewrite elem_at_spliced, !decide_False by done. }
  apply seg_app in H1 as (t & H1 & H3). cbn [seg] in H3. destruct H3 as (-> & ze' & Hz' & Hzid & _).
  rewrite Hz in Hz'. injection Hz' as <-. assert (z <> p) by set_solver.
  rewrite <- app_assoc. apply seg_app. exists (Some z). split.
  { eapply seg_ext; [|exact H1]. intros a Ha. apply Hout; [set_solver|]. intros ->. apply (Hz1 z Ha). set_solver. }
  cbn [app seg]. split; [done|]. exists (l_set_next ze (Some p)). rewrite elem_at_spliced, decide_False, decide_True, l_pos_set, l_next_set by done.
  split_and!; try done. exists (l_set_next e m). rewrite elem_at_spliced, decide_True, l_pos_set, l_next_set by done.
  split_and!; try done. eapply seg_ext; [|exact H2]. intros a Ha. apply Hout; [set_solver|]. intros ->. apply (Hdis z); set_solver.
Qed.

Lemma elem_of_place p id l q i : (q, i) ∈ place p id l <-> (q, i) = (p, id) \/ (q, i) ∈ l.
Proof.
  induction l as [|[a j] l IH]; cbn [place]; [set_solver|].
  destruct (0 <? leid_cmp id j); rewrite !elem_of_cons; [rewrite IH|]; tauto.
Qed.

(** ** Linking an element *)

Context (w : world E) (K : string) (h : gmap string hval) (l : list (nat * leid)) (p : nat) (id : leid) (e : A).
Context (Hview : list_view (srv w) K h l) (He : elem_at (srv w) p = Ok e) (Hpos : l_pos e = Some id).
Context (Hp : p ∉ l.*1) (Hid : wf_leid id) (Hfresh : id ∉ l.*2).

(** In front of the list, which may be empty. *)
Lemma linked_front n :
  Forall (fun x => leid_lt id x.2) l -> n = head_of h -> 
  linked w (mkWorld (set_heap (put_hash (srv w) K (<["head" := HPtr p]> h)) (<[p := inj (l_set_next e n)]> (heap (srv w)))) (cli w) (capacity w)) K h l p id.
Proof.
  intros Hl ->. split; cbn [srv cli capacity]; [done|done| | | |done| |].
  - exists (<["head" := HPtr p]> h). split; [|intros f Hf; by rewrite lookup_insert_ne].
    apply (view_place (srv w) _ K h _ [] l); try done; [apply lookup_insert_eq|by rewrite lookup_insert_eq|].
    assert (head_of (<["head" := HPtr p]> h) = Some p) as -> by (unfold head_of; by rewrite lookup_insert_eq). cbn [app seg]. split; [done|]. exists (l_set_next e (head_of h)).
    change (heap (srv w)) with (heap (put_hash (srv w) K (<["head" := HPtr p]> h))).
    rewrite elem_at_set, decide_True, l_pos_set, l_next_set by done. split_and!; [done..|].
    apply seg_set; [done|]. eapply seg_ext; [|apply (lv_seg _ _ _ _ Hview)]. done.
  - intros k Hk. by apply lookup_insert_ne.
  - intros q e1 Hq. change (heap (srv w)) with (heap (put_hash (srv w) K (<["head" := HPtr p]> h))). rewrite elem_at_set.
    case_decide; [|by left]. subst. rewrite He in Hq. injection Hq as <-. right. by exists (head_of h).
  - intros q Hq. cbn [heap set_heap]. apply lookup_insert_ne. set_solver.
  - intros q. apply insert_cell. by eapply elem_at_cell.
Qed.

(** After the last smaller element. *)
Lemma linked_after l1 l2 z zid ze m :
  l = (l1 ++ [(z, zid)]) ++ l2 -> Forall (fun x => leid_lt x.2 id) (l1 ++ [(z, zid)]) -> Forall (fun x => leid_lt id x.2) l2 ->
  seg (srv w) (head_of h) (l1 ++ [(z, zid)]) m -> seg (srv w) m l2 None -> elem_at (srv w) z = Ok ze ->
  linked w (mkWorld (spliced (srv w) z ze p e m) (cli w) (capacity w)) K h l p id.
Proof.
  intros -> H1 H2 Hs1 Hs2 Hz. split; cbn [srv cli capacity]; [done|done| |done| |done| |].
  - exists h. split; [|done]. apply (view_place (srv w) _ K h); try done; [apply Hview..|].
    apply (seg_spliced _ _ _ _ _ _ _ _ _ _ _ Hs1 Hs2); try done. apply Hview.
  - intros q e1 Hq. rewrite elem_at_spliced. repeat case_decide; subst; [| |by left]; right; rewrite Hq in *; simplify_eq; by eexists.
  - intros q Hq. unfold spliced. cbn [heap set_heap]. rewrite !fmap_app in Hq. cbn [fmap list_fmap fst] in Hq.
    rewrite !lookup_insert_ne by set_solver. done.
  - intros q Hq. unfold spliced in Hq. cbn [heap set_heap] in Hq.
    apply insert_cell in Hq; [|apply lookup_insert_is_Some'; right]; [apply insert_cell in Hq; [done|]|]; by eapply elem_at_cell.
Qed.

(** A start that is smaller: the loop ends at the last smaller element. *)
Lemma find_from l1 l2 start sid se :
  l = l1 ++ l2 -> Forall (fun x => leid_lt x.2 id) l1 -> Forall (fun x => leid_lt id x.2) l2 ->
  (start, sid) ∈ l1 -> elem_at (srv w) start = Ok se ->
  exists l3 z zid m, l1 = l3 ++ [(z, zid)] /\
    find_place (S (base.size (heap (srv w)))) (srv w) id start (l_next se) = Ok (z, m) /\
    seg (srv w) (head_of h) l1 m /\ seg (srv w) m l2 None.
Proof.
  intros -> H1 H2 Hin Hse. destruct Hview as [_ _ Hs Hnd [Hwf _]]. pose proof (seg_size _ _ _ _ Hs Hnd) as Hsz.
  apply list_elem_of_split in Hin as (la & lb & ->). rewrite <- app_assoc in Hs. cbn [app] in Hs.
  apply seg_app in Hs as (t & Hsa & Hs). cbn [seg] in Hs. destruct Hs as (-> & se' & Hse' & Hsid & Hs).
  rewrite Hse in Hse'. injection Hse' as <-. rewrite <- app_assoc in Hwf. cbn [app] in Hwf. rewrite fmap_app, fmap_cons in Hwf.
  apply Forall_app in Hwf as [_ Hwf]. apply Forall_cons in Hwf as [_ Hwf].
  apply Forall_app in H1 as [_ H1]. apply Forall_cons in H1 as [_ H1]. rewrite !length_app in Hsz. cbn [length] in Hsz.
  destruct (find_place_spec (srv w) id lb l2 start (l_next se) (S (base.size (heap (srv w))))) as (m & Hm & Hsm); try done; [lia|].
  apply seg_app in Hs as (m' & Hsb & Hsm').
  assert (m' = m) as -> by (destruct l2 as [|[b j] l2]; cbn [seg] in *; [by subst|by destruct Hsm as [-> _], Hsm' as [-> _]]).
  assert (Hfull : seg (srv w) (head_of h) (la ++ (start, sid) :: lb) m)
    by (apply seg_app; exists (Some start); split; [done|]; cbn [seg]; split; [done|]; by exists se).
  destruct lb as [|[b j] lb _] using rev_ind.
  - exists la, start, sid, m. split_and!; done.
  - exists (la ++ (start, sid) :: lb), b, j, m. rewrite fmap_app, last_app in Hm. cbn in Hm. by rewrite <- app_assoc.
Qed.

(** What the lookup of the predecessor does: it changes nothing. *)
Context (Hnext : l_next e = None) (get_pre : M (option nat)).
Context (Hpre : wp get_pre w (fun r w' => w' = w /\ exists pre, r = Some pre /\ pre_ok (srv w) l id pre)).

Lemma linked_first : l = [] -> forall s, s = put_hash (srv w) K (<["head" := HPtr p]> h) ->
  linked w (mkWorld s (cli w) (capacity w)) K h l p id.
Proof.
  intros Hl s ->. split; cbn [srv cli capacity]; [done|done| | | |done..].
  - exists (<["head" := HPtr p]> h). split; [|intros f Hf; by rewrite lookup_insert_ne]. subst l.
    apply (view_place (srv w) _ K h _ [] []); try done; [apply lookup_insert_eq|by rewrite lookup_insert_eq|].
    assert (head_of (<["head" := HPtr p]> h) = Some p) as -> by (unfold head_of; by rewrite lookup_insert_eq).
    cbn [app seg]. split; [done|]. by exists e.
  - intros k Hk. by apply lookup_insert_ne.
  - by left.
Qed.

Lemma wp_link_after l1 l2 start sid (Q : option unit -> world E -> Prop) :
  l = l1 ++ l2 -> Forall (fun x => leid_lt x.2 id) l1 -> Forall (fun x => leid_lt id x.2) l2 -> (start, sid) ∈ l1 ->
  (forall w', linked w w' K h l p id -> Q (Some tt) w') ->
  wp (se ← load start;
      s ← get_srv;
      r ← lift (find_place (S (base.size (heap s))) s id start (l_next se));
      e1 ← load r.1;
      _ ← store r.1 (l_set_next e1 (Some p));
      e ← load p;
      store p (l_set_next e r.2)) w Q.
Proof.
  intros Hl H1 H2 Hin HQ. destruct (seg_elem _ _ _ _ start sid (lv_seg _ _ _ _ Hview)) as (se & Hse & _); [rewrite Hl; set_solver|].
  destruct (find_from l1 l2 start sid se Hl H1 H2 Hin Hse) as (l3 & z & zid & m & -> & Hf & Hs1 & Hs2).
  destruct (seg_elem _ _ _ _ z zid (lv_seg _ _ _ _ Hview)) as (ze & Hze & _); [rewrite Hl; set_solver|].
  assert (z <> p) as Hzp by (intros ->; apply Hp; rewrite Hl, !fmap_app; cbn; set_solver).
  apply wp_bind, (wp_load_at _ _ se _ Hse), wp_bind, wp_get_srv, wp_bind. eapply wp_lift; [exact Hf|]. cbn [fst snd].
  apply wp_bind, (wp_load_at _ _ ze _ Hze), wp_bind, wp_store_at, wp_bind, (wp_load_at _ _ e).
  { cbn [srv]. rewrite elem_at_set, decide_False; done. }
  apply wp_store_at. by apply HQ, (linked_after l3 l2 z zid ze m).
Qed.

Lemma wp_link_element : wp (link_element K p id get_pre) w (fun r w' => r = Some tt /\ linked w w' K h l p id).
Proof.
  pose proof Hview as [Hd Hh Hs Hnd Hord]. unfold link_element. apply wp_bind, (wp_getHead _ _ h); [done..|].
  destruct (cut_ordered id l Hord Hid Hfresh) as (l1 & l2 & Hl & H1 & H2).
  destruct (head_of h) as [hd|] eqn:Hhd; cycle 1.
  { apply seg_head in Hs. apply (wp_setHead _ _ h); [done|]. split; [done|]. by apply linked_first. }
  apply seg_first in Hs as (i & l' & ae & Hl0 & Hae & Hai).
  apply wp_bind, (wp_load_at _ _ ae _ Hae), wp_bind. rewrite Hai. eapply wp_lift; [reflexivity|].
  assert (Hii : wf_leid i) by (destruct Hord as [Hwf _]; rewrite Hl0 in Hwf; by apply Forall_cons in Hwf as [? _]).
  destruct (cmp_cases id i Hid Hii) as [(Hlt & _ & Hc)|(Hlt & _ & Hc)]; [intros ->; apply Hfresh; rewrite Hl0; by left| |]; rewrite Hc.
  - assert (Hin1 : (hd, i) ∈ l1).
    { rewrite Hl in Hl0. destruct l1 as [|x l1]; cbn [app] in Hl0; [|injection Hl0 as -> _; by left]. subst l2. apply Forall_cons in H2 as [H2 _].
      cbn in H2. exfalso. apply (irreflexivity leid_lt i). by transitivity id. }
    apply wp_bind. eapply wp_mono; [exact Hpre|]. intros r w' [-> (pre & -> & Hok)]. cbn beta iota.
    apply wp_bind. destruct pre as [q|]; [|apply wp_mret; by eapply wp_link_after].
    destruct Hok as (qe & Hqe & Hq). apply wp_bind, (wp_load_at _ _ qe _ Hqe). apply wp_mret.
    destruct (l_pos qe) as [qid|]; [|by eapply wp_link_after]. destruct Hq as [Hq Hqlt].
    eapply (wp_link_after l1 l2 q qid); try done. rewrite Hl in Hq. apply elem_of_app in Hq as [?|Hq]; [done|].
    rewrite Forall_forall in H2. apply H2 in Hq. cbn in Hq. exfalso. apply (irreflexivity leid_lt id). by transitivity qid.
  - apply wp_bind, (wp_setHead _ _ h); [done|]. apply wp_bind, (wp_load_at _ _ e); [done|]. apply wp_store_at. split; [done|].
    apply (linked_front (Some hd)); [|done]. destruct l1 as [|x l1]; [by rewrite Hl|]. apply Forall_cons in H1 as [H1 _].
    rewrite Hl in Hl0. injection Hl0 as -> _. cbn in H1. exfalso. apply (irreflexivity leid_lt i). by transitivity id.
Qed.
End Link.
