(* ===== verification/ListSpec.v ===== *)
(** * Lists as the commands see them

    The hash of a list related to what it stands for: the elements by their
    ids, the order in which the links visit them, and the length.  What the
    accesses the two list types share do to it. *)

From S2P Require Import Prelude Sds VectorClock Leid Double Util Skiplist Zset Store Crdt Container ListBasics ListLink.
From Stdlib Require Import Ascii.

Section ListSpec.
Context {A E : Type} `{!Cell A E, !Linked A}.
(** The names of fields that are not elements. *)
Context (reserved : list string) (res_head : "head" ∈ reserved) (res_len : "length" ∈ reserved).
Implicit Types (w : world E) (s : server E).

(** An element without its link. *)
Definition erase (e : A) : A := l_set_next e None.

(** What a list stands for; [m_extra] holds the reserved fields other than the
    head and the length. *)
Record lmodel := mkLm {
  m_ptrs : gmap string nat;
  m_els : gmap string A;
  m_order : list (nat * leid);
  m_len : Z;
  m_extra : gmap string hval
}.

Record hview s (h : gmap string hval) (m : lmodel) : Prop := {
  hv_head : match h !! "head" with None | Some (HPtr _) => True | _ => False end;
  hv_seg : seg s (head_of h) (m_order m) None;
  hv_nodup : NoDup (m_order m).*1;
  hv_ordered : ordered (m_order m).*2;
  hv_field : forall o, o ∉ reserved -> h !! o = HPtr <$> m_ptrs m !! o;
  hv_plain : forall o p, m_ptrs m !! o = Some p -> o ∉ reserved;
  hv_inj : forall o o' p, m_ptrs m !! o = Some p -> m_ptrs m !! o' = Some p -> o = o';
  hv_els : forall o, match m_ptrs m !! o with
                     | Some p => exists e, elem_at s p = Ok e /\ m_els m !! o = Some (erase e)
                     | None => m_els m !! o = None
                     end;
  hv_order : forall p id, (p, id) ∈ m_order m <->
               exists o e, m_ptrs m !! o = Some p /\ m_els m !! o = Some e /\ l_pos e = Some id;
  hv_len : match h !! "length" with None => m_len m = 0 | Some v => v = HInt (m_len m) end;
  hv_extra : forall f, f ∈ reserved -> f <> "head" -> f <> "length" -> h !! f = m_extra m !! f;
  hv_fresh : forall q, is_Some (heap s !! q) -> (q < next_addr s)%nat;
  hv_unlinked : forall o p e, m_ptrs m !! o = Some p -> elem_at s p = Ok e -> l_pos e = None -> l_next e = None
}.

(** The list under the key [K]; a missing key is an empty list. *)
Definition lview s (K : string) (m : lmodel) : Prop :=
  match db s !! K with
  | Some (OHash h) => hview s h m
  | None => hview s ∅ m
  | Some _ => False
  end.

(** No key, no list. *)
Lemma lview_empty s K :
  db s !! K = None -> (forall q, is_Some (heap s !! q) -> (q < next_addr s)%nat) -> lview s K (mkLm ∅ ∅ [] 0 ∅).
Proof.
  intros Hd Hf. unfold lview. rewrite Hd. split; cbn [m_ptrs m_els m_order m_len m_extra]; try done.
  - apply NoDup_nil_2.
  - split; constructor.
  - intros p id. split; [by intros ?%elem_of_nil|]. by intros (o & e & H & _).
Qed.

(** The key of the list names a hash. *)
Definition is_list s (K : string) : Prop := exists h, db s !! K = Some (OHash h).

(** An access that takes the list from [m] to [m']. *)
Record lstep w w' (K : string) (m m' : lmodel) : Prop := {
  ls_cli : cli w' = cli w;
  ls_cap : capacity w' = capacity w;
  ls_conf : same_conf (srv w) (srv w');
  ls_rng : rng (srv w') = rng (srv w);
  ls_keys : forall k, k <> K -> db (srv w') !! k = db (srv w) !! k;
  ls_ptrs : m_ptrs m ⊆ m_ptrs m';
  ls_cells : forall q, (forall o, m_ptrs m' !! o <> Some q) -> (q < next_addr (srv w))%nat ->
               heap (srv w') !! q = heap (srv w) !! q;
  ls_next : (next_addr (srv w) <= next_addr (srv w'))%nat;
  ls_list : is_list (srv w) K -> is_list (srv w') K;
  ls_view : lview (srv w') K m'
}.

Lemma lstep_refl w K m : lview (srv w) K m -> lstep w w K m m.
Proof. intros H. by split. Qed.

Lemma lstep_trans w1 w2 w3 K m1 m2 m3 : lstep w1 w2 K m1 m2 -> lstep w2 w3 K m2 m3 -> lstep w1 w3 K m1 m3.
Proof.
  intros [??(?&?&?&?)? Hk1 Hp1 Hc1 ???] [??(?&?&?&?)? Hk2 Hp2 Hc2 ???].
  split; [congruence..|unfold same_conf; split_and!; congruence|congruence| |by etrans| |lia|by auto|done].
  - intros k Hk. by rewrite Hk2, Hk1.
  - intros q Hq Hlt. rewrite Hc2, Hc1; [done| |done|done|lia].
    intros o Ho. apply (Hq o). by eapply lookup_weaken.
Qed.

Lemma hview_ext s s' h m :
  heap s' = heap s -> next_addr s' = next_addr s -> hview s h m -> hview s' h m.
Proof.
  intros Hh Hn [H1 H2 H3 H4 H5 H6 H7 H8 H9 H10 H11 H12 H13].
  assert (forall p, elem_at s' p = elem_at s p) as He by (intros p; unfold elem_at; by rewrite Hh).
  split; try done.
  - eapply seg_ext; [|done]. intros a _. apply He.
  - intros o. specialize (H8 o). destruct (m_ptrs m !! o); [|done]. by rewrite He.
  - by rewrite Hh, Hn.
  - intros o p e. rewrite He. apply H13.
Qed.

Lemma lview_ext s s' K m :
  db s' !! K = db s !! K -> heap s' = heap s -> next_addr s' = next_addr s -> lview s K m -> lview s' K m.
Proof.
  intros Hd Hh Hn. unfold lview. rewrite Hd. destruct (db s !! K) as [[h|z|t b1 b2]|]; try done; by apply hview_ext.
Qed.

Lemma lstep_dirty w w' K m m' :
  lstep w w' K m m' -> lstep w (mkWorld (add_dirty (srv w')) (cli w') (capacity w')) K m m'.
Proof. intros [?????????]. split; try done. eapply lview_ext; [..|done]; done. Qed.

(** ** Elements *)

Lemma hview_elem s h m o p e :
  hview s h m -> m_ptrs m !! o = Some p -> m_els m !! o = Some e ->
  exists e1, elem_at s p = Ok e1 /\ erase e1 = e.
Proof. intros H Hp He. pose proof (hv_els _ _ _ H o) as Ho. rewrite Hp in Ho. destruct Ho as (e1 & H1 & H2). exists e1. split; [done|]. congruence. Qed.

Lemma lview_elem s K m o p e :
  lview s K m -> m_ptrs m !! o = Some p -> m_els m !! o = Some e -> exists e1, elem_at s p = Ok e1 /\ erase e1 = e.
Proof.
  intros H. unfold lview in H. destruct (db s !! K) as [[h|z|t b1 b2]|]; try done; by eapply hview_elem.
Qed.

Lemma erased s K m o e : lview s K m -> m_els m !! o = Some e -> erase e = e.
Proof.
  intros Hv He. unfold lview in Hv.
  assert (forall h, hview s h m -> erase e = e) as Hx.
  { intros h H. pose proof (hv_els _ _ _ H o) as Hel. destruct (m_ptrs m !! o); [|congruence].
    destruct Hel as (e1 & _ & Hel). rewrite He in Hel. injection Hel as ->. apply l_set_set. }
  destruct (db s !! K) as [[h|z|t b1 b2]|]; try done; by eapply Hx.
Qed.

Lemma erase_pos e : l_pos (erase e) = l_pos e.
Proof. apply l_pos_set. Qed.

Lemma wp_lload w K m o p e Q :
  lview (srv w) K m -> m_ptrs m !! o = Some p -> m_els m !! o = Some e ->
  (forall e1, elem_at (srv w) p = Ok e1 -> erase e1 = e -> Q (Some e1) w) -> wp (load p) w Q.
Proof.
  intros H Hp He HQ. destruct (lview_elem _ _ _ _ _ _ H Hp He) as (e1 & H1 & H2). eapply wp_load_at; [done|]. by apply HQ.
Qed.

Definition set_el (m : lmodel) (o : string) (e : A) : lmodel :=
  mkLm (m_ptrs m) (<[o := e]> (m_els m)) (m_order m) (m_len m) (m_extra m).

(** A cell of the list overwritten, with the position and the link kept. *)
Lemma hview_store s h m o p e e' :
  hview s h m -> m_ptrs m !! o = Some p -> elem_at s p = Ok e -> l_pos e' = l_pos e -> l_next e' = l_next e ->
  hview (set_heap s (<[p := inj e']> (heap s))) h (set_el m o (erase e')).
Proof.
  intros [H1 H2 H3 H4 H5 H6 H7 H8 H9 H10 H11 H12 H13] Hp He Hpos Hnext.
  assert (Hel : m_els m !! o = Some (erase e)).
  { specialize (H8 o). rewrite Hp in H8. destruct H8 as (e1 & Hh & Hel). congruence. }
  split; cbn [set_el m_ptrs m_els m_order m_len m_extra]; try done.
  - revert H2. generalize (head_of h). clear H3 H4 H9. induction (m_order m) as [|[a i] l IH]; intros q; [done|].
    cbn [seg]. intros (-> & ea & Ha & Hi & Hs). split; [done|]. rewrite elem_at_set. case_decide as Heq.
    + subst. rewrite He in Ha. injection Ha as <-. exists e'. rewrite Hpos, Hnext. auto.
    + exists ea. auto.
  - intros o'. destruct (decide (o' = o)) as [->|Ho].
    + rewrite Hp, lookup_insert_eq. exists e'. rewrite elem_at_set, decide_True by done. done.
    + rewrite lookup_insert_ne by done. specialize (H8 o'). destruct (m_ptrs m !! o') as [p'|] eqn:Hp'; [|done].
      destruct H8 as (e1 & Hh & Hel'). exists e1. rewrite elem_at_set, decide_False; [done|]. intros ->. by eapply Ho, H7.
  - intros p' id. rewrite H9. split; intros (o' & e1 & Ho1 & Ho2 & Ho3); exists o'.
    + destruct (decide (o' = o)) as [->|Ho]; [|exists e1; by rewrite lookup_insert_ne].
      exists (erase e'). rewrite lookup_insert_eq. split_and!; try done. rewrite erase_pos, Hpos. rewrite Hel in Ho2.
      injection Ho2 as <-. by rewrite erase_pos in Ho3.
    + destruct (decide (o' = o)) as [->|Ho]; [|exists e1; by rewrite lookup_insert_ne in Ho2].
      rewrite lookup_insert_eq in Ho2. injection Ho2 as <-. exists (erase e). split_and!; try done.
      by rewrite erase_pos, <- Hpos, <- (erase_pos e').
  - intros q. cbn [heap set_heap next_addr]. intros Hq. apply H12. eapply insert_cell; [|exact Hq]. by eapply elem_at_cell.
  - intros o' p' e1 Hp'. rewrite elem_at_set. case_decide as Heq; [|by apply (H13 o')]. subst. intros [= <-].
    rewrite Hpos, Hnext. by apply (H13 o p).
Qed.

Lemma wp_lstore w K m o p e e' (Q : option unit -> world E -> Prop) :
  lview (srv w) K m -> m_ptrs m !! o = Some p -> elem_at (srv w) p = Ok e -> l_pos e' = l_pos e -> l_next e' = l_next e ->
  (forall w', lstep w w' K m (set_el m o (erase e')) -> elem_at (srv w') p = Ok e' -> Q (Some tt) w') ->
  wp (store p e') w Q.
Proof.
  intros Hv Hp He Hpos Hnext HQ. apply wp_store_at, HQ; [|cbn [srv]; by rewrite elem_at_set, decide_True].
  split; try done.
  - intros q Hq _. cbn [srv set_heap heap]. apply lookup_insert_ne. intros <-. by eapply Hq.
  - unfold lview in *. cbn [srv set_heap db] in *. destruct (db (srv w) !! K) as [[h|z|t b1 b2]|]; try done; by eapply hview_store.
Qed.

(** ** The hash of the list *)

(** A reserved field written. *)
Lemma hview_len s h m z :
  hview s h m -> hview s (<["length" := HInt z]> h) (mkLm (m_ptrs m) (m_els m) (m_order m) z (m_extra m)).
Proof using res_len.
  intros [H1 H2 H3 H4 H5 H6 H7 H8 H9 H10 H11 H12 H13].
  assert (head_of (<["length" := HInt z]> h) = head_of h) as Hh by (unfold head_of; by rewrite lookup_insert_ne).
  split; cbn [m_ptrs m_els m_order m_len m_extra]; try done.
  - by rewrite lookup_insert_ne.
  - by rewrite Hh.
  - intros o Ho. rewrite lookup_insert_ne; [by apply H5|]. by intros <-.
  - by rewrite lookup_insert_eq.
  - intros f Hf1 Hf2 Hf3. rewrite lookup_insert_ne by done. by apply H11.
Qed.

Definition set_len (m : lmodel) (z : Z) : lmodel := mkLm (m_ptrs m) (m_els m) (m_order m) z (m_extra m).

Lemma lview_hash s K m h : lview s K m -> db s !! K = Some (OHash h) -> hview s h m.
Proof. intros H Hd. unfold lview in H. by rewrite Hd in H. Qed.

Lemma wp_getLen w K m Q : lview (srv w) K m -> is_list (srv w) K -> Q (Some (m_len m)) w -> wp (getLen K) w Q.
Proof.
  intros Hv [h Hd] HQ. pose proof (lview_hash _ _ _ _ Hv Hd) as H. unfold getLen, hashTypeGetValueObject.
  apply wp_bind, wp_bind, wp_lookupKey. rewrite Hd. wp_steps. pose proof (hv_len _ _ _ H) as Hl.
  destruct (h !! "length") as [v|]; [subst v; cbn [as_int]|rewrite Hl in HQ]; by wp_steps.
Qed.

Lemma lview_is_list s K m o p : lview s K m -> m_ptrs m !! o = Some p -> is_list s K.
Proof.
  intros Hv Hp. unfold lview in Hv. destruct (db s !! K) as [[h|z|t b1 b2]|] eqn:Hd; [by exists h|done|done|].
  pose proof (hv_field _ _ _ Hv o (hv_plain _ _ _ Hv _ _ Hp)) as Hf. by rewrite Hp, lookup_empty in Hf.
Qed.

Lemma put_hash_step w K m m' h h' :
  db (srv w) !! K = Some (OHash h) -> m_ptrs m' = m_ptrs m -> hview (srv w) h' m' ->
  lstep w (mkWorld (put_hash (srv w) K h') (cli w) (capacity w)) K m m'.
Proof.
  intros Hd Hp Hv. split; try done.
  - intros k Hk. cbn. by apply lookup_insert_ne.
  - by rewrite Hp.
  - intros _. eexists. cbn. by rewrite lookup_insert_eq.
  - unfold lview. cbn [srv put_hash set_db db]. rewrite lookup_insert_eq. eapply hview_ext; [..|done]; done.
Qed.

Lemma wp_incrLen w K m inc (Q : option unit -> world E -> Prop) :
  lview (srv w) K m -> is_list (srv w) K -> inc <> 0 ->
  (forall w', lstep w w' K m (set_len m (i32 (m_len m + inc))) ->
     (forall p, elem_at (srv w') p = elem_at (srv w) p :> res A) -> Q (Some tt) w') ->
  wp (incrLen K inc) w Q.
Proof using res_len.
  intros Hv Hl Hi HQ. unfold incrLen. rewrite (proj2 (Z.eqb_neq _ _)) by done. apply wp_bind.
  apply (wp_getLen w K m); [done..|]. destruct Hl as [h Hd]. unfold hashTypeSet. apply wp_bind, wp_lookupKey. rewrite Hd. wp_steps.
  unfold put_obj. wp_steps. apply HQ.
  - apply (put_hash_step w K m _ h); [done..|]. apply hview_len. by eapply lview_hash.
  - done.
Qed.

(** ** Finding and making elements *)

Definition add_el (m : lmodel) (o : string) (p : nat) (e : A) : lmodel :=
  mkLm (<[o := p]> (m_ptrs m)) (<[o := e]> (m_els m)) (m_order m) (m_len m) (m_extra m).

Lemma add_el_same m o p e : m_ptrs m !! o = Some p -> m_els m !! o = Some e -> add_el m o p e = m.
Proof. intros Hp He. unfold add_el. rewrite !insert_id by done. by destruct m. Qed.

Lemma ptr_below s h m o p : hview s h m -> m_ptrs m !! o = Some p -> (p < next_addr s)%nat.
Proof.
  intros H Hp. pose proof (hv_els _ _ _ H o) as He. rewrite Hp in He. destruct He as (e & He & _).
  apply (hv_fresh _ _ _ H). by eapply elem_at_cell.
Qed.

Lemma order_ptr s h m p id : hview s h m -> (p, id) ∈ m_order m -> exists o, m_ptrs m !! o = Some p.
Proof. intros H Hin. apply (hv_order _ _ _ H) in Hin as (o & e & Hp & _). eauto. Qed.

Lemma elem_at_alloc s (e : A) q : elem_at (alloc_cell s (inj e)) q = if decide (q = next_addr s) then Ok e else elem_at s q.
Proof.
  unfold elem_at. cbn [alloc_cell heap]. case_decide; [subst; by rewrite lookup_insert_eq, prj_inj|by rewrite lookup_insert_ne].
Qed.

Lemma hview_new s h m o e :
  hview s h m -> o ∉ reserved -> m_ptrs m !! o = None -> erase e = e -> l_pos e = None ->
  hview (alloc_cell s (inj e)) (<[o := HPtr (next_addr s)]> h) (add_el m o (next_addr s) e).
Proof using res_head res_len.
  intros H Ho Hn Hee Hpos. pose proof (ptr_below s h m) as Hb.
  assert (o <> "head" /\ o <> "length") as [Hoh Hol] by (by split; intros ->).
  assert (head_of (<[o := HPtr (next_addr s)]> h) = head_of h) as Hh by (unfold head_of; by rewrite lookup_insert_ne).
  split; cbn [add_el m_ptrs m_els m_order m_len m_extra].
  - rewrite lookup_insert_ne by done. apply H.
  - rewrite Hh. eapply seg_ext; [|apply H]. intros a (x & -> & Hx)%list_elem_of_fmap. destruct x as [a i].
    destruct (order_ptr _ _ _ _ _ H Hx) as (o1 & Ho1). rewrite elem_at_alloc, decide_False; [done|].
    specialize (Hb _ _ H Ho1). cbn. lia.
  - apply H.
  - apply H.
  - intros o' Ho'. destruct (decide (o' = o)) as [->|Hne]; [by rewrite !lookup_insert_eq|].
    rewrite !lookup_insert_ne by done. by apply H.
  - intros o' p'. destruct (decide (o' = o)) as [->|Hne]; [done|]. rewrite lookup_insert_ne by done. apply H.
  - assert (forall o1, m_ptrs m !! o1 <> Some (next_addr s)) as Hfr by (intros o1 Ho1; specialize (Hb _ _ H Ho1); lia).
    intros o1 o2 p'. destruct (decide (o1 = o)) as [->|Hne1], (decide (o2 = o)) as [->|Hne2];
      rewrite ?lookup_insert_eq, ?lookup_insert_ne by done; try done; [by intros [= <-] ?%Hfr|by intros Hp [= <-]; apply Hfr in Hp|].
    apply H.
  - intros o'. destruct (decide (o' = o)) as [->|Hne].
    + rewrite !lookup_insert_eq. exists e. rewrite elem_at_alloc, decide_True, Hee by done. done.
    + rewrite !lookup_insert_ne by done. pose proof (hv_els _ _ _ H o') as He. destruct (m_ptrs m !! o') as [p'|] eqn:Hp'; [|done].
      destruct He as (e1 & He1 & He2). exists e1. rewrite elem_at_alloc, decide_False; [done|]. specialize (Hb _ _ H Hp'). lia.
  - intros p' id. rewrite (hv_order _ _ _ H). split; intros (o1 & e1 & H1 & H2 & H3); exists o1, e1;
      (destruct (decide (o1 = o)) as [->|Hne]; [|by rewrite !lookup_insert_ne in * by done]); [congruence|].
    rewrite lookup_insert_eq in H2. injection H2 as <-. congruence.
  - rewrite lookup_insert_ne by done. apply H.
  - intros f Hf1 Hf2 Hf3. rewrite lookup_insert_ne by (by intros <-). by apply H.
  - intros q. cbn [alloc_cell heap next_addr]. destruct (decide (q = next_addr s)) as [->|Hne]; [lia|].
    rewrite lookup_insert_ne by done. intros Hq%(hv_fresh _ _ _ H). lia.
  - intros o' p' e1. destruct (decide (o' = o)) as [->|Hne].
    + rewrite lookup_insert_eq. intros [= <-]. rewrite elem_at_alloc, decide_True by done. intros [= <-] _.
      rewrite <- Hee. apply l_next_set.
    + rewrite lookup_insert_ne by done. intros Hp'. rewrite elem_at_alloc, decide_False by (specialize (Hb _ _ H Hp'); lia).
      by apply (hv_unlinked _ _ _ H o').
Qed.

Lemma lview_dbAdd s K m : lview s K m -> db s !! K = None -> hview (set_db s (<[K := OHash ∅]> (db s))) ∅ m.
Proof. intros H Hd. unfold lview in H. rewrite Hd in H. eapply hview_ext; [..|done]; done. Qed.

(** The hash of the list, created when missing. *)
Lemma wp_list_ht w K m Q :
  lview (srv w) K m ->
  (forall w', lstep w w' K m m -> is_list (srv w') K -> heap (srv w') = heap (srv w) -> Q (Some (Some K)) w') ->
  wp (getInnerHT K "" true) w Q.
Proof.
  intros Hv HQ. unfold getInnerHT. rewrite string_app_nil_r. apply wp_bind, wp_lookupKey.
  destruct (db (srv w) !! K) as [o|] eqn:Hd.
  - wp_steps. apply HQ; [by apply lstep_refl| |done]. unfold lview in Hv. rewrite Hd in Hv. destruct o as [h|z|t b1 b2]; try done. by exists h.
  - unfold dbAdd. wp_steps. rewrite Hd. wp_steps. apply HQ; [|by eexists; cbn; rewrite lookup_insert_eq|done].
    split; try done.
    + intros k Hk. cbn. by apply lookup_insert_ne.
    + intros _. eexists. cbn. by rewrite lookup_insert_eq.
    + unfold lview. cbn [srv set_db db]. rewrite lookup_insert_eq. by apply lview_dbAdd.
Qed.

(** [rehHTGet] with [create]; [e] is the element it finds or makes. *)
Lemma wp_list_get w K m o e (new : server E -> res A) (Q : option (option nat) -> world E -> Prop) :
  lview (srv w) K m -> o ∉ reserved -> erase e = e ->
  match m_els m !! o with
  | Some e0 => e0 = e
  | None => l_pos e = None /\ forall s', same_conf (srv w) s' -> new s' = Ok e
  end ->
  (forall w' p, lstep w w' K m (add_el m o p e) -> is_list (srv w') K ->
     m_ptrs m !! o = Some p \/ (next_addr (srv w) <= p)%nat -> Q (Some (Some p)) w') ->
  wp (rehHTGet K "" o true new) w Q.
Proof using res_head res_len.
  intros Hv Ho Hee He HQ. unfold rehHTGet. apply wp_bind, (wp_list_ht w K m); [done|]. intros w1 Hst [h Hd] _.
  pose proof (lview_hash _ _ _ _ (ls_view _ _ _ _ _ Hst) Hd) as Hh.
  unfold hashTypeGetValueObject. apply wp_bind, wp_bind, wp_lookupKey. rewrite Hd. wp_steps.
  rewrite (hv_field _ _ _ Hh o Ho). pose proof (hv_els _ _ _ Hh o) as Hel. destruct (m_ptrs m !! o) as [p|] eqn:Hp; cbn [fmap option_fmap option_map].
  - destruct Hel as (e1 & _ & Hel). rewrite Hel in He. cbn [as_ptr]. wp_steps. apply HQ; [|by exists h|by left].
    rewrite add_el_same by congruence. done.
  - rewrite Hel in He. destruct He as [Hpos Hnew]. cbn [negb]. wp_steps. rewrite (Hnew _ (ls_conf _ _ _ _ _ Hst)). wp_steps.
    unfold alloc. wp_steps. unfold hashTypeSet. apply wp_bind, wp_lookupKey. cbn [srv alloc_cell db]. rewrite Hd. wp_steps.
    unfold put_obj. wp_steps. apply HQ; [|by eexists; cbn; rewrite lookup_insert_eq|right; cbn; apply Hst]. eapply lstep_trans; [exact Hst|].
    split; try done; cbn [srv set_db db heap next_addr alloc_cell].
    + intros k Hk. by apply lookup_insert_ne.
    + cbn. by apply insert_subseteq.
    + intros q Hq Hlt. rewrite lookup_insert_ne by lia. done.
    + lia.
    + intros _. eexists. cbn. by rewrite lookup_insert_eq.
    + unfold lview. cbn [set_db db]. rewrite lookup_insert_eq. eapply hview_ext; [..|by apply hview_new]; done.
Qed.

(** [rehHTGet] without [create]. *)
Lemma wp_find_field w K h o q (new : server E -> res A) (Q : option (option nat) -> world E -> Prop) :
  db (srv w) !! K = Some (OHash h) -> h !! o = HPtr <$> q -> Q (Some q) w -> wp (rehHTGet K "" o false new) w Q.
Proof.
  intros Hd Hq HQ. unfold rehHTGet, getInnerHT. rewrite string_app_nil_r. apply wp_bind, wp_bind, wp_lookupKey. rewrite Hd. wp_steps.
  unfold hashTypeGetValueObject. apply wp_bind, wp_lookupKey. rewrite Hd. wp_steps.
  rewrite Hq. destruct q as [p|]; cbn [fmap option_fmap option_map negb as_ptr]; by wp_steps.
Qed.

Lemma wp_list_find w K m o (new : server E -> res A) (Q : option (option nat) -> world E -> Prop) :
  lview (srv w) K m -> o ∉ reserved -> Q (Some (m_ptrs m !! o)) w -> wp (rehHTGet K "" o false new) w Q.
Proof.
  intros Hv Ho HQ. unfold lview in Hv. destruct (db (srv w) !! K) as [[h|z|t b1 b2]|] eqn:Hd; try done.
  - eapply wp_find_field; [done| |done]. by apply Hv.
  - unfold rehHTGet, getInnerHT. rewrite string_app_nil_r. apply wp_bind, wp_bind, wp_lookupKey. rewrite Hd. wp_steps.
    pose proof (hv_field _ _ _ Hv o Ho) as Hf. rewrite lookup_empty in Hf. by destruct (m_ptrs m !! o).
Qed.

(** ** A new position *)

Definition place_el (m : lmodel) (o : string) (p : nat) (id : leid) (e : A) : lmodel :=
  mkLm (m_ptrs m) (<[o := e]> (m_els m)) (place p id (m_order m)) (m_len m) (m_extra m).

Lemma unlinked s h m o p e :
  hview s h m -> m_ptrs m !! o = Some p -> elem_at s p = Ok e -> l_pos e = None -> p ∉ (m_order m).*1.
Proof.
  intros H Hp He Hpos ([q id] & -> & Hin)%list_elem_of_fmap. cbn [fst] in *. apply (hv_order _ _ _ H) in Hin as (o' & e' & Ho & He' & Hid).
  assert (o' = o) as -> by (by eapply (hv_inj _ _ _ H)). pose proof (hv_els _ _ _ H o) as Hel. rewrite Hp in Hel.
  destruct Hel as (e1 & He1 & Hel). rewrite He in He1. injection He1 as <-. rewrite Hel in He'. injection He' as <-.
  by rewrite erase_pos, Hpos in Hid.
Qed.

(** What the message of an insert says about the predecessor [po]: the new
    position is after its position. *)
Definition after_pre (m : lmodel) (po o : string) (id : leid) : Prop :=
  po <> o /\ forall e i, m_els m !! po = Some e -> l_pos e = Some i -> leid_lt i id.

(** The list after the element was written to [p] and linked. *)
Lemma linked_hview w w2 K h m o p e e' id :
  hview (srv w) h m -> m_ptrs m !! o = Some p -> elem_at (srv w) p = Ok e -> l_pos e = None -> l_pos e' = Some id ->
  let w1 := mkWorld (set_heap (srv w) (<[p := inj e']> (heap (srv w)))) (cli w) (capacity w) in
  linked w1 w2 K h (m_order m) p id -> lview (srv w2) K (place_el m o p id (erase e')).
Proof using res_head res_len.
  intros H Hp He Hpos Hpos' w1 [_ _ (h' & Hl & Hf) _ Hel Hrest Hcells Hdom].
  pose proof (unlinked _ _ _ _ _ _ H Hp He Hpos) as Hnl. unfold lview. rewrite (lv_db _ _ _ _ Hl).
  assert (Hels : forall o' p', m_ptrs m !! o' = Some p' -> exists e1, elem_at (srv w2) p' = Ok e1 /\
            <[o := erase e']> (m_els m) !! o' = Some (erase e1)).
  { intros o' p' Hp'. destruct (decide (o' = o)) as [->|Hne].
    - rewrite Hp in Hp'. injection Hp' as <-. rewrite lookup_insert_eq.
      destruct (Hel p e') as [Hq|[n Hq]]; [cbn [srv w1]; by rewrite elem_at_set, decide_True|by exists e'|].
      exists (l_set_next e' n). split; [done|]. unfold erase. by rewrite l_set_set.
    - rewrite lookup_insert_ne by done. pose proof (hv_els _ _ _ H o') as Hx. rewrite Hp' in Hx. destruct Hx as (e1 & He1 & Hx).
      assert (p' <> p) as Hpp by (intros ->; by eapply Hne, (hv_inj _ _ _ H)).
      destruct (Hel p' e1) as [Hq|[n Hq]]; [cbn [srv w1]; by rewrite elem_at_set, decide_False|by exists e1|].
      exists (l_set_next e1 n). split; [done|]. rewrite Hx. unfold erase. by rewrite l_set_set. }
  split; cbn [place_el m_ptrs m_els m_order m_len m_extra]; try apply Hl.
  - intros f Hfr. rewrite Hf by (by intros ->). by apply H.
  - apply H.
  - apply H.
  - intros o'. destruct (m_ptrs m !! o') as [p'|] eqn:Hp'; [by apply Hels|].
    rewrite lookup_insert_ne by (intros <-; congruence). pose proof (hv_els _ _ _ H o') as Hx. by rewrite Hp' in Hx.
  - intros q i. rewrite elem_of_place, (hv_order _ _ _ H). split.
    + intros [[= -> ->]|(o' & e1 & H1 & H2 & H3)].
      * exists o, (erase e'). by rewrite lookup_insert_eq, erase_pos.
      * exists o', e1. rewrite lookup_insert_ne; [done|]. intros <-. pose proof (hv_els _ _ _ H o) as Hx. rewrite Hp in Hx.
        destruct Hx as (e2 & He2 & Hx). rewrite He in He2. injection He2 as <-. rewrite Hx in H2. injection H2 as <-.
        by rewrite erase_pos, Hpos in H3.
    + intros (o' & e1 & H1 & H2 & H3). destruct (decide (o' = o)) as [->|Hne].
      * rewrite lookup_insert_eq in H2. injection H2 as <-. rewrite erase_pos in H3. left. congruence.
      * rewrite lookup_insert_ne in H2 by done. right. by exists o', e1.
  - rewrite Hf by done. apply H.
  - intros f Hf1 Hf2 Hf3. rewrite Hf by done. by apply H.
  - intros q Hq. assert (next_addr (srv w2) = next_addr (srv w)) as -> by (by injection Hrest).
    apply (hv_fresh _ _ _ H). apply Hdom in Hq. cbn [srv w1 heap set_heap] in Hq. eapply insert_cell; [|done]. by eapply elem_at_cell.
  - intros o' p' e1 Hp' He1 Hpos1. destruct (Hels o' p' Hp') as (e2 & He2 & Hx). rewrite He1 in He2. injection He2 as <-.
    assert (o' <> o) as Hne by (intros ->; rewrite lookup_insert_eq in Hx; injection Hx as Hx;
      apply (f_equal l_pos) in Hx; rewrite !erase_pos in Hx; congruence).
    assert (p' <> p) as Hpp by (intros ->; by eapply Hne, (hv_inj _ _ _ H)).
    assert (p' ∉ (m_order m).*1) as Hno.
    { rewrite lookup_insert_ne in Hx by done. pose proof (hv_els _ _ _ H o') as Hy. rewrite Hp' in Hy. destruct Hy as (e3 & He3 & Hy).
      eapply (unlinked _ _ _ _ _ _ H Hp' He3). rewrite Hy in Hx. injection Hx as Hx. apply (f_equal l_pos) in Hx. rewrite !erase_pos in Hx. congruence. }
    apply (hv_unlinked _ _ _ H o' p'); [done| |done]. unfold elem_at in *. rewrite Hcells in He1 by set_solver.
    cbn [srv w1 heap set_heap] in He1. by rewrite lookup_insert_ne in He1.
Qed.

(** The predecessor's cell, once the new element was written. *)
Lemma pre_ok_at s h m po o p e e' id :
  hview s h m -> m_ptrs m !! o = Some p -> elem_at s p = Ok e -> after_pre m po o id ->
  pre_ok (set_heap s (<[p := inj e']> (heap s))) (m_order m) id (m_ptrs m !! po).
Proof.
  intros H Hp He [Hne Hlt]. unfold pre_ok. destruct (m_ptrs m !! po) as [q|] eqn:Hq; [|done].
  assert (q <> p) as Hqp by (intros ->; by eapply Hne, (hv_inj _ _ _ H)).
  pose proof (hv_els _ _ _ H po) as Hx. rewrite Hq in Hx. destruct Hx as (qe & Hqe & Hx).
  exists qe. rewrite elem_at_set, decide_False by done. split; [done|]. destruct (l_pos qe) as [i|] eqn:Hi; [|done].
  split; [|by apply (Hlt (erase qe)); [|rewrite erase_pos]]. apply (hv_order _ _ _ H). exists po, (erase qe). by rewrite erase_pos.
Qed.

Lemma wp_list_link w K m o po p e e' id get_pre :
  lview (srv w) K m -> is_list (srv w) K -> m_ptrs m !! o = Some p -> elem_at (srv w) p = Ok e -> l_pos e = None ->
  l_pos e' = Some id -> l_next e' = l_next e -> wf_leid id -> id ∉ (m_order m).*2 -> after_pre m po o id ->
  (forall w1 (Q : option (option nat) -> world E -> Prop), db (srv w1) = db (srv w) -> cli w1 = cli w ->
     Q (Some (m_ptrs m !! po)) w1 -> wp get_pre w1 Q) ->
  wp (_ ← store p e'; link_element K p id get_pre) w (fun r w' =>
    r = Some tt /\ lstep w w' K m (place_el m o p id (erase e'))).
Proof using res_head res_len.
  intros Hv [h Hd] Hp He Hpos Hpos' Hnext Hid Hni Hpre Hget. pose proof (lview_hash _ _ _ _ Hv Hd) as H.
  pose proof (unlinked _ _ _ _ _ _ H Hp He Hpos) as Hnl. apply wp_bind, wp_store_at.
  set (w1 := mkWorld _ _ _). eapply wp_mono; [apply (wp_link_element w1 K h (m_order m) p id e')|]; try done.
  - split; try apply H; [done|]. apply seg_set; [done|]. apply H.
  - cbn [srv w1]. by rewrite elem_at_set, decide_True.
  - rewrite Hnext. by apply (hv_unlinked _ _ _ H o p).
  - apply Hget; [done..|]. split; [done|]. eexists. split; [done|]. by eapply pre_ok_at.
  - intros r w2 [-> Hlk]. pose proof (linked_hview w w2 K h m o p e e' id H Hp He Hpos Hpos' Hlk) as Hv2.
    destruct Hlk as [Hc Hcap (h' & Hl & _) Hk _ Hrest Hcells _]. injection Hrest as Hr1 Hr2 Hr3 Hr4 Hr5 Hr6 Hr7.
    split; [done|].
    split; [done|done|by split_and!|done|done|done| |by rewrite Hr5|by exists h'; apply Hl|done].
    + intros q Hq _. rewrite Hcells; [cbn [srv w1 heap set_heap]; apply lookup_insert_ne; intros <-; by eapply Hq|].
      intros Hin. apply elem_of_cons in Hin as [->|Hin]; [by eapply Hq|].
      apply list_elem_of_fmap in Hin as ([q' i] & -> & Hin). destruct (order_ptr _ _ _ _ _ H Hin) as (o1 & Ho1). by eapply Hq.
Qed.

(** ** Queries *)

(** The elements in the order of their positions. *)
Definition in_order (m : lmodel) (es : list A) : Prop :=
  Forall2 (fun x e => exists o, m_ptrs m !! o = Some x.1 /\ m_els m !! o = Some e) (m_order m) es.

(** What the elements print. *)
Fixpoint rows (show : A -> res (list reply)) (es : list A) : res (list reply) :=
  match es with
  | [] => Ok []
  | e :: es => l ← show e; r ← rows show es; Ok (l ++ r)
  end.

Lemma wp_replies l w (Q : option unit -> world E -> Prop) :
  prepareClientToWrite (cli w) = true ->
  Q (Some tt) (mkWorld (srv w) (mkClient (argv (cli w)) (rargv (cli w)) (is_replica (cli w)) (replica_message (cli w)) (out (cli w) ++ l)) (capacity w)) ->
  wp (for_each l addReply) w Q.
Proof.
  revert w. induction l as [|r l IH]; intros w Hp HQ; cbn [for_each].
  - apply wp_skip. rewrite app_nil_r in HQ. destruct w as [s [] cap]. exact HQ.
  - apply wp_bind, wp_addReply. rewrite Hp. apply IH; [done|]. cbn [srv cli capacity add_out argv rargv is_replica replica_message out].
    by rewrite <- app_assoc.
Qed.

Context (show : A -> res (list reply)) (show_erase : forall e, show (erase e) = show e).

Lemma list_from_rows s h m l es p fuel rs :
  hview s h m -> seg s p l None -> Forall2 (fun x e => exists o, m_ptrs m !! o = Some x.1 /\ m_els m !! o = Some e) l es ->
  rows show es = Ok rs -> (length l < fuel)%nat -> list_from show fuel s p = Ok rs.
Proof using show_erase.
  intros H. revert p fuel es rs. induction l as [|[a i] l IH]; intros p fuel es rs Hs Hes Hr Hf;
    (destruct fuel as [|fuel]; [cbn in Hf; lia|]); apply Forall2_cons_inv_l in Hes || apply Forall2_nil_inv_l in Hes.
  - subst es. cbn [seg] in Hs. subst p. by injection Hr as <-.
  - destruct Hes as (e & es' & (o & Hp & He) & Hes & ->). cbn [seg] in Hs. destruct Hs as (-> & e1 & He1 & _ & Hs).
    pose proof (hv_els _ _ _ H o) as Hx. cbn [fst] in Hp. rewrite Hp in Hx. destruct Hx as (e2 & He2 & Hx).
    assert (e2 = e1 /\ e = erase e1) as [-> ->] by (split; congruence).
    cbn [list_from rows] in *. rewrite He1. cbn [mbind res_bind]. rewrite show_erase in Hr.
    destruct (show e1) as [row|]; [|done]. cbn [mbind res_bind] in *.
    destruct (rows show es') as [rest|] eqn:Hrest; [|done]. cbn [mbind res_bind] in Hr. injection Hr as <-.
    by rewrite (IH (l_next e1) fuel es' rest) by (done || cbn in Hf; lia).
Qed.

(** The fuel is the number of heap cells; a list visits a cell once. *)
Lemma listQuery_reads w K m es rs :
  lview (srv w) K m -> is_list (srv w) K -> argv (cli w) !! 1%nat = Some K -> prepareClientToWrite (cli w) = true ->
  in_order m es -> rows show es = Ok rs ->
  exists w', listQuery show w = Ok (Some tt, w') /\ srv w' = srv w /\ out (cli w') = out (cli w) ++ RArray (m_len m) :: rs.
Proof using show_erase.
  intros Hv [h Hd] Hk Hp Hes Hrs. pose proof (lview_hash _ _ _ _ Hv Hd) as H.
  assert (wp (listQuery show) w (fun r w' => r = Some tt /\ srv w' = srv w /\ out (cli w') = out (cli w) ++ RArray (m_len m) :: rs))
    as (r & w' & Hrun & -> & HQ); [|by exists w'].
  unfold listQuery. apply wp_bind, (wp_argv_at 1 K); [done|]. apply wp_bind. unfold lookupKeyReadOrReply, lookupKeyRead. apply wp_bind, wp_lookupKey. rewrite Hd. wp_steps.
  unfold checkType. rewrite decide_True by done. wp_steps. eapply wp_getLen; [done|by exists h|]. apply wp_bind, wp_addReply. rewrite Hp.
  apply wp_bind. eapply wp_getHead; [done|apply H|]. wp_steps. eapply wp_lift.
  - eapply (list_from_rows (srv w) h m (m_order m) es); try done; [apply H|].
    pose proof (seg_size _ _ _ _ (hv_seg _ _ _ H) (hv_nodup _ _ _ H)). lia.
  - apply wp_replies; [done|]. split_and!; [done|done|]. cbn [cli add_out out]. by rewrite <- app_assoc.
Qed.

Lemma lenQuery_reads w K m :
  lview (srv w) K m -> is_list (srv w) K -> argv (cli w) !! 1%nat = Some K -> prepareClientToWrite (cli w) = true ->
  exists w', lenQuery w = Ok (Some tt, w') /\ srv w' = srv w /\ out (cli w') = out (cli w) ++ [RInt (m_len m)].
Proof.
  intros Hv [h Hd] Hk Hp.
  assert (wp lenQuery w (fun r w' => r = Some tt /\ srv w' = srv w /\ out (cli w') = out (cli w) ++ [RInt (m_len m)]))
    as (r & w' & Hrun & -> & HQ); [|by exists w'].
  unfold lenQuery. apply wp_bind, (wp_argv_at 1 K); [done|]. apply wp_bind. unfold lookupKeyReadOrReply, lookupKeyRead. apply wp_bind, wp_lookupKey. rewrite Hd. wp_steps.
  unfold checkType. rewrite decide_True by done. wp_steps. eapply wp_getLen; [done|by exists h|]. apply wp_addReply. by rewrite Hp.
Qed.
End ListSpec.
