(* ===== verification/ListPrepare.v ===== *)
(** * Preparing an insert

    The replica a client talks to makes the position of a new element from the
    positions of its neighbours and the clock of the list.  The position it
    sends is the one right after the predecessor. *)

From S2P Require Import Prelude Sds VectorClock Leid Double Util Skiplist Zset Store Crdt Container QueueSpec ListBasics ListLink ListSpec.
From Stdlib Require Import Ascii.

Section Prepare.
Context {A E : Type} `{!Cell A E, !Cell vc E, !Linked A}.
Context (reserved : list string) (res_head : "head" ∈ reserved) (res_len : "length" ∈ reserved) (res_cur : "current" ∈ reserved).
Implicit Types (w : world E) (s : server E) (m : lmodel (A := A)).
Notation lview := (lview (A := A) reserved).
Notation lstep := (lstep (A := A) reserved).

(** The server moved from one state of the list to another. *)
Record lmoved s s' (K : string) m m' : Prop := {
  mo_conf : same_conf s s';
  mo_keys : forall k, k <> K -> db s' !! k = db s !! k;
  mo_list : is_list s K -> is_list s' K;
  mo_view : lview s' K m'
}.

Lemma lstep_moved w w' K m m' : lstep w w' K m m' -> lmoved (srv w) (srv w') K m m'.
Proof. intros [?????????]. by split. Qed.

Lemma lmoved_refl s K m : lview s K m -> lmoved s s K m m.
Proof. intros H. by split. Qed.

Lemma lmoved_trans s1 s2 s3 K m1 m2 m3 : lmoved s1 s2 K m1 m2 -> lmoved s2 s3 K m2 m3 -> lmoved s1 s3 K m1 m3.
Proof.
  intros [(?&?&?&?) Hk1 ??] [(?&?&?&?) Hk2 ??]. split; [unfold same_conf; split_and!; congruence| |auto|done].
  intros k Hk. by rewrite Hk2, Hk1.
Qed.

(** ** Neighbours *)

Lemma seg_at s p l1 q i l2 :
  seg s p (l1 ++ (q, i) :: l2) None -> exists e, elem_at s q = Ok e /\ l_pos e = Some i /\ seg s (l_next e) l2 None.
Proof. intros (mid & _ & Hs)%seg_app. cbn [seg] in Hs. destruct Hs as (_ & e & He & Hi & Hs). eauto. Qed.

(** The position at the front of a segment. *)
Lemma wp_front w p l Q :
  seg (A := A) (srv w) p l None -> Q (Some (snd <$> head l)) w ->
  wp (match p with None => mret None | Some r => re ← load r; mret (l_pos re) end) w Q.
Proof.
  intros Hs HQ. destruct l as [|[a i] l]; cbn [seg] in Hs; [subst p; by wp_steps|].
  destruct Hs as (-> & e & He & Hi & _). apply wp_bind, (wp_load_at _ _ _ _ He), wp_mret. by rewrite Hi.
Qed.

(** Where the message says the new element goes: after the element [q], or at
    the front when it names none; [l1] and [l2] are the list before and after. *)
Definition cut_at m (pre : option nat) (l1 l2 : list (nat * leid)) : Prop :=
  m_order m = l1 ++ l2 /\
  match pre with None => l1 = [] | Some q => exists i, last l1 = Some (q, i) end.

Lemma wp_insert_between w K m pre l1 l2 Q :
  lview (srv w) K m -> is_list (srv w) K -> argv (cli w) !! 1%nat = Some K -> cut_at m pre l1 l2 ->
  Q (Some (snd <$> last l1, snd <$> head l2)) w -> wp (insert_between (A := A) pre) w Q.
Proof.
  intros Hv [h Hd] Hk [Ho Hc] HQ. pose proof (lview_hash _ _ _ _ _ Hv Hd) as H. unfold insert_between.
  pose proof (hv_seg _ _ _ _ H) as Hs. rewrite Ho in Hs. destruct pre as [q|].
  - destruct Hc as [i Hi]. rewrite Hi in HQ. apply last_Some in Hi as [l' ->]. rewrite <- app_assoc in Hs. cbn [app] in Hs.
    destruct (seg_at _ _ _ _ _ _ Hs) as (e & He & Hpos & Hn). apply wp_bind, (wp_load_at _ _ _ _ He), wp_bind.
    eapply wp_front; [exact Hn|]. apply wp_mret. by rewrite Hpos.
  - subst l1. cbn [app last] in *. unfold GET_LIST_HT, getInnerHT. apply wp_bind, wp_bind, (wp_argv_at 1 K); [done|]. rewrite string_app_nil_r.
    apply wp_bind, wp_lookupKey. rewrite Hd. unfold not_null. wp_steps.
    apply (wp_getHead _ _ h); [done|apply H|]. apply wp_bind. eapply wp_front; [exact Hs|]. by apply wp_mret.
Qed.

(** ** The clock of the list *)

(** The clock is [cur], or it will be when it is first asked for. *)
Definition clock_at s m (cur : vc) : Prop :=
  match m_extra m !! "current" with
  | None => _vc_new (p2p_count s) (p2p_id s) = Ok cur
  | Some (HPtr q) => heap s !! q = Some (inj cur) /\ forall o, m_ptrs m !! o <> Some q
  | Some _ => False
  end.

(** A reserved field pointed at the cell [q]. *)
Definition set_extra (f : string) m (q : nat) : lmodel :=
  mkLm (m_ptrs m) (m_els m) (m_order m) (m_len m) (<[f := HPtr q]> (m_extra m)).

(** A cell that is not an element's. *)
Lemma hview_cell s h m q c :
  hview reserved s h m -> (forall o, m_ptrs m !! o <> Some q) -> (q < next_addr s)%nat ->
  hview reserved (set_heap s (<[q := c]> (heap s))) h m.
Proof.
  intros H Hq Hlt.
  assert (forall o p, m_ptrs m !! o = Some p -> elem_at (A := A) (set_heap s (<[q := c]> (heap s))) p = elem_at s p) as He.
  { intros o p Hp. unfold elem_at. cbn [heap set_heap]. rewrite lookup_insert_ne; [done|]. intros ->. by eapply Hq. }
  pose proof (fun p i => order_ptr reserved s h m p i H) as Hop.
  destruct H as [H1 H2 H3 H4 H5 H6 H7 H8 H9 H10 H11 H12 H13]. split; try done.
  - eapply seg_ext; [|exact H2]. intros a ([a' i] & -> & Ha)%list_elem_of_fmap. destruct (Hop _ _ Ha) as [o Hp]. by eapply He.
  - intros o. specialize (H8 o). destruct (m_ptrs m !! o) as [p|] eqn:Hp; [|done]. by rewrite (He _ _ Hp).
  - intros q'. cbn [heap set_heap next_addr]. destruct (decide (q' = q)) as [->|Hne]; [done|]. rewrite lookup_insert_ne by done. apply H12.
  - intros o p e Hp. rewrite (He _ _ Hp). by apply (H13 o).
Qed.

Lemma hview_alloc s h m c : hview reserved s h m -> hview reserved (alloc_cell s c) h m.
Proof.
  intros H.
  assert (forall o p, m_ptrs m !! o = Some p -> elem_at (A := A) (alloc_cell s c) p = elem_at s p) as He.
  { intros o p Hp. unfold elem_at. cbn [heap alloc_cell]. rewrite lookup_insert_ne; [done|].
    pose proof (ptr_below _ _ _ _ _ _ H Hp). lia. }
  pose proof (fun p i => order_ptr reserved s h m p i H) as Hop.
  destruct H as [H1 H2 H3 H4 H5 H6 H7 H8 H9 H10 H11 H12 H13]. split; try done.
  - eapply seg_ext; [|exact H2]. intros a ([a' i] & -> & Ha)%list_elem_of_fmap. destruct (Hop _ _ Ha) as [o Hp]. by eapply He.
  - intros o. specialize (H8 o). destruct (m_ptrs m !! o) as [p|] eqn:Hp; [|done]. by rewrite (He _ _ Hp).
  - intros q'. cbn [heap alloc_cell next_addr]. destruct (decide (q' = next_addr s)) as [->|Hne]; [lia|].
    rewrite lookup_insert_ne by done. intros Hq%H12. lia.
  - intros o p e Hp. rewrite (He _ _ Hp). by apply (H13 o).
Qed.

Lemma hview_extra f s h m q :
  f ∈ reserved -> f <> "head" -> f <> "length" -> hview reserved s h m -> hview reserved s (<[f := HPtr q]> h) (set_extra f m q).
Proof.
  intros Hf Hfh Hfl [H1 H2 H3 H4 H5 H6 H7 H8 H9 H10 H11 H12 H13].
  assert (head_of (<[f := HPtr q]> h) = head_of h) as Hh by (unfold head_of; by rewrite lookup_insert_ne).
  split; cbn [set_extra m_ptrs m_els m_order m_len m_extra]; try done.
  - by rewrite lookup_insert_ne.
  - by rewrite Hh.
  - intros o Ho. rewrite lookup_insert_ne by (by intros <-). by apply H5.
  - by rewrite lookup_insert_ne.
  - intros f' Hf1 Hf2 Hf3. destruct (decide (f' = f)) as [->|Hne]; [by rewrite !lookup_insert_eq|].
    rewrite !lookup_insert_ne by done. by apply H11.
Qed.

(** A cell made for a reserved field. *)
Lemma wp_new_cell `{!Cell B E} f w K h m (b : B) (Q : option nat -> world E -> Prop) :
  f ∈ reserved -> f <> "head" -> f <> "length" -> db (srv w) !! K = Some (OHash h) -> hview reserved (srv w) h m ->
  (let q := next_addr (srv w) in
   let w' := mkWorld (put_hash (alloc_cell (srv w) (inj b)) K (<[f := HPtr q]> h)) (cli w) (capacity w) in
   lmoved (srv w) (srv w') K m (set_extra f m q) -> (forall o, m_ptrs m !! o <> Some q) -> Q (Some q) w') ->
  wp (p ← alloc b; _ ← hashTypeSet K f (HPtr p); mret p) w Q.
Proof.
  intros Hf Hfh Hfl Hd H HQ. unfold alloc. wp_steps. unfold hashTypeSet. apply wp_bind, wp_lookupKey. cbn [srv alloc_cell db]. rewrite Hd. wp_steps.
  unfold put_obj. wp_steps. apply HQ.
  - split; try done; cbn [srv put_hash set_db db alloc_cell].
    + intros k Hk. by apply lookup_insert_ne.
    + intros _. eexists. cbn. by rewrite lookup_insert_eq.
    + unfold ListSpec.lview. cbn [put_hash set_db db]. rewrite lookup_insert_eq. eapply hview_ext; [..|by apply hview_extra, hview_alloc]; done.
  - intros o Ho. pose proof (ptr_below _ _ _ _ _ _ H Ho). lia.
Qed.

(** A cell [q] that holds the clock [cur] of the list. *)
Definition clock_cell_at s m (q : nat) (cur : vc) : Prop :=
  heap s !! q = Some (inj cur) /\ (forall o, m_ptrs m !! o <> Some q) /\ m_extra m !! "current" = Some (HPtr q).

Lemma wp_getCurrent w K m cur (Q : option nat -> world E -> Prop) :
  lview (srv w) K m -> is_list (srv w) K -> clock_at (srv w) m cur ->
  (forall w' q, lmoved (srv w) (srv w') K m (set_extra "current" m q) -> clock_cell_at (srv w') (set_extra "current" m q) q cur ->
     rng (srv w') = rng (srv w) -> cli w' = cli w -> capacity w' = capacity w -> Q (Some q) w') ->
  wp (getCurrent K) w Q.
Proof using res_cur.
  intros Hv [h Hd] Hc HQ. pose proof (lview_hash _ _ _ _ _ Hv Hd) as H. unfold getCurrent, hashTypeGetValueObject.
  apply wp_bind, wp_bind, wp_lookupKey. rewrite Hd. wp_steps. rewrite (hv_extra _ _ _ _ H "current") by done. unfold clock_at in Hc.
  destruct (m_extra m !! "current") as [[q|z|t]|] eqn:Hx; try done.
  - destruct Hc as [Hq Hne]. cbn [as_ptr]. wp_steps. assert (set_extra "current" m q = m) as Hm by (unfold set_extra; rewrite insert_id by done; by destruct m).
    by apply HQ; rewrite ?Hm.
  - apply wp_bind, wp_get_srv, wp_bind, (wp_lift _ cur); [exact Hc|]. apply (wp_new_cell "current" w K h m); try done. intros q w' Hmo Hne. apply HQ; try done.
    split_and!; cbn [w' srv put_hash set_db heap alloc_cell set_extra m_extra m_ptrs]; [by rewrite lookup_insert_eq|done|by rewrite lookup_insert_eq].
Qed.

(** The clock written. *)
Lemma wp_store_clock w K m q cur cur' (Q : option unit -> world E -> Prop) :
  lview (srv w) K m -> clock_cell_at (srv w) m q cur ->
  (forall w', lmoved (srv w) (srv w') K m m -> clock_cell_at (srv w') m q cur' -> rng (srv w') = rng (srv w) ->
     cli w' = cli w -> capacity w' = capacity w -> Q (Some tt) w') ->
  wp (store q cur') w Q.
Proof.
  intros Hv (Hq & Hne & Hx) HQ. unfold store. apply wp_bind, wp_get_srv, wp_put_srv. apply HQ; try done.
  - split; try done. unfold ListSpec.lview in *. cbn [srv set_heap db].
    destruct (db (srv w) !! K) as [[h|z|t b1 b2]|]; try done; apply hview_cell; try done;
      apply (hv_fresh _ _ _ _ Hv); by eexists.
  - split_and!; try done. cbn. by rewrite lookup_insert_eq.
Qed.

Lemma wp_load_clock w m q cur Q : clock_cell_at (srv w) m q cur -> Q (Some cur) w -> wp (load q) w Q.
Proof.
  intros (Hq & _) HQ. unfold load. apply wp_bind, wp_get_srv. rewrite Hq, prj_inj. by eapply wp_lift.
Qed.

(** ** A position between two others *)

(** Positions in the list that another can be made next to: texts of
    identifiers have room for 1,024 entries. *)
Definition short_ids (ids : list leid) : Prop := Forall (fun i => (length i < LEID_BUF)%nat) ids.

Lemma rand_ok w Q :
  Forall (fun r => 0 <= r) (rng (srv w)) ->
  (forall r rs, 0 <= r -> Forall (fun r => 0 <= r) rs -> Q (Some r) (mkWorld (set_rng (srv w) rs) (cli w) (capacity w))) ->
  wp rand w Q.
Proof.
  intros Hr HQ. unfold rand. wp_steps. destruct (rng (srv w)) as [|r rs] eqn:Hrs.
  - wp_steps. specialize (HQ 0 [] ltac:(lia) ltac:(done)). unfold set_rng in HQ. rewrite <- Hrs in HQ. destruct w as [[] ? ?]. exact HQ.
  - apply Forall_cons in Hr as [H0 Hr]. wp_steps. by apply HQ.
Qed.

Lemma wp_new_leid w l1 l2 cur (Q : option leid -> world E -> Prop) :
  Forall (fun r => 0 <= r) (rng (srv w)) -> 0 <= vid cur <= INT_MAX -> 0 <= vc_total cur ->
  ordered ((l1 : list (nat * leid)) ++ l2).*2 -> short_ids (l1 ++ l2).*2 ->
  (forall id rs, wf_leid id -> (length id <= LEID_BUF)%nat -> Forall (fun r => 0 <= r) rs ->
     Forall (fun x => leid_lt x.2 id) l1 -> Forall (fun x => leid_lt id x.2) l2 ->
     Q (Some id) (mkWorld (set_rng (srv w) rs) (cli w) (capacity w))) ->
  wp (new_leid (snd <$> last l1) (snd <$> head l2) cur) w Q.
Proof.
  intros Hr Hid Htot [Hwf Hs] Hsh HQ. set (lo := snd <$> last l1). set (hi := snd <$> head l2).
  rewrite fmap_app in *. apply Forall_app in Hwf as [Hw1 Hw2]. apply Forall_app in Hsh as [Hs1 Hs2].
  apply StronglySorted_app in Hs as (Hx & Hso1 & Hso2).
  assert (Hlo : forall l, lo = Some l -> l ∈ l1.*2).
  { intros l Hl. unfold lo in Hl. destruct (last l1) as [[a i]|] eqn:Hlast; [|done]. injection Hl as <-.
    apply last_Some_elem_of in Hlast. apply list_elem_of_fmap. by exists (a, i). }
  assert (Hhi : forall l, hi = Some l -> l ∈ l2.*2).
  { intros l Hl. unfold hi in Hl. destruct l2 as [|[a i] l2]; [done|]. injection Hl as <-. by left. }
  rewrite Forall_forall in Hw1, Hw2, Hs1, Hs2. unfold new_leid.
  assert (Hpw : forall l, lo = Some l -> wf_leid l) by (intros l Hl; by apply Hw1, Hlo).
  assert (Hqw : forall l, hi = Some l -> wf_leid l) by (intros l Hl; by apply Hw2, Hhi).
  destruct (find_index_spec lo hi Hpw Hqw (S (leid_num lo `max` leid_num hi)) 0) as (k & Hk & _); [lia|lia|].
  unfold leid_gap. rewrite Hk. cbn [mbind res_bind]. apply wp_bind. eapply wp_lift; [reflexivity|]. apply wp_bind.
  assert (Hgo : forall r rs, 0 <= r -> Forall (fun r => 0 <= r) rs ->
    wp (lift (constructLeid r lo hi cur)) (mkWorld (set_rng (srv w) rs) (cli w) (capacity w)) Q).
  { intros r rs Hr0 Hrs. destruct (constructLeid_ok lo hi Hpw Hqw r cur Hr0 Hid Htot) as (id & a & Hc & Hidw & [Hb1 Hb2] & _).
    { intros l l' Hl Hl'. apply Hx; [by apply Hlo|by apply Hhi]. }
    eapply wp_lift; [exact Hc|]. apply HQ; try done.
    - apply constructLeid_length in Hc.
      assert (leid_num lo < LEID_BUF)%nat by (destruct lo as [l|] eqn:Hl; [by apply Hs1, Hlo|cbn; unfold LEID_BUF; lia]).
      assert (leid_num hi < LEID_BUF)%nat by (destruct hi as [l|] eqn:Hl; [by apply Hs2, Hhi|cbn; unfold LEID_BUF; lia]). lia.
    - destruct l1 as [|[a' i'] l1 _] using rev_ind; [done|]. unfold lo in Hb1. rewrite last_snoc in Hb1. specialize (Hb1 i' eq_refl).
      rewrite fmap_app in Hso1. apply StronglySorted_app in Hso1 as (Hxl & _ & _). apply Forall_app. split; [|by constructor].
      apply Forall_forall. intros [a0 i0] Hin. cbn. transitivity i'; [|done]. apply Hxl; [apply list_elem_of_fmap; by exists (a0, i0)|by left].
    - destruct l2 as [|[a' i'] l2]; [done|]. specialize (Hb2 i' eq_refl). constructor; [done|].
      cbn in Hso2. apply StronglySorted_inv in Hso2 as [_ Hall]. rewrite Forall_fmap in Hall. eapply Forall_impl; [exact Hall|].
      intros [a0 i0] Hlt. cbn in *. by transitivity i'. }
  destruct (_ =? 0).
  - wp_steps. specialize (Hgo 0 (rng (srv w)) ltac:(lia) Hr). by destruct w as [[] ? ?].
  - apply rand_ok; [done|]. intros r rs Hr0 Hrs. by apply Hgo.
Qed.

Lemma wp_new_position w K m pre l1 l2 cur (Q : option (nat * leid) -> world E -> Prop) :
  lview (srv w) K m -> is_list (srv w) K -> argv (cli w) !! 1%nat = Some K -> cut_at m pre l1 l2 -> clock_at (srv w) m cur ->
  Forall (fun r => 0 <= r) (rng (srv w)) -> 0 <= vid cur <= INT_MAX -> 0 <= vc_total cur -> short_ids (m_order m).*2 ->
  (forall w' q id, lmoved (srv w) (srv w') K m (set_extra "current" m q) -> clock_cell_at (srv w') (set_extra "current" m q) q cur ->
     Forall (fun r => 0 <= r) (rng (srv w')) -> cli w' = cli w -> capacity w' = capacity w ->
     wf_leid id -> (length id <= LEID_BUF)%nat -> Forall (fun x => leid_lt x.2 id) l1 -> Forall (fun x => leid_lt id x.2) l2 ->
     Q (Some (q, id)) w') ->
  wp (new_position (A := A) pre) w Q.
Proof using res_cur.
  intros Hv Hl Hk Hc Hclk Hr Hid Htot Hsh HQ. unfold new_position. apply wp_bind, (wp_insert_between w K m pre l1 l2); [done..|].
  destruct Hl as [h Hd]. unfold GET_LIST_HT, getInnerHT, not_null. apply wp_bind, wp_bind, (wp_argv_at 1 K); [done|]. rewrite string_app_nil_r.
  apply wp_bind, wp_lookupKey. rewrite Hd. wp_steps. apply (wp_getCurrent w K m cur); [done|by exists h|done|].
  intros w1 q Hmv Hcell Hrng Hcli Hcap. apply wp_bind. eapply wp_load_clock; [done|]. apply wp_bind. cbn [fst snd].
  destruct Hc as [Ho _]. pose proof (hv_ordered _ _ _ _ (lview_hash _ _ _ _ _ Hv Hd)) as Hord. rewrite Ho in Hord, Hsh.
  apply (wp_new_leid w1 l1 l2 cur); try done; [by rewrite Hrng|]. intros id rs H1 H2 H3 H4 H5. wp_steps. apply HQ; try done.
  - eapply lmoved_trans; [exact Hmv|]. split; try done. eapply lview_ext; [..|apply Hmv]; done.
Qed.

(** ** The whole phase, for an element without a position *)

Context (new : server E -> res A) (visible : A -> bool) (l_oid : A -> option string) (tick : nat -> M E unit) (stamp : A -> M E unit).

Definition list_get (arg : nat -> M E string) (i : nat) (create : bool) : M E (option nat) :=
  tname ← arg 1%nat; key ← arg i; rehHTGet tname "" key create new.

(** What the code does to the clock after a position was made. *)
Context (cur cur' : vc).
Hypothesis tick_ok : forall w K m q (Q : option unit -> world E -> Prop),
  lview (srv w) K m -> clock_cell_at (srv w) m q cur -> vid cur = p2p_id (srv w) ->
  (forall w', lmoved (srv w) (srv w') K m m -> clock_cell_at (srv w') m q cur' -> rng (srv w') = rng (srv w) ->
     cli w' = cli w -> capacity w' = capacity w -> Q (Some tt) w') ->
  wp (tick q) w Q.
(** Only the link of an element may differ from what the model says. *)
Hypothesis oid_erase : forall e : A, l_oid (erase e) = l_oid e.
Hypothesis visible_erase : forall e : A, visible (erase e) = visible e.

Lemma check_ints_ok w args l :
  argv (cli w) = args -> Forall (fun i => exists a v, args !! i = Some a /\ getLongLongFromObject a = Some v) l ->
  forall Q : option unit -> world E -> Prop, Q (Some tt) w -> wp (for_each l CHECK_ARG_TYPE_INT) w Q.
Proof.
  intros Ha Hl Q HQ. induction l as [|i l IH]; [by apply wp_skip|]. apply Forall_cons in Hl as [(a & v & Hi & Hv) Hl].
  cbn [for_each]. apply wp_bind. unfold CHECK_ARG_TYPE_INT. apply wp_bind, (wp_argv_at i a); [by rewrite Ha|]. apply wp_bind.
  unfold getLongLongFromObjectOrReply. rewrite Hv. wp_steps. by apply IH.
Qed.

Lemma check_hash_ok w K m (Q : option unit -> world E -> Prop) :
  argv (cli w) !! 1%nat = Some K -> lview (srv w) K m -> Q (Some tt) w -> wp (CHECK_CONTAINER_TYPE OBJ_HASH) w Q.
Proof.
  intros Hk Hv HQ. unfold CHECK_CONTAINER_TYPE. apply wp_bind, (wp_argv_at 1 K); [done|]. apply wp_bind, wp_lookupKey.
  unfold ListSpec.lview in Hv. destruct (db (srv w) !! K) as [[h|z|t b1 b2]|]; try done; [rewrite decide_True by done|]; by wp_steps.
Qed.

(** A new element leaves the clock alone. *)
Lemma clock_step w w1 K m o p e :
  lview (srv w) K m -> lstep w w1 K m (add_el m o p e) -> m_ptrs m !! o = Some p \/ (next_addr (srv w) <= p)%nat ->
  clock_at (srv w) m cur -> clock_at (srv w1) (add_el m o p e) cur.
Proof.
  intros Hv Hst Hp Hc. unfold clock_at in *. cbn [add_el m_extra m_ptrs].
  destruct (m_extra m !! "current") as [[q|z|t]|]; try done.
  - destruct Hc as [Hq Hne].
    assert (q < next_addr (srv w))%nat as Hlt.
    { unfold ListSpec.lview in Hv. destruct (db (srv w) !! K) as [[h|z|t b1 b2]|]; try done; apply (hv_fresh _ _ _ _ Hv); by eexists. }
    assert (forall o1, <[o := p]> (m_ptrs m) !! o1 <> Some q) as Hne'.
    { intros o1. destruct (decide (o1 = o)) as [->|Ho]; [|rewrite lookup_insert_ne by done; apply Hne].
      rewrite lookup_insert_eq. intros [= ->]. destruct Hp as [Hp|Hp]; [by eapply Hne|lia]. }
    split; [|done]. by rewrite (ls_cells _ _ _ _ _ _ Hst).
  - destruct (ls_conf _ _ _ _ _ _ Hst) as (-> & -> & _). done.
Qed.

(** What the client says about the place of the new element. *)
Definition names_place m (po : string) (l1 l2 : list (nat * leid)) : Prop :=
  m_order m = l1 ++ l2 /\
  ((exists q i pe, m_ptrs m !! po = Some q /\ m_els m !! po = Some pe /\ visible pe = true /\ last l1 = Some (q, i)) \/
   (po = "null" /\ m_ptrs m !! po = None /\ l1 = [])).

Lemma names_place_cut m po l1 l2 : names_place m po l1 l2 -> cut_at m (m_ptrs m !! po) l1 l2.
Proof. intros [Ho [(q & i & pe & -> & _ & _ & Hl)|(_ & -> & ->)]]; split; eauto. Qed.

Lemma order_elem s h m q i po pe :
  hview reserved s h m -> (q, i) ∈ m_order m -> m_ptrs m !! po = Some q -> m_els m !! po = Some pe -> l_pos pe = Some i.
Proof.
  intros H Hin Hp He. apply (hv_order _ _ _ _ H) in Hin as (o' & e' & Ho & He' & Hi).
  assert (o' = po) as -> by (by eapply (hv_inj _ _ _ _ H)). congruence.
Qed.

Lemma lower_null l : l !! 2%nat = Some "null" -> tolower_at 2 l = l.
Proof. intros H. destruct l as [|a [|b [|c l]]]; try done. by injection H as ->. Qed.

(** The predecessor is found and accepted. *)
Lemma wp_pre_ok w K m po l1 l2 (Q : option unit -> world E -> Prop) :
  argv (cli w) !! 2%nat = Some po -> lview (srv w) K m -> names_place m po l1 l2 -> Q (Some tt) w ->
  wp (match m_ptrs m !! po with
      | None => _ ← tolower_argv 2; a ← argv_at 2;
                if decide (c_str a = "null") then skip else if decide (c_str a = "readd") then skip else refuse no_pre 2
      | Some q => pe ← load q; if visible pe then match l_pos pe with Some _ => skip | None => refuse no_pre 2 end else refuse no_pre 2
      end) w Q.
Proof using visible_erase.
  intros Ha Hv [Ho [(q & i & pe & Hq & Hpe & Hvis & Hl)|(-> & Hq & ->)]] HQ; rewrite Hq.
  - apply wp_bind. eapply (wp_lload reserved); [done..|]. intros e1 He1 Hee. rewrite <- visible_erase, Hee, Hvis.
    assert (l_pos e1 = Some i) as ->; [|by wp_steps]. rewrite <- erase_pos, Hee.
    assert ((q, i) ∈ m_order m) as Hin by (rewrite Ho; apply elem_of_app; left; by apply last_Some_elem_of).
    unfold ListSpec.lview in Hv. destruct (db (srv w) !! K) as [[h|z|t b1 b2]|]; try done; by eapply order_elem.
  - unfold tolower_argv. wp_steps. rewrite lower_null by done. assert (set_argv (cli w) (argv (cli w)) = cli w) as -> by (by destruct (cli w)).
    eapply wp_argv_at; [done|]. rewrite decide_True by done. wp_steps. by destruct w.
Qed.

(** The words of an insert a client sends. *)
Record insert_words (args : list string) (K po o : string) : Prop := {
  iw_len : length args = 9%nat;
  iw_key : args !! 1%nat = Some K;
  iw_pre : args !! 2%nat = Some po;
  iw_oid : args !! 3%nat = Some o;
  iw_ints : Forall (fun i => exists a v, args !! i = Some a /\ getLongLongFromObject a = Some v) [5; 6; 7; 8]%nat
}.

(** The element is found without a position, or will be made. *)
Definition unplaced s m (o : string) (e : A) : Prop :=
  erase e = e /\ visible e = false /\ l_oid e = None /\
  match m_els m !! o with
  | Some e0 => e0 = e
  | None => l_pos e = None /\ forall s', same_conf s s' -> new s' = Ok e
  end.

(** What a position can be made from. *)
Definition clock_ready s m : Prop :=
  clock_at s m cur /\ vid cur = p2p_id s /\ 0 <= vid cur <= INT_MAX /\ 0 <= vc_total cur /\
  Forall (fun r => 0 <= r) (rng s) /\ short_ids (m_order m).*2.

Lemma wp_insert_prepare w args K m po o e l1 l2 (Q : option unit -> world E -> Prop) :
  argv (cli w) = args -> insert_words args K po o -> grown w [] -> lview (srv w) K m ->
  po ∉ reserved -> o ∉ reserved -> names_place m po l1 l2 -> c_str po <> "readd" ->
  unplaced (srv w) m o e -> clock_ready (srv w) m ->
  (forall w' p q id str e1,
     lmoved (srv w) (srv w') K m (set_extra "current" (add_el m o p e) q) -> clock_cell_at (srv w') (set_extra "current" (add_el m o p e) q) q cur' ->
     Forall (fun r => 0 <= r) (rng (srv w')) -> grown w' [str] -> set_rargv (cli w') None = set_rargv (cli w) None ->
     sdsToLeid str = Ok id -> wf_leid id -> Forall (fun x => leid_lt x.2 id) l1 -> Forall (fun x => leid_lt id x.2) l2 ->
     erase e1 = e -> wp (stamp e1) w' Q) ->
  wp (insert_prepare (list_get argv_at 2 false) (list_get argv_at 3 true) visible l_oid tick stamp) w Q.
Proof using res_head res_len res_cur tick_ok oid_erase visible_erase.
  intros Ha [Hn Hk Hpo Ho Hi] Hg Hv Hrp Hro Hnp Hrd (Hee & Hvis & Hoid & Hel) (Hc & Hcid & Hcr & Htot & Hrng & Hsh) HQ.
  rewrite <- Ha in *. unfold insert_prepare.
  apply wp_bind, check_argc_ok; [lia|]. apply wp_bind, (check_hash_ok w K m); [done..|]. apply wp_bind, (check_ints_ok w (argv (cli w))); [done..|].
  apply wp_bind. unfold list_get. apply wp_bind, (wp_argv_at 1 K); [done|]. apply wp_bind, (wp_argv_at 2 po); [done|].
  apply (wp_list_find reserved w K m po); [done..|]. apply wp_bind, (wp_pre_ok w K m po l1 l2); [done..|].
  apply wp_bind, wp_bind, (wp_argv_at 1 K); [done|]. apply wp_bind, (wp_argv_at 3 o); [done|].
  apply (wp_list_get reserved res_head res_len w K m o e); [done..|]. intros w1 p Hst Hl1 Hfr.
  assert (cli w1 = cli w /\ capacity w1 = capacity w /\ same_conf (srv w) (srv w1)) as (Hcl & Hcap & Hcf) by (split_and!; apply Hst).
  unfold not_null. wp_steps. eapply (wp_lload reserved); [apply Hst|by cbn; rewrite lookup_insert_eq..|]. intros e1 He1 Hee1.
  rewrite <- Hee1, visible_erase in Hvis. rewrite <- Hee1, oid_erase in Hoid. rewrite Hvis. wp_steps.
  eapply wp_argv_at; [by rewrite Hcl|]. rewrite Hoid, decide_False by done. apply wp_bind, wp_bind.
  eapply (wp_new_position w1 K (add_el m o p e) _ l1 l2 cur); try done.
  { apply Hst. }
  { by rewrite Hcl. }
  { apply names_place_cut in Hnp. exact Hnp. }
  { by eapply clock_step. }
  { by rewrite (ls_rng _ _ _ _ _ _ Hst). }
  intros w2 q id Hmv Hcell Hrng2 Hcl2 Hcap2 Hwf Hlen Hlo Hhi. apply wp_bind. cbn [fst snd].
  assert (vid cur = p2p_id (srv w2)) as Hid2 by (destruct Hcf as (_ & Hx & _), (mo_conf _ _ _ _ _ Hmv) as (_ & Hy & _); congruence).
  apply (tick_ok w2 K _ q _ (mo_view _ _ _ _ _ Hmv) Hcell Hid2). intros w3 Hmv3 Hcell3 Hrng3 Hcl3 Hcap3.
  destruct (wf_leid_wire id Hwf Hlen) as (str & Hstr & Hback). apply wp_bind. eapply wp_lift; [exact Hstr|].
  assert (grown w3 []) as Hg3 by (unfold grown in *; by rewrite Hcl3, Hcl2, Hcl, Hcap3, Hcap2, Hcap).
  eapply wp_mono; [apply (wp_RARGV_grow str w3 [] Hg3)|].
  { rewrite Hcl3, Hcl2, Hcl, Hn. unfold ADDITIONAL_CAPACITY. cbn. lia. }
  intros r w4 (-> & [Hs4 Hc4] & Hg4 & _). apply (HQ w4 p q id str e1); try done; rewrite ?Hs4; try done.
  - eapply lmoved_trans; [by apply lstep_moved|]. eapply lmoved_trans; [exact Hmv|exact Hmv3].
  - by rewrite Hrng3.
  - by rewrite Hc4, Hcl3, Hcl2, Hcl.
Qed.
End Prepare.
