(* ===== verification/RwfList.v ===== *)
(** * The RWF list: t_rwflist.c

    Elements have a remove-win header, a position identifier that never
    changes, and properties that are last-writer-wins registers with Lamport
    timestamps.  They are linked in the order of their identifiers. *)

From S2P Require Import Prelude Sds VectorClock LamportClock Causal Leid Double Util Zset RWFramework Store Crdt RWFCommand ListBasics ListLink.
From Stdlib Require Import Ascii.

(** ** Elements *)

(** The timestamps of the properties; a null pointer is [None]. *)
Record stamps := mkStamps {
  font_t : option lc; size_t : option lc; color_t : option lc;
  bold_t : option lc; italic_t : option lc; underline_t : option lc
}.

Definition no_stamps : stamps := mkStamps None None None None None None.

Definition get_stamp (s : stamps) (p : prop) : option lc :=
  match p with
  | PNormal font => font_t s | PNormal size => size_t s | PNormal color => color_t s
  | PBitmap bold => bold_t s | PBitmap italic => italic_t s | PBitmap underline => underline_t s
  end.

Definition set_stamp (s : stamps) (p : prop) (t : option lc) : stamps :=
  match p with
  | PNormal font => mkStamps t (size_t s) (color_t s) (bold_t s) (italic_t s) (underline_t s)
  | PNormal size => mkStamps (font_t s) t (color_t s) (bold_t s) (italic_t s) (underline_t s)
  | PNormal color => mkStamps (font_t s) (size_t s) t (bold_t s) (italic_t s) (underline_t s)
  | PBitmap bold => mkStamps (font_t s) (size_t s) (color_t s) t (italic_t s) (underline_t s)
  | PBitmap italic => mkStamps (font_t s) (size_t s) (color_t s) (bold_t s) t (underline_t s)
  | PBitmap underline => mkStamps (font_t s) (size_t s) (color_t s) (bold_t s) (italic_t s) t
  end.

Record rwfle := mkRwfle {
  l_header : reh;
  oid : option string;
  pos_id : option leid;
  l_current : lc;
  content : option string;
  l_stamps : stamps;
  l_formats : formats;
  next : option nat
}.

Definition rwfleNew (p2p_count p2p_id : Z) : res rwfle :=
  h ← REH_INIT p2p_count p2p_id;
  Ok (mkRwfle h None None (_lc_new 0 p2p_id) None no_stamps (mkFormats None None None 0) None).

Definition set_header (e : rwfle) (h : reh) : rwfle :=
  mkRwfle h (oid e) (pos_id e) (l_current e) (content e) (l_stamps e) (l_formats e) (next e).
Definition set_formats (e : rwfle) (f : formats) : rwfle :=
  mkRwfle (l_header e) (oid e) (pos_id e) (l_current e) (content e) (l_stamps e) f (next e).
Definition set_next (e : rwfle) (n : option nat) : rwfle :=
  mkRwfle (l_header e) (oid e) (pos_id e) (l_current e) (content e) (l_stamps e) (l_formats e) n.

#[export] Instance rwfle_linked : Linked rwfle.
Proof. by refine (@Build_Linked rwfle pos_id next set_next _ _ _). Defined.

(** [acquired_update] after [sdstolower(type)]. *)
Definition acquired_update (e : rwfle) (type : string) (t : lc) (value : Z) : rwfle :=
  match prop_of_name type with
  | None => e
  | Some p =>
      let newer := match get_stamp (l_stamps e) p with None => true | Some u => lc_cmp u t <=? 0 end in
      if newer then
        mkRwfle (l_header e) (oid e) (pos_id e) (lc_update (l_current e) t) (content e)
          (set_stamp (l_stamps e) p (lc_copy (get_stamp (l_stamps e) p) t)) (write_prop (l_formats e) p value) (next e)
      else e
  end.

(** The properties an insert brings, for those without a timestamp. *)
Definition innate_normal (vals : normal -> Z) (e : rwfle) (p : normal) : rwfle :=
  match get_stamp (l_stamps e) (PNormal p) with
  | None => set_formats e (set_normal (l_formats e) p (vals p))
  | Some _ => e
  end.
Definition innate_bitmap (bits : Z) (e : rwfle) (p : bitmap) : rwfle :=
  match get_stamp (l_stamps e) (PBitmap p) with
  | None => set_formats e (set_property (l_formats e) p (negb (Z.land bits (property_bit p) =? 0)))
  | Some _ => e
  end.
Definition innate_update (vals : normal -> Z) (bits : Z) (e : rwfle) : rwfle :=
  foldl (innate_bitmap bits) (foldl (innate_normal vals) e FORALL_NORMAL) FORALL_BITMAP.

(** The element after [removeCheck] said that it was removed. *)
Definition reset_elem (e : rwfle) : rwfle :=
  mkRwfle (l_header e) (oid e) (pos_id e) (mkLc 0 (lid (l_current e))) (content e) no_stamps (l_formats e) (next e).

Section Commands.
Context {E : Type} `{!Cell rwfle E, !Cell vc E}.
Notation M := (M E).

Definition rwfl_new (s : server E) : res rwfle := rwfleNew (p2p_count s) (p2p_id s).

Definition GET_RWFLE (arg : nat -> M string) (create : bool) : M (option nat) :=
  tname ← arg 1%nat; key ← arg 2%nat; rehHTGet tname "" key create rwfl_new.
Definition GET_RWFLE_NEW (arg : nat -> M string) : M (option nat) :=
  tname ← arg 1%nat; key ← arg 3%nat; rehHTGet tname "" key true rwfl_new.

(** ** Effects *)

Definition rwfl_removeFunc (p : nat) (t : vc) : M unit :=
  e ← load p;
  let exist_tmp := EXISTS (l_header e) in
  r ← lift (removeCheck (l_header e) t);
  _ ← store p (set_header e r.1);
  if (r.2 : bool) then
    ht ← GET_LIST_HT rargv_at false;
    _ ← (if exist_tmp then ht ← not_null ht; incrLen ht (-1) else skip);
    e ← load p;
    _ ← store p (reset_elem e);
    dirty_inc
  else skip.

Definition long_arg (i : nat) : M Z := a ← rargv_at i; lift (of_option Uninitialised (getLongLongFromObject a)).

(** An element that is new gets its id, content and position and is linked. *)
Definition insert_place (ht : string) (p : nat) : M unit :=
  e ← load p;
  match oid e with
  | Some _ => skip
  | None =>
      o ← rargv_at 3;
      c ← rargv_at 4;
      a ← rargv_at 9;
      id ← lift (sdsToLeid a);
      _ ← store p (mkRwfle (l_header e) (Some o) (Some id) (l_current e) (Some c) (l_stamps e) (l_formats e) (next e));
      link_element ht p id (GET_RWFLE rargv_at false)
  end.

(** The add in the remove history it carries. *)
Definition insert_add (ht : string) (p : nat) (t : vc) : M unit :=
  e ← load p;
  let exist_tmp := EXISTS (l_header e) in
  let '(h, b) := addCheck (l_header e) t in
  _ ← store p (set_header e h);
  if b then
    _ ← (if exist_tmp then skip else incrLen ht 1);
    v1 ← long_arg 5;
    v2 ← long_arg 6;
    v3 ← long_arg 7;
    bits ← long_arg 8;
    e ← load p;
    _ ← store p (innate_update (pick (v1, v2, v3)) bits e);
    dirty_inc
  else skip.

Definition rwflinsert_effect : M unit :=
  t ← CR_GET_LAST;
  p ← GET_RWFLE_NEW rargv_at;
  p ← not_null p;
  _ ← rwfl_removeFunc p t;
  ht ← GET_LIST_HT rargv_at true;
  ht ← not_null ht;
  _ ← insert_place ht p;
  insert_add ht p t.

Definition rwflupdate_effect : M unit :=
  t ← CR_GET_LAST;
  p ← GET_RWFLE rargv_at true;
  p ← not_null p;
  a ← rargv_at 5;
  lt ← lift (sdsToLc a);
  a ← rargv_at 4;
  let value := getLongLongFromObject a in
  _ ← rwfl_removeFunc p t;
  e ← load p;
  let '(h, b) := updateCheck (l_header e) t in
  _ ← store p (set_header e h);
  if b then
    value ← lift (of_option Uninitialised value);
    _ ← tolower_rargv 3;
    type ← rargv_at 3;
    e ← load p;
    _ ← store p (acquired_update e type lt (i32 value));
    dirty_inc
  else skip.

Definition rwflrem_effect : M unit :=
  p ← GET_RWFLE rargv_at true;
  p ← not_null p;
  t ← CR_GET_LAST;
  rwfl_removeFunc p t.

(** ** Prepare phases *)

Definition header_at (p : option nat) : M (option reh) :=
  match p with Some p => e ← load p; mret (Some (l_header e)) | None => mret None end.

(** [vc_inc] of the list's clock. *)
Definition tick (q : nat) : M unit :=
  cur ← load q;
  s ← get_srv;
  cur' ← lift (_vc_inc cur (p2p_id s));
  store q cur'.

Definition rwflinsert_prepare : M unit :=
  insert_prepare (GET_RWFLE argv_at false) (GET_RWFLE_NEW argv_at) (fun e => EXISTS (l_header e)) oid tick
    (fun e => ADD_CR_NON_RMV (l_header e)).

Definition rwflupdate_prepare : M unit :=
  _ ← CHECK_ARGC 5;
  _ ← CHECK_CONTAINER_TYPE OBJ_HASH;
  _ ← CHECK_ARG_TYPE_INT 4;
  p ← GET_RWFLE argv_at false;
  h ← header_at p;
  _ ← PREPARE_PRECOND_NON_ADD h;
  p ← not_null p;
  e ← load p;
  _ ← RARGV_ADD_SDS (lc_now (l_current e));
  ADD_CR_NON_RMV (l_header e).

Definition rwflrem_prepare : M unit :=
  _ ← CHECK_ARGC 3;
  _ ← CHECK_CONTAINER_TYPE OBJ_HASH;
  p ← GET_RWFLE argv_at false;
  h ← header_at p;
  _ ← PREPARE_PRECOND_NON_ADD h;
  h ← not_null h;
  ADD_CR_RMV h.

Definition rwflinsertCommand : M unit := crdt_command rwflinsert_prepare rwflinsert_effect.
Definition rwflupdateCommand : M unit := crdt_command rwflupdate_prepare rwflupdate_effect.
Definition rwflremCommand : M unit := crdt_command rwflrem_prepare rwflrem_effect.

(** ** Queries *)

Definition rwfllenCommand : M unit := lenQuery.

(** An element as [rwfllist] prints it. *)
Definition list_reply (e : rwfle) : res (list reply) :=
  o ← of_option NullDeref (oid e);
  c ← of_option NullDeref (content e);
  f1 ← of_option Uninitialised (f_font (l_formats e));
  f2 ← of_option Uninitialised (f_size (l_formats e));
  f3 ← of_option Uninitialised (f_color (l_formats e));
  Ok [RArray 6; RBulk o; RBulk c; RBulkInt f1; RBulkInt f2; RBulkInt f3; RBulkInt (property (l_formats e))].

Definition rwfl_show (e : rwfle) : res (list reply) := if EXISTS (l_header e) then list_reply e else Ok [].

Definition rwfllistCommand : M unit := listQuery rwfl_show.
End Commands.
