(* ===== verification/RwfListSpec.v ===== *)
(** * The RWF list: what its commands do

    The effect of an operation on the element it names and on the length, as
    functions; the effect phases of the commands carry them out on the list in
    the database, and the list stays linked in the order of the positions. *)

From S2P Require Import Prelude Sds VectorClock LamportClock Causal Leid Double Util Zset RWFramework Store Crdt Container RWFCommand ListBasics ListLink ListSpec RwfList.
From Stdlib Require Import Ascii.

(** ** The effect on the element *)

(** The operations as they travel, parsed; [vals] are the font, the size and
    the color. *)
Inductive rwfl_op :=
  | LInsert (c : string) (id : leid) (vals : Z * Z * Z) (bits : Z) (t : vc)
  | LUpdate (type : string) (value : Z) (lt : lc) (t : vc)
  | LRem (t : vc).

Definition lop_vc (x : rwfl_op) : vc := match x with LInsert _ _ _ _ t | LUpdate _ _ _ t | LRem t => t end.

(** [removeFunc] on the element and the length of the list. *)
Definition el_remove (e : rwfle) (len : Z) (t : vc) : res (rwfle * Z) :=
  r ← removeCheck (l_header e) t;
  Ok (if (r.2 : bool) then (reset_elem (set_header e r.1), if EXISTS (l_header e) then i32 (len + -1) else len)
      else (set_header e r.1, len)).

(** A new element gets its id, content and position. *)
Definition el_place (e : rwfle) (o c : string) (id : leid) : rwfle :=
  match oid e with
  | Some _ => e
  | None => mkRwfle (l_header e) (Some o) (Some id) (l_current e) (Some c) (l_stamps e) (l_formats e) (next e)
  end.

Definition el_add (e : rwfle) (len : Z) (vals : Z * Z * Z) (bits : Z) (t : vc) : rwfle * Z :=
  let '(h, b) := addCheck (l_header e) t in
  if b then (innate_update (pick vals) bits (set_header e h), if EXISTS (l_header e) then len else i32 (len + 1))
  else (set_header e h, len).

Definition el_update (e : rwfle) (type : string) (value : Z) (lt : lc) (t : vc) : rwfle :=
  let '(h, b) := updateCheck (l_header e) t in
  if b then acquired_update (set_header e h) (sdstolower type) lt (i32 value) else set_header e h.

Definition rwfl_elem (o : string) (e : rwfle) (len : Z) (x : rwfl_op) : res (rwfle * Z) :=
  r ← el_remove e len (lop_vc x);
  Ok (match x with
      | LInsert c id vals bits t => el_add (el_place r.1 o c id) r.2 vals bits t
      | LUpdate type value lt t => (el_update r.1 type value lt t, r.2)
      | LRem _ => r
      end).

(** ** Links do not matter to it *)

Lemma erase_innate vals bits (e : rwfle) : erase (innate_update vals bits e) = innate_update vals bits (erase e).
Proof.
  assert (forall l e, erase (foldl (innate_normal vals) e l) = foldl (innate_normal vals) (erase e) l) as Hn.
  { induction l as [|p l IH]; intros e0; [done|]. cbn [foldl]. rewrite IH. f_equal. unfold innate_normal.
    change (l_stamps (erase e0)) with (l_stamps e0). by destruct (get_stamp (l_stamps e0) (PNormal p)). }
  assert (forall l e, erase (foldl (innate_bitmap bits) e l) = foldl (innate_bitmap bits) (erase e) l) as Hb.
  { induction l as [|p l IH]; intros e0; [done|]. cbn [foldl]. rewrite IH. f_equal. unfold innate_bitmap.
    change (l_stamps (erase e0)) with (l_stamps e0). by destruct (get_stamp (l_stamps e0) (PBitmap p)). }
  unfold innate_update. by rewrite Hb, Hn.
Qed.

Lemma innate_frame vals bits (e : rwfle) : exists g, innate_update vals bits e = set_formats e g.
Proof.
  assert (forall (T : Type) (f : rwfle -> T -> rwfle) l (e : rwfle),
    (forall e p, exists g, f e p = set_formats e g) -> exists g, foldl f e l = set_formats e g) as Hf.
  { intros T f l. induction l as [|p l IH]; intros e0 H; cbn [foldl]; [exists (l_formats e0); by destruct e0|].
    destruct (H e0 p) as [g ->]. destruct (IH (set_formats e0 g) H) as [g' ->]. by exists g'. }
  assert (forall e : rwfle, exists g, e = set_formats e g) as Hid by (intros e0; exists (l_formats e0); by destruct e0).
  unfold innate_update. edestruct (Hf _ (innate_normal vals)) as [g Hg]; [|rewrite Hg].
  { intros e0 p. unfold innate_normal. destruct (get_stamp _ _); [apply Hid|by eexists]. }
  edestruct (Hf _ (innate_bitmap bits)) as [g' Hg']; [|rewrite Hg'; by exists g'].
  intros e0 p. unfold innate_bitmap. destruct (get_stamp _ _); [apply Hid|by eexists].
Qed.

Lemma erase_acquired type t v (e : rwfle) : erase (acquired_update e type t v) = acquired_update (erase e) type t v.
Proof.
  unfold acquired_update. destruct (prop_of_name type) as [p|]; [|done].
  change (l_stamps (erase e)) with (l_stamps e). by destruct (match get_stamp (l_stamps e) p with None => _ | Some _ => _ end).
Qed.

Lemma acquired_frame type t v (e : rwfle) :
  l_header (acquired_update e type t v) = l_header e /\ pos_id (acquired_update e type t v) = pos_id e /\
  next (acquired_update e type t v) = next e /\ oid (acquired_update e type t v) = oid e.
Proof.
  unfold acquired_update. destruct (prop_of_name type) as [p|]; [|done].
  by destruct (match get_stamp (l_stamps e) p with None => _ | Some _ => _ end).
Qed.

Section Effects.
Context {E : Type} `{!Cell rwfle E, !Cell vc E}.
Implicit Types (w : world E) (s : server E).

(** The names of fields that are not elements. *)
Definition rwfl_reserved : list string := ["head"; "current"; "length"].

Notation lview := (lview (A := rwfle) rwfl_reserved).
Notation lstep := (lstep (A := rwfle) rwfl_reserved).

Lemma res_head : "head" ∈ rwfl_reserved.
Proof. by left. Qed.
Lemma res_length : "length" ∈ rwfl_reserved.
Proof. do 2 right. by left. Qed.

Lemma set_len_same (m : lmodel) : set_len m (m_len m) = m :> lmodel (A := rwfle).
Proof. by destruct m. Qed.

(** The list of the message's key, which exists. *)
Lemma wp_list_key w l n K create Q :
  rargv (cli w) = Some (l, n) -> l !! 1%nat = Some K -> is_list (srv w) K -> Q (Some (Some K)) w ->
  wp (GET_LIST_HT rargv_at create) w Q.
Proof.
  intros Hr H1 [h Hd] HQ. unfold GET_LIST_HT. apply wp_bind. eapply wp_rargv_at; [done..|]. unfold getInnerHT.
  rewrite string_app_nil_r. apply wp_bind, wp_lookupKey. rewrite Hd. by wp_steps.
Qed.

Lemma wp_rwfl_remove w l n K m o p e t e' len' :
  rargv (cli w) = Some (l, n) -> l !! 1%nat = Some K -> lview (srv w) K m -> is_list (srv w) K ->
  m_ptrs m !! o = Some p -> m_els m !! o = Some e -> el_remove e (m_len m) t = Ok (e', len') ->
  wp (rwfl_removeFunc p t) w (fun r w' =>
    r = Some tt /\ lstep w w' K m (set_len (set_el m o e') len')).
Proof.
  intros Hr H1 Hv Hl Hp He Hrem. unfold rwfl_removeFunc. apply wp_bind.
  eapply (wp_lload rwfl_reserved); [done..|]. intros e1 He1 <-. unfold el_remove in Hrem.
  change (l_header (erase e1)) with (l_header e1) in Hrem.
  destruct (removeCheck (l_header e1) t) as [[h b]|c] eqn:Hck; [|done]. cbn [mbind res_bind fst snd] in Hrem.
  wp_steps. cbn [fst snd]. eapply (wp_lstore rwfl_reserved w K m o p e1); [done..|]. intros w1 Hst1 He1'.
  destruct b; injection Hrem as <- <-; cycle 1.
  { wp_steps. split; [done|]. exact Hst1. }
  assert (rargv (cli w1) = Some (l, n)) as Hr1 by (by rewrite (ls_cli _ _ _ _ _ _ Hst1)).
  apply wp_bind, (wp_list_key w1 l n K); [done|done|by apply (ls_list _ _ _ _ _ _ Hst1)|].
  apply wp_bind. set (m1 := set_el m o (erase (set_header e1 h))) in *.
  set (len' := if EXISTS (l_header e1) then i32 (m_len m + -1) else m_len m).
  apply (wp_mono _ _ (fun r w2 => r = Some tt /\ lstep w1 w2 K m1 (set_len m1 len') /\ elem_at (srv w2) p = Ok (set_header e1 h))).
  { unfold len'. destruct (EXISTS (l_header e1)); cycle 1.
    { wp_steps. split_and!; [done|by apply lstep_refl, Hst1|done]. }
    unfold not_null. wp_steps. apply (wp_incrLen rwfl_reserved res_length w1 K m1); [apply Hst1|by apply Hst1|done|].
    intros w2 Hst2 Hsame. split_and!; [done|exact Hst2|by rewrite Hsame]. }
  intros r w2 (-> & Hst2 & He2). apply wp_bind, (wp_load_at _ _ _ _ He2). apply wp_bind.
  eapply (wp_lstore rwfl_reserved w2 K _ o p); [apply Hst2|done|exact He2|done|done|]. intros w3 Hst3 _.
  apply wp_dirty_inc. split; [done|]. apply lstep_dirty. eapply lstep_trans; [exact Hst1|]. eapply lstep_trans; [exact Hst2|].
  unfold set_len, set_el in *. cbn [m_els m_ptrs m_order m_len m_extra m1] in *. by rewrite insert_insert_eq in Hst3.
Qed.

(** ** Effect phases *)

(** The model after an operation on the element [o] at [p]. *)
Definition lm_after (m : lmodel) (o : string) (p : nat) (e : rwfle) (order : list (nat * leid)) (len : Z) : lmodel :=
  mkLm (<[o := p]> (m_ptrs m)) (<[o := e]> (m_els m)) order len (m_extra m).

(** The element an operation finds or makes. *)
Definition el_found s (m : lmodel) (o : string) : res rwfle :=
  match m_els m !! o with Some e => Ok e | None => rwfl_new s end.

Lemma rwfl_new_fresh s e : rwfl_new s = Ok e -> erase e = e /\ pos_id e = None /\ oid e = None.
Proof.
  unfold rwfl_new, rwfleNew. destruct (REH_INIT _ _) as [h|]; [|done]. by intros [= <-].
Qed.

Lemma wp_cr_last w l n str t Q :
  rargv (cli w) = Some (l, n) -> last l = Some str -> sdsToVC str = Ok t -> Q (Some t) w -> wp CR_GET_LAST w Q.
Proof.
  intros Hr Hl Ht HQ. unfold CR_GET_LAST. apply wp_bind. eapply wp_rargs; [done|]. rewrite Hl. wp_steps. by eapply wp_lift.
Qed.

Lemma wp_rwfl_get w l n K m o i e (Q : option (option nat) -> world E -> Prop) :
  rargv (cli w) = Some (l, n) -> l !! 1%nat = Some K -> l !! i = Some o -> lview (srv w) K m -> o ∉ rwfl_reserved ->
  el_found (srv w) m o = Ok e ->
  (forall w' p, lstep w w' K m (add_el m o p e) -> is_list (srv w') K -> Q (Some (Some p)) w') ->
  wp (tname ← rargv_at 1; key ← rargv_at i; rehHTGet tname "" key true rwfl_new) w Q.
Proof.
  intros Hr H1 Hi Hv Ho He HQ. apply wp_bind. eapply wp_rargv_at; [done..|]. apply wp_bind. eapply wp_rargv_at; [done..|].
  unfold el_found in He. apply (wp_list_get rwfl_reserved res_head res_length w K m o e); try done; [| |by auto].
  - destruct (m_els m !! o) as [e0|] eqn:Hm; [injection He as <-; by eapply (erased rwfl_reserved)|by apply rwfl_new_fresh in He as [? _]].
  - destruct (m_els m !! o) as [e0|]; [by injection He|]. split; [by apply rwfl_new_fresh in He as (_ & ? & _)|].
    intros s' (H & H' & _). unfold rwfl_new in *. by rewrite H, H'.
Qed.

(** A message on the element [o] of the list [K]: where its words are. *)
Record message w (l : list string) (K : string) (t : vc) : Prop := {
  ms_rargv : exists n, rargv (cli w) = Some (l, n);
  ms_key : l !! 1%nat = Some K;
  ms_stamp : exists str, last l = Some str /\ sdsToVC str = Ok t
}.

Lemma wp_rwflrem_effect w l K m o e t e' len' :
  message w l K t -> l !! 2%nat = Some o -> o ∉ rwfl_reserved -> lview (srv w) K m -> el_found (srv w) m o = Ok e ->
  rwfl_elem o e (m_len m) (LRem t) = Ok (e', len') ->
  wp rwflrem_effect w (fun r w' => r = Some tt /\ exists p, lstep w w' K m (lm_after m o p e' (m_order m) len')).
Proof.
  intros [[n Hr] H1 (str & Hl & Ht)] H2 Ho Hv He Hx. unfold rwflrem_effect, GET_RWFLE. apply wp_bind.
  eapply (wp_rwfl_get w l n K m o 2 e); [done..|]. intros w1 p Hst1 Hl1. unfold not_null. wp_steps.
  assert (rargv (cli w1) = Some (l, n)) as Hr1 by (by rewrite (ls_cli _ _ _ _ _ _ Hst1)).
  eapply wp_cr_last; [done..|]. eapply wp_mono.
  - eapply (wp_rwfl_remove w1 l n K (add_el m o p e) o p e t e' len'); try done; [apply Hst1|by cbn; rewrite lookup_insert_eq..|].
    cbn [m_len add_el]. unfold rwfl_elem in Hx. cbn [lop_vc] in Hx. by destruct (el_remove e (m_len m) t).
  - intros r w2 [-> Hst2]. split; [done|]. exists p. eapply lstep_trans; [exact Hst1|].
    unfold set_len, set_el, add_el, lm_after in *. cbn [m_els m_ptrs m_order m_len m_extra] in *. by rewrite insert_insert_eq in Hst2.
Qed.

Lemma lm_chain m o p (e e2 e3 : rwfle) len :
  set_el (set_len (set_el (add_el m o p e) o e2) len) o e3 = lm_after m o p e3 (m_order m) len.
Proof. unfold set_el, set_len, add_el, lm_after. cbn [m_els m_ptrs m_order m_len m_extra]. by rewrite !insert_insert_eq. Qed.

Lemma lm_after_set m o p (e e2 : rwfle) order len : set_el (lm_after m o p e order len) o e2 = lm_after m o p e2 order len.
Proof. unfold set_el, lm_after. cbn [m_els m_ptrs m_order m_len m_extra]. by rewrite insert_insert_eq. Qed.

(** The client after the type of the property was put in lower case. *)
Definition lowered (c : client) (l : list string) (n : Z) : client :=
  set_rargv (set_argv c (tolower_at 3 (argv c))) (Some (tolower_at 3 l, n)).

(** The same step seen by another client. *)
Definition as_seen w w' : world E := mkWorld (srv w') (cli w) (capacity w).

Lemma wp_rwflupdate_effect w l n K m o type a5 a4 v lt e t e' len' :
  message w l K t -> rargv (cli w) = Some (l, n) -> l !! 2%nat = Some o -> l !! 3%nat = Some type ->
  l !! 4%nat = Some a4 -> l !! 5%nat = Some a5 -> getLongLongFromObject a4 = Some v -> sdsToLc a5 = Ok lt ->
  o ∉ rwfl_reserved -> lview (srv w) K m -> el_found (srv w) m o = Ok e ->
  rwfl_elem o e (m_len m) (LUpdate type v lt t) = Ok (e', len') ->
  wp rwflupdate_effect w (fun r w' => r = Some tt /\ (cli w' = cli w \/ cli w' = lowered (cli w) l n) /\ capacity w' = capacity w /\
    exists p, lstep w (as_seen w w') K m (lm_after m o p e' (m_order m) len')).
Proof.
  intros [_ H1 (str & Hl & Ht)] Hr H2 H3 H4 H5 Hv4 Hv5 Ho Hv He Hx. unfold rwflupdate_effect, GET_RWFLE. apply wp_bind.
  eapply wp_cr_last; [done..|]. apply wp_bind. eapply (wp_rwfl_get w l n K m o 2 e); [done..|]. intros w1 p Hst1 Hl1.
  unfold not_null. wp_steps. assert (rargv (cli w1) = Some (l, n)) as Hr1 by (by rewrite (ls_cli _ _ _ _ _ _ Hst1)).
  eapply wp_rargv_at; [done..|]. apply wp_bind. eapply wp_lift; [exact Hv5|]. apply wp_bind. eapply wp_rargv_at; [done..|].
  apply wp_bind. rewrite Hv4. unfold rwfl_elem in Hx. cbn [lop_vc] in Hx.
  destruct (el_remove e (m_len m) t) as [[e2 len2]|] eqn:Hrem; [|done]. cbn [mbind res_bind fst snd] in Hx. injection Hx as <- <-.
  eapply wp_mono; [eapply (wp_rwfl_remove w1 l n K (add_el m o p e) o p e t e2 len2); try done; [apply Hst1|by cbn; rewrite lookup_insert_eq..]|].
  intros r w2 [-> Hst2]. apply wp_bind.
  eapply (wp_lload rwfl_reserved w2 K _ o p e2); [apply Hst2|by cbn; rewrite lookup_insert_eq..|]. intros e3 He3 Hee.
  assert (l_header e2 = l_header e3) as Hh by (by rewrite <- Hee). unfold el_update. rewrite Hh.
  destruct (updateCheck (l_header e3) t) as [h b]. apply wp_bind.
  eapply (wp_lstore rwfl_reserved w2 K _ o p e3); [apply Hst2|by cbn; rewrite lookup_insert_eq|done..|]. intros w3 Hst3 He3'.
  pose proof (lstep_trans _ _ _ _ _ _ _ _ Hst1 (lstep_trans _ _ _ _ _ _ _ _ Hst2 Hst3)) as Hst. rewrite lm_chain in Hst. clear Hst1 Hst2 Hst3.
  assert (cli w3 = cli w /\ capacity w3 = capacity w) as [Hc3 Hcap3] by (split; apply Hst).
  destruct b; cycle 1.
  { wp_steps. split_and!; [done|by left|done|]. exists p. rewrite <- Hee. unfold as_seen. rewrite <- Hc3, <- Hcap3. destruct w3. exact Hst. }
  wp_steps. unfold tolower_rargv. wp_steps. rewrite Hc3, Hr. wp_steps. set (w4 := mkWorld _ _ _).
  eapply (wp_rargv_at 3 (tolower_at 3 l) n); [done|unfold tolower_at; by rewrite list_lookup_alter_eq, H3|].
  apply wp_bind, (wp_load_at w4 p _ _ He3'). apply wp_bind. destruct (acquired_frame (sdstolower type) lt (i32 v) (set_header e3 h)) as (_ & Hp1 & Hp2 & _).
  eapply (wp_lstore rwfl_reserved w4 K _ o p _ _ _ (ls_view _ _ _ _ _ _ Hst)); [by cbn; rewrite lookup_insert_eq|exact He3'|exact Hp1|exact Hp2|].
  intros w5 Hst5 _. apply wp_dirty_inc. rewrite lm_after_set in Hst5. cbn [cli capacity srv].
  split_and!; [done|by right; rewrite (ls_cli _ _ _ _ _ _ Hst5)|rewrite (ls_cap _ _ _ _ _ _ Hst5); exact Hcap3|].
  exists p. rewrite <- Hee. rewrite erase_acquired in Hst5.
  assert (lstep (as_seen w w3) (as_seen w w5) K (lm_after m o p (erase (set_header e3 h)) (m_order m) len2)
    (lm_after m o p (acquired_update (erase (set_header e3 h)) (sdstolower type) lt (i32 v)) (m_order m) len2)) as Hst6.
  { destruct Hst5 as [?????????]. by split. }
  apply (lstep_dirty _ _ (as_seen w w5)). eapply lstep_trans; [|exact Hst6]. unfold as_seen. rewrite <- Hc3, <- Hcap3. destruct w3. exact Hst.
Qed.

(** The words of an insert. *)
Record insert_msg (l : list string) (po o c : string) (id : leid) (vals : Z * Z * Z) (bits : Z) : Prop := {
  im_pre : l !! 2%nat = Some po;
  im_oid : l !! 3%nat = Some o;
  im_content : l !! 4%nat = Some c;
  im_font : exists a, l !! 5%nat = Some a /\ getLongLongFromObject a = Some vals.1.1;
  im_size : exists a, l !! 6%nat = Some a /\ getLongLongFromObject a = Some vals.1.2;
  im_color : exists a, l !! 7%nat = Some a /\ getLongLongFromObject a = Some vals.2;
  im_bits : exists a, l !! 8%nat = Some a /\ getLongLongFromObject a = Some bits;
  im_pos : exists a, l !! 9%nat = Some a /\ sdsToLeid a = Ok id
}.

(** The position a new element can take. *)
Definition can_place (m : lmodel (A := rwfle)) (po o : string) (id : leid) : Prop :=
  wf_leid id /\ id ∉ (m_order m).*2 /\ after_pre m po o id /\ po ∉ rwfl_reserved.

Lemma wp_insert_place w l n K m po o c id vals bits p e :
  rargv (cli w) = Some (l, n) -> l !! 1%nat = Some K -> insert_msg l po o c id vals bits ->
  lview (srv w) K m -> is_list (srv w) K -> m_ptrs m !! o = Some p -> m_els m !! o = Some e ->
  (oid e = None -> pos_id e = None /\ can_place m po o id) ->
  wp (insert_place K p) w (fun r w' => r = Some tt /\
    lstep w w' K m (mkLm (m_ptrs m) (<[o := el_place e o c id]> (m_els m))
      (match oid e with Some _ => m_order m | None => place p id (m_order m) end) (m_len m) (m_extra m))).
Proof.
  intros Hr H1 [H2 H3 H4 _ _ _ _ (a9 & H9 & Hid)] Hv Hl Hp He Hnew. unfold insert_place. apply wp_bind.
  eapply (wp_lload rwfl_reserved); [done..|]. intros e1 He1 <-. unfold el_place. change (oid (erase e1)) with (oid e1) in *.
  destruct (oid e1) as [o1|] eqn:Hoid.
  { wp_steps. split; [done|]. rewrite insert_id by done. destruct m. by apply lstep_refl. }
  destruct (Hnew eq_refl) as (Hpos & Hwf & Hni & Hpre & Hpo).
  apply wp_bind. eapply wp_rargv_at; [done..|]. apply wp_bind. eapply wp_rargv_at; [done..|]. apply wp_bind. eapply wp_rargv_at; [done..|].
  apply wp_bind. eapply wp_lift; [exact Hid|].
  eapply wp_mono; [eapply (wp_list_link rwfl_reserved res_head res_length w K m o po p e1); try done|done].
  intros w1 Q Hdb Hc HQ. unfold GET_RWFLE. apply wp_bind. eapply wp_rargv_at; [by rewrite Hc|done|].
  apply wp_bind. eapply wp_rargv_at; [by rewrite Hc|done|]. destruct Hl as [h Hd].
  eapply wp_find_field; [by rewrite Hdb| |exact HQ]. apply (hv_field _ _ _ _ (lview_hash _ _ _ _ _ Hv Hd)). done.
Qed.

Lemma long_arg_ok w l n i a v (Q : option Z -> world E -> Prop) :
  rargv (cli w) = Some (l, n) -> l !! i = Some a -> getLongLongFromObject a = Some v -> Q (Some v) w -> wp (long_arg i) w Q.
Proof. intros Hr Hi Hv HQ. unfold long_arg. apply wp_bind. eapply wp_rargv_at; [done..|]. rewrite Hv. by eapply wp_lift. Qed.

Lemma wp_insert_add w l n K m po o c id vals bits p e t :
  rargv (cli w) = Some (l, n) -> insert_msg l po o c id vals bits ->
  lview (srv w) K m -> is_list (srv w) K -> m_ptrs m !! o = Some p -> m_els m !! o = Some e ->
  wp (insert_add K p t) w (fun r w' => r = Some tt /\
    lstep w w' K m (set_len (set_el m o (el_add e (m_len m) vals bits t).1) (el_add e (m_len m) vals bits t).2)).
Proof.
  destruct vals as [[v1 v2] v3]. intros Hr [_ _ _ (a5 & H5 & V5) (a6 & H6 & V6) (a7 & H7 & V7) (a8 & H8 & V8) _] Hv Hl Hp He. cbn [fst snd] in V5, V6, V7. unfold insert_add. apply wp_bind.
  eapply (wp_lload rwfl_reserved); [done..|]. intros e1 He1 <-. unfold el_add. change (l_header (erase e1)) with (l_header e1).
  destruct (addCheck (l_header e1) t) as [h b]. apply wp_bind.
  eapply (wp_lstore rwfl_reserved w K m o p e1); [done..|]. intros w1 Hst1 He1'.
  destruct b; cycle 1. { wp_steps. split; [done|]. exact Hst1. }
  cbn [fst snd]. apply wp_bind. set (m1 := set_el m o (erase (set_header e1 h))) in *.
  set (len' := if EXISTS (l_header e1) then m_len m else i32 (m_len m + 1)).
  apply (wp_mono _ _ (fun r w2 => r = Some tt /\ lstep w1 w2 K m1 (set_len m1 len') /\ elem_at (srv w2) p = Ok (set_header e1 h))).
  { unfold len'. destruct (EXISTS (l_header e1)).
    { wp_steps. split_and!; [done|by apply lstep_refl, Hst1|done]. }
    apply (wp_incrLen rwfl_reserved res_length w1 K m1); [apply Hst1|by apply Hst1|done|].
    intros w2 Hst2 Hsame. split_and!; [done|exact Hst2|by rewrite Hsame]. }
  intros r w2 (-> & Hst2 & He2). pose proof (lstep_trans _ _ _ _ _ _ _ _ Hst1 Hst2) as Hst.
  assert (rargv (cli w2) = Some (l, n)) as Hr2 by (by rewrite (ls_cli _ _ _ _ _ _ Hst)).
  do 4 (apply wp_bind; eapply long_arg_ok; [done..|]). apply wp_bind, (wp_load_at _ _ _ _ He2), wp_bind.
  destruct (innate_frame (pick (v1, v2, v3)) bits (set_header e1 h)) as [g Hg].
  eapply (wp_lstore rwfl_reserved w2 K _ o p); [apply Hst2|done|exact He2|by rewrite Hg|by rewrite Hg|]. intros w3 Hst3 _.
  apply wp_dirty_inc. split; [done|]. apply lstep_dirty. eapply lstep_trans; [exact Hst|].
  rewrite erase_innate in Hst3. unfold set_len, set_el in *. cbn [m_els m_ptrs m_order m_len m_extra m1] in *. by rewrite insert_insert_eq in Hst3.
Qed.

Lemma el_remove_frame e len t e' len' :
  el_remove e len t = Ok (e', len') -> oid e' = oid e /\ pos_id e' = pos_id e /\ content e' = content e.
Proof.
  unfold el_remove. destruct (removeCheck (l_header e) t) as [[h b]|]; [|done]. cbn [mbind res_bind fst snd].
  destruct b; by intros [= <- <-].
Qed.

Lemma wp_rwflinsert_effect w l K m po o c id vals bits e t e' len' :
  message w l K t -> insert_msg l po o c id vals bits -> o ∉ rwfl_reserved -> lview (srv w) K m -> el_found (srv w) m o = Ok e ->
  (oid e = None -> pos_id e = None /\ can_place m po o id) ->
  rwfl_elem o e (m_len m) (LInsert c id vals bits t) = Ok (e', len') ->
  wp rwflinsert_effect w (fun r w' => r = Some tt /\ exists p,
    lstep w w' K m (lm_after m o p e' (match oid e with Some _ => m_order m | None => place p id (m_order m) end) len')).
Proof.
  intros [[n Hr] H1 (str & Hl & Ht)] Him Ho Hv He Hnew Hx. unfold rwflinsert_effect, GET_RWFLE_NEW. apply wp_bind.
  eapply wp_cr_last; [done..|]. apply wp_bind. eapply (wp_rwfl_get w l n K m o 3 e); [done|done|apply Him|done..|]. intros w1 p Hst1 Hl1.
  unfold not_null. wp_steps. assert (rargv (cli w1) = Some (l, n)) as Hr1 by (by rewrite (ls_cli _ _ _ _ _ _ Hst1)).
  unfold rwfl_elem in Hx. cbn [lop_vc] in Hx.
  destruct (el_remove e (m_len m) t) as [[e2 len2]|] eqn:Hrem; [|done]. cbn [mbind res_bind fst snd] in Hx. injection Hx as Hx.
  destruct (el_remove_frame _ _ _ _ _ Hrem) as (Hoid & Hpid & _).
  eapply wp_mono; [eapply (wp_rwfl_remove w1 l n K (add_el m o p e) o p e t e2 len2); try done; [apply Hst1|by cbn; rewrite lookup_insert_eq..]|].
  intros r w2 [-> Hst2]. set (m2 := set_len _ _) in Hst2.
  assert (rargv (cli w2) = Some (l, n)) as Hr2 by (by rewrite (ls_cli _ _ _ _ _ _ Hst2)).
  assert (m_ptrs m2 !! o = Some p /\ m_els m2 !! o = Some e2) as [Hp2 He2] by (cbn; by rewrite !lookup_insert_eq).
  wp_steps. eapply (wp_list_key w2 l n K); [done|done|by apply Hst2|]. wp_steps.
  eapply wp_mono; [apply (wp_insert_place w2 l n K m2 po o c id vals bits p e2); try done; [apply Hst2|by apply Hst2|]|].
  { rewrite Hoid, Hpid. intros Hn. destruct (Hnew Hn) as (Hpn & Hwf & Hni & [Hne Hlt] & Hpo). split; [done|]. split; [done|]. split; [done|].
    split; [|done]. split; [done|]. intros e3 i. cbn. rewrite !lookup_insert_ne by done. apply Hlt. }
  intros r w3 [-> Hst3]. rewrite Hoid in Hst3. set (m3 := mkLm _ _ _ _ _) in Hst3.
  eapply wp_mono; [apply (wp_insert_add w3 l n K m3 po o c id vals bits p (el_place e2 o c id) t); try done|].
  { by rewrite (ls_cli _ _ _ _ _ _ Hst3). }
  { apply Hst3. }
  { apply Hst3, Hst2, Hl1. }
  { cbn. by rewrite lookup_insert_eq. }
  intros r w4 [-> Hst4]. split; [done|]. exists p. change (m_len m3) with len2 in Hst4. rewrite Hx in Hst4.
  eapply lstep_trans; [exact Hst1|]. eapply lstep_trans; [exact Hst2|]. eapply lstep_trans; [exact Hst3|].
  replace (lm_after _ _ _ _ _ _) with (set_len (set_el m3 o e') len'); [exact Hst4|].
  unfold m3, m2, lm_after, set_len, set_el, add_el. cbn [m_els m_ptrs m_order m_len m_extra]. by rewrite !insert_insert_eq.
Qed.

(** ** The three effects together *)

(** The words of a message and the operation they stand for. *)
Definition carries (l : list string) (po o : string) (x : rwfl_op) : Prop :=
  (exists str, last l = Some str /\ sdsToVC str = Ok (lop_vc x)) /\
  match x with
  | LInsert c id vals bits _ => insert_msg l po o c id vals bits
  | LUpdate type value lt _ =>
      l !! 2%nat = Some o /\ l !! 3%nat = Some type /\
      (exists a, l !! 4%nat = Some a /\ getLongLongFromObject a = Some value) /\
      (exists a, l !! 5%nat = Some a /\ sdsToLc a = Ok lt)
  | LRem _ => l !! 2%nat = Some o
  end.

Definition rwfl_effect (x : rwfl_op) : M E unit :=
  match x with
  | LInsert _ _ _ _ _ => rwflinsert_effect
  | LUpdate _ _ _ _ => rwflupdate_effect
  | LRem _ => rwflrem_effect
  end.

(** The order of the links after the operation. *)
Definition order_after (m : lmodel (A := rwfle)) (e : rwfle) (p : nat) (x : rwfl_op) : list (nat * leid) :=
  match x with
  | LInsert _ id _ _ _ => match oid e with Some _ => m_order m | None => place p id (m_order m) end
  | _ => m_order m
  end.

(** An insert of a new element brings a position that is not taken and is after
    that of the element it names as its predecessor. *)
Definition placeable (m : lmodel (A := rwfle)) (po o : string) (e : rwfle) (x : rwfl_op) : Prop :=
  match x with LInsert _ id _ _ _ => oid e = None -> pos_id e = None /\ can_place m po o id | _ => True end.

Lemma rwfl_elem_total o e len x :
  length (vector (current (l_header e))) = length (vector (lop_vc x)) -> exists e' len', rwfl_elem o e len x = Ok (e', len').
Proof.
  intros H. unfold rwfl_elem, el_remove. rewrite removeCheck_spec by done. cbn [mbind res_bind].
  eexists _, _. by rewrite <- surjective_pairing.
Qed.

Lemma wp_rwfl_effect w l n K m po o x e e' len' :
  rargv (cli w) = Some (l, n) -> l !! 1%nat = Some K -> carries l po o x -> o ∉ rwfl_reserved -> lview (srv w) K m ->
  el_found (srv w) m o = Ok e -> placeable m po o e x -> rwfl_elem o e (m_len m) x = Ok (e', len') ->
  wp (rwfl_effect x) w (fun r w' => r = Some tt /\ (cli w' = cli w \/ cli w' = lowered (cli w) l n) /\ capacity w' = capacity w /\
    exists p, lstep w (as_seen w w') K m (lm_after m o p e' (order_after m e p x) len')).
Proof.
  intros Hr H1 [Hst Hx] Ho Hv He Hpl Hel. assert (message w l K (lop_vc x)) as Hmsg by (split; [by exists n|done|done]).
  assert (Hpost : forall (w' : world E) m', lstep w w' K m m' -> lstep w (as_seen w w') K m m') by (intros w' m' [?????????]; by split).
  destruct x as [c id vals bits t|type value lt t|t]; cbn [rwfl_effect order_after placeable lop_vc] in *.
  - eapply wp_mono; [by eapply wp_rwflinsert_effect|]. intros r w' [-> [p Hs]].
    split_and!; [done|left; apply Hs|apply Hs|]. exists p. by apply Hpost.
  - destruct Hx as (H2 & H3 & (a4 & H4 & V4) & (a5 & H5 & V5)). by eapply wp_rwflupdate_effect.
  - eapply wp_mono; [by eapply wp_rwflrem_effect|]. intros r w' [-> [p Hs]].
    split_and!; [done|left; apply Hs|apply Hs|]. exists p. by apply Hpost.
Qed.

End Effects.

(** The cells of a server that keeps RWF lists. *)
Inductive lcell := CElem (e : rwfle) | CClock (c : vc).
#[export] Instance rwfle_cell : Cell rwfle lcell.
Proof. by refine (@Build_Cell rwfle lcell CElem (fun c => match c with CElem e => Some e | _ => None end) _). Defined.
#[export] Instance clock_cell : Cell vc lcell.
Proof. by refine (@Build_Cell vc lcell CClock (fun c => match c with CClock e => Some e | _ => None end) _). Defined.

Definition empty_list : lmodel (A := rwfle) := mkLm ∅ ∅ [] 0 ∅.

Definition list_server : server lcell := mkServer 2 1 [] (mkZcfg 128 64) ∅ ∅ 0 0 [5; 6; 7].

Lemma empty_view s K : db s !! K = None -> heap s = ∅ -> lview (A := rwfle) (E := lcell) rwfl_reserved s K empty_list.
Proof. intros Hd Hh. apply lview_empty; [done|]. rewrite Hh. by intros q [c Hc]. Qed.

(** An insert arriving at an empty list. *)
Definition hello_words : list string :=
  ["rwflinsert"; "L"; "null"; "x"; "hello"; "1"; "2"; "3"; "5"; "7,0,2"; "0,0|0"].
Definition hello_op : rwfl_op := LInsert "hello" [mkPos 7 0 2] (1, 2, 3) 5 (mkVc [0; 0] 0).
Definition hello_world : world lcell := mkWorld list_server (mkClient hello_words (Some (hello_words, 11)) true false []) 0.

Lemma hello_carries : carries hello_words "null" "x" hello_op.
Proof. split; [eexists; by split|]. split; try done; eexists; by split. Qed.

Lemma hello_placeable e : pos_id e = None -> placeable empty_list "null" "x" e hello_op.
Proof.
  intros Hp _. split; [done|]. split_and!.
  - split; [constructor; [|done]; split; cbn; unfold BASE, INT_MAX; lia|]. eexists. split; [done|]. cbn. lia.
  - apply not_elem_of_nil.
  - split; [done|]. intros e0 i H. done.
  - apply (bool_decide_unpack _). reflexivity.
Qed.

