(* ===== verification/RwfListConv.v ===== *)
(** * The RWF list: replicas agree on elements

    Every property of an element is a last-writer-wins register inside the
    remove history, with the values of the winning insert where nobody wrote.
    Replicas that received the same operations agree on every property; they
    need not agree on the length of the list. *)

From S2P Require Import Prelude Sds VectorClock LamportClock Causal Leid Util RWFramework Store ListBasics ListLink ListSpec RwfList RwfListSpec.
From Stdlib Require Import Ascii.

(** A fold does not depend on the order when its steps commute. *)
Lemma foldl_commute {A B} (I : B -> Prop) (f : B -> A -> B) l1 l2 :
  (forall a b, a ∈ l1 -> I b -> I (f b a)) ->
  (forall a1 a2 b, a1 ∈ l1 -> a2 ∈ l1 -> I b -> f (f b a1) a2 = f (f b a2) a1) -> l1 ≡ₚ l2 ->
  forall b, I b -> foldl f b l1 = foldl f b l2.
Proof.
  intros HI Hf Hp. induction Hp as [|a l1 l2 Hp IH|a a' l|l1 l2 l3 Hp1 IH1 Hp2 IH2]; intros b Hb; cbn [foldl].
  - done.
  - apply IH; [intros; apply HI; [by right|done]|intros; apply Hf; [by right..|done]|apply HI; [by left|done]].
  - rewrite Hf; [done|by left|right; by left|done].
  - rewrite IH1 by done. apply IH2; [intros; apply HI; [by rewrite Hp1|done]|intros; apply Hf; [by rewrite Hp1..|done]|done].
Qed.

(** ** Reading a property *)

Definition bit_index (b : bitmap) : Z := match b with bold => 0 | italic => 1 | underline => 2 end.

Lemma land_bit x b : (Z.land x (property_bit b) =? 0) = negb (Z.testbit x (bit_index b)).
Proof.
  assert (property_bit b = 2 ^ bit_index b /\ 0 <= bit_index b) as [-> Hi] by (by destruct b).
  destruct (Z.testbit x (bit_index b)) eqn:Hb; cbn [negb].
  - apply Z.eqb_neq. intros H0. apply (f_equal (fun z => Z.testbit z (bit_index b))) in H0.
    rewrite Z.land_spec, Hb, Z.pow2_bits_true, Z.bits_0 in H0 by done. done.
  - apply Z.eqb_eq, Z.bits_inj'. intros i Hni. rewrite Z.land_spec, Z.bits_0.
    destruct (Z.eq_dec i (bit_index b)) as [->|Hne]; [by rewrite Hb|]. rewrite Z.pow2_bits_false by done. apply andb_false_r.
Qed.

Lemma set_bit_read x b b' on :
  Z.testbit (set_bit x b on) (bit_index b') = if decide (b' = b) then on else Z.testbit x (bit_index b').
Proof.
  assert (forall c, property_bit c = 2 ^ bit_index c /\ 0 <= bit_index c) as Hp by (by intros []).
  assert (Hidx : b' <> b -> bit_index b <> bit_index b') by (destruct b, b'; done).
  destruct (Hp b) as [Hpb Hb], (Hp b') as [_ Hb']. unfold set_bit. rewrite Hpb.
  case_decide as Heq; [subst|apply Hidx in Heq]; destruct on.
  - by rewrite Z.lor_spec, Z.pow2_bits_true, orb_true_r.
  - by rewrite Z.land_spec, Z.lnot_spec, Z.pow2_bits_true, andb_false_r.
  - by rewrite Z.lor_spec, Z.pow2_bits_false, orb_false_r.
  - by rewrite Z.land_spec, Z.lnot_spec, Z.pow2_bits_false, andb_true_r.
Qed.

(** The value [rwfllist] shows; a bit is 0 or 1. *)
Definition get_prop (f : formats) (p : prop) : option Z :=
  match p with
  | PNormal p => get_normal f p
  | PBitmap b => Some (Z.b2z (Z.testbit (property f) (bit_index b)))
  end.

(** What a written value reads as. *)
Definition norm (p : prop) (v : Z) : Z := match p with PNormal _ => v | PBitmap _ => Z.b2z (negb (v =? 0)) end.

Lemma write_read f p p' v : get_prop (write_prop f p v) p' = if decide (p' = p) then Some (norm p v) else get_prop f p'.
Proof.
  destruct p as [p|b], p' as [p'|b']; cbn [write_prop get_prop norm].
  - destruct p, p'; reflexivity.
  - rewrite decide_False by done. by destruct p.
  - by rewrite decide_False by done.
  - unfold set_property. cbn [property]. rewrite set_bit_read. repeat case_decide; congruence.
Qed.

(** The value an insert brings for a property. *)
Definition innate_val (vals : Z * Z * Z) (bits : Z) (p : prop) : Z :=
  match p with PNormal p => pick vals p | PBitmap b => Z.b2z (Z.testbit bits (bit_index b)) end.

(** The two kinds of properties of an insert as one loop. *)
Definition raw_val (vals : Z * Z * Z) (bits : Z) (p : prop) : Z :=
  match p with PNormal p => pick vals p | PBitmap b => Z.land bits (property_bit b) end.
Definition innate_one (v : prop -> Z) (e : rwfle) (p : prop) : rwfle :=
  match get_stamp (l_stamps e) p with None => set_formats e (write_prop (l_formats e) p (v p)) | Some _ => e end.

Lemma innate_one_loop vals bits e :
  innate_update (pick vals) bits e = foldl (innate_one (raw_val vals bits)) e ((PNormal <$> FORALL_NORMAL) ++ (PBitmap <$> FORALL_BITMAP)).
Proof. done. Qed.

Lemma innate_loop_read v l e p :
  let e' := foldl (innate_one v) e l in
  l_stamps e' = l_stamps e /\
  get_prop (l_formats e') p =
    if decide (p ∈ l) then match get_stamp (l_stamps e) p with Some _ => get_prop (l_formats e) p | None => Some (norm p (v p)) end
    else get_prop (l_formats e) p.
Proof.
  induction l as [|q l IH] using rev_ind; [done|]. rewrite foldl_app. cbn [foldl] in *. destruct IH as [Hs Hg].
  unfold innate_one at 1 3. rewrite Hs. destruct (get_stamp (l_stamps e) q) as [u|] eqn:Hu.
  - split; [done|]. rewrite Hg. destruct (decide (p = q)) as [->|Hne]; [rewrite Hu; by repeat case_decide|].
    repeat case_decide; set_solver.
  - split; [done|]. cbn [l_formats set_formats]. rewrite write_read. destruct (decide (p = q)) as [->|Hne].
    + rewrite Hu, (decide_True (P := q ∈ _)) by set_solver. done.
    + rewrite Hg. repeat case_decide; set_solver.
Qed.

Lemma innate_read vals bits e p :
  get_prop (l_formats (innate_update (pick vals) bits e)) p =
    match get_stamp (l_stamps e) p with Some _ => get_prop (l_formats e) p | None => Some (innate_val vals bits p) end.
Proof.
  rewrite innate_one_loop. destruct (innate_loop_read (raw_val vals bits) ((PNormal <$> FORALL_NORMAL) ++ (PBitmap <$> FORALL_BITMAP)) e p) as [_ ->].
  rewrite decide_True by (destruct p as [[]|[]]; cbn; set_solver). destruct (get_stamp (l_stamps e) p); [done|].
  destruct p as [q|b]; cbn [norm raw_val innate_val]; [done|]. by rewrite land_bit, negb_involutive.
Qed.

(** ** One property of an element *)

(** The id of the insert that won, the last update and the value the insert
    brought: what the operations of one remove history build. *)
Definition pdata : Type := Z * option (lc * Z) * option Z.
Definition fresh_pdata : pdata := (PID_NEXIST, None, None).

(** The property an update names, after [sdstolower]. *)
Definition names (type : string) : option prop := prop_of_name (sdstolower type).

Definition lww (last : option (lc * Z)) (lt : lc) (v : Z) : option (lc * Z) :=
  match last with Some (u, _) => if lc_cmp u lt <=? 0 then Some (lt, v) else last | None => Some (lt, v) end.

Definition pdata_apply (p : prop) (d : pdata) (x : rwfl_op) : pdata :=
  let '(i, last, inn) := d in
  match x with
  | LInsert _ _ vals bits t => if i <? vid t then (vid t, last, Some (innate_val vals bits p)) else d
  | LUpdate type value lt t =>
      (if i =? PID_NEXIST then PID_WAIT_INNATE else i,
       if decide (names type = Some p) then lww last lt (norm p (i32 value)) else last, inn)
  | LRem _ => d
  end.

(** The value they give the property, if they give it one. *)
Definition pdata_value (d : pdata) : option Z := match d.1.2 with Some (_, v) => Some v | None => d.2 end.

(** The element holds the data of the property. *)
Record holds (p : prop) (e : rwfle) (s : list Z * pdata) : Prop := {
  hd_cur : vector (current (l_header e)) = s.1;
  hd_pid : pid (l_header e) = s.2.1.1;
  hd_stamp : get_stamp (l_stamps e) p = fst <$> s.2.1.2;
  hd_val : forall v, pdata_value s.2 = Some v -> get_prop (l_formats e) p = Some v
}.

Definition lop_stamp (x : rwfl_op) : list Z := vector (lop_vc x).
Definition lop_is_rmv (x : rwfl_op) : bool := match x with LRem _ => true | _ => false end.

Lemma set_stamp_read s p p' t : get_stamp (set_stamp s p t) p' = if decide (p' = p) then t else get_stamp s p'.
Proof. destruct p as [[]|[]], p' as [[]|[]]; reflexivity. Qed.

Lemma lc_copy_eta u t : lc_copy u t = Some t.
Proof. by destruct u, t. Qed.

Lemma acquired_holds p e cur i last inn type lt v :
  holds p e (cur, (i, last, inn)) ->
  holds p (acquired_update e (sdstolower type) lt v)
    (cur, (i, if decide (names type = Some p) then lww last lt (norm p v) else last, inn)).
Proof.
  intros [H1 H2 H3 H4]. cbn [fst snd] in *. destruct (acquired_frame (sdstolower type) lt v e) as (Hh & _).
  unfold names, acquired_update in *. destruct (prop_of_name (sdstolower type)) as [q|]; [|by rewrite decide_False].
  destruct (decide (q = p)) as [->|Hne].
  - rewrite decide_True by done. rewrite H3 in *. unfold lww. destruct last as [[u x]|]; cbn [fmap option_fmap option_map fst] in *.
    + destruct (lc_cmp u lt <=? 0); [|by split].
      split; cbn [fst snd]; [exact H1|exact H2| |]; cbn [l_stamps l_formats].
      * by rewrite set_stamp_read, decide_True, lc_copy_eta.
      * intros y [= <-]. by rewrite write_read, decide_True.
    + split; cbn [fst snd]; [exact H1|exact H2| |]; cbn [l_stamps l_formats].
      * by rewrite set_stamp_read, decide_True, lc_copy_eta.
      * intros y [= <-]. by rewrite write_read, decide_True.
  - rewrite (decide_False (P := Some q = _)) by congruence.
    destruct (match get_stamp (l_stamps e) q with None => _ | Some _ => _ end); [|by split].
    split; cbn [fst snd]; [exact H1|exact H2| |]; cbn [l_stamps l_formats].
    + by rewrite set_stamp_read, decide_False.
    + intros y Hy. rewrite write_read, decide_False by done. by apply H4.
Qed.

Lemma remove_holds p e s len t :
  holds p e s -> length s.1 = length (vector t) ->
  exists e' len', el_remove e len t = Ok (e', len') /\
    holds p e' (if decide (vle (vector t) s.1) then s else (vec_update s.1 (vector t), fresh_pdata)).
Proof.
  intros [H1 H2 H3 H4] Hlen. unfold el_remove. rewrite removeCheck_spec by congruence. cbn [mbind res_bind fst snd]. rewrite H1.
  case_decide; cbn [fst snd]; eexists _, _; (split; [done|]); [by split|].
  split; cbn [fst snd]; [done|done|by destruct p as [[]|[]]|done].
Qed.

Lemma add_holds p e s len c id vals bits t o :
  holds p e s ->
  holds p (el_add (el_place e o c id) len vals bits t).1
    (if decide (vector t = s.1) then (s.1, pdata_apply p s.2 (LInsert c id vals bits t)) else s).
Proof.
  intros H. assert (holds p (el_place e o c id) s) as [H1 H2 H3 H4].
  { unfold el_place. destruct (oid e); [done|]. destruct H as [????]. by split. }
  clear H. destruct s as [cur [[i last] inn]]. cbn [fst snd] in *. unfold el_add, addCheck. rewrite vc_equal_spec, H1, H2.
  destruct (decide (vector t = cur)) as [Heq|Hne]; [rewrite bool_decide_true by done|rewrite bool_decide_false by done; by split].
  cbn [negb pdata_apply]. destruct (i <? vid t); cbn [fst]; [|by split].
  destruct (innate_frame (pick vals) bits (set_header (el_place e o c id) (mkReh (vid t) (current (l_header (el_place e o c id)))))) as [g Hg].
  set (e1 := innate_update _ _ _) in *.
  split; cbn [fst snd]; [by rewrite Hg|by rewrite Hg|rewrite Hg; exact H3|].
  intros v Hv. subst e1. rewrite innate_read. cbn [l_stamps l_formats set_header]. rewrite H3.
  destruct last as [[u x]|]; cbn [fmap option_fmap option_map fst]; [by apply H4|exact Hv].
Qed.

Lemma update_holds p e s type value lt t :
  holds p e s ->
  holds p (el_update e type value lt t)
    (if decide (vector t = s.1) then (s.1, pdata_apply p s.2 (LUpdate type value lt t)) else s).
Proof.
  intros [H1 H2 H3 H4]. destruct s as [cur [[i last] inn]]. cbn [fst snd] in *. unfold el_update, updateCheck, EXISTS. rewrite vc_equal_spec, H1, H2.
  destruct (decide (vector t = cur)) as [Heq|Hne]; [rewrite bool_decide_true by done|rewrite bool_decide_false by done; by split].
  cbn [negb pdata_apply]. destruct (i =? PID_NEXIST); cbn [negb]; apply acquired_holds; by split.
Qed.

Notation lstep_op p := (rwf_step lop_stamp lop_is_rmv (fun _ => fresh_pdata) (pdata_apply p)).

Lemma elem_holds p o e s len x :
  holds p e s -> length s.1 = length (lop_stamp x) ->
  exists e' len', rwfl_elem o e len x = Ok (e', len') /\ holds p e' (lstep_op p s x).
Proof.
  intros H Hlen. destruct (remove_holds p e s len (lop_vc x) H Hlen) as (e1 & len1 & Hrem & H1).
  unfold rwfl_elem. rewrite Hrem. cbn [mbind res_bind fst snd]. unfold rwf_step, lop_stamp in *. destruct s as [cur d]. cbn [fst snd] in *.
  set (s1 := if decide (vle (vector (lop_vc x)) cur) then (cur, d) else (vec_update cur (vector (lop_vc x)), fresh_pdata)) in *.
  destruct x as [c id vals bits t|type value lt t|t]; cbn [lop_vc lop_is_rmv] in *.
  - pose proof (add_holds p e1 s1 len1 c id vals bits t o H1) as H2.
    destruct (el_add (el_place e1 o c id) len1 vals bits t) as [e2 len2]. exists e2, len2. split; [done|]. destruct s1 as [cur1 d1]. exact H2.
  - eexists _, _. split; [done|]. pose proof (update_holds p e1 s1 type value lt t H1) as H2. destruct s1 as [cur1 d1]. exact H2.
  - eexists _, _. split; [done|]. by destruct s1 as [cur1 d1].
Qed.

(** A sequence of operations on the element. *)
Definition rwfl_run (o : string) (s : rwfle * Z) (l : list rwfl_op) : res (rwfle * Z) :=
  foldM (fun s x => rwfl_elem o s.1 s.2 x) s l.

Lemma step_length p cur d x n :
  length cur = n -> length (lop_stamp x) = n -> length (lstep_op p (cur, d) x).1 = n.
Proof.
  intros Hc Hx. unfold rwf_step. repeat case_match; simplify_eq/=; rewrite ?vec_update_length; done.
Qed.

Lemma run_holds p o n l : forall e s len,
  holds p e s -> length s.1 = n -> sized lop_stamp n l ->
  exists e' len', rwfl_run o (e, len) l = Ok (e', len') /\
    holds p e' (rwf_run lop_stamp lop_is_rmv (fun _ => fresh_pdata) (pdata_apply p) s l).
Proof.
  induction l as [|x l IH]; intros e [cur d] len H Hc Hl; [by eexists _, _|].
  apply Forall_cons in Hl as [Hx Hl]. destruct (elem_holds p o e (cur, d) len x H) as (e1 & len1 & Hstep & H1); [cbn in *; congruence|].
  destruct (IH e1 (lstep_op p (cur, d) x) len1 H1) as (e2 & len2 & Hrun & H2); [by apply step_length|done|].
  exists e2, len2. split; [|exact H2]. unfold rwfl_run in *. cbn [foldM fst snd]. rewrite Hstep. exact Hrun.
Qed.

(** ** The order of arrival does not matter *)

(** Within one remove history a replica inserts the element at most once, and
    no two of its updates carry one timestamp: what a replica sends in one
    history is determined by the replica and the timestamp. *)
Definition inserts_agree (l : list rwfl_op) : Prop :=
  forall c id v b t c' id' v' b' t', LInsert c id v b t ∈ l -> LInsert c' id' v' b' t' ∈ l ->
    vector t = vector t' -> vid t = vid t' -> v = v' /\ b = b'.
Definition updates_agree (l : list rwfl_op) : Prop :=
  (forall ty v lt t, LUpdate ty v lt t ∈ l -> wf_lc lt) /\
  (forall ty v lt t ty' v' t', LUpdate ty v lt t ∈ l -> LUpdate ty' v' lt t' ∈ l ->
    vector t = vector t' -> names ty = names ty' -> v = v').

Lemma lc_cmp_leb a b : wf_lc a -> wf_lc b -> (lc_cmp a b <=? 0) = bool_decide (~ lamport_lt b a).
Proof.
  intros Ha Hb. destruct (lc_cmp_spec a b Ha Hb) as (_ & _ & Hgt). apply Bool.eq_iff_eq_true.
  rewrite Z.leb_le, bool_decide_eq_true, <- Hgt. lia.
Qed.

Definition wf_last (last : option (lc * Z)) : Prop := match last with Some (u, _) => wf_lc u | None => True end.

Lemma lww_wf last t v : wf_last last -> wf_lc t -> wf_last (lww last t v).
Proof. intros Hl Ht. unfold lww. destruct last as [[u x]|]; [|done]. by destruct (_ <=? _). Qed.

Lemma lww_later last t1 v1 t2 v2 :
  wf_last last -> wf_lc t1 -> wf_lc t2 -> lamport_lt t1 t2 ->
  lww (lww last t1 v1) t2 v2 = lww last t2 v2 /\ lww (lww last t2 v2) t1 v1 = lww last t2 v2.
Proof.
  intros Hl H1 H2 Hlt. unfold lww. destruct last as [[u x]|]; cbn [wf_last] in Hl.
  - rewrite (lc_cmp_leb u t1), (lc_cmp_leb u t2) by done.
    repeat case_bool_decide; rewrite ?lc_cmp_leb by done; repeat case_bool_decide; unfold lamport_lt in *; try done; lia.
  - rewrite !lc_cmp_leb by done. repeat case_bool_decide; unfold lamport_lt in *; try done; lia.
Qed.

Lemma lww_commute last t1 v1 t2 v2 :
  wf_last last -> wf_lc t1 -> wf_lc t2 -> (t1 = t2 -> v1 = v2) -> lww (lww last t1 v1) t2 v2 = lww (lww last t2 v2) t1 v1.
Proof.
  intros Hl H1 H2 Hv. destruct (lamport_trichotomy t1 t2) as [H|[->|H]].
  - by destruct (lww_later last t1 v1 t2 v2) as [-> ->].
  - by rewrite Hv.
  - by destruct (lww_later last t2 v2 t1 v1) as [-> ->].
Qed.

Lemma pdata_rem p d t : pdata_apply p d (LRem t) = d.
Proof. by destruct d as [[i last] inn]. Qed.

(** Two operations of one history commute. *)
Lemma pdata_commute p l x1 x2 d :
  inserts_agree l -> updates_agree l -> Forall (fun x => 0 <= vid (lop_vc x)) l ->
  x1 ∈ l -> x2 ∈ l -> lop_stamp x1 = lop_stamp x2 -> wf_last d.1.2 ->
  pdata_apply p (pdata_apply p d x1) x2 = pdata_apply p (pdata_apply p d x2) x1.
Proof.
  intros Hi [Hw Hu] Hid H1 H2 Hst Hl. destruct d as [[i last] inn]. cbn [fst snd] in Hl.
  rewrite Forall_forall in Hid. pose proof (Hid _ H1) as I1. pose proof (Hid _ H2) as I2. unfold lop_stamp in Hst.
  destruct x1 as [c1 id1 va1 b1 t1|ty1 v1 lt1 t1|t1], x2 as [c2 id2 va2 b2 t2|ty2 v2 lt2 t2|t2];
    rewrite ?pdata_rem; try done; cbn [lop_vc] in *; unfold pdata_apply, PID_NEXIST, PID_WAIT_INNATE.
  - destruct (Z.eq_dec (vid t1) (vid t2)) as [Hv|Hv].
    + destruct (Hi _ _ _ _ _ _ _ _ _ _ H1 H2 Hst Hv) as [-> ->]. by rewrite Hv.
    + destruct (Z.ltb_spec i (vid t1)), (Z.ltb_spec i (vid t2)); zbool; try done; lia.
  - destruct (Z.ltb_spec i (vid t1)), (Z.eqb_spec i (-1)); zbool; try done; lia.
  - destruct (Z.ltb_spec i (vid t2)), (Z.eqb_spec i (-1)); zbool; try done; lia.
  - apply (f_equal2 pair); [apply (f_equal2 pair)|done]; [by destruct (Z.eqb_spec i (-1))|].
    destruct (decide (names ty1 = Some p)) as [Hn1|], (decide (names ty2 = Some p)) as [Hn2|]; try done.
    apply lww_commute; [done|by eapply Hw..|]. intros <-. do 2 f_equal. eapply Hu; [done..|congruence].
Qed.

Lemma pdata_wf p l x d : updates_agree l -> x ∈ l -> wf_last d.1.2 -> wf_last (pdata_apply p d x).1.2.
Proof.
  intros [Hw _] Hx Hl. destruct d as [[i last] inn]. cbn [fst snd] in Hl. destruct x as [c id va b t|ty v lt t|t]; cbn [pdata_apply]; [by destruct (_ <? _)| |done].
  cbn [fst snd]. case_decide; [|done]. apply lww_wf; [done|]. by eapply Hw.
Qed.

(** What a list of operations leaves of the property. *)
Definition pdata_of (n : nat) (p : prop) (l : list rwfl_op) : list Z * pdata :=
  let cur := history lop_stamp (replicate n 0) l in
  (cur, foldl (pdata_apply p) fresh_pdata (survivors lop_stamp lop_is_rmv cur l)).

Lemma pdata_perm n p l1 l2 :
  Forall (wf_vc n) (lop_vc <$> l1) -> inserts_agree l1 -> updates_agree l1 -> l1 ≡ₚ l2 -> pdata_of n p l1 = pdata_of n p l2.
Proof.
  intros Hwf Hi Hu Hp. rewrite Forall_fmap in Hwf.
  assert (sized lop_stamp n l1) as Hs by (eapply Forall_impl; [exact Hwf|]; intros x Hx; apply Hx).
  assert (Forall (fun x => 0 <= vid (lop_vc x)) l1) as Hid by (eapply Forall_impl; [exact Hwf|]; intros x Hx; apply (wf_id _ _ Hx)).
  assert (history lop_stamp (replicate n 0) l1 = history lop_stamp (replicate n 0) l2) as Hh
    by (apply (history_perm _ n); [apply length_replicate|done..]).
  unfold pdata_of. rewrite <- Hh. f_equal. set (cur := history _ _ _).
  assert (forall x, x ∈ survivors lop_stamp lop_is_rmv cur l1 -> x ∈ l1 /\ lop_stamp x = cur) as Hsv
    by (intros x; unfold survivors; rewrite list_elem_of_filter; unfold in_epoch; tauto).
  apply (foldl_commute (fun d => wf_last d.1.2)).
  - intros x d Hx. apply (pdata_wf p l1); [done|by apply Hsv].
  - intros x1 x2 d [Hx1 E1]%Hsv [Hx2 E2]%Hsv Hd. apply (pdata_commute p l1); try done. congruence.
  - unfold survivors. by rewrite Hp.
  - done.
Qed.

Lemma run_pdata n id p o len l :
  Forall (wf_vc n) (lop_vc <$> l) ->
  exists e e' len', rwfleNew (Z.of_nat n) id = Ok e /\ rwfl_run o (e, len) l = Ok (e', len') /\ holds p e' (pdata_of n p l).
Proof.
  intros Hwf. rewrite Forall_fmap in Hwf.
  assert (sized lop_stamp n l) as Hs by (eapply Forall_impl; [exact Hwf|]; intros x Hx; apply Hx).
  unfold rwfleNew, REH_INIT, _vc_new. rewrite (proj2 (Z.ltb_ge _ _)) by lia. cbn [mbind res_bind]. rewrite Nat2Z.id. set (e := mkRwfle _ _ _ _ _ _ _ _).
  assert (holds p e (replicate n 0, fresh_pdata)) as H by (split; try done; by destruct p as [[]|[]]).
  destruct (run_holds p o n l e _ len H) as (e' & len' & Hrun & H'); [apply length_replicate|done|].
  exists e, e', len'. split_and!; [done|done|]. rewrite (rwf_run_spec _ _ _ _ n) in H'; [exact H'|apply length_replicate|done..].
Qed.

(** An insert that won brought a value for every property. *)
Lemma won_value p l d : (0 <= d.1.1 -> is_Some d.2) -> 0 <= (foldl (pdata_apply p) d l).1.1 -> is_Some (foldl (pdata_apply p) d l).2.
Proof.
  revert d. induction l as [|x l IH]; intros d Hd; [done|]. cbn [foldl]. apply IH. destruct d as [[i last] inn]. cbn [fst snd] in *.
  destruct x as [c id va b t|ty v lt t|t]; cbn [pdata_apply]; [by destruct (_ <? _)| |done].
  cbn [fst snd]. unfold PID_NEXIST, PID_WAIT_INNATE. destruct (Z.eqb_spec i (-1)); [lia|done].
Qed.

Lemma pdata_won n p l : 0 <= (pdata_of n p l).2.1.1 -> is_Some (pdata_value (pdata_of n p l).2).
Proof.
  intros H. unfold pdata_value. destruct ((pdata_of n p l).2.1.2) as [[u v]|]; [by eexists|]. by apply won_value.
Qed.

(** ** The length *)

Definition present (m : lmodel (A := rwfle)) : gmap string rwfle := filter (fun kv => EXISTS (l_header kv.2) = true) (m_els m).
Definition counts (m : lmodel) : Prop := m_len m = Z.of_nat (base.size (present m)).

(** The message of an operation arrives after what it depends on: an update
    finds the history it was issued in, and the element if that is current. *)
Definition causal (e : rwfle) (x : rwfl_op) : Prop :=
  match x with
  | LUpdate _ _ _ t => vle (vector t) (vector (current (l_header e))) /\
      (vector t = vector (current (l_header e)) -> EXISTS (l_header e) = true)
  | _ => True
  end.

Lemma present_insert (els : gmap string rwfle) o e :
  let f := filter (fun kv : string * rwfle => EXISTS (l_header kv.2) = true) in
  Z.of_nat (base.size (f (<[o := e]> els))) =
    Z.of_nat (base.size (f els)) + Z.b2z (EXISTS (l_header e)) -
    match els !! o with Some e0 => Z.b2z (EXISTS (l_header e0)) | None => 0 end.
Proof.
  intros f. assert (f els !! o = match els !! o with Some e0 => if EXISTS (l_header e0) then Some e0 else None | None => None end) as Hl.
  { unfold f. rewrite map_lookup_filter. destruct (els !! o) as [e0|]; [|done]. cbn. by destruct (EXISTS (l_header e0)). }
  destruct (EXISTS (l_header e)) eqn:He; unfold f.
  - rewrite map_filter_insert_True by done. rewrite map_size_insert. fold f. rewrite Hl.
    destruct (els !! o) as [e0|]; [destruct (EXISTS (l_header e0))|]; cbn [Z.b2z]; unfold id; lia.
  - rewrite map_filter_insert_False by (cbn; congruence). rewrite map_filter_delete, map_size_delete. fold f. rewrite Hl.
    destruct (els !! o) as [e0|]; [destruct (EXISTS (l_header e0)) eqn:He0|]; cbn [Z.b2z]; unfold id; try lia.
    assert (base.size (f els) <> 0)%nat by (apply map_size_non_empty_iff; intros H0; by rewrite H0, lookup_empty in Hl). lia.
Qed.

Lemma remove_length e len t e' len' :
  el_remove e len t = Ok (e', len') -> -2^30 <= len <= 2^30 ->
  len' = len + Z.b2z (EXISTS (l_header e')) - Z.b2z (EXISTS (l_header e)) /\
  (EXISTS (l_header e') = true -> l_header e' = l_header e).
Proof.
  unfold el_remove, removeCheck. destruct (rmv_scan _ _) as [[]|]; cbn [mbind res_bind fst snd]; [| |done]; intros [= <- <-] Hr; [|cbn [l_header set_header]; split; [lia|done]].
  split; [|done]. assert (EXISTS (l_header (reset_elem (set_header e (REH_RMV_FUNC (l_header e) t)))) = false) as -> by done.
  destruct (EXISTS (l_header e)); cbn [Z.b2z]; [|lia]. rewrite i32_id by (unfold int_range, INT_MIN, INT_MAX; lia). lia.
Qed.

Lemma elem_length o e len x e' len' :
  causal e x -> rwfl_elem o e len x = Ok (e', len') -> 0 <= len < 2^30 ->
  length (vector (current (l_header e))) = length (lop_stamp x) -> Forall (fun z => 0 <= z) [vid (lop_vc x)] ->
  len' = len + Z.b2z (EXISTS (l_header e')) - Z.b2z (EXISTS (l_header e)).
Proof.
  intros Hc Hx Hr Hlen Hid. apply Forall_cons in Hid as [Hid _]. unfold rwfl_elem in Hx.
  destruct (el_remove e len (lop_vc x)) as [[e1 len1]|] eqn:Hrem; [|done]. cbn [mbind res_bind fst snd] in Hx.
  pose proof (remove_length _ _ _ _ _ Hrem ltac:(lia)) as [H1 Hsame].
  assert (forall b, 0 <= Z.b2z b <= 1) as Hb by (intros []; cbn; lia).
  pose proof (Hb (EXISTS (l_header e))). pose proof (Hb (EXISTS (l_header e1))).
  destruct x as [c id vals bits t|type value lt t|t]; cbn [lop_vc causal] in *.
  - injection Hx as Hx. unfold el_add in Hx. assert (l_header (el_place e1 o c id) = l_header e1) as Hh by (unfold el_place; by destruct (oid e1)).
    unfold addCheck in Hx. rewrite Hh in Hx. destruct (vc_equal t (current (l_header e1))); cbn [negb] in Hx; [|injection Hx as <- <-; cbn [l_header set_header]; lia].
    destruct (Z.ltb_spec (pid (l_header e1)) (vid t)); [|injection Hx as <- <-; cbn [l_header set_header]; lia].
    destruct (innate_frame (pick vals) bits (set_header (el_place e1 o c id) (mkReh (vid t) (current (l_header e1))))) as [g Hg].
    rewrite Hg in Hx. injection Hx as <- <-. cbn [l_header set_formats set_header].
    assert (EXISTS (mkReh (vid t) (current (l_header e1))) = true) as -> by (unfold EXISTS, PID_NEXIST; cbn [pid]; by destruct (Z.eqb_spec (vid t) (-1)); [lia|]).
    destruct (EXISTS (l_header e1)); cbn [Z.b2z] in *; [lia|]. rewrite i32_id by (unfold int_range, INT_MIN, INT_MAX; lia). lia.
  - injection Hx as <- <-. destruct Hc as [Hle Hex]. unfold el_remove in Hrem. rewrite removeCheck_spec in Hrem by done.
    rewrite decide_True in Hrem by done. cbn [mbind res_bind fst snd] in Hrem. injection Hrem as <- <-. unfold el_update, updateCheck. cbn [l_header set_header].
    rewrite vc_equal_spec. case_bool_decide as Heq; cbn [negb]; [|cbn [l_header set_header]; lia].
    rewrite (Hex Heq) in *. cbn [negb]. destruct (acquired_frame (sdstolower type) lt (i32 value) (set_header (set_header e (l_header e)) (l_header e))) as (Hh & _).
    rewrite Hh. cbn [l_header set_header]. rewrite (Hex Heq). lia.
  - injection Hx as <- <-. lia.
Qed.

(** ** Properties *)

(** C19 (convergence): two replicas that received the same inserts, updates and
    removes of a list element, in any two orders, agree on its remove history,
    on whether it exists and on the timestamp of every property; once an insert
    of the current history arrived they agree on the value of every property as
    well, which is then initialised.  The hypotheses say what replicas send:
    timestamps of the right size, one insert per replica and history, and one
    update per Lamport timestamp. *)
Theorem rwfl_converges (n : nat) id1 id2 o len1 len2 l1 l2 :
  Forall (wf_vc n) (lop_vc <$> l1) -> inserts_agree l1 -> updates_agree l1 -> l1 ≡ₚ l2 ->
  exists e1 e2 z1 z2,
    (e ← rwfleNew (Z.of_nat n) id1; rwfl_run o (e, len1) l1) = Ok (e1, z1) /\
    (e ← rwfleNew (Z.of_nat n) id2; rwfl_run o (e, len2) l2) = Ok (e2, z2) /\
    vector (current (l_header e1)) = vector (current (l_header e2)) /\ pid (l_header e1) = pid (l_header e2) /\
    forall p, get_stamp (l_stamps e1) p = get_stamp (l_stamps e2) p /\
      (0 <= pid (l_header e1) -> is_Some (get_prop (l_formats e1) p) /\ get_prop (l_formats e1) p = get_prop (l_formats e2) p).
Proof.
  intros Hwf Hi Hu Hp. assert (Hwf2 : Forall (wf_vc n) (lop_vc <$> l2)) by (by rewrite <- Hp).
  destruct (run_pdata n id1 (PNormal font) o len1 l1 Hwf) as (f1 & e1 & z1 & Hn1 & Hr1 & H1).
  destruct (run_pdata n id2 (PNormal font) o len2 l2 Hwf2) as (f2 & e2 & z2 & Hn2 & Hr2 & H2).
  exists e1, e2, z1, z2. rewrite Hn1, Hn2. cbn [mbind res_bind].
  assert (forall p, holds p e1 (pdata_of n p l1) /\ holds p e2 (pdata_of n p l1)) as Hh.
  { intros p. destruct (run_pdata n id1 p o len1 l1 Hwf) as (f1' & e1' & z1' & Hn1' & Hr1' & H1').
    destruct (run_pdata n id2 p o len2 l2 Hwf2) as (f2' & e2' & z2' & Hn2' & Hr2' & H2').
    rewrite <- (pdata_perm n p l1 l2) in H2' by done. split; congruence. }
  split_and!; [done|done| | |].
  - destruct (Hh (PNormal font)) as [A1 A2]. by rewrite (hd_cur _ _ _ A1), (hd_cur _ _ _ A2).
  - destruct (Hh (PNormal font)) as [A1 A2]. by rewrite (hd_pid _ _ _ A1), (hd_pid _ _ _ A2).
  - intros p. destruct (Hh p) as [A1 A2]. split; [by rewrite (hd_stamp _ _ _ A1), (hd_stamp _ _ _ A2)|].
    intros Hpos. rewrite (hd_pid _ _ _ A1) in Hpos. destruct (pdata_won n p l1 Hpos) as [v Hv].
    rewrite (hd_val _ _ _ A1 v Hv), (hd_val _ _ _ A2 v Hv). by split; [eexists|].
Qed.

(** Two concurrent inserts and two updates of the size, with a remove between. *)
Definition sample_ops : list rwfl_op :=
  [LInsert "a" [mkPos 5 0 0] (1, 2, 3) 1 (mkVc [0; 0; 0] 0); LUpdate "SIZE" 12 (mkLc 1 1) (mkVc [0; 0; 0] 1);
   LRem (mkVc [0; 0; 1] 2); LInsert "a" [mkPos 5 0 0] (4, 5, 6) 4 (mkVc [0; 0; 1] 1);
   LUpdate "size" 9 (mkLc 1 0) (mkVc [0; 0; 1] 0); LUpdate "size" 8 (mkLc 1 2) (mkVc [0; 0; 1] 2)].

Lemma rwfl_converges_witness :
  exists e1 e2 z1 z2,
    (e ← rwfleNew 3 0; rwfl_run "x" (e, 0) sample_ops) = Ok (e1, z1) /\
    (e ← rwfleNew 3 1; rwfl_run "x" (e, 0) (reverse sample_ops)) = Ok (e2, z2) /\
    get_prop (l_formats e1) (PNormal size) = get_prop (l_formats e2) (PNormal size).
Proof.
  destruct (rwfl_converges 3 0 1 "x" 0 0 sample_ops (reverse sample_ops)) as (e1 & e2 & z1 & z2 & H1 & H2 & _ & _ & Hp).
  - unfold sample_ops. cbn. repeat constructor; cbn; (lia || unfold INT_MAX; lia).
  - unfold sample_ops. intros c id v b t c' id' v' b' t' H1 H2.
    repeat (apply elem_of_cons in H1 as [H1|H1]); try (by apply elem_of_nil in H1);
      repeat (apply elem_of_cons in H2 as [H2|H2]); try (by apply elem_of_nil in H2); by simplify_eq.
  - unfold sample_ops. split.
    + intros ty v lt t H1. repeat (apply elem_of_cons in H1 as [H1|H1]); try (by apply elem_of_nil in H1); simplify_eq;
        unfold wf_lc, INT_MAX; cbn; lia.
    + intros ty v lt t ty' v' t' H1 H2.
      repeat (apply elem_of_cons in H1 as [H1|H1]); try (by apply elem_of_nil in H1);
        repeat (apply elem_of_cons in H2 as [H2|H2]); try (by apply elem_of_nil in H2); by simplify_eq.
  - by rewrite reverse_Permutation.
  - exists e1, e2, z1, z2. split; [exact H1|]. split; [exact H2|]. apply (Hp (PNormal size)).
    vm_compute in H1. injection H1 as <- _. vm_compute. discriminate.
Defined.

(** When messages arrive after what they depend on, every
    operation keeps the length field of the list equal to the number of its
    elements that exist. *)
Theorem rwfl_length_counts {E} (n : nat) (s : server E) m o p e x e' order len' :
  counts m -> 0 <= m_len m < 2 ^ 30 -> el_found s m o = Ok e -> causal e x -> wf_vc n (lop_vc x) ->
  length (vector (current (l_header e))) = n ->
  rwfl_elem o e (m_len m) x = Ok (e', len') -> counts (lm_after m o p e' order len').
Proof.
  intros Hm Hr He Hc Hwf Hlen Hx.
  pose proof (elem_length o e (m_len m) x e' len' Hc Hx Hr ltac:(unfold lop_stamp; by rewrite Hlen, (wf_size _ _ Hwf)) ltac:(constructor; [apply (wf_id _ _ Hwf)|done])) as ->.
  unfold counts, present, lm_after. cbn [m_len m_els]. rewrite present_insert. unfold counts, present in Hm. rewrite Hm.
  unfold el_found in He. destruct (m_els m !! o) as [e0|] eqn:He0; [injection He as ->; lia|].
  unfold rwfl_new, rwfleNew in He. destruct (REH_INIT _ _) as [h|] eqn:Hh; [|done]. injection He as <-.
  unfold REH_INIT in Hh. destruct (_vc_new _ _) as [v|]; [|done]. injection Hh as <-.
  assert (EXISTS (l_header (mkRwfle (mkReh PID_NEXIST v) None None (_lc_new 0 (p2p_id s)) None no_stamps (mkFormats None None None 0) None)) = false) as -> by done.
  cbn [Z.b2z]. lia.
Qed.

Lemma rwfl_length_counts_witness :
  exists e', rwfl_elem "x" (mkRwfle (mkReh PID_NEXIST (mkVc [0; 0] 1)) None None (mkLc 0 1) None no_stamps (mkFormats None None None 0) None) 0 hello_op
      = Ok (e', 1) /\ counts (lm_after empty_list "x" 0 e' [(0%nat, [mkPos 7 0 2])] 1).
Proof.
  eexists. split; [vm_compute; reflexivity|].
  eapply (rwfl_length_counts 2 list_server empty_list "x" 0 _ hello_op).
  - reflexivity.
  - cbn. lia.
  - reflexivity.
  - exact I.
  - split; cbn; [done|repeat constructor; unfold INT_MAX; lia|lia].
  - reflexivity.
  - vm_compute. reflexivity.
Defined.

