(* ===== verification/RwfListLocal.v ===== *)
(** * The RWF list: an insert at the replica it is issued at

    From the words of the client to the list: the new element is linked
    directly after the one the client names, and the message to broadcast
    carries the same insert. *)

From S2P Require Import Prelude Sds VectorClock LamportClock Causal Leid Double Util Skiplist Zset RWFramework Store Crdt Container QueueSpec RWFCommand ListBasics ListLink ListSpec ListPrepare RwfList RwfListSpec.
From Stdlib Require Import Ascii.

Section Local.
Context {E : Type} `{!Cell rwfle E, !Cell vc E}.
Implicit Types (w : world E) (s : server E).
Notation lview := (lview (A := rwfle) rwfl_reserved).

Lemma res_current : "current" ∈ rwfl_reserved.
Proof. right. by left. Qed.

Definition shown (e : rwfle) : bool := EXISTS (l_header e).

Lemma tick_ok cur cur' w K m q (Q : option unit -> world E -> Prop) :
  _vc_inc cur (vid cur) = Ok cur' ->
  lview (srv w) K m -> clock_cell_at (srv w) m q cur -> vid cur = p2p_id (srv w) ->
  (forall w', lmoved rwfl_reserved (srv w) (srv w') K m m -> clock_cell_at (srv w') m q cur' -> rng (srv w') = rng (srv w) ->
     cli w' = cli w -> capacity w' = capacity w -> Q (Some tt) w') ->
  wp (tick q) w Q.
Proof.
  intros Hinc Hv Hc Hid HQ. unfold tick. apply wp_bind. eapply wp_load_clock; [done|]. wp_steps. rewrite <- Hid, Hinc. wp_steps.
  by eapply (wp_store_clock rwfl_reserved w K m q cur cur').
Qed.

(** What the theorem asks of the list and of the client's words. *)
Record insert_request w (K po o c : string) (vals : Z * Z * Z) (bits : Z) (args : list string) : Prop := {
  ir_sends : sends args (cli w);
  ir_words : exists a5 a6 a7 a8, args = ["rwflinsert"; K; po; o; c; a5; a6; a7; a8] /\
    getLongLongFromObject a5 = Some vals.1.1 /\ getLongLongFromObject a6 = Some vals.1.2 /\
    getLongLongFromObject a7 = Some vals.2 /\ getLongLongFromObject a8 = Some bits;
  ir_mode : REPLICATION_MODE (srv w) = true;
  ir_plain : po ∉ rwfl_reserved /\ o ∉ rwfl_reserved /\ po <> o /\ c_str po <> "readd"
}.

Record insert_ready s (K po o : string) m (e : rwfle) (cur cur' : vc) (n : nat) (l1 l2 : list (nat * leid)) : Prop := {
  rd_view : lview s K m;
  rd_place : names_place shown m po l1 l2;
  rd_found : el_found s m o = Ok e;
  rd_absent : EXISTS (l_header e) = false /\ oid e = None /\ pos_id e = None;
  rd_history : wf_vc n (current (l_header e)) /\ (0 < n <= VC_INT_BUF)%nat;
  rd_clock : clock_ready cur s m;
  rd_inc : _vc_inc cur (vid cur) = Ok cur'
}.

Lemma request_words w K po o c vals bits args :
  insert_request w K po o c vals bits args -> insert_words args K po o.
Proof.
  intros [_ (a5 & a6 & a7 & a8 & -> & H5 & H6 & H7 & H8) _ _]. split; try done.
  repeat constructor; by eexists _, _.
Qed.

Lemma ready_unplaced s K po o m e cur cur' n l1 l2 :
  insert_ready s K po o m e cur cur' n l1 l2 -> unplaced rwfl_new shown oid s m o e.
Proof.
  intros [Hv _ Hf (Hx & Ho & Hp) _ _ _]. unfold el_found in Hf. unfold unplaced.
  assert (erase e = e) as Hee.
  { destruct (m_els m !! o) as [e0|] eqn:He; [injection Hf as <-; by eapply erased|by apply rwfl_new_fresh in Hf as [? _]]. }
  split_and!; try done. destruct (m_els m !! o) as [e0|]; [by injection Hf|]. split; [done|].
  intros s' (H & H' & _). unfold rwfl_new in *. by rewrite H, H'.
Qed.

(** The prepare phase: what it sends. *)
Lemma wp_rwflinsert_prepare w K po o c vals bits args m e cur cur' n l1 l2 :
  insert_request w K po o c vals bits args -> insert_ready (srv w) K po o m e cur cur' n l1 l2 ->
  wp rwflinsert_prepare (start_world w) (fun r w1 => r = Some tt /\ exists p q id l k,
    lmoved rwfl_reserved (srv w) (srv w1) K m (set_extra "current" (add_el m o p e) q) /\
    clock_cell_at (srv w1) (set_extra "current" (add_el m o p e) q) q cur' /\
    set_rargv (cli w1) None = set_rargv (cli w) None /\ rargv (cli w1) = Some (l, k) /\ l !! 1%nat = Some K /\
    carries l po o (LInsert c id vals bits (current (l_header e))) /\
    wf_leid id /\ Forall (fun x => leid_lt x.2 id) l1 /\ Forall (fun x => leid_lt id x.2) l2).
Proof.
  intros Hreq Hrdy. pose proof (request_words _ _ _ _ _ _ _ _ Hreq) as Hw. pose proof (ready_unplaced _ _ _ _ _ _ _ _ _ _ _ Hrdy) as Hu.
  destruct Hreq as [(Ha & Hr & Hir & Hrm) Hargs Hmode (Hp1 & Hp2 & Hp3 & Hp4)]. destruct Hrdy as [Hv Hnp Hf _ [Hh Hn] Hc Hinc].
  assert (grown (start_world w) []) as Hg by (unfold grown, start_world; cbn [cli capacity]; rewrite Hr; done).
  unfold rwflinsert_prepare. change (GET_RWFLE argv_at false) with (list_get (E := E) rwfl_new argv_at 2 false).
  change (GET_RWFLE_NEW argv_at) with (list_get (E := E) rwfl_new argv_at 3 true).
  apply (wp_insert_prepare rwfl_reserved res_head res_length res_current rwfl_new shown oid tick (fun e => ADD_CR_NON_RMV (l_header e))
    cur cur' ltac:(intros; by eapply tick_ok) ltac:(done) ltac:(done) (start_world w) args K m po o e l1 l2); try done.
  intros w' p q id str e1 Hmv Hcell Hrng Hg' Hcl Hid Hwf Hlo Hhi Hee.
  assert (argv (cli w') = args) as Ha' by (by injection Hcl as ->).
  unfold ADD_CR_NON_RMV. assert (l_header e1 = l_header e) as -> by (by rewrite <- Hee).
  destruct (wf_vc_roundtrip n _ Hh Hn) as (vs & Hvs & Hvb). apply wp_bind. eapply wp_lift; [exact Hvs|].
  destruct Hargs as (a5 & a6 & a7 & a8 & Hargs & H5 & H6 & H7 & H8).
  eapply wp_mono; [apply (wp_RARGV_grow vs w' [str] Hg')|].
  { rewrite Ha', Hargs. unfold ADDITIONAL_CAPACITY. cbn. lia. }
  intros r w2 (-> & [Hs2 Hc2] & _ & k & Hk). rewrite Ha', Hargs in Hk. cbn [app] in Hk.
  split; [done|]. eexists p, q, id, _, k. split_and!; [by rewrite Hs2|by rewrite Hs2|by rewrite Hc2|exact Hk|done| |done..].
  split; [exists vs; by split|]. split; try done; eexists; by split.
Qed.

(** The element a fresh insert leaves. *)
Definition inserted (e : rwfle) (o c : string) (id : leid) (vals : Z * Z * Z) (bits : Z) : rwfle :=
  innate_update (pick vals) bits (set_header (el_place e o c id) (mkReh (vid (current (l_header e))) (current (l_header e)))).

Lemma insert_elem n o e len c id vals bits :
  EXISTS (l_header e) = false -> wf_vc n (current (l_header e)) ->
  rwfl_elem o e len (LInsert c id vals bits (current (l_header e))) = Ok (inserted e o c id vals bits, i32 (len + 1)).
Proof.
  intros Hx Hwf. unfold rwfl_elem, el_remove. cbn [lop_vc]. rewrite removeCheck_spec by done.
  rewrite decide_True by reflexivity. cbn [mbind res_bind fst snd]. assert (set_header e (l_header e) = e) as -> by (by destruct e).
  unfold el_add. assert (l_header (el_place e o c id) = l_header e) as -> by (unfold el_place; by destruct (oid e)).
  unfold addCheck. rewrite vc_equal_spec, bool_decide_true by done. cbn [negb]. unfold EXISTS in Hx.
  apply negb_false_iff, Z.eqb_eq in Hx. rewrite Hx. pose proof (wf_id _ _ Hwf). unfold PID_NEXIST in *.
  rewrite (proj2 (Z.ltb_lt _ _)) by lia. unfold EXISTS. rewrite Hx. done.
Qed.

Lemma inserted_frame n e o c id vals bits :
  oid e = None -> wf_vc n (current (l_header e)) ->
  let e' := inserted e o c id vals bits in
  EXISTS (l_header e') = true /\ oid e' = Some o /\ content e' = Some c /\ pos_id e' = Some id.
Proof.
  intros Ho Hwf e'. unfold e', inserted. set (e1 := set_header _ _). destruct (innate_frame (pick vals) bits e1) as [g ->].
  unfold e1, el_place. rewrite Ho. cbn. split_and!; try done. unfold EXISTS, PID_NEXIST. cbn [pid].
  pose proof (wf_id _ _ Hwf). destruct (Z.eqb_spec (vid (current (l_header e))) (-1)); [lia|done].
Qed.

Lemma between_fresh (l1 l2 : list (nat * leid)) id :
  Forall (fun x => leid_lt x.2 id) l1 -> Forall (fun x => leid_lt id x.2) l2 -> id ∉ (l1 ++ l2).*2.
Proof.
  intros H1 H2 ([a i] & -> & Hin)%list_elem_of_fmap. rewrite Forall_forall in H1, H2. cbn in *.
  apply elem_of_app in Hin as [Hin|Hin]; [apply H1 in Hin|apply H2 in Hin]; by apply (irreflexivity leid_lt i) in Hin.
Qed.

Lemma prepared_place m m1 po o id l1 l2 h s :
  hview rwfl_reserved s h m -> m_order m1 = m_order m -> (exists e, m_els m1 = <[o := e]> (m_els m)) ->
  names_place shown m po l1 l2 -> po <> o -> po ∉ rwfl_reserved -> wf_leid id ->
  Forall (fun x => leid_lt x.2 id) l1 -> Forall (fun x => leid_lt id x.2) l2 -> can_place m1 po o id.
Proof.
  intros H Ho Hels [Hm Hnp] Hne Hpo Hwf Hlo Hhi. split; [done|]. rewrite Ho, Hm. split; [by apply between_fresh|]. split; [|done].
  split; [done|]. intros e i He Hi.
  assert (m_els m !! po = Some e) as He' by (destruct Hels as [e0 Hels]; rewrite Hels in He; by rewrite lookup_insert_ne in He).
  destruct Hnp as [(q & j & pe & Hq & Hpe & _ & Hl)|(-> & Hq & _)].
  - assert (e = pe) as -> by congruence. apply last_Some_elem_of in Hl.
    assert (l_pos pe = Some j) as Hj by (eapply (order_elem rwfl_reserved); [done| |done..]; rewrite Hm; apply elem_of_app; by left).
    rewrite Forall_forall in Hlo. specialize (Hlo _ Hl). cbn in *. congruence.
  - pose proof (hv_els _ _ _ _ H "null") as Hx. rewrite Hq in Hx. congruence.
Qed.

(** C18 (functional): a client's RWFLINSERT of a new element is accepted with OK;
    the element is then linked directly after the predecessor the client names
    (or first, for null), exists with the client's content, and is counted; the
    other elements and the order among them stay; and the words to broadcast
    carry that insert, with the position that was made for it. *)
Theorem rwfl_insert_lands w K po o c vals bits args m e cur cur' n l1 l2 :
  insert_request w K po o c vals bits args -> insert_ready (srv w) K po o m e cur cur' n l1 l2 ->
  exists w' p q id l k,
    rwflinsertCommand w = Ok (None, w') /\ out (cli w') = out (cli w) ++ [ROk] /\
    lview (srv w') K (mkLm (<[o := p]> (m_ptrs m)) (<[o := inserted e o c id vals bits]> (m_els m)) (l1 ++ (p, id) :: l2)
      (i32 (m_len m + 1)) (<["current" := HPtr q]> (m_extra m))) /\
    EXISTS (l_header (inserted e o c id vals bits)) = true /\ content (inserted e o c id vals bits) = Some c /\
    rargv (cli w') = Some (l, k) /\ carries l po o (LInsert c id vals bits (current (l_header e))).
Proof.
  intros Hreq Hrdy. pose proof (wp_rwflinsert_prepare _ _ _ _ _ _ _ _ _ _ _ _ _ _ _ Hreq Hrdy) as Hprep.
  destruct Hreq as [Hs Hargs Hmode (Hp1 & Hp2 & Hp3 & Hp4)]. destruct Hrdy as [Hv Hnp Hf (Hx & Hoid & Hpid) [Hh Hn] Hc Hinc].
  destruct (wp_issue rwflinsert_prepare rwflinsert_effect args w (fun r w' => r = None /\ exists p q id l k,
    out (cli w') = out (cli w) ++ [ROk] /\
    lview (srv w') K (mkLm (<[o := p]> (m_ptrs m)) (<[o := inserted e o c id vals bits]> (m_els m)) (l1 ++ (p, id) :: l2)
      (i32 (m_len m + 1)) (<["current" := HPtr q]> (m_extra m))) /\
    rargv (cli w') = Some (l, k) /\ carries l po o (LInsert c id vals bits (current (l_header e))))) as (r & w' & Hrun & -> & H);
    [exact Hs|exact Hmode| |].
  - eapply wp_mono; [exact Hprep|]. intros r w1 (-> & p & q & id & l & k & Hmv & _ & Hcl & Hr & Hk & Hca & Hwf & Hlo & Hhi).
    destruct Hs as (Ha & Hr0 & Hir & Hrm). injection Hcl as Hcl1 Hcl2 Hcl3 Hcl4.
    split_and!; [congruence|congruence|by eexists|]. set (w2 := mkWorld _ _ _).
    assert (message w2 l K (current (l_header e))) as Hmsg by (split; [by exists k|done|apply Hca]).
    eapply wp_mono; [apply (wp_rwflinsert_effect w2 l K (set_extra "current" (add_el m o p e) q) po o c id vals bits e (current (l_header e))
      (inserted e o c id vals bits) (i32 (m_len m + 1)))|]; try done.
    + apply Hca.
    + apply Hmv.
    + unfold el_found. cbn. by rewrite lookup_insert_eq.
    + intros _. split; [done|]. unfold ListSpec.lview in Hv.
      destruct (db (srv w) !! K) as [[h|z|t b1 b2]|]; try done; eapply prepared_place; try done; by exists e.
    + by eapply insert_elem.
    + intros r w3 [-> [p3 Hst]]. split_and!; [done|rewrite (ls_cli _ _ _ _ _ _ Hst); cbn; congruence|done|].
      exists p3, q, id, l, k. rewrite (ls_cli _ _ _ _ _ _ Hst). cbn [cli w2 add_out out rargv].
      split_and!; [congruence| |done|done]. rewrite Hoid in Hst. pose proof (ls_view _ _ _ _ _ _ Hst) as Hv3.
      unfold lm_after, set_extra, add_el in Hv3. cbn [m_els m_ptrs m_order m_len m_extra] in Hv3. rewrite !insert_insert_eq in Hv3.
      destruct Hnp as [Ho _]. rewrite Ho in Hv3. rewrite place_cut in Hv3; try done.
      unfold ListSpec.lview in Hv. rewrite <- Ho. destruct (db (srv w) !! K) as [[h|z|t b1 b2]|]; try done; apply Hv.
  - destruct H as (p & q & id & l & k & H1 & H2 & H3 & H4). exists w', p, q, id, l, k.
    destruct (inserted_frame n e o c id vals bits Hoid Hh) as (Hi1 & _ & Hi2 & _). by split_and!.
Qed.
End Local.

(** A client inserts the first element of a list. *)
Definition first_args : list string := ["rwflinsert"; "L"; "null"; "x"; "hello"; "1"; "2"; "3"; "5"].
Definition first_world : world lcell := mkWorld list_server (mkClient first_args None false false []) 0.
Definition fresh_item : rwfle :=
  mkRwfle (mkReh PID_NEXIST (mkVc [0; 0] 1)) None None (mkLc 0 1) None no_stamps (mkFormats None None None 0) None.

Lemma first_request : insert_request first_world "L" "null" "x" "hello" (1, 2, 3) 5 first_args.
Proof.
  split; [by split_and!|eexists _, _, _, _; by split_and!|done|].
  split_and!; try done; apply (bool_decide_unpack _); reflexivity.
Qed.

Lemma first_ready : insert_ready list_server "L" "null" "x" empty_list fresh_item (mkVc [0; 0] 1) (mkVc [0; 1] 1) 2 [] [].
Proof.
  split; try done; [by apply empty_view|split; [done|by right]| |].
  - split; [|unfold VC_INT_BUF; lia]. split; cbn; [done|repeat constructor; unfold INT_MAX; lia|lia].
  - split_and!; try done; [repeat constructor; lia|constructor].
Qed.

Lemma rwfl_insert_lands_witness :
  exists w' p q id, rwflinsertCommand first_world = Ok (None, w') /\
    lview rwfl_reserved (srv w') "L" (mkLm {["x" := p]} {["x" := inserted fresh_item "x" "hello" id (1, 2, 3) 5]} [(p, id)] 1 {["current" := HPtr q]}).
Proof.
  destruct (rwfl_insert_lands first_world "L" "null" "x" "hello" (1, 2, 3) 5 first_args empty_list fresh_item
    (mkVc [0; 0] 1) (mkVc [0; 1] 1) 2 [] [] first_request first_ready) as (w' & p & q & id & l & k & Hrun & _ & Hv & _).
  exists w', p, q, id. split; [exact Hrun|exact Hv].
Defined.

(** ** Reading the list *)

Section Read.
Context {E : Type} `{!Cell rwfle E, !Cell vc E}.
Implicit Types (w : world E) (s : server E).
Notation lview := (lview (A := rwfle) rwfl_reserved).

(** RWFLLIST on a list that is in order replies with the length
    field and then, in the order of the positions, the elements that exist; it
    changes nothing.  The loop over the links ends: the fuel is the number of
    heap cells. *)
Theorem rwfllist_reads w K m es rs :
  lview (srv w) K m -> is_list (srv w) K -> argv (cli w) !! 1%nat = Some K -> prepareClientToWrite (cli w) = true ->
  in_order m es -> rows rwfl_show es = Ok rs ->
  exists w', rwfllistCommand w = Ok (Some tt, w') /\ srv w' = srv w /\ out (cli w') = out (cli w) ++ RArray (m_len m) :: rs.
Proof. intros Hv Hl Hk Hp Hes Hrs. by eapply (listQuery_reads rwfl_reserved rwfl_show). Qed.
End Read.

(** The element another replica's insert leaves. *)
Definition hello_elem : rwfle :=
  mkRwfle (mkReh 0 (mkVc [0; 0] 1)) (Some "x") (Some [mkPos 7 0 2]) (mkLc 0 1) (Some "hello") no_stamps (mkFormats (Some 1) (Some 2) (Some 3) 5) None.

Lemma hello_list :
  exists w1 p, rwflinsert_effect hello_world = Ok (Some tt, w1) /\ is_list (srv w1) "L" /\
    lview rwfl_reserved (srv w1) "L" (lm_after empty_list "x" p hello_elem [(p, [mkPos 7 0 2])] 1).
Proof.
  destruct (wp_rwfl_effect hello_world hello_words 11 "L" empty_list "null" "x" hello_op fresh_item
    hello_elem 1) as (r & w1 & Hrun & -> & _ & _ & p & Hs); try done.
  - exact hello_carries.
  - apply (bool_decide_unpack _). reflexivity.
  - by apply empty_view.
  - by apply hello_placeable.
  - exists w1, p. split; [exact Hrun|]. split; [|exact (ls_view _ _ _ _ _ _ Hs)].
    eapply (lview_is_list rwfl_reserved (srv w1)); [exact (ls_view _ _ _ _ _ _ Hs)|]. apply lookup_insert_eq.
Qed.

Lemma rwfllist_reads_witness :
  exists w1 w', rwflinsert_effect hello_world = Ok (Some tt, w1) /\
    rwfllistCommand (mkWorld (srv w1) (mkClient ["rwfllist"; "L"] None false false []) 0) = Ok (Some tt, w') /\
    out (cli w') = [RArray 1; RArray 6; RBulk "x"; RBulk "hello"; RBulkInt 1; RBulkInt 2; RBulkInt 3; RBulkInt 5].
Proof.
  destruct hello_list as (w1 & p & Hrun & Hl & Hv).
  destruct (rwfllist_reads (mkWorld (srv w1) (mkClient ["rwfllist"; "L"] None false false []) 0) "L"
    (lm_after empty_list "x" p hello_elem [(p, [mkPos 7 0 2])] 1)
    [hello_elem]
    [RArray 6; RBulk "x"; RBulk "hello"; RBulkInt 1; RBulkInt 2; RBulkInt 3; RBulkInt 5] Hv Hl eq_refl eq_refl) as (w' & Hread & _ & Ho).
  - constructor; [|constructor]. exists "x". split; apply lookup_insert_eq.
  - reflexivity.
  - exists w1, w'. split; [exact Hrun|]. split; [exact Hread|exact Ho].
Defined.
