(* ===== verification/RList.v ===== *)
(** * The remove-win list: t_rlist.c

    Elements have an add set and a remove set (ARSet.v), whose adds carry the
    properties; one vector clock and one buffer of operations that are not
    ready yet serve the whole list.  The links are those of ListLink.v. *)

From S2P Require Import Prelude Sds VectorClock Causal ARSet Leid Double Util Zset Store Crdt RWFCommand ListBasics ListLink.
From Stdlib Require Import Ascii.

(** ** Elements *)

(** The timestamps of the properties of an add. *)
Record vstamps := mkVstamps {
  font_vt : vc; size_vt : vc; color_vt : vc; bold_vt : vc; italic_vt : vc; underline_vt : vc
}.

Definition get_vstamp (s : vstamps) (p : prop) : vc :=
  match p with
  | PNormal font => font_vt s | PNormal size => size_vt s | PNormal color => color_vt s
  | PBitmap bold => bold_vt s | PBitmap italic => italic_vt s | PBitmap underline => underline_vt s
  end.

Definition set_vstamp (s : vstamps) (p : prop) (t : vc) : vstamps :=
  match p with
  | PNormal font => mkVstamps t (size_vt s) (color_vt s) (bold_vt s) (italic_vt s) (underline_vt s)
  | PNormal size => mkVstamps (font_vt s) t (color_vt s) (bold_vt s) (italic_vt s) (underline_vt s)
  | PNormal color => mkVstamps (font_vt s) (size_vt s) t (bold_vt s) (italic_vt s) (underline_vt s)
  | PBitmap bold => mkVstamps (font_vt s) (size_vt s) (color_vt s) t (italic_vt s) (underline_vt s)
  | PBitmap italic => mkVstamps (font_vt s) (size_vt s) (color_vt s) (bold_vt s) t (underline_vt s)
  | PBitmap underline => mkVstamps (font_vt s) (size_vt s) (color_vt s) (bold_vt s) (italic_vt s) t
  end.

(** [rl_ase] without the clock [t], which the add set keeps. *)
Record rl_val := mkRlVal { rl_stamps : vstamps; rl_formats : formats }.

(** [rl_aseNew] and the properties the insert gives it. *)
Definition rl_aseNew (t : vc) (vals : Z * Z * Z) (bits : Z) : rl_val :=
  mkRlVal (mkVstamps (vc_dup t) (vc_dup t) (vc_dup t) (vc_dup t) (vc_dup t) (vc_dup t))
    (mkFormats (Some (pick vals font)) (Some (pick vals size)) (Some (pick vals color)) (i32 bits)).

(** An update on an add it saw; [type] is in lower case. *)
Definition rl_update (type : string) (value : Z) (t : vc) (a : rl_val) : rl_val :=
  match prop_of_name type with
  | None => a
  | Some p =>
      let u := get_vstamp (rl_stamps a) p in
      if vc_cmp u t <? 0 then
        mkRlVal (set_vstamp (rl_stamps a) p (mkVc (vector (vc_update u t)) (vid t))) (write_prop (rl_formats a) p value)
      else a
  end.

Record rle := mkRle {
  rl_oid : option string;
  rl_pos : option leid;
  rl_content : option string;
  rl_sets : ars rl_val;
  rl_next : option nat
}.

Definition rleNew : rle := mkRle None None None ars_new None.

Definition rl_set_sets (e : rle) (s : ars rl_val) : rle := mkRle (rl_oid e) (rl_pos e) (rl_content e) s (rl_next e).
Definition rl_set_next (e : rle) (n : option nat) : rle := mkRle (rl_oid e) (rl_pos e) (rl_content e) (rl_sets e) n.

#[export] Instance rle_linked : Linked rle.
Proof. by refine (@Build_Linked rle rl_pos rl_next rl_set_next _ _ _). Defined.

(** ** Operations that are not ready *)

Inductive rl_cmd_type := RLADD | RLUPDATE | RLREM.
Record rl_cmd := mkRlCmd { rl_type : rl_cmd_type; rl_argv : list string; rl_t : vc }.

(** [rl_cmdNew]: the arguments between the name of the command and the clock. *)
Definition rl_cmdNew (type : rl_cmd_type) (rargs : list string) (t : vc) : rl_cmd :=
  mkRlCmd type (take (length rargs - 2) (drop 1 rargs)) t.

Section Commands.
Context {E : Type} `{!Cell rle E, !Cell vc E, !Cell (list rl_cmd) E}.
Notation M := (M E).

(** The address of the list's buffer, made at the first use. *)
Definition getOps (ht : string) : M nat :=
  value ← hashTypeGetValueObject ht "ops";
  match value with
  | None =>
      p ← alloc ([] : list rl_cmd);
      _ ← hashTypeSet ht "ops" (HPtr p);
      mret p
  | Some v => lift (as_ptr v)
  end.

Definition rl_new (s : server E) : res rle := Ok rleNew.

Definition GET_RLE (tname key : string) (create : bool) : M (option nat) := rehHTGet tname "" key create rl_new.

Definition arg_of (argv : list string) (i : nat) : M string := lift (of_option OutOfBounds (argv !! i)).
Definition long_of (argv : list string) (i : nat) : M Z := a ← arg_of argv i; lift (of_option Uninitialised (getLongLongFromObject a)).

(** [vc_update(getCurrent(ht), t); server.dirty++;] *)
Definition advance (ht : string) (t : vc) : M unit :=
  q ← getCurrent ht;
  c ← load q;
  _ ← store q (vc_update c t);
  dirty_inc.

(** The element with its id, content and position, linked, if it is new. *)
Definition rl_place (ht : string) (argv : list string) (p : nat) : M unit :=
  e ← load p;
  match rl_oid e with
  | Some _ => skip
  | None =>
      o ← arg_of argv 2;
      c ← arg_of argv 3;
      a ← arg_of argv 8;
      id ← lift (sdsToLeid a);
      _ ← store p (mkRle (Some o) (Some id) (Some c) (rl_sets e) (rl_next e));
      link_element ht p id (tname ← arg_of argv 0; key ← arg_of argv 1; GET_RLE tname key false)
  end.

Definition insertFunc (ht : string) (argv : list string) (t : vc) : M unit :=
  _ ← advance ht t;
  tname ← arg_of argv 0;
  key ← arg_of argv 2;
  p ← GET_RLE tname key true;
  p ← not_null p;
  e ← load p;
  let pre_insert := LOOKUP (rl_sets e) in
  _ ← rl_place ht argv p;
  v1 ← long_of argv 4;
  v2 ← long_of argv 5;
  v3 ← long_of argv 6;
  bits ← long_of argv 7;
  e ← load p;
  s ← lift (ars_add (rl_sets e) (rl_aseNew t (v1, v2, v3) bits) t);
  _ ← store p (rl_set_sets e s);
  if negb pre_insert && LOOKUP s then incrLen ht 1 else skip.

Definition updateFunc (ht : string) (argv : list string) (t : vc) : M unit :=
  _ ← advance ht t;
  tname ← arg_of argv 0;
  key ← arg_of argv 1;
  p ← GET_RLE tname key true;
  p ← not_null p;
  type ← arg_of argv 2;
  value ← long_of argv 3;
  e ← load p;
  store p (rl_set_sets e (ars_upd (rl_sets e) (rl_update (sdstolower type) (i32 value) t) t)).

Definition removeFunc (ht : string) (argv : list string) (t : vc) : M unit :=
  _ ← advance ht t;
  tname ← arg_of argv 0;
  key ← arg_of argv 1;
  p ← GET_RLE tname key true;
  p ← not_null p;
  e ← load p;
  let pre_rmv := LOOKUP (rl_sets e) in
  s ← lift (ars_rem (rl_sets e) t);
  _ ← store p (rl_set_sets e s);
  if pre_rmv && negb (LOOKUP s) then incrLen ht (-1) else skip.

Definition rl_run (ht : string) (c : rl_cmd) : M unit :=
  match rl_type c with
  | RLADD => insertFunc ht (rl_argv c) (rl_t c)
  | RLUPDATE => updateFunc ht (rl_argv c) (rl_t c)
  | RLREM => removeFunc ht (rl_argv c) (rl_t c)
  end.

(** [notifyLoop]: each round runs the first operation that is ready and takes
    it out of the buffer. *)
Fixpoint rl_notify (fuel : nat) (ht : string) (ops current : nat) : M unit :=
  match fuel with
  | O => lift (Crash Diverges)
  | S fuel =>
      l ← load ops;
      c ← load current;
      r ← lift (take_ready rl_t c l);
      match r with
      | None => skip
      | Some (cmd, rest) =>
          _ ← rl_run ht cmd;
          _ ← store ops rest;
          rl_notify fuel ht ops current
      end
  end.

Definition rl_notifyLoop (ht : string) : M unit :=
  ops ← getOps ht;
  current ← getCurrent ht;
  l ← load ops;
  rl_notify (S (length (l : list rl_cmd))) ht ops current.

(** What the effects of the three commands do with the message.  [updateFunc]
    puts the type of the property in lower case in place, that is in [rargv]. *)
Definition rl_effect (type : rl_cmd_type) : M unit :=
  t ← CR_GET_LAST;
  ht ← GET_LIST_HT rargv_at true;
  ht ← not_null ht;
  q ← getCurrent ht;
  c ← load q;
  b ← lift (vc_causally_ready c t);
  if (b : bool) then
    l ← rargs;
    _ ← match type with
        | RLADD => insertFunc ht (drop 1 l) t
        | RLUPDATE => _ ← updateFunc ht (drop 1 l) t; tolower_rargv 3
        | RLREM => removeFunc ht (drop 1 l) t
        end;
    rl_notifyLoop ht
  else
    l ← rargs;
    p ← getOps ht;
    ops ← load p;
    store p (ops ++ [rl_cmdNew type l t]).

(** ** Prepare phases *)

(** [RARGV_ADD_SDS(vc_now(getCurrent(GET_LIST_HT(argv, 1))))] *)
Definition rl_add_now : M unit :=
  ht ← GET_LIST_HT argv_at true;
  ht ← not_null ht;
  q ← getCurrent ht;
  c ← load q;
  str ← lift (vc_now c);
  RARGV_ADD_SDS str.

Definition rlinsert_prepare : M unit :=
  insert_prepare (tname ← argv_at 1; key ← argv_at 2; GET_RLE tname key false)
    (tname ← argv_at 1; key ← argv_at 3; GET_RLE tname key true)
    (fun e => LOOKUP (rl_sets e)) rl_oid (fun _ => skip) (fun _ => rl_add_now).

Definition rl_need_element : M unit :=
  tname ← argv_at 1;
  key ← argv_at 2;
  p ← GET_RLE tname key false;
  match p with
  | None => _ ← addReply ele_nexist; return_
  | Some p =>
      e ← load p;
      if LOOKUP (rl_sets e) then rl_add_now else _ ← addReply ele_nexist; return_
  end.

Definition rlupdate_prepare : M unit :=
  _ ← CHECK_ARGC 5;
  _ ← CHECK_CONTAINER_TYPE OBJ_HASH;
  _ ← CHECK_ARG_TYPE_INT 4;
  rl_need_element.

Definition rlrem_prepare : M unit :=
  _ ← CHECK_ARGC 3;
  _ ← CHECK_CONTAINER_TYPE OBJ_HASH;
  rl_need_element.

Definition rlinsertCommand : M unit := crdt_command rlinsert_prepare (rl_effect RLADD).
Definition rlupdateCommand : M unit := crdt_command rlupdate_prepare (rl_effect RLUPDATE).
Definition rlremCommand : M unit := crdt_command rlrem_prepare (rl_effect RLREM).

(** ** Queries *)

Definition rllenCommand : M unit := lenQuery.

(** An element as [rllist] prints it, through [e->value]. *)
Definition rl_reply (e : rle) : res (list reply) :=
  o ← of_option NullDeref (rl_oid e);
  c ← of_option NullDeref (rl_content e);
  p ← of_option NullDeref (value (rl_sets e));
  a ← deref (aset (rl_sets e)) p;
  let f := rl_formats (ase_v a) in
  f1 ← of_option Uninitialised (f_font f);
  f2 ← of_option Uninitialised (f_size f);
  f3 ← of_option Uninitialised (f_color f);
  Ok [RArray 6; RBulk o; RBulk c; RBulkInt f1; RBulkInt f2; RBulkInt f3; RBulkInt (property f)].

Definition rl_show (e : rle) : res (list reply) := if LOOKUP (rl_sets e) then rl_reply e else Ok [].

Definition rllistCommand : M unit := listQuery rl_show.
End Commands.
