(* ===== verification/RListConv.v ===== *)
(** * The remove-win list: what replicas agree on

    The operations on one list, delivered in causal order, leave every replica
    with the same visible elements, the same insert speaking for each of them
    and the same length; the values that concurrent updates leave depend on the
    order of delivery. *)

From S2P Require Import Prelude Sds VectorClock Causal ARSet Leid Double Util Zset Store Crdt ListBasics ListLink RList.
From Stdlib Require Import Ascii.

(** ** The operations on a list, parsed *)

Inductive rl_action :=
  | RIns (c : string) (id : leid) (vals : Z * Z * Z) (bits : Z)
  | RUpd (type : string) (value : Z)
  | RRem.

#[export] Instance rl_action_eq_dec : EqDecision rl_action.
Proof. solve_decision. Defined.

Record rl_op := mkRlOp { ro_id : string; ro_act : rl_action; ro_t : vc }.

#[export] Instance rl_op_eq_dec : EqDecision rl_op.
Proof. solve_decision. Defined.

(** What an operation is to the element [o]; to the other elements it is an
    update that changes nothing. *)
Definition rl_kind (o : string) (x : rl_op) : akind :=
  if decide (ro_id x = o) then
    match ro_act x with
    | RIns _ _ vals bits => KAdd (rl_aseNew (ro_t x) vals bits)
    | RUpd type value => KUpd (rl_update (sdstolower type) (i32 value) (ro_t x))
    | RRem => KRem
    end
  else KUpd id.

(** ** The functions of t_rlist.c on the elements of a list *)

Record rls := mkRls { rs_cur : vc; rs_els : gmap string rle; rs_len : Z }.

Definition rs_elem (s : rls) (o : string) : rle := default rleNew (rs_els s !! o).

Definition rl_placed (e : rle) (o c : string) (id : leid) : rle :=
  match rl_oid e with Some _ => e | None => mkRle (Some o) (Some id) (Some c) (rl_sets e) (rl_next e) end.

(** [insertFunc], [updateFunc] and [removeFunc]. *)
Definition rl_exec (s : rls) (x : rl_op) : res rls :=
  let o := ro_id x in
  let e := rs_elem s o in
  let cur := vc_update (rs_cur s) (ro_t x) in
  match ro_act x with
  | RIns c id vals bits =>
      let e1 := rl_placed e o c id in
      sets ← ars_add (rl_sets e1) (rl_aseNew (ro_t x) vals bits) (ro_t x);
      Ok (mkRls cur (<[o := rl_set_sets e1 sets]> (rs_els s))
        (if negb (LOOKUP (rl_sets e)) && LOOKUP sets then i32 (rs_len s + 1) else rs_len s))
  | RUpd type value =>
      Ok (mkRls cur (<[o := rl_set_sets e (ars_upd (rl_sets e) (rl_update (sdstolower type) (i32 value) (ro_t x)) (ro_t x))]> (rs_els s)) (rs_len s))
  | RRem =>
      sets ← ars_rem (rl_sets e) (ro_t x);
      Ok (mkRls cur (<[o := rl_set_sets e sets]> (rs_els s))
        (if LOOKUP (rl_sets e) && negb (LOOKUP sets) then i32 (rs_len s + -1) else rs_len s))
  end.

(** [notifyLoop] and the effects. *)
Definition rl_deliver : rls * list rl_op -> rl_op -> res (rls * list rl_op) := deliver ro_t rs_cur rl_exec.

Definition rls_new (p2p_count p2p_id : Z) : res rls := c ← _vc_new p2p_count p2p_id; Ok (mkRls c ∅ 0).

(** ** Delivery in causal order *)

(** The elements that are visible. *)
Definition visible (s : rls) : gmap string rle := filter (fun kv => LOOKUP (rl_sets kv.2) = true) (rs_els s).

(** The content of an element is one that an insert of it brought. *)
Definition rl_texts (l : list rl_op) (s : rls) : Prop :=
  forall o e c, rs_els s !! o = Some e -> rl_content e = Some c ->
    exists y id vals bits, y ∈ l /\ ro_id y = o /\ ro_act y = RIns c id vals bits.

Lemma rl_exec_texts l s x s' : rl_texts l s -> rl_exec s x = Ok s' -> rl_texts (l ++ [x]) s'.
Proof.
  intros Hs Hex. assert (forall o e c, rs_els s !! o = Some e -> rl_content e = Some c ->
    exists y id vals bits, y ∈ l ++ [x] /\ ro_id y = o /\ ro_act y = RIns c id vals bits) as Hs'.
  { intros o e c He Hc. destruct (Hs o e c He Hc) as (y & id & vals & bits & Hy & ?). exists y, id, vals, bits. split; [set_solver|done]. }
  assert (forall c, rl_content (rs_elem s (ro_id x)) = Some c ->
    exists y id vals bits, y ∈ l ++ [x] /\ ro_id y = ro_id x /\ ro_act y = RIns c id vals bits) as He.
  { unfold rs_elem. destruct (rs_els s !! ro_id x) as [e|] eqn:He; [|done]. intros c. by apply (Hs' _ e). }
  assert (forall e cur len, (forall c, rl_content e = Some c ->
    exists y id vals bits, y ∈ l ++ [x] /\ ro_id y = ro_id x /\ ro_act y = RIns c id vals bits) -> rl_texts (l ++ [x]) (mkRls cur (<[ro_id x := e]> (rs_els s)) len)) as Hins.
  { intros e cur len H o e' c Ho. cbn in Ho. destruct (decide (o = ro_id x)) as [->|Hne]; [rewrite lookup_insert_eq in Ho; injection Ho as <-; apply H|].
    rewrite lookup_insert_ne in Ho by done. by apply Hs'. }
  unfold rl_exec in Hex. destruct (ro_act x) as [co id vals bits|ty v|] eqn:Hact.
  - destruct (ars_add _ _ _) as [sets|]; [|done]. injection Hex as <-. apply Hins. unfold rl_placed.
    destruct (rl_oid (rs_elem s (ro_id x))); cbn; [done|]. intros c [= <-]. exists x, id, vals, bits. split_and!; [set_solver|done|done].
  - injection Hex as <-. by apply Hins.
  - destruct (ars_rem _ _) as [sets|]; [|done]. injection Hex as <-. by apply Hins.
Qed.

Record rl_reached (n : nat) (l : list rl_op) (s : rls) : Prop := {
  rl_vec : vector (rs_cur s) = join ro_t n l;
  rl_id : 0 <= vid (rs_cur s) < Z.of_nat n;
  rl_all : forall o, ars_reached ro_t (rl_kind o) l (rl_sets (rs_elem s o));
  rl_count : rs_len s = i32 (Z.of_nat (base.size (visible s)));
  rl_dom : dom (rs_els s) = list_to_set (ro_id <$> l);
  rl_said : rl_texts l s
}.

Lemma upd_id {A} (s : ars A) t : ars_upd s id t = s.
Proof.
  destruct s as [v l r f]. unfold ars_upd. cbn. f_equal. rewrite <- (list_fmap_id l) at 2. apply list_fmap_ext.
  intros i [p a] _. cbn. by destruct (older (ase_t a) t), a.
Qed.

Lemma i32_add a b : i32 (i32 a + b) = i32 (a + b).
Proof.
  unfold i32, wrap. change (2 ^ (32 - 1)) with (2 ^ 31).
  replace ((a + 2 ^ 31) mod 2 ^ 32 - 2 ^ 31 + b + 2 ^ 31) with ((a + 2 ^ 31) mod 2 ^ 32 + b) by lia.
  rewrite Zplus_mod_idemp_l. by replace (a + 2 ^ 31 + b) with (a + b + 2 ^ 31) by lia.
Qed.

(** The number of visible elements after one of them changed. *)
Lemma visible_insert (els : gmap string rle) o e :
  let f := filter (fun kv : string * rle => LOOKUP (rl_sets kv.2) = true) in
  Z.of_nat (base.size (f (<[o := e]> els))) =
    Z.of_nat (base.size (f els)) + Z.b2z (LOOKUP (rl_sets e)) - Z.b2z (LOOKUP (rl_sets (default rleNew (els !! o)))).
Proof.
  intros f. assert (f els !! o = match els !! o with Some e0 => if LOOKUP (rl_sets e0) then Some e0 else None | None => None end) as Hl.
  { unfold f. rewrite map_lookup_filter. destruct (els !! o) as [e0|]; [|done]. cbn. by destruct (LOOKUP (rl_sets e0)). }
  assert (LOOKUP (rl_sets (default rleNew (els !! o))) = match els !! o with Some e0 => LOOKUP (rl_sets e0) | None => false end) as ->
    by (by destruct (els !! o)).
  destruct (LOOKUP (rl_sets e)) eqn:He; unfold f.
  - rewrite map_filter_insert_True by done. rewrite map_size_insert. fold f. rewrite Hl.
    destruct (els !! o) as [e0|]; [destruct (LOOKUP (rl_sets e0))|]; cbn [Z.b2z]; unfold id; lia.
  - rewrite map_filter_insert_False by (cbn; congruence). rewrite map_filter_delete, map_size_delete. fold f. rewrite Hl.
    destruct (els !! o) as [e0|]; [destruct (LOOKUP (rl_sets e0)) eqn:He0|]; cbn [Z.b2z]; unfold id; try lia.
    assert (base.size (f els) <> 0)%nat by (apply map_size_non_empty_iff; intros H0; by rewrite H0, lookup_empty in Hl). lia.
Qed.

Lemma rs_elem_insert cur els len o e o' :
  rs_elem (mkRls cur (<[o := e]> els) len) o' = if decide (o' = o) then e else rs_elem (mkRls cur els len) o'.
Proof. unfold rs_elem. cbn. case_decide; [subst; by rewrite lookup_insert_eq|by rewrite lookup_insert_ne]. Qed.

(** One operation on the element it names. *)
Lemma rl_exec_one n l s x :
  rl_reached n l s -> causal_seq ro_t n (l ++ [x]) ->
  exists e' len', rl_exec s x = Ok (mkRls (vc_update (rs_cur s) (ro_t x)) (<[ro_id x := e']> (rs_els s)) len') /\
    ars_reached ro_t (rl_kind (ro_id x)) (l ++ [x]) (rl_sets e') /\
    len' = i32 (rs_len s + Z.b2z (LOOKUP (rl_sets e')) - Z.b2z (LOOKUP (rl_sets (rs_elem s (ro_id x))))).
Proof.
  intros [Hv Hid Hall Hc Hd _] Hseq. specialize (Hall (ro_id x)).
  destruct (exec_step ro_t (rl_kind (ro_id x)) n l x Hseq _ Hall) as (s' & Hexec & Hs').
  assert (Hkind : rl_kind (ro_id x) x = match ro_act x with
    | RIns _ _ vals bits => KAdd (rl_aseNew (ro_t x) vals bits)
    | RUpd type value => KUpd (rl_update (sdstolower type) (i32 value) (ro_t x))
    | RRem => KRem
    end) by (unfold rl_kind; by rewrite decide_True).
  assert (Hlen0 : rs_len s = i32 (rs_len s)) by (rewrite Hc; symmetry; apply i32_id, i32_range).
  unfold ars_exec in Hexec. rewrite Hkind in Hexec. unfold rl_exec. destruct (ro_act x) as [c id vals bits|type value|].
  - assert (rl_sets (rl_placed (rs_elem s (ro_id x)) (ro_id x) c id) = rl_sets (rs_elem s (ro_id x))) as Hp
      by (unfold rl_placed; by destruct (rl_oid _)).
    rewrite Hp, Hexec. cbn [mbind res_bind]. eexists _, _. split; [done|]. split; [done|]. cbn [rl_sets rl_set_sets].
    pose proof (add_hidden ro_t (rl_kind (ro_id x)) n l x Hseq _ Hall _ Hs' _ Hkind) as Hh.
    destruct (LOOKUP (rl_sets (rs_elem s (ro_id x)))), (LOOKUP s'); cbn [negb andb Z.b2z]; try (specialize (Hh eq_refl); done);
      rewrite Hlen0 at 1; f_equal; lia.
  - injection Hexec as <-. eexists _, _. split; [done|]. split; [done|]. cbn [rl_sets rl_set_sets]. rewrite LOOKUP_upd, Hlen0 at 1. f_equal. lia.
  - rewrite Hexec. cbn [mbind res_bind]. eexists _, _. split; [done|]. split; [done|]. cbn [rl_sets rl_set_sets].
    pose proof (rem_hidden ro_t (rl_kind (ro_id x)) n l x Hseq _ Hs' Hkind) as Hh. rewrite Hh.
    destruct (LOOKUP (rl_sets (rs_elem s (ro_id x)))); cbn [negb andb Z.b2z]; [f_equal; lia|rewrite Hlen0 at 1; f_equal; lia].
Qed.

Lemma rl_exec_step n l s x :
  rl_reached n l s -> causal_seq ro_t n (l ++ [x]) -> exists s', rl_exec s x = Ok s' /\ rl_reached n (l ++ [x]) s'.
Proof.
  intros Hr Hseq. destruct (rl_exec_one n l s x Hr Hseq) as (e' & len' & Hex & Hs' & Hlen). destruct Hr as [Hv Hid Hall Hc Hd Hx].
  assert (wf_vc n (ro_t x)) as Hwf by apply (seq_parts ro_t n l x Hseq).
  assert (vector (vc_update (rs_cur s) (ro_t x)) = join ro_t n (l ++ [x]) /\ vid (vc_update (rs_cur s) (ro_t x)) = vid (rs_cur s)) as [Hv' Hid'].
  { rewrite vc_update_vector; simpl; [by rewrite join_snoc, Hv|]. rewrite Hv, join_length. symmetry. apply (wf_size _ _ Hwf). }
  eexists. split; [exact Hex|]. split; cbn [rs_cur rs_len rs_els].
  - done.
  - by rewrite Hid'.
  - intros o. rewrite rs_elem_insert. case_decide as Ho; [by subst|].
    destruct (exec_step ro_t (rl_kind o) n l x Hseq _ (Hall o)) as (s' & Hexec & Hs2).
    unfold ars_exec in Hexec. assert (rl_kind o x = KUpd id) as Hk by (unfold rl_kind; by rewrite decide_False by congruence).
    rewrite Hk, upd_id in Hexec. injection Hexec as <-. exact Hs2.
  - unfold visible. cbn [rs_els]. rewrite visible_insert, Hlen, Hc, <- !Z.add_sub_assoc, i32_add. done.
  - rewrite dom_insert_L, Hd, fmap_app. cbn. set_solver.
  - by eapply rl_exec_texts.
Qed.

#[export] Instance rl_causal n : CausalExec ro_t rs_cur rl_exec n (rl_reached n).
Proof.
  split.
  - by intros l s [Hv Hid _ _ _ _].
  - intros l s x. apply rl_exec_step.
Qed.

Lemma rls_new_reached (n : nat) id : 0 <= id < Z.of_nat n -> exists s, rls_new (Z.of_nat n) id = Ok s /\ rl_reached n [] s.
Proof.
  intros Hid. unfold rls_new, _vc_new. rewrite (proj2 (Z.ltb_ge _ _)) by lia. cbn [mbind res_bind]. eexists. split; [done|].
  split; cbn [rs_cur rs_els rs_len]; [by rewrite Nat2Z.id|done| |done|done|done]. intros o. apply ars_reached_new.
Qed.

Lemma rl_run_all (n : nat) id hist l :
  0 <= id < Z.of_nat n -> valid_history ro_t n hist -> l ≡ₚ hist ->
  exists s x, (s ← rls_new (Z.of_nat n) id; foldM rl_deliver (s, []) l) = Ok (s, []) /\
    causal_seq ro_t n x /\ x ≡ₚ hist /\ rl_reached n x s.
Proof.
  intros Hid Hh Hp. destruct (rls_new_reached n id Hid) as (s0 & -> & H0). cbn [mbind res_bind].
  destruct (deliver_all ro_t rs_cur rl_exec hist Hh s0 l H0 Hp) as (s & x & Hrun & Hx & Hpx & Hr). by exists s, x.
Qed.

(** The visible elements as a set. *)
Lemma visible_elem s o : o ∈ dom (visible s) <-> LOOKUP (rl_sets (rs_elem s o)) = true.
Proof.
  unfold visible, rs_elem. rewrite elem_of_dom. split.
  - intros [e [He HL]%map_lookup_filter_Some]. by rewrite He.
  - destruct (rs_els s !! o) as [e|] eqn:He; [|done]. intros HL. exists e. by apply map_lookup_filter_Some.
Qed.

Lemma same_length s1 s2 :
  (forall o, LOOKUP (rl_sets (rs_elem s1 o)) = LOOKUP (rl_sets (rs_elem s2 o))) -> base.size (visible s1) = base.size (visible s2).
Proof.
  intros H. rewrite <- !(size_dom (D := gset string)). f_equal. apply set_eq. intros o. by rewrite !visible_elem, H.
Qed.

Lemma speaker n l1 l2 o s1 s2 :
  causal_seq ro_t n l1 -> l1 ≡ₚ l2 -> ars_reached ro_t (rl_kind o) l1 s1 -> ars_reached ro_t (rl_kind o) l2 s2 -> LOOKUP s1 = true ->
  exists p1 p2 a1 a2, value s1 = Some p1 /\ deref (aset s1) p1 = Ok a1 /\ value s2 = Some p2 /\ deref (aset s2) p2 = Ok a2 /\ ase_t a1 = ase_t a2.
Proof.
  intros Hl Hp H1 H2 HL. pose proof (LOOKUP_perm ro_t (rl_kind o) l1 l2 s1 s2 Hp H1 H2) as HL2. rewrite HL in HL2.
  pose proof (reached_value ro_t (rl_kind o) l1 s1 H1) as V1. pose proof (reached_value ro_t (rl_kind o) l2 s2 H2) as V2.
  assert (Hne : forall l s, ars_reached ro_t (rl_kind o) l s -> LOOKUP s = true -> live_adds ro_t (rl_kind o) l <> []).
  { intros l s Hr Hs. rewrite (LOOKUP_spec ro_t (rl_kind o) l s Hr) in Hs. apply andb_true_iff in Hs as [Hs _]. by apply bool_decide_eq_true in Hs. }
  destruct (value s1) as [p1|]; [|by apply (Hne l1 s1) in V1]. destruct (value s2) as [p2|]; [|by apply (Hne l2 s2) in V2].
  destruct V1 as (b1 & a1 & S1 & D1 & (_ & T1 & _)), V2 as (b2 & a2 & S2 & D2 & (_ & T2 & _)).
  assert (b1 = b2) as -> by (by eapply (speaks_perm ro_t (rl_kind o) n l1 l2)).
  exists p1, p2, a1, a2. split_and!; try done. congruence.
Qed.

(** ** Properties *)

(** Convergence: two replicas to which the same history of a list was
    delivered, in any two orders, have executed all of it; they show the same
    elements and the same length, and for every element they show the same
    insert speaks. *)
Theorem rl_converges (n : nat) id1 id2 hist l1 l2 :
  0 <= id1 < Z.of_nat n -> 0 <= id2 < Z.of_nat n -> valid_history ro_t n hist -> l1 ≡ₚ hist -> l2 ≡ₚ hist ->
  exists s1 s2,
    (s ← rls_new (Z.of_nat n) id1; foldM rl_deliver (s, []) l1) = Ok (s1, []) /\
    (s ← rls_new (Z.of_nat n) id2; foldM rl_deliver (s, []) l2) = Ok (s2, []) /\
    rs_len s1 = rs_len s2 /\
    forall o, LOOKUP (rl_sets (rs_elem s1 o)) = LOOKUP (rl_sets (rs_elem s2 o)) /\
      (LOOKUP (rl_sets (rs_elem s1 o)) = true -> exists p1 p2 a1 a2,
        value (rl_sets (rs_elem s1 o)) = Some p1 /\ deref (aset (rl_sets (rs_elem s1 o))) p1 = Ok a1 /\
        value (rl_sets (rs_elem s2 o)) = Some p2 /\ deref (aset (rl_sets (rs_elem s2 o))) p2 = Ok a2 /\ ase_t a1 = ase_t a2).
Proof.
  intros Hi1 Hi2 Hh Hp1 Hp2.
  destruct (rl_run_all n id1 hist l1 Hi1 Hh Hp1) as (s1 & x1 & Hrun1 & Hx1 & Hpx1 & Hr1).
  destruct (rl_run_all n id2 hist l2 Hi2 Hh Hp2) as (s2 & x2 & Hrun2 & Hx2 & Hpx2 & Hr2).
  assert (x1 ≡ₚ x2) as Hp by (by rewrite Hpx1).
  assert (forall o, LOOKUP (rl_sets (rs_elem s1 o)) = LOOKUP (rl_sets (rs_elem s2 o))) as HL
    by (intros o; apply (LOOKUP_perm ro_t (rl_kind o) x1 x2); [done|apply Hr1|apply Hr2]).
  exists s1, s2. split_and!; [done..| |].
  - by rewrite (rl_count _ _ _ Hr1), (rl_count _ _ _ Hr2), (same_length s1 s2 HL).
  - intros o. split; [apply HL|]. eapply (speaker n x1 x2 o); [done|done|apply Hr1|apply Hr2].
Qed.

(** Two elements; a concurrent remove and insert of one of them. *)
Definition rl_sample : list rl_op :=
  [mkRlOp "x" (RIns "hello" [mkPos 7 0 1] (1, 2, 3) 0) (mkVc [1; 0] 0);
   mkRlOp "y" (RIns "world" [mkPos 9 1 1] (4, 5, 6) 1) (mkVc [1; 1] 1);
   mkRlOp "x" RRem (mkVc [1; 2] 1);
   mkRlOp "x" (RUpd "size" 8) (mkVc [2; 0] 0);
   mkRlOp "y" (RUpd "BOLD" 0) (mkVc [3; 1] 0)].

Lemma rl_sample_valid : valid_history ro_t 2 rl_sample.
Proof. apply history_ok_valid, (bool_decide_unpack _). vm_compute. exact I. Qed.

Lemma rl_converges_witness :
  exists s1 s2,
    (s ← rls_new 2 0; foldM rl_deliver (s, []) rl_sample) = Ok (s1, []) /\
    (s ← rls_new 2 1; foldM rl_deliver (s, []) (reverse rl_sample)) = Ok (s2, []) /\ rs_len s1 = rs_len s2.
Proof.
  destruct (rl_converges 2 0 1 rl_sample rl_sample (reverse rl_sample)) as (s1 & s2 & H1 & H2 & Hlen & _);
    [lia|lia|apply rl_sample_valid|done|apply reverse_Permutation|]. exists s1, s2. split; [exact H1|]. split; [exact H2|exact Hlen].
Defined.

(** The cells of a server that keeps remove-win lists. *)
Inductive rcell := CRle (e : rle) | CRclock (c : vc) | CRops (l : list rl_cmd).
#[export] Instance rle_cell : Cell rle rcell.
Proof. by refine (@Build_Cell rle rcell CRle (fun c => match c with CRle e => Some e | _ => None end) _). Defined.
#[export] Instance rclock_cell : Cell vc rcell.
Proof. by refine (@Build_Cell vc rcell CRclock (fun c => match c with CRclock e => Some e | _ => None end) _). Defined.
#[export] Instance rops_cell : Cell (list rl_cmd) rcell.
Proof. by refine (@Build_Cell (list rl_cmd) rcell CRops (fun c => match c with CRops e => Some e | _ => None end) _). Defined.

(** A message arriving over a link, and what a client then sees of the list. *)
Definition arrives (s : server rcell) (msg : M rcell unit * list string) : res (server rcell) :=
  r ← msg.1 (mkWorld s (mkClient msg.2 (Some (msg.2, Z.of_nat (length msg.2))) true false []) 0); Ok (srv r.2).
Definition sees (s : server rcell) (key : string) : res (list reply) :=
  r ← rllistCommand (mkWorld s (mkClient ["rllist"; key] None false false []) 0); Ok (out (cli r.2)).

Definition rl_server : server rcell := mkServer 3 1 [] (mkZcfg 128 64) ∅ ∅ 0 0 [].

