(* ===== verification/RListSpec.v ===== *)
(** * The remove-win list: what its commands do

    The effect phases carry out, on the list in the database, the functions of
    RListConv.v: the clock, the elements, the length and the operations that
    wait are those of [rl_deliver], and the list stays linked in the order of
    the positions. *)

From S2P Require Import Prelude Sds VectorClock Causal ARSet Leid Double Util Zset Store Crdt Container RWFCommand QueueSpec.
From S2P Require Import ListBasics ListLink ListSpec ListPrepare RwfListSpec RList RListConv.
From Stdlib Require Import Ascii.

Section Effects.
Context {E : Type} `{!Cell rle E, !Cell vc E, !Cell (list rl_cmd) E}.
Implicit Types (w : world E) (s : server E) (m : lmodel (A := rle)).

(** The names of fields that are not elements. *)
Definition rl_reserved : list string := ["head"; "current"; "length"; "ops"].

Notation lview := (lview (A := rle) rl_reserved).
Notation lstep := (lstep (A := rle) rl_reserved).

Lemma rl_res_head : "head" ∈ rl_reserved.
Proof. by left. Qed.
Lemma rl_res_current : "current" ∈ rl_reserved.
Proof. right. by left. Qed.
Lemma rl_res_length : "length" ∈ rl_reserved.
Proof. do 2 right. by left. Qed.
Lemma rl_res_ops : "ops" ∈ rl_reserved.
Proof. do 3 right. by left. Qed.

(** ** The list and what it stands for *)

(** The buffer: made at the first use, in a cell of its own. *)
Definition ops_at s m (q : nat) (ops : list rl_cmd) : Prop :=
  match m_extra m !! "ops" with
  | None => ops = []
  | Some (HPtr r) => heap s !! r = Some (inj ops) /\ r <> q /\ forall o, m_ptrs m !! o <> Some r
  | Some _ => False
  end.

(** The list under [K] is in the state [st] with the operations [ops] waiting;
    its clock is in the cell [q]. *)
Record rlview s (K : string) m (q : nat) (st : rls) (ops : list rl_cmd) : Prop := {
  rv_view : lview s K m;
  rv_els : m_els m = rs_els st;
  rv_len : m_len m = rs_len st;
  rv_clock : clock_cell_at s m q (rs_cur st);
  rv_ops : ops_at s m q ops
}.

(** What commands leave alone. *)
Record rframe w w' (K : string) : Prop := {
  rf_cli : cli w' = cli w;
  rf_cap : capacity w' = capacity w;
  rf_conf : same_conf (srv w) (srv w');
  rf_keys : forall k, k <> K -> db (srv w') !! k = db (srv w) !! k
}.

Lemma rframe_refl w K : rframe w w K.
Proof. by split. Qed.

Lemma rframe_trans w1 w2 w3 K : rframe w1 w2 K -> rframe w2 w3 K -> rframe w1 w3 K.
Proof.
  intros [?? (?&?&?&?) Hk1] [?? (?&?&?&?) Hk2]. split; [congruence..|unfold same_conf; split_and!; congruence|].
  intros k Hk. by rewrite Hk2, Hk1.
Qed.

Lemma rframe_step w w' K m m' : lstep w w' K m m' -> rframe w w' K.
Proof. intros [?????????]. by split. Qed.

Lemma rframe_dirty w w' K : rframe w w' K -> rframe w (mkWorld (add_dirty (srv w')) (cli w') (capacity w')) K.
Proof. intros [?? (?&?&?&?) ?]. split; [done|done|by split_and!|done]. Qed.

(** The same up to the words of the client, which an update rewrites. *)
Record eframe w w' (K : string) : Prop := {
  ef_link : is_replica (cli w') = is_replica (cli w);
  ef_msg : replica_message (cli w') = replica_message (cli w);
  ef_conf : same_conf (srv w) (srv w');
  ef_keys : forall k, k <> K -> db (srv w') !! k = db (srv w) !! k
}.

Lemma rframe_eframe w w' K : rframe w w' K -> eframe w w' K.
Proof. intros [Hc ? ? ?]. by split; rewrite ?Hc. Qed.

Lemma eframe_trans w1 w2 w3 K : eframe w1 w2 K -> eframe w2 w3 K -> eframe w1 w3 K.
Proof.
  intros [?? (?&?&?&?) Hk1] [?? (?&?&?&?) Hk2]. split; [congruence..|unfold same_conf; split_and!; congruence|].
  intros k Hk. by rewrite Hk2, Hk1.
Qed.

Lemma rlview_list s K m q st ops : rlview s K m q st ops -> exists h, db s !! K = Some (OHash h) /\ hview rl_reserved s h m.
Proof.
  intros [Hv _ _ (_ & _ & Hx) _]. unfold ListSpec.lview in Hv. destruct (db s !! K) as [[h|z|t b1 b2]|] eqn:Hd; try done; [by exists h|].
  pose proof (hv_extra _ _ _ _ Hv "current" rl_res_current ltac:(done) ltac:(done)) as Hc. by rewrite Hx, lookup_empty in Hc.
Qed.

Lemma rlview_is_list s K m q st ops : rlview s K m q st ops -> is_list s K.
Proof. intros (h & Hd & _)%rlview_list. by exists h. Qed.

Lemma rlview_below s K m q st ops a : rlview s K m q st ops -> is_Some (heap s !! a) -> (a < next_addr s)%nat.
Proof. intros (h & _ & H)%rlview_list. apply (hv_fresh _ _ _ _ H). Qed.

Lemma rlview_dirty s K m q st ops : rlview s K m q st ops -> rlview (add_dirty s) K m q st ops.
Proof. intros [Hv ????]. split; try done. by eapply lview_ext; [..|exact Hv]. Qed.

(** An access to the elements. *)
Lemma rlview_step w w' K m m' q st ops els len :
  rlview (srv w) K m q st ops -> lstep w w' K m m' -> m_extra m' = m_extra m ->
  (forall o p, m_ptrs m' !! o = Some p -> m_ptrs m !! o = Some p \/ (next_addr (srv w) <= p)%nat) ->
  m_els m' = els -> m_len m' = len -> rlview (srv w') K m' q (mkRls (rs_cur st) els len) ops.
Proof.
  intros Hr Hst Hx Hp He Hl. pose proof (fun a => rlview_below _ _ _ _ _ _ a Hr) as Hb. destruct Hr as [Hv _ _ (Hq & Hne & Hc) Hops].
  assert (forall a, is_Some (heap (srv w) !! a) -> (forall o, m_ptrs m !! o <> Some a) ->
    (forall o, m_ptrs m' !! o <> Some a) /\ heap (srv w') !! a = heap (srv w) !! a) as Hkeep.
  { intros a Ha Hna. assert (forall o, m_ptrs m' !! o <> Some a) as Hna'.
    { intros o Ho. destruct (Hp _ _ Ho) as [Ho'|Hlt]; [by eapply Hna|]. specialize (Hb a Ha). lia. }
    split; [done|]. apply (ls_cells _ _ _ _ _ _ Hst); [done|by apply Hb]. }
  split; [apply Hst|done|done| |]; cbn [rs_cur].
  - destruct (Hkeep q) as [Hne' Hsame]; [by eexists|done|]. unfold clock_cell_at. by rewrite Hsame, Hx.
  - unfold ops_at in *. rewrite Hx. destruct (m_extra m !! "ops") as [[r|z|t]|]; try done. destruct Hops as (Hr & Hrq & Hrne).
    destruct (Hkeep r) as [Hne' Hsame]; [by eexists|done|]. by rewrite Hsame.
Qed.

(** A cell of the list that is not an element's, written. *)
Lemma rlview_cell s K m q st ops a c :
  rlview s K m q st ops -> is_Some (heap s !! a) -> (forall o, m_ptrs m !! o <> Some a) ->
  lview (set_heap s (<[a := c]> (heap s))) K m.
Proof.
  intros Hr Ha Hne. destruct (rlview_list _ _ _ _ _ _ Hr) as (h & Hd & H). unfold ListSpec.lview. cbn [set_heap db]. rewrite Hd.
  apply hview_cell; [done|done|]. by apply (hv_fresh _ _ _ _ H).
Qed.

Lemma rlview_tick s K m q st ops c :
  rlview s K m q st ops -> rlview (set_heap s (<[q := inj c]> (heap s))) K m q (mkRls c (rs_els st) (rs_len st)) ops.
Proof.
  intros Hr. pose proof Hr as [Hv He Hl (Hq & Hne & Hc) Hops]. split; try done.
  - eapply rlview_cell; [done|by eexists|done].
  - split_and!; try done. cbn. by rewrite lookup_insert_eq.
  - unfold ops_at in *. destruct (m_extra m !! "ops") as [[r|z|t]|]; try done. destruct Hops as (Hr' & Hrq & Hrne).
    split_and!; try done. cbn. by rewrite lookup_insert_ne.
Qed.

Lemma rlview_buffer s K m q r st ops ops' :
  rlview s K m q st ops -> m_extra m !! "ops" = Some (HPtr r) -> rlview (set_heap s (<[r := inj ops']> (heap s))) K m q st ops'.
Proof.
  intros Hr Hx. pose proof Hr as [Hv He Hl (Hq & Hne & Hc) Hops]. unfold ops_at in Hops. rewrite Hx in Hops. destruct Hops as (Hr' & Hrq & Hrne).
  split; try done.
  - eapply rlview_cell; [done|by eexists|done].
  - split_and!; try done. cbn. by rewrite lookup_insert_ne.
  - unfold ops_at. rewrite Hx. split_and!; try done. cbn. by rewrite lookup_insert_eq.
Qed.

(** ** Clock and buffer *)

Lemma wp_rl_current w K m q st ops (Q : option nat -> world E -> Prop) :
  rlview (srv w) K m q st ops -> Q (Some q) w -> wp (getCurrent K) w Q.
Proof.
  intros Hr HQ. destruct (rlview_list _ _ _ _ _ _ Hr) as (h & Hd & H). destruct Hr as [_ _ _ (_ & _ & Hx) _].
  unfold getCurrent, hashTypeGetValueObject. apply wp_bind, wp_bind, wp_lookupKey. rewrite Hd. wp_steps.
  rewrite (hv_extra _ _ _ _ H "current" rl_res_current), Hx by done. cbn [as_ptr]. by wp_steps.
Qed.

Lemma wp_rl_clock w K m q st ops Q : rlview (srv w) K m q st ops -> Q (Some (rs_cur st)) w -> wp (load q) w Q.
Proof. intros [_ _ _ Hc _]. by eapply wp_load_clock. Qed.

Lemma wp_advance w K m q st ops t (Q : option unit -> world E -> Prop) :
  rlview (srv w) K m q st ops ->
  (forall w', rframe w w' K -> rlview (srv w') K m q (mkRls (vc_update (rs_cur st) t) (rs_els st) (rs_len st)) ops -> Q (Some tt) w') ->
  wp (advance K t) w Q.
Proof.
  intros Hr HQ. unfold advance. apply wp_bind. eapply wp_rl_current; [done|]. apply wp_bind. eapply wp_rl_clock; [done|].
  unfold store. wp_steps. apply wp_dirty_inc. apply HQ; [by split|]. apply rlview_dirty. cbn [srv]. by apply rlview_tick.
Qed.

(** The buffer, made when it is missing. *)
Lemma wp_getOps w K m q st ops (Q : option nat -> world E -> Prop) :
  rlview (srv w) K m q st ops ->
  (forall w' m' r, rframe w w' K -> rlview (srv w') K m' q st ops -> m_extra m' !! "ops" = Some (HPtr r) -> Q (Some r) w') ->
  wp (getOps K) w Q.
Proof.
  intros Hr HQ. destruct (rlview_list _ _ _ _ _ _ Hr) as (h & Hd & H). unfold getOps, hashTypeGetValueObject.
  apply wp_bind, wp_bind, wp_lookupKey. rewrite Hd. wp_steps. rewrite (hv_extra _ _ _ _ H "ops" rl_res_ops) by done.
  pose proof Hr as [Hv He Hl (Hq & Hne & Hc) Hops]. unfold ops_at in Hops.
  destruct (m_extra m !! "ops") as [[r|z|t]|] eqn:Hx; try done.
  - cbn [as_ptr]. wp_steps. by apply (HQ w m r); [apply rframe_refl|..].
  - subst ops. apply (wp_new_cell rl_reserved "ops" w K h m); try done; [apply rl_res_ops|]. intros r w' Hmo Hner.
    apply (HQ w' (set_extra "ops" m r) r); [split; [done|done|apply Hmo|apply Hmo]| |by cbn; rewrite lookup_insert_eq].
    assert (q < next_addr (srv w))%nat by (eapply rlview_below; [done|by eexists]).
    split; [apply Hmo|done|done| |]; cbn [w' srv].
    + split_and!; cbn; [by rewrite lookup_insert_ne by lia|done|by rewrite lookup_insert_ne].
    + unfold ops_at. cbn. rewrite !lookup_insert_eq. split_and!; [done|lia|done].
Qed.

Lemma wp_rl_ops w K m q r st ops Q :
  rlview (srv w) K m q st ops -> m_extra m !! "ops" = Some (HPtr r) -> Q (Some ops) w -> wp (load r) w Q.
Proof.
  intros [_ _ _ _ Hops] Hx HQ. unfold ops_at in Hops. rewrite Hx in Hops. destruct Hops as (Hr & _). unfold load. apply wp_bind, wp_get_srv.
  rewrite Hr, prj_inj. by eapply wp_lift.
Qed.

Lemma wp_rl_set_ops w K m q r st ops ops' (Q : option unit -> world E -> Prop) :
  rlview (srv w) K m q st ops -> m_extra m !! "ops" = Some (HPtr r) ->
  (forall w', rframe w w' K -> rlview (srv w') K m q st ops' -> Q (Some tt) w') -> wp (store r ops') w Q.
Proof.
  intros Hr Hx HQ. unfold store. wp_steps. apply HQ; [by split|]. cbn [srv]. by eapply rlview_buffer.
Qed.

(** ** Elements *)

Definition with_els (st : rls) (els : gmap string rle) : rls := mkRls (rs_cur st) els (rs_len st).

Lemma wp_rl_get w K m q st ops o (Q : option (option nat) -> world E -> Prop) :
  rlview (srv w) K m q st ops -> o ∉ rl_reserved ->
  (forall w' p, rframe w w' K ->
     rlview (srv w') K (add_el m o p (rs_elem st o)) q (with_els st (<[o := rs_elem st o]> (rs_els st))) ops -> Q (Some (Some p)) w') ->
  wp (GET_RLE K o true) w Q.
Proof.
  intros Hr Ho HQ. pose proof Hr as [Hv He Hl _ _]. unfold GET_RLE.
  apply (wp_list_get rl_reserved rl_res_head rl_res_length w K m o (rs_elem st o)); try done.
  - unfold rs_elem. rewrite <- He. destruct (m_els m !! o) as [e|] eqn:Hm; [by eapply (erased rl_reserved)|done].
  - unfold rs_elem. rewrite <- He. by destruct (m_els m !! o) as [e|].
  - intros w' p Hst _ Hp. apply HQ; [by eapply rframe_step|]. eapply (rlview_step w w' K m); try done; cbn [add_el m_els m_ptrs]; [|by rewrite He].
    intros o1 p1. destruct (decide (o1 = o)) as [->|Hne]; [rewrite lookup_insert_eq; intros [= <-]; done|rewrite lookup_insert_ne by done; by left].
Qed.

Lemma wp_rl_load w K m q st ops o p e (Q : option rle -> world E -> Prop) :
  rlview (srv w) K m q st ops -> m_ptrs m !! o = Some p -> rs_els st !! o = Some e ->
  (forall e1, elem_at (srv w) p = Ok e1 -> erase e1 = e -> Q (Some e1) w) -> wp (load p) w Q.
Proof. intros [Hv He _ _ _] Hp Ho HQ. eapply (wp_lload rl_reserved); [done..|by rewrite He|done]. Qed.

(** The sets of an element written. *)
Lemma wp_rl_store w K m q st ops o p e1 sets (Q : option unit -> world E -> Prop) :
  rlview (srv w) K m q st ops -> m_ptrs m !! o = Some p -> elem_at (srv w) p = Ok e1 ->
  (forall w', rframe w w' K -> rlview (srv w') K (set_el m o (rl_set_sets (erase e1) sets)) q
     (with_els st (<[o := rl_set_sets (erase e1) sets]> (rs_els st))) ops -> Q (Some tt) w') ->
  wp (store p (rl_set_sets e1 sets)) w Q.
Proof.
  intros Hr Hp He1 HQ. pose proof Hr as [Hv He Hl _ _]. eapply (wp_lstore rl_reserved w K m o p e1); [done..|]. intros w' Hst _.
  apply HQ; [by eapply rframe_step|]. eapply (rlview_step w w' K m); try done; cbn [set_el m_els m_ptrs]; [by left|by rewrite He].
Qed.

(** The length changed when [b], by [inc]. *)
Lemma wp_rl_len w K m q st ops (b : bool) inc (Q : option unit -> world E -> Prop) :
  rlview (srv w) K m q st ops -> inc <> 0 ->
  (forall w' m', rframe w w' K -> m_extra m' = m_extra m ->
     rlview (srv w') K m' q (mkRls (rs_cur st) (rs_els st) (if b then i32 (rs_len st + inc) else rs_len st)) ops -> Q (Some tt) w') ->
  wp (if b then incrLen K inc else skip) w Q.
Proof.
  intros Hr Hi HQ. pose proof Hr as [Hv He Hl _ _]. destruct b; [|wp_steps; apply (HQ w m); [apply rframe_refl|done|by destruct st]].
  eapply (wp_incrLen rl_reserved rl_res_length w K m); [done|by eapply rlview_is_list|done|]. intros w' Hst _.
  apply (HQ w' (set_len m (i32 (m_len m + inc)))); [by eapply rframe_step|done|].
  eapply (rlview_step w w' K m); try done; cbn [set_len m_els m_ptrs m_len]; [by left|by rewrite Hl].
Qed.

(** ** Messages *)

(** The words of an operation, without the name of the command and the clock;
    [po] is the predecessor an insert names. *)
Definition rl_words (type : rl_cmd_type) (argv : list string) (K po : string) (x : rl_op) : Prop :=
  argv !! 0%nat = Some K /\
  match ro_act x with
  | RIns c id vals bits => type = RLADD /\ insert_msg ("rlinsert" :: argv) po (ro_id x) c id vals bits
  | RUpd ty v => type = RLUPDATE /\ argv !! 1%nat = Some (ro_id x) /\ argv !! 2%nat = Some ty /\
      exists a, argv !! 3%nat = Some a /\ getLongLongFromObject a = Some v
  | RRem => type = RLREM /\ argv !! 1%nat = Some (ro_id x)
  end.

Lemma wp_arg_of w (l : list string) i a Q : l !! i = Some a -> Q (Some a) w -> wp (arg_of l i) w Q.
Proof. intros H HQ. unfold arg_of. rewrite H. by eapply wp_lift. Qed.

Lemma wp_long_of w (l : list string) i a v Q :
  l !! i = Some a -> getLongLongFromObject a = Some v -> Q (Some v) w -> wp (long_of l i) w Q.
Proof. intros H Hv HQ. unfold long_of. apply wp_bind. eapply wp_arg_of; [done|]. rewrite Hv. by eapply wp_lift. Qed.

(** ** Positions

    [P] gives the elements their positions: every insert of an element brings
    the same one, after that of the predecessor it names. *)
Context (P : string -> option leid) (P_inj : forall o o' i, P o = Some i -> P o' = Some i -> o = o').

Definition op_placed (po : string) (x : rl_op) : Prop :=
  ro_id x ∉ rl_reserved /\
  match ro_act x with
  | RIns _ id _ _ => P (ro_id x) = Some id /\ wf_leid id /\ po <> ro_id x /\ po ∉ rl_reserved /\ forall i, P po = Some i -> leid_lt i id
  | _ => True
  end.

Definition el_placed (o : string) (e : rle) : Prop :=
  match rl_oid e with
  | None => rl_pos e = None /\ aset (rl_sets e) = []
  | Some o' => o' = o /\ rl_pos e = P o /\ is_Some (P o) /\ is_Some (rl_content e)
  end.

Definition st_placed (st : rls) : Prop := forall o e, rs_els st !! o = Some e -> el_placed o e.

Lemma placed_elem st o : st_placed st -> el_placed o (rs_elem st o).
Proof. intros H. unfold rs_elem. destruct (rs_els st !! o) as [e|] eqn:He; [by apply H|done]. Qed.

Lemma placed_exec st x st' po : st_placed st -> op_placed po x -> rl_exec st x = Ok st' -> st_placed st'.
Proof.
  intros Hs [_ Hx] Hex. unfold rl_exec in Hex. pose proof (placed_elem st (ro_id x) Hs) as He.
  assert (forall e cur len, el_placed (ro_id x) e -> st_placed (mkRls cur (<[ro_id x := e]> (rs_els st)) len)) as Hins.
  { intros e cur len Hel o e' Ho. cbn in Ho. destruct (decide (o = ro_id x)) as [->|Hne]; [rewrite lookup_insert_eq in Ho; by injection Ho as <-|].
    rewrite lookup_insert_ne in Ho by done. by apply Hs. }
  destruct (ro_act x) as [c id vals bits|type v|].
  - destruct (ars_add _ _ _) as [sets|]; [|done]. injection Hex as <-. apply Hins. unfold rl_placed, el_placed in *.
    destruct Hx as (HP & _). destruct (rl_oid (rs_elem st (ro_id x))) eqn:Hoid; cbn; [by rewrite Hoid|]. rewrite HP. split_and!; try done; by eexists.
  - injection Hex as <-. apply Hins. unfold el_placed in *. cbn. destruct (rl_oid (rs_elem st (ro_id x))); [done|]. by destruct He as [-> ->].
  - destruct (ars_rem _ _) as [sets|] eqn:Hrem; [|done]. injection Hex as <-. apply Hins. unfold el_placed in *. cbn.
    destruct (rl_oid (rs_elem st (ro_id x))); [done|]. destruct He as [-> Ha]. split; [done|]. unfold ars_rem in Hrem. rewrite Ha in Hrem. cbn in Hrem.
    destruct (match value _ with Some _ => _ | None => _ end); [|done]. by injection Hrem as <-.
Qed.

(** ** The three functions *)

Lemma fresh_position s K m q st ops o id :
  rlview s K m q st ops -> st_placed st -> P o = Some id -> rl_pos (rs_elem st o) = None -> id ∉ (m_order m).*2.
Proof.
  intros Hr Hs HP Hn ([p i] & Hi & Hin)%list_elem_of_fmap. cbn in Hi. subst i. destruct (rlview_list _ _ _ _ _ _ Hr) as (h & _ & H).
  apply (hv_order _ _ _ _ H) in Hin as (o' & e & _ & He & Hpos). rewrite (rv_els _ _ _ _ _ _ Hr) in He.
  change (rl_pos e = Some id) in Hpos. pose proof (Hs _ _ He) as Hel. unfold el_placed in Hel.
  destruct (rl_oid e); [|destruct Hel; congruence]. destruct Hel as (_ & Hp & _). assert (o' = o) as -> by (eapply P_inj; [|exact HP]; congruence).
  unfold rs_elem in Hn. rewrite He in Hn. cbn in Hn. congruence.
Qed.

Lemma placed_after m st po o id : m_els m = rs_els st -> st_placed st -> po <> o -> (forall i, P po = Some i -> leid_lt i id) -> after_pre m po o id.
Proof.
  intros He Hs Hne Hlt. split; [done|]. intros e i Hpo Hi. rewrite He in Hpo. change (rl_pos e = Some i) in Hi.
  pose proof (Hs _ _ Hpo) as Hel. unfold el_placed in Hel. destruct (rl_oid e); [|destruct Hel; congruence]. destruct Hel as (_ & Hp & _).
  apply Hlt. congruence.
Qed.

Lemma wp_rl_place w K m q st ops po x c id vals bits argv p e (Q : option unit -> world E -> Prop) :
  rlview (srv w) K m q st ops -> st_placed st -> op_placed po x -> ro_act x = RIns c id vals bits ->
  argv !! 0%nat = Some K -> insert_msg ("rlinsert" :: argv) po (ro_id x) c id vals bits ->
  m_ptrs m !! ro_id x = Some p -> rs_els st !! ro_id x = Some e ->
  (forall w' m', rframe w w' K -> m_ptrs m' = m_ptrs m -> m_extra m' = m_extra m ->
     rlview (srv w') K m' q (with_els st (<[ro_id x := rl_placed e (ro_id x) c id]> (rs_els st))) ops -> Q (Some tt) w') ->
  wp (rl_place K argv p) w Q.
Proof.
  intros Hr Hs [_ Hop] Hact H0 [H1 H2 H3 _ _ _ _ (a8 & H8 & Hid)] Hp He HQ. rewrite Hact in Hop. destruct Hop as (HP & Hwf & Hne & Hpo & Hlt).
  unfold rl_place. apply wp_bind. eapply wp_rl_load; [done..|]. intros e1 He1 Hee. change (rl_oid e1) with (rl_oid (erase e1)). rewrite Hee.
  unfold rl_placed in HQ. destruct (rl_oid e) as [o'|] eqn:Hoid.
  { wp_steps. apply (HQ w m); [apply rframe_refl|done|done|]. rewrite insert_id by done. by destruct st. }
  assert (rl_pos e = None) as Hpos by (pose proof (Hs _ _ He) as Hel; unfold el_placed in Hel; rewrite Hoid in Hel; apply Hel).
  do 3 (apply wp_bind; eapply wp_arg_of; [done|]). apply wp_bind. eapply wp_lift; [exact Hid|].
  set (e' := mkRle _ _ _ _ _). destruct (rlview_list _ _ _ _ _ _ Hr) as (h & Hd & H).
  eapply wp_mono; [eapply (wp_list_link rl_reserved rl_res_head rl_res_length w K m (ro_id x) po p e1 e' id)|]; try done.
  - apply Hr.
  - by exists h.
  - change (rl_pos (erase e1) = None). by rewrite Hee.
  - eapply fresh_position; [done..|]. unfold rs_elem. by rewrite He.
  - eapply placed_after; [apply Hr|done..].
  - intros w1 Q' Hdb Hc HQ'. apply wp_bind. eapply wp_arg_of; [done|]. apply wp_bind. eapply wp_arg_of; [done|].
    unfold GET_RLE. eapply wp_find_field; [by rewrite Hdb| |exact HQ']. by apply (hv_field _ _ _ _ H).
  - intros r w' [-> Hst]. eapply (HQ w'); [by eapply rframe_step| | |]; cycle 2.
    { eapply (rlview_step w w' K m); try done; cbn [place_el m_els m_ptrs m_len]; [by left| |apply Hr].
      by rewrite (rv_els _ _ _ _ _ _ Hr), <- Hee. }
    all: done.
Qed.

(** One operation: the list goes from [st] to what [rl_exec] makes of it. *)
Definition runs (f : M E unit) w K m q st' (ops : list rl_cmd) : Prop :=
  wp f w (fun r w' => r = Some tt /\ rframe w w' K /\ exists m', m_extra m' = m_extra m /\ rlview (srv w') K m' q st' ops).

Lemma wp_insertFunc w K m q st ops po x argv c id vals bits st' :
  rlview (srv w) K m q st ops -> st_placed st -> op_placed po x -> ro_act x = RIns c id vals bits ->
  argv !! 0%nat = Some K -> insert_msg ("rlinsert" :: argv) po (ro_id x) c id vals bits -> rl_exec st x = Ok st' ->
  runs (insertFunc K argv (ro_t x)) w K m q st' ops.
Proof.
  intros Hr Hs Hop Hact H0 Him Hex. unfold rl_exec in Hex. rewrite Hact in Hex. unfold runs, insertFunc.
  apply wp_bind. eapply wp_advance; [done|]. intros w1 Hf1 Hr1. set (st1 := mkRls _ _ _) in Hr1.
  apply wp_bind. eapply wp_arg_of; [done|]. apply wp_bind. eapply wp_arg_of; [apply Him|]. apply wp_bind.
  eapply wp_rl_get; [exact Hr1|apply Hop|]. intros w2 p Hf2 Hr2. unfold not_null. apply wp_bind. eapply wp_lift; [reflexivity|].
  assert (rs_elem st1 (ro_id x) = rs_elem st (ro_id x)) as Hel by done. rewrite Hel in Hr2. set (e := rs_elem st (ro_id x)) in *.
  apply wp_bind. eapply wp_rl_load; [exact Hr2|cbn; by rewrite lookup_insert_eq|cbn; by rewrite lookup_insert_eq|]. intros e1 He1 Hee.
  assert (LOOKUP (rl_sets e1) = LOOKUP (rl_sets e)) as HL by (by rewrite <- Hee). rewrite HL. clear e1 He1 Hee HL.
  apply wp_bind. eapply wp_rl_place; [exact Hr2| |exact Hop|exact Hact|done|done|cbn; by rewrite lookup_insert_eq|cbn; by rewrite lookup_insert_eq|].
  { intros o e0 Ho. cbn in Ho. destruct (decide (o = ro_id x)) as [->|Hne].
    - rewrite lookup_insert_eq in Ho. injection Ho as <-. by apply placed_elem.
    - rewrite lookup_insert_ne in Ho by done. by apply Hs. }
  intros w3 m3 Hf3 Hp3 Hx3 Hr3. destruct Him as [_ _ _ (a4 & H4 & V4) (a5 & H5 & V5) (a6 & H6 & V6) (a7 & H7 & V7) _].
  do 4 (apply wp_bind; eapply wp_long_of; [eassumption|eassumption|]). apply wp_bind.
  assert (m_ptrs m3 !! ro_id x = Some p) as Hp3' by (rewrite Hp3; cbn; by rewrite lookup_insert_eq).
  eapply wp_rl_load; [exact Hr3|done|cbn; by rewrite lookup_insert_eq|]. intros e3 He3 Hee3.
  change (rl_sets e3) with (rl_sets (erase e3)). rewrite Hee3. replace (vals.1.1, vals.1.2, vals.2) with vals by (by destruct vals as [[]]).
  destruct (ars_add _ _ _) as [sets|] eqn:Hadd; [|done]. cbn [mbind res_bind] in Hex. injection Hex as <-.
  apply wp_bind. eapply wp_lift; [reflexivity|]. apply wp_bind. eapply wp_rl_store; [exact Hr3|done|done|]. intros w4 Hf4 Hr4.
  eapply wp_rl_len; [exact Hr4|done|]. intros w5 m5 Hf5 Hx5 Hr5. split; [done|].
  split; [by repeat (eapply rframe_trans; [done|])|]. exists m5. split; [by rewrite Hx5; cbn; rewrite Hx3|]. rewrite Hee3 in Hr5. cbn in Hr5. by rewrite !insert_insert_eq in Hr5.
Qed.

Lemma wp_updateFunc w K m q st ops po x argv ty v a st' :
  rlview (srv w) K m q st ops -> op_placed po x -> ro_act x = RUpd ty v ->
  argv !! 0%nat = Some K -> argv !! 1%nat = Some (ro_id x) -> argv !! 2%nat = Some ty -> argv !! 3%nat = Some a ->
  getLongLongFromObject a = Some v -> rl_exec st x = Ok st' ->
  runs (updateFunc K argv (ro_t x)) w K m q st' ops.
Proof.
  intros Hr Hop Hact H0 H1 H2 H3 Hv Hex. unfold rl_exec in Hex. rewrite Hact in Hex. injection Hex as <-. unfold runs, updateFunc.
  apply wp_bind. eapply wp_advance; [done|]. intros w1 Hf1 Hr1. do 2 (apply wp_bind; eapply wp_arg_of; [done|]). apply wp_bind.
  eapply wp_rl_get; [exact Hr1|apply Hop|]. intros w2 p Hf2 Hr2. unfold not_null. apply wp_bind. eapply wp_lift; [reflexivity|].
  apply wp_bind. eapply wp_arg_of; [done|]. apply wp_bind. eapply wp_long_of; [done..|]. apply wp_bind.
  eapply wp_rl_load; [exact Hr2|cbn; by rewrite lookup_insert_eq|cbn; by rewrite lookup_insert_eq|]. intros e1 He1 Hee.
  change (rl_sets e1) with (rl_sets (erase e1)). rewrite Hee.
  eapply wp_rl_store; [exact Hr2|cbn; by rewrite lookup_insert_eq|done|]. intros w3 Hf3 Hr3. split; [done|].
  split; [by repeat (eapply rframe_trans; [done|])|]. eexists. rewrite Hee in Hr3. cbn in Hr3. rewrite insert_insert_eq in Hr3. split; [|exact Hr3]. done.
Qed.

Lemma wp_rl_removeFunc w K m q st ops po x argv st' :
  rlview (srv w) K m q st ops -> op_placed po x -> ro_act x = RRem ->
  argv !! 0%nat = Some K -> argv !! 1%nat = Some (ro_id x) -> rl_exec st x = Ok st' ->
  runs (removeFunc K argv (ro_t x)) w K m q st' ops.
Proof.
  intros Hr Hop Hact H0 H1 Hex. unfold rl_exec in Hex. rewrite Hact in Hex. unfold runs, removeFunc.
  apply wp_bind. eapply wp_advance; [done|]. intros w1 Hf1 Hr1. do 2 (apply wp_bind; eapply wp_arg_of; [done|]). apply wp_bind.
  eapply wp_rl_get; [exact Hr1|apply Hop|]. intros w2 p Hf2 Hr2. unfold not_null. apply wp_bind. eapply wp_lift; [reflexivity|].
  apply wp_bind. eapply wp_rl_load; [exact Hr2|cbn; by rewrite lookup_insert_eq|cbn; by rewrite lookup_insert_eq|]. intros e1 He1 Hee.
  change (rl_sets e1) with (rl_sets (erase e1)). rewrite Hee. change (rs_elem (mkRls _ _ _)) with (rs_elem st).
  destruct (ars_rem _ _) as [sets|] eqn:Hrem; [|done]. cbn [mbind res_bind] in Hex. injection Hex as <-.
  apply wp_bind. eapply wp_lift; [reflexivity|]. apply wp_bind.
  eapply wp_rl_store; [exact Hr2|cbn; by rewrite lookup_insert_eq|done|]. intros w3 Hf3 Hr3.
  eapply wp_rl_len; [exact Hr3|done|]. intros w4 m4 Hf4 Hx4 Hr4. split; [done|].
  split; [by repeat (eapply rframe_trans; [done|])|]. exists m4. split; [by rewrite Hx4|]. rewrite Hee in Hr4. cbn in Hr4. by rewrite insert_insert_eq in Hr4.
Qed.

(** ** The buffer *)

Definition carried (K : string) (c : rl_cmd) (x : rl_op) : Prop :=
  rl_t c = ro_t x /\ exists po, rl_words (rl_type c) (rl_argv c) K po x /\ op_placed po x.

Lemma wp_rl_run w K m q st ops c x st' :
  rlview (srv w) K m q st ops -> st_placed st -> carried K c x -> rl_exec st x = Ok st' ->
  runs (rl_run K c) w K m q st' ops.
Proof.
  intros Hr Hs (Ht & po & [H0 Hw] & Hop) Hex. unfold rl_run. rewrite Ht. destruct (ro_act x) as [co id vals bits|ty v|] eqn:Hact.
  - destruct Hw as [-> Him]. by eapply wp_insertFunc.
  - destruct Hw as (-> & H1 & H2 & a & H3 & Hv). by eapply wp_updateFunc.
  - destruct Hw as [-> H1]. by eapply wp_rl_removeFunc.
Qed.

Lemma take_ready_carried K c cs xs r :
  Forall2 (carried K) cs xs -> take_ready ro_t c xs = Ok r ->
  exists r', take_ready rl_t c cs = Ok r' /\
    match r, r' with
    | None, None => True
    | Some (x, xs'), Some (cmd, cs') => carried K cmd x /\ Forall2 (carried K) cs' xs'
    | _, _ => False
    end.
Proof.
  intros HF. revert r. induction HF as [|cmd x cs xs Hc HF IH]; intros r Hr; cbn [take_ready] in *; [injection Hr as <-; by exists None|].
  destruct Hc as [Ht Hc]. rewrite Ht. destruct (vc_causally_ready c (ro_t x)) as [[]|]; cbn [mbind res_bind] in *; [| |done].
  - injection Hr as <-. by exists (Some (cmd, cs)).
  - destruct (take_ready ro_t c xs) as [r0|]; [|done]. cbn [mbind res_bind] in Hr. destruct (IH _ eq_refl) as (r' & -> & Hm).
    injection Hr as <-. cbn [mbind res_bind]. destruct r0 as [[x0 xs']|], r' as [[c0 cs']|]; try done; [|by exists None].
    destruct Hm as [H1 H2]. eexists. split; [done|]. cbn. split; [done|]. by constructor.
Qed.

(** The list after the operations that became ready. *)
Definition settles (f : M E unit) w K q st' xs' : Prop :=
  wp f w (fun r w' => r = Some tt /\ rframe w w' K /\
    exists m' cs', rlview (srv w') K m' q st' cs' /\ Forall2 (carried K) cs' xs' /\ st_placed st').

Lemma wp_rl_notify fuel : forall w K m q r st cs xs st' xs',
  rlview (srv w) K m q st cs -> m_extra m !! "ops" = Some (HPtr r) -> Forall2 (carried K) cs xs -> st_placed st ->
  notify_rounds ro_t rs_cur rl_exec fuel st xs = Ok (st', xs') -> settles (rl_notify fuel K r q) w K q st' xs'.
Proof.
  induction fuel as [|fuel IH]; intros w K m q r st cs xs st' xs' Hr Hx HF Hs Hn; [done|]. cbn [notify_rounds rl_notify] in *. unfold settles.
  apply wp_bind. eapply wp_rl_ops; [done..|]. apply wp_bind. eapply wp_rl_clock; [done|]. apply wp_bind.
  destruct (take_ready ro_t (rs_cur st) xs) as [t|] eqn:Ht; [|done]. cbn [mbind res_bind] in Hn.
  destruct (take_ready_carried _ _ _ _ _ HF Ht) as (t' & Ht' & Hm). eapply wp_lift; [exact Ht'|].
  destruct t as [[x rest]|], t' as [[cmd crest]|]; try done; cycle 1.
  { injection Hn as <- <-. wp_steps. split; [done|]. split; [apply rframe_refl|]. by exists m, cs. }
  destruct Hm as [Hc HF']. destruct (rl_exec st x) as [st1|] eqn:Hex; [|done]. cbn [mbind res_bind] in Hn.
  apply wp_bind. eapply wp_mono; [by eapply wp_rl_run|]. intros ? w1 (-> & Hf1 & m1 & Hx1 & Hr1).
  apply wp_bind. eapply wp_rl_set_ops; [exact Hr1|by rewrite Hx1|]. intros w2 Hf2 Hr2.
  assert (st_placed st1) as Hs1 by (destruct Hc as (_ & po & _ & Hop); by eapply placed_exec).
  eapply wp_mono; [eapply (IH w2 K m1 q r st1 crest rest); [done|by rewrite Hx1|done..]|].
  intros ? w3 (-> & Hf3 & H3). split; [done|]. split; [|done]. by repeat (eapply rframe_trans; [done|]).
Qed.

Lemma wp_rl_notifyLoop w K m q st cs xs st' xs' :
  rlview (srv w) K m q st cs -> Forall2 (carried K) cs xs -> st_placed st ->
  notify_loop ro_t rs_cur rl_exec st xs = Ok (st', xs') -> settles (rl_notifyLoop K) w K q st' xs'.
Proof.
  intros Hr HF Hs Hn. unfold settles, rl_notifyLoop. apply wp_bind. eapply wp_getOps; [done|]. intros w1 m1 r Hf1 Hr1 Hx1.
  apply wp_bind. eapply wp_rl_current; [done|]. apply wp_bind. eapply wp_rl_ops; [done..|].
  unfold notify_loop in Hn. rewrite <- (Forall2_length _ _ _ HF) in Hn.
  eapply wp_mono; [by eapply wp_rl_notify|]. intros ? w2 (-> & Hf2 & H2). split; [done|]. split; [|done]. by eapply rframe_trans.
Qed.

(** ** The effect phase *)

(** A list before its clock was asked for the first time. *)
Definition rlstart s (K : string) m (st : rls) (cs : list rl_cmd) : Prop :=
  (exists q, rlview s K m q st cs) \/
  (lview s K m /\ m_els m = rs_els st /\ m_len m = rs_len st /\ m_extra m = ∅ /\ cs = [] /\
   _vc_new (p2p_count s) (p2p_id s) = Ok (rs_cur st)).

(** A message: its words, the operation and the operation's clock in the last word. *)
Definition rl_message (type : rl_cmd_type) (l : list string) (K : string) (x : rl_op) : Prop :=
  (2 <= length l)%nat /\ (exists str, last l = Some str /\ sdsToVC str = Ok (ro_t x)) /\
  exists po, rl_words type (take (length l - 2) (drop 1 l)) K po x /\ op_placed po x.

Lemma take_lookup (l : list string) n i a : take n l !! i = Some a -> l !! i = Some a.
Proof. intros H. by apply lookup_take_Some in H as [? _]. Qed.

Lemma words_whole type (l : list string) n K po x : rl_words type (take n l) K po x -> rl_words type l K po x.
Proof.
  intros [H0 H]. split; [by eapply take_lookup|]. destruct (ro_act x) as [c id vals bits|ty v|].
  - destruct H as [-> [H1 H2 H3 (a4 & H4 & V4) (a5 & H5 & V5) (a6 & H6 & V6) (a7 & H7 & V7) (a8 & H8 & V8)]]. split; [done|].
    split; cbn in *; eauto using take_lookup.
  - destruct H as (-> & H1 & H2 & a & H3 & Hv). split_and!; eauto using take_lookup.
  - destruct H as [-> H1]. eauto using take_lookup.
Qed.

Lemma wp_start_ht w K m st cs (Q : option (option string) -> world E -> Prop) :
  rlstart (srv w) K m st cs ->
  (forall w', rframe w w' K -> rlstart (srv w') K m st cs -> is_list (srv w') K -> Q (Some (Some K)) w') -> wp (getInnerHT K "" true) w Q.
Proof.
  intros Hr HQ. assert (lview (srv w) K m) as Hv by (destruct Hr as [[q Hr]|[Hr _]]; [apply Hr|done]).
  apply (wp_list_ht rl_reserved w K m); [done|]. intros w' Hst Hl _. apply HQ; [by eapply rframe_step| |done].
  destruct Hr as [[q Hr]|(_ & He & Hlen & Hx & Hcs & Hvc)]; [left; exists q|right].
  - pose proof (rlview_step w w' K m m q st cs (rs_els st) (rs_len st) Hr Hst eq_refl ltac:(by left) (rv_els _ _ _ _ _ _ Hr) (rv_len _ _ _ _ _ _ Hr)).
    by destruct st.
  - destruct (ls_conf _ _ _ _ _ _ Hst) as (-> & -> & _). split; [apply Hst|done].
Qed.

Lemma wp_start_current w K m st cs (Q : option nat -> world E -> Prop) :
  rlstart (srv w) K m st cs -> is_list (srv w) K ->
  (forall w' m' q, rframe w w' K -> rlview (srv w') K m' q st cs -> Q (Some q) w') -> wp (getCurrent K) w Q.
Proof.
  intros [[q Hr]|(Hv & He & Hlen & Hx & -> & Hvc)] Hl HQ; [eapply wp_rl_current; [done|]; by eapply HQ; [apply rframe_refl|]|].
  apply (wp_getCurrent rl_reserved rl_res_current w K m (rs_cur st)); [done|done|unfold clock_at; by rewrite Hx, lookup_empty|].
  intros w' q Hmo Hc _ Hcli Hcap. eapply (HQ w'); [split; [done|done|apply Hmo|apply Hmo]|]. split; [apply Hmo|done|done|exact Hc|].
  unfold ops_at. cbn. rewrite lookup_insert_ne by done. by rewrite Hx, lookup_empty.
Qed.

Lemma message_key type l K x : rl_message type l K x -> l !! 1%nat = Some K.
Proof. intros (_ & _ & po & [H0 _] & _). apply take_lookup in H0. by rewrite lookup_drop in H0. Qed.

Lemma message_cmd type l K x : rl_message type l K x -> carried K (rl_cmdNew type l (ro_t x)) x.
Proof. intros (_ & _ & po & Hw & Hop). split; [done|]. by exists po. Qed.

(** The operation run at once, with the whole message as its arguments. *)
Definition rl_now (type : rl_cmd_type) (K : string) (l : list string) (t : vc) : M E unit :=
  match type with
  | RLADD => insertFunc K (drop 1 l) t
  | RLUPDATE => _ ← updateFunc K (drop 1 l) t; tolower_rargv 3
  | RLREM => removeFunc K (drop 1 l) t
  end.

Lemma wp_rl_now w l n K m q st ops type x st' :
  rargv (cli w) = Some (l, n) -> rl_message type l K x -> rlview (srv w) K m q st ops -> st_placed st -> rl_exec st x = Ok st' ->
  wp (rl_now type K l (ro_t x)) w (fun r w' => r = Some tt /\ eframe w w' K /\ exists m', rlview (srv w') K m' q st' ops).
Proof.
  intros Hl (_ & _ & po & Hw & Hop) Hr Hs Hex. apply words_whole in Hw.
  assert (carried K (mkRlCmd type (drop 1 l) (ro_t x)) x) as Hc by (split; [done|by exists po]).
  pose proof (wp_rl_run w K m q st ops _ x st' Hr Hs Hc Hex) as Hrun. unfold rl_run, runs in Hrun. cbn [rl_type rl_argv rl_t] in Hrun.
  unfold rl_now. destruct type; [| apply wp_bind |]; (eapply wp_mono; [exact Hrun|]); intros r w' (-> & Hf & m' & _ & Hr').
  1, 3: split_and!; [done|by apply rframe_eframe|by exists m'].
  destruct Hf as [Hcli _ Hconf Hk]. unfold tolower_rargv. wp_steps. rewrite Hcli, Hl. wp_steps. split_and!; [done| |by exists m'].
  by split.
Qed.

Lemma wp_rl_effect w l n K m st cs xs type x st' xs' :
  rargv (cli w) = Some (l, n) -> rl_message type l K x -> rlstart (srv w) K m st cs -> Forall2 (carried K) cs xs -> st_placed st ->
  rl_deliver (st, xs) x = Ok (st', xs') ->
  wp (rl_effect type) w (fun r w' => r = Some tt /\ eframe w w' K /\
    exists m' q cs', rlview (srv w') K m' q st' cs' /\ Forall2 (carried K) cs' xs' /\ st_placed st').
Proof.
  intros Hl Hm Hr HF Hs Hd. unfold rl_deliver, deliver in Hd. unfold rl_effect. pose proof Hm as (_ & (str & Hlast & Ht) & _).
  apply wp_bind. eapply wp_cr_last; [done..|]. apply wp_bind. unfold GET_LIST_HT. apply wp_bind.
  eapply wp_rargv_at; [done|by eapply message_key|]. eapply wp_start_ht; [done|]. intros w1 Hf1 Hr1 Hl1. unfold not_null.
  apply wp_bind. eapply wp_lift; [reflexivity|]. apply wp_bind. eapply wp_start_current; [done..|]. intros w2 m2 q Hf2 Hr2.
  pose proof (rframe_trans _ _ _ _ Hf1 Hf2) as Hf. clear w1 Hf1 Hr1 Hl1 Hf2. assert (rargv (cli w2) = Some (l, n)) as Hl2 by (by rewrite (rf_cli _ _ _ Hf)).
  apply wp_bind. eapply wp_rl_clock; [done|]. destruct (vc_causally_ready (rs_cur st) (ro_t x)) as [[]|]; [| |done]; cbn [mbind res_bind] in Hd;
    (apply wp_bind; eapply wp_lift; [reflexivity|]; apply wp_bind; eapply wp_rargs; [done|]).
  - destruct (rl_exec st x) as [st1|] eqn:Hex; [|done]. cbn [mbind res_bind] in Hd. apply wp_bind.
    eapply wp_mono; [by eapply (wp_rl_now w2 l n K)|]. intros r w3 (-> & Hf3 & m3 & Hr3).
    assert (st_placed st1) as Hs1 by (destruct Hm as (_ & _ & po & _ & Hop); by eapply placed_exec).
    eapply wp_mono; [by eapply wp_rl_notifyLoop|]. intros r w4 (-> & Hf4 & m4 & cs4 & Hr4 & HF4 & Hs4).
    split; [done|]. split; [|by exists m4, q, cs4].
    eapply eframe_trans; [by apply rframe_eframe|]. eapply eframe_trans; [done|]. by apply rframe_eframe.
  - injection Hd as <- <-. apply wp_bind. eapply wp_getOps; [done|]. intros w3 m3 r Hf3 Hr3 Hx3. apply wp_bind. eapply wp_rl_ops; [done..|].
    eapply wp_rl_set_ops; [done..|]. intros w4 Hf4 Hr4. pose proof (rframe_trans _ _ _ _ Hf (rframe_trans _ _ _ _ Hf3 Hf4)) as Hf'.
    split_and!; [done|by apply rframe_eframe|]. exists m3, q, (cs ++ [rl_cmdNew type l (ro_t x)]). split_and!; [done| |done].
    apply Forall2_app; [done|]. constructor; [by apply message_cmd|done].
Qed.
End Effects.
