(* ===== verification/RListSystem.v ===== *)
(** * Servers with a remove-win list

    Messages on a list arriving at servers, in any order: a server does what the
    functions of RListConv.v say, also with the operations that have to wait,
    and servers that received the same messages list the same elements in the
    same order. *)

From S2P Require Import Prelude Sds VectorClock Causal ARSet Leid Double Util Zset Store Crdt Container RWFCommand QueueSpec P2P System.
From S2P Require Import ListBasics ListLink ListSpec ListPrepare RwfListSpec RwfListLocal RList RListConv RListSpec.
From Stdlib Require Import Ascii.

Section Servers.
Context {E : Type} `{!Cell rle E, !Cell vc E, !Cell (list rl_cmd) E}.
Context (P : string -> option leid) (P_inj : forall o o' i, P o = Some i -> P o' = Some i -> o = o').
Implicit Types s : server E.

(** The entries of the command table. *)
Definition rl_table (args : list string) : option (M E unit) :=
  nm ← head args;
  if strcaseeq nm "rlinsert" then Some rlinsertCommand
  else if strcaseeq nm "rlupdate" then Some rlupdateCommand
  else if strcaseeq nm "rlrem" then Some rlremCommand
  else None.

Definition rl_name (type : rl_cmd_type) : string :=
  match type with RLADD => "rlinsert" | RLUPDATE => "rlupdate" | RLREM => "rlrem" end.

(** The words [l] are a message on the list [K] that carries the operation [x]. *)
Definition rl_msg (K : string) (l : list string) (x : rl_op) : Prop :=
  exists type, head l = Some (rl_name type) /\ rl_message P type l K x.

(** The list [K] of a server: [st], with the operations [xs] waiting. *)
Definition rl_state s (K : string) (st : rls) (xs : list rl_op) : Prop :=
  exists m cs, rlstart s K m st cs /\ Forall2 (carried P K) cs xs /\ st_placed P st.

Lemma rl_table_name l type :
  head l = Some (rl_name type) ->
  exists pre, rl_table l = Some (crdt_command pre (rl_effect type)).
Proof. intros H. unfold rl_table. rewrite H. destruct type; cbn; by eexists. Qed.

Lemma rl_receive s K l x st xs st' xs' :
  0 < p2p_count s -> rl_msg K l x -> rl_state s K st xs -> rl_deliver (st, xs) x = Ok (st', xs') ->
  exists s', receive rl_table s l = Ok s' /\ rl_state s' K st' xs' /\ is_list s' K /\ same_conf s s' /\ forall k, k <> K -> db s' !! k = db s !! k.
Proof.
  intros Hm (type & Hn & Hmsg) (m & cs & Hst & HF & Hpl) Hd. unfold receive. destruct (rl_table_name l type Hn) as (pre & ->).
  set (cl := mkClient l None true false []). set (w := mkWorld s (set_rargv cl (Some (l, Z.of_nat (length l)))) 0).
  destruct (wp_arrive pre (rl_effect type) w (fun r w' => r = None /\ eframe w w' K /\ rl_state (srv w') K st' xs' /\ is_list (srv w') K))
    as (r & w' & Hrun & -> & Hf & Hs' & Hl'); [done|by apply mode_on| |].
  { eapply wp_mono; [by eapply (wp_rl_effect P P_inj w l (Z.of_nat (length l)) K m st cs xs type x)|].
    intros r w' (-> & Hf & m' & q & cs' & Hv & HF' & Hpl'). split_and!; [done|by rewrite (ef_msg _ _ _ Hf)|done|done| |by eapply rlview_is_list].
    exists m', cs'. split; [|done]. left. by exists q. }
  rewrite (call_link _ s cl w' None); [|exact Hrun|done|by rewrite (ef_link _ _ _ Hf)]. cbn [mbind res_bind nsrv].
  exists (srv w'). split_and!; [done..|apply Hf|apply Hf].
Qed.

(** A run of messages. *)
Lemma rl_receive_all K ms : forall s st xs st' xs',
  0 < p2p_count s -> Forall (fun lx => rl_msg K lx.1 lx.2) ms -> rl_state s K st xs ->
  foldM rl_deliver (st, xs) ms.*2 = Ok (st', xs') ->
  exists s', foldM (receive rl_table) s ms.*1 = Ok s' /\ rl_state s' K st' xs' /\ (is_list s K \/ ms <> [] -> is_list s' K) /\
    same_conf s s' /\ forall k, k <> K -> db s' !! k = db s !! k.
Proof.
  induction ms as [|[l x] ms IH]; intros s st xs st' xs' Hm HF Hs Hd; cbn [fmap list_fmap foldM fst snd] in *.
  { injection Hd as <- <-. exists s. split_and!; try done. by intros [?|?]. }
  apply Forall_cons in HF as [Hx HF]. destruct (rl_deliver (st, xs) x) as [[st1 xs1]|] eqn:H1; [|done]. cbn [mbind res_bind] in Hd.
  destruct (rl_receive s K l x st xs st1 xs1) as (s1 & -> & Hs1 & Hl1 & Hc1 & Hk1); try done. cbn [mbind res_bind].
  destruct (IH s1 st1 xs1 st' xs') as (s' & Hrun & Hs' & Hl & Hc & Hk); try done; [by destruct Hc1 as (-> & _)|].
  exists s'. split; [done|]. split; [done|]. split; [intros _; apply Hl; by left|]. split; [|intros k Hne; by rewrite Hk, Hk1].
  destruct Hc1 as (?&?&?&?), Hc as (?&?&?&?). unfold same_conf. split_and!; congruence.
Qed.

(** A server without the list. *)
Lemma rl_state_new s K st :
  db s !! K = None -> (forall q, is_Some (heap s !! q) -> (q < next_addr s)%nat) -> rls_new (p2p_count s) (p2p_id s) = Ok st ->
  rl_state s K st [].
Proof.
  intros Hd Hh Hn. unfold rls_new in Hn. destruct (_vc_new _ _) as [c|] eqn:Hc; [|done]. injection Hn as <-.
  exists (mkLm ∅ ∅ [] 0 ∅), []. split; [|split; [constructor|done]]. right. split_and!; try done. by apply lview_empty.
Qed.

(** ** What a server shows *)

(** The properties of an element are written: an insert brings all of them. *)
Definition written (f : formats) : Prop := is_Some (f_font f) /\ is_Some (f_size f) /\ is_Some (f_color f).

Lemma update_written ty v t a : written (rl_formats a) -> written (rl_formats (rl_update ty v t a)).
Proof.
  intros (H1 & H2 & H3). unfold rl_update. destruct (prop_of_name ty) as [p|]; [|done].
  destruct (vc_cmp _ t <? 0); [|done]. destruct p as [[]|[]]; split_and!; cbn; done.
Qed.

Lemma payload_written o l b v : payload ro_t (rl_kind o) l b = Some v -> written (rl_formats v).
Proof.
  unfold payload. destruct (rl_kind o b) as [x| |] eqn:Hk; [|done..]. intros [= <-].
  assert (written (rl_formats x)) as Hx.
  { unfold rl_kind in Hk. destruct (decide (ro_id b = o)); [|done]. destruct (ro_act b); [|done..]. injection Hk as <-. by split_and!; eexists. }
  clear Hk. revert x Hx. induction l as [|c l IH]; intros x Hx; [done|]. cbn [foldl]. apply IH. unfold upd_step, rl_kind.
  destruct (decide (ro_id c = o)); [destruct (ro_act c) as [| |]|]; try done; (destruct (decide _); [|done]); [by apply update_written|done].
Qed.

(** The line RLLIST prints of the element [o], with a content that [has]. *)
Definition row_of (has : string -> string -> Prop) (o : string) (row : list reply) : Prop :=
  exists c v1 v2 v3 b, has o c /\ row = [RArray 6; RBulk o; RBulk c; RBulkInt v1; RBulkInt v2; RBulkInt v3; RBulkInt b].

(** The contents that inserts among [l] bring. *)
Definition said (l : list rl_op) (o c : string) : Prop :=
  exists y id vals bits, y ∈ l /\ ro_id y = o /\ ro_act y = RIns c id vals bits.

Definition seen (st : rls) (o : string) : bool := LOOKUP (rl_sets (rs_elem st o)).

Lemma show_seen n l st o :
  rl_reached n l st -> st_placed P st -> seen st o = true -> exists row, rl_show (rs_elem st o) = Ok row /\ row_of (said l) o row.
Proof.
  intros Hr Hpl Hs. unfold seen in Hs. unfold rl_show. rewrite Hs. pose proof (rl_all _ _ _ Hr o) as Ha.
  pose proof (reached_value ro_t (rl_kind o) l _ Ha) as Hv. pose proof (placed_elem P st o Hpl) as Hel. unfold el_placed in Hel. unfold rl_reply.
  destruct (rl_oid (rs_elem st o)) as [o'|]; [|destruct Hel as [_ Hn]; unfold LOOKUP in Hs; by rewrite Hn in Hs].
  destruct Hel as (-> & _ & _ & [c Hc]). rewrite Hc. cbn [of_option mbind res_bind].
  destruct (value (rl_sets (rs_elem st o))) as [p|]; [|rewrite (LOOKUP_spec ro_t (rl_kind o) l _ Ha), Hv in Hs; done].
  destruct Hv as (b & a & _ & Hd & (_ & _ & Hp)). apply payload_written in Hp as ([v1 H1] & [v2 H2] & [v3 H3]).
  cbn [of_option mbind res_bind]. rewrite Hd. cbn [mbind res_bind]. rewrite H1, H2, H3. cbn [of_option mbind res_bind].
  eexists. split; [done|]. exists c, v1, v2, v3. eexists. split; [|done]. unfold rs_elem in Hc.
  destruct (rs_els st !! o) as [e|] eqn:He; [|done]. by apply (rl_said _ _ _ Hr o e).
Qed.

Lemma rows_seen n l st ns :
  rl_reached n l st -> st_placed P st ->
  exists rws, rows rl_show (rs_elem st <$> ns) = Ok (concat rws) /\ Forall2 (row_of (said l)) (filter (fun o => seen st o = true) ns) rws.
Proof.
  intros Hr Hpl. induction ns as [|o ns (rws & Hrw & HF)]; [by exists []|]. cbn [fmap list_fmap rows].
  destruct (seen st o) eqn:Hs.
  - destruct (show_seen n l st o Hr Hpl Hs) as (row & -> & Hrow). cbn [mbind res_bind]. rewrite Hrw. cbn [mbind res_bind].
    exists (row :: rws). split; [done|]. rewrite filter_cons_True by done. by constructor.
  - assert (rl_show (rs_elem st o) = Ok []) as -> by (unfold rl_show, seen in *; by rewrite Hs). cbn [mbind res_bind]. rewrite Hrw. exists rws. split; [done|].
    rewrite filter_cons_False; [done|]. congruence.
Qed.

(** Elements in the order of their positions. *)
Definition comes_before (o o' : string) : Prop := exists i i', P o = Some i /\ P o' = Some i' /\ leid_lt i i'.

Lemma comes_before_irrefl o : ~ comes_before o o.
Proof. intros (i & i' & H & H' & Hlt). assert (i = i') as -> by congruence. by apply (irreflexivity leid_lt i'). Qed.

Lemma comes_before_asym o o' : comes_before o o' -> comes_before o' o -> o = o'.
Proof.
  intros (i & i' & H1 & H2 & Hlt) (j & j' & H3 & H4 & Hlt'). assert (j = i' /\ j' = i) as [-> ->] by (split; congruence).
  exfalso. apply (irreflexivity leid_lt i). by transitivity i'.
Qed.

Lemma sorted_filter (Q : string -> Prop) `{!forall o, Decision (Q o)} l : StronglySorted comes_before l -> StronglySorted comes_before (filter Q l).
Proof.
  induction 1 as [|o l Hs IH HF]; [constructor|]. destruct (decide (Q o)); [rewrite filter_cons_True by done|by rewrite filter_cons_False].
  constructor; [done|]. rewrite Forall_forall in *. intros o' [_ Ho']%list_elem_of_filter. by apply HF.
Qed.

Lemma sorted_nodup l : StronglySorted comes_before l -> NoDup l.
Proof.
  induction 1 as [|o l Hs IH HF]; constructor; [|done]. intros Ho. rewrite Forall_forall in HF. by apply (comes_before_irrefl o), HF.
Qed.

Lemma sorted_same l1 l2 : StronglySorted comes_before l1 -> StronglySorted comes_before l2 -> (forall o, o ∈ l1 <-> o ∈ l2) -> l1 = l2.
Proof.
  intros H1 H2 H. apply (StronglySorted_unique_strong comes_before); [|done|done|].
  - intros o o' _ _. apply comes_before_asym.
  - apply NoDup_Permutation; [by apply sorted_nodup..|done].
Qed.

(** The replies to RLLEN and RLLIST of the list [K]. *)
Definition rl_query (query : M E unit) (name K : string) s : res (list reply) :=
  r ← query (mkWorld s (mkClient [name; K] None false false []) 0); Ok (out (cli r.2)).
Definition rl_len (K : string) : server E -> res (list reply) := rl_query rllenCommand "rllen" K.
Definition rl_list (K : string) : server E -> res (list reply) := rl_query rllistCommand "rllist" K.

(** The names of the elements that have a position, in order. *)
Lemma names_in_order s h m st :
  hview rl_reserved s h m -> m_els m = rs_els st -> st_placed P st ->
  exists ns, in_order m (rs_elem st <$> ns) /\ StronglySorted comes_before ns /\ forall o, seen st o = true -> o ∈ ns.
Proof using P_inj.
  intros H He Hpl.
  destruct (proj1 (Forall_exists_Forall2_l (fun x o => m_ptrs m !! o = Some x.1 /\ rs_els st !! o = Some (rs_elem st o) /\ P o = Some x.2) (m_order m))) as (ns & HF).
  { apply Forall_forall. intros [p i] Hin. apply (hv_order _ _ _ _ H) in Hin as (o & e & Hp & Hel & Hi). exists o. rewrite He in Hel.
    unfold rs_elem. rewrite Hel. split_and!; try done. pose proof (Hpl _ _ Hel) as Hx. unfold el_placed in Hx. change (rl_pos e = Some i) in Hi.
    cbn. destruct (rl_oid e); [destruct Hx as (_ & Hx & _)|destruct Hx as [Hx _]]; congruence. }
  exists ns. split_and!.
  - unfold in_order. apply Forall2_fmap_r. eapply Forall2_impl; [exact HF|]. intros x o (Hp & Hel & _). exists o. by rewrite He.
  - pose proof (hv_ordered _ _ _ _ H) as [_ Hs]. clear -HF Hs. induction HF as [|x o l ns (_ & _ & Hx) HF IH]; [constructor|].
    cbn in Hs. apply StronglySorted_inv in Hs as [Hs Hall]. rewrite Forall_forall in Hall. constructor; [by apply IH|]. apply Forall_forall. intros o' [j Hj]%list_elem_of_lookup.
    destruct (Forall2_lookup_r _ _ _ _ _ HF Hj) as (x' & Hx' & (_ & _ & HP)). exists x.2, x'.2. split_and!; [done..|].
    apply Hall, list_elem_of_fmap. exists x'. split; [done|]. by eapply list_elem_of_lookup_2.
  - intros o Hs. unfold seen, rs_elem in Hs. destruct (rs_els st !! o) as [e|] eqn:Hel; [|done]. cbn in Hs. pose proof (Hpl _ _ Hel) as Hx. unfold el_placed in Hx.
    destruct (rl_oid e); [destruct Hx as (_ & Hpos & [i Hi] & _)|destruct Hx as [_ Hx]; unfold LOOKUP in Hs; by rewrite Hx in Hs].
    pose proof (hv_els _ _ _ _ H o) as Hy. destruct (m_ptrs m !! o) as [p|] eqn:Hp; [|congruence].
    assert ((p, i) ∈ m_order m) as [j Hj]%list_elem_of_lookup.
    { apply (hv_order _ _ _ _ H). exists o, e. split_and!; [done|by rewrite He|]. change (rl_pos e = Some i). congruence. }
    destruct (Forall2_lookup_l _ _ _ _ _ HF Hj) as (o' & Ho' & (Hp' & _)). assert (o' = o) as -> by (by eapply (hv_inj _ _ _ _ H)).
    by eapply list_elem_of_lookup_2.
Qed.

Lemma rl_answers s K st xs n l :
  rl_state s K st xs -> is_list s K -> rl_reached n l st ->
  exists os rws, rl_list K s = Ok (RArray (rs_len st) :: concat rws) /\ rl_len K s = Ok [RInt (rs_len st)] /\
    Forall2 (row_of (said l)) os rws /\ StronglySorted comes_before os /\ forall o, o ∈ os <-> seen st o = true.
Proof using P_inj.
  intros (m & cs & Hst & _ & Hpl) [h Hd] Hr.
  assert (lview rl_reserved s K m /\ m_els m = rs_els st /\ m_len m = rs_len st) as (Hv & He & Hl)
    by (destruct Hst as [[q [Hv He Hl _ _]]|(Hv & He & Hl & _)]; done).
  destruct (names_in_order s h m st (lview_hash _ _ _ _ _ Hv Hd) He Hpl) as (ns & Hin & Hs & Hall).
  destruct (rows_seen n l st ns Hr Hpl) as (rws & Hrw & HF). exists (filter (fun o => seen st o = true) ns), rws.
  destruct (listQuery_reads rl_reserved rl_show ltac:(by intros []) (mkWorld s (mkClient ["rllist"; K] None false false []) 0) K m _ _ Hv ltac:(by exists h) eq_refl eq_refl Hin Hrw)
    as (w1 & H1 & _ & Ho1).
  destruct (lenQuery_reads rl_reserved (mkWorld s (mkClient ["rllen"; K] None false false []) 0) K m Hv ltac:(by exists h) eq_refl eq_refl)
    as (w2 & H2 & _ & Ho2).
  rewrite Hl in Ho1, Ho2. split_and!.
  - unfold rl_list, rl_query, rllistCommand. rewrite H1. cbn [mbind res_bind]. f_equal. exact Ho1.
  - unfold rl_len, rl_query, rllenCommand. rewrite H2. cbn [mbind res_bind]. f_equal. exact Ho2.
  - exact HF.
  - by apply sorted_filter.
  - intros o. rewrite list_elem_of_filter. split; [tauto|]. intros Ho. split; [done|by apply Hall].
Qed.

(** A server of [n] that does not have the list yet. *)
Definition rl_fresh (n : nat) (K : string) s : Prop :=
  p2p_count s = Z.of_nat n /\ 0 <= p2p_id s < Z.of_nat n /\ db s !! K = None /\ forall q, is_Some (heap s !! q) -> (q < next_addr s)%nat.

(** An element is in the list when one of its inserts was seen by no other
    insert or remove of it, and every remove of it was seen by an insert. *)
Definition in_list (hist : list rl_op) (o : string) : Prop :=
  live_adds ro_t (rl_kind o) hist <> [] /\ live_rems ro_t (rl_kind o) hist = [].

Lemma seen_in_list n l hist st o : rl_reached n l st -> l ≡ₚ hist -> seen st o = true <-> in_list hist o.
Proof.
  intros Hr Hp. unfold seen, in_list. rewrite (LOOKUP_spec ro_t (rl_kind o) l _ (rl_all _ _ _ Hr o)), andb_true_iff, !bool_decide_eq_true.
  unfold live_adds, live_rems.
  by rewrite (perm_nil_iff _ _ (live_perm ro_t (is_add (rl_kind o)) _ _ _ Hp)), (perm_nil_iff _ _ (live_perm ro_t (is_rem (rl_kind o)) _ _ _ Hp)).
Qed.

Lemma said_perm l hist o c : l ≡ₚ hist -> said l o c -> said hist o c.
Proof. intros Hp (y & id & vals & bits & Hy & H). exists y, id, vals, bits. by rewrite <- Hp. Qed.

Lemma seen_length n l st os :
  rl_reached n l st -> StronglySorted comes_before os -> (forall o, o ∈ os <-> seen st o = true) -> rs_len st = i32 (Z.of_nat (length os)).
Proof.
  intros Hr Hs Ho. rewrite (rl_count _ _ _ Hr), <- (size_dom (D := gset string)). do 2 f_equal.
  rewrite <- (size_list_to_set (C := gset string) os (sorted_nodup _ Hs)). f_equal. apply set_eq. intros o.
  by rewrite visible_elem, elem_of_list_to_set, Ho.
Qed.

(** One server after all messages of a history. *)
Lemma rl_server_shows K n s hist ms :
  valid_history ro_t n hist.*2 -> Forall (fun lx => rl_msg K lx.1 lx.2) hist -> hist <> [] -> ms ≡ₚ hist -> rl_fresh n K s ->
  exists s' os rws, foldM (receive rl_table) s ms.*1 = Ok s' /\
    rl_len K s' = Ok [RInt (i32 (Z.of_nat (length os)))] /\ rl_list K s' = Ok (RArray (i32 (Z.of_nat (length os))) :: concat rws) /\
    Forall2 (row_of (said hist.*2)) os rws /\ StronglySorted comes_before os /\ forall o, o ∈ os <-> in_list hist.*2 o.
Proof using P_inj.
  intros Hh HF Hne Hp (Hc & Hid & Hd & Hheap). assert (ms.*2 ≡ₚ hist.*2) as Hp2 by (by rewrite Hp).
  destruct (rl_run_all n (p2p_id s) hist.*2 ms.*2 Hid Hh Hp2) as (st & x & Hrun & Hx & Hpx & Hr).
  destruct (rls_new (Z.of_nat n) (p2p_id s)) as [st0|] eqn:Hnew; [|done]. cbn [mbind res_bind] in Hrun.
  destruct (rl_receive_all K ms s st0 [] st []) as (s' & Hrs & Hs' & Hl & _ & _); [lia|by rewrite Hp| |done|].
  { apply rl_state_new; [done|done|]. by rewrite Hc. }
  assert (is_list s' K) as Hl'.
  { apply Hl. right. intros ->. by apply Permutation_nil in Hp. }
  destruct (rl_answers s' K st [] n x Hs' Hl' Hr) as (os & rws & H1 & H2 & H3 & H4 & H5).
  rewrite (seen_length n x st os Hr H4 H5) in H1, H2. exists s', os, rws. split_and!; try done.
  - eapply Forall2_impl; [exact H3|]. intros o row (c & v1 & v2 & v3 & b & Hsaid & Hrow). exists c, v1, v2, v3, b. split; [by eapply said_perm|done].
  - intros o. by rewrite H5, (seen_in_list n x hist.*2).
Qed.
End Servers.

Section Properties.
Context {E : Type} `{!Cell rle E, !Cell vc E, !Cell (list rl_cmd) E}.


End Properties.

(** The messages of [rl_sample]. *)
Definition rl_sample_words : list (list string) :=
  [["rlinsert"; "L"; "null"; "x"; "hello"; "1"; "2"; "3"; "0"; "7,0,1"; "1,0|0"];
   ["rlinsert"; "L"; "x"; "y"; "world"; "4"; "5"; "6"; "1"; "9,1,1"; "1,1|1"];
   ["rlrem"; "L"; "x"; "1,2|1"];
   ["rlupdate"; "L"; "x"; "size"; "8"; "2,0|0"];
   ["rlupdate"; "L"; "y"; "BOLD"; "0"; "3,1|0"]].
Definition rl_sample_msgs : list (list string * rl_op) := zip rl_sample_words rl_sample.

Definition rl_sample_pos (o : string) : option leid :=
  if decide (o = "x") then Some [mkPos 7 0 1] else if decide (o = "y") then Some [mkPos 9 1 1] else None.

Lemma rl_sample_pos_inj o o' i : rl_sample_pos o = Some i -> rl_sample_pos o' = Some i -> o = o'.
Proof. unfold rl_sample_pos. repeat case_decide; intros; congruence. Qed.

Lemma rl_sample_carried : Forall (fun lx => rl_msg rl_sample_pos "L" lx.1 lx.2) rl_sample_msgs.
Proof.
  repeat apply Forall_cons_2; try apply Forall_nil_2; cbn [fst snd].
  - exists RLADD. split; [done|]. split; [cbn; lia|]. split; [by eexists|]. exists "null". split.
    + split; [done|]. split; [done|]. split; cbn; try done; by eexists.
    + split; [apply (bool_decide_unpack _); reflexivity|]. split; [done|]. split; [apply (bool_decide_unpack _); reflexivity|].
      split; [done|]. split; [apply (bool_decide_unpack _); reflexivity|done].
  - exists RLADD. split; [done|]. split; [cbn; lia|]. split; [by eexists|]. exists "x". split.
    + split; [done|]. split; [done|]. split; cbn; try done; by eexists.
    + split; [apply (bool_decide_unpack _); reflexivity|]. split; [done|]. split; [apply (bool_decide_unpack _); reflexivity|].
      split; [done|]. split; [apply (bool_decide_unpack _); reflexivity|]. intros i [= <-]. apply leid_lt_head. by left.
  - exists RLREM. split; [done|]. split; [cbn; lia|]. split; [by eexists|]. exists "null". split; [by split_and!|].
    split; [apply (bool_decide_unpack _); reflexivity|done].
  - exists RLUPDATE. split; [done|]. split; [cbn; lia|]. split; [by eexists|]. exists "null". split; [split; [done|]; cbn; split_and!; try done; by eexists|].
    split; [apply (bool_decide_unpack _); reflexivity|done].
  - exists RLUPDATE. split; [done|]. split; [cbn; lia|]. split; [by eexists|]. exists "null". split; [split; [done|]; cbn; split_and!; try done; by eexists|].
    split; [apply (bool_decide_unpack _); reflexivity|done].
Qed.

Definition rl_replica (i : Z) : server rcell := mkServer 2 i [] (mkZcfg 128 64) ∅ ∅ 0 0 [].

Lemma rl_replica_fresh i : 0 <= i < 2 -> rl_fresh 2 "L" (rl_replica i).
Proof. intros Hi. split; [done|]. split; [cbn; lia|]. split; [done|]. by intros q [c Hc]. Qed.


